(* ===== verification/_CoqProject ===== *)
-Q . S2P
Prelude.v
Hash.v
CrushTypes.v
Ln.v
Nodes.v
Choose.v
ChoosePerm.v
ChooseSpec.v
Mapper.v
MapWf.v
FirstnSpec.v
IndepSpec.v
RuleSpec.v
ChooseProps.v
RuleProps.v
BuilderBase.v
Builder.v
BuilderMap.v
MakeSpec.v
TreeSpec.v
StrawSpec.v
EditBase.v
AddSpec.v
RemoveSpec.v
BuildProps.v
MapSpec.v
OutBuf.v
Utf8.v
Escape.v
Mime.v
CodecProps.v
StrHash.v
StdMap.v
IntervalSet.v
IntervalSpec.v
SnapSet.v
PoolSnapsProps.v
Pg.v
PgSpec.v
PgProps.v
CrushWrapper.v
CrushEdit.v
CrushEditSpec.v
CrushCutSpec.v
CrushPlaceSpec.v
OsdState.v
OsdMapping.v
OsdMappingSpec.v
OsdMappingProps.v
OsdIncr.v
OsdIncrSpec.v
OsdIncrProps.v
OsdQuery.v
Target.v
TargetProps.v
Sessions.v
SessionSpec.v
SessionProps.v
SessionScan.v
SessionRun.v
SessionClient.v
Striper.v
StriperSpec.v
StriperRead.v
Flock.v
FlockSpec.v
FlockStep.v
FlockSearch.v
FlockProps.v
Frag.v
FragSpec.v
FragLeafSpec.v
FragEditSpec.v
FragSetSpec.v
Cacher.v
CacherSpec.v
CacherRead.v
CacherIo.v
CacherBack.v
CacherProps.v
