(* ===== verification/Prelude.v ===== *)
(** * Verification of the placement and data-path core of ceph-dokan

    ceph-dokan is a port of the Ceph client library and of a Windows file
    system on top of it.  This library models the algorithms of that client
    that decide where data lives and in which bytes: the CRUSH placement
    algorithm and the construction of its maps, the cluster map with the
    mapping of objects to OSDs, the operations in flight to them, the striping of files over objects, snapshots
    and placement groups, the cache of an object's bytes, advisory file locks,
    directory fragments, and the sets, hashes and text codecs below them.

    ** How the parts of the program interact

    [Striper] cuts a range of a file into extents of objects.  An object name
    is hashed ([ceph_str_hash]) to a placement group of its pool ([pg_pool_t]);
    [OSDMap] maps the group to an ordered list of OSDs by running a CRUSH rule
    ([crush_do_rule]) and filtering its result by the state of the OSDs and the
    temporary mappings.  [OSDMap] advances by incrementals
    ([apply_incremental]).  CRUSH maps are built and edited by builder.c.
    Pools carry snapshots, whose removed ids are an [interval_set].  The answer
    of a read is put together from its extents again.  Between the file and the
    objects the ObjectCacher keeps bytes: its extents are those of the striper,
    and it reads and writes objects through a handler of the Objecter.  The
    metadata client finds the part of a directory that holds a name by the hash of
    the name in a tree of fragments.

    ** Files

    - Prelude: machine integers, outcomes, the state and error monad, arrays of
      cells that may be uninitialised, lists, arithmetic and bits, tactics.
    - crush/hash.c: Hash.  crush/crush.h, crush.c: CrushTypes.
      crush/crush_ln_table.h and [crush_ln]: Ln.
    - crush/mapper.c: Nodes (numbering of tree nodes), Choose (the
      bucket_*_choose functions), Mapper ([crush_choose_firstn],
      [crush_choose_indep], [crush_do_rule]).  Specifications: ChoosePerm,
      ChooseSpec, MapWf, FirstnSpec, IndepSpec, RuleSpec; theorems:
      ChooseProps, RuleProps, with the cluster at the end of RuleSpec.
    - crush/builder.c: BuilderBase (allocation, straw lengths), Builder (buckets),
      BuilderMap (rules and maps, and the reweighting).  Specifications:
      MakeSpec, TreeSpec, StrawSpec, EditBase, AddSpec, RemoveSpec; theorems: BuildProps, MapSpec.
    - common/armor.c, utf8.c, escape.c, mime.c: OutBuf (with armor.c), Utf8,
      Escape, Mime; theorems: CodecProps.
    - common/ceph_hash.cc: StrHash.
    - include/interval_set.h: IntervalSet on StdMap (ordered maps, keyed by
      numbers or names, and vectors); IntervalSpec;
      theorems: IntervalSpec.
    - osd/osd_types.cc, snapshots of pools: SnapSet, against the interface
      SnapSet, which interval sets implement; theorems: PoolSnapsProps.
    - osd/osd_types.cc, placement groups: Pg, PgSpec; theorems: PgProps.
    - crush/CrushWrapper.h, CrushWrapper.cc: CrushWrapper (tunables and rules;
      the tables of names, parents, full locations and distances, with their
      theorems), CrushEdit (the edits by location, and rules).  CrushEditSpec (maps
      as pictures, and weights carried to the buckets above), CrushCutSpec
      (removal), CrushPlaceSpec (locations and insertion), with the theorems.
    - osd/OSDMap.cc, OSDMap.h, msg/msg_types.h: OsdState (the OSDs and pools),
      OsdMapping (objects to OSDs), OsdIncr (incrementals), OsdQuery (the
      rest); OsdMappingSpec, OsdIncrSpec; theorems: OsdMappingProps,
      OsdIncrProps, OsdQuery.
    - osdc/Objecter.cc, Objecter.h: Target (the target of an operation, and of
      osd/osd_types.cc the intervals of a placement group), theorems: TargetProps;
      Sessions (the operations in flight, over the targets).  SessionSpec (the
      books that the Objecter keeps, and what each step does to them),
      SessionProps (submission, replies, cancellation, against the class [Targets] of
      what is asked of targets), SessionScan (new maps), SessionRun (the events and
      their histories, with the theorems), SessionClient (the instance: writes on
      a well-formed map, and a sample run).
    - osdc/Striper.cc, common/ceph_fs.cc, [_sg_read_finish] of osdc/Objecter.cc:
      Striper; StriperSpec, StriperRead; theorems: StriperRead.
    - mds/flock.cc: Flock; FlockSpec, FlockStep (cutting a lock, what
      owners have of the bytes while room is made, the loops),
      FlockSearch (and waiting, and the operations); theorems: FlockProps.

    - include/frag.h, include/ceph_frag.h, common/ceph_frag.cc: Frag (frag_t,
      fragtree_t and fragset_t); FragSpec (fragments as sets of values, and trees),
      FragLeafSpec (leaves), FragEditSpec (splits, merges), FragSetSpec; theorems:
      FragSetSpec.
    - osdc/ObjectCacher.cc, ObjectCacher.h: Cacher (one cached object and the
      statistics it enters); CacherSpec (the accounts, the shape of the buffers,
      what they show of each byte, splitting and merging), CacherRead ([is_cached],
      [map_read], [map_write], the body of [writex]), CacherIo ([_readx] up to its
      trim), CacherBack (the answers of the handler, write-back, [truncate],
      [discard], [trim], [release]); theorems:
      CacherProps.
    Names are those of the source where they are free; a loop or a branch that
    is a definition of its own is named after the function it belongs to.

    ** What the theorems show

    - CRUSH mapping.  On a well-formed map a sensible rule runs without a fault
      and returns valid items (total correctness, the retry loops and the
      descents included); the two common rules return devices that are
      distinct, reached and not marked out.  The choice of a bucket is
      independent of its permutation cache, and a straw2 bucket moves only the
      inputs it has to.
    - CRUSH building.  Each make and edit operation refines an operation on a
      list of items and a list of weights, for every outcome of the allocator and
      the edits that BuildProps allows ([add_allowed], [adjust_allowed], [removable]);
      the results are well-formed for the mapper.
    - Cluster map.  Mapping a group runs without a fault and yields exactly the
      filtered CRUSH result, primary and temporary override; incrementals act
      on each OSD as a function of its record; refusals, counts, affinity,
      walks over the OSDs that are up, and the proposals to drop temporary
      mappings.
    - Placement groups, snapshots, interval sets.  Splits move objects to
      children only; snapshot states reachable by the allowed operations are
      consistent; interval sets implement sets of numbers.
    - Targets.  A write goes to the primary of its placement group and is sent
      again exactly when the group or its primary changes, or a pause ends; a
      local read goes to the nearest OSD; an interval is closed exactly when the
      OSDs, the size or the splitting of the group change.
    - Operations in flight.  After any history of enabled events - submissions of
      fresh operations, cancellations, usable maps, answers of the monitors, waits,
      reset connections, and replies that are to operations that have been sent, do
      not carry -EAGAIN and redirect only to good places in pools that exist - the
      Objecter handles the next without a fault, each operation is in exactly one
      session under its tid, each context that the client handed over is either still
      held or has been completed once, and the counters bound what is
      in flight.  The effect of a submission, a reply, a cancellation and an
      answer of the monitors is stated exactly.
    - Names and locations.  Asking for a location ends on a map whose buckets lie in
      layers and have names, and yields the chain of the buckets above the item; the distance of
      two places is the lowest type they share.
    - Edits by location.  In a map of straw and straw2 buckets whose types grow
      towards the roots, changing a weight, putting a device in and taking an item
      out touch the item and its weight only, and leave every bucket with the
      weight that is entered for it in the buckets above.
    - Striping.  The extents of a range partition it, are mapped back to it,
      and a striped read of less than 4 GiB returns the bytes of the file.
    - Locks.  On locks that lie below 2^31 or are unbounded, the operations implement
      a map from owners and bytes to types; reachable states exclude conflicting locks.
    - Directory fragments.  The leaves of a tree partition the values and are
      found by lookup; a split refines and a merge coarsens exactly one fragment;
      [force_to_leaf] yields the leaf with the rest of the partition kept; a set
      of fragments covers what was inserted.
    - Object cache.  Every operation keeps the accounts and the shape of the
      buffers; through any history of reads, writes of one fragment, write-backs and
      flushes, commits, answers to reads whose buffer nothing has cut, trusted answers
      that there is no object, trims of clean or zero buffers, releases, truncations
      and discards of ranges nobody waits for, the bytes that can be read are those
      of the object; a read returns them or is deferred with its context kept.
    - Codecs.  Round trips, exact outputs and lengths, no write outside.

    ** How the code is modelled

    A run is a function of its state with a result in [res]: a value, or a
    fault (see [fault]).  Accesses outside an object, reads of uninitialised
    cells, failed assertions, division by zero and wide shifts are faults, so
    a theorem that a run returns [Ok] excludes them.  Integers are [Z] with the
    wrap-around of their width written at every operation that can leave it.

    Loops whose recursion is not structural take fuel, and running out is the
    fault [Diverge]; the total-correctness theorems show that the fuel in the
    definitions is enough: the retry loops of the mapper run at most as often
    as their tunables say, descents at most to the depth of the hierarchy, the
    walk over OSDs once around, the striping loop one turn per stripe unit,
    numbers are printed in at most 16 hexadecimal digits, a walk up a tree of
    fragments takes 26 turns (24 bits), walks down it as many as the tree has
    nodes, the walks over the buffers of an object two turns for each buffer and
    three more ([walk_fuel]), the way to the root of a CRUSH map one turn more than
    its height, the weight of an item is carried up in one turn more than the highest
    type, the rule of a pool takes what [crush_do_rule] asks for ([rule_fuel]), and
    the loop over the epochs of a message one turn for each epoch it can bring.

    - Memory.  Blocks of C arrays are lists of cells that hold a value or
      nothing yet; scratch areas are addressed by offsets.  Whether an
      allocation succeeds is decided by an oracle, one answer per call.
      Shrinking a block to nothing frees it and gives NULL, as glibc and MSVCRT do.
    - [double] is IEEE binary64 (SpecFloat); [pow] is a parameter.  Conversion
      to [__u32] is the truncation of a 64-bit integer, as on x86-64; [float] is
      binary32, and what does not fit an [int] becomes its least value.
    - [unsigned long] has a width parameter; [size_t] has 64 bits; [char] is
      signed; [printf] formats are functions to byte lists.
    - [std::map] is the ordered list of its pairs (or a gmap where the order
      is not observed), iterators are positions or identities, [std::vector]
      is a list with checked accesses, a bufferlist is the list of its bytes.
    - Objects shared by [shared_ptr] are modelled by value; where a claim is
      about the sharing ([deepish_copy_from]) the aliasing is explicit.
    - A buffer head is known by its start, the key under which its object maps
      it; a context is a number, and what it does when it is completed is an
      argument ([run]).
    - An [Op *] is a key of a heap, a session the number of its OSD, a connection
      its address.  What the Objecter sends and completes is a list of outputs.
      [rand()] and the settings are an argument.
    - Decoders of embedded encodings (full maps, CRUSH maps) are arguments.
    - AF_INET6 is 23, the value of Winsock.

    Bounds the theorems ask for are those of the types of the code, and:
    [SNAP_LIMIT] for snapshot ids, because [interval_set::size] returns an int;
    offsets of a cached object below 2^32, and scattered reads of less than 4 GiB,
    because [bufferlist] lengths are unsigned; pg_num up to 2^30 where a power of two is computed in an [int]; and the
    size of an object set below 2^32 in [get_num_objects]. Locks begin and, unless they
    have no end, end up to 2^31 ([LIMIT]), because a merged end is an int.

    ** Not modelled

    Of the ObjectCacher: the order of its LRU lists (which heads [trim] is given is
    an argument), closing an object that [trim] or [release] finds unused, the flusher
    thread, waiting writers ([writex] is given what they do), sets of objects, reads and writes of more than one
    extent, and the advice of a reader that it does not need the bytes again.
    Of the Objecter: watches and notifications, commands, operations on pools and
    statistics, listing, the budget of operations, timers and timeouts, the receive
    buffers, the locks (each event is atomic), reference counts, and the wrap-around
    of 64-bit tids.  Message handling, sessions, caches and timers of the client
    and the monitor client; messengers; authentication (its ciphers are not in
    the repository); encodings and dumps; configuration, logging, threads; the
    Dokan callbacks; vendored code (json_spirit, checksums, bloom filter); the
    text compiler of CRUSH maps, and the dumps of CrushWrapper; the destructors
    of crush.c.  They are I/O, glue, or concurrent code whose behaviour is
    decided by libraries outside the repository. *)

From stdpp Require Export prelude.
From Stdlib Require Export ZArith Lia Bool.
#[global] Open Scope Z_scope.

(** ** Machine integers

    A w-bit C integer is a [Z] in the range of its type; every conversion or
    arithmetic operation whose mathematical result may leave the range is
    followed by the wrap-around written here.  Signed conversions are the
    two's-complement ones of gcc. *)

Definition u8 (z : Z) : Z := z mod 256.
Definition u16 (z : Z) : Z := z mod 65536.
Definition u32 (z : Z) : Z := z mod 4294967296.
Definition u64 (z : Z) : Z := z mod 18446744073709551616.
Definition s32 (z : Z) : Z := (z + 2147483648) mod 4294967296 - 2147483648.
Definition s64 (z : Z) : Z :=
  (z + 9223372036854775808) mod 18446744073709551616 - 9223372036854775808.

Definition is_u8 (z : Z) : Prop := 0 <= z < 256.
Definition is_u32 (z : Z) : Prop := 0 <= z < 4294967296.
Definition is_s32 (z : Z) : Prop := -2147483648 <= z < 2147483648.

(** ** Outcomes

    A run of C code either produces a value or stops in a fault: an access
    outside an object, a read of an indeterminate cell, a null dereference, a
    failed [assert], a division by zero, an out-of-range shift count, a jump
    out of the tagged type of a bucket, or exhausted fuel ([Diverge]).  A total
    correctness statement excludes every fault, exhausted fuel included. *)

Inductive fault :=
  | OutOfBounds | Uninitialized | NullDeref | AssertFailed
  | DivByZero | BadShift | Diverge.

Inductive res (A : Type) : Type :=
  | Ok (a : A)
  | Fault (f : fault).
Arguments Ok {A} _.
Arguments Fault {A} _.

#[export] Instance fault_eq_dec : EqDecision fault.
Proof. solve_decision. Defined.

#[export] Instance res_eq_dec {A} `{EqDecision A} : EqDecision (res A).
Proof. solve_decision. Defined.

#[export] Instance res_ret : MRet res := λ A a, Ok a.
#[export] Instance res_bind : MBind res := λ A B k m,
  match m with Ok a => k a | Fault f => Fault f end.

(** State and faults: code that updates a store [S]. *)
Definition M (S A : Type) : Type := S → res (A * S).

#[export] Instance M_ret {S} : MRet (M S) := λ A a s, Ok (a, s).
#[export] Instance M_bind {S} : MBind (M S) := λ A B k m s,
  match m s with Ok (a, s') => k a s' | Fault f => Fault f end.

Definition lift {S A} (r : res A) : M S A := λ s,
  match r with Ok a => Ok (a, s) | Fault f => Fault f end.
Definition gets {S A} (f : S → A) : M S A := λ s, Ok (f s, s).
Definition modify {S} (f : S → S) : M S unit := λ s, Ok (tt, f s).

Definition assert_c (b : bool) : res unit :=
  if b then Ok tt else Fault AssertFailed.

(** ** Total-correctness predicates *)

Definition rwp {A} (r : res A) (Q : A → Prop) : Prop :=
  match r with Ok a => Q a | Fault _ => False end.

Definition wp {S A} (m : M S A) (s : S) (Q : A → S → Prop) : Prop :=
  rwp (m s) (λ '(a, s'), Q a s').

Lemma rwp_ok {A} (r : res A) (Q : A → Prop) : rwp r Q ↔ ∃ a, r = Ok a ∧ Q a.
Proof.
  destruct r as [a|f]; simpl; split; [eauto| |done|]; intros (b & [= <-] & Hb) || intros (b & [=] & _).
  done.
Qed.

Lemma rwp_bind {A B} (m : res A) (k : A → res B) (Q : B → Prop) :
  rwp (m ≫= k) Q ↔ rwp m (λ a, rwp (k a) Q).
Proof. by destruct m. Qed.

Lemma rwp_mono {A} (r : res A) (P Q : A → Prop) :
  rwp r P → (∀ a, P a → Q a) → rwp r Q.
Proof. destruct r; simpl; auto. Qed.

Lemma wp_bind {S A B} (m : M S A) (k : A → M S B) s (Q : B → S → Prop) :
  wp (m ≫= k) s Q ↔ wp m s (λ a s', wp (k a) s' Q).
Proof. unfold wp, mbind, M_bind. by destruct (m s) as [[]|]. Qed.

Lemma wp_mono {S A} (m : M S A) s (P Q : A → S → Prop) :
  wp m s P → (∀ a s', P a s' → Q a s') → wp m s Q.
Proof. unfold wp. intros H HPQ. eapply rwp_mono; [done|]. intros []; auto. Qed.

Lemma wp_lift {S A} (r : res A) (s : S) (Q : A → S → Prop) :
  wp (lift r) s Q ↔ rwp r (λ a, Q a s).
Proof. by destruct r. Qed.

Lemma wp_bind_eq {S A B} (m : M S A) (k : A → M S B) s a s' (Q : B → S → Prop) :
  m s = Ok (a, s') → wp (k a) s' Q → wp (m ≫= k) s Q.
Proof. intros Hm Hk. apply wp_bind. unfold wp at 1. by rewrite Hm. Qed.

Lemma wp_bind_mono {S A B} (m : M S A) (k : A → M S B) s (P : A → S → Prop) (Q : B → S → Prop) :
  wp m s P → (∀ a s', P a s' → wp (k a) s' Q) → wp (m ≫= k) s Q.
Proof. intros Hm Hk. apply wp_bind. eapply wp_mono; eauto. Qed.

Lemma wp_ret {S A} (a : A) (s : S) (Q : A → S → Prop) : Q a s → wp (mret a) s Q.
Proof. done. Qed.

(** ** C arrays

    A heap block is the list of its cells; a cell that was allocated and not
    written is [None].  [rd] and [wr] fault outside the block, [rd] also on an
    indeterminate cell; [rdc] copies a cell whatever it holds. *)

Definition cell : Type := option Z.
Definition carr : Type := list (option Z).

Definition cells (l : list Z) : carr := Some <$> l.

Definition rdc (a : list (option Z)) (i : Z) : res (option Z) :=
  if i <? 0 then Fault OutOfBounds
  else match a !! Z.to_nat i with
       | Some c => Ok c
       | None => Fault OutOfBounds
       end.

Definition rd (a : list (option Z)) (i : Z) : res Z :=
  c ← rdc a i;
  match c with Some v => Ok v | None => Fault Uninitialized end.

Definition wrc (a : list (option Z)) (i : Z) (c : option Z) : res (list (option Z)) :=
  if i <? 0 then Fault OutOfBounds
  else match a !! Z.to_nat i with
       | Some _ => Ok (<[Z.to_nat i := c]> a)
       | None => Fault OutOfBounds
       end.

Definition wr (a : list (option Z)) (i v : Z) : res (list (option Z)) := wrc a i (Some v).

(** [malloc]: [n] indeterminate cells.  [realloc]: the common prefix is kept,
    new cells are indeterminate. *)
Definition fresh_block (n : Z) : list (option Z) := replicate (Z.to_nat n) None.
Definition resize_block (a : list (option Z)) (n : Z) : list (option Z) :=
  take (Z.to_nat n) a ++ replicate (Z.to_nat n - length a) None.

(** An array of pointers: [None] is the null pointer. *)
Definition rdp {A} (a : list (option A)) (i : Z) : res (option A) :=
  if i <? 0 then Fault OutOfBounds
  else match a !! Z.to_nat i with
       | Some p => Ok p
       | None => Fault OutOfBounds
       end.

Definition deref {A} (p : option A) : res A :=
  match p with Some a => Ok a | None => Fault NullDeref end.

(** ** Counted loops

    [for_up n i body acc] is [for (; n > 0; n--, i++) acc = body(i, acc)]. *)
Fixpoint for_up {A} (n : nat) (i : Z) (body : Z → A → res A) (acc : A) : res A :=
  match n with
  | O => Ok acc
  | S n' => acc' ← body i acc; for_up n' (i + 1) body acc'
  end.

Lemma for_up_rule {A} (I : Z → A → Prop) (body : Z → A → res A) n : ∀ i acc,
  I i acc →
  (∀ j a, i <= j < i + Z.of_nat n → I j a → rwp (body j a) (I (j + 1))) →
  rwp (for_up n i body acc) (I (i + Z.of_nat n)).
Proof.
  induction n as [|n IH]; intros i acc HI Hb; simpl.
  { by replace (i + Z.of_nat 0) with i by lia. }
  apply rwp_bind. eapply rwp_mono; [apply Hb; [lia|done]|].
  intros a Ha. replace (i + Z.of_nat (S n)) with (i + 1 + Z.of_nat n) by lia.
  apply IH; [done|]. intros j a' Hj. apply Hb. lia.
Qed.

(** ** Facts on machine integers *)

Lemma u8_range z : 0 <= u8 z < 256.
Proof. apply Z.mod_pos_bound; lia. Qed.
Lemma u16_range z : 0 <= u16 z < 65536.
Proof. apply Z.mod_pos_bound; lia. Qed.
Lemma u32_range z : is_u32 (u32 z).
Proof. apply Z.mod_pos_bound; lia. Qed.
Lemma u64_range z : 0 <= u64 z < 18446744073709551616.
Proof. apply Z.mod_pos_bound; lia. Qed.
Lemma s32_range z : is_s32 (s32 z).
Proof. unfold s32, is_s32. pose proof (Z.mod_pos_bound (z + 2147483648) 4294967296). lia. Qed.

Lemma u8_small z : 0 <= z < 256 → u8 z = z.
Proof. apply Z.mod_small. Qed.
Lemma u16_small z : 0 <= z < 65536 → u16 z = z.
Proof. apply Z.mod_small. Qed.
Lemma u32_small z : is_u32 z → u32 z = z.
Proof. apply Z.mod_small. Qed.
Lemma u32_add_l a b : u32 (u32 a + b) = u32 (a + b).
Proof. unfold u32. by rewrite Zplus_mod_idemp_l. Qed.
Lemma u32_add_r a b : u32 (a + u32 b) = u32 (a + b).
Proof. unfold u32. by rewrite Zplus_mod_idemp_r. Qed.
Lemma u64_small z : 0 <= z < 18446744073709551616 → u64 z = z.
Proof. apply Z.mod_small. Qed.
Lemma s32_small z : is_s32 z → s32 z = z.
Proof. unfold s32, is_s32. intros. rewrite Z.mod_small; lia. Qed.
Lemma s64_small z : -9223372036854775808 <= z < 9223372036854775808 → s64 z = z.
Proof. unfold s64. intros. rewrite Z.mod_small; lia. Qed.

Lemma u32_s32 z : u32 (s32 z) = u32 z.
Proof.
  unfold u32, s32. rewrite Zminus_mod, Z.mod_mod by lia.
  rewrite <- Zminus_mod. f_equal. lia.
Qed.

Lemma u32_u32 z : u32 (u32 z) = u32 z.
Proof. apply Z.mod_mod. lia. Qed.

Lemma land_range a m k : 0 <= k → m = 2 ^ k - 1 → 0 <= Z.land a m < 2 ^ k.
Proof.
  intros Hk ->. replace (2 ^ k - 1) with (Z.ones k) by (rewrite Z.ones_equiv; lia).
  rewrite Z.land_ones by lia. apply Z.mod_pos_bound. lia.
Qed.

Lemma land_ffff a : 0 <= Z.land a 65535 < 65536.
Proof. apply (land_range a 65535 16); [lia|reflexivity]. Qed.

Create HintDb width discriminated.
#[export] Hint Resolve u8_range u16_range u32_range u64_range s32_range land_ffff : width.

(** ** Facts on arrays *)

(** The first cells of [a] hold the values [l]; cells after them are spare. *)
Definition holds (a : list (option Z)) (l : list Z) : Prop := ∃ r, a = cells l ++ r.

Lemma length_cells l : length (cells l) = length l.
Proof. apply length_fmap. Qed.

Lemma cells_app l k : cells (l ++ k) = cells l ++ cells k.
Proof. apply fmap_app. Qed.

Lemma holds_cells l : holds (cells l) l.
Proof. exists []. by rewrite app_nil_r. Qed.

Lemma holds_nil a : holds a [].
Proof. by exists a. Qed.

Lemma holds_length a l : holds a l → (length l <= length a)%nat.
Proof. intros [r ->]. rewrite length_app, length_cells. lia. Qed.

Lemma holds_lookup a l i v : holds a l → l !! i = Some v → a !! i = Some (Some v).
Proof.
  intros [r ->] Hl. rewrite lookup_app_l by
    (rewrite length_cells; by eapply lookup_lt_Some).
  unfold cells. by rewrite list_lookup_fmap, Hl.
Qed.

Lemma rd_holds a l i v :
  holds a l → 0 <= i → l !! Z.to_nat i = Some v → rd a i = Ok v.
Proof.
  intros Ha Hi Hl. unfold rd, rdc. rewrite (proj2 (Z.ltb_ge i 0)) by lia.
  by rewrite (holds_lookup a l _ v) by done.
Qed.

Lemma rd_at a l i v : holds a l → l !! i = Some v → rd a (Z.of_nat i) = Ok v.
Proof. intros. eapply rd_holds; [done|lia|]. by rewrite Nat2Z.id. Qed.

Lemma holds_insert a l i v :
  holds a l → (i < length l)%nat → holds (<[i := Some v]> a) (<[i := v]> l).
Proof.
  intros [r ->] Hi. exists r. rewrite insert_app_l by (by rewrite length_cells).
  unfold cells. by rewrite list_fmap_insert.
Qed.

Lemma wr_ok a i v :
  0 <= i < Z.of_nat (length a) → wr a i v = Ok (<[Z.to_nat i := Some v]> a).
Proof.
  intros Hi. unfold wr, wrc. rewrite (proj2 (Z.ltb_ge i 0)) by lia.
  destruct (lookup_lt_is_Some_2 a (Z.to_nat i)) as [c ->]; [lia|done].
Qed.

(** Writing the first spare cell extends what the block holds. *)
Lemma holds_snoc a l v :
  holds a l → (length l < length a)%nat →
  holds (<[length l := Some v]> a) (l ++ [v]).
Proof.
  intros [r ->] Hlt. rewrite length_app, length_cells in Hlt.
  destruct r as [|c r]; simpl in Hlt; [lia|]. exists r.
  rewrite insert_app_r_alt by (rewrite length_cells; lia).
  rewrite length_cells, Nat.sub_diag, cells_app, <- app_assoc. done.
Qed.

Lemma length_fresh_block n : length (fresh_block n) = Z.to_nat n.
Proof. apply length_replicate. Qed.

Lemma length_resize_block a n : length (resize_block a n) = Z.to_nat n.
Proof.
  unfold resize_block. rewrite length_app, length_take, length_replicate. lia.
Qed.

Lemma holds_resize a l n :
  holds a l → Z.of_nat (length l) <= n → holds (resize_block a n) l.
Proof.
  intros [r ->] Hn. unfold resize_block.
  rewrite take_app_ge by (rewrite length_cells; lia).
  rewrite <- app_assoc. by eexists.
Qed.

Lemma holds_take a l k : holds a l → holds (take k a) (take k l).
Proof.
  intros [r ->]. rewrite take_app. unfold cells at 1. rewrite <- fmap_take. by eexists.
Qed.

(** Values at consecutive cells from [base]. *)
Definition region (mem : list (option Z)) (base : Z) (l : list Z) : Prop :=
  ∀ i v, l !! i = Some v → mem !! Z.to_nat (base + Z.of_nat i) = Some (Some v).

(** Only the cells in [W] may differ. *)
Definition keeps (W : Z → Prop) (mem mem' : list (option Z)) : Prop :=
  length mem' = length mem ∧
  ∀ i, 0 <= i → ¬ W i → mem' !! Z.to_nat i = mem !! Z.to_nat i.

Lemma keeps_refl W mem : keeps W mem mem.
Proof. done. Qed.

Lemma keeps_trans W mem mem' mem'' : keeps W mem mem' → keeps W mem' mem'' → keeps W mem mem''.
Proof. intros [L1 K1] [L2 K2]. split; [congruence|]. intros i Hi Hn. rewrite K2, K1; done. Qed.

Lemma keeps_mono (W W' : Z → Prop) mem mem' :
  keeps W mem mem' → (∀ i, W i → W' i) → keeps W' mem mem'.
Proof. intros [L K] HW. split; [done|]. intros i Hi Hn. apply K; auto. Qed.

Lemma keeps_insert (W : Z → Prop) mem i c :
  0 <= i → W i → keeps W mem (<[Z.to_nat i := c]> mem).
Proof.
  intros Hi HW. split; [apply length_insert|]. intros j Hj Hn.
  apply list_lookup_insert_ne. intros E. apply Hn. by replace j with i by lia.
Qed.

Lemma region_keeps W mem mem' base l :
  region mem base l → keeps W mem mem' → 0 <= base →
  (∀ i, base <= i < base + Z.of_nat (length l) → ¬ W i) → region mem' base l.
Proof.
  intros Hr [_ K] Hb HW i v Hi. rewrite K; [by apply Hr|lia|].
  apply HW. apply lookup_lt_Some in Hi. lia.
Qed.

Lemma region_snoc mem base l v :
  region mem base l → mem !! Z.to_nat (base + Z.of_nat (length l)) = Some (Some v) →
  region mem base (l ++ [v]).
Proof.
  intros Hr Hv i w [Hi|[Hge Hi]]%lookup_app_Some; [by apply Hr|].
  apply list_lookup_singleton_Some in Hi as [E ->].
  by replace i with (length l) by lia.
Qed.

Lemma region_nil mem base : region mem base [].
Proof. done. Qed.

Lemma region_app mem base l k :
  region mem base l → region mem (base + Z.of_nat (length l)) k → region mem base (l ++ k).
Proof.
  intros Hl Hk i v [Hi|[Hge Hi]]%lookup_app_Some; [by apply Hl|].
  apply Hk in Hi. by replace (base + Z.of_nat i)
    with (base + Z.of_nat (length l) + Z.of_nat (i - length l)) by lia.
Qed.

(** One cell of a region was rewritten. *)
Lemma region_update mem mem' base l k v :
  region mem base l → 0 <= base → (k < length l)%nat →
  keeps (λ i, i = base + Z.of_nat k) mem mem' →
  mem' !! Z.to_nat (base + Z.of_nat k) = Some (Some v) → region mem' base (<[k := v]> l).
Proof.
  intros Hr Hb Hk [_ K] Hv i w Hi. destruct (decide (i = k)) as [->|Hne].
  - rewrite list_lookup_insert_eq in Hi by done. by simplify_eq.
  - rewrite list_lookup_insert_ne in Hi by done. rewrite K; [by apply Hr|lia|]. lia.
Qed.

Lemma region_bound mem base l :
  region mem base l → 0 <= base → l ≠ [] → base + Z.of_nat (length l) <= Z.of_nat (length mem).
Proof.
  intros Hr Hb Hl. destruct (lookup_lt_is_Some_2 l (length l - 1)) as [v Hv].
  { destruct l; [done|simpl; lia]. }
  apply Hr, lookup_lt_Some in Hv. destruct l; [done|simpl in *; lia].
Qed.

Lemma region_rd mem base l i v :
  region mem base l → 0 <= base → 0 <= i → l !! Z.to_nat i = Some v → rd mem (base + i) = Ok v.
Proof.
  intros Hr Hb Hi Hl. unfold rd, rdc. rewrite (proj2 (Z.ltb_ge _ 0)) by lia.
  pose proof (Hr _ _ Hl) as H. rewrite Z2Nat.id in H by lia. by rewrite H.
Qed.

(** [more] is acceptable after [before]. *)
Definition fresh_after (P : Z → Prop) (before more : list Z) : Prop :=
  Forall P more ∧ NoDup more ∧ ∀ y, y ∈ more → (y ∉ before).

Lemma fresh_after_nil P before : fresh_after P before [].
Proof. split; [constructor|]. split; [constructor|]. set_solver. Qed.

Lemma fresh_after_cons (P : Z → Prop) before y more :
  P y → (y ∉ before) → fresh_after P (before ++ [y]) more → fresh_after P before (y :: more).
Proof.
  intros Hy Hn (Hf & Hd & Hb). split; [by constructor|]. split.
  - constructor; [|done]. intros Hin. apply (Hb y Hin). set_solver.
  - intros z [->|Hz]%elem_of_cons; [done|]. intros Hin. apply (Hb z Hz). set_solver.
Qed.

Create HintDb carr discriminated.
#[export] Hint Resolve holds_cells holds_nil holds_insert holds_resize : carr.
