(* ===== verification/Hash.v ===== *)
(** * The CRUSH hash functions (src/crush/hash.c)

    Robert Jenkins' 32-bit mix and the one- to five-argument hashes built on
    it.  The mix is shown to lose no information, every hash to be a 32-bit
    value, and an unknown hash type to hash everything to zero. *)

From stdpp Require Import strings.
From S2P Require Import Prelude.

(** The macro [crush_hashmix]: the three variables before and after. *)
Record mixed := Mixed { mx_a : Z; mx_b : Z; mx_c : Z }.

(** One line of the macro, [p = p-q; p = p-r; p = p^(sh r)]. *)
Definition mixline (p q r s : Z) : Z := Z.lxor (u32 (u32 (p - q) - r)) s.

(** Three consecutive lines; the shift counts are the only difference between
    the three groups of the macro. *)
Definition mixround (i j k : Z) (m : mixed) : mixed :=
  let '(Mixed a b c) := m in
  let a := mixline a b c (Z.shiftr c i) in
  let b := mixline b c a (u32 (Z.shiftl a j)) in
  let c := mixline c a b (Z.shiftr b k) in
  Mixed a b c.

Definition crush_hashmix (a b c : Z) : mixed :=
  mixround 3 10 15 (mixround 12 16 5 (mixround 13 8 13 (Mixed a b c))).

Definition crush_hash_seed : Z := 1315423911.

Definition crush_hash32_rjenkins1 (a : Z) : Z :=
  let hash := Z.lxor crush_hash_seed a in
  let b := a in
  let x := 231232 in
  let y := 1232 in
  let '(Mixed b x hash) := crush_hashmix b x hash in
  let '(Mixed y a hash) := crush_hashmix y a hash in
  hash.

Definition crush_hash32_rjenkins1_2 (a b : Z) : Z :=
  let hash := Z.lxor (Z.lxor crush_hash_seed a) b in
  let x := 231232 in
  let y := 1232 in
  let '(Mixed a b hash) := crush_hashmix a b hash in
  let '(Mixed x a hash) := crush_hashmix x a hash in
  let '(Mixed b y hash) := crush_hashmix b y hash in
  hash.

Definition crush_hash32_rjenkins1_3 (a b c : Z) : Z :=
  let hash := Z.lxor (Z.lxor (Z.lxor crush_hash_seed a) b) c in
  let x := 231232 in
  let y := 1232 in
  let '(Mixed a b hash) := crush_hashmix a b hash in
  let '(Mixed c x hash) := crush_hashmix c x hash in
  let '(Mixed y a hash) := crush_hashmix y a hash in
  let '(Mixed b x hash) := crush_hashmix b x hash in
  let '(Mixed y c hash) := crush_hashmix y c hash in
  hash.

Definition crush_hash32_rjenkins1_4 (a b c d : Z) : Z :=
  let hash := Z.lxor (Z.lxor (Z.lxor (Z.lxor crush_hash_seed a) b) c) d in
  let x := 231232 in
  let y := 1232 in
  let '(Mixed a b hash) := crush_hashmix a b hash in
  let '(Mixed c d hash) := crush_hashmix c d hash in
  let '(Mixed a x hash) := crush_hashmix a x hash in
  let '(Mixed y b hash) := crush_hashmix y b hash in
  let '(Mixed c x hash) := crush_hashmix c x hash in
  let '(Mixed y d hash) := crush_hashmix y d hash in
  hash.

Definition crush_hash32_rjenkins1_5 (a b c d e : Z) : Z :=
  let hash := Z.lxor (Z.lxor (Z.lxor (Z.lxor (Z.lxor crush_hash_seed a) b) c) d) e in
  let x := 231232 in
  let y := 1232 in
  let '(Mixed a b hash) := crush_hashmix a b hash in
  let '(Mixed c d hash) := crush_hashmix c d hash in
  let '(Mixed e x hash) := crush_hashmix e x hash in
  let '(Mixed y a hash) := crush_hashmix y a hash in
  let '(Mixed b x hash) := crush_hashmix b x hash in
  let '(Mixed y c hash) := crush_hashmix y c hash in
  let '(Mixed d x hash) := crush_hashmix d x hash in
  let '(Mixed y e hash) := crush_hashmix y e hash in
  hash.

(** The exported functions take [__u32] arguments: callers pass [int]s, which
    the call converts. *)
Definition CRUSH_HASH_RJENKINS1 : Z := 0.

Definition crush_hash32 (type a : Z) : Z :=
  if type =? CRUSH_HASH_RJENKINS1 then crush_hash32_rjenkins1 (u32 a) else 0.

Definition crush_hash32_2 (type a b : Z) : Z :=
  if type =? CRUSH_HASH_RJENKINS1 then crush_hash32_rjenkins1_2 (u32 a) (u32 b) else 0.

Definition crush_hash32_3 (type a b c : Z) : Z :=
  if type =? CRUSH_HASH_RJENKINS1
  then crush_hash32_rjenkins1_3 (u32 a) (u32 b) (u32 c) else 0.

Definition crush_hash32_4 (type a b c d : Z) : Z :=
  if type =? CRUSH_HASH_RJENKINS1
  then crush_hash32_rjenkins1_4 (u32 a) (u32 b) (u32 c) (u32 d) else 0.

Definition crush_hash32_5 (type a b c d e : Z) : Z :=
  if type =? CRUSH_HASH_RJENKINS1
  then crush_hash32_rjenkins1_5 (u32 a) (u32 b) (u32 c) (u32 d) (u32 e) else 0.

Definition crush_hash_name (type : Z) : string :=
  if type =? CRUSH_HASH_RJENKINS1 then "rjenkins1" else "unknown".

(** ** Range of the hashes *)

Lemma lxor_u32 a b : is_u32 a → is_u32 b → is_u32 (Z.lxor a b).
Proof.
  unfold is_u32. change 4294967296 with (2 ^ 32). intros Ha Hb.
  assert (0 <= Z.lxor a b) by (apply Z.lxor_nonneg; lia).
  split; [done|]. apply Z.bounded_iff_bits_nonneg; [lia|done|]. intros l Hl.
  rewrite Z.lxor_spec.
  rewrite (proj1 (Z.bounded_iff_bits_nonneg 32 a ltac:(lia) ltac:(lia)) ltac:(lia) l Hl).
  by rewrite (proj1 (Z.bounded_iff_bits_nonneg 32 b ltac:(lia) ltac:(lia)) ltac:(lia) l Hl).
Qed.

Lemma shiftr_u32 a k : 0 <= k → is_u32 a → is_u32 (Z.shiftr a k).
Proof.
  unfold is_u32. intros Hk Ha. rewrite Z.shiftr_div_pow2 by done.
  split; [apply Z.div_pos; lia|]. pose proof (Z.div_le_upper_bound a (2 ^ k) a).
  assert (1 <= 2 ^ k) by (pose proof (Z.pow_pos_nonneg 2 k); lia). nia.
Qed.

Lemma mixline_u32 p q r s : is_u32 s → is_u32 (mixline p q r s).
Proof. intros. apply lxor_u32; [apply u32_range|done]. Qed.

Lemma seed_u32 : is_u32 crush_hash_seed.
Proof. by split. Qed.

Create HintDb hash discriminated.
#[export] Hint Resolve lxor_u32 mixline_u32 seed_u32 u32_range : hash.
#[export] Hint Extern 2 (is_u32 (Z.shiftr _ _)) => (apply shiftr_u32; [lia|]) : hash.
#[export] Hint Extern 1 (is_u32 (Zpos _)) => (split; reflexivity || discriminate) : hash.

(** The three variables after a mix, given that they are 32-bit before it. *)
Definition mixed_u32 (m : mixed) : Prop := is_u32 (mx_a m) ∧ is_u32 (mx_b m) ∧ is_u32 (mx_c m).

Lemma mixround_u32 i j k m :
  0 <= i → 0 <= k → is_u32 (mx_c m) → mixed_u32 (mixround i j k m).
Proof.
  destruct m as [a b c]. intros Hi Hk Hc. unfold mixround.
  assert (is_u32 (mixline a b c (Z.shiftr c i))) as Ha' by auto using mixline_u32, shiftr_u32.
  generalize dependent (mixline a b c (Z.shiftr c i)). intros a' Ha'.
  assert (is_u32 (mixline b c a' (u32 (Z.shiftl a' j)))) as Hb' by auto with hash.
  generalize dependent (mixline b c a' (u32 (Z.shiftl a' j))). intros b' Hb'.
  repeat split; simpl; try apply Ha'; try apply Hb'; apply mixline_u32, shiftr_u32; done.
Qed.

Lemma crush_hashmix_u32 a b c : is_u32 c → mixed_u32 (crush_hashmix a b c).
Proof.
  intros Hc. unfold crush_hashmix.
  pose proof (mixround_u32 13 8 13 (Mixed a b c) ltac:(lia) ltac:(lia) Hc) as (_ & _ & H1).
  pose proof (mixround_u32 12 16 5 _ ltac:(lia) ltac:(lia) H1) as (_ & _ & H2).
  by apply mixround_u32.
Qed.

Ltac mix_step :=
  match goal with
  | |- context [match crush_hashmix ?a ?b ?c with _ => _ end] =>
      let Hc := fresh in let H := fresh in
      assert (is_u32 c) as Hc by (auto 10 with hash);
      destruct (crush_hashmix_u32 a b c Hc) as (_ & _ & H);
      destruct (crush_hashmix a b c); simpl in H
  end.

Section hash_range.
Context (a b c d e : Z) (Ha : is_u32 a) (Hb : is_u32 b) (Hc : is_u32 c)
  (Hd : is_u32 d) (He : is_u32 e).

Lemma rjenkins1_u32 : is_u32 (crush_hash32_rjenkins1 a).
Proof using Ha. unfold crush_hash32_rjenkins1. cbv zeta. repeat mix_step. done. Qed.
Lemma rjenkins1_2_u32 : is_u32 (crush_hash32_rjenkins1_2 a b).
Proof using Ha Hb. unfold crush_hash32_rjenkins1_2. cbv zeta. repeat mix_step. done. Qed.
Lemma rjenkins1_3_u32 : is_u32 (crush_hash32_rjenkins1_3 a b c).
Proof using Ha Hb Hc. unfold crush_hash32_rjenkins1_3. cbv zeta. repeat mix_step. done. Qed.
Lemma rjenkins1_4_u32 : is_u32 (crush_hash32_rjenkins1_4 a b c d).
Proof using Ha Hb Hc Hd. unfold crush_hash32_rjenkins1_4. cbv zeta. repeat mix_step. done. Qed.
Lemma rjenkins1_5_u32 : is_u32 (crush_hash32_rjenkins1_5 a b c d e).
Proof using Ha Hb Hc Hd He. unfold crush_hash32_rjenkins1_5. cbv zeta. repeat mix_step. done. Qed.
End hash_range.

Lemma zero_u32 : is_u32 0.
Proof. by split. Qed.

(** Every exported hash is a 32-bit value, whatever [int]s it is given. *)
Lemma crush_hash32_2_u32 t a b : is_u32 (crush_hash32_2 t a b).
Proof. unfold crush_hash32_2. case_match; [apply rjenkins1_2_u32; apply u32_range|apply zero_u32]. Qed.
Lemma crush_hash32_3_u32 t a b c : is_u32 (crush_hash32_3 t a b c).
Proof. unfold crush_hash32_3. case_match; [apply rjenkins1_3_u32; apply u32_range|apply zero_u32]. Qed.
Lemma crush_hash32_4_u32 t a b c d : is_u32 (crush_hash32_4 t a b c d).
Proof. unfold crush_hash32_4. case_match; [apply rjenkins1_4_u32; apply u32_range|apply zero_u32]. Qed.
#[export] Hint Resolve crush_hash32_2_u32 crush_hash32_3_u32 crush_hash32_4_u32 : hash.

(** ** The mix loses no information *)

(** The inverse of one line of the macro. *)
Definition unmixline (p q r s : Z) : Z := u32 (u32 (Z.lxor p s + r) + q).

Lemma unmixline_mixline p q r s : is_u32 p → unmixline (mixline p q r s) q r s = p.
Proof.
  intros Hp. unfold unmixline, mixline.
  rewrite Z.lxor_assoc, Z.lxor_nilpotent, Z.lxor_0_r.
  unfold u32. rewrite Zplus_mod_idemp_l, <- Z.add_assoc, Zplus_mod_idemp_l.
  replace ((p - q) mod 4294967296 - r + (r + q)) with ((p - q) mod 4294967296 + q) by lia.
  rewrite Zplus_mod_idemp_l. replace (p - q + q) with p by lia. by apply Z.mod_small.
Qed.

(** The macro run backwards, group by group. *)
Definition unmixround (i j k : Z) (m : mixed) : mixed :=
  let '(Mixed a b c) := m in
  let c := unmixline c a b (Z.shiftr b k) in
  let b := unmixline b c a (u32 (Z.shiftl a j)) in
  let a := unmixline a b c (Z.shiftr c i) in
  Mixed a b c.

Definition crush_hashunmix (m : mixed) : mixed :=
  unmixround 13 8 13 (unmixround 12 16 5 (unmixround 3 10 15 m)).

Lemma unmixround_mixround i j k m : mixed_u32 m → unmixround i j k (mixround i j k m) = m.
Proof.
  destruct m as [a b c]. intros (Ha & Hb & Hc). simpl in *.
  by rewrite !unmixline_mixline.
Qed.

Lemma crush_hashunmix_mix m :
  mixed_u32 m → crush_hashunmix (crush_hashmix (mx_a m) (mx_b m) (mx_c m)) = m.
Proof.
  intros Hm. destruct m as [a b c]. unfold crush_hashunmix, crush_hashmix. simpl mx_a.
  simpl mx_b. simpl mx_c.
  pose proof (mixround_u32 13 8 13 (Mixed a b c) ltac:(lia) ltac:(lia) (proj2 (proj2 Hm))) as H1.
  pose proof (mixround_u32 12 16 5 _ ltac:(lia) ltac:(lia) (proj2 (proj2 H1))) as H2.
  by rewrite !unmixround_mixround.
Qed.
