(* ===== verification/CrushTypes.v ===== *)
(** * The CRUSH data model (src/crush/crush.h) and src/crush/crush.c

    Buckets, rules and maps as records, the weight lookup and the overflow
    tests. *)

From stdpp Require Import strings.
From S2P Require Import Prelude.

(** ** Constants *)

Definition CRUSH_MAX_DEPTH : Z := 10.
Definition CRUSH_MAX_RULES : Z := 256.
Definition CRUSH_ITEM_UNDEF : Z := 2147483646.
Definition CRUSH_ITEM_NONE : Z := 2147483647.

Definition CRUSH_BUCKET_UNIFORM : Z := 1.
Definition CRUSH_BUCKET_LIST : Z := 2.
Definition CRUSH_BUCKET_TREE : Z := 3.
Definition CRUSH_BUCKET_STRAW : Z := 4.
Definition CRUSH_BUCKET_STRAW2 : Z := 5.

Definition CRUSH_LEGACY_ALLOWED_BUCKET_ALGS : Z :=
  Z.lor (Z.lor (Z.shiftl 1 CRUSH_BUCKET_UNIFORM) (Z.shiftl 1 CRUSH_BUCKET_LIST))
        (Z.shiftl 1 CRUSH_BUCKET_STRAW).

Definition ENOENT : Z := 2.
Definition ENOMEM : Z := 12.
Definition EEXIST : Z := 17.
Definition EINVAL : Z := 22.
Definition ENOSPC : Z := 28.
Definition EDOM : Z := 33.
Definition ERANGE : Z := 34.

(** ** Rules *)

(** The op codes of [crush_rule_step]; a code outside the enumeration is
    [RULE_OTHER] and so is [CRUSH_RULE_NOOP], which no case handles. *)
Inductive rule_op :=
  | CRUSH_RULE_TAKE
  | CRUSH_RULE_CHOOSE_FIRSTN
  | CRUSH_RULE_CHOOSE_INDEP
  | CRUSH_RULE_EMIT
  | CRUSH_RULE_CHOOSELEAF_FIRSTN
  | CRUSH_RULE_CHOOSELEAF_INDEP
  | CRUSH_RULE_SET_CHOOSE_TRIES
  | CRUSH_RULE_SET_CHOOSELEAF_TRIES
  | CRUSH_RULE_SET_CHOOSE_LOCAL_TRIES
  | CRUSH_RULE_SET_CHOOSE_LOCAL_FALLBACK_TRIES
  | CRUSH_RULE_SET_CHOOSELEAF_VARY_R
  | CRUSH_RULE_OTHER (code : Z).

#[export] Instance rule_op_eq_dec : EqDecision rule_op.
Proof. solve_decision. Defined.

Record crush_rule_step := CrushRuleStep {
  st_op : rule_op; st_arg1 : Z; st_arg2 : Z }.

Record crush_rule_mask := CrushRuleMask {
  rm_ruleset : Z; rm_type : Z; rm_min_size : Z; rm_max_size : Z }.

(** [steps] is the flexible array member; a step that was allocated and not set
    is [None]. *)
Record crush_rule := CrushRule {
  ru_len : Z; ru_mask : crush_rule_mask; ru_steps : list (option crush_rule_step) }.

(** ** Buckets *)

Record crush_bucket := CrushBucket {
  b_id : Z;                      (* __s32 *)
  b_type : Z;                    (* __u16 *)
  b_hash : Z;                    (* __u8 *)
  b_weight : Z;                  (* __u32, 16.16 fixed point *)
  b_size : Z;                    (* __u32 *)
  b_items : list (option Z);     (* __s32 cells *)
  b_perm_x : Z;                  (* __u32 *)
  b_perm_n : Z;                  (* __u32 *)
  b_perm : list (option Z) }.    (* __u32 cells *)

Record crush_bucket_uniform := CrushBucketUniform {
  ub_h : crush_bucket; ub_item_weight : Z }.

Record crush_bucket_list := CrushBucketList {
  lb_h : crush_bucket;
  lb_item_weights : list (option Z);
  lb_sum_weights : list (option Z) }.

Record crush_bucket_tree := CrushBucketTree {
  tb_h : crush_bucket;
  tb_num_nodes : Z;              (* __u8 *)
  tb_node_weights : list (option Z) }.

Record crush_bucket_straw := CrushBucketStraw {
  sb_h : crush_bucket;
  sb_item_weights : list (option Z);
  sb_straws : list (option Z) }.

Record crush_bucket_straw2 := CrushBucketStraw2 {
  s2_h : crush_bucket; s2_item_weights : list (option Z) }.

(** A [struct crush_bucket *] points to one of the five variants, and [alg]
    says which; an [alg] the code does not know is [BUnknown]. *)
Inductive bucket :=
  | BUniform (b : crush_bucket_uniform)
  | BList (b : crush_bucket_list)
  | BTree (b : crush_bucket_tree)
  | BStraw (b : crush_bucket_straw)
  | BStraw2 (b : crush_bucket_straw2)
  | BUnknown (alg : Z) (h : crush_bucket).

Definition bucket_alg (b : bucket) : Z :=
  match b with
  | BUniform _ => CRUSH_BUCKET_UNIFORM
  | BList _ => CRUSH_BUCKET_LIST
  | BTree _ => CRUSH_BUCKET_TREE
  | BStraw _ => CRUSH_BUCKET_STRAW
  | BStraw2 _ => CRUSH_BUCKET_STRAW2
  | BUnknown a _ => a
  end.

(** The common header, which every variant starts with. *)
Definition bucket_h (b : bucket) : crush_bucket :=
  match b with
  | BUniform b => ub_h b
  | BList b => lb_h b
  | BTree b => tb_h b
  | BStraw b => sb_h b
  | BStraw2 b => s2_h b
  | BUnknown _ h => h
  end.

Definition set_bucket_h (h : crush_bucket) (b : bucket) : bucket :=
  match b with
  | BUniform b => BUniform (CrushBucketUniform h (ub_item_weight b))
  | BList b => BList (CrushBucketList h (lb_item_weights b) (lb_sum_weights b))
  | BTree b => BTree (CrushBucketTree h (tb_num_nodes b) (tb_node_weights b))
  | BStraw b => BStraw (CrushBucketStraw h (sb_item_weights b) (sb_straws b))
  | BStraw2 b => BStraw2 (CrushBucketStraw2 h (s2_item_weights b))
  | BUnknown a _ => BUnknown a h
  end.

(** Assignments to one field of the header. *)
Definition set_b_id (v : Z) (h : crush_bucket) : crush_bucket :=
  CrushBucket v (b_type h) (b_hash h) (b_weight h) (b_size h) (b_items h)
    (b_perm_x h) (b_perm_n h) (b_perm h).
Definition set_b_weight (v : Z) (h : crush_bucket) : crush_bucket :=
  CrushBucket (b_id h) (b_type h) (b_hash h) v (b_size h) (b_items h)
    (b_perm_x h) (b_perm_n h) (b_perm h).
Definition set_b_size (v : Z) (h : crush_bucket) : crush_bucket :=
  CrushBucket (b_id h) (b_type h) (b_hash h) (b_weight h) v (b_items h)
    (b_perm_x h) (b_perm_n h) (b_perm h).
Definition set_b_items (v : list (option Z)) (h : crush_bucket) : crush_bucket :=
  CrushBucket (b_id h) (b_type h) (b_hash h) (b_weight h) (b_size h) v
    (b_perm_x h) (b_perm_n h) (b_perm h).
Definition set_b_perm_x (v : Z) (h : crush_bucket) : crush_bucket :=
  CrushBucket (b_id h) (b_type h) (b_hash h) (b_weight h) (b_size h) (b_items h)
    v (b_perm_n h) (b_perm h).
Definition set_b_perm_n (v : Z) (h : crush_bucket) : crush_bucket :=
  CrushBucket (b_id h) (b_type h) (b_hash h) (b_weight h) (b_size h) (b_items h)
    (b_perm_x h) v (b_perm h).
Definition set_b_perm (v : list (option Z)) (h : crush_bucket) : crush_bucket :=
  CrushBucket (b_id h) (b_type h) (b_hash h) (b_weight h) (b_size h) (b_items h)
    (b_perm_x h) (b_perm_n h) v.

(** ** Maps *)

Record crush_map := CrushMap {
  m_buckets : list (option bucket);      (* the block [buckets] points to *)
  m_rules : list (option crush_rule);
  m_max_buckets : Z;                     (* __s32 *)
  m_max_rules : Z;                       (* __u32 *)
  m_max_devices : Z;                     (* __s32 *)
  m_choose_local_tries : Z;
  m_choose_local_fallback_tries : Z;
  m_choose_total_tries : Z;
  m_chooseleaf_descend_once : Z;
  m_chooseleaf_vary_r : Z;               (* __u8 *)
  m_straw_calc_version : Z;              (* __u8 *)
  m_allowed_bucket_algs : Z;
  m_choose_tries : option (list (option Z)) }.

Definition set_m_buckets (v : list (option bucket)) (m : crush_map) : crush_map :=
  CrushMap v (m_rules m) (m_max_buckets m) (m_max_rules m) (m_max_devices m)
    (m_choose_local_tries m) (m_choose_local_fallback_tries m) (m_choose_total_tries m)
    (m_chooseleaf_descend_once m) (m_chooseleaf_vary_r m) (m_straw_calc_version m)
    (m_allowed_bucket_algs m) (m_choose_tries m).
Definition set_m_rules (v : list (option crush_rule)) (m : crush_map) : crush_map :=
  CrushMap (m_buckets m) v (m_max_buckets m) (m_max_rules m) (m_max_devices m)
    (m_choose_local_tries m) (m_choose_local_fallback_tries m) (m_choose_total_tries m)
    (m_chooseleaf_descend_once m) (m_chooseleaf_vary_r m) (m_straw_calc_version m)
    (m_allowed_bucket_algs m) (m_choose_tries m).
Definition set_m_max_buckets (v : Z) (m : crush_map) : crush_map :=
  CrushMap (m_buckets m) (m_rules m) v (m_max_rules m) (m_max_devices m)
    (m_choose_local_tries m) (m_choose_local_fallback_tries m) (m_choose_total_tries m)
    (m_chooseleaf_descend_once m) (m_chooseleaf_vary_r m) (m_straw_calc_version m)
    (m_allowed_bucket_algs m) (m_choose_tries m).
Definition set_m_max_rules (v : Z) (m : crush_map) : crush_map :=
  CrushMap (m_buckets m) (m_rules m) (m_max_buckets m) v (m_max_devices m)
    (m_choose_local_tries m) (m_choose_local_fallback_tries m) (m_choose_total_tries m)
    (m_chooseleaf_descend_once m) (m_chooseleaf_vary_r m) (m_straw_calc_version m)
    (m_allowed_bucket_algs m) (m_choose_tries m).
Definition set_m_max_devices (v : Z) (m : crush_map) : crush_map :=
  CrushMap (m_buckets m) (m_rules m) (m_max_buckets m) (m_max_rules m) v
    (m_choose_local_tries m) (m_choose_local_fallback_tries m) (m_choose_total_tries m)
    (m_chooseleaf_descend_once m) (m_chooseleaf_vary_r m) (m_straw_calc_version m)
    (m_allowed_bucket_algs m) (m_choose_tries m).
Definition set_m_choose_tries (v : option (list (option Z))) (m : crush_map) : crush_map :=
  CrushMap (m_buckets m) (m_rules m) (m_max_buckets m) (m_max_rules m) (m_max_devices m)
    (m_choose_local_tries m) (m_choose_local_fallback_tries m) (m_choose_total_tries m)
    (m_chooseleaf_descend_once m) (m_chooseleaf_vary_r m) (m_straw_calc_version m)
    (m_allowed_bucket_algs m) v.

(** [map->buckets[pos]], dereferenced. *)
Definition get_bucket (m : crush_map) (pos : Z) : res bucket :=
  p ← rdp (m_buckets m) pos; deref p.

(** The store after the bucket at [pos] was changed through its pointer. *)
Definition put_bucket (pos : Z) (b : bucket) (m : crush_map) : crush_map :=
  set_m_buckets (<[Z.to_nat pos := Some b]> (m_buckets m)) m.

(** ** crush.c *)

Definition crush_bucket_alg_name (alg : Z) : string :=
  if alg =? CRUSH_BUCKET_UNIFORM then "uniform"
  else if alg =? CRUSH_BUCKET_LIST then "list"
  else if alg =? CRUSH_BUCKET_TREE then "tree"
  else if alg =? CRUSH_BUCKET_STRAW then "straw"
  else if alg =? CRUSH_BUCKET_STRAW2 then "straw2"
  else "unknown".

Definition crush_calc_tree_node (i : Z) : Z := s32 (s32 (Z.shiftl (s32 (i + 1)) 1) - 1).

(** The [__u32] weight is returned as an [int]. *)
Definition crush_get_bucket_item_weight (b : bucket) (p : Z) : res Z :=
  if u32 p >=? b_size (bucket_h b) then Ok 0
  else match b with
       | BUniform b => Ok (s32 (ub_item_weight b))
       | BList b => w ← rd (lb_item_weights b) p; Ok (s32 w)
       | BTree b => w ← rd (tb_node_weights b) (crush_calc_tree_node p); Ok (s32 w)
       | BStraw b => w ← rd (sb_item_weights b) p; Ok (s32 w)
       | BStraw2 b => w ← rd (s2_item_weights b) p; Ok (s32 w)
       | BUnknown _ _ => Ok 0
       end.

(** Both tests take [__u32] arguments. *)
Definition crush_addition_is_unsafe (a b : Z) : bool :=
  let a := u32 a in let b := u32 b in
  u32 (u32 (-1) - b) <? a.

Definition crush_multiplication_is_unsafe (a b : Z) : bool :=
  let a := u32 a in let b := u32 b in
  if b =? 0 then true else u32 (-1) / b <? a.

(** The addition test is exact: it answers yes when and only when the 32-bit
    sum would wrap. *)
Lemma crush_addition_is_unsafe_spec a b :
  is_u32 a → is_u32 b → crush_addition_is_unsafe a b = (4294967296 <=? a + b).
Proof.
  unfold is_u32, crush_addition_is_unsafe. intros Ha Hb.
  rewrite (u32_small a), (u32_small b) by done.
  change (u32 (-1)) with 4294967295. rewrite u32_small by (unfold is_u32; lia). lia.
Qed.

(** The multiplication test is exact for a non-zero second factor, and refuses a
    zero one. *)
Lemma crush_multiplication_is_unsafe_spec a b :
  is_u32 a → is_u32 b →
  crush_multiplication_is_unsafe a b = (b =? 0) || (4294967296 <=? a * b).
Proof.
  unfold is_u32, crush_multiplication_is_unsafe. intros Ha Hb.
  rewrite (u32_small a), (u32_small b) by done.
  change (u32 (-1)) with 4294967295.
  destruct (b =? 0) eqn:Eb; [done|]. simpl.
  apply Z.eqb_neq in Eb.
  destruct (Z.ltb_spec (4294967295 / b) a) as [H|H];
    destruct (Z.leb_spec 4294967296 (a * b)) as [H'|H']; try done.
  - pose proof (Z.div_le_lower_bound 4294967295 b a ltac:(lia) ltac:(lia)). lia.
  - pose proof (Z.mul_div_le 4294967295 b ltac:(lia)). nia.
Qed.
