(* ===== verification/Ln.v ===== *)
(** * Fixed-point logarithm (src/crush/crush_ln_table.h and [crush_ln] of
    src/crush/mapper.c)

    The two tables, [crush_ln], and what the straw2 draw needs of it: it
    returns for every 16-bit argument, its result lies in [0, 2^48), and it is
    monotone up to its last argument. *)

From S2P Require Import Prelude.

Definition RH_LH_tbl : list Z := [
  281474976710656; 0; 279293000147008; 3160191458785; 277144592453569; 6295979651252;
  275028984877588; 9407738579354; 272945431961849; 12495833712510; 270893210668903;
  15560622245205; 268871619544508; 18602453344927; 266879977918252; 21621668390897;
  264917625139441; 24618601203987; 262983919846453; 27593578268211; 261078239267855;
  30546918944171; 259199978553698; 33478935674789; 257348550135457; 36389934183667;
  255523383113220; 39280213666390; 253723922668761; 42150066975068; 251949629503245;
  44999780796398; 250199979298361; 47829635823533; 248474462199752; 50639906921988;
  246772582321672; 53430863289863; 245093857271864; 56202768612577; 243437817695703;
  58955881212377; 241804006838685; 61690454192795; 240191980126427; 64406735578290;
  238601304761351; 67104968449236; 237031559335290; 69785391072464; 235482333457281;
  72448237027520; 233953227395870; 75093735328813; 232443851735252; 77722110543809;
  230953827044641; 80333582907420; 229482783560281; 82928368432746; 228030360879519;
  85506679018295; 226596207666441; 88068722551825; 225179981368525; 90614703010926;
  223781347943876; 93144820560474; 222399981598544; 95659271647066; 221035564533522;
  98158249090542; 219687786701000; 100641942172723; 218356345569479; 103110536723436;
  217040945897374; 105564215203953; 215741299514755; 108003156787912; 214457125112881;
  110427537439836; 213188148041207; 112837529991308; 211934100111553; 115233304214913;
  210694719409147; 117615026895997; 209469750110256; 119982861902346; 208258942306151;
  122336970251840; 207062051833127; 124677510178157; 205878840108366; 127004637194593;
  204709073971387; 129318504156072; 203552525530870; 131619261319385; 202408972016652;
  133907056401747; 201278195636671; 136182034637704; 200159983438689; 138444338834459;
  199054127176597; 140694109425662; 197960423181121; 142931484523723; 196878672234776;
  145156599970689; 195808679450892; 147369589387733; 194750254156562; 149570584223303;
  193703209779377; 151759713799978; 192667363737776; 153937105360059; 191642537334915;
  156102884109952; 190628555655895; 158257173263369; 189625247468232; 160400094083390;
  188632445125466; 162531765923423; 187649984473771; 164652306267094; 186677704761472;
  166761830767097; 185715448551361; 168860453283045; 184763061635713; 170948285918347;
  183820392953898; 173025439056139; 182887294512508; 175092021394304; 181963621307899;
  177148139979605; 181049231251076; 179193900240953; 180143985094820; 181229406021852;
  179247746363005; 183254759612022; 178360381282000; 185270061778247; 177481758714109;
  187275411794460; 176611750092961; 189270907471081; 175750229360800; 191256645183649;
  174897072907593; 193232719900749; 174052159511904; 195199225211266; 173215370283481;
  197156253350982; 172386588607484; 199103895228536; 171565700090305; 201042240450762;
  170752592506939; 202971377347427; 169947155749831; 204891392995386; 169149281779174;
  206802373242162; 168358864574598; 208704402728983; 167575800088205; 210597564913272;
  166799986198908; 212481942090627; 166031322668037; 214357615416281; 165269711096165;
  216224664926076; 164515054881115; 218083169556957; 163767259177109; 219933207166998;
  163026230855041; 221774854554969; 162291878463802; 223608187479471; 161564112192664;
  225433280677634; 160842843834661; 227250207883397; 160127986750951; 229059041845385;
  159419455836124; 230859854344384; 158717167484423; 232652716210438; 158021039556860;
  234437697339558; 157330991349188; 236214866710081; 156646943560713; 237984292398659;
  155968818263914; 239746041595908; 155296538874845; 241500180621718; 154630030124309;
  243246774940235; 153969218029761; 244985889174515; 153314029867932; 246717587120878;
  152664394148153; 248441931762946; 152020240586346; 250158985285390; 151381500079681;
  251868809087384; 150748104681858; 253571463795784; 150119987579017; 255267009278020;
  149497083066241; 256955504654734; 148879326524645; 258637008312144; 148266654399029;
  260311577914160; 147659004176082; 261979270414251; 147056314363119; 263640142067065;
  146458524467334; 265294248439818; 145865574975563; 266941644423446; 145277407334533;
  268582384243539; 144693963931583; 270216521471047; 144115188075856; 271844109032778;
  143541023979937; 273465199221681; 142971416741921; 275079843706930; 142406312327921;
  276688093543805; 141845657554977; 278289999183377; 141289400074369; 279885610482007;
  140737488355328; 281470681743360].

Definition LL_tbl : list Z := [
  0; 12392466944; 30278045381; 42669756007; 55061088509; 67452042908; 79842619230;
  92232817496; 104622637729; 117012079954; 129401144192; 141789830467; 154178138802;
  166566069220; 178953621744; 191340796397; 203727593202; 216114012183; 228500053361;
  240885716762; 253271002406; 265655910318; 278040440520; 290424593036; 302808367888;
  315191765100; 327574784694; 339957426694; 352339691122; 364721578003; 377103087357;
  389484219210; 401864973583; 414245350500; 426625349984; 439004972058; 451384216744;
  463763084066; 476141574047; 488519686709; 500897422077; 513274780172; 525651761018;
  538028364638; 550404591054; 562780440291; 575155912370; 587531007314; 599905725148;
  612280065893; 624654029573; 637027616211; 649400825829; 661773658451; 674146114099;
  686518192797; 698745828440; 711261219434; 723632167419; 736002738544; 748372932835;
  760742750313; 773112191000; 785481254922; 797849942099; 810218252556; 822586186314;
  834953743398; 847320923830; 859687727633; 872054154829; 884420205442; 896785879496;
  909151177011; 921516098013; 933880642523; 946244810564; 958608602160; 970972017333;
  983335056106; 995697718502; 1008060004545; 1020421914256; 1032783447660;
  1045144604778; 1057505385634; 1069865790250; 1082225818650; 1094585470856;
  1106944746892; 1119303646780; 1131662170543; 1144020318204; 1156378089786;
  1168735485311; 1181092504804; 1193449148286; 1205805415780; 1218161307309;
  1230516822897; 1242871962566; 1255226726339; 1267581114239; 1279935126288;
  1292288762510; 1304642022927; 1316994907562; 1329347416439; 1341699549580;
  1354051307007; 1366402688745; 1378753694814; 1391104325240; 1403454580043;
  1415804459248; 1428153962876; 1440503090952; 1452851843497; 1465200220534;
  1477548222087; 1489895848178; 1502243098830; 1514589974065; 1526936473908;
  1539282598380; 1551628347504; 1563973721303; 1571803503037; 1588663343018;
  1601007590980; 1613351463708; 1625694961225; 1638038083554; 1650380830718;
  1660818502744; 1675065199641; 1687406821446; 1699748068178; 1712088939858;
  1724429436509; 1736769558155; 1749109304818; 1761448676522; 1773787673288;
  1786126295139; 1798464542099; 1810802414190; 1823139911435; 1835477033856;
  1847813781477; 1860150154320; 1872486152409; 1884821775765; 1897157024411;
  1909491898371; 1921826397667; 1934160522321; 1946494272357; 1958827647798;
  1971160648665; 1983493274983; 1995825526773; 2008157404058; 2020488906861;
  2032820035206; 2045150789113; 2057481168607; 2069811173710; 2082140804445;
  2094470060835; 2106798942901; 2119127450667; 2131455584157; 2143783343391;
  2156110728394; 2168437739187; 2180764375795; 2193090638238; 2205416526540;
  2217742040724; 2230067180813; 2240906420754; 2254716338794; 2267040356732;
  2279293793368; 2291687270616; 2304010166608; 2316332688663; 2325363271567;
  2340976611054; 2353298011436; 2365619037971; 2377939690683; 2388595809102;
  2402579874728; 2414899406107; 2427218563753; 2439537347689; 2448873426596;
  2461350658139; 2474805633567; 2488808746789; 2501125662517; 2507948715006;
  2525758373272; 2538074168346; 2550389589913; 2562256555365; 2575019312622;
  2587333613808; 2598789611611; 2611961095958; 2622451169410; 2636587084627;
  2648899518963; 2661211579998; 2668029778089; 2685834582251; 2698145523515;
  2710456091568; 2722766286431; 2735076108129; 2741892067019; 2759694632115;
  2772003334450; 2782027272789; 2796619619914; 2804948041819; 2818403017247;
  2828609599618; 2845847714657; 2856197520043; 2870459524297; 2877271380099;
  2895069842357; 2906742873441; 2919466226261; 2926489033468; 2938792514799;
  2951095623370; 2966048553090; 2979904280591; 2993496202419; 3000304330515;
  3012605575628; 3024906448118; 3037206948006; 3049869184844; 3061806830070;
  3074106212290; 3086405221998; 3098703859219; 3111002123974; 3123300016285;
  3135597536176; 3147894683668].

(** [while (!(x & 0x18000)) { x <<= 1; iexpon--; }].  The loop does not
    terminate when no bit ever reaches position 15; the fuel covers every [x]
    that has a bit below position 17. *)
Fixpoint ln_normalize (fuel : nat) (x iexpon : Z) : res (Z * Z) :=
  match fuel with
  | O => Fault Diverge
  | S fuel =>
      if Z.land x 98304 =? 0 then ln_normalize fuel (u32 (Z.shiftl x 1)) (iexpon - 1)
      else Ok (x, iexpon)
  end.

Definition tbl (t : list Z) (i : Z) : res Z := rd (cells t) i.

Definition crush_ln (xin : Z) : res Z :=
  let x := u32 (xin + 1) in
  '(x, iexpon) ← ln_normalize 32 x 15;
  let index1 := Z.shiftl (Z.shiftr x 8) 1 in
  RH ← tbl RH_LH_tbl (index1 - 256);
  LH ← tbl RH_LH_tbl (index1 + 1 - 256);
  let xl64 := u64 (x * RH) in
  let xl64 := Z.shiftr xl64 48 in
  let x1 := u32 xl64 in
  let result := u64 (Z.shiftl iexpon 44) in
  let index2 := Z.land x1 255 in
  LL ← tbl LL_tbl index2;
  let LH := u64 (LH + LL) in
  let LH := Z.shiftr LH 4 in
  Ok (u64 (result + LH)).

(** ** Normalisation *)

Lemma land_98304_low x : 0 <= x < 32768 → Z.land x 98304 = 0.
Proof.
  intros Hx. change 98304 with (Z.shiftl 3 15). apply Z.bits_inj'. intros i Hi.
  rewrite Z.land_spec, Z.bits_0, Z.shiftl_spec by lia.
  destruct (Z.lt_ge_cases i 15).
  - by rewrite (Z.testbit_neg_r 3), andb_false_r by lia.
  - by rewrite (proj1 (Z.bounded_iff_bits_nonneg 15 x ltac:(lia) ltac:(lia)) ltac:(lia) i).
Qed.

Lemma land_98304_high x : 32768 <= x <= 65536 → Z.land x 98304 <> 0.
Proof.
  intros Hx H0. destruct (decide (x = 65536)) as [->|]; [done|].
  assert (Z.testbit (Z.land x 98304) 15 = true) as Hb.
  { rewrite Z.land_spec. apply andb_true_intro. split; [|done].
    apply Z.testbit_true; [lia|]. change (2 ^ 15) with 32768.
    replace (x / 32768) with 1; [done|]. apply Z.div_unique with (x - 32768); lia. }
  by rewrite H0 in Hb.
Qed.

Lemma ln_normalize_spec fuel : ∀ x j e,
  0 <= j <= 15 → 2 ^ j <= x < 2 ^ (j + 1) → (Z.to_nat (15 - j) < fuel)%nat →
  ln_normalize fuel x e = Ok (x * 2 ^ (15 - j), e - (15 - j)).
Proof.
  induction fuel as [|fuel IH]; intros x j e Hj Hx Hf; [lia|]. simpl.
  assert (2 ^ (j + 1) <= 2 ^ 16) by (apply Z.pow_le_mono_r; lia).
  destruct (decide (j = 15)) as [->|Hne].
  - rewrite (proj2 (Z.eqb_neq _ _)) by (apply land_98304_high; lia).
    f_equal. f_equal; lia.
  - assert (2 ^ (j + 1) <= 2 ^ 15) by (apply Z.pow_le_mono_r; lia).
    assert (0 < 2 ^ j) by lia.
    rewrite land_98304_low by lia. simpl.
    rewrite Z.shiftl_mul_pow2 by lia. rewrite u32_small by (unfold is_u32; lia).
    rewrite (IH (x * 2 ^ 1) (j + 1) (e - 1)); [|lia| |lia].
    + f_equal. f_equal; [|lia]. rewrite <- Z.mul_assoc, <- Z.pow_add_r by lia.
      do 2 f_equal. lia.
    + pose proof (Z.pow_add_r 2 j 1 ltac:(lia) ltac:(lia)).
      pose proof (Z.pow_add_r 2 (j + 1) 1 ltac:(lia) ltac:(lia)).
      change (2 ^ 1) with 2 in *. lia.
Qed.

(** ** The mantissa, row by row *)

Definition tbl_at (t : list Z) (i : Z) : Z := nth (Z.to_nat i) t 0.

Lemma tbl_ok t i : 0 <= i < Z.of_nat (length t) → tbl t i = Ok (tbl_at t i).
Proof.
  intros Hi. unfold tbl, tbl_at. eapply rd_holds; [apply holds_cells|lia|].
  rewrite nth_lookup. destruct (lookup_lt_is_Some_2 t (Z.to_nat i)) as [v ->]; [lia|done].
Qed.

(** Row [k] serves the normalised arguments [256*(128+k) .. 256*(128+k)+255]. *)
Definition row_RH (k : Z) : Z := tbl_at RH_LH_tbl (2 * k).
Definition row_LH (k : Z) : Z := tbl_at RH_LH_tbl (2 * k + 1).
Definition row_index2 (k x : Z) : Z := x * row_RH k / 281474976710656 - 32768.
Definition mant (x : Z) : Z :=
  let k := x / 256 - 128 in (row_LH k + tbl_at LL_tbl (row_index2 k x)) / 16.

Definition row_ok (k : Z) : bool :=
  let lo := 256 * (128 + k) in
  (0 <=? row_RH k) && (row_RH k <=? 281474976710656) &&
  (0 <=? row_LH k) && (row_LH k <? 281474976710656) &&
  (0 <=? row_index2 k lo) && (row_index2 k (lo + 255) <=? 255) &&
  (if k =? 127 then mant (lo + 255) <? 17592186044416
   else mant (lo + 255) <=? mant (lo + 256)).

Lemma rows_ok : forallb row_ok (seqZ 0 128) = true.
Proof. vm_compute. reflexivity. Qed.

Lemma row_ok_at k : 0 <= k < 128 → row_ok k = true.
Proof.
  intros Hk. pose proof rows_ok as H. rewrite forallb_forall in H.
  apply H, list_elem_of_In, elem_of_seqZ. lia.
Qed.

Definition LL_step_ok (i : Z) : bool :=
  (0 <=? tbl_at LL_tbl i) && (tbl_at LL_tbl i <=? tbl_at LL_tbl (i + 1)) &&
  (tbl_at LL_tbl (i + 1) <? 281474976710656).

Lemma LL_steps_ok : forallb LL_step_ok (seqZ 0 255) = true.
Proof. vm_compute. reflexivity. Qed.

Lemma LL_step i : 0 <= i < 255 →
  0 <= tbl_at LL_tbl i <= tbl_at LL_tbl (i + 1) ∧ tbl_at LL_tbl (i + 1) < 281474976710656.
Proof.
  intros Hi. pose proof LL_steps_ok as H. rewrite forallb_forall in H.
  specialize (H i). unfold LL_step_ok in H. rewrite !andb_true_iff in H.
  destruct H as [[H1 H2] H3]; [apply list_elem_of_In, elem_of_seqZ; lia|]. lia.
Qed.

(** A function that grows by steps is monotone. *)
Lemma mono_steps (f : Z → Z) lo hi :
  (∀ i, lo <= i < hi → f i <= f (i + 1)) →
  ∀ i j, lo <= i → i <= j → j <= hi → f i <= f j.
Proof.
  intros Hf i j Hi Hij Hj. replace j with (i + Z.of_nat (Z.to_nat (j - i))) in * by lia.
  induction (Z.to_nat (j - i)) as [|n IH]; [replace (i + Z.of_nat 0) with i by lia; lia|].
  pose proof (Hf (i + Z.of_nat n) ltac:(lia)).
  replace (i + Z.of_nat (S n)) with (i + Z.of_nat n + 1) by lia. lia.
Qed.

Lemma LL_mono i j : 0 <= i → i <= j → j <= 255 → tbl_at LL_tbl i <= tbl_at LL_tbl j.
Proof. apply mono_steps. intros k Hk. pose proof (LL_step k ltac:(lia)). lia. Qed.

Lemma LL_range i : 0 <= i <= 255 → 0 <= tbl_at LL_tbl i < 281474976710656.
Proof.
  intros Hi. pose proof (LL_mono 0 i). pose proof (LL_mono i 255).
  pose proof (LL_step 0). pose proof (LL_step 254) as H254.
  change (254 + 1) with 255 in H254. lia.
Qed.

Record row_facts (k : Z) : Prop := {
  row_RH_range : 0 <= row_RH k <= 281474976710656;
  row_LH_range : 0 <= row_LH k < 281474976710656;
  row_lo : 0 <= row_index2 k (256 * (128 + k));
  row_hi : row_index2 k (256 * (128 + k) + 255) <= 255;
  row_next : if k =? 127 then mant (256 * (128 + k) + 255) < 17592186044416
             else mant (256 * (128 + k) + 255) <= mant (256 * (128 + k) + 256) }.

Lemma row_ok_facts k : 0 <= k < 128 → row_facts k.
Proof.
  intros Hk. pose proof (row_ok_at k Hk) as H. unfold row_ok in H.
  rewrite !andb_true_iff in H. destruct H as [[[[[[? ?] ?] ?] ?] ?] Hn].
  split; [lia..|]. destruct (k =? 127); lia.
Qed.

Lemma row_index2_mono k x y : 0 <= k < 128 → x <= y → row_index2 k x <= row_index2 k y.
Proof.
  intros Hk Hxy. destruct (row_ok_facts k Hk) as [HR _ _ _ _]. unfold row_index2.
  apply Z.sub_le_mono_r, Z.div_le_mono; [lia|]. apply Z.mul_le_mono_nonneg_r; lia.
Qed.

(** The second table is only indexed with 0 .. 255. *)
Lemma row_index2_range k x :
  0 <= k < 128 → 256 * (128 + k) <= x <= 256 * (128 + k) + 255 → 0 <= row_index2 k x <= 255.
Proof.
  intros Hk Hx. destruct (row_ok_facts k Hk) as [_ _ Hlo Hhi _].
  pose proof (row_index2_mono k _ x Hk (proj1 Hx)).
  pose proof (row_index2_mono k x _ Hk (proj2 Hx)). lia.
Qed.

Lemma row_of x k : 256 * (128 + k) <= x <= 256 * (128 + k) + 255 → x / 256 - 128 = k.
Proof. intros Hx. pose proof (Z.div_unique x 256 (128 + k) (x - 256 * (128 + k))). lia. Qed.

Lemma mant_step x : 32768 <= x < 65535 → mant x <= mant (x + 1).
Proof.
  intros Hx.
  assert (∃ k, 0 <= k < 128 ∧ 256 * (128 + k) <= x <= 256 * (128 + k) + 255)
    as (k & Hk & Hr).
  { exists (x / 256 - 128). pose proof (Z.div_mod x 256). pose proof (Z.mod_pos_bound x 256). lia. }
  destruct (decide (x = 256 * (128 + k) + 255)) as [->|Hne].
  - destruct (row_ok_facts k Hk) as [_ _ _ _ Hn].
    rewrite (proj2 (Z.eqb_neq k 127)) in Hn by lia.
    by replace (256 * (128 + k) + 255 + 1) with (256 * (128 + k) + 256) by lia.
  - unfold mant. rewrite (row_of x k), (row_of (x + 1) k) by lia.
    apply Z.div_le_mono; [lia|]. apply Z.add_le_mono_l, LL_mono.
    + apply row_index2_range; lia.
    + apply row_index2_mono; lia.
    + apply row_index2_range; lia.
Qed.

Lemma mant_mono x y : 32768 <= x → x <= y → y <= 65535 → mant x <= mant y.
Proof. apply mono_steps. apply mant_step. Qed.

Lemma mant_range x : 32768 <= x <= 65535 → 0 <= mant x < 17592186044416.
Proof.
  intros Hx. pose proof (mant_mono 32768 x). pose proof (mant_mono x 65535).
  assert (mant 32768 = 0) by (vm_compute; reflexivity).
  destruct (row_ok_facts 127 ltac:(lia)) as [_ _ _ _ Hn]. simpl in Hn.
  change (256 * (128 + 127) + 255) with 65535 in Hn. lia.
Qed.

(** ** The logarithm *)

(** What [crush_ln] computes once its argument is normalised to [x]. *)
Lemma ln_tail x e :
  32768 <= x <= 65535 → 0 <= e <= 15 →
  (RH ← tbl RH_LH_tbl (Z.shiftl (Z.shiftr x 8) 1 - 256);
   LH ← tbl RH_LH_tbl (Z.shiftl (Z.shiftr x 8) 1 + 1 - 256);
   LL ← tbl LL_tbl (Z.land (u32 (Z.shiftr (u64 (x * RH)) 48)) 255);
   Ok (u64 (u64 (Z.shiftl e 44) + Z.shiftr (u64 (LH + LL)) 4)))
  = Ok (e * 17592186044416 + mant x).
Proof.
  intros Hx He.
  assert (∃ k, 0 <= k < 128 ∧ 256 * (128 + k) <= x <= 256 * (128 + k) + 255)
    as (k & Hk & Hr).
  { exists (x / 256 - 128). pose proof (Z.div_mod x 256). pose proof (Z.mod_pos_bound x 256). lia. }
  rewrite !Z.shiftr_div_pow2, !Z.shiftl_mul_pow2 by lia.
  change (2 ^ 8) with 256. change (2 ^ 1) with 2. change (2 ^ 44) with 17592186044416.
  replace (x / 256) with (128 + k) by (pose proof (row_of x k Hr); lia).
  replace ((128 + k) * 2 - 256) with (2 * k) by lia.
  replace ((128 + k) * 2 + 1 - 256) with (2 * k + 1) by lia.
  rewrite !tbl_ok by (change (length RH_LH_tbl) with 258%nat; lia). cbn [mbind res_bind].
  fold (row_RH k) (row_LH k).
  destruct (row_ok_facts k Hk) as [HR HL _ _ _].
  pose proof (row_index2_range k x Hk Hr) as Hi. unfold row_index2 in Hi.
  assert (0 <= x * row_RH k <= 65535 * 281474976710656)
    by (split; [apply Z.mul_nonneg_nonneg|apply Z.mul_le_mono_nonneg]; lia).
  rewrite (u64_small (x * row_RH k)) by lia.
  rewrite Z.shiftr_div_pow2 by lia. change (2 ^ 48) with 281474976710656.
  replace (Z.land (u32 (x * row_RH k / 281474976710656)) 255) with (row_index2 k x).
  2:{ unfold row_index2. rewrite u32_small by (unfold is_u32; lia).
      change 255 with (Z.ones 8). rewrite Z.land_ones by lia. change (2 ^ 8) with 256.
      apply Z.mod_unique with 128; lia. }
  pose proof (LL_range _ Hi).
  rewrite tbl_ok by (change (length LL_tbl) with 256%nat; unfold row_index2; lia). cbn [mbind res_bind].
  rewrite (u64_small (row_LH k + _)) by (unfold row_index2 in *; lia).
  rewrite Z.shiftr_div_pow2 by lia. change (2 ^ 4) with 16.
  replace (row_LH k + tbl_at LL_tbl (row_index2 k x)) with
    (row_LH (x / 256 - 128) + tbl_at LL_tbl (row_index2 (x / 256 - 128) x))
    by (by rewrite (row_of x k)).
  fold (mant x). pose proof (mant_range x Hx).
  rewrite (u64_small (e * _)) by lia. by rewrite u64_small by lia.
Qed.

Lemma norm_range u j : 0 <= j <= 15 → 2 ^ j <= u + 1 < 2 ^ (j + 1) →
  32768 <= (u + 1) * 2 ^ (15 - j) <= 65535.
Proof.
  intros Hj Hu.
  assert (2 ^ j * 2 ^ (15 - j) = 32768)
    by (rewrite <- Z.pow_add_r by lia; by replace (j + (15 - j)) with 15 by lia).
  assert (2 ^ (j + 1) = 2 * 2 ^ j) by (rewrite Z.pow_add_r by lia; lia).
  assert (0 < 2 ^ (15 - j)) by (apply Z.pow_pos_nonneg; lia). nia.
Qed.

(** The value for an argument whose successor has its top bit at position [j]. *)
Lemma crush_ln_eq u j :
  0 <= j <= 15 → 2 ^ j <= u + 1 < 2 ^ (j + 1) →
  crush_ln u = Ok (j * 17592186044416 + mant ((u + 1) * 2 ^ (15 - j))).
Proof.
  intros Hj Hu. unfold crush_ln.
  assert (2 ^ (j + 1) <= 2 ^ 16) by (apply Z.pow_le_mono_r; lia).
  assert (0 < 2 ^ j) by lia.
  rewrite u32_small by (unfold is_u32; lia).
  rewrite (ln_normalize_spec 32 (u + 1) j 15) by lia.
  replace (15 - (15 - j)) with j by lia. cbn [mbind res_bind]. apply ln_tail; [|lia].
  by apply norm_range.
Qed.

Lemma ln_exponent u : 0 <= u < 65535 →
  ∃ j, 0 <= j <= 15 ∧ 2 ^ j <= u + 1 < 2 ^ (j + 1).
Proof.
  intros Hu. exists (Z.log2 (u + 1)). pose proof (Z.log2_spec (u + 1) ltac:(lia)).
  pose proof (Z.log2_nonneg (u + 1)).
  assert (Z.log2 (u + 1) < 16) by (apply Z.log2_lt_pow2; lia). lia.
Qed.

(** The total function [crush_ln] is on 16-bit arguments. *)
Definition ln16 (u : Z) : Z := match crush_ln u with Ok v => v | Fault _ => 0 end.

Lemma crush_ln_total u : 0 <= u <= 65535 →
  crush_ln u = Ok (ln16 u) ∧ 0 <= ln16 u < 281474976710656.
Proof.
  intros Hu. unfold ln16. destruct (decide (u = 65535)) as [->|].
  { vm_compute. intuition discriminate || reflexivity. }
  destruct (ln_exponent u ltac:(lia)) as (j & Hj & Hx).
  rewrite (crush_ln_eq u j Hj Hx). split; [done|].
  pose proof (mant_range _ (norm_range u j Hj Hx)). lia.
Qed.

Lemma ln16_mono u v : 0 <= u → u <= v → v <= 65534 → ln16 u <= ln16 v.
Proof.
  intros Hu Huv Hv. unfold ln16.
  destruct (ln_exponent u ltac:(lia)) as (j & Hj & Hx).
  destruct (ln_exponent v ltac:(lia)) as (k & Hk & Hy).
  rewrite (crush_ln_eq u j Hj Hx), (crush_ln_eq v k Hk Hy).
  pose proof (mant_range _ (norm_range u j Hj Hx)).
  pose proof (mant_range _ (norm_range v k Hk Hy)) as Hr.
  destruct (Z.lt_trichotomy j k) as [Hlt|[->|Hgt]].
  - nia.
  - pose proof (norm_range v k Hk Hy). pose proof (norm_range u k Hk Hx).
    apply Z.add_le_mono_l, mant_mono; [lia| |lia].
    apply Z.mul_le_mono_nonneg_r; [apply Z.pow_nonneg|]; lia.
  - pose proof (Z.pow_le_mono_r 2 (k + 1) j ltac:(lia) ltac:(lia)). lia.
Qed.
