(* ===== verification/Nodes.v ===== *)
(** * Node numbering of tree buckets (src/crush/mapper.c, src/crush/builder.c)

    A tree bucket of depth [d] numbers its nodes [1 .. 2^d - 1] in symmetric
    order: leaf [i] is node [2i+1] and a node of height [h] is an odd multiple
    of [2^h].  Both files carry the same [height]; mapper.c walks down with
    [left] and [right], builder.c walks up with [parent]. *)

From S2P Require Import Prelude CrushTypes.

(** [while ((n & 1) == 0) { h++; n = n >> 1; }]: a non-zero [int] has a set bit
    below position 32, and zero loops forever. *)
Fixpoint height_loop (fuel : nat) (n h : Z) : res Z :=
  match fuel with
  | O => Fault Diverge
  | S fuel => if Z.land n 1 =? 0 then height_loop fuel (Z.shiftr n 1) (h + 1) else Ok h
  end.
Definition height (n : Z) : res Z := height_loop 33 n 0.

(** [1 << k] on [int]. *)
Definition shl1 (k : Z) : res Z :=
  if (0 <=? k) && (k <? 32) then Ok (s32 (Z.shiftl 1 k)) else Fault BadShift.

Definition left (x : Z) : res Z :=
  h ← height x; b ← shl1 (h - 1); Ok (s32 (x - b)).

Definition right (x : Z) : res Z :=
  h ← height x; b ← shl1 (h - 1); Ok (s32 (x + b)).

Definition terminal (x : Z) : bool := negb (Z.land x 1 =? 0).

Definition on_right (n h : Z) : res bool :=
  b ← shl1 (h + 1); Ok (negb (Z.land n b =? 0)).

Definition parent (n : Z) : res Z :=
  h ← height n;
  r ← on_right n h;
  b ← shl1 h;
  Ok (if (r : bool) then s32 (n - b) else s32 (n + b)).

(** [calc_depth]: the loop shifts a non-negative [int] to zero. *)
Fixpoint depth_loop (fuel : nat) (t depth : Z) : res Z :=
  match fuel with
  | O => Fault Diverge
  | S fuel => if t =? 0 then Ok depth else depth_loop fuel (Z.shiftr t 1) (depth + 1)
  end.
Definition calc_depth (size : Z) : res Z :=
  if size =? 0 then Ok 0 else depth_loop 33 (s32 (size - 1)) 1.

(** ** Heights *)

(** [node h k] is the [k]-th node of height [h]. *)
Definition node (h k : Z) : Z := 2 ^ h * (2 * k + 1).

Lemma land_1 n : Z.land n 1 = n mod 2.
Proof. change 1 with (Z.ones 1). by rewrite Z.land_ones by lia. Qed.

Lemma height_loop_node fuel : ∀ h k a,
  0 <= h → (Z.to_nat h < fuel)%nat → height_loop fuel (node h k) a = Ok (a + h).
Proof.
  induction fuel as [|fuel IH]; intros h k a Hh Hf; [lia|]. simpl. unfold node.
  rewrite land_1. destruct (decide (h = 0)) as [->|Hne].
  - rewrite (proj2 (Z.eqb_neq _ _)); [f_equal; lia|].
    rewrite Z.mul_1_l, Z.add_comm, Z.mul_comm, Z.mod_add by lia. done.
  - replace h with (1 + (h - 1)) by lia. rewrite Z.pow_add_r by lia.
    change (2 ^ 1) with 2. rewrite <- Z.mul_assoc, (Z.mul_comm 2), Z.mod_mul by lia. simpl.
    rewrite Z.shiftr_div_pow2 by lia. change (2 ^ 1) with 2. rewrite Z.div_mul by lia.
    fold (node (h - 1) k). rewrite IH by lia. f_equal. lia.
Qed.

Lemma height_node h k : 0 <= h <= 32 → height (node h k) = Ok h.
Proof. intros Hh. unfold height. rewrite height_loop_node by lia. done. Qed.

(** [height(0)] never returns. *)
Lemma height_loop_0 fuel a : height_loop fuel 0 a = Fault Diverge.
Proof. revert a. induction fuel as [|f IH]; intros a; [done|]. apply IH. Qed.

Lemma shl1_ok k : 0 <= k < 31 → shl1 k = Ok (2 ^ k).
Proof.
  intros Hk. unfold shl1. rewrite (proj2 (Z.leb_le 0 k)), (proj2 (Z.ltb_lt k 32)) by lia. simpl.
  rewrite Z.shiftl_mul_pow2, Z.mul_1_l by lia.
  rewrite s32_small; [done|]. unfold is_s32.
  pose proof (Z.pow_pos_nonneg 2 k). pose proof (Z.pow_lt_mono_r 2 k 31). lia.
Qed.

(** A node inside a tree of depth [d]. *)
Definition in_tree (d h k : Z) : Prop := 0 <= h < d ∧ 0 <= k ∧ node h k < 2 ^ d.

Lemma in_tree_bound d h k : in_tree d h k → 0 < node h k ∧ node h k + 2 ^ h <= 2 ^ d.
Proof.
  unfold in_tree, node. intros (Hh & Hk & Hlt).
  assert (2 ^ d = 2 ^ h * (2 * 2 ^ (d - h - 1))) as Hd.
  { change 2 with (2 ^ 1) at 3. rewrite <- !Z.pow_add_r by lia. f_equal. lia. }
  rewrite Hd in *. pose proof (Z.pow_pos_nonneg 2 h ltac:(lia) ltac:(lia)) as Hp.
  apply Z.mul_lt_mono_pos_l in Hlt; [|done].
  split; [apply Z.mul_pos_pos; lia|].
  replace (2 ^ h * (2 * k + 1) + 2 ^ h) with (2 ^ h * (2 * k + 2)) by ring.
  apply Z.mul_le_mono_nonneg_l; lia.
Qed.

Section tree_steps.
Context (d h k : Z) (Hd : d <= 30) (Hin : in_tree d h k).

Lemma pow_h_pos : 0 < 2 ^ h.
Proof using Hin. destruct Hin as (? & ? & ?). apply Z.pow_pos_nonneg; lia. Qed.

Lemma node_s32 : is_s32 (node h k) ∧ is_s32 (node h k + 2 ^ h) ∧ is_s32 (node h k - 2 ^ h).
Proof using Hd Hin.
  pose proof (in_tree_bound d h k Hin). pose proof pow_h_pos. unfold is_s32.
  pose proof (Z.pow_le_mono_r 2 d 30 ltac:(lia) Hd). lia.
Qed.

(** The children of an inner node are the two nodes of the height below. *)
Lemma left_node : 0 < h → left (node h k) = Ok (node (h - 1) (2 * k)).
Proof using Hd Hin.
  intros Hh. unfold left. destruct Hin as (Hhd & Hk & _).
  rewrite height_node by lia. cbn [mbind res_bind].
  rewrite shl1_ok by lia. cbn [mbind res_bind].
  assert (2 ^ h = 2 * 2 ^ (h - 1)) as E by (rewrite <- Z.pow_succ_r by lia; f_equal; lia).
  destruct node_s32 as (Hs & _ & Hm). pose proof (Z.pow_pos_nonneg 2 (h - 1)).
  rewrite s32_small by (unfold is_s32 in *; lia).
  f_equal. unfold node. rewrite E. ring.
Qed.

Lemma right_node : 0 < h → right (node h k) = Ok (node (h - 1) (2 * k + 1)).
Proof using Hd Hin.
  intros Hh. unfold right. destruct Hin as (Hhd & Hk & _).
  rewrite height_node by lia. cbn [mbind res_bind].
  rewrite shl1_ok by lia. cbn [mbind res_bind].
  assert (2 ^ h = 2 * 2 ^ (h - 1)) as E by (rewrite <- Z.pow_succ_r by lia; f_equal; lia).
  destruct node_s32 as (Hs & Hm & _). pose proof (Z.pow_pos_nonneg 2 (h - 1)).
  rewrite s32_small by (unfold is_s32 in *; lia).
  f_equal. unfold node. rewrite E. ring.
Qed.

Lemma terminal_node : terminal (node h k) = (h =? 0).
Proof using Hd Hin.
  destruct Hin as (Hhd & Hk & _). unfold terminal. rewrite land_1. unfold node.
  destruct (Z.eqb_spec h 0) as [->|Hne].
  - rewrite Z.mul_1_l, Z.add_comm, Z.mul_comm, Z.mod_add by lia. done.
  - replace h with (1 + (h - 1)) by lia. rewrite Z.pow_add_r by lia.
    change (2 ^ 1) with 2. by rewrite <- Z.mul_assoc, (Z.mul_comm 2), Z.mod_mul by lia.
Qed.

Lemma in_tree_left : 0 < h → in_tree d (h - 1) (2 * k).
Proof using Hd Hin.
  intros Hh. pose proof (in_tree_bound d h k Hin) as [_ Hb]. destruct Hin as (Hhd & Hk & Hlt).
  split; [lia|]. split; [lia|]. unfold node in *.
  assert (2 ^ h = 2 * 2 ^ (h - 1)) as E by (rewrite <- Z.pow_succ_r by lia; f_equal; lia).
  rewrite E in Hlt. pose proof (Z.pow_pos_nonneg 2 (h - 1)). nia.
Qed.

Lemma in_tree_right : 0 < h → in_tree d (h - 1) (2 * k + 1).
Proof using Hd Hin.
  intros Hh. pose proof (in_tree_bound d h k Hin) as [_ Hb]. destruct Hin as (Hhd & Hk & Hlt).
  split; [lia|]. split; [lia|]. unfold node in *.
  assert (2 ^ h = 2 * 2 ^ (h - 1)) as E by (rewrite <- Z.pow_succ_r by lia; f_equal; lia).
  rewrite E in Hb. pose proof (Z.pow_pos_nonneg 2 (h - 1)). nia.
Qed.
End tree_steps.

(** ** Upwards *)

Lemma land_pow2 n m : 0 <= m → (Z.land n (2 ^ m) =? 0) = negb (Z.testbit n m).
Proof.
  intros Hm. destruct (Z.testbit n m) eqn:Hb; simpl.
  - apply Z.eqb_neq. intros E. apply (f_equal (λ z, Z.testbit z m)) in E.
    rewrite Z.land_spec, Hb, Z.pow2_bits_true, Z.bits_0 in E by done. done.
  - apply Z.eqb_eq. apply Z.bits_inj'. intros i Hi.
    rewrite Z.land_spec, Z.bits_0, Z.pow2_bits_eqb by done.
    destruct (Z.eqb_spec m i) as [<-|]; [by rewrite Hb|by rewrite andb_false_r].
Qed.

Lemma node_bit h k : 0 <= h → 0 <= k → Z.testbit (node h k) (h + 1) = Z.odd k.
Proof.
  intros Hh Hk. unfold node. rewrite (Z.mul_comm (2 ^ h)).
  rewrite Z.mul_pow2_bits_add by lia. rewrite <- Z.bit0_odd.
  change 1 with (Z.succ 0) at 2. by rewrite Z.testbit_odd_succ by lia.
Qed.

Lemma on_right_node h k : 0 <= h < 30 → 0 <= k → on_right (node h k) h = Ok (Z.odd k).
Proof.
  intros Hh Hk. unfold on_right. rewrite shl1_ok by lia. cbn [mbind res_bind].
  rewrite land_pow2 by lia. by rewrite negb_involutive, node_bit by lia.
Qed.

Lemma parent_node d h k :
  d <= 30 → in_tree d h k → h + 1 < d → parent (node h k) = Ok (node (h + 1) (k / 2)).
Proof.
  intros Hd Hin Hlt. pose proof (node_s32 d h k Hd Hin) as (_ & Hp & Hm).
  destruct Hin as (Hh & Hk & _). unfold parent. rewrite height_node by lia. cbn [mbind res_bind].
  rewrite on_right_node by lia. cbn [mbind res_bind]. rewrite shl1_ok by lia. cbn [mbind res_bind].
  rewrite (s32_small _ Hp), (s32_small _ Hm). unfold node. rewrite Z.pow_add_r by lia.
  change (2 ^ 1) with 2. pose proof (Z.div2_odd k) as Ek. rewrite Z.div2_div in Ek.
  set (q := k / 2) in *. clearbody q. rewrite Ek.
  f_equal. destruct (Z.odd (2 * q + Z.b2z (Z.odd k))) eqn:Eo; rewrite <- Ek in Eo; rewrite Eo; simpl Z.b2z; ring.
Qed.

Lemma in_tree_parent d h k : in_tree d h k → h + 1 < d → in_tree d (h + 1) (k / 2).
Proof.
  intros Hin Hlt. pose proof (in_tree_bound d h k Hin) as [_ Hb]. destruct Hin as (Hh & Hk & Hn).
  split; [lia|]. split; [apply Z.div_pos; lia|]. unfold node in *.
  assert (2 ^ d = 2 ^ (h + 1) * (2 * 2 ^ (d - h - 2))) as Ed.
  { change 2 with (2 ^ 1) at 3. rewrite <- !Z.pow_add_r by lia. f_equal. lia. }
  rewrite Z.pow_add_r in * by lia. change (2 ^ 1) with 2 in *.
  pose proof (Z.pow_pos_nonneg 2 h ltac:(lia) ltac:(lia)) as Hp. pose proof (Z_div_mod_eq_full k 2).
  pose proof (Z.mod_pos_bound k 2). set (P := 2 ^ (d - h - 2)) in *. rewrite Ed in Hb |- *.
  assert (2 * k + 2 <= 2 * (2 * P)).
  { apply (Z.mul_le_mono_pos_l _ _ (2 ^ h)); [done|]. lia. }
  apply Z.mul_lt_mono_pos_l; lia.
Qed.

Lemma node_inj h k h' k' :
  0 <= h <= 32 → 0 <= h' <= 32 → node h k = node h' k' → h = h' ∧ k = k'.
Proof.
  intros Hh Hh' E. pose proof (height_node h k Hh) as E1. rewrite E, height_node in E1 by done.
  simplify_eq. split; [done|]. unfold node in E. pose proof (Z.pow_pos_nonneg 2 h). nia.
Qed.

(** ** Depth *)

Lemma depth_loop_ok fuel : ∀ t a,
  0 <= t < 2 ^ Z.of_nat fuel → 
  ∃ b, depth_loop (S fuel) t a = Ok (a + b) ∧ 0 <= b <= Z.of_nat fuel ∧ t < 2 ^ b ∧ (0 < b → 2 ^ (b - 1) <= t).
Proof.
  induction fuel as [|fuel IH]; intros t a Ht.
  { assert (t = 0) as -> by (change (2 ^ Z.of_nat 0) with 1 in Ht; lia).
    exists 0. cbn. rewrite Z.add_0_r. split; [done|]. lia. }
  destruct (Z.eqb_spec t 0) as [->|Hne].
  { exists 0. cbn. rewrite Z.add_0_r. split; [done|]. lia. }
  assert (Z.shiftr t 1 = t / 2) as Es by (by rewrite Z.shiftr_div_pow2).
  rewrite Nat2Z.inj_succ, Z.pow_succ_r in Ht by lia.
  destruct (IH (t / 2) (a + 1)) as (b & E & Hb & Hlt & Hge).
  { split; [apply Z.div_pos; lia|]. apply Z.div_lt_upper_bound; lia. }
  exists (b + 1).
  change (depth_loop (S (S fuel)) t a) with
    (if t =? 0 then Ok a else depth_loop (S fuel) (Z.shiftr t 1) (a + 1)).
  rewrite (proj2 (Z.eqb_neq t 0)), Es, E by done. split; [f_equal; lia|]. split; [lia|].
  pose proof (Z_div_mod_eq_full t 2). pose proof (Z.mod_pos_bound t 2).
  rewrite Z.pow_add_r by lia. change (2 ^ 1) with 2. split; [lia|]. intros _.
  replace (b + 1 - 1) with b by lia. destruct (decide (b = 0)) as [->|Hb0]; [change (2 ^ 0) with 1; lia|].
  specialize (Hge ltac:(lia)). replace b with (b - 1 + 1) by lia. rewrite Z.pow_add_r by lia.
  change (2 ^ 1) with 2. lia.
Qed.

(** The depth is the least one whose leaves can hold the items. *)
Lemma calc_depth_ok size :
  1 <= size < 2147483648 →
  ∃ d, calc_depth size = Ok d ∧ 1 <= d <= 33 ∧ size <= 2 ^ (d - 1) ∧ (1 < d → 2 ^ (d - 2) < size).
Proof.
  intros Hs. unfold calc_depth. rewrite (proj2 (Z.eqb_neq size 0)) by lia.
  rewrite s32_small by (unfold is_s32; lia).
  destruct (depth_loop_ok 32 (size - 1) 1) as (b & E & Hb & Hlt & Hge); [lia|].
  exists (1 + b). split; [done|]. split; [lia|].
  replace (1 + b - 1) with b by lia. split; [lia|]. intros Hb1.
  specialize (Hge ltac:(lia)). replace (1 + b - 2) with (b - 1) by lia. lia.
Qed.
