(* ===== verification/Choose.v ===== *)
(** * Bucket choose methods (src/crush/mapper.c)

    For each bucket algorithm, the method that picks an item of the bucket for
    an input [x] and a replica position [r].  Only [bucket_perm_choose] writes:
    it keeps a cached permutation in the bucket. *)

From S2P Require Import Prelude Hash CrushTypes Ln Nodes.

(** ** Definitions *)

(** [for (i = from; i < size; i++) perm[i] = i;] *)
Definition perm_init (perm : list (option Z)) (from size : Z) : res (list (option Z)) :=
  for_up (Z.to_nat (size - from)) from (λ i a, wr a i i) perm.

(** One turn of the [while (bucket->perm_n <= pr)] loop. *)
Definition perm_step (h : crush_bucket) (x : Z) : res crush_bucket :=
  let p := b_perm_n h in
  perm ←
    (if p <? u32 (b_size h - 1) then
       let i := crush_hash32_3 (b_hash h) x (b_id h) p mod u32 (b_size h - p) in
       if i =? 0 then Ok (b_perm h)
       else
         t ← rd (b_perm h) (u32 (p + i));
         tp ← rd (b_perm h) p;
         a ← wr (b_perm h) (u32 (p + i)) tp;
         wr a p t
     else Ok (b_perm h));
  Ok (set_b_perm_n (u32 (p + 1)) (set_b_perm perm h)).

Fixpoint perm_loop (fuel : nat) (h : crush_bucket) (x pr : Z) : res crush_bucket :=
  match fuel with
  | O => Fault Diverge
  | S fuel =>
      if b_perm_n h <=? pr then h' ← perm_step h x; perm_loop fuel h' x pr else Ok h
  end.

(** The part after the case distinction: extend the permutation up to [pr] and
    read the item.  The loop runs at most [size] times, since [pr < size]. *)
Definition perm_extend (h : crush_bucket) (x pr : Z) : res (Z * crush_bucket) :=
  h ← perm_loop (S (Z.to_nat (b_size h))) h x pr;
  s ← rd (b_perm h) pr;
  item ← rd (b_items h) s;
  Ok (item, h).

Definition bucket_perm_choose (h : crush_bucket) (x r : Z) : res (Z * crush_bucket) :=
  if b_size h =? 0 then Fault DivByZero else
  let pr := u32 r mod b_size h in
  if negb (b_perm_x h =? u32 x) || (b_perm_n h =? 0) then
    let h := set_b_perm_x (u32 x) h in
    if pr =? 0 then
      let s := crush_hash32_3 (b_hash h) x (b_id h) 0 mod b_size h in
      perm ← wr (b_perm h) 0 s;
      let h := set_b_perm_n 65535 (set_b_perm perm h) in
      item ← rd (b_items h) s;
      Ok (item, h)
    else
      perm ← perm_init (b_perm h) 0 (b_size h);
      perm_extend (set_b_perm_n 0 (set_b_perm perm h)) x pr
  else if b_perm_n h =? 65535 then
    perm ← perm_init (b_perm h) 1 (b_size h);
    p0 ← rd perm 0;
    perm ← wr perm p0 0;
    perm_extend (set_b_perm_n 1 (set_b_perm perm h)) x pr
  else perm_extend h x pr.

Definition bucket_uniform_choose (b : crush_bucket_uniform) (x r : Z) :
    res (Z * crush_bucket_uniform) :=
  '(item, h) ← bucket_perm_choose (ub_h b) x r;
  Ok (item, CrushBucketUniform h (ub_item_weight b)).

(** The list bucket, from index [n - 1] down. *)
Fixpoint list_choose_down (b : crush_bucket_list) (x r : Z) (n : nat) : res Z :=
  match n with
  | O => rd (b_items (lb_h b)) 0
  | S i =>
      item ← rd (b_items (lb_h b)) (Z.of_nat i);
      let w := crush_hash32_4 (b_hash (lb_h b)) x item r (b_id (lb_h b)) in
      let w := Z.land w 65535 in
      sw ← rd (lb_sum_weights b) (Z.of_nat i);
      let w := u64 (w * sw) in
      let w := Z.shiftr w 16 in
      iw ← rd (lb_item_weights b) (Z.of_nat i);
      if w <? iw then Ok item else list_choose_down b x r i
  end.

Definition bucket_list_choose (b : crush_bucket_list) (x r : Z) : res Z :=
  list_choose_down b x r (Z.to_nat (s32 (b_size (lb_h b) - 1) + 1)).

(** The walk down a tree bucket.  Each turn lowers the height of [n], which is
    below 8 for a node number that fits in [num_nodes]. *)
Fixpoint tree_choose_loop (fuel : nat) (b : crush_bucket_tree) (x r n : Z) : res Z :=
  match fuel with
  | O => Fault Diverge
  | S fuel =>
      if terminal n then Ok n
      else
        w ← rd (tb_node_weights b) n;
        let t := u64 (crush_hash32_4 (b_hash (tb_h b)) x n r (b_id (tb_h b)) * w) in
        let t := Z.shiftr t 32 in
        l ← left n;
        wl ← rd (tb_node_weights b) l;
        n' ← (if t <? wl then Ok l else right n);
        tree_choose_loop fuel b x r n'
  end.

Definition bucket_tree_choose (b : crush_bucket_tree) (x r : Z) : res Z :=
  n ← tree_choose_loop 32 b x r (Z.shiftr (tb_num_nodes b) 1);
  rd (b_items (tb_h b)) (Z.shiftr n 1).

(** Straw and straw2 buckets keep the index of the longest draw so far. *)
Definition keep_high (i draw : Z) (high : Z * Z) : Z * Z :=
  if (i =? 0) || (snd high <? draw) then (i, draw) else high.

Definition straw_draw (b : crush_bucket_straw) (x r i : Z) : res Z :=
  item ← rd (b_items (sb_h b)) i;
  let draw := crush_hash32_3 (b_hash (sb_h b)) x item r in
  let draw := Z.land draw 65535 in
  straw ← rd (sb_straws b) i;
  Ok (u64 (draw * straw)).

Definition bucket_straw_choose (b : crush_bucket_straw) (x r : Z) : res Z :=
  high ← for_up (Z.to_nat (b_size (sb_h b))) 0
           (λ i acc, draw ← straw_draw b x r i; Ok (keep_high i draw acc)) (0, 0);
  rd (b_items (sb_h b)) (fst high).

Definition S64_MIN : Z := -9223372036854775808.

Definition straw2_draw (b : crush_bucket_straw2) (x r i : Z) : res Z :=
  w ← rd (s2_item_weights b) i;
  if negb (w =? 0) then
    item ← rd (b_items (s2_h b)) i;
    let u := crush_hash32_3 (b_hash (s2_h b)) x item r in
    let u := Z.land u 65535 in
    l ← crush_ln u;
    let ln := s64 (l - 281474976710656) in
    Ok (Z.quot ln w)
  else Ok S64_MIN.

Definition bucket_straw2_choose (b : crush_bucket_straw2) (x r : Z) : res Z :=
  high ← for_up (Z.to_nat (b_size (s2_h b))) 0
           (λ i acc, draw ← straw2_draw b x r i; Ok (keep_high i draw acc)) (0, 0);
  rd (b_items (s2_h b)) (fst high).

Definition crush_bucket_choose (b : bucket) (x r : Z) : res (Z * bucket) :=
  _ ← assert_c (negb (b_size (bucket_h b) =? 0));
  match b with
  | BUniform u => '(item, u) ← bucket_uniform_choose u x r; Ok (item, BUniform u)
  | BList l => item ← bucket_list_choose l x r; Ok (item, b)
  | BTree t => item ← bucket_tree_choose t x r; Ok (item, b)
  | BStraw s => item ← bucket_straw_choose s x r; Ok (item, b)
  | BStraw2 s => item ← bucket_straw2_choose s x r; Ok (item, b)
  | BUnknown _ h => item ← rd (b_items h) 0; Ok (item, b)
  end.
