(* ===== verification/ChoosePerm.v ===== *)
(** * The cached permutation of a bucket ([bucket_perm_choose], src/crush/mapper.c)

    The reference is a Fisher-Yates shuffle of [0 .. size-1] driven by the
    hash.  The cache invariant says what a bucket may have in [perm], [perm_n]
    and [perm_x]; the method answers from the reference permutation whatever
    the cache holds, and keeps the invariant. *)

From S2P Require Import Prelude Hash CrushTypes Ln Nodes Choose.

(** ** Exchanging two elements of a list *)

Definition exchange (l : list Z) (i j : nat) : list Z :=
  match l !! i, l !! j with
  | Some a, Some b => <[i := b]> (<[j := a]> l)
  | _, _ => l
  end.

Lemma insert_Permutation (l : list Z) j a b :
  l !! j = Some b → b :: <[j := a]> l ≡ₚ a :: l.
Proof.
  revert j. induction l as [|c l IH]; intros [|j] Hj; simplify_eq/=; [constructor|].
  trans (c :: b :: <[j := a]> l); [constructor|].
  trans (c :: a :: l); [by rewrite (IH j Hj)|constructor].
Qed.

Lemma exchange_Permutation l i j : exchange l i j ≡ₚ l.
Proof.
  unfold exchange. destruct (l !! i) as [a|] eqn:Ha; [|done].
  destruct (l !! j) as [b|] eqn:Hb; [|done]. revert i j Ha Hb.
  induction l as [|c l IH]; intros [|i] [|j] Ha Hb; simplify_eq/=; [done| | |].
  - by apply insert_Permutation.
  - by apply insert_Permutation.
  - by rewrite IH.
Qed.

Lemma length_exchange l i j : length (exchange l i j) = length l.
Proof. apply Permutation_length, exchange_Permutation. Qed.

Lemma exchange_lookup_lt l i j k : (k < i)%nat → (k < j)%nat → exchange l i j !! k = l !! k.
Proof.
  intros. unfold exchange. destruct (l !! i); [|done]. destruct (l !! j); [|done].
  by rewrite !list_lookup_insert_ne by lia.
Qed.

Lemma exchange_diag l i : exchange l i i = l.
Proof.
  unfold exchange. destruct (l !! i) as [a|] eqn:Ha; [|done].
  by rewrite !list_insert_id by (rewrite ?list_insert_id; done).
Qed.

(** ** The reference shuffle *)

Section shuffle.
(** The bucket's hash type, id and size, and the input. *)
Context (hash id size x : Z).

Definition fy_offset (p : nat) : Z :=
  if Z.of_nat p <? size - 1
  then crush_hash32_3 hash x id (Z.of_nat p) mod (size - Z.of_nat p) else 0.

Fixpoint fy (n : nat) : list Z :=
  match n with
  | O => seqZ 0 size
  | S p => exchange (fy p) p (p + Z.to_nat (fy_offset p))
  end.

Definition shuffled : list Z := fy (Z.to_nat size).

Lemma fy_Permutation n : fy n ≡ₚ seqZ 0 size.
Proof. induction n as [|n IH]; [done|]. simpl. by rewrite exchange_Permutation. Qed.

Lemma length_fy n : length (fy n) = Z.to_nat size.
Proof. rewrite (Permutation_length (fy_Permutation n)). apply length_seqZ. Qed.

(** A step moves nothing below its position. *)
Lemma fy_stable n k q : (q < n)%nat → fy (n + k) !! q = fy n !! q.
Proof.
  intros Hq. induction k as [|k IH]; [by rewrite Nat.add_0_r|].
  rewrite Nat.add_succ_r. simpl. rewrite exchange_lookup_lt by lia. done.
Qed.

Lemma shuffled_lookup q : (q < Z.to_nat size)%nat → shuffled !! q = fy (S q) !! q.
Proof.
  intros Hq. unfold shuffled.
  replace (Z.to_nat size) with (S q + (Z.to_nat size - S q))%nat by lia.
  apply fy_stable. lia.
Qed.

Lemma shuffled_range q s : shuffled !! q = Some s → 0 <= s < size.
Proof.
  intros Hs. apply list_elem_of_lookup_2 in Hs. unfold shuffled in Hs.
  rewrite fy_Permutation in Hs. apply elem_of_seqZ in Hs. lia.
Qed.

Lemma shuffled_NoDup : NoDup shuffled.
Proof. unfold shuffled. rewrite fy_Permutation. apply NoDup_seqZ. Qed.
End shuffle.

Lemma crush_hash32_3_u32_arg t x b c : crush_hash32_3 t (u32 x) b c = crush_hash32_3 t x b c.
Proof. unfold crush_hash32_3. by rewrite u32_u32. Qed.

Lemma fy_u32 hash id size x n : fy hash id size (u32 x) n = fy hash id size x n.
Proof.
  induction n as [|n IH]; [done|]. simpl. rewrite IH.
  unfold fy_offset. by rewrite crush_hash32_3_u32_arg.
Qed.

Lemma shuffled_u32 hash id size x : shuffled hash id size (u32 x) = shuffled hash id size x.
Proof. apply fy_u32. Qed.

(** ** The cache *)

(** The fields [bucket_perm_choose] does not touch. *)
Definition same_static (h h' : crush_bucket) : Prop :=
  b_id h' = b_id h ∧ b_type h' = b_type h ∧ b_hash h' = b_hash h ∧
  b_weight h' = b_weight h ∧ b_size h' = b_size h ∧ b_items h' = b_items h.

#[export] Instance same_static_equiv : Equivalence same_static.
Proof. unfold same_static. split; red; intros; intuition congruence. Qed.

Definition bfy (h : crush_bucket) (x : Z) : nat → list Z := fy (b_hash h) (b_id h) (b_size h) x.

(** [perm] defines the first [perm_n] positions of the shuffle for [perm_x];
    [perm_n = 0xffff] stands for position 0 alone. *)
Definition perm_wf (h : crush_bucket) : Prop :=
  1 <= b_size h < 65535 ∧ (Z.to_nat (b_size h) <= length (b_perm h))%nat ∧
  (b_perm_n h = 0 ∨
   (b_perm_n h = 65535 ∧
      ∃ s, bfy h (b_perm_x h) 1 !! 0%nat = Some s ∧ b_perm h !! 0%nat = Some (Some s)) ∨
   (0 < b_perm_n h <= b_size h ∧ holds (b_perm h) (bfy h (b_perm_x h) (Z.to_nat (b_perm_n h))))).

(** The state the [while] loop works on: a prefix of the shuffle for [x]. *)
Definition perm_prefix (h : crush_bucket) (x : Z) : Prop :=
  1 <= b_size h < 65535 ∧ (Z.to_nat (b_size h) <= length (b_perm h))%nat ∧
  0 <= b_perm_n h <= b_size h ∧ b_perm_x h = u32 x ∧
  holds (b_perm h) (bfy h x (Z.to_nat (b_perm_n h))).

Lemma perm_prefix_wf h x : perm_prefix h x → 0 < b_perm_n h → perm_wf h.
Proof.
  intros (Hs & Hl & Hn & Hx & Hh) Hpos. split; [done|]. split; [done|].
  right; right. split; [lia|]. rewrite Hx. unfold bfy in *. by rewrite fy_u32.
Qed.

(** ** The initialisation loops *)

Lemma perm_init_holds a pre size :
  Z.of_nat (length pre) <= size → (Z.to_nat size <= length a)%nat → holds a pre →
  rwp (perm_init a (Z.of_nat (length pre)) size)
      (λ b, holds b (pre ++ seqZ (Z.of_nat (length pre)) (size - Z.of_nat (length pre)))
            ∧ length b = length a).
Proof.
  set (f := Z.of_nat (length pre)). intros Hf Hl Ha. unfold perm_init.
  eapply rwp_mono.
  - apply (for_up_rule (λ j b, holds b (pre ++ seqZ f (j - f)) ∧ length b = length a)).
    + by rewrite Z.sub_diag, app_nil_r.
    + intros j b Hj [Hb Hlen]. rewrite wr_ok by lia. split; [|by rewrite length_insert].
      replace (j + 1 - f) with (Z.of_nat (S (Z.to_nat (j - f)))) by lia.
      rewrite seqZ_S, app_assoc.
      replace (f + Z.of_nat (Z.to_nat (j - f))) with j by lia.
      replace (Z.of_nat (Z.to_nat (j - f))) with (j - f) by lia.
      pose proof (holds_snoc b (pre ++ seqZ f (j - f)) j Hb) as H.
      rewrite length_app, length_seqZ in H.
      replace (length pre + Z.to_nat (j - f))%nat with (Z.to_nat j) in H by lia.
      apply H. lia.
  - intros b Hb. simpl in Hb. by replace (f + Z.of_nat (Z.to_nat (size - f)) - f)
      with (size - f) in Hb by lia.
Qed.

(** The first step of the shuffle, as the [r = 0] shortcut and its clean-up
    compute it. *)
Section first_step.
Context (hash id size x : Z) (Hsize : 1 <= size).
Let s := crush_hash32_3 hash x id 0 mod size.

Lemma first_range : 0 <= s < size.
Proof using Hsize. apply Z.mod_pos_bound. lia. Qed.

Lemma fy_offset_0 : fy_offset hash id size x 0 = s.
Proof using Hsize.
  unfold fy_offset, s. change (Z.of_nat 0) with 0. rewrite Z.sub_0_r.
  destruct (Z.ltb_spec 0 (size - 1)); [done|].
  replace size with 1 by lia. by rewrite Z.mod_1_r.
Qed.

Lemma fy_1 : fy hash id size x 1 = <[Z.to_nat s := 0]> (s :: seqZ 1 (size - 1)).
Proof using Hsize.
  pose proof first_range as Hs. cbn [fy]. rewrite fy_offset_0, seqZ_cons by lia.
  cbn [Nat.add].
  replace (Z.pred size) with (size - 1) by lia. change (Z.succ 0) with 1.
  destruct (Z.to_nat s) as [|k] eqn:Ek.
  { rewrite exchange_diag. simpl. done. }
  unfold exchange. simpl.
  assert (seqZ 1 (size - 1) !! k = Some s) as ->
    by (apply lookup_seqZ; lia).
  done.
Qed.

Lemma fy_1_head : fy hash id size x 1 !! 0%nat = Some s.
Proof using Hsize.
  pose proof first_range as Hs. rewrite fy_1.
  destruct (Z.to_nat s) eqn:E; simpl; [|done]. f_equal. lia.
Qed.
End first_step.

(** ** The loop *)

(** The store-level exchange of [perm_step] is the list-level one. *)
Lemma exchange_cells a l i j :
  holds a l → 0 <= i < Z.of_nat (length l) → 0 <= j < Z.of_nat (length l) →
  rwp (t ← rd a j; tp ← rd a i; b ← wr a j tp; wr b i t)
      (λ b, holds b (exchange l (Z.to_nat i) (Z.to_nat j)) ∧ length b = length a).
Proof.
  intros Ha Hi Hj. pose proof (holds_length _ _ Ha).
  destruct (lookup_lt_is_Some_2 l (Z.to_nat i)) as [vi Hvi]; [lia|].
  destruct (lookup_lt_is_Some_2 l (Z.to_nat j)) as [vj Hvj]; [lia|].
  rewrite (rd_holds a l j vj), (rd_holds a l i vi) by (done || lia). cbn [mbind res_bind].
  rewrite wr_ok by lia. cbn [mbind res_bind].
  rewrite wr_ok by (rewrite length_insert; lia). simpl.
  rewrite !length_insert. split; [|done]. unfold exchange. rewrite Hvi, Hvj.
  apply holds_insert; [apply holds_insert; [done|lia]|rewrite length_insert; lia].
Qed.

Lemma perm_step_ok h x :
  perm_prefix h x → b_perm_n h < b_size h →
  rwp (perm_step h x) (λ h', perm_prefix h' x ∧ b_perm_n h' = b_perm_n h + 1 ∧ same_static h h').
Proof.
  intros (Hs & Hl & Hn & Hx & Hh) Hlt. unfold perm_step.
  set (n := Z.to_nat (b_perm_n h)) in *.
  assert (fy_offset (b_hash h) (b_id h) (b_size h) x n =
    if b_perm_n h <? u32 (b_size h - 1)
    then crush_hash32_3 (b_hash h) x (b_id h) (b_perm_n h) mod u32 (b_size h - b_perm_n h)
    else 0) as Hoff.
  { unfold fy_offset. subst n. rewrite Z2Nat.id by lia.
    rewrite !u32_small by (unfold is_u32; lia). done. }
  apply rwp_bind.
  apply (rwp_mono _ (λ b, holds b (bfy h x (S n)) ∧ length b = length (b_perm h))).
  2:{ intros b [Hb Hlen]. simpl. rewrite (u32_small (b_perm_n h + 1)) by (unfold is_u32; lia).
      split; [|done]. unfold perm_prefix. simpl. rewrite Hlen. split; [lia|]. split; [lia|].
      split; [lia|]. split; [done|]. replace (Z.to_nat (b_perm_n h + 1)) with (S n) by lia. done. }
  unfold bfy in *. cbn [fy]. rewrite Hoff.
  rewrite (u32_small (b_size h - 1)) by (unfold is_u32; lia).
  destruct (Z.ltb_spec (b_perm_n h) (b_size h - 1)) as [Hp|Hp].
  2:{ simpl. rewrite Nat.add_0_r, exchange_diag. done. }
  rewrite (u32_small (b_size h - b_perm_n h)) by (unfold is_u32; lia).
  set (i := crush_hash32_3 _ _ _ _ mod _).
  assert (0 <= i < b_size h - b_perm_n h) as Hi by (apply Z.mod_pos_bound; lia).
  destruct (Z.eqb_spec i 0) as [->|Hne].
  { simpl. rewrite Nat.add_0_r, exchange_diag. done. }
  rewrite (u32_small (b_perm_n h + i)) by (unfold is_u32; lia).
  replace (n + Z.to_nat i)%nat with (Z.to_nat (b_perm_n h + i)) by lia.
  apply exchange_cells; [done|rewrite length_fy; lia..].
Qed.

Lemma perm_loop_ok fuel : ∀ h x pr,
  perm_prefix h x → 0 <= pr < b_size h → (Z.to_nat (pr + 1 - b_perm_n h) < fuel)%nat →
  rwp (perm_loop fuel h x pr)
      (λ h', perm_prefix h' x ∧ pr < b_perm_n h' ∧ same_static h h').
Proof.
  induction fuel as [|fuel IH]; intros h x pr Hh Hpr Hf; [lia|]. simpl.
  destruct (Z.leb_spec (b_perm_n h) pr) as [Hle|Hgt]; [|done].
  apply rwp_bind. eapply rwp_mono; [apply perm_step_ok; [done|lia]|].
  intros h' (Hh' & Hn & Hst). pose proof Hst as (_ & _ & _ & _ & Hsz & _).
  eapply rwp_mono; [apply IH; [done|lia..]|].
  intros h'' (? & ? & ?). split; [done|]. split; [done|]. by etrans.
Qed.

(** What a successful call yields: the item at the shuffled position. *)
Definition perm_post (h : crush_bucket) (l : list Z) (x r : Z) (out : Z * crush_bucket) : Prop :=
  let pr := u32 r mod b_size h in
  (∃ s : Z, shuffled (b_hash h) (b_id h) (b_size h) x !! Z.to_nat pr = Some s ∧
        l !! Z.to_nat s = Some (fst out)) ∧
  perm_wf (snd out) ∧ same_static h (snd out).

Lemma shuffled_item h l x q :
  0 <= q < b_size h → Z.of_nat (length l) = b_size h →
  ∃ s v : Z, shuffled (b_hash h) (b_id h) (b_size h) x !! Z.to_nat q = Some s ∧
         0 <= s ∧ l !! Z.to_nat s = Some v.
Proof.
  intros Hq Hl.
  destruct (lookup_lt_is_Some_2 (shuffled (b_hash h) (b_id h) (b_size h) x) (Z.to_nat q))
    as [s Hs]; [unfold shuffled; rewrite length_fy; lia|].
  pose proof (shuffled_range _ _ _ _ _ _ Hs).
  destruct (lookup_lt_is_Some_2 l (Z.to_nat s)) as [v Hv]; [lia|].
  exists s, v. split; [done|]. split; [lia|done].
Qed.

Lemma perm_extend_ok h l x r :
  let pr := u32 r mod b_size h in
  perm_prefix h x → holds (b_items h) l → Z.of_nat (length l) = b_size h →
  rwp (perm_extend h x pr) (perm_post h l x r).
Proof.
  intros pr Hh Hi Hl. unfold perm_extend.
  assert (0 <= pr < b_size h) as Hpr by (apply Z.mod_pos_bound; destruct Hh; lia).
  apply rwp_bind. eapply rwp_mono.
  { apply perm_loop_ok; [done|done|]. destruct Hh as (_ & _ & Hn & _). lia. }
  intros h' (Hh' & Hn & Hst). pose proof Hst as (Eid & _ & Ehash & _ & Esz & Eit).
  destruct (shuffled_item h l x pr Hpr Hl) as (s & v & Hs & Hs0 & Hv).
  pose proof Hh' as (_ & _ & Hn' & _ & Hperm).
  assert (rd (b_perm h') pr = Ok s) as ->.
  { eapply rd_holds; [apply Hperm|lia|]. unfold bfy. rewrite Ehash, Eid, Esz.
    replace (Z.to_nat (b_perm_n h')) with
      (S (Z.to_nat pr) + (Z.to_nat (b_perm_n h') - S (Z.to_nat pr)))%nat by lia.
    rewrite fy_stable, <- shuffled_lookup by lia. done. }
  cbn [mbind res_bind]. rewrite Eit, (rd_holds _ l s v) by done. simpl.
  split; [by exists s|]. split; [|done]. apply (perm_prefix_wf h' x); [done|lia].
Qed.

Section choose_cases.
Context (h : crush_bucket) (l : list Z) (x r : Z).
Context (Hs : 1 <= b_size h < 65535) (Hlen : (Z.to_nat (b_size h) <= length (b_perm h))%nat)
  (Hi : holds (b_items h) l) (Hl : Z.of_nat (length l) = b_size h).
Let pr := u32 r mod b_size h.
Let s := crush_hash32_3 (b_hash h) x (b_id h) 0 mod b_size h.

(** The [r = 0] shortcut writes [perm[0]] only. *)
Lemma perm_shortcut_ok :
  pr = 0 →
  rwp (perm ← wr (b_perm h) 0 s;
       item ← rd (b_items h) s;
       Ok (item, set_b_perm_n 65535 (set_b_perm perm (set_b_perm_x (u32 x) h))))
      (perm_post h l x r).
Proof using Hs Hlen Hi Hl.
  intros E0. rewrite wr_ok by lia. cbn [mbind res_bind].
  pose proof (first_range (b_hash h) (b_id h) (b_size h) x ltac:(lia)) as Hr. fold s in Hr.
  destruct (lookup_lt_is_Some_2 l (Z.to_nat s)) as [v Hv]; [lia|].
  rewrite (rd_holds _ l s v) by (done || lia). cbn [mbind res_bind].
  unfold rwp, perm_post. fold pr.
  split; [|split; [|done]].
  - exists s. rewrite E0. split; [|done]. rewrite shuffled_lookup by lia. apply fy_1_head. lia.
  - split; [done|]. split; [simpl; rewrite length_insert; lia|]. right; left.
    split; [done|]. exists s. split; [|simpl; apply list_lookup_insert_eq; lia].
    change (fy (b_hash h) (b_id h) (b_size h) (u32 x) 1 !! 0%nat = Some s).
    rewrite fy_u32. apply fy_1_head. lia.
Qed.

(** A fresh identity permutation. *)
Lemma perm_restart_ok :
  rwp (perm ← perm_init (b_perm h) 0 (b_size h);
       perm_extend (set_b_perm_n 0 (set_b_perm perm (set_b_perm_x (u32 x) h))) x pr)
      (perm_post h l x r).
Proof using Hs Hlen Hi Hl.
  apply rwp_bind. eapply rwp_mono.
  { apply (perm_init_holds (b_perm h) [] (b_size h)); simpl; [lia|lia|apply holds_nil]. }
  simpl. intros b [Hb Hbl]. rewrite Z.sub_0_r in Hb.
  apply (perm_extend_ok (set_b_perm_n 0 (set_b_perm b (set_b_perm_x (u32 x) h))) l x r);
    [|done|done].
  split; [done|]. simpl. rewrite Hbl. repeat split; try done; lia.
Qed.

(** The clean-up after the shortcut rebuilds the first shuffle step. *)
Lemma perm_cleanup_ok :
  b_perm_x h = u32 x → b_perm h !! 0%nat = Some (Some s) →
  rwp (perm ← perm_init (b_perm h) 1 (b_size h);
       p0 ← rd perm 0;
       perm ← wr perm p0 0;
       perm_extend (set_b_perm_n 1 (set_b_perm perm h)) x pr)
      (perm_post h l x r).
Proof using Hs Hlen Hi Hl.
  intros Ex Hp0. destruct (b_perm h) as [|c p]; [done|].
  simpl in Hp0, Hlen. injection Hp0 as ->.
  pose proof (first_range (b_hash h) (b_id h) (b_size h) x ltac:(lia)) as Hr. fold s in Hr.
  apply rwp_bind. eapply rwp_mono.
  { apply (perm_init_holds (Some s :: p) [s] (b_size h)); simpl; [lia|lia|by exists p]. }
  change (Z.of_nat (length [s])) with 1. intros b [Hb Hbl]. simpl in Hb, Hbl.
  rewrite (rd_holds b (s :: seqZ 1 (b_size h - 1)) 0 s) by done. cbn [mbind res_bind].
  rewrite wr_ok by (rewrite Hbl; simpl; lia). cbn [mbind res_bind].
  apply (perm_extend_ok (set_b_perm_n 1 (set_b_perm _ h)) l x r); [|done|done].
  split; [done|]. simpl. rewrite length_insert, Hbl. simpl.
  repeat split; try done; try lia.
  change (holds (<[Z.to_nat s:=Some 0]> b) (fy (b_hash h) (b_id h) (b_size h) x 1)).
  rewrite fy_1 by lia. apply holds_insert; [done|]. simpl. rewrite length_seqZ. lia.
Qed.
End choose_cases.

(** [bucket_perm_choose] answers from the reference shuffle for every cache the
    invariant allows. *)
Lemma bucket_perm_choose_ok h l x r :
  perm_wf h → holds (b_items h) l → Z.of_nat (length l) = b_size h →
  rwp (bucket_perm_choose h x r) (perm_post h l x r).
Proof.
  intros (Hs & Hlen & Hcache) Hi Hl. unfold bucket_perm_choose.
  rewrite (proj2 (Z.eqb_neq (b_size h) 0)) by lia.
  destruct (negb (b_perm_x h =? u32 x) || (b_perm_n h =? 0)) eqn:Enew.
  { destruct (Z.eqb_spec (u32 r mod b_size h) 0) as [E0|Hne].
    - by apply (perm_shortcut_ok h l x r).
    - by apply (perm_restart_ok h l x r). }
  apply orb_false_iff in Enew as [Ex En]. apply negb_false_iff, Z.eqb_eq in Ex.
  apply Z.eqb_neq in En. destruct Hcache as [?|[(En' & s & Hs0 & Hp0)|[Hn Hperm]]]; [done| |].
  - rewrite En'. apply (perm_cleanup_ok h l x r); try done.
    unfold bfy in Hs0. rewrite Ex, fy_u32, fy_1_head in Hs0 by lia. by injection Hs0 as ->.
  - rewrite (proj2 (Z.eqb_neq (b_perm_n h) 65535)) by lia.
    apply perm_extend_ok; [|done|done]. split; [done|]. split; [done|].
    split; [lia|]. split; [done|]. unfold bfy in *. by rewrite Ex, fy_u32 in Hperm.
Qed.
