(* ===== verification/ChooseSpec.v ===== *)
(** * What the bucket choose methods pick (src/crush/mapper.c)

    Reference definitions on plain lists for the list, straw and straw2
    buckets, the equivalence of the array code with them, and the properties
    the bucket table of crush.h promises.  The invariant of a bucket, and that
    choosing from it returns an item and keeps it. *)

From S2P Require Import Prelude Hash CrushTypes Ln Nodes Choose ChoosePerm.

(** ** The longest draw *)

(** [k] is the first position of the largest element. *)
Definition first_max (d : list Z) (k : nat) : Prop :=
  ∃ m, d !! k = Some m ∧ (∀ j v, d !! j = Some v → v <= m) ∧
       (∀ j v, (j < k)%nat → d !! j = Some v → v < m).

Lemma first_max_unique d j k : first_max d j → first_max d k → j = k.
Proof.
  intros (m & Hj & Hm & Hlt) (m' & Hk & Hm' & Hlt').
  pose proof (Hm _ _ Hk). pose proof (Hm' _ _ Hj).
  destruct (Nat.lt_trichotomy j k) as [H1|[H1|H1]]; [|done|].
  - pose proof (Hlt' _ _ H1 Hj). lia.
  - pose proof (Hlt _ _ H1 Hk). lia.
Qed.

Lemma first_max_lt d k : first_max d k → (k < length d)%nat.
Proof. intros (m & Hk & _). by eapply lookup_lt_Some. Qed.

Lemma first_max_snoc d k v :
  first_max d k →
  first_max (d ++ [v]) (if d !! k is Some m then if m <? v then length d else k else k).
Proof.
  intros (m & Hk & Hm & Hlt). rewrite Hk. destruct (Z.ltb_spec m v) as [Hv|Hv].
  - exists v. rewrite lookup_app_r, Nat.sub_diag by lia. split; [done|]. split; intros j w.
    + intros [Hj|[_ ?]]%lookup_app_Some; [pose proof (Hm _ _ Hj); lia|].
      destruct (j - length d)%nat; simplify_eq/=; lia.
    + intros Hj. rewrite lookup_app_l by done. intros Hw. pose proof (Hm _ _ Hw). lia.
  - exists m. pose proof (lookup_lt_Some _ _ _ Hk). rewrite lookup_app_l by lia.
    split; [done|]. split; intros j w.
    + intros [Hj|[_ ?]]%lookup_app_Some; [by eapply Hm|].
      destruct (j - length d)%nat; simplify_eq/=; lia.
    + intros Hj. rewrite lookup_app_l by lia. by apply Hlt.
Qed.

(** Deleting another position keeps the choice. *)
Lemma first_max_delete d k j :
  first_max d k → j ≠ k →
  first_max (delete j d) (if (j <? k)%nat then (k - 1)%nat else k).
Proof.
  intros (m & Hk & Hm & Hlt) Hne. exists m.
  assert (∀ i v, delete j d !! i = Some v → d !! (if (i <? j)%nat then i else S i) = Some v) as Hd.
  { intros i v. destruct (Nat.ltb_spec i j).
    - by rewrite list_lookup_delete_lt by done.
    - by rewrite list_lookup_delete_ge by done. }
  split; [|split].
  - destruct (Nat.ltb_spec j k).
    + rewrite list_lookup_delete_ge by lia. by replace (S (k - 1)) with k by lia.
    + rewrite list_lookup_delete_lt by lia. done.
  - intros i v Hi. by eapply Hm, Hd.
  - intros i v Hik Hi. apply Hd in Hi. eapply Hlt; [|done].
    destruct (Nat.ltb_spec i j), (Nat.ltb_spec j k); lia.
Qed.

(** Raising one element makes it the choice or keeps the choice. *)
Lemma first_max_raise d k k' j v v' :
  first_max d k → d !! j = Some v → v <= v' → first_max (<[j := v']> d) k' → k' = k ∨ k' = j.
Proof.
  intros Hk Hj Hv Hk'. destruct (decide (k' = j)) as [|Hne]; [by right|left].
  destruct Hk as (m & Hk & Hm & Hlt). destruct Hk' as (m' & Hk' & Hm' & Hlt').
  rewrite list_lookup_insert_ne in Hk' by done.
  pose proof (lookup_lt_Some _ _ _ Hj) as Hjl.
  assert (∀ i w, d !! i = Some w → ∃ w', <[j := v']> d !! i = Some w' ∧ w <= w') as Hup.
  { intros i w Hi. destruct (decide (i = j)) as [->|].
    - exists v'. rewrite list_lookup_insert_eq by done. split; [done|]. congruence || (simplify_eq; lia).
    - exists w. rewrite list_lookup_insert_ne by done. split; [done|lia]. }
  destruct (Hup _ _ Hk) as (w' & Hw' & Hle). pose proof (Hm' _ _ Hw'). pose proof (Hm _ _ Hk').
  destruct (Nat.lt_trichotomy k k') as [H1|[H1|H1]]; [|done|].
  - pose proof (Hlt' _ _ H1 Hw'). lia.
  - pose proof (Hlt _ _ H1 Hk'). lia.
Qed.

(** The loop of both straw buckets finds the first longest draw. *)
Lemma high_loop_ok (f : Z → res Z) (d : list Z) :
  d ≠ [] → (∀ i v, d !! i = Some v → f (Z.of_nat i) = Ok v) →
  rwp (for_up (length d) 0 (λ i acc, draw ← f i; Ok (keep_high i draw acc)) (0, 0))
      (λ high, 0 <= fst high ∧ first_max d (Z.to_nat (fst high))).
Proof.
  intros Hne Hf.
  pose (I := λ (i : Z) (acc : Z * Z), i = 0 ∨
    (0 <= fst acc ∧ first_max (take (Z.to_nat i) d) (Z.to_nat (fst acc)) ∧
     take (Z.to_nat i) d !! Z.to_nat (fst acc) = Some (snd acc))).
  eapply rwp_mono.
  - apply (for_up_rule I); [by left|]. intros j acc Hj HI.
    destruct (lookup_lt_is_Some_2 d (Z.to_nat j)) as [v Hv]; [lia|].
    replace j with (Z.of_nat (Z.to_nat j)) at 1 by lia. rewrite (Hf _ _ Hv). simpl. right.
    replace (Z.to_nat (j + 1)) with (S (Z.to_nat j)) by lia.
    rewrite (take_S_r _ _ v) by done. unfold keep_high.
    destruct HI as [->|(H0 & Hmax & Hhi)].
    + simpl. split; [lia|]. split; [|done]. exists v. split; [done|].
      split; [intros [|] ? ?; simplify_eq/=; lia|lia].
    + destruct (Z.eqb_spec j 0) as [->|Hj0].
      { exfalso. apply first_max_lt in Hmax. rewrite length_take in Hmax. lia. }
      simpl. pose proof (first_max_snoc _ _ v Hmax) as Hs. rewrite Hhi in Hs.
      pose proof (first_max_lt _ _ Hmax) as Hlt. rewrite length_take in Hs, Hlt.
      replace (Z.to_nat j `min` length d)%nat with (Z.to_nat j) in * by lia.
      destruct (snd acc <? v) eqn:E; simpl.
      * split; [lia|]. split; [done|].
        rewrite lookup_app_r by (rewrite length_take; lia).
        rewrite length_take. replace (Z.to_nat j - Z.to_nat j `min` length d)%nat with O by lia. done.
      * split; [done|]. split; [done|]. by rewrite lookup_app_l by (rewrite length_take; lia).
  - intros acc [H0|(H0 & Hmax & _)]; [destruct d; simpl in *; [done|lia]|].
    simpl in Hmax. rewrite Z.add_0_l, Nat2Z.id, firstn_all in Hmax. done.
Qed.

(** ** Straw2 buckets *)

(** The draw of one item: the logarithm of a 16-bit hash, scaled by its weight. *)
Definition s2_draw (hash x r item w : Z) : Z :=
  if w =? 0 then S64_MIN
  else Z.quot (ln16 (Z.land (crush_hash32_3 hash x item r) 65535) - 281474976710656) w.

Definition s2_draws (hash x r : Z) (l ws : list Z) : list Z := zip_with (s2_draw hash x r) l ws.

(** C division of a non-positive number truncates towards zero. *)
Lemma quot_nonpos a w : a <= 0 → 0 < w → Z.quot a w = - (- a / w).
Proof.
  intros Ha Hw. rewrite <- (Z.quot_div_nonneg (- a) w) by lia.
  rewrite Z.quot_opp_l by lia. lia.
Qed.

(** A straw2 bucket that holds the items [l] with the weights [ws]. *)
Definition straw2_wf (b : crush_bucket_straw2) (l ws : list Z) : Prop :=
  holds (b_items (s2_h b)) l ∧ holds (s2_item_weights b) ws ∧
  b_size (s2_h b) = Z.of_nat (length l) ∧ length ws = length l ∧ Forall is_u32 ws.

Lemma s2_ln_range h : -281474976710656 <= ln16 (Z.land h 65535) - 281474976710656 < 0.
Proof.
  pose proof (land_ffff h). pose proof (crush_ln_total (Z.land h 65535) ltac:(lia)). lia.
Qed.

Lemma s2_draw_range hash x r item w : 0 < w → -281474976710656 <= s2_draw hash x r item w <= 0.
Proof.
  intros Hw. unfold s2_draw. rewrite (proj2 (Z.eqb_neq w 0)) by lia.
  pose proof (s2_ln_range (crush_hash32_3 hash x item r)) as H.
  generalize dependent (ln16 (Z.land (crush_hash32_3 hash x item r) 65535) - 281474976710656).
  intros a Ha. rewrite quot_nonpos by lia.
  pose proof (Z.div_pos (- a) w). pose proof (Z.div_le_upper_bound (- a) w 281474976710656). nia.
Qed.

(** A larger weight gives a larger draw. *)
Lemma s2_draw_mono hash x r item w w' :
  0 <= w → w <= w' → s2_draw hash x r item w <= s2_draw hash x r item w'.
Proof.
  intros Hw Hww. destruct (decide (w = 0)) as [->|].
  { destruct (decide (w' = 0)) as [->|]; [lia|].
    pose proof (s2_draw_range hash x r item w' ltac:(lia)).
    change (s2_draw hash x r item 0) with S64_MIN. unfold S64_MIN. lia. }
  unfold s2_draw. rewrite !(proj2 (Z.eqb_neq _ 0)) by lia.
  pose proof (s2_ln_range (crush_hash32_3 hash x item r)) as H.
  generalize dependent (ln16 (Z.land (crush_hash32_3 hash x item r) 65535) - 281474976710656).
  intros a Ha. rewrite !quot_nonpos by lia. pose proof (Z.div_le_compat_l (- a) w w'). lia.
Qed.

Lemma length_s2_draws hash x r l ws : length ws = length l → length (s2_draws hash x r l ws) = length l.
Proof. intros. unfold s2_draws. rewrite length_zip_with. lia. Qed.

Lemma s2_draws_lookup hash x r l ws i v :
  s2_draws hash x r l ws !! i = Some v ↔
  ∃ item w, v = s2_draw hash x r item w ∧ l !! i = Some item ∧ ws !! i = Some w.
Proof. apply lookup_zip_with_Some. Qed.

Lemma straw2_draw_ok b l ws x r i v :
  straw2_wf b l ws → s2_draws (b_hash (s2_h b)) x r l ws !! i = Some v →
  straw2_draw b x r (Z.of_nat i) = Ok v.
Proof.
  intros (Hi & Hw & Hs & Hl & Hu) Hv. apply s2_draws_lookup in Hv as (item & w & -> & Hit & Hwi).
  unfold straw2_draw, s2_draw.
  rewrite (rd_at _ ws i w Hw Hwi), (rd_at _ l i item Hi Hit). cbn [mbind res_bind].
  destruct (Z.eqb_spec w 0); [done|]. cbn [negb].
  set (h := crush_hash32_3 _ _ _ _). pose proof (land_ffff h).
  destruct (crush_ln_total (Z.land h 65535) ltac:(lia)) as [-> Hr]. cbn [mbind res_bind].
  rewrite s64_small by lia. done.
Qed.

(** The array code picks the item of the first longest draw. *)
Lemma bucket_straw2_choose_ok b l ws x r :
  straw2_wf b l ws → l ≠ [] →
  ∃ k item, bucket_straw2_choose b x r = Ok item ∧ l !! k = Some item ∧
            first_max (s2_draws (b_hash (s2_h b)) x r l ws) k.
Proof.
  intros Hb Hne. pose proof Hb as (Hi & _ & Hs & Hl & _).
  set (d := s2_draws (b_hash (s2_h b)) x r l ws).
  assert (length d = length l) as Hd by by apply length_s2_draws.
  assert (rwp (for_up (length d) 0
      (λ i acc, draw ← straw2_draw b x r i; Ok (keep_high i draw acc)) (0, 0))
      (λ high, 0 <= fst high ∧ first_max d (Z.to_nat (fst high)))) as H.
  { apply high_loop_ok; [destruct l, d; done|]. intros i v. by apply straw2_draw_ok. }
  apply rwp_ok in H as (high & Hloop & H0 & Hmax).
  pose proof (first_max_lt _ _ Hmax).
  destruct (lookup_lt_is_Some_2 l (Z.to_nat (fst high))) as [item Hit]; [lia|].
  exists (Z.to_nat (fst high)), item. split; [|done]. unfold bucket_straw2_choose.
  rewrite Hs, Nat2Z.id, <- Hd, Hloop. cbn [mbind res_bind]. by apply (rd_holds _ l).
Qed.

(** A zero draw weight loses against any positive weight. *)
Lemma first_max_s2_positive hash x r l ws k :
  Forall is_u32 ws → first_max (s2_draws hash x r l ws) k → length ws = length l →
  Exists (λ w, 0 < w) ws → ∃ w, ws !! k = Some w ∧ 0 < w.
Proof.
  intros Hu (m & Hk & Hm & _) Hl Hex. apply s2_draws_lookup in Hk as (item & w & -> & Hit & Hw).
  exists w. split; [done|]. apply list.Exists_exists in Hex as (w1 & Hin & Hpos).
  apply list_elem_of_lookup in Hin as [j Hj].
  destruct (lookup_lt_is_Some_2 l j) as [it Hitj]; [apply lookup_lt_Some in Hj; lia|].
  assert (s2_draw hash x r it w1 <= s2_draw hash x r item w) as Hle.
  { apply (Hm j). apply s2_draws_lookup. by exists it, w1. }
  pose proof (s2_draw_range hash x r it w1 Hpos).
  assert (is_u32 w) as [Hw0 _] by (eapply Forall_lookup_1; done).
  destruct (decide (w = 0)) as [->|]; [|lia].
  change (s2_draw hash x r item 0) with S64_MIN in Hle. unfold S64_MIN in Hle. lia.
Qed.

(** ** Straw buckets *)

Definition st_draw (hash x r item straw : Z) : Z :=
  u64 (Z.land (crush_hash32_3 hash x item r) 65535 * straw).

Definition straw_wf (b : crush_bucket_straw) (l straws : list Z) : Prop :=
  holds (b_items (sb_h b)) l ∧ holds (sb_straws b) straws ∧
  b_size (sb_h b) = Z.of_nat (length l) ∧ length straws = length l.

Lemma straw_draw_ok b l ss x r i v :
  straw_wf b l ss → zip_with (st_draw (b_hash (sb_h b)) x r) l ss !! i = Some v →
  straw_draw b x r (Z.of_nat i) = Ok v.
Proof.
  intros (Hi & Hw & Hs & Hl) Hv. apply lookup_zip_with_Some in Hv as (item & w & -> & Hit & Hwi).
  unfold straw_draw.
  rewrite (rd_at _ l i item Hi Hit). cbn [mbind res_bind]. by rewrite (rd_at _ ss i w Hw Hwi).
Qed.

Lemma bucket_straw_choose_ok b l ss x r :
  straw_wf b l ss → l ≠ [] →
  ∃ k item, bucket_straw_choose b x r = Ok item ∧ l !! k = Some item ∧
            first_max (zip_with (st_draw (b_hash (sb_h b)) x r) l ss) k.
Proof.
  intros Hb Hne. pose proof Hb as (Hi & _ & Hs & Hl).
  set (d := zip_with _ l ss).
  assert (length d = length l) as Hd by (unfold d; rewrite length_zip_with; lia).
  assert (rwp (for_up (length d) 0
      (λ i acc, draw ← straw_draw b x r i; Ok (keep_high i draw acc)) (0, 0))
      (λ high, 0 <= fst high ∧ first_max d (Z.to_nat (fst high)))) as H.
  { apply high_loop_ok; [destruct l, d; done|]. intros i v. by apply straw_draw_ok. }
  apply rwp_ok in H as (high & Hloop & H0 & Hmax).
  pose proof (first_max_lt _ _ Hmax).
  destruct (lookup_lt_is_Some_2 l (Z.to_nat (fst high))) as [item Hit]; [lia|].
  exists (Z.to_nat (fst high)), item. split; [|done]. unfold bucket_straw_choose.
  rewrite Hs, Nat2Z.id, <- Hd, Hloop. cbn [mbind res_bind]. by apply (rd_holds _ l).
Qed.

(** ** List buckets *)

(** Item [item], of weight [w] with [sw] the weight up to and including it,
    takes the input. *)
Definition list_hit (hash id x r item w sw : Z) : bool :=
  Z.shiftr (Z.land (crush_hash32_4 hash x item r id) 65535 * sw) 16 <? w.

(** The reference: the last of the first [n] items that takes the input, and
    the first item when none does. *)
Fixpoint list_pick (hash id x r : Z) (l ws ss : list Z) (n : nat) : option nat :=
  match n with
  | O => Some O
  | S i =>
      match l !! i, ws !! i, ss !! i with
      | Some item, Some w, Some sw =>
          if list_hit hash id x r item w sw then Some i
          else list_pick hash id x r l ws ss i
      | _, _, _ => None
      end
  end.

Definition list_wf (b : crush_bucket_list) (l ws ss : list Z) : Prop :=
  holds (b_items (lb_h b)) l ∧ holds (lb_item_weights b) ws ∧ holds (lb_sum_weights b) ss ∧
  b_size (lb_h b) = Z.of_nat (length l) ∧ length ws = length l ∧ length ss = length l ∧
  Z.of_nat (length l) < 2147483648 ∧ Forall is_u32 ss.

Lemma list_choose_down_ok b l ws ss x r n :
  list_wf b l ws ss → l ≠ [] → (n <= length l)%nat →
  ∃ k item, list_choose_down b x r n = Ok item ∧ l !! k = Some item ∧
            list_pick (b_hash (lb_h b)) (b_id (lb_h b)) x r l ws ss n = Some k.
Proof.
  intros Hb Hne. pose proof Hb as (Hi & Hw & Hs & Hsz & Hlw & Hls & Hmax & Hu).
  induction n as [|n IH]; intros Hn.
  - destruct l as [|item l]; [done|]. exists O, item. split; [|done].
    apply (rd_at _ (item :: l) 0); done.
  - destruct (lookup_lt_is_Some_2 l n) as [item Hit]; [lia|].
    destruct (lookup_lt_is_Some_2 ws n) as [w Hwi]; [lia|].
    destruct (lookup_lt_is_Some_2 ss n) as [sw Hsi]; [lia|].
    cbn [list_choose_down list_pick]. rewrite Hit, Hwi, Hsi.
    rewrite (rd_at _ l n item Hi Hit). cbn [mbind res_bind].
    rewrite (rd_at _ ss n sw Hs Hsi). cbn [mbind res_bind].
    rewrite (rd_at _ ws n w Hw Hwi). cbn [mbind res_bind].
    set (h := crush_hash32_4 _ _ _ _ _). pose proof (land_ffff h).
    assert (is_u32 sw) as Hsw by (by eapply Forall_lookup_1).
    unfold is_u32 in Hsw. rewrite u64_small by nia. fold h.
    unfold list_hit. fold h.
    destruct (Z.shiftr (Z.land h 65535 * sw) 16 <? w); [|apply IH; lia].
    by exists n, item.
Qed.

Lemma bucket_list_choose_ok b l ws ss x r :
  list_wf b l ws ss → l ≠ [] →
  ∃ k item, bucket_list_choose b x r = Ok item ∧ l !! k = Some item ∧
            list_pick (b_hash (lb_h b)) (b_id (lb_h b)) x r l ws ss (length l) = Some k.
Proof.
  intros Hb Hne. unfold bucket_list_choose. pose proof Hb as (_ & _ & _ & Hsz & _ & _ & Hmax & _).
  rewrite Hsz, s32_small by (unfold is_s32; lia).
  replace (Z.to_nat (Z.of_nat (length l) - 1 + 1)) with (length l) by lia.
  by apply list_choose_down_ok.
Qed.

(** The running sums a list bucket keeps. *)
Fixpoint prefix_sums (acc : Z) (ws : list Z) : list Z :=
  match ws with
  | [] => []
  | w :: ws => (acc + w) :: prefix_sums (acc + w) ws
  end.

Definition sum_list_Z (ws : list Z) : Z := foldr Z.add 0 ws.

Lemma sum_list_Z_app a b : sum_list_Z (a ++ b) = sum_list_Z a + sum_list_Z b.
Proof. unfold sum_list_Z. induction a as [|x a IH]; simpl; lia. Qed.

Lemma length_prefix_sums ws : ∀ acc, length (prefix_sums acc ws) = length ws.
Proof. induction ws; simpl; auto. Qed.

Lemma prefix_sums_lookup ws : ∀ acc i,
  (i < length ws)%nat → prefix_sums acc ws !! i = Some (acc + sum_list_Z (take (S i) ws)).
Proof.
  induction ws as [|w ws IH]; intros acc [|i] Hi; simpl in *; try lia.
  - f_equal. unfold sum_list_Z. simpl. lia.
  - rewrite IH by lia. f_equal. unfold sum_list_Z. simpl. lia.
Qed.

Lemma prefix_sums_snoc ws w : ∀ acc,
  prefix_sums acc (ws ++ [w]) = prefix_sums acc ws ++ [acc + sum_list_Z ws + w].
Proof.
  induction ws as [|v ws IH]; intros acc; simpl; [f_equal; unfold sum_list_Z; simpl; lia|].
  rewrite IH. unfold sum_list_Z. simpl. do 3 f_equal. lia.
Qed.

Lemma sum_list_Z_nonneg ws : Forall (λ w, 0 <= w) ws → 0 <= sum_list_Z ws.
Proof. unfold sum_list_Z. induction 1; simpl; lia. Qed.

(** With correct sums the pick has a positive weight when some weight is. *)
Lemma list_pick_positive hash id x r l ws n k :
  length ws = length l → (n <= length ws)%nat → Forall (λ w, 0 <= w) ws →
  0 < sum_list_Z (take n ws) →
  list_pick hash id x r l ws (prefix_sums 0 ws) n = Some k → ∃ w, ws !! k = Some w ∧ 0 < w.
Proof.
  intros Hl. revert k. induction n as [|n IH]; intros k Hn Hpos Hsum; [simpl in Hsum; lia|].
  simpl. destruct (lookup_lt_is_Some_2 l n) as [item ->]; [lia|].
  destruct (lookup_lt_is_Some_2 ws n) as [w Hw]; [lia|]. rewrite Hw.
  rewrite prefix_sums_lookup by lia. unfold list_hit.
  set (h := crush_hash32_4 _ _ _ _ _). pose proof (land_ffff h).
  rewrite (take_S_r _ _ w) in * by done. rewrite sum_list_Z_app in *.
  replace (sum_list_Z [w]) with w in * by (unfold sum_list_Z; simpl; lia).
  assert (0 <= sum_list_Z (take n ws)) as H0 by (apply sum_list_Z_nonneg; by apply Forall_take).
  rewrite Z.shiftr_div_pow2 by lia. change (2 ^ 16) with 65536.
  destruct (Z.ltb_spec (Z.land h 65535 * (0 + (sum_list_Z (take n ws) + w)) / 65536) w) as [Hhit|Hno].
  - intros [= <-]. exists w. split; [done|].
    pose proof (Z.div_pos (Z.land h 65535 * (0 + (sum_list_Z (take n ws) + w))) 65536). nia.
  - intros Hk. apply IH; [lia|done| |done]. destruct (decide (sum_list_Z (take n ws) = 0)); [|lia].
    exfalso. pose proof (Z.div_lt_upper_bound
      (Z.land h 65535 * (0 + (sum_list_Z (take n ws) + w))) 65536 w). nia.
Qed.

(** ** Tree buckets *)

Definition node_weight (nw : list Z) (h k : Z) : Z := nth (Z.to_nat (node h k)) nw 0.

(** Every inner node weighs what its two children weigh, and a leaf past the
    last item weighs nothing. *)
Definition tree_sums (d : Z) (size : Z) (nw : list Z) : Prop :=
  (∀ h k, in_tree d h k → 0 < h →
     node_weight nw h k = node_weight nw (h - 1) (2 * k) + node_weight nw (h - 1) (2 * k + 1)) ∧
  (∀ k, in_tree d 0 k → size <= k → node_weight nw 0 k = 0).

Record tree_wf (b : crush_bucket_tree) (l nw : list Z) (d : Z) : Prop := {
  tw_items : holds (b_items (tb_h b)) l;
  tw_size : b_size (tb_h b) = Z.of_nat (length l);
  tw_depth : 1 <= d <= 7;
  tw_fits : Z.of_nat (length l) <= 2 ^ (d - 1);
  tw_num_nodes : tb_num_nodes b = 2 ^ d;
  tw_nodes : holds (tb_node_weights b) nw;
  tw_length : Z.of_nat (length nw) = 2 ^ d;
  tw_u32 : Forall is_u32 nw;
  tw_sums : tree_sums d (Z.of_nat (length l)) nw }.

Section tree_choose.
Context (b : crush_bucket_tree) (l nw : list Z) (d : Z) (Hb : tree_wf b l nw d).

Lemma node_weight_rd h k :
  in_tree d h k → rd (tb_node_weights b) (node h k) = Ok (node_weight nw h k) ∧
                  is_u32 (node_weight nw h k).
Proof using Hb.
  intros Hin. pose proof (in_tree_bound _ _ _ Hin) as [Hp _]. destruct Hin as (_ & _ & Hlt).
  unfold node_weight. destruct (lookup_lt_is_Some_2 nw (Z.to_nat (node h k))) as [w Hw].
  { pose proof (tw_length _ _ _ _ Hb). lia. }
  rewrite nth_lookup, Hw. simpl. split.
  - eapply rd_holds; [apply (tw_nodes _ _ _ _ Hb)|lia|done].
  - eapply Forall_lookup_1; [apply (tw_u32 _ _ _ _ Hb)|done].
Qed.

Lemma tree_choose_loop_ok fuel : ∀ x r h k,
  in_tree d h k → (Z.to_nat h < fuel)%nat → 0 < node_weight nw h k →
  ∃ k', tree_choose_loop fuel b x r (node h k) = Ok (node 0 k') ∧ in_tree d 0 k' ∧
        0 < node_weight nw 0 k'.
Proof using Hb.
  pose proof (tw_depth _ _ _ _ Hb) as Hd.
  induction fuel as [|fuel IH]; intros x r h k Hin Hf Hpos; [lia|].
  cbn [tree_choose_loop]. rewrite (terminal_node d h k ltac:(lia) Hin).
  destruct (Z.eqb_spec h 0) as [->|Hh]; [by exists k|].
  assert (0 < h) as Hh0 by (destruct Hin; lia).
  pose proof (in_tree_left d h k ltac:(lia) Hin Hh0) as Hinl.
  pose proof (in_tree_right d h k ltac:(lia) Hin Hh0) as Hinr.
  destruct (node_weight_rd _ _ Hin) as [-> Hw]. cbn [mbind res_bind].
  rewrite (left_node d h k ltac:(lia) Hin Hh0). cbn [mbind res_bind].
  destruct (node_weight_rd _ _ Hinl) as [-> Hwl]. cbn [mbind res_bind].
  destruct (node_weight_rd _ _ Hinr) as [_ Hwr].
  destruct (tw_sums _ _ _ _ Hb) as [Hsum _]. specialize (Hsum h k Hin Hh0).
  pose proof (crush_hash32_4_u32 (b_hash (tb_h b)) x (node h k) r (b_id (tb_h b))) as Hhash.
  generalize dependent (crush_hash32_4 (b_hash (tb_h b)) x (node h k) r (b_id (tb_h b))).
  intros hv Hhv. unfold is_u32 in *.
  rewrite u64_small by nia. rewrite Z.shiftr_div_pow2 by lia. change (2 ^ 32) with 4294967296.
  pose proof (Z.div_pos (hv * node_weight nw h k) 4294967296 ltac:(nia) ltac:(lia)).
  pose proof (Z.div_lt_upper_bound (hv * node_weight nw h k) 4294967296 (node_weight nw h k)
    ltac:(lia) ltac:(nia)).
  destruct (Z.ltb_spec (hv * node_weight nw h k / 4294967296) (node_weight nw (h - 1) (2 * k))).
  - cbn [mbind res_bind]. apply IH; [done|lia..].
  - rewrite (right_node d h k ltac:(lia) Hin Hh0). cbn [mbind res_bind]. apply IH; [done|lia..].
Qed.

(** The walk ends at an item whose weight is positive. *)
Lemma bucket_tree_choose_ok x r :
  0 < node_weight nw (d - 1) 0 →
  ∃ k item, bucket_tree_choose b x r = Ok item ∧ l !! k = Some item ∧
            0 < node_weight nw 0 (Z.of_nat k).
Proof using Hb.
  pose proof (tw_depth _ _ _ _ Hb) as Hd. intros Hpos. unfold bucket_tree_choose.
  assert (Z.shiftr (tb_num_nodes b) 1 = node (d - 1) 0) as ->.
  { rewrite (tw_num_nodes _ _ _ _ Hb), Z.shiftr_div_pow2 by lia. unfold node.
    replace d with (d - 1 + 1) at 1 by lia. rewrite Z.pow_add_r, Z.div_mul by lia. lia. }
  assert (in_tree d (d - 1) 0) as Hin.
  { split; [lia|]. split; [lia|]. unfold node. pose proof (Z.pow_lt_mono_r 2 (d - 1) d). lia. }
  destruct (tree_choose_loop_ok 32 x r (d - 1) 0 Hin ltac:(lia) Hpos) as (k & -> & Hk & Hwk).
  cbn [mbind res_bind]. destruct (tw_sums _ _ _ _ Hb) as [_ Hleaf].
  assert (0 <= k < Z.of_nat (length l)) as Hkl.
  { destruct (Z.lt_ge_cases k (Z.of_nat (length l))); [destruct Hk as (_ & ? & _); lia|].
    rewrite Hleaf in Hwk by done. lia. }
  destruct (lookup_lt_is_Some_2 l (Z.to_nat k)) as [item Hit]; [lia|].
  exists (Z.to_nat k), item. rewrite Z2Nat.id by lia. split; [|done].
  replace (Z.shiftr (node 0 k) 1) with k; [eapply rd_holds; [apply (tw_items _ _ _ _ Hb)|lia|done]|].
  rewrite Z.shiftr_div_pow2 by lia. unfold node. change (2 ^ 0) with 1. change (2 ^ 1) with 2.
  apply Z.div_unique with 1; lia.
Qed.
End tree_choose.

(** ** Well-formed buckets

    The invariant that the mapper relies on, for each bucket algorithm, and
    that choosing from a well-formed bucket returns one of its items and leaves
    the bucket well-formed. *)

(** The header holds the items [l]; a non-empty bucket has a usable cache. *)
Definition hdr_wf (h : crush_bucket) (l : list Z) : Prop :=
  holds (b_items h) l ∧ b_size h = Z.of_nat (length l) ∧ Z.of_nat (length l) < 65535 ∧
  (l = [] ∨ perm_wf h).

Definition alg_wf (b : bucket) (l : list Z) : Prop :=
  match b with
  | BUniform _ | BUnknown _ _ => True
  | BList b => ∃ ws ss, list_wf b l ws ss
  | BTree b => l = [] ∨ ∃ nw d, tree_wf b l nw d ∧ 0 < node_weight nw (d - 1) 0
  | BStraw b => ∃ ss, straw_wf b l ss
  | BStraw2 b => ∃ ws, straw2_wf b l ws
  end.

Definition bucket_wf (b : bucket) (l : list Z) : Prop := hdr_wf (bucket_h b) l ∧ alg_wf b l.

(** Replacing the header by one that differs only in the cache. *)
Lemma alg_wf_static b l h :
  same_static (bucket_h b) h → alg_wf b l → alg_wf (set_bucket_h h b) l.
Proof.
  intros (Eid & _ & Eh & _ & Es & Ei). destruct b; simpl in *; try done.
  - intros (ws & ss & H). exists ws, ss. unfold list_wf in *. simpl. by rewrite Es, Ei.
  - intros [->|(nw & d & [] & Hp)]; [by left|]. right. exists nw, d. split; [|done].
    split; simpl; rewrite ?Es, ?Ei; done.
  - intros (ss & H). exists ss. unfold straw_wf in *. simpl. by rewrite Es, Ei.
  - intros (ws & H). exists ws. unfold straw2_wf in *. simpl. by rewrite Es, Ei.
Qed.

Lemma bucket_h_set h b : bucket_h (set_bucket_h h b) = h.
Proof. by destruct b. Qed.

Lemma hdr_wf_static h h' l :
  hdr_wf h l → same_static h h' → perm_wf h' → hdr_wf h' l.
Proof.
  intros (Hi & Hs & Hb & _) (_ & _ & _ & _ & Es & Ei) Hp. unfold hdr_wf. rewrite Es, Ei. auto.
Qed.

Lemma bucket_wf_set b l h :
  bucket_wf b l → same_static (bucket_h b) h → perm_wf h → bucket_wf (set_bucket_h h b) l.
Proof.
  intros [Hh Ha] Hst Hp. split; [|by apply alg_wf_static].
  rewrite bucket_h_set. by eapply hdr_wf_static.
Qed.

(** A bucket without its permutation cache. *)
Definition bare (b : bucket) : bucket := set_bucket_h (set_b_perm_x 0 (set_b_perm_n 0 (set_b_perm [] (bucket_h b)))) b.

Lemma bare_set b h : same_static (bucket_h b) h → bare (set_bucket_h h b) = bare b.
Proof.
  intros (E1 & E2 & E3 & E4 & E5 & E6). unfold bare. rewrite bucket_h_set.
  assert (set_b_perm_x 0 (set_b_perm_n 0 (set_b_perm [] h)) = set_b_perm_x 0 (set_b_perm_n 0 (set_b_perm [] (bucket_h b)))) as ->
    by (unfold set_b_perm_x, set_b_perm_n, set_b_perm; simpl; congruence).
  by destruct b.
Qed.
Lemma bare_type b b' : bare b' = bare b → b_type (bucket_h b') = b_type (bucket_h b).
Proof. intros E. apply (f_equal (λ b, b_type (bucket_h b))) in E. unfold bare in E. by rewrite !bucket_h_set in E. Qed.

(** What one choice leaves behind: the bucket is what it was but for its cache. *)
Definition choose_post (b : bucket) (l : list Z) (out : Z * bucket) : Prop :=
  fst out ∈ l ∧ bucket_wf (snd out) l ∧ bare (snd out) = bare b.

Lemma call_perm_wf b l x r :
  bucket_wf b l → l ≠ [] →
  rwp ('(item, h) ← bucket_perm_choose (bucket_h b) x r; Ok (item, set_bucket_h h b))
      (choose_post b l).
Proof.
  intros Hb Hne. pose proof Hb as [(Hi & Hs & _ & [?|Hp]) _]; [done|].
  apply rwp_bind. eapply rwp_mono; [by apply (bucket_perm_choose_ok _ l)|].
  intros [item h] ((s & _ & Hitem) & Hwf & Hst). simpl in *. split; simpl.
  { by eapply list_elem_of_lookup_2. }
  split; [by apply bucket_wf_set|]. by apply bare_set.
Qed.

Lemma pure_choose_wf b l (pick : res Z) :
  bucket_wf b l → rwp pick (λ item, item ∈ l) →
  rwp (item ← pick; Ok (item, b)) (choose_post b l).
Proof. intros Hb Hp. apply rwp_bind. eapply rwp_mono; [done|]. intros item Hin. done. Qed.

Lemma pick_member (l : list Z) (P : nat → Prop) (pick : res Z) :
  (∃ k item, pick = Ok item ∧ l !! k = Some item ∧ P k) → rwp pick (λ item, item ∈ l).
Proof. intros (k & item & -> & Hk & _). by eapply list_elem_of_lookup_2. Qed.

Lemma crush_bucket_choose_ok b l x r :
  bucket_wf b l → l ≠ [] → rwp (crush_bucket_choose b x r) (choose_post b l).
Proof.
  intros Hb Hne. pose proof Hb as [(Hi & Hs & _ & _) Ha]. unfold crush_bucket_choose.
  assert ((b_size (bucket_h b) =? 0) = false) as -> by (destruct l; simpl in *; [done|lia]).
  cbn [assert_c negb mbind res_bind].
  destruct b as [u|lb|t|s|s2|a h]; simpl in Ha.
  - pose proof (call_perm_wf _ _ x r Hb Hne) as H. simpl in H.
    unfold bucket_uniform_choose. destruct (bucket_perm_choose (ub_h u) x r) as [[]|]; [|done].
    done.
  - destruct Ha as (ws & ss & Hw). apply pure_choose_wf; [done|].
    eapply pick_member. by eapply bucket_list_choose_ok.
  - destruct Ha as [?|(nw & d & Hw & Hpos)]; [done|]. apply pure_choose_wf; [done|].
    eapply pick_member. by eapply bucket_tree_choose_ok.
  - destruct Ha as (ss & Hw). apply pure_choose_wf; [done|].
    eapply pick_member. by eapply bucket_straw_choose_ok.
  - destruct Ha as (ws & Hw). apply pure_choose_wf; [done|].
    eapply pick_member. by eapply bucket_straw2_choose_ok.
  - apply pure_choose_wf; [done|]. destruct l as [|i l]; [done|].
    rewrite (rd_at _ (i :: l) 0 i) by done. simpl. set_solver.
Qed.
