(* ===== verification/Mapper.v ===== *)
(** * The CRUSH mapping algorithm (src/crush/mapper.c)

    [crush_find_rule], [is_out], the two choose procedures and the rule
    interpreter.  The store is the map, whose buckets carry permutation caches,
    and the caller's scratch block, in which [w], [o] and [c] are offsets. *)

From S2P Require Import Prelude Hash CrushTypes Ln Nodes Choose.

(** ** Rule lookup *)

Definition mask_matches (m : crush_rule_mask) (ruleset type size : Z) : bool :=
  (rm_ruleset m =? ruleset) && (rm_type m =? type) &&
  (rm_min_size m <=? size) && (rm_max_size m >=? size).

Fixpoint find_rule_from (m : crush_map) (ruleset type size : Z) (n : nat) (i : Z) : res Z :=
  match n with
  | O => Ok (-1)
  | S n =>
      p ← rdp (m_rules m) i;
      match p with
      | Some rule =>
          if mask_matches (ru_mask rule) ruleset type size then Ok (s32 i)
          else find_rule_from m ruleset type size n (i + 1)
      | None => find_rule_from m ruleset type size n (i + 1)
      end
  end.

Definition crush_find_rule (m : crush_map) (ruleset type size : Z) : res Z :=
  find_rule_from m ruleset type size (Z.to_nat (m_max_rules m)) 0.

(** ** The store *)

Record mstate := MState { ms_map : crush_map; ms_mem : list (option Z) }.

Definition load (i : Z) : M mstate Z := λ s, v ← rd (ms_mem s) i; Ok (v, s).
Definition store (i v : Z) : M mstate unit := λ s,
  mem ← wr (ms_mem s) i v; Ok (tt, MState (ms_map s) mem).
Definition bucket_at (pos : Z) : M mstate bucket := λ s,
  b ← get_bucket (ms_map s) pos; Ok (b, s).

(** Calls of the choose methods through a bucket pointer. *)
Definition call_bucket_choose (pos x r : Z) : M mstate Z := λ s,
  b ← get_bucket (ms_map s) pos;
  '(item, b) ← crush_bucket_choose b x r;
  Ok (item, MState (put_bucket pos b (ms_map s)) (ms_mem s)).

Definition call_perm_choose (pos x r : Z) : M mstate Z := λ s,
  b ← get_bucket (ms_map s) pos;
  '(item, h) ← bucket_perm_choose (bucket_h b) x r;
  Ok (item, MState (put_bucket pos (set_bucket_h h b) (ms_map s)) (ms_mem s)).

(** [if (map->choose_tries && ftotal <= map->choose_total_tries)
      map->choose_tries[ftotal]++;] *)
Definition count_tries (ftotal : Z) : M mstate unit := λ s,
  match m_choose_tries (ms_map s) with
  | Some t =>
      if ftotal <=? m_choose_total_tries (ms_map s) then
        v ← rd t ftotal;
        t ← wr t ftotal (u32 (v + 1));
        Ok (tt, MState (set_m_choose_tries (Some t) (ms_map s)) (ms_mem s))
      else Ok (tt, s)
  | None => Ok (tt, s)
  end.

Definition is_out (weight : list (option Z)) (weight_max item x : Z) : res bool :=
  if item >=? weight_max then Ok true else
  w ← rd weight item;
  if w >=? 65536 then Ok false
  else if w =? 0 then Ok true
  else if Z.land (crush_hash32_2 CRUSH_HASH_RJENKINS1 x item) 65535 <? w then Ok false
  else Ok true.

(** [for (i = lo; i < lo + n; i++) if (out[i] == item) { collide = 1; break; }] *)
Fixpoint collides (out item : Z) (n : nat) (i : Z) : M mstate bool :=
  match n with
  | O => mret false
  | S n =>
      v ← load (out + i);
      if v =? item then mret true else collides out item n (i + 1)
  end.

(** The type of an item: a bucket's own type, or 0 for a device. *)
Definition item_type (item : Z) : M mstate Z :=
  if item <? 0 then b ← bucket_at (-1 - item); mret (b_type (bucket_h b))
  else mret 0.

(** ** crush_choose_firstn *)

Section firstn.
(** Arguments that do not change during a call. *)
Context (weight : list (option Z)) (weight_max x : Z).
Context (fuel : nat).

(** The recursive call, as a function of the arguments that vary: bucket,
    numrep, out, outpos, out_size, parent_r. *)
Context (rec : Z → Z → Z → Z → Z → Z → M mstate Z).

Context (bucket type out tries local_retries local_fallback_retries : Z)
  (recurse_to_leaf : bool) (vary_r : Z) (out2 : option Z) (parent_r : Z).

(** How one turn of the [do ... while (retry_bucket)] body ends. *)
Inductive firstn_turn :=
  | Descend (pos : Z)           (* in = child; retry_bucket = 1; continue *)
  | Rejected (collide : bool)   (* falls through to the reject label *)
  | SkipRep                     (* skip_rep = 1; break *)
  | Chosen (item : Z).

Definition sub_r (r : Z) : res Z :=
  if vary_r =? 0 then Ok 0
  else if vary_r - 1 <? 32 then Ok (Z.shiftr r (vary_r - 1)) else Fault BadShift.

(** The chooseleaf part: find a leaf below [item] and put it in [out2]. *)
Definition choose_leaf (item r outpos count : Z) : M mstate bool :=
  if item <? 0 then
    sr ← lift (sub_r r);
    o2 ← lift (deref out2);
    got ← rec (-1 - item) (outpos + 1) o2 outpos count sr;
    mret (got <=? outpos)
  else
    o2 ← lift (deref out2);
    _ ← store (o2 + outpos) item;
    mret false.

Definition firstn_body (rep outpos count inb ftotal flocal : Z) : M mstate firstn_turn :=
  let r := s32 (s32 (rep + parent_r) + ftotal) in
  b ← bucket_at inb;
  let size := b_size (bucket_h b) in
  if size =? 0 then mret (Rejected false) else
  item ← (if (0 <? local_fallback_retries) && (Z.shiftr size 1 <=? flocal) &&
             (local_fallback_retries <? flocal)
          then call_perm_choose inb x r else call_bucket_choose inb x r);
  m ← gets ms_map;
  if item >=? m_max_devices m then mret SkipRep else
  itemtype ← item_type item;
  if negb (itemtype =? type) then
    if (0 <=? item) || (m_max_buckets m <=? -1 - item) then mret SkipRep
    else mret (Descend (-1 - item))
  else
  collide ← collides out item (Z.to_nat outpos) 0;
  reject ← (if negb collide && recurse_to_leaf then choose_leaf item r outpos count
            else mret false);
  reject ← (if negb reject then
              if itemtype =? 0 then lift (is_out weight weight_max item x) else mret false
            else mret reject);
  mret (if reject || collide then Rejected collide else Chosen item).

(** Both [do ... while] loops: local retries in [inb], further descent, and
    new descents from [bucket], until an item is chosen or the replica is
    skipped.  The result is the item, if any, with the final [ftotal]. *)
Fixpoint firstn_retry (fuel : nat) (rep outpos count inb ftotal flocal : Z) :
    M mstate (option Z * Z) :=
  match fuel with
  | O => lift (Fault Diverge)
  | S fuel =>
      turn ← firstn_body rep outpos count inb ftotal flocal;
      match turn with
      | Descend pos => firstn_retry fuel rep outpos count pos ftotal flocal
      | SkipRep => mret (None, ftotal)
      | Chosen item => mret (Some item, ftotal)
      | Rejected collide =>
          let ftotal := u32 (ftotal + 1) in
          let flocal := u32 (flocal + 1) in
          b ← bucket_at inb;
          if collide && (flocal <=? local_retries) then
            firstn_retry fuel rep outpos count inb ftotal flocal
          else if (0 <? local_fallback_retries) &&
                  (flocal <=? u32 (b_size (bucket_h b) + local_fallback_retries)) then
            firstn_retry fuel rep outpos count inb ftotal flocal
          else if ftotal <? tries then
            firstn_retry fuel rep outpos count bucket ftotal 0
          else mret (None, ftotal)
      end
  end.

(** [for (rep = outpos; rep < numrep && count > 0; rep++)] *)
Fixpoint firstn_reps (n : nat) (rep outpos count : Z) : M mstate Z :=
  match n with
  | O => mret outpos
  | S n =>
      if 0 <? count then
        '(got, ftotal) ← firstn_retry fuel rep outpos count bucket 0 0;
        match got with
        | None => firstn_reps n (rep + 1) outpos count
        | Some item =>
            _ ← store (out + outpos) item;
            _ ← count_tries ftotal;
            firstn_reps n (rep + 1) (outpos + 1) (count - 1)
        end
      else mret outpos
  end.
End firstn.

(** The call made for a leaf has [recurse_to_leaf = 0]: it makes no further
    call. *)
Definition crush_choose_firstn_leaf (fuel : nat) (weight : list (option Z)) (weight_max x : Z)
    (bucket numrep type out outpos out_size tries local_retries local_fallback_retries vary_r
     parent_r : Z) : M mstate Z :=
  firstn_reps weight weight_max x fuel (λ _ _ _ _ _ _, lift (Fault Diverge))
    bucket type out tries local_retries local_fallback_retries false vary_r None parent_r
    (Z.to_nat (numrep - outpos)) outpos outpos out_size.

Definition crush_choose_firstn (fuel : nat) (weight : list (option Z)) (weight_max x : Z)
    (bucket numrep type out outpos out_size tries recurse_tries local_retries
     local_fallback_retries : Z) (recurse_to_leaf : bool) (vary_r : Z) (out2 : option Z)
    (parent_r : Z) : M mstate Z :=
  firstn_reps weight weight_max x fuel
    (λ bucket numrep out outpos out_size parent_r,
       crush_choose_firstn_leaf fuel weight weight_max x bucket numrep 0 out outpos out_size
         recurse_tries local_retries local_fallback_retries vary_r parent_r)
    bucket type out tries local_retries local_fallback_retries recurse_to_leaf vary_r out2
    parent_r (Z.to_nat (numrep - outpos)) outpos outpos out_size.

(** ** crush_choose_indep *)

(** [for (rep = lo; rep < lo + n; rep++) body] *)
Fixpoint for_m (n : nat) (i : Z) (body : Z → M mstate unit) : M mstate unit :=
  match n with
  | O => mret tt
  | S n => _ ← body i; for_m n (i + 1) body
  end.

(** A store through [out2], which may be null. *)
Definition store2 (out2 : option Z) (i v : Z) : M mstate unit :=
  match out2 with Some o2 => store (o2 + i) v | None => mret tt end.

Section indep.
Context (weight : list (option Z)) (weight_max x : Z).
(** The recursive call, as a function of bucket, out, outpos and parent_r. *)
Context (rec : Z → Z → Z → Z → M mstate unit).
Context (bucket numrep type out outpos endpos : Z) (recurse_to_leaf : bool)
  (out2 : option Z) (parent_r : Z).

(** How one turn of the [for (;;)] ends: another turn in a child, or the end
    of this position's attempt with [left] lowered or not. *)
Inductive indep_turn := IDescend (pos : Z) | IFilled | IOpen.

Definition indep_r (b : CrushTypes.bucket) (rep ftotal : Z) : res Z :=
  let r := s32 (rep + parent_r) in
  careful ←
    (if bucket_alg b =? CRUSH_BUCKET_UNIFORM then
       if u32 numrep =? 0 then Fault DivByZero
       else Ok (b_size (bucket_h b) mod u32 numrep =? 0)
     else Ok false);
  Ok (if (careful : bool) then s32 (r + u32 ((numrep + 1) * ftotal))
      else s32 (r + u32 (numrep * ftotal))).

Definition indep_none (rep : Z) : M mstate indep_turn :=
  _ ← store (out + rep) CRUSH_ITEM_NONE;
  _ ← store2 out2 rep CRUSH_ITEM_NONE;
  mret IFilled.

(** The chooseleaf part: [true] when no leaf was found. *)
Definition indep_leaf (item r rep : Z) : M mstate bool :=
  o2 ← lift (deref out2);
  if item <? 0 then
    _ ← rec (-1 - item) o2 rep r;
    v ← load (o2 + rep);
    mret (v =? CRUSH_ITEM_NONE)
  else
    _ ← store (o2 + rep) item;
    mret false.

Definition indep_body (rep ftotal inb : Z) : M mstate indep_turn :=
  b ← bucket_at inb;
  r ← lift (indep_r b rep ftotal);
  if b_size (bucket_h b) =? 0 then mret IOpen else
  item ← call_bucket_choose inb x r;
  m ← gets ms_map;
  if item >=? m_max_devices m then indep_none rep else
  itemtype ← item_type item;
  if negb (itemtype =? type) then
    if (0 <=? item) || (m_max_buckets m <=? -1 - item) then indep_none rep
    else mret (IDescend (-1 - item))
  else
  collide ← collides out item (Z.to_nat (endpos - outpos)) outpos;
  if (collide : bool) then mret IOpen else
  noleaf ← (if recurse_to_leaf then indep_leaf item r rep else mret false);
  if (noleaf : bool) then mret IOpen else
  bad ← (if itemtype =? 0 then lift (is_out weight weight_max item x) else mret false);
  if (bad : bool) then mret IOpen else
  _ ← store (out + rep) item;
  mret IFilled.

Fixpoint indep_descend (fuel : nat) (rep ftotal inb left : Z) : M mstate Z :=
  match fuel with
  | O => lift (Fault Diverge)
  | S fuel =>
      turn ← indep_body rep ftotal inb;
      match turn with
      | IDescend pos => indep_descend fuel rep ftotal pos left
      | IFilled => mret (left - 1)
      | IOpen => mret left
      end
  end.

(** [for (rep = outpos; rep < endpos; rep++)] inside one attempt. *)
Fixpoint indep_reps (fuel : nat) (n : nat) (rep ftotal left : Z) : M mstate Z :=
  match n with
  | O => mret left
  | S n =>
      v ← load (out + rep);
      if negb (v =? CRUSH_ITEM_UNDEF) then indep_reps fuel n (rep + 1) ftotal left
      else
        left ← indep_descend fuel rep ftotal bucket left;
        indep_reps fuel n (rep + 1) ftotal left
  end.

(** [for (ftotal = 0; left > 0 && ftotal < tries; ftotal++)]; the result is the
    final [ftotal]. *)
Fixpoint indep_tries (fuel : nat) (n : nat) (ftotal left : Z) : M mstate Z :=
  match n with
  | O => mret ftotal
  | S n =>
      if 0 <? left then
        left ← indep_reps fuel (Z.to_nat (endpos - outpos)) outpos ftotal left;
        indep_tries fuel n (ftotal + 1) left
      else mret ftotal
  end.

Definition indep_finish (rep : Z) : M mstate unit :=
  v ← load (out + rep);
  _ ← (if v =? CRUSH_ITEM_UNDEF then store (out + rep) CRUSH_ITEM_NONE else mret tt);
  match out2 with
  | Some o2 =>
      v ← load (o2 + rep);
      if v =? CRUSH_ITEM_UNDEF then store (o2 + rep) CRUSH_ITEM_NONE else mret tt
  | None => mret tt
  end.

Definition indep_call (fuel : nat) (left tries : Z) : M mstate unit :=
  let n := Z.to_nat (endpos - outpos) in
  _ ← for_m n outpos (λ rep,
        _ ← store (out + rep) CRUSH_ITEM_UNDEF; store2 out2 rep CRUSH_ITEM_UNDEF);
  ftotal ← indep_tries fuel (Z.to_nat tries) 0 left;
  _ ← for_m n outpos indep_finish;
  count_tries ftotal.
End indep.

Definition crush_choose_indep_leaf (fuel : nat) (weight : list (option Z)) (weight_max x : Z)
    (bucket left numrep type out outpos tries : Z) (parent_r : Z) : M mstate unit :=
  indep_call weight weight_max x (λ _ _ _ _, lift (Fault Diverge))
    bucket numrep type out outpos (outpos + left) false None parent_r fuel left tries.

Definition crush_choose_indep (fuel : nat) (weight : list (option Z)) (weight_max x : Z)
    (bucket left numrep type out outpos tries recurse_tries : Z) (recurse_to_leaf : bool)
    (out2 : option Z) (parent_r : Z) : M mstate unit :=
  indep_call weight weight_max x
    (λ bucket out outpos parent_r,
       crush_choose_indep_leaf fuel weight weight_max x bucket 1 numrep 0 out outpos
         recurse_tries parent_r)
    bucket numrep type out outpos (outpos + left) recurse_to_leaf out2 parent_r fuel left tries.

(** ** crush_do_rule *)

(** The local variables of the interpreter.  [w] and [o] are offsets in the
    scratch block: [a] is 0, [b] is [result_max], [c] is [2 * result_max]. *)
Record rlocals := RLocals {
  rl_w : Z; rl_wsize : Z; rl_o : Z;
  rl_result : list (option Z); rl_result_len : Z;
  rl_choose_tries : Z; rl_choose_leaf_tries : Z;
  rl_local_retries : Z; rl_fallback_retries : Z; rl_vary_r : Z }.

Definition set_rl_w (w wsize o : Z) (l : rlocals) : rlocals :=
  RLocals w wsize o (rl_result l) (rl_result_len l) (rl_choose_tries l)
    (rl_choose_leaf_tries l) (rl_local_retries l) (rl_fallback_retries l) (rl_vary_r l).
Definition set_rl_result (r : list (option Z)) (n : Z) (l : rlocals) : rlocals :=
  RLocals (rl_w l) 0 (rl_o l) r n (rl_choose_tries l)
    (rl_choose_leaf_tries l) (rl_local_retries l) (rl_fallback_retries l) (rl_vary_r l).
Definition set_rl_tunables (t lt lr fr vr : Z) (l : rlocals) : rlocals :=
  RLocals (rl_w l) (rl_wsize l) (rl_o l) (rl_result l) (rl_result_len l) t lt lr fr vr.

Definition is_firstn (op : rule_op) : bool :=
  bool_decide (op = CRUSH_RULE_CHOOSE_FIRSTN) || bool_decide (op = CRUSH_RULE_CHOOSELEAF_FIRSTN).
Definition is_leaf (op : rule_op) : bool :=
  bool_decide (op = CRUSH_RULE_CHOOSELEAF_FIRSTN) || bool_decide (op = CRUSH_RULE_CHOOSELEAF_INDEP).

(** [memcpy] between two regions of the scratch block. *)
Definition copy_cells (dst src : Z) (n : nat) : M mstate unit :=
  for_m n 0 (λ i s,
    c ← rdc (ms_mem s) (src + i);
    mem ← wrc (ms_mem s) (dst + i) c;
    Ok (tt, MState (ms_map s) mem)).

Section do_rule.
Context (fuel : nat) (weight : list (option Z)) (weight_max x result_max : Z).

(** One input bucket of a choose step: the new [osize]. *)
Definition choose_one (st : crush_rule_step) (l : rlocals) (osize i : Z) : M mstate Z :=
  let numrep := if st_arg1 st <=? 0 then s32 (st_arg1 st + result_max) else st_arg1 st in
  if numrep <=? 0 then mret osize else
  wi ← load (rl_w l + i);
  m ← gets ms_map;
  _ ← lift (rdp (m_buckets m) (-1 - wi));
  let c := 2 * result_max in
  if is_firstn (st_op st) then
    let recurse_tries :=
      if negb (rl_choose_leaf_tries l =? 0) then rl_choose_leaf_tries l
      else if negb (m_chooseleaf_descend_once m =? 0) then 1
      else rl_choose_tries l in
    got ← crush_choose_firstn fuel weight weight_max x (-1 - wi) numrep (st_arg2 st)
            (rl_o l + osize) 0 (result_max - osize)
            (u32 (rl_choose_tries l)) (u32 recurse_tries) (u32 (rl_local_retries l))
            (u32 (rl_fallback_retries l)) (is_leaf (st_op st)) (u32 (rl_vary_r l))
            (Some (c + osize)) 0;
    mret (osize + got)
  else
    let out_size := if numrep <? result_max - osize then numrep else result_max - osize in
    _ ← crush_choose_indep fuel weight weight_max x (-1 - wi) out_size numrep (st_arg2 st)
          (rl_o l + osize) 0 (u32 (rl_choose_tries l))
          (u32 (if negb (rl_choose_leaf_tries l =? 0) then rl_choose_leaf_tries l else 1))
          (is_leaf (st_op st)) (Some (c + osize)) 0;
    mret (osize + out_size).

Fixpoint choose_all (st : crush_rule_step) (l : rlocals) (n : nat) (osize i : Z) : M mstate Z :=
  match n with
  | O => mret osize
  | S n => osize ← choose_one st l osize i; choose_all st l n osize (i + 1)
  end.

Definition choose_step (st : crush_rule_step) (l : rlocals) : M mstate rlocals :=
  if rl_wsize l =? 0 then mret l else
  osize ← choose_all st l (Z.to_nat (rl_wsize l)) 0 0;
  _ ← (if is_leaf (st_op st) then copy_cells (rl_o l) (2 * result_max) (Z.to_nat osize)
       else mret tt);
  mret (set_rl_w (rl_o l) osize (rl_w l) l).

(** [for (i = 0; i < wsize && result_len < result_max; i++)] *)
Fixpoint emit_loop (w : Z) (n : nat) (i : Z) (result : list (option Z)) (len : Z) :
    M mstate (list (option Z) * Z) :=
  match n with
  | O => mret (result, len)
  | S n =>
      if len <? result_max then
        v ← load (w + i);
        result ← lift (wr result len v);
        emit_loop w n (i + 1) result (len + 1)
      else mret (result, len)
  end.

Definition rule_step (st : crush_rule_step) (l : rlocals) : M mstate rlocals :=
  let a1 := st_arg1 st in
  match st_op st with
  | CRUSH_RULE_TAKE =>
      _ ← store (rl_w l) a1; mret (set_rl_w (rl_w l) 1 (rl_o l) l)
  | CRUSH_RULE_SET_CHOOSE_TRIES =>
      mret (if 0 <? a1 then set_rl_tunables a1 (rl_choose_leaf_tries l)
              (rl_local_retries l) (rl_fallback_retries l) (rl_vary_r l) l else l)
  | CRUSH_RULE_SET_CHOOSELEAF_TRIES =>
      mret (if 0 <? a1 then set_rl_tunables (rl_choose_tries l) a1
              (rl_local_retries l) (rl_fallback_retries l) (rl_vary_r l) l else l)
  | CRUSH_RULE_SET_CHOOSE_LOCAL_TRIES =>
      mret (if 0 <=? a1 then set_rl_tunables (rl_choose_tries l) (rl_choose_leaf_tries l)
              a1 (rl_fallback_retries l) (rl_vary_r l) l else l)
  | CRUSH_RULE_SET_CHOOSE_LOCAL_FALLBACK_TRIES =>
      mret (if 0 <=? a1 then set_rl_tunables (rl_choose_tries l) (rl_choose_leaf_tries l)
              (rl_local_retries l) a1 (rl_vary_r l) l else l)
  | CRUSH_RULE_SET_CHOOSELEAF_VARY_R =>
      mret (if 0 <=? a1 then set_rl_tunables (rl_choose_tries l) (rl_choose_leaf_tries l)
              (rl_local_retries l) (rl_fallback_retries l) a1 l else l)
  | CRUSH_RULE_CHOOSELEAF_FIRSTN | CRUSH_RULE_CHOOSE_FIRSTN
  | CRUSH_RULE_CHOOSELEAF_INDEP | CRUSH_RULE_CHOOSE_INDEP => choose_step st l
  | CRUSH_RULE_EMIT =>
      '(result, len) ← emit_loop (rl_w l) (Z.to_nat (rl_wsize l)) 0 (rl_result l) (rl_result_len l);
      mret (set_rl_result result len l)
  | CRUSH_RULE_OTHER _ => mret l
  end.

(** [for (step = 0; step < rule->len; step++)] *)
Fixpoint rule_steps (steps : list (option crush_rule_step)) (n : nat) (i : Z) (l : rlocals) :
    M mstate rlocals :=
  match n with
  | O => mret l
  | S n =>
      p ← lift (rdp steps i);
      st ← lift (match p with Some st => Ok st | None => Fault Uninitialized end);
      l ← rule_step st l;
      rule_steps steps n (i + 1) l
  end.

Definition crush_do_rule (ruleno : Z) (result : list (option Z)) :
    M mstate (list (option Z) * Z) :=
  m ← gets ms_map;
  if m_max_rules m <=? u32 ruleno then mret (result, 0) else
  rule ← lift (p ← rdp (m_rules m) ruleno; deref p);
  let l := RLocals 0 0 result_max result 0 (s32 (m_choose_total_tries m + 1)) 0
             (s32 (m_choose_local_tries m)) (s32 (m_choose_local_fallback_tries m))
             (m_chooseleaf_vary_r m) in
  l ← rule_steps (ru_steps rule) (Z.to_nat (ru_len rule)) 0 l;
  mret (rl_result l, rl_result_len l).
End do_rule.
