(* ===== verification/MapWf.v ===== *)
(** * Well-formed maps

    The hierarchy of a map as a [shape]: for every bucket slot the type and the
    items of its bucket.  Mapping an input changes permutation caches and
    statistics only, so the shape is a constant of a run and [map_ok] relates
    the store to it. *)

From S2P Require Import Prelude Hash CrushTypes Ln Nodes Choose ChoosePerm ChooseSpec.
From S2P Require Import Mapper.

(** Type and items of a bucket. *)
Definition bshape : Type := Z * list Z.

(** Item [item] is bucket [pos] of the hierarchy. *)
Definition bucket_pos (item : Z) : nat := Z.to_nat (-1 - item).

Definition shape_at (sh : list (option bshape)) (pos : nat) : option bshape := mjoin (sh !! pos).

(** The type the algorithm sees for an item. *)
Definition itype (sh : list (option bshape)) (item : Z) : Z :=
  if item <? 0 then match shape_at sh (bucket_pos item) with Some (ty, _) => ty | None => 0 end
  else 0.

(** A device below [D], or a bucket that exists. *)
Definition item_ok (sh : list (option bshape)) (D item : Z) : Prop :=
  (0 <= item < D) ∨ (item < 0 ∧ is_Some (shape_at sh (bucket_pos item))).

Record shape_wf (sh : list (option bshape)) (D : Z) (rank : nat → nat) : Prop := {
  sw_devices : 0 <= D <= CRUSH_ITEM_UNDEF;
  sw_slots : Z.of_nat (length sh) < 2147483648;
  sw_type : ∀ pos ty l, shape_at sh pos = Some (ty, l) → 0 < ty;
  sw_items : ∀ pos ty l item, shape_at sh pos = Some (ty, l) → item ∈ l → item_ok sh D item;
  sw_rank : ∀ pos ty l item, shape_at sh pos = Some (ty, l) → item ∈ l → item < 0 →
              (rank (bucket_pos item) < rank pos)%nat }.

Definition slot_ok (o : option bshape) (p : option bucket) : Prop :=
  match o, p with
  | None, None => True
  | Some (ty, l), Some b => b_type (bucket_h b) = ty ∧ bucket_wf b l
  | _, _ => False
  end.

(** The retry statistics, when they are collected, have a cell for every count
    that is recorded. *)
Definition tries_ok (m : crush_map) : Prop :=
  match m_choose_tries m with
  | None => True
  | Some t => ∃ l, holds t l ∧ m_choose_total_tries m < Z.of_nat (length l)
  end.

(** What a run may not change: all of the map but the permutation caches of its
    buckets and the statistics in [choose_tries]. *)
Record statics := Statics {
  sx_buckets : list (option bucket); sx_max_buckets : Z; sx_max_devices : Z; sx_straw : Z; sx_algs : Z;
  sx_rules : list (option crush_rule); sx_max_rules : Z; sx_local : Z; sx_fallback : Z;
  sx_total : Z; sx_once : Z; sx_vary_r : Z }.

Definition statics_of (m : crush_map) : statics :=
  Statics ((option_map bare) <$> m_buckets m) (m_max_buckets m) (m_max_devices m) (m_straw_calc_version m) (m_allowed_bucket_algs m) (m_rules m) (m_max_rules m) (m_choose_local_tries m)
    (m_choose_local_fallback_tries m) (m_choose_total_tries m)
    (m_chooseleaf_descend_once m) (m_chooseleaf_vary_r m).

Record map_ok (sh : list (option bshape)) (D : Z) (st : statics) (m : crush_map) : Prop := {
  mo_slots : Forall2 slot_ok sh (m_buckets m);
  mo_max_buckets : m_max_buckets m = Z.of_nat (length sh);
  mo_max_devices : m_max_devices m = D;
  mo_tries : tries_ok m;
  mo_statics : statics_of m = st }.

Section ops.
Context {sh : list (option bshape)} {D : Z} {st : statics}.

Lemma map_ok_bucket m pos ty l :
  map_ok sh D st m → shape_at sh pos = Some (ty, l) →
  ∃ b, get_bucket m (Z.of_nat pos) = Ok b ∧ b_type (bucket_h b) = ty ∧ bucket_wf b l.
Proof.
  intros Hm Hs. unfold shape_at in Hs. destruct (sh !! pos) as [o|] eqn:Ho; simplify_eq/=.
  destruct (Forall2_lookup_l _ _ _ _ _ (mo_slots _ _ _ _ Hm) Ho) as (p & Hp & Hslot).
  destruct p as [b|]; [|done]. exists b. destruct Hslot. split; [|done].
  unfold get_bucket, rdp. rewrite (proj2 (Z.ltb_ge (Z.of_nat pos) 0)) by lia.
  by rewrite Nat2Z.id, Hp.
Qed.

Lemma map_ok_put m pos ty l b0 b :
  map_ok sh D st m → shape_at sh pos = Some (ty, l) → get_bucket m (Z.of_nat pos) = Ok b0 →
  b_type (bucket_h b0) = ty → bucket_wf b l → bare b = bare b0 →
  map_ok sh D st (put_bucket (Z.of_nat pos) b m).
Proof.
  intros [Hslots Hmb Hmd Ht Hst] Hs Hget Hty Hb Hbare. unfold put_bucket. rewrite Nat2Z.id. rewrite <- (bare_type b0 b Hbare) in Hty.
  split; simpl; try done.
  - unfold shape_at in Hs. destruct (sh !! pos) as [o|] eqn:Ho; simplify_eq/=.
    replace sh with (<[pos := Some (b_type (bucket_h b), l)]> sh) by (by apply list_insert_id).
    by apply Forall2_insert.
  - rewrite <- Hst. unfold statics_of. simpl. f_equal. rewrite list_fmap_insert. apply list_insert_id. rewrite list_lookup_fmap.
    unfold get_bucket, rdp in Hget. rewrite (proj2 (Z.ltb_ge (Z.of_nat pos) 0)), Nat2Z.id in Hget by lia.
    destruct (m_buckets m !! pos) as [[b1|]|]; try done. injection Hget as ->. simpl. by rewrite Hbare.
Qed.

(** Positions of the bucket array, as the code computes them. *)
Lemma bucket_pos_Z item : item < 0 → Z.of_nat (bucket_pos item) = -1 - item.
Proof. unfold bucket_pos. lia. Qed.

Lemma call_bucket_choose_ok pos ty l x r s :
  map_ok sh D st (ms_map s) → shape_at sh pos = Some (ty, l) → l ≠ [] →
  wp (call_bucket_choose (Z.of_nat pos) x r) s
     (λ item s', item ∈ l ∧ map_ok sh D st (ms_map s') ∧ ms_mem s' = ms_mem s).
Proof.
  intros Hm Hs Hne. destruct (map_ok_bucket _ _ _ _ Hm Hs) as (b & Hget & Hty & Hb).
  unfold call_bucket_choose, wp. rewrite Hget. cbn [mbind res_bind].
  apply rwp_bind. eapply rwp_mono; [by apply crush_bucket_choose_ok|].
  intros [item b'] (Hin & Hb' & Hty'). simpl in *. split; [done|]. split; [|done].
  by eapply map_ok_put.
Qed.

Lemma call_perm_choose_ok pos ty l x r s :
  map_ok sh D st (ms_map s) → shape_at sh pos = Some (ty, l) → l ≠ [] →
  wp (call_perm_choose (Z.of_nat pos) x r) s
     (λ item s', item ∈ l ∧ map_ok sh D st (ms_map s') ∧ ms_mem s' = ms_mem s).
Proof.
  intros Hm Hs Hne. destruct (map_ok_bucket _ _ _ _ Hm Hs) as (b & Hget & Hty & Hb).
  unfold call_perm_choose, wp. rewrite Hget. cbn [mbind res_bind].
  pose proof (call_perm_wf b l x r Hb Hne) as H.
  destruct (bucket_perm_choose (bucket_h b) x r) as [[item h]|]; [|done].
  simpl in *. destruct H as (Hin & Hb' & Hty'). simpl in *.
  split; [done|]. split; [|done]. by eapply map_ok_put.
Qed.

Lemma item_type_ok item s :
  map_ok sh D st (ms_map s) → item_ok sh D item → item_type item s = Ok (itype sh item, s).
Proof.
  intros Hm Hok. unfold item_type, itype. destruct (Z.ltb_spec item 0) as [Hneg|]; [|done].
  destruct Hok as [?|[_ [[ty l] Hs]]]; [lia|]. rewrite Hs.
  destruct (map_ok_bucket _ _ _ _ Hm Hs) as (b & Hget & Hty & _).
  rewrite bucket_pos_Z in Hget by done.
  unfold bucket_at, mbind, M_bind. rewrite Hget. simpl. by rewrite Hty.
Qed.

Lemma count_tries_ok ftotal s :
  0 <= ftotal → map_ok sh D st (ms_map s) →
  wp (count_tries ftotal) s (λ _ s', map_ok sh D st (ms_map s') ∧ ms_mem s' = ms_mem s).
Proof.
  intros Hf Hm. pose proof Hm as [Hslots Hmb Hmd Ht Hst].
  unfold count_tries, wp, tries_ok in *.
  destruct (m_choose_tries (ms_map s)) as [t|] eqn:Et; [|done].
  destruct (Z.leb_spec ftotal (m_choose_total_tries (ms_map s))); [|done].
  destruct Ht as (l & Hl & Hlen).
  destruct (lookup_lt_is_Some_2 l (Z.to_nat ftotal)) as [v Hv]; [lia|].
  rewrite (rd_holds t l ftotal v) by done. cbn [mbind res_bind].
  pose proof (holds_length _ _ Hl). rewrite wr_ok by lia. cbn [mbind res_bind].
  split; [|done]. split; simpl; try done. unfold tries_ok. simpl.
  exists (<[Z.to_nat ftotal := u32 (v + 1)]> l). rewrite length_insert.
  split; [|done]. apply holds_insert; [done|lia].
Qed.
End ops.

(** Only devices have type 0. *)
Lemma itype_0_device sh D rank item :
  shape_wf sh D rank → item_ok sh D item → itype sh item = 0 → 0 <= item < D.
Proof.
  intros Hsh [?|[Hneg [[ty l] Hs]]]; [done|]. unfold itype.
  rewrite (proj2 (Z.ltb_lt item 0)), Hs by done. intros ->.
  pose proof (sw_type _ _ _ Hsh _ _ _ Hs). lia.
Qed.

Lemma itype_pos_bucket sh D item : item_ok sh D item → itype sh item ≠ 0 → item < 0.
Proof.
  intros [?|[Hneg _]]; [|done]. unfold itype. by rewrite (proj2 (Z.ltb_ge item 0)) by lia.
Qed.
