(* ===== verification/FirstnSpec.v ===== *)
(** * crush_choose_firstn: total correctness (src/crush/mapper.c)

    On a well-formed map the procedure returns, stays inside its output
    vectors, and every item it chose has the wanted type, is not marked out,
    and differs from the items before it; with [recurse_to_leaf] the same holds
    of the devices it found below them. *)

From S2P Require Import Prelude Hash CrushTypes Ln Nodes Choose ChoosePerm ChooseSpec.
From S2P Require Import Mapper MapWf.

(** ** Loads, stores and the collision scan *)

Lemma wp_store i v s (Q : unit → mstate → Prop) :
  0 <= i < Z.of_nat (length (ms_mem s)) →
  Q tt (MState (ms_map s) (<[Z.to_nat i := Some v]> (ms_mem s))) → wp (store i v) s Q.
Proof. intros Hi HQ. unfold wp, store. by rewrite wr_ok. Qed.

Lemma collides_ok out item (l : list Z) n i s :
  region (ms_mem s) out l → 0 <= out → 0 <= i → i + Z.of_nat n <= Z.of_nat (length l) →
  ∃ c, collides out item n i s = Ok (c, s) ∧
       (c = false → ∀ j, i <= j < i + Z.of_nat n → l !! Z.to_nat j ≠ Some item).
Proof.
  intros Hr Ho. revert i. induction n as [|n IH]; intros i Hi Hn.
  { exists false. split; [done|]. lia. }
  destruct (lookup_lt_is_Some_2 l (Z.to_nat i)) as [v Hv]; [lia|].
  cbn [collides]. unfold load, mbind, M_bind. rewrite (region_rd _ _ l _ v) by done. simpl.
  destruct (Z.eqb_spec v item) as [->|Hne]; [by exists true|].
  destruct (IH (i + 1)) as (c & Hc & Hcf); [lia|lia|]. exists c. split; [done|].
  intros E j Hj. destruct (decide (j = i)) as [->|]; [congruence|]. apply Hcf; [done|lia].
Qed.

Section firstn_proof.
Context (sh : list (option bshape)) (D : Z) (st : statics) (rank : nat → nat).
Context (Hsh : shape_wf sh D rank).
Context (weight : list (option Z)) (ws : list Z) (weight_max x : Z).
Context (Hweight : holds weight ws) (Hwmax : weight_max = Z.of_nat (length ws)).

#[local] Abbreviation Inv s := (map_ok sh D st (ms_map s)).

(** An acceptable choice of type [type]. *)
Definition good (type item : Z) : Prop :=
  item_ok sh D item ∧ itype sh item = type ∧
  (type = 0 → is_out weight weight_max item x = Ok false).

Lemma is_out_total item : 0 <= item → ∃ b, is_out weight weight_max item x = Ok b.
Proof.
  intros Hi. unfold is_out. destruct (Z.geb_spec item weight_max); [by eexists|].
  destruct (lookup_lt_is_Some_2 ws (Z.to_nat item)) as [w Hw]; [lia|].
  rewrite (rd_holds _ ws item w) by done. cbn [mbind res_bind].
  repeat case_match; by eexists.
Qed.

(** ** One call *)

(** What the recursive call guarantees: at most one more leaf. *)
Definition rec_ok (rec : Z → Z → Z → Z → Z → Z → M mstate Z) : Prop :=
  ∀ pos ty l outpos count o2 leaves sr s,
    shape_at sh pos = Some (ty, l) → Inv s → 0 < count → outpos = Z.of_nat (length leaves) →
    region (ms_mem s) o2 leaves → 0 <= o2 →
    o2 + outpos + count <= Z.of_nat (length (ms_mem s)) →
    wp (rec (Z.of_nat pos) (outpos + 1) o2 outpos count sr) s (λ got s',
      Inv s' ∧ keeps (λ i, i = o2 + outpos) (ms_mem s) (ms_mem s') ∧
      (got <= outpos ∨ got = outpos + 1 ∧
       ∃ leaf, ms_mem s' !! Z.to_nat (o2 + outpos) = Some (Some leaf) ∧
               good 0 leaf ∧ (leaf ∉ leaves))).

Context (rec : Z → Z → Z → Z → Z → Z → M mstate Z).
Context (bucket : nat) (type out tries local_retries fallback : Z) (leaf : bool)
  (vary_r : Z) (out2 : option Z) (o2 : Z) (parent_r : Z).
Context (Hrec : leaf = true → rec_ok rec) (Hout : 0 <= out) (Ho2 : 0 <= o2)
  (Hout2 : leaf = true → out2 = Some o2)
  (Hvary : leaf = true → 0 <= vary_r <= 32).

(** The state between two replicas: [sel] chosen so far, [leaves] below. *)
Record outputs (s : mstate) (sel leaves : list Z) (count : Z) : Prop := {
  ou_inv : Inv s;
  ou_done : region (ms_mem s) out sel;
  ou_leaves : leaf = true → region (ms_mem s) o2 leaves ∧ length leaves = length sel ∧
                            (type = 0 → leaves = sel);
  ou_room : out + Z.of_nat (length sel) + count <= Z.of_nat (length (ms_mem s));
  ou_room2 : leaf = true → o2 + Z.of_nat (length sel) + count <= Z.of_nat (length (ms_mem s));
  ou_apart : leaf = true → out + Z.of_nat (length sel) + count <= o2 ∨
                           o2 + Z.of_nat (length sel) + count <= out }.

(** The only cell a replica's attempts may write: its slot in [out2]. *)
Definition leaf_slot (sel : list Z) (i : Z) : Prop :=
  leaf = true ∧ i = o2 + Z.of_nat (length sel).

Lemma outputs_keeps s s' sel leaves count :
  outputs s sel leaves count → Inv s' → 0 < count →
  keeps (leaf_slot sel) (ms_mem s) (ms_mem s') → outputs s' sel leaves count.
Proof.
  intros [Hi Hd Hl Hr Hr2 Ha] Hi' Hc Hk. pose proof Hk as [Hlen _].
  split; rewrite ?Hlen; try done.
  - eapply region_keeps; [done..|]. intros i Hrng [Hlf ->]. specialize (Ha Hlf). lia.
  - intros Hlf. destruct (Hl Hlf) as (Hrg & Hll & Ht). split; [|done].
    eapply region_keeps; [done..|]. intros i Hrng [_ ->]. lia.
Qed.

(** What a chosen item comes with. *)
Definition chosen (s : mstate) (sel leaves : list Z) (item : Z) : Prop :=
  good type item ∧ (item ∉ sel) ∧
  (leaf = true → ∃ lf, ms_mem s !! Z.to_nat (o2 + Z.of_nat (length sel)) = Some (Some lf) ∧
                        good 0 lf ∧ (lf ∉ leaves) ∧ (type = 0 → lf = item)).

Lemma sub_r_ok r : leaf = true → ∃ v, sub_r vary_r r = Ok v.
Proof.
  intros Hl. specialize (Hvary Hl). unfold sub_r. destruct (vary_r =? 0); [by eexists|].
  rewrite (proj2 (Z.ltb_lt _ _)) by lia. by eexists.
Qed.

(** The chooseleaf part: on success the leaf slot holds a fresh good device. *)
Lemma choose_leaf_ok item r count s sel leaves :
  leaf = true → outputs s sel leaves count → 0 < count →
  item_ok sh D item → itype sh item = type → item ∉ sel →
  wp (choose_leaf rec vary_r out2 item r (Z.of_nat (length sel)) count) s
    (λ reject s', Inv s' ∧ keeps (leaf_slot sel) (ms_mem s) (ms_mem s') ∧
      (reject = false → ∃ lf,
         ms_mem s' !! Z.to_nat (o2 + Z.of_nat (length sel)) = Some (Some lf) ∧
         (lf ∉ leaves) ∧ (type = 0 → lf = item) ∧ (type ≠ 0 → good 0 lf))).
Proof.
  intros Hlf [Hi Hd Hl Hr Hr2 Ha] Hc Hok Hty Hnd. specialize (Hl Hlf) as (Hrg & Hll & Heq).
  specialize (Hr2 Hlf). unfold choose_leaf. destruct (Z.ltb_spec item 0) as [Hneg|Hpos].
  - destruct (sub_r_ok r Hlf) as [sr Hsr].
    apply (wp_bind_eq _ _ _ sr s); [by unfold lift; rewrite Hsr|].
    apply (wp_bind_eq _ _ _ o2 s); [by rewrite (Hout2 Hlf)|].
    destruct Hok as [?|[_ [[ty l] Hs]]]; [lia|].
    rewrite <- (bucket_pos_Z item Hneg). eapply wp_bind_mono.
    { rewrite <- Hll. apply (Hrec Hlf (bucket_pos item) ty l _ count o2 leaves); try done; lia. }
    intros got s' (Hi' & Hk & Hgot). apply wp_ret. split; [done|]. split.
    { eapply keeps_mono; [done|]. intros i ->. split; [done|lia]. }
    intros Hle. apply Z.leb_gt in Hle. rewrite Hll in Hgot.
    destruct Hgot as [?|(_ & lf & Hm & Hg & Hfresh)]; [lia|].
    exists lf. repeat split; try done; try apply Hg; try (intros; apply Hg; done).
    intros ->. unfold itype in Hty. rewrite (proj2 (Z.ltb_lt item 0)), Hs in Hty by done.
    subst ty. pose proof (sw_type _ _ _ Hsh _ _ _ Hs). lia.
  - assert (type = 0) as ->.
    { subst type. unfold itype. by rewrite (proj2 (Z.ltb_ge item 0)) by lia. }
    apply (wp_bind_eq _ _ _ o2 s); [by rewrite (Hout2 Hlf)|]. apply wp_bind. apply wp_store; [lia|].
    apply wp_ret. simpl. split; [done|]. split; [apply keeps_insert; [lia|split; [done|lia]]|].
    intros _. exists item. rewrite (Heq eq_refl). split; [apply list_lookup_insert_eq; lia|].
    done.
Qed.

(** What one turn of the loop body may report. *)
Definition turn_ok (s s' : mstate) (sel leaves : list Z) (inb : nat) (t : firstn_turn) : Prop :=
  Inv s' ∧ keeps (leaf_slot sel) (ms_mem s) (ms_mem s') ∧
  match t with
  | Descend pos => ∃ p ty l, pos = Z.of_nat p ∧ shape_at sh p = Some (ty, l) ∧
                             (rank p < rank inb)%nat
  | Chosen item => chosen s' sel leaves item
  | Rejected _ | SkipRep => True
  end.

(** The tail of the body, once an item of the wanted type is in hand. *)
Lemma firstn_accept_ok item r count s0 s sel leaves inb :
  outputs s sel leaves count → 0 < count → ms_mem s = ms_mem s0 →
  item_ok sh D item → itype sh item = type →
  wp (collide ← collides out item (Z.to_nat (Z.of_nat (length sel))) 0;
      reject ← (if negb collide && leaf
                then choose_leaf rec vary_r out2 item r (Z.of_nat (length sel)) count
                else mret false);
      reject ← (if negb reject then
                  if itype sh item =? 0 then lift (is_out weight weight_max item x)
                  else mret false
                else mret reject);
      mret (if reject || collide then Rejected collide else Chosen item)) s
    (λ t s', turn_ok s0 s' sel leaves inb t).
Proof.
  intros Hou Hc Emem Hok Hty. pose proof (ou_done _ _ _ _ Hou) as Hd.
  destruct (collides_ok out item sel (Z.to_nat (Z.of_nat (length sel))) 0 s Hd Hout)
    as (c & Hcol & Hfresh); [lia..|].
  apply (wp_bind_eq _ _ _ c s); [done|].
  assert (c = false → item ∉ sel) as Hnd.
  { intros Ec Hin. apply list_elem_of_lookup in Hin as [j Hj].
    apply (Hfresh Ec (Z.of_nat j)); [apply lookup_lt_Some in Hj; lia|by rewrite Nat2Z.id]. }
  eapply (wp_bind_mono _ _ _ (λ reject s', Inv s' ∧
    keeps (leaf_slot sel) (ms_mem s) (ms_mem s') ∧
    (c = false → reject = false → leaf = true → ∃ lf,
       ms_mem s' !! Z.to_nat (o2 + Z.of_nat (length sel)) = Some (Some lf) ∧
       (lf ∉ leaves) ∧ (type = 0 → lf = item) ∧ (type ≠ 0 → good 0 lf)))).
  { destruct c.
    { apply wp_ret. split; [apply Hou|]. split; [apply keeps_refl|done]. }
    destruct (bool_dec leaf true) as [Elf|Elf%not_true_is_false].
    - replace (negb false && leaf) with true by (by rewrite Elf).
      eapply wp_mono; [by apply choose_leaf_ok; auto|]. intros rj s' (? & ? & H). auto.
    - replace (negb false && leaf) with false by (by rewrite Elf).
      apply wp_ret. split; [apply Hou|]. split; [apply keeps_refl|congruence]. }
  intros reject s' (Hi' & Hk & Hlf).
  assert (∃ rj, (if negb reject then if itype sh item =? 0
            then lift (is_out weight weight_max item x) else mret false
          else mret reject) s' = Ok (rj, s') ∧
          (rj = false → reject = false ∧ good type item)) as (rj & Hrj & Hgood).
  { destruct reject; [by exists true|]. simpl. rewrite Hty.
    destruct (Z.eqb_spec type 0) as [E0|Hne].
    - destruct (is_out_total item) as [o Ho]; [pose proof (itype_0_device _ _ _ item Hsh Hok); lia|].
      exists o. unfold lift. rewrite Ho. split; [done|]. intros ->. split; [done|].
      split; [done|]. split; [done|]. done.
    - exists false. split; [done|]. intros _. split; [done|]. split; [done|]. split; [done|].
      intros E. by rewrite E in Hne. }
  apply (wp_bind_eq _ _ _ rj s'); [done|]. apply wp_ret.
  unfold turn_ok. rewrite <- Emem. split; [done|]. split; [done|]. destruct rj, c; simpl; try done.
  destruct (Hgood eq_refl) as [-> Hg]. split; [done|]. split; [by apply Hnd|].
  intros El. destruct (Hlf eq_refl eq_refl El) as (lf & Hm & Hn & Ht & Hg').
  exists lf. split; [done|]. split; [|done].
  destruct (decide (type = 0)) as [E0|]; [|by apply Hg']. rewrite (Ht E0). by rewrite <- E0.
Qed.


(** One turn: it ends, and the four ways it may end. *)
Lemma firstn_body_ok rep count inb ty l ftotal flocal s sel leaves :
  outputs s sel leaves count → 0 < count → shape_at sh inb = Some (ty, l) →
  wp (firstn_body weight weight_max x rec type out fallback leaf vary_r out2 parent_r
        rep (Z.of_nat (length sel)) count (Z.of_nat inb) ftotal flocal) s
     (λ t s', turn_ok s s' sel leaves inb t).
Proof.
  intros Hou Hc Hs. pose proof (ou_inv _ _ _ _ Hou) as Hi.
  destruct (map_ok_bucket _ _ _ _ Hi Hs) as (b & Hget & Hbt & Hb).
  unfold firstn_body. apply (wp_bind_eq _ _ _ b s); [by unfold bucket_at; rewrite Hget|].
  destruct (Z.eqb_spec (b_size (bucket_h b)) 0) as [|Hsz].
  { apply wp_ret. split; [done|]. split; [apply keeps_refl|done]. }
  assert (l ≠ []) as Hne.
  { intros ->. destruct Hb as [(_ & E & _) _]. done. }
  eapply wp_bind_mono.
  { case_match; [exact (call_perm_choose_ok inb ty l x _ s Hi Hs Hne)|
      exact (call_bucket_choose_ok inb ty l x _ s Hi Hs Hne)]. }
  intros item s' (Hin & Hi' & Emem).
  apply (wp_bind_eq _ _ _ (ms_map s') s'); [done|].
  assert (turn_ok s s' sel leaves inb SkipRep) as Hskip.
  { split; [done|]. rewrite Emem. split; [apply keeps_refl|done]. }
  destruct (Z.geb_spec item (m_max_devices (ms_map s'))) as [|Hdev]; [by apply wp_ret|].
  pose proof (sw_items _ _ _ Hsh _ _ _ _ Hs Hin) as Hok.
  apply (wp_bind_eq _ _ _ (itype sh item) s'); [exact (item_type_ok item s' Hi' Hok)|].
  destruct (Z.eqb_spec (itype sh item) type) as [Hty|Hty]; cbn [negb].
  - apply firstn_accept_ok; try done. eapply outputs_keeps; try done.
    rewrite Emem. apply keeps_refl.
  - destruct (Z.leb_spec 0 item) as [|Hneg]; [by apply wp_ret|]. cbn [orb].
    case_match; [by apply wp_ret|]. apply wp_ret.
    split; [done|]. rewrite Emem. split; [apply keeps_refl|].
    destruct Hok as [?|[_ [[ty' l'] Hs']]]; [lia|].
    exists (bucket_pos item), ty', l'. rewrite bucket_pos_Z by done. split; [done|].
    split; [done|]. by eapply sw_rank.
Qed.

(** ** Termination of the retry loops *)

(** Bounds on the local retries of one bucket and on the depth. *)
Context (L R : Z) (bty : Z) (bl : list Z).
Context (Hbucket : shape_at sh bucket = Some (bty, bl)) (HL0 : 0 <= L)
  (HLlocal : local_retries <= L)
  (HLfallback : 0 < fallback → ∀ p ty l, shape_at sh p = Some (ty, l) →
                  Z.of_nat (length l) + fallback <= L)
  (HR : ∀ p ty l, shape_at sh p = Some (ty, l) → Z.of_nat (rank p) <= R).

(** Every turn lowers it, and [ftotal] grows by at most what it loses. *)
Definition turns_left (inb : nat) (ftotal flocal : Z) : Z :=
  Z.max 0 (tries - ftotal) * ((L + 1) * (R + 1)) + (L - flocal) * (R + 1) + Z.of_nat (rank inb).

Definition retry_bound : Z := (Z.max 0 tries + 1) * ((L + 1) * (R + 1)).

Lemma turns_left_nonneg inb ftotal flocal : flocal <= L → 0 <= R → 0 <= turns_left inb ftotal flocal.
Proof. unfold turns_left. intros. nia. Qed.

Lemma turns_left_local inb ftotal flocal :
  0 <= R → flocal + 1 <= L → turns_left inb (ftotal + 1) (flocal + 1) + 1 <= turns_left inb ftotal flocal.
Proof.
  unfold turns_left. intros.
  assert (Z.max 0 (tries - (ftotal + 1)) <= Z.max 0 (tries - ftotal)) as Hm by lia.
  apply (Z.mul_le_mono_nonneg_r _ _ ((L + 1) * (R + 1))) in Hm; nia.
Qed.

Lemma turns_left_restart inb ftotal flocal :
  flocal <= L → ftotal + 1 < tries →
  turns_left bucket (ftotal + 1) 0 + 1 <= turns_left inb ftotal flocal.
Proof.
  unfold turns_left. intros. pose proof (HR _ _ _ Hbucket).
  rewrite !Z.max_r by lia. nia.
Qed.

Lemma turns_left_start : turns_left bucket 0 0 < retry_bound.
Proof.
  unfold turns_left, retry_bound. pose proof (HR _ _ _ Hbucket). rewrite Z.sub_0_r. nia.
Qed.

Definition retry_post (s : mstate) (sel leaves : list Z) (ans : option Z * Z) (s' : mstate) : Prop :=
  Inv s' ∧ keeps (leaf_slot sel) (ms_mem s) (ms_mem s') ∧ 0 <= snd ans ∧
  match fst ans with Some item => chosen s' sel leaves item | None => True end.

Lemma retry_post_trans s s' sel leaves ans s'' :
  keeps (leaf_slot sel) (ms_mem s) (ms_mem s') →
  retry_post s' sel leaves ans s'' → retry_post s sel leaves ans s''.
Proof. intros Hk (? & Hk' & ?). split; [done|]. split; [by eapply keeps_trans|done]. Qed.

(** The loops end, within a number of turns that the tunables bound. *)
Lemma firstn_retry_ok fuel : ∀ rep count inb ty l ftotal flocal s sel leaves,
  outputs s sel leaves count → 0 < count → shape_at sh inb = Some (ty, l) →
  0 <= ftotal → 0 <= flocal <= L →
  turns_left inb ftotal flocal < Z.of_nat fuel →
  ftotal + turns_left inb ftotal flocal + 1 < 4294967296 → L + 1 < 4294967296 →
  wp (firstn_retry weight weight_max x rec (Z.of_nat bucket) type out tries local_retries
        fallback leaf vary_r out2 parent_r fuel rep (Z.of_nat (length sel)) count
        (Z.of_nat inb) ftotal flocal) s
     (retry_post s sel leaves).
Proof.
  pose proof (HR _ _ _ Hbucket) as HR0.
  induction fuel as [|fuel IH];
    intros rep count inb ty l ftotal flocal s sel leaves Hou Hc Hs Hft Hfl Hfuel Hw Hw'.
  { pose proof (turns_left_nonneg inb ftotal flocal). lia. }
  cbn [firstn_retry]. eapply wp_bind_mono; [by eapply firstn_body_ok|].
  intros t s' (Hi' & Hk & Ht).
  assert (outputs s' sel leaves count) as Hou' by (by eapply outputs_keeps).
  assert (∀ m, wp m s' (retry_post s' sel leaves) → wp m s' (retry_post s sel leaves)) as Hstep.
  { intros m Hm. eapply wp_mono; [done|]. intros o s''. by apply retry_post_trans. }
  apply Hstep. destruct t as [pos|c| |item].
  - destruct Ht as (p & ty' & l' & -> & Hs' & Hrk).
    assert (turns_left p ftotal flocal < turns_left inb ftotal flocal)
      by (unfold turns_left; lia).
    eapply IH; try done; lia.
  - destruct (map_ok_bucket _ _ _ _ Hi' Hs) as (b & Hget & _ & [(_ & Hsz & _) _]).
    pose proof (turns_left_nonneg inb ftotal flocal).
    rewrite (u32_small (ftotal + 1)) by (unfold is_u32; lia).
    rewrite (u32_small (flocal + 1)) by (unfold is_u32; lia).
    apply (wp_bind_eq _ _ _ b s'); [by unfold bucket_at; rewrite Hget|].
    assert (flocal + 1 <= L →
      wp (firstn_retry weight weight_max x rec (Z.of_nat bucket) type out tries local_retries
        fallback leaf vary_r out2 parent_r fuel rep (Z.of_nat (length sel)) count
        (Z.of_nat inb) (ftotal + 1) (flocal + 1)) s' (retry_post s' sel leaves)) as Hagain.
    { intros HL. pose proof (turns_left_local inb ftotal flocal). eapply IH; try done; lia. }
    destruct (c && (flocal + 1 <=? local_retries)) eqn:E1.
    { apply Hagain. apply andb_prop in E1 as [_ ?%Z.leb_le]. lia. }
    destruct ((0 <? fallback) && (flocal + 1 <=? u32 (b_size (bucket_h b) + fallback))) eqn:E2.
    { apply Hagain. apply andb_prop in E2 as [Hf%Z.ltb_lt Hle%Z.leb_le].
      pose proof (HLfallback Hf _ _ _ Hs). rewrite Hsz in Hle.
      rewrite u32_small in Hle by (unfold is_u32; lia). lia. }
    destruct (Z.ltb_spec (ftotal + 1) tries).
    { pose proof (turns_left_restart inb ftotal flocal). eapply IH; try done; lia. }
    apply wp_ret. split; [done|]. split; [apply keeps_refl|]. simpl. lia.
  - apply wp_ret. split; [done|]. split; [apply keeps_refl|done].
  - apply wp_ret. split; [done|]. split; [apply keeps_refl|done].
Qed.

(** ** The loop over replicas *)

Definition window (len count i : Z) : Prop :=
  out + len <= i < out + len + count ∨ leaf = true ∧ o2 + len <= i < o2 + len + count.

Definition reps_post (s : mstate) (sel leaves : list Z) (n : nat) (count got : Z) (s' : mstate) : Prop :=
  ∃ more lmore,
    got = Z.of_nat (length (sel ++ more)) ∧ (length more <= n)%nat ∧ Z.of_nat (length more) <= count ∧
    outputs s' (sel ++ more) (leaves ++ lmore) (count - Z.of_nat (length more)) ∧
    fresh_after (good type) sel more ∧ (leaf = true → fresh_after (good 0) leaves lmore) ∧
    keeps (window (Z.of_nat (length sel)) (Z.min (Z.of_nat n) count)) (ms_mem s) (ms_mem s').

Lemma reps_post_nil s sel leaves n count :
  outputs s sel leaves count → 0 <= count →
  reps_post s sel leaves n count (Z.of_nat (length sel)) s.
Proof.
  intros Hou Hc. exists [], []. rewrite !app_nil_r, Z.sub_0_r. split; [done|].
  split; [simpl; lia|]. split; [done|]. split; [done|]. split; [apply fresh_after_nil|].
  split; [intros _; apply fresh_after_nil|]. apply keeps_refl.
Qed.

Lemma outputs_snoc s sel leaves count item lf :
  outputs s sel leaves count → 0 < count →
  (leaf = true → ms_mem s !! Z.to_nat (o2 + Z.of_nat (length sel)) = Some (Some lf) ∧
                 (type = 0 → lf = item)) →
  outputs (MState (ms_map s) (<[Z.to_nat (out + Z.of_nat (length sel)) := Some item]> (ms_mem s)))
    (sel ++ [item]) (leaves ++ [lf]) (count - 1).
Proof.
  intros [Hi Hd Hl Hr Hr2 Ha] Hc Hlf.
  assert (keeps (λ i, i = out + Z.of_nat (length sel)) (ms_mem s)
    (<[Z.to_nat (out + Z.of_nat (length sel)) := Some item]> (ms_mem s))) as Hk.
  { apply keeps_insert; [lia|done]. }
  split; simpl; rewrite ?length_insert, ?length_app; simpl; try done; try lia.
  - apply region_snoc; [|apply list_lookup_insert_eq; lia].
    eapply region_keeps; [done..|]. simpl. lia.
  - intros El. destruct (Hl El) as (Hrg & Hll & Heq). destruct (Hlf El) as [Hm Ht].
    specialize (Ha El). specialize (Hr2 El).
    rewrite Hll. split; [|split; [done|intros E0; by rewrite (Heq E0), (Ht E0)]].
    apply region_snoc.
    + eapply region_keeps; [done..|]. simpl. lia.
    + rewrite list_lookup_insert_ne by lia. by rewrite Hll.
  - intros El. specialize (Hr2 El). lia.
  - intros El. specialize (Ha El). lia.
Qed.

Context (fuel : nat).
Context (Hfuel : retry_bound <= Z.of_nat fuel) (Hwrap : retry_bound < 4294967296)
  (HLwrap : L + 1 < 4294967296).

Lemma firstn_reps_ok n : ∀ rep count s sel leaves,
  outputs s sel leaves count → 0 <= count →
  wp (firstn_reps weight weight_max x fuel rec (Z.of_nat bucket) type out tries local_retries
        fallback leaf vary_r out2 parent_r n rep (Z.of_nat (length sel)) count) s
     (reps_post s sel leaves n count).
Proof.
  induction n as [|n IH]; intros rep count s sel leaves Hou Hc; cbn [firstn_reps].
  { by apply wp_ret, reps_post_nil. }
  destruct (Z.ltb_spec 0 count) as [Hc0|]; [|by apply wp_ret, reps_post_nil].
  pose proof turns_left_start as Hstart.
  eapply wp_bind_mono; [by eapply (firstn_retry_ok fuel _ _ _ bty bl); first [done|lia]|].
  intros [[item|] ft] s1 (Hi1 & Hk1 & Hft & Hch); simpl in Hft, Hch.
  - assert (outputs s1 sel leaves count) as Hou1 by (by eapply outputs_keeps).
    destruct Hch as (Hg & Hnin & Hleaf).
    assert (∃ lf, leaf = true →
      ms_mem s1 !! Z.to_nat (o2 + Z.of_nat (length sel)) = Some (Some lf) ∧
      (type = 0 → lf = item) ∧ good 0 lf ∧ (lf ∉ leaves)) as [lf Hlf].
    { destruct (bool_dec leaf true) as [El|El]; [|by exists 0].
      destruct (Hleaf El) as (lf & ? & ? & ? & ?). by exists lf. }
    apply wp_bind. pose proof (ou_room _ _ _ _ Hou1).
    apply wp_store; [lia|]. eapply wp_bind_mono; [exact (count_tries_ok ft (MState _ _) Hft Hi1)|].
    intros _ s2 [Hi2 Em2]. simpl in Em2.
    assert (outputs s2 (sel ++ [item]) (leaves ++ [lf]) (count - 1)) as Hou2.
    { destruct (outputs_snoc s1 sel leaves count item lf) as [? ? ? ? ? ?]; [done..| |].
      { intros El. by destruct (Hlf El) as (? & ? & ? & ?). }
      split; rewrite ?Em2; done. }
    replace (Z.of_nat (length sel) + 1) with (Z.of_nat (length (sel ++ [item])))
      by (rewrite length_app; simpl; lia).
    eapply wp_mono; [by eapply IH; [done|lia]|].
    intros got s3 (more & lmore & -> & Hn & Hle & Hou3 & Hf & Hlfr & Hk3).
    exists (item :: more), (lf :: lmore). rewrite <- !app_assoc in *. simpl in *.
    split; [done|]. split; [lia|]. split; [lia|].
    split; [by replace (count - _) with (count - 1 - Z.of_nat (length more)) by lia|].
    split; [by apply fresh_after_cons|]. split.
    { intros El. destruct (Hlf El) as (? & ? & ? & ?). apply fresh_after_cons; auto. }
    eapply keeps_trans; [eapply keeps_mono; [exact Hk1|]|].
    { intros i [El ->]. right. split; [done|lia]. }
    eapply keeps_trans; [|eapply keeps_mono; [exact Hk3|]].
    + rewrite Em2. apply keeps_insert; [lia|left; lia].
    + rewrite length_app. simpl. intros i [?|[? ?]]; [left; lia|right; split; [done|lia]].
  - eapply wp_mono; [by eapply IH; [eapply outputs_keeps|]|].
    intros got s3 (more & lmore & -> & Hn & Hle & Hou3 & Hf & Hlfr & Hk3).
    exists more, lmore. repeat (split; [first [done|lia]|]).
    eapply keeps_trans; [eapply keeps_mono; [exact Hk1|]|eapply keeps_mono; [exact Hk3|]].
    + intros i [El ->]. right. split; [done|lia].
    + intros i [?|[? ?]]; [left; lia|right; split; [done|lia]].
Qed.
End firstn_proof.

(** ** The two calls *)

Section firstn_calls.
Context (sh : list (option bshape)) (D : Z) (st : statics) (rank : nat → nat).
Context (Hsh : shape_wf sh D rank).
Context (weight : list (option Z)) (ws : list Z) (weight_max x : Z).
Context (Hweight : holds weight ws) (Hwmax : weight_max = Z.of_nat (length ws)).
Context (local_retries fallback L R : Z) (fuel : nat).
Context (HL0 : 0 <= L) (HLlocal : local_retries <= L)
  (HLfallback : 0 < fallback → ∀ p ty l, shape_at sh p = Some (ty, l) →
                  Z.of_nat (length l) + fallback <= L)
  (HR : ∀ p ty l, shape_at sh p = Some (ty, l) → Z.of_nat (rank p) <= R)
  (HLwrap : L + 1 < 4294967296).

(** Enough fuel for [tries] descents, and no wrap of [ftotal]. *)
Definition fuel_ok (tries : Z) : Prop :=
  retry_bound tries L R <= Z.of_nat fuel ∧ retry_bound tries L R < 4294967296.

Lemma firstn_leaf_rec_ok tries vary_r :
  fuel_ok tries →
  rec_ok sh D st weight weight_max x (λ bucket numrep out outpos out_size parent_r,
    crush_choose_firstn_leaf fuel weight weight_max x bucket numrep 0 out outpos out_size
      tries local_retries fallback vary_r parent_r).
Proof.
  intros [Hf Hf'] pos ty l outpos count o2 leaves sr s Hs Hi Hc Hop Hrg Ho2 Hroom.
  unfold crush_choose_firstn_leaf. replace (Z.to_nat (outpos + 1 - outpos)) with 1%nat by lia.
  subst outpos. eapply wp_mono.
  { eapply (firstn_reps_ok sh D st rank Hsh weight ws weight_max x Hweight Hwmax _ pos 0 o2 tries
      local_retries fallback false vary_r None 0 sr) with (leaves := []) (L := L) (R := R);
      try done; lia. }
  intros got s' (more & lmore & -> & Hn & _ & [Hi' Hd' _ _ _ _] & (Hg & _ & Hfr) & _ & Hk).
  split; [done|]. split.
  { eapply keeps_mono; [exact Hk|]. intros i [?|[? _]]; [simpl in *; lia|done]. }
  destruct more as [|item [|]]; simpl in Hn; [|clear Hn|lia].
  { left. rewrite app_nil_r. lia. }
  right. split; [rewrite length_app; simpl; lia|]. exists item.
  split; [|split; [by inversion Hg|apply Hfr; set_solver]].
  apply Hd'. by rewrite lookup_app_r, Nat.sub_diag by lia.
Qed.

(** What a call with [outpos = 0] delivers: [sel] in [out], and with
    [recurse_to_leaf] the devices [leaves] in [out2]. *)
Definition firstn_post (type numrep out out_size : Z) (leaf : bool) (o2 : Z) (s : mstate)
    (got : Z) (s' : mstate) : Prop :=
  ∃ sel leaves,
    got = Z.of_nat (length sel) ∧ got <= numrep ∧ got <= out_size ∧
    map_ok sh D st (ms_map s') ∧
    region (ms_mem s') out sel ∧ NoDup sel ∧ Forall (good sh D weight weight_max x type) sel ∧
    (leaf = true → region (ms_mem s') o2 leaves ∧ length leaves = length sel ∧ NoDup leaves ∧
                   Forall (good sh D weight weight_max x 0) leaves) ∧
    keeps (λ i, out <= i < out + out_size ∨ leaf = true ∧ o2 <= i < o2 + out_size)
      (ms_mem s) (ms_mem s').

Lemma crush_choose_firstn_correct pos ty l numrep type out out_size tries recurse_tries leaf
    vary_r o2 parent_r s :
  shape_at sh pos = Some (ty, l) → map_ok sh D st (ms_map s) →
  fuel_ok tries → fuel_ok recurse_tries → (leaf = true → 0 <= vary_r <= 32) →
  0 <= numrep → 0 <= out_size → 0 <= out → 0 <= o2 →
  out + out_size <= Z.of_nat (length (ms_mem s)) →
  (leaf = true → o2 + out_size <= Z.of_nat (length (ms_mem s)) ∧
                 (out + out_size <= o2 ∨ o2 + out_size <= out)) →
  wp (crush_choose_firstn fuel weight weight_max x (Z.of_nat pos) numrep type out 0 out_size
        tries recurse_tries local_retries fallback leaf vary_r (Some o2) parent_r) s
     (firstn_post type numrep out out_size leaf o2 s).
Proof.
  intros Hs Hm [Hf Hf'] Hrf Hvary Hnr Hos Hout Ho2 Hroom Hleaf.
  unfold crush_choose_firstn. eapply wp_mono.
  { eapply (firstn_reps_ok sh D st rank Hsh weight ws weight_max x Hweight Hwmax _ pos type out
      tries local_retries fallback leaf vary_r (Some o2) o2 parent_r)
      with (sel := []) (leaves := []) (L := L) (R := R); try done.
    - intros _. by apply firstn_leaf_rec_ok.
    - split; simpl; try done; try lia. all: intros El; specialize (Hleaf El); lia. }
  intros got s' (sel & leaves & -> & Hn & Hle & [Hi' Hd' Hl' _ _ _] & (Hg & Hnd & _) & Hlf & Hk).
  simpl in *. exists sel, leaves. split; [done|]. split; [lia|]. split; [lia|].
  split; [done|]. split; [done|]. split; [done|]. split; [done|]. split.
  - intros El. destruct (Hl' El) as (? & ? & _). destruct (Hlf El) as (? & ? & _). done.
  - eapply keeps_mono; [exact Hk|]. intros i [?|[? ?]]; [left; lia|right; split; [done|lia]].
Qed.
End firstn_calls.
