(* ===== verification/IndepSpec.v ===== *)
(** * crush_choose_indep: total correctness (src/crush/mapper.c)

    On a well-formed map the procedure returns, fills every position of its
    output with [CRUSH_ITEM_NONE] or with an item of the wanted type that is not
    marked out and that no other position holds. *)

From S2P Require Import Prelude Hash CrushTypes Ln Nodes Choose ChoosePerm ChooseSpec.
From S2P Require Import Mapper MapWf FirstnSpec.

Lemma wp_for_m (I : Z → mstate → Prop) body n : ∀ i s,
  I i s →
  (∀ j s, i <= j < i + Z.of_nat n → I j s → wp (body j) s (λ _ s', I (j + 1) s')) →
  wp (for_m n i body) s (λ _ s', I (i + Z.of_nat n) s').
Proof.
  induction n as [|n IH]; intros i s HI Hb; cbn [for_m].
  { apply wp_ret. by replace (i + Z.of_nat 0) with i by lia. }
  eapply wp_bind_mono; [apply Hb; [lia|done]|]. intros [] s' HI'.
  replace (i + Z.of_nat (S n)) with (i + 1 + Z.of_nat n) by lia.
  apply IH; [done|]. intros j s'' Hj. apply Hb. lia.
Qed.

Lemma collides_shift out item n : ∀ k i s, collides out item n (k + i) s = collides (out + k) item n i s.
Proof.
  induction n as [|n IH]; intros k i s; [done|]. cbn [collides]. unfold mbind, M_bind, load.
  replace (out + (k + i)) with (out + k + i) by lia. destruct (rd (ms_mem s) _); [|done]. simpl.
  case_match; [done|]. by rewrite <- Z.add_assoc, IH.
Qed.

(** A position without an item. *)
Definition vacant (v : Z) : Prop := v = CRUSH_ITEM_UNDEF ∨ v = CRUSH_ITEM_NONE.

Definition distinct (slots : list Z) : Prop :=
  ∀ i j v, slots !! i = Some v → slots !! j = Some v → ¬ vacant v → i = j.

Lemma distinct_insert slots k v :
  distinct slots → (∀ i, slots !! i = Some v → vacant v) → distinct (<[k := v]> slots).
Proof.
  intros Hd Hv i j w Hi Hj Hw.
  destruct (decide (i = k)) as [->|Hi'], (decide (j = k)) as [->|Hj']; [done|..].
  - apply list_lookup_insert_Some in Hi as [(_ & -> & _)|[? _]]; [|done].
    rewrite list_lookup_insert_ne in Hj by done. by apply Hv in Hj.
  - apply list_lookup_insert_Some in Hj as [(_ & -> & _)|[? _]]; [|done].
    rewrite list_lookup_insert_ne in Hi by done. by apply Hv in Hi.
  - rewrite list_lookup_insert_ne in Hi, Hj by done. by eapply Hd.
Qed.

Section indep_proof.
Context (sh : list (option bshape)) (D : Z) (st : statics) (rank : nat → nat).
Context (Hsh : shape_wf sh D rank).
Context (weight : list (option Z)) (ws : list Z) (weight_max x : Z).
Context (Hweight : holds weight ws) (Hwmax : weight_max = Z.of_nat (length ws)).

#[local] Abbreviation Inv s := (map_ok sh D st (ms_map s)).
#[local] Abbreviation Good := (good sh D weight weight_max x).

Lemma good_not_vacant type item : Good type item → ¬ vacant item.
Proof.
  intros ([?|[? _]] & _) [->| ->]; pose proof (sw_devices _ _ _ Hsh);
    unfold CRUSH_ITEM_UNDEF, CRUSH_ITEM_NONE in *; lia.
Qed.

(** What the recursive call for a leaf guarantees. *)
Definition irec_ok (rec : Z → Z → Z → Z → M mstate unit) : Prop :=
  ∀ pos ty l o2 rep r s,
    shape_at sh pos = Some (ty, l) → Inv s → 0 <= o2 → 0 <= rep →
    o2 + rep < Z.of_nat (length (ms_mem s)) →
    wp (rec (Z.of_nat pos) o2 rep r) s (λ _ s',
      Inv s' ∧ keeps (λ i, i = o2 + rep) (ms_mem s) (ms_mem s') ∧
      ∃ v, ms_mem s' !! Z.to_nat (o2 + rep) = Some (Some v) ∧
           (v = CRUSH_ITEM_NONE ∨ Good 0 v)).

Context (rec : Z → Z → Z → Z → M mstate unit).
Context (bucket : nat) (numrep type out outpos : Z) (n : nat) (leaf : bool)
  (out2 : option Z) (parent_r : Z).
Context (Hrec : leaf = true → irec_ok rec) (Hnumrep : 0 < numrep < 4294967296)
  (Hout : 0 <= out) (Hop : 0 <= outpos) (Hleaf2 : leaf = true → is_Some out2)
  (Hapart : ∀ o2, out2 = Some o2 → 0 <= o2 ∧
     (out + outpos + Z.of_nat n <= o2 + outpos ∨ o2 + outpos + Z.of_nat n <= out + outpos)).

(** An item with its leaf, or neither. *)
Definition pair_ok (v w : Z) : Prop := vacant v ∧ vacant w ∨ Good type v ∧ Good 0 w.

Record slots_ok (s : mstate) (slots leaves : list Z) : Prop := {
  so_inv : Inv s;
  so_out : region (ms_mem s) (out + outpos) slots;
  so_len : length slots = n;
  so_val : Forall (λ v, vacant v ∨ Good type v) slots;
  so_distinct : distinct slots;
  so_out2 : ∀ o2, out2 = Some o2 → region (ms_mem s) (o2 + outpos) leaves;
  so_len2 : length leaves = n;
  so_val2 : Forall (λ w, vacant w ∨ item_ok sh D w) leaves }.

(** With [recurse_to_leaf] and a bucket type, items and leaves go together. *)
Definition pairs (slots leaves : list Z) : Prop :=
  leaf = true → type ≠ 0 → Forall2 pair_ok slots leaves.

Definition iwindow (i : Z) : Prop :=
  out + outpos <= i < out + outpos + Z.of_nat n ∨
  ∃ o2, out2 = Some o2 ∧ o2 + outpos <= i < o2 + outpos + Z.of_nat n.

(** Some slots and leaves after code that started in [s]. *)
Definition slots_post (s s' : mstate) : Prop :=
  ∃ slots leaves, slots_ok s' slots leaves ∧ pairs slots leaves ∧
                  keeps iwindow (ms_mem s) (ms_mem s').

Lemma pairs_insert slots leaves k v w :
  pairs slots leaves → (leaf = true → type ≠ 0 → pair_ok v w) →
  pairs (<[k := v]> slots) (<[k := w]> leaves).
Proof. intros Hp Hvw El Ht. apply Forall2_insert; auto. Qed.

Lemma slots_set_out s s' slots leaves k v :
  slots_ok s slots leaves → (k < n)%nat → Inv s' →
  keeps (λ i, i = out + outpos + Z.of_nat k) (ms_mem s) (ms_mem s') →
  ms_mem s' !! Z.to_nat (out + outpos + Z.of_nat k) = Some (Some v) →
  vacant v ∨ Good type v → (∀ i, slots !! i = Some v → vacant v) →
  slots_ok s' (<[k := v]> slots) leaves.
Proof.
  intros [Hi Ho Hl Hv Hd Ho2 Hl2 Hv2] Hk Hi' Hkeep Hcell Hval Hfresh. split; try done.
  - eapply region_update; try done; lia.
  - by rewrite length_insert.
  - by apply Forall_insert.
  - by apply distinct_insert.
  - intros o2 E. destruct (Hapart o2 E) as [? Ha].
    eapply region_keeps; [by apply Ho2|done|lia|]. simpl. lia.
Qed.

Lemma slots_set_leaf s s' slots leaves k w o2 :
  slots_ok s slots leaves → (k < n)%nat → Inv s' → out2 = Some o2 →
  keeps (λ i, i = o2 + outpos + Z.of_nat k) (ms_mem s) (ms_mem s') →
  ms_mem s' !! Z.to_nat (o2 + outpos + Z.of_nat k) = Some (Some w) →
  vacant w ∨ item_ok sh D w → slots_ok s' slots (<[k := w]> leaves).
Proof.
  intros [Hi Ho Hl Hv Hd Ho2 Hl2 Hv2] Hk Hi' E Hkeep Hcell Hw.
  destruct (Hapart o2 E) as [? Ha]. split; try done.
  - eapply region_keeps; [done|done|lia|]. simpl. lia.
  - intros o2' E'. rewrite E in E'. injection E' as <-.
    eapply region_update; try done; [by apply Ho2|lia|lia].
  - by rewrite length_insert.
  - by apply Forall_insert.
Qed.

Lemma slots_mem s s' slots leaves :
  slots_ok s slots leaves → Inv s' → ms_mem s' = ms_mem s → slots_ok s' slots leaves.
Proof. intros [] Hi E. split; rewrite ?E; done. Qed.

Lemma slots_post_same s s' slots leaves :
  slots_ok s slots leaves → pairs slots leaves → Inv s' → ms_mem s' = ms_mem s → slots_post s s'.
Proof.
  intros H Hp Hi E. exists slots, leaves. split; [by eapply slots_mem|]. split; [done|].
  rewrite E. apply keeps_refl.
Qed.

Lemma slots_post_trans s s' s'' :
  keeps iwindow (ms_mem s) (ms_mem s') → slots_post s' s'' → slots_post s s''.
Proof.
  intros Hk (sl & lv & H & Hp & Hk'). exists sl, lv. split; [done|].
  split; [done|by eapply keeps_trans].
Qed.

Lemma iwindow_out k : (k < n)%nat → ∀ i, i = out + outpos + Z.of_nat k → iwindow i.
Proof. intros Hk i ->. left. lia. Qed.

Lemma iwindow_out2 k o2 :
  (k < n)%nat → out2 = Some o2 → ∀ i, i = o2 + outpos + Z.of_nat k → iwindow i.
Proof. intros Hk E i ->. right. exists o2. split; [done|lia]. Qed.

Lemma slots_room s slots leaves k :
  slots_ok s slots leaves → (k < n)%nat →
  out + outpos + Z.of_nat k < Z.of_nat (length (ms_mem s)) ∧
  ∀ o2, out2 = Some o2 → 0 <= o2 ∧ o2 + outpos + Z.of_nat k < Z.of_nat (length (ms_mem s)).
Proof.
  intros [_ Ho Hl _ _ Ho2 Hl2 _] Hk. split.
  - pose proof (region_bound _ _ _ Ho) as Hb. rewrite Hl in Hb.
    specialize (Hb ltac:(lia) ltac:(intros ->; simpl in *; lia)). lia.
  - intros o2 E. destruct (Hapart o2 E) as [? _]. split; [done|].
    pose proof (region_bound _ _ _ (Ho2 o2 E)) as Hb. rewrite Hl2 in Hb.
    specialize (Hb ltac:(lia) ltac:(intros ->; simpl in *; lia)). lia.
Qed.

(** A store to position [k] of [out], and one to [out2]. *)
Lemma store_out_ok s slots leaves k v (Q : unit → mstate → Prop) :
  slots_ok s slots leaves → (k < n)%nat → vacant v ∨ Good type v →
  (∀ i, slots !! i = Some v → vacant v) →
  (∀ s', slots_ok s' (<[k := v]> slots) leaves → keeps iwindow (ms_mem s) (ms_mem s') → Q tt s') →
  wp (store (out + (outpos + Z.of_nat k)) v) s Q.
Proof.
  intros Hs Hk Hv Hf HQ. rewrite Z.add_assoc. destruct (slots_room _ _ _ _ Hs Hk) as [Hb _].
  apply wp_store; [lia|]. apply HQ; simpl.
  - eapply slots_set_out; try done; simpl; [apply Hs|apply keeps_insert; [lia|done]|].
    apply list_lookup_insert_eq. lia.
  - apply keeps_insert; [lia|]. by eapply iwindow_out.
Qed.

Lemma store_leaf_ok s slots leaves k w o2 (Q : unit → mstate → Prop) :
  slots_ok s slots leaves → (k < n)%nat → out2 = Some o2 → vacant w ∨ item_ok sh D w →
  (∀ s', slots_ok s' slots (<[k := w]> leaves) → keeps iwindow (ms_mem s) (ms_mem s') → Q tt s') →
  wp (store (o2 + (outpos + Z.of_nat k)) w) s Q.
Proof.
  intros Hs Hk E Hw HQ. rewrite Z.add_assoc. destruct (slots_room _ _ _ _ Hs Hk) as [_ Hb].
  destruct (Hb o2 E). apply wp_store; [lia|]. apply HQ; simpl.
  - eapply slots_set_leaf; try done; simpl; [apply Hs|apply keeps_insert; [lia|done]|].
    apply list_lookup_insert_eq. lia.
  - apply keeps_insert; [lia|]. by eapply iwindow_out2.
Qed.

(** A store through [out2], which may be null. *)
Lemma store2_ok s slots leaves k w (Q : unit → mstate → Prop) :
  slots_ok s slots leaves → (k < n)%nat → vacant w ∨ item_ok sh D w →
  (∀ s', slots_ok s' slots (<[k := w]> leaves) → keeps iwindow (ms_mem s) (ms_mem s') → Q tt s') →
  wp (store2 out2 (outpos + Z.of_nat k) w) s Q.
Proof.
  intros Hs Hk Hw HQ. assert (out2 = None ∨ ∃ o2, out2 = Some o2) as [E2|[o2 E2]].
  { destruct out2; eauto. }
  2:{ rewrite E2. by eapply store_leaf_ok. }
  rewrite E2. apply wp_ret, HQ; [|apply keeps_refl]. destruct Hs. split; try done.
  - intros o2 E. congruence.
  - by rewrite length_insert.
  - by apply Forall_insert.
Qed.

(** ** One turn *)

Definition iturn_ok (s : mstate) (inb : nat) (t : indep_turn) (s' : mstate) : Prop :=
  match t with
  | IDescend pos => Inv s' ∧ ms_mem s' = ms_mem s ∧
      ∃ p ty l, pos = Z.of_nat p ∧ shape_at sh p = Some (ty, l) ∧ (rank p < rank inb)%nat
  | IFilled | IOpen => slots_post s s'
  end.

Lemma vacant_pair v w : (v = CRUSH_ITEM_UNDEF ∨ v = CRUSH_ITEM_NONE) →
  (w = CRUSH_ITEM_UNDEF ∨ w = CRUSH_ITEM_NONE) → pair_ok v w.
Proof. by left. Qed.

Lemma indep_none_ok s slots leaves k :
  slots_ok s slots leaves → pairs slots leaves → (k < n)%nat →
  wp (indep_none out out2 (outpos + Z.of_nat k)) s (λ t s', t = IFilled ∧ slots_post s s').
Proof.
  intros Hs Hp Hkn. unfold indep_none. apply wp_bind.
  eapply (store_out_ok s slots leaves k); [done|done|by left; right|by right|..].
  intros s1 Hs1 Hk1. apply wp_bind. eapply store2_ok; [done|done|by left; right|].
  intros s2 Hs2 Hk2. apply wp_ret. split; [done|]. eexists _, _. split; [done|].
  split; [|by eapply keeps_trans]. apply pairs_insert; [done|].
  intros _ _. apply vacant_pair; by right.
Qed.

(** The chooseleaf part changes the leaf of position [k] only. *)
Lemma indep_leaf_ok item r s slots leaves k :
  leaf = true → slots_ok s slots leaves → (k < n)%nat → item_ok sh D item → itype sh item = type →
  wp (indep_leaf rec out2 item r (outpos + Z.of_nat k)) s (λ noleaf s',
    ∃ w, slots_ok s' slots (<[k := w]> leaves) ∧ keeps iwindow (ms_mem s) (ms_mem s') ∧
         (noleaf = true → w = CRUSH_ITEM_NONE) ∧ (noleaf = false → type ≠ 0 → Good 0 w)).
Proof.
  intros El Hs Hk Hok Hty. destruct (Hleaf2 El) as [o2 E2]. unfold indep_leaf.
  destruct (slots_room _ _ _ _ Hs Hk) as [_ Hb]. destruct (Hb o2 E2) as [Ho2 Hroom].
  apply (wp_bind_eq _ _ _ o2 s); [by rewrite E2|].
  destruct (Z.ltb_spec item 0) as [Hneg|Hpos].
  - destruct Hok as [?|[_ [[ty l] Hsp]]]; [lia|]. rewrite <- (bucket_pos_Z item Hneg).
    eapply wp_bind_mono.
    { apply (Hrec El (bucket_pos item) ty l); [done|apply Hs|done|lia|lia]. }
    intros [] s' (Hi' & Hkp & w & Hw & Hval). rewrite Z.add_assoc in *.
    apply (wp_bind_eq _ _ _ w s').
    { unfold load, rd, rdc. by rewrite (proj2 (Z.ltb_ge _ 0)), Hw by lia. }
    apply wp_ret. exists w. split.
    { eapply slots_set_leaf; try done. destruct Hval as [->|[? _]]; [by left; right|by right]. }
    split; [eapply keeps_mono; [done|]; by eapply iwindow_out2|].
    split; [intros ?%Z.eqb_eq; done|]. intros Hne%Z.eqb_neq _. by destruct Hval.
  - apply wp_bind. eapply store_leaf_ok; [done|done|done|by right|]. intros s' Hs' Hkp. apply wp_ret.
    exists item. split; [done|]. split; [done|]. split; [done|]. intros _ Ht.
    destruct Ht. rewrite <- Hty. unfold itype. by rewrite (proj2 (Z.ltb_ge _ _)).
Qed.

(** The tail of the body, once an item of the wanted type is in hand. *)
Lemma indep_accept_ok item r s slots leaves k :
  slots_ok s slots leaves → pairs slots leaves → slots !! k = Some CRUSH_ITEM_UNDEF →
  item_ok sh D item → itype sh item = type →
  wp (collide ← collides out item (Z.to_nat (outpos + Z.of_nat n - outpos)) outpos;
      if (collide : bool) then mret IOpen else
      noleaf ← (if leaf then indep_leaf rec out2 item r (outpos + Z.of_nat k) else mret false);
      if (noleaf : bool) then mret IOpen else
      bad ← (if itype sh item =? 0 then lift (is_out weight weight_max item x) else mret false);
      if (bad : bool) then mret IOpen else
      _ ← store (out + (outpos + Z.of_nat k)) item;
      mret IFilled) s
    (λ t s', match t with IDescend _ => False | _ => slots_post s s' end).
Proof.
  intros Hs Hp Hk Hok Hty.
  assert (k < n)%nat as Hkn by (rewrite <- (so_len _ _ _ Hs); by eapply lookup_lt_Some).
  destruct (collides_ok (out + outpos) item slots (Z.to_nat (outpos + Z.of_nat n - outpos)) 0 s)
    as (c & Hcol & Hfresh); [apply Hs|lia|lia|rewrite (so_len _ _ _ Hs); lia|].
  rewrite <- collides_shift, Z.add_0_r in Hcol. apply (wp_bind_eq _ _ _ c s); [done|].
  destruct c.
  { apply wp_ret. eapply slots_post_same; try done. apply Hs. }
  eapply (wp_bind_mono _ _ _ (λ noleaf s', ∃ w, slots_ok s' slots (<[k := w]> leaves) ∧
    keeps iwindow (ms_mem s) (ms_mem s') ∧
    (leaf = true → noleaf = true → w = CRUSH_ITEM_NONE) ∧
    (leaf = true → noleaf = false → type ≠ 0 → Good 0 w) ∧ (leaf = false → noleaf = false))).
  { destruct (bool_dec leaf true) as [El|El%not_true_is_false].
    - rewrite El. eapply wp_mono; [by eapply indep_leaf_ok|]. intros b s' (w & ? & ? & ? & ?).
      exists w. repeat (split; [by auto|]). done.
    - rewrite El. apply wp_ret. destruct (lookup_lt_is_Some_2 leaves k) as [w Hw].
      { rewrite (so_len2 _ _ _ Hs). lia. }
      exists w. rewrite list_insert_id by done. split; [done|]. by split; [apply keeps_refl|]. }
  intros noleaf s1 (w & Hs1 & Hk1 & Hno & Hyes & Hnl).
  assert (pairs slots (<[k := w]> leaves) → slots_post s s1) as Hopen.
  { intros Hp1. eexists _, _. done. }
  destruct noleaf.
  { apply wp_ret. apply Hopen. intros El Ht.
    replace slots with (<[k := CRUSH_ITEM_UNDEF]> slots) by (by apply list_insert_id).
    apply (pairs_insert slots leaves); [done| |done|done]. intros _ _. rewrite Hno by done.
    apply vacant_pair; [by left|by right]. }
  assert (∃ bad, (if itype sh item =? 0 then lift (is_out weight weight_max item x)
                  else mret false) s1 = Ok (bad, s1) ∧
            (bad = true → type = 0) ∧ (bad = false → Good type item)) as (bad & Hbad & Hb0 & Hg).
  { rewrite Hty. destruct (Z.eqb_spec type 0) as [E0|Hne].
    - destruct (is_out_total weight ws weight_max x Hweight Hwmax item) as [o Ho].
      { pose proof (itype_0_device _ _ _ item Hsh Hok). lia. }
      exists o. unfold lift. rewrite Ho. split; [done|]. split; [done|]. intros ->.
      split; [done|]. by split.
    - exists false. split; [done|]. split; [done|]. intros _. split; [done|]. split; [done|].
      intros E. by rewrite E in Hne. }
  apply (wp_bind_eq _ _ _ bad s1); [done|]. destruct bad.
  { apply wp_ret. apply Hopen. intros _ Ht. by rewrite (Hb0 eq_refl) in Ht. }
  specialize (Hg eq_refl). apply wp_bind.
  eapply (store_out_ok s1 slots (<[k := w]> leaves) k); [done|done|by right|..].
  { intros i Hi. destruct (Hfresh eq_refl (Z.of_nat i)); [|by rewrite Nat2Z.id].
    apply lookup_lt_Some in Hi. rewrite (so_len _ _ _ Hs) in Hi. lia. }
  intros s2 Hs2 Hk2. apply wp_ret. eexists _, _. split; [done|].
  split; [|by eapply keeps_trans]. apply pairs_insert; [done|]. intros El Ht. right. auto.
Qed.

Lemma indep_r_ok b rep ftotal : ∃ r, indep_r numrep parent_r b rep ftotal = Ok r.
Proof.
  unfold indep_r. rewrite (u32_small numrep) by (unfold is_u32; lia).
  rewrite (proj2 (Z.eqb_neq numrep 0)) by lia. destruct (bucket_alg b =? _); by eexists.
Qed.

Lemma indep_body_ok ftotal inb ty l s slots leaves k :
  slots_ok s slots leaves → pairs slots leaves → slots !! k = Some CRUSH_ITEM_UNDEF →
  shape_at sh inb = Some (ty, l) →
  wp (indep_body weight weight_max x rec numrep type out outpos (outpos + Z.of_nat n) leaf out2
        parent_r (outpos + Z.of_nat k) ftotal (Z.of_nat inb)) s (iturn_ok s inb).
Proof.
  intros Hs Hp Hk Hsp. pose proof (so_inv _ _ _ Hs) as Hi.
  assert (k < n)%nat as Hkn by (rewrite <- (so_len _ _ _ Hs); by eapply lookup_lt_Some).
  destruct (map_ok_bucket _ _ _ _ Hi Hsp) as (b & Hget & Hbt & Hb).
  unfold indep_body. apply (wp_bind_eq _ _ _ b s); [by unfold bucket_at; rewrite Hget|].
  destruct (indep_r_ok b (outpos + Z.of_nat k) ftotal) as [r Hr].
  apply (wp_bind_eq _ _ _ r s); [by rewrite Hr|].
  destruct (Z.eqb_spec (b_size (bucket_h b)) 0) as [|Hsz].
  { apply wp_ret. by eapply slots_post_same. }
  assert (l ≠ []) as Hne by (intros ->; by destruct Hb as [(_ & E & _) _]).
  eapply wp_bind_mono; [exact (call_bucket_choose_ok inb ty l x r s Hi Hsp Hne)|].
  intros item s' (Hin & Hi' & Emem). apply (wp_bind_eq _ _ _ (ms_map s') s'); [done|].
  assert (slots_ok s' slots leaves) as Hs' by (by eapply slots_mem).
  assert (wp (indep_none out out2 (outpos + Z.of_nat k)) s' (iturn_ok s inb)) as Hnone.
  { eapply wp_mono; [by eapply indep_none_ok|]. intros t s'' [-> H]. simpl.
    eapply slots_post_trans; [|done]. rewrite Emem. apply keeps_refl. }
  destruct (Z.geb_spec item (m_max_devices (ms_map s'))) as [|Hdev]; [done|].
  pose proof (sw_items _ _ _ Hsh _ _ _ _ Hsp Hin) as Hok.
  apply (wp_bind_eq _ _ _ (itype sh item) s'); [exact (item_type_ok item s' Hi' Hok)|].
  destruct (Z.eqb_spec (itype sh item) type) as [Hty|Hty]; cbn [negb].
  - eapply wp_mono; [by eapply indep_accept_ok|]. intros t s'' Ht.
    destruct t; [done|..]; (eapply slots_post_trans; [|done]; rewrite Emem; apply keeps_refl).
  - destruct (Z.leb_spec 0 item) as [|Hneg]; [done|]. cbn [orb]. case_match; [done|].
    apply wp_ret. split; [done|]. split; [done|].
    destruct Hok as [?|[_ [[ty' l'] Hs2]]]; [lia|].
    exists (bucket_pos item), ty', l'. rewrite bucket_pos_Z by done. split; [done|].
    split; [done|]. by eapply sw_rank.
Qed.

(** ** The loops *)

Context (R : Z) (bty : Z) (bl : list Z) (fuel : nat).
Context (Hbucket : shape_at sh bucket = Some (bty, bl))
  (HR : ∀ p ty l, shape_at sh p = Some (ty, l) → Z.of_nat (rank p) <= R)
  (Hfuel : R < Z.of_nat fuel).

Lemma indep_descend_ok f : ∀ ftotal inb ty l left s slots leaves k,
  slots_ok s slots leaves → pairs slots leaves → slots !! k = Some CRUSH_ITEM_UNDEF →
  shape_at sh inb = Some (ty, l) → (rank inb < f)%nat →
  wp (indep_descend weight weight_max x rec numrep type out outpos (outpos + Z.of_nat n) leaf out2
        parent_r f (outpos + Z.of_nat k) ftotal (Z.of_nat inb) left) s (λ _ s', slots_post s s').
Proof.
  induction f as [|f IH]; intros ftotal inb ty l left s slots leaves k Hs Hp Hk Hsp Hf; [lia|].
  cbn [indep_descend]. eapply wp_bind_mono; [by eapply indep_body_ok|].
  intros t s' Ht. destruct t as [pos| |]; [|by apply wp_ret..].
  destruct Ht as (Hi' & Em & p & ty' & l' & -> & Hsp' & Hrk).
  eapply wp_mono; [eapply (IH ftotal p ty' l' left s' slots leaves); try done; [|lia]|].
  { by eapply slots_mem. }
  intros ? s''. apply slots_post_trans. rewrite Em. apply keeps_refl.
Qed.

Lemma indep_reps_ok m : ∀ ftotal left k s slots leaves,
  slots_ok s slots leaves → pairs slots leaves → (k + m = n)%nat →
  wp (indep_reps weight weight_max x rec (Z.of_nat bucket) numrep type out outpos
        (outpos + Z.of_nat n) leaf out2 parent_r fuel m (outpos + Z.of_nat k) ftotal left) s
     (λ _ s', slots_post s s').
Proof.
  induction m as [|m IH]; intros ftotal left k s slots leaves Hs Hp Hkm; cbn [indep_reps].
  { apply wp_ret. eapply slots_post_same; try done. apply Hs. }
  destruct (lookup_lt_is_Some_2 slots k) as [v Hv]; [rewrite (so_len _ _ _ Hs); lia|].
  apply (wp_bind_eq _ _ _ v s).
  { unfold load. rewrite Z.add_assoc.
    by rewrite (region_rd _ _ slots _ v (so_out _ _ _ Hs)) by (lia || by rewrite Nat2Z.id). }
  replace (outpos + Z.of_nat k + 1) with (outpos + Z.of_nat (S k)) by lia.
  destruct (Z.eqb_spec v CRUSH_ITEM_UNDEF) as [->|]; cbn [negb].
  - pose proof (HR _ _ _ Hbucket).
    eapply wp_bind_mono; [eapply (indep_descend_ok fuel); try done; lia|].
    intros left' s' (slots' & leaves' & Hs' & Hp' & Hk').
    eapply wp_mono; [eapply (IH ftotal left' (S k) s'); [done|done|lia]|].
    intros ? s''. by apply slots_post_trans.
  - eapply IH; [done|done|lia].
Qed.

Lemma indep_tries_ok m : ∀ ftotal left s slots leaves,
  slots_ok s slots leaves → pairs slots leaves → 0 <= ftotal →
  wp (indep_tries weight weight_max x rec (Z.of_nat bucket) numrep type out outpos
        (outpos + Z.of_nat n) leaf out2 parent_r fuel m ftotal left) s
     (λ ft s', 0 <= ft ∧ slots_post s s').
Proof.
  induction m as [|m IH]; intros ftotal left s slots leaves Hs Hp Hft; cbn [indep_tries].
  { apply wp_ret. split; [done|]. eapply slots_post_same; try done. apply Hs. }
  case_match.
  2:{ apply wp_ret. split; [done|]. eapply slots_post_same; try done. apply Hs. }
  eapply wp_bind_mono.
  { replace (Z.to_nat (outpos + Z.of_nat n - outpos)) with n by lia.
    pose proof (indep_reps_ok n ftotal left 0 s slots leaves Hs Hp eq_refl) as Hr.
    rewrite Z.add_0_r in Hr. exact Hr. }
  intros left' s' (slots' & leaves' & Hs' & Hp' & Hk').
  eapply wp_mono; [eapply (IH (ftotal + 1) left' s'); [done|done|lia]|].
  intros ft s'' [? ?]. split; [done|]. by eapply slots_post_trans.
Qed.

(** Position [k] is settled: neither vector holds [CRUSH_ITEM_UNDEF] there. *)
Definition settled (slots leaves : list Z) (k : nat) : Prop :=
  slots !! k ≠ Some CRUSH_ITEM_UNDEF ∧ (is_Some out2 → leaves !! k ≠ Some CRUSH_ITEM_UNDEF).

Definition finished (s : mstate) (hi : Z) (s' : mstate) : Prop :=
  ∃ slots leaves, slots_ok s' slots leaves ∧ pairs slots leaves ∧
    keeps iwindow (ms_mem s) (ms_mem s') ∧
    ∀ k, outpos + Z.of_nat k < hi → settled slots leaves k.

Lemma load_out s slots leaves k v :
  slots_ok s slots leaves → slots !! k = Some v →
  load (out + (outpos + Z.of_nat k)) s = Ok (v, s).
Proof.
  intros Hs Hv. unfold load. rewrite Z.add_assoc.
  by rewrite (region_rd _ _ slots _ v (so_out _ _ _ Hs)) by (lia || by rewrite Nat2Z.id).
Qed.

Lemma load_leaf s slots leaves k w o2 :
  slots_ok s slots leaves → out2 = Some o2 → leaves !! k = Some w →
  load (o2 + (outpos + Z.of_nat k)) s = Ok (w, s).
Proof.
  intros Hs E Hw. unfold load. rewrite Z.add_assoc. destruct (Hapart o2 E) as [? _].
  by rewrite (region_rd _ _ leaves _ w (so_out2 _ _ _ Hs o2 E)) by (lia || by rewrite Nat2Z.id).
Qed.

(** A vacant position of [out] becomes [CRUSH_ITEM_NONE]. *)
Lemma finish_out_ok s slots leaves k v :
  slots_ok s slots leaves → pairs slots leaves → slots !! k = Some v →
  wp (if v =? CRUSH_ITEM_UNDEF then store (out + (outpos + Z.of_nat k)) CRUSH_ITEM_NONE
      else mret tt) s
     (λ _ s', ∃ v', v' ≠ CRUSH_ITEM_UNDEF ∧ slots_ok s' (<[k := v']> slots) leaves ∧
        pairs (<[k := v']> slots) leaves ∧ keeps iwindow (ms_mem s) (ms_mem s')).
Proof.
  intros Hs Hp Hv.
  assert (k < n)%nat as Hkn by (rewrite <- (so_len _ _ _ Hs); by eapply lookup_lt_Some).
  destruct (Z.eqb_spec v CRUSH_ITEM_UNDEF) as [->|Hne].
  - eapply store_out_ok; [done|done|by left; right|by right|]. intros s' Hs' Hk'.
    exists CRUSH_ITEM_NONE. split; [done|]. split; [done|]. split; [|done].
    intros El Ht. destruct (lookup_lt_is_Some_2 leaves k) as [w Hw]; [by rewrite (so_len2 _ _ _ Hs)|].
    replace leaves with (<[k := w]> leaves) by (by apply list_insert_id).
    apply (pairs_insert slots leaves); [done| |done|done]. intros _ _. left. split; [by right|].
    destruct (Forall2_lookup_lr _ _ _ _ _ _ (Hp El Ht) Hv Hw) as [[_ ?]|[Hg _]]; [done|].
    apply good_not_vacant in Hg. destruct Hg. by left.
  - apply wp_ret. exists v. rewrite list_insert_id by done. split; [done|]. split; [done|].
    split; [done|apply keeps_refl].
Qed.

Lemma finish_leaf_ok s slots leaves k :
  slots_ok s slots leaves → pairs slots leaves → (k < n)%nat →
  wp (match out2 with
      | Some o2 =>
          v ← load (o2 + (outpos + Z.of_nat k));
          if v =? CRUSH_ITEM_UNDEF then store (o2 + (outpos + Z.of_nat k)) CRUSH_ITEM_NONE
          else mret tt
      | None => mret tt
      end) s
     (λ _ s', ∃ w, (is_Some out2 → w ≠ CRUSH_ITEM_UNDEF) ∧ slots_ok s' slots (<[k := w]> leaves) ∧
        pairs slots (<[k := w]> leaves) ∧ keeps iwindow (ms_mem s) (ms_mem s')).
Proof.
  intros Hs Hp Hkn. destruct (lookup_lt_is_Some_2 leaves k) as [w Hw]; [by rewrite (so_len2 _ _ _ Hs)|].
  assert (out2 = None ∨ ∃ o2, out2 = Some o2) as [E2|[o2 E2]] by (destruct out2; eauto).
  { rewrite E2. apply wp_ret. exists w. rewrite list_insert_id by done. split; [by intros []|].
    split; [done|]. split; [done|apply keeps_refl]. }
  rewrite E2. apply (wp_bind_eq _ _ _ w s); [by eapply load_leaf|].
  destruct (Z.eqb_spec w CRUSH_ITEM_UNDEF) as [->|Hne].
  - eapply store_leaf_ok; [done|done|done|by left; right|]. intros s' Hs' Hk'.
    exists CRUSH_ITEM_NONE. split; [done|]. split; [done|]. split; [|done].
    intros El Ht. destruct (lookup_lt_is_Some_2 slots k) as [v Hv]; [by rewrite (so_len _ _ _ Hs)|].
    replace slots with (<[k := v]> slots) by (by apply list_insert_id).
    apply (pairs_insert slots leaves); [done| |done|done]. intros _ _. left. split; [|by right].
    destruct (Forall2_lookup_lr _ _ _ _ _ _ (Hp El Ht) Hv Hw) as [[? _]|[_ Hg]]; [done|].
    apply good_not_vacant in Hg. destruct Hg. by left.
  - apply wp_ret. exists w. rewrite list_insert_id by done. split; [done|]. split; [done|].
    split; [done|apply keeps_refl].
Qed.

Lemma indep_finish_ok s k s1 :
  (k < n)%nat → finished s (outpos + Z.of_nat k) s1 →
  wp (indep_finish out out2 (outpos + Z.of_nat k)) s1
     (λ _ s', finished s (outpos + Z.of_nat k + 1) s').
Proof.
  intros Hkn (slots & leaves & Hs & Hp & Hk & Hset). unfold indep_finish.
  destruct (lookup_lt_is_Some_2 slots k) as [v Hv]; [by rewrite (so_len _ _ _ Hs)|].
  apply (wp_bind_eq _ _ _ v s1); [by eapply load_out|].
  eapply wp_bind_mono; [by eapply finish_out_ok|].
  intros [] s2 (v' & Hv' & Hs2 & Hp2 & Hk2).
  eapply wp_mono; [by eapply finish_leaf_ok|]. intros [] s3 (w & Hw & Hs3 & Hp3 & Hk3).
  exists (<[k := v']> slots), (<[k := w]> leaves). split; [done|]. split; [done|].
  split; [by do 2 (eapply keeps_trans; [done|])|]. intros j Hj. unfold settled.
  pose proof (so_len _ _ _ Hs). pose proof (so_len2 _ _ _ Hs).
  destruct (decide (j = k)) as [->|Hne].
  - rewrite !list_lookup_insert_eq by lia. split; [congruence|]. intros H2. specialize (Hw H2). congruence.
  - rewrite !list_lookup_insert_ne by done. apply Hset. lia.
Qed.

(** The first loop marks every position undefined. *)
Definition marked (s : mstate) (j : Z) (s' : mstate) : Prop :=
  Inv s' ∧ keeps iwindow (ms_mem s) (ms_mem s') ∧
  region (ms_mem s') (out + outpos) (replicate (Z.to_nat (j - outpos)) CRUSH_ITEM_UNDEF) ∧
  ∀ o2, out2 = Some o2 →
    region (ms_mem s') (o2 + outpos) (replicate (Z.to_nat (j - outpos)) CRUSH_ITEM_UNDEF).

Lemma region_mark (W : Z → Prop) mem mem' base j :
  region mem base (replicate j CRUSH_ITEM_UNDEF) → 0 <= base → keeps W mem mem' →
  (∀ i, base <= i < base + Z.of_nat j → ¬ W i) →
  mem' !! Z.to_nat (base + Z.of_nat j) = Some (Some CRUSH_ITEM_UNDEF) →
  region mem' base (replicate (S j) CRUSH_ITEM_UNDEF).
Proof.
  intros Hr Hb Hk HW Hc. rewrite replicate_S_end. apply region_snoc.
  - eapply region_keeps; [done|done|done|]. by rewrite length_replicate.
  - by rewrite length_replicate.
Qed.

Lemma indep_mark_ok s j s1 :
  out + outpos + Z.of_nat n <= Z.of_nat (length (ms_mem s)) →
  (∀ o2, out2 = Some o2 → o2 + outpos + Z.of_nat n <= Z.of_nat (length (ms_mem s))) →
  outpos <= j < outpos + Z.of_nat n → marked s j s1 →
  wp (_ ← store (out + j) CRUSH_ITEM_UNDEF; store2 out2 j CRUSH_ITEM_UNDEF) s1
     (λ _ s', marked s (j + 1) s').
Proof.
  intros Hb Hb2 Hj (Hi & Hk & Hr & Hr2). pose proof Hk as [Hlen _].
  apply wp_bind, wp_store; [lia|]. set (k := Z.to_nat (j - outpos)) in *.
  set (mem1 := <[Z.to_nat (out + j) := Some CRUSH_ITEM_UNDEF]> (ms_mem s1)).
  replace (Z.to_nat (j + 1 - outpos)) with (S k) by lia.
  assert (keeps (λ i, i = out + j) (ms_mem s1) mem1) as Hk1 by (apply keeps_insert; [lia|done]).
  assert (keeps iwindow (ms_mem s) mem1) as Hk1'.
  { eapply keeps_trans; [done|]. eapply keeps_mono; [done|]. intros i ->. left. lia. }
  assert (region mem1 (out + outpos) (replicate (S k) CRUSH_ITEM_UNDEF)) as Hr1.
  { eapply region_mark; [done|lia|done|simpl; lia|]. unfold mem1.
    replace (out + outpos + Z.of_nat k) with (out + j) by lia. apply list_lookup_insert_eq. lia. }
  assert (out2 = None ∨ ∃ o2, out2 = Some o2) as [E2|[o2 E2]] by (destruct out2; eauto).
  { rewrite E2. apply wp_ret. split; [done|]. split; [done|]. replace (Z.to_nat (j + 1 - outpos)) with (S k) by lia.
    split; [done|]. intros o2 E. congruence. }
  rewrite E2. destruct (Hapart o2 E2) as [? Ha]. specialize (Hb2 o2 E2).
  assert (length mem1 = length (ms_mem s1)) as Hl1 by apply length_insert.
  cbn [store2]. apply wp_store; cbn [ms_mem ms_map]; [lia|].
  set (mem2 := <[Z.to_nat (o2 + j) := Some CRUSH_ITEM_UNDEF]> mem1).
  assert (keeps (λ i, i = o2 + j) mem1 mem2) as Hk2 by (apply keeps_insert; [lia|done]).
  split; [done|]. cbn [ms_mem]. replace (Z.to_nat (j + 1 - outpos)) with (S k) by lia. split.
  { eapply keeps_trans; [done|]. eapply keeps_mono; [done|]. intros i ->. right. exists o2. split; [done|lia]. }
  split.
  - eapply region_keeps; [done|exact Hk2|lia|]. rewrite length_replicate. simpl. lia.
  - intros o2' E. rewrite E2 in E. injection E as <-.
    eapply (region_mark (λ i, i = out + j ∨ i = o2 + j) (ms_mem s1)); [by apply Hr2|lia|..].
    + eapply keeps_trans; (eapply keeps_mono; [done|]); simpl; auto.
    + simpl. lia.
    + unfold mem2. replace (o2 + outpos + Z.of_nat k) with (o2 + j) by lia.
      apply list_lookup_insert_eq. lia.
Qed.

(** What a call delivers. *)
Definition indep_post (s s' : mstate) : Prop :=
  ∃ slots leaves, slots_ok s' slots leaves ∧ pairs slots leaves ∧
    keeps iwindow (ms_mem s) (ms_mem s') ∧
    (∀ k, slots !! k ≠ Some CRUSH_ITEM_UNDEF) ∧
    (is_Some out2 → ∀ k, leaves !! k ≠ Some CRUSH_ITEM_UNDEF).

Lemma indep_call_ok tries left s :
  Inv s → out + outpos + Z.of_nat n <= Z.of_nat (length (ms_mem s)) →
  (∀ o2, out2 = Some o2 → o2 + outpos + Z.of_nat n <= Z.of_nat (length (ms_mem s))) →
  wp (indep_call weight weight_max x rec (Z.of_nat bucket) numrep type out outpos
        (outpos + Z.of_nat n) leaf out2 parent_r fuel left tries) s (λ _ s', indep_post s s').
Proof.
  intros Hi Hb Hb2. unfold indep_call. replace (Z.to_nat (outpos + Z.of_nat n - outpos)) with n by lia.
  eapply wp_bind_mono.
  { apply (wp_for_m (marked s)).
    - split; [done|]. split; [apply keeps_refl|]. rewrite Z.sub_diag.
      split; [apply region_nil|]. intros; apply region_nil.
    - intros j s1 Hj. by apply indep_mark_ok. }
  intros [] s1 (Hi1 & Hk1 & Hr1 & Hr2).
  replace (Z.to_nat (outpos + Z.of_nat n - outpos)) with n in * by lia.
  set (und := replicate n CRUSH_ITEM_UNDEF) in *.
  eapply wp_bind_mono.
  { eapply (indep_tries_ok _ 0 left s1 und und); [| |lia].
    - split; try done; try apply length_replicate.
      + apply Forall_replicate. by left; left.
      + intros i j v [-> _]%lookup_replicate _ Hv. destruct Hv. by left.
      + apply Forall_replicate. by left; left.
    - intros _ _. apply Forall2_same_length_lookup_2; [done|].
      intros i v w [-> _]%lookup_replicate [-> _]%lookup_replicate. apply vacant_pair; by left. }
  intros ft s2 [Hft (slots & leaves & Hs2 & Hp2 & Hk2)].
  eapply wp_bind_mono.
  { apply (wp_for_m (finished s)).
    - exists slots, leaves. split; [done|]. split; [done|]. split; [by eapply keeps_trans|]. lia.
    - intros j s3 Hj Hf. replace j with (outpos + Z.of_nat (Z.to_nat (j - outpos))) in * by lia.
      apply indep_finish_ok; [lia|done]. }
  intros [] s3 (sl & lv & Hs3 & Hp3 & Hk3 & Hset).
  eapply wp_mono; [exact (count_tries_ok ft s3 Hft (so_inv _ _ _ Hs3))|].
  intros [] s4 [Hi4 E4]. exists sl, lv. rewrite E4.
  split; [by eapply slots_mem|]. split; [done|]. split; [done|]. split.
  - intros k Hk. assert (k < n)%nat by (rewrite <- (so_len _ _ _ Hs3); by eapply lookup_lt_Some).
    destruct (Hset k) as [Hx _]; [lia|]. done.
  - intros H2 k Hk. assert (k < n)%nat by (rewrite <- (so_len2 _ _ _ Hs3); by eapply lookup_lt_Some).
    destruct (Hset k) as [_ Hx]; [lia|]. by apply Hx.
Qed.
End indep_proof.

(** ** The two calls *)

Section indep_calls.
Context (sh : list (option bshape)) (D : Z) (st : statics) (rank : nat → nat).
Context (Hsh : shape_wf sh D rank).
Context (weight : list (option Z)) (ws : list Z) (weight_max x : Z).
Context (Hweight : holds weight ws) (Hwmax : weight_max = Z.of_nat (length ws)).
Context (R : Z) (fuel : nat).
Context (HR : ∀ p ty l, shape_at sh p = Some (ty, l) → Z.of_nat (rank p) <= R)
  (Hfuel : R < Z.of_nat fuel).

Lemma indep_leaf_rec_ok numrep tries :
  0 < numrep < 4294967296 →
  irec_ok sh D st weight weight_max x (λ bucket out outpos parent_r,
    crush_choose_indep_leaf fuel weight weight_max x bucket 1 numrep 0 out outpos tries parent_r).
Proof.
  intros Hnr pos ty l o2 rep r s Hs Hi Ho2 Hrep Hroom. unfold crush_choose_indep_leaf.
  eapply wp_mono.
  { eapply (indep_call_ok sh D st rank Hsh weight ws weight_max x Hweight Hwmax _ pos numrep 0 o2
      rep 1 false None r) with (R := R); try done; lia. }
  intros [] s' (slots & leaves & [Hi' Ho Hl Hv _ _ _ _] & _ & Hk & Hu & _).
  split; [done|]. split.
  { eapply keeps_mono; [exact Hk|]. intros i [?|(? & ? & _)]; [lia|done]. }
  destruct slots as [|v [|]]; try done. exists v. split.
  { specialize (Ho 0%nat v eq_refl). by rewrite Z.add_0_r in Ho. }
  inversion Hv as [|? ? [[->| ->]|Hg] _]; simplify_eq; [by destruct (Hu 0%nat)|by left|by right].
Qed.

(** [slots] in [out]; with [recurse_to_leaf] and a bucket type, devices below
    them in [out2]. *)
Definition indep_result (type out n : Z) (leaf : bool) (o2 : Z) (s s' : mstate) : Prop :=
  ∃ slots leaves,
    Z.of_nat (length slots) = n ∧ map_ok sh D st (ms_map s') ∧
    region (ms_mem s') out slots ∧
    Forall (λ v, v = CRUSH_ITEM_NONE ∨ good sh D weight weight_max x type v) slots ∧
    (∀ i j v, slots !! i = Some v → slots !! j = Some v → v ≠ CRUSH_ITEM_NONE → i = j) ∧
    region (ms_mem s') o2 leaves ∧
    (leaf = true → type ≠ 0 → Forall2 (λ v w, v = CRUSH_ITEM_NONE ∧ w = CRUSH_ITEM_NONE ∨
       good sh D weight weight_max x type v ∧ good sh D weight weight_max x 0 w) slots leaves) ∧
    Z.of_nat (length leaves) = n ∧ Forall (λ w, w = CRUSH_ITEM_NONE ∨ item_ok sh D w) leaves ∧
    keeps (λ i, out <= i < out + n ∨ o2 <= i < o2 + n) (ms_mem s) (ms_mem s').

Lemma crush_choose_indep_correct pos ty l n numrep type out tries recurse_tries leaf o2 parent_r s :
  shape_at sh pos = Some (ty, l) → map_ok sh D st (ms_map s) →
  0 < numrep < 4294967296 → 0 <= n → 0 <= out → 0 <= o2 →
  out + n <= Z.of_nat (length (ms_mem s)) → o2 + n <= Z.of_nat (length (ms_mem s)) →
  out + n <= o2 ∨ o2 + n <= out →
  wp (crush_choose_indep fuel weight weight_max x (Z.of_nat pos) n numrep type out 0 tries
        recurse_tries leaf (Some o2) parent_r) s
     (λ _ s', indep_result type out n leaf o2 s s').
Proof.
  intros Hs Hi Hnr Hn Hout Ho2 Hr1 Hr2 Hapart. unfold crush_choose_indep.
  replace (0 + n) with (0 + Z.of_nat (Z.to_nat n)) by lia. eapply wp_mono.
  { eapply (indep_call_ok sh D st rank Hsh weight ws weight_max x Hweight Hwmax _ pos numrep type
      out 0 (Z.to_nat n) leaf (Some o2) parent_r) with (R := R); try done; try lia.
    - intros _. by apply indep_leaf_rec_ok.
    - intros o [= <-]. lia.
    - intros o [= <-]. lia. }
  intros [] s' (slots & leaves & [Hi' Ho Hl Hv Hd Hlr Hl2 Hv2] & Hp & Hk & Hu & Hu2).
  specialize (Hlr o2 eq_refl). rewrite Z.add_0_r in Ho, Hlr. specialize (Hu2 ltac:(by eexists)).
  exists slots, leaves. split; [lia|]. split; [done|]. split; [done|]. split.
  { apply Forall_lookup. intros i v Hiv. rewrite Forall_lookup in Hv.
    destruct (Hv i v Hiv) as [[->| ->]|?]; [by destruct (Hu i)|by left|by right]. }
  split.
  { intros i j v Hiv Hjv Hne. eapply Hd; [done|done|]. intros [->| ->]; [by eapply Hu|done]. }
  split; [done|]. split.
  { intros El Ht. eapply Forall2_same_length_lookup_2; [by rewrite Hl, Hl2|].
    intros i v w Hiv Hiw.
    destruct (Forall2_lookup_lr _ _ _ _ _ _ (Hp El Ht) Hiv Hiw) as [[Ha Hb]|?]; [left|by right].
    destruct Ha as [->| ->], Hb as [->| ->]; try done;
      solve [by destruct (Hu i)|by destruct (Hu2 i)]. }
  split; [lia|]. split.
  { apply Forall_lookup. intros i v Hiv. rewrite Forall_lookup in Hv2.
    destruct (Hv2 i v Hiv) as [[->| ->]|?]; [by destruct (Hu2 i)|by left|by right]. }
  eapply keeps_mono; [exact Hk|]. intros i [?|(o & [= <-] & ?)]; [left; lia|right; lia].
Qed.
End indep_calls.
