(* ===== verification/RuleSpec.v ===== *)
(** * crush_do_rule: safety and results (src/crush/mapper.c)

    A rule whose steps are used in a sensible order (a choose step applies to
    buckets only) runs to completion on a well-formed map, never leaves the
    scratch block or the result vector, and returns at most [result_max] items,
    each of them valid. *)

From S2P Require Import Prelude Hash CrushTypes Ln Nodes Choose ChoosePerm ChooseSpec Mapper.
From S2P Require Import MapWf FirstnSpec IndepSpec.

(** ** Which rules are sensible *)

(** What [w] holds between two steps. *)
Inductive wkind := WEmpty | WBuckets | WAny.

#[export] Instance wkind_eq_dec : EqDecision wkind.
Proof. solve_decision. Defined.

Definition bucket_item (sh : list (option bshape)) (item : Z) : bool :=
  (item <? 0) && bool_decide (is_Some (shape_at sh (bucket_pos item))).

Definition valid_item (sh : list (option bshape)) (D item : Z) : bool :=
  bucket_item sh item || ((0 <=? item) && (item <? D)).

Definition step_kind (sh : list (option bshape)) (D : Z) (k : wkind) (st : crush_rule_step) :
    option wkind :=
  match st_op st with
  | CRUSH_RULE_TAKE =>
      if bucket_item sh (st_arg1 st) then Some WBuckets
      else if valid_item sh D (st_arg1 st) then Some WAny else None
  | CRUSH_RULE_CHOOSELEAF_FIRSTN | CRUSH_RULE_CHOOSE_FIRSTN
  | CRUSH_RULE_CHOOSELEAF_INDEP | CRUSH_RULE_CHOOSE_INDEP =>
      match k with
      | WEmpty => Some WEmpty
      | WBuckets =>
          if is_firstn (st_op st) && negb (is_leaf (st_op st)) && negb (st_arg2 st =? 0)
          then Some WBuckets else Some WAny
      | WAny => None
      end
  | CRUSH_RULE_EMIT => Some WEmpty
  | _ => Some k
  end.

(** Limits on what the [set_*] steps may ask for. *)
Record limits := Limits { lm_tries : Z; lm_local : Z; lm_fallback : Z }.

Definition step_within (lm : limits) (st : crush_rule_step) : bool :=
  (-2147483648 <=? st_arg1 st) && (st_arg1 st <? 2147483648) &&
  match st_op st with
  | CRUSH_RULE_SET_CHOOSE_TRIES | CRUSH_RULE_SET_CHOOSELEAF_TRIES => st_arg1 st <=? lm_tries lm
  | CRUSH_RULE_SET_CHOOSE_LOCAL_TRIES => st_arg1 st <=? lm_local lm
  | CRUSH_RULE_SET_CHOOSE_LOCAL_FALLBACK_TRIES => st_arg1 st <=? lm_fallback lm
  | CRUSH_RULE_SET_CHOOSELEAF_VARY_R => st_arg1 st <=? 32
  | _ => true
  end.

(** A rule is typed by running [step_kind] over its steps. *)
Fixpoint rule_typed (sh : list (option bshape)) (D : Z) (lm : limits) (k : wkind)
    (steps : list crush_rule_step) : bool :=
  match steps with
  | [] => true
  | st :: steps =>
      step_within lm st &&
      match step_kind sh D k st with Some k => rule_typed sh D lm k steps | None => false end
  end.

Lemma bucket_item_spec sh item :
  bucket_item sh item = true ↔ item < 0 ∧ is_Some (shape_at sh (bucket_pos item)).
Proof. unfold bucket_item. by rewrite andb_true_iff, Z.ltb_lt, bool_decide_eq_true. Qed.

Lemma valid_item_ok sh D item : valid_item sh D item = true → item_ok sh D item.
Proof.
  unfold valid_item. rewrite orb_true_iff, andb_true_iff, bucket_item_spec, Z.leb_le, Z.ltb_lt.
  intros [?|?]; [by right|by left].
Qed.

Section rule_proof.
Context (sh : list (option bshape)) (D : Z) (st : statics) (rank : nat → nat).
Context (Hsh : shape_wf sh D rank).
Context (weight : list (option Z)) (ws : list Z) (weight_max x : Z).
Context (Hweight : holds weight ws) (Hwmax : weight_max = Z.of_nat (length ws)).
Context (rm : Z) (Hrm : 1 <= rm < 2147483648).
Context (lm : limits) (L R : Z) (fuel : nat).
Context (HL0 : 0 <= L) (HLlocal : lm_local lm <= L)
  (HLfallback : 0 < lm_fallback lm → ∀ p ty l, shape_at sh p = Some (ty, l) →
                  Z.of_nat (length l) + lm_fallback lm <= L)
  (HR : ∀ p ty l, shape_at sh p = Some (ty, l) → Z.of_nat (rank p) <= R)
  (HLwrap : L + 1 < 4294967296) (HF : 0 <= lm_fallback lm < 4294967296)
  (HT : 1 <= lm_tries lm < 4294967296)
  (Hfuel : retry_bound (lm_tries lm) L R <= Z.of_nat fuel)
  (Hwrap : retry_bound (lm_tries lm) L R < 4294967296).

#[local] Abbreviation Inv s := (map_ok sh D st (ms_map s)).
#[local] Abbreviation Good := (good sh D weight weight_max x).

(** The tunables in the interpreter's locals. *)
Record tunables_ok (l : rlocals) : Prop := {
  tn_tries : 0 <= rl_choose_tries l <= lm_tries lm;
  tn_leaf : 0 <= rl_choose_leaf_tries l <= lm_tries lm;
  tn_local : 0 <= rl_local_retries l <= lm_local lm;
  tn_fallback : 0 <= rl_fallback_retries l <= lm_fallback lm;
  tn_vary : 0 <= rl_vary_r l <= 32 }.

Lemma fuel_ok_le tries pos ty l :
  shape_at sh pos = Some (ty, l) → 0 <= tries <= lm_tries lm → fuel_ok L R fuel tries.
Proof.
  intros Hs Ht. pose proof (HR _ _ _ Hs) as H0.
  assert (retry_bound tries L R <= retry_bound (lm_tries lm) L R).
  { unfold retry_bound. apply Z.mul_le_mono_nonneg_r; nia. }
  split; lia.
Qed.

(** ** One input bucket *)

Definition numrep_of (s : crush_rule_step) : Z :=
  if st_arg1 s <=? 0 then st_arg1 s + rm else st_arg1 s.

(** What one choose call put in [o], and in [c]. *)
Definition picked (s : crush_rule_step) (new newl : list Z) : Prop :=
  Z.of_nat (length new) <= Z.max 0 (numrep_of s) ∧
  (if is_firstn (st_op s) then
     NoDup new ∧ Forall (Good (st_arg2 s)) new ∧
     (is_leaf (st_op s) = true → NoDup newl ∧ Forall (Good 0) newl)
   else
     Forall (λ v, v = CRUSH_ITEM_NONE ∨ Good (st_arg2 s) v) new ∧
     (∀ i j v, new !! i = Some v → new !! j = Some v → v ≠ CRUSH_ITEM_NONE → i = j) ∧
     Forall (λ w, w = CRUSH_ITEM_NONE ∨ item_ok sh D w) newl ∧
     (is_leaf (st_op s) = true → st_arg2 s ≠ 0 →
        Forall2 (λ v w, v = CRUSH_ITEM_NONE ∧ w = CRUSH_ITEM_NONE ∨ Good (st_arg2 s) v ∧ Good 0 w)
          new newl)).

Definition chosen_post (s : crush_rule_step) (o osize : Z) (m : mstate) (osize' : Z) (m' : mstate) : Prop :=
  ∃ new newl,
    osize' = osize + Z.of_nat (length new) ∧ osize' <= rm ∧ Inv m' ∧
    region (ms_mem m') (o + osize) new ∧
    (is_leaf (st_op s) = true → region (ms_mem m') (2 * rm + osize) newl ∧ length newl = length new) ∧
    picked s new newl ∧
    (is_firstn (st_op s) = false →
       Z.of_nat (length new) = Z.max 0 (Z.min (numrep_of s) (rm - osize))) ∧
    keeps (λ i, o + osize <= i < o + rm ∨ 2 * rm + osize <= i < 3 * rm) (ms_mem m) (ms_mem m').

Lemma firstn_chosen s o osize got m m' :
  is_firstn (st_op s) = true → 0 <= osize <= rm → 0 < numrep_of s →
  firstn_post sh D st weight weight_max x (st_arg2 s) (numrep_of s) (o + osize) (rm - osize)
    (is_leaf (st_op s)) (2 * rm + osize) m got m' →
  chosen_post s o osize m (osize + got) m'.
Proof.
  intros Ef Hos Hn (sel & leaves & -> & Hle & Hsz & Hi & Hr & Hnd & Hg & Hlf & Hk).
  exists sel, leaves. split; [done|]. split; [lia|]. split; [done|]. split; [done|]. split.
  { intros El. destruct (Hlf El) as (? & ? & _). done. }
  split.
  - split; [lia|]. rewrite Ef. split; [done|]. split; [done|]. intros El. apply Hlf in El. tauto.
  - split; [congruence|]. eapply keeps_mono; [exact Hk|]. intros i [?|[_ ?]]; [left; lia|right; lia].
Qed.

Lemma indep_chosen s o osize n m m' :
  is_firstn (st_op s) = false → 0 <= osize <= rm →
  n = (if numrep_of s <? rm - osize then numrep_of s else rm - osize) → 0 < numrep_of s →
  indep_result sh D st weight weight_max x (st_arg2 s) (o + osize) n
    (is_leaf (st_op s)) (2 * rm + osize) m m' →
  chosen_post s o osize m (osize + n) m'.
Proof.
  intros Ef Hos En Hn (slots & leaves & Hl & Hi & Hr & Hv & Hd & Hr2 & Hp & Hl2 & Hv2 & Hk).
  assert (n <= numrep_of s ∧ n <= rm - osize) as [? ?].
  { subst n. destruct (Z.ltb_spec (numrep_of s) (rm - osize)); lia. }
  exists slots, leaves. split; [lia|]. split; [lia|]. split; [done|]. split; [done|].
  split; [intros _; split; [done|lia]|]. split.
  - split; [lia|]. rewrite Ef. done.
  - split; [intros _; destruct (Z.ltb_spec (numrep_of s) (rm - osize)); lia|]. eapply keeps_mono; [exact Hk|]. intros i [?|?]; [left; lia|right; lia].
Qed.

Lemma choose_one_ok s l osize i wi m :
  tunables_ok l → is_s32 (st_arg1 s) → Inv m → 0 <= osize <= rm →
  rl_o l = 0 ∨ rl_o l = rm → 3 * rm <= Z.of_nat (length (ms_mem m)) →
  load (rl_w l + i) m = Ok (wi, m) → wi < 0 → is_Some (shape_at sh (bucket_pos wi)) →
  wp (choose_one fuel weight weight_max x rm s l osize i) m (chosen_post s (rl_o l) osize m).
Proof.
  intros [Ht Htl Hlo Hfb Hv] Ha Hi Hos Ho Hlen Hld Hneg [[ty lst] Hs]. unfold choose_one.
  assert ((if st_arg1 s <=? 0 then s32 (st_arg1 s + rm) else st_arg1 s) = numrep_of s) as ->.
  { unfold numrep_of. destruct (Z.leb_spec (st_arg1 s) 0); [|done].
    apply s32_small. unfold is_s32 in *. lia. }
  assert (numrep_of s < 2147483648) as Hn31
    by (unfold numrep_of, is_s32 in *; destruct (Z.leb_spec (st_arg1 s) 0); lia).
  destruct (Z.leb_spec (numrep_of s) 0) as [Hn0|Hn0].
  { apply wp_ret. exists [], []. simpl. split; [lia|]. split; [lia|]. split; [done|].
    split; [apply region_nil|]. split; [intros _; split; [apply region_nil|done]|].
    split; [|split; [simpl; lia|apply keeps_refl]]. split; [simpl; lia|]. destruct (is_firstn (st_op s)).
    - repeat split; constructor.
    - split; [constructor|]. split; [done|]. split; constructor. }
  apply (wp_bind_eq _ _ _ wi m); [done|]. apply (wp_bind_eq _ _ _ (ms_map m) m); [done|].
  destruct (map_ok_bucket _ _ _ _ Hi Hs) as (b & Hget & _ & _). rewrite bucket_pos_Z in Hget by done.
  unfold get_bucket in Hget. destruct (rdp (m_buckets (ms_map m)) (-1 - wi)) as [p|] eqn:Ep; [|done].
  apply (wp_bind_eq _ _ _ p m); [done|]. rewrite <- (bucket_pos_Z wi Hneg).
  rewrite (u32_small (rl_choose_tries l)) by (unfold is_u32; lia).
  destruct (is_firstn (st_op s)) eqn:Ef.
  - rewrite (u32_small (rl_local_retries l)), (u32_small (rl_fallback_retries l)),
      (u32_small (rl_vary_r l)) by (unfold is_u32; lia).
    set (rt := if negb (rl_choose_leaf_tries l =? 0) then _ else _).
    assert (0 <= rt <= lm_tries lm) as Hrt by (unfold rt; repeat case_match; lia).
    rewrite (u32_small rt) by (unfold is_u32; lia). eapply wp_bind_mono.
    { eapply (crush_choose_firstn_correct sh D st rank Hsh weight ws weight_max x Hweight Hwmax
        _ _ L R fuel); try done; try (by eapply fuel_ok_le); try lia.
      intros Hf p' ty' l' Hp'. assert (0 < lm_fallback lm) as H0 by lia.
      pose proof (HLfallback H0 _ _ _ Hp'). lia. }
    intros got m' Hpost. apply wp_ret. by apply firstn_chosen.
  - eapply wp_bind_mono.
    { pose proof (HR _ _ _ Hs). assert (R < Z.of_nat fuel) by (unfold retry_bound in *; nia).
      eapply (crush_choose_indep_correct sh D st rank Hsh weight ws weight_max x Hweight Hwmax R
        fuel); try done; try lia; destruct (Z.ltb_spec (numrep_of s) (rm - osize)); lia. }
    intros [] m' Hpost. apply wp_ret. by eapply indep_chosen.
Qed.

(** ** The loop over [w] *)

Definition valid (v : Z) : Prop := v = CRUSH_ITEM_NONE ∨ item_ok sh D v.
Definition pick_ok (s : crush_rule_step) (v : Z) : Prop :=
  valid v ∧ (is_firstn (st_op s) = true → Good (st_arg2 s) v).

Lemma good_valid type v : Good type v → valid v.
Proof. intros [? _]. by right. Qed.

Lemma picked_valid s new newl :
  picked s new newl →
  Forall (pick_ok s) new ∧ (is_leaf (st_op s) = true → Forall valid newl).
Proof.
  unfold picked, pick_ok. intros [_ H]. destruct (is_firstn (st_op s)).
  - destruct H as (_ & Hg & Hl). split.
    + eapply Forall_impl; [done|]. intros v Hv. split; [by eapply good_valid|done].
    + intros El. destruct (Hl El) as [_ Hg']. eapply Forall_impl; [done|]. apply good_valid.
  - destruct H as (Hv & _ & Hl & _). split; [|done]. eapply Forall_impl; [done|].
    intros v [->|Hg]; (split; [|done]); [by left|by eapply good_valid].
Qed.

(** The vectors [o] and [c] during a choose step. *)
Record gathered (s : crush_rule_step) (o : Z) (m : mstate) (acc lacc : list Z) : Prop := {
  ga_inv : Inv m;
  ga_size : Z.of_nat (length acc) <= rm;
  ga_out : region (ms_mem m) o acc;
  ga_leaf : is_leaf (st_op s) = true →
    region (ms_mem m) (2 * rm) lacc ∧ length lacc = length acc ∧ Forall valid lacc;
  ga_ok : Forall (pick_ok s) acc }.

Lemma gathered_more s o m m' acc lacc osize' :
  0 <= o → o + rm <= 2 * rm → gathered s o m acc lacc →
  chosen_post s o (Z.of_nat (length acc)) m osize' m' →
  ∃ new newl, osize' = Z.of_nat (length (acc ++ new)) ∧ picked s new newl ∧
    (is_firstn (st_op s) = false →
       Z.of_nat (length new) = Z.max 0 (Z.min (numrep_of s) (rm - Z.of_nat (length acc)))) ∧
              gathered s o m' (acc ++ new) (lacc ++ newl).
Proof.
  intros Ho Ho' [Hi Hsz Hr Hl Hok] (new & newl & -> & Hle & Hi' & Hr' & Hl' & Hp & Hex & Hk).
  exists new, newl. rewrite length_app. split; [lia|]. split; [done|]. split; [done|].
  destruct (picked_valid _ _ _ Hp) as [Hv Hvl]. split; [done|..].
  - rewrite length_app. lia.
  - apply region_app; [|done]. eapply region_keeps; [done|done|lia|]. simpl. lia.
  - intros El. destruct (Hl El) as (Hlr & Hll & Hlv). destruct (Hl' El) as [Hlr' Hll'].
    rewrite !length_app. split; [|split; [lia|apply Forall_app; auto]].
    apply region_app; [|by rewrite Hll]. eapply region_keeps; [done|done|lia|]. simpl. lia.
  - apply Forall_app. auto.
Qed.

Lemma choose_all_ok s l vals n : ∀ i m acc lacc,
  tunables_ok l → is_s32 (st_arg1 s) →
  rl_o l = 0 ∧ rl_w l = rm ∨ rl_o l = rm ∧ rl_w l = 0 →
  gathered s (rl_o l) m acc lacc → 3 * rm <= Z.of_nat (length (ms_mem m)) →
  region (ms_mem m) (rl_w l) vals → Z.of_nat (length vals) <= rm →
  Forall (λ v, v < 0 ∧ is_Some (shape_at sh (bucket_pos v))) vals → (i + n = length vals)%nat →
  wp (choose_all fuel weight weight_max x rm s l n (Z.of_nat (length acc)) (Z.of_nat i)) m
     (λ osize m', ∃ acc' lacc', osize = Z.of_nat (length acc') ∧
        gathered s (rl_o l) m' acc' lacc' ∧ length (ms_mem m') = length (ms_mem m)).
Proof.
  induction n as [|n IH];
    intros i m acc lacc Ht Ha Hwo Hg Hlen Hr Hvl Hbk Hin; cbn [choose_all].
  { apply wp_ret. by exists acc, lacc. }
  destruct (lookup_lt_is_Some_2 vals i) as [wi Hwi]; [lia|].
  assert (load (rl_w l + Z.of_nat i) m = Ok (wi, m)) as Hld.
  { unfold load. by rewrite (region_rd _ _ vals _ wi Hr) by (lia || by rewrite Nat2Z.id). }
  pose proof Hbk as Hbk'. rewrite Forall_lookup in Hbk'. destruct (Hbk' i wi Hwi) as [Hneg Hsome].
  pose proof (ga_size _ _ _ _ _ Hg). eapply wp_bind_mono.
  { eapply (choose_one_ok s l _ _ wi m); try done; [apply Hg|lia|lia]. }
  intros osize m' Hpost.
  destruct (gathered_more s (rl_o l) m m' acc lacc osize) as (new & newl & -> & _ & _ & Hg');
    [lia|lia|done|done|].
  destruct Hpost as (new' & newl' & _ & _ & _ & _ & _ & _ & _ & Hk). pose proof Hk as [Hl _].
  replace (Z.of_nat i + 1) with (Z.of_nat (S i)) by lia.
  eapply wp_mono; [eapply (IH (S i) m'); try done|].
  - by rewrite Hl.
  - eapply region_keeps; [done|done|lia|]. simpl. lia.
  - lia.
  - intros os m'' (acc' & lacc' & ? & ? & ?). exists acc', lacc'. split; [done|]. split; [done|].
    congruence.
Qed.

(** ** memcpy and emit *)

Lemma copy_cells_ok dst src lacc m :
  region (ms_mem m) src lacc → 0 <= dst → dst + Z.of_nat (length lacc) <= src →
  dst + Z.of_nat (length lacc) <= Z.of_nat (length (ms_mem m)) → Inv m →
  wp (copy_cells dst src (length lacc)) m (λ _ m',
    Inv m' ∧ region (ms_mem m') dst lacc ∧ length (ms_mem m') = length (ms_mem m)).
Proof.
  intros Hr Hd Hlt Hlen Hi. unfold copy_cells. eapply wp_mono.
  { apply (wp_for_m (λ j m', Inv m' ∧ region (ms_mem m') dst (take (Z.to_nat j) lacc) ∧
      keeps (λ i, dst <= i < dst + Z.of_nat (length lacc)) (ms_mem m) (ms_mem m'))).
    - split; [done|]. split; [apply region_nil|apply keeps_refl].
    - intros j m' Hj (Hi' & Hr' & Hk). pose proof Hk as [Hl _].
      destruct (lookup_lt_is_Some_2 lacc (Z.to_nat j)) as [v Hv]; [lia|].
      assert (region (ms_mem m') src lacc) as Hrs.
      { eapply region_keeps; [done|done|lia|]. simpl. lia. }
      pose proof (Hrs _ _ Hv) as Hc. replace (src + Z.of_nat (Z.to_nat j)) with (src + j) in Hc by lia.
      unfold wp. unfold rdc at 1. rewrite (proj2 (Z.ltb_ge (src + j) 0)), Hc by lia.
      cbn [mbind res_bind]. pose proof (wr_ok (ms_mem m') (dst + j) v) as Hw. unfold wr in Hw.
      rewrite Hw by lia. cbn [mbind res_bind rwp ms_mem ms_map]. split; [done|].
      replace (Z.to_nat (j + 1)) with (S (Z.to_nat j)) by lia. rewrite (take_S_r _ _ v) by done.
      split.
      + apply region_snoc.
        * eapply (region_keeps (λ i, i = dst + j)); [done|apply keeps_insert; [lia|done]|done|].
          rewrite length_take. simpl. lia.
        * rewrite length_take. replace (Z.to_nat (dst + Z.of_nat _)) with (Z.to_nat (dst + j)) by lia.
          apply list_lookup_insert_eq. lia.
      + eapply keeps_trans; [done|]. apply keeps_insert; lia. }
  intros [] m' (Hi' & Hr' & [Hl _]). rewrite take_ge in Hr' by lia. done.
Qed.

Lemma emit_loop_ok w vals n : ∀ i result res m,
  region (ms_mem m) w vals → 0 <= w → (i + n = length vals)%nat →
  holds result res → rm <= Z.of_nat (length result) → Z.of_nat (length res) <= rm →
  ∃ result' k, emit_loop rm w n (Z.of_nat i) result (Z.of_nat (length res)) m =
      Ok ((result', Z.of_nat (length (res ++ take k (drop i vals)))), m) ∧
    holds result' (res ++ take k (drop i vals)) ∧ length result' = length result ∧
    Z.of_nat (length (res ++ take k (drop i vals))) <= rm ∧
    (k = n ∨ Z.of_nat (length (res ++ take k (drop i vals))) = rm).
Proof.
  induction n as [|n IH]; intros i result res m Hr Hw Hin Hh Hl Hle.
  { exists result, 0%nat. rewrite take_0, app_nil_r. repeat split; try done. by left. }
  cbn [emit_loop]. destruct (Z.ltb_spec (Z.of_nat (length res)) rm) as [Hlt|Hge].
  2:{ exists result, 0%nat. rewrite take_0, app_nil_r. repeat split; try done. right. lia. }
  destruct (lookup_lt_is_Some_2 vals i) as [v Hv]; [lia|].
  unfold mbind, M_bind, load. rewrite (region_rd _ _ vals _ v Hr) by (lia || by rewrite Nat2Z.id).
  cbn [mbind res_bind]. rewrite wr_ok by lia. cbn [lift].
  destruct (IH (S i) (<[length res := Some v]> result) (res ++ [v]) m) as (r' & k & E & H1 & H2 & H3 & H4);
    try done; try lia.
  - apply holds_snoc; [done|lia].
  - by rewrite length_insert.
  - rewrite length_app. simpl. lia.
  - exists r', (S k). rewrite (drop_S _ v) by done. simpl.
    rewrite <- app_assoc in *. simpl in *.
    replace (Z.of_nat (length (res ++ [v]))) with (Z.of_nat (length res) + 1) in E
      by (rewrite length_app; simpl; lia).
    rewrite Nat2Z.id. replace (Z.of_nat i + 1) with (Z.of_nat (S i)) by lia. rewrite E.
    rewrite length_insert in H2. repeat split; try done. destruct H4; [left; lia|by right].
Qed.

(** ** The interpreter *)

Definition is_bucket (v : Z) : Prop := v < 0 ∧ is_Some (shape_at sh (bucket_pos v)).

Definition kind_ok (k : wkind) (vals : list Z) : Prop :=
  match k with WEmpty => vals = [] | WBuckets => Forall is_bucket vals | WAny => True end.

Record running (k : wkind) (l : rlocals) (m : mstate) (vals out : list Z) : Prop := {
  rn_inv : Inv m;
  rn_scratch : 3 * rm <= Z.of_nat (length (ms_mem m));
  rn_wo : rl_o l = 0 ∧ rl_w l = rm ∨ rl_o l = rm ∧ rl_w l = 0;
  rn_tun : tunables_ok l;
  rn_w : region (ms_mem m) (rl_w l) vals;
  rn_wsize : rl_wsize l = Z.of_nat (length vals);
  rn_wmax : Z.of_nat (length vals) <= rm;
  rn_valid : Forall valid vals;
  rn_kind : kind_ok k vals;
  rn_out : holds (rl_result l) out;
  rn_len : rl_result_len l = Z.of_nat (length out);
  rn_max : Z.of_nat (length out) <= rm;
  rn_room : rm <= Z.of_nat (length (rl_result l));
  rn_ok : Forall valid out }.

Lemma good_bucket type v : Good type v → type ≠ 0 → is_bucket v.
Proof.
  intros (Hok & Hty & _) Hne. assert (v < 0) as Hneg.
  { eapply itype_pos_bucket; [done|congruence]. }
  destruct Hok as [?|[_ ?]]; [lia|done].
Qed.

(** The vector a choose step leaves in [o]. *)
Definition outcome (s : crush_rule_step) (acc lacc : list Z) : list Z :=
  if is_leaf (st_op s) then lacc else acc.

(** The end of a choose step: leaves are copied over the items they belong to. *)
Lemma choose_finish_ok s l m acc lacc :
  rl_o l = 0 ∨ rl_o l = rm → 3 * rm <= Z.of_nat (length (ms_mem m)) →
  gathered s (rl_o l) m acc lacc →
  wp (_ ← (if is_leaf (st_op s)
           then copy_cells (rl_o l) (2 * rm) (Z.to_nat (Z.of_nat (length acc))) else mret tt);
      mret (set_rl_w (rl_o l) (Z.of_nat (length acc)) (rl_w l) l)) m
     (λ l' m', l' = set_rl_w (rl_o l) (Z.of_nat (length (outcome s acc lacc))) (rl_w l) l ∧
        Inv m' ∧ length (ms_mem m') = length (ms_mem m) ∧
        region (ms_mem m') (rl_o l) (outcome s acc lacc)).
Proof.
  intros Ho Hlen [Hi Hsz Hr Hl Hok]. unfold outcome. rewrite Nat2Z.id.
  destruct (is_leaf (st_op s)); [|by apply wp_ret, wp_ret].
  destruct (Hl eq_refl) as (Hlr & Hll & _). rewrite <- Hll. eapply wp_bind_mono.
  { apply copy_cells_ok; [exact Hlr|lia|lia|lia|exact Hi]. }
  intros [] m' (Hi' & Hr' & Hl'). by apply wp_ret.
Qed.

Lemma gathered_nil s o m : Inv m → gathered s o m [] [].
Proof. intros Hi. split; try done. simpl. lia. Qed.

Lemma choose_step_ok s l m vals :
  tunables_ok l → is_s32 (st_arg1 s) →
  rl_o l = 0 ∧ rl_w l = rm ∨ rl_o l = rm ∧ rl_w l = 0 →
  Inv m → 3 * rm <= Z.of_nat (length (ms_mem m)) →
  region (ms_mem m) (rl_w l) vals → rl_wsize l = Z.of_nat (length vals) → vals ≠ [] →
  Z.of_nat (length vals) <= rm → Forall is_bucket vals →
  wp (choose_step fuel weight weight_max x rm s l) m (λ l' m', ∃ vals',
    l' = set_rl_w (rl_o l) (Z.of_nat (length vals')) (rl_w l) l ∧ Inv m' ∧
    length (ms_mem m') = length (ms_mem m) ∧ region (ms_mem m') (rl_o l) vals' ∧
    Z.of_nat (length vals') <= rm ∧ Forall valid vals' ∧
    (is_firstn (st_op s) = true → is_leaf (st_op s) = false → Forall (Good (st_arg2 s)) vals')).
Proof.
  intros Ht Ha Hwo Hi Hlen Hr Hws Hne Hmax Hb. unfold choose_step. rewrite Hws.
  rewrite (proj2 (Z.eqb_neq _ 0)) by (destruct vals; [done|simpl; lia]). rewrite Nat2Z.id.
  eapply wp_bind_mono.
  { eapply (choose_all_ok s l vals (length vals) 0 m [] []); try done. by apply gathered_nil. }
  intros os m' (acc & lacc & -> & Hg & Hl). eapply wp_mono.
  { apply (choose_finish_ok s l m' acc lacc); [lia|lia|done]. }
  intros l' m'' (-> & Hi' & Hl' & Hr'). exists (outcome s acc lacc). destruct Hg as [_ Hsz _ Hlf Hok].
  split; [done|]. split; [done|]. split; [congruence|]. split; [done|]. unfold outcome.
  destruct (is_leaf (st_op s)).
  - destruct (Hlf eq_refl) as (_ & -> & ?). done.
  - split; [done|]. split; [eapply Forall_impl; [done|]; by intros v []|].
    intros Ef _. eapply Forall_impl; [done|]. intros v [_ ?]. auto.
Qed.

(** A choose step on a single bucket. *)
Lemma choose_single_ok s l m root :
  tunables_ok l → is_s32 (st_arg1 s) →
  rl_o l = 0 ∧ rl_w l = rm ∨ rl_o l = rm ∧ rl_w l = 0 →
  Inv m → 3 * rm <= Z.of_nat (length (ms_mem m)) →
  region (ms_mem m) (rl_w l) [root] → rl_wsize l = 1 → is_bucket root →
  wp (choose_step fuel weight weight_max x rm s l) m (λ l' m', ∃ new newl,
    picked s new newl ∧
    l' = set_rl_w (rl_o l) (Z.of_nat (length (outcome s new newl))) (rl_w l) l ∧ Inv m' ∧
    length (ms_mem m') = length (ms_mem m) ∧ region (ms_mem m') (rl_o l) (outcome s new newl) ∧
    Z.of_nat (length new) <= rm ∧ (is_leaf (st_op s) = true → length newl = length new) ∧
    (is_firstn (st_op s) = false → Z.of_nat (length new) = Z.max 0 (Z.min (numrep_of s) rm))).
Proof.
  intros Ht Ha Hwo Hi Hlen Hr Hws [Hneg Hs]. unfold choose_step. rewrite Hws.
  change (Z.to_nat 1) with 1%nat. cbn [choose_all Z.eqb].
  eapply (wp_bind_mono _ _ _ (λ os m', ∃ new newl, os = Z.of_nat (length new) ∧ picked s new newl ∧
    (is_firstn (st_op s) = false → Z.of_nat (length new) = Z.max 0 (Z.min (numrep_of s) rm)) ∧
    gathered s (rl_o l) m' new newl ∧ length (ms_mem m') = length (ms_mem m))).
  { eapply wp_bind_mono; [eapply (choose_one_ok s l 0 0 root m); try done; try lia|].
    { unfold load. by rewrite (region_rd _ _ [root] 0 root Hr) by (done || lia). }
    intros os m' Hpost. apply wp_ret.
    destruct (gathered_more s (rl_o l) m m' [] [] os) as (new & newl & -> & Hp & Hex & Hg);
      [lia|lia|by apply gathered_nil|done|]. exists new, newl.
    destruct Hpost as (? & ? & _ & _ & _ & _ & _ & _ & _ & [Hl _]). rewrite Z.sub_0_r in Hex. done. }
  intros os m' (new & newl & -> & Hp & Hex & Hg & Hl). eapply wp_mono.
  { apply (choose_finish_ok s l m' new newl); [lia|lia|done]. }
  intros l' m'' (-> & Hi' & Hl' & Hr'). exists new, newl. destruct Hg as [_ Hsz _ Hlf _].
  split; [done|]. split; [done|]. split; [done|]. split; [congruence|]. split; [done|].
  split; [done|]. split; [|done]. intros El. by destruct (Hlf El) as (_ & ? & _).
Qed.

Lemma running_choose k l m vals out s k' :
  running k l m vals out → is_s32 (st_arg1 s) →
  match k with
  | WEmpty => Some WEmpty
  | WBuckets => if is_firstn (st_op s) && negb (is_leaf (st_op s)) && negb (st_arg2 s =? 0)
                then Some WBuckets else Some WAny
  | WAny => None
  end = Some k' →
  wp (choose_step fuel weight weight_max x rm s l) m (λ l' m', ∃ vals', running k' l' m' vals' out).
Proof.
  intros Hrun Ha Hk. pose proof Hrun as [Hi Hlen Hwo Ht Hw Hws Hmax Hv Hkind Ho Hol Hom Hor Hov].
  destruct (decide (vals = [])) as [->|Hne].
  { unfold choose_step. rewrite Hws. apply wp_ret. exists []. split; try done.
    destruct k; simplify_eq; try done; repeat case_match; simplify_eq; done. }
  destruct k; [by destruct Hne| |done].
  eapply wp_mono; [by eapply choose_step_ok|].
  intros l' m' (vals' & -> & Hi' & Hl' & Hr' & Hmax' & Hv' & Hg). exists vals'.
  split; simpl; try done; [lia|lia|by destruct Ht|].
  destruct (is_firstn (st_op s) && negb (is_leaf (st_op s)) && negb (st_arg2 s =? 0)) eqn:E;
    injection Hk as <-; [|done]. simpl.
  apply andb_prop in E as [[Ef El]%andb_prop Et]. apply negb_true_iff in El, Et.
  apply Z.eqb_neq in Et. eapply Forall_impl; [by apply Hg|]. intros v Hgv. by eapply good_bucket.
Qed.

Lemma step_within_s32 s : step_within lm s = true → is_s32 (st_arg1 s).
Proof.
  unfold step_within, is_s32. intros [[?%Z.leb_le ?%Z.ltb_lt]%andb_prop _]%andb_prop. lia.
Qed.

Lemma running_tunables k l m vals out t lt lr fr vr :
  running k l m vals out → 0 <= t <= lm_tries lm → 0 <= lt <= lm_tries lm →
  0 <= lr <= lm_local lm → 0 <= fr <= lm_fallback lm → 0 <= vr <= 32 →
  running k (set_rl_tunables t lt lr fr vr l) m vals out.
Proof. intros [] ? ? ? ? ?. by split. Qed.

Lemma running_take k l m vals out v :
  running k l m vals out → item_ok sh D v →
  wp (_ ← store (rl_w l) v; mret (set_rl_w (rl_w l) 1 (rl_o l) l)) m
     (λ l' m', running (if bucket_item sh v then WBuckets else WAny) l' m' [v] out).
Proof.
  intros [Hi Hlen Hwo Ht Hw Hws Hmax Hv Hkind Ho Hol Hom Hor Hov] Hok.
  apply wp_bind, wp_store; [lia|]. apply wp_ret. split; simpl; try done.
  - by rewrite length_insert.
  - by destruct Ht.
  - intros i y Hy. apply list_lookup_singleton_Some in Hy as [-> <-].
    rewrite Z.add_0_r. apply list_lookup_insert_eq. lia.
  - lia.
  - constructor; [by right|constructor].
  - destruct (bucket_item sh v) eqn:E; [|done]. apply bucket_item_spec in E.
    constructor; [done|constructor].
Qed.

Lemma running_emit k l m vals out :
  running k l m vals out →
  wp ('(result, len) ← emit_loop rm (rl_w l) (Z.to_nat (rl_wsize l)) 0 (rl_result l) (rl_result_len l);
      mret (set_rl_result result len l)) m
     (λ l' m', m' = m ∧ ∃ n, running WEmpty l' m' [] (out ++ take n vals) ∧
        (n = length vals ∨ Z.of_nat (length (out ++ take n vals)) = rm)).
Proof.
  intros [Hi Hlen Hwo Ht Hw Hws Hmax Hv Hkind Ho Hol Hom Hor Hov]. rewrite Hws, Hol, Nat2Z.id.
  destruct (emit_loop_ok (rl_w l) vals (length vals) 0 (rl_result l) out m)
    as (r' & n & E & H1 & H2 & H3 & H4); [done|lia|done|done|done|done|].
  rewrite drop_0 in *. apply (wp_bind_eq _ _ _ _ _ _ E). apply wp_ret. split; [done|]. exists n.
  split; [|done]. split; simpl; try done; [by destruct Ht|lia|lia|].
  apply Forall_app. split; [done|]. by apply Forall_take.
Qed.

Lemma rule_step_ok s k k' l m vals out :
  running k l m vals out → step_within lm s = true → step_kind sh D k s = Some k' →
  wp (rule_step fuel weight weight_max x rm s l) m (λ l' m', ∃ vals' out', running k' l' m' vals' out').
Proof.
  intros Hrun Hw Hk. pose proof (step_within_s32 s Hw) as Ha.
  pose proof (rn_tun _ _ _ _ _ Hrun) as [T1 T2 T3 T4 T5].
  assert (∀ l', k' = k → running k l' m vals out →
    wp (mret l') m (λ l' m', ∃ vals' out', running k' l' m' vals' out')) as Hset.
  { intros l' -> H. apply wp_ret. by exists vals, out. }
  pose proof (running_choose k l m vals out s k' Hrun Ha) as Hch.
  assert (∀ P, wp P m (λ l' m', ∃ vals', running k' l' m' vals' out) →
               wp P m (λ l' m', ∃ vals' out', running k' l' m' vals' out')) as Hex.
  { intros P HP. eapply wp_mono; [exact HP|]. intros l' m' [vals' ?]. by exists vals', out. }
  unfold rule_step, step_kind, step_within in *. apply andb_prop in Hw as [_ Hw].
  destruct (st_op s).
  2-3, 5-6: by apply Hex, Hch.
  all: try (clear Hch; apply Hset; [by injection Hk|]; first [done|case_match eqn:Ec; [|done]];
            apply Z.leb_le in Hw; first [apply Z.ltb_lt in Ec|apply Z.leb_le in Ec];
            apply running_tunables; try done; lia).
  - apply Hex. destruct (bucket_item sh (st_arg1 s)) eqn:Eb.
    + injection Hk as <-. eapply wp_mono; [eapply running_take; [done|]|].
      { apply valid_item_ok. unfold valid_item. by rewrite Eb. }
      rewrite Eb. eauto.
    + destruct (valid_item sh D (st_arg1 s)) eqn:Ev; [|done]. injection Hk as <-.
      eapply wp_mono; [eapply running_take; [done|by apply valid_item_ok]|]. rewrite Eb. eauto.
  - injection Hk as <-. eapply wp_mono; [by eapply running_emit|].
    intros l' m' (_ & n & H & _). eauto.
Qed.

Lemma rule_steps_ok (steps : list (option crush_rule_step)) (sts : list crush_rule_step) n :
  ∀ i k l m vals out,
  steps = Some <$> sts → running k l m vals out → (i + n = length sts)%nat →
  rule_typed sh D lm k (drop i sts) = true →
  wp (rule_steps fuel weight weight_max x rm steps n (Z.of_nat i) l) m
     (λ l' m', ∃ k' vals' out', running k' l' m' vals' out').
Proof.
  induction n as [|n IH]; intros i k l m vals out -> Hrun Hin Hty; cbn [rule_steps].
  { apply wp_ret. eauto. }
  destruct (lookup_lt_is_Some_2 sts i) as [s Hs]; [lia|].
  apply (wp_bind_eq _ _ _ (Some s) m).
  { unfold rdp. by rewrite (proj2 (Z.ltb_ge _ 0)), Nat2Z.id, list_lookup_fmap, Hs by lia. }
  apply (wp_bind_eq _ _ _ s m); [done|].
  rewrite (drop_S _ s) in Hty by done. cbn [rule_typed] in Hty. apply andb_prop in Hty as [Hw Hty].
  destruct (step_kind sh D k s) as [k'|] eqn:Ek; [|done].
  eapply wp_bind_mono; [by eapply rule_step_ok|]. intros l' m' (vals' & out' & Hrun').
  replace (Z.of_nat i + 1) with (Z.of_nat (S i)) by lia. eapply IH; try done. lia.
Qed.
End rule_proof.

(** ** A small cluster

    Three hosts of two devices under one root, one bucket of each of three
    algorithms, with the two common replication rules.  The theorems about the
    mapper are instantiated on it. *)

Definition sample_header (id type : Z) (items : list Z) : crush_bucket :=
  CrushBucket id type CRUSH_HASH_RJENKINS1 0 (Z.of_nat (length items)) (cells items) 0 0
    (fresh_block (Z.of_nat (length items))).

Definition sample_shape : list (option bshape) :=
  [Some (2, [-2; -3; -4]); Some (1, [0; 1]); Some (1, [2; 3]); Some (1, [4; 5])].

Definition sample_rank (p : nat) : nat := match p with O => 1 | _ => 0 end.

Definition sample_steps (op : rule_op) : list crush_rule_step :=
  [CrushRuleStep CRUSH_RULE_TAKE (-1) 0; CrushRuleStep op 0 1; CrushRuleStep CRUSH_RULE_EMIT 0 0].

Definition sample_rule (op : rule_op) : crush_rule :=
  CrushRule 3 (CrushRuleMask 0 1 1 10) (Some <$> sample_steps op).

Definition sample_map : crush_map :=
  CrushMap
    [Some (BStraw2 (CrushBucketStraw2 (sample_header (-1) 2 [-2; -3; -4])
       (cells [131072; 131072; 131072])));
     Some (BStraw2 (CrushBucketStraw2 (sample_header (-2) 1 [0; 1]) (cells [65536; 65536])));
     Some (BUniform (CrushBucketUniform (sample_header (-3) 1 [2; 3]) 65536));
     Some (BList (CrushBucketList (sample_header (-4) 1 [4; 5]) (cells [65536; 65536])
       (cells [65536; 131072])))]
    [Some (sample_rule CRUSH_RULE_CHOOSELEAF_FIRSTN); Some (sample_rule CRUSH_RULE_CHOOSELEAF_INDEP);
     Some (sample_rule CRUSH_RULE_CHOOSE_FIRSTN)]
    4 3 6 0 0 50 1 1 1 54 None.

(** Device 1 is out, the others are in. *)
Definition sample_weight : list Z := [65536; 0; 65536; 65536; 65536; 65536].

Lemma shape_at_sample p ty l :
  shape_at sample_shape p = Some (ty, l) →
  (p = 0%nat ∧ ty = 2 ∧ l = [-2; -3; -4]) ∨
  (p ≠ 0%nat ∧ ty = 1 ∧ (l = [0; 1] ∨ l = [2; 3] ∨ l = [4; 5])).
Proof.
  unfold shape_at. do 4 (destruct p as [|p]; [simpl; intros [= <- <-]; auto 7|]).
  by rewrite lookup_ge_None_2 by (simpl; lia).
Qed.

Lemma sample_shape_wf : shape_wf sample_shape 6 sample_rank.
Proof.
  split.
  - unfold CRUSH_ITEM_UNDEF. lia.
  - done.
  - intros p ty l [(_ & -> & _)|(_ & -> & _)]%shape_at_sample; lia.
  - intros p ty l item [(_ & _ & ->)|(_ & _ & [->|[->| ->]])]%shape_at_sample Hin;
      repeat (apply elem_of_cons in Hin as [->|Hin]); try by apply elem_of_nil in Hin.
    1-3: right; split; [lia|by eexists].
    all: left; lia.
  - intros p ty l item [(-> & _ & ->)|(_ & _ & [->|[->| ->]])]%shape_at_sample Hin Hneg;
      repeat (apply elem_of_cons in Hin as [->|Hin]); try by apply elem_of_nil in Hin.
    all: simpl; lia.
Qed.

Lemma sample_hdr_wf id type l : (2 <= length l <= 3)%nat → hdr_wf (sample_header id type l) l.
Proof.
  intros Hl. split; [apply holds_cells|]. split; [done|]. split; [lia|]. right.
  split; simpl; [lia|]. split; [rewrite length_fresh_block; lia|by left].
Qed.

Lemma sample_slot_ok ty l b :
  b_type (bucket_h b) = ty → hdr_wf (bucket_h b) l → alg_wf b l → slot_ok (Some (ty, l)) (Some b).
Proof. done. Qed.

Lemma sample_map_ok : map_ok sample_shape 6 (statics_of sample_map) sample_map.
Proof.
  split; try done. unfold sample_shape, sample_map. cbn [m_buckets].
  repeat first [apply Forall2_cons; split| apply sample_slot_ok; [done|apply sample_hdr_wf; simpl; lia|]].
  5: constructor.
  - exists [131072; 131072; 131072]. repeat split; try apply holds_cells.
    repeat (constructor; [done|]). constructor.
  - exists [65536; 65536]. repeat split; try apply holds_cells.
    repeat (constructor; [done|]). constructor.
  - done.
  - exists [65536; 65536], [65536; 131072]. repeat split; try apply holds_cells.
    repeat (constructor; [done|]). constructor.
Qed.
