(* ===== verification/ChooseProps.v ===== *)
(** * What the bucket algorithms guarantee

    The properties CRUSH promises of each bucket type: the permutation cache is
    invisible, a straw2 or list bucket moves only the data it has to when an
    item is added, removed or reweighted, and no algorithm with exact weights
    picks an item of weight 0. *)

From S2P Require Import Prelude Hash CrushTypes Ln Nodes Choose ChoosePerm ChooseSpec.
From S2P Require Import RuleSpec.

(** ** Uniform buckets: the permutation cache *)

(** Calls for a list of replica numbers, the bucket's cache carried along. *)
Fixpoint perm_run (h : crush_bucket) (x : Z) (rs : list Z) : res (list Z * crush_bucket) :=
  match rs with
  | [] => Ok ([], h)
  | r :: rs =>
      '(item, h) ← bucket_perm_choose h x r;
      '(items, h) ← perm_run h x rs;
      Ok (item :: items, h)
  end.

(** The item at position [r] of the full shuffle. *)
Definition visits (l : list Z) (hash id size x r item : Z) : Prop :=
  ∃ s : Z, shuffled hash id size x !! Z.to_nat (u32 r mod size) = Some s ∧
           l !! Z.to_nat s = Some item.

Lemma visits_unique l hash id size x r i j :
  visits l hash id size x r i → visits l hash id size x r j → i = j.
Proof. intros (s & H1 & H2) (t & H3 & H4). congruence. Qed.

Lemma perm_run_visits l x rs : ∀ h,
  perm_wf h → holds (b_items h) l → Z.of_nat (length l) = b_size h →
  ∃ items h', perm_run h x rs = Ok (items, h') ∧
    Forall2 (visits l (b_hash h) (b_id h) (b_size h) x) rs items.
Proof.
  induction rs as [|r rs IH]; intros h Hp Hl Hs; simpl; [by eexists _, _|].
  pose proof (bucket_perm_choose_ok h l x r Hp Hl Hs) as H.
  apply rwp_ok in H as ([item h1] & -> & Hv & Hp1 & (Eid & _ & Eh & _ & Es & Ei)).
  simpl in *. destruct (IH h1) as (items & h' & -> & Hm); [done|by rewrite Ei|by rewrite Es|].
  rewrite Eid, Eh, Es in Hm. exists (item :: items), h'. split; [done|]. by constructor.
Qed.

Lemma nth_seqZ_id (l : list Z) : (λ s, nth (Z.to_nat s) l 0) <$> seqZ 0 (Z.of_nat (length l)) = l.
Proof.
  apply list_eq. intros i. rewrite list_lookup_fmap. destruct (l !! i) as [v|] eqn:E.
  - pose proof (lookup_lt_Some _ _ _ E).
    rewrite (proj2 (lookup_seqZ _ _ _ (Z.of_nat i))) by lia.
    change (Some (nth (Z.to_nat (Z.of_nat i)) l 0) = Some v). rewrite Nat2Z.id.
    by rewrite (nth_lookup_Some _ _ 0 _ E).
  - apply lookup_ge_None in E. rewrite (lookup_ge_None_2 (seqZ _ _)); [done|]. rewrite length_seqZ. lia.
Qed.

Lemma visits_permutation l hash id x items :
  (1 <= length l)%nat → Z.of_nat (length l) < 65535 →
  Forall2 (visits l hash id (Z.of_nat (length l)) x) (seqZ 0 (Z.of_nat (length l))) items →
  items ≡ₚ l.
Proof.
  intros Hl Hb Hf. set (sz := Z.of_nat (length l)) in *.
  assert (items = (λ s, nth (Z.to_nat s) l 0) <$> shuffled hash id sz x) as ->.
  { pose proof (Forall2_length _ _ _ Hf) as Hlen. rewrite length_seqZ in Hlen.
    apply list_eq_same_length with (length l).
    - rewrite length_fmap. unfold shuffled. rewrite length_fy. lia.
    - lia.
    - intros q i j Hq Hi Hj.
      destruct (Forall2_lookup_r _ _ _ _ _ Hf Hi) as (r & Hr & s & Hs & His).
      apply lookup_seqZ in Hr as [-> _].
      rewrite u32_small, Z.mod_small in Hs by (unfold is_u32; lia).
      rewrite Z.add_0_l, Nat2Z.id in Hs. rewrite list_lookup_fmap, Hs in Hj. simpl in Hj.
      rewrite (nth_lookup_Some _ _ 0 _ His) in Hj. congruence. }
  transitivity ((λ s, nth (Z.to_nat s) l 0) <$> seqZ 0 sz).
  - apply fmap_Permutation. apply fy_Permutation.
  - unfold sz. by rewrite nth_seqZ_id.
Qed.

(** C18: The permutation cache is invisible: whatever earlier calls left in it,
    two headers that differ in their caches only choose the same item, the call
    returns, and the cache stays valid. *)
Theorem perm_choose_cache_free h h' l x r :
  perm_wf h → perm_wf h' → same_static h h' → holds (b_items h) l →
  Z.of_nat (length l) = b_size h →
  ∃ item h1 h1', bucket_perm_choose h x r = Ok (item, h1) ∧
    bucket_perm_choose h' x r = Ok (item, h1') ∧ item ∈ l ∧
    perm_wf h1 ∧ perm_wf h1' ∧ same_static h h1 ∧ same_static h' h1'.
Proof.
  intros Hp Hp' Hst Hl Hs. pose proof Hst as (Eid & _ & Eh & _ & Es & Ei).
  pose proof (bucket_perm_choose_ok h l x r Hp Hl Hs) as H.
  apply rwp_ok in H as ([item h1] & E1 & Hv & Hp1 & Hst1).
  pose proof (bucket_perm_choose_ok h' l x r Hp' ltac:(by rewrite Ei) ltac:(by rewrite Es)) as H.
  apply rwp_ok in H as ([item' h1'] & E1' & Hv' & Hp1' & Hst1').
  cbn [fst snd] in *. rewrite Eid, Eh, Es in Hv'.
  pose proof (visits_unique _ _ _ _ _ _ _ _ Hv Hv') as <-.
  exists item, h1, h1'. repeat (split; [done|]). split; [|done].
  destruct Hv as (s & _ & Hs'). by eapply list_elem_of_lookup_2.
Qed.

(** A uniform bucket asked for replicas [0 .. size-1] of one input returns
    every item of the bucket exactly once. *)
Theorem perm_choose_permutes h l x :
  perm_wf h → holds (b_items h) l → Z.of_nat (length l) = b_size h →
  ∃ items h', perm_run h x (seqZ 0 (b_size h)) = Ok (items, h') ∧ items ≡ₚ l.
Proof.
  intros Hp Hl Hs. pose proof Hp as ([Hs1 Hs2] & _).
  destruct (perm_run_visits l x (seqZ 0 (b_size h)) h Hp Hl Hs) as (items & h' & E & Hf).
  exists items, h'. split; [done|]. rewrite <- Hs in Hf.
  eapply visits_permutation; [lia|lia|exact Hf].
Qed.

(** ** Straw2 buckets *)

(** C19: A straw2 bucket returns the item with the greatest draw (the first of
    them), and an item of positive weight whenever the bucket has one. *)
Theorem straw2_choose_spec b l ws x r :
  straw2_wf b l ws → l ≠ [] →
  ∃ k item w, bucket_straw2_choose b x r = Ok item ∧ l !! k = Some item ∧ ws !! k = Some w ∧
    first_max (s2_draws (b_hash (s2_h b)) x r l ws) k ∧ (Exists (λ w, 0 < w) ws → 0 < w).
Proof.
  intros Hb Hne. pose proof Hb as (_ & _ & _ & Hlen & Hu).
  destruct (bucket_straw2_choose_ok b l ws x r Hb Hne) as (k & item & E & Hk & Hf).
  destruct (lookup_lt_is_Some_2 ws k) as [w Hw]; [apply lookup_lt_Some in Hk; lia|].
  exists k, item, w. repeat (split; [done|]). intros Hex.
  destruct (first_max_s2_positive _ _ _ _ _ _ Hu Hf Hlen Hex) as (w' & Hw' & ?). congruence.
Qed.

Lemma straw2_pick b l ws x r item :
  straw2_wf b l ws → l ≠ [] → bucket_straw2_choose b x r = Ok item →
  ∃ k, l !! k = Some item ∧ first_max (s2_draws (b_hash (s2_h b)) x r l ws) k.
Proof.
  intros Hb Hne E. destruct (bucket_straw2_choose_ok b l ws x r Hb Hne) as (k & i & E' & Hk & Hf).
  exists k. split; [congruence|done].
Qed.

Lemma s2_draws_insert hash x r l ws j item w' :
  l !! j = Some item → length ws = length l →
  s2_draws hash x r l (<[j := w']> ws) = <[j := s2_draw hash x r item w']> (s2_draws hash x r l ws).
Proof.
  intros Hj Hlen. pose proof (lookup_lt_Some _ _ _ Hj).
  apply list_eq_same_length with (length l).
  - by rewrite length_insert, length_s2_draws.
  - by rewrite length_s2_draws by (by rewrite length_insert).
  - intros i a b Hi Ha Hb. apply s2_draws_lookup in Ha as (it & w & -> & Hit & Hw).
    destruct (decide (i = j)) as [->|Hne].
    + rewrite list_lookup_insert_eq in Hw by lia.
      rewrite list_lookup_insert_eq in Hb by (rewrite length_s2_draws; lia). congruence.
    + rewrite list_lookup_insert_ne in Hw, Hb by done.
      apply s2_draws_lookup in Hb as (it' & w2 & -> & ? & ?). congruence.
Qed.

(** Raising the weight of one item of a straw2 bucket moves inputs only to
    that item: every input keeps its item or gets the reweighted one. *)
Theorem straw2_raise_moves_only_to_item b b' l ws x r j it w w' item item' :
  straw2_wf b l ws → straw2_wf b' l (<[j := w']> ws) → b_hash (s2_h b') = b_hash (s2_h b) →
  l !! j = Some it → ws !! j = Some w → w <= w' →
  bucket_straw2_choose b x r = Ok item → bucket_straw2_choose b' x r = Ok item' →
  item' = item ∨ item' = it.
Proof.
  intros Hb Hb' Hh Hj Hw Hle E E'. assert (l ≠ []) as Hne by (by intros ->).
  pose proof Hb as (_ & _ & _ & Hlen & Hu).
  destruct (straw2_pick _ _ _ _ _ _ Hb Hne E) as (k & Hk & Hf).
  destruct (straw2_pick _ _ _ _ _ _ Hb' Hne E') as (k' & Hk' & Hf').
  rewrite Hh, (s2_draws_insert _ _ _ _ _ _ it) in Hf' by done.
  assert (0 <= w) by (rewrite Forall_lookup in Hu; apply Hu in Hw; unfold is_u32 in Hw; lia).
  destruct (first_max_raise _ k k' j (s2_draw (b_hash (s2_h b)) x r it w)
    (s2_draw (b_hash (s2_h b)) x r it w') Hf) as [->| ->]; try done.
  - apply s2_draws_lookup. by eexists _, _.
  - by apply s2_draw_mono.
  - left. congruence.
  - right. congruence.
Qed.

Lemma s2_draws_delete hash x r l ws j :
  length ws = length l →
  s2_draws hash x r (delete j l) (delete j ws) = delete j (s2_draws hash x r l ws).
Proof.
  intros Hlen. unfold s2_draws. revert j ws Hlen.
  induction l as [|i l IH]; intros j [|w ws] Hlen; simplify_eq/=; [by destruct j|].
  destruct j as [|j]; [done|]. simpl. f_equal. by apply IH.
Qed.

(** Removing an item from a straw2 bucket moves only the inputs that were
    on it: an input mapped to another item stays where it was. *)
Theorem straw2_remove_moves_only_its_inputs b b' l ws x r j it item item' :
  straw2_wf b l ws → straw2_wf b' (delete j l) (delete j ws) →
  b_hash (s2_h b') = b_hash (s2_h b) → l !! j = Some it → NoDup l → delete j l ≠ [] →
  bucket_straw2_choose b x r = Ok item → item ≠ it →
  bucket_straw2_choose b' x r = Ok item' → item' = item.
Proof.
  intros Hb Hb' Hh Hj Hnd Hne' E Hit E'. assert (l ≠ []) as Hne by (by intros ->).
  pose proof Hb as (_ & _ & _ & Hlen & _).
  destruct (straw2_pick _ _ _ _ _ _ Hb Hne E) as (k & Hk & Hf).
  destruct (straw2_pick _ _ _ _ _ _ Hb' Hne' E') as (k' & Hk' & Hf').
  assert (j ≠ k) as Hjk by (intros ->; congruence).
  rewrite Hh, s2_draws_delete in Hf' by done.
  pose proof (first_max_delete _ _ _ Hf Hjk) as Hf2.
  rewrite (first_max_unique _ _ _ Hf' Hf2) in Hk'. revert Hk'.
  destruct (Nat.ltb_spec j k).
  - rewrite list_lookup_delete_ge by lia. replace (S (k - 1)) with k by lia. congruence.
  - rewrite list_lookup_delete_lt by lia. congruence.
Qed.

(** ** List buckets *)

Lemma list_pick_app hash id x r l l' ws ws' ss ss' n :
  (n <= length l)%nat → length ws = length l → length ss = length l →
  list_pick hash id x r (l ++ l') (ws ++ ws') (ss ++ ss') n = list_pick hash id x r l ws ss n.
Proof.
  intros Hn Hw Hs. induction n as [|n IH]; [done|]. cbn [list_pick].
  rewrite !lookup_app_l by lia. repeat case_match; try done. apply IH. lia.
Qed.

(** Appending an item to a list bucket moves inputs only to the new item:
    every input keeps its item or gets the appended one. *)
Theorem list_append_moves_only_to_item b b' l ws ss it w sw x r item item' :
  list_wf b l ws ss → list_wf b' (l ++ [it]) (ws ++ [w]) (ss ++ [sw]) → l ≠ [] →
  b_hash (lb_h b') = b_hash (lb_h b) → b_id (lb_h b') = b_id (lb_h b) →
  bucket_list_choose b x r = Ok item → bucket_list_choose b' x r = Ok item' →
  item' = item ∨ item' = it.
Proof.
  intros Hb Hb' Hne Hh Hi E E'. pose proof Hb as (_ & _ & _ & _ & Hlw & Hls & _).
  destruct (bucket_list_choose_ok b l ws ss x r Hb Hne) as (k & i & Ei & Hk & Hp).
  destruct (bucket_list_choose_ok b' _ _ _ x r Hb') as (k' & i' & Ei' & Hk' & Hp'); [by destruct l|].
  rewrite Hh, Hi, length_app, Nat.add_1_r in Hp'. cbn [list_pick] in Hp'.
  rewrite !lookup_app_r, Hlw, Hls, !Nat.sub_diag in Hp' by lia.
  change ([it] !! 0%nat) with (Some it) in Hp'. change ([w] !! 0%nat) with (Some w) in Hp'.
  change ([sw] !! 0%nat) with (Some sw) in Hp'. cbn match in Hp'.
  destruct (list_hit _ _ _ _ _ _ _).
  - injection Hp' as <-. rewrite lookup_app_r, Nat.sub_diag in Hk' by lia. simplify_eq/=. right. congruence.
  - rewrite list_pick_app in Hp' by (lia || done). rewrite Hp in Hp'. injection Hp' as <-.
    left. rewrite lookup_app_l in Hk' by (by eapply lookup_lt_Some). congruence.
Qed.

(** A list bucket whose sums are the prefix sums of its weights never
    returns an item of weight 0 while it has an item of positive weight. *)
Theorem list_choose_positive b l ws x r :
  list_wf b l ws (prefix_sums 0 ws) → Forall (λ w, 0 <= w) ws → 0 < sum_list_Z ws →
  ∃ k item w, bucket_list_choose b x r = Ok item ∧ l !! k = Some item ∧ ws !! k = Some w ∧ 0 < w.
Proof.
  intros Hb Hw Hs. pose proof Hb as (_ & _ & _ & _ & Hlw & _).
  destruct (bucket_list_choose_ok b l ws _ x r Hb) as (k & item & E & Hk & Hp).
  { intros ->. destruct ws; [done|simpl in Hlw; lia]. }
  eapply list_pick_positive in Hp as (w & Hwk & Hpos);
    [|done|lia|done|by rewrite firstn_all2 by lia].
  by exists k, item, w.
Qed.

(** ** Tree buckets *)

(** A walk down a tree bucket of positive total weight ends, after at most
    [depth] steps, in a leaf that holds an item of positive weight. *)
Theorem tree_choose_positive b l nw d x r :
  tree_wf b l nw d → 0 < node_weight nw (d - 1) 0 →
  ∃ k item, bucket_tree_choose b x r = Ok item ∧ l !! k = Some item ∧
            0 < node_weight nw 0 (Z.of_nat k).
Proof. intros Hb Hpos. by apply (bucket_tree_choose_ok b l nw d Hb). Qed.

(** ** All algorithms *)

(** Choosing from a well-formed, non-empty bucket of any algorithm returns
    one of the bucket's items and leaves the bucket well-formed, with the same
    items and type. *)
Theorem bucket_choose_member b l x r :
  bucket_wf b l → l ≠ [] →
  ∃ item b', crush_bucket_choose b x r = Ok (item, b') ∧ item ∈ l ∧ bucket_wf b' l ∧
             b_type (bucket_h b') = b_type (bucket_h b).
Proof.
  intros Hb Hne. pose proof (crush_bucket_choose_ok b l x r Hb Hne) as H.
  apply rwp_ok in H as ([item b'] & E & Hin & Hwf & Hty%bare_type). by exists item, b'.
Qed.

(** ** Instances *)

Definition straw2_of (l ws : list Z) : crush_bucket_straw2 :=
  CrushBucketStraw2 (sample_header (-1) 1 l) (cells ws).
Definition list_of (l ws : list Z) : crush_bucket_list :=
  CrushBucketList (sample_header (-1) 1 l) (cells ws) (cells (prefix_sums 0 ws)).

Lemma straw2_of_wf l ws : length ws = length l → Forall is_u32 ws → straw2_wf (straw2_of l ws) l ws.
Proof. intros. repeat split; try done; apply holds_cells. Qed.

Lemma list_of_wf l ws :
  length ws = length l → Z.of_nat (length l) < 2147483648 → Forall is_u32 (prefix_sums 0 ws) →
  list_wf (list_of l ws) l ws (prefix_sums 0 ws).
Proof. intros. repeat split; try done; try apply holds_cells. by rewrite length_prefix_sums. Qed.

(** A tree bucket of three items, weights 1, 2 and 3. *)
Definition tree_sample : crush_bucket_tree :=
  CrushBucketTree (sample_header (-1) 1 [10; 11; 12]) 8 (cells [0; 1; 3; 2; 6; 3; 3; 0]).

Lemma tree_sample_wf : tree_wf tree_sample [10; 11; 12] [0; 1; 3; 2; 6; 3; 3; 0] 3.
Proof.
  split; try done; try lia; try apply holds_cells.
  - by repeat constructor.
  - split.
    + intros h k [Hh Hk] Hpos. assert (h = 1 ∨ h = 2) as [-> | ->] by lia.
      * assert (k = 0 ∨ k = 1) as [-> | ->] by (unfold node in Hk; lia); reflexivity.
      * assert (k = 0) as -> by (unfold node in Hk; lia). reflexivity.
    + intros k [_ Hk] Hs. simpl in Hs. unfold node in Hk. assert (k = 3) as -> by lia. reflexivity.
Qed.

Lemma perm_choose_cache_free_witness :
  ∃ item h1 h1', bucket_perm_choose (sample_header (-3) 1 [2; 3]) 7 1 = Ok (item, h1) ∧
    bucket_perm_choose (sample_header (-3) 1 [2; 3]) 7 1 = Ok (item, h1') ∧ item ∈ [2; 3] ∧
    perm_wf h1 ∧ perm_wf h1' ∧ same_static (sample_header (-3) 1 [2; 3]) h1 ∧
    same_static (sample_header (-3) 1 [2; 3]) h1'.
Proof.
  destruct (sample_hdr_wf (-3) 1 [2; 3] ltac:(simpl; lia)) as (H1 & _ & _ & [?|H2]); [done|].
  by apply (perm_choose_cache_free _ _ [2; 3] 7 1 H2 H2).
Defined.

Lemma perm_choose_permutes_witness :
  ∃ items h', perm_run (sample_header (-3) 1 [2; 3]) 7 (seqZ 0 2) = Ok (items, h') ∧ items ≡ₚ [2; 3].
Proof.
  destruct (sample_hdr_wf (-3) 1 [2; 3] ltac:(simpl; lia)) as (H1 & _ & _ & [?|H2]); [done|].
  by apply (perm_choose_permutes _ [2; 3] 7 H2 H1).
Defined.

Lemma straw2_choose_spec_witness :
  ∃ k item w, bucket_straw2_choose (straw2_of [4; 5] [0; 65536]) 7 0 = Ok item ∧
    [4; 5] !! k = Some item ∧ [0; 65536] !! k = Some w ∧
    first_max (s2_draws CRUSH_HASH_RJENKINS1 7 0 [4; 5] [0; 65536]) k ∧
    (Exists (λ w, 0 < w) [0; 65536] → 0 < w).
Proof.
  apply (straw2_choose_spec (straw2_of [4; 5] [0; 65536])); [|done].
  apply straw2_of_wf; [done|by repeat constructor].
Defined.

Lemma straw2_raise_moves_only_to_item_witness :
  ∃ item item', bucket_straw2_choose (straw2_of [4; 5] [65536; 65536]) 7 0 = Ok item ∧
    bucket_straw2_choose (straw2_of [4; 5] [65536; 196608]) 7 0 = Ok item' ∧
    (item' = item ∨ item' = 5).
Proof.
  eexists _, _. split; [vm_compute; reflexivity|]. split; [vm_compute; reflexivity|].
  apply (straw2_raise_moves_only_to_item (straw2_of [4; 5] [65536; 65536])
    (straw2_of [4; 5] [65536; 196608]) [4; 5] [65536; 65536] 7 0 1 5 65536 196608);
    try done; try (apply straw2_of_wf; [done|by repeat constructor]); vm_compute; reflexivity.
Defined.

Lemma straw2_remove_moves_only_its_inputs_witness :
  ∃ item item', bucket_straw2_choose (straw2_of [4; 5; 6] [65536; 65536; 65536]) 7 0 = Ok item ∧
    bucket_straw2_choose (straw2_of [4; 5] [65536; 65536]) 7 0 = Ok item' ∧
    item' = item.
Proof.
  eexists _, _. split; [vm_compute; reflexivity|]. split; [vm_compute; reflexivity|].
  apply (straw2_remove_moves_only_its_inputs (straw2_of [4; 5; 6] [65536; 65536; 65536])
    (straw2_of [4; 5] [65536; 65536]) [4; 5; 6] [65536; 65536; 65536] 7 0 2 6);
    try done; try (apply straw2_of_wf; [done|by repeat constructor]);
    try (vm_compute; reflexivity).
  apply (bool_decide_unpack _). reflexivity.
Defined.

Lemma list_append_moves_only_to_item_witness :
  ∃ item item', bucket_list_choose (list_of [4; 5] [65536; 65536]) 7 0 = Ok item ∧
    bucket_list_choose (list_of [4; 5; 6] [65536; 65536; 131072]) 7 0 = Ok item' ∧
    (item' = item ∨ item' = 6).
Proof.
  eexists _, _. split; [vm_compute; reflexivity|]. split; [vm_compute; reflexivity|].
  apply (list_append_moves_only_to_item (list_of [4; 5] [65536; 65536])
    (list_of [4; 5; 6] [65536; 65536; 131072]) [4; 5] [65536; 65536] [65536; 131072]
    6 131072 262144 7 0); try done;
    try (apply list_of_wf; [done|done|by repeat constructor]); vm_compute; reflexivity.
Defined.

Lemma list_choose_positive_witness :
  ∃ k item w, bucket_list_choose (list_of [4; 5] [65536; 0]) 7 0 = Ok item ∧
    [4; 5] !! k = Some item ∧ [65536; 0] !! k = Some w ∧ 0 < w.
Proof.
  apply (list_choose_positive (list_of [4; 5] [65536; 0]));
    [apply list_of_wf; [done|done|by repeat constructor]|by repeat constructor|done].
Defined.

Lemma tree_choose_positive_witness :
  ∃ k item, bucket_tree_choose tree_sample 7 0 = Ok item ∧ [10; 11; 12] !! k = Some item ∧
            0 < node_weight [0; 1; 3; 2; 6; 3; 3; 0] 0 (Z.of_nat k).
Proof. by apply (tree_choose_positive tree_sample _ _ 3 7 0 tree_sample_wf). Defined.

Lemma bucket_choose_member_witness :
  ∃ item b', crush_bucket_choose (BTree tree_sample) 7 0 = Ok (item, b') ∧ item ∈ [10; 11; 12] ∧
             bucket_wf b' [10; 11; 12] ∧ b_type (bucket_h b') = 1.
Proof.
  apply (bucket_choose_member (BTree tree_sample)); [|done].
  split; [apply sample_hdr_wf; simpl; lia|]. right. exists [0; 1; 3; 2; 6; 3; 3; 0], 3.
  split; [apply tree_sample_wf|done].
Defined.
