(* ===== verification/RuleProps.v ===== *)
(** * What crush_do_rule guarantees, and a small cluster it applies to

    The end-to-end statements about the rule interpreter: safety of every
    sensible rule, and the results of the two common replication rules. *)

From S2P Require Import Prelude Hash CrushTypes Ln Nodes Choose ChoosePerm ChooseSpec.
From S2P Require Import Mapper MapWf FirstnSpec IndepSpec RuleSpec.

(** ** Hypotheses of a run *)

(** Fuel and tunable limits: [L] bounds the retries inside one bucket, [R] the
    depth of the hierarchy. *)
Record config_ok (sh : list (option bshape)) (rank : nat → nat) (lm : limits) (L R : Z)
    (fuel : nat) : Prop := {
  cf_L : 0 <= L < 4294967295;
  cf_local : 0 <= lm_local lm <= L;
  cf_fallback : 0 < lm_fallback lm → ∀ p ty l, shape_at sh p = Some (ty, l) →
                  Z.of_nat (length l) + lm_fallback lm <= L;
  cf_rank : ∀ p ty l, shape_at sh p = Some (ty, l) → Z.of_nat (rank p) <= R;
  cf_F : 0 <= lm_fallback lm < 4294967296;
  cf_T : 1 <= lm_tries lm < 2147483648;
  cf_fuel : retry_bound (lm_tries lm) L R <= Z.of_nat fuel;
  cf_wrap : retry_bound (lm_tries lm) L R < 4294967296 }.

(** The map's own tunables are within the limits. *)
Record map_within (lm : limits) (m : crush_map) : Prop := {
  mw_total : 0 <= m_choose_total_tries m < lm_tries lm;
  mw_local : 0 <= m_choose_local_tries m <= lm_local lm;
  mw_fallback : 0 <= m_choose_local_fallback_tries m <= lm_fallback lm;
  mw_small : lm_local lm < 2147483648 ∧ lm_fallback lm < 2147483648;
  mw_vary : 0 <= m_chooseleaf_vary_r m <= 32 }.

(** A rule slot that holds the steps [sts]. *)
Definition rule_at (m : crush_map) (ruleno : Z) (sts : list crush_rule_step) : Prop :=
  ∃ rule, 0 <= ruleno < m_max_rules m ∧ is_u32 ruleno ∧
          m_rules m !! Z.to_nat ruleno = Some (Some rule) ∧
          ru_steps rule = Some <$> sts ∧ ru_len rule = Z.of_nat (length sts).

Section run.
Context (sh : list (option bshape)) (D : Z) (rank : nat → nat) (m : crush_map).
Context (Hsh : shape_wf sh D rank) (Hm : map_ok sh D (statics_of m) m).
Context (weight : list (option Z)) (ws : list Z) (x : Z) (Hweight : holds weight ws).
Context (rm : Z) (Hrm : 1 <= rm < 2147483648).
Context (lm : limits) (L R : Z) (fuel : nat) (Hcf : config_ok sh rank lm L R fuel).
Context (Hmw : map_within lm m).
Context (mem result : list (option Z)) (Hmem : 3 * rm <= Z.of_nat (length mem))
  (Hres : rm <= Z.of_nat (length result)).

Definition start : rlocals :=
  RLocals 0 0 rm result 0 (s32 (m_choose_total_tries m + 1)) 0
    (s32 (m_choose_local_tries m)) (s32 (m_choose_local_fallback_tries m))
    (m_chooseleaf_vary_r m).

Lemma start_running : running sh D (statics_of m) rm lm WEmpty start (MState m mem) [] [].
Proof.
  destruct Hmw as [? ? ? [? ?] ?], Hcf as [? ? ? ? ? ? ? ?]. split; simpl; try done; try lia.
  - split; simpl; rewrite ?s32_small by (unfold is_s32; lia); lia.
  - apply holds_nil.
Qed.

Lemma do_rule_run ruleno sts (Q : list (option Z) * Z → mstate → Prop) :
  rule_at m ruleno sts →
  wp (rule_steps fuel weight (Z.of_nat (length ws)) x rm (Some <$> sts) (length sts) 0 start)
     (MState m mem) (λ l s, Q (rl_result l, rl_result_len l) s) →
  wp (crush_do_rule fuel weight (Z.of_nat (length ws)) x rm ruleno result) (MState m mem) Q.
Proof.
  intros (rule & Hno & Hu & Hr & Hst & Hlen) HQ. unfold crush_do_rule.
  apply (wp_bind_eq _ _ _ m (MState m mem)); [done|]. rewrite (u32_small ruleno) by done.
  rewrite (proj2 (Z.leb_gt _ _)) by lia. apply (wp_bind_eq _ _ _ rule (MState m mem)).
  { unfold rdp. rewrite (proj2 (Z.ltb_ge _ 0)), Hr by lia. done. }
  rewrite Hst, Hlen, Nat2Z.id. eapply wp_bind_mono; [exact HQ|]. intros l s H. by apply wp_ret.
Qed.

(** What every sensible rule delivers. *)
Definition do_rule_post (out : list (option Z) * Z) (s : mstate) : Prop :=
  ∃ vals, holds (fst out) vals ∧ snd out = Z.of_nat (length vals) ∧ snd out <= rm ∧
          Forall (valid sh D) vals ∧ map_ok sh D (statics_of m) (ms_map s).

Lemma do_rule_ok ruleno sts :
  rule_at m ruleno sts → rule_typed sh D lm WEmpty sts = true →
  wp (crush_do_rule fuel weight (Z.of_nat (length ws)) x rm ruleno result) (MState m mem) do_rule_post.
Proof.
  intros Hr Hty. apply (do_rule_run _ sts); [done|]. destruct Hcf as [? ? ? ? ? ? ? ?].
  eapply wp_mono.
  { eapply (rule_steps_ok sh D (statics_of m) rank Hsh weight ws _ x Hweight eq_refl rm Hrm lm L R fuel)
      with (i := 0%nat) (sts := sts); try done; try lia. apply start_running. }
  intros l s (k & vals & out & [? _ _ _ _ _ _ _ _ Ho Hl ? _ ?]). exists out. simpl. rewrite Hl. done.
Qed.

(** The steps of a rule that takes [root], chooses once and emits. *)
Definition simple_rule (root : Z) (op : rule_op) (n type : Z) : list crush_rule_step :=
  [CrushRuleStep CRUSH_RULE_TAKE root 0; CrushRuleStep op n type; CrushRuleStep CRUSH_RULE_EMIT 0 0].

Definition is_choose (op : rule_op) : Prop :=
  op = CRUSH_RULE_CHOOSE_FIRSTN ∨ op = CRUSH_RULE_CHOOSE_INDEP ∨
  op = CRUSH_RULE_CHOOSELEAF_FIRSTN ∨ op = CRUSH_RULE_CHOOSELEAF_INDEP.

(** The result vector is exactly what the choose step picked. *)
Definition simple_post (step : crush_rule_step) (out : list (option Z) * Z) (s : mstate) : Prop :=
  ∃ new newl, picked sh D weight (Z.of_nat (length ws)) x rm step new newl ∧
    holds (fst out) (outcome step new newl) ∧
    snd out = Z.of_nat (length (outcome step new newl)) ∧ snd out <= rm ∧
    (is_leaf (st_op step) = true → length newl = length new) ∧
    (is_firstn (st_op step) = false →
       Z.of_nat (length new) = Z.max 0 (Z.min (numrep_of rm step) rm)).

Lemma simple_rule_ok ruleno root op n type :
  rule_at m ruleno (simple_rule root op n type) → is_choose op → is_s32 n →
  is_bucket sh root →
  wp (crush_do_rule fuel weight (Z.of_nat (length ws)) x rm ruleno result) (MState m mem)
     (simple_post (CrushRuleStep op n type)).
Proof.
  intros Hr Hop Hn Hroot. eapply (do_rule_run _ (simple_rule root op n type)); [done|].
  destruct Hcf as [? ? ? ? ? ? ? ?]. unfold simple_rule. cbn [rule_steps length].
  apply (wp_bind_eq _ _ _ (Some (CrushRuleStep CRUSH_RULE_TAKE root 0)) (MState m mem)); [done|].
  apply (wp_bind_eq _ _ _ (CrushRuleStep CRUSH_RULE_TAKE root 0) (MState m mem)); [done|].
  eapply wp_bind_mono.
  { eapply (running_take sh D (statics_of m) ws rm Hrm lm fuel); [apply start_running|by right]. }
  intros l1 s1 Hrun1. cbn [st_arg1] in Hrun1. rewrite (proj2 (bucket_item_spec sh root)) in Hrun1 by done.
  apply (wp_bind_eq _ _ _ (Some (CrushRuleStep op n type)) s1); [done|].
  apply (wp_bind_eq _ _ _ (CrushRuleStep op n type) s1); [done|].
  pose proof Hrun1 as [Hi1 Hsc1 Hwo1 Ht1 Hw1 Hws1 _ _ _ Ho1 Hl1 _ Hr1 _]. eapply wp_bind_mono.
  { assert (rule_step fuel weight (Z.of_nat (length ws)) x rm (CrushRuleStep op n type) l1
            = choose_step fuel weight (Z.of_nat (length ws)) x rm (CrushRuleStep op n type) l1) as ->.
    { by destruct Hop as [->|[->|[->| ->]]]. }
    eapply (choose_single_ok sh D (statics_of m) rank Hsh weight ws _ x Hweight eq_refl rm Hrm lm L R
      fuel); try done; lia. }
  intros l2 s2 (new & newl & Hp & -> & Hi2 & Hlen2 & Hr2 & Hle2 & Hll & Hex).
  apply (wp_bind_eq _ _ _ (Some (CrushRuleStep CRUSH_RULE_EMIT 0 0)) s2); [done|].
  apply (wp_bind_eq _ _ _ (CrushRuleStep CRUSH_RULE_EMIT 0 0) s2); [done|].
  assert (length (outcome (CrushRuleStep op n type) new newl) = length new) as Hout.
  { unfold outcome. destruct (is_leaf _); auto. }
  assert (running sh D (statics_of m) rm lm WAny
    (set_rl_w (rl_o l1) (Z.of_nat (length (outcome (CrushRuleStep op n type) new newl))) (rl_w l1) l1)
    s2 (outcome (CrushRuleStep op n type) new newl) []) as Hrun2.
  { destruct (picked_valid _ _ _ _ _ _ _ _ _ Hp) as [Hv Hvl].
    split; simpl; try done; try lia; [by destruct Ht1|]. unfold outcome.
    destruct (is_leaf _); [by apply Hvl|]. eapply Forall_impl; [done|]. by intros v []. }
  eapply wp_bind_mono; [by eapply (running_emit sh D (statics_of m) ws rm Hrm lm fuel)|].
  intros l3 s3 (-> & k & Hrun3 & Hk). apply wp_ret. destruct Hrun3 as [_ _ _ _ _ _ _ _ _ Ho3 Hl3 Hm3 _ _].
  simpl in *. exists new, newl. split; [done|].
  assert (take k (outcome (CrushRuleStep op n type) new newl)
          = outcome (CrushRuleStep op n type) new newl) as E.
  { apply take_ge. destruct Hk as [->|Hk]; [lia|]. rewrite length_take in Hk. lia. }
  rewrite E in *. simpl. split; [done|]. split; [done|]. split; [lia|done].
Qed.

(** The devices of a result: within the map, and not marked out for [x]. *)
Definition in_device (d : Z) : Prop :=
  0 <= d < D ∧ is_out weight (Z.of_nat (length ws)) d x = Ok false.

Lemma good_0_device d : good sh D weight (Z.of_nat (length ws)) x 0 d → in_device d.
Proof. intros (Hok & Hty & Hout). split; [by eapply itype_0_device|by apply Hout]. Qed.

(** C1: Safety of the rule interpreter.  On a well-formed map, a rule whose
    choose steps only apply to buckets runs to completion within the stated
    fuel: no access leaves the scratch block or the result vector, no
    indeterminate cell is read, no assertion fails.  It returns at most
    [result_max] items, each of them [CRUSH_ITEM_NONE] or an item of the map,
    and leaves the map well-formed with the same buckets and items. *)
Theorem crush_do_rule_safe ruleno sts :
  rule_at m ruleno sts → rule_typed sh D lm WEmpty sts = true →
  ∃ out s, crush_do_rule fuel weight (Z.of_nat (length ws)) x rm ruleno result (MState m mem)
             = Ok (out, s) ∧ do_rule_post out s.
Proof.
  intros Hr Hty. pose proof (do_rule_ok ruleno sts Hr Hty) as H. unfold wp in H.
  apply rwp_ok in H as ([out s] & E & H). eauto.
Qed.

(** C3: The replication rule [take root; chooseleaf firstn n type; emit]
    returns pairwise distinct devices, each of them in the map and not marked
    out, at most [n] ([n] plus [result_max] when [n <= 0]) and at most
    [result_max] of them. *)
Theorem chooseleaf_firstn_rule ruleno root n type :
  rule_at m ruleno (simple_rule root CRUSH_RULE_CHOOSELEAF_FIRSTN n type) → is_s32 n →
  is_bucket sh root →
  ∃ out s devices,
    crush_do_rule fuel weight (Z.of_nat (length ws)) x rm ruleno result (MState m mem) = Ok (out, s) ∧
    holds (fst out) devices ∧ snd out = Z.of_nat (length devices) ∧
    NoDup devices ∧ Forall in_device devices ∧ snd out <= rm ∧
    snd out <= Z.max 0 (if n <=? 0 then n + rm else n).
Proof.
  intros Hr Hn Hroot.
  pose proof (simple_rule_ok ruleno root CRUSH_RULE_CHOOSELEAF_FIRSTN n type Hr ltac:(red; auto) Hn Hroot) as H.
  apply rwp_ok in H as ([out s] & E & new & newl & [Hle Hp] & Hh & Hl & Hmax & Hll & _).
  exists out, s, newl. simpl in Hp, Hll. destruct Hp as (_ & _ & Hp). destruct (Hp eq_refl) as [Hnd Hg].
  change (holds (fst out) newl) in Hh. change (snd out = Z.of_nat (length newl)) in Hl.
  split; [done|]. split; [done|]. split; [done|]. split; [done|]. split.
  { eapply Forall_impl; [done|]. apply good_0_device. }
  split; [done|]. rewrite Hl, Hll by done. exact Hle.
Qed.

(** The rule [take root; choose firstn n type; emit] returns pairwise
    distinct items of the wanted type that exist in the map; devices among
    them are not marked out. *)
Theorem choose_firstn_rule ruleno root n type :
  rule_at m ruleno (simple_rule root CRUSH_RULE_CHOOSE_FIRSTN n type) → is_s32 n →
  is_bucket sh root →
  ∃ out s items,
    crush_do_rule fuel weight (Z.of_nat (length ws)) x rm ruleno result (MState m mem) = Ok (out, s) ∧
    holds (fst out) items ∧ snd out = Z.of_nat (length items) ∧ snd out <= rm ∧
    NoDup items ∧ Forall (λ i, item_ok sh D i ∧ itype sh i = type ∧ (type = 0 → in_device i)) items.
Proof.
  intros Hr Hn Hroot.
  pose proof (simple_rule_ok ruleno root CRUSH_RULE_CHOOSE_FIRSTN n type Hr ltac:(red; auto) Hn Hroot) as H.
  apply rwp_ok in H as ([out s] & E & new & newl & [Hle Hp] & Hh & Hl & Hmax & _ & _).
  exists out, s, new. simpl in Hp. destruct Hp as (Hnd & Hg & _). 
  change (holds (fst out) new) in Hh. change (snd out = Z.of_nat (length new)) in Hl.
  split; [done|]. split; [done|]. split; [done|]. split; [done|]. split; [done|].
  eapply Forall_impl; [done|]. intros i Hi. split; [apply Hi|]. split; [apply Hi|].
  intros E0. apply good_0_device. by rewrite E0 in Hi.
Qed.

(** C4: The erasure-code rule [take root; chooseleaf indep n type; emit] for a
    bucket type fills exactly [min n result_max] positions, each with
    [CRUSH_ITEM_NONE] or with a device that is not marked out. *)
Theorem chooseleaf_indep_rule ruleno root n type :
  rule_at m ruleno (simple_rule root CRUSH_RULE_CHOOSELEAF_INDEP n type) → is_s32 n →
  is_bucket sh root → type ≠ 0 →
  ∃ out s devices,
    crush_do_rule fuel weight (Z.of_nat (length ws)) x rm ruleno result (MState m mem) = Ok (out, s) ∧
    holds (fst out) devices ∧ snd out = Z.of_nat (length devices) ∧
    snd out = Z.max 0 (Z.min (if n <=? 0 then n + rm else n) rm) ∧
    Forall (λ d, d = CRUSH_ITEM_NONE ∨ in_device d) devices.
Proof.
  intros Hr Hn Hroot Ht.
  pose proof (simple_rule_ok ruleno root CRUSH_RULE_CHOOSELEAF_INDEP n type Hr ltac:(red; auto) Hn Hroot) as H.
  apply rwp_ok in H as ([out s] & E & new & newl & [Hle Hp] & Hh & Hl & Hmax & Hll & Hex).
  exists out, s, newl. simpl in Hp, Hll, Hex. destruct Hp as (_ & _ & _ & Hp). 
  change (holds (fst out) newl) in Hh. change (snd out = Z.of_nat (length newl)) in Hl.
  split; [done|]. split; [done|]. split; [done|]. split.
  { rewrite Hl, Hll, Hex by done. done. }
  apply Forall_lookup. intros i d Hd.
  destruct (Forall2_lookup_r _ _ _ _ _ (Hp eq_refl Ht) Hd) as (v & _ & [[_ ->]|[_ Hg]]);
    [by left|right; by apply good_0_device].
Qed.
End run.

(** ** The sample cluster *)

Definition sample_limits : limits := Limits 51 0 0.

Lemma sample_config : config_ok sample_shape sample_rank sample_limits 0 1 104.
Proof.
  split; simpl; try lia; try done.
  intros [|p] ty l _; simpl; lia.
Qed.

Lemma sample_within : map_within sample_limits sample_map.
Proof. split; simpl; lia. Qed.

Lemma sample_rule_at ruleno op :
  (ruleno = 0 ∧ op = CRUSH_RULE_CHOOSELEAF_FIRSTN) ∨ (ruleno = 1 ∧ op = CRUSH_RULE_CHOOSELEAF_INDEP) ∨
  (ruleno = 2 ∧ op = CRUSH_RULE_CHOOSE_FIRSTN) →
  rule_at sample_map ruleno (simple_rule (-1) op 0 1).
Proof.
  intros [[-> ->]|[[-> ->]|[-> ->]]]; eexists; (split; [simpl; lia|]); (split; [done|]);
    (split; [reflexivity|]); done.
Qed.

Lemma sample_root : is_bucket sample_shape (-1).
Proof. split; [lia|by eexists]. Qed.

Lemma crush_do_rule_safe_witness :
  ∃ out s, crush_do_rule 104 (cells sample_weight) 6 7 3 0 (fresh_block 3)
             (MState sample_map (fresh_block 9)) = Ok (out, s) ∧
           do_rule_post sample_shape 6 sample_map 3 out s.
Proof.
  apply (crush_do_rule_safe sample_shape 6 sample_rank sample_map sample_shape_wf sample_map_ok
    (cells sample_weight) sample_weight 7 (holds_cells _) 3 ltac:(lia) sample_limits 0 1 104
    sample_config sample_within (fresh_block 9) (fresh_block 3) ltac:(simpl; lia) ltac:(simpl; lia)
    0 (simple_rule (-1) CRUSH_RULE_CHOOSELEAF_FIRSTN 0 1)).
  - apply sample_rule_at. auto.
  - reflexivity.
Defined.

Lemma chooseleaf_firstn_rule_witness :
  ∃ out s devices,
    crush_do_rule 104 (cells sample_weight) 6 7 3 0 (fresh_block 3) (MState sample_map (fresh_block 9))
      = Ok (out, s) ∧
    holds (fst out) devices ∧ snd out = Z.of_nat (length devices) ∧ NoDup devices ∧
    Forall (in_device 6 (cells sample_weight) sample_weight 7) devices ∧ snd out <= 3 ∧
    snd out <= Z.max 0 3.
Proof.
  apply (chooseleaf_firstn_rule sample_shape 6 sample_rank sample_map sample_shape_wf sample_map_ok
    (cells sample_weight) sample_weight 7 (holds_cells _) 3 ltac:(lia) sample_limits 0 1 104
    sample_config sample_within (fresh_block 9) (fresh_block 3) ltac:(simpl; lia) ltac:(simpl; lia)
    0 (-1) 0 1); [apply sample_rule_at; auto|done|apply sample_root].
Defined.

Lemma choose_firstn_rule_witness :
  ∃ out s items,
    crush_do_rule 104 (cells sample_weight) 6 7 3 2 (fresh_block 3) (MState sample_map (fresh_block 9))
      = Ok (out, s) ∧
    holds (fst out) items ∧ snd out = Z.of_nat (length items) ∧ snd out <= 3 ∧ NoDup items ∧
    Forall (λ i, item_ok sample_shape 6 i ∧ itype sample_shape i = 1 ∧
                 (1 = 0 → in_device 6 (cells sample_weight) sample_weight 7 i)) items.
Proof.
  apply (choose_firstn_rule sample_shape 6 sample_rank sample_map sample_shape_wf sample_map_ok
    (cells sample_weight) sample_weight 7 (holds_cells _) 3 ltac:(lia) sample_limits 0 1 104
    sample_config sample_within (fresh_block 9) (fresh_block 3) ltac:(simpl; lia) ltac:(simpl; lia)
    2 (-1) 0 1); [apply sample_rule_at; auto|done|apply sample_root].
Defined.

Lemma chooseleaf_indep_rule_witness :
  ∃ out s devices,
    crush_do_rule 104 (cells sample_weight) 6 7 3 1 (fresh_block 3) (MState sample_map (fresh_block 9))
      = Ok (out, s) ∧
    holds (fst out) devices ∧ snd out = Z.of_nat (length devices) ∧
    snd out = Z.max 0 (Z.min (0 + 3) 3) ∧
    Forall (λ d, d = CRUSH_ITEM_NONE ∨ in_device 6 (cells sample_weight) sample_weight 7 d) devices.
Proof.
  apply (chooseleaf_indep_rule sample_shape 6 sample_rank sample_map sample_shape_wf sample_map_ok
    (cells sample_weight) sample_weight 7 (holds_cells _) 3 ltac:(lia) sample_limits 0 1 104
    sample_config sample_within (fresh_block 9) (fresh_block 3) ltac:(simpl; lia) ltac:(simpl; lia)
    1 (-1) 0 1); [apply sample_rule_at; auto|done|apply sample_root|lia].
Defined.
