(* ===== verification/BuilderBase.v ===== *)
(** * Allocation and field access in the builder (src/crush/builder.c)

    The builder allocates and reallocates the blocks of a bucket and returns
    early when that fails.  Whether an allocation succeeds is decided by an
    oracle, a list of booleans consumed one per [malloc] or [realloc]; the empty
    oracle always succeeds.  A field is a block inside a bucket. *)

From Stdlib Require Import SpecFloat.
From S2P Require Import Prelude CrushTypes.

Definition next_alloc (o : list bool) : bool * list bool :=
  match o with [] => (true, []) | b :: o => (b, o) end.

(** Every variant starts with the common header. *)
Class HasHeader (B : Type) := { hdr : B → crush_bucket; set_hdr : crush_bucket → B → B }.

#[export] Instance uniform_header : HasHeader crush_bucket_uniform :=
  {| hdr := ub_h; set_hdr h b := CrushBucketUniform h (ub_item_weight b) |}.
#[export] Instance list_header : HasHeader crush_bucket_list :=
  {| hdr := lb_h; set_hdr h b := CrushBucketList h (lb_item_weights b) (lb_sum_weights b) |}.
#[export] Instance tree_header : HasHeader crush_bucket_tree :=
  {| hdr := tb_h; set_hdr h b := CrushBucketTree h (tb_num_nodes b) (tb_node_weights b) |}.
#[export] Instance straw_header : HasHeader crush_bucket_straw :=
  {| hdr := sb_h; set_hdr h b := CrushBucketStraw h (sb_item_weights b) (sb_straws b) |}.
#[export] Instance straw2_header : HasHeader crush_bucket_straw2 :=
  {| hdr := s2_h; set_hdr h b := CrushBucketStraw2 h (s2_item_weights b) |}.

(** The store of a builder operation: the bucket it works on and the oracle. *)
Definition obj (B : Type) : Type := B * list bool.

Record field (B : Type) := Field { get_f : B → list (option Z); set_f : list (option Z) → B → B }.
Arguments Field {B} _ _.
Arguments get_f {B} _ _.
Arguments set_f {B} _ _ _.

Section fields.
Context {B : Type} {HB : HasHeader B}.

Definition items_f : field B :=
  Field (λ b, b_items (hdr b)) (λ a b, set_hdr (set_b_items a (hdr b)) b).
Definition perm_f : field B :=
  Field (λ b, b_perm (hdr b)) (λ a b, set_hdr (set_b_perm a (hdr b)) b).

Definition update (g : B → B) : M (obj B) unit := modify (λ '(b, o), (g b, o)).
Definition update_h (g : crush_bucket → crush_bucket) : M (obj B) unit :=
  update (λ b, set_hdr (g (hdr b)) b).
Definition ask {A} (g : B → A) : M (obj B) A := gets (λ '(b, o), g b).

Definition rdf (f : field B) (i : Z) : M (obj B) Z := λ '(b, o),
  v ← rd (get_f f b) i; Ok (v, (b, o)).
Definition wrf (f : field B) (i v : Z) : M (obj B) unit := λ '(b, o),
  a ← wr (get_f f b) i v; Ok (tt, (set_f f a b, o)).

(** [f[j] = f[i]]: a copy, whatever the cell holds. *)
Definition copyf (f : field B) (j i : Z) : M (obj B) unit := λ '(b, o),
  c ← rdc (get_f f b) i; a ← wrc (get_f f b) j c; Ok (tt, (set_f f a b, o)).

(** [if ((_realloc = realloc(f, n)) == NULL) return -ENOMEM; else f = _realloc;]
    A size of zero frees the block and gives NULL, as in glibc and MSVCRT; the
    block that the field still points at then has no cells. *)
Definition realloc_f (f : field B) (n : Z) (k : M (obj B) Z) : M (obj B) Z := λ '(b, o),
  if n =? 0 then Ok (- ENOMEM, (set_f f [] b, o)) else
  let '(ok, o) := next_alloc o in
  if (ok : bool) then k (set_f f (resize_block (get_f f b) n) b, o) else Ok (- ENOMEM, (b, o)).

(** Calls an edit on a bucket of the caller's. *)
Definition run_on (m : M (obj B) Z) (b : B) : M (list bool) (Z * B) := λ o,
  '(r, (b, o)) ← m (b, o); Ok ((r, b), o).
End fields.

Definition ub_set_item_weight (w : Z) (b : crush_bucket_uniform) : crush_bucket_uniform :=
  CrushBucketUniform (ub_h b) w.
Definition lb_weights_f : field crush_bucket_list :=
  Field lb_item_weights (λ a b, CrushBucketList (lb_h b) a (lb_sum_weights b)).
Definition lb_sums_f : field crush_bucket_list :=
  Field lb_sum_weights (λ a b, CrushBucketList (lb_h b) (lb_item_weights b) a).
Definition tb_nodes_f : field crush_bucket_tree :=
  Field tb_node_weights (λ a b, CrushBucketTree (tb_h b) (tb_num_nodes b) a).
Definition tb_set_num_nodes (n : Z) (b : crush_bucket_tree) : crush_bucket_tree :=
  CrushBucketTree (tb_h b) n (tb_node_weights b).
Definition sb_weights_f : field crush_bucket_straw :=
  Field sb_item_weights (λ a b, CrushBucketStraw (sb_h b) a (sb_straws b)).
Definition sb_straws_f : field crush_bucket_straw :=
  Field sb_straws (λ a b, CrushBucketStraw (sb_h b) (sb_item_weights b) a).
Definition s2_weights_f : field crush_bucket_straw2 :=
  Field s2_item_weights (λ a b, CrushBucketStraw2 (s2_h b) a).

(** [for (i = lo; i < lo + n; i++) body] over a store. *)
Fixpoint for_s {S} (n : nat) (i : Z) (body : Z → M S unit) : M S unit :=
  match n with
  | O => mret tt
  | S n => _ ← body i; for_s n (i + 1) body
  end.

(** [for (i = 0; i < size; i++) if (items[i] == item) break;]: the final [i]. *)
Fixpoint find_item (a : list (option Z)) (item : Z) (n : nat) (i : Z) : res Z :=
  match n with
  | O => Ok i
  | S n => v ← rd a i; if v =? item then Ok i else find_item a item n (i + 1)
  end.

(** [malloc]: the rest runs with the new block, or NULL is returned at once. *)
Definition malloc_or {A} (n : Z) (k : list (option Z) → M (list bool) (option A)) :
    M (list bool) (option A) := λ o,
  let '(ok, o) := next_alloc o in
  if (ok : bool) && (0 <=? n) then k (fresh_block n) o else Ok (None, o).

(** ** Straw lengths (src/crush/builder.c, crush_calc_straw)

    The lengths are computed in [double]; the arithmetic is IEEE binary64 from
    the Standard Library's [SpecFloat].  [pow] of the C library is a parameter:
    its result is not fixed to the last bit. *)

Definition double : Type := spec_float.

Definition d_of_Z (z : Z) : double := binary_normalize 53 1024 z 0 false.
Definition dadd : double → double → double := SFadd 53 1024.
Definition dsub : double → double → double := SFsub 53 1024.
Definition dmul : double → double → double := SFmul 53 1024.
Definition ddiv : double → double → double := SFdiv 53 1024.
Definition d_one : double := d_of_Z 1.
Definition d_zero : double := S754_zero false.

(** Conversion to [__u32]: truncation to a 64-bit integer, then to 32 bits, as
    gcc compiles it for x86-64.  (C leaves values that do not fit undefined.) *)
Definition u32_of_d (d : double) : Z :=
  match d with
  | S754_finite s m e =>
      let a := Z.shiftl (Z.pos m) e in
      let v := if s then - a else a in
      if (-9223372036854775808 <=? v) && (v <? 9223372036854775808) then u32 v else 0
  | _ => 0
  end.

(** ** The insertion sort of indices by weight *)

(** [for (k = i; k > j; k--) reverse[k] = reverse[k-1];] *)
Fixpoint shift_up (n : nat) (k : Z) (rev : list (option Z)) : res (list (option Z)) :=
  match n with
  | O => Ok rev
  | S n => v ← rd rev (k - 1); rev ← wr rev k v; shift_up n (k - 1) rev
  end.

(** [for (j = 0; j < i; j++) if (...) { ...; break; }], then the test [j == i]. *)
Fixpoint insert_scan (weights : list (option Z)) (i : Z) (n : nat) (j : Z) (rev : list (option Z)) :
    res (list (option Z)) :=
  match n with
  | O => wr rev i i
  | S n =>
      wi ← rd weights i; rj ← rd rev j; wj ← rd weights rj;
      if wi <? wj then rev ← shift_up (Z.to_nat (i - j)) i rev; wr rev j i
      else insert_scan weights i n (j + 1) rev
  end.

Definition sort_reverse (weights : list (option Z)) (size : Z) (rev : list (option Z)) :
    res (list (option Z)) :=
  if size =? 0 then Ok rev else
  rev ← wr rev 0 0;
  for_up (Z.to_nat (size - 1)) 1 (λ i rev, insert_scan weights i (Z.to_nat i) 0 rev) rev.

(** ** The main loop *)

Record straw_vars := StrawVars {
  sv_numleft : Z; sv_straw : double; sv_wbelow : double; sv_lastw : double }.

(** [for (j = i; j < size; j++) if (same weight) numleft--; else break;] *)
Fixpoint drop_same (weights rev : list (option Z)) (n : nat) (i j numleft : Z) : res Z :=
  match n with
  | O => Ok numleft
  | S n =>
      rj ← rd rev j; wj ← rd weights rj; ri ← rd rev i; wi ← rd weights ri;
      if wj =? wi then drop_same weights rev n i (j + 1) (s32 (numleft - 1)) else Ok numleft
  end.

Section calc_straw.
Context (pow : double → double → double) (version : Z).
Context (weights rev : list (option Z)) (size : Z).

Definition weight_at (i : Z) : res Z := ri ← rd rev i; rd weights ri.

(** The adjustment for the next straw, [i] already advanced. *)
Definition next_straw (i : Z) (v : straw_vars) : res straw_vars :=
  w1 ← weight_at (i - 1);
  w ← weight_at i;
  let wbelow := dadd (sv_wbelow v) (dmul (dsub (d_of_Z w1) (sv_lastw v)) (d_of_Z (sv_numleft v))) in
  numleft ← (if version =? 0 then drop_same weights rev (Z.to_nat (size - i)) i i (sv_numleft v)
             else Ok (s32 (sv_numleft v - 1)));
  let wnext := d_of_Z (u32 (numleft * u32 (w - w1))) in
  let pbelow := ddiv wbelow (dadd wbelow wnext) in
  let straw := dmul (sv_straw v) (pow (ddiv d_one pbelow) (ddiv d_one (d_of_Z numleft))) in
  Ok (StrawVars numleft straw wbelow (d_of_Z w1)).

(** [while (i < size)]; the two versions differ in what happens to [numleft]
    and to items of equal weight. *)
Fixpoint straw_loop (n : nat) (i : Z) (v : straw_vars) (straws : list (option Z)) :
    res (list (option Z)) :=
  match n with
  | O => Ok straws
  | S n =>
      ri ← rd rev i; w ← rd weights ri;
      if w =? 0 then
        straws ← wr straws ri 0;
        straw_loop n (i + 1)
          (if version =? 0 then v
           else StrawVars (s32 (sv_numleft v - 1)) (sv_straw v) (sv_wbelow v) (sv_lastw v)) straws
      else
        straws ← wr straws ri (u32_of_d (dmul (sv_straw v) (d_of_Z 65536)));
        if i + 1 =? size then Ok straws else
        same ← (if version =? 0 then w1 ← weight_at (i + 1); Ok (w1 =? w) else Ok false);
        if (same : bool) then straw_loop n (i + 1) v straws
        else v ← next_straw (i + 1) v; straw_loop n (i + 1) v straws
  end.
End calc_straw.

Definition crush_calc_straw (pow : double → double → double) (version : Z) :
    M (obj crush_bucket_straw) Z := λ '(b, o),
  let size := s32 (b_size (sb_h b)) in
  let '(ok, o) := next_alloc o in
  if negb ok then Ok (- ENOMEM, (b, o)) else
  rev ← sort_reverse (sb_item_weights b) size (fresh_block size);
  straws ← straw_loop pow version (sb_item_weights b) rev size (Z.to_nat size) 0
             (StrawVars size d_one d_zero d_zero) (sb_straws b);
  Ok (0, (CrushBucketStraw (sb_h b) (sb_item_weights b) straws, o)).
