(* ===== verification/Builder.v ===== *)
(** * Building and editing buckets (src/crush/builder.c)

    [crush_make_*], [crush_add_*], [crush_remove_*] and [crush_adjust_*] for the
    five bucket types.  A make function returns [None] where the code returns
    NULL; an edit returns the code's [int] and the bucket as it leaves it, also
    when it returns early. *)

From S2P Require Import Prelude CrushTypes Nodes BuilderBase.

(** [memset(bucket, 0, sizeof)] and the first assignments. *)
Definition new_header (hash type size weight : Z) (items perm : list (option Z)) : crush_bucket :=
  CrushBucket 0 (u16 type) (u8 hash) weight (u32 size) items 0 0 perm.

(** ** Make *)

Definition crush_make_uniform_bucket (hash type size : Z) (items : list (option Z)) (item_weight : Z) :
    M (list bool) (option crush_bucket_uniform) :=
  malloc_or 0 (λ _,
  if crush_multiplication_is_unsafe size item_weight then mret None else
  malloc_or size (λ its,
  malloc_or size (λ perm,
  its ← lift (for_up (Z.to_nat size) 0 (λ i its, v ← rd items i; wr its i v) its);
  mret (Some (CrushBucketUniform
    (new_header hash type size (u32 (size * item_weight)) its perm) (u32 item_weight)))))).

(** The fill loop of [crush_make_list_bucket]: items, weights, sums and [w]. *)
Fixpoint list_fill (items weights : list (option Z)) (n : nat) (i : Z)
    (its iws sws : list (option Z)) (w : Z) :
    res (option (list (option Z) * list (option Z) * list (option Z) * Z)) :=
  match n with
  | O => Ok (Some (its, iws, sws, w))
  | S n =>
      v ← rd items i; its ← wr its i v;
      wi ← rd weights i; iws ← wr iws i (u32 wi);
      if crush_addition_is_unsafe w wi then Ok None else
      let w := s32 (w + wi) in
      sws ← wr sws i (u32 w);
      list_fill items weights n (i + 1) its iws sws w
  end.

Definition crush_make_list_bucket (hash type size : Z) (items weights : list (option Z)) :
    M (list bool) (option crush_bucket_list) :=
  malloc_or 0 (λ _,
  malloc_or size (λ its, malloc_or size (λ perm, malloc_or size (λ iws, malloc_or size (λ sws,
  out ← lift (list_fill items weights (Z.to_nat size) 0 its iws sws 0);
  match out with
  | None => mret None
  | Some (its, iws, sws, w) =>
      mret (Some (CrushBucketList (new_header hash type size (u32 w) its perm) iws sws))
  end))))).

(** [for (j = 1; j < depth; j++) { node = parent(node); ... += w; }]; [None] when
    an addition is unsafe. *)
Fixpoint tree_add_up (n : nat) (node w : Z) (nw : list (option Z)) : res (option (list (option Z))) :=
  match n with
  | O => Ok (Some nw)
  | S n =>
      node ← parent node;
      v ← rd nw node;
      if crush_addition_is_unsafe v w then Ok None else
      nw ← wr nw node (u32 (v + w));
      tree_add_up n node w nw
  end.

Fixpoint tree_fill (items weights : list (option Z)) (depth : Z) (n : nat) (i : Z)
    (its nw : list (option Z)) (weight : Z) :
    res (option (list (option Z) * list (option Z) * Z)) :=
  match n with
  | O => Ok (Some (its, nw, weight))
  | S n =>
      v ← rd items i; its ← wr its i v;
      wi ← rd weights i;
      let node := crush_calc_tree_node i in
      nw ← wr nw node (u32 wi);
      if crush_addition_is_unsafe weight wi then Ok None else
      up ← tree_add_up (Z.to_nat (depth - 1)) node wi nw;
      match up with
      | None => Ok None
      | Some nw => tree_fill items weights depth n (i + 1) its nw (u32 (weight + wi))
      end
  end.

Definition zero_block (n : Z) : list (option Z) := replicate (Z.to_nat n) (Some 0).

Definition crush_make_tree_bucket (hash type size : Z) (items weights : list (option Z)) :
    M (list bool) (option crush_bucket_tree) :=
  malloc_or 0 (λ _,
  if size =? 0 then mret (Some (CrushBucketTree (new_header hash type 0 0 [] []) 0 [])) else
  malloc_or size (λ _, malloc_or size (λ perm,
  depth ← lift (calc_depth size);
  nodes ← lift (shl1 depth);
  let num_nodes := u8 nodes in
  malloc_or num_nodes (λ _,
  out ← lift (tree_fill items weights depth (Z.to_nat size) 0 (zero_block size) (zero_block num_nodes) 0);
  match out with
  | None => mret None
  | Some (its, nw, weight) =>
      root ← lift (rd nw (num_nodes / 2));
      _ ← lift (assert_c (root =? weight));
      mret (Some (CrushBucketTree (new_header hash type size weight its perm) num_nodes nw))
  end)))).

(** The fill loop of the straw and straw2 variants. *)
Definition straw_fill (items weights : list (option Z)) (size : Z)
    (its iws : list (option Z)) : res (list (option Z) * list (option Z) * Z) :=
  for_up (Z.to_nat size) 0 (λ i '(its, iws, weight),
    v ← rd items i; its ← wr its i v;
    wi ← rd weights i; iws ← wr iws i (u32 wi);
    Ok (its, iws, u32 (weight + wi))) (its, iws, 0).

Definition crush_make_straw_bucket (pow : double → double → double) (version : Z)
    (hash type size : Z) (items weights : list (option Z)) : M (list bool) (option crush_bucket_straw) :=
  malloc_or 0 (λ _,
  malloc_or size (λ its, malloc_or size (λ perm, malloc_or size (λ iws, malloc_or size (λ straws,
  '(its, iws, weight) ← lift (straw_fill items weights size its iws);
  '(r, b) ← run_on (crush_calc_straw pow version)
              (CrushBucketStraw (new_header hash type size weight its perm) iws straws);
  mret (if r <? 0 then None else Some b)))))).

Definition crush_make_straw2_bucket (hash type size : Z) (items weights : list (option Z)) :
    M (list bool) (option crush_bucket_straw2) :=
  malloc_or 0 (λ _,
  malloc_or size (λ its, malloc_or size (λ perm, malloc_or size (λ iws,
  '(its, iws, weight) ← lift (straw_fill items weights size its iws);
  mret (Some (CrushBucketStraw2 (new_header hash type size weight its perm) iws)))))).

(** A null [weights] pointer is [None]; only the uniform case looks at it. *)
Definition crush_make_bucket (pow : double → double → double) (version : Z)
    (alg hash type size : Z) (items : list (option Z)) (weights : option (list (option Z))) :
    M (list bool) (option bucket) :=
  let ws := default [] weights in
  if alg =? CRUSH_BUCKET_UNIFORM then
    item_weight ← lift (match weights with
                        | Some ws => if negb (size =? 0) then rd ws 0 else Ok 0
                        | None => Ok 0
                        end);
    b ← crush_make_uniform_bucket hash type size items item_weight; mret (BUniform <$> b)
  else if alg =? CRUSH_BUCKET_LIST then
    b ← crush_make_list_bucket hash type size items ws; mret (BList <$> b)
  else if alg =? CRUSH_BUCKET_TREE then
    b ← crush_make_tree_bucket hash type size items ws; mret (BTree <$> b)
  else if alg =? CRUSH_BUCKET_STRAW then
    b ← crush_make_straw_bucket pow version hash type size items ws; mret (BStraw <$> b)
  else if alg =? CRUSH_BUCKET_STRAW2 then
    b ← crush_make_straw2_bucket hash type size items ws; mret (BStraw2 <$> b)
  else mret None.

(** ** Add *)

Section add.
Context (item weight : Z).

Definition crush_add_uniform_bucket_item : M (obj crush_bucket_uniform) Z :=
  size ← ask (λ b, b_size (ub_h b));
  let newsize := s32 (size + 1) in
  realloc_f items_f newsize (realloc_f perm_f newsize (
  _ ← wrf items_f (newsize - 1) item;
  w ← ask (λ b, b_weight (ub_h b));
  if crush_addition_is_unsafe w weight then mret (- ERANGE) else
  _ ← update_h (set_b_weight (u32 (w + weight)));
  _ ← update_h (set_b_size (u32 (size + 1)));
  mret 0)).

Definition crush_add_list_bucket_item : M (obj crush_bucket_list) Z :=
  size ← ask (λ b, b_size (lb_h b));
  let newsize := s32 (size + 1) in
  realloc_f items_f newsize (realloc_f perm_f newsize (
  realloc_f lb_weights_f newsize (realloc_f lb_sums_f newsize (
  _ ← wrf items_f (newsize - 1) item;
  _ ← wrf lb_weights_f (newsize - 1) (u32 weight);
  let finish : M (obj crush_bucket_list) Z :=
    w ← ask (λ b, b_weight (lb_h b));
    _ ← update_h (set_b_weight (u32 (w + weight)));
    _ ← update_h (set_b_size (u32 (size + 1)));
    mret 0 in
  if 1 <? newsize then
    s ← rdf lb_sums_f (newsize - 2);
    if crush_addition_is_unsafe s weight then mret (- ERANGE) else
    _ ← wrf lb_sums_f (newsize - 1) (u32 (s + weight));
    finish
  else
    _ ← wrf lb_sums_f (newsize - 1) (u32 weight);
    finish)))).

(** The additions up the tree; [false] is the early [-ERANGE]. *)
Fixpoint tree_add_up_f (n : nat) (node w : Z) : M (obj crush_bucket_tree) bool :=
  match n with
  | O => mret true
  | S n =>
      node ← lift (parent node);
      v ← rdf tb_nodes_f node;
      if crush_addition_is_unsafe v w then mret false else
      _ ← wrf tb_nodes_f node (u32 (v + w));
      tree_add_up_f n node w
  end.

Definition crush_add_tree_bucket_item : M (obj crush_bucket_tree) Z :=
  size ← ask (λ b, b_size (tb_h b));
  let newsize := s32 (size + 1) in
  depth ← lift (calc_depth newsize);
  nodes ← lift (shl1 depth);
  let num_nodes := u8 nodes in
  _ ← update (tb_set_num_nodes num_nodes);
  realloc_f items_f newsize (realloc_f perm_f newsize (realloc_f tb_nodes_f num_nodes (
  let node := crush_calc_tree_node (newsize - 1) in
  _ ← wrf tb_nodes_f node (u32 weight);
  let root := num_nodes / 2 in
  _ ← (if (2 <=? depth) && (node - 1 =? root) then copyf tb_nodes_f root (root / 2) else mret tt);
  ok ← tree_add_up_f (Z.to_nat (depth - 1)) node weight;
  if negb ok then mret (- ERANGE) else
  w ← ask (λ b, b_weight (tb_h b));
  if crush_addition_is_unsafe w weight then mret (- ERANGE) else
  _ ← wrf items_f (newsize - 1) item;
  _ ← update_h (set_b_weight (u32 (w + weight)));
  _ ← update_h (set_b_size (u32 (size + 1)));
  mret 0))).

Definition crush_add_straw_bucket_item (pow : double → double → double) (version : Z) :
    M (obj crush_bucket_straw) Z :=
  size ← ask (λ b, b_size (sb_h b));
  let newsize := s32 (size + 1) in
  realloc_f items_f newsize (realloc_f perm_f newsize (
  realloc_f sb_weights_f newsize (realloc_f sb_straws_f newsize (
  _ ← wrf items_f (newsize - 1) item;
  _ ← wrf sb_weights_f (newsize - 1) (u32 weight);
  w ← ask (λ b, b_weight (sb_h b));
  if crush_addition_is_unsafe w weight then mret (- ERANGE) else
  _ ← update_h (set_b_weight (u32 (w + weight)));
  _ ← update_h (set_b_size (u32 (size + 1)));
  crush_calc_straw pow version)))).

Definition crush_add_straw2_bucket_item : M (obj crush_bucket_straw2) Z :=
  size ← ask (λ b, b_size (s2_h b));
  let newsize := s32 (size + 1) in
  realloc_f items_f newsize (realloc_f perm_f newsize (realloc_f s2_weights_f newsize (
  _ ← wrf items_f (newsize - 1) item;
  _ ← wrf s2_weights_f (newsize - 1) (u32 weight);
  w ← ask (λ b, b_weight (s2_h b));
  if crush_addition_is_unsafe w weight then mret (- ERANGE) else
  _ ← update_h (set_b_weight (u32 (w + weight)));
  _ ← update_h (set_b_size (u32 (size + 1)));
  mret 0))).
End add.

(** Dispatch on the tag of a bucket: run an edit of the variant. *)
Definition on_bucket {B} (inj : B → bucket) (b : B) (m : M (obj B) Z) : M (list bool) (Z * bucket) :=
  '(r, b) ← run_on m b; mret (r, inj b).

Definition crush_bucket_add_item (pow : double → double → double) (version : Z)
    (b : bucket) (item weight : Z) : M (list bool) (Z * bucket) :=
  let b := set_bucket_h (set_b_perm_n 0 (bucket_h b)) b in
  match b with
  | BUniform b => on_bucket BUniform b (crush_add_uniform_bucket_item item weight)
  | BList b => on_bucket BList b (crush_add_list_bucket_item item weight)
  | BTree b => on_bucket BTree b (crush_add_tree_bucket_item item weight)
  | BStraw b => on_bucket BStraw b (crush_add_straw_bucket_item item weight pow version)
  | BStraw2 b => on_bucket BStraw2 b (crush_add_straw2_bucket_item item weight)
  | BUnknown _ _ => mret (-1, b)
  end.

(** ** Remove *)

(** [if (w < weight) weight -= w; else weight = 0;] *)
Definition weight_minus (w weight : Z) : Z := if w <? weight then u32 (weight - w) else 0.

Section remove.
Context (item : Z).

Definition crush_remove_uniform_bucket_item : M (obj crush_bucket_uniform) Z :=
  size ← ask (λ b, b_size (ub_h b));
  its ← ask (λ b, b_items (ub_h b));
  i ← lift (find_item its item (Z.to_nat size) 0);
  if i =? size then mret (- ENOENT) else
  _ ← for_s (Z.to_nat (size - i)) i (λ j, copyf items_f j (j + 1));
  let newsize := s32 (size - 1) in
  _ ← update_h (set_b_size (u32 (size - 1)));
  w ← ask (λ b, b_weight (ub_h b));
  iw ← ask ub_item_weight;
  _ ← update_h (set_b_weight (weight_minus iw w));
  realloc_f items_f newsize (realloc_f perm_f newsize (mret 0)).

Definition crush_remove_list_bucket_item : M (obj crush_bucket_list) Z :=
  size ← ask (λ b, b_size (lb_h b));
  its ← ask (λ b, b_items (lb_h b));
  i ← lift (find_item its item (Z.to_nat size) 0);
  if i =? size then mret (- ENOENT) else
  weight ← rdf lb_weights_f i;
  _ ← for_s (Z.to_nat (size - i)) i (λ j,
        _ ← copyf items_f j (j + 1);
        _ ← copyf lb_weights_f j (j + 1);
        s ← rdf lb_sums_f (j + 1);
        wrf lb_sums_f j (u32 (s - weight)));
  w ← ask (λ b, b_weight (lb_h b));
  _ ← update_h (set_b_weight (weight_minus weight w));
  let newsize := s32 (size - 1) in
  _ ← update_h (set_b_size (u32 (size - 1)));
  realloc_f items_f newsize (realloc_f perm_f newsize (
  realloc_f lb_weights_f newsize (realloc_f lb_sums_f newsize (mret 0)))).

(** [for (j = 1; j < depth; j++) { node = parent(node); node_weights[node] += d; }] *)
Fixpoint tree_shift_up_f (n : nat) (node d : Z) : M (obj crush_bucket_tree) unit :=
  match n with
  | O => mret tt
  | S n =>
      node ← lift (parent node);
      v ← rdf tb_nodes_f node;
      _ ← wrf tb_nodes_f node (u32 (v + d));
      tree_shift_up_f n node d
  end.

(** [while (newsize > 0) { if (node_weights[...]) break; --newsize; }] *)
Fixpoint tree_trim (nw : list (option Z)) (n : nat) : res Z :=
  match n with
  | O => Ok 0
  | S m =>
      v ← rd nw (crush_calc_tree_node (Z.of_nat n - 1));
      if negb (v =? 0) then Ok (Z.of_nat n) else tree_trim nw m
  end.

Definition crush_remove_tree_bucket_item : M (obj crush_bucket_tree) Z :=
  size ← ask (λ b, b_size (tb_h b));
  its ← ask (λ b, b_items (tb_h b));
  i ← lift (find_item its item (Z.to_nat size) 0);
  if i =? size then mret (- ENOENT) else
  depth ← lift (calc_depth (s32 size));
  let node := crush_calc_tree_node i in
  weight ← rdf tb_nodes_f node;
  _ ← wrf tb_nodes_f node 0;
  _ ← tree_shift_up_f (Z.to_nat (depth - 1)) node (- weight);
  w ← ask (λ b, b_weight (tb_h b));
  _ ← update_h (set_b_weight (weight_minus weight w));
  nw ← ask tb_node_weights;
  newsize ← lift (tree_trim nw (Z.to_nat size));
  if newsize =? size then mret 0 else
  let tail : M (obj crush_bucket_tree) Z := _ ← update_h (set_b_size newsize); mret 0 in
  realloc_f items_f newsize (realloc_f perm_f newsize (
  olddepth ← lift (calc_depth (s32 size));
  newdepth ← lift (calc_depth (s32 newsize));
  if negb (olddepth =? newdepth) then
    nodes ← lift (shl1 newdepth);
    _ ← update (tb_set_num_nodes (u8 nodes));
    realloc_f tb_nodes_f (u8 nodes) tail
  else tail)).

(** The search loop of the two straw variants: on a hit the size and weight are
    lowered and the tail is moved; the final [i]. *)
Definition straw_cut {B} `{HasHeader B} (wf : field B) : M (obj B) Z :=
  size ← ask (λ b, b_size (hdr b));
  its ← ask (λ b, b_items (hdr b));
  i ← lift (find_item its item (Z.to_nat size) 0);
  if i =? size then mret i else
  _ ← update_h (set_b_size (u32 (size - 1)));
  iw ← rdf wf i;
  w ← ask (λ b, b_weight (hdr b));
  _ ← update_h (set_b_weight (weight_minus iw w));
  _ ← for_s (Z.to_nat (size - 1 - i)) i (λ j,
        _ ← copyf items_f j (j + 1); copyf wf j (j + 1));
  mret i.

Definition crush_remove_straw_bucket_item (pow : double → double → double) (version : Z) :
    M (obj crush_bucket_straw) Z :=
  size ← ask (λ b, b_size (sb_h b));
  let newsize := s32 (size - 1) in
  i ← straw_cut sb_weights_f;
  size ← ask (λ b, b_size (sb_h b));
  if i =? size then mret (- ENOENT) else
  realloc_f items_f newsize (realloc_f perm_f newsize (
  realloc_f sb_weights_f newsize (realloc_f sb_straws_f newsize (
  crush_calc_straw pow version)))).

Definition crush_remove_straw2_bucket_item : M (obj crush_bucket_straw2) Z :=
  size ← ask (λ b, b_size (s2_h b));
  let newsize := s32 (size - 1) in
  i ← straw_cut s2_weights_f;
  size ← ask (λ b, b_size (s2_h b));
  if i =? size then mret (- ENOENT) else
  realloc_f items_f newsize (realloc_f perm_f newsize (realloc_f s2_weights_f newsize (mret 0))).
End remove.

Definition crush_bucket_remove_item (pow : double → double → double) (version : Z)
    (b : bucket) (item : Z) : M (list bool) (Z * bucket) :=
  let b := set_bucket_h (set_b_perm_n 0 (bucket_h b)) b in
  match b with
  | BUniform b => on_bucket BUniform b (crush_remove_uniform_bucket_item item)
  | BList b => on_bucket BList b (crush_remove_list_bucket_item item)
  | BTree b => on_bucket BTree b (crush_remove_tree_bucket_item item)
  | BStraw b => on_bucket BStraw b (crush_remove_straw_bucket_item item pow version)
  | BStraw2 b => on_bucket BStraw2 b (crush_remove_straw2_bucket_item item)
  | BUnknown _ _ => mret (-1, b)
  end.

(** ** Adjust *)

Section adjust.
Context (item weight : Z).

Definition crush_adjust_uniform_bucket_item_weight : M (obj crush_bucket_uniform) Z :=
  iw ← ask ub_item_weight;
  size ← ask (λ b, b_size (ub_h b));
  let diff := s32 (u32 (weight - iw) * size) in
  _ ← update (ub_set_item_weight (u32 weight));
  _ ← update_h (set_b_weight (u32 (u32 weight * size)));
  mret diff.

Definition crush_adjust_list_bucket_item_weight : M (obj crush_bucket_list) Z :=
  size ← ask (λ b, b_size (lb_h b));
  its ← ask (λ b, b_items (lb_h b));
  i ← lift (find_item its item (Z.to_nat size) 0);
  if i =? size then mret 0 else
  iw ← rdf lb_weights_f i;
  let diff := s32 (weight - iw) in
  _ ← wrf lb_weights_f i (u32 weight);
  w ← ask (λ b, b_weight (lb_h b));
  _ ← update_h (set_b_weight (u32 (w + diff)));
  _ ← for_s (Z.to_nat (size - i)) i (λ j, s ← rdf lb_sums_f j; wrf lb_sums_f j (u32 (s + diff)));
  mret diff.

Definition crush_adjust_tree_bucket_item_weight : M (obj crush_bucket_tree) Z :=
  size ← ask (λ b, b_size (tb_h b));
  depth ← lift (calc_depth (s32 size));
  its ← ask (λ b, b_items (tb_h b));
  i ← lift (find_item its item (Z.to_nat size) 0);
  if i =? size then mret 0 else
  let node := crush_calc_tree_node i in
  nw ← rdf tb_nodes_f node;
  let diff := s32 (weight - nw) in
  _ ← wrf tb_nodes_f node (u32 weight);
  w ← ask (λ b, b_weight (tb_h b));
  _ ← update_h (set_b_weight (u32 (w + diff)));
  _ ← tree_shift_up_f (Z.to_nat (depth - 1)) node diff;
  mret diff.

Definition straw_set_weight {B} `{HasHeader B} (wf : field B) (k : Z → M (obj B) Z) : M (obj B) Z :=
  size ← ask (λ b, b_size (hdr b));
  its ← ask (λ b, b_items (hdr b));
  idx ← lift (find_item its item (Z.to_nat size) 0);
  if idx =? size then mret 0 else
  iw ← rdf wf idx;
  let diff := s32 (weight - iw) in
  _ ← wrf wf idx (u32 weight);
  w ← ask (λ b, b_weight (hdr b));
  _ ← update_h (set_b_weight (u32 (w + diff)));
  k diff.

Definition crush_adjust_straw_bucket_item_weight (pow : double → double → double) (version : Z) :
    M (obj crush_bucket_straw) Z :=
  straw_set_weight sb_weights_f (λ diff,
    r ← crush_calc_straw pow version;
    mret (if r <? 0 then r else diff)).

Definition crush_adjust_straw2_bucket_item_weight : M (obj crush_bucket_straw2) Z :=
  straw_set_weight s2_weights_f (λ diff, mret diff).
End adjust.

Definition crush_bucket_adjust_item_weight (pow : double → double → double) (version : Z)
    (b : bucket) (item weight : Z) : M (list bool) (Z * bucket) :=
  match b with
  | BUniform b => on_bucket BUniform b (crush_adjust_uniform_bucket_item_weight weight)
  | BList b => on_bucket BList b (crush_adjust_list_bucket_item_weight item weight)
  | BTree b => on_bucket BTree b (crush_adjust_tree_bucket_item_weight item weight)
  | BStraw b => on_bucket BStraw b (crush_adjust_straw_bucket_item_weight item weight pow version)
  | BStraw2 b => on_bucket BStraw2 b (crush_adjust_straw2_bucket_item_weight item weight)
  | BUnknown _ _ => mret (-1, b)
  end.
