(* ===== verification/BuilderMap.v ===== *)
(** * Building a map (src/crush/builder.c, src/crush/crush.c)

    [crush_create], [crush_finalize], rules, [crush_add_bucket],
    [crush_remove_bucket] and the recursive reweighting of a hierarchy.  The
    store is the map and the allocation oracle. *)

From S2P Require Import Prelude CrushTypes Nodes BuilderBase Builder.

Definition crush_create : M (list bool) (option crush_map) := λ o,
  let '(ok, o) := next_alloc o in
  Ok (if (ok : bool)
      then Some (CrushMap [] [] 0 0 0 2 5 19 0 0 0 CRUSH_LEGACY_ALLOWED_BUCKET_ALGS None)
      else None, o).

(** The scan of one bucket's items, then of all buckets. *)
Definition finalize_bucket (b : bucket) (max : Z) : res Z :=
  for_up (Z.to_nat (b_size (bucket_h b))) 0 (λ i max,
    v ← rd (b_items (bucket_h b)) i;
    Ok (if v >=? max then s32 (v + 1) else max)) max.

Definition crush_finalize (m : crush_map) : res crush_map :=
  max ← for_up (Z.to_nat (m_max_buckets m)) 0 (λ b max,
          p ← rdp (m_buckets m) b;
          match p with None => Ok max | Some bk => finalize_bucket bk max end) 0;
  Ok (set_m_max_devices max m).

(** ** Rules *)

(** [for (r = 0; r < n; r++) if (a[r] == 0) break;]: the final [r]. *)
Fixpoint first_null {A} (a : list (option A)) (n : nat) (r : Z) : res Z :=
  match n with
  | O => Ok r
  | S n => p ← rdp a r; match p with None => Ok r | Some _ => first_null a n (r + 1) end
  end.

(** [realloc] of a pointer array and [memset] of the new part. *)
Definition grow_ptrs {A} (a : list (option A)) (n : Z) : list (option A) :=
  take (Z.to_nat n) a ++ replicate (Z.to_nat n - length a) None.

Definition wrp {A} (a : list (option A)) (i : Z) (p : option A) : res (list (option A)) :=
  if i <? 0 then Fault OutOfBounds
  else match a !! Z.to_nat i with
       | Some _ => Ok (<[Z.to_nat i := p]> a)
       | None => Fault OutOfBounds
       end.

Definition crush_add_rule (rule : crush_rule) (ruleno : Z) : M (crush_map * list bool) Z := λ '(m, o),
  r ← (if ruleno <? 0 then
         r ← first_null (m_rules m) (Z.to_nat (m_max_rules m)) 0;
         _ ← assert_c (r <? CRUSH_MAX_RULES); Ok r
       else Ok ruleno);
  if m_max_rules m <=? r then
    if CRUSH_MAX_RULES <? u32 (m_max_rules m + 1) then Ok (- ENOSPC, (m, o)) else
    let m := set_m_max_rules (u32 (r + 1)) m in
    let '(ok, o) := next_alloc o in
    if negb ok then Ok (- ENOMEM, (m, o)) else
    rules ← wrp (grow_ptrs (m_rules m) (u32 (r + 1))) r (Some rule);
    Ok (s32 r, (set_m_rules rules m, o))
  else
    rules ← wrp (m_rules m) r (Some rule);
    Ok (s32 r, (set_m_rules rules m, o)).

Definition crush_make_rule (len ruleset type minsize maxsize : Z) : M (list bool) (option crush_rule) := λ o,
  let '(ok, o) := next_alloc o in
  Ok (if (ok : bool) && (0 <=? len)
      then Some (CrushRule (u32 len)
                   (CrushRuleMask (u8 ruleset) (u8 type) (u8 minsize) (u8 maxsize))
                   (replicate (Z.to_nat len) None))
      else None, o).

(** The operation code of a step. *)
Definition op_of_code (op : Z) : rule_op :=
  if op =? 1 then CRUSH_RULE_TAKE
  else if op =? 2 then CRUSH_RULE_CHOOSE_FIRSTN
  else if op =? 3 then CRUSH_RULE_CHOOSE_INDEP
  else if op =? 4 then CRUSH_RULE_EMIT
  else if op =? 6 then CRUSH_RULE_CHOOSELEAF_FIRSTN
  else if op =? 7 then CRUSH_RULE_CHOOSELEAF_INDEP
  else if op =? 8 then CRUSH_RULE_SET_CHOOSE_TRIES
  else if op =? 9 then CRUSH_RULE_SET_CHOOSELEAF_TRIES
  else if op =? 10 then CRUSH_RULE_SET_CHOOSE_LOCAL_TRIES
  else if op =? 11 then CRUSH_RULE_SET_CHOOSE_LOCAL_FALLBACK_TRIES
  else if op =? 12 then CRUSH_RULE_SET_CHOOSELEAF_VARY_R
  else CRUSH_RULE_OTHER op.

Definition crush_rule_set_step (n op arg1 arg2 : Z) (rule : crush_rule) : res crush_rule :=
  _ ← assert_c (u32 n <? ru_len rule);
  steps ← wrp (ru_steps rule) n (Some (CrushRuleStep (op_of_code (u32 op)) arg1 arg2));
  Ok (CrushRule (ru_len rule) (ru_mask rule) steps).

(** ** Buckets *)

Definition crush_get_next_bucket_id (m : crush_map) : res Z :=
  pos ← first_null (m_buckets m) (Z.to_nat (m_max_buckets m)) 0;
  Ok (s32 (-1 - pos)).

(** [while (pos >= map->max_buckets)]: the array doubles; [false] is the early
    [-ENOMEM].  32 doublings exceed every [int]. *)
Fixpoint grow_buckets (fuel : nat) (pos : Z) : M (crush_map * list bool) bool := λ '(m, o),
  if m_max_buckets m <=? pos then
    match fuel with
    | O => Fault Diverge
    | S fuel =>
        let n := if negb (m_max_buckets m =? 0) then s32 (m_max_buckets m * 2) else 8 in
        let m := set_m_max_buckets n m in
        let '(ok, o) := next_alloc o in
        if negb (ok && (0 <=? n)) then Ok (false, (m, o))
        else grow_buckets fuel pos (set_m_buckets (grow_ptrs (m_buckets m) n) m, o)
    end
  else Ok (true, (m, o)).

(** [if (map->buckets[pos] != 0) return -EEXIST;], and the insertion.  The
    result is the return value and, on success, the id for [*idout]. *)
Definition place_bucket (id pos : Z) (b : bucket) : M (crush_map * list bool) (Z * option Z) := λ '(m, o),
  p ← rdp (m_buckets m) pos;
  match p with
  | Some _ => Ok ((- EEXIST, None), (m, o))
  | None =>
      bs ← wrp (m_buckets m) pos (Some (set_bucket_h (set_b_id id (bucket_h b)) b));
      Ok ((0, Some id), (set_m_buckets bs m, o))
  end.

Definition crush_add_bucket (id : Z) (b : bucket) : M (crush_map * list bool) (Z * option Z) :=
  m ← gets fst;
  id ← (if id =? 0 then lift (crush_get_next_bucket_id m) else mret id);
  let pos := s32 (-1 - id) in
  ok ← grow_buckets 32 pos;
  if (ok : bool) then place_bucket id pos b else mret (- ENOMEM, None).

(** [crush_destroy_bucket] frees the bucket, which the map no longer points to. *)
Definition crush_remove_bucket (b : bucket) (m : crush_map) : res crush_map :=
  bs ← wrp (m_buckets m) (s32 (-1 - b_id (bucket_h b))) None;
  Ok (set_m_buckets bs m).

(** ** Reweighting *)

Section reweight.
Context (pow : double → double → double).

(** Reads and updates the bucket at [pos] through its pointer. *)
Definition bucket_get (pos : Z) : M (crush_map * list bool) bucket := λ '(m, o),
  b ← get_bucket m pos; Ok (b, (m, o)).
Definition bucket_mod (pos : Z) (g : bucket → res bucket) : M (crush_map * list bool) unit := λ '(m, o),
  b ← get_bucket m pos; b ← g b; Ok (tt, (put_bucket pos b m, o)).
Definition set_weight_of (w : Z) (b : bucket) : bucket :=
  set_bucket_h (set_b_weight w (bucket_h b)) b.

(** The weight cell of item [i], for the variants that keep one. *)
Definition item_weight_cell (b : bucket) (i : Z) : res Z :=
  match b with
  | BList b => rd (lb_item_weights b) i
  | BTree b => rd (tb_node_weights b) (crush_calc_tree_node i)
  | BStraw b => rd (sb_item_weights b) i
  | BStraw2 b => rd (s2_item_weights b) i
  | BUniform _ | BUnknown _ _ => Fault OutOfBounds
  end.
Definition set_item_weight_cell (b : bucket) (i w : Z) : res bucket :=
  match b with
  | BList b => a ← wr (lb_item_weights b) i w; Ok (BList (set_f lb_weights_f a b))
  | BTree b => a ← wr (tb_node_weights b) (crush_calc_tree_node i) w; Ok (BTree (set_f tb_nodes_f a b))
  | BStraw b => a ← wr (sb_item_weights b) i w; Ok (BStraw (set_f sb_weights_f a b))
  | BStraw2 b => a ← wr (s2_item_weights b) i w; Ok (BStraw2 (set_f s2_weights_f a b))
  | BUniform _ | BUnknown _ _ => Fault OutOfBounds
  end.

(** [rec pos] is [crush_reweight_bucket(crush, crush->buckets[pos])]. *)
Section loops.
Context (rec : Z → M (crush_map * list bool) Z) (pos : Z).

Definition child_weight (id : Z) : M (crush_map * list bool) Z :=
  _ ← rec (-1 - id);
  c ← bucket_get (-1 - id);
  mret (b_weight (bucket_h c)).

(** Uniform: sums and counts bucket children; [None] is [-ERANGE]. *)
Fixpoint reweight_sum (n : nat) (i sum cnt leaves : Z) :
    M (crush_map * list bool) (option (Z * Z * Z)) :=
  match n with
  | O => mret (Some (sum, cnt, leaves))
  | S n =>
      b ← bucket_get pos;
      id ← lift (rd (b_items (bucket_h b)) i);
      if id <? 0 then
        w ← child_weight id;
        if crush_addition_is_unsafe sum w then mret None
        else reweight_sum n (i + 1) (u32 (sum + w)) (cnt + 1) leaves
      else reweight_sum n (i + 1) sum cnt (leaves + 1)
  end.

Definition crush_reweight_uniform_bucket : M (crush_map * list bool) Z :=
  b ← bucket_get pos;
  out ← reweight_sum (Z.to_nat (b_size (bucket_h b))) 0 0 0 0;
  match out with
  | None => mret (- ERANGE)
  | Some (sum, n, leaves) =>
      _ ← bucket_mod pos (λ b, match b with
            | BUniform b =>
                let b := if leaves <? n then ub_set_item_weight (sum / n) b else b in
                Ok (BUniform (CrushBucketUniform
                  (set_b_weight (u32 (ub_item_weight b * b_size (ub_h b))) (ub_h b)) (ub_item_weight b)))
            | b => Ok b
            end);
      mret 0
  end.

(** List, tree, straw and straw2: the cell of a bucket child is refreshed, and
    the bucket's weight is the sum of the cells; [false] is [-ERANGE]. *)
Fixpoint reweight_cells (n : nat) (i : Z) : M (crush_map * list bool) bool :=
  match n with
  | O => mret true
  | S n =>
      b ← bucket_get pos;
      id ← lift (rd (b_items (bucket_h b)) i);
      _ ← (if id <? 0 then w ← child_weight id; bucket_mod pos (λ b, set_item_weight_cell b i w)
           else mret tt);
      b ← bucket_get pos;
      w ← lift (item_weight_cell b i);
      let total := b_weight (bucket_h b) in
      if crush_addition_is_unsafe total w then mret false else
      _ ← bucket_mod pos (λ b, Ok (set_weight_of (u32 (total + w)) b));
      reweight_cells n (i + 1)
  end.

Definition reweight_summed : M (crush_map * list bool) Z :=
  _ ← bucket_mod pos (λ b, Ok (set_weight_of 0 b));
  b ← bucket_get pos;
  ok ← reweight_cells (Z.to_nat (b_size (bucket_h b))) 0;
  mret (if (ok : bool) then 0 else - ERANGE).

Definition crush_reweight_list_bucket : M (crush_map * list bool) Z := reweight_summed.
Definition crush_reweight_tree_bucket : M (crush_map * list bool) Z := reweight_summed.
Definition crush_reweight_straw2_bucket : M (crush_map * list bool) Z := reweight_summed.

(** [crush_calc_straw(crush, bucket); return 0;]: the result is ignored. *)
Definition restraw : M (crush_map * list bool) Z := λ '(m, o),
  b ← get_bucket m pos;
  match b with
  | BStraw b =>
      '(_, (b, o)) ← crush_calc_straw pow (m_straw_calc_version m) (b, o);
      Ok (0, (put_bucket pos (BStraw b) m, o))
  | _ => Ok (0, (m, o))
  end.

Definition crush_reweight_straw_bucket : M (crush_map * list bool) Z :=
  r ← reweight_summed;
  if r <? 0 then mret r else restraw.
End loops.

Fixpoint crush_reweight_bucket (fuel : nat) (pos : Z) : M (crush_map * list bool) Z :=
  match fuel with
  | O => lift (Fault Diverge)
  | S fuel =>
      b ← bucket_get pos;
      match b with
      | BUniform _ => crush_reweight_uniform_bucket (crush_reweight_bucket fuel) pos
      | BList _ => crush_reweight_list_bucket (crush_reweight_bucket fuel) pos
      | BTree _ => crush_reweight_tree_bucket (crush_reweight_bucket fuel) pos
      | BStraw _ => crush_reweight_straw_bucket (crush_reweight_bucket fuel) pos
      | BStraw2 _ => crush_reweight_straw2_bucket (crush_reweight_bucket fuel) pos
      | BUnknown _ _ => mret (-1)
      end
  end.
End reweight.
