(* ===== verification/MakeSpec.v ===== *)
(** * What the make functions build (src/crush/builder.c)

    Whatever the allocator does, a make function returns NULL or a well-formed
    bucket with the given items and weights; it never touches memory outside its
    blocks.  With an allocator that always succeeds it returns NULL exactly when
    the weights overflow. *)

From S2P Require Import Prelude Hash CrushTypes Ln Nodes Choose ChoosePerm ChooseSpec.
From S2P Require Import BuilderBase Builder.

(** ** Filling blocks *)

(** Writing the next cell of a block that is being filled with [l]. *)
Lemma wr_fill a l i v :
  holds a (take i l) → l !! i = Some v → (length l <= length a)%nat →
  ∃ a', wr a (Z.of_nat i) v = Ok a' ∧ holds a' (take (S i) l) ∧ length a' = length a.
Proof.
  intros Ha Hv Hl. pose proof (lookup_lt_Some _ _ _ Hv).
  rewrite wr_ok by lia. rewrite Nat2Z.id. eexists. split; [done|]. split; [|apply length_insert].
  rewrite (take_S_r _ _ v) by done.
  replace i with (length (take i l)) at 1 by (rewrite length_take; lia).
  apply holds_snoc; [done|]. rewrite length_take. lia.
Qed.

Lemma fill_copy items l a :
  holds items l → (length l <= length a)%nat →
  rwp (for_up (length l) 0 (λ i its, v ← rd items i; wr its i v) a)
      (λ a', holds a' l ∧ length a' = length a).
Proof.
  intros Hi Hl. eapply rwp_mono.
  - apply (for_up_rule (λ i b, 0 <= i ∧ holds b (take (Z.to_nat i) l) ∧ length b = length a)).
    { split; [done|]. split; [apply holds_nil|done]. }
    intros j b Hj (Hj0 & Hb & Hlb).
    destruct (lookup_lt_is_Some_2 l (Z.to_nat j)) as [v Hv]; [lia|].
    rewrite (rd_holds items l j v Hi Hj0 Hv). cbn [mbind res_bind].
    destruct (wr_fill b l (Z.to_nat j) v) as (b' & E & Hb' & Hlb'); [done|done|lia|].
    rewrite Z2Nat.id in E by lia. rewrite E. cbn [rwp].
    replace (Z.to_nat (j + 1)) with (S (Z.to_nat j)) by lia. split; [lia|]. split; [done|lia].
  - intros b (_ & Hb & Hlb). rewrite Z.add_0_l, Nat2Z.id, firstn_all in Hb. done.
Qed.

Definition sum_u32 (ws : list Z) : Z := u32 (sum_list_Z ws).

Lemma sum_take_S ws i w : ws !! i = Some w → sum_list_Z (take (S i) ws) = sum_list_Z (take i ws) + w.
Proof. intros H. rewrite (take_S_r _ _ w) by done. rewrite sum_list_Z_app. simpl. lia. Qed.

Lemma sum_take_le (us : list Z) n : Forall is_u32 us → sum_list_Z (take n us) <= sum_list_Z us.
Proof.
  intros Hu. rewrite <- (take_drop n us) at 2. rewrite sum_list_Z_app.
  pose proof (sum_list_Z_nonneg (drop n us)) as H.
  assert (0 <= sum_list_Z (drop n us)); [|lia]. apply H, Forall_drop.
  eapply Forall_impl; [done|]. unfold is_u32. lia.
Qed.

(** The fill loop of the straw variants. *)
Lemma straw_fill_ok items weights l ws its iws :
  holds items l → holds weights ws → length ws = length l →
  (length l <= length its)%nat → (length l <= length iws)%nat →
  rwp (straw_fill items weights (Z.of_nat (length l)) its iws) (λ '(its', iws', w),
    holds its' l ∧ length its' = length its ∧ holds iws' (u32 <$> ws) ∧ length iws' = length iws ∧
    w = sum_u32 ws).
Proof.
  intros Hi Hw Hlen Hl1 Hl2. unfold straw_fill. rewrite Nat2Z.id. eapply rwp_mono.
  - apply (for_up_rule (λ i '(a, b, w), 0 <= i ∧ holds a (take (Z.to_nat i) l) ∧
      length a = length its ∧ holds b (take (Z.to_nat i) (u32 <$> ws)) ∧ length b = length iws ∧
      w = u32 (sum_list_Z (take (Z.to_nat i) ws)))).
    { repeat split; try done; apply holds_nil. }
    intros j [[a b] w] Hj (Hj0 & Ha & Hla & Hb & Hlb & ->).
    destruct (lookup_lt_is_Some_2 l (Z.to_nat j)) as [v Hv]; [lia|].
    destruct (lookup_lt_is_Some_2 ws (Z.to_nat j)) as [wv Hwv]; [lia|].
    rewrite (rd_holds items l j v Hi Hj0 Hv). cbn [mbind res_bind].
    destruct (wr_fill a l (Z.to_nat j) v) as (a' & Ea & Ha' & Hla'); [done|done|lia|].
    rewrite Z2Nat.id in Ea by lia. rewrite Ea. cbn [mbind res_bind].
    rewrite (rd_holds weights ws j wv Hw Hj0 Hwv). cbn [mbind res_bind].
    destruct (wr_fill b (u32 <$> ws) (Z.to_nat j) (u32 wv)) as (b' & Eb & Hb' & Hlb'); [done| | |].
    { by rewrite list_lookup_fmap, Hwv. }
    { rewrite length_fmap. lia. }
    rewrite Z2Nat.id in Eb by lia. rewrite Eb. cbn [mbind res_bind rwp].
    replace (Z.to_nat (j + 1)) with (S (Z.to_nat j)) by lia.
    rewrite (sum_take_S ws _ wv) by done. rewrite u32_add_l.
    split; [lia|]. split; [done|]. split; [lia|]. split; [done|]. split; [lia|done].
  - intros [[a b] w] (_ & Ha & Hla & Hb & Hlb & ->).
    rewrite Z.add_0_l, Nat2Z.id in *. rewrite firstn_all in Ha.
    rewrite firstn_all2 in Hb by (rewrite length_fmap; lia). rewrite firstn_all2 by lia. done.
Qed.

(** ** Allocation *)

(** A new header is well-formed: its cache is empty. *)
Lemma new_header_wf hash type w its (l : list Z) :
  holds its l → Z.of_nat (length l) < 65535 →
  hdr_wf (new_header hash type (Z.of_nat (length l)) w its (fresh_block (Z.of_nat (length l)))) l.
Proof.
  intros Hi Hl. unfold hdr_wf, new_header. simpl. rewrite (u32_small (Z.of_nat _)) by (unfold is_u32; lia).
  split; [done|]. split; [done|]. split; [done|]. destruct l as [|x l]; [by left|right].
  split; simpl b_size; [simpl in *; lia|]. simpl b_perm.
  split; [rewrite length_fresh_block; lia|by left].
Qed.

Lemma Forall_u32 (ws : list Z) : Forall is_u32 (u32 <$> ws).
Proof. apply Forall_fmap, Forall_true. intros w. apply u32_range. Qed.

(** An allocator that never fails. *)
Definition allocs_ok (o : list bool) : Prop := Forall (λ b, b = true) o.

(** The oracle stays good under the assumption [G] that it was good at first. *)
Lemma malloc_or_ok {A} (G : Prop) n (k : list (option Z) → M (list bool) (option A)) o
    (Q : option A → list bool → Prop) :
  0 <= n → (G → allocs_ok o) → (∀ o', ¬ G → Q None o') →
  (∀ o', (G → allocs_ok o') → wp (k (fresh_block n)) o' Q) → wp (malloc_or n k) o Q.
Proof.
  intros Hn HG HN Hk. unfold wp, malloc_or. rewrite (proj2 (Z.leb_le 0 n)) by done.
  destruct o as [|[] o]; simpl.
  - apply Hk. intros _. constructor.
  - apply Hk. intros H. specialize (HG H). by inversion HG.
  - apply HN. intros H. specialize (HG H). by inversion HG.
Qed.

Lemma crush_addition_is_unsafe_u32 a b :
  crush_addition_is_unsafe a b = (4294967296 <=? u32 a + u32 b).
Proof.
  rewrite <- crush_addition_is_unsafe_spec by apply u32_range.
  unfold crush_addition_is_unsafe. by rewrite !u32_u32.
Qed.

(** ** Straw2 *)

Section make.
Context (hash type : Z) (items weights : list (option Z)) (l ws : list Z).
Context (Hitems : holds items l) (Hweights : holds weights ws) (Hlen : length ws = length l)
  (Hsize : Z.of_nat (length l) < 65535).

#[local] Abbreviation size := (Z.of_nat (length l)).

Definition made_header (h : crush_bucket) (w : Z) : Prop :=
  hdr_wf h l ∧ b_type h = u16 type ∧ b_hash h = u8 hash ∧ b_weight h = w ∧ b_perm_n h = 0.

Lemma fresh_room : (length l <= length (fresh_block size))%nat.
Proof. rewrite length_fresh_block. lia. Qed.

Lemma make_straw2_ok o :
  wp (crush_make_straw2_bucket hash type size items weights) o (λ r _,
    (allocs_ok o → r ≠ None) ∧
    ∀ b, r = Some b → made_header (s2_h b) (sum_u32 ws) ∧ straw2_wf b l (u32 <$> ws)).
Proof.
  unfold crush_make_straw2_bucket.
  do 4 (apply (malloc_or_ok (allocs_ok o)); [lia|done|by intros ? ?; split; [|done]|intros ? ?]).
  apply wp_bind, wp_lift. eapply rwp_mono; [by apply straw_fill_ok; try apply fresh_room|].
  intros [[its iws] w] (Hi & _ & Hw & _ & ->). apply wp_ret. split; [done|]. intros b [= <-].
  split; [split; [by apply new_header_wf|done]|]. simpl.
  repeat split; try done; simpl; [|by rewrite length_fmap|apply Forall_u32].
  apply u32_small. unfold is_u32. lia.
Qed.

(** ** List *)

Definition list_filled (us : list Z) (la lb lc : nat)
    (r : option (list (option Z) * list (option Z) * list (option Z) * Z)) : Prop :=
  match r with
  | None => 4294967296 <= sum_list_Z us
  | Some (its, iws, sws, w) =>
      holds its l ∧ holds iws us ∧ holds sws (prefix_sums 0 us) ∧ u32 w = sum_list_Z us ∧
      sum_list_Z us < 4294967296 ∧ length its = la ∧ length iws = lb ∧ length sws = lc
  end.

Lemma list_fill_ok n : ∀ i its iws sws w,
  let us := u32 <$> ws in
  (i + n = length l)%nat →
  holds its (take i l) → holds iws (take i us) → holds sws (take i (prefix_sums 0 us)) →
  u32 w = sum_list_Z (take i us) → (length l <= length its)%nat → (length l <= length iws)%nat →
  (length l <= length sws)%nat →
  rwp (list_fill items weights n (Z.of_nat i) its iws sws w)
      (list_filled us (length its) (length iws) (length sws)).
Proof.
  induction n as [|n IH]; intros i its iws sws w us Hin Ha Hb Hc Hw Hla Hlb Hlc; cbn [list_fill].
  { replace i with (length l) in * by lia. rewrite firstn_all in Ha.
    rewrite firstn_all2 in Hb, Hc, Hw by (rewrite ?length_prefix_sums; unfold us; rewrite ?length_fmap; lia).
    pose proof (u32_range w) as Hr. unfold is_u32 in Hr.
    simpl. repeat (split; [first [done|lia]|]). done. }
  destruct (lookup_lt_is_Some_2 l i) as [v Hv]; [lia|].
  destruct (lookup_lt_is_Some_2 ws i) as [wv Hwv]; [lia|].
  assert (us !! i = Some (u32 wv)) as Hu by (unfold us; by rewrite list_lookup_fmap, Hwv).
  assert (length us = length l) as Hlu by (unfold us; by rewrite length_fmap).
  rewrite (rd_at items l i v) by done. cbn [mbind res_bind].
  destruct (wr_fill its l i v) as (its' & -> & Ha' & Hla'); [done|done|lia|]. cbn [mbind res_bind].
  rewrite (rd_at weights ws i wv) by done. cbn [mbind res_bind].
  destruct (wr_fill iws us i (u32 wv)) as (iws' & -> & Hb' & Hlb'); [done|done|lia|]. cbn [mbind res_bind].
  rewrite crush_addition_is_unsafe_u32, Hw, <- (sum_take_S us i (u32 wv)) by done.
  pose proof (sum_take_le us (S i) (Forall_u32 ws)) as Hle.
  destruct (Z.leb_spec 4294967296 (sum_list_Z (take (S i) us))) as [Hov|Hok]; [simpl; lia|].
  assert (u32 (s32 (w + wv)) = sum_list_Z (take (S i) us)) as Hw'.
  { rewrite u32_s32, <- u32_add_l, <- u32_add_r, Hw, (sum_take_S us i (u32 wv)) by done.
    rewrite (sum_take_S us i (u32 wv)) in Hok by done. apply u32_small.
    pose proof (u32_range w). pose proof (u32_range wv). unfold is_u32 in *. lia. }
  destruct (wr_fill sws (prefix_sums 0 us) i (u32 (s32 (w + wv)))) as (sws' & -> & Hc' & Hlc'); [done| | |].
  { rewrite prefix_sums_lookup by lia. f_equal. lia. }
  { rewrite length_prefix_sums. lia. }
  cbn [mbind res_bind]. replace (Z.of_nat i + 1) with (Z.of_nat (S i)) by lia.
  rewrite <- Hla', <- Hlb', <- Hlc'. apply IH; try done; lia.
Qed.

Lemma make_list_ok o :
  wp (crush_make_list_bucket hash type size items weights) o (λ r _,
    let us := u32 <$> ws in
    (allocs_ok o → sum_list_Z us < 4294967296 → r ≠ None) ∧
    ∀ b, r = Some b → sum_list_Z us < 4294967296 ∧ made_header (lb_h b) (sum_list_Z us) ∧
                      list_wf b l us (prefix_sums 0 us)).
Proof.
  unfold crush_make_list_bucket.
  do 5 (apply (malloc_or_ok (allocs_ok o)); [lia|done|by intros ? ?; split; [|done]|intros ? ?]).
  apply wp_bind, wp_lift. rewrite Nat2Z.id. eapply rwp_mono.
  { apply (list_fill_ok (length l) 0); try apply holds_nil; try done; apply fresh_room. }
  intros [[[[its iws] sws] w]|]; simpl.
  - intros (Hi & Hw & Hs & Ew & Hlt & _). split; [done|]. intros b [= <-]. split; [done|].
    split; [split; [by apply new_header_wf|by rewrite <- Ew]|].
    repeat split; try done; simpl; rewrite ?length_prefix_sums, ?length_fmap; try done; try lia.
    { apply u32_small. unfold is_u32. lia. }
    apply Forall_lookup. intros i s Hsi. pose proof (lookup_lt_Some _ _ _ Hsi) as Hlt'.
    rewrite length_prefix_sums in Hlt'. rewrite prefix_sums_lookup in Hsi by done. simplify_eq.
    pose proof (sum_take_le (u32 <$> ws) (S i) (Forall_u32 ws)).
    unfold is_u32. rewrite Z.add_0_l. split; [|lia].
    apply sum_list_Z_nonneg, Forall_take. eapply Forall_impl; [apply Forall_u32|]. unfold is_u32. lia.
  - intros Hov. split; [lia|done].
Qed.

(** ** Uniform *)

Lemma make_uniform_ok iw o :
  wp (crush_make_uniform_bucket hash type size items iw) o (λ r _,
    (allocs_ok o → u32 iw ≠ 0 → size * u32 iw < 4294967296 → r ≠ None) ∧
    ∀ b, r = Some b → u32 iw ≠ 0 ∧ size * u32 iw < 4294967296 ∧
                      made_header (ub_h b) (size * u32 iw) ∧ ub_item_weight b = u32 iw).
Proof.
  assert (u32 size = size) as Eu by (apply u32_small; unfold is_u32; lia).
  assert (crush_multiplication_is_unsafe size iw = (u32 iw =? 0) || (4294967296 <=? size * u32 iw)) as Ec.
  { rewrite <- Eu at 2. rewrite <- crush_multiplication_is_unsafe_spec by apply u32_range.
    unfold crush_multiplication_is_unsafe. by rewrite !u32_u32. }
  unfold crush_make_uniform_bucket.
  apply (malloc_or_ok (allocs_ok o)); [lia|done|by intros ? ?; split; [|done]|intros o1 Ho1].
  rewrite Ec. destruct (Z.eqb_spec (u32 iw) 0) as [E0|E0]; [by apply wp_ret|]. cbn [orb].
  destruct (Z.leb_spec 4294967296 (size * u32 iw)) as [Hov|Hok]; [apply wp_ret; split; [lia|done]|].
  do 2 (apply (malloc_or_ok (allocs_ok o)); [lia|done|by intros ? ?; split; [|done]|intros ? ?]).
  apply wp_bind, wp_lift. rewrite Nat2Z.id.
  eapply rwp_mono; [by apply (fill_copy items l); [|apply fresh_room]|].
  intros its [Hi _]. apply wp_ret. split; [done|]. intros b [= <-]. split; [done|]. split; [done|].
  split; [|done]. split; [by apply new_header_wf|]. repeat split. simpl.
  rewrite <- (u32_small (size * u32 iw)) by (pose proof (u32_range iw); unfold is_u32 in *; nia).
  unfold u32. by rewrite Zmult_mod_idemp_r.
Qed.
End make.
