(* ===== verification/TreeSpec.v ===== *)
(** * Weights of tree buckets (src/crush/builder.c)

    Changing a leaf and adding the difference to each of its ancestors keeps
    every inner node equal to the sum of its children.  The make, add and adjust
    operations of tree buckets all do that. *)

From S2P Require Import Prelude Hash CrushTypes Ln Nodes Choose ChoosePerm ChooseSpec.
From S2P Require Import BuilderBase Builder MakeSpec.

(** ** Updating a path to the root *)

(** Adds [w] to the [n] nearest ancestors of node [(h, k)]. *)
Fixpoint add_up (n : nat) (h k w : Z) (nw : list Z) : list Z :=
  match n with
  | O => nw
  | S n =>
      add_up n (h + 1) (k / 2) w
        (<[Z.to_nat (node (h + 1) (k / 2)) := node_weight nw (h + 1) (k / 2) + w]> nw)
  end.

Definition inner_sums (d : Z) (nw : list Z) : Prop :=
  ∀ h k, in_tree d h k → 0 < h →
    node_weight nw h k = node_weight nw (h - 1) (2 * k) + node_weight nw (h - 1) (2 * k + 1).

(** All sums hold, but the parent of [(h, k)] is [w] short. *)
Definition short (d h k w : Z) (nw : list Z) : Prop :=
  ∀ h' k', in_tree d h' k' → 0 < h' →
    node_weight nw h' k' + (if bool_decide (h' = h + 1 ∧ k' = k / 2) then w else 0) =
    node_weight nw (h' - 1) (2 * k') + node_weight nw (h' - 1) (2 * k' + 1).

Section path.
Context (d : Z) (Hd : 1 <= d <= 30).

Lemma node_weight_insert nw h k h' k' v :
  Z.of_nat (length nw) = 2 ^ d → in_tree d h k → in_tree d h' k' →
  node_weight (<[Z.to_nat (node h k) := v]> nw) h' k' =
  if bool_decide (h' = h ∧ k' = k) then v else node_weight nw h' k'.
Proof.
  intros Hl Hin Hin'. pose proof (in_tree_bound _ _ _ Hin) as [Hp Hb].
  pose proof (in_tree_bound _ _ _ Hin') as [Hp' _].
  destruct Hin as (Hh & Hk & Hlt), Hin' as (Hh' & Hk' & Hlt'). unfold node_weight.
  case_bool_decide as Hc.
  - destruct Hc as [-> ->]. apply nth_lookup_Some, list_lookup_insert_eq. lia.
  - rewrite !nth_lookup, list_lookup_insert_ne; [done|]. intros E.
    destruct Hc. assert (node h k = node h' k') as E' by lia.
    apply node_inj in E' as [? ?]; lia.
Qed.

Lemma in_tree_children h k : in_tree d h k → 0 < h → in_tree d (h - 1) (2 * k) ∧ in_tree d (h - 1) (2 * k + 1).
Proof. intros Hin Hh. split; [apply in_tree_left|apply in_tree_right]; (done || lia). Qed.

Lemma short_step nw h k w :
  Z.of_nat (length nw) = 2 ^ d → in_tree d h k → h + 1 < d → short d h k w nw →
  short d (h + 1) (k / 2) w
    (<[Z.to_nat (node (h + 1) (k / 2)) := node_weight nw (h + 1) (k / 2) + w]> nw).
Proof.
  intros Hl Hin Hlt Hs h' k' Hin' Hpos. pose proof (in_tree_parent _ _ _ Hin Hlt) as Hpar.
  destruct (in_tree_children _ _ Hin' Hpos) as [Hc1 Hc2]. specialize (Hs h' k' Hin' Hpos).
  rewrite !node_weight_insert by done.
  set (q := k / 2) in *. clearbody q. pose proof (Z_div_mod_eq_full q 2) as Hq.
  pose proof (Z.mod_pos_bound q 2 ltac:(lia)) as Hr. set (r := q mod 2) in *. clearbody r.
  set (p := q / 2) in *. clearbody p. clear Hin Hin' Hpar Hc1 Hc2 Hl Hlt Hd.
  destruct (decide (h' = h + 1)) as [->|Hne1].
  { rewrite (bool_decide_false (h + 1 = h + 1 + 1 ∧ _)), !(bool_decide_false (h + 1 - 1 = h + 1 ∧ _)) by lia.
    destruct (decide (k' = q)) as [->|Hk].
    - rewrite bool_decide_true in * by done. lia.
    - rewrite bool_decide_false in * by lia. lia. }
  rewrite bool_decide_false in Hs by lia. rewrite (bool_decide_false (h' = h + 1 ∧ _)) by lia.
  destruct (decide (h' = h + 2)) as [->|Hne2].
  2:{ rewrite !bool_decide_false by lia. lia. }
  replace (h + 2 - 1) with (h + 1) in * by lia.
  destruct (decide (k' = p)) as [->|Hk].
  2:{ rewrite !bool_decide_false by lia. lia. }
  rewrite (bool_decide_true (h + 2 = h + 1 + 1 ∧ _)) by lia.
  assert (r = 0 ∨ r = 1) as [-> | ->] by lia.
  - assert (q = 2 * p) as -> by lia.
    rewrite (bool_decide_true (h + 1 = h + 1 ∧ 2 * p = _)), (bool_decide_false (_ ∧ 2 * p + 1 = _)) by lia. lia.
  - assert (q = 2 * p + 1) as -> by lia.
    rewrite (bool_decide_false (_ ∧ 2 * p = _)), (bool_decide_true (h + 1 = h + 1 ∧ _)) by lia. lia.
Qed.

Lemma root_in_tree : in_tree d (d - 1) 0.
Proof.
  split; [lia|]. split; [done|]. unfold node. rewrite Z.mul_1_r. apply Z.pow_lt_mono_r; lia.
Qed.

Lemma root_unique k : in_tree d (d - 1) k → k = 0.
Proof.
  intros (_ & Hk & Hlt). unfold node in Hlt. replace d with (d - 1 + 1) in Hlt at 2 by lia.
  rewrite Z.pow_add_r in Hlt by lia. apply Z.mul_lt_mono_pos_l in Hlt; [lia|].
  apply Z.pow_pos_nonneg; lia.
Qed.

(** The whole path: the sums hold again, nodes below it are untouched and the
    root has grown by [w]. *)
Lemma add_up_ok n : ∀ h k w nw,
  Z.of_nat (length nw) = 2 ^ d → in_tree d h k → h + 1 + Z.of_nat n = d → short d h k w nw →
  let nw' := add_up n h k w nw in
  inner_sums d nw' ∧ length nw' = length nw ∧
  (∀ h' k', in_tree d h' k' → h' <= h → node_weight nw' h' k' = node_weight nw h' k') ∧
  node_weight nw' (d - 1) 0 = node_weight nw (d - 1) 0 + (if bool_decide (h + 1 < d) then w else 0).
Proof.
  induction n as [|n IH]; intros h k w nw Hl Hin Hn Hs; cbn [add_up].
  { split; [|split; [done|split; [done|rewrite bool_decide_false by lia; lia]]].
    intros h' k' Hin' Hpos. rewrite <- Hs by done. destruct Hin' as (? & _).
    rewrite bool_decide_false by lia. lia. }
  pose proof (in_tree_parent _ _ _ Hin ltac:(lia)) as Hpar.
  pose proof (short_step nw h k w Hl Hin ltac:(lia) Hs) as Hs1.
  set (nw1 := <[_ := _]> nw) in *. assert (length nw1 = length nw) as Hl1 by apply length_insert.
  destruct (IH (h + 1) (k / 2) w nw1) as (Hsum & Hlen & Hlow & Hroot); [by rewrite Hl1|done|lia|done|].
  split; [done|]. split; [lia|]. split.
  - intros h' k' Hin' Hle. rewrite Hlow by (done || lia). unfold nw1.
    rewrite node_weight_insert by done. rewrite bool_decide_false by lia. done.
  - rewrite Hroot. unfold nw1. rewrite node_weight_insert by (done || apply root_in_tree).
    rewrite (bool_decide_true (h + 1 < d)) by lia. destruct (decide (h + 1 = d - 1)) as [E|Hne].
    + rewrite E in Hpar. pose proof (root_unique _ Hpar) as Ek. rewrite Ek, E.
      rewrite bool_decide_true by done. rewrite bool_decide_false by lia. lia.
    + rewrite bool_decide_false by lia. rewrite bool_decide_true by lia. lia.
Qed.

(** A node weighs at most what the root does. *)
Lemma le_root n : ∀ h k nw,
  in_tree d h k → h + 1 + Z.of_nat n = d → Forall is_u32 nw →
  (∀ h' k', in_tree d h' k' → h < h' →
     node_weight nw h' k' = node_weight nw (h' - 1) (2 * k') + node_weight nw (h' - 1) (2 * k' + 1)) →
  node_weight nw h k <= node_weight nw (d - 1) 0.
Proof.
  induction n as [|n IH]; intros h k nw Hin Hn Hu Hs.
  { assert (h = d - 1) as -> by lia. by rewrite (root_unique k). }
  pose proof (in_tree_parent _ _ _ Hin ltac:(lia)) as Hpar.
  assert (node_weight nw h k <= node_weight nw (h + 1) (k / 2)) as Hle.
  { rewrite (Hs (h + 1) (k / 2)) by (done || lia). replace (h + 1 - 1) with h by lia.
    assert (∀ j, 0 <= node_weight nw h j) as Hpos.
    { intros j. unfold node_weight. rewrite nth_lookup. destruct (nw !! _) eqn:E; simpl; [|lia].
      rewrite Forall_lookup in Hu. apply Hu in E. unfold is_u32 in E. lia. }
    pose proof (Hpos (2 * (k / 2))). pose proof (Hpos (2 * (k / 2) + 1)).
    pose proof (Z_div_mod_eq_full k 2). pose proof (Z.mod_pos_bound k 2 ltac:(lia)).
    assert (k = 2 * (k / 2) ∨ k = 2 * (k / 2) + 1) as [E|E] by lia; rewrite E at 1; lia. }
  etransitivity; [exact Hle|]. apply (IH (h + 1)); [done|lia|done|]. intros; apply Hs; [done|lia].
Qed.

Lemma node_weight_nonneg nw h k : Forall is_u32 nw → 0 <= node_weight nw h k.
Proof.
  intros Hu. unfold node_weight. rewrite nth_lookup. destruct (nw !! _) eqn:E; simpl; [|lia].
  rewrite Forall_lookup in Hu. apply Hu in E. unfold is_u32 in E. lia.
Qed.

Lemma node_weight_u32 nw h k : Forall is_u32 nw → is_u32 (node_weight nw h k).
Proof.
  intros Hu. unfold node_weight. rewrite nth_lookup. destruct (nw !! _) eqn:E; simpl; [|done].
  rewrite Forall_lookup in Hu. by apply Hu in E.
Qed.

(** The corrected parent is a [__u32] as long as the total is. *)
Lemma parent_value nw h k w n :
  in_tree d h k → h + 2 + Z.of_nat n = d → short d h k w nw → Forall is_u32 nw →
  node_weight nw (d - 1) 0 + w < 4294967296 →
  is_u32 (node_weight nw (h + 1) (k / 2) + w).
Proof.
  intros Hin Hn Hs Hu Hroot. pose proof (in_tree_parent _ _ _ Hin ltac:(lia)) as Hpar.
  pose proof (Hs (h + 1) (k / 2) Hpar ltac:(destruct Hin; lia)) as E.
  rewrite bool_decide_true in E by done. rewrite E.
  pose proof (node_weight_nonneg nw (h + 1 - 1) (2 * (k / 2)) Hu).
  pose proof (node_weight_nonneg nw (h + 1 - 1) (2 * (k / 2) + 1) Hu).
  assert (node_weight nw (h + 1) (k / 2) <= node_weight nw (d - 1) 0); [|unfold is_u32; lia].
  apply (le_root n); [done|lia|done|]. intros h' k' Hin' Hlt.
  rewrite <- Hs by (done || (destruct Hin; lia)). rewrite bool_decide_false by lia. lia.
Qed.

Lemma root_insert nw h k v :
  Z.of_nat (length nw) = 2 ^ d → in_tree d h k → h < d - 1 →
  node_weight (<[Z.to_nat (node h k) := v]> nw) (d - 1) 0 = node_weight nw (d - 1) 0.
Proof.
  intros Hl Hin Hlt. rewrite node_weight_insert by (done || apply root_in_tree).
  by rewrite bool_decide_false by lia.
Qed.

(** Reading and writing a node of the block. *)
Lemma node_rd (a : list (option Z)) nw h k :
  holds a nw → Z.of_nat (length nw) = 2 ^ d → in_tree d h k → rd a (node h k) = Ok (node_weight nw h k).
Proof.
  intros Ha Hl Hin. pose proof (in_tree_bound _ _ _ Hin) as [Hp Hb]. destruct Hin as (_ & _ & Hlt).
  apply (rd_holds a nw); [done|lia|]. unfold node_weight.
  destruct (lookup_lt_is_Some_2 nw (Z.to_nat (node h k))) as [v Hv]; [lia|].
  by rewrite Hv, (nth_lookup_Some _ _ 0 _ Hv).
Qed.

Lemma node_wr (a : list (option Z)) nw h k v :
  holds a nw → Z.of_nat (length nw) = 2 ^ d → in_tree d h k →
  ∃ a', wr a (node h k) v = Ok a' ∧ holds a' (<[Z.to_nat (node h k) := v]> nw) ∧ length a' = length a.
Proof.
  intros Ha Hl Hin. pose proof (in_tree_bound _ _ _ Hin) as [Hp Hb]. destruct Hin as (_ & _ & Hlt).
  pose proof (holds_length _ _ Ha). rewrite wr_ok by lia. eexists. split; [done|].
  split; [apply holds_insert; [done|lia]|apply length_insert].
Qed.

Lemma tree_add_up_ok n : ∀ h k w nw (a : list (option Z)),
  Z.of_nat (length nw) = 2 ^ d → in_tree d h k → h + 1 + Z.of_nat n = d → short d h k (u32 w) nw →
  Forall is_u32 nw → node_weight nw (d - 1) 0 + u32 w < 4294967296 ∨ h + 1 = d → holds a nw →
  ∃ a', tree_add_up n (node h k) w a = Ok (Some a') ∧ holds a' (add_up n h k (u32 w) nw) ∧
        length a' = length a ∧ Forall is_u32 (add_up n h k (u32 w) nw).
Proof.
  induction n as [|n IH]; intros h k w nw a Hl Hin Hn Hs Hu Hroot Ha; cbn [tree_add_up add_up].
  { by exists a. }
  assert (node_weight nw (d - 1) 0 + u32 w < 4294967296) as Hrt by (destruct Hroot; lia).
  pose proof (in_tree_parent _ _ _ Hin ltac:(lia)) as Hpar.
  pose proof (parent_value nw h k (u32 w) n Hin ltac:(lia) Hs Hu Hrt) as Hv.
  pose proof (node_weight_u32 nw (h + 1) (k / 2) Hu) as Hv0.
  rewrite (parent_node d) by (done || lia). cbn [mbind res_bind].
  rewrite (node_rd a nw) by done. cbn [mbind res_bind].
  rewrite crush_addition_is_unsafe_u32, (u32_small (node_weight _ _ _)) by done.
  rewrite (proj2 (Z.leb_gt _ _)) by (unfold is_u32 in Hv; lia).
  rewrite <- u32_add_r, (u32_small (_ + _)) by done.
  destruct (node_wr a nw (h + 1) (k / 2) (node_weight nw (h + 1) (k / 2) + u32 w)) as (a1 & -> & Ha1 & Hl1); [done..|].
  cbn [mbind res_bind].
  destruct (IH (h + 1) (k / 2) w (<[Z.to_nat (node (h + 1) (k / 2)) := node_weight nw (h + 1) (k / 2) + u32 w]> nw) a1)
    as (a' & E & Ha' & Hl' & Hu'); try done.
  - by rewrite length_insert.
  - lia.
  - apply short_step; (done || lia).
  - by apply Forall_insert.
  - destruct (decide (h + 1 + 1 = d)); [by right|left]. rewrite root_insert by (done || lia). done.
  - exists a'. rewrite E. split; [done|]. split; [done|]. split; [lia|done].
Qed.

(** The adjusting loop, in which the change may be negative. *)
Lemma tree_shift_up_ok n : ∀ h k w nw b o,
  Z.of_nat (length nw) = 2 ^ d → in_tree d h k → h + 1 + Z.of_nat n = d → short d h k w nw →
  Forall is_u32 nw → node_weight nw (d - 1) 0 + w < 4294967296 ∨ h + 1 = d → holds (tb_node_weights b) nw →
  ∃ a', tree_shift_up_f n (node h k) w (b, o) = Ok (tt, (set_f tb_nodes_f a' b, o)) ∧
        holds a' (add_up n h k w nw) ∧ length a' = length (tb_node_weights b) ∧
        Forall is_u32 (add_up n h k w nw).
Proof.
  induction n as [|n IH]; intros h k w nw b o Hl Hin Hn Hs Hu Hroot Ha; cbn [tree_shift_up_f add_up].
  { exists (tb_node_weights b). by destruct b. }
  assert (node_weight nw (d - 1) 0 + w < 4294967296) as Hrt by (destruct Hroot; lia).
  pose proof (in_tree_parent _ _ _ Hin ltac:(lia)) as Hpar.
  pose proof (parent_value nw h k w n Hin ltac:(lia) Hs Hu Hrt) as Hv.
  unfold mbind, M_bind, lift, rdf, wrf. rewrite (parent_node d) by (done || lia). cbn [get_f tb_nodes_f].
  rewrite (node_rd _ nw) by done. cbn [mbind res_bind]. rewrite (u32_small (_ + _)) by done.
  destruct (node_wr _ nw (h + 1) (k / 2) (node_weight nw (h + 1) (k / 2) + w) Ha Hl Hpar) as (a1 & -> & Ha1 & Hl1).
  cbn [mbind res_bind].
  destruct (IH (h + 1) (k / 2) w (<[Z.to_nat (node (h + 1) (k / 2)) := node_weight nw (h + 1) (k / 2) + w]> nw)
    (set_f tb_nodes_f a1 b) o) as (a' & E & Ha' & Hl' & Hu'); try done.
  - by rewrite length_insert.
  - lia.
  - apply short_step; (done || lia).
  - by apply Forall_insert.
  - destruct (decide (h + 1 + 1 = d)); [by right|left]. rewrite root_insert by (done || lia). done.
  - exists a'. simpl in *. rewrite E. split; [done|]. split; [done|]. split; [lia|done].
Qed.
End path.

Lemma in_tree_leaf d k : 1 <= d → 0 <= k < 2 ^ (d - 1) → in_tree d 0 k.
Proof.
  intros Hd Hk. split; [lia|]. split; [lia|]. unfold node. rewrite Z.mul_1_l.
  replace d with (d - 1 + 1) by lia. rewrite Z.pow_add_r by lia. lia.
Qed.

Lemma in_tree_leaf_inv d k : 1 <= d → in_tree d 0 k → 0 <= k < 2 ^ (d - 1).
Proof.
  intros Hd (_ & Hk & Hlt). unfold node in Hlt. rewrite Z.mul_1_l in Hlt.
  replace d with (d - 1 + 1) in Hlt by lia. rewrite Z.pow_add_r in Hlt by lia. lia.
Qed.

(** Writing a leaf leaves its parent short by the change. *)
Lemma leaf_short d nw k v :
  1 <= d <= 30 → Z.of_nat (length nw) = 2 ^ d → in_tree d 0 k → inner_sums d nw →
  short d 0 k (v - node_weight nw 0 k) (<[Z.to_nat (node 0 k) := v]> nw).
Proof.
  intros Hd Hl Hin Hs h' k' Hin' Hpos.
  destruct (in_tree_children d Hd _ _ Hin' Hpos) as [Hc1 Hc2]. specialize (Hs h' k' Hin' Hpos).
  rewrite !(node_weight_insert d Hd) by done.
  rewrite (bool_decide_false (h' = 0 ∧ _)) by lia.
  pose proof (Z_div_mod_eq_full k 2). pose proof (Z.mod_pos_bound k 2 ltac:(lia)).
  clear Hin Hin' Hc1 Hc2 Hl Hd.
  destruct (decide (h' = 1)) as [->|Hne].
  2:{ rewrite !bool_decide_false by lia. lia. }
  change (1 - 1) with 0 in *. change (0 + 1) with 1. destruct (decide (k' = k / 2)) as [->|Hk].
  2:{ rewrite !bool_decide_false by lia. lia. }
  rewrite (bool_decide_true (1 = 1 ∧ _)) by done.
  assert (k mod 2 = 0 ∨ k mod 2 = 1) as [E|E] by lia.
  - rewrite (bool_decide_true (0 = 0 ∧ 2 * (k / 2) = k)), (bool_decide_false (0 = 0 ∧ 2 * (k / 2) + 1 = k)) by lia.
    replace (2 * (k / 2)) with k in * by lia. lia.
  - rewrite (bool_decide_false (0 = 0 ∧ 2 * (k / 2) = k)), (bool_decide_true (0 = 0 ∧ 2 * (k / 2) + 1 = k)) by lia.
    replace (2 * (k / 2) + 1) with k in * by lia. lia.
Qed.

Lemma calc_tree_node_leaf i : 0 <= i < 1073741823 → crush_calc_tree_node i = node 0 i.
Proof.
  intros Hi. unfold crush_calc_tree_node, node. rewrite Z.shiftl_mul_pow2 by lia.
  rewrite (s32_small (i + 1)), (s32_small (_ * _)), s32_small by (unfold is_s32; lia). lia.
Qed.

(** The node weights of a tree of depth [d] with leaf weights [us]. *)
Record tree_nodes (d : Z) (us nw : list Z) : Prop := {
  tn_length : Z.of_nat (length nw) = 2 ^ d;
  tn_u32 : Forall is_u32 nw;
  tn_inner : inner_sums d nw;
  tn_leaves : ∀ k, in_tree d 0 k → node_weight nw 0 k = default 0 (us !! Z.to_nat k);
  tn_root : node_weight nw (d - 1) 0 = sum_list_Z us }.

(** Appending a leaf: set it, then add it to its ancestors. *)
Lemma tree_nodes_snoc d us nw w :
  1 <= d <= 30 → tree_nodes d us nw → Z.of_nat (length us) < 2 ^ (d - 1) → is_u32 w →
  sum_list_Z us + w < 4294967296 →
  let k := Z.of_nat (length us) in
  let nw1 := <[Z.to_nat (node 0 k) := w]> nw in
  Z.of_nat (length nw1) = 2 ^ d ∧ in_tree d 0 k ∧ short d 0 k w nw1 ∧ Forall is_u32 nw1 ∧
  (node_weight nw1 (d - 1) 0 + w < 4294967296 ∨ 0 + 1 = d) ∧
  (Forall is_u32 (add_up (Z.to_nat (d - 1)) 0 k w nw1) →
   tree_nodes d (us ++ [w]) (add_up (Z.to_nat (d - 1)) 0 k w nw1)).
Proof.
  intros Hd [Hl Hu Hi Hlv Hr] Hfit Hw Hsum k nw1.
  pose proof (in_tree_leaf d k ltac:(lia) ltac:(lia)) as Hin.
  assert (node_weight nw 0 k = 0) as Hk0.
  { rewrite Hlv by done. rewrite lookup_ge_None_2 by (unfold k; lia). done. }
  pose proof (leaf_short d nw k w Hd Hl Hin Hi) as Hs. rewrite Hk0, Z.sub_0_r in Hs. fold nw1 in Hs.
  assert (Z.of_nat (length nw1) = 2 ^ d) as Hl1 by (unfold nw1; by rewrite length_insert).
  assert (d - 1 ≠ 0 → node_weight nw1 (d - 1) 0 = sum_list_Z us) as Hroot1.
  { intros Hne. unfold nw1. rewrite (root_insert d Hd) by (done || lia). done. }
  split; [done|]. split; [done|]. split; [done|]. split; [by apply Forall_insert|]. split.
  { destruct (decide (d = 1)); [by right|left]. rewrite Hroot1 by lia. done. }
  intros Hu'. destruct (add_up_ok d Hd (Z.to_nat (d - 1)) 0 k w nw1 Hl1 Hin ltac:(lia) Hs)
    as (Hsums & Hlen & Hlow & Hroot). split; try done.
  - by rewrite Hlen.
  - intros j Hj. rewrite Hlow by (done || lia). unfold nw1. rewrite (node_weight_insert d Hd) by done.
    pose proof (in_tree_leaf_inv d j ltac:(lia) Hj) as Hjr.
    destruct (decide (j = k)) as [->|Hne].
    + rewrite bool_decide_true by done. unfold k. by rewrite Nat2Z.id, list_lookup_middle by done.
    + rewrite bool_decide_false by lia. rewrite Hlv by done. f_equal.
      destruct (decide (j < k)); [by rewrite lookup_app_l by lia|].
      rewrite !lookup_ge_None_2; [done|rewrite length_app; simpl; lia|lia].
  - rewrite Hroot, sum_list_Z_app. simpl. destruct (decide (d = 1)) as [->|Hne].
    + rewrite bool_decide_false by lia. change (1 - 1) with 0. unfold nw1.
      pose proof (in_tree_leaf_inv 1 k ltac:(lia) Hin) as Hk. change (2 ^ (1 - 1)) with 1 in Hk.
      assert (k = 0) as Ek by lia.
      rewrite (node_weight_insert 1 ltac:(lia)) by (done || by rewrite <- Ek).
      rewrite bool_decide_true by lia. destruct us as [|? ?]; [simpl; lia|unfold k in Ek; simpl in Ek; lia].
    + rewrite bool_decide_true by lia. rewrite Hroot1 by lia. lia.
Qed.

(** ** crush_make_tree_bucket *)

Lemma tree_nodes_nil d : 1 <= d <= 30 → tree_nodes d [] (replicate (Z.to_nat (2 ^ d)) 0).
Proof.
  intros Hd. pose proof (Z.pow_pos_nonneg 2 d ltac:(lia) ltac:(lia)).
  assert (∀ h k, node_weight (replicate (Z.to_nat (2 ^ d)) 0) h k = 0) as H0.
  { intros h k. unfold node_weight. rewrite nth_lookup.
    destruct (replicate _ 0 !! _) eqn:E; [|done]. by apply lookup_replicate in E as [-> _]. }
  split; rewrite ?H0; try done.
  - rewrite length_replicate. lia.
  - by apply Forall_replicate.
  - intros h k _ _. by rewrite !H0.
Qed.

Lemma holds_zero_block n : holds (zero_block n) (replicate (Z.to_nat n) 0).
Proof. unfold zero_block. exists []. unfold cells. by rewrite fmap_replicate, app_nil_r. Qed.

Definition tree_filled (l us : list Z) (d : Z) (la : nat)
    (r : option (list (option Z) * list (option Z) * Z)) : Prop :=
  match r with
  | None => 4294967296 <= sum_list_Z us
  | Some (its, a, w) =>
      ∃ nw, holds its l ∧ length its = la ∧ holds a nw ∧ tree_nodes d us nw ∧
            w = sum_list_Z us ∧ sum_list_Z us < 4294967296
  end.

Lemma tree_fill_ok items weights l ws d n : ∀ i its a nw weight,
  let us := u32 <$> ws in
  holds items l → holds weights ws → length ws = length l → 1 <= d <= 30 →
  Z.of_nat (length l) <= 2 ^ (d - 1) → (i + n = length l)%nat → (length l <= length its)%nat →
  holds its (take i l) → holds a nw → tree_nodes d (take i us) nw →
  weight = sum_list_Z (take i us) → weight < 4294967296 →
  rwp (tree_fill items weights d n (Z.of_nat i) its a weight) (tree_filled l us d (length its)).
Proof.
  induction n as [|n IH]; intros i its a nw weight us Hi Hw Hlen Hd Hfit Hin Hla Hits Ha Htn -> Hlt;
    cbn [tree_fill].
  { replace i with (length l) in * by lia. rewrite firstn_all in Hits.
    rewrite (firstn_all2 us) in * by (unfold us; rewrite length_fmap; lia). simpl. by exists nw. }
  destruct (lookup_lt_is_Some_2 l i) as [v Hv]; [lia|].
  destruct (lookup_lt_is_Some_2 ws i) as [wv Hwv]; [lia|].
  assert (us !! i = Some (u32 wv)) as Hu by (unfold us; by rewrite list_lookup_fmap, Hwv).
  assert (length us = length l) as Hlu by (unfold us; by rewrite length_fmap).
  assert (Z.of_nat (length (take i us)) = Z.of_nat i) as Hlt' by (rewrite length_take; lia).
  rewrite (rd_at items l i v) by done. cbn [mbind res_bind].
  destruct (wr_fill its l i v) as (its' & -> & Hits' & Hla'); [done|done|lia|]. cbn [mbind res_bind].
  rewrite (rd_at weights ws i wv) by done. cbn [mbind res_bind].
  assert (2 ^ (d - 1) <= 2 ^ 29) as H29 by (apply Z.pow_le_mono_r; lia).
  rewrite calc_tree_node_leaf by lia.
  assert (in_tree d 0 (Z.of_nat i)) as Hleaf by (apply in_tree_leaf; lia).
  destruct (node_wr d Hd a nw 0 (Z.of_nat i) (u32 wv)) as (a1 & -> & Ha1 & Hl1); [done|apply Htn|done|].
  cbn [mbind res_bind]. pose proof (u32_range wv) as Hr.
  assert (0 <= sum_list_Z (take i us)) as Hnn.
  { apply sum_list_Z_nonneg, Forall_take. eapply Forall_impl; [apply Forall_u32|]. unfold is_u32. lia. }
  rewrite crush_addition_is_unsafe_u32, (u32_small (sum_list_Z _)) by (unfold is_u32; lia).
  rewrite <- (sum_take_S us i (u32 wv)) by done.
  pose proof (sum_take_le us (S i) (Forall_u32 ws)) as Hle.
  destruct (Z.leb_spec 4294967296 (sum_list_Z (take (S i) us))) as [Hov|Hok]; [simpl; lia|].
  rewrite (sum_take_S us i (u32 wv)) in Hok by done.
  destruct (tree_nodes_snoc d (take i us) nw (u32 wv)) as (H1 & H2 & H3 & H4 & H5 & H6);
    [done|done|lia|done|lia|]. rewrite Hlt' in *.
  destruct (tree_add_up_ok d Hd (Z.to_nat (d - 1)) 0 (Z.of_nat i) wv _ a1 H1 H2 ltac:(lia) H3 H4 H5 Ha1)
    as (a2 & -> & Ha2 & Hl2 & Hu2). cbn [mbind res_bind].
  replace (Z.of_nat i + 1) with (Z.of_nat (S i)) by lia. rewrite <- Hla'.
  rewrite <- (take_S_r us i (u32 wv)) in H6 by done.
  eapply IH; try done; try lia; [by apply H6| |].
  - fold us. rewrite <- u32_add_r, (sum_take_S us i (u32 wv)) by done. apply u32_small. unfold is_u32 in *. lia.
  - rewrite <- u32_add_r, u32_small by (unfold is_u32 in *; lia). lia.
Qed.

(** The depth chosen for up to 64 items keeps [num_nodes] within its byte. *)
Lemma small_depth d size : 1 <= d → size <= 64 → (1 < d → 2 ^ (d - 2) < size) → d <= 7.
Proof.
  intros Hd Hs Hlt. destruct (decide (d <= 7)); [done|]. specialize (Hlt ltac:(lia)).
  pose proof (Z.pow_le_mono_r 2 6 (d - 2)). lia.
Qed.

Section make_tree.
Context (hash type : Z) (items weights : list (option Z)) (l ws : list Z).
Context (Hitems : holds items l) (Hweights : holds weights ws) (Hlen : length ws = length l)
  (Hsize : 1 <= Z.of_nat (length l) <= 64).

Definition made_tree (b : crush_bucket_tree) (us : list Z) : Prop :=
  made_header hash type l (tb_h b) (sum_list_Z us) ∧
  ∃ d nw, tree_wf b l nw d ∧ tree_nodes d us nw ∧ 2 ^ (d - 2) < Z.of_nat (length l).

Lemma make_tree_ok o :
  wp (crush_make_tree_bucket hash type (Z.of_nat (length l)) items weights) o (λ r _,
    let us := u32 <$> ws in
    (allocs_ok o → sum_list_Z us < 4294967296 → r ≠ None) ∧
    ∀ b, r = Some b → sum_list_Z us < 4294967296 ∧ made_tree b us).
Proof.
  unfold crush_make_tree_bucket.
  apply (malloc_or_ok (allocs_ok o)); [lia|done|by intros ? ?; split; [|done]|intros ? ?].
  rewrite (proj2 (Z.eqb_neq _ 0)) by lia.
  do 2 (apply (malloc_or_ok (allocs_ok o)); [lia|done|by intros ? ?; split; [|done]|intros ? ?]).
  destruct (calc_depth_ok (Z.of_nat (length l)) ltac:(lia)) as (d & Ed & Hd & Hfit & Hmin).
  assert (d <= 7) as Hd7 by (eapply small_depth; [| |done]; lia).
  apply wp_bind, wp_lift. rewrite Ed. cbn [rwp].
  apply wp_bind, wp_lift. rewrite shl1_ok by lia. cbn [rwp].
  assert (2 <= 2 ^ d <= 128) as H2d.
  { split; [change 2 with (2 ^ 1) at 1|change 128 with (2 ^ 7)]; apply Z.pow_le_mono_r; lia. }
  rewrite (u8_small (2 ^ d)) by lia.
  apply (malloc_or_ok (allocs_ok o)); [lia|done|by intros ? ?; split; [|done]|intros ? ?].
  apply wp_bind, wp_lift. rewrite Nat2Z.id. eapply rwp_mono.
  { apply (tree_fill_ok items weights l ws d (length l) 0 (zero_block (Z.of_nat (length l)))
      (zero_block (2 ^ d)) (replicate (Z.to_nat (2 ^ d)) 0)); try done; try lia.
    - unfold zero_block. rewrite length_replicate. lia.
    - apply holds_nil.
    - apply holds_zero_block.
    - apply tree_nodes_nil. lia. }
  intros [[[its a] w]|]; simpl.
  2:{ intros Hov. split; [lia|done]. }
  intros (nw & Hits & _ & Ha & Htn & -> & Hok). apply wp_bind, wp_lift.
  assert (2 ^ d / 2 = node (d - 1) 0) as Er.
  { unfold node. replace d with (d - 1 + 1) at 1 by lia. rewrite Z.pow_add_r by lia.
    change (2 ^ 1) with 2. rewrite Z.div_mul by lia. lia. }
  rewrite Er, (node_rd d ltac:(lia) a nw) by (first [done|apply Htn|apply root_in_tree; lia]). cbn [rwp].
  rewrite (tn_root _ _ _ Htn). apply wp_bind, wp_lift. rewrite Z.eqb_refl. cbn [assert_c rwp].
  apply wp_ret. split; [done|]. intros b [= <-]. split; [done|]. split.
  { split; [by apply new_header_wf; [|lia]|done]. }
  exists d, nw. split; [|split; [done|]].
  2:{ destruct (decide (1 < d)); [by apply Hmin|]. replace d with 1 by lia. simpl. lia. }
  split; simpl; try done; try lia.
  - apply u32_small. unfold is_u32. lia.
  - apply Htn.
  - apply Htn.
  - split; [apply Htn|]. intros k Hk Hge. rewrite (tn_leaves _ _ _ Htn) by done.
    rewrite lookup_ge_None_2; [done|]. rewrite length_fmap. lia.
Qed.
End make_tree.
