(* ===== verification/StrawSpec.v ===== *)
(** * Straw lengths (src/crush/builder.c, crush_calc_straw)

    The insertion sort orders the item indices by weight, and the main loop then
    visits each index once: every item gets a straw, and items of weight 0 get a
    straw of length 0.  This holds for every [pow]. *)

From Stdlib Require Import SpecFloat Sorting.Sorted.
From S2P Require Import Prelude Hash CrushTypes Ln Nodes Choose ChoosePerm ChooseSpec.
From S2P Require Import BuilderBase Builder MakeSpec.

(** ** The sort *)

Section sort.
Context (ws : list Z).

Definition wt (i : Z) : Z := default 0 (ws !! Z.to_nat i).

(** Insertion before the first index of greater weight. *)
Fixpoint ins (i : Z) (p : list Z) : list Z :=
  match p with
  | [] => [i]
  | x :: p => if wt i <? wt x then i :: x :: p else x :: ins i p
  end.

Fixpoint sorted_indices (n : nat) : list Z :=
  match n with O => [] | S n => ins (Z.of_nat n) (sorted_indices n) end.

Lemma ins_Permutation i p : ins i p ≡ₚ i :: p.
Proof.
  induction p as [|x p IH]; [done|]. simpl. case_match; [done|]. rewrite IH. apply perm_swap.
Qed.

Lemma sorted_indices_Permutation n : sorted_indices n ≡ₚ seqZ 0 (Z.of_nat n).
Proof.
  induction n as [|n IH]; [done|]. simpl. rewrite ins_Permutation, IH.
  replace (Z.pos (Pos.of_succ_nat n)) with (Z.succ (Z.of_nat n)) by lia.
  rewrite seqZ_S by lia. rewrite Z.add_0_l. apply Permutation_cons_append.
Qed.

Lemma length_sorted_indices n : length (sorted_indices n) = n.
Proof. rewrite (sorted_indices_Permutation n), length_seqZ. lia. Qed.

Lemma ins_sorted i p :
  StronglySorted (λ a b, wt a <= wt b) p → StronglySorted (λ a b, wt a <= wt b) (ins i p).
Proof.
  induction p as [|x p IH]; intros Hs; simpl.
  { apply SSorted_cons; [apply SSorted_nil|constructor]. }
  apply StronglySorted_inv in Hs as [Hs Hx]. destruct (Z.ltb_spec (wt i) (wt x)) as [Hlt|Hge].
  - constructor; [by constructor|]. constructor; [lia|].
    eapply Forall_impl; [done|]. simpl. intros. lia.
  - constructor; [by apply IH|]. rewrite ins_Permutation. by constructor.
Qed.

Lemma sorted_indices_sorted n : StronglySorted (λ a b, wt a <= wt b) (sorted_indices n).
Proof. induction n as [|n IH]; [constructor|]. by apply ins_sorted. Qed.

Lemma sorted_indices_range n i : i ∈ sorted_indices n → 0 <= i < Z.of_nat n.
Proof. rewrite sorted_indices_Permutation, elem_of_seqZ. lia. Qed.

(** ** The code of the sort *)

Context (weights : list (option Z)) (Hweights : holds weights ws).

Lemma weight_rd i : 0 <= i < Z.of_nat (length ws) → rd weights i = Ok (wt i).
Proof.
  intros Hi. destruct (lookup_lt_is_Some_2 ws (Z.to_nat i)) as [w Hw]; [lia|].
  rewrite (rd_holds weights ws i w) by (done || lia). unfold wt. by rewrite Hw.
Qed.

(** The state of the shifting loop at [k]. *)
Definition shifted (p : list Z) (k : nat) : list Z := take (S k) p ++ drop k p.

Lemma shifted_step (rev : list (option Z)) p k v :
  holds rev (shifted p (S k)) → (S k <= length p)%nat → (length p < length rev)%nat → p !! k = Some v →
  ∃ rev', wr rev (Z.of_nat (S k)) v = Ok rev' ∧ holds rev' (shifted p k) ∧ length rev' = length rev.
Proof.
  intros Hr Hk Hl Hv. rewrite wr_ok by lia. rewrite Nat2Z.id. eexists. split; [done|].
  split; [|apply length_insert]. unfold shifted in *. destruct (decide (S k = length p)) as [E|Hne].
  - rewrite firstn_all2, drop_ge, app_nil_r in Hr by lia.
    rewrite firstn_all2 by lia. rewrite (drop_S _ v) by done. rewrite drop_ge by lia. rewrite E.
    by apply holds_snoc.
  - destruct (lookup_lt_is_Some_2 p (S k)) as [u Hu]; [lia|].
    assert (take (S k) p ++ drop k p = <[S k := v]> (take (S (S k)) p ++ drop (S k) p)) as ->.
    { rewrite (take_S_r p (S k) u) by done. rewrite (drop_S p v k) by done.
      rewrite <- app_assoc, insert_app_r_alt by (rewrite length_take; lia).
      rewrite length_take_le, Nat.sub_diag by lia. done. }
    apply holds_insert; [done|]. rewrite length_app, length_take. lia.
Qed.

Lemma shift_up_ok n : ∀ (rev : list (option Z)) p j,
  (j + n <= length p)%nat → (length p < length rev)%nat → holds rev (shifted p (j + n)) →
  ∃ rev', shift_up n (Z.of_nat (j + n)) rev = Ok rev' ∧ holds rev' (shifted p j) ∧
          length rev' = length rev.
Proof.
  induction n as [|n IH]; intros rev p j Hjn Hl Hr; cbn [shift_up].
  { rewrite Nat.add_0_r in *. by exists rev. }
  rewrite Nat.add_succ_r in *. destruct (lookup_lt_is_Some_2 p (j + n)) as [v Hv]; [lia|].
  replace (Z.of_nat (S (j + n)) - 1) with (Z.of_nat (j + n)) by lia.
  rewrite (rd_at rev _ (j + n) v Hr).
  2:{ unfold shifted. rewrite lookup_app_l by (rewrite length_take; lia).
      by rewrite lookup_take_lt by lia. }
  cbn [mbind res_bind]. destruct (shifted_step rev p (j + n) v) as (rev1 & -> & Hr1 & Hl1); [done..|].
  cbn [mbind res_bind]. destruct (IH rev1 p j) as (rev' & E & ? & ?); [lia|lia|done|].
  exists rev'. split; [done|]. split; [done|lia].
Qed.

Lemma insert_scan_ok n : ∀ (rev : list (option Z)) p j,
  (j + n = length p)%nat → (length p < length rev)%nat → (length p < length ws)%nat →
  Forall (λ x, 0 <= x < Z.of_nat (length ws)) p → holds rev p →
  ∃ rev', insert_scan weights (Z.of_nat (length p)) n (Z.of_nat j) rev = Ok rev' ∧
    holds rev' (take j p ++ ins (Z.of_nat (length p)) (drop j p)) ∧ length rev' = length rev.
Proof.
  induction n as [|n IH]; intros rev p j Hjn Hl Hlw Hf Hr; cbn [insert_scan].
  - rewrite Nat.add_0_r in Hjn. subst j. rewrite wr_ok by lia. rewrite Nat2Z.id. eexists.
    split; [done|]. split; [|apply length_insert]. rewrite firstn_all, drop_all. by apply holds_snoc.
  - destruct (lookup_lt_is_Some_2 p j) as [x Hx]; [lia|].
    rewrite weight_rd by lia. cbn [mbind res_bind]. rewrite (rd_at rev p j x Hr Hx). cbn [mbind res_bind].
    pose proof Hf as Hf'. rewrite Forall_lookup in Hf'. rewrite weight_rd by (by eapply Hf'). cbn [mbind res_bind].
    rewrite (drop_S p x j) by done. simpl ins.
    destruct (wt (Z.of_nat (length p)) <? wt x).
    + replace (Z.to_nat (Z.of_nat (length p) - Z.of_nat j)) with (S n) by lia.
      destruct (shift_up_ok (S n) rev p j) as (rev1 & Esh & Hr1 & Hl1); [lia|done| |].
      { rewrite Hjn. unfold shifted. rewrite firstn_all2, drop_all, app_nil_r by lia. done. }
      rewrite Hjn in Esh. rewrite Esh. cbn [mbind res_bind]. rewrite wr_ok by lia. rewrite Nat2Z.id. eexists. split; [done|].
      split; [|rewrite length_insert; lia]. rewrite <- (drop_S p x j) by done.
      assert (take j p ++ Z.of_nat (length p) :: drop j p = <[j := Z.of_nat (length p)]> (shifted p j)) as ->.
      { unfold shifted. rewrite (take_S_r p j x) by done. rewrite <- app_assoc.
        rewrite insert_app_r_alt by (rewrite length_take; lia).
        by rewrite length_take_le, Nat.sub_diag by lia. }
      apply holds_insert; [done|]. unfold shifted. rewrite length_app, length_take. lia.
    + replace (Z.of_nat j + 1) with (Z.of_nat (S j)) by lia.
      destruct (IH rev p (S j)) as (rev' & E & H1 & H2); [lia|done..|].
      exists rev'. split; [done|]. rewrite (take_S_r p j x) in H1 by done.
      rewrite <- app_assoc in H1. done.
Qed.

Lemma sort_reverse_ok (rev : list (option Z)) :
  length rev = length ws →
  rwp (sort_reverse weights (Z.of_nat (length ws)) rev)
      (λ rev', holds rev' (sorted_indices (length ws)) ∧ length rev' = length ws).
Proof.
  intros Hl. unfold sort_reverse. destruct (Z.eqb_spec (Z.of_nat (length ws)) 0) as [E|Hne].
  { destruct ws; [|done]. split; [apply holds_nil|done]. }
  rewrite wr_ok by lia. cbn [mbind res_bind]. set (rev0 := <[_ := _]> rev).
  assert (length rev0 = length ws) as Hl0 by (unfold rev0; by rewrite length_insert).
  eapply rwp_mono.
  - apply (for_up_rule (λ i r, 1 <= i ∧ holds r (sorted_indices (Z.to_nat i)) ∧ length r = length ws)).
    { split; [done|]. split; [|done]. simpl. change (Z.to_nat 0) with (length (@nil Z)) in rev0.
      apply (holds_snoc rev [] 0); [apply holds_nil|simpl; lia]. }
    intros j r Hj (Hj1 & Hr & Hlr).
    destruct (insert_scan_ok (Z.to_nat j) r (sorted_indices (Z.to_nat j)) 0) as (r' & E & Hr' & Hl');
      rewrite ?length_sorted_indices; try done; try lia.
    { apply Forall_forall. intros x Hx%sorted_indices_range. lia. }
    rewrite length_sorted_indices in E. rewrite Z2Nat.id in E by lia. change (Z.of_nat 0) with 0 in E.
    rewrite E. cbn [rwp]. rewrite drop_0, take_0, length_sorted_indices in Hr'.
    replace (Z.to_nat (j + 1)) with (S (Z.to_nat j)) by lia. split; [lia|]. split; [done|lia].
  - intros r (_ & Hr & Hlr).
    replace (Z.to_nat (1 + Z.of_nat (Z.to_nat (Z.of_nat (length ws) - 1)))) with (length ws) in Hr by lia.
    done.
Qed.
End sort.

(** ** The main loop *)

Lemma u32_of_d_range d : is_u32 (u32_of_d d).
Proof. unfold u32_of_d. repeat case_match; try apply u32_range; done. Qed.

Section loop.
Context (pow : double → double → double) (version : Z).
Context (ws : list Z) (weights rev : list (option Z)).
Context (Hweights : holds weights ws) (Hrev : holds rev (sorted_indices ws (length ws))).

#[local] Abbreviation n := (length ws).
#[local] Abbreviation perm := (sorted_indices ws n).

Lemma perm_at i : 0 <= i < Z.of_nat n →
  ∃ x, perm !! Z.to_nat i = Some x ∧ 0 <= x < Z.of_nat n ∧ rd rev i = Ok x ∧
       rd weights x = Ok (wt ws x).
Proof.
  intros Hi. destruct (lookup_lt_is_Some_2 perm (Z.to_nat i)) as [x Hx].
  { rewrite length_sorted_indices. lia. }
  assert (0 <= x < Z.of_nat n) as Hr by (eapply sorted_indices_range, list_elem_of_lookup_2, Hx).
  exists x. split; [done|]. split; [done|]. split; [by apply (rd_holds rev perm); [| lia|]|].
  by apply weight_rd.
Qed.

Lemma weight_at_ok i : 0 <= i < Z.of_nat n → ∃ w, weight_at weights rev i = Ok w.
Proof.
  intros Hi. destruct (perm_at i Hi) as (x & _ & _ & Er & Ew). unfold weight_at.
  rewrite Er. cbn [mbind res_bind]. rewrite Ew. by eexists.
Qed.

Lemma drop_same_ok m : ∀ i j numleft,
  0 <= i < Z.of_nat n → 0 <= j → j + Z.of_nat m <= Z.of_nat n →
  ∃ k, drop_same weights rev m i j numleft = Ok k.
Proof.
  induction m as [|m IH]; intros i j numleft Hi Hj Hm; cbn [drop_same]; [by eexists|].
  destruct (perm_at j) as (x & _ & _ & -> & Ew); [lia|]. cbn [mbind res_bind]. rewrite Ew. cbn [mbind res_bind].
  destruct (perm_at i Hi) as (y & _ & _ & -> & Ey). cbn [mbind res_bind]. rewrite Ey. cbn [mbind res_bind].
  destruct (_ =? _); [|by eexists]. apply IH; lia.
Qed.

Lemma next_straw_ok i v : 0 < i < Z.of_nat n → ∃ v', next_straw pow version weights rev (Z.of_nat n) i v = Ok v'.
Proof.
  intros Hi. unfold next_straw. destruct (weight_at_ok (i - 1)) as [w1 ->]; [lia|]. cbn [mbind res_bind].
  destruct (weight_at_ok i) as [w ->]; [lia|]. cbn [mbind res_bind].
  destruct (version =? 0); [|by eexists].
  destruct (drop_same_ok (Z.to_nat (Z.of_nat n - i)) i i (sv_numleft v)) as [k ->]; [lia..|]. by eexists.
Qed.

(** The straws of the first [k] indices of the sorted order are set. *)
Definition straws_set (k : nat) (st : list (option Z)) : Prop :=
  (n <= length st)%nat ∧
  ∀ q x, (q < k)%nat → perm !! q = Some x →
    ∃ s, st !! Z.to_nat x = Some (Some s) ∧ is_u32 s ∧ (wt ws x = 0 → s = 0).

Lemma straws_set_step k st x s :
  straws_set k st → perm !! k = Some x → is_u32 s → (wt ws x = 0 → s = 0) →
  ∃ st', wr st x s = Ok st' ∧ straws_set (S k) st'.
Proof.
  intros [Hl Hset] Hx Hs H0.
  assert (0 <= x < Z.of_nat n) as Hr by (eapply sorted_indices_range, list_elem_of_lookup_2, Hx).
  rewrite wr_ok by lia. eexists. split; [done|]. split; [by rewrite length_insert|].
  intros q y Hq Hy. destruct (decide (y = x)) as [->|Hne].
  - exists s. split; [apply list_lookup_insert_eq; lia|done].
  - assert (0 <= y < Z.of_nat n) by (eapply sorted_indices_range, list_elem_of_lookup_2, Hy).
    rewrite list_lookup_insert_ne by lia. apply (Hset q); [|done].
    destruct (decide (q = k)) as [->|]; [congruence|lia].
Qed.

Lemma straw_loop_ok m : ∀ i v st,
  (i + m = n)%nat → straws_set i st →
  rwp (straw_loop pow version weights rev (Z.of_nat n) m (Z.of_nat i) v st) (straws_set n).
Proof.
  induction m as [|m IH]; intros i v st Him Hst; cbn [straw_loop].
  { by replace n with i by lia. }
  destruct (perm_at (Z.of_nat i)) as (x & Hx & _ & -> & Ew); [lia|]. rewrite Nat2Z.id in Hx.
  cbn [mbind res_bind]. rewrite Ew. cbn [mbind res_bind].
  replace (Z.of_nat i + 1) with (Z.of_nat (S i)) by lia.
  destruct (Z.eqb_spec (wt ws x) 0) as [E0|Hne].
  { destruct (straws_set_step i st x 0) as (st' & -> & Hst'); [done|done|done|done|].
    cbn [mbind res_bind]. apply IH; [lia|done]. }
  set (s := u32_of_d _). destruct (straws_set_step i st x s) as (st' & -> & Hst');
    [done|done|apply u32_of_d_range|done|]. cbn [mbind res_bind].
  destruct (Z.eqb_spec (Z.of_nat (S i)) (Z.of_nat n)) as [E|Hlt].
  { simpl. by replace n with (S i) by lia. }
  destruct (next_straw_ok (Z.of_nat (S i)) v) as [v' Ev]; [lia|].
  destruct (version =? 0).
  - destruct (weight_at_ok (Z.of_nat (S i))) as [w1 ->]; [lia|]. cbn [mbind res_bind].
    destruct (w1 =? wt ws x); [apply IH; [lia|done]|]. rewrite Ev. cbn [mbind res_bind].
    apply IH; [lia|done].
  - cbn [mbind res_bind]. rewrite Ev. cbn [mbind res_bind]. apply IH; [lia|done].
Qed.

(** Read back as a list. *)
Lemma straws_set_holds st :
  straws_set n st → ∃ ss, holds st ss ∧ length ss = n ∧ Forall is_u32 ss ∧
    ∀ i, ws !! i = Some 0 → ss !! i = Some 0.
Proof.
  intros [Hl Hset].
  assert (∀ i, (i < n)%nat → ∃ s, st !! i = Some (Some s) ∧ is_u32 s ∧ (wt ws (Z.of_nat i) = 0 → s = 0)) as Hall.
  { intros i Hi. assert (Z.of_nat i ∈ perm) as Hin.
    { rewrite sorted_indices_Permutation. apply elem_of_seqZ. lia. }
    apply list_elem_of_lookup in Hin as [q Hq].
    destruct (Hset q (Z.of_nat i)) as (s & H1 & H2); [|done|].
    { apply lookup_lt_Some in Hq. by rewrite length_sorted_indices in Hq. }
    rewrite Nat2Z.id in H1. by exists s. }
  exists (default 0 <$> take n st).
  assert (cells (default 0 <$> take n st) = take n st) as Ec.
  { apply list_eq. intros i. unfold cells. rewrite !list_lookup_fmap.
    destruct (take n st !! i) as [c|] eqn:Ei; [|done]. apply lookup_take_Some in Ei as [Ei Hi].
    destruct (Hall i Hi) as (s & Hs & _). rewrite Ei in Hs. by injection Hs as ->. }
  split; [exists (drop n st); by rewrite Ec, take_drop|]. split; [rewrite length_fmap, length_take; lia|]. split.
  - apply Forall_lookup. intros i s Hs. rewrite list_lookup_fmap in Hs.
    destruct (take n st !! i) as [c|] eqn:Ei; [|done]. apply lookup_take_Some in Ei as [Ei Hi].
    destruct (Hall i Hi) as (s' & Hs' & Hu & _). rewrite Ei in Hs'. injection Hs' as ->.
    simpl in Hs. by injection Hs as <-.
  - intros i Hi. pose proof (lookup_lt_Some _ _ _ Hi).
    destruct (Hall i) as (s & Hs & _ & H0); [lia|].
    rewrite list_lookup_fmap, lookup_take_lt, Hs by lia. simpl. f_equal. apply H0. unfold wt. by rewrite Nat2Z.id, Hi.
Qed.
End loop.

(** ** The whole computation *)

Definition straws_ok (ws ss : list Z) : Prop :=
  length ss = length ws ∧ Forall is_u32 ss ∧ ∀ i, ws !! i = Some 0 → ss !! i = Some 0.

(** It fails only when its scratch array cannot be allocated, and then it has
    changed nothing. *)
Lemma crush_calc_straw_ok pow version b ws o :
  holds (sb_item_weights b) ws → b_size (sb_h b) = Z.of_nat (length ws) →
  Z.of_nat (length ws) < 65535 → (length ws <= length (sb_straws b))%nat →
  wp (crush_calc_straw pow version) (b, o) (λ r '(b', o'),
    (allocs_ok o → r = 0 ∧ allocs_ok o') ∧ (r = - ENOMEM ∧ b' = b ∨ r = 0 ∧
      ∃ st ss, b' = CrushBucketStraw (sb_h b) (sb_item_weights b) st ∧ holds st ss ∧ straws_ok ws ss)).
Proof.
  intros Hw Hs Hlt Hl. unfold wp, crush_calc_straw. rewrite Hs.
  rewrite s32_small by (unfold is_s32; lia). destruct (next_alloc o) as [ok o1] eqn:Eo.
  assert (allocs_ok o → ok = true ∧ allocs_ok o1) as Hok.
  { intros Ho. destruct o as [|c o]; simpl in Eo; simplify_eq; [split; [done|constructor]|].
    by inversion Ho. }
  destruct ok; simpl negb; cbn match.
  2:{ simpl. split; [|by left]. intros Ho. by destruct (Hok Ho). }
  apply rwp_bind. eapply rwp_mono.
  { apply (sort_reverse_ok ws (sb_item_weights b) Hw). rewrite length_fresh_block. lia. }
  intros rev [Hrev _]. apply rwp_bind. rewrite Nat2Z.id. eapply rwp_mono.
  { apply (straw_loop_ok pow version ws (sb_item_weights b) rev Hw Hrev (length ws) 0); [lia|].
    split; [done|]. lia. }
  intros st Hst. destruct (straws_set_holds ws st Hst) as (ss & H1 & H2 & H3 & H4). simpl.
  split; [intros Ho; split; [done|by apply Hok]|]. right. split; [done|]. exists st, ss.
  done.
Qed.

(** ** crush_make_straw_bucket *)

Lemma make_straw_ok pow version hash type (items weights : list (option Z)) (l ws : list Z) o :
  holds items l → holds weights ws → length ws = length l → Z.of_nat (length l) < 65535 →
  wp (crush_make_straw_bucket pow version hash type (Z.of_nat (length l)) items weights) o (λ r _,
    (allocs_ok o → r ≠ None) ∧
    ∀ b, r = Some b → made_header hash type l (sb_h b) (sum_u32 ws) ∧
      holds (sb_item_weights b) (u32 <$> ws) ∧
      ∃ ss, straw_wf b l ss ∧ straws_ok (u32 <$> ws) ss).
Proof.
  intros Hitems Hweights Hlen Hsize. unfold crush_make_straw_bucket.
  do 4 (apply (malloc_or_ok (allocs_ok o)); [lia|done|by intros ? ?; split; [|done]|intros ? ?]).
  apply (malloc_or_ok (allocs_ok o)); [lia|done|by intros ? ?; split; [|done]|intros o5 Ho5].
  apply wp_bind, wp_lift. eapply rwp_mono; [apply straw_fill_ok; try done; rewrite length_fresh_block; lia|].
  intros [[its iws] w] (Hi & _ & Hw & _ & ->).
  pose proof (crush_calc_straw_ok pow version
    (CrushBucketStraw (new_header hash type (Z.of_nat (length l)) (sum_u32 ws) its
      (fresh_block (Z.of_nat (length l)))) iws (fresh_block (Z.of_nat (length l)))) (u32 <$> ws)) as Hc.
  eapply wp_bind_mono.
  { instantiate (1 := λ '(r, b) o', (allocs_ok o → r = 0) ∧ (r = - ENOMEM ∨ r = 0 ∧ ∃ st ss,
      b = CrushBucketStraw (new_header hash type (Z.of_nat (length l)) (sum_u32 ws) its
            (fresh_block (Z.of_nat (length l)))) iws st ∧ holds st ss ∧ straws_ok (u32 <$> ws) ss)).
    unfold wp, run_on. apply rwp_bind. eapply rwp_mono.
    { apply Hc; simpl; rewrite ?length_fmap; try done; try lia.
      - rewrite u32_small by (unfold is_u32; lia). lia.
      - rewrite length_fresh_block. lia. }
    intros [r [b o7]] [Ho Hr]. simpl. split; [intros Ha; by destruct (Ho (Ho5 Ha))|].
    destruct Hr as [[-> _]|(-> & st & ss & -> & Hst & Hss)]; [by left|right]. split; [done|].
    by exists st, ss. }
  intros [r b] o9 [Ho Hr]. apply wp_ret.
  destruct Hr as [->|(-> & st & ss & -> & Hst & Hss)].
  - split; [intros Ha; by specialize (Ho Ha)|done].
  - split; [done|]. intros b [= <-]. split; [split; [by apply new_header_wf|done]|]. split; [done|].
    exists ss. split; [|done]. destruct Hss as (Hl & _). rewrite length_fmap in Hl.
    repeat split; try done; simpl; [|lia]. apply u32_small. unfold is_u32. lia.
Qed.
