(* ===== verification/EditBase.v ===== *)
(** * Reasoning about bucket edits (src/crush/builder.c)

    The abstract value of a bucket is its list of items and its list of weights.
    [repr] relates a bucket to that value; the rules below run the allocation
    and field operations of an edit. *)

From S2P Require Import Prelude Hash CrushTypes Ln Nodes Choose ChoosePerm ChooseSpec.
From S2P Require Import BuilderBase Builder MakeSpec TreeSpec StrawSpec.

(** ** Representation *)

Definition tree_repr (b : crush_bucket_tree) (l ws : list Z) : Prop :=
  l = [] ∨ ∃ d nw, tree_wf b l nw d ∧ tree_nodes d ws nw ∧ 2 ^ (d - 2) < Z.of_nat (length l) ∧ sum_list_Z ws < 4294967296.

Definition alg_repr (b : bucket) (l ws : list Z) : Prop :=
  match b with
  | BUniform b => ws = replicate (length l) (ub_item_weight b)
  | BList b => list_wf b l ws (prefix_sums 0 ws) ∧ sum_list_Z ws < 4294967296
  | BTree b => tree_repr b l ws
  | BStraw b => holds (sb_item_weights b) ws ∧
                ∃ ss, straw_wf b l ss ∧ straws_ok ws ss
  | BStraw2 b => straw2_wf b l ws
  | BUnknown _ _ => False
  end.

Definition repr (b : bucket) (l ws : list Z) : Prop :=
  hdr_wf (bucket_h b) l ∧ length ws = length l ∧ Forall is_u32 ws ∧
  b_weight (bucket_h b) = sum_u32 ws ∧ alg_repr b l ws.

(** ** The header of a bucket being edited: its cache was dropped *)

Definition hdr_edit (h : crush_bucket) (l : list Z) : Prop :=
  holds (b_items h) l ∧ b_size h = Z.of_nat (length l) ∧ Z.of_nat (length l) < 65535 ∧
  (length l <= length (b_perm h))%nat ∧ b_perm_n h = 0.

Lemma hdr_edit_wf h l : hdr_edit h l → hdr_wf h l.
Proof.
  intros (Hi & Hs & Hb & Hp & Hn). split; [done|]. split; [done|]. split; [done|].
  destruct l as [|x l]; [by left|right]. split; [simpl in *; lia|]. split; [lia|by left].
Qed.

Lemma hdr_wf_edit h l : hdr_wf h l → hdr_edit (set_b_perm_n 0 h) l.
Proof.
  intros (Hi & Hs & Hb & Hp). split; [done|]. split; [done|]. split; [done|]. split; [|done].
  destruct Hp as [->|(_ & Hp & _)]; simpl in *; lia.
Qed.

Lemma hdr_edit_items h l k a :
  hdr_edit h l → holds a l → hdr_edit (set_b_items (resize_block a (Z.of_nat (length l + k))) h) l.
Proof. intros (Hi & Hs & Hb & Hp & Hn) Ha. split; [apply holds_resize; [done|lia]|done]. Qed.

Lemma hdr_edit_perm h l k a :
  hdr_edit h l → hdr_edit (set_b_perm (resize_block a (Z.of_nat (length l + k))) h) l.
Proof.
  intros (Hi & Hs & Hb & Hp & Hn). repeat (split; [done|]). split; [|done]. simpl.
  rewrite length_resize_block. lia.
Qed.

(** ** Running an edit *)

Section rules.
Context {B : Type} {HB : HasHeader B}.
Implicit Types (b : B) (o : list bool).

Lemma wp_ask {A} (g : B → A) b o (Q : A → obj B → Prop) : Q (g b) (b, o) → wp (ask g) (b, o) Q.
Proof. done. Qed.

Lemma wp_ask_bind {A R} (g : B → A) (k : A → M (obj B) R) b o Q :
  wp (k (g b)) (b, o) Q → wp (x ← ask g; k x) (b, o) Q.
Proof. done. Qed.

Lemma wp_update_h_bind {R} g (k : unit → M (obj B) R) b o Q :
  wp (k tt) (set_hdr (g (hdr b)) b, o) Q → wp (x ← update_h g; k x) (b, o) Q.
Proof. done. Qed.

Lemma wp_rdf_bind {R} f i v (k : Z → M (obj B) R) b o Q :
  rd (get_f f b) i = Ok v → wp (k v) (b, o) Q → wp (x ← rdf f i; k x) (b, o) Q.
Proof. intros Hr Hk. unfold rdf. eapply wp_bind_eq; [|done]. by rewrite Hr. Qed.

Lemma wp_wrf_bind {R} f i v a (k : unit → M (obj B) R) b o Q :
  wr (get_f f b) i v = Ok a → wp (k tt) (set_f f a b, o) Q → wp (x ← wrf f i v; k x) (b, o) Q.
Proof. intros Hr Hk. unfold wrf. eapply wp_bind_eq; [|done]. by rewrite Hr. Qed.

Lemma wp_lift_bind {A R} (r : res A) v (k : A → M (obj B) R) b o Q :
  r = Ok v → wp (k v) (b, o) Q → wp (x ← lift r; k x) (b, o) Q.
Proof. intros -> Hk. by eapply wp_bind_eq. Qed.

Lemma wp_realloc (G : Prop) f n k b o (Q : Z → obj B → Prop) :
  n ≠ 0 → (G → allocs_ok o) → (∀ o', ¬ G → Q (- ENOMEM) (b, o')) →
  (∀ o', (G → allocs_ok o') → wp k (set_f f (resize_block (get_f f b) n) b, o') Q) →
  wp (realloc_f f n k) (b, o) Q.
Proof.
  intros Hn HG HN Hk. unfold wp, realloc_f. rewrite (proj2 (Z.eqb_neq _ _) Hn). destruct o as [|[] o]; simpl.
  - apply Hk. intros _. constructor.
  - apply Hk. intros H. specialize (HG H). by inversion HG.
  - apply HN. intros H. specialize (HG H). by inversion HG.
Qed.
End rules.

(** Running the dispatch. *)
Lemma wp_on_bucket {B} (inj : B → bucket) (b : B) m o (Q : Z → bucket → Prop) :
  wp m (b, o) (λ r '(b', _), Q r (inj b')) →
  wp (on_bucket inj b m) o (λ '(r, b') _, Q r b').
Proof. unfold wp, on_bucket, run_on, mbind, M_bind. destruct (m (b, o)) as [[r [b' o']]|]; done. Qed.

(** ** Blocks *)

Lemma holds_app_l a l k : holds a (l ++ k) → holds a l.
Proof. intros [r ->]. rewrite cells_app, <- app_assoc. by eexists. Qed.

(** The cell that a growing [realloc] adds is written. *)
Lemma grow_wr a l v :
  holds a l → ∃ a', wr (resize_block a (Z.of_nat (length l + 1))) (Z.of_nat (length l)) v = Ok a' ∧
                    holds a' (l ++ [v]) ∧ length a' = (length l + 1)%nat.
Proof.
  intros Ha. rewrite wr_ok by (rewrite length_resize_block; lia). eexists. split; [done|].
  rewrite Nat2Z.id, length_insert, length_resize_block. split; [|lia].
  apply holds_snoc; [apply holds_resize; [done|lia]|rewrite length_resize_block; lia].
Qed.

Lemma holds_grow a l : holds a l → holds (resize_block a (Z.of_nat (length l + 1))) l.
Proof. intros. apply holds_resize; [done|lia]. Qed.

(** ** Sums *)

Lemma sum_u32_snoc ws w : u32 (sum_u32 ws + w) = sum_u32 (ws ++ [u32 w]).
Proof. unfold sum_u32. rewrite sum_list_Z_app. simpl. by rewrite u32_add_l, Z.add_0_r, u32_add_r. Qed.

Lemma Forall_u32_snoc ws w : Forall is_u32 ws → Forall is_u32 (ws ++ [u32 w]).
Proof. intros. apply Forall_app. split; [done|]. constructor; [apply u32_range|constructor]. Qed.

Lemma sum_u32_range ws : is_u32 (sum_u32 ws).
Proof. apply u32_range. Qed.

Lemma sum_u32_small ws : Forall is_u32 ws → sum_list_Z ws < 4294967296 → sum_u32 ws = sum_list_Z ws.
Proof.
  intros Hu Hs. apply u32_small. split; [|done]. apply sum_list_Z_nonneg.
  eapply Forall_impl; [done|]. unfold is_u32. lia.
Qed.

Lemma prefix_sums_last a ws n w : length ws = S n → prefix_sums a ws !! n = Some w → w = a + sum_list_Z ws.
Proof.
  intros Hl Hw. rewrite prefix_sums_lookup in Hw by lia. rewrite <- Hl, firstn_all in Hw. by injection Hw as <-.
Qed.

Lemma Forall_prefix_sums ws :
  Forall is_u32 ws → sum_list_Z ws < 4294967296 → Forall is_u32 (prefix_sums 0 ws).
Proof.
  intros Hu Hs. apply Forall_lookup. intros i s Hi. pose proof (lookup_lt_Some _ _ _ Hi) as Hlt.
  rewrite length_prefix_sums in Hlt. rewrite prefix_sums_lookup in Hi by done. simplify_eq.
  pose proof (sum_take_le ws (S i) Hu). unfold is_u32. rewrite Z.add_0_l. split; [|lia].
  apply sum_list_Z_nonneg, Forall_take. eapply Forall_impl; [done|]. unfold is_u32. lia.
Qed.

(** ** Replacing or deleting one weight *)

Lemma sum_insert ws k v w :
  ws !! k = Some v → sum_list_Z (<[k := w]> ws) = sum_list_Z ws + (w - v).
Proof.
  revert k. induction ws as [|x ws IH]; intros [|k] H; try done; simpl in *.
  - injection H as ->. lia.
  - rewrite IH by done. lia.
Qed.

Lemma sum_delete ws k v : ws !! k = Some v → sum_list_Z (delete k ws) = sum_list_Z ws - v.
Proof.
  revert k. induction ws as [|x ws IH]; intros [|k] H; try done; simpl in *.
  - injection H as ->. change (sum_list_Z ws = v + sum_list_Z ws - v). lia.
  - change (x + sum_list_Z (delete k ws) = x + sum_list_Z ws - v). rewrite IH by done. lia.
Qed.

Lemma u32_cong a b : a mod 4294967296 = b mod 4294967296 → u32 a = u32 b.
Proof. done. Qed.

Lemma u32_add_s32 a d : u32 (a + s32 d) = u32 (a + d).
Proof. rewrite <- u32_add_r, u32_s32, u32_add_r. done. Qed.

Lemma u32_add_diff a w v : u32 (a + s32 (w - v)) = u32 (a + (u32 w - v)).
Proof.
  rewrite u32_add_s32. replace (a + (w - v)) with (a - v + w) by lia.
  replace (a + (u32 w - v)) with (a - v + u32 w) by lia. by rewrite u32_add_r.
Qed.

(** One more cell of a list is overwritten by another list. *)
Lemma insert_prefix {A} (l' l : list A) j x :
  (j < length l)%nat → l' !! j = Some x → <[j := x]> (take j l' ++ drop j l) = take (S j) l' ++ drop (S j) l.
Proof.
  intros Hj Hx. destruct (lookup_lt_is_Some_2 l j Hj) as [y Hy]. pose proof (lookup_lt_Some _ _ _ Hx).
  rewrite (drop_S _ y) by done. rewrite insert_app_r_alt by (rewrite length_take; lia).
  rewrite length_take, Nat.min_l, Nat.sub_diag by lia. simpl.
  rewrite (take_S_r _ _ x) by done. by rewrite <- app_assoc.
Qed.

(** ** Finding an item *)

Fixpoint index_of (item : Z) (l : list Z) : nat :=
  match l with [] => O | x :: l => if x =? item then O else S (index_of item l) end.

Lemma index_of_le item l : (index_of item l <= length l)%nat.
Proof. induction l as [|x l IH]; simpl; [done|]. destruct (x =? item); lia. Qed.

Lemma index_of_lookup item l : (index_of item l < length l)%nat → l !! index_of item l = Some item.
Proof.
  induction l as [|x l IH]; simpl; [lia|]. destruct (Z.eqb_spec x item) as [->|]; [done|].
  intros H. apply IH. lia.
Qed.

Lemma index_of_elem item l : item ∈ l → (index_of item l < length l)%nat.
Proof.
  induction l as [|x l IH]; simpl; [by intros ?%elem_of_nil|].
  destruct (Z.eqb_spec x item) as [->|Hne]; [lia|]. intros [->|H]%elem_of_cons; [done|].
  specialize (IH H). lia.
Qed.

Lemma find_item_from a l item n : ∀ i,
  holds a l → (i + n = length l)%nat →
  find_item a item n (Z.of_nat i) = Ok (Z.of_nat (i + index_of item (drop i l))).
Proof.
  induction n as [|n IH]; intros i Ha Hi; cbn [find_item].
  { rewrite drop_ge by lia. simpl. by rewrite Nat.add_0_r. }
  destruct (lookup_lt_is_Some_2 l i) as [v Hv]; [lia|]. rewrite (rd_at a l i v) by done.
  cbn [mbind res_bind]. rewrite (drop_S _ v) by done. cbn [index_of].
  destruct (v =? item); [by rewrite Nat.add_0_r|].
  replace (Z.of_nat i + 1) with (Z.of_nat (S i)) by lia. rewrite IH by (done || lia). do 2 f_equal. lia.
Qed.

Lemma find_item_ok a l item size :
  holds a l → size = Z.of_nat (length l) →
  find_item a item (Z.to_nat size) 0 = Ok (Z.of_nat (index_of item l)).
Proof. intros Ha ->. rewrite Nat2Z.id. by apply (find_item_from a l item (length l) 0). Qed.

(** ** Loops over a store *)

Lemma for_s_rule {S} (I : Z → S → Prop) (body : Z → M S unit) n : ∀ i s,
  I i s → (∀ j s', i <= j < i + Z.of_nat n → I j s' → wp (body j) s' (λ _, I (j + 1))) →
  wp (for_s n i body) s (λ _, I (i + Z.of_nat n)).
Proof.
  induction n as [|n IH]; intros i s HI Hb; cbn [for_s].
  { apply wp_ret. by rewrite Z.add_0_r. }
  eapply wp_bind_mono; [apply Hb; [lia|done]|]. intros [] s' HI'.
  replace (i + Z.of_nat (Datatypes.S n)) with (i + 1 + Z.of_nat n) by lia.
  apply IH; [done|]. intros j s'' Hj. apply Hb. lia.
Qed.

(** ** A represented bucket is well-formed for the mapper *)

Lemma repr_bucket_wf b l ws :
  repr b l ws → (bucket_alg b = CRUSH_BUCKET_TREE → 0 < sum_list_Z ws) → bucket_wf b l.
Proof.
  intros (Hh & _ & _ & _ & Ha) Ht. split; [done|]. destruct b; simpl in *; try done.
  - by destruct Ha as [Ha _]; eauto.
  - destruct Ha as [->|(d & nw & Hw & Hn & _)]; [by left|right]. exists nw, d. split; [done|].
    rewrite (tn_root _ _ _ Hn). by apply Ht.
  - destruct Ha as (_ & ss & Hw & _). by exists ss.
  - by exists ws.
Qed.
