(* ===== verification/AddSpec.v ===== *)
(** * Adding items and changing weights (src/crush/builder.c)

    [crush_bucket_add_item] appends the item and its weight to the abstract
    value of the bucket, or fails and leaves that value alone;
    [crush_bucket_adjust_item_weight] replaces one weight. *)

From S2P Require Import Prelude Hash CrushTypes Ln Nodes Choose ChoosePerm ChooseSpec.
From S2P Require Import BuilderBase Builder MakeSpec TreeSpec StrawSpec EditBase.

(** Type, hash function and id are never edited. *)
Definition same_kind (b b' : bucket) : Prop :=
  bucket_alg b' = bucket_alg b ∧ b_id (bucket_h b') = b_id (bucket_h b) ∧
  b_type (bucket_h b') = b_type (bucket_h b) ∧ b_hash (bucket_h b') = b_hash (bucket_h b).

Definition overflows (ws : list Z) (w : Z) : Prop := 4294967296 <= sum_u32 ws + u32 w.

(** A straw bucket whose straws could not be recomputed is the one case that
    [-ENOMEM] leaves inconsistent. *)
Definition add_post (b : bucket) (l ws : list Z) (item w : Z) (o : list bool) (r : Z) (b' : bucket) : Prop :=
  same_kind b b' ∧
  (r = 0 ∧ ¬ overflows ws w ∧ repr b' (l ++ [item]) (ws ++ [u32 w]) ∨
   r = - ERANGE ∧ overflows ws w ∧ repr b' l ws ∨
   r = - ENOMEM ∧ ¬ allocs_ok o ∧ (bucket_alg b ≠ CRUSH_BUCKET_STRAW → repr b' l ws)).

(** The depth of a size is unique. *)
Lemma calc_depth_is d size :
  1 <= d <= 30 → 2 ^ (d - 2) < size <= 2 ^ (d - 1) → 2 <= size → calc_depth size = Ok d.
Proof.
  intros Hd Hs H2. assert (2 ^ (d - 1) <= 2 ^ 29) as H29 by (apply Z.pow_le_mono_r; lia).
  destruct (calc_depth_ok size) as (d' & -> & Hd' & Hfit & Hmin); [lia|]. f_equal.
  assert (1 < d') as H1 by (destruct (decide (1 < d')); [done|]; replace d' with 1 in * by lia; simpl in *; lia).
  assert (¬ d < d') by (intros Hlt; pose proof (Z.pow_le_mono_r 2 (d - 1) (d' - 2)); specialize (Hmin H1); lia).
  assert (¬ d' < d) by (intros Hlt; pose proof (Z.pow_le_mono_r 2 (d' - 1) (d - 2)); lia). lia.
Qed.

(** The checked additions of an edit are those of the make function. *)
Lemma tree_add_up_f_eq n : ∀ node w b o a,
  tree_add_up n node w (tb_node_weights b) = Ok (Some a) →
  tree_add_up_f n node w (b, o) = Ok (true, (set_f tb_nodes_f a b, o)).
Proof.
  induction n as [|n IH]; intros node w b o a; cbn [tree_add_up tree_add_up_f].
  { intros [= <-]. by destruct b. }
  unfold mbind, M_bind, lift, rdf, wrf. cbn [get_f tb_nodes_f].
  destruct (parent node) as [p|]; [|done]. cbn [mbind res_bind].
  destruct (rd (tb_node_weights b) p) as [v|]; [|done]. cbn [mbind res_bind].
  destruct (crush_addition_is_unsafe v w); [done|].
  destruct (wr (tb_node_weights b) p (u32 (v + w))) as [a1|]; [|done]. cbn [mbind res_bind].
  intros H. rewrite (IH p w (set_f tb_nodes_f a1 b) o a H). done.
Qed.

#[export] Instance overflows_dec ws w : Decision (overflows ws w).
Proof. unfold overflows. apply _. Defined.

Section add.
Context (item weight : Z) (l ws : list Z) (o : list bool).
Context (Hlen : length ws = length l) (Hws : Forall is_u32 ws) (Hlt : Z.of_nat (length l) + 1 < 65535).

#[local] Abbreviation n1 := (Z.of_nat (length l + 1)).

Lemma grown_size h : hdr_edit h l → s32 (b_size h + 1) = n1.
Proof. intros (_ & -> & _). rewrite s32_small; unfold is_s32; lia. Qed.

Lemma grown_last : n1 - 1 = Z.of_nat (length l).
Proof. lia. Qed.

Lemma overflow_test h : b_weight h = sum_u32 ws →
  crush_addition_is_unsafe (b_weight h) weight = bool_decide (overflows ws weight).
Proof.
  intros ->. rewrite crush_addition_is_unsafe_u32, (u32_small (sum_u32 ws)) by apply sum_u32_range.
  unfold overflows. destruct (Z.leb_spec 4294967296 (sum_u32 ws + u32 weight)).
  - by rewrite bool_decide_true.
  - rewrite bool_decide_false; [done|lia].
Qed.

(** The header with grown blocks, before and after the addition. *)
Lemma kept_hdr h its :
  hdr_edit h l → holds its (l ++ [item]) →
  hdr_edit (set_b_items its (set_b_perm (resize_block (b_perm h) n1) h)) l.
Proof.
  intros Hh Hits. destruct (hdr_edit_perm h l 1 (b_perm h) Hh) as (_ & H).
  split; [by eapply holds_app_l|done].
Qed.

Lemma snoc_hdr h its w :
  hdr_edit h l → holds its (l ++ [item]) →
  hdr_edit (set_b_size (u32 (b_size h + 1)) (set_b_weight w
    (set_b_items its (set_b_perm (resize_block (b_perm h) n1) h)))) (l ++ [item]).
Proof.
  intros (Hi & Hs & Hb & Hp & Hn) Hits. unfold hdr_edit. simpl.
  rewrite Hs, length_app, length_resize_block. simpl.
  rewrite u32_small by (unfold is_u32; lia). repeat split; try done; lia.
Qed.

Lemma length_snoc : length (ws ++ [u32 weight]) = length (l ++ [item]).
Proof. by rewrite !length_app, Hlen. Qed.

(** What is common to the representations after an addition. *)
Lemma snoc_repr b its w h :
  hdr_edit h l → b_weight h = sum_u32 ws → holds its (l ++ [item]) → w = b_weight h + weight →
  bucket_h b = set_b_size (u32 (b_size h + 1)) (set_b_weight (u32 w)
    (set_b_items its (set_b_perm (resize_block (b_perm h) n1) h))) →
  (hdr_edit (bucket_h b) (l ++ [item]) → alg_repr b (l ++ [item]) (ws ++ [u32 weight])) →
  repr b (l ++ [item]) (ws ++ [u32 weight]).
Proof.
  intros Hh Hw Hits -> Eb Ha. pose proof (snoc_hdr h its (u32 (b_weight h + weight)) Hh Hits) as Hn.
  rewrite <- Eb in Hn. split; [by apply hdr_edit_wf|]. split; [apply length_snoc|].
  split; [by apply Forall_u32_snoc|]. split; [|by apply Ha]. rewrite Eb. simpl. by rewrite Hw, sum_u32_snoc.
Qed.

Lemma kept_repr b :
  hdr_edit (bucket_h b) l → b_weight (bucket_h b) = sum_u32 ws → alg_repr b l ws → repr b l ws.
Proof. intros Hh Hw Ha. split; [by apply hdr_edit_wf|]. done. Qed.

(** The three ways to end. *)
Lemma add_done b b' :
  same_kind b b' → ¬ overflows ws weight → repr b' (l ++ [item]) (ws ++ [u32 weight]) →
  add_post b l ws item weight o 0 b'.
Proof. intros Hk Hov Hr. split; [done|]. by left. Qed.

Lemma add_full b b' :
  same_kind b b' → overflows ws weight → repr b' l ws → add_post b l ws item weight o (- ERANGE) b'.
Proof. intros Hk Hov Hr. split; [done|]. by right; left. Qed.

Lemma add_nomem b b' :
  same_kind b b' → ¬ allocs_ok o → repr b' l ws → add_post b l ws item weight o (- ENOMEM) b'.
Proof. intros Hk Ho Hr. split; [done|]. by right; right. Qed.

(** The state after the first two [realloc]s, shared by all variants. *)
Lemma grown_hdr h :
  hdr_edit h l →
  hdr_edit (set_b_items (resize_block (b_items h) n1) h) l ∧
  hdr_edit (set_b_perm (resize_block (b_perm h) n1) (set_b_items (resize_block (b_items h) n1) h)) l.
Proof.
  intros Hh. assert (hdr_edit (set_b_items (resize_block (b_items h) n1) h) l) as H1.
  { apply hdr_edit_items; [done|apply Hh]. }
  split; [done|exact (hdr_edit_perm _ l 1 (b_perm h) H1)].
Qed.

(** ** Straw2 *)

Lemma straw2_alg h iw : hdr_edit h l → holds iw ws → alg_repr (BStraw2 (CrushBucketStraw2 h iw)) l ws.
Proof. intros (Hi & Hs & _) Hw. done. Qed.

Lemma add_straw2_ok b o0 :
  hdr_edit (s2_h b) l → b_weight (s2_h b) = sum_u32 ws → straw2_wf b l ws → (allocs_ok o → allocs_ok o0) →
  wp (crush_add_straw2_bucket_item item weight) (b, o0) (λ r '(b', _),
    add_post (BStraw2 b) l ws item weight o r (BStraw2 b')).
Proof.
  intros Hh Hw (_ & Hiw & _) HG. unfold crush_add_straw2_bucket_item. apply wp_ask_bind.
  cbn zeta. rewrite (grown_size (s2_h b)) by done.
  assert (∀ h iw, hdr_edit h l → b_weight h = sum_u32 ws → holds iw ws →
    repr (BStraw2 (CrushBucketStraw2 h iw)) l ws) as Hold.
  { intros h iw Hh' Hw' Hiw'. apply kept_repr; [done..|]. by apply straw2_alg. }
  destruct (grown_hdr (s2_h b) Hh) as [Hh1 Hh2].
  apply (wp_realloc (allocs_ok o)); [lia|done|by intros; apply add_nomem; [| |destruct b; apply Hold]|intros o1 Ho1].
  apply (wp_realloc (allocs_ok o)); [lia|done|by intros; apply add_nomem; [| |apply Hold]|intros o2 Ho2].
  apply (wp_realloc (allocs_ok o)); [lia|done|by intros; apply add_nomem; [| |apply Hold]|intros o3 Ho3].
  destruct (grow_wr (b_items (s2_h b)) l item) as (its & Ei & Hits & _); [apply Hh|].
  destruct (grow_wr (s2_item_weights b) ws (u32 weight) Hiw) as (iws & Ew & Hiws & _).
  rewrite Hlen in Ew. rewrite grown_last.
  eapply wp_wrf_bind; [exact Ei|]. eapply wp_wrf_bind; [exact Ew|]. apply wp_ask_bind. simpl.
  rewrite (overflow_test (s2_h b)) by done.
  destruct (bool_decide_reflect (overflows ws weight)) as [Hov|Hok].
  - apply add_full; [done|done|]. apply Hold; [exact (kept_hdr (s2_h b) its Hh Hits)|done|by eapply holds_app_l].
  - apply add_done; [done|done|]. eapply (snoc_repr _ its _ (s2_h b)); [done..|].
    intros (Hi & Hs & _). split; [exact Hi|]. split; [exact Hiws|]. split; [exact Hs|].
    split; [apply length_snoc|by apply Forall_u32_snoc].
Qed.

(** ** Uniform: the cell of the common weight is not compared with the new
    weight, so the value is followed only for an equal weight *)

Lemma add_uniform_ok b o0 :
  hdr_edit (ub_h b) l → b_weight (ub_h b) = sum_u32 ws → ws = replicate (length l) (ub_item_weight b) →
  u32 weight = ub_item_weight b → (allocs_ok o → allocs_ok o0) →
  wp (crush_add_uniform_bucket_item item weight) (b, o0) (λ r '(b', _),
    add_post (BUniform b) l ws item weight o r (BUniform b')).
Proof.
  intros Hh Hw Hiw Heq HG. unfold crush_add_uniform_bucket_item. apply wp_ask_bind.
  cbn zeta. rewrite (grown_size (ub_h b)) by done.
  assert (∀ h, hdr_edit h l → b_weight h = sum_u32 ws →
    repr (BUniform (CrushBucketUniform h (ub_item_weight b))) l ws) as Hold.
  { intros h Hh' Hw'. by apply kept_repr. }
  destruct (grown_hdr (ub_h b) Hh) as [Hh1 Hh2].
  apply (wp_realloc (allocs_ok o)); [lia|done|by intros; apply add_nomem; [| |destruct b; apply Hold]|intros o1 Ho1].
  apply (wp_realloc (allocs_ok o)); [lia|done|by intros; apply add_nomem; [| |apply Hold]|intros o2 Ho2].
  destruct (grow_wr (b_items (ub_h b)) l item) as (its & Ei & Hits & _); [apply Hh|].
  rewrite grown_last. eapply wp_wrf_bind; [exact Ei|]. apply wp_ask_bind. simpl.
  rewrite (overflow_test (ub_h b)) by done.
  destruct (bool_decide_reflect (overflows ws weight)) as [Hov|Hok].
  - apply add_full; [done|done|]. apply Hold; [exact (kept_hdr (ub_h b) its Hh Hits)|done].
  - apply add_done; [done|done|]. eapply (snoc_repr _ its _ (ub_h b)); [done..|].
    intros _. simpl. rewrite length_app, Hiw, Heq, replicate_add. done.
Qed.

(** ** List *)

Lemma list_alg h iw sw :
  hdr_edit h l → holds iw ws → holds sw (prefix_sums 0 ws) → sum_list_Z ws < 4294967296 →
  alg_repr (BList (CrushBucketList h iw sw)) l ws.
Proof.
  intros (Hi & Hs & Hb & _) Hiw Hsw Hsum. split; [|done].
  repeat split; try done; rewrite ?length_prefix_sums; try done; [lia|by apply Forall_prefix_sums].
Qed.

Lemma add_list_ok b o0 :
  hdr_edit (lb_h b) l → b_weight (lb_h b) = sum_u32 ws → alg_repr (BList b) l ws → (allocs_ok o → allocs_ok o0) →
  wp (crush_add_list_bucket_item item weight) (b, o0) (λ r '(b', _),
    add_post (BList b) l ws item weight o r (BList b')).
Proof.
  intros Hh Hw ((_ & Hiw & Hsw & _) & Hsum) HG. unfold crush_add_list_bucket_item. apply wp_ask_bind.
  cbn zeta. rewrite (grown_size (lb_h b)) by done.
  assert (∀ h iw sw, hdr_edit h l → b_weight h = sum_u32 ws → holds iw ws → holds sw (prefix_sums 0 ws) →
    repr (BList (CrushBucketList h iw sw)) l ws) as Hold.
  { intros h iw sw Hh' Hw' Hiw' Hsw'. apply kept_repr; [done..|]. by apply list_alg. }
  destruct (grown_hdr (lb_h b) Hh) as [Hh1 Hh2].
  pose proof (holds_grow _ _ Hiw) as Hiw1. pose proof (holds_grow _ _ Hsw) as Hsw1.
  rewrite length_prefix_sums in Hsw1. rewrite Hlen in Hiw1, Hsw1.
  apply (wp_realloc (allocs_ok o)); [lia|done|by intros; apply add_nomem; [| |destruct b; apply Hold]|intros o1 Ho1].
  apply (wp_realloc (allocs_ok o)); [lia|done|by intros; apply add_nomem; [| |apply Hold]|intros o2 Ho2].
  apply (wp_realloc (allocs_ok o)); [lia|done|by intros; apply add_nomem; [| |apply Hold]|intros o3 Ho3].
  apply (wp_realloc (allocs_ok o)); [lia|done|by intros; apply add_nomem; [| |apply Hold]|intros o4 Ho4].
  destruct (grow_wr (b_items (lb_h b)) l item) as (its & Ei & Hits & _); [apply Hh|].
  destruct (grow_wr (lb_item_weights b) ws (u32 weight) Hiw) as (iws & Ew & Hiws & _).
  destruct (grow_wr (lb_sum_weights b) _ (sum_list_Z ws + u32 weight) Hsw) as (sws & Es & Hsws & _).
  rewrite length_prefix_sums in Es. rewrite Hlen in Ew, Es. rewrite grown_last.
  eapply wp_wrf_bind; [exact Ei|]. eapply wp_wrf_bind; [exact Ew|].
  pose proof (sum_u32_small ws Hws Hsum) as Es32. pose proof (u32_range weight) as Hwr. unfold is_u32 in Hwr.
  assert (¬ overflows ws weight → ∀ h, h = set_b_items its (set_b_perm (resize_block (b_perm (lb_h b)) n1) (lb_h b)) →
    repr (BList (CrushBucketList (set_b_size (u32 (b_size (lb_h b) + 1)) (set_b_weight (u32 (b_weight (lb_h b) + weight)) h))
      iws sws)) (l ++ [item]) (ws ++ [u32 weight])) as Hnew.
  { intros Hok h ->. unfold overflows in Hok. rewrite Es32 in Hok.
    eapply (snoc_repr _ its _ (lb_h b)); [done..|]. intros (Hi & Hs & Hb & _). split.
    - split; [exact Hi|]. split; [exact Hiws|]. split; [by rewrite prefix_sums_snoc|].
      split; [exact Hs|]. split; [apply length_snoc|]. split; [by rewrite length_prefix_sums, length_snoc|].
      split; [lia|]. apply Forall_prefix_sums; [by apply Forall_u32_snoc|].
      rewrite sum_list_Z_app. simpl. lia.
    - rewrite sum_list_Z_app. simpl. lia. }
  destruct (Z.ltb_spec 1 n1) as [Hbig|Hsmall].
  - destruct (lookup_lt_is_Some_2 (prefix_sums 0 ws) (length l - 1)) as [s Hs]; [rewrite length_prefix_sums; lia|].
    pose proof (prefix_sums_last 0 ws (length l - 1) s ltac:(lia) Hs) as ->. rewrite Z.add_0_l in Hs.
    eapply (wp_rdf_bind _ _ (sum_list_Z ws)).
    { simpl. eapply (rd_holds _ _ (n1 - 2)); [exact Hsw1|lia|]. by replace (Z.to_nat (n1 - 2)) with (length l - 1)%nat by lia. }
    rewrite <- Es32, <- Hw, (overflow_test (lb_h b)) by done. rewrite Hw, Es32.
    destruct (bool_decide_reflect (overflows ws weight)) as [Hov|Hok].
    + apply add_full; [done|done|]. apply Hold; [exact (kept_hdr (lb_h b) its Hh Hits)|done|by eapply holds_app_l|done].
    + eapply wp_wrf_bind.
      { simpl. rewrite <- u32_add_r, (u32_small (_ + _)); [exact Es|].
        unfold overflows in Hok. rewrite Es32 in Hok. pose proof (sum_u32_range ws). rewrite Es32 in *.
        unfold is_u32 in *. lia. }
      apply add_done; [done|done|]. by apply Hnew.
  - assert (ws = []) as Enil by (destruct ws; [done|simpl in *; lia]).
    eapply wp_wrf_bind.
    { simpl. rewrite Enil in Es. simpl in Es. replace (0 + u32 weight) with (u32 weight) in Es by lia. exact Es. }
    assert (¬ overflows ws weight) as Hok.
    { unfold overflows. rewrite Es32, Enil. simpl. lia. }
    apply add_done; [done|done|]. by apply Hnew.
Qed.

(** ** Straw *)

Lemma straw_alg h iw st ss :
  hdr_edit h l → holds iw ws → holds st ss → straws_ok ws ss →
  alg_repr (BStraw (CrushBucketStraw h iw st)) l ws.
Proof.
  intros (Hi & Hs & _) Hiw Hst Hss. split; [done|]. exists ss. split; [|done].
  destruct Hss as (Hl' & _). repeat split; try done. simpl. by rewrite Hl', Hlen.
Qed.

Lemma add_straw_ok pow version b o0 :
  hdr_edit (sb_h b) l → b_weight (sb_h b) = sum_u32 ws → alg_repr (BStraw b) l ws → (allocs_ok o → allocs_ok o0) →
  wp (crush_add_straw_bucket_item item weight pow version) (b, o0) (λ r '(b', _),
    add_post (BStraw b) l ws item weight o r (BStraw b')).
Proof.
  intros Hh Hw (Hiw & ss & (_ & Hst & _ & Hlss) & Hss) HG. unfold crush_add_straw_bucket_item.
  apply wp_ask_bind. cbn zeta. rewrite (grown_size (sb_h b)) by done.
  assert (∀ b', same_kind (BStraw b) (BStraw b') → ¬ allocs_ok o → add_post (BStraw b) l ws item weight o (- ENOMEM) (BStraw b'))
    as Hnomem by (intros b' Hk Ho; split; [done|]; by right; right).
  do 4 (apply (wp_realloc (allocs_ok o)); [lia|done|by intros; apply Hnomem|intros ? ?]).
  destruct (grow_wr (b_items (sb_h b)) l item) as (its & Ei & Hits & _); [apply Hh|].
  destruct (grow_wr (sb_item_weights b) ws (u32 weight) Hiw) as (iws & Ew & Hiws & _).
  rewrite Hlen in Ew. rewrite grown_last.
  eapply wp_wrf_bind; [exact Ei|]. eapply wp_wrf_bind; [exact Ew|]. apply wp_ask_bind. simpl.
  rewrite (overflow_test (sb_h b)) by done.
  destruct (bool_decide_reflect (overflows ws weight)) as [Hov|Hok].
  - apply add_full; [done|done|]. pose proof (kept_hdr (sb_h b) its Hh Hits) as Hk.
    apply kept_repr; [done|done|]. eapply straw_alg; [exact Hk|by eapply holds_app_l| |exact Hss].
    apply holds_resize; [done|]. rewrite Hlss. lia.
  - pose proof (snoc_hdr (sb_h b) its (u32 (b_weight (sb_h b) + weight)) Hh Hits) as Hn.
    pose proof Hn as (_ & Hs & Hb & _). eapply wp_mono.
    { apply (crush_calc_straw_ok pow version _ (ws ++ [u32 weight])); simpl.
      - exact Hiws.
      - rewrite length_snoc. exact Hs.
      - rewrite length_snoc. exact Hb.
      - rewrite length_resize_block, length_snoc, length_app. simpl. lia. }
    intros r [b' o9] [Ho Hr]. destruct Hr as [[-> ->]|(-> & st & ss' & -> & Hst' & Hss')].
    + apply Hnomem; [done|]. intros Ha. by destruct (Ho ltac:(auto)).
    + apply add_done; [done|done|]. eapply (snoc_repr _ its _ (sb_h b)); [done..|].
      intros Hhe. split; [exact Hiws|]. exists ss'. split; [|done]. destruct Hhe as (Hi' & Hs' & _).
      destruct Hss' as (Hl' & _). split; [exact Hi'|]. split; [done|]. split; [exact Hs'|].
      by rewrite Hl', length_snoc.
Qed.

(** ** Tree, while its depth stays *)

Lemma add_tree_ok b d nw o0 :
  hdr_edit (tb_h b) l → b_weight (tb_h b) = sum_u32 ws → tree_wf b l nw d → tree_nodes d ws nw →
  2 ^ (d - 2) < Z.of_nat (length l) → sum_list_Z ws + u32 weight < 4294967296 →
  Z.of_nat (length l) + 1 <= 2 ^ (d - 1) → (allocs_ok o → allocs_ok o0) →
  wp (crush_add_tree_bucket_item item weight) (b, o0) (λ r '(b', _),
    add_post (BTree b) l ws item weight o r (BTree b')).
Proof.
  intros Hh Hw Htw Htn Hmin Hsum Hfit HG. pose proof Htw as [Hti Hts Htd Htf Htnn Hth Htl Htu Htsums].
  assert (1 <= Z.of_nat (length l)) as Hpos by (pose proof (Z.pow_nonneg 2 (d - 2)); lia).
  pose proof (Z.pow_le_mono_r 2 d 7 ltac:(lia) ltac:(lia)) as Hp7. change (2 ^ 7) with 128 in Hp7.
  pose proof (Z.pow_le_mono_r 2 (d - 1) 6 ltac:(lia) ltac:(lia)) as Hp6. change (2 ^ 6) with 64 in Hp6.
  pose proof (u32_range weight) as Hwr. unfold is_u32 in Hwr.
  assert (sum_u32 ws = sum_list_Z ws) as Es by (apply sum_u32_small; [done|lia]).
  unfold crush_add_tree_bucket_item. apply wp_ask_bind. cbn zeta. rewrite (grown_size (tb_h b)) by done.
  eapply wp_lift_bind; [apply (calc_depth_is d); lia|].
  eapply wp_lift_bind; [apply shl1_ok; lia|]. rewrite (u8_small (2 ^ d)) by lia.
  assert (set_b_size (b_size (tb_h b)) (tb_h b) = tb_h b) as Eh by (by destruct (tb_h b)).
  unfold update, modify. apply wp_bind. unfold wp at 1. cbn [rwp].
  replace (tb_set_num_nodes (2 ^ d) b) with b by (rewrite <- Htnn; by destruct b).
  assert (∀ h, hdr_edit h l → b_weight h = sum_u32 ws →
    repr (BTree (CrushBucketTree h (tb_num_nodes b) (tb_node_weights b))) l ws) as Hold.
  { intros h Hh' Hw'. apply kept_repr; [done..|]. right. exists d, nw. split; [|split; [done|lia]].
    destruct Hh' as (Hi' & Hs' & _). by split. }
  destruct (grown_hdr (tb_h b) Hh) as [Hh1 Hh2].
  apply (wp_realloc (allocs_ok o)); [lia|done|by intros; apply add_nomem; [| |destruct b; apply Hold]|intros o1 Ho1].
  apply (wp_realloc (allocs_ok o)); [lia|done|by intros; apply add_nomem; [| |apply Hold]|intros o2 Ho2].
  apply (wp_realloc (allocs_ok o)); [lia|done|by intros; apply add_nomem; [| |apply Hold]|intros o3 Ho3].
  rewrite grown_last, calc_tree_node_leaf by lia.
  destruct (tree_nodes_snoc d ws nw (u32 weight)) as (H1 & H2 & H3 & H4 & H5 & H6); [lia|done|lia|done|lia|].
  rewrite Hlen in *.
  assert (holds (resize_block (tb_node_weights b) (2 ^ d)) nw) as Hres by (apply holds_resize; [done|lia]).
  destruct (node_wr d ltac:(lia) _ nw 0 (Z.of_nat (length l)) (u32 weight) Hres Htl H2) as (a1 & Ea1 & Ha1 & _).
  eapply wp_wrf_bind; [exact Ea1|].
  assert ((2 <=? d) && (node 0 (Z.of_nat (length l)) - 1 =? 2 ^ d / 2) = false) as ->.
  { apply andb_false_iff. right. apply Z.eqb_neq. unfold node. rewrite Z.pow_0_r.
    replace d with (d - 2 + 2) at 1 by lia.
    destruct (decide (d = 1)) as [->|Hne]; [simpl in *; lia|].
    rewrite Z.pow_add_r by lia. change (2 ^ 2) with (2 * 2). rewrite Z.mul_assoc, Z.div_mul by lia. lia. }
  apply wp_bind, wp_ret.
  destruct (tree_add_up_ok d ltac:(lia) (Z.to_nat (d - 1)) 0 (Z.of_nat (length l)) weight _ a1 H1 H2 ltac:(lia) H3 H4 H5 Ha1)
    as (a2 & Eup & Ha2 & _ & Hu2).
  eapply wp_bind_eq; [apply tree_add_up_f_eq; exact Eup|]. cbn [negb]. apply wp_ask_bind. simpl.
  rewrite (overflow_test (tb_h b)) by done. rewrite bool_decide_false by (unfold overflows; lia).
  destruct (grow_wr (b_items (tb_h b)) l item) as (its & Ei & Hits & _); [apply Hh|].
  eapply wp_wrf_bind; [exact Ei|].
  apply add_done; [done|unfold overflows; lia|]. specialize (H6 Hu2).
  eapply (snoc_repr _ its _ (tb_h b)); [done..|].
  intros (Hi & Hs & _). right. eexists d, _. split; [|split; [exact H6|]].
  - split; simpl in *; try done.
    + rewrite length_app. simpl. lia.
    + apply H6.
    + split; [apply H6|]. intros j Hj Hge. rewrite (tn_leaves _ _ _ H6) by done.
      rewrite lookup_ge_None_2; [done|]. rewrite length_snoc. lia.
  - rewrite length_app, sum_list_Z_app. simpl. lia.
Qed.
End add.

(** ** Changing the weight of an item (src/crush/builder.c)

    [crush_bucket_adjust_item_weight] replaces one weight in the abstract value
    of the bucket and returns the difference. *)

Lemma hdr_wf_weight h l w : hdr_wf h l → hdr_wf (set_b_weight w h) l.
Proof. by intros H; exact H. Qed.

(** What replacing the weight [v] at [k] by [weight] leaves. *)
Definition adjust_post (b : bucket) (l ws : list Z) (k : nat) (v weight : Z) (o : list bool) (r : Z) (b' : bucket) : Prop :=
  same_kind b b' ∧
  (r = s32 (weight - v) ∧ repr b' l (<[k := u32 weight]> ws) ∨
   r = - ENOMEM ∧ ¬ allocs_ok o ∧ bucket_alg b = CRUSH_BUCKET_STRAW).

(** The partial sums after one weight changed. *)
Lemma prefix_sums_insert ws k v w j s :
  ws !! k = Some v → prefix_sums 0 ws !! j = Some s →
  prefix_sums 0 (<[k := w]> ws) !! j = Some (if bool_decide (k <= j)%nat then s + (w - v) else s).
Proof.
  intros Hk Hj. pose proof (lookup_lt_Some _ _ _ Hj) as Hlt. rewrite length_prefix_sums in Hlt.
  rewrite prefix_sums_lookup in Hj by done. simplify_eq.
  rewrite prefix_sums_lookup by (by rewrite length_insert). f_equal.
  destruct (bool_decide_reflect (k <= j)%nat) as [Hle|Hgt].
  - rewrite take_insert_lt by lia. rewrite (sum_insert _ k v); [lia|]. rewrite lookup_take_lt by lia. done.
  - rewrite take_insert_ge by lia. lia.
Qed.

(** Replacing a leaf of a tree: set it, then shift its ancestors. *)
Lemma tree_nodes_insert d us nw k v w :
  1 <= d <= 30 → tree_nodes d us nw → us !! k = Some v → Z.of_nat (length us) <= 2 ^ (d - 1) → is_u32 w →
  sum_list_Z (<[k := w]> us) < 4294967296 →
  let nw1 := <[Z.to_nat (node 0 (Z.of_nat k)) := w]> nw in
  Z.of_nat (length nw1) = 2 ^ d ∧ in_tree d 0 (Z.of_nat k) ∧ node_weight nw 0 (Z.of_nat k) = v ∧
  short d 0 (Z.of_nat k) (w - v) nw1 ∧ Forall is_u32 nw1 ∧
  (node_weight nw1 (d - 1) 0 + (w - v) < 4294967296 ∨ 0 + 1 = d) ∧
  (Forall is_u32 (add_up (Z.to_nat (d - 1)) 0 (Z.of_nat k) (w - v) nw1) →
   tree_nodes d (<[k := w]> us) (add_up (Z.to_nat (d - 1)) 0 (Z.of_nat k) (w - v) nw1)).
Proof.
  intros Hd [Hl Hu Hi Hlv Hr] Hk Hfit Hw Hsum nw1. pose proof (lookup_lt_Some _ _ _ Hk) as Hkl.
  pose proof (in_tree_leaf d (Z.of_nat k) ltac:(lia) ltac:(lia)) as Hin.
  assert (node_weight nw 0 (Z.of_nat k) = v) as Hk0 by (rewrite Hlv, Nat2Z.id, Hk by done; done).
  pose proof (leaf_short d nw (Z.of_nat k) w Hd Hl Hin Hi) as Hs. rewrite Hk0 in Hs. fold nw1 in Hs.
  assert (Z.of_nat (length nw1) = 2 ^ d) as Hl1 by (unfold nw1; by rewrite length_insert).
  rewrite (sum_insert _ _ v) in Hsum by done.
  assert (d - 1 ≠ 0 → node_weight nw1 (d - 1) 0 = sum_list_Z us) as Hroot1.
  { intros Hne. unfold nw1. rewrite (root_insert d Hd) by (done || lia). done. }
  split; [done|]. split; [done|]. split; [done|]. split; [done|]. split; [by apply Forall_insert|]. split.
  { destruct (decide (d = 1)); [by right|left]. rewrite Hroot1 by lia. done. }
  intros Hu'. destruct (add_up_ok d Hd (Z.to_nat (d - 1)) 0 (Z.of_nat k) (w - v) nw1 Hl1 Hin ltac:(lia) Hs)
    as (Hsums & Hlen & Hlow & Hroot). split; try done.
  - by rewrite Hlen.
  - intros j Hj. rewrite Hlow by (done || lia). unfold nw1. rewrite (node_weight_insert d Hd) by done.
    pose proof (in_tree_leaf_inv d j ltac:(lia) Hj) as Hjr.
    destruct (decide (j = Z.of_nat k)) as [->|Hne].
    + rewrite bool_decide_true by done. rewrite Nat2Z.id, list_lookup_insert_eq by done. done.
    + rewrite bool_decide_false by lia. rewrite Hlv by done. rewrite list_lookup_insert_ne by lia. done.
  - rewrite Hroot, (sum_insert _ _ v) by done. destruct (decide (d = 1)) as [->|Hne].
    + rewrite bool_decide_false by lia. change (1 - 1) with 0 in *. unfold nw1.
      change (2 ^ 0) with 1 in Hfit. assert (k = O) as -> by lia.
      rewrite (node_weight_insert 1 ltac:(lia)) by done. rewrite bool_decide_true by done.
      change (Z.of_nat 0) with 0 in Hk0. rewrite <- Hr, Hk0. lia.
    + rewrite bool_decide_true by lia. rewrite Hroot1 by lia. lia.
Qed.

(** The shift loop works modulo 2^32. *)
Lemma tree_shift_up_f_cong n : ∀ node d d' b o,
  u32 d = u32 d' → tree_shift_up_f n node d (b, o) = tree_shift_up_f n node d' (b, o).
Proof.
  induction n as [|n IH]; intros node d d' b o E; [done|]. cbn [tree_shift_up_f].
  unfold mbind, M_bind, lift, rdf, wrf. cbn [get_f tb_nodes_f].
  destruct (parent node) as [p|]; [|done]. destruct (rd (tb_node_weights b) p) as [v|]; [|done].
  cbn [mbind res_bind]. rewrite <- (u32_add_r v d), E, u32_add_r.
  destruct (wr (tb_node_weights b) p (u32 (v + d'))) as [a|]; [|done]. cbn [mbind res_bind]. by apply IH.
Qed.

Lemma calc_depth_of_tree d size : 1 <= d <= 30 → 2 ^ (d - 2) < size <= 2 ^ (d - 1) → calc_depth size = Ok d.
Proof.
  intros Hd Hs. destruct (decide (2 <= size)); [by apply calc_depth_is|].
  assert (0 <= 2 ^ (d - 2)) by (apply Z.pow_nonneg; lia). assert (size = 1) as -> by lia.
  destruct (decide (d = 1)) as [->|]; [done|]. pose proof (Z.pow_pos_nonneg 2 (d - 2)). lia.
Qed.

Section adjust.
Context (item weight : Z) (l ws : list Z) (v : Z) (o : list bool).
Context (Hlen : length ws = length l) (Hws : Forall is_u32 ws).

#[local] Abbreviation k := (index_of item l).
#[local] Abbreviation ws' := (<[k := u32 weight]> ws).
#[local] Abbreviation diff := (s32 (weight - v)).

Context (Hk : (k < length l)%nat) (Hv : ws !! k = Some v).

Lemma adjusted_u32 : Forall is_u32 ws'.
Proof. apply Forall_insert; [done|apply u32_range]. Qed.

Lemma adjusted_length : length ws' = length l.
Proof. by rewrite length_insert. Qed.

Lemma adjusted_sum w : w = sum_u32 ws → u32 (w + diff) = sum_u32 ws'.
Proof.
  intros ->. rewrite u32_add_diff. unfold sum_u32. rewrite u32_add_l. f_equal.
  by rewrite (sum_insert _ _ v).
Qed.

(** Finding the item's index. *)
Lemma found_index a size : holds a l → size = Z.of_nat (length l) →
  find_item a item (Z.to_nat size) 0 = Ok (Z.of_nat k) ∧ (Z.of_nat k =? size) = false.
Proof. intros Ha Hs. split; [by apply find_item_ok|]. apply Z.eqb_neq. lia. Qed.

Lemma adjusted_repr b h :
  hdr_wf h l → b_weight h = sum_u32 ws → bucket_h b = set_b_weight (u32 (b_weight h + diff)) h →
  alg_repr b l ws' → repr b l ws'.
Proof.
  intros Hh Hw Eb Ha. split; [rewrite Eb; by apply hdr_wf_weight|]. split; [apply adjusted_length|].
  split; [apply adjusted_u32|]. split; [|done]. rewrite Eb. simpl. by apply adjusted_sum.
Qed.

(** The cell of the weight is rewritten. *)
Lemma adjust_cell a : holds a ws →
  ∃ a', wr a (Z.of_nat k) (u32 weight) = Ok a' ∧ holds a' ws' ∧ length a' = length a.
Proof.
  intros Ha. pose proof (holds_length _ _ Ha). rewrite wr_ok by lia. rewrite Nat2Z.id. eexists.
  split; [done|]. split; [apply holds_insert; [done|lia]|apply length_insert].
Qed.

(** ** Straw2 *)

Lemma adjust_straw2_ok b o0 :
  repr (BStraw2 b) l ws →
  wp (crush_adjust_straw2_bucket_item_weight item weight) (b, o0) (λ r '(b', _),
    adjust_post (BStraw2 b) l ws k v weight o r (BStraw2 b')).
Proof.
  intros (Hh & _ & _ & Hw & (Hi & Hiw & Hs & _)). simpl in Hw.
  unfold crush_adjust_straw2_bucket_item_weight, straw_set_weight. apply wp_ask_bind, wp_ask_bind.
  destruct (found_index (b_items (s2_h b)) (b_size (s2_h b)) Hi Hs) as [Ef En].
  eapply wp_lift_bind; [exact Ef|]. cbn [hdr straw2_header]. rewrite En.
  eapply wp_rdf_bind; [by apply (rd_at _ ws k v)|]. cbn zeta.
  destruct (adjust_cell _ Hiw) as (iws & Ew & Hiws & _).
  eapply wp_wrf_bind; [exact Ew|]. apply wp_ask_bind, wp_update_h_bind, wp_ret.
  split; [done|]. left. split; [done|]. eapply (adjusted_repr _ (s2_h b)); [done..|].
  split; [exact Hi|]. split; [done|]. split; [exact Hs|]. split; [apply adjusted_length|apply adjusted_u32].
Qed.

(** ** Straw *)

Lemma adjust_straw_ok pow version b o0 :
  repr (BStraw b) l ws → (allocs_ok o → allocs_ok o0) →
  wp (crush_adjust_straw_bucket_item_weight item weight pow version) (b, o0) (λ r '(b', _),
    adjust_post (BStraw b) l ws k v weight o r (BStraw b')).
Proof.
  intros (Hh & _ & _ & Hw & (Hiw & ss & (Hi & Hst & Hs & Hlss) & Hss)) HG. simpl in Hw, Hh.
  unfold crush_adjust_straw_bucket_item_weight, straw_set_weight. apply wp_ask_bind, wp_ask_bind.
  destruct (found_index (b_items (sb_h b)) (b_size (sb_h b)) Hi Hs) as [Ef En].
  eapply wp_lift_bind; [exact Ef|]. cbn [hdr straw_header]. rewrite En.
  eapply wp_rdf_bind; [by apply (rd_at _ ws k v)|]. cbn zeta.
  destruct (adjust_cell _ Hiw) as (iws & Ew & Hiws & _).
  eapply wp_wrf_bind; [exact Ew|]. apply wp_ask_bind, wp_update_h_bind.
  pose proof (holds_length _ _ Hst) as Hroom. destruct Hh as (Hh1 & Hh2 & Hlt & Hh4).
  eapply wp_bind_mono.
  { apply (crush_calc_straw_ok pow version _ ws'); simpl; rewrite ?adjusted_length; try done.
    by rewrite <- Hlss. }
  intros r [b' o'] [Ho Hr]. apply wp_ret. destruct Hr as [[-> ->]|(-> & st & ss' & -> & Hst' & Hss')].
  - split; [done|]. right. split; [done|]. split; [|done]. intros Ha. by destruct (Ho (HG Ha)).
  - split; [done|]. left. split; [done|]. eapply (adjusted_repr _ (sb_h b)); [done..|].
    split; [done|]. exists ss'. split; [|done]. destruct Hss' as (Hl' & _).
    split; [exact Hi|]. split; [done|]. split; [exact Hs|]. by rewrite Hl', adjusted_length.
Qed.

(** ** List *)

Lemma adjust_sums b o0 n :
  holds (lb_sum_weights b) (prefix_sums 0 ws) → sum_list_Z ws' < 4294967296 → n = (length l - k)%nat →
  wp (for_s n (Z.of_nat k) (λ j, s ← rdf lb_sums_f j; wrf lb_sums_f j (u32 (s + diff)))) (b, o0)
     (λ _ '(b', _), ∃ a, b' = set_f lb_sums_f a b ∧ holds a (prefix_sums 0 ws')).
Proof.
  intros Hsw Hsum ->. eapply wp_mono.
  { apply (for_s_rule (λ j '(b', _), ∃ a, b' = set_f lb_sums_f a b ∧ 0 <= j ∧
      holds a (take (Z.to_nat j) (prefix_sums 0 ws') ++ drop (Z.to_nat j) (prefix_sums 0 ws)))).
    - exists (lb_sum_weights b). split; [by destruct b|]. split; [lia|]. rewrite Nat2Z.id.
      assert (take k (prefix_sums 0 ws') = take k (prefix_sums 0 ws)) as ->; [|by rewrite take_drop].
      apply list_eq. intros j. destruct (decide (j < k)%nat).
      + rewrite !lookup_take_lt by done.
        destruct (lookup_lt_is_Some_2 (prefix_sums 0 ws) j) as [s Hs]; [rewrite length_prefix_sums; lia|].
        rewrite (prefix_sums_insert ws k v _ j s) by done. rewrite bool_decide_false by lia. done.
      + by rewrite !lookup_take_ge by lia.
    - intros j [b' o'] Hj (a & -> & Hj0 & Ha). rewrite <- (Z2Nat.id j) by lia.
      set (i := Z.to_nat j) in *. assert (k <= i < length l)%nat as Hi by (unfold i; lia).
      destruct (lookup_lt_is_Some_2 (prefix_sums 0 ws) i) as [s Hs]; [rewrite length_prefix_sums; lia|].
      pose proof (prefix_sums_insert ws k v (u32 weight) i s Hv Hs) as Hs'.
      rewrite bool_decide_true in Hs' by lia.
      assert (length (prefix_sums 0 ws') = length (prefix_sums 0 ws)) as Hlp
        by (rewrite !length_prefix_sums; apply length_insert).
      assert (length (prefix_sums 0 ws) = length l) as Hlp' by (by rewrite length_prefix_sums).
      eapply wp_rdf_bind.
      { simpl. apply (rd_at a (take i (prefix_sums 0 ws') ++ drop i (prefix_sums 0 ws)) i s Ha).
        rewrite lookup_app_r by (rewrite length_take; lia). rewrite lookup_drop.
        rewrite length_take, Nat.min_l, Nat.sub_diag, Nat.add_0_r by lia. done. }
      pose proof (holds_insert _ _ i (s + (u32 weight - v)) Ha) as Ha'.
      rewrite length_app, length_take, length_drop in Ha'. specialize (Ha' ltac:(lia)).
      rewrite (insert_prefix _ _ i) in Ha' by (done || lia).
      pose proof (holds_length _ _ Ha) as Hla. rewrite length_app, length_take, length_drop in Hla.
      unfold wrf, wp. cbn [get_f set_f lb_sums_f]. simpl.
      rewrite wr_ok by lia. rewrite Nat2Z.id. cbn [mbind res_bind rwp].
      eexists. split; [done|]. split; [lia|].
      replace (Z.to_nat (Z.of_nat i + 1)) with (S i) by lia.
      rewrite u32_add_diff, (u32_small (_ + _)); [done|].
      pose proof (Forall_prefix_sums _ adjusted_u32 Hsum) as Hall. rewrite Forall_lookup in Hall. by eapply Hall. }
  intros ? [b' o'] (a & -> & _ & Ha). exists a. split; [done|].
  replace (Z.to_nat _) with (length l) in Ha by lia.
  rewrite firstn_all2, drop_ge, app_nil_r in Ha by (rewrite length_prefix_sums, ?length_insert; lia). done.
Qed.

Lemma adjust_list_ok b o0 :
  repr (BList b) l ws → sum_list_Z ws' < 4294967296 →
  wp (crush_adjust_list_bucket_item_weight item weight) (b, o0) (λ r '(b', _),
    adjust_post (BList b) l ws k v weight o r (BList b')).
Proof.
  intros (Hh & _ & _ & Hw & ((Hi & Hiw & Hsw & Hs & _ & _ & Hb & _) & _)) Hsum. simpl in Hw, Hh.
  unfold crush_adjust_list_bucket_item_weight. apply wp_ask_bind, wp_ask_bind.
  destruct (found_index (b_items (lb_h b)) (b_size (lb_h b)) Hi Hs) as [Ef En].
  eapply wp_lift_bind; [exact Ef|]. rewrite En.
  eapply wp_rdf_bind; [by apply (rd_at _ ws k v)|]. cbn zeta.
  destruct (adjust_cell _ Hiw) as (iws & Ew & Hiws & _).
  eapply wp_wrf_bind; [exact Ew|]. apply wp_ask_bind, wp_update_h_bind.
  eapply wp_bind_mono; [apply adjust_sums; [exact Hsw|done|rewrite Hs; lia]|].
  intros [] [b' o'] (a & -> & Ha). apply wp_ret.
  split; [done|]. left. split; [done|]. eapply (adjusted_repr _ (lb_h b)); [done..|].
  split; [|done]. split; [exact Hi|]. split; [done|]. split; [done|]. split; [exact Hs|].
  split; [apply adjusted_length|]. split; [rewrite length_prefix_sums; apply adjusted_length|].
  split; [done|]. apply Forall_prefix_sums; [apply adjusted_u32|done].
Qed.

(** ** Tree *)

Lemma adjust_tree_ok b o0 :
  repr (BTree b) l ws → sum_list_Z ws' < 4294967296 →
  wp (crush_adjust_tree_bucket_item_weight item weight) (b, o0) (λ r '(b', _),
    adjust_post (BTree b) l ws k v weight o r (BTree b')).
Proof.
  intros (Hh & _ & _ & Hw & Ha) Hsum. simpl in Hw, Hh.
  destruct Ha as [->|(d & nw & Htw & Htn & Hmin & Hs0)]; [simpl in Hk; lia|].
  pose proof Htw as [Hi Hs Hd Hfit Hnn Hn Hl Hu Hsums].
  unfold crush_adjust_tree_bucket_item_weight. apply wp_ask_bind.
  assert (2 ^ (d - 1) <= 2 ^ 6) as H6 by (apply Z.pow_le_mono_r; lia). change (2 ^ 6) with 64 in H6.
  eapply wp_lift_bind.
  { rewrite Hs, s32_small by (unfold is_s32; lia). apply (calc_depth_of_tree d); lia. }
  apply wp_ask_bind. destruct (found_index (b_items (tb_h b)) (b_size (tb_h b)) Hi Hs) as [Ef En].
  eapply wp_lift_bind; [exact Ef|]. rewrite En. cbn zeta. rewrite calc_tree_node_leaf by lia.
  destruct (tree_nodes_insert d ws nw k v (u32 weight)) as (H1 & H2 & H3 & H4 & H5 & H7 & H8);
    [lia|done|done|rewrite Hlen; lia|apply u32_range|done|].
  eapply wp_rdf_bind; [simpl; rewrite (node_rd d ltac:(lia) _ nw) by done; by rewrite H3|].
  destruct (node_wr d ltac:(lia) _ nw 0 (Z.of_nat k) (u32 weight) Hn Hl H2) as (a1 & Ea & Ha1 & _).
  eapply wp_wrf_bind; [exact Ea|]. apply wp_ask_bind, wp_update_h_bind.
  match goal with |- wp _ (?b1, _) _ => set (b' := b1) end.
  destruct (tree_shift_up_ok d ltac:(lia) (Z.to_nat (d - 1)) 0 (Z.of_nat k) (u32 weight - v) _ b' o0 H1 H2 ltac:(lia) H4 H5 H7 Ha1)
    as (a2 & Es & Ha2 & _ & Hu2).
  eapply wp_bind_eq.
  { rewrite (tree_shift_up_f_cong _ _ _ (u32 weight - v)); [exact Es|].
    rewrite <- (Z.add_0_l (s32 _)), u32_add_diff. done. }
  apply wp_ret. split; [done|]. left. split; [done|]. eapply (adjusted_repr _ (tb_h b)); [done..|].
  specialize (H8 Hu2). right. exists d. eexists. split; [|split; [exact H8|lia]].
  split; try done; try apply H8. split; [apply H8|]. intros j Hj Hge. rewrite (tn_leaves _ _ _ H8) by done.
  rewrite lookup_ge_None_2; [done|]. rewrite length_insert. lia.
Qed.
End adjust.

(** ** Uniform: every item's weight is the one that changes *)

Lemma adjust_uniform_ok weight b l ws o0 :
  repr (BUniform b) l ws →
  wp (crush_adjust_uniform_bucket_item_weight weight) (b, o0) (λ r '(b', _),
    same_kind (BUniform b) (BUniform b') ∧
    r = s32 ((u32 (weight - ub_item_weight b)) * Z.of_nat (length l)) ∧
    repr (BUniform b') l (replicate (length l) (u32 weight))).
Proof.
  intros (Hh & Hlen & _ & Hw & Hr). unfold crush_adjust_uniform_bucket_item_weight.
  apply wp_ask_bind, wp_ask_bind. cbn zeta. apply wp_bind. unfold wp at 1, update, modify. cbn [rwp].
  apply wp_update_h_bind, wp_ret. pose proof Hh as (_ & Hs & _). simpl in Hs. rewrite <- Hs.
  split; [done|]. split; [done|]. split; [by apply hdr_wf_weight|]. split; [by rewrite length_replicate|].
  split; [apply Forall_replicate, u32_range|]. split; [|done]. simpl. rewrite Hs. unfold sum_u32. f_equal.
  clear. induction (length l) as [|n IH]; [simpl; lia|]. simpl replicate.
  change (u32 weight * Z.of_nat (S n) = u32 weight + sum_list_Z (replicate n (u32 weight))). lia.
Qed.
