(* ===== verification/RemoveSpec.v ===== *)
(** * Removing an item from a bucket (src/crush/builder.c)

    The straw variants delete the item from the abstract value, though they
    answer [-ENOENT] when it was the last one.  The uniform and list variants
    read one cell past their blocks.  The tree variant clears a leaf and cuts off
    trailing empty items. *)

From S2P Require Import Prelude Hash CrushTypes Ln Nodes Choose ChoosePerm ChooseSpec.
From S2P Require Import BuilderBase Builder MakeSpec TreeSpec StrawSpec EditBase AddSpec.

(** ** Shifting a block down *)

Lemma length_delete_lt {A} (l : list A) k : (k < length l)%nat → length (delete k l) = (length l - 1)%nat.
Proof. intros Hk. destruct (lookup_lt_is_Some_2 l k Hk) as [x Hx]. rewrite (length_delete l k); [lia|by eexists]. Qed.

(** [a[j] = a[j + 1]] where [a] already holds the deleted list below [j]. *)
Lemma shift_cell a l k j :
  (k <= j)%nat → (j + 1 < length l)%nat → holds a (take j (delete k l) ++ drop j l) →
  ∃ c a', rdc a (Z.of_nat j + 1) = Ok c ∧ wrc a (Z.of_nat j) c = Ok a' ∧
          holds a' (take (S j) (delete k l) ++ drop (S j) l) ∧ length a' = length a.
Proof.
  intros Hkj Hj Ha. destruct (lookup_lt_is_Some_2 l (j + 1) Hj) as [x Hx].
  assert (delete k l !! j = Some x) as Hd.
  { rewrite list_lookup_delete_ge by lia. by rewrite <- Nat.add_1_r. }
  pose proof (lookup_lt_Some _ _ _ Hd) as Hdl.
  pose proof (holds_length _ _ Ha) as Hla. rewrite length_app, length_take, length_drop in Hla.
  assert (a !! (j + 1)%nat = Some (Some x)) as Hax.
  { eapply holds_lookup; [done|]. rewrite lookup_app_r by (rewrite length_take; lia).
    rewrite length_take, Nat.min_l, lookup_drop by lia. by replace (j + (j + 1 - j))%nat with (j + 1)%nat by lia. }
  exists (Some x), (<[j := Some x]> a). unfold rdc, wrc.
  rewrite !(proj2 (Z.ltb_ge _ 0)) by lia. replace (Z.to_nat (Z.of_nat j + 1)) with (j + 1)%nat by lia.
  rewrite Hax, Nat2Z.id. destruct (lookup_lt_is_Some_2 a j) as [c ->]; [lia|].
  split; [done|]. split; [done|]. split; [|apply length_insert].
  rewrite <- (insert_prefix _ l j x) by (done || lia). apply holds_insert; [done|].
  rewrite length_app, length_take, length_drop. lia.
Qed.

Lemma take_delete_start (l : list Z) k : take k (delete k l) ++ drop k l = l.
Proof.
  assert (take k (delete k l) = take k l) as ->; [|apply take_drop].
  apply list_eq. intros i. destruct (decide (i < k)%nat).
  - rewrite !lookup_take_lt by done. by apply list_lookup_delete_lt.
  - by rewrite !lookup_take_ge by lia.
Qed.

Lemma take_delete_end (l : list Z) k : (k < length l)%nat →
  take (length l - 1) (delete k l) ++ drop (length l - 1) l = delete k l ++ drop (length l - 1) l.
Proof. intros Hk. by rewrite firstn_all2 by (rewrite length_delete_lt; lia). Qed.

(** ** The common loop of the straw variants *)

(** A weight field is independent of the header and of the [rest] of the
    bucket. *)
Record field_laws {B R : Type} {HB : HasHeader B} (wf : field B) (rest : B → R) : Prop := {
  fl_hdr : ∀ h b, hdr (set_hdr h b) = h;
  fl_hdr_f : ∀ a b, hdr (set_f wf a b) = hdr b;
  fl_get_h : ∀ h b, get_f wf (set_hdr h b) = get_f wf b;
  fl_get_f : ∀ a b, get_f wf (set_f wf a b) = a;
  fl_rest_h : ∀ h b, rest (set_hdr h b) = rest b;
  fl_rest_f : ∀ a b, rest (set_f wf a b) = rest b }.

Section cut.
Context {B R : Type} {HB : HasHeader B} (wf : field B) (rest : B → R) (Hlaws : field_laws wf rest).
Context (item : Z) (l ws : list Z) (v : Z).
Context (Hlen : length ws = length l).

#[local] Abbreviation k := (index_of item l).
#[local] Abbreviation n1 := (length l - 1)%nat.

Context (Hk : (k < length l)%nat) (Hv : ws !! k = Some v).

(** The bucket [b'] differs from [b] in items and weights only. *)
Definition shifted_from (b : B) (j : nat) (b' : B) : Prop :=
  ∃ its, hdr b' = set_b_items its (hdr b) ∧ holds its (take j (delete k l) ++ drop j l) ∧
         holds (get_f wf b') (take j (delete k ws) ++ drop j ws) ∧ rest b' = rest b.

Lemma shift_body b b' o j :
  (k <= j)%nat → (j + 1 < length l)%nat → shifted_from b j b' →
  wp (_ ← copyf items_f (Z.of_nat j) (Z.of_nat j + 1); copyf wf (Z.of_nat j) (Z.of_nat j + 1)) (b', o)
     (λ _ '(b'', o'), shifted_from b (S j) b'' ∧ o' = o).
Proof.
  intros Hkj Hj (its & Eh & Hits & Hws & Er). destruct Hlaws as [L1 L2 L3 L4 L5 L6].
  destruct (shift_cell its l k j Hkj Hj Hits) as (c & its' & R1 & W1 & Hits' & _).
  destruct (shift_cell _ ws k j Hkj ltac:(lia) Hws) as (d & iws' & R2 & W2 & Hiws' & _).
  unfold wp, mbind, M_bind, copyf. cbn [get_f set_f items_f]. rewrite Eh. cbn [b_items set_b_items].
  rewrite R1. cbn [mbind res_bind]. rewrite W1. cbn [mbind res_bind]. rewrite L3, R2. cbn [mbind res_bind].
  rewrite W2. cbn [mbind res_bind rwp]. split; [|done]. exists its'. rewrite L2, L1, L4, L6, L5. done.
Qed.

(** What the loop leaves when it found the item. *)
Definition cut_post (b b' : B) : Prop :=
  ∃ its, hdr b' = set_b_items its (set_b_weight (weight_minus v (b_weight (hdr b)))
                    (set_b_size (Z.of_nat n1) (hdr b))) ∧
         holds its (delete k l) ∧ holds (get_f wf b') (delete k ws) ∧ rest b' = rest b.

Lemma straw_cut_ok b o :
  holds (b_items (hdr b)) l → b_size (hdr b) = Z.of_nat (length l) → Z.of_nat (length l) < 65535 →
  holds (get_f wf b) ws →
  wp (straw_cut item wf) (b, o) (λ i '(b', o'), i = Z.of_nat k ∧ cut_post b b' ∧ o' = o).
Proof.
  intros Hi Hs Hlt Hw. destruct Hlaws as [L1 L2 L3 L4 L5 L6]. unfold straw_cut.
  apply wp_ask_bind, wp_ask_bind. rewrite Hs.
  eapply wp_lift_bind; [by apply find_item_ok|].
  rewrite (proj2 (Z.eqb_neq _ _)) by lia. apply wp_update_h_bind.
  eapply wp_rdf_bind; [rewrite L3; by apply (rd_at _ ws k v)|]. apply wp_ask_bind, wp_update_h_bind. rewrite L1.
  match goal with |- wp _ (?b1, _) _ => set (b0 := b1) end.
  assert (hdr b0 = set_b_weight (weight_minus v (b_weight (hdr b))) (set_b_size (Z.of_nat n1) (hdr b))) as E0.
  { unfold b0. rewrite !L1. simpl. rewrite (u32_small (_ - _)) by (unfold is_u32; lia).
    by replace (Z.of_nat (length l) - 1) with (Z.of_nat n1) by lia. }
  eapply wp_bind_mono.
  { apply (for_s_rule (λ j '(b', o'), 0 <= j ∧ shifted_from b0 (Z.to_nat j) b' ∧ o' = o)).
    - split; [lia|]. split; [|done]. rewrite Nat2Z.id. exists (b_items (hdr b)). rewrite !take_delete_start.
      split; [by rewrite E0; destruct (hdr b)|]. split; [done|]. split; [|done]. unfold b0. by rewrite !L3.
    - intros j [b' o'] Hj (Hj0 & Hb' & ->). rewrite <- (Z2Nat.id j) by lia.
      eapply wp_mono; [apply (shift_body b0 b' o (Z.to_nat j)); [lia|lia|done]|].
      intros [] [b'' o''] [H ->]. split; [lia|]. split; [|done].
      by replace (Z.to_nat (Z.of_nat (Z.to_nat j) + 1)) with (S (Z.to_nat j)) by lia. }
  intros [] [b' o'] (_ & (its & Eh & Hits & Hws & Er) & ->). apply wp_ret. split; [done|]. split; [|done].
  replace (Z.to_nat _) with n1 in * by lia.
  rewrite take_delete_end in Hits by done. rewrite <- Hlen in Hws. rewrite take_delete_end in Hws by lia.
  exists its. rewrite Eh, E0. split; [done|]. split; [by eapply holds_app_l|]. split; [by eapply holds_app_l|].
  rewrite Er. unfold b0. by rewrite !L5.
Qed.
End cut.

(** ** Straw2 and straw *)

Definition straw2_laws : field_laws s2_weights_f (λ _, tt).
Proof. by split. Qed.
Definition straw_laws : field_laws sb_weights_f sb_straws.
Proof. by split. Qed.

(** The result: [-ENOENT] for the last position, although it was removed. *)
Definition remove_post (b : bucket) (l ws : list Z) (k : nat) (o : list bool) (r : Z) (b' : bucket) : Prop :=
  same_kind b b' ∧
  (r = (if bool_decide (S k = length l) then - ENOENT else 0) ∧ repr b' (delete k l) (delete k ws) ∨
   r = - ENOMEM ∧ ¬ allocs_ok o ∧ (bucket_alg b ≠ CRUSH_BUCKET_STRAW → repr b' (delete k l) (delete k ws))).

Section remove.
Context (item : Z) (l ws : list Z) (v : Z) (o : list bool).
Context (Hlen : length ws = length l) (Hws : Forall is_u32 ws) (Hsum : sum_list_Z ws < 4294967296).

#[local] Abbreviation k := (index_of item l).
#[local] Abbreviation l' := (delete (index_of item l) l).
#[local] Abbreviation ws' := (delete (index_of item l) ws).
#[local] Abbreviation n1 := (length l - 1)%nat.

Context (Hk : (k < length l)%nat) (Hv : ws !! k = Some v).

Lemma removed_length : length l' = n1 ∧ length ws' = n1.
Proof. rewrite !length_delete_lt by lia. lia. Qed.

Lemma removed_u32 : Forall is_u32 ws'.
Proof. by apply Forall_delete. Qed.

Lemma removed_weight w : w = sum_u32 ws → weight_minus v w = sum_u32 ws'.
Proof.
  intros ->. rewrite !sum_u32_small; [|apply removed_u32|rewrite (sum_delete _ _ v) by done|done|done].
  2:{ rewrite Forall_lookup in Hws. specialize (Hws _ _ Hv). unfold is_u32 in Hws. lia. }
  rewrite (sum_delete _ _ v) by done. unfold weight_minus.
  assert (0 <= sum_list_Z ws') as H0.
  { apply sum_list_Z_nonneg. eapply Forall_impl; [apply removed_u32|]. unfold is_u32. lia. }
  rewrite (sum_delete _ _ v) in H0 by done.
  rewrite Forall_lookup in Hws. specialize (Hws _ _ Hv). unfold is_u32 in Hws.
  destruct (Z.ltb_spec v (sum_list_Z ws)); [apply u32_small; unfold is_u32; lia|lia].
Qed.

Lemma removed_hdr h its w :
  hdr_edit h l → holds its l' → hdr_edit (set_b_items its (set_b_weight w (set_b_size (Z.of_nat n1) h))) l'.
Proof.
  intros (Hi & Hs & Hb & Hp & Hn) Hits. unfold hdr_edit. simpl. destruct removed_length as [-> _].
  repeat split; try done; lia.
Qed.

Lemma removed_items h : hdr_edit h l' → hdr_edit (set_b_items (resize_block (b_items h) (Z.of_nat n1)) h) l'.
Proof.
  intros (Hi & H). split; [|done]. apply holds_resize; [done|]. destruct removed_length as [-> _]. done.
Qed.

Lemma removed_perm h : hdr_edit h l' → hdr_edit (set_b_perm (resize_block (b_perm h) (Z.of_nat n1)) h) l'.
Proof.
  intros (Hi & Hs & Hb & Hp & Hn). repeat (split; [done|]). split; [|done]. simpl.
  rewrite length_resize_block. destruct removed_length as [-> _]. lia.
Qed.

Lemma removed_holds a m : holds a m → length m = n1 → holds (resize_block a (Z.of_nat n1)) m.
Proof. intros Ha Hm. apply holds_resize; [done|lia]. Qed.

Lemma removed_repr b :
  hdr_edit (bucket_h b) l' → b_weight (bucket_h b) = sum_u32 ws' → alg_repr b l' ws' → repr b l' ws'.
Proof.
  intros Hh Hw Ha. split; [by apply hdr_edit_wf|]. destruct removed_length as [El Ew].
  split; [by rewrite El, Ew|]. split; [apply removed_u32|done].
Qed.

Lemma newsize_removed h : hdr_edit h l → s32 (b_size h - 1) = Z.of_nat n1.
Proof. intros (_ & -> & Hb & _). rewrite s32_small by (unfold is_s32; lia). lia. Qed.

Lemma last_test : (Z.of_nat k =? Z.of_nat n1) = bool_decide (S k = length l).
Proof. destruct (Z.eqb_spec (Z.of_nat k) (Z.of_nat n1)); [rewrite bool_decide_true|rewrite bool_decide_false]; (done || lia). Qed.

Lemma remove_done b b' r :
  same_kind b b' → r = (if bool_decide (S k = length l) then - ENOENT else 0) → repr b' l' ws' →
  remove_post b l ws k o r b'.
Proof. intros Hs -> Hr. split; [done|]. by left. Qed.

Lemma remove_nomem b b' : same_kind b b' → ¬ allocs_ok o → repr b' l' ws' → remove_post b l ws k o (- ENOMEM) b'.
Proof. intros Hs Ho Hr. split; [done|]. by right. Qed.

Lemma remove_straw2_ok b o0 :
  hdr_edit (s2_h b) l → b_weight (s2_h b) = sum_u32 ws → straw2_wf b l ws → (allocs_ok o → allocs_ok o0) →
  wp (crush_remove_straw2_bucket_item item) (b, o0) (λ r '(b', _),
    remove_post (BStraw2 b) l ws k o r (BStraw2 b')).
Proof.
  intros Hh Hw (_ & Hiw & _) HG. unfold crush_remove_straw2_bucket_item. apply wp_ask_bind.
  cbn zeta. rewrite (newsize_removed (s2_h b)) by done. destruct removed_length as [El Ew].
  eapply wp_bind_mono.
  { apply (straw_cut_ok s2_weights_f (λ _, tt) straw2_laws item l ws v); try done; apply Hh. }
  intros i [b1 o1] (-> & (its & Eh & Hits & Hws' & _) & ->). cbn [hdr straw2_header get_f s2_weights_f] in *.
  destruct b1 as [h1 iw1]. simpl in Eh, Hws'. subst h1.
  pose proof (removed_hdr (s2_h b) its (weight_minus v (b_weight (s2_h b))) Hh Hits) as Hnew.
  assert (∀ h iw, hdr_edit h l' → b_weight h = sum_u32 ws' → holds iw ws' →
    repr (BStraw2 (CrushBucketStraw2 h iw)) l' ws') as Hold.
  { intros h iw Hh' Hw' Hiw'. apply removed_repr; [done..|]. destruct Hh' as (Hi & Hs & _).
    split; [done|]. split; [done|]. split; [done|]. split; [by rewrite El, Ew|apply removed_u32]. }
  pose proof (removed_weight _ Hw) as Hw'.
  apply wp_ask_bind. simpl. rewrite last_test. destruct (bool_decide_reflect (S k = length l)) as [Hlast|Hnl].
  { apply wp_ret, remove_done; [done|by rewrite bool_decide_true|by apply Hold]. }
  pose proof (removed_items _ Hnew) as Hn1. pose proof (removed_perm _ Hn1) as Hn2.
  pose proof (removed_holds _ _ Hws' Ew) as Hiw'.
  apply (wp_realloc (allocs_ok o)); [lia|done|by intros; apply remove_nomem; [| |apply Hold]|intros o2 Ho2].
  apply (wp_realloc (allocs_ok o)); [lia|done|by intros; apply remove_nomem; [| |apply Hold]|intros o3 Ho3].
  apply (wp_realloc (allocs_ok o)); [lia|done|by intros; apply remove_nomem; [| |apply Hold]|intros o4 Ho4].
  apply wp_ret, remove_done; [done|by rewrite bool_decide_false|by apply Hold].
Qed.

Lemma remove_straw_ok pow version b o0 :
  hdr_edit (sb_h b) l → b_weight (sb_h b) = sum_u32 ws → alg_repr (BStraw b) l ws → (allocs_ok o → allocs_ok o0) →
  wp (crush_remove_straw_bucket_item item pow version) (b, o0) (λ r '(b', _),
    remove_post (BStraw b) l ws k o r (BStraw b')).
Proof.
  intros Hh Hw (Hiw & ss & (_ & Hst & _ & Hlss) & (Hls & Hsu & Hs0)) HG.
  unfold crush_remove_straw_bucket_item. apply wp_ask_bind.
  cbn zeta. rewrite (newsize_removed (sb_h b)) by done. destruct removed_length as [El Ew].
  eapply wp_bind_mono.
  { apply (straw_cut_ok sb_weights_f sb_straws straw_laws item l ws v); try done; apply Hh. }
  intros i [b1 o1] (-> & (its & Eh & Hits & Hws' & Er) & ->). cbn [hdr straw_header get_f sb_weights_f] in *.
  destruct b1 as [h1 iw1 st1]. simpl in Eh, Hws', Er. subst h1 st1.
  pose proof (removed_hdr (sb_h b) its (weight_minus v (b_weight (sb_h b))) Hh Hits) as Hnew.
  assert (∀ h iw st ss', hdr_edit h l' → b_weight h = sum_u32 ws' → holds iw ws' → holds st ss' → straws_ok ws' ss' →
    repr (BStraw (CrushBucketStraw h iw st)) l' ws') as Hold.
  { intros h iw st ss' Hh' Hw' Hiw' Hst' Hss'. apply removed_repr; [done..|]. destruct Hh' as (Hi & Hs & _).
    split; [done|]. exists ss'. split; [|done]. destruct Hss' as (Hl' & _). split; [done|]. split; [done|].
    split; [done|]. by rewrite Hl', El, Ew. }
  pose proof (removed_weight _ Hw) as Hw'.
  assert (∀ b', same_kind (BStraw b) (BStraw b') → ¬ allocs_ok o → remove_post (BStraw b) l ws k o (- ENOMEM) (BStraw b'))
    as Hnomem by (intros b' Hkd Ho; split; [done|]; by right).
  apply wp_ask_bind. simpl. rewrite last_test. destruct (bool_decide_reflect (S k = length l)) as [Hlast|Hnl].
  { apply wp_ret, remove_done; [done|by rewrite bool_decide_true|].
    assert (k = n1) as Ek by lia.
    eapply (Hold _ _ _ (take n1 ss)); [done..| |].
    - apply (holds_app_l _ _ (drop n1 ss)). by rewrite take_drop.
    - split; [rewrite length_take, Ew; lia|]. split; [by apply Forall_take|]. intros i Hi.
      pose proof (lookup_lt_Some _ _ _ Hi) as Hil. rewrite lookup_take_lt by lia. apply Hs0.
      rewrite list_lookup_delete_lt in Hi by lia. done. }
  do 4 (apply (wp_realloc (allocs_ok o)); [lia|done|by intros; apply Hnomem|intros ? ?]).
  pose proof (removed_perm _ (removed_items _ Hnew)) as Hn2. simpl in Hn2.
  pose proof (removed_holds _ _ Hws' Ew) as Hiw'. pose proof Hn2 as (Hi2 & Hs2 & Hb2 & _).
  eapply wp_mono.
  { apply (crush_calc_straw_ok pow version _ ws'); simpl.
    - exact Hiw'.
    - by rewrite Ew.
    - rewrite Ew. lia.
    - rewrite length_resize_block, Ew. lia. }
  intros r [b' o9] [Ho Hr]. destruct Hr as [[-> ->]|(-> & st & ss' & -> & Hst' & Hss')].
  - apply Hnomem; [done|]. intros Ha. by destruct (Ho ltac:(auto)).
  - apply remove_done; [done|by rewrite bool_decide_false|]. by eapply Hold.
Qed.
End remove.

(** ** Uniform: one cell too far *)

(** The move loop of a block without a spare cell. *)
Lemma shift_too_far {B} `{HasHeader B} n : ∀ i (b : B) o,
  (∀ h b, hdr (set_hdr h b) = h) → 0 <= i → (0 < n)%nat → i + Z.of_nat n = Z.of_nat (length (b_items (hdr b))) →
  for_s n i (λ j, copyf items_f j (j + 1)) (b, o) = Fault OutOfBounds.
Proof.
  induction n as [|n IH]; intros i b o Hh Hi Hn E; [lia|]. cbn [for_s].
  unfold mbind, M_bind, copyf. cbn [get_f set_f items_f]. unfold rdc, wrc.
  rewrite !(proj2 (Z.ltb_ge _ 0)) by lia. destruct n as [|n].
  - rewrite (lookup_ge_None_2 (b_items (hdr b)) (Z.to_nat (i + 1))) by lia. done.
  - destruct (lookup_lt_is_Some_2 (b_items (hdr b)) (Z.to_nat (i + 1))) as [c ->]; [lia|].
    destruct (lookup_lt_is_Some_2 (b_items (hdr b)) (Z.to_nat i)) as [d ->]; [lia|]. cbn [mbind res_bind].
    apply IH; [done|lia|lia|]. rewrite Hh. simpl. rewrite length_insert. lia.
Qed.

Lemma remove_uniform_faults item b l o :
  b_items (ub_h b) = cells l → b_size (ub_h b) = Z.of_nat (length l) → item ∈ l →
  crush_remove_uniform_bucket_item item (b, o) = Fault OutOfBounds.
Proof.
  intros Hi Hs Hin. apply index_of_elem in Hin. unfold crush_remove_uniform_bucket_item.
  unfold mbind, M_bind, ask, gets. rewrite Hi, Hs, (find_item_ok _ l) by (done || apply holds_cells).
  cbn [lift]. rewrite (proj2 (Z.eqb_neq _ _)) by lia.
  rewrite shift_too_far; [done|done|lia|lia|]. simpl. rewrite Hi, length_cells. lia.
Qed.

(** ** Removing an item from a tree bucket (src/crush/builder.c)

    The leaf is cleared, its ancestors are lowered, and the trailing items
    whose weight is zero are cut off, with the tree when its depth drops. *)

(** ** Cutting a tree *)

Lemma zero_subtree d nw h : ∀ k,
  1 <= d <= 30 → inner_sums d nw → in_tree d (Z.of_nat h) k →
  (∀ j, in_tree d 0 j → k * 2 ^ Z.of_nat h <= j < (k + 1) * 2 ^ Z.of_nat h → node_weight nw 0 j = 0) →
  node_weight nw (Z.of_nat h) k = 0.
Proof.
  induction h as [|h IH]; intros k Hd Hi Hin Hz; [apply Hz; [done|change (2 ^ Z.of_nat 0) with 1; lia]|].
  destruct (in_tree_children d Hd (Z.of_nat (S h)) k Hin ltac:(lia)) as [H1 H2].
  rewrite Hi by (done || lia). replace (Z.of_nat (S h) - 1) with (Z.of_nat h) in * by lia.
  assert (2 ^ Z.of_nat (S h) = 2 * 2 ^ Z.of_nat h) as E by (rewrite <- Z.pow_succ_r; [f_equal|]; lia).
  pose proof (Z.pow_pos_nonneg 2 (Z.of_nat h) ltac:(lia) ltac:(lia)) as Hp. rewrite E in Hz.
  rewrite (IH (2 * k)), (IH (2 * k + 1)); try done; intros j Hj Hr; apply Hz; (done || nia).
Qed.

Lemma in_tree_mono d d' h k : in_tree d' h k → d' <= d → in_tree d h k.
Proof.
  intros ((Hh & Hd) & Hk & Hn) Hle. pose proof (Z.pow_le_mono_r 2 d' d). split; [lia|]. split; [done|lia].
Qed.

Lemma node_weight_take d' nw h k :
  in_tree d' h k → node_weight (take (Z.to_nat (2 ^ d')) nw) h k = node_weight nw h k.
Proof.
  intros Hin. pose proof (in_tree_bound _ _ _ Hin) as [Hp _]. destruct Hin as (_ & _ & Hn).
  unfold node_weight.
  rewrite !nth_lookup, lookup_take_lt by lia. done.
Qed.

(** The root of a left-most subtree carries everything when the other leaves
    are zero. *)
Lemma left_root d d' us nw m :
  1 <= d' → d' + Z.of_nat m <= d → 1 <= d <= 30 → tree_nodes d us nw →
  (∀ j, 2 ^ (d' - 1) <= j → default 0 (us !! Z.to_nat j) = 0) →
  node_weight nw (d' + Z.of_nat m - 1) 0 = node_weight nw (d' - 1) 0.
Proof.
  intros Hd' Hm Hd Htn Hz. induction m as [|m IH]; [f_equal; lia|].
  set (h := Z.to_nat (d' + Z.of_nat m - 1)).
  replace (d' + Z.of_nat (S m) - 1) with (Z.of_nat h + 1) by lia.
  assert (in_tree d (Z.of_nat h + 1) 0) as Hin.
  { apply (in_tree_mono d (Z.of_nat h + 2)); [|lia]. replace (Z.of_nat h + 1) with (Z.of_nat h + 2 - 1) by lia.
    apply root_in_tree. lia. }
  rewrite (tn_inner _ _ _ Htn) by (done || lia).
  replace (Z.of_nat h + 1 - 1) with (Z.of_nat h) by lia.
  destruct (in_tree_children d Hd (Z.of_nat h + 1) 0 Hin ltac:(lia)) as [_ H2].
  replace (Z.of_nat h + 1 - 1) with (Z.of_nat h) in H2 by lia.
  rewrite (zero_subtree d nw h (2 * 0 + 1)); [|done|apply Htn|done|].
  - rewrite Z.add_0_r, <- IH by lia. f_equal. lia.
  - intros j Hj Hr. rewrite (tn_leaves _ _ _ Htn) by done. apply Hz.
    pose proof (Z.pow_le_mono_r 2 (d' - 1) (Z.of_nat h)). lia.
Qed.

Lemma tree_nodes_take d d' us nw n :
  1 <= d' <= d → d <= 30 → tree_nodes d us nw → Z.of_nat n <= 2 ^ (d' - 1) →
  (∀ j, (n <= j)%nat → default 0 (us !! j) = 0) → sum_list_Z (take n us) = sum_list_Z us →
  tree_nodes d' (take n us) (take (Z.to_nat (2 ^ d')) nw).
Proof.
  intros Hd' Hd Htn Hn Hz Hsum. pose proof (Z.pow_le_mono_r 2 d' d ltac:(lia) ltac:(lia)) as Hp.
  pose proof (Z.pow_pos_nonneg 2 d' ltac:(lia) ltac:(lia)). pose proof (tn_length _ _ _ Htn). split.
  - rewrite length_take. lia.
  - apply Forall_take, Htn.
  - intros h k Hin Hh. destruct (in_tree_children d' ltac:(lia) h k Hin Hh) as [H1 H2].
    rewrite !node_weight_take by done. apply (tn_inner _ _ _ Htn); [|done]. apply (in_tree_mono d d'); [done|lia].
  - intros k Hin. rewrite node_weight_take by done.
    rewrite (tn_leaves _ _ _ Htn) by (apply (in_tree_mono d d'); [done|lia]).
    destruct (decide (Z.to_nat k < n)%nat); [by rewrite lookup_take_lt by done|].
    rewrite Hz, lookup_take_ge by lia. done.
  - rewrite node_weight_take by (apply root_in_tree; lia). rewrite Hsum, <- (tn_root _ _ _ Htn).
    replace (d - 1) with (d' + Z.of_nat (Z.to_nat (d - d')) - 1) by lia.
    symmetry. apply (left_root d d' us); [lia|lia|lia|done|]. intros j Hj. apply Hz. lia.
Qed.

(** ** Trailing zero weights *)

Fixpoint trim_len (us : list Z) (n : nat) : nat :=
  match n with
  | O => O
  | S m => if default 0 (us !! m) =? 0 then trim_len us m else n
  end.

Lemma trim_len_le us n : (trim_len us n <= n)%nat.
Proof. induction n as [|n IH]; simpl; [done|]. destruct (_ =? 0); lia. Qed.

Lemma trim_len_zero us n : ∀ j, (trim_len us n <= j < n)%nat → default 0 (us !! j) = 0.
Proof.
  induction n as [|n IH]; simpl; intros j Hj; [lia|].
  destruct (Z.eqb_spec (default 0 (us !! n)) 0) as [E|]; [|lia].
  destruct (decide (j = n)) as [->|]; [done|]. apply IH. lia.
Qed.

Lemma tree_trim_ok d us nw a n :
  1 <= d <= 30 → tree_nodes d us nw → holds a nw → Z.of_nat n <= 2 ^ (d - 1) →
  tree_trim a n = Ok (Z.of_nat (trim_len us n)).
Proof.
  intros Hd Htn Ha. induction n as [|n IH]; intros Hn; [done|]. cbn [tree_trim trim_len].
  pose proof (Z.pow_le_mono_r 2 (d - 1) 29 ltac:(lia) ltac:(lia)) as H29. change (2 ^ 29) with 536870912 in H29.
  replace (Z.of_nat (S n) - 1) with (Z.of_nat n) by lia. rewrite calc_tree_node_leaf by lia.
  pose proof (in_tree_leaf d (Z.of_nat n) ltac:(lia) ltac:(lia)) as Hin.
  rewrite (node_rd d ltac:(lia) a nw) by (done || apply Htn). cbn [mbind res_bind].
  rewrite (tn_leaves _ _ _ Htn), Nat2Z.id by done.
  destruct (default 0 (us !! n) =? 0); simpl; [apply IH; lia|done].
Qed.

Lemma sum_zero_tail us n :
  (∀ j, (n <= j)%nat → default 0 (us !! j) = 0) → sum_list_Z (take n us) = sum_list_Z us.
Proof.
  revert n. induction us as [|u us IH]; intros n Hz; [by rewrite take_nil|].
  destruct n as [|n]; simpl.
  - assert (u = 0) as -> by exact (Hz 0%nat ltac:(lia)).
    rewrite <- (IH 0%nat); [done|]. intros j Hj. exact (Hz (S j) ltac:(lia)).
  - f_equal. change (sum_list_Z (take n us) = sum_list_Z us). apply IH. intros j Hj. apply (Hz (S j)). lia.
Qed.

(** ** The whole operation *)

(** What a successful removal leaves: the cleared weights without their
    trailing zeros. *)
Definition cleared (k : nat) (ws : list Z) : list Z := <[k := 0]> ws.

Definition tree_removed (l ws : list Z) (k : nat) (b : crush_bucket_tree) : Prop :=
  let n := trim_len (cleared k ws) (length l) in
  repr (BTree b) (take n l) (take n (cleared k ws)).

Section remove_tree.
Context (item : Z) (l ws : list Z) (v : Z) (o : list bool).
Context (Hlen : length ws = length l) (Hws : Forall is_u32 ws).

#[local] Abbreviation k := (index_of item l).
#[local] Abbreviation ws1 := (cleared (index_of item l) ws).
#[local] Abbreviation n' := (trim_len (cleared (index_of item l) ws) (length l)).

Context (Hk : (k < length l)%nat) (Hv : ws !! k = Some v).

Lemma cleared_length : length ws1 = length l.
Proof. unfold cleared. by rewrite length_insert. Qed.

Lemma trimmed_zero j : (n' <= j)%nat → default 0 (ws1 !! j) = 0.
Proof.
  intros Hj. destruct (decide (j < length l)%nat); [by apply (trim_len_zero _ (length l))|].
  rewrite lookup_ge_None_2; [done|]. rewrite cleared_length. lia.
Qed.

Lemma trimmed_sum : sum_list_Z (take n' ws1) = sum_list_Z ws1.
Proof. apply sum_zero_tail, trimmed_zero. Qed.

Lemma cleared_u32 : Forall is_u32 ws1.
Proof. apply Forall_insert; [done|]. unfold is_u32. lia. Qed.

Lemma v_u32 : is_u32 v.
Proof. rewrite Forall_lookup in Hws. by apply (Hws k). Qed.

Lemma cleared_weight : sum_list_Z ws < 4294967296 → weight_minus v (sum_u32 ws) = sum_u32 (take n' ws1).
Proof.
  intros Hsum. pose proof v_u32 as Hvu. unfold is_u32 in Hvu.
  assert (0 <= sum_list_Z ws1) as H0.
  { apply sum_list_Z_nonneg. eapply Forall_impl; [apply cleared_u32|]. unfold is_u32. lia. }
  unfold sum_u32. rewrite trimmed_sum. unfold cleared in *. rewrite (sum_insert _ _ v) in * by done.
  rewrite (u32_small (sum_list_Z ws)) by (unfold is_u32; lia).
  rewrite u32_small by (unfold is_u32; lia). unfold weight_minus.
  destruct (Z.ltb_spec v (sum_list_Z ws)); [rewrite u32_small by (unfold is_u32; lia); lia|lia].
Qed.

(** The header as the operation leaves it. *)
Lemma trimmed_repr b :
  holds (b_items (tb_h b)) (take n' l) → b_size (tb_h b) = Z.of_nat n' → Z.of_nat (length l) < 65535 →
  (n' <= length (b_perm (tb_h b)))%nat → b_perm_n (tb_h b) = 0 →
  b_weight (tb_h b) = sum_u32 (take n' ws1) → tree_repr b (take n' l) (take n' ws1) →
  tree_removed l ws k b.
Proof.
  intros Hi Hs Hb Hp Hn Hw Ha. pose proof (trim_len_le ws1 (length l)) as Hle.
  split; [apply hdr_edit_wf; unfold hdr_edit; simpl; rewrite length_take, Nat.min_l by lia; repeat split; (done || lia)|].
  split; [rewrite !length_take, cleared_length; lia|]. split; [apply Forall_take, cleared_u32|]. done.
Qed.

Lemma trimmed_nodes d d' nw : 
  1 <= d' <= d → d <= 7 → tree_nodes d ws1 nw → Z.of_nat n' <= 2 ^ (d' - 1) →
  tree_nodes d' (take n' ws1) (take (Z.to_nat (2 ^ d')) nw).
Proof.
  intros Hd' Hd Htn Hn. apply (tree_nodes_take d); [done|lia|done|done|apply trimmed_zero|apply trimmed_sum].
Qed.

(** A block of nodes with the sums of the cut tree represents it. *)
Lemma trimmed_tree d' nw' h a :
  holds (b_items h) (take n' l) → b_size h = Z.of_nat n' → 1 <= d' <= 7 →
  2 ^ (d' - 2) < Z.of_nat n' <= 2 ^ (d' - 1) → sum_list_Z ws < 4294967296 →
  holds a nw' → tree_nodes d' (take n' ws1) nw' →
  tree_repr (CrushBucketTree h (2 ^ d') a) (take n' l) (take n' ws1).
Proof.
  intros Hi Hs Hd Hn Hsum Ha Htn. pose proof (trim_len_le ws1 (length l)) as Hle.
  assert (length (take n' l) = n') as El by (rewrite length_take; lia).
  right. exists d', nw'. rewrite El. split; [|split; [done|split; [lia|]]].
  - split; try done; rewrite ?El; try done; try lia; try apply Htn. split; [apply Htn|].
    intros j Hj Hge. rewrite (tn_leaves _ _ _ Htn) by done. rewrite lookup_take_ge by lia. done.
  - rewrite trimmed_sum. unfold cleared. rewrite (sum_insert _ _ v) by done.
    pose proof v_u32 as Hvu. unfold is_u32 in Hvu. lia.
Qed.

(** The depth of the cut tree. *)
Lemma trimmed_depth d :
  1 <= d <= 7 → Z.of_nat (length l) <= 2 ^ (d - 1) → n' ≠ O →
  ∃ d', calc_depth (Z.of_nat n') = Ok d' ∧ 1 <= d' <= d ∧ 2 ^ (d' - 2) < Z.of_nat n' <= 2 ^ (d' - 1).
Proof.
  intros Hd Hfit Hn0. pose proof (trim_len_le ws1 (length l)) as Hle.
  pose proof (Z.pow_le_mono_r 2 (d - 1) 6 ltac:(lia) ltac:(lia)) as H6. change (2 ^ 6) with 64 in H6.
  destruct (calc_depth_ok (Z.of_nat n')) as (d' & Ed' & Hd' & Hfit' & Hmin'); [lia|].
  exists d'. split; [done|]. split.
  - destruct (decide (d < d')); [|lia]. specialize (Hmin' ltac:(lia)).
    pose proof (Z.pow_le_mono_r 2 (d - 1) (d' - 2) ltac:(lia) ltac:(lia)). lia.
  - split; [|done]. destruct (decide (1 < d')); [by apply Hmin'|]. replace d' with 1 by lia. simpl. lia.
Qed.

Definition tree_remove_post (b : crush_bucket_tree) (r : Z) (b' : crush_bucket_tree) : Prop :=
  same_kind (BTree b) (BTree b') ∧ (r = 0 ∧ tree_removed l ws k b' ∨ r = - ENOMEM ∧ (¬ allocs_ok o ∨ n' = O)).

(** The last state, when items were cut off. *)
Lemma trimmed_end b d' nw' h num a :
  hdr_edit (tb_h b) l → 1 <= d' <= 7 → 2 ^ (d' - 2) < Z.of_nat n' <= 2 ^ (d' - 1) →
  sum_list_Z ws < 4294967296 → holds a nw' → tree_nodes d' (take n' ws1) nw' → num = 2 ^ d' →
  h = set_b_size (Z.of_nat n') (set_b_perm (resize_block (b_perm (tb_h b)) (Z.of_nat n'))
        (set_b_items (resize_block (b_items (tb_h b)) (Z.of_nat n'))
          (set_b_weight (sum_u32 (take n' ws1)) (tb_h b)))) →
  tree_remove_post b 0 (CrushBucketTree h num a).
Proof.
  intros (Hi & Hs & Hb & Hp & Hpn) Hd' Hn Hsum Ha Htn -> ->. split; [done|]. left. split; [done|].
  assert (holds (resize_block (b_items (tb_h b)) (Z.of_nat n')) (take n' l)) as Hits.
  { unfold resize_block. rewrite Nat2Z.id. destruct (holds_take _ _ n' Hi) as [r ->].
    rewrite <- app_assoc. by eexists. }
  apply trimmed_repr; try done.
  - simpl. rewrite length_resize_block. lia.
  - by apply (trimmed_tree d' nw').
Qed.

Lemma remove_tree_ok b o0 :
  hdr_edit (tb_h b) l → b_weight (tb_h b) = sum_u32 ws → tree_repr b l ws → (allocs_ok o → allocs_ok o0) →
  wp (crush_remove_tree_bucket_item item) (b, o0) (λ r '(b', _),
    tree_remove_post b r b').
Proof.
  intros Hh Hw Ha HG. destruct Ha as [->|(d & nw & Htw & Htn & Hmin & Hs0)]; [simpl in Hk; lia|].
  pose proof Htw as [Hi Hs Hd Hfit Hnn Hn Hl Hu Hsums]. pose proof Hh as (_ & _ & Hb & Hp & Hpn).
  unfold crush_remove_tree_bucket_item. apply wp_ask_bind, wp_ask_bind. rewrite Hs.
  pose proof (Z.pow_le_mono_r 2 (d - 1) 6 ltac:(lia) ltac:(lia)) as H6. change (2 ^ 6) with 64 in H6.
  eapply wp_lift_bind; [by apply find_item_ok|]. rewrite (proj2 (Z.eqb_neq _ _)) by lia.
  rewrite s32_small by (unfold is_s32; lia).
  eapply wp_lift_bind; [apply (calc_depth_of_tree d); lia|]. cbn zeta. rewrite calc_tree_node_leaf by lia.
  pose proof v_u32 as Hvu. pose proof Hvu as Hvu'. unfold is_u32 in Hvu'.
  destruct (tree_nodes_insert d ws nw k v 0) as (H1 & H2 & H3 & H4 & H5 & H7 & H8);
    [lia|done|done|rewrite Hlen; lia|unfold is_u32; lia|rewrite (sum_insert _ _ v) by done; lia|].
  eapply wp_rdf_bind; [simpl; rewrite (node_rd d ltac:(lia) _ nw) by done; by rewrite H3|].
  destruct (node_wr d ltac:(lia) _ nw 0 (Z.of_nat k) 0 Hn Hl H2) as (a1 & Ea & Ha1 & _).
  eapply wp_wrf_bind; [exact Ea|].
  destruct (tree_shift_up_ok d ltac:(lia) (Z.to_nat (d - 1)) 0 (Z.of_nat k) (0 - v) _ (set_f tb_nodes_f a1 b) o0 H1 H2 ltac:(lia) H4 H5 H7 Ha1)
    as (a2 & Es & Ha2 & _ & Hu2).
  specialize (H8 Hu2). fold (cleared k ws) in H8. set (nw2 := add_up _ _ _ _ _) in *.
  eapply wp_bind_eq; [exact Es|]. apply wp_ask_bind, wp_update_h_bind, wp_ask_bind.
  eapply wp_lift_bind; [apply (tree_trim_ok d ws1 nw2); [lia|done|done|]; rewrite Z2Nat.id by lia; exact Hfit|].
  rewrite Nat2Z.id. cbn [hdr set_hdr tree_header set_f tb_nodes_f tb_h tb_num_nodes tb_node_weights].
  rewrite Hw, (cleared_weight Hs0). pose proof (trim_len_le ws1 (length l)) as Hle.
  set (h1 := set_b_weight (sum_u32 (take n' ws1)) (tb_h b)).
  destruct (Z.eqb_spec (Z.of_nat n') (Z.of_nat (length l))) as [Eq|Hlt].
  { apply wp_ret. split; [done|]. left. split; [done|].
    assert (take n' l = l) as El by (apply firstn_all2; lia).
    assert (holds (b_items (tb_h b)) (take n' l)) as Hi' by (by rewrite El).
    apply trimmed_repr; try done; [simpl; lia|simpl; lia|]. rewrite Hnn.
    apply (trimmed_tree d nw2); try done; try (simpl; lia).
    rewrite firstn_all2 by (rewrite cleared_length; lia). done. }
  destruct (decide (n' = O)) as [E0|Hn0].
  { unfold wp, realloc_f. rewrite E0. split; [done|]. right. split; [done|by right]. }
  do 2 (apply (wp_realloc (allocs_ok o)); [lia|done|by intros; split; [|right; split; [|left]]|intros ? ?]).
  cbn [hdr set_hdr tree_header set_f get_f items_f perm_f tb_h tb_num_nodes tb_node_weights].
  rewrite !s32_small by (unfold is_s32; lia).
  eapply wp_lift_bind; [apply (calc_depth_of_tree d); lia|].
  destruct (trimmed_depth d Hd Hfit Hn0) as (d' & Ed' & Hdd & Hmin').
  eapply wp_lift_bind; [exact Ed'|].
  pose proof (trimmed_nodes d d' nw2 ltac:(lia) ltac:(lia) H8 ltac:(lia)) as Htn'.
  pose proof (holds_take _ _ (Z.to_nat (2 ^ d')) Ha2) as Hnt.
  destruct (Z.eqb_spec d d') as [<-|Hne]; cbn [negb].
  - apply wp_update_h_bind, wp_ret.
    apply (trimmed_end b d (take (Z.to_nat (2 ^ d)) nw2)); try done.
    rewrite firstn_all2 by (pose proof (tn_length _ _ _ H8); lia). done.
  - assert (2 ^ d' <= 2 ^ 6) as H26 by (apply Z.pow_le_mono_r; lia). change (2 ^ 6) with 64 in H26.
    pose proof (Z.pow_pos_nonneg 2 d' ltac:(lia) ltac:(lia)).
    eapply wp_lift_bind; [apply shl1_ok; lia|]. rewrite (u8_small (2 ^ d')) by lia.
    apply wp_bind. unfold wp at 1, update, modify. cbn [rwp].
    apply (wp_realloc (allocs_ok o)); [lia|done|by intros; split; [|right; split; [|left]]|intros ? ?].
    apply wp_update_h_bind, wp_ret.
    apply (trimmed_end b d' (take (Z.to_nat (2 ^ d')) nw2)); try done; [lia|].
    destruct Hnt as [r E]. cbn [get_f tb_nodes_f tb_set_num_nodes tb_node_weights]. unfold resize_block.
    rewrite E, <- app_assoc. by eexists.
Qed.
End remove_tree.
