(* ===== verification/BuildProps.v ===== *)
(** * Properties of building and editing buckets

    A bucket represents a list of items and a list of weights ([repr]).  The
    make function establishes the representation, and each edit acts on it as
    the list operation that it is meant to be, for every outcome of the
    allocator. *)

From S2P Require Import Prelude Hash CrushTypes Ln Nodes Choose ChoosePerm ChooseSpec.
From S2P Require Import BuilderBase Builder MakeSpec TreeSpec StrawSpec EditBase.
From S2P Require Import AddSpec RemoveSpec.
From S2P Require Import Mapper MapWf FirstnSpec IndepSpec RuleSpec ChooseProps.

(** ** Make *)

(** The weights a made bucket represents: a uniform bucket repeats the first. *)
Definition made_weights (alg : Z) (ws : list Z) : list Z :=
  if alg =? CRUSH_BUCKET_UNIFORM then replicate (length ws) (u32 (default 0 (head ws))) else u32 <$> ws.

Definition known_alg (alg : Z) : Prop := 1 <= alg <= 5.

(** When a make function may not answer NULL. *)
Definition make_fits (alg : Z) (ws : list Z) : Prop :=
  if alg =? CRUSH_BUCKET_UNIFORM
  then u32 (default 0 (head ws)) ≠ 0 ∧ sum_list_Z (made_weights alg ws) < 4294967296
  else if alg <=? CRUSH_BUCKET_TREE then sum_list_Z (made_weights alg ws) < 4294967296 else True.

Definition make_post (alg hash type : Z) (l ws : list Z) (o : list bool) (r : option bucket) : Prop :=
  (allocs_ok o → make_fits alg ws → r ≠ None) ∧
  ∀ b, r = Some b → bucket_alg b = alg ∧ b_type (bucket_h b) = u16 type ∧ b_hash (bucket_h b) = u8 hash ∧
                    repr b l (made_weights alg ws).

Lemma sum_u32_fmap ws : sum_u32 (u32 <$> ws) = sum_u32 ws.
Proof.
  unfold sum_u32. induction ws as [|w ws IH]; [done|].
  change (u32 (u32 w + sum_list_Z (u32 <$> ws)) = u32 (w + sum_list_Z ws)).
  by rewrite u32_add_l, <- u32_add_r, IH, u32_add_r.
Qed.

Lemma sum_replicate n w : sum_list_Z (replicate n w) = Z.of_nat n * w.
Proof.
  induction n as [|n IH]; [done|]. simpl replicate.
  change (w + sum_list_Z (replicate n w) = Z.of_nat (S n) * w). lia.
Qed.

Lemma wp_wrap {A} (m : M (list bool) (option A)) (f : A → bucket) o (Q : option bucket → Prop) :
  wp m o (λ r _, Q (f <$> r)) → wp (b ← m; mret (f <$> b)) o (λ r _, Q r).
Proof. intros H. apply wp_bind. eapply wp_mono; [exact H|]. intros r o' Hr. by apply wp_ret. Qed.

Lemma made_repr hash type l us h b w :
  made_header hash type l h w → bucket_h b = h → length us = length l → Forall is_u32 us → w = sum_u32 us →
  alg_repr b l us → repr b l us.
Proof. intros (Hh & _ & _ & Hw & _) E Hl Hu -> Ha. unfold repr. rewrite E. done. Qed.

Section make.
Context (pow : double → double → double) (version hash type : Z).
Context (items weights : list (option Z)) (l ws : list Z) (o : list bool).
Context (Hitems : holds items l) (Hweights : holds weights ws) (Hlen : length ws = length l).

#[local] Abbreviation size := (Z.of_nat (length l)).
#[local] Abbreviation us := (u32 <$> ws).

Lemma us_length : length us = length l.
Proof. by rewrite length_fmap. Qed.

Lemma made_uniform :
  0 < size < 65535 →
  wp (b ← crush_make_uniform_bucket hash type size items (default 0 (head ws)); mret (BUniform <$> b)) o
     (λ r _, make_post CRUSH_BUCKET_UNIFORM hash type l ws o r).
Proof.
  intros Hs. apply wp_wrap. eapply wp_mono; [apply (make_uniform_ok hash type items l ws); (done || lia)|].
  intros r ? [Hn Hb]. split.
  - intros Ho [H0 Hsum]. rewrite fmap_None. apply Hn; [done|done|].
    unfold made_weights in Hsum. simpl in Hsum. rewrite sum_replicate in Hsum. by rewrite <- Hlen.
  - intros b (u & -> & ->)%fmap_Some. destruct (Hb u eq_refl) as (H0 & Hov & Hmade & Ew).
    split; [done|]. pose proof Hmade as (_ & Et & Eh & _). split; [done|]. split; [done|].
    unfold made_weights. rewrite Z.eqb_refl. pose proof (u32_range (default 0 (head ws))) as Hr.
    eapply made_repr; [done|done|by rewrite length_replicate|by apply Forall_replicate| |].
    + rewrite sum_u32_small; rewrite ?sum_replicate, ?Hlen; try done. by apply Forall_replicate.
    + simpl. by rewrite Hlen, Ew.
Qed.

Lemma made_list :
  size < 65535 →
  wp (b ← crush_make_list_bucket hash type size items weights; mret (BList <$> b)) o
     (λ r _, make_post CRUSH_BUCKET_LIST hash type l ws o r).
Proof.
  intros Hs. apply wp_wrap. eapply wp_mono; [by apply (make_list_ok hash type items weights l ws)|].
  intros r ? [Hn Hb]. split; [intros Ho Hsum; rewrite fmap_None; by apply Hn|].
  intros b (u & -> & ->)%fmap_Some. destruct (Hb u eq_refl) as (Hov & Hmade & Hw).
  split; [done|]. pose proof Hmade as (_ & Et & Eh & _). split; [done|]. split; [done|].
  eapply made_repr; [done|done|apply us_length|apply Forall_u32| |done].
  symmetry. apply sum_u32_small; [apply Forall_u32|done].
Qed.

Lemma made_tree_bucket :
  1 <= size <= 64 →
  wp (b ← crush_make_tree_bucket hash type size items weights; mret (BTree <$> b)) o
     (λ r _, make_post CRUSH_BUCKET_TREE hash type l ws o r).
Proof.
  intros Hs. apply wp_wrap. eapply wp_mono; [by apply (make_tree_ok hash type items weights l ws)|].
  intros r ? [Hn Hb]. split; [intros Ho Hsum; rewrite fmap_None; by apply Hn|].
  intros b (u & -> & ->)%fmap_Some. destruct (Hb u eq_refl) as (Hov & Hmade & d & nw & Hw & Htn & Hmin).
  split; [done|]. pose proof Hmade as (_ & Et & Eh & _). split; [done|]. split; [done|].
  eapply made_repr; [done|done|apply us_length|apply Forall_u32| |].
  - symmetry. apply sum_u32_small; [apply Forall_u32|done].
  - right. by exists d, nw.
Qed.

Lemma made_straw :
  size < 65535 →
  wp (b ← crush_make_straw_bucket pow version hash type size items weights; mret (BStraw <$> b)) o
     (λ r _, make_post CRUSH_BUCKET_STRAW hash type l ws o r).
Proof.
  intros Hs. apply wp_wrap. eapply wp_mono; [by apply (make_straw_ok pow version hash type items weights l ws)|].
  intros r ? [Hn Hb]. split; [intros Ho Hsum; rewrite fmap_None; by apply Hn|].
  intros b (u & -> & ->)%fmap_Some. destruct (Hb u eq_refl) as (Hmade & Hw & ss & Hss).
  split; [done|]. pose proof Hmade as (_ & Et & Eh & _). split; [done|]. split; [done|].
  eapply made_repr; [done|done|apply us_length|apply Forall_u32|symmetry; apply sum_u32_fmap|].
  split; [done|]. by exists ss.
Qed.

Lemma made_straw2 :
  size < 65535 →
  wp (b ← crush_make_straw2_bucket hash type size items weights; mret (BStraw2 <$> b)) o
     (λ r _, make_post CRUSH_BUCKET_STRAW2 hash type l ws o r).
Proof.
  intros Hs. apply wp_wrap. eapply wp_mono; [by apply (make_straw2_ok hash type items weights l ws)|].
  intros r ? [Hn Hb]. split; [intros Ho Hsum; rewrite fmap_None; by apply Hn|].
  intros b (u & -> & ->)%fmap_Some. destruct (Hb u eq_refl) as (Hmade & Hw).
  split; [done|]. pose proof Hmade as (_ & Et & Eh & _). split; [done|]. split; [done|].
  eapply made_repr; [done|done|apply us_length|apply Forall_u32|symmetry; apply sum_u32_fmap|done].
Qed.

(** [crush_make_bucket] of any algorithm, on any outcome of its allocations,
    runs without a fault and answers NULL or a bucket of the requested
    algorithm, type and hash that represents exactly the given items and
    weights.  With enough memory it answers NULL only when the weights overflow
    (uniform, list and tree) or the uniform weight is zero. *)
Theorem crush_make_bucket_represents alg :
  known_alg alg → 1 <= size < 65535 → (alg = CRUSH_BUCKET_TREE → size <= 64) →
  wp (crush_make_bucket pow version alg hash type size items (Some weights)) o
     (λ r _, make_post alg hash type l ws o r).
Proof.
  intros Ha Hs Ht. unfold crush_make_bucket. cbn [default].
  assert (alg = 1 ∨ alg = 2 ∨ alg = 3 ∨ alg = 4 ∨ alg = 5) as Hc by (unfold known_alg in Ha; lia).
  destruct Hc as [->|[->|[->|[->| ->]]]]; cbn [Z.eqb Pos.eqb CRUSH_BUCKET_UNIFORM CRUSH_BUCKET_LIST
    CRUSH_BUCKET_TREE CRUSH_BUCKET_STRAW CRUSH_BUCKET_STRAW2].
  - rewrite (proj2 (Z.eqb_neq _ 0)) by lia. cbn [negb].
    destruct (lookup_lt_is_Some_2 ws 0) as [w Hw]; [lia|].
    eapply wp_bind_eq; [unfold lift; by rewrite (rd_holds weights ws 0 w Hweights (Z.le_refl 0) Hw)|].
    pose proof made_uniform as H. assert (default 0 (head ws) = w) as E by (destruct ws; by simplify_eq/=).
    rewrite E in H. apply H. lia.
  - apply made_list. lia.
  - apply made_tree_bucket. specialize (Ht eq_refl). lia.
  - apply made_straw. lia.
  - apply made_straw2. lia.
Qed.
End make.

(** ** The cache is dropped before an edit *)

Definition uncached (b : bucket) : bucket := set_bucket_h (set_b_perm_n 0 (bucket_h b)) b.

Lemma alg_repr_uncached b l ws : alg_repr b l ws → alg_repr (uncached b) l ws.
Proof.
  destruct b; try done. simpl. intros [->|(d & nw & [] & H)]; [by left|right]. exists d, nw.
  split; [by split|done].
Qed.

Lemma repr_uncached b l ws :
  repr b l ws → hdr_edit (bucket_h (uncached b)) l ∧ b_weight (bucket_h (uncached b)) = sum_u32 ws ∧
                alg_repr (uncached b) l ws ∧ length ws = length l ∧ Forall is_u32 ws.
Proof.
  intros (Hh & Hl & Hu & Hw & Ha). split; [unfold uncached; rewrite bucket_h_set; by apply hdr_wf_edit|].
  split; [unfold uncached; by rewrite bucket_h_set|]. split; [by apply alg_repr_uncached|done].
Qed.

(** ** Add *)

(** The additions that the code supports: a uniform bucket does not look at the
    new weight, and a tree bucket must not overflow or grow deeper. *)
Definition add_allowed (b : bucket) (l ws : list Z) (weight : Z) : Prop :=
  match b with
  | BUniform b => u32 weight = ub_item_weight b
  | BTree _ => sum_list_Z ws + u32 weight < 4294967296 ∧
               calc_depth (Z.of_nat (length l) + 1) = calc_depth (Z.of_nat (length l))
  | _ => True
  end.

Lemma same_depth_room d n :
  1 <= d <= 30 → 2 ^ (d - 2) < n <= 2 ^ (d - 1) → calc_depth (n + 1) = calc_depth n → n + 1 <= 2 ^ (d - 1).
Proof.
  intros Hd Hn E. rewrite (calc_depth_of_tree d n Hd Hn) in E.
  pose proof (Z.pow_le_mono_r 2 (d - 1) 29 ltac:(lia) ltac:(lia)) as H29. change (2 ^ 29) with 536870912 in H29.
  assert (0 <= 2 ^ (d - 2)) by (apply Z.pow_nonneg; lia).
  destruct (calc_depth_ok (n + 1)) as (d' & E' & _ & Hfit & _); [lia|]. rewrite E' in E. by simplify_eq.
Qed.

Lemma add_item_repr pow version b l ws item weight o :
  repr b l ws → Z.of_nat (length l) + 1 < 65535 → add_allowed b l ws weight →
  wp (crush_bucket_add_item pow version b item weight) o (λ '(r, b') _,
    add_post b l ws item weight o r b').
Proof.
  intros Hr Hlt Hok. destruct (repr_uncached b l ws Hr) as (Hh & Hw & Ha & Hlen & Hws).
  unfold crush_bucket_add_item. fold (uncached b). destruct b as [u|lb|t|s|s2|a h]; [..|done];
    simpl uncached in *; apply wp_on_bucket.
  - by apply (add_uniform_ok item weight l ws o Hlen Hws Hlt (CrushBucketUniform (set_b_perm_n 0 (ub_h u)) (ub_item_weight u))).
  - by apply (add_list_ok item weight l ws o Hlen Hws Hlt
      (CrushBucketList (set_b_perm_n 0 (lb_h lb)) (lb_item_weights lb) (lb_sum_weights lb))).
  - simpl in Ha, Hok. destruct Ha as [->|(d & nw & Htw & Htn & Hmin & Hs)]; [by destruct Hok|].
    pose proof Htw as [_ _ Hd Hfit _ _ _ _ _]. destruct Hok as [Hok Hdep].
    apply (add_tree_ok item weight l ws o Hlen Hws Hlt
      (CrushBucketTree (set_b_perm_n 0 (tb_h t)) (tb_num_nodes t) (tb_node_weights t)) d nw); try done.
    apply same_depth_room; [lia|done|done].
  - by apply (add_straw_ok item weight l ws o Hlen Hws Hlt pow version
      (CrushBucketStraw (set_b_perm_n 0 (sb_h s)) (sb_item_weights s) (sb_straws s))).
  - by apply (add_straw2_ok item weight l ws o Hlen Hws Hlt
      (CrushBucketStraw2 (set_b_perm_n 0 (s2_h s2)) (s2_item_weights s2))).
Qed.

(** C28: Adding an item to a bucket of fewer than 65534 items - uniform with the
    weight of its items, a list, straw or straw2 bucket, or a tree whose depth stays
    and whose sum does not overflow - succeeds and appends the item and its weight to
    the value the bucket represents, if the total weight fits 32 bits and no
    allocation fails.  It answers [-ERANGE] only when the total would overflow, and
    the value is then what it was; it answers [-ENOMEM] only when an allocation fails,
    and the value is then what it was, but nothing is said of a straw bucket. *)
Theorem crush_bucket_add_item_refines pow version b l ws item weight o :
  repr b l ws → Z.of_nat (length l) + 1 < 65535 → add_allowed b l ws weight →
  wp (crush_bucket_add_item pow version b item weight) o (λ '(r, b') _,
    add_post b l ws item weight o r b').
Proof. apply add_item_repr. Qed.

(** ** Adjust *)

Definition adjust_allowed (b : bucket) (l ws : list Z) (item weight : Z) : Prop :=
  match b with
  | BUniform _ => False
  | BList _ | BTree _ => sum_list_Z (<[index_of item l := u32 weight]> ws) < 4294967296
  | _ => True
  end.

(** Adjusting the weight of an item that a list, tree, straw or straw2
    bucket holds replaces that one weight in the value the bucket represents -
    the bucket's own weight, the partial sums and the inner nodes of a tree
    included - and returns the signed difference; only a straw bucket can fail,
    for lack of memory. *)
Theorem crush_bucket_adjust_item_weight_refines pow version b l ws item weight v o :
  repr b l ws → item ∈ l → ws !! index_of item l = Some v → adjust_allowed b l ws item weight →
  wp (crush_bucket_adjust_item_weight pow version b item weight) o (λ '(r, b') _,
    adjust_post b l ws (index_of item l) v weight o r b').
Proof.
  intros Hr Hin Hv Hok. apply index_of_elem in Hin. pose proof Hr as (_ & Hlen & Hws & _).
  unfold crush_bucket_adjust_item_weight. destruct b as [u|lb|t|s|s2|a h]; [done|..|by destruct Hr as (_ & _ & _ & _ & [])];
    apply wp_on_bucket.
  - by apply adjust_list_ok.
  - by apply adjust_tree_ok.
  - by apply adjust_straw_ok.
  - by apply adjust_straw2_ok.
Qed.

(** Adjusting a uniform bucket changes the weight of all its items and
    returns the total difference, whatever item is named. *)
Theorem crush_bucket_adjust_uniform pow version u l ws item weight o :
  repr (BUniform u) l ws →
  wp (crush_bucket_adjust_item_weight pow version (BUniform u) item weight) o (λ '(r, b') _,
    same_kind (BUniform u) b' ∧ r = s32 (u32 (weight - ub_item_weight u) * Z.of_nat (length l)) ∧
    repr b' l (replicate (length l) (u32 weight))).
Proof. intros Hr. apply wp_on_bucket. by apply (adjust_uniform_ok weight u l ws). Qed.

(** ** Remove *)

Definition remove_result (b : bucket) (l ws : list Z) (item : Z) (o : list bool) (r : Z) (b' : bucket) : Prop :=
  match b, b' with
  | BTree b, BTree b' => tree_remove_post item l ws o b r b'
  | _, _ => remove_post b l ws (index_of item l) o r b'
  end.

Definition removable (b : bucket) : Prop :=
  match b with BTree _ | BStraw _ | BStraw2 _ => True | _ => False end.

Lemma remove_item_repr pow version b l ws item v o :
  repr b l ws → removable b → item ∈ l → ws !! index_of item l = Some v → sum_list_Z ws < 4294967296 →
  wp (crush_bucket_remove_item pow version b item) o (λ '(r, b') _, remove_result b l ws item o r b').
Proof.
  intros Hr Hrem Hin Hv Hsum. apply index_of_elem in Hin.
  destruct (repr_uncached b l ws Hr) as (Hh & Hw & Ha & Hlen & Hws).
  unfold crush_bucket_remove_item. fold (uncached b). destruct b as [u|lb|t|s|s2|a h]; try done;
    simpl uncached in *; apply wp_on_bucket.
  - by apply (remove_tree_ok item l ws v o Hlen Hws Hin Hv (CrushBucketTree (set_b_perm_n 0 (tb_h t)) (tb_num_nodes t) (tb_node_weights t))).
  - by apply (remove_straw_ok item l ws v o Hlen Hws Hsum Hin Hv pow version (CrushBucketStraw (set_b_perm_n 0 (sb_h s)) (sb_item_weights s) (sb_straws s))).
  - by apply (remove_straw2_ok item l ws v o Hlen Hws Hsum Hin Hv (CrushBucketStraw2 (set_b_perm_n 0 (s2_h s2)) (s2_item_weights s2))).
Qed.

(** C29: If the weights of a straw2, straw or tree bucket add up to less than 2^32,
    no allocation fails and, in a tree, an item with a weight is left, removing an
    item that the bucket holds takes it out of the value the bucket represents: the straw variants delete it with its weight
    (answering [-ENOENT] all the same when it was in the last place); the tree clears
    its weight, lowers the inner nodes, and cuts off the trailing items of weight
    zero together with the nodes no longer needed, and answers 0.  [-ENOMEM] is
    answered only when an allocation fails - a straw2 bucket then still represents
    the value without the item, of straw and tree buckets nothing is said - or when
    no item with a weight would be left in a tree, whose blocks are then
    reallocated to size zero. *)
Theorem crush_bucket_remove_item_refines pow version b l ws item v o :
  repr b l ws → removable b → item ∈ l → ws !! index_of item l = Some v → sum_list_Z ws < 4294967296 →
  wp (crush_bucket_remove_item pow version b item) o (λ '(r, b') _, remove_result b l ws item o r b').
Proof. apply remove_item_repr. Qed.

(** Removing an item from a uniform bucket whose item block is exactly as
    large as the bucket, as the make and add functions leave it, reads the cell
    after the block. *)
Theorem crush_remove_uniform_bucket_item_overruns item b l o :
  b_items (ub_h b) = cells l → b_size (ub_h b) = Z.of_nat (length l) → item ∈ l →
  crush_remove_uniform_bucket_item item (b, o) = Fault OutOfBounds.
Proof. apply remove_uniform_faults. Qed.

(** ** The value that is read back *)

(** [crush_get_bucket_item_weight] returns the weight at a position of the
    value a bucket represents, for every algorithm, and zero past the end. *)
Theorem crush_get_bucket_item_weight_reads b l ws p :
  repr b l ws → Z.of_nat p < 4294967296 →
  crush_get_bucket_item_weight b (Z.of_nat p) = Ok (s32 (default 0 (ws !! p))).
Proof.
  intros (Hh & Hlen & Hws & _ & Ha) Hp. pose proof Hh as (_ & Hs & Hb & _).
  unfold crush_get_bucket_item_weight. rewrite (u32_small (Z.of_nat p)) by (unfold is_u32; lia).
  rewrite Hs. destruct (Z.geb_spec (Z.of_nat p) (Z.of_nat (length l))) as [Hge|Hlt].
  { rewrite lookup_ge_None_2 by lia. done. }
  destruct (lookup_lt_is_Some_2 ws p) as [w Hw]; [lia|]. rewrite Hw. cbn [default].
  destruct b as [u|lb|t|s|s2|a h]; [..|by destruct Ha]; simpl in Ha.
  - rewrite Ha in Hw. apply lookup_replicate in Hw as [-> _]. done.
  - destruct Ha as ((_ & Hiw & _) & _). by rewrite (rd_at _ ws p w).
  - destruct Ha as [->|(d & nw & Htw & Htn & _)]; [simpl in *; lia|].
    pose proof Htw as [_ _ Hd Hfit _ Hn Hl _ _].
    pose proof (Z.pow_le_mono_r 2 (d - 1) 6 ltac:(lia) ltac:(lia)) as H6. change (2 ^ 6) with 64 in H6.
    rewrite calc_tree_node_leaf by lia. pose proof (in_tree_leaf d (Z.of_nat p) ltac:(lia) ltac:(lia)) as Hin.
    rewrite (node_rd d ltac:(lia) _ nw) by done. cbn [mbind res_bind].
    rewrite (tn_leaves _ _ _ Htn), Nat2Z.id, Hw by done. done.
  - destruct Ha as (Hiw & _). by rewrite (rd_at _ ws p w).
  - destruct Ha as (_ & Hiw & _). by rewrite (rd_at _ ws p w).
Qed.

(** A bucket that represents a non-empty value is one from which the mapper
    can choose: for a tree bucket, as soon as its total weight is positive. *)
Theorem represented_bucket_chooses b l ws x r :
  repr b l ws → l ≠ [] → (bucket_alg b = CRUSH_BUCKET_TREE → 0 < sum_list_Z ws) →
  ∃ item b', crush_bucket_choose b x r = Ok (item, b') ∧ item ∈ l.
Proof.
  intros Hr Hl Ht. pose proof (crush_bucket_choose_ok b l x r (repr_bucket_wf b l ws Hr Ht) Hl) as H.
  apply rwp_ok in H as ([item b'] & E & Hin & _). by exists item, b'.
Qed.

(** ** Instances *)

Definition weighed (l ws : list Z) : crush_bucket := set_b_weight (sum_list_Z ws) (sample_header (-1) 1 l).
Definition straw2_weighed (l ws : list Z) : bucket := BStraw2 (CrushBucketStraw2 (weighed l ws) (cells ws)).
Definition list_weighed (l ws : list Z) : bucket :=
  BList (CrushBucketList (weighed l ws) (cells ws) (cells (prefix_sums 0 ws))).
Definition uniform_weighed (l : list Z) (w : Z) : crush_bucket_uniform :=
  CrushBucketUniform (weighed l (replicate (length l) w)) w.

(** The tree of three items, of weights 1, 2 and 3. *)
Definition tree_weighed : bucket :=
  BTree (CrushBucketTree (weighed [10; 11; 12] [1; 2; 3]) 8 (cells [0; 1; 3; 2; 6; 3; 3; 0])).

Lemma weighed_wf l ws : (2 <= length l <= 3)%nat → hdr_wf (weighed l ws) l.
Proof. intros Hl. by apply hdr_wf_weight, sample_hdr_wf. Qed.

Lemma straw2_weighed_repr l ws :
  (2 <= length l <= 3)%nat → length ws = length l → Forall is_u32 ws → sum_list_Z ws < 4294967296 →
  repr (straw2_weighed l ws) l ws.
Proof.
  intros Hl Hlen Hu Hs. split; [by apply weighed_wf|]. split; [done|]. split; [done|].
  split; [by rewrite sum_u32_small|]. repeat split; try done; apply holds_cells.
Qed.

Lemma list_weighed_repr l ws :
  (2 <= length l <= 3)%nat → length ws = length l → Forall is_u32 ws → sum_list_Z ws < 4294967296 →
  repr (list_weighed l ws) l ws.
Proof.
  intros Hl Hlen Hu Hs. split; [by apply weighed_wf|]. split; [done|]. split; [done|].
  split; [by rewrite sum_u32_small|]. split; [|done].
  repeat split; try done; try apply holds_cells; [by rewrite length_prefix_sums|simpl; lia|by apply Forall_prefix_sums].
Qed.

Lemma uniform_weighed_repr l w :
  (2 <= length l <= 3)%nat → is_u32 w → Z.of_nat (length l) * w < 4294967296 →
  repr (BUniform (uniform_weighed l w)) l (replicate (length l) w).
Proof.
  intros Hl Hu Hs. pose proof (Forall_replicate is_u32 (length l) w Hu) as Hall.
  split; [by apply weighed_wf|]. split; [by rewrite length_replicate|]. split; [done|].
  split; [|done]. symmetry. apply sum_u32_small; [done|by rewrite sum_replicate].
Qed.

Lemma tree_weighed_nodes : tree_nodes 3 [1; 2; 3] [0; 1; 3; 2; 6; 3; 3; 0].
Proof.
  destruct tree_sample_wf as [_ _ _ _ _ _ Hl Hu [Hs Hz]]. split; try done.
  intros k Hin. pose proof (in_tree_leaf_inv 3 k ltac:(lia) Hin) as Hk. change (2 ^ (3 - 1)) with 4 in Hk.
  assert (k = 0 ∨ k = 1 ∨ k = 2 ∨ k = 3) as [->|[->|[->| ->]]] by lia; reflexivity.
Qed.

Lemma tree_weighed_repr : repr tree_weighed [10; 11; 12] [1; 2; 3].
Proof.
  split; [apply weighed_wf; simpl; lia|]. split; [done|]. split; [by repeat constructor|]. split; [done|].
  right. exists 3, [0; 1; 3; 2; 6; 3; 3; 0]. split; [|split; [apply tree_weighed_nodes|done]].
  destruct tree_sample_wf as [H1 H2 H3 H4 H5 H6 H7 H8 H9]. by split.
Qed.

Lemma crush_make_bucket_represents_witness :
  wp (crush_make_bucket (λ x _, x) 1 CRUSH_BUCKET_LIST 0 1 2 (cells [4; 5]) (Some (cells [65536; 131072]))) [true; false]
     (λ r _, make_post CRUSH_BUCKET_LIST 0 1 [4; 5] [65536; 131072] [true; false] r).
Proof.
  apply (crush_make_bucket_represents (λ x _, x) 1 0 1 (cells [4; 5]) (cells [65536; 131072]) [4; 5] [65536; 131072]
    [true; false]); try apply holds_cells; try done.
Defined.

Lemma crush_bucket_add_item_refines_witness :
  wp (crush_bucket_add_item (λ x _, x) 1 (list_weighed [4; 5] [65536; 131072]) 6 65536) [] (λ '(r, b') _,
    add_post (list_weighed [4; 5] [65536; 131072]) [4; 5] [65536; 131072] 6 65536 [] r b').
Proof.
  apply crush_bucket_add_item_refines; [|done|done].
  apply list_weighed_repr; [simpl; lia|done|by repeat constructor|done].
Defined.

Lemma crush_bucket_adjust_item_weight_refines_witness :
  wp (crush_bucket_adjust_item_weight (λ x _, x) 1 tree_weighed 11 7) [] (λ '(r, b') _,
    adjust_post tree_weighed [10; 11; 12] [1; 2; 3] 1 2 7 [] r b').
Proof.
  apply (crush_bucket_adjust_item_weight_refines _ _ tree_weighed [10; 11; 12] [1; 2; 3] 11 7 2);
    [apply tree_weighed_repr|apply (bool_decide_unpack _); reflexivity|done|done].
Defined.

Lemma crush_bucket_adjust_uniform_witness :
  wp (crush_bucket_adjust_item_weight (λ x _, x) 1 (BUniform (uniform_weighed [2; 3] 65536)) 2 131072) [] (λ '(r, b') _,
    same_kind (BUniform (uniform_weighed [2; 3] 65536)) b' ∧ r = s32 (u32 (131072 - 65536) * 2) ∧
    repr b' [2; 3] (replicate 2 (u32 131072))).
Proof.
  apply (crush_bucket_adjust_uniform _ _ (uniform_weighed [2; 3] 65536) [2; 3] (replicate 2 65536)).
  apply uniform_weighed_repr; [simpl; lia|unfold is_u32; lia|done].
Defined.

Lemma crush_bucket_remove_item_refines_witness :
  wp (crush_bucket_remove_item (λ x _, x) 1 tree_weighed 12) [] (λ '(r, b') _,
    remove_result tree_weighed [10; 11; 12] [1; 2; 3] 12 [] r b').
Proof.
  apply (crush_bucket_remove_item_refines _ _ tree_weighed [10; 11; 12] [1; 2; 3] 12 3);
    [apply tree_weighed_repr|done|apply (bool_decide_unpack _); reflexivity|done|done].
Defined.

Lemma crush_remove_uniform_bucket_item_overruns_witness :
  crush_remove_uniform_bucket_item 2 (uniform_weighed [2; 3] 65536, []) = Fault OutOfBounds.
Proof.
  apply (crush_remove_uniform_bucket_item_overruns 2 _ [2; 3]); [done|done|].
  apply (bool_decide_unpack _). reflexivity.
Defined.

Lemma crush_get_bucket_item_weight_reads_witness :
  crush_get_bucket_item_weight tree_weighed 2 = Ok 3.
Proof. by apply (crush_get_bucket_item_weight_reads tree_weighed [10; 11; 12] [1; 2; 3] 2 tree_weighed_repr). Defined.

Lemma represented_bucket_chooses_witness :
  ∃ item b', crush_bucket_choose (list_weighed [4; 5] [65536; 131072]) 7 0 = Ok (item, b') ∧ item ∈ [4; 5].
Proof.
  apply (represented_bucket_chooses _ [4; 5] [65536; 131072]); [|done|done].
  apply list_weighed_repr; [simpl; lia|done|by repeat constructor|done].
Defined.
