(* ===== verification/MapSpec.v ===== *)
(** * What the map operations do (src/crush/builder.c)

    Pointer arrays as partial functions from positions to objects, the search
    for a free slot, growing the bucket array, and the scan for the largest
    device. *)

From Stdlib Require Import SpecFloat Sorting.Sorted.
From S2P Require Import Prelude CrushTypes Nodes Choose ChoosePerm ChooseSpec BuilderBase.
From S2P Require Import Builder BuilderMap MakeSpec Mapper MapWf FirstnSpec IndepSpec RuleSpec.
From S2P Require Import ChooseProps Hash Ln StrawSpec.

(** ** Pointer arrays *)

Definition slot {A} (a : list (option A)) (p : nat) : option A := mjoin (a !! p).

Lemma rdp_slot {A} (a : list (option A)) p : (p < length a)%nat → rdp a (Z.of_nat p) = Ok (slot a p).
Proof.
  intros Hp. unfold rdp, slot. rewrite (proj2 (Z.ltb_ge _ 0)) by lia. rewrite Nat2Z.id.
  by destruct (lookup_lt_is_Some_2 a p Hp) as [c ->].
Qed.

Lemma wrp_ok {A} (a : list (option A)) p v : (p < length a)%nat → wrp a (Z.of_nat p) v = Ok (<[p := v]> a).
Proof.
  intros Hp. unfold wrp. rewrite (proj2 (Z.ltb_ge _ 0)) by lia. rewrite Nat2Z.id.
  by destruct (lookup_lt_is_Some_2 a p Hp) as [c ->].
Qed.

Lemma slot_insert {A} (a : list (option A)) p v : (p < length a)%nat → slot (<[p := v]> a) p = v.
Proof. intros Hp. unfold slot. by rewrite list_lookup_insert_eq. Qed.

Lemma slot_insert_ne {A} (a : list (option A)) p q v : p ≠ q → slot (<[p := v]> a) q = slot a q.
Proof. intros Hp. unfold slot. by rewrite list_lookup_insert_ne. Qed.

Lemma slot_past {A} (a : list (option A)) p : (length a <= p)%nat → slot a p = None.
Proof. intros Hp. unfold slot. by rewrite lookup_ge_None_2. Qed.

Lemma length_grow_ptrs {A} (a : list (option A)) n : length (grow_ptrs a n) = Z.to_nat n.
Proof. unfold grow_ptrs. rewrite length_app, length_take, length_replicate. lia. Qed.

Lemma slot_grow {A} (a : list (option A)) n p : Z.of_nat (length a) <= n → slot (grow_ptrs a n) p = slot a p.
Proof.
  intros Hn. unfold slot, grow_ptrs. rewrite firstn_all2 by lia.
  destruct (decide (p < length a)%nat); [by rewrite lookup_app_l by done|].
  rewrite lookup_app_r by lia. rewrite (lookup_ge_None_2 a) by lia.
  destruct (replicate _ _ !! _) as [x|] eqn:E; [|done]. by apply lookup_replicate in E as [-> _].
Qed.

Lemma first_null_from {A} (a : list (option A)) n : ∀ i,
  (i + n = length a)%nat →
  ∃ r, first_null a n (Z.of_nat i) = Ok (Z.of_nat r) ∧ (i <= r <= length a)%nat ∧ slot a r = None ∧
       ∀ q, (i <= q < r)%nat → is_Some (slot a q).
Proof.
  induction n as [|n IH]; intros i Hi; cbn [first_null].
  { exists i. split; [done|]. split; [lia|]. split; [apply slot_past; lia|lia]. }
  rewrite rdp_slot by lia. cbn [mbind res_bind]. destruct (slot a i) as [x|] eqn:Es.
  - replace (Z.of_nat i + 1) with (Z.of_nat (S i)) by lia.
    destruct (IH (S i)) as (r & -> & Hr & Hn & Hall); [lia|]. exists r. split; [done|]. split; [lia|].
    split; [done|]. intros q Hq. destruct (decide (q = i)) as [->|]; [by rewrite Es|]. apply Hall. lia.
  - exists i. split; [done|]. split; [lia|]. split; [done|lia].
Qed.

Lemma first_null_ok {A} (a : list (option A)) size :
  size = Z.of_nat (length a) →
  ∃ r, first_null a (Z.to_nat size) 0 = Ok (Z.of_nat r) ∧ (r <= length a)%nat ∧ slot a r = None ∧
       ∀ q, (q < r)%nat → is_Some (slot a q).
Proof.
  intros ->. rewrite Nat2Z.id. destruct (first_null_from a (length a) 0) as (r & E & Hr & Hn & Hall); [lia|].
  exists r. split; [done|]. split; [lia|]. split; [done|]. intros q Hq. apply Hall. lia.
Qed.

(** ** The bucket array *)

Definition buckets_ok (m : crush_map) : Prop :=
  m_max_buckets m = Z.of_nat (length (m_buckets m)) ∧ m_max_buckets m < 2147483648.

(** Only the bucket array and its size were replaced. *)
Definition rebucketed (m : crush_map) (bs : list (option bucket)) (n : Z) (m' : crush_map) : Prop :=
  m' = set_m_buckets bs (set_m_max_buckets n m) ∧ buckets_ok m'.

Lemma oracle_next (G : Prop) o ok o' :
  next_alloc o = (ok, o') → (G → allocs_ok o) → (G → ok = true ∧ allocs_ok o').
Proof.
  intros E Ho HG. specialize (Ho HG). destruct o as [|b o]; simpl in E; simplify_eq; [done|]. by inversion Ho.
Qed.

Lemma grow_buckets_ok (G : Prop) fuel : ∀ pos m o,
  buckets_ok m → 0 <= pos < 1073741824 → (G → allocs_ok o) →
  (m_max_buckets m = 0 → (1 <= fuel)%nat ∧ pos < 8 * 2 ^ (Z.of_nat fuel - 1)) →
  (m_max_buckets m ≠ 0 → pos < m_max_buckets m * 2 ^ Z.of_nat fuel) →
  wp (grow_buckets fuel pos) (m, o) (λ ok '(m', o'),
    (G → ok = true ∧ allocs_ok o') ∧
    (ok = true → ∃ bs n, rebucketed m bs n m' ∧ pos < n ∧ ∀ q, slot bs q = slot (m_buckets m) q)).
Proof.
  induction fuel as [|fuel IH]; intros pos m o [Hm Hlt] Hpos HG H0 Hf; unfold wp; cbn [grow_buckets];
    destruct (Z.leb_spec (m_max_buckets m) pos) as [Hle|Hgt].
  { exfalso. destruct (decide (m_max_buckets m = 0)) as [E|E]; [destruct (H0 E); lia|].
    specialize (Hf E). change (2 ^ Z.of_nat 0) with 1 in Hf. lia. }
  1,3: simpl; split; [by auto|]; intros _; exists (m_buckets m), (m_max_buckets m);
    split; [split; [by destruct m|done]|]; split; done.
  set (n := if negb (m_max_buckets m =? 0) then _ else _).
  assert (n = if decide (m_max_buckets m = 0) then 8 else m_max_buckets m * 2) as En.
  { unfold n. destruct (decide (m_max_buckets m = 0)) as [->|E]; [done|].
    rewrite (proj2 (Z.eqb_neq _ 0)) by done. simpl. apply s32_small. unfold is_s32. lia. }
  assert (m_max_buckets m < n < 2147483648) as Hn by (rewrite En; destruct (decide _); lia).
  assert (2 ^ Z.of_nat (S fuel) = 2 * 2 ^ Z.of_nat fuel) as E2 by (rewrite <- Z.pow_succ_r by lia; f_equal; lia).
  assert (pos < n * 2 ^ Z.of_nat fuel) as Hreach.
  { rewrite En. destruct (decide (m_max_buckets m = 0)) as [E|E].
    - destruct (H0 E) as [_ Hp]. by replace (Z.of_nat (S fuel) - 1) with (Z.of_nat fuel) in Hp by lia.
    - specialize (Hf E). rewrite E2 in Hf. lia. }
  clearbody n.
  destruct (next_alloc o) as [ok o1] eqn:Eo. pose proof (oracle_next G o ok o1 Eo HG) as Hok.
  rewrite (proj2 (Z.leb_le 0 n)), andb_true_r by lia.
  destruct ok; cbn [negb]; [|simpl; split; [intros HGG; by destruct (Hok HGG)|done]].
  eapply wp_mono.
  { apply (IH pos (set_m_buckets (grow_ptrs (m_buckets m) n) (set_m_max_buckets n m))); simpl; try done; try lia.
    - split; simpl; [rewrite length_grow_ptrs; lia|lia].
    - intros HGG. by apply Hok. }
  intros r [m' o'] [H1 H2]. split; [done|]. intros Hr. destruct (H2 Hr) as (bs & n' & [-> Hok'] & Hp & Hs).
  exists bs, n'. split; [by split|]. split; [done|]. intros q. rewrite Hs. simpl. apply slot_grow. lia.
Qed.

(** ** Devices *)

(** The least bound of the devices seen so far. *)
Definition bounds_devices (l : list Z) (max : Z) : Prop :=
  Forall (λ i, i < max) l ∧ (max = 0 ∨ 0 < max ∧ max - 1 ∈ l).

Lemma bounds_step l i max :
  bounds_devices l max → bounds_devices (l ++ [i]) (if i >=? max then i + 1 else max).
Proof.
  intros [Hf Hm]. destruct (Z.geb_spec i max) as [Hge|Hlt].
  - split.
    + apply Forall_app. split; [|by repeat constructor; lia]. eapply Forall_impl; [done|]. intros; simpl in *; lia.
    + right. assert (0 <= max) by (destruct Hm; lia). split; [lia|]. apply elem_of_app. right.
      apply list_elem_of_singleton. lia.
  - split; [apply Forall_app; split; [done|by repeat constructor]|].
    destruct Hm as [->|[Hp Hin]]; [by left|right]. split; [done|]. apply elem_of_app. by left.
Qed.

Lemma finalize_bucket_ok b l seen max :
  hdr_wf (bucket_h b) l → Forall (λ i, i < 2147483647) l → bounds_devices seen max →
  rwp (finalize_bucket b max) (bounds_devices (seen ++ l)).
Proof.
  intros (Hi & Hs & _) Hl Hb. unfold finalize_bucket. rewrite Hs, Nat2Z.id. eapply rwp_mono.
  - apply (for_up_rule (λ i max, 0 <= i ∧ bounds_devices (seen ++ take (Z.to_nat i) l) max)).
    { split; [done|]. by rewrite take_0, app_nil_r. }
    intros j max' Hj [Hj0 Hb']. destruct (lookup_lt_is_Some_2 l (Z.to_nat j)) as [v Hv]; [lia|].
    rewrite (rd_holds _ l j v Hi Hj0 Hv). cbn [mbind res_bind rwp]. split; [lia|].
    replace (Z.to_nat (j + 1)) with (S (Z.to_nat j)) by lia. rewrite (take_S_r _ _ v), app_assoc by done.
    rewrite Forall_lookup in Hl. specialize (Hl _ _ Hv). simpl in Hl.
    pose proof (bounds_step _ v _ Hb') as Hstep. destruct (Z.geb_spec v max'); [|done].
    rewrite s32_small; [done|]. assert (0 <= max') by (destruct Hb' as [_ [|]]; lia). unfold is_s32. lia.
  - intros max' [_ H]. rewrite Z.add_0_l, Nat2Z.id, firstn_all in H. done.
Qed.

(** ** Properties of building a map

    Buckets and rules are placed in their slot and nowhere else, free slots are
    the least ones, and finalizing finds the exact device bound. *)

(** ** Buckets *)

Definition pos_of_id (id : Z) : nat := Z.to_nat (-1 - id).

(** What [crush_add_bucket] may answer when the bucket is meant for slot [p]. *)
Definition add_bucket_post (b : bucket) (m : crush_map) (o : list bool) (p : nat)
    (out : Z * option Z) (m' : crush_map) : Prop :=
  let id := -1 - Z.of_nat p in
  (out = (0, Some id) ∧ slot (m_buckets m) p = None ∧ ∃ bs n, rebucketed m bs n m' ∧ Z.of_nat p < n ∧
     slot bs p = Some (set_bucket_h (set_b_id id (bucket_h b)) b) ∧
     ∀ q, q ≠ p → slot bs q = slot (m_buckets m) q) ∨
  (out = (- EEXIST, None) ∧ is_Some (slot (m_buckets m) p) ∧ ∃ bs n, rebucketed m bs n m' ∧
     ∀ q, slot bs q = slot (m_buckets m) q) ∨
  (out = (- ENOMEM, None) ∧ ¬ allocs_ok o).

Lemma place_bucket_ok id p b m bs n m' o :
  rebucketed m bs n m' → Z.of_nat p < n → id = -1 - Z.of_nat p → (∀ q, slot bs q = slot (m_buckets m) q) →
  ∀ o0, wp (place_bucket id (Z.of_nat p) b) (m', o) (λ out '(m'', _), add_bucket_post b m o0 p out m'').
Proof.
  intros [-> [Hl Hlt]] Hp -> Hs o0. unfold wp, place_bucket. simpl in *.
  rewrite rdp_slot by lia. cbn [mbind res_bind]. rewrite Hs. destruct (slot (m_buckets m) p) as [x|] eqn:Ex.
  - right. left. split; [done|]. split; [done|]. exists bs, n. done.
  - rewrite wrp_ok by lia. cbn [mbind res_bind]. left. split; [done|]. split; [done|].
    eexists _, n. split; [split; [done|]|].
    { split; simpl; [by rewrite length_insert|done]. }
    split; [done|]. split; [apply slot_insert; lia|]. intros q Hq. rewrite slot_insert_ne by done. apply Hs.
Qed.

(** [crush_add_bucket] with an explicit id, or with the first free slot when
    the id is zero, places the bucket in the slot of its id, writes the id into
    the bucket, grows the array when needed, and changes no other slot; it
    answers [-EEXIST] exactly when the slot is taken, leaving all slots as they
    were, and [-ENOMEM] only when an allocation failed.  The doubling loop
    always ends. *)
Theorem crush_add_bucket_places m o id b :
  buckets_ok m → -1073741824 <= id <= 0 → m_max_buckets m < 1073741824 →
  wp (crush_add_bucket id b) (m, o) (λ out '(m', _),
    ∃ p, (if id =? 0 then (p <= length (m_buckets m))%nat ∧ slot (m_buckets m) p = None ∧
                          ∀ q, (q < p)%nat → is_Some (slot (m_buckets m) q)
          else p = pos_of_id id) ∧
         add_bucket_post b m o p out m').
Proof.
  intros Hok Hid Hmax. pose proof Hok as [Hl Hlt]. unfold crush_add_bucket.
  assert (∀ p, Z.of_nat p < 1073741824 →
    wp (ok ← grow_buckets 32 (s32 (-1 - (-1 - Z.of_nat p)));
        if (ok : bool) then place_bucket (-1 - Z.of_nat p) (s32 (-1 - (-1 - Z.of_nat p))) b else mret (- ENOMEM, None))
      (m, o) (λ out '(m', _), add_bucket_post b m o p out m')) as Hplace.
  { intros p Hp. replace (-1 - (-1 - Z.of_nat p)) with (Z.of_nat p) by lia.
    rewrite s32_small by (unfold is_s32; lia). eapply wp_bind_mono.
    { apply (grow_buckets_ok (allocs_ok o)); try done; try lia.
      all: intros Hz; change (2 ^ (Z.of_nat 32 - 1)) with 2147483648;
        change (2 ^ Z.of_nat 32) with 4294967296; lia. }
    intros ok [m' o'] [H1 H2]. destruct ok.
    - destruct (H2 eq_refl) as (bs & n & Hre & Hn & Hs). by eapply place_bucket_ok.
    - apply wp_ret. right; right. split; [done|]. intros Ho. by destruct (H1 Ho). }
  eapply wp_bind_eq; [done|]. cbn [fst]. destruct (Z.eqb_spec id 0) as [->|Hne].
  - destruct (first_null_ok (m_buckets m) (m_max_buckets m) Hl) as (p & E & Hp & Hn & Hall).
    eapply wp_bind_eq; [unfold lift, crush_get_next_bucket_id; by rewrite E|].
    rewrite s32_small by (unfold is_s32; lia). eapply wp_mono; [apply (Hplace p); lia|].
    intros out [m' o'] H. by exists p.
  - eapply wp_bind_eq; [done|]. cbn zeta. replace id with (-1 - Z.of_nat (pos_of_id id)) by (unfold pos_of_id; lia).
    eapply wp_mono; [apply (Hplace (pos_of_id id)); unfold pos_of_id; lia|].
    intros out [m' o'] H. exists (pos_of_id id). split; [|done].
    f_equal. unfold pos_of_id. lia.
Qed.

(** The next bucket id names the least free slot of the array, or the slot
    after its end. *)
Theorem crush_get_next_bucket_id_least m :
  buckets_ok m →
  ∃ p, crush_get_next_bucket_id m = Ok (-1 - Z.of_nat p) ∧ (p <= length (m_buckets m))%nat ∧
       slot (m_buckets m) p = None ∧ ∀ q, (q < p)%nat → is_Some (slot (m_buckets m) q).
Proof.
  intros [Hl Hlt]. destruct (first_null_ok (m_buckets m) (m_max_buckets m) Hl) as (p & E & Hp & H).
  exists p. unfold crush_get_next_bucket_id. rewrite E. cbn [mbind res_bind].
  rewrite s32_small by (unfold is_s32; lia). done.
Qed.

(** Removing a bucket from a map frees its slot and no other. *)
Theorem crush_remove_bucket_frees m b p :
  buckets_ok m → slot (m_buckets m) p = Some b → b_id (bucket_h b) = -1 - Z.of_nat p →
  ∃ bs, crush_remove_bucket b m = Ok (set_m_buckets bs m) ∧ slot bs p = None ∧
        length bs = length (m_buckets m) ∧ ∀ q, q ≠ p → slot bs q = slot (m_buckets m) q.
Proof.
  intros [Hl Hlt] Hp Hid. assert (p < length (m_buckets m))%nat as Hpl.
  { destruct (decide (p < length (m_buckets m))%nat); [done|]. by rewrite slot_past in Hp by lia. }
  unfold crush_remove_bucket. rewrite Hid. replace (-1 - (-1 - Z.of_nat p)) with (Z.of_nat p) by lia.
  rewrite s32_small by (unfold is_s32; lia). rewrite wrp_ok by done. eexists. split; [done|].
  split; [by apply slot_insert|]. split; [apply length_insert|]. intros q Hq. by apply slot_insert_ne.
Qed.

(** ** Finalize *)

Definition bucket_items (slots : list (option (list Z))) : list Z := concat (omap id slots).

Definition holds_items (s : option (list Z)) (p : option bucket) : Prop :=
  match s, p with
  | Some l, Some b => hdr_wf (bucket_h b) l ∧ Forall (λ i, i < 2147483647) l
  | None, None => True
  | _, _ => False
  end.

Lemma finalize_ok bs slots : Forall2 holds_items slots bs → ∀ i seen max,
  bounds_devices seen max → 0 <= i → ∀ full, length full = (Z.to_nat i + length bs)%nat → drop (Z.to_nat i) full = bs →
  rwp (for_up (length bs) i (λ j max, p ← rdp full j;
         match p with None => Ok max | Some bk => finalize_bucket bk max end) max)
      (bounds_devices (seen ++ bucket_items slots)).
Proof.
  intros H. induction H as [|s p slots bs Hsp H IH]; intros i seen max Hb Hi full Hlen Hd; cbn [for_up length].
  { simpl. by rewrite app_nil_r. }
  assert (rdp full i = Ok p) as ->.
  { pose proof (rdp_slot full (Z.to_nat i)) as E. rewrite Z2Nat.id in E by done. rewrite E by (simpl in *; lia).
    unfold slot. assert (full !! Z.to_nat i = Some p) as ->; [|done].
    rewrite <- (Nat.add_0_r (Z.to_nat i)), <- lookup_drop, Hd. done. }
  cbn [mbind res_bind]. assert (drop (Z.to_nat (i + 1)) full = bs) as Hd'.
  { replace (Z.to_nat (i + 1)) with (Z.to_nat i + 1)%nat by lia. by rewrite <- drop_drop, Hd. }
  assert (∀ max', bounds_devices (seen ++ default [] s) max' →
    rwp (for_up (length bs) (i + 1) (λ j max, p ← rdp full j;
         match p with None => Ok max | Some bk => finalize_bucket bk max end) max')
      (bounds_devices (seen ++ bucket_items (s :: slots)))) as Hgo.
  { intros max' Hb'. replace (seen ++ bucket_items (s :: slots)) with ((seen ++ default [] s) ++ bucket_items slots)
      by (rewrite <- app_assoc; by destruct s).
    apply IH; try done; [lia|rewrite Hlen; simpl; lia]. }
  destruct s as [l|], p as [b|]; simpl in Hsp; try done.
  - destruct Hsp as [Hh Hl]. eapply rwp_bind, rwp_mono; [by apply (finalize_bucket_ok b l seen)|]. apply Hgo.
  - simpl. apply Hgo. by rewrite app_nil_r.
Qed.

(** Finalizing a map sets [max_devices] to the least non-negative bound of
    all items of all its buckets: every item is below it, and it is zero or one
    more than an item that occurs. *)
Theorem crush_finalize_bounds m slots :
  buckets_ok m → Forall2 holds_items slots (m_buckets m) →
  ∃ max, crush_finalize m = Ok (set_m_max_devices max m) ∧ Forall (λ i, i < max) (bucket_items slots) ∧
         (max = 0 ∨ 0 < max ∧ max - 1 ∈ bucket_items slots).
Proof.
  intros [Hl Hlt] Hs. assert (rwp (crush_finalize m) (λ m', ∃ max, m' = set_m_max_devices max m ∧
    bounds_devices (bucket_items slots) max)) as H.
  { unfold crush_finalize. rewrite Hl, Nat2Z.id. apply rwp_bind. eapply rwp_mono.
    - apply (finalize_ok (m_buckets m) slots Hs 0 [] 0); try done. split; [constructor|by left].
    - intros max Hb. exists max. done. }
  apply rwp_ok in H as (m' & E & max & -> & Hb). exists max. done.
Qed.

(** ** Rules *)

Definition rules_ok (m : crush_map) : Prop :=
  m_max_rules m = Z.of_nat (length (m_rules m)) ∧ m_max_rules m <= CRUSH_MAX_RULES.

Definition add_rule_post (rule : crush_rule) (m : crush_map) (o : list bool) (p : nat) (r : Z) (m' : crush_map) : Prop :=
  (r = Z.of_nat p ∧ (∃ rs n, m' = set_m_rules rs (set_m_max_rules n m) ∧ n = Z.max (m_max_rules m) (Z.of_nat p + 1) ∧
     n = Z.of_nat (length rs) ∧ slot rs p = Some rule ∧ ∀ q, q ≠ p → slot rs q = slot (m_rules m) q)) ∨
  (r = - ENOSPC ∧ m' = m ∧ m_max_rules m = CRUSH_MAX_RULES ∧ m_max_rules m <= Z.of_nat p) ∨
  (r = - ENOMEM ∧ ¬ allocs_ok o).

Lemma place_rule_ok rule m o p :
  rules_ok m → Z.of_nat p < 2147483647 →
  rwp ((if m_max_rules m <=? Z.of_nat p then
          if CRUSH_MAX_RULES <? u32 (m_max_rules m + 1) then Ok (- ENOSPC, (m, o)) else
          let m := set_m_max_rules (u32 (Z.of_nat p + 1)) m in
          let '(ok, o) := next_alloc o in
          if negb ok then Ok (- ENOMEM, (m, o)) else
          rules ← wrp (grow_ptrs (m_rules m) (u32 (Z.of_nat p + 1))) (Z.of_nat p) (Some rule);
          Ok (s32 (Z.of_nat p), (set_m_rules rules m, o))
        else
          rules ← wrp (m_rules m) (Z.of_nat p) (Some rule);
          Ok (s32 (Z.of_nat p), (set_m_rules rules m, o))) : res (Z * (crush_map * list bool)))
      (λ '(r, (m', _)), add_rule_post rule m o p r m').
Proof.
  intros [Hl Hmax] Hp. change CRUSH_MAX_RULES with 256 in *. rewrite (u32_small (m_max_rules m + 1)) by (unfold is_u32; lia).
  rewrite (u32_small (Z.of_nat p + 1)), (s32_small (Z.of_nat p)) by (unfold is_u32, is_s32; lia).
  destruct (Z.leb_spec (m_max_rules m) (Z.of_nat p)) as [Hge|Hlt].
  - destruct (Z.ltb_spec 256 (m_max_rules m + 1)); [right; left; split; [done|]; split; [done|split; [change CRUSH_MAX_RULES with 256|]; lia]|].
    cbn zeta. destruct (next_alloc o) as [ok o1] eqn:Eo.
    destruct ok; cbn [negb]; [|right; right; split; [done|]; intros Ho; by destruct (oracle_next _ _ _ _ Eo (λ H : allocs_ok o, H) Ho)].
    rewrite wrp_ok by (rewrite length_grow_ptrs; lia). left. split; [done|].
    eexists _, _. split; [done|]. split; [lia|]. simpl. split; [rewrite length_insert, length_grow_ptrs; lia|].
    split; [apply slot_insert; rewrite length_grow_ptrs; lia|]. intros q Hq.
    rewrite slot_insert_ne by done. apply slot_grow. lia.
  - rewrite wrp_ok by lia. left. split; [done|]. exists (<[p := Some rule]> (m_rules m)), (m_max_rules m).
    split; [by destruct m|]. split; [lia|]. split; [rewrite length_insert; lia|].
    split; [apply slot_insert; lia|]. intros q Hq. by apply slot_insert_ne.
Qed.

(** [crush_add_rule] stores the rule at the requested number, or at the
    least free one when the number is negative, extends the table just enough,
    changes no other rule and returns the number; it answers [-ENOSPC] only when
    the table is full, and [-ENOMEM] only when an allocation failed. *)
Theorem crush_add_rule_places rule m o ruleno :
  rules_ok m → ruleno < 2147483647 →
  (ruleno < 0 → m_max_rules m < CRUSH_MAX_RULES ∨ ∃ q, (q < length (m_rules m))%nat ∧ slot (m_rules m) q = None) →
  wp (crush_add_rule rule ruleno) (m, o) (λ r '(m', _),
    ∃ p, (if ruleno <? 0 then slot (m_rules m) p = None ∧ ∀ q, (q < p)%nat → is_Some (slot (m_rules m) q)
          else ruleno = Z.of_nat p) ∧
         add_rule_post rule m o p r m').
Proof.
  intros Hok Hno Hfree. pose proof Hok as [Hl Hmax]. unfold wp, crush_add_rule.
  destruct (Z.ltb_spec ruleno 0) as [Hneg|Hpos].
  - destruct (first_null_ok (m_rules m) (m_max_rules m) Hl) as (p & -> & Hp & Hn & Hall). cbn [mbind res_bind].
    assert (Z.of_nat p < CRUSH_MAX_RULES) as Hlt.
    { destruct (Hfree Hneg) as [|(q & Hq & Hqn)]; [lia|]. destruct (decide (p <= q)%nat); [lia|].
      destruct (Hall q) as [x Hx]; [lia|]. by rewrite Hx in Hqn. }
    rewrite (proj2 (Z.ltb_lt (Z.of_nat p) CRUSH_MAX_RULES) Hlt). cbn [assert_c mbind res_bind]. change CRUSH_MAX_RULES with 256 in Hlt.
    eapply rwp_mono; [apply (place_rule_ok rule m o p Hok); lia|].
    intros [r [m' o']] H. by exists p.
  - cbn [mbind res_bind]. replace ruleno with (Z.of_nat (Z.to_nat ruleno)) by lia.
    eapply rwp_mono; [apply (place_rule_ok rule m o (Z.to_nat ruleno) Hok); lia|].
    intros [r [m' o']] H. by exists (Z.to_nat ruleno).
Qed.

(** Setting the steps of a rule one after the other. *)
Fixpoint set_steps (n : Z) (steps : list (Z * Z * Z)) (rule : crush_rule) : res crush_rule :=
  match steps with
  | [] => Ok rule
  | (op, a1, a2) :: steps => rule ← crush_rule_set_step n op a1 a2 rule; set_steps (n + 1) steps rule
  end.

Definition step_of (s : Z * Z * Z) : option crush_rule_step :=
  let '(op, a1, a2) := s in Some (CrushRuleStep (op_of_code (u32 op)) a1 a2).

Lemma set_steps_ok steps : ∀ done rest rule,
  ru_steps rule = done ++ rest → ru_len rule = Z.of_nat (length done + length steps) →
  length rest = length steps → Z.of_nat (length done + length steps) < 2147483648 →
  set_steps (Z.of_nat (length done)) steps rule =
  Ok (CrushRule (ru_len rule) (ru_mask rule) (done ++ (step_of <$> steps))).
Proof.
  induction steps as [|[[op a1] a2] steps IH]; intros dn rest rule Es El Er Hlt; cbn [set_steps].
  { destruct rest; [|done]. rewrite app_nil_r in *. destruct rule; simpl in *. by rewrite Es. }
  unfold crush_rule_set_step. simpl in El, Hlt.
  rewrite (u32_small (Z.of_nat (length dn))) by (unfold is_u32; lia).
  rewrite (proj2 (Z.ltb_lt _ _)) by lia. cbn [assert_c mbind res_bind].
  destruct rest as [|x rest]; [done|]. rewrite wrp_ok by (rewrite Es, length_app; simpl; lia).
  cbn [mbind res_bind]. rewrite Es, insert_app_r_alt, Nat.sub_diag by lia. simpl.
  replace (Z.of_nat (length dn) + 1) with (Z.of_nat (length (dn ++ [step_of (op, a1, a2)]))) by (rewrite length_app; simpl; lia).
  rewrite (IH _ rest); simpl in *.
  - by rewrite <- app_assoc.
  - by rewrite <- app_assoc.
  - rewrite length_app. simpl. lia.
  - lia.
  - rewrite length_app. simpl. lia.
Qed.

(** A rule made with room for some steps and then given them one by one
    holds exactly these steps, with the mask it was made with. *)
Theorem crush_rule_steps_roundtrip steps ruleset type minsize maxsize o :
  allocs_ok o → Z.of_nat (length steps) < 2147483648 →
  ∃ rule o', crush_make_rule (Z.of_nat (length steps)) ruleset type minsize maxsize o = Ok (Some rule, o') ∧
    set_steps 0 steps rule =
    Ok (CrushRule (Z.of_nat (length steps)) (CrushRuleMask (u8 ruleset) (u8 type) (u8 minsize) (u8 maxsize))
          (step_of <$> steps)).
Proof.
  intros Ho Hlt. unfold crush_make_rule. destruct (next_alloc o) as [ok o'] eqn:Eo.
  destruct (oracle_next _ _ _ _ Eo (λ H : allocs_ok o, H) Ho) as [-> _].
  rewrite (proj2 (Z.leb_le 0 _)) by lia. simpl. eexists _, _. split; [done|].
  rewrite (set_steps_ok steps [] (replicate (Z.to_nat (Z.of_nat (length steps))) None)); simpl; try done.
  - rewrite u32_small by (unfold is_u32; lia). done.
  - apply u32_small. unfold is_u32. lia.
  - rewrite length_replicate. lia.
Qed.

(** ** Instances *)

Lemma sample_buckets_ok : buckets_ok sample_map.
Proof. split; [done|reflexivity]. Qed.

Lemma sample_rules_ok : rules_ok sample_map.
Proof. split; [done|]. change (3 <= 256). lia. Qed.

Lemma crush_add_bucket_places_witness :
  wp (crush_add_bucket (-9) (BStraw2 (straw2_of [4; 5] [1; 2]))) (sample_map, [true]) (λ out '(m', _),
    ∃ p, p = pos_of_id (-9) ∧ add_bucket_post (BStraw2 (straw2_of [4; 5] [1; 2])) sample_map [true] p out m').
Proof.
  apply (crush_add_bucket_places sample_map [true] (-9)); [apply sample_buckets_ok|lia|reflexivity].
Defined.

Lemma crush_get_next_bucket_id_least_witness :
  ∃ p, crush_get_next_bucket_id sample_map = Ok (-1 - Z.of_nat p) ∧ (p <= length (m_buckets sample_map))%nat ∧
       slot (m_buckets sample_map) p = None ∧ ∀ q, (q < p)%nat → is_Some (slot (m_buckets sample_map) q).
Proof. apply crush_get_next_bucket_id_least, sample_buckets_ok. Defined.

Lemma crush_remove_bucket_frees_witness :
  ∃ bs, crush_remove_bucket (BUniform (CrushBucketUniform (sample_header (-3) 1 [2; 3]) 65536)) sample_map =
          Ok (set_m_buckets bs sample_map) ∧ slot bs 2 = None ∧
        length bs = length (m_buckets sample_map) ∧ ∀ q, q ≠ 2%nat → slot bs q = slot (m_buckets sample_map) q.
Proof. apply crush_remove_bucket_frees; [apply sample_buckets_ok|done|done]. Defined.

Definition sample_slots : list (option (list Z)) := [Some [-2; -3; -4]; Some [0; 1]; Some [2; 3]; Some [4; 5]].

Lemma crush_finalize_bounds_witness :
  ∃ max, crush_finalize sample_map = Ok (set_m_max_devices max sample_map) ∧
         Forall (λ i, i < max) (bucket_items sample_slots) ∧
         (max = 0 ∨ 0 < max ∧ max - 1 ∈ bucket_items sample_slots).
Proof.
  apply crush_finalize_bounds; [apply sample_buckets_ok|].
  repeat (apply Forall2_cons; split; [split; [apply sample_hdr_wf; simpl; lia|by repeat constructor]|]).
  constructor.
Defined.

Lemma crush_add_rule_places_witness :
  wp (crush_add_rule (sample_rule CRUSH_RULE_EMIT) (-1)) (sample_map, []) (λ r '(m', _),
    ∃ p, (slot (m_rules sample_map) p = None ∧ ∀ q, (q < p)%nat → is_Some (slot (m_rules sample_map) q)) ∧
         add_rule_post (sample_rule CRUSH_RULE_EMIT) sample_map [] p r m').
Proof.
  apply (crush_add_rule_places (sample_rule CRUSH_RULE_EMIT) sample_map [] (-1));
    [apply sample_rules_ok|lia|left; reflexivity].
Defined.

Lemma crush_rule_steps_roundtrip_witness :
  ∃ rule o', crush_make_rule 2 0 1 1 10 [] = Ok (Some rule, o') ∧
    set_steps 0 [(1, -1, 0); (4, 0, 0)] rule =
    Ok (CrushRule 2 (CrushRuleMask (u8 0) (u8 1) (u8 1) (u8 10)) (step_of <$> [(1, -1, 0); (4, 0, 0)])).
Proof. apply (crush_rule_steps_roundtrip [(1, -1, 0); (4, 0, 0)]); [constructor|done]. Defined.

(** ** Properties of the primitives

    The hash mix, the fixed-point logarithm, the overflow tests, the search for
    a rule and the computation of straw lengths. *)

(** The mix of the hash loses nothing: on 32-bit words [crush_hashmix] is
    injective, so no two triples are merged before a word is dropped. *)
Theorem crush_hashmix_injective a b c a' b' c' :
  mixed_u32 (Mixed a b c) → mixed_u32 (Mixed a' b' c') →
  crush_hashmix a b c = crush_hashmix a' b' c' → (a, b, c) = (a', b', c').
Proof.
  intros H H' E. pose proof (crush_hashunmix_mix _ H) as U. pose proof (crush_hashunmix_mix _ H') as U'.
  simpl in U, U'. rewrite E in U. rewrite U in U'. by injection U' as -> -> ->.
Qed.

(** The fixed-point logarithm is defined on every 16-bit argument, without
    reading outside its tables, its value fits 48 bits, and below 0xffff it
    grows with its argument. *)
Theorem crush_ln_monotone u v :
  0 <= u → u <= v → v < 65535 →
  ∃ a b, crush_ln u = Ok a ∧ crush_ln v = Ok b ∧ 0 <= a <= b ∧ b < 281474976710656.
Proof.
  intros Hu Huv Hv. destruct (crush_ln_total u) as [Eu Ru]; [lia|]. destruct (crush_ln_total v) as [Ev Rv]; [lia|].
  exists (ln16 u), (ln16 v). split; [done|]. split; [done|]. pose proof (ln16_mono u v). lia.
Qed.

(** The last argument breaks the order. *)
Example crush_ln_drops : ∃ a b, crush_ln 65534 = Ok a ∧ crush_ln 65535 = Ok b ∧ b < a.
Proof. eexists _, _. split; [reflexivity|]. split; [reflexivity|]. reflexivity. Qed.

(** [crush_addition_is_unsafe] answers yes exactly when the sum of the two
    arguments, as 32-bit words, does not fit 32 bits, and
    [crush_multiplication_is_unsafe] exactly when the product does not fit or
    the second factor is zero. *)
Theorem overflow_tests_exact a b :
  crush_addition_is_unsafe a b = bool_decide (4294967296 <= u32 a + u32 b) ∧
  crush_multiplication_is_unsafe a b = bool_decide (u32 b = 0 ∨ 4294967296 <= u32 a * u32 b).
Proof.
  split.
  - rewrite crush_addition_is_unsafe_u32. destruct (Z.leb_spec 4294967296 (u32 a + u32 b));
      [by rewrite bool_decide_true|rewrite bool_decide_false; [done|lia]].
  - assert (crush_multiplication_is_unsafe a b = crush_multiplication_is_unsafe (u32 a) (u32 b)) as ->
      by (unfold crush_multiplication_is_unsafe; by rewrite !u32_u32).
    rewrite crush_multiplication_is_unsafe_spec by apply u32_range.
    destruct (Z.eqb_spec (u32 b) 0) as [E|E]; [rewrite bool_decide_true by auto; done|].
    destruct (Z.leb_spec 4294967296 (u32 a * u32 b)); [rewrite bool_decide_true by auto; done|].
    rewrite bool_decide_false by lia. done.
Qed.

(** ** Finding a rule *)

Definition rule_matches (m : crush_map) (ruleset type size : Z) (p : nat) : Prop :=
  ∃ rule, slot (m_rules m) p = Some rule ∧ mask_matches (ru_mask rule) ruleset type size = true.

Lemma find_rule_ok m ruleset type size n : ∀ i,
  (i + n = length (m_rules m))%nat → Z.of_nat (length (m_rules m)) < 2147483648 →
  (∃ p, find_rule_from m ruleset type size n (Z.of_nat i) = Ok (Z.of_nat p) ∧ rule_matches m ruleset type size p ∧
        ∀ q, (i <= q < p)%nat → ¬ rule_matches m ruleset type size q) ∨
  (find_rule_from m ruleset type size n (Z.of_nat i) = Ok (-1) ∧
   ∀ q, (i <= q)%nat → ¬ rule_matches m ruleset type size q).
Proof.
  induction n as [|n IH]; intros i Hi Hlt; cbn [find_rule_from].
  { right. split; [done|]. intros q Hq (rule & Hs & _). by rewrite slot_past in Hs by lia. }
  rewrite rdp_slot by lia. cbn [mbind res_bind].
  assert (¬ rule_matches m ruleset type size i →
    (∃ p, find_rule_from m ruleset type size n (Z.of_nat i + 1) = Ok (Z.of_nat p) ∧ rule_matches m ruleset type size p ∧
          ∀ q, (i <= q < p)%nat → ¬ rule_matches m ruleset type size q) ∨
    (find_rule_from m ruleset type size n (Z.of_nat i + 1) = Ok (-1) ∧
     ∀ q, (i <= q)%nat → ¬ rule_matches m ruleset type size q)) as Hnext.
  { intros Hno. replace (Z.of_nat i + 1) with (Z.of_nat (S i)) by lia.
    destruct (IH (S i)) as [(p & E & Hp & Hq)|(E & Hq)]; [lia|done|left; exists p|right]; (split; [done|]).
    - split; [done|]. intros q Hr. destruct (decide (q = i)) as [->|]; [done|]. apply Hq. lia.
    - intros q Hr. destruct (decide (q = i)) as [->|]; [done|]. apply Hq. lia. }
  destruct (slot (m_rules m) i) as [rule|] eqn:Es.
  - destruct (mask_matches (ru_mask rule) ruleset type size) eqn:Em.
    + left. exists i. rewrite s32_small by (unfold is_s32; lia). split; [done|]. split; [by exists rule|lia].
    + apply Hnext. intros (rule' & Hs & Hm). congruence.
  - apply Hnext. intros (rule' & Hs & Hm). congruence.
Qed.

(** [crush_find_rule] returns the least number of a rule whose mask matches
    the ruleset and type and admits the size, and -1 when there is none. *)
Theorem crush_find_rule_first m ruleset type size :
  m_max_rules m = Z.of_nat (length (m_rules m)) → m_max_rules m < 2147483648 →
  (∃ p, crush_find_rule m ruleset type size = Ok (Z.of_nat p) ∧ rule_matches m ruleset type size p ∧
        ∀ q, (q < p)%nat → ¬ rule_matches m ruleset type size q) ∨
  (crush_find_rule m ruleset type size = Ok (-1) ∧ ∀ q, ¬ rule_matches m ruleset type size q).
Proof.
  intros Hl Hlt. unfold crush_find_rule. rewrite Hl, Nat2Z.id.
  destruct (find_rule_ok m ruleset type size (length (m_rules m)) 0) as [(p & E & Hp & Hq)|(E & Hq)];
    [lia|lia|left; exists p|right]; (split; [done|]).
  - split; [done|]. intros q Hr. apply Hq. lia.
  - intros q. apply Hq. lia.
Qed.

(** ** Straw lengths *)

(** The insertion sort of [crush_calc_straw] leaves in its scratch array the
    indices of the weights, each once, in the order of their weights. *)
Theorem calc_straw_sorts ws weights rev :
  holds weights ws → length rev = length ws →
  ∃ rev' p, sort_reverse weights (Z.of_nat (length ws)) rev = Ok rev' ∧ holds rev' p ∧
    p ≡ₚ seqZ 0 (Z.of_nat (length ws)) ∧ StronglySorted (λ a b, wt ws a <= wt ws b) p.
Proof.
  intros Hw Hl. pose proof (sort_reverse_ok ws weights Hw rev Hl) as H.
  apply rwp_ok in H as (rev' & E & Hr & _). exists rev', (sorted_indices ws (length ws)).
  split; [done|]. split; [done|]. split; [apply sorted_indices_Permutation|apply sorted_indices_sorted].
Qed.

(** [crush_calc_straw], in both versions and whatever the C library's [pow]
    returns, touches no memory outside its arrays, gives every item a straw that
    is a 32-bit word, and a zero straw to every item of weight zero; it fails
    only for lack of memory, and then changes nothing. *)
Theorem crush_calc_straw_lengths pow version b ws o :
  holds (sb_item_weights b) ws → b_size (sb_h b) = Z.of_nat (length ws) →
  Z.of_nat (length ws) < 65535 → (length ws <= length (sb_straws b))%nat →
  ∃ r b' o', crush_calc_straw pow version (b, o) = Ok (r, (b', o')) ∧
    (r = - ENOMEM ∧ b' = b ∧ ¬ allocs_ok o ∨
     r = 0 ∧ sb_h b' = sb_h b ∧ sb_item_weights b' = sb_item_weights b ∧
       ∃ ss, holds (sb_straws b') ss ∧ straws_ok ws ss).
Proof.
  intros Hw Hs Hlt Hl. pose proof (crush_calc_straw_ok pow version b ws o Hw Hs Hlt Hl) as H.
  unfold wp in H. apply rwp_ok in H as ([r [b' o']] & E & Ho & Hr). exists r, b', o'. split; [done|].
  destruct Hr as [[-> ->]|(-> & st & ss & -> & Hst & Hss)]; [left|right].
  - split; [done|]. split; [done|]. intros Ha. by destruct (Ho Ha).
  - split; [done|]. split; [done|]. split; [done|]. by exists ss.
Qed.

(** ** Instances *)

Lemma crush_hashmix_injective_witness : (1, 2, 3) = (1, 2, 3).
Proof. apply (crush_hashmix_injective 1 2 3 1 2 3); try done; by unfold mixed_u32, is_u32; simpl; lia. Defined.

Lemma crush_ln_monotone_witness :
  ∃ a b, crush_ln 100 = Ok a ∧ crush_ln 40000 = Ok b ∧ 0 <= a <= b ∧ b < 281474976710656.
Proof. apply (crush_ln_monotone 100 40000); lia. Defined.

Lemma crush_find_rule_first_witness :
  (∃ p, crush_find_rule sample_map 0 1 3 = Ok (Z.of_nat p) ∧ rule_matches sample_map 0 1 3 p ∧
        ∀ q, (q < p)%nat → ¬ rule_matches sample_map 0 1 3 q) ∨
  (crush_find_rule sample_map 0 1 3 = Ok (-1) ∧ ∀ q, ¬ rule_matches sample_map 0 1 3 q).
Proof. apply crush_find_rule_first; [done|reflexivity]. Defined.

Lemma calc_straw_sorts_witness :
  ∃ rev' p, sort_reverse (cells [3; 1; 2]) 3 (fresh_block 3) = Ok rev' ∧ holds rev' p ∧
    p ≡ₚ seqZ 0 3 ∧ StronglySorted (λ a b, wt [3; 1; 2] a <= wt [3; 1; 2] b) p.
Proof. apply (calc_straw_sorts [3; 1; 2]); [apply holds_cells|done]. Defined.

Definition straw_sample : crush_bucket_straw :=
  CrushBucketStraw (sample_header (-1) 1 [4; 5; 6]) (cells [0; 65536; 131072]) (fresh_block 3).

Lemma crush_calc_straw_lengths_witness :
  ∃ r b' o', crush_calc_straw (λ x _, x) 1 (straw_sample, []) = Ok (r, (b', o')) ∧
    (r = - ENOMEM ∧ b' = straw_sample ∧ ¬ allocs_ok [] ∨
     r = 0 ∧ sb_h b' = sb_h straw_sample ∧ sb_item_weights b' = sb_item_weights straw_sample ∧
       ∃ ss, holds (sb_straws b') ss ∧ straws_ok [0; 65536; 131072] ss).
Proof. apply crush_calc_straw_lengths; [apply holds_cells|done|done|done]. Defined.
