(* ===== verification/OutBuf.v ===== *)
(** * Output buffers of the string codecs (src/common)

    A codec writes bytes at the end of what it has written so far.  The store is
    the destination block and the number of bytes written. *)

From S2P Require Import Prelude CrushTypes.

Record outbuf := OutBuf { ob_mem : list (option Z); ob_pos : Z }.

(** [*o++ = c]: an unchecked write of one [char]. *)
Definition put_byte (c : Z) : M outbuf unit := λ b,
  m ← wr (ob_mem b) (ob_pos b) (u8 c); Ok (tt, OutBuf m (ob_pos b + 1)).

(** The bytes [l] have been written, into a block of [n] cells. *)
Definition wrote (l : list Z) (n : nat) (b : outbuf) : Prop :=
  ob_pos b = Z.of_nat (length l) ∧ holds (ob_mem b) l ∧ length (ob_mem b) = n.

Definition is_byte (c : Z) : Prop := 0 <= c < 256.

Lemma wrote_nil (mem : list (option Z)) : wrote [] (length mem) (OutBuf mem 0).
Proof. split; [done|]. split; [apply holds_nil|done]. Qed.

Lemma put_byte_ok c l n b :
  wrote l n b → (length l < n)%nat → ∃ b', put_byte c b = Ok (tt, b') ∧ wrote (l ++ [u8 c]) n b'.
Proof.
  intros (Hp & Hh & Hn) Hlt. unfold put_byte. rewrite Hp, wr_ok by lia. rewrite Nat2Z.id.
  eexists. split; [done|]. split; [simpl; rewrite length_app; simpl; lia|].
  split; [by apply holds_snoc; [|lia]|simpl; by rewrite length_insert].
Qed.

(** A bitwise or of disjoint parts is a sum. *)
Lemma lor_add x y k : 0 <= k → 0 <= y < 2 ^ k → Z.lor (Z.shiftl x k) y = x * 2 ^ k + y.
Proof.
  intros Hk Hy. rewrite <- Z.shiftl_mul_pow2 by done. symmetry.
  rewrite <- Z.lxor_lor, <- Z.add_nocarry_lxor; [done|..]; apply Z.bits_inj'; intros i Hi;
    rewrite Z.land_spec, Z.bits_0, Z.shiftl_spec by done;
    (destruct (decide (i < k)); [by rewrite Z.testbit_neg_r by lia|]);
    rewrite <- (Z.mod_small y (2 ^ k)), Z.mod_pow2_bits_high by lia; apply andb_false_r.
Qed.

Lemma land_ones_mod x m k : 0 <= k → m = 2 ^ k - 1 → Z.land x m = x mod 2 ^ k.
Proof.
  intros Hk ->. replace (2 ^ k - 1) with (Z.ones k) by (rewrite Z.ones_equiv; lia). by apply Z.land_ones.
Qed.

(** [memcpy(o, l, n); o += n;] *)
Fixpoint put_bytes (l : list Z) : M outbuf unit :=
  match l with [] => mret tt | c :: l => _ ← put_byte c; put_bytes l end.

(** [snprintf(o, n, ...)] printing [l]: at most [n - 1] characters and a null,
    and [o] does not move. *)
Definition snprintf_at (n : Z) (l : list Z) : M outbuf unit := λ b,
  if 0 <? n then
    '(_, b') ← put_bytes (take (Z.to_nat (n - 1)) l ++ [0]) b; Ok (tt, OutBuf (ob_mem b') (ob_pos b))
  else Ok (tt, b).

(** [o += k] *)
Definition advance (k : Z) : M outbuf unit := λ b, Ok (tt, OutBuf (ob_mem b) (ob_pos b + k)).

(** The digits of [%x] and [%X]. *)
Definition hex_lower (d : Z) : Z := if d <? 10 then 48 + d else 87 + d.
Definition hex_upper (d : Z) : Z := if d <? 10 then 48 + d else 55 + d.

Lemma put_bytes_ok l : ∀ dn n b,
  Forall is_byte l → wrote dn n b → (length dn + length l <= n)%nat →
  ∃ b', put_bytes l b = Ok (tt, b') ∧ wrote (dn ++ l) n b'.
Proof.
  induction l as [|c l IH]; intros dn n b Hl Hb Hn; cbn [put_bytes].
  { exists b. by rewrite app_nil_r. }
  apply Forall_cons in Hl as [Hc Hl]. simpl in Hn.
  destruct (put_byte_ok c dn n b Hb ltac:(lia)) as (b1 & E1 & Hb1). unfold mbind, M_bind. rewrite E1.
  rewrite u8_small in Hb1 by exact Hc.
  destruct (IH (dn ++ [c]) n b1 Hl Hb1) as (b2 & E2 & Hb2); [rewrite length_app; simpl; lia|].
  exists b2. rewrite E2. split; [done|]. by rewrite <- app_assoc in Hb2.
Qed.

(** A null follows the bytes written so far. *)
Definition wrote0 (l : list Z) (n : nat) (b : outbuf) : Prop :=
  wrote l n b ∧ (l = [] ∨ holds (ob_mem b) (l ++ [0])).

(** Printing with enough room, then moving to the null. *)
Lemma snprintf_ok k s dn n b :
  Forall is_byte s → wrote dn n b → Z.of_nat (length s) < k → (length dn + length s < n)%nat →
  ∃ b', snprintf_at k s b = Ok (tt, b') ∧
        (s ≠ [] → wrote0 (dn ++ s) n (OutBuf (ob_mem b') (ob_pos b' + Z.of_nat (length s)))).
Proof.
  intros Hs Hb Hk Hn. unfold snprintf_at. rewrite (proj2 (Z.ltb_lt 0 k)) by lia.
  rewrite firstn_all2 by lia.
  destruct (put_bytes_ok (s ++ [0]) dn n b) as (b' & -> & Hb'); [|done|rewrite length_app; simpl; lia|].
  { apply Forall_app. split; [done|]. apply Forall_cons. split; [unfold is_byte; lia|constructor]. }
  cbn [mbind res_bind]. eexists. split; [done|]. simpl. destruct Hb as (Hp & _), Hb' as (_ & Hh & Hl).
  rewrite app_assoc in Hh. intros Hne. split; [|by right]. split; [simpl; rewrite length_app; lia|]. split; [|done].
  destruct Hh as [r Hr]. simpl. exists (cells [0] ++ r). by rewrite Hr, cells_app, <- app_assoc.
Qed.

(** Printing whatever the room: the block and the position stay, and so do the
    bytes before. *)
Lemma snprintf_safe k s dn n b :
  Forall is_byte s → wrote dn n b → Z.of_nat (length dn) + k <= Z.of_nat n →
  ∃ b', snprintf_at k s b = Ok (tt, b') ∧ wrote dn n b'.
Proof.
  intros Hs Hb Hn. unfold snprintf_at. destruct (Z.ltb_spec 0 k) as [Hk|Hk]; [|by exists b].
  destruct (put_bytes_ok (take (Z.to_nat (k - 1)) s ++ [0]) dn n b) as (b' & -> & Hb'); [|done| |].
  { apply Forall_app. split; [by apply Forall_take|]. apply Forall_cons. split; [unfold is_byte; lia|constructor]. }
  { rewrite length_app, length_take. simpl. lia. }
  cbn [mbind res_bind]. eexists. split; [done|]. destruct Hb as (Hp & _), Hb' as (_ & Hh & Hl).
  split; [done|]. split; [|done]. destruct Hh as [r Hr]. simpl. rewrite Hr, cells_app, <- app_assoc. by eexists.
Qed.

(** ** C strings *)

(** A null-terminated string. *)
Definition c_string (buf : list (option Z)) (l : list Z) : Prop :=
  holds buf (l ++ [0]) ∧ Forall (λ c, 0 < c < 256) l.

Lemma c_string_rd buf l i c rest :
  c_string buf l → drop i l = c :: rest → rd buf (Z.of_nat i) = Ok c ∧ 0 < c < 256 ∧ drop (S i) l = rest.
Proof.
  intros [Hb Hl] Hd. assert (l !! i = Some c) as Hi by (rewrite <- (Nat.add_0_r i), <- lookup_drop, Hd; done).
  split; [apply (rd_at buf (l ++ [0])); [done|by apply lookup_app_l_Some]|].
  rewrite Forall_lookup in Hl. split; [by apply (Hl i)|]. rewrite (drop_S _ _ _ Hi) in Hd. by injection Hd.
Qed.

Lemma c_string_end buf l i :
  c_string buf l → i = length l → rd buf (Z.of_nat i) = Ok 0.
Proof. intros [Hb _] ->. apply (rd_at buf (l ++ [0])); [done|]. by apply list_lookup_middle. Qed.

Lemma c_string_room buf l : c_string buf l → (length l < length buf)%nat.
Proof. intros [Hb _]. apply holds_length in Hb. rewrite length_app in Hb. simpl in Hb. lia. Qed.

(** ** Base64 armor (src/common/armor.c)

    [ceph_armor] and [ceph_unarmor].  [SET_DST] returns from the whole function
    with [-ERANGE] when the destination is full, so a function is written with
    the rest of it as a continuation.  Pure encoders and decoders on lists
    specify them. *)

(** The characters of [pem_key]. *)
Definition pem_key : list Z :=
  seqZ 65 26 ++ seqZ 97 26 ++ seqZ 48 10 ++ [43; 47].

Definition encode_bits (c : Z) : res Z := rd (cells pem_key) c.

(** [char] values: a byte above 127 is negative and so decodes to nothing. *)
Definition decode_bits (c : Z) : Z :=
  if (c >=? 65) && (c <=? 90) then c - 65
  else if (c >=? 97) && (c <=? 122) then c - 97 + 26
  else if (c >=? 48) && (c <=? 57) then c - 48 + 52
  else if (c =? 43) || (c =? 45) then 62
  else if (c =? 47) || (c =? 95) then 63
  else if c =? 61 then 0
  else - EINVAL.

Section armor.
Context (cap : Z).                       (* dst_end - dst *)
Context (src : list (option Z)) (n : Z). (* the bytes from src to end *)

Definition set_str_val (c : Z) : M outbuf Z := λ b,
  if ob_pos b <? cap then '(_, b) ← put_byte c b; Ok (0, b) else Ok (- ERANGE, b).

Definition SET_DST (c : Z) (k : M outbuf Z) : M outbuf Z :=
  r ← set_str_val c; if r <? 0 then mret r else k.

Definition put_bits (c : Z) (k : M outbuf Z) : M outbuf Z := e ← lift (encode_bits c); SET_DST e k.

Fixpoint armor_loop (line_width : Z) (fuel : nat) (i olen line : Z) : M outbuf Z :=
  if n <=? i then mret olen else
  match fuel with
  | O => lift (Fault Diverge)
  | S fuel =>
      let next (i : Z) : M outbuf Z :=
        let olen := s32 (olen + 4) in
        let line := s32 (line + 4) in
        if negb (line_width =? 0) && (line =? line_width)
        then SET_DST 10 (armor_loop line_width fuel i (s32 (olen + 1)) 0)
        else armor_loop line_width fuel i olen line in
      a ← lift (rd src i);
      let i := i + 1 in
      put_bits (Z.shiftr a 2) (
      if i <? n then
        b ← lift (rd src i);
        let i := i + 1 in
        put_bits (Z.lor (Z.shiftl (Z.land a 3) 4) (Z.shiftr b 4)) (
        if i <? n then
          c ← lift (rd src i);
          let i := i + 1 in
          put_bits (Z.lor (Z.shiftl (Z.land b 15) 2) (Z.shiftr c 6)) (
          put_bits (Z.land c 63) (next i))
        else put_bits (Z.shiftl (Z.land b 15) 2) (SET_DST 61 (next i)))
      else put_bits (Z.shiftl (Z.land a 3) 4) (SET_DST 61 (SET_DST 61 (next i))))
  end.

Definition ceph_armor_line_break (line_width : Z) : M outbuf Z :=
  armor_loop line_width (Z.to_nat n) 0 0 0.

Definition ceph_armor : M outbuf Z := ceph_armor_line_break 0.

Fixpoint unarmor_loop (fuel : nat) (i olen : Z) : M outbuf Z :=
  if n <=? i then mret olen else
  match fuel with
  | O => lift (Fault Diverge)
  | S fuel =>
      c0 ← lift (rd src i);
      if c0 =? 10 then unarmor_loop fuel (i + 1) olen else
      if n <? i + 4 then mret (- EINVAL) else
      let a := decode_bits c0 in
      c1 ← lift (rd src (i + 1)); let b := decode_bits c1 in
      c2 ← lift (rd src (i + 2)); let c := decode_bits c2 in
      c3 ← lift (rd src (i + 3)); let d := decode_bits c3 in
      if (a <? 0) || (b <? 0) || (c <? 0) || (d <? 0) then mret (- EINVAL) else
      SET_DST (Z.lor (Z.shiftl a 2) (Z.shiftr b 4)) (
      if c2 =? 61 then mret (s32 (olen + 1)) else
      SET_DST (Z.lor (Z.shiftl (Z.land b 15) 4) (Z.shiftr c 2)) (
      if c3 =? 61 then mret (s32 (olen + 2)) else
      SET_DST (Z.lor (Z.shiftl (Z.land c 3) 6) d) (
      unarmor_loop fuel (i + 4) (s32 (olen + 3)))))
  end.

Definition ceph_unarmor : M outbuf Z := unarmor_loop (Z.to_nat n) 0 0.
End armor.

(** ** What armor and unarmor compute (src/common/armor.c)

    The functions equal pure encoders and decoders on lists of bytes, cut off at
    the capacity of the destination. *)

(** ** The pure encoder and decoder *)

Definition enc (k : Z) : Z := default 0 (pem_key !! Z.to_nat k).

(** The line break due after a group, and the next position on the line. *)
Definition break_due (lw line : Z) : bool := negb (lw =? 0) && (line + 4 =? lw).
Definition line_after (lw line : Z) : Z := if break_due lw line then 0 else line + 4.
Definition break_of (lw line : Z) : list Z := if break_due lw line then [10] else [].

Fixpoint b64 (lw line : Z) (l : list Z) : list Z :=
  match l with
  | [] => []
  | [a] => [enc (a / 4); enc (a mod 4 * 16); 61; 61] ++ break_of lw line
  | [a; b] => [enc (a / 4); enc (a mod 4 * 16 + b / 16); enc (b mod 16 * 4); 61] ++ break_of lw line
  | a :: b :: c :: l =>
      [enc (a / 4); enc (a mod 4 * 16 + b / 16); enc (b mod 16 * 4 + c / 64); enc (c mod 64)] ++
      break_of lw line ++ b64 lw (line_after lw line) l
  end.

(** The bytes decoded, and whether the input was valid. *)
Fixpoint unb64 (l : list Z) : list Z * bool :=
  match l with
  | [] => ([], true)
  | c0 :: l0 =>
      if c0 =? 10 then unb64 l0 else
      match l0 with
      | c1 :: c2 :: c3 :: l =>
          let a := decode_bits c0 in let b := decode_bits c1 in
          let c := decode_bits c2 in let d := decode_bits c3 in
          if (a <? 0) || (b <? 0) || (c <? 0) || (d <? 0) then ([], false) else
          if c2 =? 61 then ([a * 4 + b / 16], true) else
          if c3 =? 61 then ([a * 4 + b / 16; b mod 16 * 16 + c / 4], true) else
          let '(out, ok) := unb64 l in
          (a * 4 + b / 16 :: b mod 16 * 16 + c / 4 :: c mod 4 * 64 + d :: out, ok)
      | _ => ([], false)
      end
  end.

(** ** The alphabet *)

Definition alphabet_ok (k : Z) : bool :=
  (decode_bits (enc k) =? k) && negb (enc k =? 10) && negb (enc k =? 61) &&
  (0 <=? enc k) && (enc k <? 128).

Lemma alphabet_all : forallb alphabet_ok (seqZ 0 64) = true.
Proof. reflexivity. Qed.

Lemma alphabet k : 0 <= k < 64 →
  decode_bits (enc k) = k ∧ enc k ≠ 10 ∧ enc k ≠ 61 ∧ is_byte (enc k) ∧ encode_bits k = Ok (enc k).
Proof.
  intros Hk. assert (alphabet_ok k = true) as H.
  { pose proof alphabet_all as Ha. rewrite forallb_forall in Ha. apply Ha. apply list_elem_of_In, elem_of_seqZ. lia. }
  unfold alphabet_ok in H. rewrite !andb_true_iff, !negb_true_iff in H.
  destruct H as ((((H1 & H2) & H3) & H4) & H5). unfold is_byte. repeat (split; [lia|]).
  unfold encode_bits, enc. destruct (lookup_lt_is_Some_2 pem_key (Z.to_nat k)) as [v Hv]; [change (length pem_key) with 64%nat; lia|].
  rewrite (rd_holds _ pem_key k v (holds_cells _) ltac:(lia) Hv), Hv. done.
Qed.

(** Every character decodes to at most six bits. *)
Lemma decode_bits_range c : decode_bits c < 64.
Proof. unfold decode_bits, EINVAL. repeat case_match; lia. Qed.

(** ** Round trip of the pure functions *)

Lemma list_ind3 (P : list Z → Prop) :
  P [] → (∀ a, P [a]) → (∀ a b, P [a; b]) → (∀ a b c l, P l → P (a :: b :: c :: l)) → ∀ l, P l.
Proof.
  intros H0 H1 H2 H3. fix IH 1. intros [|a [|b [|c l]]]; [done|apply H1|apply H2|apply H3, IH].
Qed.

Lemma unb64_break lw line l : unb64 (break_of lw line ++ l) = unb64 l.
Proof. unfold break_of. by destruct (break_due lw line). Qed.

(** Decoding one group of four letters. *)
Lemma unb64_group k0 k1 k2 k3 rest :
  0 <= k0 < 64 → 0 <= k1 < 64 → 0 <= k2 < 64 → 0 <= k3 < 64 →
  unb64 (enc k0 :: enc k1 :: enc k2 :: enc k3 :: rest) =
  (let '(out, ok) := unb64 rest in
   (k0 * 4 + k1 / 16 :: k1 mod 16 * 16 + k2 / 4 :: k2 mod 4 * 64 + k3 :: out, ok)).
Proof.
  intros H0 H1 H2 H3. destruct (alphabet k0 H0) as (D0 & N0 & _), (alphabet k1 H1) as (D1 & _),
    (alphabet k2 H2) as (D2 & _ & E2 & _), (alphabet k3 H3) as (D3 & _ & E3 & _).
  cbn [unb64]. rewrite (proj2 (Z.eqb_neq (enc k0) 10)) by done. rewrite D0, D1, D2, D3.
  rewrite !(proj2 (Z.ltb_ge _ 0)) by lia. cbn [orb].
  rewrite (proj2 (Z.eqb_neq (enc k2) 61)), (proj2 (Z.eqb_neq (enc k3) 61)) by done. done.
Qed.

Lemma unb64_pad1 k0 k1 k2 rest :
  0 <= k0 < 64 → 0 <= k1 < 64 → 0 <= k2 < 64 →
  unb64 (enc k0 :: enc k1 :: enc k2 :: 61 :: rest) = ([k0 * 4 + k1 / 16; k1 mod 16 * 16 + k2 / 4], true).
Proof.
  intros H0 H1 H2. destruct (alphabet k0 H0) as (D0 & N0 & _), (alphabet k1 H1) as (D1 & _),
    (alphabet k2 H2) as (D2 & _ & E2 & _).
  cbn [unb64]. rewrite (proj2 (Z.eqb_neq (enc k0) 10)) by done. rewrite D0, D1, D2.
  rewrite !(proj2 (Z.ltb_ge _ 0)) by (change (decode_bits 61) with 0; lia). cbn [orb].
  rewrite (proj2 (Z.eqb_neq (enc k2) 61)) by done. done.
Qed.

Lemma unb64_pad2 k0 k1 rest :
  0 <= k0 < 64 → 0 <= k1 < 64 → unb64 (enc k0 :: enc k1 :: 61 :: 61 :: rest) = ([k0 * 4 + k1 / 16], true).
Proof.
  intros H0 H1. destruct (alphabet k0 H0) as (D0 & N0 & _), (alphabet k1 H1) as (D1 & _).
  cbn [unb64]. rewrite (proj2 (Z.eqb_neq (enc k0) 10)) by done. rewrite D0, D1.
  rewrite !(proj2 (Z.ltb_ge _ 0)) by (change (decode_bits 61) with 0; lia). done.
Qed.

#[local] Ltac Zarith := Z.to_euclidean_division_equations; lia.

Lemma unb64_b64 lw l : ∀ line, Forall is_byte l → unb64 (b64 lw line l) = (l, true).
Proof.
  induction l as [|a|a b|a b c l IH] using list_ind3; intros line Hl; [done|..];
    repeat (apply Forall_cons in Hl as [? Hl]); unfold is_byte in *; cbn [b64 app].
  - rewrite unb64_pad2 by Zarith. do 2 f_equal. Zarith.
  - rewrite unb64_pad1 by Zarith. do 2 f_equal; [Zarith|]. f_equal. Zarith.
  - rewrite unb64_group, unb64_break, IH by (done || Zarith). do 2 f_equal; [Zarith|].
    f_equal; [Zarith|]. f_equal. Zarith.
Qed.

(** ** Running the encoder *)

Section run.
Context (capn N : nat) (Hcap : (capn <= N)%nat).

#[local] Abbreviation cap := (Z.of_nat capn).

(** [out] was to be appended to [done]; [r0] is the answer when it fits. *)
Definition put_post (done out : list Z) (r0 r : Z) (b : outbuf) : Prop :=
  wrote (take capn (done ++ out)) N b ∧
  r = if decide (length done + length out <= capn)%nat then r0 else - ERANGE.

Lemma put_done dn r0 b : wrote dn N b → (length dn <= capn)%nat → wp (mret r0) b (put_post dn [] r0).
Proof.
  intros Hb Hl. apply wp_ret. split; [by rewrite app_nil_r, firstn_all2 by done|].
  rewrite decide_True by (simpl; lia). done.
Qed.

Lemma SET_DST_post c k dn out r0 b :
  is_byte c → wrote dn N b → (length dn <= capn)%nat →
  (∀ b', wrote (dn ++ [c]) N b' → (length (dn ++ [c]) <= capn)%nat → wp k b' (put_post (dn ++ [c]) out r0)) →
  wp (SET_DST cap c k) b (put_post dn (c :: out) r0).
Proof.
  intros Hc Hb Hl Hk. pose proof Hb as (Hp & _). unfold SET_DST, set_str_val. apply wp_bind. unfold wp at 1.
  rewrite Hp. destruct (Z.ltb_spec (Z.of_nat (length dn)) cap) as [Hlt|Hge].
  - destruct (put_byte_ok c dn N b Hb ltac:(lia)) as (b' & -> & Hb'). cbn [mbind res_bind rwp].
    rewrite (Z.ltb_irrefl 0). rewrite u8_small in Hb' by done.
    eapply wp_mono; [apply Hk; [done|rewrite length_app; simpl; lia]|].
    intros r b'' [Hw Hr]. unfold put_post. rewrite <- app_assoc in Hw. rewrite length_app in Hr.
    split; [done|]. rewrite Hr. simpl. by replace (length dn + 1 + length out)%nat with (length dn + S (length out))%nat by lia.
  - simpl. split; [|by rewrite decide_False by (simpl; lia)].
    assert (length dn = capn) as E by lia. rewrite <- E, take_app_length. done.
Qed.

Lemma put_bits_post k0 k dn out r0 b :
  0 <= k0 < 64 → wrote dn N b → (length dn <= capn)%nat →
  (∀ b', wrote (dn ++ [enc k0]) N b' → (length (dn ++ [enc k0]) <= capn)%nat → wp k b' (put_post (dn ++ [enc k0]) out r0)) →
  wp (put_bits cap k0 k) b (put_post dn (enc k0 :: out) r0).
Proof.
  intros H0 Hb Hl Hk. destruct (alphabet k0 H0) as (_ & _ & _ & Hbyte & E). unfold put_bits.
  eapply wp_bind_eq; [unfold lift; by rewrite E|]. by apply SET_DST_post.
Qed.

Context (src : list (option Z)) (l : list Z) (Hsrc : holds src l).

#[local] Abbreviation n := (Z.of_nat (length l)).

Lemma src_rd i v rest : drop i l = v :: rest → rd src (Z.of_nat i) = Ok v ∧ (i < length l)%nat ∧ drop (S i) l = rest.
Proof.
  intros Hd. assert (l !! i = Some v) as Hv by (rewrite <- (Nat.add_0_r i), <- lookup_drop, Hd; done).
  split; [by apply (rd_at src l)|]. split; [by eapply lookup_lt_Some|].
  rewrite (drop_S _ _ _ Hv) in Hd. by injection Hd.
Qed.

Lemma drop_end i (m : list Z) : drop i l = m → (i <= length l)%nat ∨ m = [] → n <= Z.of_nat i + Z.of_nat (length m).
Proof. intros <- H. rewrite length_drop. lia. Qed.

Lemma bits_hi2 a b : is_byte b → Z.lor (Z.shiftl (Z.land a 3) 4) (Z.shiftr b 4) = a mod 4 * 16 + b / 16.
Proof.
  intros Hb. unfold is_byte in Hb. rewrite Z.shiftr_div_pow2 by lia. change (2 ^ 4) with 16.
  rewrite (land_ones_mod a 3 2) by lia. rewrite lor_add; [done|lia|]. change (2 ^ 4) with 16. Zarith.
Qed.

Lemma bits_hi4 b c : is_byte c → Z.lor (Z.shiftl (Z.land b 15) 2) (Z.shiftr c 6) = b mod 16 * 4 + c / 64.
Proof.
  intros Hc. unfold is_byte in Hc. rewrite Z.shiftr_div_pow2 by lia. change (2 ^ 6) with 64.
  rewrite (land_ones_mod b 15 4) by lia. rewrite lor_add; [done|lia|]. change (2 ^ 2) with 4. Zarith.
Qed.

Lemma bits_shl a m k j : 0 <= k → 0 <= j → m = 2 ^ k - 1 → Z.shiftl (Z.land a m) j = a mod 2 ^ k * 2 ^ j.
Proof. intros Hk Hj ->. by rewrite Z.shiftl_mul_pow2, (land_ones_mod a _ k) by lia. Qed.

(** The end of a group. *)
Lemma next_ok lw fuel olen line j rest dn b :
  (∀ olen' line' dn' b', wrote dn' N b' → (length dn' <= capn)%nat → 0 <= line' <= olen' →
     olen' + Z.of_nat (length (b64 lw line' rest)) < 2147483648 →
     wp (armor_loop cap src n lw fuel j olen' line') b'
        (put_post dn' (b64 lw line' rest) (olen' + Z.of_nat (length (b64 lw line' rest))))) →
  wrote dn N b → (length dn <= capn)%nat → 0 <= line <= olen →
  let out := break_of lw line ++ b64 lw (line_after lw line) rest in
  olen + 4 + Z.of_nat (length out) < 2147483648 →
  wp (let olen := s32 (olen + 4) in
      let line := s32 (line + 4) in
      if negb (lw =? 0) && (line =? lw)
      then SET_DST cap 10 (armor_loop cap src n lw fuel j (s32 (olen + 1)) 0)
      else armor_loop cap src n lw fuel j olen line) b
     (put_post dn out (olen + 4 + Z.of_nat (length out))).
Proof.
  intros IH Hb Hl Hol out Hlt. cbn zeta. subst out. rewrite length_app in *.
  rewrite (s32_small (olen + 4)), (s32_small (line + 4)) by (unfold is_s32; lia).
  unfold break_of, line_after in *. fold (break_due lw line). destruct (break_due lw line) eqn:Ed; simpl app; simpl length in *.
  - rewrite s32_small by (unfold is_s32; lia). apply SET_DST_post; [by unfold is_byte|done|done|].
    intros b' Hb' Hl'. eapply wp_mono; [apply IH; (done || lia)|].
    intros r b'' [Hw Hr]. split; [done|]. rewrite Hr. destruct (decide _); lia.
  - eapply wp_mono; [apply IH; (done || lia)|]. intros r b'' [Hw Hr]. split; [done|]. rewrite Hr. destruct (decide _); lia.
Qed.

Lemma put_post_eq dn out r0 r1 m b : r0 = r1 → wp m b (put_post dn out r0) → wp m b (put_post dn out r1).
Proof. by intros ->. Qed.

Lemma armor_loop_ok lw fuel : ∀ i olen line dn rest b,
  drop i l = rest → (length rest <= fuel)%nat → Forall is_byte rest → wrote dn N b → (length dn <= capn)%nat →
  0 <= line <= olen → olen + Z.of_nat (length (b64 lw line rest)) < 2147483648 →
  wp (armor_loop cap src n lw fuel (Z.of_nat i) olen line) b
     (put_post dn (b64 lw line rest) (olen + Z.of_nat (length (b64 lw line rest)))).
Proof.
  induction fuel as [|fuel IH]; intros i olen line dn rest b Hd Hf Hr Hb Hl Hol Hlt; cbn [armor_loop].
  { destruct rest; [|simpl in Hf; lia]. pose proof (drop_end i [] Hd (or_intror eq_refl)) as Hn. simpl in Hn.
    rewrite (proj2 (Z.leb_le _ _)) by lia. apply (put_post_eq _ _ olen); [simpl; lia|by apply put_done]. }
  destruct rest as [|a rest].
  { pose proof (drop_end i [] Hd (or_intror eq_refl)) as Hn. simpl in Hn.
    rewrite (proj2 (Z.leb_le _ _)) by lia. apply (put_post_eq _ _ olen); [simpl; lia|by apply put_done]. }
  destruct (src_rd i a rest Hd) as (Ra & Hia & Hd1). rewrite (proj2 (Z.leb_gt _ _)) by lia.
  cbn zeta. eapply wp_bind_eq; [unfold lift; by rewrite Ra|].
  apply Forall_cons in Hr as [Ha Hr]. pose proof Ha as Ha'. unfold is_byte in Ha'.
  assert (Z.shiftr a 2 = a / 4) as -> by (by rewrite Z.shiftr_div_pow2 by lia).
  replace (Z.of_nat i + 1) with (Z.of_nat (S i)) by lia.
  destruct rest as [|b0 rest].
  { pose proof (drop_end _ _ Hd1 (or_intror eq_refl)) as Hn. simpl in Hn.
    rewrite (proj2 (Z.ltb_ge _ _)) by lia. rewrite (bits_shl a 3 2 4) by lia. change (2 ^ 2) with 4. change (2 ^ 4) with 16.
    cbn [b64 app]. apply put_bits_post; [Zarith|done|done|]. intros b1 Hb1 Hl1.
    apply put_bits_post; [Zarith|done|done|]. intros b2 Hb2 Hl2.
    apply SET_DST_post; [by unfold is_byte|done|done|]. intros b3 Hb3 Hl3.
    apply SET_DST_post; [by unfold is_byte|done|done|]. intros b4 Hb4 Hl4.
    cbn [b64 app] in Hlt. simpl length in Hlt |- *. rewrite <- (app_nil_r (break_of lw line)) in Hlt |- *.
    change (@nil Z) with (b64 lw (line_after lw line) []) in Hlt |- *.
    eapply put_post_eq; [|apply (next_ok lw fuel olen line _ []); try done; [|lia]]; [lia|].
    intros olen' line' dn' b' Hb' Hl' Hol' Hlt'. apply IH; (done || by simpl; lia). }
  destruct (src_rd (S i) b0 rest Hd1) as (Rb & Hib & Hd2). rewrite (proj2 (Z.ltb_lt _ _)) by lia.
  apply Forall_cons in Hr as [Hb0 Hr]. pose proof Hb0 as Hb0'. unfold is_byte in Hb0'.
  replace (Z.of_nat (S i) + 1) with (Z.of_nat (S (S i))) by lia.
  destruct rest as [|c0 rest].
  { pose proof (drop_end _ _ Hd2 (or_intror eq_refl)) as Hn. simpl in Hn.
    cbn [b64 app]. apply put_bits_post; [Zarith|done|done|]. intros b1 Hb1 Hl1.
    eapply wp_bind_eq; [unfold lift; by rewrite Rb|]. rewrite bits_hi2 by done.
    apply put_bits_post; [Zarith|done|done|]. intros b2 Hb2 Hl2.
    rewrite (proj2 (Z.ltb_ge _ _)) by lia. rewrite (bits_shl b0 15 4 2) by lia. change (2 ^ 2) with 4. change (2 ^ 4) with 16.
    apply put_bits_post; [Zarith|done|done|]. intros b3 Hb3 Hl3.
    apply SET_DST_post; [by unfold is_byte|done|done|]. intros b4 Hb4 Hl4.
    cbn [b64 app] in Hlt. simpl length in Hlt |- *. rewrite <- (app_nil_r (break_of lw line)) in Hlt |- *.
    change (@nil Z) with (b64 lw (line_after lw line) []) in Hlt |- *.
    eapply put_post_eq; [|apply (next_ok lw fuel olen line _ []); try done; [|lia]]; [lia|].
    intros olen' line' dn' b' Hb' Hl' Hol' Hlt'. apply IH; (done || by simpl; lia). }
  destruct (src_rd (S (S i)) c0 rest Hd2) as (Rc & Hic & Hd3).
  apply Forall_cons in Hr as [Hc0 Hr]. pose proof Hc0 as Hc0'. unfold is_byte in Hc0'.
  cbn [b64 app]. apply put_bits_post; [Zarith|done|done|]. intros b1 Hb1 Hl1.
  eapply wp_bind_eq; [unfold lift; by rewrite Rb|]. rewrite bits_hi2 by done.
  apply put_bits_post; [Zarith|done|done|]. intros b2 Hb2 Hl2. rewrite (proj2 (Z.ltb_lt _ _)) by lia.
  eapply wp_bind_eq; [unfold lift; by rewrite Rc|]. rewrite bits_hi4 by done.
  apply put_bits_post; [Zarith|done|done|]. intros b3 Hb3 Hl3.
  rewrite (land_ones_mod c0 63 6) by lia. change (2 ^ 6) with 64.
  apply put_bits_post; [Zarith|done|done|]. intros b4 Hb4 Hl4.
  cbn [b64 app] in Hlt. simpl length in Hlt |- *.
  replace (Z.of_nat (S (S i)) + 1) with (Z.of_nat (S (S (S i)))) by lia.
  eapply put_post_eq; [|apply (next_ok lw fuel olen line _ rest); try done; [|lia]]; [lia|].
  intros olen' line' dn' b' Hb' Hl' Hol' Hlt'. apply IH; try done. simpl in Hf. lia.
Qed.

(** ** Running the decoder *)

Lemma length_unb64 m : (length (fst (unb64 m)) <= length m)%nat.
Proof.
  cut (∀ k m, (length m <= k)%nat → (length (fst (unb64 m)) <= length m)%nat); [eauto|].
  intros k. induction k as [|k IH]; intros [|c0 m'] Hk; try done; [simpl in Hk; lia|]. simpl in Hk.
  cbn [unb64]. destruct (c0 =? 10); [pose proof (IH m'); simpl; lia|].
  destruct m' as [|c1 [|c2 [|c3 m']]]; simpl; try lia. repeat (case_match; simpl; try lia).
  match goal with E : unb64 m' = _ |- _ => pose proof (IH m') as H'; rewrite E in H' end. simpl in *. lia.
Qed.

(** The bytes of a decoded group. *)
Lemma bits_out0 a b : 0 <= b < 64 → Z.lor (Z.shiftl a 2) (Z.shiftr b 4) = a * 4 + b / 16.
Proof.
  intros Hb. rewrite Z.shiftr_div_pow2 by lia. change (2 ^ 4) with 16.
  rewrite lor_add; [done|lia|]. change (2 ^ 2) with 4. Zarith.
Qed.

Lemma bits_out1 b c : 0 <= c < 64 → Z.lor (Z.shiftl (Z.land b 15) 4) (Z.shiftr c 2) = b mod 16 * 16 + c / 4.
Proof.
  intros Hc. rewrite Z.shiftr_div_pow2 by lia. change (2 ^ 2) with 4.
  rewrite (land_ones_mod b 15 4) by lia. rewrite lor_add; [done|lia|]. change (2 ^ 4) with 16. Zarith.
Qed.

Lemma bits_out2 c d : 0 <= d < 64 → Z.lor (Z.shiftl (Z.land c 3) 6) d = c mod 4 * 64 + d.
Proof.
  intros Hd. rewrite (land_ones_mod c 3 2) by lia. rewrite lor_add; [done|lia|]. change (2 ^ 6) with 64. lia.
Qed.

Definition unarmor_result (olen : Z) (out : list Z * bool) : Z :=
  if snd out then olen + Z.of_nat (length (fst out)) else - EINVAL.

Lemma unarmor_loop_ok fuel : ∀ i olen dn rest b,
  drop i l = rest → (length rest <= fuel)%nat → wrote dn N b → (length dn <= capn)%nat →
  0 <= olen → olen + Z.of_nat (length rest) < 2147483648 →
  wp (unarmor_loop cap src n fuel (Z.of_nat i) olen) b
     (put_post dn (fst (unb64 rest)) (unarmor_result olen (unb64 rest))).
Proof.
  induction fuel as [|fuel IH]; intros i olen dn rest b Hd Hf Hb Hl Ho Hlt; cbn [unarmor_loop].
  { destruct rest; [|simpl in Hf; lia]. pose proof (drop_end i [] Hd (or_intror eq_refl)) as Hn. simpl in Hn.
    rewrite (proj2 (Z.leb_le _ _)) by lia. apply (put_post_eq _ _ olen); [unfold unarmor_result; simpl; lia|by apply put_done]. }
  destruct rest as [|c0 rest].
  { pose proof (drop_end i [] Hd (or_intror eq_refl)) as Hn. simpl in Hn.
    rewrite (proj2 (Z.leb_le _ _)) by lia. apply (put_post_eq _ _ olen); [unfold unarmor_result; simpl; lia|by apply put_done]. }
  destruct (src_rd i c0 rest Hd) as (R0 & Hi0 & Hd1). rewrite (proj2 (Z.leb_gt _ _)) by lia.
  cbn zeta. eapply wp_bind_eq; [unfold lift; by rewrite R0|]. simpl in Hf, Hlt.
  replace (Z.of_nat i + 1) with (Z.of_nat (S i)) by lia. cbn [unb64].
  destruct (c0 =? 10); [apply IH; (done || lia)|].
  pose proof (length_drop l i) as Hdl. rewrite Hd in Hdl. simpl in Hdl.
  destruct rest as [|c1 [|c2 [|c3 rest]]]; [simpl in Hdl; rewrite (proj2 (Z.ltb_lt _ _)) by lia; by apply put_done..|].
  simpl in Hdl, Hf, Hlt. rewrite (proj2 (Z.ltb_ge _ _)) by lia.
  destruct (src_rd _ c1 _ Hd1) as (R1 & _ & Hd2), (src_rd _ c2 _ ltac:(eapply src_rd, Hd1)) as (R2 & _ & Hd3).
  destruct (src_rd _ c3 rest Hd3) as (R3 & _ & Hd4).
  replace (Z.of_nat i + 2) with (Z.of_nat (S (S i))) by lia. replace (Z.of_nat i + 3) with (Z.of_nat (S (S (S i)))) by lia.
  eapply wp_bind_eq; [unfold lift; by rewrite R1|]. eapply wp_bind_eq; [unfold lift; by rewrite R2|].
  eapply wp_bind_eq; [unfold lift; by rewrite R3|].
  pose proof (decode_bits_range c0). pose proof (decode_bits_range c1).
  pose proof (decode_bits_range c2). pose proof (decode_bits_range c3).
  generalize dependent (decode_bits c0). intros x0 ?. generalize dependent (decode_bits c1). intros x1 ?.
  generalize dependent (decode_bits c2). intros x2 ?. generalize dependent (decode_bits c3). intros x3 ?.
  destruct (Z.ltb_spec x0 0), (Z.ltb_spec x1 0), (Z.ltb_spec x2 0), (Z.ltb_spec x3 0);
    try (by apply put_done). cbn [orb].
  rewrite bits_out0, bits_out1, bits_out2 by lia.
  destruct (c2 =? 61).
  { apply SET_DST_post; [unfold is_byte; Zarith|done|done|]. intros b1 Hb1 Hl1.
    apply (put_post_eq _ _ (s32 (olen + 1))); [rewrite s32_small by (unfold is_s32; lia); done|by apply put_done]. }
  destruct (c3 =? 61).
  { apply SET_DST_post; [unfold is_byte; Zarith|done|done|]. intros b1 Hb1 Hl1.
    apply SET_DST_post; [unfold is_byte; Zarith|done|done|]. intros b2 Hb2 Hl2.
    apply (put_post_eq _ _ (s32 (olen + 2))); [rewrite s32_small by (unfold is_s32; lia); done|by apply put_done]. }
  destruct (unb64 rest) as [out ok] eqn:Eu. cbn [fst].
  apply SET_DST_post; [unfold is_byte; Zarith|done|done|]. intros b1 Hb1 Hl1.
  apply SET_DST_post; [unfold is_byte; Zarith|done|done|]. intros b2 Hb2 Hl2.
  apply SET_DST_post; [unfold is_byte; Zarith|done|done|]. intros b3 Hb3 Hl3.
  rewrite (s32_small (olen + 3)) by (unfold is_s32; lia).
  replace (Z.of_nat i + 4) with (Z.of_nat (S (S (S (S i))))) by lia.
  pose proof (IH (S (S (S (S i)))) (olen + 3) _ rest b3 Hd4 ltac:(lia) Hb3 Hl3 ltac:(lia) ltac:(lia)) as H'.
  rewrite Eu in H'. eapply put_post_eq; [|exact H']. unfold unarmor_result. simpl. destruct ok; lia.
Qed.
End run.
