(* ===== verification/Utf8.v ===== *)
(** * UTF-8 (src/common/utf8.c)

    The encoder, the decoder and the checks of buffers.  [bits] is the width of
    [unsigned long], 32 on Windows and 64 elsewhere; bytes of a [const char *]
    buffer are read as signed characters. *)

From S2P Require Import Prelude OutBuf.

Definition MAX_UTF8_SZ : Z := 6.
Definition INVALID_UTF8_CHAR : Z := 4294967295.

Section utf8.
Context (bits : Z).

Definition ulong (z : Z) : Z := z mod 2 ^ bits.

(** [while (1) { if ((c & 0x80) != 0x80) break; c <<= 1; ++ret; }] *)
Fixpoint high_bits_loop (fuel : nat) (c ret : Z) : res Z :=
  match fuel with
  | O => Fault Diverge
  | S fuel => if negb (Z.land c 128 =? 128) then Ok ret else high_bits_loop fuel (s32 (Z.shiftl c 1)) (ret + 1)
  end.

(** A byte has at most eight leading ones. *)
Definition high_bits_set (c : Z) : res Z := high_bits_loop 9 c 0.

Definition max_val : list Z := [127; 2047; 65535; 2097151; 67108863; 2147483647].

(** [for (i = 0; i < 6; ++i) if (u <= max_val[i]) break;] *)
Fixpoint enc_class (ms : list Z) (u i : Z) : Z :=
  match ms with
  | [] => i
  | m :: ms => if u <=? m then i else enc_class ms u (i + 1)
  end.

(** [for (j = i; j > 0; --j) { buf[j] = 0x80 | (u & 0x3f); u >>= 6; }] *)
Fixpoint put_continuation (j : nat) (u : Z) (buf : list (option Z)) : res (Z * list (option Z)) :=
  match j with
  | O => Ok (u, buf)
  | S j' =>
      buf ← wr buf (Z.of_nat j) (u8 (Z.lor 128 (Z.land u 63)));
      put_continuation j' (Z.shiftr u 6) buf
  end.

Definition encode_utf8 (u : Z) : M (list (option Z)) Z := λ buf,
  let u := ulong u in
  let i := enc_class max_val u 0 in
  if i =? MAX_UTF8_SZ then Ok (-1, buf) else
  if i =? 0 then buf ← wr buf 0 (u8 u); Ok (i + 1, buf) else
  '(u, buf) ← put_continuation (Z.to_nat i) u buf;
  let mask := u8 (Z.lnot (Z.shiftr 255 (i + 1))) in
  buf ← wr buf 0 (u8 (Z.lor mask u));
  Ok (i + 1, buf).

(** The continuation bytes of [decode_utf8]; [None] is the early return. *)
Fixpoint get_continuation (buf : list (option Z)) (n : nat) (j code : Z) : res (option Z) :=
  match n with
  | O => Ok (Some code)
  | S n =>
      b ← rd buf j;
      if negb (Z.land b 192 =? 128) then Ok None
      else get_continuation buf n (j + 1) (ulong (Z.lor (Z.shiftl code 6) (Z.land b 63)))
  end.

Definition decode_utf8 (buf : list (option Z)) (nbytes : Z) : res Z :=
  if nbytes <=? 0 then Ok INVALID_UTF8_CHAR else
  if nbytes =? 1 then
    b ← rd buf 0; Ok (if b >=? 128 then INVALID_UTF8_CHAR else b)
  else
    b ← rd buf 0;
    i ← high_bits_set b;
    if negb (i =? nbytes) then Ok INVALID_UTF8_CHAR else
    code ← get_continuation buf (Z.to_nat (nbytes - 1)) 1 (Z.land b (Z.shiftr 255 i));
    match code with
    | None => Ok INVALID_UTF8_CHAR
    | Some code =>
        Ok (if code =? 65534 then INVALID_UTF8_CHAR
            else if code =? 65535 then INVALID_UTF8_CHAR
            else if (code >=? 55296) && (code <=? 57343) then INVALID_UTF8_CHAR
            else code)
    end.

(** [memcmp(a, b, n) == 0] *)
Fixpoint mem_eq (a b : list (option Z)) (n : nat) (j : Z) : res bool :=
  match n with
  | O => Ok true
  | S n => x ← rd a j; y ← rd b j; if x =? y then mem_eq a b n (j + 1) else Ok false
  end.

(** The character collected in [u] is decoded and encoded again. *)
Definition flush_ok (u : list (option Z)) (enc_len : Z) : res bool :=
  if enc_len >? 0 then
    code ← decode_utf8 u enc_len;
    if code =? INVALID_UTF8_CHAR then Ok false else
    '(re_len, re) ← encode_utf8 code (fresh_block MAX_UTF8_SZ);
    if negb (enc_len =? re_len) then Ok false else
    mem_eq u re (Z.to_nat enc_len) 0
  else Ok true.

(** [unsigned int c = buf[i]]: the [char] is sign-extended. *)
Definition uint_of_char (b : Z) : Z := u32 (if b <? 128 then b else b - 256).

Fixpoint check_loop (buf : list (option Z)) (len : Z) (fuel : nat) (i : Z) (u : list (option Z)) (enc_len : Z) : res Z :=
  match fuel with
  | O => Fault Diverge
  | S fuel =>
      b ← rd buf i;
      let c := uint_of_char b in
      if (i >=? len) || (c <? 128) || negb (Z.land c 192 =? 128) then
        ok ← flush_ok u enc_len;
        if negb ok then Ok (i + 1) else
        if i >=? len then Ok 0 else
        if c >=? 128 then u ← wr u 0 (u8 c); check_loop buf len fuel (i + 1) u 1
        else check_loop buf len fuel (i + 1) u 0
      else if enc_len =? MAX_UTF8_SZ then Ok (i + 1)
      else u ← wr u enc_len (u8 c); check_loop buf len fuel (i + 1) u (enc_len + 1)
  end.

Definition check_utf8 (buf : list (option Z)) (len : Z) : res Z :=
  check_loop buf len (S (Z.to_nat len)) 0 (fresh_block MAX_UTF8_SZ) 0.
End utf8.

(** [strlen]: the number of characters before the first null. *)
Fixpoint strlen_from (buf : list (option Z)) (fuel : nat) (i : Z) : res Z :=
  match fuel with
  | O => Fault OutOfBounds
  | S fuel => c ← rd buf i; if c =? 0 then Ok i else strlen_from buf fuel (i + 1)
  end.
Definition strlen (buf : list (option Z)) : res Z := strlen_from buf (S (length buf)) 0.

Definition check_utf8_cstr (bits : Z) (buf : list (option Z)) : res Z :=
  len ← strlen buf; check_utf8 bits buf (s32 len).

Definition is_control_character (c : Z) : bool := (negb (c =? 0) && (c <? 32)) || (c =? 127).

Fixpoint control_loop (buf : list (option Z)) (n : nat) (i : Z) : res Z :=
  match n with
  | O => Ok 0
  | S n => b ← rd buf i; if is_control_character b then Ok (i + 1) else control_loop buf n (i + 1)
  end.

Definition check_for_control_characters (buf : list (option Z)) (len : Z) : res Z :=
  control_loop buf (Z.to_nat len) 0.

Definition check_for_control_characters_cstr (buf : list (option Z)) : res Z :=
  len ← strlen buf; check_for_control_characters buf (s32 len).

(** ** The encoding of a character (src/common/utf8.c)

    [encode_utf8] writes the bytes [utf8 u], [decode_utf8] reads them back. *)

(** ** The bytes of a code point *)

(** The last [j] groups of six bits. *)
Fixpoint continuation (j : nat) (u : Z) : list Z :=
  match j with O => [] | S j => continuation j (u / 64) ++ [128 + u mod 64] end.

Definition lead_mask (i : nat) : Z := 256 - 2 ^ (7 - Z.of_nat i).

Definition utf8_class (u : Z) : nat := Z.to_nat (enc_class max_val u 0).

Definition utf8 (u : Z) : list Z :=
  let i := utf8_class u in
  match i with O => [u] | _ => (lead_mask i + u / 64 ^ Z.of_nat i) :: continuation i u end.

Lemma length_continuation j : ∀ u, length (continuation j u) = j.
Proof. induction j as [|j IH]; intros u; simpl; [done|]. rewrite length_app, IH. simpl. lia. Qed.

Lemma continuation_range j : ∀ u, Forall (λ b, 128 <= b < 192) (continuation j u).
Proof.
  induction j as [|j IH]; intros u; simpl; [constructor|]. apply Forall_app. split; [apply IH|].
  constructor; [|constructor]. pose proof (Z.mod_pos_bound u 64). lia.
Qed.

(** Powers with closed arguments are replaced by their value. *)
#[local] Ltac eval_pows :=
  repeat match goal with |- context [?b ^ ?e] => let v := eval vm_compute in (b ^ e) in change (b ^ e) with v end.

(** The classes, by their bounds. *)
Lemma utf8_class_cases u : 0 <= u < 2147483648 →
  (utf8_class u <= 5)%nat ∧ enc_class max_val u 0 = Z.of_nat (utf8_class u) ∧
  (utf8_class u = 0%nat → u < 128) ∧
  (utf8_class u ≠ 0%nat → 128 <= u ∧ 0 <= u / 64 ^ Z.of_nat (utf8_class u) < 2 ^ (6 - Z.of_nat (utf8_class u))).
Proof.
  intros Hu. unfold utf8_class, max_val, enc_class.
  assert (∀ a b k, 0 < b → 0 <= a < b * k → 0 <= a / b < k) as Hdiv.
  { intros a b k Hb Ha. split; [apply Z.div_pos; lia|apply Z.div_lt_upper_bound; lia]. }
  destruct (Z.leb_spec u 127); [|destruct (Z.leb_spec u 2047); [|destruct (Z.leb_spec u 65535);
    [|destruct (Z.leb_spec u 2097151); [|destruct (Z.leb_spec u 67108863);
    [|destruct (Z.leb_spec u 2147483647); [|lia]]]]]];
    (split; [simpl; lia|]; split; [reflexivity|]; split;
     [intros E; first [lia|simpl in E; discriminate E]|]; intros Hne; first [by destruct Hne|idtac]).
  all: split; [lia|]; apply Hdiv; [reflexivity|]; eval_pows; lia.
Qed.

(** ** Bytes by enumeration *)

Definition for_bytes (P : Z → bool) : bool := forallb P (seqZ 0 256).

Lemma for_bytes_ok P b : for_bytes P = true → is_byte b → P b = true.
Proof.
  intros H Hb. unfold for_bytes in H. rewrite forallb_forall in H. apply H, list_elem_of_In, elem_of_seqZ.
  unfold is_byte in Hb. lia.
Qed.

Definition is_cont (b : Z) : bool := (128 <=? b) && (b <? 192).

Definition byte_ok (b : Z) : bool :=
  Bool.eqb (Z.land b 192 =? 128) (is_cont b) && Bool.eqb (Z.land (uint_of_char b) 192 =? 128) (is_cont b) &&
  Bool.eqb (uint_of_char b <? 128) (b <? 128) && Bool.eqb (uint_of_char b >=? 128) (128 <=? b) && (u8 (uint_of_char b) =? b) &&
  (if is_cont b then Z.land b 63 =? b - 128 else true) &&
  match high_bits_set b with
  | Ok i => (0 <=? Z.land b (Z.shiftr 255 i)) && (Z.land b (Z.shiftr 255 i) <? 256)
  | Fault _ => false
  end.

Lemma byte_facts b : is_byte b →
  (Z.land b 192 =? 128) = is_cont b ∧ (Z.land (uint_of_char b) 192 =? 128) = is_cont b ∧
  (uint_of_char b <? 128) = (b <? 128) ∧ (uint_of_char b >=? 128) = (128 <=? b) ∧ u8 (uint_of_char b) = b ∧
  (is_cont b = true → Z.land b 63 = b - 128) ∧ ∃ i, high_bits_set b = Ok i ∧ 0 <= Z.land b (Z.shiftr 255 i) < 256.
Proof.
  intros Hb. pose proof (for_bytes_ok byte_ok b ltac:(reflexivity) Hb) as H. unfold byte_ok in H.
  rewrite !andb_true_iff, !eqb_true_iff in H. destruct H as ((((((H1 & H2) & H3) & H4) & H5) & H6) & H7).
  split; [done|]. split; [done|]. split; [done|]. split; [done|]. split; [lia|]. split.
  - intros E. rewrite E in H6. lia.
  - destruct (high_bits_set b) as [i|]; [|done]. exists i. split; [done|lia].
Qed.

(** The lead byte of class [i], whose payload is [x]. *)
Definition lead_ok (i : nat) (x : Z) : bool :=
  let l := lead_mask i + x in
  (u8 (Z.lor (u8 (Z.lnot (Z.shiftr 255 (Z.of_nat i + 1)))) x) =? l) && (192 <=? l) && (l <? 256) &&
  match high_bits_set l with Ok h => h =? Z.of_nat i + 1 | Fault _ => false end &&
  (Z.land l (Z.shiftr 255 (Z.of_nat i + 1)) =? x).

Lemma lead_all : forallb (λ i, forallb (lead_ok i) (seqZ 0 (2 ^ (6 - Z.of_nat i)))) (seq 1 5) = true.
Proof. reflexivity. Qed.

Lemma lead_facts i x : (1 <= i <= 5)%nat → 0 <= x < 2 ^ (6 - Z.of_nat i) →
  let l := lead_mask i + x in
  u8 (Z.lor (u8 (Z.lnot (Z.shiftr 255 (Z.of_nat i + 1)))) x) = l ∧ 192 <= l < 256 ∧
  high_bits_set l = Ok (Z.of_nat i + 1) ∧ Z.land l (Z.shiftr 255 (Z.of_nat i + 1)) = x.
Proof.
  intros Hi Hx. assert (lead_ok i x = true) as H.
  { pose proof lead_all as Ha. rewrite forallb_forall in Ha. specialize (Ha i). rewrite forallb_forall in Ha.
    apply Ha; [apply in_seq; lia|apply list_elem_of_In, elem_of_seqZ; lia]. }
  unfold lead_ok in H. rewrite !andb_true_iff in H. destruct H as ((((H1 & H2) & H3) & H4) & H5). cbn zeta.
  split; [lia|]. split; [lia|]. split; [|lia]. destruct (high_bits_set _); [f_equal; lia|done].
Qed.

(** ** Encoding *)

Section width.
Context (bits : Z) (Hbits : 32 <= bits).

Lemma pow_bits : 4294967296 <= 2 ^ bits.
Proof. change 4294967296 with (2 ^ 32). apply Z.pow_le_mono_r; lia. Qed.

Lemma put_continuation_ok j : ∀ u (buf : list (option Z)),
  0 <= u → (j < length buf)%nat →
  put_continuation j u buf = Ok (u / 64 ^ Z.of_nat j, take 1 buf ++ cells (continuation j u) ++ drop (S j) buf).
Proof.
  induction j as [|j IH]; intros u buf Hu Hj; cbn [put_continuation continuation].
  { rewrite Z.div_1_r. f_equal. f_equal. simpl. by rewrite take_drop. }
  rewrite wr_ok by lia. cbn [mbind res_bind]. rewrite Nat2Z.id.
  assert (Z.shiftr u 6 = u / 64) as -> by (by rewrite Z.shiftr_div_pow2 by lia).
  rewrite (land_ones_mod u 63 6) by lia. change (2 ^ 6) with 64.
  pose proof (Z.mod_pos_bound u 64 ltac:(lia)) as Hm.
  assert (Z.lor 128 (u mod 64) = 128 + u mod 64) as -> by (apply (lor_add 2 (u mod 64) 6); lia).
  rewrite u8_small by lia.
  rewrite IH by (rewrite ?length_insert; first [lia|apply Z.div_pos; lia]).
  rewrite Z.div_div by (try apply Z.pow_nonzero; lia). do 2 f_equal.
  { f_equal. rewrite Nat2Z.inj_succ, Z.pow_succ_r by lia. done. }
  rewrite take_insert_ge by lia. f_equal. rewrite cells_app, <- app_assoc. f_equal.
  rewrite (drop_S _ (Some (128 + u mod 64))) by (apply list_lookup_insert_eq; lia).
  simpl. f_equal. by rewrite drop_insert_lt by lia.
Qed.

Lemma encode_utf8_ok u (buf : list (option Z)) :
  0 <= u < 2147483648 → (6 <= length buf)%nat →
  ∃ buf', encode_utf8 bits u buf = Ok (Z.of_nat (length (utf8 u)), buf') ∧ holds buf' (utf8 u) ∧
          length buf' = length buf.
Proof.
  intros Hu Hl. pose proof pow_bits. unfold encode_utf8. unfold ulong. rewrite (Z.mod_small u) by lia.
  destruct (utf8_class_cases u Hu) as (H5 & Ec & H0 & Hn). rewrite Ec. unfold utf8, MAX_UTF8_SZ.
  set (i := utf8_class u) in *. rewrite (proj2 (Z.eqb_neq (Z.of_nat i) 6)) by lia.
  destruct i as [|i'] eqn:Ei.
  - simpl. specialize (H0 eq_refl). rewrite u8_small, wr_ok by lia. cbn [mbind res_bind]. eexists. split; [done|].
    split; [|by rewrite length_insert]. change [u] with ([] ++ [u]). apply (holds_snoc buf [] u); [apply holds_nil|simpl; lia].
  - rewrite (proj2 (Z.eqb_neq (Z.of_nat (S i')) 0)) by lia. rewrite Nat2Z.id.
    destruct (Hn ltac:(done)) as [Hge Hx]. rewrite put_continuation_ok by lia. cbn [mbind res_bind].
    destruct (lead_facts (S i') _ ltac:(lia) Hx) as (-> & _).
    destruct buf as [|c0 buf]; [simpl in Hl; lia|]. rewrite wr_ok by (rewrite length_app; simpl; lia).
    cbn [mbind res_bind].
    assert (length (lead_mask (S i') + u / 64 ^ Z.of_nat (S i') :: continuation (S i') u) = S (S i')) as ->
      by (cbn [length]; by rewrite length_continuation).
    eexists. split; [f_equal; f_equal; lia|].
    split.
    + exists (drop (S (S i')) (c0 :: buf)). simpl. done.
    + rewrite length_insert, !length_app, length_cells, length_continuation, length_drop. simpl in *. lia.
Qed.

(** Beyond 31 bits. *)
Lemma encode_utf8_big u buf : 2147483648 <= u < 2 ^ bits → encode_utf8 bits u buf = Ok (-1, buf).
Proof.
  intros Hu. unfold encode_utf8, ulong. rewrite (Z.mod_small u) by lia. unfold enc_class, max_val.
  repeat rewrite (proj2 (Z.leb_gt u _)) by lia. done.
Qed.

(** ** Decoding *)

Definition code_of (code : Z) (l : list Z) : Z := foldl (λ c b, c * 64 + (b - 128)) code l.

Lemma code_of_continuation j : ∀ u code, 0 <= u →
  code_of code (continuation j u) = code * 64 ^ Z.of_nat j + u mod 64 ^ Z.of_nat j.
Proof.
  induction j as [|j IH]; intros u code Hu; cbn [continuation]; [change (64 ^ Z.of_nat 0) with 1; simpl; rewrite Z.mod_1_r; lia|].
  unfold code_of. rewrite foldl_app. fold (code_of code (continuation j (u / 64))).
  rewrite IH by (apply Z.div_pos; lia). simpl foldl. rewrite Nat2Z.inj_succ, Z.pow_succ_r by lia.
  rewrite Z.rem_mul_r by (try apply Z.pow_nonzero; lia). lia.
Qed.

Lemma get_continuation_ok (buf : list (option Z)) l full j code :
  holds buf full → drop j full = l → Forall (λ b, 128 <= b < 192) l →
  0 <= code → (code + 1) * 64 ^ Z.of_nat (length l) <= 2 ^ bits →
  get_continuation bits buf (length l) (Z.of_nat j) code = Ok (Some (code_of code l)).
Proof.
  intros Hb. revert j code. induction l as [|b l IH]; intros j code Hd Hr Hc Hlt; [done|]. cbn [get_continuation length].
  assert (full !! j = Some b) as Hj by (rewrite <- (Nat.add_0_r j), <- lookup_drop, Hd; done).
  rewrite (rd_at buf full j b) by done. cbn [mbind res_bind].
  apply Forall_cons in Hr as [Hb1 Hr]. destruct (byte_facts b) as (E1 & _ & _ & _ & _ & E6 & _); [unfold is_byte; lia|].
  assert (is_cont b = true) as Ec by (unfold is_cont; lia). rewrite E1, Ec. cbn [negb]. rewrite (E6 Ec).
  rewrite lor_add by (change (2 ^ 6) with 64; lia). change (2 ^ 6) with 64.
  simpl length in Hlt. rewrite Nat2Z.inj_succ, Z.pow_succ_r in Hlt by lia.
  pose proof (Z.pow_pos_nonneg 64 (Z.of_nat (length l)) ltac:(lia) ltac:(lia)) as Hp.
  unfold ulong. rewrite Z.mod_small by nia.
  replace (Z.of_nat j + 1) with (Z.of_nat (S j)) by lia. apply IH; [|done|lia|nia].
  rewrite (drop_S _ _ _ Hj) in Hd. by injection Hd.
Qed.

(** Totality: any bytes decode to something, and an accepted code is legal. *)
Definition legal (c : Z) : Prop := c ≠ 65534 ∧ c ≠ 65535 ∧ ¬ (55296 <= c <= 57343).

Lemma get_continuation_total (buf : list (option Z)) n : ∀ full j code,
  holds buf full → (j + n <= length full)%nat → Forall is_byte full → 0 <= code < 2 ^ bits →
  ∃ out, get_continuation bits buf n (Z.of_nat j) code = Ok out ∧ ∀ c, out = Some c → 0 <= c < 2 ^ bits.
Proof.
  induction n as [|n IH]; intros full j code Hb Hl Hf Hc; cbn [get_continuation].
  { eexists. split; [done|]. by intros c [= <-]. }
  destruct (lookup_lt_is_Some_2 full j) as [b Hj]; [lia|]. rewrite (rd_at buf full j b) by done. cbn [mbind res_bind].
  destruct (negb _); [by eexists|]. replace (Z.of_nat j + 1) with (Z.of_nat (S j)) by lia.
  apply (IH full); [done|lia|done|]. apply Z.mod_pos_bound. pose proof pow_bits. lia.
Qed.

Lemma decode_utf8_total (buf : list (option Z)) l :
  holds buf l → l ≠ [] → Forall is_byte l →
  ∃ c, decode_utf8 bits buf (Z.of_nat (length l)) = Ok c ∧ 0 <= c < 2 ^ bits ∧ (c = INVALID_UTF8_CHAR ∨ legal c).
Proof.
  intros Hb Hl Hf. pose proof pow_bits as Hp. assert (0 <= INVALID_UTF8_CHAR < 2 ^ bits) as Hinv by (unfold INVALID_UTF8_CHAR; lia).
  destruct l as [|b l]; [done|]. pose proof Hf as Hf'. apply Forall_cons in Hf' as [Hb0 _].
  unfold decode_utf8. rewrite (proj2 (Z.leb_gt _ 0)) by (simpl; lia).
  rewrite (rd_holds buf (b :: l) 0 b) by done. cbn [mbind res_bind].
  destruct (byte_facts b Hb0) as (_ & _ & _ & _ & _ & _ & i & -> & Hi). unfold is_byte in Hb0.
  destruct (Z.eqb_spec (Z.of_nat (length (b :: l))) 1) as [E1|E1].
  { destruct (Z.geb_spec b 128); eexists; (split; [done|]); split; [done|by left|lia|right; unfold legal; lia]. }
  cbn [mbind res_bind]. destruct (negb _); [eexists; split; [done|]; split; [done|by left]|].
  destruct (get_continuation_total buf (length l) (b :: l) 1 (Z.land b (Z.shiftr 255 i)) Hb) as (out & Eo & Ho);
    [simpl; lia|done| |].
  { lia. }
  replace (Z.to_nat (Z.of_nat (length (b :: l)) - 1)) with (length l) by (simpl; lia).
  change 1 with (Z.of_nat 1) at 1. rewrite Eo. cbn [mbind res_bind]. destruct out as [c|].
  - eexists. split; [done|]. specialize (Ho c eq_refl).
    destruct (Z.eqb_spec c 65534); [split; [done|by left]|]. destruct (Z.eqb_spec c 65535); [split; [done|by left]|].
    destruct (Z.geb_spec c 55296), (Z.leb_spec c 57343); simpl; (split; [done|]); first [by left|right; unfold legal; lia].
  - eexists. split; [done|]. split; [done|by left].
Qed.

Definition valid_code (c : Z) : Prop := 0 <= c < 2147483648 ∧ legal c.

Lemma utf8_nonempty c : utf8 c ≠ [].
Proof. unfold utf8. by destruct (utf8_class c). Qed.

Lemma decode_utf8_ok (buf : list (option Z)) c :
  valid_code c → holds buf (utf8 c) → decode_utf8 bits buf (Z.of_nat (length (utf8 c))) = Ok c.
Proof.
  intros [Hc (L1 & L2 & L3)] Hb. pose proof pow_bits as Hp.
  destruct (utf8_class_cases c Hc) as (H5 & Ec & H0 & Hn). unfold utf8 in *.
  set (i := utf8_class c) in *. destruct i as [|i'] eqn:Ei.
  - specialize (H0 eq_refl). unfold decode_utf8. cbn [length Z.of_nat Z.leb Z.compare Z.eqb Pos.of_succ_nat Pos.eqb].
    rewrite (rd_holds buf [c] 0 c) by done. cbn [mbind res_bind]. destruct (Z.geb_spec c 128); [lia|done].
  - destruct (Hn ltac:(done)) as [Hge Hx]. destruct (lead_facts (S i') _ ltac:(lia) Hx) as (_ & Hlr & Hhb & Hland).
    set (lead := lead_mask (S i') + c / 64 ^ Z.of_nat (S i')) in *.
    assert (length (lead :: continuation (S i') c) = S (S i')) as ->
      by (cbn [length]; by rewrite length_continuation).
    unfold decode_utf8.
    rewrite (proj2 (Z.leb_gt _ 0)), (proj2 (Z.eqb_neq _ 1)) by lia.
    rewrite (rd_holds buf (lead :: continuation (S i') c) 0 lead) by done. cbn [mbind res_bind]. rewrite Hhb.
    cbn [mbind res_bind]. rewrite (proj2 (Z.eqb_eq _ _)) by lia. cbn [negb]. rewrite Hland.
    replace (Z.to_nat (Z.of_nat (S (S i')) - 1)) with (length (continuation (S i') c)) by (rewrite length_continuation; lia).
    assert (64 ^ Z.of_nat (S i') * 2 ^ (6 - Z.of_nat (S i')) <= 2 ^ bits) as Hbound.
    { change 64 with (2 ^ 6). rewrite <- Z.pow_mul_r, <- Z.pow_add_r by lia. apply Z.pow_le_mono_r; lia. }
    change 1 with (Z.of_nat 1). rewrite (get_continuation_ok buf _ (lead :: continuation (S i') c) 1); try done.
    + cbn [mbind res_bind]. rewrite code_of_continuation by lia.
      rewrite (Z.mul_comm (c / _)), <- Z.div_mod by (apply Z.pow_nonzero; lia).
      rewrite (proj2 (Z.eqb_neq c 65534)), (proj2 (Z.eqb_neq c 65535)) by done.
      destruct (Z.geb_spec c 55296), (Z.leb_spec c 57343); simpl; first [done|lia].
    + apply continuation_range.
    + lia.
    + rewrite length_continuation. pose proof (Z.pow_pos_nonneg 64 (Z.of_nat (S i')) ltac:(lia) ltac:(lia)). nia.
Qed.
End width.

(** ** Checking a buffer (src/common/utf8.c, check_utf8)

    A buffer is valid when it is the concatenation of encodings of legal code
    points; the checker answers zero exactly for these. *)

(** ** Valid strings *)

Definition valid_utf8 (l : list Z) : Prop := ∃ codes, Forall valid_code codes ∧ l = concat (utf8 <$> codes).

Definition conts : list Z → Prop := Forall (λ b, 128 <= b < 192).

Lemma conts_snoc ys b : conts ys → 128 <= b < 192 → conts (ys ++ [b]).
Proof. intros Hy Hb. apply Forall_app. split; [done|]. apply Forall_cons. split; [done|constructor]. Qed.

Lemma valid_nil : valid_utf8 [].
Proof. by exists []. Qed.

Lemma valid_cons c l : valid_code c → valid_utf8 l → valid_utf8 (utf8 c ++ l).
Proof. intros Hc (codes & Hf & ->). exists (c :: codes). split; [by constructor|done]. Qed.

(** An encoding is a non-continuation byte followed by continuation bytes. *)
Lemma utf8_shape c : valid_code c →
  ∃ x ys, utf8 c = x :: ys ∧ conts ys ∧ is_byte x ∧ ¬ (128 <= x < 192) ∧ (length ys <= 5)%nat ∧ (x < 128 → ys = [] ∧ x = c).
Proof.
  intros [Hc _]. destruct (utf8_class_cases c Hc) as (H5 & _ & H0 & Hn). unfold utf8.
  set (i := utf8_class c) in *. destruct i as [|i'] eqn:Ei.
  - specialize (H0 eq_refl). exists c, []. unfold is_byte. repeat split; try done; try lia. constructor.
  - destruct (Hn ltac:(done)) as [_ Hx]. destruct (lead_facts (S i') _ ltac:(lia) Hx) as (_ & Hl & _).
    eexists _, _. split; [done|]. split; [apply continuation_range|]. unfold is_byte. split; [lia|]. split; [lia|].
    split; [by rewrite length_continuation|lia].
Qed.

Lemma utf8_ascii b : 0 <= b < 128 → utf8 b = [b] ∧ valid_code b.
Proof.
  intros Hb. split; [|split; [lia|unfold legal; lia]].
  unfold utf8, utf8_class, enc_class, max_val. by rewrite (proj2 (Z.leb_le b 127)) by lia.
Qed.

Lemma valid_uncons x l : valid_utf8 (x :: l) →
  ∃ c r, valid_code c ∧ valid_utf8 r ∧ x :: l = utf8 c ++ r.
Proof.
  intros ([|c codes] & Hf & E); [done|]. apply Forall_cons in Hf as [Hc Hf].
  exists c, (concat (utf8 <$> codes)). split; [done|]. split; [by exists codes|done].
Qed.

(** A valid string does not begin with a continuation byte. *)
Lemma valid_head x l : valid_utf8 (x :: l) → ¬ (128 <= x < 192).
Proof.
  intros (c & r & Hc & _ & E)%valid_uncons. destruct (utf8_shape c Hc) as (y & ys & Eu & _ & _ & Hy & _).
  rewrite Eu in E. injection E as -> _. done.
Qed.

(** The continuation bytes that follow belong to the first character. *)
Lemma valid_split x ys r :
  conts ys → valid_utf8 (x :: ys ++ r) →
  ∃ c zs r', valid_code c ∧ utf8 c = x :: ys ++ zs ∧ conts zs ∧ r = zs ++ r' ∧ valid_utf8 r'.
Proof.
  intros Hys (c & r' & Hc & Hr' & E)%valid_uncons. destruct (utf8_shape c Hc) as (y & us & Eu & Hus & _ & _ & _).
  rewrite Eu in E. injection E as -> E. apply app_eq_inv in E as [(k & -> & ->)|(k & -> & ->)].
  - (* the character ends inside the continuation bytes *)
    apply Forall_app in Hys as [_ Hk]. destruct k as [|z k].
    + exists c, [], r. split; [done|]. split; [by rewrite !app_nil_r in *|]. by split; [constructor|].
    + exfalso. apply Forall_cons in Hk as [Hz _]. by apply (valid_head z (k ++ r)).
  - exists c, k, r'. split; [done|]. split; [done|]. apply Forall_app in Hus as [_ Hk]. done.
Qed.

Lemma valid_split_end x ys r :
  conts ys → (∀ z r', r = z :: r' → ¬ (128 <= z < 192)) → valid_utf8 (x :: ys ++ r) →
  ∃ c, valid_code c ∧ utf8 c = x :: ys ∧ valid_utf8 r.
Proof.
  intros Hys Hend Hv. destruct (valid_split x ys r Hys Hv) as (c & zs & r' & Hc & E & Hz & -> & Hr').
  destruct zs as [|z zs]; [exists c; by rewrite app_nil_r in E|].
  apply Forall_cons in Hz as [Hz _]. by destruct (Hend z (zs ++ r') eq_refl).
Qed.

(** ** The collected character *)

Definition char_ok (seg : list Z) : Prop := ∃ c, valid_code c ∧ seg = utf8 c.

Section check.
Context (bits : Z) (Hbits : 32 <= bits).

Lemma mem_eq_ok n : ∀ (a b : list (option Z)) l k i,
  holds a l → holds b k → (i + n = length l)%nat → length k = length l →
  mem_eq a b n (Z.of_nat i) = Ok (bool_decide (drop i l = drop i k)).
Proof.
  induction n as [|n IH]; intros a b l k i Ha Hb Hl Hk; cbn [mem_eq].
  { rewrite !drop_ge by lia. by rewrite bool_decide_true. }
  destruct (lookup_lt_is_Some_2 l i) as [x Hx]; [lia|]. destruct (lookup_lt_is_Some_2 k i) as [y Hy]; [lia|].
  rewrite (rd_at a l i x), (rd_at b k i y) by done. cbn [mbind res_bind].
  rewrite (drop_S _ _ _ Hx), (drop_S _ _ _ Hy). replace (Z.of_nat i + 1) with (Z.of_nat (S i)) by lia.
  destruct (Z.eqb_spec x y) as [->|Hne].
  - rewrite (IH a b l k (S i)) by (done || lia). f_equal. apply bool_decide_ext. split; [by intros ->|by intros [= ->]].
  - rewrite bool_decide_false; [done|]. intros [= ? ?]. done.
Qed.

(** A collected character passes exactly when it is the encoding of a legal
    code point. *)
Lemma flush_seg (u : list (option Z)) seg :
  holds u seg → seg ≠ [] → Forall is_byte seg →
  ∃ ok, flush_ok bits u (Z.of_nat (length seg)) = Ok ok ∧ (ok = true ↔ char_ok seg).
Proof.
  intros Hu Hne Hf. pose proof (pow_bits bits Hbits) as Hp. unfold flush_ok.
  assert ((Z.of_nat (length seg) >? 0) = true) as -> by (destruct seg; done).
  destruct (decode_utf8_total bits Hbits u seg Hu Hne Hf) as (code & Ed & Hr & Hl). rewrite Ed. cbn [mbind res_bind].
  assert (∀ c, valid_code c → seg = utf8 c → c = code) as Huniq.
  { intros c Hc ->. rewrite (decode_utf8_ok bits Hbits u c Hc Hu) in Ed. by injection Ed. }
  destruct (Z.eqb_spec code INVALID_UTF8_CHAR) as [Ei|Hni].
  { exists false. split; [done|]. split; [done|]. intros (c & Hc & Es). pose proof (Huniq c Hc Es) as E.
    destruct Hc as [Hc _]. unfold INVALID_UTF8_CHAR in Ei. lia. }
  destruct Hl as [Hl|Hl]; [done|].
  destruct (decide (code < 2147483648)) as [Hlt|Hge].
  - destruct (encode_utf8_ok bits Hbits code (fresh_block MAX_UTF8_SZ)) as (re & Ee & Hre & _); [lia|done|].
    rewrite Ee. cbn [mbind res_bind]. destruct (Z.eqb_spec (Z.of_nat (length seg)) (Z.of_nat (length (utf8 code)))) as [El|Hnl]; cbn [negb].
    + rewrite Nat2Z.id. pose proof (mem_eq_ok (length seg) u re seg (utf8 code) 0 Hu Hre ltac:(lia) ltac:(lia)) as Hm.
      change (Z.of_nat 0) with 0 in Hm. rewrite Hm, !drop_0. eexists. split; [done|]. rewrite bool_decide_eq_true. split.
      * intros Es. exists code. split; [|done]. by split; [lia|].
      * intros (c & Hc & Es). by rewrite <- (Huniq c Hc Es).
    + exists false. split; [done|]. split; [done|]. intros (c & Hc & Es). rewrite <- (Huniq c Hc Es) in Hnl.
      by rewrite Es in Hnl.
  - rewrite (encode_utf8_big bits) by lia. cbn [mbind res_bind].
    rewrite (proj2 (Z.eqb_neq _ (-1))) by lia. exists false. split; [done|]. split; [done|].
    intros (c & Hc & Es). rewrite <- (Huniq c Hc Es) in Hge. destruct Hc. lia.
Qed.

Lemma flush_empty u : flush_ok bits u 0 = Ok true.
Proof. done. Qed.

(** ** The loop *)

(** The characters collected so far: a first byte and continuation bytes. *)
Definition pending (seg : list Z) : Prop :=
  seg = [] ∨ ∃ x ys, seg = x :: ys ∧ 128 <= x < 256 ∧ conts ys ∧ (length ys <= 5)%nat.

Lemma pending_bytes seg : pending seg → Forall is_byte seg ∧ (length seg <= 6)%nat.
Proof.
  intros [->|(x & ys & -> & Hx & Hy & Hl)]; [split; [constructor|simpl; lia]|]. split; [|simpl; lia].
  constructor; [unfold is_byte; lia|]. eapply Forall_impl; [exact Hy|]. unfold is_byte. simpl. lia.
Qed.

(** Before a byte that starts a character, validity splits. *)
Lemma valid_at_start seg r :
  pending seg → (∀ z r', r = z :: r' → ¬ (128 <= z < 192)) →
  valid_utf8 (seg ++ r) ↔ (seg = [] ∨ char_ok seg) ∧ valid_utf8 r.
Proof.
  intros Hp Hend. split.
  - intros Hv. destruct Hp as [->|(x & ys & -> & Hx & Hy & Hl)]; [by split; [left|]|].
    destruct (valid_split_end x ys r Hy Hend Hv) as (c & Hc & E & Hr). split; [right; by exists c|done].
  - intros [[->|(c & Hc & ->)] Hr]; [done|]. by apply valid_cons.
Qed.

Lemma flush_pending u seg :
  holds u seg → pending seg →
  ∃ ok, flush_ok bits u (Z.of_nat (length seg)) = Ok ok ∧ (ok = true ↔ seg = [] ∨ char_ok seg).
Proof.
  intros Hu Hp. destruct (decide (seg = [])) as [->|Hne]; [exists true; split; [done|tauto]|].
  destruct (flush_seg u seg Hu Hne) as (ok & E & H); [by apply pending_bytes|]. exists ok. split; [done|]. rewrite H. tauto.
Qed.

(** The buffer has a readable cell after its [len] bytes. *)
Context (buf : list (option Z)) (l : list Z) (term : Z) (Hbuf : holds buf (l ++ [term])) (Hl : Forall is_byte l)
  (Hterm : is_byte term).

#[local] Abbreviation len := (Z.of_nat (length l)).

Lemma check_end i u seg fuel :
  holds u seg → pending seg → i = length l →
  ∃ r, check_loop bits buf len (S fuel) (Z.of_nat i) u (Z.of_nat (length seg)) = Ok r ∧
       (r = 0 ↔ valid_utf8 seg) ∧ 0 <= r <= len + 1.
Proof.
  intros Hu Hp ->. cbn [check_loop]. rewrite (rd_at buf (l ++ [term]) (length l) term Hbuf (list_lookup_middle l [] term _ eq_refl)).
  cbn [mbind res_bind]. assert ((len >=? len) = true) as -> by lia. cbn [orb].
  destruct (flush_pending u seg Hu Hp) as (ok & -> & Hok). cbn [mbind res_bind].
  pose proof (valid_at_start seg [] Hp ltac:(done)) as Hv. rewrite app_nil_r in Hv.
  destruct ok; cbn [negb]; eexists; (split; [done|]); (split; [|lia]).
  - split; [intros _|done]. apply Hv. split; [by apply Hok|apply valid_nil].
  - split; [lia|]. intros Hs. exfalso. apply Hv in Hs as [Hs _]. apply Hok in Hs. done.
Qed.

Lemma check_loop_ok fuel : ∀ i u seg rest,
  drop i l = rest → (length rest < fuel)%nat → length u = 6%nat → holds u seg → pending seg →
  (i <= length l)%nat →
  ∃ r, check_loop bits buf len fuel (Z.of_nat i) u (Z.of_nat (length seg)) = Ok r ∧
       (r = 0 ↔ valid_utf8 (seg ++ rest)) ∧ 0 <= r <= len + 1.
Proof.
  induction fuel as [|fuel IH]; intros i u seg rest Hd Hf Hlu Hu Hp Hil; [lia|].
  pose proof (length_drop l i) as Hdl. rewrite Hd in Hdl.
  destruct rest as [|b rest]; [rewrite app_nil_r; apply check_end; (done || simpl in Hdl; lia)|]. simpl in Hdl, Hf.
  assert (l !! i = Some b) as Hi by (rewrite <- (Nat.add_0_r i), <- lookup_drop, Hd; done).
  assert (drop (S i) l = rest) as Hd' by (rewrite (drop_S _ _ _ Hi) in Hd; by injection Hd).
  assert (is_byte b) as Hb by (rewrite Forall_lookup in Hl; by apply (Hl i)).
  destruct (byte_facts b Hb) as (_ & E2 & E3 & E4 & E5 & _). unfold is_byte in Hb.
  cbn [check_loop]. rewrite (rd_at buf (l ++ [term]) i b) by (done || by apply lookup_app_l_Some). cbn [mbind res_bind].
  rewrite E2, E3, E4, E5. assert ((Z.of_nat i >=? len) = false) as -> by lia. cbn [orb].
  replace (Z.of_nat i + 1) with (Z.of_nat (S i)) by lia. unfold is_cont.
  destruct (decide (128 <= b < 192)) as [Hc|Hnc].
  - rewrite (proj2 (Z.ltb_ge b 128)), (proj2 (Z.leb_le 128 b)), (proj2 (Z.ltb_lt b 192)) by lia. cbn [negb orb andb].
    change MAX_UTF8_SZ with 6. destruct (pending_bytes seg Hp) as [_ Hl6].
    destruct (Z.eqb_spec (Z.of_nat (length seg)) 6) as [E6|Hn6].
    + eexists. split; [done|]. split; [|lia]. split; [lia|]. intros Hv. exfalso.
      destruct Hp as [->|(x & ys & -> & Hx & Hy & Hly)]; [done|]. simpl in E6.
      change ((x :: ys) ++ b :: rest) with (x :: ys ++ b :: rest) in Hv.
      rewrite (cons_middle b ys rest), app_assoc in Hv.
      destruct (valid_split x (ys ++ [b]) rest) as (c & zs & r' & Hvc & E & _); [|done|].
      { by apply conts_snoc. }
      destruct (utf8_shape c Hvc) as (x' & ys' & Eu & _ & _ & _ & H5 & _). rewrite Eu in E. injection E as _ ->.
      rewrite !length_app in H5. simpl in H5. lia.
    + rewrite wr_ok by lia. cbn [mbind res_bind]. rewrite Nat2Z.id.
      replace (Z.of_nat (length seg) + 1) with (Z.of_nat (length (seg ++ [b]))) by (rewrite length_app; simpl; lia).
      rewrite (cons_middle b seg rest), app_assoc.
      apply IH; [done|lia|by rewrite length_insert|apply holds_snoc; [done|lia]| |lia].
      right. destruct Hp as [->|(x & ys & -> & Hx & Hy & Hly)]; [exists b, []|exists x, (ys ++ [b])].
      * split; [done|]. split; [lia|]. split; [constructor|simpl; lia].
      * split; [done|]. split; [done|]. split; [by apply conts_snoc|].
        rewrite length_app. simpl in *. lia.
  - assert ((b <? 128) || negb ((128 <=? b) && (b <? 192)) = true) as -> by lia.
    destruct (flush_pending u seg Hu Hp) as (ok & -> & Hok). cbn [mbind res_bind].
    assert (valid_utf8 (seg ++ b :: rest) ↔ (seg = [] ∨ char_ok seg) ∧ valid_utf8 (b :: rest)) as Hv
      by (apply valid_at_start; [done|by intros z r' [= <- _]]).
    destruct ok; cbn [negb].
    2:{ eexists. split; [done|]. split; [|lia]. split; [lia|]. intros Hs. exfalso. apply Hv in Hs as [Hs _]. by apply Hok in Hs. }
    assert (seg = [] ∨ char_ok seg) as Hseg by (by apply Hok).
    destruct (Z.leb_spec 128 b) as [Hhi|Hlo].
    + rewrite wr_ok by lia. cbn [mbind res_bind]. change (Z.to_nat 0) with (length (@nil Z)).
      destruct (IH (S i) (<[length (@nil Z) := Some b]> u) [b] rest Hd' ltac:(lia)) as (r & Er & H0 & Hr).
      * by rewrite length_insert.
      * apply (holds_snoc u []); [apply holds_nil|simpl; lia].
      * right. exists b, []. split; [done|]. split; [lia|]. split; [constructor|simpl; lia].
      * lia.
      * exists r. split; [exact Er|]. split; [|done]. rewrite H0, Hv. simpl. tauto.
    + destruct (IH (S i) u [] rest Hd' ltac:(lia) Hlu (holds_nil u) (or_introl eq_refl) ltac:(lia)) as (r & Er & H0 & Hr).
      exists r. split; [exact Er|]. split; [|done]. rewrite H0, Hv. simpl.
      destruct (utf8_ascii b ltac:(lia)) as [Eb Hvb]. split.
      * intros Hs. split; [done|]. change (b :: rest) with ([b] ++ rest). rewrite <- Eb. by apply valid_cons.
      * intros [_ (c & r' & Hvc & Hr' & E)%valid_uncons].
        destruct (utf8_shape c Hvc) as (x & ys & Eu & _ & _ & _ & _ & Hx). rewrite Eu in E. injection E as -> E.
        destruct (Hx ltac:(lia)) as [-> _]. by rewrite E.
Qed.
End check.
