(* ===== verification/Escape.v ===== *)
(** * Escaping attributes (src/common/escape.c)

    The length functions and the writers, for XML and for JSON. *)

From S2P Require Import Prelude OutBuf.

Definition LESS_THAN_XESCAPE : list Z := [38; 108; 116; 59].
Definition AMPERSAND_XESCAPE : list Z := [38; 97; 109; 112; 59].
Definition GREATER_THAN_XESCAPE : list Z := [38; 103; 116; 59].
Definition SGL_QUOTE_XESCAPE : list Z := [38; 97; 112; 111; 115; 59].
Definition DBL_QUOTE_XESCAPE : list Z := [38; 113; 117; 111; 116; 59].

(** [sizeof(s) - 1] *)
Definition SSTRL (s : list Z) : Z := Z.of_nat (length s).

Definition xml_control (c : Z) : bool :=
  ((c <? 32) && negb (c =? 9) && negb (c =? 10)) || (c =? 127).

Definition xml_len_of (c : Z) : Z :=
  if c =? 60 then SSTRL LESS_THAN_XESCAPE
  else if c =? 38 then SSTRL AMPERSAND_XESCAPE
  else if c =? 62 then SSTRL GREATER_THAN_XESCAPE
  else if c =? 39 then SSTRL SGL_QUOTE_XESCAPE
  else if c =? 34 then SSTRL DBL_QUOTE_XESCAPE
  else if xml_control c then 6 else 1.

(** The loops over a C string have the size of its block as fuel. *)
Fixpoint xml_len_loop (buf : list (option Z)) (fuel : nat) (i ret : Z) : res Z :=
  match fuel with
  | O => Fault Diverge
  | S fuel =>
      c ← rd buf i;
      if c =? 0 then Ok (s32 (ret + 1)) else xml_len_loop buf fuel (i + 1) (s32 (ret + xml_len_of c))
  end.

Definition escape_xml_attr_len (buf : list (option Z)) : res Z := xml_len_loop buf (S (length buf)) 0 0.

(** [snprintf(o, 7, "&#x%02x;", c)] prints these. *)
Definition xml_hex (c : Z) : list Z := [38; 35; 120; hex_lower (c / 16); hex_lower (c mod 16); 59].

Definition xml_put (c : Z) : M outbuf unit :=
  if c =? 60 then put_bytes LESS_THAN_XESCAPE
  else if c =? 38 then put_bytes AMPERSAND_XESCAPE
  else if c =? 62 then put_bytes GREATER_THAN_XESCAPE
  else if c =? 39 then put_bytes SGL_QUOTE_XESCAPE
  else if c =? 34 then put_bytes DBL_QUOTE_XESCAPE
  else if xml_control c then _ ← snprintf_at 7 (xml_hex c); advance 6
  else put_byte c.

Fixpoint xml_loop (buf : list (option Z)) (fuel : nat) (i : Z) : M outbuf unit :=
  match fuel with
  | O => lift (Fault Diverge)
  | S fuel =>
      c ← lift (rd buf i);
      if c =? 0 then put_byte 0 else _ ← xml_put c; xml_loop buf fuel (i + 1)
  end.

Definition escape_xml_attr (buf : list (option Z)) : M outbuf unit := xml_loop buf (S (length buf)) 0.

(** ** JSON *)

Definition DBL_QUOTE_JESCAPE : list Z := [92; 34].
Definition BACKSLASH_JESCAPE : list Z := [92; 92].
Definition SLASH_JESCAPE : list Z := [92; 47].
Definition TAB_JESCAPE : list Z := [92; 116].
Definition NEWLINE_JESCAPE : list Z := [92; 110].

Definition json_control (c : Z) : bool := (c <? 32) || (c =? 127).

Definition json_len_of (c : Z) : Z :=
  if c =? 34 then SSTRL DBL_QUOTE_JESCAPE
  else if c =? 92 then SSTRL BACKSLASH_JESCAPE
  else if c =? 47 then SSTRL SLASH_JESCAPE
  else if c =? 9 then SSTRL TAB_JESCAPE
  else if c =? 10 then SSTRL NEWLINE_JESCAPE
  else if json_control c then 6 else 1.

Fixpoint json_len_loop (buf : list (option Z)) (n : nat) (i ret : Z) : res Z :=
  match n with
  | O => Ok (s32 (ret + 1))
  | S n => c ← rd buf i; json_len_loop buf n (i + 1) (s32 (ret + json_len_of c))
  end.

Definition escape_json_attr_len (buf : list (option Z)) (src_len : Z) : res Z :=
  json_len_loop buf (Z.to_nat src_len) 0 0.

(** [snprintf(o, 7, "\\u%04x", c)] prints these. *)
Definition json_hex (c : Z) : list Z := [92; 117; 48; 48; hex_lower (c / 16); hex_lower (c mod 16)].

Definition json_put (c : Z) : M outbuf unit :=
  if c =? 34 then put_bytes DBL_QUOTE_JESCAPE
  else if c =? 92 then put_bytes BACKSLASH_JESCAPE
  else if c =? 47 then put_bytes SLASH_JESCAPE
  else if c =? 9 then put_bytes TAB_JESCAPE
  else if c =? 10 then put_bytes NEWLINE_JESCAPE
  else if json_control c then _ ← snprintf_at 7 (json_hex c); advance 6
  else put_byte c.

Fixpoint json_loop (buf : list (option Z)) (n : nat) (i : Z) : M outbuf unit :=
  match n with
  | O => put_byte 0
  | S n => c ← lift (rd buf i); _ ← json_put c; json_loop buf n (i + 1)
  end.

Definition escape_json_attr (buf : list (option Z)) (src_len : Z) : M outbuf unit :=
  json_loop buf (Z.to_nat src_len) 0.

(** ** What escaping writes (src/common/escape.c)

    Each byte is replaced by an escape; the length functions count what the
    writers write; and the escapes can be read back. *)

(** ** The escape of one byte *)

Definition xml_esc (c : Z) : list Z :=
  if c =? 60 then LESS_THAN_XESCAPE
  else if c =? 38 then AMPERSAND_XESCAPE
  else if c =? 62 then GREATER_THAN_XESCAPE
  else if c =? 39 then SGL_QUOTE_XESCAPE
  else if c =? 34 then DBL_QUOTE_XESCAPE
  else if xml_control c then xml_hex c else [c].

Definition json_esc (c : Z) : list Z :=
  if c =? 34 then DBL_QUOTE_JESCAPE
  else if c =? 92 then BACKSLASH_JESCAPE
  else if c =? 47 then SLASH_JESCAPE
  else if c =? 9 then TAB_JESCAPE
  else if c =? 10 then NEWLINE_JESCAPE
  else if json_control c then json_hex c else [c].

Definition escaped (esc : Z → list Z) (l : list Z) : list Z := concat (esc <$> l).

Lemma length_escaped_cons esc c l : length (escaped esc (c :: l)) = (length (esc c) + length (escaped esc l))%nat.
Proof. unfold escaped. simpl. by rewrite length_app. Qed.

Lemma xml_len_esc c : xml_len_of c = Z.of_nat (length (xml_esc c)).
Proof. unfold xml_len_of, xml_esc. by repeat case_match. Qed.

Lemma json_len_esc c : json_len_of c = Z.of_nat (length (json_esc c)).
Proof. unfold json_len_of, json_esc. by repeat case_match. Qed.

Lemma hex_lower_byte d : 0 <= d < 16 → is_byte (hex_lower d).
Proof. intros Hd. unfold hex_lower, is_byte. case_match; lia. Qed.

(** The nibbles of a byte. *)
Lemma nibbles c : is_byte c → 0 <= c / 16 < 16 ∧ 0 <= c mod 16 < 16 ∧ c = 16 * (c / 16) + c mod 16.
Proof. unfold is_byte. intros Hc. Z.to_euclidean_division_equations. lia. Qed.

#[local] Ltac bytes := repeat (apply Forall_cons; split; [first [done|unfold is_byte; lia]|]); constructor.

Lemma xml_esc_bytes c : is_byte c → Forall is_byte (xml_esc c) ∧ xml_esc c ≠ [].
Proof.
  intros Hc. split; [|unfold xml_esc; by repeat case_match].
  assert (Forall is_byte (xml_hex c)) as Hx.
  { destruct (nibbles c Hc) as (H1 & H2 & _). unfold xml_hex.
    repeat (apply Forall_cons; split; [first [by apply hex_lower_byte|unfold is_byte; lia]|]). constructor. }
  unfold xml_esc. repeat case_match; try done; bytes.
Qed.

Lemma json_esc_bytes c : is_byte c → Forall is_byte (json_esc c) ∧ json_esc c ≠ [].
Proof.
  intros Hc. split; [|unfold json_esc; by repeat case_match].
  assert (Forall is_byte (json_hex c)) as Hx.
  { destruct (nibbles c Hc) as (H1 & H2 & _). unfold json_hex.
    repeat (apply Forall_cons; split; [first [by apply hex_lower_byte|unfold is_byte; lia]|]). constructor. }
  unfold json_esc. repeat case_match; try done; bytes.
Qed.

(** ** Writing one escape *)

(** A writer of one byte that has room for its escape and a null after it. *)
Definition puts (put : Z → M outbuf unit) (esc : Z → list Z) : Prop :=
  ∀ c dn n b, is_byte c → wrote dn n b → (length dn + length (esc c) < n)%nat →
    ∃ b', put c b = Ok (tt, b') ∧ wrote (dn ++ esc c) n b'.

Lemma put_hex6 s dn n b :
  Forall is_byte s → length s = 6%nat → wrote dn n b → (length dn + 6 < n)%nat →
  ∃ b', (_ ← snprintf_at 7 s; advance 6) b = Ok (tt, b') ∧ wrote (dn ++ s) n b'.
Proof.
  intros Hs Hl Hb Hn. destruct (snprintf_ok 7 s dn n b Hs Hb) as (b' & E & H); [lia|lia|].
  unfold mbind, M_bind. rewrite E. unfold advance. eexists. split; [done|].
  rewrite Hl in H. apply H. by destruct s.
Qed.

Lemma xml_puts : puts xml_put xml_esc.
Proof.
  intros c dn n b Hc Hb Hn. destruct (xml_esc_bytes c Hc) as [Hbytes _]. unfold xml_put. unfold xml_esc in *.
  destruct (c =? 60), (c =? 38), (c =? 62), (c =? 39), (c =? 34); try (apply put_bytes_ok; (done || lia)).
  destruct (xml_control c).
  - apply put_hex6; [done|done|done|simpl in Hn; lia].
  - destruct (put_byte_ok c dn n b Hb) as (b' & E & H); [simpl in Hn; lia|]. exists b'. rewrite u8_small in H by exact Hc. done.
Qed.

Lemma json_puts : puts json_put json_esc.
Proof.
  intros c dn n b Hc Hb Hn. destruct (json_esc_bytes c Hc) as [Hbytes _]. unfold json_put. unfold json_esc in *.
  destruct (c =? 34), (c =? 92), (c =? 47), (c =? 9), (c =? 10); try (apply put_bytes_ok; (done || lia)).
  destruct (json_control c).
  - apply put_hex6; [done|done|done|simpl in Hn; lia].
  - destruct (put_byte_ok c dn n b Hb) as (b' & E & H); [simpl in Hn; lia|]. exists b'. rewrite u8_small in H by exact Hc. done.
Qed.

(** ** The loops *)

Lemma put_nul dn n b :
  wrote dn n b → (length dn < n)%nat → ∃ b', put_byte 0 b = Ok (tt, b') ∧ wrote (dn ++ [0]) n b'.
Proof. intros Hb Hn. exact (put_byte_ok 0 dn n b Hb Hn). Qed.

Lemma xml_loop_ok buf l fuel : ∀ i rest dn n b,
  c_string buf l → drop i l = rest → (i <= length l)%nat → (length rest < fuel)%nat → wrote dn n b →
  (length dn + length (escaped xml_esc rest) < n)%nat →
  ∃ b', xml_loop buf fuel (Z.of_nat i) b = Ok (tt, b') ∧ wrote (dn ++ escaped xml_esc rest ++ [0]) n b'.
Proof.
  induction fuel as [|fuel IH]; intros i rest dn n b Hs Hd Hi Hf Hb Hn; [lia|]. cbn [xml_loop].
  pose proof (length_drop l i) as Hdl. rewrite Hd in Hdl. destruct rest as [|c rest].
  - unfold mbind, M_bind, lift. rewrite (c_string_end buf l i Hs) by (simpl in Hdl; lia).
    rewrite Z.eqb_refl. apply put_nul; [done|]. simpl in Hn. lia.
  - destruct (c_string_rd buf l i c rest Hs Hd) as (E & Hc & Hd'). unfold mbind, M_bind, lift. rewrite E.
    rewrite (proj2 (Z.eqb_neq c 0)) by lia. rewrite length_escaped_cons in Hn.
    destruct (xml_puts c dn n b) as (b1 & -> & Hb1); [unfold is_byte; lia|done|lia|].
    replace (Z.of_nat i + 1) with (Z.of_nat (S i)) by lia. simpl in Hdl, Hf.
    destruct (IH (S i) rest (dn ++ xml_esc c) n b1 Hs Hd' ltac:(lia) ltac:(lia) Hb1) as (b2 & E2 & Hb2).
    { rewrite length_app. lia. }
    exists b2. split; [done|]. rewrite <- app_assoc in Hb2. unfold escaped in *. simpl. by rewrite <- app_assoc.
Qed.

Lemma xml_len_loop_ok buf l fuel : ∀ i rest ret,
  c_string buf l → drop i l = rest → (i <= length l)%nat → (length rest < fuel)%nat → 0 <= ret →
  ret + Z.of_nat (length (escaped xml_esc rest)) < 2147483647 →
  xml_len_loop buf fuel (Z.of_nat i) ret = Ok (ret + Z.of_nat (length (escaped xml_esc rest)) + 1).
Proof.
  induction fuel as [|fuel IH]; intros i rest ret Hs Hd Hi Hf Hr Hn; [lia|]. cbn [xml_len_loop].
  pose proof (length_drop l i) as Hdl. rewrite Hd in Hdl. destruct rest as [|c rest].
  - rewrite (c_string_end buf l i Hs) by (simpl in Hdl; lia). cbn [mbind res_bind]. rewrite Z.eqb_refl.
    simpl in *. rewrite s32_small by (unfold is_s32; lia). f_equal. lia.
  - destruct (c_string_rd buf l i c rest Hs Hd) as (-> & Hc & Hd'). cbn [mbind res_bind].
    rewrite (proj2 (Z.eqb_neq c 0)) by lia. rewrite length_escaped_cons, Nat2Z.inj_add in *.
    rewrite xml_len_esc, s32_small by (unfold is_s32; lia). simpl in Hdl, Hf.
    replace (Z.of_nat i + 1) with (Z.of_nat (S i)) by lia. rewrite (IH (S i) rest) by (done || lia). f_equal. lia.
Qed.

Lemma json_loop_ok buf l rest : ∀ i dn n b,
  holds buf l → drop i l = rest → Forall is_byte l → wrote dn n b →
  (length dn + length (escaped json_esc rest) < n)%nat →
  ∃ b', json_loop buf (length rest) (Z.of_nat i) b = Ok (tt, b') ∧ wrote (dn ++ escaped json_esc rest ++ [0]) n b'.
Proof.
  induction rest as [|c rest IH]; intros i dn n b Hs Hd Hl Hb Hn; cbn [json_loop length].
  { apply put_nul; [done|]. simpl in Hn. lia. }
  assert (l !! i = Some c) as Hi by (rewrite <- (Nat.add_0_r i), <- lookup_drop, Hd; done).
  unfold mbind, M_bind, lift. rewrite (rd_at buf l i c) by done. rewrite length_escaped_cons in Hn.
  destruct (json_puts c dn n b) as (b1 & -> & Hb1); [rewrite Forall_lookup in Hl; by apply (Hl i)|done|lia|].
  replace (Z.of_nat i + 1) with (Z.of_nat (S i)) by lia.
  destruct (IH (S i) (dn ++ json_esc c) n b1 Hs) as (b2 & E2 & Hb2); [|done|done|rewrite length_app; lia|].
  { rewrite (drop_S _ _ _ Hi) in Hd. by injection Hd. }
  exists b2. split; [done|]. rewrite <- app_assoc in Hb2. unfold escaped in *. simpl. by rewrite <- app_assoc.
Qed.

Lemma json_len_loop_ok buf l rest : ∀ i ret,
  holds buf l → drop i l = rest → 0 <= ret → ret + Z.of_nat (length (escaped json_esc rest)) < 2147483647 →
  json_len_loop buf (length rest) (Z.of_nat i) ret = Ok (ret + Z.of_nat (length (escaped json_esc rest)) + 1).
Proof.
  induction rest as [|c rest IH]; intros i ret Hs Hd Hr Hn; cbn [json_len_loop length].
  { simpl in *. rewrite s32_small by (unfold is_s32; lia). f_equal. lia. }
  assert (l !! i = Some c) as Hi by (rewrite <- (Nat.add_0_r i), <- lookup_drop, Hd; done).
  rewrite (rd_at buf l i c) by done. cbn [mbind res_bind]. rewrite length_escaped_cons, Nat2Z.inj_add in *.
  rewrite json_len_esc, s32_small by (unfold is_s32; lia).
  replace (Z.of_nat i + 1) with (Z.of_nat (S i)) by lia.
  rewrite (IH (S i)); [f_equal; lia|done| |lia|lia]. rewrite (drop_S _ _ _ Hi) in Hd. by injection Hd.
Qed.

(** ** Reading escapes back *)

Definition hex_value (h : Z) : Z := if h <? 58 then h - 48 else h - 87.

Lemma hex_value_lower d : 0 <= d < 16 → hex_value (hex_lower d) = d.
Proof. intros Hd. unfold hex_value, hex_lower. destruct (Z.ltb_spec d 10), (Z.ltb_spec (if d <? 10 then 48 + d else 87 + d) 58); repeat case_match; lia. Qed.

Definition xml_read (l : list Z) : option (Z * list Z) :=
  match l with
  | 38 :: 108 :: 116 :: 59 :: r => Some (60, r)
  | 38 :: 97 :: 109 :: 112 :: 59 :: r => Some (38, r)
  | 38 :: 103 :: 116 :: 59 :: r => Some (62, r)
  | 38 :: 97 :: 112 :: 111 :: 115 :: 59 :: r => Some (39, r)
  | 38 :: 113 :: 117 :: 111 :: 116 :: 59 :: r => Some (34, r)
  | 38 :: 35 :: 120 :: h :: k :: 59 :: r => Some (16 * hex_value h + hex_value k, r)
  | c :: r => Some (c, r)
  | [] => None
  end.

Lemma xml_read_other c r : c ≠ 38 → xml_read (c :: r) = Some (c, r).
Proof. intros Hc. destruct c as [|p|p]; try done. do 6 (destruct p as [p|p|]; try done). Qed.

Lemma xml_read_esc c r : is_byte c → xml_read (xml_esc c ++ r) = Some (c, r).
Proof.
  intros Hc. unfold xml_esc.
  destruct (Z.eqb_spec c 60) as [->|]; [done|]. destruct (Z.eqb_spec c 38) as [->|]; [done|].
  destruct (Z.eqb_spec c 62) as [->|]; [done|]. destruct (Z.eqb_spec c 39) as [->|]; [done|].
  destruct (Z.eqb_spec c 34) as [->|]; [done|].
  destruct (xml_control c); [|by apply xml_read_other].
  destruct (nibbles c Hc) as (H1 & H2 & E). cbn [xml_hex app xml_read]. rewrite !hex_value_lower by done. by rewrite <- E.
Qed.

Definition json_read (l : list Z) : option (Z * list Z) :=
  match l with
  | 92 :: 34 :: r => Some (34, r)
  | 92 :: 92 :: r => Some (92, r)
  | 92 :: 47 :: r => Some (47, r)
  | 92 :: 116 :: r => Some (9, r)
  | 92 :: 110 :: r => Some (10, r)
  | 92 :: 117 :: 48 :: 48 :: h :: k :: r => Some (16 * hex_value h + hex_value k, r)
  | c :: r => Some (c, r)
  | [] => None
  end.

Lemma json_read_other c r : c ≠ 92 → json_read (c :: r) = Some (c, r).
Proof. intros Hc. destruct c as [|p|p]; try done. do 7 (destruct p as [p|p|]; try done). Qed.

Lemma json_read_esc c r : is_byte c → json_read (json_esc c ++ r) = Some (c, r).
Proof.
  intros Hc. unfold json_esc.
  destruct (Z.eqb_spec c 34) as [->|]; [done|]. destruct (Z.eqb_spec c 92) as [->|]; [done|].
  destruct (Z.eqb_spec c 47) as [->|]; [done|]. destruct (Z.eqb_spec c 9) as [->|]; [done|].
  destruct (Z.eqb_spec c 10) as [->|]; [done|].
  destruct (json_control c); [|by apply json_read_other].
  destruct (nibbles c Hc) as (H1 & H2 & E). cbn [json_hex app json_read]. rewrite !hex_value_lower by done. by rewrite <- E.
Qed.

(** Reading all of a text. *)
Fixpoint read_all (read : list Z → option (Z * list Z)) (fuel : nat) (l : list Z) : list Z :=
  match fuel with
  | O => []
  | S fuel => match read l with Some (c, r) => c :: read_all read fuel r | None => [] end
  end.

Lemma read_all_escaped read esc l fuel :
  read [] = None → (∀ c r, is_byte c → read (esc c ++ r) = Some (c, r)) → Forall is_byte l → (length l <= fuel)%nat →
  read_all read fuel (escaped esc l) = l.
Proof.
  intros Hn Hr. revert fuel. induction l as [|c l IH]; intros fuel Hl Hf.
  { destruct fuel; [done|]. cbn [read_all escaped fmap list_fmap concat]. unfold escaped. simpl. by rewrite Hn. }
  apply Forall_cons in Hl as [Hc Hl]. destruct fuel as [|fuel]; [simpl in Hf; lia|]. cbn [read_all].
  unfold escaped. simpl. rewrite Hr by done. f_equal. apply IH; [done|]. simpl in Hf. lia.
Qed.

(** ** What may occur in the output *)

(** No byte that ends or breaks an attribute. *)
Definition xml_safe (c : Z) : Prop := c ≠ 60 ∧ c ≠ 62 ∧ c ≠ 39 ∧ c ≠ 34 ∧ (32 <= c ∨ c = 9 ∨ c = 10) ∧ c ≠ 127.

Lemma hex_lower_safe d : 0 <= d < 16 → xml_safe (hex_lower d) ∧ 48 <= hex_lower d <= 102.
Proof. intros Hd. unfold xml_safe, hex_lower. case_match; lia. Qed.

Lemma xml_esc_safe c : is_byte c → Forall xml_safe (xml_esc c).
Proof.
  intros Hc. destruct (nibbles c Hc) as (H1 & H2 & _).
  assert (Forall xml_safe (xml_hex c)) as Hx.
  { unfold xml_hex. repeat (apply Forall_cons; split; [first [by apply hex_lower_safe|unfold xml_safe; lia]|]). constructor. }
  unfold xml_esc. destruct (Z.eqb_spec c 60), (Z.eqb_spec c 38), (Z.eqb_spec c 62), (Z.eqb_spec c 39), (Z.eqb_spec c 34);
    try (repeat (apply Forall_cons; split; [unfold xml_safe; lia|]); constructor).
  destruct (xml_control c) eqn:E; [done|]. apply Forall_cons. split; [|constructor].
  unfold xml_control in E. unfold xml_safe, is_byte in *. lia.
Qed.
