(* ===== verification/Mime.v ===== *)
(** * Quoted-printable (src/common/mime.c)

    The encoder and the decoder.  [outlen] counts down with the space left.
    Their pure specifications. *)

From S2P Require Import Prelude CrushTypes OutBuf Utf8.

(** [snprintf(o, outlen, ...); outlen -= k; o += k;] *)
Definition print_advance (outlen : Z) (s : list Z) : M outbuf unit :=
  _ ← snprintf_at outlen s; advance (Z.of_nat (length s)).

(** [snprintf(o, outlen, "=%02X", c)] prints these. *)
Definition qp_hex (c : Z) : list Z := [61; hex_upper (c / 16); hex_upper (c mod 16)].

Definition qp_quoted (c : Z) : bool :=
  negb (Z.land c 128 =? 0) || (c =? 61) || is_control_character c.

Fixpoint qp_encode_loop (input : list (option Z)) (fuel : nat) (i outlen ret : Z) : M outbuf Z :=
  match fuel with
  | O => lift (Fault Diverge)
  | S fuel =>
      c ← lift (rd input i);
      if c =? 0 then mret ret
      else if qp_quoted c then
        if 3 <=? outlen then
          _ ← print_advance outlen (qp_hex c);
          qp_encode_loop input fuel (i + 1) (outlen - 3) (s32 (ret + 3))
        else qp_encode_loop input fuel (i + 1) 0 (s32 (ret + 3))
      else if 1 <=? outlen then
        _ ← print_advance outlen [c];
        qp_encode_loop input fuel (i + 1) (outlen - 1) (s32 (ret + 1))
      else qp_encode_loop input fuel (i + 1) outlen (s32 (ret + 1))
  end.

Definition mime_encode_as_qp (input : list (option Z)) (outlen : Z) : M outbuf Z :=
  qp_encode_loop input (S (length input)) 0 outlen 1.

Definition hexchar_to_int (c : Z) : Z :=
  if (48 <=? c) && (c <=? 57) then c - 48
  else if (65 <=? c) && (c <=? 70) then c - 55
  else if (97 <=? c) && (c <=? 102) then c - 87
  else - EDOM.

Fixpoint qp_decode_loop (input : list (option Z)) (fuel : nat) (i outlen ret : Z) : M outbuf Z :=
  match fuel with
  | O => lift (Fault Diverge)
  | S fuel =>
      let put (c i : Z) : M outbuf Z :=
        let i := i + 1 in
        if 1 <=? outlen then
          _ ← print_advance outlen [c];
          qp_decode_loop input fuel i (outlen - 1) (s32 (ret + 1))
        else qp_decode_loop input fuel i outlen (s32 (ret + 1)) in
      c ← lift (rd input i);
      if c =? 0 then mret ret
      else if negb (Z.land c 128 =? 0) then mret (- EDOM)
      else if c =? 61 then
        h ← lift (rd input (i + 1));
        let high := hexchar_to_int h in
        if high <? 0 then mret (- EINVAL) else
        l ← lift (rd input (i + 2));
        let low := hexchar_to_int l in
        if low <? 0 then mret (- EINVAL) else
        put (Z.shiftl high 4 + low) (i + 2)
      else put c i
  end.

Definition mime_decode_from_qp (input : list (option Z)) (outlen : Z) : M outbuf Z :=
  qp_decode_loop input (S (length input)) 0 outlen 1.

(** ** What the quoted-printable functions compute (src/common/mime.c)

    The results do not depend on the room; with enough room the output is the
    whole encoding, or decoding, and with less nothing outside is touched. *)

(** ** Pure encoder and decoder *)

Definition qp_esc (c : Z) : list Z := if qp_quoted c then qp_hex c else [c].
Definition qp (l : list Z) : list Z := concat (qp_esc <$> l).

Lemma qp_cons c l : qp (c :: l) = qp_esc c ++ qp l.
Proof. done. Qed.

(** The bytes decoded, and the error that stopped the decoder. *)
Fixpoint unqp (l : list Z) : list Z * option Z :=
  match l with
  | [] => ([], None)
  | c :: l =>
      if 128 <=? c then ([], Some (- EDOM)) else
      if c =? 61 then
        match l with
        | h :: k :: l =>
            if hexchar_to_int h <? 0 then ([], Some (- EINVAL)) else
            if hexchar_to_int k <? 0 then ([], Some (- EINVAL)) else
            let '(out, e) := unqp l in (16 * hexchar_to_int h + hexchar_to_int k :: out, e)
        | _ => ([], Some (- EINVAL))
        end
      else let '(out, e) := unqp l in (c :: out, e)
  end.

Lemma hexchar_upper d : 0 <= d < 16 → hexchar_to_int (hex_upper d) = d ∧ is_byte (hex_upper d).
Proof. intros Hd. unfold hexchar_to_int, hex_upper, is_byte. destruct (Z.ltb_spec d 10); repeat case_match; lia. Qed.

Lemma hexchar_range c : hexchar_to_int c < 16.
Proof. unfold hexchar_to_int, EDOM. repeat case_match; lia. Qed.

Lemma high_bit c : is_byte c → negb (Z.land c 128 =? 0) = (128 <=? c).
Proof.
  intros Hc. assert (forallb (λ c, Bool.eqb (negb (Z.land c 128 =? 0)) (128 <=? c)) (seqZ 0 256) = true) as H by reflexivity.
  rewrite forallb_forall in H. specialize (H c). rewrite eqb_true_iff in H. apply H, list_elem_of_In, elem_of_seqZ.
  unfold is_byte in Hc. lia.
Qed.

Lemma qp_esc_bytes c : is_byte c → Forall is_byte (qp_esc c) ∧ qp_esc c ≠ [].
Proof.
  intros Hc. split; [|unfold qp_esc; by case_match]. unfold qp_esc, qp_hex, is_byte in *.
  pose proof (hexchar_upper (c / 16)). pose proof (hexchar_upper (c mod 16)). unfold is_byte in *.
  assert (0 <= c / 16 < 16 ∧ 0 <= c mod 16 < 16) as [] by (Z.to_euclidean_division_equations; lia).
  case_match; repeat (apply Forall_cons; split; [simpl; first [lia|naive_solver]|]); constructor.
Qed.

Lemma qp_nonzero l : Forall (λ c, 0 < c < 256) l → Forall (λ c, 0 < c < 256) (qp l).
Proof.
  induction 1 as [|c l Hc _ IH]; [constructor|]. rewrite qp_cons. apply Forall_app. split; [|done].
  unfold qp_esc. destruct (qp_quoted c); [|by constructor].
  repeat constructor; try lia; unfold hex_upper; case_match; Z.to_euclidean_division_equations; lia.
Qed.

Lemma unqp_qp l : Forall (λ c, 0 < c < 256) l → unqp (qp l) = (l, None).
Proof.
  induction l as [|c l IH]; intros Hl; [done|]. apply Forall_cons in Hl as [Hc Hl].
  rewrite qp_cons. unfold qp_esc. destruct (qp_quoted c) eqn:E.
  - assert (0 <= c / 16 < 16 ∧ 0 <= c mod 16 < 16 ∧ c = 16 * (c / 16) + c mod 16) as (H1 & H2 & Ec)
      by (Z.to_euclidean_division_equations; lia).
    destruct (hexchar_upper _ H1) as [E1 _], (hexchar_upper _ H2) as [E2 _].
    cbn [qp_hex app unqp]. change (128 <=? 61) with false. change (61 =? 61) with true. cbn match.
    rewrite E1, E2, !(proj2 (Z.ltb_ge _ 0)), IH by (done || lia). by rewrite <- Ec.
  - cbn [app unqp]. unfold qp_quoted in E. rewrite !orb_false_iff in E. destruct E as ((E1 & E2) & E3).
    rewrite high_bit in E1 by (unfold is_byte; lia). rewrite E1, E2, IH by done. done.
Qed.

(** ** Printing within the room *)

(** [outlen] cells are left after the bytes [dn] of a block of [n]; while
    nothing was cut off, [dn] is complete and a null follows it. *)
Definition room (dn : list Z) (n : nat) (outlen : Z) (b : outbuf) : Prop :=
  0 <= outlen ∧ 0 <= ob_pos b ∧ ob_pos b + outlen <= Z.of_nat n ∧ length (ob_mem b) = n ∧
  (Z.of_nat (length dn) < Z.of_nat n → ob_pos b + outlen = Z.of_nat n ∧ wrote0 dn n b).

(** A print at any position stays inside the block. *)
Lemma put_bytes_inside l : ∀ b,
  0 <= ob_pos b → ob_pos b + Z.of_nat (length l) <= Z.of_nat (length (ob_mem b)) →
  ∃ b', put_bytes l b = Ok (tt, b') ∧ length (ob_mem b') = length (ob_mem b).
Proof.
  induction l as [|c l IH]; intros b Hp Hl; cbn [put_bytes]; [by exists b|]. simpl in Hl.
  unfold mbind, M_bind, put_byte. rewrite wr_ok by lia. cbn [mbind res_bind].
  destruct (IH (OutBuf (<[Z.to_nat (ob_pos b) := Some (u8 c)]> (ob_mem b)) (ob_pos b + 1))) as (b' & E & Hb');
    simpl; [lia|rewrite length_insert; lia|]. exists b'. split; [exact E|]. by rewrite Hb'; simpl; rewrite length_insert.
Qed.

Lemma print_room dn n outlen s b :
  Forall is_byte s → s ≠ [] → room dn n outlen b → Z.of_nat (length s) <= outlen →
  ∃ b', print_advance outlen s b = Ok (tt, b') ∧ room (dn ++ s) n (outlen - Z.of_nat (length s)) b'.
Proof.
  intros Hs Hne (Ho & Hp & Hr & Hl & Hw) Hle. unfold print_advance, mbind, M_bind.
  assert (∃ b', snprintf_at outlen s b = Ok (tt, b') ∧ ob_pos b' = ob_pos b ∧ length (ob_mem b') = n) as (b1 & E & Ep & El).
  { unfold snprintf_at. destruct (Z.ltb_spec 0 outlen) as [Hk|Hk]; [|by exists b].
    destruct (put_bytes_inside (take (Z.to_nat (outlen - 1)) s ++ [0]) b) as (b' & -> & Hb'); [done| |].
    { rewrite length_app, length_take. simpl. lia. }
    cbn [mbind res_bind]. eexists. split; [done|]. simpl. split; [done|congruence]. }
  rewrite E. unfold advance. eexists. split; [done|]. split; [lia|]. simpl. split; [lia|]. split; [lia|].
  split; [done|]. rewrite length_app. intros Hlt. destruct Hw as [Heq (Hb & _)]; [lia|].
  split; [lia|]. pose proof Hb as (Hpos & _).
  destruct (snprintf_ok outlen s dn n b Hs Hb) as (b2 & E2 & H2); [lia|lia|].
  rewrite E in E2. injection E2 as <-. by apply H2.
Qed.

(** Cut off: the room is used up, or the piece does not fit. *)
Lemma cut_room dn n outlen outlen' s b :
  room dn n outlen b → outlen < Z.of_nat (length s) → 0 <= outlen' <= outlen → room (dn ++ s) n outlen' b.
Proof.
  intros (Ho & Hp & Hr & Hl & Hw) Hlt Ho'. split; [lia|]. split; [done|]. split; [lia|]. split; [done|].
  rewrite length_app. intros Hn. destruct Hw as [Heq ((Hpos & _) & _)]; [lia|]. lia.
Qed.

(** ** The loops *)

(** What a run that appends [out] answers and leaves. *)
Definition qp_post (dn out : list Z) (n : nat) (r0 r : Z) (b : outbuf) : Prop :=
  r = r0 ∧ length (ob_mem b) = n ∧
  (Z.of_nat (length (dn ++ out)) < Z.of_nat n → wrote0 (dn ++ out) n b).

Lemma room_post dn n outlen b r : room dn n outlen b → qp_post dn [] n r r b.
Proof. intros (Ho & Hp & Hr & Hl & Hw). split; [done|]. split; [done|]. rewrite app_nil_r. intros H. by apply Hw. Qed.

Lemma qp_post_app dn s out n r0 r b : qp_post (dn ++ s) out n r0 r b → qp_post dn (s ++ out) n r0 r b.
Proof. unfold qp_post. by rewrite <- app_assoc. Qed.

Lemma qp_encode_ok input l n fuel : ∀ i rest dn outlen ret b,
  c_string input l → drop i l = rest → (i <= length l)%nat → (length rest < fuel)%nat → room dn n outlen b →
  0 <= ret → ret + Z.of_nat (length (qp rest)) < 2147483648 →
  wp (qp_encode_loop input fuel (Z.of_nat i) outlen ret) b (λ r b',
    qp_post dn (qp rest) n (ret + Z.of_nat (length (qp rest))) r b').
Proof.
  induction fuel as [|fuel IH]; intros i rest dn outlen ret b Hs Hd Hi Hf Hb Hr Hlt; [lia|]. cbn [qp_encode_loop].
  pose proof (length_drop l i) as Hdl. rewrite Hd in Hdl. destruct rest as [|c rest].
  { eapply wp_bind_eq; [unfold lift; by rewrite (c_string_end input l i Hs) by (simpl in Hdl; lia)|].
    rewrite Z.eqb_refl. apply wp_ret. rewrite Z.add_0_r. by eapply room_post. }
  destruct (c_string_rd input l i c rest Hs Hd) as (E & Hc & Hd'). eapply wp_bind_eq; [unfold lift; by rewrite E|].
  rewrite (proj2 (Z.eqb_neq c 0)) by lia. assert (is_byte c) as Hcb by (unfold is_byte; lia).
  destruct (qp_esc_bytes c Hcb) as [Hbytes Hne]. rewrite qp_cons in *. simpl in Hdl, Hf.
  rewrite length_app, Nat2Z.inj_add in *. replace (Z.of_nat i + 1) with (Z.of_nat (S i)) by lia.
  assert (∀ outlen' ret' b', room (dn ++ qp_esc c) n outlen' b' → ret' = ret + Z.of_nat (length (qp_esc c)) →
    wp (qp_encode_loop input fuel (Z.of_nat (S i)) outlen' ret') b' (λ r b'',
      qp_post dn (qp_esc c ++ qp rest) n (ret + (Z.of_nat (length (qp_esc c)) + Z.of_nat (length (qp rest)))) r b'')) as Hgo.
  { intros outlen' ret' b' Hb' ->. eapply wp_mono; [apply (IH (S i) rest); (done || lia)|].
    intros r b'' H. apply qp_post_app. by rewrite <- Z.add_assoc in H. }
  unfold qp_esc in *. destruct (qp_quoted c).
  - change (Z.of_nat (length (qp_hex c))) with 3 in *.
    destruct (Z.leb_spec 3 outlen) as [Hle|Hgt].
    + destruct (print_room dn n outlen (qp_hex c) b) as (b' & Ep & Hb'); [done..|].
      eapply wp_bind_eq; [exact Ep|]. apply Hgo; [done|]. apply s32_small. unfold is_s32. lia.
    + apply Hgo; [|apply s32_small; unfold is_s32; lia]. pose proof Hb as (Ho & _). apply (cut_room dn n outlen 0); [done|done|lia].
  - change (Z.of_nat (length [c])) with 1 in *.
    destruct (Z.leb_spec 1 outlen) as [Hle|Hgt].
    + destruct (print_room dn n outlen [c] b) as (b' & Ep & Hb'); [done..|].
      eapply wp_bind_eq; [exact Ep|]. apply Hgo; [done|]. apply s32_small. unfold is_s32. lia.
    + apply Hgo; [|apply s32_small; unfold is_s32; lia]. pose proof Hb as (Ho & _). apply (cut_room dn n outlen outlen); [done|done|lia].
Qed.

(** The answer of the decoder. *)
Definition unqp_result (ret : Z) (out : list Z * option Z) : Z :=
  match snd out with None => ret + Z.of_nat (length (fst out)) | Some e => e end.

Lemma qp_decode_ok input l n fuel : ∀ i rest dn outlen ret b,
  c_string input l → drop i l = rest → (i <= length l)%nat → (length rest < fuel)%nat → room dn n outlen b →
  0 <= ret → ret + Z.of_nat (length rest) < 2147483648 →
  wp (qp_decode_loop input fuel (Z.of_nat i) outlen ret) b (λ r b',
    qp_post dn (fst (unqp rest)) n (unqp_result ret (unqp rest)) r b').
Proof.
  induction fuel as [|fuel IH]; intros i rest dn outlen ret b Hs Hd Hi Hf Hb Hr Hlt; [lia|]. cbn [qp_decode_loop].
  pose proof (length_drop l i) as Hdl. rewrite Hd in Hdl. destruct rest as [|c rest].
  { eapply wp_bind_eq; [unfold lift; by rewrite (c_string_end input l i Hs) by (simpl in Hdl; lia)|].
    rewrite Z.eqb_refl. apply wp_ret. unfold unqp_result. simpl. rewrite Z.add_0_r. by eapply room_post. }
  destruct (c_string_rd input l i c rest Hs Hd) as (E & Hc & Hd'). cbn zeta. eapply wp_bind_eq; [unfold lift; by rewrite E|].
  rewrite (proj2 (Z.eqb_neq c 0)) by lia. rewrite high_bit by (unfold is_byte; lia). simpl in Hdl, Hf, Hlt.
  cbn [unqp]. destruct (128 <=? c); [apply wp_ret; by eapply room_post|].
  assert (∀ v j rest', is_byte v → drop (S j) l = rest' → (S j <= length l)%nat → (length rest' <= length rest)%nat →
    wp (if 1 <=? outlen then
          _ ← print_advance outlen [v]; qp_decode_loop input fuel (Z.of_nat j + 1) (outlen - 1) (s32 (ret + 1))
        else qp_decode_loop input fuel (Z.of_nat j + 1) outlen (s32 (ret + 1))) b (λ r b',
      let '(out, e) := unqp rest' in qp_post dn (v :: out) n (unqp_result ret (v :: out, e)) r b')) as Hput.
  { intros v j rest' Hv Hdj Hj Hlr. rewrite s32_small by (unfold is_s32; lia).
    replace (Z.of_nat j + 1) with (Z.of_nat (S j)) by lia.
    assert (∀ outlen' b', room (dn ++ [v]) n outlen' b' →
      wp (qp_decode_loop input fuel (Z.of_nat (S j)) outlen' (ret + 1)) b' (λ r b'',
        let '(out, e) := unqp rest' in qp_post dn (v :: out) n (unqp_result ret (v :: out, e)) r b'')) as Hgo.
    { intros outlen' b' Hb'. eapply wp_mono; [apply (IH (S j) rest'); (done || lia)|]. intros r b'' H.
      destruct (unqp rest') as [out e]. apply (qp_post_app dn [v] out). destruct H as (-> & H). split; [|done].
      unfold unqp_result. simpl. destruct e; [done|lia]. }
    destruct (Z.leb_spec 1 outlen) as [Hle|Hgt].
    - destruct (print_room dn n outlen [v] b) as (b' & Ep & Hb'); [by repeat constructor; apply Hv|done|done|done|].
      eapply wp_bind_eq; [exact Ep|]. by apply Hgo.
    - apply Hgo. pose proof Hb as (Ho & _). apply (cut_room dn n outlen outlen); [done|simpl; lia|lia]. }
  destruct (c =? 61).
  2:{ eapply wp_mono; [apply (Hput c i rest); [unfold is_byte; lia|done|lia|lia]|].
      intros r b' H. by destruct (unqp rest). }
  replace (Z.of_nat i + 1) with (Z.of_nat (S i)) by lia. replace (Z.of_nat i + 2) with (Z.of_nat (S (S i))) by lia.
  change (hexchar_to_int 0) with (- EDOM).
  destruct rest as [|h rest].
  { eapply wp_bind_eq; [unfold lift; by rewrite (c_string_end input l (S i) Hs) by (simpl in *; lia)|].
    apply wp_ret. by eapply room_post. }
  destruct (c_string_rd input l (S i) h rest Hs Hd') as (E1 & Hh & Hd1). eapply wp_bind_eq; [unfold lift; by rewrite E1|].
  destruct rest as [|k rest].
  { destruct (hexchar_to_int h <? 0); [apply wp_ret; by eapply room_post|].
    eapply wp_bind_eq; [unfold lift; by rewrite (c_string_end input l (S (S i)) Hs) by (simpl in *; lia)|].
    apply wp_ret. by eapply room_post. }
  destruct (Z.ltb_spec (hexchar_to_int h) 0) as [Hn|H0]; [apply wp_ret; by eapply room_post|].
  destruct (c_string_rd input l (S (S i)) k rest Hs Hd1) as (E2 & Hk & Hd2). eapply wp_bind_eq; [unfold lift; by rewrite E2|].
  destruct (Z.ltb_spec (hexchar_to_int k) 0) as [Hn|H1]; [apply wp_ret; by eapply room_post|].
  rewrite Z.shiftl_mul_pow2 by lia. change (2 ^ 4) with 16. rewrite (Z.mul_comm _ 16).
  pose proof (hexchar_range h). pose proof (hexchar_range k). simpl in Hdl.
  eapply wp_mono; [apply (Hput _ (S (S i)) rest); [unfold is_byte; lia|done|lia|simpl; lia]|].
  intros r b' H'. by destruct (unqp rest).
Qed.
