(* ===== verification/CodecProps.v ===== *)
(** * Properties of the string codecs (src/common)

    Round trips, exact results, bounds on what is written, and error answers of
    armor, UTF-8 checking, attribute escaping and quoted-printable. *)

From S2P Require Import Prelude CrushTypes OutBuf Utf8.
From S2P Require Import Escape Mime.

(** ** Armor *)

(** Armoring any bytes, with any line width and into a destination of any
    capacity, writes the base64 text of the bytes and returns its length when it
    fits, and otherwise returns [-ERANGE] having written exactly the part of the
    text that fits. *)
Lemma ceph_armor_encodes src l mem cap lw :
  holds src l → Forall is_byte l → (cap <= length mem)%nat → Z.of_nat (length (b64 lw 0 l)) < 2147483648 →
  ∃ r b, ceph_armor_line_break (Z.of_nat cap) src (Z.of_nat (length l)) lw (OutBuf mem 0) = Ok (r, b) ∧
    wrote (take cap (b64 lw 0 l)) (length mem) b ∧
    r = if decide (length (b64 lw 0 l) <= cap)%nat then Z.of_nat (length (b64 lw 0 l)) else - ERANGE.
Proof.
  intros Hs Hl Hc Hlt. unfold ceph_armor_line_break. rewrite Nat2Z.id.
  pose proof (armor_loop_ok cap (length mem) Hc src l Hs lw (length l) 0 0 0 [] l (OutBuf mem 0)
    (drop_0 l) (Nat.le_refl _) Hl (wrote_nil mem) ltac:(simpl; lia) ltac:(lia) ltac:(lia)) as H.
  unfold wp in H. apply rwp_ok in H as ([r b] & E & Hw & Hr). exists r, b. split; [exact E|]. split; [exact Hw|].
  rewrite Hr. by rewrite Z.add_0_l.
Qed.

(** Unarmoring arbitrary bytes reads only the input and writes only inside
    the destination; it skips line breaks, answers [-EINVAL] exactly when a
    group is short or holds a foreign character, [-ERANGE] when the decoded bytes
    before that point do not fit, and otherwise the number of decoded bytes,
    which it has written. *)
Lemma ceph_unarmor_decodes src l mem cap :
  holds src l → (cap <= length mem)%nat → Z.of_nat (length l) < 2147483648 →
  ∃ r b, ceph_unarmor (Z.of_nat cap) src (Z.of_nat (length l)) (OutBuf mem 0) = Ok (r, b) ∧
    wrote (take cap (fst (unb64 l))) (length mem) b ∧
    r = if decide (length (fst (unb64 l)) <= cap)%nat then unarmor_result 0 (unb64 l) else - ERANGE.
Proof.
  intros Hs Hc Hlt. unfold ceph_unarmor. rewrite Nat2Z.id.
  pose proof (unarmor_loop_ok cap (length mem) Hc src l Hs (length l) 0 0 [] l (OutBuf mem 0)
    (drop_0 l) (Nat.le_refl _) (wrote_nil mem) ltac:(simpl; lia) ltac:(lia) ltac:(lia)) as H.
  unfold wp in H. apply rwp_ok in H as ([r b] & E & Hw & Hr). exists r, b. done.
Qed.

(** The length of the text without line breaks. *)
Lemma length_b64 l : ∀ line, Z.of_nat (length (b64 0 line l)) = 4 * ((Z.of_nat (length l) + 2) / 3).
Proof.
  induction l as [|a|a b|a b c l IH] using list_ind3; intros line; try done.
  cbn [b64 app break_of break_due negb andb]. change (break_of 0 line) with (@nil Z). cbn [app length].
  rewrite !Nat2Z.inj_succ, IH. Z.to_euclidean_division_equations. lia.
Qed.

(** C34: What [ceph_armor] writes, [ceph_unarmor] turns back into the original
    bytes, into a destination with exactly their number of cells; the armored
    text has four characters for every three bytes or part of them. *)
Theorem ceph_armor_roundtrip src l mem mem' :
  holds src l → Forall is_byte l → Z.of_nat (length l) < 1073741824 →
  4 * ((Z.of_nat (length l) + 2) / 3) <= Z.of_nat (length mem) → length mem' = length l →
  ∃ r b b', ceph_armor (Z.of_nat (length mem)) src (Z.of_nat (length l)) (OutBuf mem 0) = Ok (r, b) ∧
    r = 4 * ((Z.of_nat (length l) + 2) / 3) ∧
    ceph_unarmor (Z.of_nat (length l)) (ob_mem b) r (OutBuf mem' 0) = Ok (Z.of_nat (length l), b') ∧
    ob_mem b' = cells l.
Proof.
  intros Hs Hl Hlt Hroom Hm'. set (t := b64 0 0 l).
  assert (Z.of_nat (length t) = 4 * ((Z.of_nat (length l) + 2) / 3)) as Ht by apply length_b64.
  assert (Z.of_nat (length t) < 2147483648) as Ht' by (rewrite Ht; Z.to_euclidean_division_equations; lia).
  pose proof (armor_loop_ok (length mem) (length mem) (Nat.le_refl _) src l Hs 0 (length l) 0 0 0 [] l (OutBuf mem 0)
    (drop_0 l) (Nat.le_refl _) Hl (wrote_nil mem) ltac:(simpl; lia) ltac:(lia) ltac:(fold t; lia)) as H.
  unfold wp in H. apply rwp_ok in H as ([r b] & E & Hw & Hr). fold t in Hw, Hr.
  rewrite decide_True in Hr by (simpl; lia). rewrite Z.add_0_l in Hr. subst r.
  cbn [app] in Hw. rewrite firstn_all2 in Hw by lia. destruct Hw as (_ & Hh & _).
  pose proof (unarmor_loop_ok (length l) (length mem') ltac:(lia) (ob_mem b) t Hh (length t) 0 0 [] t (OutBuf mem' 0)
    (drop_0 t) (Nat.le_refl _) (wrote_nil mem') ltac:(simpl; lia) ltac:(lia) ltac:(lia)) as H.
  unfold wp in H. apply rwp_ok in H as ([r b'] & E' & Hw & Hr). unfold t in Hw, Hr. rewrite unb64_b64 in Hw, Hr by done.
  cbn [fst app] in Hw. unfold unarmor_result in Hr. cbn [fst snd] in Hr. rewrite decide_True, Z.add_0_l in Hr by (simpl; lia).
  rewrite firstn_all2 in Hw by lia. destruct Hw as (_ & Hh' & Hl'). subst r.
  exists (Z.of_nat (length t)), b, b'. split; [unfold ceph_armor, ceph_armor_line_break; by rewrite Nat2Z.id|].
  split; [done|]. split; [unfold ceph_unarmor; by rewrite Nat2Z.id|].
  destruct Hh' as [rest Er]. apply (f_equal length) in Er as Elen. rewrite length_app, length_cells in Elen.
  destruct rest; [by rewrite app_nil_r in Er|simpl in Elen; lia].
Qed.

(** ** UTF-8 *)

(** [check_utf8] answers zero exactly for the buffers that are sequences of
    encodings, of the least length, of code points below 2^31 that are neither
    surrogates nor 0xFFFE and 0xFFFF; otherwise it answers one plus a position
    of the buffer or its end.  It needs one readable byte after the buffer. *)
Theorem check_utf8_exact bits buf l term :
  32 <= bits → holds buf (l ++ [term]) → Forall is_byte l →
  ∃ r, check_utf8 bits buf (Z.of_nat (length l)) = Ok r ∧ (r = 0 ↔ valid_utf8 l) ∧
       0 <= r <= Z.of_nat (length l) + 1.
Proof.
  intros Hb Hbuf Hl. unfold check_utf8. rewrite Nat2Z.id.
  apply (check_loop_ok bits Hb buf l term Hbuf Hl (S (length l)) 0 (fresh_block MAX_UTF8_SZ) [] l);
    [apply drop_0|lia|done|apply holds_nil|by left|lia].
Qed.

(** Without a byte after the buffer the check reads past its end. *)
Lemma check_utf8_overruns bits l :
  Forall (λ c, 0 <= c < 128) l → check_utf8 bits (cells l) (Z.of_nat (length l)) = Fault OutOfBounds.
Proof.
  intros Hl. unfold check_utf8. rewrite Nat2Z.id.
  cut (∀ n i u, (i + n = length l)%nat → check_loop bits (cells l) (Z.of_nat (length l)) (S n) (Z.of_nat i) u 0 = Fault OutOfBounds).
  { intros H. apply (H (length l) 0%nat). lia. }
  induction n as [|n IH]; intros i u Hi.
  - cbn [check_loop]. unfold rd, rdc. rewrite (proj2 (Z.ltb_ge _ 0)) by lia. rewrite Nat2Z.id.
    rewrite (lookup_ge_None_2 (cells l)) by (rewrite length_cells; lia). done.
  - change (check_loop bits (cells l) (Z.of_nat (length l)) (S (S n)) (Z.of_nat i) u 0)
      with (b ← rd (cells l) (Z.of_nat i);
            let c := uint_of_char b in
            if (Z.of_nat i >=? Z.of_nat (length l)) || (c <? 128) || negb (Z.land c 192 =? 128) then
              ok ← flush_ok bits u 0;
              if negb ok then Ok (Z.of_nat i + 1) else
              if Z.of_nat i >=? Z.of_nat (length l) then Ok 0 else
              if c >=? 128 then u ← wr u 0 (u8 c); check_loop bits (cells l) (Z.of_nat (length l)) (S n) (Z.of_nat i + 1) u 1
              else check_loop bits (cells l) (Z.of_nat (length l)) (S n) (Z.of_nat i + 1) u 0
            else if 0 =? MAX_UTF8_SZ then Ok (Z.of_nat i + 1)
            else u ← wr u 0 (u8 c); check_loop bits (cells l) (Z.of_nat (length l)) (S n) (Z.of_nat i + 1) u (0 + 1)).
    destruct (lookup_lt_is_Some_2 l i) as [c Hc]; [lia|]. rewrite (rd_at _ l i c (holds_cells l) Hc). cbn [mbind res_bind].
    rewrite Forall_lookup in Hl. specialize (Hl _ _ Hc). simpl in Hl.
    destruct (byte_facts c) as (_ & _ & E3 & E4 & _); [unfold is_byte; lia|]. cbn zeta. rewrite E3, E4.
    rewrite (proj2 (Z.ltb_lt c 128)), orb_true_r by lia. cbn [orb]. rewrite flush_empty. cbn [mbind res_bind negb].
    assert ((Z.of_nat i >=? Z.of_nat (length l)) = false) as -> by lia. rewrite (proj2 (Z.leb_gt 128 c)) by lia.
    replace (Z.of_nat i + 1) with (Z.of_nat (S i)) by lia. apply IH. lia.
Qed.

(** Encoding a legal code point and decoding the bytes gives it back, for
    code points of up to 31 bits; the encoding has one to six bytes. *)
Theorem utf8_roundtrip bits c buf :
  32 <= bits → valid_code c → (6 <= length buf)%nat →
  ∃ n buf', encode_utf8 bits c buf = Ok (n, buf') ∧ 1 <= n <= 6 ∧ decode_utf8 bits buf' n = Ok c.
Proof.
  intros Hb Hc Hl. destruct (encode_utf8_ok bits Hb c buf (proj1 Hc) Hl) as (buf' & E & Hh & _).
  exists (Z.of_nat (length (utf8 c))), buf'. split; [done|]. split; [|by apply decode_utf8_ok].
  destruct (utf8_shape c Hc) as (x & ys & -> & _ & _ & _ & H5 & _). simpl. lia.
Qed.

(** ** Escaping *)

(** [escape_xml_attr_len] returns the size of the output of
    [escape_xml_attr] with its null; into a block of exactly that size the writer
    writes the whole escaped text and the null, and nothing outside. *)
Lemma escape_xml_fits buf l mem :
  c_string buf l → Z.of_nat (length (escaped xml_esc l)) < 2147483647 →
  ∃ size b, escape_xml_attr_len buf = Ok size ∧ size = Z.of_nat (length (escaped xml_esc l)) + 1 ∧
    (Z.of_nat (length mem) = size →
     escape_xml_attr buf (OutBuf mem 0) = Ok (tt, b) ∧ ob_mem b = cells (escaped xml_esc l ++ [0])).
Proof.
  intros Hs Hlt. pose proof (c_string_room buf l Hs) as Hroom. set (t := escaped xml_esc l) in *.
  pose proof (xml_len_loop_ok buf l (S (length buf)) 0 l 0 Hs (drop_0 l) ltac:(lia) ltac:(lia) ltac:(lia) ltac:(fold t; lia)) as El.
  fold t in El. destruct (decide (Z.of_nat (length mem) = Z.of_nat (length t) + 1)) as [Em|Em].
  - destruct (xml_loop_ok buf l (S (length buf)) 0 l [] (length mem) (OutBuf mem 0) Hs (drop_0 l) ltac:(lia) ltac:(lia)
      (wrote_nil mem)) as (b & E & (_ & [r Hr] & Hl)); [fold t; simpl; lia|]. fold t in Hr, E.
    exists (Z.of_nat (length t) + 1), b. split; [exact El|]. split; [done|]. intros _. split; [exact E|].
    cbn [app] in Hr. apply (f_equal length) in Hr as Hlen. rewrite length_app, length_cells, length_app in Hlen. simpl in Hlen.
    destruct r; [by rewrite app_nil_r in Hr|simpl in Hlen; lia].
  - exists (Z.of_nat (length t) + 1), (OutBuf [] 0). split; [exact El|]. split; [done|lia].
Qed.

(** The XML escape can be read back: the entities determine the original
    text, and no quote, angle bracket or raw control character other than tab
    and newline is left in the output. *)
Lemma escape_xml_readable l :
  Forall is_byte l →
  read_all xml_read (length l) (escaped xml_esc l) = l ∧ Forall xml_safe (escaped xml_esc l).
Proof.
  intros Hl. split; [apply read_all_escaped; [done|apply xml_read_esc|done|lia]|].
  unfold escaped. induction Hl as [|c l Hc Hl IH]; [constructor|]. simpl. apply Forall_app. split; [by apply xml_esc_safe|done].
Qed.

(** The escaper for XML attributes fits its length function: in a block of
    the size that [escape_xml_attr_len] answers the writer fills every cell,
    ending in the null; the original text can be read back from the output, and
    no quote, angle bracket or raw control character other than tab and newline
    is left in it. *)
Theorem escape_xml_exact buf l mem :
  c_string buf l → Z.of_nat (length (escaped xml_esc l)) < 2147483647 →
  Z.of_nat (length mem) = Z.of_nat (length (escaped xml_esc l)) + 1 →
  escape_xml_attr_len buf = Ok (Z.of_nat (length mem)) ∧
  (∃ b, escape_xml_attr buf (OutBuf mem 0) = Ok (tt, b) ∧ ob_mem b = cells (escaped xml_esc l ++ [0])) ∧
  read_all xml_read (length l) (escaped xml_esc l) = l ∧ Forall xml_safe (escaped xml_esc l).
Proof.
  intros Hs Hlt Hm. destruct (escape_xml_fits buf l mem Hs Hlt) as (size & b & El & Es & H).
  rewrite Hm, <- Es. split; [done|]. split; [exists b; apply H; lia|].
  apply escape_xml_readable. destruct Hs as [_ Hl]. eapply Forall_impl; [exact Hl|]. unfold is_byte. simpl. lia.
Qed.

(** The same for JSON: in a block of the size that [escape_json_attr_len]
    answers the writer fills every cell, ending in the null, and the original
    bytes can be read back from the output. *)
Theorem escape_json_exact buf l mem :
  holds buf l → Forall is_byte l → Z.of_nat (length (escaped json_esc l)) < 2147483647 →
  Z.of_nat (length mem) = Z.of_nat (length (escaped json_esc l)) + 1 →
  escape_json_attr_len buf (Z.of_nat (length l)) = Ok (Z.of_nat (length mem)) ∧
  (∃ b, escape_json_attr buf (Z.of_nat (length l)) (OutBuf mem 0) = Ok (tt, b) ∧
        ob_mem b = cells (escaped json_esc l ++ [0])) ∧
  read_all json_read (length l) (escaped json_esc l) = l.
Proof.
  intros Hs Hl Hlt Hm. set (t := escaped json_esc l) in *. unfold escape_json_attr_len, escape_json_attr. rewrite Nat2Z.id.
  split; [rewrite Hm; exact (json_len_loop_ok buf l l 0 0 Hs (drop_0 l) ltac:(lia) ltac:(fold t; lia))|]. split.
  - destruct (json_loop_ok buf l l 0 [] (length mem) (OutBuf mem 0) Hs (drop_0 l) Hl (wrote_nil mem)) as (b & E & (_ & [r Hr] & _));
      [fold t; simpl; lia|]. exists b. split; [exact E|]. fold t in Hr. cbn [app] in Hr.
    apply (f_equal length) in Hr as Hlen. pose proof E as E'. clear E'.
    assert (length (ob_mem b) = length mem) as Hbm.
    { destruct (json_loop_ok buf l l 0 [] (length mem) (OutBuf mem 0) Hs (drop_0 l) Hl (wrote_nil mem)) as (b2 & E2 & (_ & _ & H2));
        [fold t; simpl; lia|]. rewrite E in E2. by injection E2 as <-. }
    rewrite length_app, length_cells, length_app in Hlen. simpl in Hlen.
    destruct r; [by rewrite app_nil_r in Hr|simpl in Hlen; lia].
  - apply read_all_escaped; [done|apply json_read_esc|done|lia].
Qed.

(** ** Quoted-printable *)

Lemma room_start (mem : list (option Z)) : room [] (length mem) (Z.of_nat (length mem)) (OutBuf mem 0).
Proof.
  split; [lia|]. split; [simpl; lia|]. split; [simpl; lia|]. split; [done|]. intros _.
  split; [done|]. split; [apply wrote_nil|by left].
Qed.

(** The encoder answers the size of the whole encoding with its null,
    whatever room it is given, and never writes outside; when the room suffices
    and the text is not empty, the block holds the encoding and a null. *)
Lemma mime_encode_exact input l mem :
  c_string input l → 1 + Z.of_nat (length (qp l)) < 2147483648 →
  ∃ b, mime_encode_as_qp input (Z.of_nat (length mem)) (OutBuf mem 0) = Ok (1 + Z.of_nat (length (qp l)), b) ∧
    length (ob_mem b) = length mem ∧
    (l ≠ [] → (length (qp l) < length mem)%nat → holds (ob_mem b) (qp l ++ [0])).
Proof.
  intros Hs Hlt. pose proof (c_string_room input l Hs) as Hroom.
  pose proof (qp_encode_ok input l (length mem) (S (length input)) 0 l [] (Z.of_nat (length mem)) 1 (OutBuf mem 0) Hs (drop_0 l)
    ltac:(lia) ltac:(lia) (room_start mem) ltac:(lia) ltac:(lia)) as H.
  unfold wp in H. apply rwp_ok in H as ([r b] & E & -> & Hl & Hw). exists b. split; [exact E|]. split; [done|].
  intros Hne Hfit. destruct Hw as (_ & [H|H]); [simpl; lia| |done].
  exfalso. cbn [app] in H. destruct l as [|c l]; [done|]. rewrite qp_cons in H.
  destruct Hs as [_ Hs]. apply Forall_cons in Hs as [Hc _].
  destruct (qp_esc_bytes c) as [_ Hn]; [unfold is_byte; lia|]. by destruct (qp_esc c).
Qed.

(** The decoder accepts exactly the texts that [unqp] accepts, answers
    [-EDOM] at a byte above 127 and [-EINVAL] at a broken escape, never writes
    outside, and turns the encoding of a string back into the string. *)
Lemma mime_decodes_qp input l mem :
  c_string input (qp l) → Forall (λ c, 0 < c < 256) l → l ≠ [] →
  1 + Z.of_nat (length (qp l)) < 2147483648 → (length l < length mem)%nat →
  ∃ b, mime_decode_from_qp input (Z.of_nat (length mem)) (OutBuf mem 0) = Ok (1 + Z.of_nat (length l), b) ∧
       holds (ob_mem b) (l ++ [0]).
Proof.
  intros Hs Hl Hne Hlt Hfit. pose proof (c_string_room input _ Hs) as Hroom.
  pose proof (qp_decode_ok input (qp l) (length mem) (S (length input)) 0 (qp l) [] (Z.of_nat (length mem)) 1 (OutBuf mem 0) Hs
    (drop_0 _) ltac:(lia) ltac:(lia) (room_start mem) ltac:(lia) ltac:(lia)) as H.
  unfold wp in H. apply rwp_ok in H as ([r b] & E & Er & Hlb & Hw). rewrite unqp_qp in * by done. cbn [fst snd] in *.
  exists b. split; [rewrite Er in E; exact E|]. destruct Hw as (_ & [H|H]); [simpl; lia|by destruct Hne|done].
Qed.

(** Decoding any null-terminated input stays inside the input and the
    destination, and its answer is that of the pure decoder: a size, [-EDOM] or
    [-EINVAL], the same for every size of the destination. *)
Lemma mime_decode_total input l mem :
  c_string input l → 1 + Z.of_nat (length l) < 2147483648 →
  ∃ b, mime_decode_from_qp input (Z.of_nat (length mem)) (OutBuf mem 0) = Ok (unqp_result 1 (unqp l), b) ∧
       length (ob_mem b) = length mem.
Proof.
  intros Hs Hlt. pose proof (c_string_room input _ Hs) as Hroom.
  pose proof (qp_decode_ok input l (length mem) (S (length input)) 0 l [] (Z.of_nat (length mem)) 1 (OutBuf mem 0) Hs
    (drop_0 _) ltac:(lia) ltac:(lia) (room_start mem) ltac:(lia) ltac:(lia)) as H.
  unfold wp in H. apply rwp_ok in H as ([r b] & E & -> & Hlb & _). by exists b.
Qed.

(** Encoding a non-empty string as quoted-printable and decoding the output
    gives the string back; both functions answer the size that the whole result
    needs, and both write only inside their destinations. *)
Theorem mime_roundtrip input l mem mem' :
  c_string input l → l ≠ [] → 1 + Z.of_nat (length (qp l)) < 2147483648 →
  (length (qp l) < length mem)%nat → (length l < length mem')%nat →
  ∃ b b', mime_encode_as_qp input (Z.of_nat (length mem)) (OutBuf mem 0) = Ok (1 + Z.of_nat (length (qp l)), b) ∧
    mime_decode_from_qp (ob_mem b) (Z.of_nat (length mem')) (OutBuf mem' 0) = Ok (1 + Z.of_nat (length l), b') ∧
    length (ob_mem b) = length mem ∧ holds (ob_mem b') (l ++ [0]).
Proof.
  intros Hs Hne Hlt Hm Hm'. destruct (mime_encode_exact input l mem Hs Hlt) as (b & E & Hl & Hw).
  destruct Hs as [_ Hc]. specialize (Hw Hne Hm).
  destruct (mime_decodes_qp (ob_mem b) l mem') as (b' & E' & Hw'); [|done..|by exists b, b'].
  split; [done|]. by apply qp_nonzero.
Qed.

(** ** Instances *)

Lemma ceph_armor_roundtrip_witness :
  ∃ r b b', ceph_armor 8 (cells [99; 101; 112; 104]) 4 (OutBuf (fresh_block 8) 0) = Ok (r, b) ∧ r = 8 ∧
    ceph_unarmor 4 (ob_mem b) r (OutBuf (fresh_block 4) 0) = Ok (4, b') ∧ ob_mem b' = cells [99; 101; 112; 104].
Proof.
  apply (ceph_armor_roundtrip _ [99; 101; 112; 104] (fresh_block 8) (fresh_block 4));
    [apply holds_cells|repeat constructor; unfold is_byte; lia|reflexivity|vm_compute; congruence|reflexivity].
Defined.

Lemma check_utf8_exact_witness :
  ∃ r, check_utf8 64 (cells [195; 169; 0]) 2 = Ok r ∧ (r = 0 ↔ valid_utf8 [195; 169]) ∧ 0 <= r <= 3.
Proof.
  apply (check_utf8_exact 64 (cells [195; 169; 0]) [195; 169] 0);
    [lia|apply holds_cells|repeat constructor; unfold is_byte; lia].
Defined.

Lemma utf8_roundtrip_witness :
  ∃ n buf', encode_utf8 64 8364 (fresh_block 6) = Ok (n, buf') ∧ 1 <= n <= 6 ∧ decode_utf8 64 buf' n = Ok 8364.
Proof. apply (utf8_roundtrip 64 8364 (fresh_block 6)); [lia|unfold valid_code, legal; lia|simpl; lia]. Defined.

(** The text of the letter a, an angle bracket and a double quote. *)
Lemma escape_xml_exact_witness :
  escape_xml_attr_len (cells [97; 60; 34; 0]) = Ok 12 ∧
  (∃ b, escape_xml_attr (cells [97; 60; 34; 0]) (OutBuf (fresh_block 12) 0) = Ok (tt, b) ∧
        ob_mem b = cells (escaped xml_esc [97; 60; 34] ++ [0])) ∧
  read_all xml_read 3 (escaped xml_esc [97; 60; 34]) = [97; 60; 34] ∧ Forall xml_safe (escaped xml_esc [97; 60; 34]).
Proof.
  apply (escape_xml_exact _ [97; 60; 34] (fresh_block 12)); [|reflexivity..].
  split; [apply holds_cells|repeat constructor; lia].
Defined.

Lemma escape_json_exact_witness :
  escape_json_attr_len (cells [97; 10; 34]) 3 = Ok 6 ∧
  (∃ b, escape_json_attr (cells [97; 10; 34]) 3 (OutBuf (fresh_block 6) 0) = Ok (tt, b) ∧
        ob_mem b = cells (escaped json_esc [97; 10; 34] ++ [0])) ∧
  read_all json_read 3 (escaped json_esc [97; 10; 34]) = [97; 10; 34].
Proof.
  apply (escape_json_exact _ [97; 10; 34] (fresh_block 6));
    [apply holds_cells|repeat constructor; unfold is_byte; lia|reflexivity..].
Defined.

Lemma mime_roundtrip_witness :
  ∃ b b', mime_encode_as_qp (cells [97; 61; 0]) 5 (OutBuf (fresh_block 5) 0) = Ok (5, b) ∧
    mime_decode_from_qp (ob_mem b) 3 (OutBuf (fresh_block 3) 0) = Ok (3, b') ∧
    length (ob_mem b) = 5%nat ∧ holds (ob_mem b') ([97; 61] ++ [0]).
Proof.
  apply (mime_roundtrip (cells [97; 61; 0]) [97; 61] (fresh_block 5) (fresh_block 3));
    [split; [apply holds_cells|repeat constructor; lia]|done|reflexivity|simpl; lia|simpl; lia].
Defined.
