(* ===== verification/StrHash.v ===== *)
(** * String hashes (src/common/ceph_hash.cc)

    The two hashes that turn an object name into a position in its pool.  [bits]
    is the width of [unsigned long].  A string is a block of bytes and a length;
    no null is needed.  The reference definitions of the end of the file work on
    the list of the bytes. *)

From stdpp Require Import strings.
From S2P Require Import Prelude Hash OutBuf.

Definition CEPH_STR_HASH_LINUX : Z := 1.
Definition CEPH_STR_HASH_RJENKINS : Z := 2.

(** The macro [mix]. *)
Definition mix (m : mixed) : mixed := mixround 3 10 15 (mixround 12 16 5 (mixround 13 8 13 m)).

(** [k[0] + ((__u32)k[1] << 8) + ((__u32)k[2] << 16) + ((__u32)k[3] << 24)] *)
Definition le_word (str : list (option Z)) (k : Z) : res Z :=
  k0 ← rd str k; k1 ← rd str (k + 1); k2 ← rd str (k + 2); k3 ← rd str (k + 3);
  Ok (u32 (u32 (u32 (k0 + u32 (Z.shiftl k1 8)) + u32 (Z.shiftl k2 16)) + u32 (Z.shiftl k3 24))).

(** [while (len >= 12) ...]; [k] is the offset of the pointer. *)
Fixpoint rjenkins_blocks (str : list (option Z)) (fuel : nat) (k len : Z) (m : mixed) : res (Z * Z * mixed) :=
  if 12 <=? len then
    match fuel with
    | O => Fault Diverge
    | S fuel =>
        w0 ← le_word str k; w1 ← le_word str (k + 4); w2 ← le_word str (k + 8);
        let '(Mixed a b c) := m in
        rjenkins_blocks str fuel (k + 12) (u32 (len - 12)) (mix (Mixed (u32 (a + w0)) (u32 (b + w1)) (u32 (c + w2))))
    end
  else Ok (k, len, m).

(** One [case] of the fall-through: it runs when [len] is at least its label. *)
Definition tail_byte (str : list (option Z)) (k len i sh : Z) (v : Z) : res Z :=
  if i <? len then b ← rd str (k + i); Ok (u32 (v + u32 (Z.shiftl b sh))) else Ok v.

Definition rjenkins_tail (str : list (option Z)) (k len : Z) (m : mixed) : res mixed :=
  let '(Mixed a b c) := m in
  c ← tail_byte str k len 10 24 c;
  c ← tail_byte str k len 9 16 c;
  c ← tail_byte str k len 8 8 c;
  b ← tail_byte str k len 7 24 b;
  b ← tail_byte str k len 6 16 b;
  b ← tail_byte str k len 5 8 b;
  b ← tail_byte str k len 4 0 b;
  a ← tail_byte str k len 3 24 a;
  a ← tail_byte str k len 2 16 a;
  a ← tail_byte str k len 1 8 a;
  a ← tail_byte str k len 0 0 a;
  Ok (Mixed a b c).

Definition ceph_str_hash_rjenkins (str : list (option Z)) (length : Z) : res Z :=
  let a := 2654435769 in
  '(k, len, m) ← rjenkins_blocks str (Z.to_nat length) 0 length (Mixed a a 0);
  let '(Mixed a b c) := m in
  m ← rjenkins_tail str k len (Mixed a b (u32 (c + length)));
  Ok (mx_c (mix m)).

Section str_hash.
Context (bits : Z).

(** [while (length--) { c = *str++; hash = (hash + (c << 4) + (c >> 4)) * 11; }] *)
Fixpoint linux_loop (str : list (option Z)) (n : nat) (k hash : Z) : res Z :=
  match n with
  | O => Ok hash
  | S n =>
      c ← rd str k;
      linux_loop str n (k + 1) (((hash + Z.shiftl c 4 + Z.shiftr c 4) * 11) mod 2 ^ bits)
  end.

Definition ceph_str_hash_linux (str : list (option Z)) (length : Z) : res Z :=
  hash ← linux_loop str (Z.to_nat length) 0 0; Ok (u32 hash).

Definition ceph_str_hash (type : Z) (s : list (option Z)) (len : Z) : res Z :=
  if type =? CEPH_STR_HASH_LINUX then ceph_str_hash_linux s len
  else if type =? CEPH_STR_HASH_RJENKINS then ceph_str_hash_rjenkins s len
  else Ok (u32 (-1)).
End str_hash.

Definition ceph_str_hash_name (type : Z) : string :=
  if type =? CEPH_STR_HASH_LINUX then "linux"
  else if type =? CEPH_STR_HASH_RJENKINS then "rjenkins"
  else "unknown".

(** ** Reference definitions *)

(** The value of up to four bytes, the least significant first. *)
Fixpoint le (l : list Z) : Z := match l with [] => 0 | b :: l => b + 256 * le l end.

Definition add_block (m : mixed) (w0 w1 w2 : Z) : mixed :=
  Mixed (u32 (mx_a m + w0)) (u32 (mx_b m + w1)) (u32 (mx_c m + w2)).

(** Whole blocks of twelve bytes are mixed in; of the rest, the first eight
    bytes are added to [a] and [b], the others to the high bytes of [c], whose
    low byte takes the length. *)
Fixpoint jenkins (fuel : nat) (len : Z) (m : mixed) (l : list Z) : Z :=
  match fuel with
  | S fuel =>
      if (12 <=? length l)%nat then
        jenkins fuel len (mix (add_block m (le (take 4 l)) (le (take 4 (drop 4 l))) (le (take 4 (drop 8 l))))) (drop 12 l)
      else mx_c (mix (add_block m (le (take 4 l)) (le (take 4 (drop 4 l))) (len + 256 * le (drop 8 l))))
  | O => 0
  end.

(** [hash * 11] and two nibbles of the byte added, at infinite width. *)
Definition linux_poly (l : list Z) : Z := foldl (λ h c, (h + c * 16 + c / 16) * 11) 0 l.

Definition str_hash (type : Z) (l : list Z) : Z :=
  if type =? CEPH_STR_HASH_LINUX then u32 (linux_poly l)
  else if type =? CEPH_STR_HASH_RJENKINS then
    jenkins (S (length l)) (Z.of_nat (length l)) (Mixed 2654435769 2654435769 0) l
  else 4294967295.

(** ** The code computes the references *)

Lemma linux_loop_ok bits str l n : ∀ i rest h h',
  0 <= bits → holds str l → drop i l = rest → n = length rest → h = h' mod 2 ^ bits →
  linux_loop bits str n (Z.of_nat i) h = Ok (foldl (λ h c, (h + c * 16 + c / 16) * 11) h' rest mod 2 ^ bits).
Proof.
  induction n as [|n IH]; intros i rest h h' Hb Hh Hd Hn ->.
  - by destruct rest.
  - destruct rest as [|c rest]; [done|]. cbn [linux_loop]. apply (f_equal Init.Nat.pred) in Hn as Hn'. simpl in Hn'.
    assert (l !! i = Some c) as Hc by (rewrite <- (Nat.add_0_r i), <- lookup_drop, Hd; done).
    rewrite (rd_at str l i c Hh Hc). cbn [mbind res_bind].
    replace (Z.of_nat i + 1) with (Z.of_nat (S i)) by lia.
    cbn [foldl]. apply (IH (S i) rest); [done|done|rewrite (drop_S _ _ _ Hc) in Hd; by injection Hd|done|].
    pose proof (Z.pow_pos_nonneg 2 bits ltac:(lia) Hb) as Hp.
    rewrite Z.shiftl_mul_pow2, Z.shiftr_div_pow2 by lia. change (2 ^ 4) with 16.
    rewrite <- (Z.mul_mod_idemp_l (h' mod _ + _ + _)), <- (Z.add_assoc (h' mod _)), Z.add_mod_idemp_l by lia.
    rewrite Z.mul_mod_idemp_l by lia. f_equal. lia.
Qed.

Lemma ceph_str_hash_linux_ok bits str l :
  32 <= bits → holds str l → ceph_str_hash_linux bits str (Z.of_nat (length l)) = Ok (u32 (linux_poly l)).
Proof.
  intros Hb Hh. unfold ceph_str_hash_linux. rewrite Nat2Z.id.
  pose proof (linux_loop_ok bits str l (length l) 0 l 0 0 ltac:(lia) Hh eq_refl eq_refl eq_refl) as E.
  change (Z.of_nat 0) with 0 in E. rewrite E.
  cbn [mbind res_bind]. f_equal. apply Z.mod_mod_divide.
  exists (2 ^ (bits - 32)). change 4294967296 with (2 ^ 32). rewrite <- Z.pow_add_r by lia. f_equal. lia.
Qed.

Lemma u32_sum3 v x y z : u32 (u32 (u32 (v + x) + y) + z) = u32 (v + (x + y + z)).
Proof. rewrite u32_add_l, <- Z.add_assoc, u32_add_l. f_equal. lia. Qed.
Lemma u32_sum4 v w x y z : u32 (u32 (u32 (u32 (v + w) + x) + y) + z) = u32 (v + (w + x + y + z)).
Proof. rewrite u32_sum3, u32_add_l. f_equal. lia. Qed.

Lemma mix_u32 m : mixed_u32 m → mixed_u32 (mix m).
Proof. intros (Ha & Hb & Hc). destruct m as [a b c]. apply crush_hashmix_u32. exact Hc. Qed.

Section rjenkins.
Context (str : list (option Z)) (l : list Z) (Hstr : holds str l) (Hl : Forall is_byte l).

Lemma rd_rest k rest i :
  drop k l = rest → 0 <= i < Z.of_nat (length rest) →
  rd str (Z.of_nat k + i) = Ok (nth (Z.to_nat i) rest 0) ∧ is_byte (nth (Z.to_nat i) rest 0).
Proof.
  intros <- Hi. rewrite length_drop in Hi.
  destruct (lookup_lt_is_Some_2 l (k + Z.to_nat i)) as [v Hv]; [lia|].
  assert (nth (Z.to_nat i) (drop k l) 0 = v) as ->.
  { rewrite <- lookup_drop in Hv. by apply nth_lookup_Some. }
  split; [|rewrite Forall_lookup in Hl; by apply (Hl _ _ Hv)].
  eapply rd_holds; [done|lia|]. by replace (Z.to_nat (Z.of_nat k + i)) with (k + Z.to_nat i)%nat by lia.
Qed.

Lemma le_take4 (r : list Z) : le (take 4 r) = nth 0 r 0 + 256 * nth 1 r 0 + 65536 * nth 2 r 0 + 16777216 * nth 3 r 0.
Proof. destruct r as [|a [|b [|c [|d r]]]]; simpl; lia. Qed.

Lemma le_word_ok k rest i :
  drop k l = rest → 0 <= i → i + 4 <= Z.of_nat (length rest) →
  le_word str (Z.of_nat k + i) = Ok (le (take 4 (drop (Z.to_nat i) rest))).
Proof.
  intros Hd Hi Hn. unfold le_word. rewrite <- !Z.add_assoc, le_take4, !nth_skipn.
  destruct (rd_rest k rest i Hd) as [-> H0]; [lia|]. destruct (rd_rest k rest (i + 1) Hd) as [-> H1]; [lia|].
  destruct (rd_rest k rest (i + 2) Hd) as [-> H2]; [lia|]. destruct (rd_rest k rest (i + 3) Hd) as [-> H3]; [lia|].
  cbn [mbind res_bind]. f_equal. rewrite !Z2Nat.inj_add in * by lia. rewrite Nat.add_0_r.
  change (Z.to_nat 1) with 1%nat in *. change (Z.to_nat 2) with 2%nat in *. change (Z.to_nat 3) with 3%nat in *.
  unfold is_byte in *. rewrite !Z.shiftl_mul_pow2 by lia. 
  change (2 ^ 8) with 256. change (2 ^ 16) with 65536. change (2 ^ 24) with 16777216.
  rewrite !u32_add_r, (u32_small (_ + _ * 256)) by (unfold is_u32; lia).
  rewrite (u32_small (_ + _ * 65536)), u32_small by (unfold is_u32; lia). lia.
Qed.

Lemma rjenkins_blocks_ok len fuel : ∀ k rest m,
  drop k l = rest → (length rest <= fuel)%nat → Z.of_nat (length rest) < 4294967296 → mixed_u32 m →
  ∃ k' rest' m', rjenkins_blocks str fuel (Z.of_nat k) (Z.of_nat (length rest)) m
                   = Ok (Z.of_nat k', Z.of_nat (length rest'), m') ∧
    drop k' l = rest' ∧ (length rest' < 12)%nat ∧ mixed_u32 m' ∧
    jenkins (S fuel) len m rest =
      mx_c (mix (add_block m' (le (take 4 rest')) (le (take 4 (drop 4 rest'))) (len + 256 * le (drop 8 rest')))).
Proof.
  induction fuel as [|fuel IH]; intros k rest m Hd Hf Hlt Hm;
    destruct (Z.leb_spec 12 (Z.of_nat (length rest))) as [H12|H12]; try lia.
  - exists k, rest, m. cbn [rjenkins_blocks jenkins]. rewrite (proj2 (Z.leb_gt _ _)) by lia.
    rewrite (proj2 (Nat.leb_gt 12 _)) by lia. repeat split; try done; try apply Hm; lia.
  - cbn [rjenkins_blocks]. rewrite (proj2 (Z.leb_le 12 _)) by lia.
    pose proof (le_word_ok k rest 0 Hd ltac:(lia) ltac:(lia)) as E. rewrite Z.add_0_r in E. rewrite E.
    rewrite (le_word_ok k rest 4 Hd), (le_word_ok k rest 8 Hd) by lia. cbn [mbind res_bind].
    change (drop (Z.to_nat 0) rest) with rest. change (Z.to_nat 4) with 4%nat. change (Z.to_nat 8) with 8%nat.
    destruct m as [a b c]. rewrite u32_small by (unfold is_u32; lia).
    replace (Z.of_nat k + 12) with (Z.of_nat (k + 12)) by lia.
    replace (Z.of_nat (length rest) - 12) with (Z.of_nat (length (drop 12 rest))) by (rewrite length_drop; lia).
    destruct (IH (k + 12)%nat (drop 12 rest)
                (mix (add_block (Mixed a b c) (le (take 4 rest)) (le (take 4 (drop 4 rest))) (le (take 4 (drop 8 rest))))))
      as (k' & rest' & m' & E' & Hd' & Hlt' & Hm' & Hj).
    { by rewrite <- Hd, drop_drop. } { rewrite length_drop. lia. } { rewrite length_drop. lia. }
    { apply mix_u32. split; [|split]; apply u32_range. }
    exists k', rest', m'. split; [exact E'|]. split; [done|]. split; [done|]. split; [done|].
    rewrite <- Hj. cbn [jenkins]. rewrite (proj2 (Nat.leb_le 12 (length rest))) by lia. done.
  - exists k, rest, m. cbn [rjenkins_blocks jenkins]. rewrite (proj2 (Z.leb_gt _ _)) by lia.
    rewrite (proj2 (Nat.leb_gt 12 _)) by lia. repeat split; try done; try apply Hm; lia.
Qed.

Lemma tail_byte_ok k rest i sh v :
  drop k l = rest → 0 <= i → 0 <= sh → is_u32 v →
  tail_byte str (Z.of_nat k) (Z.of_nat (length rest)) i sh v = Ok (u32 (v + nth (Z.to_nat i) rest 0 * 2 ^ sh)).
Proof.
  intros Hd Hi Hs Hv. unfold tail_byte. destruct (Z.ltb_spec i (Z.of_nat (length rest))) as [H|H].
  - destruct (rd_rest k rest i Hd) as [-> _]; [lia|]. cbn [mbind res_bind].
    by rewrite Z.shiftl_mul_pow2, u32_add_r by lia.
  - rewrite nth_overflow by lia. by rewrite Z.mul_0_l, Z.add_0_r, u32_small.
Qed.

Lemma le_take3 (r : list Z) : (length r < 4)%nat → le r = nth 0 r 0 + 256 * nth 1 r 0 + 65536 * nth 2 r 0.
Proof. destruct r as [|a [|b [|c [|d r]]]]; simpl; lia. Qed.

Lemma rjenkins_tail_ok k rest m :
  drop k l = rest → (length rest < 12)%nat → mixed_u32 m →
  rjenkins_tail str (Z.of_nat k) (Z.of_nat (length rest)) m =
    Ok (add_block m (le (take 4 rest)) (le (take 4 (drop 4 rest))) (256 * le (drop 8 rest))).
Proof.
  intros Hd Hlt Hm. destruct m as [a b c], Hm as (Ha & Hb & Hc). simpl in Ha, Hb, Hc. unfold rjenkins_tail.
  repeat (rewrite (tail_byte_ok k rest) by (done || lia || apply u32_range); cbn [mbind res_bind]).
  unfold add_block. cbn [mx_a mx_b mx_c]. rewrite !le_take4, le_take3 by (rewrite length_drop; lia).
  rewrite !nth_skipn, !u32_sum4, u32_sum3. simpl Nat.add. f_equal.
  cbv [Z.to_nat Pos.to_nat Pos.iter_op Nat.add]. f_equal; f_equal; lia.
Qed.

Lemma ceph_str_hash_rjenkins_ok :
  Z.of_nat (length l) < 4294967296 →
  ceph_str_hash_rjenkins str (Z.of_nat (length l)) =
    Ok (jenkins (S (length l)) (Z.of_nat (length l)) (Mixed 2654435769 2654435769 0) l).
Proof.
  intros Hlt. unfold ceph_str_hash_rjenkins. rewrite Nat2Z.id.
  destruct (rjenkins_blocks_ok (Z.of_nat (length l)) (length l) 0 l (Mixed 2654435769 2654435769 0))
    as (k & rest & m & E & Hd & H12 & Hm & ->); [done|done|done|repeat split; done|].
  change (Z.of_nat 0) with 0 in E. rewrite E. cbn [mbind res_bind]. destruct m as [a b c], Hm as (Ha & Hb & Hc).
  rewrite (rjenkins_tail_ok k rest); [|done|done|split; [done|split; [done|apply u32_range]]].
  cbn [mbind res_bind]. unfold add_block. cbn [mx_a mx_b mx_c]. by rewrite u32_add_l, Z.add_assoc.
Qed.
End rjenkins.

Lemma jenkins_u32 fuel : ∀ len m l, (length l < fuel)%nat → is_u32 (jenkins fuel len m l).
Proof.
  induction fuel as [|fuel IH]; intros len m l Hf; [lia|]. cbn [jenkins].
  destruct (Nat.leb_spec 12 (length l)); [apply IH; rewrite length_drop; lia|].
  apply mix_u32. split; [|split]; apply u32_range.
Qed.

Lemma str_hash_u32 type l : is_u32 (str_hash type l).
Proof.
  unfold str_hash. case_match; [apply u32_range|]. case_match; [|done]. apply jenkins_u32. lia.
Qed.

(** Both hashes read exactly the bytes given; the result does not depend on the
    width of [unsigned long]. *)
Lemma ceph_str_hash_ok bits type str l :
  32 <= bits → holds str l → Forall is_byte l → Z.of_nat (length l) < 4294967296 →
  ceph_str_hash bits type str (Z.of_nat (length l)) = Ok (str_hash type l).
Proof.
  intros Hb Hs Hl Hlt. unfold ceph_str_hash, str_hash. case_match; [by apply ceph_str_hash_linux_ok|].
  case_match; [by apply ceph_str_hash_rjenkins_ok|done].
Qed.
