(* ===== verification/StdMap.v ===== *)
(** * Containers of the C++ library

    [std::map] with integer keys and with names as keys, as the list of its
    pairs in the order of the keys, and [std::vector]. *)

From stdpp Require Import sorting.
From S2P Require Import Prelude.

Lemma filter_all {A} (P : A → Prop) `{∀ x, Decision (P x)} (l : list A) : (∀ x, x ∈ l → P x) → filter P l = l.
Proof.
  induction l as [|x l IH]; intros H0; [done|]. rewrite filter_cons, decide_True by (apply H0; left).
  f_equal. apply IH. intros y Hy. apply H0. by right.
Qed.

Section map.
Context {A : Type}.

(** [m[k] = v] *)
Fixpoint map_put (m : list (Z * A)) (k : Z) (v : A) : list (Z * A) :=
  match m with
  | [] => [(k, v)]
  | (s, l) :: m' =>
      if s <? k then (s, l) :: map_put m' k v
      else if s =? k then (k, v) :: m' else (k, v) :: m
  end.

(** [m.find(k)]; [m.count(k)] asks whether there is one. *)
Fixpoint map_find (m : list (Z * A)) (k : Z) : option A :=
  match m with
  | [] => None
  | (s, v) :: m => if s =? k then Some v else map_find m k
  end.

Definition map_count (m : list (Z * A)) (k : Z) : bool := bool_decide (is_Some (map_find m k)).

(** [m.erase(k)] *)
Definition map_del (m : list (Z * A)) (k : Z) : list (Z * A) := filter (λ x, x.1 ≠ k) m.

Definition keys (m : list (Z * A)) : list Z := fst <$> m.
Definition ordered (m : list (Z * A)) : Prop := StronglySorted Z.lt (keys m).

Lemma map_find_in m k : is_Some (map_find m k) ↔ k ∈ keys m.
Proof.
  induction m as [|[s v] m IH]; simpl; [split; [by intros [? [=]]|by intros ?%elem_of_nil]|].
  rewrite elem_of_cons. destruct (Z.eqb_spec s k) as [->|Hn]; [split; [by left|by eexists]|].
  rewrite IH. split; [by right|]. intros [->|H]; [done|done].
Qed.

Lemma map_count_in m k : map_count m k = true ↔ k ∈ keys m.
Proof. unfold map_count. by rewrite bool_decide_eq_true, map_find_in. Qed.

Lemma map_put_keys m k v i : i ∈ keys (map_put m k v) ↔ i = k ∨ i ∈ keys m.
Proof.
  induction m as [|[s l] m IH]; simpl; [rewrite list_elem_of_singleton, elem_of_nil; tauto|].
  destruct (Z.ltb_spec s k); simpl; [rewrite !elem_of_cons, IH; tauto|].
  destruct (Z.eqb_spec s k) as [->|Hn]; simpl; rewrite !elem_of_cons; tauto.
Qed.

Lemma map_put_ordered m k v : ordered m → ordered (map_put m k v).
Proof.
  unfold ordered. induction m as [|[s l] m IH]; simpl; [intros _; repeat constructor|].
  intros [Hm Hs]%StronglySorted_inv. destruct (Z.ltb_spec s k) as [Hlt|Hge]; simpl.
  - constructor; [by apply IH|]. rewrite Forall_forall in Hs |- *. intros i [->|Hi]%map_put_keys; [done|by apply Hs].
  - destruct (Z.eqb_spec s k) as [->|Hn]; simpl; [by constructor|].
    constructor; [by constructor|]. constructor; [lia|]. eapply Forall_impl; [exact Hs|]. simpl. lia.
Qed.

Lemma map_put_last m k v : Forall (λ i, i < k) (keys m) → map_put m k v = m ++ [(k, v)].
Proof.
  induction m as [|[s l] m IH]; [done|]. intros [Hs Hm]%Forall_cons. simpl in *.
  rewrite (proj2 (Z.ltb_lt s k)) by done. by rewrite IH.
Qed.

Lemma map_find_put m k v i : ordered m → map_find (map_put m k v) i = if decide (i = k) then Some v else map_find m i.
Proof.
  unfold ordered. induction m as [|[s l] m IH]; simpl.
  { intros _. destruct (Z.eqb_spec k i), (decide (i = k)); congruence || lia. }
  intros [Hm Hs]%StronglySorted_inv. destruct (Z.ltb_spec s k) as [Hlt|Hge]; simpl.
  - rewrite IH by done. destruct (Z.eqb_spec s i), (decide (i = k)); (lia || done).
  - destruct (Z.eqb_spec s k) as [->|Hn]; simpl; destruct (Z.eqb_spec k i), (decide (i = k)); (lia || done).
Qed.

Lemma map_del_keys m k i : i ∈ keys (map_del m k) ↔ i ∈ keys m ∧ i ≠ k.
Proof.
  unfold keys, map_del. rewrite !list_elem_of_fmap. split.
  - intros ([j v] & -> & [Hn Hi]%list_elem_of_filter). simpl in *. split; [by exists (j, v)|done].
  - intros [([j v] & -> & Hi) Hn]. exists (j, v). split; [done|]. by apply list_elem_of_filter.
Qed.

Lemma map_del_ordered m k : ordered m → ordered (map_del m k).
Proof.
  unfold ordered, map_del. induction m as [|[s v] m IH]; [done|]. simpl. intros [Hm Hs]%StronglySorted_inv.
  rewrite filter_cons. destruct (decide ((s, v).1 ≠ k)); [|by apply IH]. simpl. constructor; [by apply IH|].
  rewrite Forall_forall in Hs |- *. intros i Hi. apply Hs. unfold keys in *. rewrite list_elem_of_fmap in *.
  destruct Hi as (x & -> & [_ Hx]%list_elem_of_filter). by exists x.
Qed.
Lemma map_find_del m k i : map_find (map_del m k) i = if decide (i = k) then None else map_find m i.
Proof.
  unfold map_del. induction m as [|[s v] m IH]; simpl; [by destruct (decide _)|].
  rewrite filter_cons. destruct (decide ((s, v).1 ≠ k)) as [Hn|Hn]; simpl in Hn |- *.
  - rewrite IH. destruct (Z.eqb_spec s i), (decide (i = k)); congruence.
  - apply dec_stable in Hn as ->. rewrite IH. destruct (Z.eqb_spec k i), (decide (i = k)); congruence.
Qed.

Lemma map_put_new m k v : k ∉ keys m → map_put m k v ≡ₚ (k, v) :: m.
Proof.
  unfold keys. induction m as [|[s w] m IH]; simpl; [done|]. intros [Hs Hm]%not_elem_of_cons.
  destruct (Z.ltb_spec s k); [etrans; [apply perm_skip, IH, Hm|apply perm_swap]|]. destruct (Z.eqb_spec s k); [congruence|done].
Qed.

Lemma map_find_None m k : map_find m k = None ↔ k ∉ keys m.
Proof. rewrite <- map_find_in. destruct (map_find m k); split; [done|intros []; by eexists|by intros _ [? ?]|done]. Qed.

Lemma map_find_elem m k v : ordered m → map_find m k = Some v ↔ (k, v) ∈ m.
Proof.
  unfold ordered. induction m as [|[i w] m IH]; intros Ho; [split; [done|by intros ?%elem_of_nil]|]. simpl in *. apply StronglySorted_inv in Ho as [Ho Hi].
  rewrite elem_of_cons. destruct (Z.eqb_spec i k) as [->|Hn].
  - split; [intros [= ->]; by left|]. intros [[= ->]|Hin]; [done|]. rewrite Forall_forall in Hi.
    assert (k ∈ keys m) as Hk by (apply list_elem_of_fmap; by exists (k, v)). specialize (Hi k Hk). lia.
  - rewrite IH by done. split; [by right|]. intros [[= <- _]|?]; done.
Qed.

Lemma ordered_nodup m : ordered m → NoDup m.
Proof.
  unfold ordered. induction m as [|[k v] m IH]; simpl; [constructor|]. intros [Ho Hk]%StronglySorted_inv. constructor; [|auto].
  intros Hin. apply (Forall_forall _ (keys m)) with (x := k) in Hk; [lia|]. by apply (list_elem_of_fmap_2 fst m (k, v)).
Qed.

Lemma map_find_pair m k v : map_find m k = Some v → (k, v) ∈ m.
Proof.
  induction m as [|[i w] m IH]; simpl; [done|]. destruct (Z.eqb_spec i k) as [->|Hn]; [intros [= ->]; by left|]. intros H. right. auto.
Qed.

(** An ordered map is its set of pairs. *)
Lemma ordered_unique m m' : ordered m → ordered m' → m ≡ₚ m' → m = m'.
Proof.
  intros Hm Hm'. assert (∀ m, ordered m → StronglySorted (λ x y, x.1 < y.1) m) as Hs.
  { clear. unfold ordered, keys. induction m as [|x m IH]; simpl; [constructor|]. intros [Hm Hx]%StronglySorted_inv.
    constructor; [by apply IH|]. rewrite Forall_fmap in Hx. exact Hx. }
  assert (AntiSymm (=) (λ x y : Z * A, x.1 < y.1)) by (intros x y ??; lia).
  apply (StronglySorted_unique (λ x y : Z * A, x.1 < y.1)); auto.
Qed.
End map.

(** ** Maps keyed by names

    [std::map] with byte-string keys, as the list of its pairs in the order of
    [std::string]: byte by byte, a prefix first. *)

(** [a < b] on strings. *)
Fixpoint name_ltb (a b : list Z) : bool :=
  match a, b with
  | _, [] => false
  | [], _ :: _ => true
  | x :: a, y :: b => if x <? y then true else if y <? x then false else name_ltb a b
  end.

Definition name_lt (a b : list Z) : Prop := name_ltb a b = true.

Section map.
Context {A : Type}.

(** [m.find(k)] *)
Fixpoint name_find (m : list (list Z * A)) (k : list Z) : option A :=
  match m with
  | [] => None
  | (s, v) :: m => if decide (s = k) then Some v else name_find m k
  end.

(** [m[k] = v] *)
Fixpoint name_put (m : list (list Z * A)) (k : list Z) (v : A) : list (list Z * A) :=
  match m with
  | [] => [(k, v)]
  | (s, w) :: m' =>
      if decide (s = k) then (k, v) :: m'
      else if name_ltb s k then (s, w) :: name_put m' k v else (k, v) :: m
  end.

Definition name_sorted (m : list (list Z * A)) : Prop := StronglySorted name_lt m.*1.
End map.

Lemma name_lt_irrefl a : ¬ name_lt a a.
Proof. unfold name_lt. induction a as [|x a IH]; simpl; [done|]. by rewrite Z.ltb_irrefl. Qed.

Lemma name_lt_trans a b c : name_lt a b → name_lt b c → name_lt a c.
Proof.
  unfold name_lt. revert b c. induction a as [|x a IH]; intros [|y b] [|z c]; simpl; try done.
  destruct (Z.ltb_spec x y), (Z.ltb_spec y x), (Z.ltb_spec y z), (Z.ltb_spec z y), (Z.ltb_spec x z), (Z.ltb_spec z x);
    try (done || lia). apply IH.
Qed.

Lemma name_lt_total a b : a ≠ b → name_ltb a b = false → name_lt b a.
Proof.
  unfold name_lt. revert b. induction a as [|x a IH]; intros [|y b]; simpl; try done.
  destruct (Z.ltb_spec x y), (Z.ltb_spec y x); try (done || lia).
  intros Hn. apply IH. intros ->. apply Hn. f_equal. lia.
Qed.

Section laws.
Context {A : Type}.
Implicit Types m : list (list Z * A).

Lemma name_find_None m k : name_find m k = None ↔ k ∉ m.*1.
Proof.
  induction m as [|[s w] m IH]; simpl; [split; [intros _; apply not_elem_of_nil|done]|].
  destruct (decide (s = k)) as [->|Hn]; [split; [done|intros []; left]|]. rewrite IH, not_elem_of_cons. split; [auto|by intros []].
Qed.

Lemma name_put_keys m k v s : s ∈ (name_put m k v).*1 ↔ s = k ∨ s ∈ m.*1.
Proof.
  induction m as [|[t w] m IH]; simpl; [rewrite list_elem_of_singleton, elem_of_nil; tauto|].
  destruct (decide (t = k)) as [->|Hn]; [simpl; rewrite !elem_of_cons; tauto|].
  destruct (name_ltb t k); simpl; rewrite !elem_of_cons; [rewrite IH|]; tauto.
Qed.

Lemma name_put_sorted m k v : name_sorted m → name_sorted (name_put m k v).
Proof.
  unfold name_sorted. induction m as [|[t w] m IH]; simpl; [intros _; repeat constructor|].
  intros [Hm Ht]%StronglySorted_inv. destruct (decide (t = k)) as [->|Hn]; [by constructor|].
  destruct (name_ltb t k) eqn:Hlt; simpl.
  - constructor; [by apply IH|]. apply Forall_forall. intros s [->|Hs]%name_put_keys; [done|].
    exact (proj1 (Forall_forall _ _) Ht s Hs).
  - pose proof (name_lt_total t k Hn Hlt) as Hk. constructor; [by constructor|]. constructor; [done|].
    eapply Forall_impl; [exact Ht|]. intros s. by apply name_lt_trans.
Qed.

Lemma name_find_put m k v : name_sorted m → name_find (name_put m k v) k = Some v.
Proof.
  unfold name_sorted. induction m as [|[t w] m IH]; simpl; [by rewrite decide_True|].
  intros [Hm _]%StronglySorted_inv. destruct (decide (t = k)) as [->|Hn]; simpl; [by rewrite decide_True|].
  destruct (name_ltb t k); simpl; [rewrite decide_False by done; by apply IH|by rewrite decide_True].
Qed.

(** Adding a name adds an entry; replacing one replaces it, up to the order. *)
Lemma name_put_new m k v : name_find m k = None → name_put m k v ≡ₚ (k, v) :: m.
Proof.
  induction m as [|[t w] m IH]; simpl; [done|]. destruct (decide (t = k)); [done|]. intros H.
  destruct (name_ltb t k); [|done]. by rewrite (IH H), Permutation_swap.
Qed.

Lemma name_put_old m k v w : name_sorted m → name_find m k = Some w →
  ∃ m', m ≡ₚ (k, w) :: m' ∧ name_put m k v ≡ₚ (k, v) :: m'.
Proof.
  unfold name_sorted. induction m as [|[t u] m IH]; simpl; [done|]. intros [Hm Ht]%StronglySorted_inv.
  destruct (decide (t = k)) as [->|Hn]; [intros [= ->]; by exists m|]. intros H.
  assert (name_lt t k) as ->.
  { apply (proj1 (Forall_forall _ _) Ht). destruct (decide (k ∈ m.*1)) as [Hi|Hi]; [done|].
    apply name_find_None in Hi. congruence. }
  destruct (IH Hm H) as (m' & E & E'). exists ((t, u) :: m').
  split; (etrans; [apply perm_skip; eassumption|apply perm_swap]).
Qed.
End laws.

(** ** Vectors and loops over containers

    [std::vector] as a list whose accesses are checked, and [for] loops over
    the elements of a container in a state-passing computation. *)

Section vec.
Context {A : Type}.

(** [v[i]] *)
Definition vget (v : list A) (i : Z) : res A :=
  if i <? 0 then Fault OutOfBounds
  else match v !! Z.to_nat i with Some x => Ok x | None => Fault OutOfBounds end.

(** [v[i] = x] *)
Definition vset (v : list A) (i : Z) (x : A) : res (list A) :=
  if (i <? 0) || (Z.of_nat (length v) <=? i) then Fault OutOfBounds
  else Ok (<[Z.to_nat i := x]> v).

(** [v.resize(n, d)]; a negative [n] is an enormous [size_t]. *)
Definition vresize (v : list A) (n : Z) (d : A) : res (list A) :=
  if n <? 0 then Fault OutOfBounds
  else Ok (take (Z.to_nat n) v ++ replicate (Z.to_nat n - length v) d).

Lemma vget_ok v i : 0 <= i < Z.of_nat (length v) → ∃ x, v !! Z.to_nat i = Some x ∧ vget v i = Ok x.
Proof.
  intros Hi. destruct (lookup_lt_is_Some_2 v (Z.to_nat i)) as [x Hx]; [lia|]. exists x. split; [done|].
  unfold vget. rewrite (proj2 (Z.ltb_ge i 0)) by lia. by rewrite Hx.
Qed.

Lemma vget_at v i x : v !! i = Some x → vget v (Z.of_nat i) = Ok x.
Proof. intros Hx. unfold vget. rewrite (proj2 (Z.ltb_ge (Z.of_nat i) 0)) by lia. by rewrite Nat2Z.id, Hx. Qed.

Lemma vset_ok v i x : 0 <= i < Z.of_nat (length v) → vset v i x = Ok (<[Z.to_nat i := x]> v).
Proof.
  intros Hi. unfold vset. rewrite (proj2 (Z.ltb_ge i 0)), (proj2 (Z.leb_gt _ i)) by lia. done.
Qed.

Lemma vset_at v i x : (i < length v)%nat → vset v (Z.of_nat i) x = Ok (<[i := x]> v).
Proof. intros Hi. rewrite vset_ok by lia. by rewrite Nat2Z.id. Qed.

Lemma vset_bad v i x : ¬ 0 <= i < Z.of_nat (length v) → vset v i x = Fault OutOfBounds.
Proof.
  intros Hi. unfold vset. destruct (Z.ltb_spec i 0); [done|]. destruct (Z.leb_spec (Z.of_nat (length v)) i); [done|lia].
Qed.

Lemma vresize_ok v n d : 0 <= n → ∃ v', vresize v n d = Ok v' ∧ length v' = Z.to_nat n ∧
  ∀ i, (i < Z.to_nat n)%nat → v' !! i = Some (default d (v !! i)).
Proof.
  intros Hn. unfold vresize. rewrite (proj2 (Z.ltb_ge n 0)) by lia. eexists. split; [done|]. split.
  { rewrite length_app, length_take, length_replicate. lia. }
  intros i Hi. destruct (decide (i < length v)%nat) as [Hlt|Hge].
  - rewrite lookup_app_l by (rewrite length_take; lia). rewrite lookup_take_lt by done.
    by destruct (lookup_lt_is_Some_2 v i Hlt) as [x ->].
  - rewrite lookup_app_r by (rewrite length_take; lia). rewrite lookup_replicate_2 by (rewrite length_take; lia).
    by rewrite (lookup_ge_None_2 v i) by lia.
Qed.
End vec.

(** ** Loops *)

Fixpoint for_each {S A} (l : list A) (body : A → M S unit) : M S unit :=
  match l with
  | [] => mret tt
  | x :: l => _ ← body x; for_each l body
  end.

Lemma for_each_rule {S A} (P : S → Prop) (body : A → M S unit) l : ∀ s,
  P s → (∀ x s, x ∈ l → P s → wp (body x) s (λ _, P)) → wp (for_each l body) s (λ _, P).
Proof.
  induction l as [|x l IH]; intros s Hs Hb; [done|]. eapply wp_bind_mono; [apply Hb; [by left|done]|].
  intros [] s' Hs'. apply IH; [done|]. intros. apply Hb; [by right|done].
Qed.

(** The states between the elements. *)
Lemma for_each_inv {S A} (P : list A → S → Prop) (body : A → M S unit) l s :
  P [] s → (∀ done x rest s, l = done ++ x :: rest → P done s → wp (body x) s (λ _, P (done ++ [x]))) →
  wp (for_each l body) s (λ _, P l).
Proof.
  intros Hs Hb. assert (∀ rest done s, l = done ++ rest → P done s → wp (for_each rest body) s (λ _, P l)) as H.
  { induction rest as [|x rest IH]; intros d s0 E Hd; [by rewrite E, app_nil_r|].
    eapply wp_bind_mono; [by eapply Hb|]. intros [] s' Hs'. eapply IH; [|done]. by rewrite E, <- app_assoc. }
  by apply (H l []).
Qed.
