(* ===== verification/IntervalSet.v ===== *)
(** * Sets of intervals (src/include/interval_set.h)

    [interval_set<T>] for a 64-bit unsigned [T].  The [std::map] from start to
    length is the list of its pairs in the order of its keys; an iterator is a
    position in the list, the length of the list being [end()].  Using an
    iterator at the end is a fault, and so is a failed assertion. *)

From S2P Require Import Prelude StdMap.

Definition imap : Type := list (Z * Z).

(** ** The operations of [std::map] *)

(** [m.lower_bound(k)]: the first position whose key is not below [k]. *)
Fixpoint lower_bound (m : list (Z * Z)) (k : Z) : nat :=
  match m with
  | [] => O
  | (s, _) :: m => if s <? k then S (lower_bound m k) else O
  end.

(** [*p] *)
Definition iter (m : list (Z * Z)) (p : nat) : res (Z * Z) :=
  match m !! p with Some x => Ok x | None => Fault OutOfBounds end.

(** [p->second = v] and [m.erase(p)] *)
Definition set_second (m : list (Z * Z)) (p : nat) (v : Z) : list (Z * Z) :=
  alter (λ x, (x.1, v)) p m.
Definition map_erase (m : list (Z * Z)) (p : nat) : list (Z * Z) := delete p m.

(** ** The class *)

Record interval_set := ISet { is_size : Z; is_m : list (Z * Z) }.

Definition iset_empty : interval_set := ISet 0 [].

(** [find_inc] and [find_adj] differ in the test on the interval before: it is
    left out when it ends at [start], or only when it ends before. *)
Definition find_with (ends_before : Z → Z → bool) (m : list (Z * Z)) (start : Z) : res nat :=
  let p := lower_bound m start in
  if (p =? 0)%nat then Ok p else
  past ← (if (p =? length m)%nat then Ok true else x ← iter m p; Ok (x.1 >? start));
  if (past : bool) then
    let q := (p - 1)%nat in
    '(s, l) ← iter m q;
    Ok (if ends_before (u64 (s + l)) start then p else q)
  else Ok p.

Definition find_inc : list (Z * Z) → Z → res nat := find_with Z.leb.
Definition find_adj : list (Z * Z) → Z → res nat := find_with Z.ltb.

(** [int size()] truncates the 64-bit count. *)
Definition size (s : interval_set) : Z := s32 (is_size s).
Definition num_intervals (s : interval_set) : Z := s32 (Z.of_nat (length (is_m s))).
Definition clear (s : interval_set) : interval_set := iset_empty.
Definition empty (s : interval_set) : bool := match is_m s with [] => true | _ => false end.

Definition iset_eqb (a b : interval_set) : bool :=
  (is_size a =? is_size b) && bool_decide (is_m a = is_m b).

(** What [decode] rebuilds from the decoded map. *)
Definition iset_of_map (m : list (Z * Z)) : interval_set :=
  ISet (foldl (λ n x, s64 (n + x.2)) 0 m) m.

Definition contains (s : interval_set) (i : Z) : res bool :=
  p ← find_inc (is_m s) i;
  if (p =? length (is_m s))%nat then Ok false else
  '(f, l) ← iter (is_m s) p;
  if f >? i then Ok false else
  if u64 (f + l) <=? i then Ok false else
  _ ← assert_c ((f <=? i) && (u64 (f + l) >? i)); Ok true.

Definition contains_range (s : interval_set) (start len : Z) : res bool :=
  p ← find_inc (is_m s) start;
  if (p =? length (is_m s))%nat then Ok false else
  '(f, l) ← iter (is_m s) p;
  if f >? start then Ok false else
  if u64 (f + l) <=? start then Ok false else
  _ ← assert_c ((f <=? start) && (u64 (f + l) >? start));
  if u64 (f + l) <? u64 (start + len) then Ok false else Ok true.

Definition range_start (s : interval_set) : res Z :=
  _ ← assert_c (negb (empty s)); '(f, _) ← iter (is_m s) 0; Ok f.

Definition range_end (s : interval_set) : res Z :=
  _ ← assert_c (negb (empty s)); '(f, l) ← iter (is_m s) (length (is_m s) - 1); Ok (u64 (f + l)).

Definition starts_after (s : interval_set) (i : Z) : res bool :=
  c ← contains s i; _ ← assert_c (negb c);
  p ← find_inc (is_m s) i; Ok (negb (p =? length (is_m s))%nat).

Definition start_after (s : interval_set) (i : Z) : res Z :=
  c ← contains s i; _ ← assert_c (negb c);
  p ← find_inc (is_m s) i; '(f, _) ← iter (is_m s) p; Ok f.

Definition end_after (s : interval_set) (start : Z) : res Z :=
  c ← contains s start; _ ← assert_c c;
  p ← find_inc (is_m s) start; '(f, l) ← iter (is_m s) p; Ok (u64 (f + l)).

(** [insert(start, len)] *)
Definition insert_map (m : list (Z * Z)) (start len : Z) : res (list (Z * Z)) :=
  p ← find_adj m start;
  if (p =? length m)%nat then Ok (map_put m start len) else
  '(f, l) ← iter m p;
  if f <? start then
    if negb (u64 (f + l) =? start) then Fault AssertFailed else
    let m := set_second m p (u64 (l + len)) in
    match m !! S p with
    | Some (nf, nl) =>
        if u64 (start + len) =? nf
        then Ok (map_erase (set_second m p (u64 (u64 (l + len) + nl))) (S p)) else Ok m
    | None => Ok m
    end
  else if u64 (start + len) =? f then
    (* the new node comes before [p], which moves one place to the right *)
    Ok (map_erase (map_put m start (u64 (len + l))) (S p))
  else
    _ ← assert_c (f >? u64 (start + len)); Ok (map_put m start len).

Definition insert_range (s : interval_set) (start len : Z) : res interval_set :=
  _ ← assert_c (len >? 0);
  m ← insert_map (is_m s) start len; Ok (ISet (s64 (is_size s + len)) m).

Definition insert_val (s : interval_set) (val : Z) : res interval_set := insert_range s val 1.

(** [erase(start, len)] *)
Definition erase_range (s : interval_set) (start len : Z) : res interval_set :=
  p ← find_inc (is_m s) start;
  let sz := s64 (is_size s - len) in
  _ ← assert_c (sz >=? 0);
  _ ← assert_c (negb (p =? length (is_m s))%nat);
  '(f, l) ← iter (is_m s) p;
  _ ← assert_c (f <=? start);
  let before := u64 (start - f) in
  _ ← assert_c (l >=? u64 (before + len));
  let after := u64 (u64 (l - before) - len) in
  let m := if negb (before =? 0) then set_second (is_m s) p before else map_erase (is_m s) p in
  let m := if negb (after =? 0) then map_put m (u64 (start + len)) after else m in
  Ok (ISet sz m).

Definition erase_val (s : interval_set) (val : Z) : res interval_set := erase_range s val 1.

Fixpoint subtract_from (s : interval_set) (a : list (Z * Z)) : res interval_set :=
  match a with
  | [] => Ok s
  | (f, l) :: a => s ← erase_range s f l; subtract_from s a
  end.
Definition subtract (s a : interval_set) : res interval_set := subtract_from s (is_m a).

Fixpoint insert_from (s : interval_set) (a : list (Z * Z)) : res interval_set :=
  match a with
  | [] => Ok s
  | (f, l) :: a => s ← insert_range s f l; insert_from s a
  end.
Definition insert_set (s a : interval_set) : res interval_set := insert_from s (is_m a).

(** The two iterators advance together; [fuel] is at least the number of
    intervals of both sets. *)
Fixpoint intersect_loop (a b : list (Z * Z)) (fuel : nat) (pa pb : nat) (out : interval_set) : res interval_set :=
  if (pa =? length a)%nat || (pb =? length b)%nat then Ok out else
  match fuel with
  | O => Fault Diverge
  | S fuel =>
      '(af, al) ← iter a pa;
      '(bf, bl) ← iter b pb;
      if u64 (af + al) <=? bf then intersect_loop a b fuel (S pa) pb out else
      if u64 (bf + bl) <=? af then intersect_loop a b fuel pa (S pb) out else
      let start := Z.max af bf in
      let en := Z.min (u64 (af + al)) (u64 (bf + bl)) in
      _ ← assert_c (en >? start);
      out ← insert_range out start (u64 (en - start));
      if u64 (af + al) >? u64 (bf + bl) then intersect_loop a b fuel pa (S pb) out
      else intersect_loop a b fuel (S pa) pb out
  end.

Definition intersection_of (a b : interval_set) : res interval_set :=
  intersect_loop (is_m a) (is_m b) (length (is_m a) + length (is_m b)) 0 0 iset_empty.

Definition intersects (s : interval_set) (start len : Z) : res bool :=
  a ← insert_range iset_empty start len;
  i ← intersection_of s a;
  Ok (negb (empty i)).

Definition union_of (a b : interval_set) : res interval_set :=
  ab ← intersection_of a b;
  s ← subtract (ISet (is_size a) (is_m a)) ab;
  insert_set s b.

Fixpoint all_contained (big : interval_set) (m : list (Z * Z)) : res bool :=
  match m with
  | [] => Ok true
  | (f, l) :: m => c ← contains_range big f l; if negb c then Ok false else all_contained big m
  end.
Definition subset_of (s big : interval_set) : res bool := all_contained big (is_m s).

(** [while (p != end && len > 0) ...] over the intervals from [p] on. *)
Fixpoint span_loop (rest : list (Z * Z)) (len : Z) (out : interval_set) : res interval_set :=
  match rest with
  | [] => Ok out
  | (f, l) :: rest =>
      if negb (len >? 0) then Ok out else
      if l <? len then out ← insert_range out f l; span_loop rest (u64 (len - l)) out
      else insert_range out f len
  end.

Definition span_of (other : interval_set) (start len : Z) : res interval_set :=
  let m := is_m other in
  p ← find_inc m start;
  if (p =? length m)%nat then Ok iset_empty else
  '(f, l) ← iter m p;
  if f <? start then
    if u64 (f + l) <? start then Ok iset_empty else
    if u64 (f + l) <? u64 (start + len) then
      let howmuch := u64 (l - u64 (start - f)) in
      out ← insert_range iset_empty start howmuch;
      span_loop (drop (S p) m) (u64 (len - howmuch)) out
    else insert_range iset_empty start len
  else span_loop (drop p m) len iset_empty.

(** The example of the comment above [span_of]. *)
Example span_of_comment : span_of (ISet 15 [(5, 10); (20, 5)]) 8 5 = Ok (ISet 5 [(8, 5)]).
Proof. reflexivity. Qed.
