(* ===== verification/IntervalSpec.v ===== *)
(** * What the interval sets compute (src/include/interval_set.h)

    The abstract value of an [interval_set] is the set of the values it covers.
    The class keeps its intervals apart: sorted, not empty, not touching. *)

From S2P Require Import Prelude StdMap IntervalSet.

Definition T_max : Z := 18446744073709551616.

(** The intervals of [m] start after [lo] and leave gaps. *)
Fixpoint gapped (lo : Z) (m : list (Z * Z)) : Prop :=
  match m with
  | [] => True
  | (s, l) :: m => lo < s ∧ 0 < l ∧ s + l < T_max ∧ gapped (s + l) m
  end.

(** A value covered by [m]. *)
Fixpoint covers (m : list (Z * Z)) (i : Z) : Prop :=
  match m with
  | [] => False
  | (s, l) :: m => s <= i < s + l ∨ covers m i
  end.

Fixpoint total (m : list (Z * Z)) : Z :=
  match m with [] => 0 | (_, l) :: m => l + total m end.

Fixpoint last_end (lo : Z) (m : list (Z * Z)) : Z :=
  match m with [] => lo | (s, l) :: m => last_end (s + l) m end.

(** The number of covered values below [x]. *)
Fixpoint count_below (m : list (Z * Z)) (x : Z) : Z :=
  match m with
  | [] => 0
  | (s, l) :: m => (Z.min (s + l) x - Z.min s x) + count_below m x
  end.

Definition elem (s : interval_set) (i : Z) : Prop := covers (is_m s) i.

Record iset_wf (s : interval_set) : Prop := {
  iw_gapped : gapped (-1) (is_m s);
  iw_size : is_size s = total (is_m s);
  iw_bound : total (is_m s) < 9223372036854775808 }.

(** ** Facts on the lists *)

Lemma covers_app m1 m2 i : covers (m1 ++ m2) i ↔ covers m1 i ∨ covers m2 i.
Proof. induction m1 as [|[s l] m1 IH]; simpl; [tauto|]. rewrite IH. tauto. Qed.

Lemma gapped_app lo m1 m2 : gapped lo (m1 ++ m2) ↔ gapped lo m1 ∧ gapped (last_end lo m1) m2.
Proof. revert lo. induction m1 as [|[s l] m1 IH]; intros lo; simpl; [tauto|]. rewrite IH. tauto. Qed.

Lemma total_app m1 m2 : total (m1 ++ m2) = total m1 + total m2.
Proof. induction m1 as [|[s l] m1 IH]; simpl; lia. Qed.

Lemma last_end_app lo m1 m2 : last_end lo (m1 ++ m2) = last_end (last_end lo m1) m2.
Proof. revert lo. induction m1 as [|[s l] m1 IH]; intros lo; simpl; [done|apply IH]. Qed.

Lemma gapped_le lo lo' m : gapped lo m → lo' <= lo → gapped lo' m.
Proof. destruct m as [|[s l] m]; simpl; [done|]. intros (?&?&?&?) ?. repeat split; (done || lia). Qed.

Lemma covers_range lo m i : gapped lo m → covers m i → lo < i < last_end lo m.
Proof.
  revert lo. induction m as [|[s l] m IH]; intros lo; simpl; [done|]. intros (H1 & H2 & H3 & H4) Hi.
  assert (s + l <= last_end (s + l) m) as Hle.
  { clear -H4. revert H4. generalize (s + l). induction m as [|[s' l'] m IH]; intros x; simpl; [lia|].
    intros (? & ? & ? & H). specialize (IH _ H). lia. }
  destruct Hi as [Hi|Hi]; [lia|]. specialize (IH _ H4 Hi). lia.
Qed.

Lemma last_end_ge lo m : gapped lo m → lo <= last_end lo m.
Proof.
  revert lo. induction m as [|[s l] m IH]; intros lo; simpl; [lia|]. intros (? & ? & ? & H).
  specialize (IH _ H). lia.
Qed.

Lemma total_nonneg lo m : gapped lo m → 0 <= total m.
Proof.
  revert lo. induction m as [|[s l] m IH]; intros lo; simpl; [lia|]. intros (? & ? & ? & H). specialize (IH _ H). lia.
Qed.

(** Adding one value adds one exactly when it is covered. *)
Lemma count_below_step lo m x :
  gapped lo m →
  (covers m x ∧ count_below m (x + 1) = count_below m x + 1) ∨
  (¬ covers m x ∧ count_below m (x + 1) = count_below m x).
Proof.
  revert lo. induction m as [|[s l] m IH]; intros lo; simpl; [intros; right; split; [tauto|done]|].
  intros (H1 & H2 & H3 & H4). destruct (IH _ H4) as [[Hc Hn]|[Hc Hn]].
  - apply (covers_range _ _ _ H4) in Hc as Hr. left. split; [by right|]. lia.
  - destruct (decide (s <= x < s + l)); [left|right]; (split; [tauto|lia]).
Qed.

Lemma count_below_0 lo m : gapped lo m → -1 <= lo → count_below m 0 = 0.
Proof.
  revert lo. induction m as [|[s l] m IH]; intros lo; simpl; [done|]. intros (H1 & H2 & H3 & H4) Hlo.
  rewrite (IH _ H4); lia.
Qed.

Lemma count_below_all lo m : gapped lo m → count_below m T_max = total m.
Proof.
  revert lo. induction m as [|[s l] m IH]; intros lo; simpl; [done|]. intros (H1 & H2 & H3 & H4).
  rewrite (IH _ H4); lia.
Qed.

Lemma count_below_mono m1 m2 x :
  gapped (-1) m1 → gapped (-1) m2 → 0 <= x → (∀ i, covers m1 i → covers m2 i) →
  count_below m1 x <= count_below m2 x.
Proof.
  intros H1 H2 Hx Hsub. revert x Hx. apply natlike_ind.
  - rewrite !(count_below_0 (-1)) by (done || lia). lia.
  - intros x Hx IH. unfold Z.succ.
    destruct (count_below_step _ _ x H1) as [[Hc ->]|[Hc ->]], (count_below_step _ _ x H2) as [[Hc' ->]|[Hc' ->]]; try lia.
    by destruct Hc'; apply Hsub.
Qed.

Lemma total_mono m1 m2 :
  gapped (-1) m1 → gapped (-1) m2 → (∀ i, covers m1 i → covers m2 i) → total m1 <= total m2.
Proof.
  intros H1 H2 Hs. rewrite <- (count_below_all _ _ H1), <- (count_below_all _ _ H2).
  apply count_below_mono; (done || unfold T_max; lia).
Qed.

(** Equal sets have equal lists. *)
Lemma gapped_canonical lo m1 m2 :
  gapped lo m1 → gapped lo m2 → (∀ i, covers m1 i ↔ covers m2 i) → m1 = m2.
Proof.
  revert lo m2. induction m1 as [|[s1 l1] m1 IH]; intros lo [|[s2 l2] m2]; simpl; try done.
  - intros _ (_ & Hp & _) Heq. destruct (proj2 (Heq s2)). left. lia.
  - intros (_ & Hp & _) _ Heq. destruct (proj1 (Heq s1)). left. lia.
  - intros (H1 & H2 & H3 & H4) (K1 & K2 & K3 & K4) Heq.
    assert (s1 = s2) as ->.
    { destruct (proj1 (Heq s1)) as [Hx|Hc]; [left; lia| |apply (covers_range _ _ _ K4) in Hc].
      all: destruct (proj2 (Heq s2)) as [Hy|Hc']; [left; lia| |apply (covers_range _ _ _ H4) in Hc']; lia. }
    assert (l1 = l2) as ->.
    { destruct (Z.lt_total l1 l2) as [Hlt|[Hx|Hlt]]; [|done|].
      - destruct (proj2 (Heq (s2 + l1))) as [Hx|Hc]; [left; lia|lia|apply (covers_range _ _ _ H4) in Hc; lia].
      - destruct (proj1 (Heq (s2 + l2))) as [Hx|Hc]; [left; lia|lia|apply (covers_range _ _ _ K4) in Hc; lia]. }
    f_equal. apply (IH (s2 + l2)); [done..|]. intros i. specialize (Heq i). split; intros Hc.
    + apply (covers_range _ _ _ H4) in Hc as Hx. destruct (proj1 Heq); [by right|lia|done].
    + apply (covers_range _ _ _ K4) in Hc as Hx. destruct (proj2 Heq); [by right|lia|done].
Qed.

(** ** Iterators *)

Lemma iter_mid l1 x l2 : iter (l1 ++ x :: l2) (length l1) = Ok x.
Proof. unfold iter. by rewrite list_lookup_middle. Qed.

Lemma set_second_mid l1 s l l2 v : set_second (l1 ++ (s, l) :: l2) (length l1) v = l1 ++ (s, v) :: l2.
Proof. unfold set_second. induction l1 as [|x l1 IH]; simpl; [done|]. by f_equal. Qed.

Lemma map_erase_mid l1 x l2 : map_erase (l1 ++ x :: l2) (length l1) = l1 ++ l2.
Proof. unfold map_erase. by apply delete_middle. Qed.

(** Every interval of [m] starts below [k]. *)
Definition starts_below (k : Z) (m : list (Z * Z)) : Prop := Forall (λ x, x.1 < k) m.

Lemma starts_below_last lo m k : gapped lo m → last_end lo m <= k → starts_below k m.
Proof.
  revert lo. induction m as [|[s l] m IH]; intros lo; [constructor|]. intros (H1 & H2 & H3 & H4) Hk.
  constructor; [|by apply (IH (s + l))]. simpl in *. pose proof (last_end_ge _ _ H4). lia.
Qed.

Lemma map_put_app l1 l2 (k v : Z) : starts_below k l1 → map_put (l1 ++ l2) k v = l1 ++ map_put l2 k v.
Proof.
  induction 1 as [|[s l] l1 Hs _ IH]; [done|]. simpl in *. rewrite (proj2 (Z.ltb_lt s k)) by done. by rewrite IH.
Qed.

Lemma map_put_head (l2 : list (Z * Z)) k v :
  match l2 with [] => True | (s, _) :: _ => k < s end → map_put l2 k v = (k, v) :: l2.
Proof.
  destruct l2 as [|[s l] l2]; [done|]. intros Hk. simpl.
  by rewrite (proj2 (Z.ltb_ge s k)), (proj2 (Z.eqb_neq s k)) by lia.
Qed.

Lemma lower_bound_split lo m k :
  gapped lo m → ∃ l1 l2, m = l1 ++ l2 ∧ lower_bound m k = length l1 ∧ starts_below k l1 ∧
    match l2 with [] => True | (s, _) :: _ => k <= s end.
Proof.
  revert lo. induction m as [|[s l] m IH]; intros lo; [intros _; exists [], []; repeat split; constructor|]. intros (H1 & H2 & H3 & H4).
  simpl. destruct (Z.ltb_spec s k) as [Hs|Hs].
  - destruct (IH _ H4) as (l1 & l2 & -> & -> & Hb & Hh). exists ((s, l) :: l1), l2. repeat split; try done.
    by constructor.
  - exists [], ((s, l) :: m). repeat split; [constructor|done].
Qed.

(** [find_inc] and [find_adj] cut the list where the new interval belongs. *)
Lemma find_with_ok cmp m start :
  gapped (-1) m → 0 <= start → (∀ e, e < start → cmp e start = true) →
  ∃ l1 l2, m = l1 ++ l2 ∧ find_with cmp m start = Ok (length l1) ∧
    (l1 = [] ∨ cmp (last_end (-1) l1) start = true) ∧
    match l2 with [] => True | (s, l) :: _ => start <= s ∨ (s < start ∧ cmp (s + l) start = false) end.
Proof.
  intros Hg Hs Hcmp. destruct (lower_bound_split _ _ start Hg) as (l1 & l2 & -> & E & Hb & Hh).
  unfold find_with. rewrite E. destruct l1 as [|x l1 _] using rev_ind.
  { exists [], l2. repeat split; [by left|]. destruct l2 as [|[s l] l2]; [done|by left]. }
  destruct x as [s l]. apply gapped_app in Hg as [Hg1 Hg2]. pose proof Hg1 as (Hg0 & Hl1 & Hl2 & Hl3 & _)%gapped_app.
  rewrite last_end_app in Hg2. simpl in Hg2. apply Forall_app in Hb as [Hb Hx]. apply Forall_cons in Hx as [Hx _]. simpl in Hx.
  rewrite length_app. simpl length. rewrite (proj2 (Nat.eqb_neq (length l1 + 1) 0)) by lia.
  assert (iter ((l1 ++ [(s, l)]) ++ l2) (length l1 + 1 - 1) = Ok (s, l)) as Eq.
  { rewrite <- app_assoc. replace (length l1 + 1 - 1)%nat with (length l1) by lia. apply iter_mid. }
  assert (u64 (s + l) = s + l) as Eu.
  { apply u64_small. pose proof (last_end_ge _ _ Hg0). unfold T_max in *. lia. }
  assert (∀ past : bool, (past = false → match l2 with [] => False | (s', _) :: _ => start = s' end) →
    ∃ k1 k2, (l1 ++ [(s, l)]) ++ l2 = k1 ++ k2 ∧
      (if past then '(s', l') ← Ok (s, l);
         Ok (if cmp (u64 (s' + l')) start then (length l1 + 1)%nat else (length l1 + 1 - 1)%nat)
       else Ok (length l1 + 1)%nat) = Ok (length k1) ∧
      (k1 = [] ∨ cmp (last_end (-1) k1) start = true) ∧
      match k2 with [] => True | (s', l') :: _ => start <= s' ∨ (s' < start ∧ cmp (s' + l') start = false) end) as Hmain.
  { intros past Hp. assert (length l1 + 1 = length (l1 ++ [(s, l)]))%nat as El by (rewrite length_app; simpl; lia).
    destruct past; cbn [mbind res_bind]; [rewrite Eu; destruct (cmp (s + l) start) eqn:Ec|].
    - exists (l1 ++ [(s, l)]), l2. rewrite El. split; [done|]. split; [done|]. split; [right; by rewrite last_end_app|].
      destruct l2 as [|[s' l'] l2]; [done|by left].
    - exists l1, ((s, l) :: l2). rewrite <- app_assoc. split; [done|]. split; [f_equal; lia|].
      split; [|by right]. right. apply Hcmp. lia.
    - exists (l1 ++ [(s, l)]), l2. rewrite El. specialize (Hp eq_refl). destruct l2 as [|[s' l'] l2]; [done|].
      split; [done|]. split; [done|]. split; [|left; lia]. right. rewrite last_end_app. simpl. apply Hcmp. simpl in Hg2. lia. }
  rewrite Eq. destruct l2 as [|[s' l'] l2].
  - rewrite (proj2 (Nat.eqb_eq _ _)) by (rewrite !length_app; simpl; lia). exact (Hmain true ltac:(done)).
  - rewrite (proj2 (Nat.eqb_neq _ _)) by (rewrite !length_app; simpl; lia).
    assert (iter ((l1 ++ [(s, l)]) ++ (s', l') :: l2) (length l1 + 1) = Ok (s', l')) as ->.
    { replace (length l1 + 1)%nat with (length (l1 ++ [(s, l)])) by (rewrite length_app; simpl; lia). apply iter_mid. }
    apply (Hmain (s' >? start)). intros Hp. rewrite Z.gtb_ltb in Hp. apply Z.ltb_ge in Hp. lia.
Qed.

Lemma find_inc_ok m start :
  gapped (-1) m → 0 <= start →
  ∃ l1 l2, m = l1 ++ l2 ∧ find_inc m start = Ok (length l1) ∧ last_end (-1) l1 <= start ∧
    match l2 with [] => True | (s, l) :: _ => start < s + l end.
Proof.
  intros Hg Hs. destruct (find_with_ok Z.leb m start Hg Hs) as (l1 & l2 & -> & E & H1 & H2); [intros; lia|].
  exists l1, l2. split; [done|]. split; [exact E|]. split; [destruct H1 as [->|H1]; simpl; lia|].
  destruct l2 as [|[s l] l2]; [done|]. apply gapped_app in Hg as [_ Hg]. simpl in Hg. lia.
Qed.

Lemma find_adj_ok m start :
  gapped (-1) m → 0 <= start →
  ∃ l1 l2, m = l1 ++ l2 ∧ find_adj m start = Ok (length l1) ∧ last_end (-1) l1 < start ∧
    match l2 with [] => True | (s, l) :: _ => start <= s + l end.
Proof.
  intros Hg Hs. destruct (find_with_ok Z.ltb m start Hg Hs) as (l1 & l2 & -> & E & H1 & H2); [intros; lia|].
  exists l1, l2. split; [done|]. split; [exact E|]. split; [destruct H1 as [->|H1]; simpl; lia|].
  destruct l2 as [|[s l] l2]; [done|]. apply gapped_app in Hg as [_ Hg]. simpl in Hg. lia.
Qed.

Lemma end_mid (l1 l2 : list (Z * Z)) :
  (length l1 =? length (l1 ++ l2))%nat = match l2 with [] => true | _ => false end.
Proof.
  rewrite length_app. destruct l2; simpl; [rewrite Nat.add_0_r; apply Nat.eqb_refl|apply Nat.eqb_neq; lia].
Qed.

Lemma u64_end s l : -1 <= s → 0 < l → s + l < T_max → u64 (s + l) = s + l.
Proof. intros. apply u64_small. unfold T_max in *. lia. Qed.

(** [contains] is membership. *)
Lemma contains_ok s i :
  gapped (-1) (is_m s) → 0 <= i → ∃ b, contains s i = Ok b ∧ (b = true ↔ elem s i).
Proof.
  intros Hg Hi. unfold contains, elem. destruct (find_inc_ok _ _ Hg Hi) as (l1 & l2 & E & -> & H1 & H2).
  rewrite E in *. cbn [mbind res_bind]. rewrite end_mid. apply gapped_app in Hg as [Hg1 Hg2].
  destruct l2 as [|[f l] l2].
  - exists false. split; [done|]. split; [done|]. rewrite app_nil_r. intros Hc.
    apply (covers_range _ _ _ Hg1) in Hc. lia.
  - rewrite iter_mid. cbn [mbind res_bind]. destruct Hg2 as (G1 & G2 & G3 & G4).
    pose proof (last_end_ge _ _ Hg1). rewrite u64_end by lia.
    destruct (Z.gtb_spec f i) as [Hf|Hf]; [exists false|exists true; rewrite (proj2 (Z.leb_gt _ _)) by lia].
    + split; [done|]. split; [done|]. intros [Hc|[Hc|Hc]]%covers_app; [|lia|].
      * apply (covers_range _ _ _ Hg1) in Hc. lia.
      * apply (covers_range _ _ _ G4) in Hc. lia.
    + split; [|split; [intros _; apply covers_app; right; left; lia|done]].
      rewrite (proj2 (Z.leb_le f i)), Z.gtb_ltb, (proj2 (Z.ltb_lt _ _)) by lia. done.
Qed.

(** A covered stretch lies in one interval. *)
Lemma covers_stretch l1 s l l2 start len :
  gapped (-1) (l1 ++ (s, l) :: l2) → last_end (-1) l1 <= start → start < s + l → 0 < len →
  (∀ i, start <= i < start + len → covers (l1 ++ (s, l) :: l2) i) ↔ s <= start ∧ start + len <= s + l.
Proof.
  intros [Hg1 (G1 & G2 & G3 & G4)]%gapped_app H1 H2 Hlen. split.
  - intros Hall. assert (s <= start) as Hs.
    { destruct (proj1 (covers_app _ _ _) (Hall start ltac:(lia))) as [Hc|[Hc|Hc]]; [|lia|].
      - apply (covers_range _ _ _ Hg1) in Hc. lia.
      - apply (covers_range _ _ _ G4) in Hc. lia. }
    split; [done|]. destruct (Z.le_gt_cases (start + len) (s + l)) as [Hle|Hgt]; [done|].
    destruct (proj1 (covers_app _ _ _) (Hall (s + l) ltac:(lia))) as [Hc|[Hc|Hc]]; [|lia|].
    + apply (covers_range _ _ _ Hg1) in Hc. lia.
    + apply (covers_range _ _ _ G4) in Hc. lia.
  - intros [Ha Hb] i Hi. apply covers_app. right. left. lia.
Qed.

Lemma not_covered_end l1 start :
  gapped (-1) l1 → last_end (-1) l1 <= start → ¬ covers l1 start.
Proof. intros Hg Hl Hc. apply (covers_range _ _ _ Hg) in Hc. lia. Qed.

Lemma contains_range_ok s start len :
  gapped (-1) (is_m s) → 0 <= start → 0 < len → start + len < T_max →
  ∃ b, contains_range s start len = Ok b ∧ (b = true ↔ ∀ i, start <= i < start + len → elem s i).
Proof.
  intros Hg Hi Hl Hm. unfold contains_range, elem. destruct (find_inc_ok _ _ Hg Hi) as (l1 & l2 & E & -> & H1 & H2).
  rewrite E in *. cbn [mbind res_bind]. rewrite end_mid. pose proof Hg as [Hg1 Hg2]%gapped_app.
  destruct l2 as [|[f l] l2].
  - exists false. split; [done|]. split; [done|]. rewrite app_nil_r. intros Hc.
    destruct (not_covered_end l1 start Hg1 H1). apply Hc. lia.
  - pose proof (covers_stretch l1 f l l2 start len Hg H1 H2 Hl) as Hst. rewrite iter_mid. cbn [mbind res_bind].
    destruct Hg2 as (G1 & G2 & G3 & G4).
    pose proof (last_end_ge _ _ Hg1). rewrite !u64_end by lia.
    destruct (Z.gtb_spec f start) as [Hf|Hf]; [exists false; split; [done|]; split; [done|rewrite Hst; lia]|].
    rewrite (proj2 (Z.leb_gt _ _)) by lia.
    rewrite (proj2 (Z.leb_le f start)), Z.gtb_ltb, (proj2 (Z.ltb_lt start (f + l))) by lia. cbn [andb assert_c mbind res_bind].
    destruct (Z.ltb_spec (f + l) (start + len)); [exists false|exists true]; (split; [done|]); rewrite Hst; (split; [done || lia|done || lia]).
Qed.

(** *** insert *)

Ltac gaps := repeat match goal with |- gapped _ (_ ++ _) => apply gapped_app | |- _ ∧ _ => split end.

Lemma insert_map_ok m start len :
  gapped (-1) m → 0 <= start → 0 < len → start + len < T_max → 
  (∀ i, start <= i < start + len → ¬ covers m i) →
  ∃ m', insert_map m start len = Ok m' ∧ gapped (-1) m' ∧ total m' = total m + len ∧
        ∀ i, covers m' i ↔ covers m i ∨ start <= i < start + len.
Proof.
  intros Hg Hs Hl Hm Hdis. unfold insert_map. destruct (find_adj_ok _ _ Hg Hs) as (l1 & l2 & -> & -> & H1 & H2).
  cbn [mbind res_bind]. rewrite end_mid. apply gapped_app in Hg as [Hg1 Hg2].
  pose proof (last_end_ge _ _ Hg1) as Hle. assert (starts_below start l1) as Hb by (apply (starts_below_last _ _ _ Hg1); lia).
  destruct l2 as [|[f l] l2].
  { eexists. split; [done|]. rewrite app_nil_r, <- (app_nil_r l1), map_put_app, (map_put_head []) by done.
    rewrite app_nil_r. split; [gaps; simpl; repeat split; (done || lia)|]. split; [rewrite total_app; simpl; lia|].
    intros i. rewrite covers_app. simpl. tauto. }
  rewrite iter_mid. cbn [mbind res_bind]. destruct Hg2 as (G1 & G2 & G3 & G4).
  destruct (Z.ltb_spec f start) as [Hf|Hf].
  - assert (f + l = start) as Hfl.
    { destruct (Z.eq_dec (f + l) start); [done|]. destruct (Hdis start); [lia|]. apply covers_app. right. left. lia. }
    rewrite u64_end, Hfl, Z.eqb_refl by lia. cbn [negb]. rewrite (u64_small (l + len)) by (unfold T_max in *; lia).
    rewrite set_second_mid. replace (S (length l1)) with (length (l1 ++ [(f, l + len)])) by (rewrite length_app; simpl; lia).
    replace (l1 ++ (f, l + len) :: l2) with ((l1 ++ [(f, l + len)]) ++ l2) by (by rewrite <- app_assoc).
    destruct l2 as [|[nf nl] l2].
    + rewrite lookup_ge_None_2 by (rewrite !length_app; simpl; lia). eexists. split; [done|]. rewrite app_nil_r.
      split; [gaps; simpl; repeat split; (done || lia)|]. split; [rewrite !total_app; simpl; lia|].
      intros i. rewrite !covers_app. simpl. assert (f <= i < f + (l + len) ↔ f <= i < f + l ∨ start <= i < start + len) by lia. tauto.
    + rewrite list_lookup_middle by done. destruct G4 as (K1 & K2 & K3 & K4). rewrite (u64_end start) by lia.
      assert (start + len <= nf) as Hnf.
      { destruct (Z.le_gt_cases (start + len) nf); [done|]. destruct (Hdis nf); [lia|].
        apply covers_app. right. right. left. lia. }
      destruct (Z.eqb_spec (start + len) nf) as [He|He].
      * rewrite <- app_assoc. cbn [app]. rewrite set_second_mid, (u64_small (l + len + nl)) by (unfold T_max in *; lia).
        replace (l1 ++ (f, l + len + nl) :: (nf, nl) :: l2) with ((l1 ++ [(f, l + len + nl)]) ++ (nf, nl) :: l2)
          by (by rewrite <- app_assoc).
        replace (length (l1 ++ [(f, l + len)])) with (length (l1 ++ [(f, l + len + nl)])) by (by rewrite !length_app).
        rewrite map_erase_mid. eexists. split; [done|]. rewrite <- app_assoc.
        split; [gaps; simpl; repeat split; try (done || lia); by replace (f + (l + len + nl)) with (nf + nl) by lia|].
        split; [rewrite !total_app; simpl; lia|]. intros i. rewrite !covers_app. simpl.
        assert (f <= i < f + (l + len + nl) ↔ f <= i < f + l ∨ start <= i < start + len ∨ nf <= i < nf + nl) by lia. tauto.
      * eexists. split; [done|]. rewrite <- app_assoc. split; [gaps; simpl; repeat split; (done || lia)|].
        split; [rewrite !total_app; simpl; lia|]. intros i. rewrite !covers_app. simpl.
        assert (f <= i < f + (l + len) ↔ f <= i < f + l ∨ start <= i < start + len) by lia. tauto.
  - assert (start + len <= f) as Hf'.
    { destruct (Z.le_gt_cases (start + len) f); [done|]. destruct (Hdis f); [lia|]. apply covers_app. right. left. lia. }
    rewrite (u64_end start) by lia. destruct (Z.eqb_spec (start + len) f) as [He|He].
    + rewrite map_put_app, map_put_head, u64_small by (done || unfold T_max in *; lia).
      replace (l1 ++ (start, len + l) :: (f, l) :: l2) with ((l1 ++ [(start, len + l)]) ++ (f, l) :: l2) by (by rewrite <- app_assoc).
      replace (S (length l1)) with (length (l1 ++ [(start, len + l)])) by (rewrite length_app; simpl; lia).
      rewrite map_erase_mid. eexists. split; [done|]. rewrite <- app_assoc.
      split; [gaps; simpl; repeat split; try (done || lia); by replace (start + (len + l)) with (f + l) by lia|].
      split; [rewrite !total_app; simpl; lia|]. intros i. rewrite !covers_app. simpl.
      assert (start <= i < start + (len + l) ↔ f <= i < f + l ∨ start <= i < start + len) by lia. tauto.
    + rewrite Z.gtb_ltb, (proj2 (Z.ltb_lt _ _)) by lia. cbn [assert_c mbind res_bind].
      rewrite map_put_app, map_put_head by (done || lia). eexists. split; [done|].
      split; [gaps; simpl; repeat split; (done || lia)|].
      split; [rewrite !total_app; simpl; lia|]. intros i. rewrite !covers_app. simpl. tauto.
Qed.

Lemma insert_range_ok s start len :
  iset_wf s → 0 <= start → 0 < len → start + len < T_max → total (is_m s) + len < 9223372036854775808 →
  (∀ i, start <= i < start + len → ¬ elem s i) →
  ∃ s', insert_range s start len = Ok s' ∧ iset_wf s' ∧ is_size s' = is_size s + len ∧
        ∀ i, elem s' i ↔ elem s i ∨ start <= i < start + len.
Proof.
  intros [Hg Hsz Hb] Hs Hl Hm Hlt Hdis. unfold insert_range. rewrite Z.gtb_ltb, (proj2 (Z.ltb_lt 0 len)) by done.
  cbn [assert_c mbind res_bind]. destruct (insert_map_ok _ start len Hg Hs Hl Hm Hdis) as (m & -> & Hg' & Ht & Hc).
  cbn [mbind res_bind]. pose proof (total_nonneg _ _ Hg). rewrite s64_small by lia.
  eexists. split; [done|]. split; [split; simpl; (done || lia)|done].
Qed.

(** *** erase *)

(** Removing a stretch that lies in one interval. *)
Lemma erase_map_ok l1 f l l2 start len :
  gapped (-1) (l1 ++ (f, l) :: l2) → f <= start → start + len <= f + l → 0 < len →
  let before := start - f in let after := f + l - (start + len) in
  let m := if negb (before =? 0) then set_second (l1 ++ (f, l) :: l2) (length l1) before
           else map_erase (l1 ++ (f, l) :: l2) (length l1) in
  let m := if negb (after =? 0) then map_put m (start + len) after else m in
  gapped (-1) m ∧ total m = total (l1 ++ (f, l) :: l2) - len ∧
  ∀ i, covers m i ↔ covers (l1 ++ (f, l) :: l2) i ∧ ¬ (start <= i < start + len).
Proof.
  intros [Hg1 (G1 & G2 & G3 & G4)]%gapped_app Hf He Hl before after.
  set (mid := (if negb (before =? 0) then [(f, before)] else []) ++
              (if negb (after =? 0) then [(start + len, after)] else [])).
  assert ((let m := if negb (before =? 0) then set_second (l1 ++ (f, l) :: l2) (length l1) before
            else map_erase (l1 ++ (f, l) :: l2) (length l1) in
           if negb (after =? 0) then map_put m (start + len) after else m) = l1 ++ mid ++ l2) as E.
  { pose proof (starts_below_last _ _ (start + len) Hg1 ltac:(lia)) as Hb. subst mid.
    assert (map_put l2 (start + len) after = (start + len, after) :: l2) as Hp.
    { apply map_put_head. destruct l2 as [|[nf nl] l2]; [done|]. simpl in G4. lia. }
    destruct (Z.eqb_spec before 0) as [E0|E0], (Z.eqb_spec after 0) as [E1|E1]; cbn [negb app].
    - by rewrite map_erase_mid.
    - by rewrite map_erase_mid, map_put_app, Hp.
    - by rewrite set_second_mid.
    - rewrite set_second_mid, map_put_app by done. f_equal. simpl.
      rewrite (proj2 (Z.ltb_lt f _)) by (subst before; lia). by rewrite Hp. }
  intros m m'. subst m m'. cbv zeta in E. rewrite E. clear E. subst mid before after.
  assert (∀ i, covers l1 i → i < f) as Hb by (intros i Hc; apply (covers_range _ _ _ Hg1) in Hc; lia).
  assert (∀ i, covers l2 i → f + l < i) as Ha by (intros i Hc; apply (covers_range _ _ _ G4) in Hc; lia).
  destruct (Z.eqb_spec (start - f) 0) as [E0|E0], (Z.eqb_spec (f + l - (start + len)) 0) as [E1|E1]; cbn [negb app].
  all: split; [apply gapped_app; split; [done|]; simpl; repeat split; try (done || lia);
               (apply (gapped_le _ _ _ G4); lia) || by replace (start + len + (f + l - (start + len))) with (f + l) by lia|].
  all: split; [rewrite !total_app; simpl; lia|]; intros i; rewrite !covers_app; simpl;
       specialize (Hb i); specialize (Ha i); split; intuition lia.
Qed.

Lemma erase_range_ok s start len :
  iset_wf s → 0 <= start → 0 < len → start + len < T_max → 
  (∀ i, start <= i < start + len → elem s i) →
  ∃ s', erase_range s start len = Ok s' ∧ iset_wf s' ∧ is_size s' = is_size s - len ∧
        ∀ i, elem s' i ↔ elem s i ∧ ¬ (start <= i < start + len).
Proof.
  intros [Hg Hsz Hb] Hs Hl Hm Hin. unfold erase_range, elem in *.
  destruct (find_inc_ok _ _ Hg Hs) as (l1 & l2 & E & -> & H1 & H2). rewrite E in *. clear E.
  cbn [mbind res_bind]. rewrite end_mid.
  destruct l2 as [|[f l] l2].
  { rewrite app_nil_r in *. destruct (not_covered_end l1 start Hg H1). apply Hin. lia. }
  apply (covers_stretch l1 f l l2 start len Hg H1 H2 Hl) in Hin as [Hf He].
  pose proof Hg as [Hg1 (G1 & G2 & G3 & G4)]%gapped_app.
  pose proof (last_end_ge _ _ Hg1). pose proof (total_nonneg _ _ Hg1). pose proof (total_nonneg _ _ G4).
  rewrite total_app in Hsz, Hb. cbn [total] in Hsz, Hb. unfold T_max in *.
  rewrite s64_small by lia. rewrite Z.geb_leb, (proj2 (Z.leb_le 0 _)) by lia. cbn [assert_c mbind res_bind negb].
  rewrite iter_mid. cbn [mbind res_bind]. rewrite (proj2 (Z.leb_le f start)) by lia. cbn [assert_c mbind res_bind].
  rewrite !(u64_small (start - f)), (u64_small (start - f + len)) by lia.
  rewrite Z.geb_leb, (proj2 (Z.leb_le (start - f + len) l)) by lia. cbn [assert_c mbind res_bind].
  rewrite (u64_small (l - (start - f))), (u64_small (start + len)) by lia.
  replace (l - (start - f) - len) with (f + l - (start + len)) by lia. rewrite (u64_small (f + l - _)) by lia.
  destruct (erase_map_ok l1 f l l2 start len Hg Hf He Hl) as (Hg' & Ht & Hc). 
  eexists. split; [done|]. cbn [is_m is_size]. split; [split; cbn [is_m is_size]; [exact Hg'|..]|split; [done|exact Hc]].
  - rewrite Ht, total_app. cbn [total]. lia.
  - rewrite Ht, total_app. cbn [total]. lia.
Qed.

(** Erasing what is not wholly there trips an assertion. *)
Lemma erase_range_asserts s start len :
  iset_wf s → 0 <= start → 0 < len → start + len < T_max → 
  ¬ (∀ i, start <= i < start + len → elem s i) → erase_range s start len = Fault AssertFailed.
Proof.
  intros [Hg Hsz Hb] Hs Hl Hm Hin. unfold erase_range, elem in *.
  destruct (find_inc_ok _ _ Hg Hs) as (l1 & l2 & E & -> & H1 & H2). rewrite E in *. clear E.
  cbn [mbind res_bind]. rewrite end_mid. destruct (s64 _ >=? 0); [|done]. cbn [assert_c mbind res_bind].
  destruct l2 as [|[f l] l2]; [done|]. cbn [negb assert_c mbind res_bind].
  rewrite iter_mid. cbn [mbind res_bind]. destruct (Z.leb_spec f start) as [Hf|Hf]; [|done]. cbn [assert_c mbind res_bind].
  pose proof Hg as [Hg1 (G1 & G2 & G3 & G4)]%gapped_app. pose proof (last_end_ge _ _ Hg1). unfold T_max in *.
  rewrite (u64_small (start - f)), (u64_small (start - f + len)) by lia. rewrite Z.geb_leb.
  destruct (Z.leb_spec (start - f + len) l) as [He|He]; [|done].
  destruct Hin. apply (covers_stretch l1 f l l2 start len Hg H1 H2 Hl). lia.
Qed.

(** ** The algebra of interval sets (src/include/interval_set.h)

    Intersection, union, difference, inclusion and [span_of], from the facts on
    single insertions and removals. *)

Lemma iset_empty_wf : iset_wf iset_empty.
Proof. split; simpl; (done || lia). Qed.

Lemma elem_bounds s i : iset_wf s → elem s i → 0 <= i < T_max.
Proof.
  intros [Hg _ _] He. unfold elem in He. apply (covers_range _ _ _ Hg) in He as Hr. split; [lia|].
  revert He. clear Hr. revert Hg. generalize (-1). induction (is_m s) as [|[f l] m IH]; intros lo; simpl; [done|].
  intros (H1 & H2 & H3 & H4) [Hc|Hc]; [lia|by apply (IH (f + l))].
Qed.

(** Sets with the same elements are equal. *)
Lemma iset_canonical a b : iset_wf a → iset_wf b → (∀ i, elem a i ↔ elem b i) → a = b.
Proof.
  intros [Ga Sa _] [Gb Sb _] H. destruct a as [na ma], b as [nb mb]. simpl in *.
  pose proof (gapped_canonical _ _ _ Ga Gb H) as ->. by rewrite Sa, Sb.
Qed.

Lemma gapped_in lo m f l : gapped lo m → (f, l) ∈ m → lo < f ∧ 0 < l ∧ f + l < T_max ∧ ∀ i, f <= i < f + l → covers m i.
Proof.
  revert lo. induction m as [|[s k] m IH]; intros lo; [intros _ H; by apply elem_of_nil in H|].
  intros (H1 & H2 & H3 & H4) [[= -> ->]|Hin]%elem_of_cons.
  - repeat split; (done || lia || idtac). intros i Hi. by left.
  - destruct (IH _ H4 Hin) as (K1 & K2 & K3 & K4). repeat split; try (done || lia). intros i Hi. right. by apply K4.
Qed.

(** *** Loops over the intervals of the argument *)

Lemma subtract_from_ok a lo : ∀ s,
  gapped lo a → -1 <= lo → iset_wf s → (∀ i, covers a i → elem s i) →
  ∃ s', subtract_from s a = Ok s' ∧ iset_wf s' ∧ is_size s' = is_size s - total a ∧
        ∀ i, elem s' i ↔ elem s i ∧ ¬ covers a i.
Proof.
  revert lo. induction a as [|[f l] a IH]; intros lo s.
  { intros _ _ Hs _. exists s. split; [done|]. split; [done|]. split; [simpl; lia|]. intros i. simpl. tauto. }
  intros (H1 & H2 & H3 & H4) Hlo Hs Hin. cbn [subtract_from].
  destruct (erase_range_ok s f l Hs ltac:(lia) H2 H3) as (s1 & -> & Hs1 & Hz1 & He1).
  { intros i Hi. apply Hin. by left. }
  cbn [mbind res_bind]. destruct (IH (f + l) s1 H4 ltac:(lia) Hs1) as (s2 & -> & Hs2 & Hz2 & He2).
  { intros i Hi. apply He1. split; [apply Hin; by right|]. apply (covers_range _ _ _ H4) in Hi. lia. }
  exists s2. split; [done|]. split; [done|]. split; [simpl; lia|]. intros i. rewrite He2, He1. simpl. tauto.
Qed.

Lemma insert_from_ok a lo : ∀ s,
  gapped lo a → -1 <= lo → iset_wf s → (∀ i, covers a i → ¬ elem s i) →
  is_size s + total a < 9223372036854775808 →
  ∃ s', insert_from s a = Ok s' ∧ iset_wf s' ∧ is_size s' = is_size s + total a ∧
        ∀ i, elem s' i ↔ elem s i ∨ covers a i.
Proof.
  revert lo. induction a as [|[f l] a IH]; intros lo s.
  { intros _ _ Hs _ _. exists s. split; [done|]. split; [done|]. split; [simpl; lia|]. intros i. simpl. tauto. }
  intros (H1 & H2 & H3 & H4) Hlo Hs Hin Ht. cbn [insert_from]. simpl in Ht. pose proof (total_nonneg _ _ H4).
  destruct (insert_range_ok s f l Hs ltac:(lia) H2 H3) as (s1 & -> & Hs1 & Hz1 & He1).
  { rewrite <- (iw_size _ Hs). lia. } { intros i Hi. apply Hin. by left. }
  cbn [mbind res_bind]. destruct (IH (f + l) s1 H4 ltac:(lia) Hs1) as (s2 & -> & Hs2 & Hz2 & He2).
  { intros i Hi He. apply He1 in He as [He|He]; [by apply (Hin i); [right|]|].
    apply (covers_range _ _ _ H4) in Hi. lia. } { lia. }
  exists s2. split; [done|]. split; [done|]. split; [simpl; lia|]. intros i. rewrite He2, He1. simpl. tauto.
Qed.

Lemma all_contained_ok big a lo :
  gapped lo a → -1 <= lo → gapped (-1) (is_m big) →
  ∃ b, all_contained big a = Ok b ∧ (b = true ↔ ∀ i, covers a i → elem big i).
Proof.
  revert lo. induction a as [|[f l] a IH]; intros lo; [by exists true|].
  intros (H1 & H2 & H3 & H4) Hlo Hb. cbn [all_contained].
  destruct (contains_range_ok big f l Hb ltac:(lia) H2 H3) as ([|] & -> & Hc); cbn [mbind res_bind negb].
  - destruct (IH _ H4 ltac:(lia) Hb) as (b & -> & Hb'). exists b. split; [done|]. rewrite Hb'. split.
    + intros H i [Hi|Hi]; [by apply Hc|by apply H].
    + intros H i Hi. apply H. by right.
  - exists false. split; [done|]. split; [done|]. intros H. apply Hc. intros i Hi. apply H. by left.
Qed.

(** A stretch that fits beside [m] inside [a] fits in its count too. *)
Lemma room_inside m start a len :
  gapped (-1) m → gapped (-1) a → 0 <= start → 0 < len → start + len < T_max →
  (∀ i, start <= i < start + len → ¬ covers m i) → (∀ i, covers m i → covers a i) →
  (∀ i, start <= i < start + len → covers a i) → total m + len <= total a.
Proof.
  intros Hm Ha Hs Hl Hlt Hdis Hsub Hin. destruct (insert_map_ok m start len) as (m' & _ & Hg & <- & Hc); [done..|].
  apply total_mono; [done..|]. intros i [Hi|Hi]%Hc; auto.
Qed.

(** *** Intersection *)

Section intersection.
Context (a b : list (Z * Z)) (Ha : gapped (-1) a) (Hb : gapped (-1) b) (Hta : total a < 9223372036854775808).

(** What has been put out lies below what remains, and inside [a]. *)
Definition below (out : interval_set) (ra rb : list (Z * Z)) : Prop :=
  ∀ i j, elem out i → covers ra j → covers rb j → i < j.

Lemma below_mono out ra rb ra' rb' :
  below out ra rb → (∀ j, covers ra' j → covers ra j) → (∀ j, covers rb' j → covers rb j) → below out ra' rb'.
Proof. intros H Ha' Hb' i j Hi Hj Hk. apply (H i j); auto. Qed.

Lemma covers_tail x r j : covers r j → covers (x :: r) j.
Proof. destruct x. by right. Qed.

Lemma end_suffix (r0 r : list (Z * Z)) m : m = r0 ++ r → (length r0 =? length m)%nat = match r with [] => true | _ => false end.
Proof. intros ->. apply end_mid. Qed.

Lemma iter_suffix (r0 r : list (Z * Z)) m x : m = r0 ++ x :: r → iter m (length r0) = Ok x.
Proof. intros ->. apply iter_mid. Qed.

Lemma snoc_suffix (r0 r : list (Z * Z)) m x : m = r0 ++ x :: r → m = (r0 ++ [x]) ++ r ∧ S (length r0) = length (r0 ++ [x]).
Proof. intros ->. rewrite <- app_assoc, length_app. simpl. split; [done|lia]. Qed.

Lemma gapped_suffix (r0 r : list (Z * Z)) m : gapped (-1) m → m = r0 ++ r → gapped (-1) r.
Proof. intros Hg ->. apply gapped_app in Hg as [H1 H2]. apply (gapped_le _ _ _ H2). by apply last_end_ge. Qed.

Lemma intersect_loop_ok fuel : ∀ ra0 ra rb0 rb out,
  a = ra0 ++ ra → b = rb0 ++ rb → (length ra + length rb <= fuel)%nat →
  iset_wf out → below out ra rb → (∀ i, elem out i → covers a i) →
  ∃ s, intersect_loop a b fuel (length ra0) (length rb0) out = Ok s ∧ iset_wf s ∧
       ∀ i, elem s i ↔ elem out i ∨ (covers ra i ∧ covers rb i).
Proof.
  induction fuel as [|fuel IH]; intros ra0 ra rb0 rb out Ea Eb Hf Ho Hbel Hsub; cbn [intersect_loop];
    rewrite (end_suffix _ _ _ Ea), (end_suffix _ _ _ Eb).
  { destruct ra; [|simpl in Hf; lia]. exists out. split; [done|]. split; [done|]. intros i. simpl. tauto. }
  destruct ra as [|[af al] ra]; [exists out; split; [done|]; split; [done|]; intros i; simpl; tauto|].
  destruct rb as [|[bf bl] rb]; [exists out; split; [done|]; split; [done|]; intros i; simpl; tauto|].
  simpl in Hf. rewrite (iter_suffix _ _ _ _ Ea), (iter_suffix _ _ _ _ Eb). cbn [orb mbind res_bind].
  destruct (snoc_suffix _ _ _ _ Ea) as [Ea' La], (snoc_suffix _ _ _ _ Eb) as [Eb' Lb].
  pose proof (gapped_suffix _ _ _ Ha Ea) as (A1 & A2 & A3 & A4). pose proof (gapped_suffix _ _ _ Hb Eb) as (B1 & B2 & B3 & B4).
  assert (∀ j, covers ra j → af + al < j) as Hra by (intros j Hj; apply (covers_range _ _ _ A4) in Hj; lia).
  assert (∀ j, covers rb j → bf + bl < j) as Hrb by (intros j Hj; apply (covers_range _ _ _ B4) in Hj; lia).
  rewrite !u64_end by lia.
  destruct (Z.leb_spec (af + al) bf) as [H1|H1].
  { rewrite La. destruct (IH _ ra rb0 ((bf, bl) :: rb) out Ea' Eb) as (s & E & Hs & He); [simpl; lia|done| |done|].
    { apply (below_mono _ _ _ _ _ Hbel); [apply covers_tail|done]. }
    exists s. split; [exact E|]. split; [done|]. intros i. rewrite He. simpl.
    specialize (Hra i). specialize (Hrb i). intuition lia. }
  destruct (Z.leb_spec (bf + bl) af) as [H2|H2].
  { rewrite Lb. destruct (IH _ ((af, al) :: ra) _ rb out Ea Eb') as (s & E & Hs & He); [simpl; lia|done| |done|].
    { apply (below_mono _ _ _ _ _ Hbel); [done|apply covers_tail]. }
    exists s. split; [exact E|]. split; [done|]. intros i. rewrite He. simpl.
    specialize (Hra i). specialize (Hrb i). intuition lia. }
  rewrite (Z.gtb_ltb (Z.min _ _)), (proj2 (Z.ltb_lt (Z.max af bf) _)) by lia. cbn [assert_c mbind res_bind].
  rewrite u64_small by (unfold T_max in *; lia).
  assert (∀ i, Z.max af bf <= i < Z.max af bf + (Z.min (af + al) (bf + bl) - Z.max af bf) → ¬ elem out i) as Hdis.
  { intros i Hi He. enough (i < i) by lia. apply (Hbel i i He); left; lia. }
  destruct (insert_range_ok out (Z.max af bf) (Z.min (af + al) (bf + bl) - Z.max af bf) Ho) as (o1 & -> & Ho1 & _ & He1);
    [lia|lia|lia| |done|].
  { eapply Z.le_lt_trans; [|exact Hta]. apply (room_inside _ (Z.max af bf) a); try done; try lia; [apply Ho|].
    intros i Hi. rewrite Ea. apply covers_app. right. left. lia. }
  cbn [mbind res_bind].
  assert (∀ i, elem o1 i → covers a i) as Hsub1.
  { intros i [Hi|Hi]%He1; [by apply Hsub|]. rewrite Ea. apply covers_app. right. left. lia. }
  rewrite Z.gtb_ltb. destruct (Z.ltb_spec (bf + bl) (af + al)) as [H3|H3].
  - rewrite Lb. destruct (IH _ ((af, al) :: ra) _ rb o1 Ea Eb') as (s & E & Hs & He); [simpl; lia|done| |done|].
    { intros i j [Hi|Hi]%He1 Hj Hk; [by apply (Hbel i j Hi Hj), covers_tail|]. specialize (Hrb j Hk). lia. }
    exists s. split; [exact E|]. split; [done|]. intros i. rewrite He, He1. simpl.
    specialize (Hra i). specialize (Hrb i). intuition lia.
  - rewrite La. destruct (IH _ ra rb0 ((bf, bl) :: rb) o1 Ea' Eb) as (s & E & Hs & He); [simpl; lia|done| |done|].
    { intros i j [Hi|Hi]%He1 Hj Hk; [by apply (Hbel i j Hi); [apply covers_tail|]|]. specialize (Hra j Hj). lia. }
    exists s. split; [exact E|]. split; [done|]. intros i. rewrite He, He1. simpl.
    specialize (Hra i). specialize (Hrb i). intuition lia.
Qed.
End intersection.

Lemma intersection_ok a b :
  iset_wf a → iset_wf b →
  ∃ s, intersection_of a b = Ok s ∧ iset_wf s ∧ ∀ i, elem s i ↔ elem a i ∧ elem b i.
Proof.
  intros [Ga Sa Ba] [Gb Sb Bb]. unfold intersection_of.
  destruct (intersect_loop_ok (is_m a) (is_m b) Ga Gb Ba (length (is_m a) + length (is_m b)) [] (is_m a) [] (is_m b)
    iset_empty eq_refl eq_refl (Nat.le_refl _) iset_empty_wf) as (s & E & Hs & He); [by intros i j []|by intros i []|].
  exists s. split; [exact E|]. split; [done|]. intros i. rewrite He. unfold elem. simpl. tauto.
Qed.

Lemma subtract_ok s a :
  iset_wf s → iset_wf a → (∀ i, elem a i → elem s i) →
  ∃ s', subtract s a = Ok s' ∧ iset_wf s' ∧ is_size s' = is_size s - is_size a ∧
        ∀ i, elem s' i ↔ elem s i ∧ ¬ elem a i.
Proof. intros Hs [Ga Sa _] Hsub. rewrite Sa. by apply (subtract_from_ok (is_m a) (-1) s Ga). Qed.

Lemma insert_set_ok s a :
  iset_wf s → iset_wf a → (∀ i, elem a i → ¬ elem s i) → is_size s + is_size a < 9223372036854775808 →
  ∃ s', insert_set s a = Ok s' ∧ iset_wf s' ∧ is_size s' = is_size s + is_size a ∧
        ∀ i, elem s' i ↔ elem s i ∨ elem a i.
Proof. intros Hs [Ga Sa _] Hsub. rewrite Sa. by apply (insert_from_ok (is_m a) (-1) s Ga). Qed.

Lemma size_mono a b : iset_wf a → iset_wf b → (∀ i, elem a i → elem b i) → is_size a <= is_size b.
Proof. intros [Ga -> _] [Gb -> _]. by apply total_mono. Qed.

Lemma iset_eta s : ISet (is_size s) (is_m s) = s.
Proof. by destruct s. Qed.

Lemma elem_dec s i : {elem s i} + {¬ elem s i}.
Proof.
  unfold elem. induction (is_m s) as [|[f l] m IH]; simpl; [right; tauto|].
  destruct (decide (f <= i < f + l)); [by left; left|]. destruct IH; [by left; right|right; tauto].
Qed.

Lemma union_ok a b :
  iset_wf a → iset_wf b → is_size a + is_size b < 9223372036854775808 →
  ∃ s, union_of a b = Ok s ∧ iset_wf s ∧ ∀ i, elem s i ↔ elem a i ∨ elem b i.
Proof.
  intros Ha Hb Ht. unfold union_of. destruct (intersection_ok a b Ha Hb) as (ab & -> & Hab & Eab).
  cbn [mbind res_bind]. rewrite iset_eta.
  destruct (subtract_ok a ab Ha Hab) as (s1 & -> & Hs1 & Z1 & E1); [intros i Hi; by apply Eab|].
  cbn [mbind res_bind]. pose proof (total_nonneg _ _ (iw_gapped _ Hab)) as Hn. rewrite <- (iw_size _ Hab) in Hn.
  destruct (insert_set_ok s1 b Hs1 Hb) as (s2 & -> & Hs2 & Z2 & E2); [|lia|].
  { intros i Hi [Ha' Hn']%E1. apply Hn', Eab. done. }
  exists s2. split; [done|]. split; [done|]. intros i. rewrite E2, E1, Eab. destruct (elem_dec b i); tauto.
Qed.

Lemma subset_ok a b : iset_wf a → iset_wf b → ∃ r, subset_of a b = Ok r ∧ (r = true ↔ ∀ i, elem a i → elem b i).
Proof. intros [Ga _ _] [Gb _ _]. by apply (all_contained_ok b (is_m a) (-1)). Qed.

Lemma intersects_ok s start len :
  iset_wf s → 0 <= start → 0 < len → start + len < T_max → len < 9223372036854775808 →
  ∃ r, intersects s start len = Ok r ∧ (r = true ↔ ∃ i, start <= i < start + len ∧ elem s i).
Proof.
  intros Hs H1 H2 H3 H4. unfold intersects.
  destruct (insert_range_ok iset_empty start len iset_empty_wf H1 H2 H3 H4) as (a & -> & Ha & _ & Ea); [by intros i _ []|].
  cbn [mbind res_bind]. destruct (intersection_ok s a Hs Ha) as (x & -> & Hx & Ex). cbn [mbind res_bind].
  exists (negb (empty x)). split; [done|]. unfold empty. destruct (is_m x) as [|[f l] m] eqn:Em; cbn [negb].
  - split; [done|]. intros (i & Hi & He). assert (elem x i) as Hex by (apply Ex; split; [done|]; apply Ea; by right).
    unfold elem in Hex. by rewrite Em in Hex.
  - split; [intros _|done]. pose proof (iw_gapped _ Hx) as Hg. rewrite Em in Hg. destruct Hg as (G1 & G2 & _).
    assert (elem x f) as Hf by (unfold elem; rewrite Em; left; lia). apply Ex in Hf as [Hf [[]|Hr]%Ea]. by exists f.
Qed.

(** *** span_of *)

(** Inserting after everything there. *)
Lemma insert_after s start len E :
  iset_wf s → (∀ i, elem s i → i < E) → E <= start → 0 <= start → 0 < len → start + len < T_max →
  is_size s + len < 9223372036854775808 →
  ∃ s', insert_range s start len = Ok s' ∧ iset_wf s' ∧ is_size s' = is_size s + len ∧
        (∀ i, elem s' i ↔ elem s i ∨ start <= i < start + len) ∧ ∀ i, elem s' i → i < start + len.
Proof.
  intros Hs He HE H0 Hl Hm Ht. destruct (insert_range_ok s start len Hs) as (s' & E' & Hs' & Hz & Hc); [lia|done..| | |].
  - by rewrite <- (iw_size _ Hs).
  - intros i Hi Hin. apply He in Hin. lia.
  - exists s'. split; [done|]. split; [done|]. split; [done|]. split; [exact Hc|]. intros i [Hi|Hi]%Hc; [apply He in Hi|]; lia.
Qed.

(** Values of [m] with fewer than [n] values of [m] before them. *)
Definition first_of (m : list (Z * Z)) (n : Z) (i : Z) : Prop := covers m i ∧ count_below m i < n.

Lemma count_below_low lo m x : gapped lo m → x <= lo + 1 → count_below m x = 0.
Proof.
  revert lo. induction m as [|[s l] m IH]; intros lo; simpl; [done|]. intros (H1 & H2 & H3 & H4) Hx.
  rewrite (IH _ H4); lia.
Qed.

Lemma count_below_nonneg lo m x : gapped lo m → 0 <= count_below m x.
Proof.
  revert lo. induction m as [|[s l] m IH]; intros lo; simpl; [done|]. intros (H1 & H2 & H3 & H4).
  specialize (IH _ H4). lia.
Qed.

Lemma first_of_cons lo s l m n i :
  gapped lo ((s, l) :: m) →
  first_of ((s, l) :: m) n i ↔ s <= i < s + Z.min l n ∨ first_of m (n - l) i.
Proof.
  intros (H1 & H2 & H3 & H4). unfold first_of. simpl.
  pose proof (count_below_nonneg _ _ i H4). destruct (decide (i <= s + l)) as [Hi|Hi].
  - rewrite (count_below_low _ _ i H4) by lia. split; [|intuition lia].
    intros [[Hc|Hc] Hn]; [left; lia|]. apply (covers_range _ _ _ H4) in Hc. lia.
  - split; [|intuition lia]. intros [[Hc|Hc] Hn]; [lia|]. right. split; [done|lia].
Qed.

Lemma span_loop_ok rest : ∀ lo len out,
  gapped lo rest → -1 <= lo → 0 <= len < T_max → iset_wf out → (∀ i, elem out i → i < lo) →
  is_size out + total rest < 9223372036854775808 →
  ∃ s, span_loop rest len out = Ok s ∧ iset_wf s ∧ ∀ i, elem s i ↔ elem out i ∨ first_of rest len i.
Proof.
  induction rest as [|[f l] rest IH]; intros lo len out Hg Hlo Hlen Ho Hb Ht; cbn [span_loop].
  { exists out. split; [done|]. split; [done|]. intros i. unfold first_of. simpl. tauto. }
  pose proof Hg as (H1 & H2 & H3 & H4). pose proof (total_nonneg _ _ H4) as Hn. simpl in Ht. rewrite Z.gtb_ltb.
  destruct (Z.ltb_spec 0 len) as [H0|H0]; cbn [negb].
  - destruct (Z.ltb_spec l len) as [Hl|Hl].
    + destruct (insert_after out f l lo Ho Hb ltac:(lia) ltac:(lia) H2 H3 ltac:(lia)) as (o1 & -> & Ho1 & Hz & He1 & Hb1).
      cbn [mbind res_bind]. rewrite u64_small by (unfold T_max in *; lia).
      destruct (IH (f + l) (len - l) o1 H4 ltac:(lia) ltac:(lia) Ho1 Hb1 ltac:(lia)) as (s & -> & Hs & He).
      exists s. split; [done|]. split; [done|]. intros i. rewrite He, He1, (first_of_cons _ _ _ _ _ _ Hg).
      rewrite Z.min_l by lia. tauto.
    + destruct (insert_after out f len lo Ho Hb ltac:(lia) ltac:(lia) H0 ltac:(lia) ltac:(lia)) as (o1 & -> & Ho1 & _ & He1 & _).
      exists o1. split; [done|]. split; [done|]. intros i. rewrite He1, (first_of_cons _ _ _ _ _ _ Hg).
      rewrite Z.min_r by lia. unfold first_of. pose proof (count_below_nonneg _ _ i H4). intuition lia.
  - exists out. split; [done|]. split; [done|]. intros i. unfold first_of.
    pose proof (count_below_nonneg _ _ i Hg). intuition lia.
Qed.

Lemma count_below_app m1 m2 x : count_below (m1 ++ m2) x = count_below m1 x + count_below m2 x.
Proof. induction m1 as [|[s l] m1 IH]; simpl; [done|]. rewrite IH. lia. Qed.

Lemma count_below_high lo m x : gapped lo m → last_end lo m <= x → count_below m x = total m.
Proof.
  revert lo. induction m as [|[s l] m IH]; intros lo; simpl; [done|]. intros (H1 & H2 & H3 & H4) Hx.
  pose proof (last_end_ge _ _ H4). rewrite (IH _ H4); lia.
Qed.

(** The part of the intervals [l2] from [start] on. *)
Definition cut_at (start : Z) (l2 : list (Z * Z)) : list (Z * Z) :=
  match l2 with
  | (f, l) :: r => if f <? start then (start, f + l - start) :: r else l2
  | [] => []
  end.

Lemma span_of_loop s start len :
  gapped (-1) (is_m s) → 0 <= start → 0 < len → start + len < T_max →
  ∃ l1 l2, is_m s = l1 ++ l2 ∧ last_end (-1) l1 <= start ∧
    match l2 with [] => True | (f, l) :: _ => start < f + l end ∧
    span_of s start len = span_loop (cut_at start l2) len iset_empty.
Proof.
  intros Hg Hs Hl Hm. destruct (find_inc_ok _ _ Hg Hs) as (l1 & l2 & E & F & H1 & H2). exists l1, l2.
  repeat split; try done. unfold span_of. rewrite F, E in *. cbn [mbind res_bind]. rewrite end_mid.
  destruct l2 as [|[f l] l2]; [done|]. rewrite iter_mid. cbn [mbind res_bind cut_at].
  apply gapped_app in Hg as [Hg1 (G1 & G2 & G3 & G4)]. pose proof (last_end_ge _ _ Hg1).
  destruct (Z.ltb_spec f start) as [Hf|Hf].
  - rewrite !u64_end by lia. rewrite (proj2 (Z.ltb_ge (f + l) start)) by lia.
    rewrite (u64_small (start - f)), (u64_small (l - _)) by (unfold T_max in *; lia).
    replace (l - (start - f)) with (f + l - start) by lia.
    replace (drop (S (length l1)) (l1 ++ (f, l) :: l2)) with l2.
    2: { replace (l1 ++ (f, l) :: l2) with ((l1 ++ [(f, l)]) ++ l2) by (by rewrite <- app_assoc).
         replace (S (length l1)) with (length (l1 ++ [(f, l)])) by (rewrite length_app; simpl; lia).
         by rewrite drop_app_length. }
    cbn [span_loop]. rewrite Z.gtb_ltb, (proj2 (Z.ltb_lt 0 len)) by lia. cbn [negb].
    destruct (Z.ltb_spec (f + l) (start + len)), (Z.ltb_spec (f + l - start) len); try lia; done.
  - by rewrite drop_app_length.
Qed.

Lemma cut_at_ok lo start l2 :
  gapped lo l2 → lo <= start → match l2 with [] => True | (f, l) :: _ => start < f + l end →
  gapped (start - 1) (cut_at start l2) ∧ total (cut_at start l2) <= total l2 ∧
  (∀ i, covers (cut_at start l2) i ↔ covers l2 i ∧ start <= i) ∧
  ∀ i, start <= i → count_below (cut_at start l2) i = count_below l2 i - count_below l2 start.
Proof.
  destruct l2 as [|[f l] r]; [intros; simpl; split; [done|split; [lia|split; [tauto|lia]]]|].
  intros Hg Hlo Hh. pose proof Hg as (G1 & G2 & G3 & G4). cbn [cut_at].
  assert (∀ i, covers r i → start < i) as Hr by (intros i Hc; apply (covers_range _ _ _ G4) in Hc; lia).
  destruct (Z.ltb_spec f start) as [Hf|Hf].
  - split; [simpl; repeat split; try lia; by replace (start + (f + l - start)) with (f + l) by lia|].
    split; [simpl; lia|]. split; intros i; simpl; specialize (Hr i); [intuition lia|]. intros Hi.
    rewrite (count_below_low _ _ start G4) by lia. lia.
  - split; [simpl; repeat split; (done || lia)|]. split; [lia|].
    split; intros i; [simpl; specialize (Hr i); intuition lia|]. intros Hi.
    rewrite (count_below_low (start - 1) ((f, l) :: r) start); [lia|simpl; repeat split; (done || lia)|lia].
Qed.

Lemma span_ok s start len :
  iset_wf s → 0 <= start → 0 < len → start + len < T_max →
  ∃ s', span_of s start len = Ok s' ∧ iset_wf s' ∧
        ∀ i, elem s' i ↔ elem s i ∧ start <= i ∧ count_below (is_m s) i - count_below (is_m s) start < len.
Proof.
  intros [Hg Hsz Hb] Hs Hl Hm. destruct (span_of_loop s start len Hg Hs Hl Hm) as (l1 & l2 & E & H1 & H2 & ->).
  unfold elem at 2. rewrite E in *. pose proof Hg as [Hg1 Hg2]%gapped_app. pose proof (last_end_ge _ _ Hg1).
  rewrite total_app in Hb. pose proof (total_nonneg _ _ Hg1).
  destruct (cut_at_ok _ start l2 Hg2 H1 H2) as (Gc & Tc & Cc & Nc).
  destruct (span_loop_ok (cut_at start l2) (start - 1) len iset_empty Gc ltac:(lia) ltac:(lia) iset_empty_wf)
    as (s' & -> & Hs' & He); [by intros i []|simpl; lia|].
  exists s'. split; [done|]. split; [done|]. intros i. rewrite He. unfold first_of, elem. simpl.
  rewrite Cc, covers_app, !count_below_app, (count_below_high _ _ start Hg1) by lia.
  destruct (Z.le_gt_cases start i) as [Hi|Hi]; [|intuition lia].
  pose proof (not_covered_end l1 i Hg1 ltac:(lia)) as Hn.
  rewrite (count_below_high _ _ i Hg1), Nc by lia. intuition lia.
Qed.

(** ** Properties of interval sets (src/include/interval_set.h)

    Against the abstract set of covered values: insertion and removal of a
    stretch, the algebra, equality and [span_of]. *)

(** Inserting a stretch of values none of which is in the set keeps the
    intervals sorted, apart and not empty, and gives exactly the union; [_size]
    stays the number of values. *)
Theorem interval_insert_refines s start len :
  iset_wf s → 0 <= start → 0 < len → start + len < T_max → is_size s + len < 9223372036854775808 →
  (∀ i, start <= i < start + len → ¬ elem s i) →
  ∃ s', insert_range s start len = Ok s' ∧ iset_wf s' ∧ is_size s' = is_size s + len ∧
        ∀ i, elem s' i ↔ elem s i ∨ start <= i < start + len.
Proof. intros Hs H1 H2 H3 H4. rewrite (iw_size _ Hs) in H4. by apply insert_range_ok. Qed.

(** Erasing a stretch either succeeds, exactly when all its values are in the
    set, and then removes exactly them, or trips an assertion. *)
Theorem interval_erase_exact s start len :
  iset_wf s → 0 <= start → 0 < len → start + len < T_max →
  ((∀ i, start <= i < start + len → elem s i) ∧
   ∃ s', erase_range s start len = Ok s' ∧ iset_wf s' ∧ is_size s' = is_size s - len ∧
         ∀ i, elem s' i ↔ elem s i ∧ ¬ (start <= i < start + len)) ∨
  (¬ (∀ i, start <= i < start + len → elem s i) ∧ erase_range s start len = Fault AssertFailed).
Proof.
  intros Hs H1 H2 H3. destruct (contains_range_ok s start len (iw_gapped _ Hs) H1 H2 H3) as ([|] & _ & Hc).
  - left. split; [by apply Hc|]. apply erase_range_ok; [done..|]. by apply Hc.
  - right. assert (¬ ∀ i, start <= i < start + len → elem s i) as Hn by (intros H; by apply Hc in H).
    split; [done|]. by apply erase_range_asserts.
Qed.

(** C31: The binary operations terminate and compute the set operations: the
    intersection, the union, the difference with a subset, and inclusion; the
    results are again well formed. *)
Theorem interval_algebra a b :
  iset_wf a → iset_wf b → is_size a + is_size b < 9223372036854775808 →
  (∃ s, intersection_of a b = Ok s ∧ iset_wf s ∧ ∀ i, elem s i ↔ elem a i ∧ elem b i) ∧
  (∃ s, union_of a b = Ok s ∧ iset_wf s ∧ ∀ i, elem s i ↔ elem a i ∨ elem b i) ∧
  (∃ r, subset_of a b = Ok r ∧ (r = true ↔ ∀ i, elem a i → elem b i) ∧
        (r = true → ∃ s, subtract b a = Ok s ∧ iset_wf s ∧ ∀ i, elem s i ↔ elem b i ∧ ¬ elem a i)).
Proof.
  intros Ha Hb Ht. split; [by apply intersection_ok|]. split; [by apply union_ok|].
  destruct (subset_ok a b Ha Hb) as (r & E & Hr). exists r. split; [done|]. split; [done|]. intros Hsub.
  destruct (subtract_ok b a Hb Ha (proj1 Hr Hsub)) as (s & Es & Hs & _ & He). by exists s.
Qed.

(** The representation is canonical: [operator==], which compares the lists
    of intervals and the sizes, is equality of the sets of values. *)
Theorem interval_eq_extensional a b :
  iset_wf a → iset_wf b → (iset_eqb a b = true ↔ ∀ i, elem a i ↔ elem b i).
Proof.
  intros Ha Hb. unfold iset_eqb. rewrite andb_true_iff, Z.eqb_eq, bool_decide_eq_true. split.
  - intros [_ Hm] i. unfold elem. by rewrite Hm.
  - intros H. by rewrite (iset_canonical a b Ha Hb H).
Qed.

(** [span_of] gives the first [len] values of the other set from [start] on,
    or all of them when there are fewer. *)
Theorem interval_span_prefix s start len :
  iset_wf s → 0 <= start → 0 < len → start + len < T_max →
  ∃ s', span_of s start len = Ok s' ∧ iset_wf s' ∧
        ∀ i, elem s' i ↔ elem s i ∧ start <= i ∧ count_below (is_m s) i - count_below (is_m s) start < len.
Proof. apply span_ok. Qed.

(** Appending to an interval is not checked against the next one: an overlapping
    insertion there goes through and leaves overlapping intervals, where the
    other branches assert. *)
Example insert_overlap_unchecked :
  insert_range (ISet 7 [(0, 5); (7, 2)]) 5 4 = Ok (ISet 11 [(0, 9); (7, 2)]) ∧
  insert_range (ISet 5 [(0, 3); (7, 2)]) 5 4 = Fault AssertFailed.
Proof. split; reflexivity. Qed.

(** ** Instances *)

Definition sample_iset : interval_set := ISet 15 [(5, 10); (20, 5)].

Lemma sample_iset_wf : iset_wf sample_iset.
Proof. split; simpl; unfold T_max; repeat split; lia. Qed.

Lemma interval_insert_refines_witness :
  ∃ s', insert_range sample_iset 15 5 = Ok s' ∧ iset_wf s' ∧ is_size s' = is_size sample_iset + 5 ∧
        ∀ i, elem s' i ↔ elem sample_iset i ∨ 15 <= i < 15 + 5.
Proof.
  apply interval_insert_refines;
    [apply sample_iset_wf|lia|lia|unfold T_max; lia|simpl; lia|unfold elem; simpl; intros i; lia].
Defined.

Lemma interval_erase_exact_witness :
  ((∀ i, 6 <= i < 6 + 3 → elem sample_iset i) ∧
   ∃ s', erase_range sample_iset 6 3 = Ok s' ∧ iset_wf s' ∧ is_size s' = is_size sample_iset - 3 ∧
         ∀ i, elem s' i ↔ elem sample_iset i ∧ ¬ (6 <= i < 6 + 3)) ∨
  (¬ (∀ i, 6 <= i < 6 + 3 → elem sample_iset i) ∧ erase_range sample_iset 6 3 = Fault AssertFailed).
Proof. apply interval_erase_exact; [apply sample_iset_wf|lia|lia|unfold T_max; lia]. Defined.

Definition sample_iset2 : interval_set := ISet 10 [(0, 7); (22, 3)].

Lemma sample_iset2_wf : iset_wf sample_iset2.
Proof. split; simpl; unfold T_max; repeat split; lia. Qed.

Lemma interval_algebra_witness :
  (∃ s, intersection_of sample_iset sample_iset2 = Ok s ∧ iset_wf s ∧
        ∀ i, elem s i ↔ elem sample_iset i ∧ elem sample_iset2 i) ∧
  (∃ s, union_of sample_iset sample_iset2 = Ok s ∧ iset_wf s ∧
        ∀ i, elem s i ↔ elem sample_iset i ∨ elem sample_iset2 i) ∧
  (∃ r, subset_of sample_iset sample_iset2 = Ok r ∧ (r = true ↔ ∀ i, elem sample_iset i → elem sample_iset2 i) ∧
        (r = true → ∃ s, subtract sample_iset2 sample_iset = Ok s ∧ iset_wf s ∧
                         ∀ i, elem s i ↔ elem sample_iset2 i ∧ ¬ elem sample_iset i)).
Proof. apply interval_algebra; [apply sample_iset_wf|apply sample_iset2_wf|simpl; lia]. Defined.

Lemma interval_eq_extensional_witness :
  iset_eqb sample_iset sample_iset2 = true ↔ ∀ i, elem sample_iset i ↔ elem sample_iset2 i.
Proof. apply interval_eq_extensional; [apply sample_iset_wf|apply sample_iset2_wf]. Defined.

Lemma interval_span_prefix_witness :
  ∃ s', span_of sample_iset 8 9 = Ok s' ∧ iset_wf s' ∧
        ∀ i, elem s' i ↔ elem sample_iset i ∧ 8 <= i ∧
             count_below (is_m sample_iset) i - count_below (is_m sample_iset) 8 < 9.
Proof. apply interval_span_prefix; [apply sample_iset_wf|lia|lia|unfold T_max; lia]. Defined.
