(* ===== verification/SnapSet.v ===== *)
(** * The interface of a set of snapshot ids

    What a pool asks of [removed_snaps], an [interval_set<snapid_t>], and the
    laws that make its code correct; interval sets implement it. *)

From stdpp Require Import strings.
From S2P Require Import Prelude StdMap IntervalSet IntervalSpec.

Class SnapSet (S : Type) := {
  ss_none : S;
  ss_empty : S → bool;
  ss_size : S → Z;
  ss_insert : S → Z → res S;
  ss_contains : S → Z → res bool }.

(** Ids stay below this bound, so that [int size()] does not wrap. *)
Definition SNAP_LIMIT : Z := 2147483647.

Class SnapSetLaws (S : Type) `{SnapSet S} := {
  ss_ok : S → Prop;
  ss_has : S → Z → Prop;
  ss_none_ok : ss_ok ss_none;
  ss_none_has i : ¬ ss_has ss_none i;
  ss_empty_spec s : ss_ok s → (ss_empty s = true ↔ ∀ i, ¬ ss_has s i);
  ss_size_spec s : ss_ok s → (∀ i, ss_has s i → i < SNAP_LIMIT) → (ss_size s = 0 ↔ ∀ i, ¬ ss_has s i);
  ss_insert_new s i :
    ss_ok s → (∀ j, ss_has s j → j < SNAP_LIMIT) → 0 <= i < SNAP_LIMIT → ¬ ss_has s i →
    ∃ s', ss_insert s i = Ok s' ∧ ss_ok s' ∧ ∀ j, ss_has s' j ↔ ss_has s j ∨ j = i;
  ss_insert_old s i : ss_ok s → 0 <= i < SNAP_LIMIT → ss_has s i → ss_insert s i = Fault AssertFailed;
  ss_contains_spec s i : ss_ok s → 0 <= i → ∃ b, ss_contains s i = Ok b ∧ (b = true ↔ ss_has s i) }.

(** ** Interval sets *)

#[export] Instance interval_snap_set : SnapSet interval_set := {
  ss_none := iset_empty;
  ss_empty := empty;
  ss_size := size;
  ss_insert := insert_val;
  ss_contains := contains }.

(** A set of values below [n] has at most [n] of them. *)
Lemma size_below s n : iset_wf s → 0 < n < T_max → (∀ i, elem s i → i < n) → 0 <= is_size s <= n.
Proof.
  intros [Hg -> Hb] Hn Hs. split; [by eapply total_nonneg|].
  transitivity (total [(0, n)]); [|simpl; lia]. apply total_mono; [done|simpl; repeat split; lia|].
  intros i Hi. left. apply (covers_range _ _ _ Hg) in Hi as Hr. apply Hs in Hi. lia.
Qed.

Lemma size_zero s : iset_wf s → (is_size s = 0 ↔ ∀ i, ¬ elem s i).
Proof.
  intros [Hg -> Hb]. unfold elem. destruct (is_m s) as [|[f l] m]; simpl; [split; [tauto|done]|].
  destruct Hg as (H1 & H2 & H3 & H4). pose proof (total_nonneg _ _ H4) as Hn. split; [lia|].
  intros Hz. destruct (Hz f). left. lia.
Qed.

(** Inserting a single value that is already there always asserts. *)
Lemma insert_val_old s i : iset_wf s → 0 <= i → i + 1 < T_max → elem s i → insert_val s i = Fault AssertFailed.
Proof.
  intros [Hg _ _] Hi Hm He. unfold insert_val, insert_range, insert_map, elem in *. cbn [Z.gtb Z.compare assert_c mbind res_bind].
  destruct (find_adj_ok _ _ Hg Hi) as (l1 & l2 & E & -> & H1 & H2). rewrite E in *. clear E.
  cbn [mbind res_bind]. rewrite end_mid. apply gapped_app in Hg as [Hg1 Hg2].
  apply covers_app in He as [He|He]; [by destruct (not_covered_end l1 i Hg1 ltac:(lia))|].
  destruct l2 as [|[f l] l2]; [done|]. rewrite iter_mid. cbn [mbind res_bind]. destruct Hg2 as (G1 & G2 & G3 & G4).
  pose proof (last_end_ge _ _ Hg1). rewrite (u64_end f l) by lia.
  assert (f <= i ∧ i < f + l) as [Hf Hl].
  { destruct He as [He|He]; [lia|]. apply (covers_range _ _ _ G4) in He. lia. }
  destruct (Z.ltb_spec f i); [by rewrite (proj2 (Z.eqb_neq (f + l) i)) by lia|].
  rewrite (u64_end i 1), (proj2 (Z.eqb_neq (i + 1) f)), Z.gtb_ltb, (proj2 (Z.ltb_ge (i + 1) f)) by lia. done.
Qed.

Lemma empty_spec s : iset_wf s → (empty s = true ↔ ∀ i, ¬ elem s i).
Proof.
  intros Hs. rewrite <- size_zero by done. destruct Hs as [Hg -> _]. unfold empty.
  destruct (is_m s) as [|[f l] m]; simpl; [done|]. destruct Hg as (H1 & H2 & H3 & H4).
  pose proof (total_nonneg _ _ H4). split; [done|lia].
Qed.

Lemma size_spec s : iset_wf s → (∀ i, elem s i → i < SNAP_LIMIT) → (size s = 0 ↔ ∀ i, ¬ elem s i).
Proof.
  intros Hs Hb. rewrite <- size_zero by done. unfold size.
  pose proof (size_below s SNAP_LIMIT Hs ltac:(unfold SNAP_LIMIT, T_max; lia) Hb) as Hr. unfold SNAP_LIMIT in Hr.
  rewrite s32_small by (unfold is_s32; lia). done.
Qed.

Lemma insert_val_new s i :
  iset_wf s → (∀ j, elem s j → j < SNAP_LIMIT) → 0 <= i < SNAP_LIMIT → ¬ elem s i →
  ∃ s', insert_val s i = Ok s' ∧ iset_wf s' ∧ ∀ j, elem s' j ↔ elem s j ∨ j = i.
Proof.
  intros Hs Hb Hi Hn.
  pose proof (size_below s SNAP_LIMIT Hs ltac:(unfold SNAP_LIMIT, T_max; lia) Hb) as Hr. unfold SNAP_LIMIT in *.
  destruct (insert_range_ok s i 1 Hs) as (s' & E & Hs' & _ & He); [lia|lia|unfold T_max; lia| | |].
  - rewrite <- (iw_size _ Hs). lia.
  - intros j Hj. by replace j with i by lia.
  - exists s'. split; [exact E|]. split; [done|]. intros j. rewrite He.
    assert (i <= j < i + 1 ↔ j = i) as -> by lia. done.
Qed.

#[export] Instance interval_snap_set_laws : SnapSetLaws interval_set.
Proof.
  refine {| ss_ok := iset_wf; ss_has := elem |}.
  - apply iset_empty_wf.
  - by intros i [].
  - apply empty_spec.
  - apply size_spec.
  - apply insert_val_new.
  - intros s i Hs Hi He. apply insert_val_old; try done; unfold SNAP_LIMIT, T_max in *; lia.
  - intros s i Hs Hi. apply contains_ok; [apply Hs|done].
Defined.

(** ** Pool snapshots (src/osd/osd_types.cc, src/common/snap_types.cc)

    The snapshot state of a [pg_pool_t], in its two modes, over any set of ids
    that meets the interface [SnapSet].  Each operation either succeeds or trips
    an assertion of the code; their runs are a transition system. *)

Record pool_snap_info_t := PoolSnapInfo { psi_snapid : Z; psi_stamp : Z; psi_name : string }.

Record SnapContext := MkSnapContext { sc_seq : Z; sc_snaps : list Z }.

Definition CEPH_MAXSNAP : Z := 18446744073709551613.

(** [snaps[i] >= t || t == 0] fails the test. *)
Fixpoint descending (t : Z) (l : list Z) : bool :=
  match l with
  | [] => true
  | x :: l => if (x >=? t) || (t =? 0) then false else descending x l
  end.

Definition is_valid (c : SnapContext) : bool :=
  if sc_seq c >? CEPH_MAXSNAP then false else
  match sc_snaps c with
  | [] => true
  | x :: l => if x >? sc_seq c then false else descending x l
  end.

Section pool.
Context {S : Type} `{SnapSet S}.

Record pool_snaps := PoolSnaps {
  ps_snap_seq : Z;
  ps_snaps : list (Z * pool_snap_info_t);
  ps_removed_snaps : S }.

Definition no_snaps : pool_snaps := PoolSnaps 0 [] ss_none.

Definition is_pool_snaps_mode (p : pool_snaps) : bool :=
  ss_empty (ps_removed_snaps p) && (ps_snap_seq p >? 0).

Definition is_unmanaged_snaps_mode (p : pool_snaps) : bool :=
  negb (ss_size (ps_removed_snaps p) =? 0) && (ps_snap_seq p >? 0).

Definition is_removed_snap (p : pool_snaps) (s : Z) : res bool :=
  if is_pool_snaps_mode p then Ok ((s <=? ps_snap_seq p) && negb (map_count (ps_snaps p) s))
  else ss_contains (ps_removed_snaps p) s.

(** [for (s = 1; s <= seq; s++) if (snaps.count(s) == 0) rs.insert(s);] *)
Fixpoint insert_missing (p : pool_snaps) (n : nat) (s : Z) (rs : S) : res S :=
  match n with
  | O => Ok rs
  | Datatypes.S n =>
      rs ← (if map_count (ps_snaps p) s then Ok rs else ss_insert rs s);
      insert_missing p n (s + 1) rs
  end.

Definition build_removed_snaps (p : pool_snaps) : res S :=
  if is_pool_snaps_mode p then insert_missing p (Z.to_nat (ps_snap_seq p)) 1 ss_none
  else Ok (ps_removed_snaps p).

Fixpoint find_name (l : list (Z * pool_snap_info_t)) (s : string) : Z :=
  match l with
  | [] => 0
  | (_, i) :: l => if bool_decide (psi_name i = s) then psi_snapid i else find_name l s
  end.
Definition snap_exists (p : pool_snaps) (s : string) : Z := find_name (ps_snaps p) s.

Definition add_snap (n : string) (stamp : Z) (p : pool_snaps) : res pool_snaps :=
  _ ← assert_c (negb (is_unmanaged_snaps_mode p));
  let s := u64 (ps_snap_seq p + 1) in
  Ok (PoolSnaps s (map_put (ps_snaps p) s (PoolSnapInfo s stamp n)) (ps_removed_snaps p)).

(** The new id is the new [snap_seq]. *)
Definition add_unmanaged_snap (p : pool_snaps) : res (Z * pool_snaps) :=
  p ← (if ss_empty (ps_removed_snaps p) then
         _ ← assert_c (negb (is_pool_snaps_mode p));
         r ← ss_insert (ps_removed_snaps p) 1;
         Ok (PoolSnaps 1 (ps_snaps p) r)
       else Ok p);
  let s := u64 (ps_snap_seq p + 1) in
  Ok (s, PoolSnaps s (ps_snaps p) (ps_removed_snaps p)).

Definition remove_snap (s : Z) (p : pool_snaps) : res pool_snaps :=
  _ ← assert_c (map_count (ps_snaps p) s);
  Ok (PoolSnaps (u64 (ps_snap_seq p + 1)) (map_del (ps_snaps p) s) (ps_removed_snaps p)).

Definition remove_unmanaged_snap (s : Z) (p : pool_snaps) : res pool_snaps :=
  _ ← assert_c (is_unmanaged_snaps_mode p);
  r ← ss_insert (ps_removed_snaps p) s;
  let seq := u64 (ps_snap_seq p + 1) in
  r ← ss_insert r seq;
  Ok (PoolSnaps seq (ps_snaps p) r).

Definition get_snap_context (p : pool_snaps) : SnapContext :=
  MkSnapContext (ps_snap_seq p) (reverse (keys (ps_snaps p))).

(** ** The transition system *)

Inductive snap_op :=
  | OpAdd (name : string) (stamp : Z)
  | OpAddUnmanaged
  | OpRemove (s : Z)
  | OpRemoveUnmanaged (s : Z).

Definition run_op (o : snap_op) (p : pool_snaps) : res pool_snaps :=
  match o with
  | OpAdd n t => add_snap n t p
  | OpAddUnmanaged => '(_, p) ← add_unmanaged_snap p; Ok p
  | OpRemove s => remove_snap s p
  | OpRemoveUnmanaged s => remove_unmanaged_snap s p
  end.
End pool.
Arguments pool_snaps S : clear implicits.
