(* ===== verification/PoolSnapsProps.v ===== *)
(** * Properties of pool snapshots (src/osd/osd_types.cc)

    The reachable states, proved against the interface [SnapSet] and
    instantiated with interval sets. *)

From stdpp Require Import sorting strings.
From S2P Require Import Prelude StdMap IntervalSet IntervalSpec SnapSet.

Section pool.
Context {S : Type} `{SnapSetLaws S}.
Implicit Types p : pool_snaps S.

(** When the code may call an operation: the mode allows it, the id is there. *)
Definition allowed (o : snap_op) (p : pool_snaps S) : Prop :=
  ps_snap_seq p + 2 < SNAP_LIMIT ∧
  match o with
  | OpAdd _ _ => is_unmanaged_snaps_mode p = false
  | OpAddUnmanaged => is_pool_snaps_mode p = false
  | OpRemove s => s ∈ keys (ps_snaps p)
  | OpRemoveUnmanaged s =>
      is_unmanaged_snaps_mode p = true ∧ 1 <= s <= ps_snap_seq p ∧ ¬ ss_has (ps_removed_snaps p) s
  end.

Inductive reachable : pool_snaps S → Prop :=
  | reach_new : reachable no_snaps
  | reach_step p o p' : reachable p → allowed o p → run_op o p = Ok p' → reachable p'.

Record snaps_wf (p : pool_snaps S) : Prop := {
  sw_set : ss_ok (ps_removed_snaps p);
  sw_seq : 0 <= ps_snap_seq p < SNAP_LIMIT;
  sw_removed i : ss_has (ps_removed_snaps p) i → 1 <= i <= ps_snap_seq p;
  sw_ordered : ordered (ps_snaps p);
  sw_keys i : i ∈ keys (ps_snaps p) → 1 <= i <= ps_snap_seq p;
  sw_modes : ps_snaps p = [] ∨ ∀ i, ¬ ss_has (ps_removed_snaps p) i }.

Lemma pool_mode_spec p :
  snaps_wf p → is_pool_snaps_mode p = true ↔ (∀ i, ¬ ss_has (ps_removed_snaps p) i) ∧ 0 < ps_snap_seq p.
Proof. intros [? ? ? ? ? ?]. unfold is_pool_snaps_mode. by rewrite andb_true_iff, ss_empty_spec, Z.gtb_lt. Qed.

Lemma unmanaged_mode_spec p :
  snaps_wf p → is_unmanaged_snaps_mode p = true ↔ ¬ (∀ i, ¬ ss_has (ps_removed_snaps p) i) ∧ 0 < ps_snap_seq p.
Proof.
  intros [Hs ? Hr ? ? ?]. unfold is_unmanaged_snaps_mode.
  rewrite andb_true_iff, negb_true_iff, Z.eqb_neq, ss_size_spec, Z.gtb_lt; [done|done|]. intros i Hi%Hr. lia.
Qed.

Lemma pool_mode_iff p :
  snaps_wf p → 0 < ps_snap_seq p → is_pool_snaps_mode p = true ↔ ∀ i, ¬ ss_has (ps_removed_snaps p) i.
Proof. intros Hp Hq. rewrite pool_mode_spec by done. tauto. Qed.

Lemma has_not_pool p s : snaps_wf p → ss_has (ps_removed_snaps p) s → is_pool_snaps_mode p = false.
Proof. intros Hp Hh. apply not_true_iff_false. rewrite pool_mode_spec by done. intros [Hno _]. by apply (Hno s). Qed.

Lemma has_unmanaged p s : snaps_wf p → ss_has (ps_removed_snaps p) s → is_unmanaged_snaps_mode p = true.
Proof.
  intros Hp Hh. apply unmanaged_mode_spec; [done|]. pose proof (sw_removed _ Hp s Hh). split; [|lia].
  intros Hno. by apply (Hno s).
Qed.

Lemma u64_seq p : snaps_wf p → u64 (ps_snap_seq p + 1) = ps_snap_seq p + 1.
Proof. intros [_ ? _ _ _ _]. apply u64_small. unfold SNAP_LIMIT in *. lia. Qed.

Lemma no_snaps_wf : snaps_wf no_snaps.
Proof.
  split; simpl.
  - apply ss_none_ok.
  - unfold SNAP_LIMIT. lia.
  - by intros i Hi%ss_none_has.
  - constructor.
  - by intros i Hi%elem_of_nil.
  - by left.
Qed.

(** An empty set and mode "neither" mean that nothing was created yet. *)
Lemma neither_mode p :
  snaps_wf p → is_pool_snaps_mode p = false → ss_empty (ps_removed_snaps p) = true →
  ps_snap_seq p = 0 ∧ ps_snaps p = [] ∧ ∀ i, ¬ ss_has (ps_removed_snaps p) i.
Proof.
  intros [? ? ? ? Hk ?] Hm He. unfold is_pool_snaps_mode in Hm. rewrite He in Hm. simpl in Hm.
  assert (ps_snap_seq p = 0) as E0 by lia. split; [done|]. split; [|by apply ss_empty_spec].
  destruct (ps_snaps p) as [|[k v] m]; [done|]. specialize (Hk k). rewrite E0 in Hk. destruct Hk; [by left|lia].
Qed.

(** ** Each allowed operation succeeds and keeps the state well formed *)

Lemma add_snap_ok n t p :
  snaps_wf p → allowed (OpAdd n t) p → ∃ p', add_snap n t p = Ok p' ∧ snaps_wf p' ∧
    ps_snap_seq p' = ps_snap_seq p + 1 ∧ ps_removed_snaps p' = ps_removed_snaps p ∧
    ∀ i, i ∈ keys (ps_snaps p') ↔ i = ps_snap_seq p + 1 ∨ i ∈ keys (ps_snaps p).
Proof.
  intros Hp [Hlim Hm]. pose proof (u64_seq p Hp) as Eu. unfold add_snap. rewrite Hm, Eu. cbn [negb assert_c mbind res_bind].
  eexists. split; [done|]. split; [|split; [done|split; [done|intros i; apply map_put_keys]]].
  assert (∀ i, ¬ ss_has (ps_removed_snaps p) i) as Hno.
  { intros i Hi. pose proof (sw_removed _ Hp i Hi).
    rewrite <- not_true_iff_false, unmanaged_mode_spec in Hm by done. apply Hm. split; [|lia]. intros Hall. by apply (Hall i). }
  destruct Hp as [? ? Hr ? Hk ?]. split; simpl; try done.
  - lia.
  - intros i Hi. by destruct (Hno i).
  - by apply map_put_ordered.
  - intros i [->|Hi%Hk]%map_put_keys; lia.
  - by right.
Qed.

Lemma remove_snap_ok s p :
  snaps_wf p → allowed (OpRemove s) p → ∃ p', remove_snap s p = Ok p' ∧ snaps_wf p' ∧
    ps_snap_seq p' = ps_snap_seq p + 1 ∧ ps_removed_snaps p' = ps_removed_snaps p ∧
    ∀ i, i ∈ keys (ps_snaps p') ↔ i ∈ keys (ps_snaps p) ∧ i ≠ s.
Proof.
  intros Hp [Hlim Hm]. pose proof (u64_seq p Hp) as Eu. unfold remove_snap. rewrite (proj2 (map_count_in _ _) Hm), Eu.
  cbn [assert_c mbind res_bind]. eexists. split; [done|]. split; [|split; [done|split; [done|intros i; apply map_del_keys]]].
  destruct Hp as [? ? Hr ? Hk Hmo]. split; simpl; try done.
  - lia.
  - intros i Hi%Hr. lia.
  - by apply map_del_ordered.
  - intros i [Hi%Hk _]%map_del_keys. lia.
  - destruct Hmo as [->|Hmo]; [by left|by right].
Qed.

Lemma add_unmanaged_snap_ok p :
  snaps_wf p → allowed OpAddUnmanaged p → ∃ s p', add_unmanaged_snap p = Ok (s, p') ∧ snaps_wf p' ∧
    s = ps_snap_seq p' ∧ ps_snap_seq p < s ∧ ps_snaps p' = [] ∧
    (∀ i, ss_has (ps_removed_snaps p) i → ss_has (ps_removed_snaps p') i) ∧ ¬ ss_has (ps_removed_snaps p') s ∧
    is_unmanaged_snaps_mode p' = true.
Proof.
  intros Hp [Hlim Hm]. unfold add_unmanaged_snap. destruct (ss_empty (ps_removed_snaps p)) eqn:He.
  - rewrite Hm. cbn [negb assert_c mbind res_bind].
    destruct (neither_mode p Hp Hm He) as (E0 & Es & Hno). rewrite Es.
    destruct (ss_insert_new (ps_removed_snaps p) 1) as (r & -> & Hr & Hh); [apply Hp|by intros j ?%Hno|unfold SNAP_LIMIT; lia|apply Hno|].
    cbn [mbind res_bind ps_snap_seq ps_snaps ps_removed_snaps]. change (u64 (1 + 1)) with 2.
    assert (snaps_wf (PoolSnaps 2 [] r)) as Hp'.
    { split; simpl; try done.
      - intros i [Hi| ->]%Hh; [by apply Hno in Hi|lia].
      - constructor.
      - by intros i ?%elem_of_nil.
      - by left. }
    eexists _, _. split; [done|]. split; [done|]. simpl. repeat split; [lia|by intros i ?%Hno| |].
    + intros [Hi|Hi]%Hh; [by apply Hno in Hi|done].
    + apply unmanaged_mode_spec; [done|]. simpl. split; [|lia]. intros Hall. apply (Hall 1), Hh. by right.
  - cbn [mbind res_bind]. rewrite (u64_seq p Hp).
    assert (¬ ∀ i, ¬ ss_has (ps_removed_snaps p) i) as Hne.
    { rewrite <- ss_empty_spec by apply Hp. by rewrite He. }
    assert (ps_snaps p = []) as Es by (by destruct (sw_modes _ Hp)).
    assert (snaps_wf (PoolSnaps (ps_snap_seq p + 1) (ps_snaps p) (ps_removed_snaps p))) as Hp'.
    { destruct Hp as [? ? Hr ? Hk Hmo]. split; simpl; try done; [lia|intros i Hi%Hr; lia|intros i Hi%Hk; lia]. }
    eexists _, _. split; [done|]. split; [done|]. simpl. rewrite Es. repeat split; [lia|done| |].
    + intros Hi. apply (sw_removed _ Hp) in Hi. lia.
    + rewrite Es in Hp'. apply unmanaged_mode_spec; [done|]. simpl. split; [done|]. pose proof (sw_seq _ Hp). lia.
Qed.

Lemma remove_unmanaged_snap_ok s p :
  snaps_wf p → allowed (OpRemoveUnmanaged s) p → ∃ p', remove_unmanaged_snap s p = Ok p' ∧ snaps_wf p' ∧
    ps_snap_seq p' = ps_snap_seq p + 1 ∧ ps_snaps p' = ps_snaps p ∧
    ∀ i, ss_has (ps_removed_snaps p') i ↔ ss_has (ps_removed_snaps p) i ∨ i = s ∨ i = ps_snap_seq p + 1.
Proof.
  intros Hp (Hlim & Hm & Hs & Hn). unfold remove_unmanaged_snap. rewrite Hm, (u64_seq p Hp). cbn [assert_c mbind res_bind].
  pose proof (sw_seq _ Hp) as Hq.
  destruct (ss_insert_new (ps_removed_snaps p) s) as (r & -> & Hr & Hh); [apply Hp| |lia|done|].
  { intros j Hj%(sw_removed _ Hp). lia. }
  cbn [mbind res_bind].
  destruct (ss_insert_new r (ps_snap_seq p + 1)) as (r' & -> & Hr' & Hh'); [done| |lia| |].
  { intros j [Hj%(sw_removed _ Hp)| ->]%Hh; lia. }
  { intros [Hj%(sw_removed _ Hp)|Hj]%Hh; lia. }
  cbn [mbind res_bind]. eexists. split; [done|]. split; [|split; [done|split; [done|]]].
  - assert (ps_snaps p = []) as Es.
    { apply unmanaged_mode_spec in Hm as [Hm _]; [|done]. by destruct (sw_modes _ Hp). }
    rewrite Es. split; simpl; try done; [lia| |constructor|by intros i ?%elem_of_nil|by left].
    intros i [[Hi%(sw_removed _ Hp)| ->]%Hh| ->]%Hh'; lia.
  - intros i. simpl. rewrite Hh', Hh. tauto.
Qed.

Lemma run_op_ok o p : snaps_wf p → allowed o p → ∃ p', run_op o p = Ok p' ∧ snaps_wf p'.
Proof.
  intros Hp Ho. destruct o as [n t| |s|s]; simpl.
  - destruct (add_snap_ok n t p Hp Ho) as (p' & ? & ? & _). by exists p'.
  - destruct (add_unmanaged_snap_ok p Hp Ho) as (s & p' & -> & ? & _). by exists p'.
  - destruct (remove_snap_ok s p Hp Ho) as (p' & ? & ? & _). by exists p'.
  - destruct (remove_unmanaged_snap_ok s p Hp Ho) as (p' & ? & ? & _). by exists p'.
Qed.

Lemma reachable_wf p : reachable p → snaps_wf p.
Proof.
  induction 1 as [|p o p' _ Hp Ho E]; [apply no_snaps_wf|].
  destruct (run_op_ok o p Hp Ho) as (p1 & E1 & Hp1). rewrite E in E1. by injection E1 as ->.
Qed.

(** ** What is removed *)

Definition removed (p : pool_snaps S) (s : Z) : Prop := is_removed_snap p s = Ok true.

Lemma removed_spec p s :
  snaps_wf p → 0 <= s →
  removed p s ↔ (is_pool_snaps_mode p = true ∧ s <= ps_snap_seq p ∧ s ∉ keys (ps_snaps p)) ∨
                (is_pool_snaps_mode p = false ∧ ss_has (ps_removed_snaps p) s).
Proof.
  intros Hp Hs. unfold removed, is_removed_snap. destruct (is_pool_snaps_mode p).
  - rewrite <- map_count_in. destruct (map_count (ps_snaps p) s), (Z.leb_spec s (ps_snap_seq p)) as [Hle|Hgt]; simpl;
      (split; [intros [=]; left; repeat split; (done || lia)|intros [(_ & Ha & Hb)|[Hm _]]; (done || lia)]).
  - destruct (ss_contains_spec (ps_removed_snaps p) s (sw_set _ Hp) Hs) as (b & -> & Hb). rewrite <- Hb. split.
    + intros [= ->]. by right.
    + intros [(Hm & _)|[_ ->]]; done.
Qed.

Lemma insert_missing_ok p n : ∀ s rs,
  snaps_wf p → 1 <= s → s + Z.of_nat n = ps_snap_seq p + 1 → ss_ok rs → (∀ j, ss_has rs j → j < s) →
  ∃ rs', insert_missing p n s rs = Ok rs' ∧ ss_ok rs' ∧
    ∀ j, ss_has rs' j ↔ ss_has rs j ∨ (s <= j <= ps_snap_seq p ∧ j ∉ keys (ps_snaps p)).
Proof.
  induction n as [|n IH]; intros s rs Hp H1 Hn Hr Hlt; cbn [insert_missing].
  { exists rs. split; [done|]. split; [done|]. intros j. split; [by left|]. intros [Hj|[Hj _]]; [done|lia]. }
  pose proof (sw_seq _ Hp) as Hq.
  assert (∃ rs1, (if map_count (ps_snaps p) s then Ok rs else ss_insert rs s) = Ok rs1 ∧ ss_ok rs1 ∧
    ∀ j, ss_has rs1 j ↔ ss_has rs j ∨ (j = s ∧ j ∉ keys (ps_snaps p))) as (rs1 & -> & Hr1 & Hh1).
  { destruct (map_count (ps_snaps p) s) eqn:Ec.
    - apply map_count_in in Ec. exists rs. split; [done|]. split; [done|]. intros j. split; [by left|].
      intros [Hj|[-> Hj]]; done.
    - assert (s ∉ keys (ps_snaps p)) as Hs by (by rewrite <- map_count_in, Ec).
      destruct (ss_insert_new rs s Hr) as (rs1 & -> & Hr1 & Hh1); [intros j Hj%Hlt; lia|lia|intros Hj%Hlt; lia|].
      exists rs1. split; [done|]. split; [done|]. intros j. rewrite Hh1. split; [|tauto].
      intros [Hj| ->]; [by left|by right]. }
  cbn [mbind res_bind]. destruct (IH (s + 1) rs1 Hp) as (rs' & -> & Hr' & Hh'); [lia|lia|done| |].
  { intros j [Hj%Hlt|[-> _]]%Hh1; lia. }
  exists rs'. split; [done|]. split; [done|]. intros j. rewrite Hh', Hh1. 
  destruct (decide (j = s)) as [->|Hne]; intuition lia.
Qed.

(** C30: In every state of the snapshots of a pool that allowed operations reach,
    the two modes exclude each other, all ids lie between one and [snap_seq], and
    every allowed operation runs without tripping an assertion, into a state that is
    again of this kind.  Allowed is, while [snap_seq] is at least two below its limit:
    to add a snapshot unless the pool is in the other mode; to remove a snapshot of
    the pool that is there; and to remove an unmanaged one, in that mode, with an id
    from one to [snap_seq] that has not been removed yet. *)
Theorem pool_snaps_safe p :
  reachable p →
  snaps_wf p ∧ ¬ (is_pool_snaps_mode p = true ∧ is_unmanaged_snaps_mode p = true) ∧
  ∀ o, allowed o p → ∃ p', run_op o p = Ok p' ∧ snaps_wf p'.
Proof.
  intros Hp%reachable_wf. split; [done|]. split; [|intros o Ho; by apply run_op_ok].
  intros [[Hno _]%pool_mode_spec [Hne _]%unmanaged_mode_spec]; done.
Qed.

(** [build_removed_snaps] and [is_removed_snap] agree, in both modes, on
    every id from one on. *)
Theorem build_removed_snaps_agrees p :
  reachable p →
  ∃ rs, build_removed_snaps p = Ok rs ∧ ss_ok rs ∧
        ∀ s, 1 <= s → (ss_has rs s ↔ is_removed_snap p s = Ok true).
Proof.
  intros Hp%reachable_wf. unfold build_removed_snaps. destruct (is_pool_snaps_mode p) eqn:Em.
  - pose proof (sw_seq _ Hp).
    destruct (insert_missing_ok p (Z.to_nat (ps_snap_seq p)) 1 ss_none Hp) as (rs & -> & Hr & Hh);
      [lia|lia|apply ss_none_ok|by intros j ?%ss_none_has|].
    exists rs. split; [done|]. split; [done|]. intros s Hs. rewrite Hh. fold (removed p s). rewrite removed_spec, Em by (done || lia).
    split; [intros [Hn%ss_none_has|[Hj Hk]]; [done|left; repeat split; (done || lia)]|].
    intros [(_ & Hj & Hk)|[Hm _]]; [|done]. right. split; [lia|done].
  - exists (ps_removed_snaps p). split; [done|]. split; [apply Hp|]. intros s Hs. fold (removed p s).
    rewrite removed_spec, Em by (done || lia). split; [by right|]. intros [(Hm & _)|[_ Hh]]; done.
Qed.

(** A snapshot that is removed stays removed, whatever is done to the pool
    afterwards; ids are never given out again, since [snap_seq] only grows. *)
Theorem removed_stays_removed p o p' s :
  reachable p → allowed o p → run_op o p = Ok p' → 1 <= s <= ps_snap_seq p →
  is_removed_snap p s = Ok true → is_removed_snap p' s = Ok true ∧ ps_snap_seq p < ps_snap_seq p'.
Proof.
  intros Hp%reachable_wf Ho E Hs Hr. fold (removed p s) in Hr. fold (removed p' s).
  apply removed_spec in Hr; [|done|lia]. destruct o as [n t| |s'|s']; simpl in E.
  - destruct (add_snap_ok n t p Hp Ho) as (p1 & E1 & Hp1 & Eq & Er & Hk). rewrite E in E1. injection E1 as <-.
    split; [|lia]. destruct Hr as [(Hm & Hle & Hn)|[Hm Hh]].
    + apply removed_spec; [done|lia|]. left. rewrite (pool_mode_iff p'), Er, Hk by (done || lia).
      split; [exact (proj1 (pool_mode_iff p Hp ltac:(lia)) Hm)|]. split; [lia|]. intros [?|?]; [lia|done].
    + destruct Ho as [_ Ho]. by rewrite (has_unmanaged p s) in Ho.
  - destruct (add_unmanaged_snap_ok p Hp Ho) as (i & p1 & E1 & Hp1 & Eq & Hlt & Hno & Hk & _ & Hm).
    rewrite E1 in E. cbn [mbind res_bind] in E. injection E as <-. split; [|lia].
    destruct Ho as [_ Ho]. destruct Hr as [(Hm' & _)|[_ Hh]]; [by rewrite Ho in Hm'|].
    apply removed_spec; [done|lia|]. right. split; [by eapply has_not_pool, Hk|by apply Hk].
  - destruct (remove_snap_ok s' p Hp Ho) as (p1 & E1 & Hp1 & Eq & Er & Hk). rewrite E in E1. injection E1 as <-.
    split; [|lia]. destruct Ho as [_ Ho]. destruct Hr as [(Hm & Hle & Hn)|[Hm Hh]].
    + apply removed_spec; [done|lia|]. left. rewrite (pool_mode_iff p'), Er, Hk by (done || lia).
      split; [exact (proj1 (pool_mode_iff p Hp ltac:(lia)) Hm)|]. split; [lia|]. by intros [? _].
    + destruct (sw_modes _ Hp) as [Es|Hno]; [rewrite Es in Ho; by apply elem_of_nil in Ho|by destruct (Hno s)].
  - destruct (remove_unmanaged_snap_ok s' p Hp Ho) as (p1 & E1 & Hp1 & Eq & Er & Hk). rewrite E in E1. injection E1 as <-.
    split; [|lia]. destruct Ho as (_ & Ho & _). apply unmanaged_mode_spec in Ho as [Ho _]; [|done].
    destruct Hr as [(Hm & _)|[_ Hh]]; [by apply pool_mode_spec in Hm as [? _]|].
    apply removed_spec; [done|lia|]. right. assert (ss_has (ps_removed_snaps p') s) as Hh' by (apply Hk; by left).
    split; [by eapply has_not_pool|done].
Qed.
End pool.

(** ** Instances: two snapshots of a pool, one of them removed *)

Definition pool_run : pool_snaps interval_set :=
  PoolSnaps 3 [(2, PoolSnapInfo 2 0 "b")] iset_empty.

Lemma pool_run_reachable : reachable pool_run.
Proof.
  apply (reach_step (PoolSnaps 2 [(1, PoolSnapInfo 1 0 "a"); (2, PoolSnapInfo 2 0 "b")] iset_empty) (OpRemove 1)).
  - apply (reach_step (PoolSnaps 1 [(1, PoolSnapInfo 1 0 "a")] iset_empty) (OpAdd "b" 0)); [|by split|reflexivity].
    apply (reach_step no_snaps (OpAdd "a" 0)); [constructor|by split|reflexivity].
  - split; [done|by left].
  - reflexivity.
Qed.

Lemma pool_snaps_safe_witness :
  snaps_wf pool_run ∧ ¬ (is_pool_snaps_mode pool_run = true ∧ is_unmanaged_snaps_mode pool_run = true) ∧
  ∀ o, allowed o pool_run → ∃ p', run_op o pool_run = Ok p' ∧ snaps_wf p'.
Proof. apply pool_snaps_safe, pool_run_reachable. Defined.

Lemma build_removed_snaps_agrees_witness :
  ∃ rs, build_removed_snaps pool_run = Ok rs ∧ ss_ok rs ∧
        ∀ s, 1 <= s → (ss_has rs s ↔ is_removed_snap pool_run s = Ok true).
Proof. apply build_removed_snaps_agrees, pool_run_reachable. Defined.

Lemma removed_stays_removed_witness :
  ∃ p', run_op (OpAdd "c" 5) pool_run = Ok p' ∧
        is_removed_snap p' 1 = Ok true ∧ ps_snap_seq pool_run < ps_snap_seq p'.
Proof.
  eexists. split; [reflexivity|].
  apply (removed_stays_removed pool_run (OpAdd "c" 5)); [apply pool_run_reachable|by split|reflexivity|simpl; lia|reflexivity].
Defined.
