(* ===== verification/Pg.v ===== *)
(** * Placement groups and pools (src/osd/osd_types.h, osd_types.cc, rados.h)

    [ceph_stable_mod], the ids of placement groups with their splits, and the
    part of [pg_pool_t] that maps an object to a placement group and to the
    seed of its placement. *)

From stdpp Require Import gmap.
From S2P Require Import Prelude Hash StrHash StdMap IntervalSet SnapSet.

(** [x], [b] and [bmask] are [int]s. *)
Definition ceph_stable_mod (x b bmask : Z) : Z :=
  let x := s32 x in let b := s32 b in let bmask := s32 bmask in
  if Z.land x bmask <? b then Z.land x bmask else Z.land x (Z.shiftr bmask 1).

(** [m_pool] is 64 bits wide, [m_seed] 32, [m_preferred] a signed [int32_t]. *)
Record pg_t := PgT { m_pool : Z; m_seed : Z; m_preferred : Z }.

#[export] Instance pg_t_eq_dec : EqDecision pg_t.
Proof. solve_decision. Defined.
#[export] Instance pg_t_countable : Countable pg_t.
Proof.
  refine (inj_countable' (λ p, (m_pool p, m_seed p, m_preferred p)) (λ '(a, b, c), PgT a b c) _).
  by intros [].
Defined.

Definition set_ps (s : Z) (p : pg_t) : pg_t := PgT (m_pool p) s (m_preferred p).

(** [static int calc_bits_of(int t)]: an [int] has at most 31 value bits. *)
Fixpoint bits_loop (fuel : nat) (t b : Z) : res Z :=
  if t >? 0 then
    match fuel with
    | O => Fault Diverge
    | S fuel => bits_loop fuel (Z.shiftr t 1) (b + 1)
    end
  else Ok b.
Definition calc_bits_of (t : Z) : res Z := bits_loop 31 (s32 t) 0.

(** [(1 << bits) - 1] as an [int]. *)
Definition int_mask (bits : Z) : res Z :=
  if (bits <? 0) || (31 <? bits) then Fault BadShift else Ok (s32 (s32 (Z.shiftl 1 bits) - 1)).

Definition get_ancestor (p : pg_t) (old_pg_num : Z) : res pg_t :=
  old_bits ← calc_bits_of old_pg_num;
  old_mask ← int_mask old_bits;
  Ok (set_ps (u32 (ceph_stable_mod (m_seed p) old_pg_num old_mask)) p).

(** [for (int n = 1; ; n++) ...]; the children are collected in a set. *)
Fixpoint split_loop (p : pg_t) (old_pg_num new_pg_num old_bits old_mask : Z) (fuel : nat) (n : Z)
    (split : bool) (children : gset pg_t) : res (bool * gset pg_t) :=
  match fuel with
  | O => Fault Diverge
  | S fuel =>
      let next_bit := s32 (Z.shiftl n (old_bits - 1)) in
      let s := u32 (Z.lor next_bit (m_seed p)) in
      if (s <? old_pg_num) || (s =? m_seed p) then
        split_loop p old_pg_num new_pg_num old_bits old_mask fuel (n + 1) split children
      else if s >=? new_pg_num then Ok (split, children)
      else if u32 (ceph_stable_mod s old_pg_num old_mask) =? m_seed p then
        split_loop p old_pg_num new_pg_num old_bits old_mask fuel (n + 1) true ({[ PgT (m_pool p) s (m_preferred p) ]} ∪ children)
      else split_loop p old_pg_num new_pg_num old_bits old_mask fuel (n + 1) split children
  end.

Definition is_split (p : pg_t) (old_pg_num new_pg_num : Z) (children : gset pg_t) : res (bool * gset pg_t) :=
  _ ← assert_c (m_seed p <? old_pg_num);
  if new_pg_num <=? old_pg_num then Ok (false, children) else
  old_bits ← calc_bits_of old_pg_num;
  old_mask ← int_mask old_bits;
  if old_bits <=? 0 then Fault BadShift else
  split_loop p old_pg_num new_pg_num old_bits old_mask (S (Z.to_nat new_pg_num)) 1 false children.

Definition get_split_bits (p : pg_t) (pg_num : Z) : res Z :=
  if pg_num =? 1 then Ok 0 else
  _ ← assert_c (pg_num >? 1);
  bits ← calc_bits_of pg_num;
  _ ← assert_c (negb (bits =? 0));
  let half := Z.shiftl 1 (bits - 1) in
  if (m_seed p mod half) <? (pg_num mod half) then Ok bits else Ok (bits - 1).

(** [m_seed &= ~((~0) << (bits - 1))] *)
Definition get_parent (p : pg_t) : res pg_t :=
  bits ← calc_bits_of (m_seed p);
  _ ← assert_c (negb (bits =? 0));
  Ok (set_ps (Z.land (m_seed p) (u32 (Z.lnot (Z.shiftl (Z.lnot 0) (bits - 1))))) p).

(** ** Pools *)

Definition TYPE_REPLICATED : Z := 1.
Definition TYPE_ERASURE : Z := 3.
Definition FLAG_HASHPSPOOL : Z := 1.

Record pg_pool_t := PgPool {
  p_flags : Z;
  p_type : Z;
  p_size : Z;
  p_crush_ruleset : Z;
  p_object_hash : Z;
  p_pg_num : Z;
  p_pgp_num : Z;
  p_pg_num_mask : Z;
  p_pgp_num_mask : Z;
  p_last_change : Z;
  p_snaps : pool_snaps interval_set;
  p_min_size : Z;
  p_last_force_op_resend : Z;
  p_read_tier : Z;
  p_write_tier : Z }.

Definition set_pg_nums (n gn mask gmask : Z) (p : pg_pool_t) : pg_pool_t :=
  PgPool (p_flags p) (p_type p) (p_size p) (p_crush_ruleset p) (p_object_hash p) n gn mask gmask
    (p_last_change p) (p_snaps p) (p_min_size p) (p_last_force_op_resend p) (p_read_tier p) (p_write_tier p).

Definition set_last_change (e : Z) (p : pg_pool_t) : pg_pool_t :=
  PgPool (p_flags p) (p_type p) (p_size p) (p_crush_ruleset p) (p_object_hash p) (p_pg_num p) (p_pgp_num p)
    (p_pg_num_mask p) (p_pgp_num_mask p) e (p_snaps p) (p_min_size p) (p_last_force_op_resend p) (p_read_tier p) (p_write_tier p).

Definition has_read_tier (p : pg_pool_t) : bool := 0 <=? p_read_tier p.
Definition has_write_tier (p : pg_pool_t) : bool := 0 <=? p_write_tier p.

(** [calc_pg_masks]: the masks are [unsigned]. *)
Definition calc_pg_masks (p : pg_pool_t) : res pg_pool_t :=
  b ← calc_bits_of (u32 (p_pg_num p - 1)); m ← int_mask b;
  gb ← calc_bits_of (u32 (p_pgp_num p - 1)); gm ← int_mask gb;
  Ok (set_pg_nums (p_pg_num p) (p_pgp_num p) (u32 m) (u32 gm) p).

Definition set_pg_num (n : Z) (p : pg_pool_t) : res pg_pool_t :=
  calc_pg_masks (set_pg_nums (u32 n) (p_pgp_num p) (p_pg_num_mask p) (p_pgp_num_mask p) p).
Definition set_pgp_num (n : Z) (p : pg_pool_t) : res pg_pool_t :=
  calc_pg_masks (set_pg_nums (p_pg_num p) (u32 n) (p_pg_num_mask p) (p_pgp_num_mask p) p).

Definition can_shift_osds (p : pg_pool_t) : res bool :=
  if p_type p =? TYPE_REPLICATED then Ok true
  else if p_type p =? TYPE_ERASURE then Ok false
  else Fault AssertFailed.

Definition ec_pool (p : pg_pool_t) : bool := p_type p =? TYPE_ERASURE.

Definition get_pg_num_divisor (p : pg_pool_t) (pgid : pg_t) : Z :=
  if p_pg_num p =? u32 (p_pg_num_mask p + 1) then p_pg_num p else
  let mask := Z.shiftr (p_pg_num_mask p) 1 in
  if Z.land (m_seed pgid) mask <? Z.land (p_pg_num p) mask then u32 (p_pg_num_mask p + 1)
  else Z.shiftr (u32 (p_pg_num_mask p + 1)) 1.

(** [nspace + '\037' + inkey], or the key alone. *)
Definition make_hash_str (inkey nspace : list Z) : list Z :=
  match nspace with [] => inkey | _ => nspace ++ 31 :: inkey end.

Definition hash_key (bits : Z) (p : pg_pool_t) (key ns : list Z) : res Z :=
  let n := make_hash_str key ns in
  ceph_str_hash bits (p_object_hash p) (cells (n ++ [0])) (u32 (Z.of_nat (length n))).

Definition raw_hash_to_pg (p : pg_pool_t) (v : Z) : Z :=
  u32 (ceph_stable_mod v (p_pg_num p) (p_pg_num_mask p)).

Definition raw_pg_to_pg (p : pg_pool_t) (pg : pg_t) : pg_t :=
  set_ps (u32 (ceph_stable_mod (m_seed pg) (p_pg_num p) (p_pg_num_mask p))) pg.

Definition raw_pg_to_pps (p : pg_pool_t) (pg : pg_t) : Z :=
  if negb (Z.land (p_flags p) FLAG_HASHPSPOOL =? 0) then
    crush_hash32_2 CRUSH_HASH_RJENKINS1
      (u32 (ceph_stable_mod (m_seed pg) (p_pgp_num p) (p_pgp_num_mask p))) (u32 (m_pool pg))
  else u32 (ceph_stable_mod (m_seed pg) (p_pgp_num p) (p_pgp_num_mask p) + m_pool pg).

Definition get_random_pg_position (p : pg_pool_t) (pg : pg_t) (seed : Z) : Z :=
  let r := crush_hash32_2 CRUSH_HASH_RJENKINS1 seed 123 in
  let r :=
    if p_pg_num p =? u32 (p_pg_num_mask p + 1) then Z.land r (u32 (Z.lnot (p_pg_num_mask p)))
    else
      let smaller_mask := Z.shiftr (p_pg_num_mask p) 1 in
      if Z.land (m_seed pg) smaller_mask <? Z.land (p_pg_num p) smaller_mask
      then Z.land r (u32 (Z.lnot (p_pg_num_mask p)))
      else Z.land r (u32 (Z.lnot smaller_mask)) in
  Z.lor r (m_seed pg).

Example split_8_12 :
  is_split (PgT 1 3 (-1)) 8 12 ∅ = Ok (true, {[ PgT 1 11 (-1) ]}).
Proof. reflexivity. Qed.
