(* ===== verification/PgSpec.v ===== *)
(** * Placement groups: stable modulus and splits (src/osd/osd_types.cc)

    [ceph_stable_mod] as arithmetic, and what splitting a pool does to it. *)

From stdpp Require Import gmap.
From S2P Require Import Prelude Hash OutBuf StrHash StdMap IntervalSet SnapSet Pg.

(** [b] bins and a mask of [k] ones. *)
Definition fits (b k : Z) : Prop := 0 <= k <= 31 ∧ 0 < b < 2147483648 ∧ 2 ^ (k - 1) <= b <= 2 ^ k.

Definition smod (x b k : Z) : Z := if x mod 2 ^ k <? b then x mod 2 ^ k else x mod 2 ^ (k - 1).

Lemma pow_half k : 1 <= k → 2 ^ k = 2 * 2 ^ (k - 1).
Proof. intros Hk. replace k with (Z.succ (k - 1)) at 1 by lia. by rewrite Z.pow_succ_r by lia. Qed.

Lemma pow_le_31 k : 0 <= k <= 31 → 0 < 2 ^ k <= 2147483648.
Proof. intros Hk. change 2147483648 with (2 ^ 31). split; [apply Z.pow_pos_nonneg; lia|apply Z.pow_le_mono_r; lia]. Qed.

Lemma bits_loop_ok fuel : ∀ t b,
  0 <= t < 2 ^ Z.of_nat fuel →
  ∃ r, bits_loop fuel t b = Ok (b + r) ∧ 0 <= r <= Z.of_nat fuel ∧ t < 2 ^ r ∧ (r = 0 ∨ 2 ^ (r - 1) <= t).
Proof.
  induction fuel as [|fuel IH]; intros t b Ht; cbn [bits_loop]; rewrite Z.gtb_ltb; destruct (Z.ltb_spec 0 t) as [H|H].
  - change (2 ^ Z.of_nat 0) with 1 in Ht. lia.
  - exists 0. rewrite Z.add_0_r. simpl. split; [done|lia].
  - rewrite Z.shiftr_div_pow2 by lia. change (2 ^ 1) with 2.
    destruct (IH (t / 2) (b + 1)) as (r & -> & Hr & H1 & H2).
    { rewrite Nat2Z.inj_succ, Z.pow_succ_r in Ht by lia. Z.to_euclidean_division_equations. lia. }
    exists (r + 1). split; [f_equal; lia|]. split; [lia|]. rewrite (Z.pow_add_r 2 r 1) by lia. change (2 ^ 1) with 2.
    split; [Z.to_euclidean_division_equations; lia|]. right. replace (r + 1 - 1) with r by lia.
    destruct H2 as [->|H2]; [simpl; lia|]. destruct (Z.eq_dec r 0) as [->|Hr0]; [simpl; lia|].
    rewrite (pow_half r) by lia. Z.to_euclidean_division_equations. lia.
  - exists 0. rewrite Z.add_0_r. change (2 ^ 0) with 1. split; [done|lia].
Qed.

Lemma u32_ones x : is_u32 x ↔ Z.land x (Z.ones 32) = x.
Proof.
  rewrite Z.land_ones by lia. unfold is_u32. split; [by intros; apply Z.mod_small|].
  intros <-. apply Z.mod_pos_bound. lia.
Qed.

(** The number of bits of [t]. *)
Lemma calc_bits_ok t :
  0 <= t < 2147483648 → ∃ r, calc_bits_of t = Ok r ∧ 0 <= r <= 31 ∧ t < 2 ^ r ∧ (r = 0 ∨ 2 ^ (r - 1) <= t).
Proof.
  intros Ht. unfold calc_bits_of. rewrite s32_small by (unfold is_s32; lia).
  destruct (bits_loop_ok 31 t 0) as (r & -> & Hr & H1 & H2); [change (2 ^ Z.of_nat 31) with 2147483648; lia|].
  exists r. split; [done|]. split; [lia|done].
Qed.

Lemma bits_fit b : 0 < b < 2147483648 → ∃ k, calc_bits_of b = Ok k ∧ 1 <= k ∧ fits b k ∧ b < 2 ^ k.
Proof.
  intros Hb. destruct (calc_bits_ok b) as (k & E & Hk & H1 & H2); [lia|]. exists k.
  destruct H2 as [->|H2]; [simpl in H1; lia|].
  assert (1 <= k) by (destruct (Z.eq_dec k 0) as [->|]; [simpl in *; lia|lia]).
  split; [done|]. split; [lia|]. split; [|done]. split; [lia|]. lia.
Qed.

Lemma bits_pred_fit b : 0 < b < 2147483648 → ∃ k, calc_bits_of (b - 1) = Ok k ∧ fits b k.
Proof.
  intros Hb. destruct (calc_bits_ok (b - 1)) as (k & E & Hk & H1 & H2); [lia|]. exists k. split; [done|].
  split; [lia|]. split; [lia|]. split; [|lia]. destruct H2 as [->|H2]; [simpl; lia|lia].
Qed.

Lemma int_mask_ok k : 0 <= k <= 31 → int_mask k = Ok (2 ^ k - 1).
Proof.
  intros Hk. unfold int_mask. rewrite (proj2 (Z.ltb_ge k 0)), (proj2 (Z.ltb_ge 31 k)) by lia. cbn [orb]. f_equal.
  rewrite Z.shiftl_mul_pow2, Z.mul_1_l by lia. destruct (Z.eq_dec k 31) as [->|]; [reflexivity|].
  assert (2 ^ k <= 2 ^ 30) by (apply Z.pow_le_mono_r; lia). change (2 ^ 30) with 1073741824 in *.
  pose proof (Z.pow_pos_nonneg 2 k). rewrite !s32_small; unfold is_s32; rewrite ?s32_small; unfold is_s32; lia.
Qed.

(** [ceph_stable_mod] on the low bits. *)
Lemma mod_pow_u32 x k : 0 <= k <= 31 → s32 x mod 2 ^ k = x mod 2 ^ k.
Proof.
  intros Hk. rewrite <- (Z.mod_mod_divide (s32 x) 4294967296 (2 ^ k)), <- (Z.mod_mod_divide x 4294967296 (2 ^ k)).
  - f_equal. apply u32_s32.
  - exists (2 ^ (32 - k)). rewrite <- Z.pow_add_r by lia. by replace (32 - k + k) with 32 by lia.
  - exists (2 ^ (32 - k)). rewrite <- Z.pow_add_r by lia. by replace (32 - k + k) with 32 by lia.
Qed.

Lemma stable_mod_ok x b k : fits b k → ceph_stable_mod x b (2 ^ k - 1) = smod x b k.
Proof.
  intros (Hk & Hb & H1 & H2). pose proof (pow_le_31 k Hk) as Hp. unfold ceph_stable_mod, smod. cbv zeta.
  rewrite (s32_small b), (s32_small (2 ^ k - 1)) by (unfold is_s32; lia).
  rewrite (land_ones_mod _ (2 ^ k - 1) k), mod_pow_u32 by (done || lia).
  destruct (x mod 2 ^ k <? b) eqn:E; [done|].
  assert (1 <= k) as Hk1.
  { destruct (Z.eq_dec k 0) as [->|]; [|lia]. rewrite Z.mod_1_r in E. lia. }
  rewrite (land_ones_mod _ _ (k - 1)), mod_pow_u32; [done|lia|lia|].
  rewrite Z.shiftr_div_pow2, (pow_half k) by lia. change (2 ^ 1) with 2. Z.to_euclidean_division_equations. lia.
Qed.

Lemma smod_range x b k : fits b k → 0 <= smod x b k < b.
Proof.
  intros (Hk & Hb & H1 & H2). unfold smod. pose proof (Z.mod_pos_bound x (2 ^ k)) as Hm. pose proof (pow_le_31 k Hk).
  destruct (Z.ltb_spec (x mod 2 ^ k) b); [lia|]. destruct (Z.eq_dec k 0) as [->|]; [rewrite Z.mod_1_r in *; lia|].
  pose proof (Z.mod_pos_bound x (2 ^ (k - 1))). pose proof (pow_le_31 (k - 1)). lia.
Qed.

Lemma smod_u32 x b k : fits b k → u32 (smod x b k) = smod x b k.
Proof. intros Hf. pose proof (smod_range x b k Hf). destruct Hf as (_ & ? & _). apply u32_small. unfold is_u32. lia. Qed.

Lemma smod_id x b k : fits b k → 0 <= x < b → smod x b k = x.
Proof. intros (Hk & Hb & H1 & H2) Hx. unfold smod. rewrite Z.mod_small by lia. by rewrite (proj2 (Z.ltb_lt x b)) by lia. Qed.

Lemma mod_mod_pow x j k : 0 <= j <= k → (x mod 2 ^ k) mod 2 ^ j = x mod 2 ^ j.
Proof.
  intros Hj. apply Z.mod_mod_divide. exists (2 ^ (k - j)). rewrite <- Z.pow_add_r by lia. f_equal. lia.
Qed.

Lemma fits_le b k b' k' : fits b k → fits b' k' → b <= b' → k < k' ∨ k = k' ∨ (k = k' + 1 ∧ b = 2 ^ k' ∧ b' = 2 ^ k').
Proof.
  intros (Hk & Hb & H1 & H2) (Hk' & Hb' & H1' & H2') Hle.
  destruct (Z.lt_total k k') as [?|[?|Hgt]]; [by left|by right; left|right; right].
  assert (2 ^ k' <= 2 ^ (k - 1)) by (apply Z.pow_le_mono_r; lia).
  assert (b = 2 ^ k' ∧ b' = 2 ^ k' ∧ 2 ^ (k - 1) = 2 ^ k') as (Eb & Eb' & E) by lia.
  apply (Z.pow_inj_r 2) in E; lia.
Qed.

Lemma smod_low x y b k : fits b k → (∀ i, 0 <= i <= k → x mod 2 ^ i = y mod 2 ^ i) → smod x b k = smod y b k.
Proof.
  intros (Hk & Hb & H1 & H2) He. unfold smod. rewrite (He k) by lia. destruct (Z.ltb_spec (y mod 2 ^ k) b); [done|].
  destruct (Z.eq_dec k 0) as [->|]; [rewrite Z.mod_1_r in *; lia|]. by rewrite (He (k - 1)) by lia.
Qed.

(** Reducing to more bins first makes no difference. *)
Lemma smod_smod x b k b' k' : fits b k → fits b' k' → b <= b' → smod (smod x b' k') b k = smod x b k.
Proof.
  intros Hf Hf' Hle. pose proof Hf as (Hk & Hb & H1 & H2). pose proof Hf' as (Hk' & Hb' & H1' & H2').
  destruct (fits_le _ _ _ _ Hf Hf' Hle) as [Hlt|[E|(E & Eb & Eb')]]; [|subst k|subst k b b'].
  - assert (∃ j, k <= j ∧ smod x b' k' = x mod 2 ^ j) as (j & Hj & ->).
    { unfold smod. destruct (x mod 2 ^ k' <? b'); [exists k'|exists (k' - 1)]; (split; [lia|done]). }
    apply smod_low; [done|]. intros i Hi. rewrite !mod_mod_pow by lia. done.
  - unfold smod at 2. destruct (Z.ltb_spec (x mod 2 ^ k') b') as [Hx|Hx].
    + apply smod_low; [done|]. intros i Hi. by rewrite !mod_mod_pow by lia.
    + assert (1 <= k') as Hk1 by (destruct (Z.eq_dec k' 0) as [->|]; [rewrite Z.mod_1_r in Hx; lia|lia]).
      pose proof (Z.mod_pos_bound x (2 ^ (k' - 1)) ltac:(apply Z.pow_pos_nonneg; lia)).
      rewrite smod_id by (done || lia). unfold smod. by rewrite (proj2 (Z.ltb_ge _ _)) by lia.
  - assert (smod x (2 ^ k') k' = x mod 2 ^ k') as ->.
    { unfold smod. pose proof (Z.mod_pos_bound x (2 ^ k')). by rewrite (proj2 (Z.ltb_lt _ _)) by lia. }
    unfold smod. replace (k' + 1 - 1) with k' by lia. 
    pose proof (Z.mod_pos_bound x (2 ^ k') ltac:(lia)) as Hm. 
    rewrite (Z.mod_small (x mod 2 ^ k') (2 ^ (k' + 1))) by (rewrite Z.pow_add_r by lia; lia).
    rewrite (proj2 (Z.ltb_lt (x mod 2 ^ k') _)) by lia.
    destruct (Z.ltb_spec (x mod 2 ^ (k' + 1)) (2 ^ k')) as [Hx|Hx]; [|done].
    rewrite <- (Z.mod_small _ _ (conj (proj1 (Z.mod_pos_bound x (2 ^ (k' + 1)) ltac:(apply Z.pow_pos_nonneg; lia))) Hx)).
    by rewrite mod_mod_pow by lia.
Qed.

(** The choice of mask for a power of two does not matter. *)
Lemma smod_mask x b k k' : fits b k → fits b k' → smod x b k = smod x b k'.
Proof.
  intros Hf Hf'. rewrite <- (smod_smod x b k b k' Hf Hf') by lia. apply smod_id; [done|]. by apply smod_range.
Qed.

(** ** How many bits a placement group fixes *)

Lemma mod_half q h : 0 < h → h <= q < 2 * h → q mod h = q - h.
Proof. intros Hh Hq. symmetry. apply (Z.mod_unique_pos q h 1); lia. Qed.

Definition split_bits (s b k : Z) : Z := if s mod 2 ^ (k - 1) <? b mod 2 ^ (k - 1) then k else k - 1.

Lemma mod_top x k : 1 <= k → x mod 2 ^ k = x mod 2 ^ (k - 1) ∨ x mod 2 ^ k = x mod 2 ^ (k - 1) + 2 ^ (k - 1).
Proof.
  intros Hk. rewrite <- (mod_mod_pow x (k - 1) k) by lia.
  pose proof (Z.mod_pos_bound x (2 ^ k) ltac:(apply Z.pow_pos_nonneg; lia)) as Hm. rewrite (pow_half k) in * by lia.
  pose proof (Z.pow_pos_nonneg 2 (k - 1) ltac:(lia) ltac:(lia)). set (h := 2 ^ (k - 1)) in *. destruct (Z.lt_ge_cases (x mod (2 * h)) h).
  - left. symmetry. apply Z.mod_small. lia.
  - right. rewrite (mod_half (x mod (2 * h)) h); lia.
Qed.

Lemma smod_bits x s b k :
  fits b k → 1 <= k → b < 2 ^ k → 0 <= s < b →
  (smod x b k = s ↔ x mod 2 ^ split_bits s b k = s) ∧ 0 <= split_bits s b k <= 31.
Proof.
  intros (Hk & Hb & H1 & H2) Hk1 Hlt Hs. pose proof (pow_le_31 (k - 1) ltac:(lia)) as Hp.
  assert (b mod 2 ^ (k - 1) = b - 2 ^ (k - 1)) as Eb.
  { rewrite (pow_half k) in Hlt by lia. apply mod_half; lia. }
  unfold split_bits. rewrite Eb. rewrite (pow_half k) in Hlt by lia.
  pose proof (Z.mod_pos_bound x (2 ^ (k - 1)) ltac:(lia)) as Hx.
  destruct (Z.lt_ge_cases s (2 ^ (k - 1))) as [Hsl|Hsl].
  - rewrite (Z.mod_small s) by lia. unfold smod.
    destruct (Z.ltb_spec s (b - 2 ^ (k - 1))); (split; [|lia]);
      destruct (mod_top x k Hk1) as [E|E], (Z.ltb_spec (x mod 2 ^ k) b); lia.
  - assert (s mod 2 ^ (k - 1) = s - 2 ^ (k - 1)) as ->.
    { apply mod_half; lia. }
    rewrite (proj2 (Z.ltb_lt _ _)) by lia. split; [|lia]. unfold smod.
    destruct (mod_top x k Hk1) as [E|E], (Z.ltb_spec (x mod 2 ^ k) b); lia.
Qed.

Lemma fits_unique b k k' : fits b k → b < 2 ^ k → fits b k' → b < 2 ^ k' → k = k'.
Proof.
  intros (Hk & Hb & H1 & _) H2 (Hk' & _ & H1' & _) H2'.
  assert (k - 1 < k') by (apply (Z.pow_lt_mono_r_iff 2); lia).
  assert (k' - 1 < k) by (apply (Z.pow_lt_mono_r_iff 2); lia). lia.
Qed.

Lemma get_split_bits_ok p b k :
  fits b k → 1 <= k → b < 2 ^ k → 0 <= m_seed p < b → get_split_bits p b = Ok (split_bits (m_seed p) b k).
Proof.
  intros Hf Hk Hlt Hs. pose proof Hf as (Hk' & Hb & _ & _). unfold get_split_bits.
  destruct (bits_fit b Hb) as (k' & E & Hk1 & Hf' & Hlt'). rewrite (fits_unique b k k') by done.
  destruct (Z.eqb_spec b 1) as [->|Hb1].
  - rewrite (fits_unique 1 k' 1); [|done|done|split; [lia|simpl; lia]|simpl; lia]. unfold split_bits.
    by rewrite !Z.mod_1_r.
  - rewrite Z.gtb_ltb, (proj2 (Z.ltb_lt 1 b)) by lia. cbn [assert_c mbind res_bind]. rewrite E. cbn [mbind res_bind].
    rewrite (proj2 (Z.eqb_neq k' 0)) by lia. cbn [negb assert_c mbind res_bind].
    rewrite Z.shiftl_mul_pow2, Z.mul_1_l by lia. unfold split_bits. by destruct (_ <? _).
Qed.

(** ** Splits *)

(** The [n]-th candidate of a split, with [h] = [2 ^ j]. *)
Definition cand (j s n : Z) : Z := Z.lor (Z.shiftl n j) s.

Lemma lor_1 n : 0 <= n → Z.lor n 1 = 2 * (n / 2) + 1.
Proof.
  intros Hn. pose proof (Z.div_mod n 2 ltac:(lia)) as E. pose proof (Z.mod_pos_bound n 2 ltac:(lia)).
  pose proof (lor_add (n / 2) 1 1 ltac:(lia) ltac:(lia)) as Eo. change (2 ^ 1) with 2 in Eo.
  assert (n mod 2 = 0 ∨ n mod 2 = 1) as [Em|Em] by lia; rewrite Em in E.
  - replace (Z.shiftl (n / 2) 1) with n in Eo by (rewrite Z.shiftl_mul_pow2 by lia; change (2 ^ 1) with 2; lia). lia.
  - assert (n = Z.lor (Z.shiftl (n / 2) 1) 1) as E' by lia. rewrite E' at 1. rewrite <- Z.lor_assoc, Z.lor_diag. lia.
Qed.

Lemma cand_low j s n : 0 <= j → 0 <= s < 2 ^ j → cand j s n = n * 2 ^ j + s.
Proof. apply lor_add. Qed.

Lemma cand_high j s n :
  0 <= j → 2 ^ j <= s < 2 * 2 ^ j → 0 <= n → cand j s n = (2 * (n / 2) + 1) * 2 ^ j + (s - 2 ^ j).
Proof.
  intros Hj Hs Hn. unfold cand.
  assert (s = Z.lor (Z.shiftl 1 j) (s - 2 ^ j)) as E by (rewrite lor_add; lia). rewrite E at 1.
  rewrite Z.lor_assoc, <- Z.shiftl_lor, lor_1, lor_add by lia. done.
Qed.

Lemma cand_bounds j s n : 0 <= j → 0 <= s < 2 * 2 ^ j → 0 <= n → n * 2 ^ j <= cand j s n < n * 2 ^ j + 2 * 2 ^ j.
Proof.
  intros Hj Hs Hn. pose proof (Z.pow_pos_nonneg 2 j ltac:(lia) Hj). destruct (Z.lt_ge_cases s (2 ^ j)).
  - rewrite cand_low by lia. lia.
  - rewrite cand_high by lia. set (h := 2 ^ j) in *. Z.to_euclidean_division_equations. nia.
Qed.

Lemma cand_mono j s n m : 0 <= j → 0 <= s < 2 * 2 ^ j → 0 <= n <= m → cand j s n <= cand j s m.
Proof.
  intros Hj Hs Hn. pose proof (Z.pow_pos_nonneg 2 j ltac:(lia) Hj). destruct (Z.lt_ge_cases s (2 ^ j)).
  - rewrite !cand_low by lia. nia.
  - rewrite !cand_high by lia. pose proof (Z.div_le_mono n m 2). nia.
Qed.

(** Every number that reduces to [s] is a candidate. *)
Lemma cand_complete s b k x :
  fits b k → 1 <= k → b < 2 ^ k → 0 <= s < b → b <= x → smod x b k = s → ∃ n, 1 <= n ∧ x = cand (k - 1) s n.
Proof.
  intros (Hk & Hb & H1 & H2) Hk1 Hlt Hs Hx E. pose proof (pow_le_31 (k - 1) ltac:(lia)) as Hp. unfold smod in E.
  rewrite (pow_half k) in * by lia. set (h := 2 ^ (k - 1)) in *.
  assert (x mod h = s ∨ x mod (2 * h) = s ∧ h <= s) as [Em|[Em Hh]].
  { destruct (Z.ltb_spec (x mod (2 * h)) b); [|by left]. destruct (Z.lt_ge_cases s h); [left|by right].
    rewrite <- (Z.mod_mod_divide x (2 * h) h), E by (by exists 2). apply Z.mod_small. lia. }
  - pose proof (Z.div_mod x h ltac:(lia)). pose proof (Z.mod_pos_bound x h ltac:(lia)).
    exists (x / h). split; [nia|]. rewrite cand_low by lia. fold h. lia.
  - pose proof (Z.div_mod x (2 * h) ltac:(lia)). exists (2 * (x / (2 * h)) + 1). 
    assert (0 <= x / (2 * h)) by (apply Z.div_pos; lia). split; [lia|]. rewrite cand_high by (fold h; lia). fold h.
    replace ((2 * (x / (2 * h)) + 1) / 2) with (x / (2 * h)); [lia|]. Z.to_euclidean_division_equations. lia.
Qed.

(** [x] is the seed of a new placement group split from [p]. *)
Definition child_seed (p : pg_t) (old new k x : Z) : Prop := old <= x < new ∧ smod x old k = m_seed p.

#[export] Instance child_seed_dec p old new k x : Decision (child_seed p old new k x).
Proof. unfold child_seed. apply _. Defined.

Section split.
Context (p : pg_t) (old new k : Z).
Context (Hf : fits old k) (Hk1 : 1 <= k) (Hlt : old < 2 ^ k) (Hs : 0 <= m_seed p < old).
Context (Hnew : old < new <= 1073741824).

Abbreviation cand := (cand (k - 1) (m_seed p)).

Lemma cand_u32 n :
  1 <= n → (n = 1 ∨ cand (n - 1) < new) → u32 (Z.lor (s32 (Z.shiftl n (k - 1))) (m_seed p)) = cand n ∧ n <= cand n.
Proof.
  intros Hn Hlast. pose proof Hf as (Hk & Hb & H1 & H2). pose proof (pow_le_31 (k - 1) ltac:(lia)) as Hp.
  rewrite (pow_half k) in * by lia.
  pose proof (cand_bounds (k - 1) (m_seed p) (n - 1) ltac:(lia) ltac:(lia) ltac:(lia)).
  pose proof (cand_bounds (k - 1) (m_seed p) n ltac:(lia) ltac:(lia) ltac:(lia)).
  set (h := 2 ^ (k - 1)) in *. assert (n * h < new + h) by (destruct Hlast as [->|]; lia).
  rewrite (s32_small (Z.shiftl n (k - 1))) by (rewrite Z.shiftl_mul_pow2 by lia; fold h; unfold is_s32; lia).
  fold (cand n). split; [apply u32_small; unfold is_u32; lia|nia].
Qed.

Lemma cand_le n m : 0 <= n <= m → cand n <= cand m.
Proof.
  destruct Hf as (Hk & Hb & H1 & H2). intros. apply cand_mono; [lia| |lia]. rewrite <- pow_half by lia. lia.
Qed.

Lemma split_loop_ok fuel : ∀ n split children,
  1 <= n → n + Z.of_nat fuel > new + 1 → n <= new → (n = 1 ∨ cand (n - 1) < new) →
  ∃ split' children',
    split_loop p old new k (2 ^ k - 1) fuel n split children = Ok (split', children') ∧
    (∀ q, q ∈ children' ↔ q ∈ children ∨ ∃ m, n <= m ∧ q = set_ps (cand m) p ∧ child_seed p old new k (cand m)) ∧
    (split' = true ↔ split = true ∨ ∃ m, n <= m ∧ child_seed p old new k (cand m)).
Proof.
  induction fuel as [|fuel IH]; intros n split ch Hn Hfu Hnn Hlast; [lia|]. cbn [split_loop]. cbv zeta.
  destruct (cand_u32 n Hn Hlast) as [-> Hge].
  assert (∀ sp ch', cand n < new → (∀ q, q ∈ ch' ↔ q ∈ ch ∨ q = set_ps (cand n) p ∧ child_seed p old new k (cand n)) →
    (sp = true ↔ split = true ∨ child_seed p old new k (cand n)) →
    ∃ split' children',
      split_loop p old new k (2 ^ k - 1) fuel (n + 1) sp ch' = Ok (split', children') ∧
      (∀ q, q ∈ children' ↔ q ∈ ch ∨ ∃ m, n <= m ∧ q = set_ps (cand m) p ∧ child_seed p old new k (cand m)) ∧
      (split' = true ↔ split = true ∨ ∃ m, n <= m ∧ child_seed p old new k (cand m))) as Hstep.
  { intros sp ch' Hc Hch Hsp.
    destruct (IH (n + 1) sp ch') as (sp' & ch'' & E & Hq & Hb); [lia|lia|lia|right; by replace (n + 1 - 1) with n by lia|].
    exists sp', ch''. split; [done|]. split.
    - intros q. rewrite Hq, Hch. split.
      + intros [[?|[? ?]]|(m & ? & ?)]; [by left|right; exists n; split; [lia|done]|right; exists m; split; [lia|done]].
      + intros [?|(m & Hm & ?)]; [by left; left|]. destruct (Z.eq_dec m n) as [->|]; [by left; right|].
        right. exists m. split; [lia|done].
    - rewrite Hb, Hsp. split.
      + intros [[?|?]|(m & ? & ?)]; [by left|right; exists n; split; [lia|done]|right; exists m; split; [lia|done]].
      + intros [?|(m & Hm & ?)]; [by left; left|]. destruct (Z.eq_dec m n) as [->|]; [by left; right|].
        right. exists m. split; [lia|done]. }
  assert ((cand n < old ∨ cand n = m_seed p) → ¬ child_seed p old new k (cand n)) as Hno.
  { intros Hc [? ?]. lia. }
  destruct ((cand n <? old) || (cand n =? m_seed p)) eqn:E1.
  { apply orb_true_iff in E1. rewrite Z.ltb_lt, Z.eqb_eq in E1. specialize (Hno E1).
    apply Hstep; [lia|intros q; tauto|tauto]. }
  apply orb_false_iff in E1 as [E1 E2]. apply Z.ltb_ge in E1. apply Z.eqb_neq in E2.
  rewrite Z.geb_leb. destruct (Z.leb_spec new (cand n)) as [Hstop|Hgo].
  { exists split, ch. split; [done|].
    assert (∀ m, n <= m → ¬ child_seed p old new k (cand m)) as Hnone.
    { intros m Hm [? _]. pose proof (cand_le n m). lia. }
    split; [intros q|]; (split; [by left|]); intros [?|(m & Hm & Hc)]; [done|destruct Hc; by destruct (Hnone m)|done|by destruct (Hnone m)]. }
  rewrite stable_mod_ok, smod_u32 by done. destruct (Z.eqb_spec (smod (cand n) old k) (m_seed p)) as [E3|E3].
  - assert (child_seed p old new k (cand n)) as Hc by (split; [lia|done]). apply Hstep; [lia| |tauto].
    intros q. rewrite elem_of_union, elem_of_singleton. fold (set_ps (cand n) p). tauto.
  - assert (¬ child_seed p old new k (cand n)) by (intros [? ?]; done). apply Hstep; [lia|intros q; tauto|tauto].
Qed.
End split.

Lemma is_split_ok p old new children k :
  fits old k → 0 <= m_seed p < old → old <= new <= 1073741824 →
  ∃ split children',
    is_split p old new children = Ok (split, children') ∧
    (∀ q, q ∈ children' ↔ q ∈ children ∨ ∃ x, q = set_ps x p ∧ child_seed p old new k x) ∧
    (split = true ↔ ∃ x, child_seed p old new k x).
Proof.
  intros Hf Hs Hnew. unfold is_split. rewrite (proj2 (Z.ltb_lt (m_seed p) old)) by lia. cbn [assert_c mbind res_bind].
  destruct (Z.leb_spec new old) as [Hle|Hgt].
  { exists false, children. split; [done|]. split.
    - intros q. split; [by left|]. intros [?|(x & _ & [? _])]; [done|lia].
    - split; [done|]. intros (x & [? _]). lia. }
  destruct (bits_fit old ltac:(lia)) as (b & -> & Hb1 & Hfb & Hlt). cbn [mbind res_bind].
  pose proof Hfb as (Hb & _ & _). rewrite int_mask_ok by lia. cbn [mbind res_bind].
  rewrite (proj2 (Z.leb_gt b 0)) by lia.
  assert (∀ x, child_seed p old new k x ↔ child_seed p old new b x) as Hkb.
  { intros x. unfold child_seed. by rewrite (smod_mask x old k b). }
  destruct (split_loop_ok p old new b Hfb Hb1 Hlt Hs ltac:(lia) (S (Z.to_nat new)) 1 false children)
    as (sp & ch & E & Hq & Hsp); [lia|lia|lia|by left|].
  exists sp, ch. split; [done|].
  assert (∀ x, child_seed p old new b x → ∃ m, 1 <= m ∧ x = cand (b - 1) (m_seed p) m) as Hall.
  { intros x [? ?]. eapply cand_complete; try done; lia. }
  split.
  - intros q. rewrite Hq. split; (intros [?|Hx]; [by left|right]).
    + destruct Hx as (m & _ & -> & ?). eexists. split; [done|]. by apply Hkb.
    + destruct Hx as (x & -> & Hx). apply Hkb in Hx. destruct (Hall x Hx) as (m & ? & ->). eauto.
  - rewrite Hsp. split.
    + intros [?|(m & _ & ?)]; [done|]. eexists. by apply Hkb.
    + intros (x & Hx). apply Hkb in Hx. destruct (Hall x Hx) as (m & ? & ->). eauto.
Qed.

Lemma get_ancestor_ok p b k :
  fits b k → 0 < b → get_ancestor p b = Ok (set_ps (smod (m_seed p) b k) p).
Proof.
  intros Hf Hb. unfold get_ancestor. destruct (bits_fit b) as (j & -> & Hj & Hfj & _); [apply Hf|]. cbn [mbind res_bind].
  rewrite int_mask_ok by apply Hfj. cbn [mbind res_bind]. rewrite stable_mod_ok, smod_u32 by done. by rewrite (smod_mask _ b k j).
Qed.
