(* ===== verification/PgProps.v ===== *)
(** * Placement groups: what pools promise (src/osd/osd_types.cc)

    The masks of a pool, the placement group of an object, and how objects move
    when the number of placement groups grows. *)

From stdpp Require Import gmap.
From S2P Require Import Prelude Hash OutBuf StrHash StdMap IntervalSet SnapSet Pg.
From S2P Require Import PgSpec.

(** The mask has as many ones as needed for [n] bins. *)
Definition mask_of (n mask : Z) : Prop := ∃ k, fits n k ∧ mask = 2 ^ k - 1.

(** A pool whose masks follow its numbers of placement groups. *)
Definition pool_wf (p : pg_pool_t) : Prop :=
  mask_of (p_pg_num p) (p_pg_num_mask p) ∧ mask_of (p_pgp_num p) (p_pgp_num_mask p).

Lemma mask_of_stable n mask x : mask_of n mask → ∃ k, fits n k ∧ mask = 2 ^ k - 1 ∧ u32 (ceph_stable_mod x n mask) = smod x n k.
Proof. intros (k & Hf & ->). exists k. rewrite stable_mod_ok, smod_u32 by done. done. Qed.

Lemma raw_pg_to_pg_ok p pg : pool_wf p → ∃ k, fits (p_pg_num p) k ∧ raw_pg_to_pg p pg = set_ps (smod (m_seed pg) (p_pg_num p) k) pg.
Proof.
  intros [Hm _]. destruct (mask_of_stable _ _ (m_seed pg) Hm) as (k & Hf & _ & E). exists k. split; [done|].
  unfold raw_pg_to_pg. by rewrite E.
Qed.

Lemma calc_pg_masks_ok p :
  0 < p_pg_num p < 2147483648 → 0 < p_pgp_num p < 2147483648 →
  ∃ m gm, calc_pg_masks p = Ok (set_pg_nums (p_pg_num p) (p_pgp_num p) m gm p) ∧
    mask_of (p_pg_num p) m ∧ mask_of (p_pgp_num p) gm.
Proof.
  intros H1 H2. unfold calc_pg_masks. rewrite (u32_small (p_pg_num p - 1)), (u32_small (p_pgp_num p - 1)) by (unfold is_u32; lia).
  destruct (bits_pred_fit _ H1) as (k & -> & Hk), (bits_pred_fit _ H2) as (g & -> & Hg). cbn [mbind res_bind].
  pose proof (proj1 Hk) as Hk'. pose proof (proj1 Hg) as Hg'. rewrite !int_mask_ok by done. cbn [mbind res_bind].
  pose proof (pow_le_31 k Hk'). pose proof (pow_le_31 g Hg'). rewrite !u32_small by (unfold is_u32; lia).
  exists (2 ^ k - 1), (2 ^ g - 1). split; [done|]. split; by eexists.
Qed.

(** C32: Setting the number of placement groups of a well-formed pool, to any
    positive [int], succeeds; the masks of the result fit its numbers, nothing
    else of the pool changes, and every hash value then has a placement group
    below the new number, the one it names when it is already below. *)
Theorem set_pg_num_wf p n :
  pool_wf p → 0 < n < 2147483648 →
  ∃ p', set_pg_num n p = Ok p' ∧ pool_wf p' ∧ p_pg_num p' = n ∧ p_pgp_num p' = p_pgp_num p ∧
    p' = set_pg_nums n (p_pgp_num p) (p_pg_num_mask p') (p_pgp_num_mask p') p ∧
    ∀ pg, 0 <= m_seed (raw_pg_to_pg p' pg) < n ∧ m_pool (raw_pg_to_pg p' pg) = m_pool pg ∧
      (0 <= m_seed pg < n → raw_pg_to_pg p' pg = pg).
Proof.
  intros [_ (g & Hg & _)] Hn. unfold set_pg_num. rewrite u32_small by (unfold is_u32; lia).
  destruct (calc_pg_masks_ok (set_pg_nums n (p_pgp_num p) (p_pg_num_mask p) (p_pgp_num_mask p) p))
    as (m & gm & E & Hm & Hgm); [done|apply Hg|].
  eexists. split; [exact E|]. do 4 (split; [done|]). intros pg.
  destruct (mask_of_stable _ _ (m_seed pg) Hm) as (k & Hf & _ & E'). unfold raw_pg_to_pg. cbn in E', Hf |- *. rewrite E'.
  split; [by apply smod_range|]. split; [done|]. intros Hs. rewrite smod_id by done. by destruct pg.
Qed.

Definition no_pool : pg_pool_t := PgPool 1 1 3 0 2 8 8 7 7 1 no_snaps 2 0 (-1) (-1).

Lemma no_pool_wf : pool_wf no_pool.
Proof. split; exists 3; (split; [|done]); unfold fits; cbn; lia. Qed.

Theorem set_pg_num_wf_witness :
  pool_wf no_pool ∧ ∃ p', set_pg_num 12 no_pool = Ok p' ∧ pool_wf p' ∧ p_pg_num p' = 12 ∧ p_pgp_num p' = 8 ∧
    p' = set_pg_nums 12 8 (p_pg_num_mask p') (p_pgp_num_mask p') no_pool ∧
    ∀ pg, 0 <= m_seed (raw_pg_to_pg p' pg) < 12 ∧ m_pool (raw_pg_to_pg p' pg) = m_pool pg ∧
      (0 <= m_seed pg < 12 → raw_pg_to_pg p' pg = pg).
Proof. split; [apply no_pool_wf|apply (set_pg_num_wf no_pool 12 no_pool_wf); lia]. Defined.

(** C33: When a pool grows from [old] to [new] placement groups, an object stays
    in its placement group or moves to one of the children [is_split] lists for
    that group: the children are exactly the new seeds that reduce to the
    group's, [get_ancestor] takes the new group of every object back to its old
    one, and so no two groups share a child. *)
Theorem split_moves_to_children p p' pg :
  pool_wf p → pool_wf p' → p_pg_num p <= p_pg_num p' <= 1073741824 →
  let q := raw_pg_to_pg p pg in let q' := raw_pg_to_pg p' pg in
  get_ancestor q' (p_pg_num p) = Ok q ∧
  ∃ children, is_split q (p_pg_num p) (p_pg_num p') ∅ = Ok (bool_decide (children ≠ ∅), children) ∧
    (q' = q ∨ q' ∈ children) ∧
    ∀ c, c ∈ children ↔
      c = set_ps (m_seed c) q ∧ p_pg_num p <= m_seed c < p_pg_num p' ∧ get_ancestor c (p_pg_num p) = Ok q.
Proof.
  intros Hw Hw' Hle. cbv zeta. destruct (raw_pg_to_pg_ok p pg Hw) as (k & Hf & ->).
  destruct (raw_pg_to_pg_ok p' pg Hw') as (k' & Hf' & ->).
  pose proof (smod_range (m_seed pg) _ _ Hf) as Hr. pose proof (smod_range (m_seed pg) _ _ Hf') as Hr'.
  assert (∀ c, get_ancestor c (p_pg_num p) = Ok (set_ps (smod (m_seed c) (p_pg_num p) k) c)) as Ha.
  { intros c. apply get_ancestor_ok; [done|lia]. }
  split; [rewrite Ha; cbn; by rewrite smod_smod by (done || lia)|].
  destruct (is_split_ok (set_ps (smod (m_seed pg) (p_pg_num p) k) pg) _ (p_pg_num p') ∅ k Hf Hr Hle)
    as (sp & ch & E & Hc & Hsp). exists ch.
  assert (∀ c, c ∈ ch ↔ ∃ x, c = set_ps x (set_ps (smod (m_seed pg) (p_pg_num p) k) pg) ∧
    child_seed (set_ps (smod (m_seed pg) (p_pg_num p) k) pg) (p_pg_num p) (p_pg_num p') k x) as Hc'.
  { intros c. rewrite Hc, elem_of_empty. tauto. }
  split.
  - rewrite E. do 2 f_equal. apply eq_bool_prop_intro. rewrite bool_decide_spec, Is_true_true, Hsp. split.
    + intros (x & Hx) ->. apply (not_elem_of_empty (C := gset pg_t) (set_ps x (set_ps (smod (m_seed pg) (p_pg_num p) k) pg))).
      apply Hc'. eauto.
    + intros Hne. apply set_choose_L in Hne as (c & Hx). apply Hc' in Hx as (x & _ & Hx). eauto.
  - split.
    + destruct (Z.lt_ge_cases (smod (m_seed pg) (p_pg_num p') k') (p_pg_num p)) as [Hlt|Hge].
      * left. f_equal. rewrite <- (smod_smod (m_seed pg) _ k _ k' Hf Hf') by lia. symmetry. apply smod_id; [done|lia].
      * right. apply Hc'. eexists. split; [|split; [split; [exact Hge|apply Hr']|cbn; by rewrite smod_smod by (done || lia)]]. done.
    + intros c. rewrite Hc', Ha. split.
      * intros (x & -> & Hx1 & Hx2). cbn in Hx2 |- *. by rewrite Hx2.
      * intros (-> & Hx & Hx2). injection Hx2 as Hx2. exists (m_seed c). split; [done|split; [done|exact Hx2]].
Qed.

Definition small_pool : pg_pool_t := PgPool 1 1 3 0 2 8 8 7 7 1 no_snaps 2 0 (-1) (-1).
Definition grown_pool : pg_pool_t := PgPool 1 1 3 0 2 12 8 15 7 2 no_snaps 2 0 (-1) (-1).

Lemma grown_pool_wf : pool_wf grown_pool.
Proof. split; [exists 4|exists 3]; (split; [|done]); unfold fits; cbn; lia. Qed.

Theorem split_moves_to_children_witness :
  let pg := PgT 1 27 (-1) in
  raw_pg_to_pg no_pool pg = PgT 1 3 (-1) ∧ raw_pg_to_pg grown_pool pg = PgT 1 11 (-1) ∧
  get_ancestor (PgT 1 11 (-1)) 8 = Ok (PgT 1 3 (-1)) ∧
  ∃ children, is_split (PgT 1 3 (-1)) 8 12 ∅ = Ok (bool_decide (children ≠ ∅), children) ∧
    (PgT 1 11 (-1) = PgT 1 3 (-1) ∨ PgT 1 11 (-1) ∈ children) ∧
    ∀ c, c ∈ children ↔
      c = set_ps (m_seed c) (PgT 1 3 (-1)) ∧ 8 <= m_seed c < 12 ∧ get_ancestor c 8 = Ok (PgT 1 3 (-1)).
Proof.
  split; [reflexivity|]. split; [reflexivity|].
  apply (split_moves_to_children no_pool grown_pool (PgT 1 27 (-1)) no_pool_wf grown_pool_wf). cbn. lia.
Defined.

Lemma get_pg_num_divisor_ok p pg k :
  mask_of (p_pg_num p) (p_pg_num_mask p) → fits (p_pg_num p) k → 1 <= k → p_pg_num p < 2 ^ k → 0 <= m_seed pg < p_pg_num p →
  get_pg_num_divisor p pg = 2 ^ split_bits (m_seed pg) (p_pg_num p) k.
Proof.
  intros (j & Hf & Em) Hfk Hk1 Hlt Hs. pose proof Hf as (Hj & Hb & H1 & H2). pose proof (pow_le_31 j Hj).
  unfold get_pg_num_divisor. rewrite Em. replace (2 ^ j - 1 + 1) with (2 ^ j) by lia.
  rewrite (u32_small (2 ^ j)) by (unfold is_u32; lia). destruct (Z.eqb_spec (p_pg_num p) (2 ^ j)) as [E|E].
  - assert (k = j + 1) as ->.
    { destruct Hfk as (? & _ & H3 & _). assert (j < k) by (apply (Z.pow_lt_mono_r_iff 2); lia).
      assert (k - 1 <= j) by (apply (Z.pow_le_mono_r_iff 2); lia). lia. }
    unfold split_bits. replace (j + 1 - 1) with j by lia. rewrite E, Z.mod_same by lia.
    pose proof (Z.mod_pos_bound (m_seed pg) (2 ^ j) ltac:(lia)). by rewrite (proj2 (Z.ltb_ge _ 0)) by lia.
  - rewrite (fits_unique (p_pg_num p) k j) by (done || lia). 
    assert (1 <= j) by (destruct (Z.eq_dec j 0) as [->|]; [simpl in *; lia|lia]).
    assert (Z.shiftr (2 ^ j - 1) 1 = 2 ^ (j - 1) - 1) as ->.
    { rewrite Z.shiftr_div_pow2, (pow_half j) by lia. change (2 ^ 1) with 2. Z.to_euclidean_division_equations. lia. }
    rewrite !(land_ones_mod _ (2 ^ (j - 1) - 1) (j - 1)) by lia. unfold split_bits. destruct (_ <? _); [done|].
    rewrite Z.shiftr_div_pow2, (pow_half j) by lia. change (2 ^ 1) with 2. Z.to_euclidean_division_equations. lia.
Qed.

Lemma raw_hash_to_pg_bits p s k v :
  pool_wf p → fits (p_pg_num p) k → 1 <= k → p_pg_num p < 2 ^ k → 0 <= s < p_pg_num p →
  raw_hash_to_pg p v = s ↔ v mod 2 ^ split_bits s (p_pg_num p) k = s.
Proof.
  intros [Hm _] Hf Hk Hlt Hs. unfold raw_hash_to_pg. destruct (mask_of_stable _ _ v Hm) as (i & Hi & _ & ->).
  rewrite (smod_mask v _ i k Hi Hf). by apply smod_bits.
Qed.

Lemma ones_eq w : 0 <= w → 2 ^ w - 1 = Z.ones w.
Proof. intros. rewrite Z.ones_equiv. lia. Qed.

(** The low [w] bits come from [s], the others from [r]. *)
Lemma low_bits_of r w s :
  0 <= w <= 31 → 0 <= s < 2 ^ w → is_u32 r →
  let v := Z.lor (Z.land r (u32 (Z.lnot (2 ^ w - 1)))) s in is_u32 v ∧ v mod 2 ^ w = s.
Proof.
  intros Hw Hs Hr v. pose proof (pow_le_31 w Hw). subst v. split.
  - apply u32_ones. rewrite Z.land_lor_distr_l, <- Z.land_assoc.
    rewrite (proj1 (u32_ones s)) by (unfold is_u32; lia). by rewrite (proj1 (u32_ones (u32 _)) (u32_range _)).
  - rewrite <- Z.land_ones, Z.land_lor_distr_l, <- Z.land_assoc, (Z.land_ones s), (Z.mod_small s) by lia.
    rewrite Z.land_ones by lia. unfold u32, Z.lnot.
    rewrite Z.mod_mod_divide by (exists (2 ^ (32 - w)); rewrite <- Z.pow_add_r by lia; by replace (32 - w + w) with 32 by lia).
    replace (Z.pred (- (2 ^ w - 1))) with ((-1) * 2 ^ w) by lia. rewrite Z.mod_mul by lia. by rewrite Z.land_0_r.
Qed.

Lemma split_bits_seed s b k : fits b k → 1 <= k → b < 2 ^ k → 0 <= s < b → s < 2 ^ split_bits s b k.
Proof.
  intros Hf Hk Hlt Hs. destruct (proj1 (smod_bits s s b k Hf Hk Hlt Hs)) as [H _].
  pose proof (Z.mod_pos_bound s (2 ^ split_bits s b k)) as Hm. rewrite H in Hm by by apply smod_id.
  apply Hm. apply Z.pow_pos_nonneg; [lia|]. by apply (smod_bits 0).
Qed.

(** The code's three masks are the one that [get_split_bits] gives. *)
Lemma random_position_bits p pg seed k :
  mask_of (p_pg_num p) (p_pg_num_mask p) → fits (p_pg_num p) k → 1 <= k → p_pg_num p < 2 ^ k → 0 <= m_seed pg < p_pg_num p →
  get_random_pg_position p pg seed =
    Z.lor (Z.land (crush_hash32_2 CRUSH_HASH_RJENKINS1 seed 123) (u32 (Z.lnot (2 ^ split_bits (m_seed pg) (p_pg_num p) k - 1))))
      (m_seed pg).
Proof.
  intros Hm Hfk Hk1 Hlt Hs. pose proof (get_pg_num_divisor_ok p pg k Hm Hfk Hk1 Hlt Hs) as <-.
  destruct Hm as (j & Hf & Em). pose proof Hf as (Hj & Hb & H1 & H2). pose proof (pow_le_31 j Hj).
  unfold get_random_pg_position, get_pg_num_divisor. cbv zeta. rewrite Em. replace (2 ^ j - 1 + 1) with (2 ^ j) by lia.
  rewrite (u32_small (2 ^ j)) by (unfold is_u32; lia). destruct (Z.eqb_spec (p_pg_num p) (2 ^ j)) as [->|E]; [done|].
  destruct (_ <? _); [done|]. do 4 f_equal.
  assert (1 <= j) by (destruct (Z.eq_dec j 0) as [->|]; [simpl in *; lia|lia]).
  rewrite !Z.shiftr_div_pow2, (pow_half j) by lia. change (2 ^ 1) with 2. Z.to_euclidean_division_equations. lia.
Qed.

(** [get_split_bits] of a placement group of a pool names the number of low
    bits of a hash that decide membership: an object is in the group exactly if
    its hash agrees with the group's seed on that many bits, and
    [get_pg_num_divisor] is two to that number. *)
Theorem get_split_bits_exact p pg :
  pool_wf p → 0 <= m_seed pg < p_pg_num p →
  ∃ w, get_split_bits pg (p_pg_num p) = Ok w ∧ 0 <= w <= 31 ∧ get_pg_num_divisor p pg = 2 ^ w ∧
    ∀ v, raw_hash_to_pg p v = m_seed pg ↔ v mod 2 ^ w = m_seed pg.
Proof.
  intros Hw Hs. pose proof (proj1 Hw) as Hm. destruct (mask_of_stable _ _ 0 Hm) as (j & Hj & _ & _).
  destruct (bits_fit (p_pg_num p)) as (k & _ & Hk1 & Hf & Hlt); [apply Hj|].
  exists (split_bits (m_seed pg) (p_pg_num p) k). split; [by apply get_split_bits_ok|].
  split; [by apply (smod_bits 0)|]. split; [by apply get_pg_num_divisor_ok|].
  intros v. by apply raw_hash_to_pg_bits.
Qed.

Theorem get_split_bits_exact_witness :
  ∃ w, get_split_bits (PgT 1 3 (-1)) 12 = Ok w ∧ 0 <= w <= 31 ∧ get_pg_num_divisor grown_pool (PgT 1 3 (-1)) = 2 ^ w ∧
    ∀ v, raw_hash_to_pg grown_pool v = 3 ↔ v mod 2 ^ w = 3.
Proof. apply (get_split_bits_exact grown_pool (PgT 1 3 (-1)) grown_pool_wf). cbn. lia. Defined.

(** [get_random_pg_position] returns a 32-bit hash value that lies in the
    placement group it is asked for, whatever the seed. *)
Theorem random_position_in_pg p pg seed :
  pool_wf p → 0 <= m_seed pg < p_pg_num p →
  is_u32 (get_random_pg_position p pg seed) ∧ raw_hash_to_pg p (get_random_pg_position p pg seed) = m_seed pg.
Proof.
  intros Hw Hs. pose proof (proj1 Hw) as Hm. destruct (mask_of_stable _ _ 0 Hm) as (j & Hj & _ & _).
  destruct (bits_fit (p_pg_num p)) as (k & _ & Hk1 & Hf & Hlt); [apply Hj|].
  rewrite (random_position_bits p pg seed k) by done.
  destruct (low_bits_of (crush_hash32_2 CRUSH_HASH_RJENKINS1 seed 123) (split_bits (m_seed pg) (p_pg_num p) k) (m_seed pg))
    as [Hu Hv]; [by apply (smod_bits 0)|split; [lia|by apply split_bits_seed]|apply crush_hash32_2_u32|].
  split; [done|]. by apply (raw_hash_to_pg_bits p _ k).
Qed.

Theorem random_position_in_pg_witness :
  is_u32 (get_random_pg_position grown_pool (PgT 1 11 (-1)) 7) ∧
  raw_hash_to_pg grown_pool (get_random_pg_position grown_pool (PgT 1 11 (-1)) 7) = 11.
Proof. apply (random_position_in_pg grown_pool (PgT 1 11 (-1)) 7 grown_pool_wf). cbn. lia. Defined.

(** [get_parent] clears the top bit of the seed; what is left is the
    placement group's ancestor at every number of groups from that bit up to
    the seed itself, hence the group it was split from when the number grew
    past it. *)
Theorem get_parent_is_ancestor p r old :
  0 < m_seed p < 2147483648 → calc_bits_of (m_seed p) = Ok r → 2 ^ (r - 1) <= old <= m_seed p →
  get_parent p = get_ancestor p old ∧ ∃ q, get_parent p = Ok q ∧ m_seed q = m_seed p - 2 ^ (r - 1).
Proof.
  intros Hs Er Hold. destruct (bits_fit _ Hs) as (r' & E & Hr1 & Hf & Hlt). rewrite Er in E. injection E as <-.
  pose proof Hf as (Hr & _ & H1 & _). pose proof (pow_le_31 (r - 1) ltac:(lia)).
  assert (get_parent p = Ok (set_ps (m_seed p mod 2 ^ (r - 1)) p)) as ->.
  { unfold get_parent. rewrite Er. cbn [mbind res_bind]. rewrite (proj2 (Z.eqb_neq r 0)) by lia. cbn [negb assert_c mbind res_bind].
    do 2 f_equal. rewrite Z.shiftl_mul_pow2 by lia. unfold Z.lnot at 1.
    replace (Z.pred (- (Z.lnot 0 * 2 ^ (r - 1)))) with (2 ^ (r - 1) - 1) by (unfold Z.lnot; lia).
    rewrite u32_small by (unfold is_u32; lia). apply land_ones_mod; [lia|done]. }
  assert (fits old r) as Hfo by (split; [done|split; lia]).
  rewrite (get_ancestor_ok p old r) by (done || lia).
  assert (m_seed p mod 2 ^ (r - 1) = m_seed p - 2 ^ (r - 1)) as Em by (rewrite (pow_half r) in Hlt by lia; apply mod_half; lia).
  split; [|eexists; split; [done|exact Em]]. do 2 f_equal. unfold smod. rewrite (Z.mod_small (m_seed p) (2 ^ r)) by lia.
  by rewrite (proj2 (Z.ltb_ge (m_seed p) old)) by lia.
Qed.

Theorem get_parent_is_ancestor_witness :
  get_parent (PgT 1 11 (-1)) = get_ancestor (PgT 1 11 (-1)) 8 ∧
  ∃ q, get_parent (PgT 1 11 (-1)) = Ok q ∧ m_seed q = 11 - 2 ^ (4 - 1).
Proof. apply (get_parent_is_ancestor (PgT 1 11 (-1)) 4 8); [cbn; lia|reflexivity|cbn; lia]. Defined.
