(* ===== verification/CrushWrapper.v ===== *)
(** * The CRUSH map as an object (src/crush/CrushWrapper.h, CrushWrapper.cc)

    The map with the names of its types, items and rules, the cached reverse
    maps, the tunables, the two calls by which a cluster map places data,
    [find_rule] and [do_rule]; then names and locations, with their theorems. *)

From stdpp Require Import gmap strings sorting.
From S2P Require Import Prelude CrushTypes Mapper BuilderMap StdMap.

Record crush_wrapper := CrushWrapper {
  cw_crush : crush_map;
  cw_type_map : list (Z * string);         (* std::map<int32_t, string>, in key order *)
  cw_name_map : list (Z * string);
  cw_rule_name_map : list (Z * string);
  cw_have_rmaps : bool;
  cw_type_rmap : gmap string Z;
  cw_name_rmap : gmap string Z;
  cw_rule_name_rmap : gmap string Z }.

Definition set_cw_crush (m : crush_map) (c : crush_wrapper) : crush_wrapper :=
  CrushWrapper m (cw_type_map c) (cw_name_map c) (cw_rule_name_map c) (cw_have_rmaps c)
    (cw_type_rmap c) (cw_name_rmap c) (cw_rule_name_rmap c).

(** ** Tunables *)

Definition set_m_tunables (local fallback total once vary algs : Z) (m : crush_map) : crush_map :=
  CrushMap (m_buckets m) (m_rules m) (m_max_buckets m) (m_max_rules m) (m_max_devices m)
    local fallback total once vary (m_straw_calc_version m) algs (m_choose_tries m).

Definition set_m_straw_calc_version (v : Z) (m : crush_map) : crush_map :=
  CrushMap (m_buckets m) (m_rules m) (m_max_buckets m) (m_max_rules m) (m_max_devices m)
    (m_choose_local_tries m) (m_choose_local_fallback_tries m) (m_choose_total_tries m)
    (m_chooseleaf_descend_once m) (m_chooseleaf_vary_r m) v
    (m_allowed_bucket_algs m) (m_choose_tries m).

Definition HAMMER_ALGS : Z :=
  Z.lor (Z.lor (Z.lor (Z.shiftl 1 CRUSH_BUCKET_UNIFORM) (Z.shiftl 1 CRUSH_BUCKET_LIST))
    (Z.shiftl 1 CRUSH_BUCKET_STRAW)) (Z.shiftl 1 CRUSH_BUCKET_STRAW2).

Definition set_tunables_argonaut : crush_map → crush_map :=
  set_m_tunables 2 5 19 0 0 CRUSH_LEGACY_ALLOWED_BUCKET_ALGS.
Definition set_tunables_bobtail : crush_map → crush_map :=
  set_m_tunables 0 0 50 1 0 CRUSH_LEGACY_ALLOWED_BUCKET_ALGS.
Definition set_tunables_firefly : crush_map → crush_map :=
  set_m_tunables 0 0 50 1 1 CRUSH_LEGACY_ALLOWED_BUCKET_ALGS.
Definition set_tunables_hammer : crush_map → crush_map :=
  set_m_tunables 0 0 50 1 1 HAMMER_ALGS.

Definition set_tunables_legacy (m : crush_map) : crush_map :=
  set_m_straw_calc_version 0 (set_tunables_argonaut m).
Definition set_tunables_optimal (m : crush_map) : crush_map :=
  set_m_straw_calc_version 1 (set_tunables_hammer m).
Definition set_tunables_default (m : crush_map) : crush_map :=
  set_m_straw_calc_version 1 (set_tunables_bobtail m).

Definition tunables_are (local fallback total once vary straw algs : Z) (m : crush_map) : bool :=
  (m_choose_local_tries m =? local) && (m_choose_local_fallback_tries m =? fallback) &&
  (m_choose_total_tries m =? total) && (m_chooseleaf_descend_once m =? once) &&
  (m_chooseleaf_vary_r m =? vary) && (m_straw_calc_version m =? straw) &&
  (m_allowed_bucket_algs m =? algs).

Definition has_argonaut_tunables : crush_map → bool := tunables_are 2 5 19 0 0 0 CRUSH_LEGACY_ALLOWED_BUCKET_ALGS.
Definition has_bobtail_tunables : crush_map → bool := tunables_are 0 0 50 1 0 0 CRUSH_LEGACY_ALLOWED_BUCKET_ALGS.
Definition has_firefly_tunables : crush_map → bool := tunables_are 0 0 50 1 1 0 CRUSH_LEGACY_ALLOWED_BUCKET_ALGS.
Definition has_hammer_tunables : crush_map → bool := tunables_are 0 0 50 1 1 1 HAMMER_ALGS.
Definition has_optimal_tunables : crush_map → bool := has_firefly_tunables.
Definition has_legacy_tunables : crush_map → bool := has_argonaut_tunables.

Definition has_nondefault_tunables (m : crush_map) : bool :=
  negb (m_choose_local_tries m =? 2) || negb (m_choose_local_fallback_tries m =? 5) ||
  negb (m_choose_total_tries m =? 19).
Definition has_nondefault_tunables2 (m : crush_map) : bool := negb (m_chooseleaf_descend_once m =? 0).
Definition has_nondefault_tunables3 (m : crush_map) : bool := negb (m_chooseleaf_vary_r m =? 0).

(** In order of preference. *)
Definition get_default_bucket_alg (m : crush_map) : Z :=
  let allowed alg := negb (Z.land (m_allowed_bucket_algs m) (Z.shiftl 1 alg) =? 0) in
  if allowed CRUSH_BUCKET_STRAW2 then CRUSH_BUCKET_STRAW2
  else if allowed CRUSH_BUCKET_STRAW then CRUSH_BUCKET_STRAW
  else if allowed CRUSH_BUCKET_TREE then CRUSH_BUCKET_TREE
  else if allowed CRUSH_BUCKET_LIST then CRUSH_BUCKET_LIST
  else if allowed CRUSH_BUCKET_UNIFORM then CRUSH_BUCKET_UNIFORM
  else 0.

(** The preset that [set_tunables_optimal] chooses is not the one that
    [has_optimal_tunables] tests for. *)
Lemma set_optimal_not_has_optimal m :
  has_optimal_tunables (set_tunables_optimal m) = false ∧ has_hammer_tunables (set_tunables_optimal m) = true.
Proof. by split. Qed.

(** ** Placement *)

Definition find_rule (c : crush_wrapper) (ruleset type size : Z) : res Z :=
  crush_find_rule (cw_crush c) ruleset type size.

(** [out[i] = rawout[i]] for the first [n] cells. *)
Fixpoint read_ints (a : list (option Z)) (n : nat) (i : Z) : res (list Z) :=
  match n with
  | O => Ok []
  | S n => v ← rd a i; l ← read_ints a n (i + 1); Ok (v :: l)
  end.

(** The two arrays live on the stack; the map changes because buckets cache
    permutations, under [mapper_lock]. *)
Definition do_rule (fuel : nat) (rule x maxout : Z) (weight : list Z) : M crush_wrapper (list Z) := λ c,
  if maxout <? 0 then Fault OutOfBounds else
  '((rawout, numrep), s) ← crush_do_rule fuel (cells weight) (s32 (Z.of_nat (length weight))) x maxout rule
    (fresh_block maxout) (MState (cw_crush c) (fresh_block (maxout * 3)));
  let numrep := if numrep <? 0 then 0 else numrep in
  out ← read_ints rawout (Z.to_nat numrep) 0;
  Ok (out, set_cw_crush (ms_map s) c).

Lemma read_ints_ok a vals : ∀ k, holds a vals → (k <= length vals)%nat →
  read_ints a (length vals - k) (Z.of_nat k) = Ok (drop k vals).
Proof.
  intros k Ha Hk. remember (length vals - k)%nat as n eqn:En. revert k Hk En.
  induction n as [|n IH]; intros k Hk En; cbn [read_ints].
  - by rewrite drop_ge by lia.
  - destruct (lookup_lt_is_Some_2 vals k) as [v Hv]; [lia|]. rewrite (rd_at a vals k v Ha Hv). cbn [mbind res_bind].
    replace (Z.of_nat k + 1) with (Z.of_nat (S k)) by lia. rewrite IH by lia. cbn [mbind res_bind].
    by rewrite (drop_S vals v k).
Qed.

Lemma read_ints_all a vals : holds a vals → read_ints a (length vals) 0 = Ok vals.
Proof. intros Ha. pose proof (read_ints_ok a vals 0 Ha ltac:(lia)) as H. by rewrite Nat.sub_0_r in H. Qed.

(** ** Names and locations in a CRUSH map (src/crush/CrushWrapper.h, CrushWrapper.cc)

    The tables from ids to the names of types, items and rules with the reverse
    tables that are built when they are first needed; renaming; the bucket an
    item is in, the way from an item to its root, and the type of the lowest
    bucket that an item shares with a location.  Below them, what keeps the
    reverse table exact, and that the way to the root ends and is the chain of
    the buckets above the item. *)

Definition EALREADY : Z := 114.
Definition ENOTDIR : Z := 20.

(** ** Tables of names *)

Definition set_cw_type_names (m : list (Z * string)) (r : gmap string Z) (c : crush_wrapper) : crush_wrapper :=
  CrushWrapper (cw_crush c) m (cw_name_map c) (cw_rule_name_map c) (cw_have_rmaps c) r (cw_name_rmap c) (cw_rule_name_rmap c).
Definition set_cw_names (m : list (Z * string)) (r : gmap string Z) (c : crush_wrapper) : crush_wrapper :=
  CrushWrapper (cw_crush c) (cw_type_map c) m (cw_rule_name_map c) (cw_have_rmaps c) (cw_type_rmap c) r (cw_rule_name_rmap c).
Definition set_cw_rule_names (m : list (Z * string)) (r : gmap string Z) (c : crush_wrapper) : crush_wrapper :=
  CrushWrapper (cw_crush c) (cw_type_map c) (cw_name_map c) m (cw_have_rmaps c) (cw_type_rmap c) (cw_name_rmap c) r.

Definition build_rmap (f : list (Z * string)) : gmap string Z := foldl (λ r x, <[x.2 := x.1]> r) ∅ f.

Definition build_rmaps (c : crush_wrapper) : crush_wrapper :=
  if cw_have_rmaps c then c else
  CrushWrapper (cw_crush c) (cw_type_map c) (cw_name_map c) (cw_rule_name_map c) true
    (build_rmap (cw_type_map c)) (build_rmap (cw_name_map c)) (build_rmap (cw_rule_name_map c)).

Definition get_type_id (name : string) : M crush_wrapper Z :=
  modify build_rmaps;; r ← gets cw_type_rmap; mret (default (-1) (r !! name)).
Definition get_type_name (c : crush_wrapper) (t : Z) : option string := map_find (cw_type_map c) t.
Definition set_type_name (i : Z) (name : string) (c : crush_wrapper) : crush_wrapper :=
  set_cw_type_names (map_put (cw_type_map c) i name)
    (if cw_have_rmaps c then <[name := i]> (cw_type_rmap c) else cw_type_rmap c) c.

Definition name_exists (name : string) : M crush_wrapper bool :=
  modify build_rmaps;; r ← gets cw_name_rmap; mret (bool_decide (is_Some (r !! name))).
Definition item_exists (c : crush_wrapper) (i : Z) : bool := map_count (cw_name_map c) i.
Definition get_item_id (name : string) : M crush_wrapper Z :=
  modify build_rmaps;; r ← gets cw_name_rmap; mret (default 0 (r !! name)).
Definition get_item_name (c : crush_wrapper) (t : Z) : option string := map_find (cw_name_map c) t.

(** A character of [[-_.0-9a-zA-Z]]. *)
Definition valid_char (a : Ascii.ascii) : bool :=
  let n := Z.of_nat (Ascii.nat_of_ascii a) in
  (n =? 45) || (n =? 95) || (n =? 46) || ((48 <=? n) && (n <=? 57)) || ((65 <=? n) && (n <=? 90)) || ((97 <=? n) && (n <=? 122)).
Definition is_valid_crush_name (s : string) : bool :=
  match s with EmptyString => false | _ => forallb valid_char (String.list_ascii_of_string s) end.
Definition is_valid_crush_loc (loc : list (string * string)) : bool :=
  forallb (λ l, is_valid_crush_name l.1 && is_valid_crush_name l.2) loc.

Definition set_item_name (i : Z) (name : string) : M crush_wrapper Z := λ c,
  if negb (is_valid_crush_name name) then Ok (- EINVAL, c) else
  Ok (0, set_cw_names (map_put (cw_name_map c) i name)
           (if cw_have_rmaps c then <[name := i]> (cw_name_rmap c) else cw_name_rmap c) c).

Definition rule_exists (name : string) : M crush_wrapper bool :=
  modify build_rmaps;; r ← gets cw_rule_name_rmap; mret (bool_decide (is_Some (r !! name))).
Definition get_rule_id (name : string) : M crush_wrapper Z :=
  modify build_rmaps;; r ← gets cw_rule_name_rmap; mret (default (- ENOENT) (r !! name)).
Definition get_rule_name (c : crush_wrapper) (t : Z) : option string := map_find (cw_rule_name_map c) t.
Definition set_rule_name (i : Z) (name : string) (c : crush_wrapper) : crush_wrapper :=
  set_cw_rule_names (map_put (cw_rule_name_map c) i name)
    (if cw_have_rmaps c then <[name := i]> (cw_rule_name_rmap c) else cw_rule_name_rmap c) c.

(** ** Renaming; the messages to the user are left out *)

Definition can_rename_item (srcname dstname : string) : M crush_wrapper Z :=
  s ← name_exists srcname;
  d ← name_exists dstname;
  if (s : bool) then
    if (d : bool) then mret (- EEXIST)
    else if is_valid_crush_name dstname then mret 0 else mret (- EINVAL)
  else if (d : bool) then mret (- EALREADY) else mret (- ENOENT).

Definition rename_item (srcname dstname : string) : M crush_wrapper Z :=
  ret ← can_rename_item srcname dstname;
  if ret <? 0 then mret ret else
  oldid ← get_item_id srcname;
  set_item_name oldid dstname.

Definition can_rename_bucket (srcname dstname : string) : M crush_wrapper Z :=
  ret ← can_rename_item srcname dstname;
  if negb (ret =? 0) then mret ret else
  srcid ← get_item_id srcname;
  if srcid >=? 0 then mret (- ENOTDIR) else mret 0.

Definition rename_bucket (srcname dstname : string) : M crush_wrapper Z :=
  ret ← can_rename_bucket srcname dstname;
  if ret <? 0 then mret ret else
  oldid ← get_item_id srcname;
  set_item_name oldid dstname.

(** ** Buckets by id *)

(** [None] for the pointers that stand for an error. *)
Definition bucket_ptr (c : crush_wrapper) (id : Z) : res (option bucket) :=
  let m := cw_crush c in
  let pos := u32 (-1 - id) in
  if pos >=? u32 (m_max_buckets m) then Ok None else rdp (m_buckets m) pos.

Definition bucket_exists (c : crush_wrapper) (id : Z) : res bool :=
  b ← bucket_ptr c id; Ok (bool_decide (is_Some b)).
Definition bucket_field (f : bucket → Z) (c : crush_wrapper) (id : Z) : res Z :=
  b ← bucket_ptr c id; Ok (match b with Some b => f b | None => - ENOENT end).
Definition get_bucket_weight : crush_wrapper → Z → res Z := bucket_field (λ b, s32 (b_weight (bucket_h b))).
Definition get_bucket_type : crush_wrapper → Z → res Z := bucket_field (λ b, b_type (bucket_h b)).
Definition get_bucket_size : crush_wrapper → Z → res Z := bucket_field (λ b, s32 (b_size (bucket_h b))).

(** The items of a bucket, in order. *)
Definition items_of (b : bucket) : res (list Z) := read_ints (b_items (bucket_h b)) (Z.to_nat (b_size (bucket_h b))) 0.

Definition get_children (c : crush_wrapper) (id : Z) : res (Z * list Z) :=
  if id >=? 0 then Ok (0, []) else
  b ← bucket_ptr c id;
  match b with
  | None => Fault NullDeref
  | Some b => l ← items_of b; Ok (s32 (b_size (bucket_h b)), l)
  end.

(** ** Parents *)

(** The buckets that exist, in the order of their positions. *)
Fixpoint buckets_from (m : crush_map) (n : nat) (i : Z) : res (list bucket) :=
  match n with
  | O => Ok []
  | S n =>
      b ← rdp (m_buckets m) i;
      l ← buckets_from m n (i + 1);
      Ok (match b with Some b => b :: l | None => l end)
  end.
Definition all_buckets (m : crush_map) : res (list bucket) := buckets_from m (Z.to_nat (m_max_buckets m)) 0.

(** [m[k]] enters an empty name when there is none. *)
Definition name_slot (m : list (Z * string)) (k : Z) : string * list (Z * string) :=
  match map_find m k with Some s => (s, m) | None => (""%string, map_put m k ""%string) end.

Definition touch_names (b : bucket) : M crush_wrapper (string * string) := λ c,
  let '(n, names) := name_slot (cw_name_map c) (b_id (bucket_h b)) in
  let '(t, types) := name_slot (cw_type_map c) (b_type (bucket_h b)) in
  Ok ((t, n), set_cw_type_names types (cw_type_rmap c) (set_cw_names names (cw_name_rmap c) c)).

Fixpoint parent_loop (id : Z) (bs : list bucket) (loc : option (string * string)) : M crush_wrapper (option (string * string)) :=
  match bs with
  | [] => mret loc
  | b :: bs =>
      l ← lift (items_of b);
      if bool_decide (id ∈ l) then p ← touch_names b; parent_loop id bs (Some p)
      else parent_loop id bs loc
  end.

(** The type and the name of the parent; [None] with [-ENOENT]. *)
Definition get_immediate_parent (id : Z) : M crush_wrapper (option (string * string)) :=
  c ← gets cw_crush;
  bs ← lift (all_buckets c);
  parent_loop id bs None.

Fixpoint first_parent (id : Z) (bs : list bucket) : res (option Z) :=
  match bs with
  | [] => Ok None
  | b :: bs => l ← items_of b; if bool_decide (id ∈ l) then Ok (Some (b_id (bucket_h b))) else first_parent id bs
  end.
Definition get_immediate_parent_id (c : crush_wrapper) (id : Z) : res (option Z) :=
  bs ← all_buckets (cw_crush c); first_parent id bs.

Definition _search_item_exists (c : crush_wrapper) (item : Z) : res bool :=
  p ← get_immediate_parent_id c item; Ok (bool_decide (is_Some p)).

Fixpoint roots_loop (c : crush_wrapper) (bs : list bucket) (roots : gset Z) : res (gset Z) :=
  match bs with
  | [] => Ok roots
  | b :: bs =>
      let id := b_id (bucket_h b) in
      e ← _search_item_exists c id;
      roots_loop c bs (if (e : bool) then roots else {[ id ]} ∪ roots)
  end.
Definition find_roots (c : crush_wrapper) (roots : gset Z) : res (gset Z) :=
  bs ← all_buckets (cw_crush c); roots_loop c bs roots.

(** ** The way to the root *)

Fixpoint location_loop (fuel : nat) (cur : Z) (path : list (string * string)) : M crush_wrapper (list (string * string)) :=
  match fuel with
  | O => lift (Fault Diverge)
  | S fuel =>
      p ← get_immediate_parent cur;
      match p with
      | None => mret path
      | Some coord => cur ← get_item_id coord.2; location_loop fuel cur (path ++ [coord])
      end
  end.
(** [None] for [-ENOENT]. *)
Definition get_full_location_ordered (fuel : nat) (id : Z) : M crush_wrapper (option (list (string * string))) :=
  c ← gets Datatypes.id;
  if negb (item_exists c id) then mret None else l ← location_loop fuel id []; mret (Some l).

(** [std::inserter] keeps the first entry of a key. *)
Definition get_full_location (fuel : nat) (id : Z) : M crush_wrapper (gmap string string) :=
  l ← get_full_location_ordered fuel id;
  mret (foldl (λ m x, match m !! x.1 with Some _ => m | None => <[x.1 := x.2]> m end) ∅ (default [] l)).

Fixpoint distance_loop (types : list (Z * string)) (id_loc : gmap string string) (loc : list (string * string)) : Z :=
  match types with
  | [] => - ERANGE
  | (t, name) :: types =>
      match id_loc !! name with
      | None => distance_loop types id_loc loc
      | Some v =>
          if existsb (λ q, bool_decide (q = (name, v))) loc then t else distance_loop types id_loc loc
      end
  end.
Definition get_common_ancestor_distance (fuel : nat) (id : Z) (loc : list (string * string)) : M crush_wrapper Z :=
  c ← gets Datatypes.id;
  if negb (item_exists c id) then mret (- ENOENT) else
  id_loc ← get_full_location fuel id;
  types ← gets cw_type_map;
  mret (distance_loop types id_loc loc).

(** ** The reverse table *)

(** Different ids have different names. *)
Definition names_differ (m : list (Z * string)) : Prop := ∀ i j s, map_find m i = Some s → map_find m j = Some s → i = j.

(** The reverse table finds the id of every name and nothing else. *)
Definition reverses (m : list (Z * string)) (r : gmap string Z) : Prop := ∀ s i, r !! s = Some i ↔ map_find m i = Some s.

Lemma map_find_In {A} (m : list (Z * A)) k v : ordered m → map_find m k = Some v ↔ (k, v) ∈ m.
Proof.
  unfold ordered. induction m as [|[s w] m IH]; simpl; [intros _; split; [done|by intros ?%elem_of_nil]|].
  intros [Hm Hs]%StronglySorted_inv. rewrite elem_of_cons. destruct (Z.eqb_spec s k) as [->|Hn].
  - split; [intros [= ->]; by left|]. intros [[= ->]|Hk]; [done|]. exfalso.
    rewrite Forall_forall in Hs. specialize (Hs k). unfold keys in Hs. rewrite list_elem_of_fmap in Hs. specialize (Hs (ex_intro _ (k, v) (conj eq_refl Hk))). lia.
  - rewrite IH by done. split; [by right|]. intros [[= -> ->]|Hk]; done.
Qed.

Lemma foldl_rmap_out (l : list (Z * string)) (r : gmap string Z) s : (∀ x, x ∈ l → x.2 ≠ s) → foldl (λ r (x : Z * string), <[x.2 := x.1]> r) r l !! s = r !! s.
Proof.
  revert r. induction l as [|x l IH]; intros r Hl; [done|]. simpl. rewrite IH by (intros y Hy; apply Hl; by right).
  apply lookup_insert_ne. apply Hl. by left.
Qed.

Lemma foldl_rmap_in (l : list (Z * string)) (r : gmap string Z) i s : (i, s) ∈ l → (∀ j, (j, s) ∈ l → j = i) → foldl (λ r (x : Z * string), <[x.2 := x.1]> r) r l !! s = Some i.
Proof.
  revert r. induction l as [|[j t] l IH]; intros r Hi Hu; [by apply elem_of_nil in Hi|]. simpl.
  destruct (decide ((i, s) ∈ l)) as [H|H]; [apply IH; [done|]; intros k Hk; apply Hu; by right|].
  apply elem_of_cons in Hi as [[= -> ->]|Hi]; [|done]. rewrite foldl_rmap_out; [by rewrite lookup_insert_eq|].
  intros [k u] Hk E. simpl in E. subst u. assert (k = j) as -> by (apply Hu; by right). done.
Qed.

Lemma build_rmap_reverses m : ordered m → names_differ m → reverses m (build_rmap m).
Proof.
  intros Ho Hd s i. unfold build_rmap. split.
  - intros H. destruct (decide (Exists (λ x, x.2 = s) m)) as [He|He].
    + apply list.Exists_exists in He as ([j t] & Hj & Ht). simpl in Ht. subst t. rewrite (foldl_rmap_in m ∅ j s Hj) in H.
      * injection H as ->. by apply map_find_In.
      * intros k Hk. apply (map_find_In m) in Hk; [|done]. apply (map_find_In m) in Hj; [|done]. by apply (Hd k j s).
    + rewrite foldl_rmap_out in H; [by rewrite lookup_empty in H|].
      intros x Hx E. apply He, list.Exists_exists. by exists x.
  - intros H. apply foldl_rmap_in; [by apply map_find_In|]. intros j Hj. apply (map_find_In m) in Hj; [|done]. by apply (Hd j i s).
Qed.

(** What every answer about names rests on: the names differ, and the reverse
    table, once built, is exact. *)
Record named (c : crush_wrapper) : Prop := Named {
  named_ordered : ordered (cw_name_map c);
  named_differ : names_differ (cw_name_map c);
  named_types : ordered (cw_type_map c) ∧ ordered (cw_rule_name_map c);
  named_reverses : cw_have_rmaps c = true → reverses (cw_name_map c) (cw_name_rmap c) }.

Lemma build_rmaps_maps c : cw_crush (build_rmaps c) = cw_crush c ∧ cw_name_map (build_rmaps c) = cw_name_map c ∧
  cw_type_map (build_rmaps c) = cw_type_map c ∧ cw_rule_name_map (build_rmaps c) = cw_rule_name_map c ∧ cw_have_rmaps (build_rmaps c) = true.
Proof. unfold build_rmaps. by destruct (cw_have_rmaps c) eqn:E. Qed.

Lemma build_rmaps_named c : named c → named (build_rmaps c) ∧ reverses (cw_name_map c) (cw_name_rmap (build_rmaps c)).
Proof.
  intros Hc. destruct Hc as [Ho Hd [Ht Hr] Hv] eqn:EH. clear EH. unfold build_rmaps. destruct (cw_have_rmaps c) eqn:E; [split; [done|by apply Hv]|].
  pose proof (build_rmap_reverses _ Ho Hd) as H. split; [by constructor|done].
Qed.

Lemma get_item_id_ok c s : get_item_id s c = Ok (default 0 (cw_name_rmap (build_rmaps c) !! s), build_rmaps c).
Proof. done. Qed.

Lemma name_exists_ok c s : name_exists s c = Ok (bool_decide (is_Some (cw_name_rmap (build_rmaps c) !! s)), build_rmaps c).
Proof. done. Qed.

(** A name that nothing has, for an item that has none. *)
Lemma set_item_name_named c i s : named c → is_valid_crush_name s = true → map_find (cw_name_map c) i = None →
  (∀ j, map_find (cw_name_map c) j ≠ Some s) →
  ∃ c', set_item_name i s c = Ok (0, c') ∧ named c' ∧ get_item_name c' i = Some s ∧ ∀ j, j ≠ i → get_item_name c' j = get_item_name c j.
Proof.
  intros [Ho Hd Ht Hv] Hs Hi Hn. unfold set_item_name. rewrite Hs. eexists. split; [reflexivity|]. unfold get_item_name. simpl.
  assert (∀ j, map_find (map_put (cw_name_map c) i s) j = if decide (j = i) then Some s else map_find (cw_name_map c) j) as E
    by (intros j; by apply map_find_put).
  split_and!; [|by rewrite E, decide_True|by intros j Hj; rewrite E, decide_False].
  constructor; simpl; [by apply map_put_ordered| |done|].
  - intros j k t. rewrite !E. destruct (decide (j = i)), (decide (k = i)); try congruence. apply Hd.
  - intros Hh. rewrite Hh. specialize (Hv Hh). intros t j. rewrite E, lookup_insert. destruct (decide (s = t)) as [<-|Hst], (decide (j = i)) as [->|Hj]; try (split; congruence).
    + destruct (Hv t i) as [H1 _]. split; [intros H; apply H1 in H; congruence|congruence].
    + apply Hv.
Qed.

(** ** The chain of the buckets above an item *)

Definition items (b : bucket) : list Z := match items_of b with Ok l => l | Fault _ => [] end.
Definition parent_in (bs : list bucket) (id : Z) : option bucket := last (filter (λ b, id ∈ items b) bs).
Definition coord (c : crush_wrapper) (b : bucket) : string * string :=
  (default ""%string (get_type_name c (b_type (bucket_h b))), default ""%string (get_item_name c (b_id (bucket_h b)))).

Inductive ancestors (bs : list bucket) : Z → list bucket → Prop :=
  | anc_root id : parent_in bs id = None → ancestors bs id []
  | anc_up id b l : parent_in bs id = Some b → ancestors bs (b_id (bucket_h b)) l → ancestors bs id (b :: l).

(** The buckets of the map can be read and have names. *)
Record located (c : crush_wrapper) (bs : list bucket) : Prop := Located {
  located_named : named c;
  located_all : all_buckets (cw_crush c) = Ok bs;
  located_items : ∀ b, b ∈ bs → ∃ l, items_of b = Ok l;
  located_names : ∀ b, b ∈ bs → is_Some (get_item_name c (b_id (bucket_h b))) ∧ is_Some (get_type_name c (b_type (bucket_h b))) }.

Lemma located_build c bs : located c bs → located (build_rmaps c) bs.
Proof.
  intros [Hn Ha Hi Hs]. destruct (build_rmaps_maps c) as (E1 & E2 & E3 & _). destruct (build_rmaps_named c Hn) as [Hn' _].
  constructor; [done|by rewrite E1|done|]. unfold get_item_name, get_type_name in *. by rewrite E2, E3.
Qed.

Lemma coord_build c b : coord (build_rmaps c) b = coord c b.
Proof. destruct (build_rmaps_maps c) as (_ & E2 & E3 & _). unfold coord, get_type_name, get_item_name. by rewrite E2, E3. Qed.

Lemma touch_names_ok c b : is_Some (get_item_name c (b_id (bucket_h b))) → is_Some (get_type_name c (b_type (bucket_h b))) →
  touch_names b c = Ok (coord c b, c).
Proof.
  unfold touch_names, coord, get_item_name, get_type_name, name_slot. intros [n Hn] [t Ht]. rewrite Hn, Ht. simpl. by destruct c.
Qed.

Lemma parent_loop_ok c id bs loc : (∀ b, b ∈ bs → ∃ l, items_of b = Ok l) →
  (∀ b, b ∈ bs → is_Some (get_item_name c (b_id (bucket_h b))) ∧ is_Some (get_type_name c (b_type (bucket_h b)))) →
  parent_loop id bs loc c = Ok (match parent_in bs id with Some b => Some (coord c b) | None => loc end, c).
Proof.
  revert loc. induction bs as [|b bs IH]; intros loc Hi Hn; [done|]. unfold parent_in. rewrite filter_cons. cbn [parent_loop].
  destruct (Hi b) as [l Hl]; [by left|]. destruct (Hn b) as [Hb Ht]; [by left|]. assert (items b = l) as El by (unfold items; by rewrite Hl).
  assert (∀ loc, parent_loop id bs loc c = Ok (match parent_in bs id with Some b => Some (coord c b) | None => loc end, c)) as IH'
    by (intros loc'; apply IH; intros b' Hb'; [apply Hi|apply Hn]; by right).
  cbv beta delta [lift mbind M_bind]. rewrite Hl. cbv beta iota delta [mbind res_bind]. case_bool_decide as Hid.
  - rewrite decide_True by (by rewrite El). cbn. rewrite (touch_names_ok c b) by done. simpl. rewrite IH'. unfold parent_in.
    rewrite last_cons. by destruct (last _).
  - rewrite decide_False by (by rewrite El). apply IH'.
Qed.

Lemma get_immediate_parent_ok c bs id : located c bs → get_immediate_parent id c = Ok (coord c <$> parent_in bs id, c).
Proof.
  intros [_ Ha Hi Hn]. unfold get_immediate_parent. cbv beta iota delta [gets lift mbind M_bind]. rewrite Ha.
  rewrite (parent_loop_ok c id bs None) by done. by destruct (parent_in bs id).
Qed.

Lemma parent_in_elem bs id b : parent_in bs id = Some b → b ∈ bs ∧ id ∈ items b.
Proof. unfold parent_in. intros [l' H]%last_Some. assert (b ∈ filter (λ b, id ∈ items b) bs) as Hb by (rewrite H; set_solver). by apply list_elem_of_filter in Hb as [? ?]. Qed.

Lemma parent_id_back c bs id b : located c bs → parent_in bs id = Some b →
  get_item_id (coord c b).2 c = Ok (b_id (bucket_h b), build_rmaps c).
Proof.
  intros Hc Hp. apply parent_in_elem in Hp as [Hb _]. rewrite get_item_id_ok. destruct Hc as [Hn _ _ Hs].
  destruct (build_rmaps_named c Hn) as [_ Hr]. destruct (Hs b Hb) as [[s Es] _]. unfold coord. simpl. rewrite Es. simpl.
  by rewrite (proj2 (Hr s (b_id (bucket_h b))) Es).
Qed.

Lemma location_loop_ok bs id l : ancestors bs id l → ∀ c fuel path, located c bs → (length l < fuel)%nat →
  ∃ c', location_loop fuel id path c = Ok (path ++ (coord c <$> l), c') ∧ (c' = c ∨ c' = build_rmaps c).
Proof.
  induction 1 as [id Hp|id b l Hp Hl IH]; intros c fuel path Hc Hf; (destruct fuel as [|fuel]; [simpl in Hf; lia|]); cbn [location_loop].
  - cbv beta delta [mbind M_bind]. rewrite (get_immediate_parent_ok c bs id Hc), Hp. cbv beta iota delta [fmap option_fmap option_map mret M_ret]. exists c. rewrite app_nil_r. auto.
  - cbv beta delta [mbind M_bind]. rewrite (get_immediate_parent_ok c bs id Hc), Hp. cbv beta iota delta [fmap option_fmap option_map mret M_ret]. rewrite (parent_id_back c bs id b Hc Hp).
    destruct (IH (build_rmaps c) fuel (path ++ [coord c b])) as (c' & E & Hc'); [by apply located_build|simpl in Hf; lia|].
    exists c'. rewrite E, <-app_assoc. simpl. split.
    + do 4 f_equal. apply list_fmap_ext. intros; apply coord_build.
    + right. destruct Hc' as [->| ->]; [done|]. unfold build_rmaps at 1. destruct (build_rmaps_maps c) as (_ & _ & _ & _ & ->). done.
Qed.

(** No bucket is above itself: the items of a bucket are lower than it. *)
Definition layered (bs : list bucket) (height : Z → nat) (top : nat) : Prop :=
  (∀ b i, b ∈ bs → i ∈ items b → (height i < height (b_id (bucket_h b)))%nat) ∧ (∀ b, b ∈ bs → (height (b_id (bucket_h b)) <= top)%nat).

Lemma ancestors_exist bs height top : layered bs height top → ∀ id, ∃ l, ancestors bs id l ∧ (length l <= top - height id)%nat.
Proof.
  intros [Hi Ht] id. remember (top - height id)%nat as n eqn:En. revert id En.
  induction n as [n IH] using lt_wf_ind; intros id En. destruct (parent_in bs id) as [b|] eqn:Hp; [|exists []; split; [by constructor|simpl; lia]].
  destruct (parent_in_elem bs id b Hp) as [Hb Hid]. pose proof (Hi b id Hb Hid). pose proof (Ht b Hb).
  destruct (IH (top - height (b_id (bucket_h b)))%nat ltac:(lia) (b_id (bucket_h b)) eq_refl) as (l & Hl & Hn).
  exists (b :: l). split; [by econstructor|simpl; lia].
Qed.

Lemma ancestors_unique bs id l l' : ancestors bs id l → ancestors bs id l' → l = l'.
Proof. intros H. revert l'. induction H as [id Hp|id b l Hp Hl IH]; inversion 1; [done|congruence|congruence|]. f_equal; [congruence|]. apply IH. congruence. Qed.

(** ** Lowest common buckets *)

Definition first_of_type (t : Z) (l : list bucket) : option bucket := find (λ b, b_type (bucket_h b) =? t) l.

(** The lowest bucket of type [t] above the item is one of those [loc] names. *)
Definition meets (c : crush_wrapper) (loc : list (string * string)) (l : list bucket) (t : Z) : Prop :=
  ∃ b, first_of_type t l = Some b ∧ coord c b ∈ loc.

Lemma foldl_first (l : list (string * string)) (m : gmap string string) k :
  foldl (λ m x, match m !! x.1 with Some _ => m | None => <[x.1 := x.2]> m end) m l !! k =
  match m !! k with Some v => Some v | None => snd <$> find (λ x, bool_decide (x.1 = k)) l end.
Proof.
  revert m. induction l as [|[a v] l IH]; intros m; simpl; [by destruct (m !! k)|]. rewrite IH.
  case_bool_decide as Ha; [subst a|].
  - destruct (m !! k) eqn:E; [by rewrite E|]. by rewrite lookup_insert_eq.
  - destruct (m !! a) eqn:E; [done|]. by rewrite lookup_insert_ne.
Qed.

Lemma find_coord c bs id l t name : located c bs → names_differ (cw_type_map c) → ancestors bs id l → get_type_name c t = Some name →
  find (λ x, bool_decide (x.1 = name)) (coord c <$> l) = coord c <$> first_of_type t l.
Proof.
  intros Hc Hd Hl Ht. induction Hl as [|id b l Hp Hl IH]; [done|]. unfold first_of_type. simpl.
  destruct (parent_in_elem bs id b Hp) as [Hb _]. destruct (located_names c bs Hc b Hb) as [_ [n Hn]].
  unfold get_type_name in *. rewrite Hn. simpl. destruct (Z.eqb_spec (b_type (bucket_h b)) t) as [<-|Hne].
  - rewrite bool_decide_eq_true_2 by congruence. done.
  - rewrite bool_decide_eq_false_2; [exact IH|]. intros ->. apply Hne. by apply (Hd _ _ name).
Qed.

Lemma coord_of_type c bs id l t name b : located c bs → ancestors bs id l → get_type_name c t = Some name →
  first_of_type t l = Some b → coord c b = (name, (coord c b).2).
Proof. intros _ _ Ht Hf. apply find_some in Hf as [_ Hf%Z.eqb_eq]. unfold coord. by rewrite Hf, Ht. Qed.

Lemma distance_loop_ok c bs id l loc types (idl : gmap string string) : located c bs → names_differ (cw_type_map c) → ancestors bs id l →
  (∀ k, idl !! k = snd <$> find (λ x, bool_decide (x.1 = k)) (coord c <$> l)) →
  (∀ t name, (t, name) ∈ types → get_type_name c t = Some name) → ordered types →
  (distance_loop types idl loc = - ERANGE ∧ ∀ t, t ∈ keys types → ¬ meets c loc l t) ∨
  (distance_loop types idl loc ∈ keys types ∧ meets c loc l (distance_loop types idl loc) ∧
   ∀ t, t ∈ keys types → meets c loc l t → distance_loop types idl loc <= t).
Proof.
  intros Hc Hd Hl Hi. unfold ordered. induction types as [|[t name] types IH]; intros Ht Ho; simpl.
  { left. split; [done|]. intros t Ht'. by apply elem_of_nil in Ht'. }
  apply StronglySorted_inv in Ho as [Ho Hlt]. specialize (IH (λ t0 n0 H, Ht t0 n0 (list_elem_of_further _ _ _ H)) Ho).
  pose proof (Ht t name ltac:(by left)) as Hn. pose proof (find_coord c bs id l t name Hc Hd Hl Hn) as Hf.
  rewrite Hi, Hf. destruct (first_of_type t l) as [b|] eqn:Eb; simpl.
  - pose proof (coord_of_type c bs id l t name b Hc Hl Hn Eb) as Ec. destruct (existsb _ loc) eqn:Ex.
    + right. split_and!; [by left| |intros t' [->|Ht']%elem_of_cons _; [done|]].
      * exists b. split; [done|]. apply existsb_exists in Ex as (q & Hq & Eq%bool_decide_eq_true). assert (q = coord c b) as <- by (rewrite Ec; exact Eq). by apply list_elem_of_In.
      * rewrite Forall_forall in Hlt. specialize (Hlt t' Ht'). simpl in Hlt. lia.
    + assert (¬ meets c loc l t) as Hm.
      { intros (b' & E & Hb'). rewrite Eb in E. injection E as <-. rewrite Ec in Hb'.
        assert (existsb (λ q, bool_decide (q = (name, (coord c b).2))) loc = true) as E; [|exact (eq_true_false_abs _ E Ex)].
        apply existsb_exists. exists (name, (coord c b).2). split; [by apply list_elem_of_In|by apply bool_decide_eq_true_2]. }
      destruct IH as [[E H]|(H1 & H2 & H3)]; [left; split; [done|]; intros t' [->|Ht']%elem_of_cons; auto|].
      right. split_and!; [by right|done|]. intros t' [->|Ht']%elem_of_cons; auto. by intros ?%Hm.
  - assert (¬ meets c loc l t) as Hm by (intros (b' & E & _); congruence).
    destruct IH as [[E H]|(H1 & H2 & H3)]; [left; split; [done|]; intros t' [->|Ht']%elem_of_cons; auto|].
    right. split_and!; [by right|done|]. intros t' [->|Ht']%elem_of_cons; auto. by intros ?%Hm.
Qed.

(** The distance, computed on the chain of the buckets. *)
Definition distance_on (c : crush_wrapper) (id : Z) (loc : list (string * string)) (l : list bucket) : Z :=
  if item_exists c id then
    distance_loop (cw_type_map c) (foldl (λ m x, match m !! x.1 with Some _ => m | None => <[x.1 := x.2]> m end) ∅ (coord c <$> l)) loc
  else - ENOENT.

Lemma distance_on_ok c bs id l fuel loc : located c bs → ancestors bs id l → (length l < fuel)%nat →
  ∃ c', get_common_ancestor_distance fuel id loc c = Ok (distance_on c id loc l, c') ∧ (c' = c ∨ c' = build_rmaps c).
Proof.
  intros Hc Hl Hf. unfold get_common_ancestor_distance, get_full_location, get_full_location_ordered, distance_on.
  cbv beta iota delta [gets mbind M_bind mret M_ret Datatypes.id].
  destruct (item_exists c id) eqn:Ei; simpl; [rewrite Ei; simpl|exists c; by split; [|left]].
  destruct (location_loop_ok bs id l Hl c fuel [] Hc Hf) as (c' & E & Hc'). rewrite E. simpl.
  assert (cw_type_map c' = cw_type_map c) as ->.
  { destruct Hc' as [->| ->]; [done|]. by destruct (build_rmaps_maps c) as (_ & _ & E3 & _). }
  by exists c'.
Qed.

Lemma distance_on_build c id loc l : distance_on (build_rmaps c) id loc l = distance_on c id loc l.
Proof.
  destruct (build_rmaps_maps c) as (_ & E2 & E3 & _). unfold distance_on, item_exists. rewrite E2, E3.
  by rewrite (list_fmap_ext (coord (build_rmaps c)) (coord c) l) by (intros; apply coord_build).
Qed.

(** ** Theorems *)

(** C40: If buckets are layered (no bucket is above itself), can be read, and have
    names, as have their types, and if the names of items are distinct and their
    reverse table, once built, inverts them, asking for the full location of an item
    ends, with a turn per bucket: the answer is the
    type and the name of every bucket above the item, from its parent to its root,
    and -ENOENT exactly when the item has no name. *)
Theorem get_full_location_ordered_ends c bs height top id fuel : located c bs → layered bs height top → (top < fuel)%nat →
  ∃ r c', get_full_location_ordered fuel id c = Ok (r, c') ∧
    (item_exists c id = false → r = None) ∧
    (item_exists c id = true → ∃ l, ancestors bs id l ∧ r = Some (coord c <$> l)).
Proof.
  intros Hc Hh Hf. destruct (ancestors_exist bs height top Hh id) as (l & Hl & Hn).
  unfold get_full_location_ordered. cbv beta iota delta [gets mbind M_bind mret M_ret Datatypes.id].
  destruct (item_exists c id); simpl; [|by exists None, c].
  destruct (location_loop_ok bs id l Hl c fuel [] Hc ltac:(lia)) as (c' & E & _). rewrite E. simpl.
  exists (Some (coord c <$> l)), c'. split_and!; [done|done|]. intros _. by exists l.
Qed.

(** The distance between an item and a location is the lowest type, in the
    order of the type ids, such that the lowest bucket of that type above the item
    is one the location names; -ERANGE exactly when there is none, and -ENOENT
    when the item has no name. *)
Theorem get_common_ancestor_distance_exact c bs height top id fuel loc :
  located c bs → names_differ (cw_type_map c) → layered bs height top → (top < fuel)%nat →
  ∃ d c', get_common_ancestor_distance fuel id loc c = Ok (d, c') ∧
    if item_exists c id then
      ∃ l, ancestors bs id l ∧
        ((d = - ERANGE ∧ ∀ t, t ∈ keys (cw_type_map c) → ¬ meets c loc l t) ∨
         (d ∈ keys (cw_type_map c) ∧ meets c loc l d ∧ ∀ t, t ∈ keys (cw_type_map c) → meets c loc l t → d <= t))
    else d = - ENOENT.
Proof.
  intros Hc Hd Hh Hf. destruct (ancestors_exist bs height top Hh id) as (l & Hl & Hn).
  destruct (distance_on_ok c bs id l fuel loc Hc Hl ltac:(lia)) as (c' & E & _). rewrite E. eexists _, c'. split; [reflexivity|].
  unfold distance_on. destruct (item_exists c id); [|done]. exists l. split; [done|]. destruct (named_types c (located_named c bs Hc)) as [Ho _].
  apply (distance_loop_ok c bs id l); try done.
  - intros k. by rewrite foldl_first, lookup_empty.
  - intros t name Ht. by apply (map_find_In (cw_type_map c)).
Qed.

(** A location map with one root over two hosts of one device each. *)
Definition one_device_host (id dev w : Z) : bucket := BStraw2 (CrushBucketStraw2 (CrushBucket id 1 0 w 1 [Some dev] 0 0 [None]) [Some w]).
Definition two_host_root : bucket :=
  BStraw2 (CrushBucketStraw2 (CrushBucket (-1) 2 0 131072 2 [Some (-2); Some (-3)] 0 0 [None; None]) [Some 65536; Some 65536]).
Definition two_host_map : crush_map :=
  CrushMap [Some two_host_root; Some (one_device_host (-2) 0 65536); Some (one_device_host (-3) 1 65536); None] [] 4 0 2 0 0 50 1 1 1 0 None.
Definition sample_names : crush_wrapper :=
  CrushWrapper two_host_map [(0, "osd"); (1, "host"); (2, "root")]%string
    [(-3, "b"); (-2, "a"); (-1, "default"); (0, "osd.0"); (1, "osd.1")]%string [] false ∅ ∅ ∅.
Definition sample_height (i : Z) : nat := if i =? -1 then 2 else if i <? 0 then 1 else 0.
Definition sample_buckets : list bucket := [two_host_root; one_device_host (-2) 0 65536; one_device_host (-3) 1 65536].

Lemma names_differ_list m : ordered m → NoDup m.*2 → names_differ m.
Proof.
  intros Ho Hn i j s Hi%map_find_In Hj%map_find_In; [|done..]. revert Hn. clear Ho. induction m as [|x m IH]; [by apply elem_of_nil in Hi|].
  simpl. intros [Hx Hn]%NoDup_cons. apply elem_of_cons in Hi as [<-|Hi], Hj as [E|Hj]; [congruence| | |by apply IH].
  - exfalso. apply Hx, list_elem_of_fmap. by exists (j, s).
  - subst x. exfalso. apply Hx, list_elem_of_fmap. by exists (i, s).
Qed.

Lemma sample_located : located sample_names sample_buckets.
Proof.
  constructor; [|reflexivity| |].
  - constructor; [repeat (constructor; try lia)|apply names_differ_list; [repeat (constructor; try lia)|by apply (bool_decide_unpack _)]| |done].
    split; repeat (constructor; try lia).
  - intros b Hb. repeat (apply elem_of_cons in Hb as [->|Hb]; [by eexists|]). by apply elem_of_nil in Hb.
  - intros b Hb. repeat (apply elem_of_cons in Hb as [->|Hb]; [by split; eexists|]). by apply elem_of_nil in Hb.
Qed.

Lemma sample_layered : layered sample_buckets sample_height 2.
Proof.
  split.
  - intros b i Hb Hi. repeat (apply elem_of_cons in Hb as [->|Hb]; [cbn in Hi; repeat (apply elem_of_cons in Hi as [->|Hi]; [vm_compute; lia|]); by apply elem_of_nil in Hi|]).
    by apply elem_of_nil in Hb.
  - intros b Hb. repeat (apply elem_of_cons in Hb as [->|Hb]; [vm_compute; lia|]). by apply elem_of_nil in Hb.
Qed.

Lemma get_full_location_ordered_ends_witness : ∃ r c', get_full_location_ordered 3 0 sample_names = Ok (r, c') ∧
  (item_exists sample_names 0 = false → r = None) ∧ (item_exists sample_names 0 = true → ∃ l, ancestors sample_buckets 0 l ∧ r = Some (coord sample_names <$> l)).
Proof. apply (get_full_location_ordered_ends sample_names sample_buckets sample_height 2 0 3 sample_located sample_layered). lia. Defined.

Lemma get_common_ancestor_distance_exact_witness : ∃ d c', get_common_ancestor_distance 3 1 [("host", "a"); ("root", "default")]%string sample_names = Ok (d, c') ∧
  if item_exists sample_names 1 then
    ∃ l, ancestors sample_buckets 1 l ∧
      ((d = - ERANGE ∧ ∀ t, t ∈ keys (cw_type_map sample_names) → ¬ meets sample_names [("host", "a"); ("root", "default")]%string l t) ∨
       (d ∈ keys (cw_type_map sample_names) ∧ meets sample_names [("host", "a"); ("root", "default")]%string l d ∧
        ∀ t, t ∈ keys (cw_type_map sample_names) → meets sample_names [("host", "a"); ("root", "default")]%string l t → d <= t))
  else d = - ENOENT.
Proof.
  apply (get_common_ancestor_distance_exact sample_names sample_buckets sample_height 2 1 3); [apply sample_located| |apply sample_layered|lia].
  apply names_differ_list; [repeat (constructor; try lia)|by apply (bool_decide_unpack _)].
Defined.

Example sample_location : ∃ c, get_full_location_ordered 3 0 sample_names = Ok (Some [("host", "a"); ("root", "default")]%string, c).
Proof. by eexists. Qed.
Example sample_distances : ∃ c c', get_common_ancestor_distance 3 1 [("host", "a"); ("root", "default")]%string sample_names = Ok (2, c) ∧
  get_common_ancestor_distance 3 0 [("host", "a"); ("root", "default")]%string sample_names = Ok (1, c').
Proof. by do 2 eexists. Qed.

(** A bucket that contains itself is walked for ever. *)
Definition looped_names : crush_wrapper :=
  CrushWrapper (CrushMap [Some (BStraw2 (CrushBucketStraw2 (CrushBucket (-1) 2 0 65536 1 [Some (-1)] 0 0 [None]) [Some 65536]))] [] 1 0 0 0 0 50 1 1 1 0 None)
    [(2, "root")]%string [(-1, "default")]%string [] false ∅ ∅ ∅.
Example full_location_of_a_loop : get_full_location_ordered 1000 (-1) looped_names = Fault Diverge.
Proof. vm_compute. reflexivity. Qed.

(** The old name is not taken out of the reverse table: an item that was renamed
    is still found under its old name, and the old name cannot be given again. *)
Theorem rename_keeps_old_name : ∃ c, rename_bucket "a" "c" sample_names = Ok (0, c) ∧ get_item_name c (-2) = Some "c"%string ∧
  name_exists "a" c = Ok (true, c) ∧ get_item_id "a" c = Ok (-2, c) ∧ rename_bucket "b" "a" c = Ok (- EEXIST, c) ∧ ¬ named c.
Proof.
  eexists. split_and!; try (vm_compute; reflexivity). intros [_ _ _ Hr].
  pose proof (proj1 (Hr eq_refl "a"%string (-2)) ltac:(vm_compute; reflexivity)) as H. by vm_compute in H.
Qed.

(** [get_bucket] never answers a null pointer, so the test of [get_children] lets
    the pointer that stands for an error through. *)
Example get_children_of_no_bucket : get_children sample_names (-9) = Fault NullDeref.
Proof. reflexivity. Qed.
