(* ===== verification/CrushEdit.v ===== *)
(** * Editing a CRUSH map by location (src/crush/CrushWrapper.cc, CrushWrapper.h)

    Items are put into, moved in and taken out of the hierarchy by the names of
    the buckets that they are to be in, and a change of a weight is carried to the
    buckets above.  The store is the wrapper and the allocation oracle of the
    builder; a [crush_bucket *] is the position of the bucket.  Messages to the
    user and to the log are left out. *)

From Stdlib Require Import SpecFloat.
From stdpp Require Import gmap strings sorting.
From S2P Require Import Prelude Hash CrushTypes StdMap CrushWrapper BuilderBase Builder.
From S2P Require Import BuilderMap.

Definition ENOTEMPTY : Z := 39.
Definition ELOOP : Z := 40.

Abbreviation store := (crush_wrapper * list bool)%type.

(** ** Access *)

Definition on_names {A} (f : M crush_wrapper A) : M store A := λ '(c, o),
  '(a, c) ← f c; Ok (a, (c, o)).
Definition look {A} (f : crush_wrapper → res A) : M store A := λ '(c, o), a ← f c; Ok (a, (c, o)).
Definition on_crush {A} (f : M (crush_map * list bool) A) : M store A := λ '(c, o),
  '(a, (m, o)) ← f (cw_crush c, o); Ok (a, (set_cw_crush m c, o)).

(** [b->...] *)
Definition bucket_at (pos : Z) : M store bucket := look (λ c, CrushTypes.get_bucket (cw_crush c) pos).
Definition header_at (pos : Z) : M store crush_bucket := b ← bucket_at pos; mret (bucket_h b).

(** A call of the builder on the bucket at [pos]. *)
Definition edit_bucket (f : Z → bucket → M (list bool) (Z * bucket)) (pos : Z) : M store Z :=
  on_crush (λ '(m, o),
    b ← CrushTypes.get_bucket m pos;
    '((r, b), o) ← f (m_straw_calc_version m) b o;
    Ok (r, (put_bucket pos b m, o))).

(** [get_bucket(id)], dereferenced: the pointer that stands for an error is not valid. *)
Definition pos_of (id : Z) : Z := -1 - id.
Definition valid_bucket (id : Z) : M store Z :=
  b ← look (λ c, bucket_ptr c id);
  match b with Some _ => mret (pos_of id) | None => lift (Fault NullDeref) end.

(** [for (i = 0; i < b->size; i++) if (b->items[i] == id) act;]: the bucket is read
    again in every turn, because [act] may change it. *)
Fixpoint each_item {A} (n : nat) (pos id i : Z) (act : A → M store A) (a : A) : M store A :=
  h ← header_at pos;
  if b_size h <=? i then mret a else
  match n with
  | O => lift (Fault Diverge)
  | S n =>
      v ← lift (rd (b_items h) i);
      a ← (if v =? id then act a else mret a);
      each_item n pos id (i + 1) act a
  end.
Definition items_loop {A} (pos id : Z) (act : A → M store A) (a : A) : M store A :=
  h ← header_at pos; each_item (Z.to_nat (b_size h)) pos id 0 act a.

(** [for (bidx = 0; bidx < crush->max_buckets; bidx++)], null pointers left out. *)
Fixpoint each_bucket {A} (n : nat) (bidx : Z) (body : Z → A → M store A) (a : A) : M store A :=
  match n with
  | O => mret a
  | S n =>
      p ← look (λ c, rdp (m_buckets (cw_crush c)) bidx);
      a ← match p with None => mret a | Some _ => body bidx a end;
      each_bucket n (bidx + 1) body a
  end.
Definition buckets_loop {A} (body : Z → A → M store A) (a : A) : M store A :=
  n ← gets (λ s, Z.to_nat (m_max_buckets (cw_crush s.1))); each_bucket n 0 body a.

(** ** Weights in single precision *)

Definition float : Type := spec_float.
Definition f_of_Z (z : Z) : float := binary_normalize 24 128 z 0 false.
Definition fdiv : float → float → float := SFdiv 24 128.
Definition fmul : float → float → float := SFmul 24 128.
Definition fadd : float → float → float := SFadd 24 128.
Definition f_64k : float := f_of_Z 65536.

(** [(int)f]: truncation, as on x86-64 where it does not fit. *)
Definition int_of_f (f : float) : Z :=
  let indefinite := -2147483648 in
  match f with
  | S754_zero _ => 0
  | S754_finite s m e =>
      let a := Z.shiftl (Z.pos m) e in
      let v := if s then - a else a in
      if (-2147483648 <=? v) && (v <? 2147483648) then v else indefinite
  | _ => indefinite
  end.
(** [w / (float)0x10000] and [(int)(f * (float)0x10000)] *)
Definition weightf (w : Z) : float := fdiv (f_of_Z w) f_64k.
Definition fixed (f : float) : Z := int_of_f (fmul f f_64k).

(** ** Questions *)

Definition find_takes_step (roots : gset Z) (s : crush_rule_step) : gset Z :=
  match st_op s with CRUSH_RULE_TAKE => {[ st_arg1 s ]} ∪ roots | _ => roots end.
Fixpoint takes_of (r : crush_rule) (n : nat) (j : Z) (roots : gset Z) : res (gset Z) :=
  match n with
  | O => Ok roots
  | S n => s ← rdp (ru_steps r) j; s ← deref s; takes_of r n (j + 1) (find_takes_step roots s)
  end.
Definition find_takes (c : crush_wrapper) (roots : gset Z) : res (gset Z) :=
  for_up (Z.to_nat (m_max_rules (cw_crush c))) 0 (λ i roots,
    r ← rdp (m_rules (cw_crush c)) i;
    match r with None => Ok roots | Some r => takes_of r (Z.to_nat (ru_len r)) 0 roots end) roots.

(** [fuel] bounds the depth. *)
Fixpoint subtree_contains (fuel : nat) (c : crush_wrapper) (root item : Z) : res bool :=
  match fuel with
  | O => Fault Diverge
  | S fuel =>
      if root =? item then Ok true
      else if root >=? 0 then Ok false
      else
        b ← bucket_ptr c root;
        b ← deref b;
        l ← items_of b;
        (fix any (l : list Z) : res bool :=
           match l with
           | [] => Ok false
           | v :: l => r ← subtree_contains fuel c v item; if (r : bool) then Ok true else any l
           end) l
  end.

(** The weight of the first place an item is in. *)
Fixpoint weight_in (b : bucket) (id : Z) (n : nat) (i : Z) : res (option Z) :=
  match n with
  | O => Ok None
  | S n =>
      v ← rd (b_items (bucket_h b)) i;
      if v =? id then w ← crush_get_bucket_item_weight b i; Ok (Some w) else weight_in b id n (i + 1)
  end.
Definition weight_in_bucket (b : bucket) (id : Z) : res (option Z) := weight_in b id (Z.to_nat (b_size (bucket_h b))) 0.

Fixpoint first_weight (bs : list bucket) (id : Z) : res Z :=
  match bs with
  | [] => Ok (- ENOENT)
  | b :: bs => w ← weight_in_bucket b id; match w with Some w => Ok w | None => first_weight bs id end
  end.
Definition get_item_weight (c : crush_wrapper) (id : Z) : res Z :=
  bs ← all_buckets (cw_crush c); first_weight bs id.
Definition get_item_weightf (c : crush_wrapper) (id : Z) : res float :=
  w ← get_item_weight c id; Ok (weightf w).

Fixpoint get_item_weight_in_loc (id : Z) (loc : list (string * string)) : M crush_wrapper Z :=
  match loc with
  | [] => mret (- ENOENT)
  | (_, name) :: loc =>
      bid ← get_item_id name;
      c ← gets Datatypes.id;
      b ← lift (bucket_ptr c bid);
      w ← match b with None => mret None | Some b => lift (weight_in_bucket b id) end;
      match w with Some w => mret w | None => get_item_weight_in_loc id loc end
  end.

Definition get_item_weightf_in_loc (id : Z) (loc : list (string * string)) : M crush_wrapper float :=
  w ← get_item_weight_in_loc id loc; mret (weightf w).

Definition get_bucket_alg : crush_wrapper → Z → res Z := bucket_field bucket_alg.
Definition get_bucket_hash : crush_wrapper → Z → res Z := bucket_field (λ b, b_hash (bucket_h b)).
Definition get_bucket_weightf (c : crush_wrapper) (id : Z) : res float :=
  b ← bucket_ptr c id; Ok (match b with Some b => weightf (b_weight (bucket_h b)) | None => f_of_Z 0 end).
Definition get_bucket_item_weight (c : crush_wrapper) (id pos : Z) : res Z :=
  b ← bucket_ptr c id; match b with Some b => crush_get_bucket_item_weight b pos | None => Ok (- ENOENT) end.
Definition get_bucket_item_weightf (c : crush_wrapper) (id pos : Z) : res float :=
  b ← bucket_ptr c id; match b with Some b => w ← crush_get_bucket_item_weight b pos; Ok (weightf w) | None => Ok (f_of_Z 0) end.

Definition check_item_present : crush_wrapper → Z → res bool := _search_item_exists.

Definition loc_find (loc : list (string * string)) (t : string) : option string :=
  snd <$> find (λ l, bool_decide (l.1 = t)) loc.

(** Whether the item is in the bucket of the lowest type that [loc] names, and its weight there. *)
Fixpoint loc_loop (types : list (Z * string)) (item : Z) (loc : list (string * string)) : M crush_wrapper (option Z) :=
  match types with
  | [] => mret None
  | (t, tname) :: types =>
      if t =? 0 then loc_loop types item loc else
      match loc_find loc tname with
      | None => loc_loop types item loc
      | Some name =>
          e ← name_exists name;
          if negb (e : bool) then mret None else
          id ← get_item_id name;
          if id >=? 0 then mret None else
          c ← gets Datatypes.id;
          b ← lift (bucket_ptr c id);
          b ← lift (deref b);
          lift (weight_in_bucket b item)
      end
  end.
Definition check_item_loc (item : Z) (loc : list (string * string)) : M crush_wrapper (option Z) :=
  types ← gets cw_type_map; loc_loop types item loc.

(** The types from that of [id] up to the highest, each with the type of a parent. *)
Fixpoint hierarchy_loop (n : nat) (t high parent : Z) (coord : string * string) (acc : list (Z * string)) : M crush_wrapper (list (Z * string)) :=
  match n with
  | O => mret acc
  | S n =>
      let t := t + 1 in
      let acc := map_put acc t coord.1 in
      if t <? high then
        p ← get_immediate_parent parent;
        let coord := default (""%string, ""%string) p in
        parent ← get_item_id coord.2;
        hierarchy_loop n t high parent coord acc
      else mret acc
  end.
Definition get_parent_hierarchy (id : Z) : M crush_wrapper (list (Z * string)) :=
  p ← get_immediate_parent id;
  let coord := default (""%string, ""%string) p in
  c ← gets Datatypes.id;
  t ← lift (get_bucket_type c id);
  let t := if t <? 0 then 0 else t in
  types ← gets cw_type_map;
  let high := foldl (λ h x, if h <? x.1 then x.1 else h) 0 types in
  parent ← get_item_id coord.2;
  hierarchy_loop (Z.to_nat (high - t)) t high parent coord [].

(** ** Edits *)

Section edit.
Context (pow : double → double → double).

Definition adjust_at (pos id weight : Z) : M store Z := edit_bucket (λ v b, crush_bucket_adjust_item_weight pow v b id weight) pos.
Definition remove_at (pos id : Z) : M store Z := edit_bucket (λ v b, crush_bucket_remove_item pow v b id) pos.
Definition add_at (pos id weight : Z) : M store Z := edit_bucket (λ v b, crush_bucket_add_item pow v b id weight) pos.

(** The weight of every instance of [id], and of all buckets above; the number of
    instances.  [fuel] bounds the height. *)
Fixpoint adjust_item_weight (fuel : nat) (id weight : Z) : M store Z :=
  match fuel with
  | O => lift (Fault Diverge)
  | S fuel =>
      changed ← buckets_loop (λ bidx, items_loop bidx id (λ changed,
        _ ← adjust_at bidx id weight;
        h ← header_at bidx;
        _ ← adjust_item_weight fuel (-1 - bidx) (s32 (b_weight h));
        mret (changed + 1))) 0;
      mret (if changed =? 0 then - ENOENT else changed)
  end.
Definition adjust_item_weightf (fuel : nat) (id : Z) (weight : float) : M store Z := adjust_item_weight fuel id (fixed weight).

Fixpoint in_loc_loop (fuel : nat) (id weight : Z) (loc : list (string * string)) (changed : Z) : M store Z :=
  match loc with
  | [] => mret changed
  | (_, name) :: loc =>
      bid ← on_names (get_item_id name);
      e ← look (λ c, bucket_exists c bid);
      changed ← (if (e : bool) then
                   items_loop (pos_of bid) id (λ changed,
                     _ ← adjust_at (pos_of bid) id weight;
                     h ← header_at (pos_of bid);
                     _ ← adjust_item_weight fuel bid (s32 (b_weight h));
                     mret (changed + 1)) changed
                 else mret changed);
      in_loc_loop fuel id weight loc changed
  end.
Definition adjust_item_weight_in_loc (fuel : nat) (id weight : Z) (loc : list (string * string)) : M store Z :=
  changed ← in_loc_loop fuel id weight loc 0;
  mret (if changed =? 0 then - ENOENT else changed).
Definition adjust_item_weightf_in_loc (fuel : nat) (id : Z) (weight : float) (loc : list (string * string)) : M store Z :=
  adjust_item_weight_in_loc fuel id (fixed weight) loc.

(** The items of one bucket: a device is adjusted, a bucket joins the queue. *)
Fixpoint subtree_items (pos weight : Z) (n : nat) (i : Z) (q : list Z) : M store (list Z) :=
  h ← header_at pos;
  if b_size h <=? i then mret q else
  match n with
  | O => lift (Fault Diverge)
  | S n =>
      v ← lift (rd (b_items h) i);
      if v >=? 0 then adjust_at pos v weight;; subtree_items pos weight n (i + 1) q
      else
        sub ← look (λ c, bucket_ptr c v);
        subtree_items pos weight n (i + 1) (match sub with None => q | Some _ => q ++ [pos_of v] end)
  end.
(** [fuel] bounds the number of buckets. *)
Fixpoint subtree_loop (fuel : nat) (weight : Z) (q : list Z) : M store unit :=
  match q with
  | [] => mret tt
  | pos :: q =>
      match fuel with
      | O => lift (Fault Diverge)
      | S fuel =>
          h ← header_at pos;
          q ← subtree_items pos weight (Z.to_nat (b_size h)) 0 q;
          subtree_loop fuel weight q
      end
  end.
Definition adjust_subtree_weight (fuel : nat) (id weight : Z) : M store Z :=
  b ← look (λ c, bucket_ptr c id);
  match b with None => mret (- ENOENT) | Some _ => subtree_loop fuel weight [pos_of id];; mret 0 end.
Definition adjust_subtree_weightf (fuel : nat) (id : Z) (weight : float) : M store Z := adjust_subtree_weight fuel id (fixed weight).

(** ** Removal *)

Definition erase_name (item : Z) : M store unit := modify (λ '(c, o),
  (CrushWrapper (cw_crush c) (cw_type_map c) (map_del (cw_name_map c) item) (cw_rule_name_map c) false
     (cw_type_rmap c) (cw_name_rmap c) (cw_rule_name_rmap c), o)).

Definition _maybe_remove_last_instance (item : Z) (unlink_only : bool) : M store bool :=
  e ← look (λ c, _search_item_exists c item);
  if (e : bool) then mret false else
  _ ← (if (item <? 0) && negb unlink_only then
         pos ← valid_bucket item;
         b ← bucket_at pos;
         on_crush (λ '(m, o), m ← crush_remove_bucket b m; Ok (tt, (m, o)))
       else mret tt);
  c ← gets fst;
  _ ← (if ((item >=? 0) || negb unlink_only) && map_count (cw_name_map c) item then erase_name item else mret tt);
  mret true.

(** Takes [item] out of the bucket at [pos] and carries its new weight up. *)
Definition cut_item (fuel : nat) (pos item : Z) : M store unit :=
  _ ← remove_at pos item;
  h ← header_at pos;
  _ ← adjust_item_weight fuel (b_id h) (s32 (b_weight h));
  mret tt.

(** A bucket that is not empty may only be unlinked. *)
Definition not_empty (item : Z) (unlink_only : bool) : M store bool :=
  if (item <? 0) && negb unlink_only then
    pos ← valid_bucket item; h ← header_at pos; mret (negb (b_size h =? 0))
  else mret false.

Definition remove_item (fuel : nat) (item : Z) (unlink_only : bool) : M store Z :=
  full ← not_empty item unlink_only;
  if (full : bool) then mret (- ENOTEMPTY) else
  ret ← buckets_loop (λ pos, items_loop pos item (λ _, cut_item fuel pos item;; mret 0)) (- ENOENT);
  last ← _maybe_remove_last_instance item unlink_only;
  mret (if (last : bool) then 0 else ret).

Section under.
Context (rec : Z → M store Z) (fuel : nat) (item pos : Z).
(** [rec id] is [remove_item_under(item, id)]. *)
Fixpoint under_loop (n : nat) (i ret : Z) : M store Z :=
  h ← header_at pos;
  if b_size h <=? i then mret ret else
  match n with
  | O => lift (Fault Diverge)
  | S n =>
      id ← lift (rd (b_items h) i);
      if id =? item then cut_item fuel pos item;; under_loop n (i + 1) 0
      else if id <? 0 then r ← rec id; under_loop n (i + 1) (if r =? 0 then 0 else ret)
      else under_loop n (i + 1) ret
  end.
End under.

Fixpoint remove_item_under (depth fuel : nat) (item ancestor : Z) (unlink_only : bool) : M store Z :=
  match depth with
  | O => lift (Fault Diverge)
  | S depth =>
      e ← look (λ c, bucket_exists c ancestor);
      ret ← (if (ancestor >=? 0) || negb (e : bool) then mret (- EINVAL) else
             h ← header_at (pos_of ancestor);
             under_loop (λ id, remove_item_under depth fuel item id unlink_only) fuel item (pos_of ancestor)
               (Z.to_nat (b_size h)) 0 (- ENOENT));
      if ret <? 0 then mret ret else
      full ← not_empty item unlink_only;
      if (full : bool) then mret (- ENOTEMPTY) else
      last ← _maybe_remove_last_instance item unlink_only;
      mret (if (last : bool) then 0 else ret)
  end.

(** The weight of the bucket, which is in its parent no longer. *)
Definition detach_bucket (fuel : nat) (item : Z) : M store Z :=
  if item >=? 0 then mret (- EINVAL) else
  pos ← valid_bucket item;
  h ← header_at pos;
  let bucket_weight := b_weight h in
  p ← on_names (get_immediate_parent item);
  let '(ptype, pname) := default (""%string, ""%string) p in
  parent_id ← on_names (get_item_id pname);
  parent ← look (λ c, bucket_ptr c parent_id);
  _ ← match parent with
      | Some _ =>
          let ppos := pos_of parent_id in
          _ ← adjust_at ppos item 0;
          h ← header_at ppos;
          _ ← adjust_item_weight fuel (b_id h) (s32 (b_weight h));
          _ ← remove_at ppos item;
          mret tt
      | None => mret tt
      end;
  w ← on_names (check_item_loc item [(ptype, pname)]);
  lift (assert_c (bool_decide (w = None)));;
  mret (s32 bucket_weight).

(** ** Insertion *)

Definition add_bucket (bucketno alg hash type size : Z) (items weights : list Z) : M store (Z * option Z) :=
  c ← gets fst;
  let alg := if alg =? 0 then get_default_bucket_alg (cw_crush c) else alg in
  if alg =? 0 then mret (- EINVAL, None) else
  b ← on_crush (λ '(m, o),
        '(b, o) ← crush_make_bucket pow (m_straw_calc_version m) alg hash type size (cells items) (Some (cells weights)) o;
        Ok (b, (m, o)));
  match b with
  | None => lift (Fault AssertFailed)
  | Some b => on_crush (crush_add_bucket bucketno b)
  end.

(** Where an item was put: [Placed] when the loop has ended, [Failed] with what is returned. *)
Inductive placement := Placed | Failed (r : Z).

(** [cur] is put into the bucket of the lowest type that exists; the buckets below it that
    [loc] names and that do not exist are made. *)
Fixpoint insert_loop (fuel : nat) (types : list (Z * string)) (loc : list (string * string)) (cur : Z) : M store placement :=
  match types with
  | [] => mret Placed
  | (t, tname) :: types =>
      if t =? 0 then insert_loop fuel types loc cur else
      match loc_find loc tname with
      | None => insert_loop fuel types loc cur
      | Some name =>
          e ← on_names (name_exists name);
          if negb (e : bool) then
            '(r, newid) ← add_bucket 0 0 CRUSH_HASH_RJENKINS1 t 1 [cur] [0];
            if r <? 0 then mret (Failed r) else
            match newid with
            | None => lift (Fault Uninitialized)
            | Some newid => on_names (set_item_name newid name);; insert_loop fuel types loc newid
            end
          else
            id ← on_names (get_item_id name);
            ex ← look (λ c, bucket_exists c id);
            if negb (ex : bool) then mret (Failed (- EINVAL)) else
            below ← look (λ c, subtree_contains fuel c id cur);
            if (below : bool) then mret (Failed (- EINVAL)) else
            h ← header_at (pos_of id);
            if negb (t =? b_type h) then mret (Failed (- EINVAL)) else
            above ← look (λ c, subtree_contains fuel c cur (b_id h));
            if (above : bool) then mret (Failed (- ELOOP)) else
            r ← add_at (pos_of id) cur 0;
            lift (assert_c (r =? 0));;
            mret Placed
      end
  end.

Definition set_max_devices (n : Z) : M store unit := modify (λ '(c, o), (set_cw_crush (set_m_max_devices n (cw_crush c)) c, o)).

(** The name of the item; [false] when another item has it. *)
Definition claim_name (item : Z) (name : string) : M crush_wrapper bool :=
  e ← name_exists name;
  if (e : bool) then id ← get_item_id name; mret (id =? item)
  else set_item_name item name;; mret true.

Definition insert_item (fuel : nat) (item : Z) (weight : float) (name : string) (loc : list (string * string)) : M store Z :=
  if negb (is_valid_crush_name name) then mret (- EINVAL) else
  if negb (is_valid_crush_loc loc) then mret (- EINVAL) else
  mine ← on_names (claim_name item name);
  if negb (mine : bool) then mret (- EEXIST) else
  types ← gets (λ s, cw_type_map s.1);
  p ← insert_loop fuel types loc item;
  match p with
  | Failed r => mret r
  | Placed =>
      n ← adjust_item_weightf_in_loc fuel item weight loc;
      if n >? 0 then
        c ← gets fst;
        (if item >=? m_max_devices (cw_crush c) then set_max_devices (s32 (item + 1)) else mret tt);;
        mret 0
      else mret (- EINVAL)
  end.

(** The name of an item that has one. *)
Definition name_of (id : Z) : M store string :=
  c ← gets fst; match get_item_name c id with Some s => mret s | None => lift (Fault NullDeref) end.

Definition move_bucket (fuel : nat) (id : Z) (loc : list (string * string)) : M store Z :=
  if id >=? 0 then mret (- EINVAL) else
  c ← gets fst;
  if negb (item_exists c id) then mret (- ENOENT) else
  name ← name_of id;
  w ← detach_bucket fuel id;
  insert_item fuel id (weightf w) name loc.

Definition link_bucket (fuel : nat) (id : Z) (loc : list (string * string)) : M store Z :=
  if id >=? 0 then mret (- EINVAL) else
  c ← gets fst;
  if negb (item_exists c id) then mret (- ENOENT) else
  name ← name_of id;
  pos ← valid_bucket id;
  h ← header_at pos;
  insert_item fuel id (weightf (b_weight h)) name loc.

Definition create_or_move_item (fuel : nat) (item : Z) (weight : float) (name : string) (loc : list (string * string)) : M store Z :=
  if negb (is_valid_crush_name name) then mret (- EINVAL) else
  w ← on_names (check_item_loc item loc);
  match w with
  | Some _ => mret 0
  | None =>
      e ← look (λ c, _search_item_exists c item);
      weight ← (if (e : bool) then
                  weight ← look (λ c, get_item_weightf c item);
                  _ ← remove_item fuel item true; mret weight
                else mret weight);
      ret ← insert_item fuel item weight name loc;
      mret (if ret =? 0 then 1 else ret)
  end.

Definition update_item (fuel : nat) (item : Z) (weight : float) (name : string) (loc : list (string * string)) : M store Z :=
  if negb (is_valid_crush_name name) then mret (- EINVAL) else
  if negb (is_valid_crush_loc loc) then mret (- EINVAL) else
  let iweight := fixed weight in
  w ← on_names (check_item_loc item loc);
  match w with
  | Some old_iweight =>
      ret ← (if negb (old_iweight =? iweight) then _ ← adjust_item_weight_in_loc fuel item iweight loc; mret 1 else mret 0);
      old ← name_of item;
      if negb (bool_decide (old = name)) then _ ← on_names (set_item_name item name); mret 1 else mret ret
  | None =>
      c ← gets fst;
      _ ← (if item_exists c item then remove_item fuel item true else mret 0);
      ret ← insert_item fuel item weight name loc;
      mret (if ret =? 0 then 1 else ret)
  end.

(** The trees below the roots, in the order of their ids. *)
Fixpoint reweight_roots (fuel : nat) (roots : list Z) : M store unit :=
  match roots with
  | [] => mret tt
  | id :: roots =>
      if id >=? 0 then reweight_roots fuel roots else
      pos ← valid_bucket id;
      r ← on_crush (crush_reweight_bucket pow fuel pos);
      lift (assert_c (r =? 0));;
      reweight_roots fuel roots
  end.
Definition reweight (fuel : nat) : M store unit :=
  roots ← look (λ c, find_roots c ∅); reweight_roots fuel (merge_sort Z.le (elements roots)).
End edit.

(** ** Rules *)

(** [get_rule(ruleno)]: a null pointer is not an error for [IS_ERR], so what reads a
    rule that is not there follows it. *)
Definition get_rule (c : crush_wrapper) (ruleno : Z) : res (option crush_rule) :=
  if ruleno >=? m_max_rules (cw_crush c) then Ok None else rdp (m_rules (cw_crush c)) ruleno.
Definition rule_exists_at (c : crush_wrapper) (ruleno : Z) : res bool :=
  r ← get_rule c ruleno; Ok (bool_decide (is_Some r)).
Definition rule_field (f : crush_rule → Z) (c : crush_wrapper) (ruleno : Z) : res Z :=
  r ← get_rule c ruleno; r ← deref r; Ok (f r).
Definition get_rule_len : crush_wrapper → Z → res Z := rule_field (λ r, s32 (ru_len r)).
Definition get_rule_mask_ruleset : crush_wrapper → Z → res Z := rule_field (λ r, rm_ruleset (ru_mask r)).
Definition get_rule_mask_type : crush_wrapper → Z → res Z := rule_field (λ r, rm_type (ru_mask r)).
Definition get_rule_mask_min_size : crush_wrapper → Z → res Z := rule_field (λ r, rm_min_size (ru_mask r)).
Definition get_rule_mask_max_size : crush_wrapper → Z → res Z := rule_field (λ r, rm_max_size (ru_mask r)).

(** A step that is not there is an error that is answered. *)
Definition step_field (f : crush_rule_step → Z) (c : crush_wrapper) (ruleno step : Z) : res Z :=
  r ← get_rule c ruleno;
  match r with
  | None => Ok (- EINVAL)
  | Some r => if step >=? ru_len r then Ok (- EINVAL) else s ← rdp (ru_steps r) step; s ← deref s; Ok (f s)
  end.
Definition op_code (op : rule_op) : Z :=
  match op with
  | CRUSH_RULE_TAKE => 1
  | CRUSH_RULE_CHOOSE_FIRSTN => 2
  | CRUSH_RULE_CHOOSE_INDEP => 3
  | CRUSH_RULE_EMIT => 4
  | CRUSH_RULE_CHOOSELEAF_FIRSTN => 6
  | CRUSH_RULE_CHOOSELEAF_INDEP => 7
  | CRUSH_RULE_SET_CHOOSE_TRIES => 8
  | CRUSH_RULE_SET_CHOOSELEAF_TRIES => 9
  | CRUSH_RULE_SET_CHOOSE_LOCAL_TRIES => 10
  | CRUSH_RULE_SET_CHOOSE_LOCAL_FALLBACK_TRIES => 11
  | CRUSH_RULE_SET_CHOOSELEAF_VARY_R => 12
  | CRUSH_RULE_OTHER code => code
  end.
Definition get_rule_op : crush_wrapper → Z → Z → res Z := step_field (λ s, op_code (st_op s)).
Definition get_rule_arg1 : crush_wrapper → Z → Z → res Z := step_field st_arg1.
Definition get_rule_arg2 : crush_wrapper → Z → Z → res Z := step_field st_arg2.

Definition put_rule (ruleno : Z) (r : option crush_rule) (c : crush_wrapper) : res crush_wrapper :=
  rs ← wrp (m_rules (cw_crush c)) ruleno r; Ok (set_cw_crush (set_m_rules rs (cw_crush c)) c).

Definition add_rule (len ruleset type minsize maxsize ruleno : Z) : M store Z :=
  n ← on_crush (λ '(m, o), '(n, o) ← crush_make_rule len ruleset type minsize maxsize o; Ok (n, (m, o)));
  match n with
  | None => lift (Fault AssertFailed)
  | Some n => on_crush (crush_add_rule n ruleno)
  end.
Definition set_rule_mask_max_size (ruleno max_size : Z) : M crush_wrapper Z := λ c,
  r ← get_rule c ruleno; r ← deref r;
  let k := ru_mask r in
  c ← put_rule ruleno (Some (CrushRule (ru_len r) (CrushRuleMask (rm_ruleset k) (rm_type k) (rm_min_size k) (u8 max_size)) (ru_steps r))) c;
  Ok (u8 max_size, c).
Definition set_rule_step (ruleno step op arg1 arg2 : Z) : M crush_wrapper Z := λ c,
  r ← get_rule c ruleno;
  match r with
  | None => Ok (-1, c)
  | Some r => r ← crush_rule_set_step step op arg1 arg2 r; c ← put_rule ruleno (Some r) c; Ok (0, c)
  end.
Definition set_rule_step_take (ruleno step val : Z) : M crush_wrapper Z := set_rule_step ruleno step 1 val 0.
Definition set_rule_step_choose_firstn (ruleno step val type : Z) : M crush_wrapper Z := set_rule_step ruleno step 2 val type.
Definition set_rule_step_choose_indep (ruleno step val type : Z) : M crush_wrapper Z := set_rule_step ruleno step 3 val type.
Definition set_rule_step_emit (ruleno step : Z) : M crush_wrapper Z := set_rule_step ruleno step 4 0 0.
Definition set_rule_step_choose_leaf_firstn (ruleno step val type : Z) : M crush_wrapper Z := set_rule_step ruleno step 6 val type.
Definition set_rule_step_choose_leaf_indep (ruleno step val type : Z) : M crush_wrapper Z := set_rule_step ruleno step 7 val type.
Definition set_rule_step_set_choose_tries (ruleno step val : Z) : M crush_wrapper Z := set_rule_step ruleno step 8 val 0.
Definition set_rule_step_set_choose_local_tries (ruleno step val : Z) : M crush_wrapper Z := set_rule_step ruleno step 10 val 0.
Definition set_rule_step_set_choose_local_fallback_tries (ruleno step val : Z) : M crush_wrapper Z := set_rule_step ruleno step 11 val 0.
Definition set_rule_step_set_chooseleaf_vary_r (ruleno step val : Z) : M crush_wrapper Z := set_rule_step ruleno step 12 val 0.
Definition set_rule_step_set_chooseleaf_tries (ruleno step val : Z) : M crush_wrapper Z := set_rule_step ruleno step 9 val 0.

(** The share of the weight of each device below what a rule takes: the devices of one
    [TAKE] with their weights and the sum, breadth first; [fuel] bounds the buckets. *)
Fixpoint osd_items (b : bucket) (l : list Z) (j : Z) (m : list (Z * float)) (sum : float) (q : list Z) : res (list (Z * float) * float * list Z) :=
  match l with
  | [] => Ok (m, sum, q)
  | v :: l =>
      if v >=? 0 then w ← crush_get_bucket_item_weight b j; let w := f_of_Z w in osd_items b l (j + 1) (map_put m v w) (fadd sum w) q
      else osd_items b l (j + 1) m sum (q ++ [v])
  end.
Fixpoint osd_tree (fuel : nat) (c : crush_wrapper) (q : list Z) (m : list (Z * float)) (sum : float) : res (list (Z * float) * float) :=
  match q with
  | [] => Ok (m, sum)
  | bno :: q =>
      match fuel with
      | O => Fault Diverge
      | S fuel =>
          b ← rdp (m_buckets (cw_crush c)) (-1 - bno);
          match b with
          | None => Fault AssertFailed
          | Some b => l ← items_of b; '(m, sum, q) ← osd_items b l 0 m sum q; osd_tree fuel c q m sum
          end
      end
  end.
Definition osd_take (fuel : nat) (c : crush_wrapper) (n : Z) : res (list (Z * float) * float) :=
  if n >=? 0 then Ok ([(n, f_of_Z 1)], f_of_Z 1) else osd_tree fuel c [n] [] (f_of_Z 0).
Definition merge_share (sum : float) (pmap : list (Z * float)) (p : Z * float) : list (Z * float) :=
  match map_find pmap p.1 with
  | None => map_put pmap p.1 (fdiv p.2 sum)
  | Some q => map_put pmap p.1 (fadd q (fdiv p.2 sum))
  end.
Definition get_rule_weight_osd_map (fuel : nat) (c : crush_wrapper) (ruleno : Z) (pmap : list (Z * float)) : res (Z * list (Z * float)) :=
  if ruleno >=? m_max_rules (cw_crush c) then Ok (- ENOENT, pmap) else
  r ← rdp (m_rules (cw_crush c)) ruleno;
  match r with
  | None => Ok (- ENOENT, pmap)
  | Some r =>
      pmap ← for_up (Z.to_nat (ru_len r)) 0 (λ i pmap,
        s ← rdp (ru_steps r) i;
        s ← deref s;
        match st_op s with
        | CRUSH_RULE_TAKE => '(m, sum) ← osd_take fuel c (st_arg1 s); Ok (foldl (merge_share sum) pmap m)
        | _ => Ok pmap
        end) pmap;
      Ok (0, pmap)
  end.

Definition ruleset_exists (c : crush_wrapper) (ruleset : Z) : res bool :=
  for_up (Z.to_nat (m_max_rules (cw_crush c))) 0 (λ i found,
    r ← rdp (m_rules (cw_crush c)) i;
    Ok (found || match r with Some r => rm_ruleset (ru_mask r) =? ruleset | None => false end)) false.

(** The lowest ruleset of a type; -1 when there is none. *)
Definition find_first_ruleset (c : crush_wrapper) (type : Z) : res Z :=
  for_up (Z.to_nat (m_max_rules (cw_crush c))) 0 (λ i result,
    r ← rdp (m_rules (cw_crush c)) i;
    Ok (match r with
        | Some r => if (rm_type (ru_mask r) =? type) && ((rm_ruleset (ru_mask r) <? result) || (result =? -1)) then rm_ruleset (ru_mask r) else result
        | None => result
        end)) (-1).

Definition forget_rmaps (c : crush_wrapper) : crush_wrapper :=
  CrushWrapper (cw_crush c) (cw_type_map c) (cw_name_map c) (cw_rule_name_map c) false (cw_type_rmap c) (cw_name_rmap c) (cw_rule_name_rmap c).
Definition remove_rule (ruleno : Z) : M crush_wrapper Z := λ c,
  if ruleno >=? m_max_rules (cw_crush c) then Ok (- ENOENT, c) else
  r ← rdp (m_rules (cw_crush c)) ruleno;
  match r with
  | None => Ok (- ENOENT, c)
  | Some _ =>
      c ← put_rule ruleno None c;
      Ok (0, forget_rmaps (set_cw_rule_names (map_del (cw_rule_name_map c) ruleno) (cw_rule_name_rmap c) c))
  end.

(** The first number that is neither a rule nor a ruleset. *)
Fixpoint free_rule (c : crush_wrapper) (n : nat) (rno : Z) : res Z :=
  match n with
  | O => Ok rno
  | S n =>
      e ← rule_exists_at c rno;
      s ← (if (e : bool) then Ok true else ruleset_exists c rno);
      if (s : bool) then free_rule c n (rno + 1) else Ok rno
  end.

(** [step++] with each of the steps. *)
Fixpoint set_steps (steps : list (Z * Z * Z)) (n : Z) (r : crush_rule) : res crush_rule :=
  match steps with
  | [] => Ok r
  | (op, a, b) :: steps => r ← crush_rule_set_step n op a b r; set_steps steps (n + 1) r
  end.
Definition simple_steps (firstn : bool) (root type : Z) : list (Z * Z * Z) :=
  (if firstn then [] else [(9, 5, 0); (8, 100, 0)]) ++
  [(1, root, 0); if negb (type =? 0) then (if firstn then 6 else 7, 0, type) else (if firstn then 2 else 3, 0, 0); (4, 0, 0)].

Definition add_simple_ruleset (name root_name failure_domain_name mode : string) (rule_type : Z) : M store Z :=
  e ← on_names (rule_exists name);
  if (e : bool) then mret (- EEXIST) else
  e ← on_names (name_exists root_name);
  if negb (e : bool) then mret (- ENOENT) else
  root ← on_names (get_item_id root_name);
  type ← match failure_domain_name with EmptyString => mret 0 | _ => on_names (get_type_id failure_domain_name) end;
  if type <? 0 then mret (- EINVAL) else
  let firstn := bool_decide (mode = "firstn"%string) in
  if negb firstn && negb (bool_decide (mode = "indep"%string)) then mret (- EINVAL) else
  c ← gets fst;
  rno ← lift (free_rule c (Z.to_nat (m_max_rules (cw_crush c))) 0);
  rule ← on_crush (λ '(m, o),
    '(r, o) ← crush_make_rule (if firstn then 3 else 5) rno rule_type (if firstn then 1 else 3) (if firstn then 10 else 20) o; Ok (r, (m, o)));
  match rule with
  | None => lift (Fault AssertFailed)
  | Some rule =>
      rule ← lift (set_steps (simple_steps firstn root type) 0 rule);
      ret ← on_crush (crush_add_rule rule rno);
      if ret <? 0 then mret ret else
      modify (λ '(c, o), (forget_rmaps (set_rule_name rno name c), o));;
      mret rno
  end.

(** ** Locations as arguments *)

(** The part before the first [=], and the part after it. *)
Fixpoint split_eq (s : string) : option (string * string) :=
  match s with
  | EmptyString => None
  | String a s =>
      if bool_decide (a = Ascii.ascii_of_nat 61) then Some (EmptyString, s)
      else match split_eq s with Some (k, v) => Some (String a k, v) | None => None end
  end.
(** What [c_str()] shows of a string. *)
Fixpoint c_str (s : string) : string :=
  match s with
  | EmptyString => EmptyString
  | String a s => if bool_decide (a = Ascii.zero) then EmptyString else String a (c_str s)
  end.
Definition parse_loc_arg (s : string) : option (string * string) :=
  match split_eq (c_str s) with
  | Some (k, v) => match v with EmptyString => None | _ => Some (k, v) end
  | None => None
  end.

Definition str_ltb (a b : string) : bool := match String.compare a b with Lt => true | _ => false end.
(** [m[k] = v], and the insertion of a multimap, behind its equals. *)
Fixpoint loc_put (m : list (string * string)) (k v : string) : list (string * string) :=
  match m with
  | [] => [(k, v)]
  | (s, w) :: m' => if str_ltb s k then (s, w) :: loc_put m' k v else if bool_decide (s = k) then (k, v) :: m' else (k, v) :: m
  end.
Fixpoint loc_insert (m : list (string * string)) (k v : string) : list (string * string) :=
  match m with
  | [] => [(k, v)]
  | (s, w) :: m' => if str_ltb k s then (k, v) :: m else (s, w) :: loc_insert m' k v
  end.
(** The locations before a bad argument are kept. *)
Fixpoint parse_args (put : list (string * string) → string → string → list (string * string)) (args : list string) (loc : list (string * string)) :
    Z * list (string * string) :=
  match args with
  | [] => (0, loc)
  | s :: args => match parse_loc_arg s with Some (k, v) => parse_args put args (put loc k v) | None => (- EINVAL, loc) end
  end.
Definition parse_loc_map (args : list string) : Z * list (string * string) := parse_args loc_put args [].
Definition parse_loc_multimap (args : list string) : Z * list (string * string) := parse_args loc_insert args [].
