(* ===== verification/CrushEditSpec.v ===== *)
(** * Weights in an edited CRUSH map

    A map whose buckets are straw or straw2 buckets is pictured by the types, items
    and weights of its buckets.  In a map that agrees, the weight of a bucket is
    the weight that it has in the buckets above.  [adjust_item_weight] makes a map
    agree again whose weights have changed in one place. *)

From stdpp Require Import gmap strings sorting.
From S2P Require Import Prelude Hash CrushTypes StdMap Nodes Choose ChoosePerm ChooseSpec.
From S2P Require Import Mapper MapWf CrushWrapper.
From S2P Require Import BuilderBase Builder BuilderMap MakeSpec TreeSpec StrawSpec EditBase.
From S2P Require Import AddSpec RemoveSpec BuildProps MapSpec CrushEdit.

(** ** Memory is not refused *)

Section quiet.
Context {B : Type} {HB : HasHeader B}.

Definition quiet {A} (m : M (obj B) A) : Prop := ∀ b a s, m (b, []) = Ok (a, s) → s.2 = [].

Lemma quiet_ret {A} (a : A) : quiet (mret a).
Proof. by intros b a' s [= <- <-]. Qed.
Lemma quiet_bind {A C} (m : M (obj B) A) (k : A → M (obj B) C) : quiet m → (∀ a, quiet (k a)) → quiet (m ≫= k).
Proof.
  intros Hm Hk b c s. unfold mbind, M_bind, mbind, res_bind. destruct (m (b, [])) as [[a [b' o']]|] eqn:E; [|done].
  pose proof (Hm _ _ _ E) as H. simpl in H. subst o'. apply Hk.
Qed.
Lemma quiet_lift {A} (r : res A) : quiet (lift r).
Proof. intros b a s. unfold lift. destruct r; [|done]. by intros [= <- <-]. Qed.
Lemma quiet_update g : quiet (update g). Proof. by intros b a s [= <- <-]. Qed.
Lemma quiet_update_h g : quiet (update_h g). Proof. apply quiet_update. Qed.
Lemma quiet_ask {A} (g : B → A) : quiet (ask g). Proof. by intros b a s [= <- <-]. Qed.
Lemma quiet_rdf f i : quiet (rdf f i).
Proof. intros b a s. unfold rdf. destruct (rd _ _); [|done]. by intros [= <- <-]. Qed.
Lemma quiet_wrf f i v : quiet (wrf f i v).
Proof. intros b a s. unfold wrf. destruct (wr _ _ _); [|done]. by intros [= <- <-]. Qed.
Lemma quiet_copyf f j i : quiet (copyf f j i).
Proof.
  intros b a s. unfold copyf. destruct (rdc _ _); [|done]. cbn [mbind res_bind]. destruct (wrc _ _ _); [|done]. by intros [= <- <-].
Qed.
Lemma quiet_realloc f n k : quiet k → quiet (realloc_f f n k).
Proof. intros Hk b a s. unfold realloc_f. simpl. destruct (n =? 0); [by intros [= <- <-]|apply Hk]. Qed.
Lemma quiet_for n body : (∀ i, quiet (body i)) → ∀ i, quiet (for_s n i body).
Proof. intros Hb. induction n as [|n IH]; intros i; [apply quiet_ret|]. apply quiet_bind; [done|]. intros _. apply IH. Qed.
Lemma quiet_if {A} (b : bool) (m m' : M (obj B) A) : quiet m → quiet m' → quiet (if b then m else m').
Proof. by destruct b. Qed.
End quiet.

Create HintDb quiet discriminated.
#[export] Hint Resolve quiet_ret quiet_lift quiet_update quiet_update_h quiet_ask quiet_rdf quiet_wrf quiet_copyf : quiet.
Ltac quiet := repeat first
  [ apply quiet_bind; [|intros ?] | apply quiet_realloc | apply quiet_for; intros ? | apply quiet_if | progress cbv zeta | by auto with quiet ].

Lemma quiet_straw pow v : quiet (crush_calc_straw pow v).
Proof.
  intros b a s. unfold crush_calc_straw. simpl. destruct (sort_reverse _ _ _); [|done]. cbn [mbind res_bind].
  destruct (straw_loop _ _ _ _ _ _ _ _ _); [|done]. by intros [= <- <-].
Qed.
#[export] Hint Resolve quiet_straw : quiet.

Definition easy (b : bucket) : Prop := match b with BStraw _ | BStraw2 _ => True | _ => False end.

Lemma on_bucket_quiet {B} `{HasHeader B} (inj : B → bucket) b m r o' : quiet m → on_bucket inj b m [] = Ok (r, o') → o' = [].
Proof.
  intros Hm. unfold on_bucket, run_on, mbind, M_bind, mbind, res_bind. destruct (m (b, [])) as [[a [b' o]]|] eqn:E; [|done].
  intros [= _ <-]. exact (Hm _ _ _ E).
Qed.

Lemma adjust_quiet pow v b id w r o' : easy b → crush_bucket_adjust_item_weight pow v b id w [] = Ok (r, o') → o' = [].
Proof.
  destruct b; try done; intros _; apply on_bucket_quiet; unfold crush_adjust_straw_bucket_item_weight, crush_adjust_straw2_bucket_item_weight, straw_set_weight; quiet.
Qed.
Lemma remove_quiet pow v b id r o' : easy b → crush_bucket_remove_item pow v b id [] = Ok (r, o') → o' = [].
Proof.
  destruct b; try done; intros _; apply on_bucket_quiet; unfold crush_remove_straw_bucket_item, crush_remove_straw2_bucket_item, straw_cut; quiet.
Qed.
Lemma add_quiet pow v b id w r o' : easy b → crush_bucket_add_item pow v b id w [] = Ok (r, o') → o' = [].
Proof.
  destruct b; try done; intros _; apply on_bucket_quiet; unfold crush_add_straw_bucket_item, crush_add_straw2_bucket_item; quiet.
Qed.

(** ** Pictures *)

Record node := Node { n_type : Z; n_items : list Z; n_weights : list Z }.
Abbreviation picture := (list (option node)).
Implicit Types (A : list (option node)) (n : node) (c : crush_wrapper) (p k : nat) (id w T : Z).

Definition shows p (b : bucket) n : Prop :=
  repr b (n_items n) (n_weights n) ∧ easy b ∧ b_id (bucket_h b) = -1 - Z.of_nat p ∧ b_type (bucket_h b) = n_type n.

Record depicts c A : Prop := {
  dp_ok : buckets_ok (cw_crush c);
  dp_len : length A = length (m_buckets (cw_crush c));
  dp_none : ∀ p, slot A p = None → slot (m_buckets (cw_crush c)) p = None;
  dp_some : ∀ p n, slot A p = Some n → ∃ b, slot (m_buckets (cw_crush c)) p = Some b ∧ shows p b n }.

(** What the edits of weights leave alone. *)
Definition rebuilt c c' : Prop := ∃ bs, c' = set_cw_crush (set_m_buckets bs (cw_crush c)) c.

Lemma rebuilt_refl c : rebuilt c c.
Proof. exists (m_buckets (cw_crush c)). by destruct c as [[]]. Qed.
Lemma rebuilt_trans c1 c2 c3 : rebuilt c1 c2 → rebuilt c2 c3 → rebuilt c1 c3.
Proof. intros [bs ->] [bs' ->]. by exists bs'. Qed.

Lemma slot_lt {X} (a : list (option X)) p x : slot a p = Some x → (p < length a)%nat.
Proof. intros H. apply Nat.nle_gt. intros Hge. by rewrite slot_past in H. Qed.

(** The weight of a bucket, by its id. *)
Definition weight_of A i : option Z := (λ n, sum_u32 (n_weights n)) <$> slot A (bucket_pos i).

(** In slot [p], item [k] is [i] and has weight [v]. *)
Definition cell A p k i v : Prop := ∃ n, slot A p = Some n ∧ n_items n !! k = Some i ∧ n_weights n !! k = Some v.

(** Every bucket has, in the buckets above it, the weight that it has, except for the ids in [ex]. *)
Definition agree (ex : Z → Prop) A : Prop := ∀ p k i v, cell A p k i v → i < 0 → ¬ ex i → weight_of A i = Some v.

(** No weight of a bucket is a sum that wraps around. *)
Definition light A : Prop := ∀ p n, slot A p = Some n → sum_list_Z (n_weights n) < 4294967296.

(** Devices are at level zero, and a bucket is above what it holds. *)
Definition level A i : Z := if 0 <=? i then 0 else default 0 (n_type <$> slot A (bucket_pos i)).
Definition typed T A : Prop := ∀ p n, slot A p = Some n → 0 < n_type n <= T ∧ NoDup (n_items n) ∧
  ∀ i, i ∈ n_items n → is_s32 i ∧ (i < 0 → is_Some (slot A (bucket_pos i))) ∧ level A i < n_type n.

Definition shape A : list (option (Z * list Z)) := (λ x : option node, (λ n, (n_type n, n_items n)) <$> x) <$> A.

Lemma shape_slot A A' p : shape A' = shape A → (λ n, (n_type n, n_items n)) <$> slot A' p = (λ n, (n_type n, n_items n)) <$> slot A p.
Proof.
  intros H. assert (shape A' !! p = shape A !! p) as E by by rewrite H. unfold shape in E. rewrite !list_lookup_fmap in E. unfold slot.
  destruct (A' !! p) as [[n'|]|], (A !! p) as [[n|]|]; simpl in *; congruence.
Qed.
Lemma shape_some A A' p n : shape A' = shape A → slot A p = Some n → ∃ n', slot A' p = Some n' ∧ n_type n' = n_type n ∧ n_items n' = n_items n.
Proof. intros H E. pose proof (shape_slot A A' p H) as Hs. rewrite E in Hs. destruct (slot A' p) as [n'|]; [|done]. exists n'. simpl in Hs. by simplify_eq. Qed.
Lemma shape_level A A' i : shape A' = shape A → level A' i = level A i.
Proof.
  intros H. unfold level. destruct (0 <=? i); [done|]. pose proof (shape_slot A A' (bucket_pos i) H) as Hs.
  destruct (slot A' _), (slot A _); simpl in *; by simplify_eq.
Qed.
Lemma shape_typed T A A' : shape A' = shape A → typed T A → typed T A'.
Proof.
  intros H Ht p n' Hn'. destruct (shape_some A' A p n' (eq_sym H) Hn') as (n & Hn & <- & <-). destruct (Ht p n Hn) as (H1 & H2 & H3).
  split; [done|]. split; [done|]. intros i Hi. destruct (H3 i Hi) as (H4 & H5 & H6). split; [done|]. rewrite (shape_level A A' i H).
  split; [|done]. intros Hneg. destruct (H5 Hneg) as [m Hm]. destruct (shape_some A A' _ m H Hm) as (m' & Hm' & _). by exists m'.
Qed.

(** One weight is replaced. *)
Definition reweighed A p n k w : picture := <[p := Some (Node (n_type n) (n_items n) (<[k := w]> (n_weights n)))]> A.

Lemma slot_reweighed A p n k w q : slot A p = Some n →
  slot (reweighed A p n k w) q = if decide (q = p) then Some (Node (n_type n) (n_items n) (<[k := w]> (n_weights n))) else slot A q.
Proof. intros Hn. unfold reweighed. case_decide as E; [subst q; apply slot_insert; by eapply slot_lt|by apply slot_insert_ne]. Qed.
Lemma shape_reweighed A p n k w : slot A p = Some n → shape (reweighed A p n k w) = shape A.
Proof.
  intros Hn. unfold shape, reweighed. apply list_eq. intros q. rewrite !list_lookup_fmap. destruct (decide (q = p)) as [->|Hne].
  - rewrite list_lookup_insert_eq by (by eapply slot_lt). unfold slot in Hn. destruct (A !! p) as [[m|]|]; by simplify_eq/=.
  - by rewrite list_lookup_insert_ne by done.
Qed.

(** *** Access *)

Lemma depicts_rdp c A p : depicts c A → (p < length A)%nat → rdp (m_buckets (cw_crush c)) (Z.of_nat p) = Ok (slot (m_buckets (cw_crush c)) p).
Proof. intros [_ Hl _ _] Hp. apply rdp_slot. lia. Qed.

Lemma depicts_get c A p n : depicts c A → slot A p = Some n → ∃ b, shows p b n ∧ slot (m_buckets (cw_crush c)) p = Some b ∧
  CrushTypes.get_bucket (cw_crush c) (Z.of_nat p) = Ok b.
Proof.
  intros Hd Hn. destruct (dp_some c A Hd p n Hn) as (b & Hb & Hs). exists b. split; [done|]. split; [done|]. unfold CrushTypes.get_bucket.
  rewrite (depicts_rdp c A p Hd) by (by eapply slot_lt). by rewrite Hb.
Qed.

Lemma wp_bucket_at {R} c A p n (K : bucket → M store R) Q : depicts c A → slot A p = Some n →
  (∀ b, shows p b n → wp (K b) (c, []) Q) → wp (bucket_at (Z.of_nat p) ≫= K) (c, []) Q.
Proof.
  intros Hd Hn HK. destruct (depicts_get c A p n Hd Hn) as (b & Hs & _ & E). eapply wp_bind_eq; [|by apply HK]. unfold bucket_at, look. by rewrite E.
Qed.
Lemma wp_header_at {R} c A p n (K : crush_bucket → M store R) Q : depicts c A → slot A p = Some n →
  (∀ b, shows p b n → wp (K (bucket_h b)) (c, []) Q) → wp (header_at (Z.of_nat p) ≫= K) (c, []) Q.
Proof.
  intros Hd Hn HK. destruct (depicts_get c A p n Hd Hn) as (b & Hs & _ & E). eapply wp_bind_eq; [|by apply HK]. 
  unfold header_at, bucket_at, look, mbind, M_bind, mbind, res_bind. by rewrite E.
Qed.

Lemma shows_items p b n : shows p b n → holds (b_items (bucket_h b)) (n_items n) ∧ b_size (bucket_h b) = Z.of_nat (length (n_items n)).
Proof. by intros ((( ? & ? & _) & _) & _). Qed.
Lemma shows_weight p b n : shows p b n → b_weight (bucket_h b) = sum_u32 (n_weights n).
Proof. by intros ((_ & _ & _ & ? & _) & _). Qed.
Lemma shows_lengths p b n : shows p b n → length (n_weights n) = length (n_items n) ∧ Forall is_u32 (n_weights n).
Proof. by intros ((_ & ? & ? & _) & _). Qed.
Lemma depicts_lengths c A p n : depicts c A → slot A p = Some n → length (n_weights n) = length (n_items n) ∧ Forall is_u32 (n_weights n).
Proof. intros Hd Hn. destruct (dp_some c A Hd p n Hn) as (b & _ & Hs). by eapply shows_lengths. Qed.

(** A bucket is put back into its place. *)
Lemma depicts_put c A p n b n' : depicts c A → slot A p = Some n → shows p b n' →
  depicts (set_cw_crush (put_bucket (Z.of_nat p) b (cw_crush c)) c) (<[p := Some n']> A).
Proof.
  intros Hd Hn Hs. pose proof Hd as [[Hm Hlt] Hl Hnone Hsome]. pose proof (slot_lt _ _ _ Hn) as Hp. unfold put_bucket. rewrite Nat2Z.id.
  constructor; cbn [set_cw_crush cw_crush set_m_buckets m_buckets m_max_buckets].
  - split; cbn; [by rewrite length_insert|done].
  - by rewrite !length_insert.
  - intros q. destruct (decide (q = p)) as [->|Hne]; [by rewrite slot_insert by done|]. rewrite !slot_insert_ne by done. apply Hnone.
  - intros q m. destruct (decide (q = p)) as [->|Hne].
    + rewrite slot_insert by done. intros [= <-]. exists b. split; [|done]. apply slot_insert. lia.
    + rewrite !slot_insert_ne by done. apply Hsome.
Qed.

Lemma rebuilt_put c (pos : Z) b : rebuilt c (set_cw_crush (put_bucket pos b (cw_crush c)) c).
Proof. by eexists. Qed.

(** A call of the builder on a bucket, given what it does to it. *)
Lemma edit_ok f p n c A (P : Z → bucket → Prop) : depicts c A → slot A p = Some n →
  (∀ b, shows p b n → wp (f (m_straw_calc_version (cw_crush c)) b) [] (λ '(r, b') o', P r b' ∧ o' = [])) →
  wp (edit_bucket f (Z.of_nat p)) (c, []) (λ r '(c', o'), o' = [] ∧ rebuilt c c' ∧ ∃ b', P r b' ∧ c' = set_cw_crush (put_bucket (Z.of_nat p) b' (cw_crush c)) c).
Proof.
  intros Hd Hn Hf. destruct (depicts_get c A p n Hd Hn) as (b & Hs & Hb & E). specialize (Hf b Hs). unfold wp, rwp, edit_bucket, on_crush in *.
  cbv beta iota. rewrite E. unfold mbind, res_bind. destruct (f _ b []) as [[[r b'] o']|] eqn:Ef; [|done]. destruct Hf as [HP ->].
  split; [done|]. split; [apply rebuilt_put|]. by exists b'.
Qed.

Lemma index_of_at l k i : NoDup l → l !! k = Some i → index_of i l = k.
Proof.
  intros Hn Hk. assert (i ∈ l) as Hin by (by eapply list_elem_of_lookup_2). pose proof (index_of_lookup i l (index_of_elem i l Hin)) as E.
  by eapply NoDup_lookup.
Qed.

Lemma same_alg_easy b b' l ws : bucket_alg b' = bucket_alg b → easy b → repr b' l ws → easy b'.
Proof. intros Ha He (_ & _ & _ & _ & Hr). by destruct b, b'. Qed.

Section edits.
Context (pow : double → double → double).

Lemma adjust_at_ok c A p n k id w : depicts c A → slot A p = Some n → NoDup (n_items n) → n_items n !! k = Some id →
  wp (adjust_at pow (Z.of_nat p) id w) (c, []) (λ _ '(c', o'), o' = [] ∧ rebuilt c c' ∧ depicts c' (reweighed A p n k (u32 w))).
Proof.
  intros Hd Hn Hnd Hk. set (n' := Node (n_type n) (n_items n) (<[k := u32 w]> (n_weights n))).
  eapply wp_mono; [apply (edit_ok _ p n c A (λ _ b', shows p b' n') Hd Hn)|].
  - intros b Hs. pose proof Hs as (Hr & He & Hid & Hty). destruct (shows_lengths p b n Hs) as [Hlen _].
    destruct (lookup_lt_is_Some_2 (n_weights n) k) as [v Hv]; [rewrite Hlen; by eapply lookup_lt_Some|].
    pose proof (index_of_at (n_items n) k id Hnd Hk) as Ei.
    pose proof (crush_bucket_adjust_item_weight_refines pow (m_straw_calc_version (cw_crush c)) b (n_items n) (n_weights n) id w v [] Hr) as H.
    rewrite Ei in H. specialize (H ltac:(by eapply list_elem_of_lookup_2) Hv ltac:(by destruct b)).
    unfold wp, rwp in *. destruct (crush_bucket_adjust_item_weight _ _ _ _ _ _) as [[[r b'] o']|] eqn:E; [|done].
    apply adjust_quiet in E as ->; [|done]. split; [|done]. destruct H as ((Ha & Hid' & Hty' & _) & [[_ Hr']|(_ & Hno & _)]); [|destruct Hno; constructor].
    split; [done|]. split; [|split; [by rewrite Hid'|by rewrite Hty']]. by eapply same_alg_easy.
  - intros r [c' o'] (-> & Hr & b' & Hs & ->). split; [done|]. split; [done|]. by eapply depicts_put.
Qed.
End edits.

(** *** Loops *)

Section loops.
Context {B : Type}.
Implicit Types (act : B → M store B) (a : B).

Lemma each_item_step c A p n act a id (i m : nat) Q : depicts c A → slot A p = Some n → (length (n_items n) - i <= m)%nat →
  (n_items n !! i = None → Q a (c, [])) →
  (∀ m' v, m = S m' → n_items n !! i = Some v →
     wp (a ← (if v =? id then act a else mret a); each_item m' (Z.of_nat p) id (Z.of_nat (S i)) act a) (c, []) Q) →
  wp (each_item m (Z.of_nat p) id (Z.of_nat i) act a) (c, []) Q.
Proof.
  intros Hd Hn Hm HN HS. destruct m as [|m]; cbn [each_item]; (eapply wp_header_at; [done..|]); intros b Hs; destruct (shows_items p b n Hs) as [Hi ->].
  - rewrite (proj2 (Z.leb_le _ _)) by lia. apply wp_ret, HN, lookup_ge_None_2. lia.
  - destruct (Z.leb_spec (Z.of_nat (length (n_items n))) (Z.of_nat i)) as [Hge|Hlt]; [apply wp_ret, HN, lookup_ge_None_2; lia|].
    destruct (lookup_lt_is_Some_2 (n_items n) i) as [v Hv]; [lia|].
    eapply wp_bind_eq; [unfold lift; by rewrite (rd_at _ _ i v Hi Hv)|]. replace (Z.of_nat i + 1) with (Z.of_nat (S i)) by lia. by apply HS.
Qed.

Lemma each_item_skip c A p n act a id m : depicts c A → slot A p = Some n → ∀ i, id ∉ drop i (n_items n) → (length (n_items n) - i <= m)%nat →
  ∀ Q : B → store → Prop, Q a (c, []) → wp (each_item m (Z.of_nat p) id (Z.of_nat i) act a) (c, []) Q.
Proof.
  intros Hd Hn. induction m as [|m IH]; intros i Hni Hm Q HQ; (eapply each_item_step; [done..| |]); [done|by intros|done|].
  intros m' v [= <-] Hv. rewrite (drop_S _ _ _ Hv), not_elem_of_cons in Hni. destruct Hni as [Hne Hni]. rewrite (proj2 (Z.eqb_neq v id)) by congruence.
  eapply wp_bind_eq; [reflexivity|]. apply IH; [done|lia|done].
Qed.

(** What [act] has to see to for the rest of the loop. *)
Definition over_with p k id (len : nat) c : Prop := ∃ A n, depicts c A ∧ slot A p = Some n ∧ ¬ id ∈ drop (S k) (n_items n) ∧ (length (n_items n) <= len)%nat.

Lemma each_item_hit c A p n act a id k m Q : depicts c A → slot A p = Some n → NoDup (n_items n) → n_items n !! k = Some id →
  wp (act a) (c, []) (λ a' '(c', o'), o' = [] ∧ over_with p k id (length (n_items n)) c' ∧ Q a' (c', [])) →
  ∀ i, (i <= k)%nat → (length (n_items n) - i <= m)%nat → wp (each_item m (Z.of_nat p) id (Z.of_nat i) act a) (c, []) Q.
Proof.
  intros Hd Hn Hnd Hk Hact. induction m as [|m IH]; intros i Hi Hm; pose proof (lookup_lt_Some _ _ _ Hk) as Hlt; [lia|].
  eapply each_item_step; [done..| |]; [intros HN%lookup_ge_None_1; lia|]. intros m' v [= <-] Hv. destruct (decide (i = k)) as [->|Hne].
  - rewrite Hk in Hv. injection Hv as <-. rewrite Z.eqb_refl. eapply wp_bind_mono; [exact Hact|]. intros a' [c' o'] (-> & (A' & n' & Hd' & Hn' & Hni & Hle) & HQ).
    eapply each_item_skip; [done..|lia|done].
  - assert (v ≠ id) as Hv' by (intros ->; apply Hne; by eapply NoDup_lookup). rewrite (proj2 (Z.eqb_neq v id)) by done.
    eapply wp_bind_eq; [reflexivity|]. apply IH; lia.
Qed.

(** The loop over the items of a bucket acts once when the item is there. *)
Lemma items_loop_ok c A p n act a id Q : depicts c A → slot A p = Some n → NoDup (n_items n) →
  (id ∉ n_items n → Q a (c, [])) →
  (∀ k, n_items n !! k = Some id → wp (act a) (c, []) (λ a' '(c', o'), o' = [] ∧ over_with p k id (length (n_items n)) c' ∧ Q a' (c', []))) →
  wp (items_loop (Z.of_nat p) id act a) (c, []) Q.
Proof.
  intros Hd Hn Hnd HN HS. unfold items_loop. eapply wp_header_at; [done..|]. intros b Hs. destruct (shows_items p b n Hs) as [_ ->]. rewrite Nat2Z.id.
  destruct (decide (id ∈ n_items n)) as [[k Hk]%list_elem_of_lookup|Hni].
  - eapply (each_item_hit _ _ _ _ _ _ _ k _ _ Hd Hn Hnd Hk (HS k Hk) 0); lia.
  - eapply (each_item_skip _ _ _ _ _ _ _ _ Hd Hn 0); [done|lia|by apply HN].
Qed.

Lemma each_bucket_ok (P : nat → B → crush_wrapper → list (option node) → Prop) (body : Z → B → M store B) N :
  (∀ i a c A, P i a c A → length A = N) →
  (∀ i a c A, (i < N)%nat → depicts c A → P i a c A → slot A i = None → P (S i) a c A) →
  (∀ i a c A n, (i < N)%nat → depicts c A → P i a c A → slot A i = Some n →
     wp (body (Z.of_nat i) a) (c, []) (λ a' '(c', o'), o' = [] ∧ ∃ A', depicts c' A' ∧ P (S i) a' c' A')) →
  ∀ m i a c A, (i + m = N)%nat → depicts c A → P i a c A →
  wp (each_bucket m (Z.of_nat i) body a) (c, []) (λ a' '(c', o'), o' = [] ∧ ∃ A', depicts c' A' ∧ P N a' c' A').
Proof.
  intros Hlen HN HS. induction m as [|m IH]; intros i a c A Hi Hd HP; cbn [each_bucket].
  { rewrite Nat.add_0_r in Hi. subst i. apply wp_ret. split; [done|]. by exists A. }
  pose proof (Hlen _ _ _ _ HP) as HlA. eapply wp_bind_eq; [unfold look; rewrite (depicts_rdp c A i Hd) by lia; reflexivity|].
  replace (Z.of_nat i + 1) with (Z.of_nat (S i)) by lia. destruct (slot A i) as [n|] eqn:En.
  - destruct (dp_some c A Hd i n En) as (b & -> & _). eapply wp_bind_mono; [eapply HS; [lia|done..]|]. intros a' [c' o'] (-> & A' & Hd' & HP').
    eapply IH; [lia|done..].
  - rewrite (dp_none c A Hd i En). eapply wp_bind_eq; [reflexivity|]. eapply IH; [lia|done|apply HN; [lia|done..]].
Qed.

Lemma buckets_loop_ok (P : nat → B → crush_wrapper → list (option node) → Prop) (body : Z → B → M store B) c A a :
  (∀ i a c A', P i a c A' → length A' = length A) →
  (∀ i a c A', (i < length A)%nat → depicts c A' → P i a c A' → slot A' i = None → P (S i) a c A') →
  (∀ i a c A' n, (i < length A)%nat → depicts c A' → P i a c A' → slot A' i = Some n →
     wp (body (Z.of_nat i) a) (c, []) (λ a' '(c', o'), o' = [] ∧ ∃ A'', depicts c' A'' ∧ P (S i) a' c' A'')) →
  depicts c A → P 0%nat a c A →
  wp (buckets_loop body a) (c, []) (λ a' '(c', o'), o' = [] ∧ ∃ A', depicts c' A' ∧ P (length A) a' c' A').
Proof.
  intros Hlen HN HS Hd HP. unfold buckets_loop. eapply wp_bind_eq; [reflexivity|]. cbv beta. cbn [fst].
  pose proof Hd as [[Hm _] Hl _ _]. rewrite Hm, Nat2Z.id, <- Hl. by eapply (each_bucket_ok P body (length A) Hlen HN HS (length A) 0).
Qed.
End loops.

(** ** The weights of the buckets above *)

Definition full A : Prop := ∀ p n, slot A p = Some n → length (n_weights n) = length (n_items n) ∧ Forall is_u32 (n_weights n).

Lemma depicts_full c A : depicts c A → full A.
Proof. intros Hd p n. by apply (depicts_lengths c A p n). Qed.

(** The weights of the items in [S] are what they were. *)
Definition kept (S : Z → Prop) A A' : Prop := ∀ p k i v, S i → cell A p k i v → cell A' p k i v.
(** No weight has grown. *)
Definition lighter A' A : Prop := ∀ p k i v', cell A' p k i v' → ∃ v, cell A p k i v ∧ v' <= v.

Lemma kept_refl S A : kept S A A.
Proof. by intros p k i v. Qed.
Lemma kept_trans S A1 A2 A3 : kept S A1 A2 → kept S A2 A3 → kept S A1 A3.
Proof. intros H1 H2 p k i v HS Hc. by apply H2, H1. Qed.
Lemma kept_weaken (S S' : Z → Prop) A A' : (∀ i, S' i → S i) → kept S A A' → kept S' A A'.
Proof. intros H HK p k i v HS. by apply HK, H. Qed.
Lemma lighter_refl A : lighter A A.
Proof. intros p k i v Hc. by exists v. Qed.
Lemma lighter_trans A1 A2 A3 : lighter A1 A2 → lighter A2 A3 → lighter A1 A3.
Proof. intros H1 H2 p k i v Hc. destruct (H1 _ _ _ _ Hc) as (v2 & Hc2 & ?). destruct (H2 _ _ _ _ Hc2) as (v3 & Hc3 & ?). exists v3. split; [done|lia]. Qed.

Lemma cell_fun A p k i v i' v' : cell A p k i v → cell A p k i' v' → i' = i ∧ v' = v.
Proof. intros (n & Hn & Hi & Hv) (n' & Hn' & Hi' & Hv'). split; congruence. Qed.
Lemma cell_full A p n k i : full A → slot A p = Some n → n_items n !! k = Some i → ∃ v, n_weights n !! k = Some v ∧ cell A p k i v.
Proof.
  intros Hf Hn Hi. destruct (Hf p n Hn) as [Hl _]. destruct (lookup_lt_is_Some_2 (n_weights n) k) as [v Hv]; [rewrite Hl; by eapply lookup_lt_Some|].
  exists v. split; [done|]. by exists n.
Qed.
Lemma cell_moved A A' p k i v : shape A' = shape A → full A' → cell A p k i v → ∃ v', cell A' p k i v'.
Proof.
  intros Hs Hf (n & Hn & Hi & _). destruct (shape_some A A' p n Hs Hn) as (n' & Hn' & _ & Ei). rewrite <- Ei in Hi.
  destruct (cell_full A' p n' k i Hf Hn' Hi) as (v' & _ & Hc). by exists v'.
Qed.
(** In maps of one shape, what is kept holds in both directions. *)
Lemma kept_back S A A' p k i v : shape A' = shape A → full A → kept S A A' → S i → cell A' p k i v → cell A p k i v.
Proof.
  intros Hs Hf HK HS Hc. destruct (cell_moved A' A p k i v (eq_sym Hs) Hf Hc) as [v0 Hc0].
  destruct (cell_fun _ _ _ _ _ _ _ Hc (HK _ _ _ _ HS Hc0)) as [_ <-]. done.
Qed.

Lemma cell_typed T A p k i v : typed T A → cell A p k i v → ∃ n, slot A p = Some n ∧ level A i < n_type n ∧ n_type n <= T.
Proof.
  intros Ht (n & Hn & Hi & _). exists n. destruct (Ht p n Hn) as ([_ HT] & _ & H). split; [done|]. split; [|done].
  apply H. by eapply list_elem_of_lookup_2.
Qed.

Lemma level_bucket A i n : i < 0 → slot A (bucket_pos i) = Some n → level A i = n_type n.
Proof. intros Hi Hn. unfold level. rewrite (proj2 (Z.leb_gt 0 i)) by done. by rewrite Hn. Qed.
Lemma bucket_pos_of p : bucket_pos (-1 - Z.of_nat p) = p.
Proof. unfold bucket_pos. lia. Qed.
Lemma level_pos A p n : slot A p = Some n → level A (-1 - Z.of_nat p) = n_type n.
Proof. intros Hn. apply level_bucket; [lia|]. by rewrite bucket_pos_of. Qed.
Lemma level_le T A i : 0 <= T → typed T A → level A i <= T.
Proof.
  intros HT Ht. unfold level. destruct (0 <=? i); [done|]. destruct (slot A _) as [n|] eqn:E; [|done]. apply (Ht _ n E).
Qed.

(** The weights of a bucket are those of its items. *)
Lemma weights_kept (S : Z → Prop) A A' p n n' : shape A' = shape A → full A → full A' → kept S A A' → (∀ i, i ∈ n_items n → S i) →
  slot A p = Some n → slot A' p = Some n' → n_weights n' = n_weights n.
Proof.
  intros Hs Hf Hf' HK HS Hn Hn'. destruct (shape_some A A' p n Hs Hn) as (m & Hm & _ & Ei). rewrite Hn' in Hm. injection Hm as <-.
  destruct (Hf p n Hn) as [Hl _], (Hf' p n' Hn') as [Hl' _]. apply list_eq_same_length with (n := length (n_items n)); [congruence..|].
  intros k v' v _ Hv' Hv. destruct (lookup_lt_is_Some_2 (n_items n) k) as [i Hi]; [rewrite <- Hl; by eapply lookup_lt_Some|].
  assert (cell A p k i v) as Hc by by exists n. apply (HK _ _ _ _ (HS i (list_elem_of_lookup_2 _ _ _ Hi))) in Hc as (n2 & Hn2 & _ & Hv2). congruence.
Qed.

Lemma weight_of_kept T (S : Z → Prop) A A' i : typed T A → shape A' = shape A → full A → full A' → kept S A A' →
  i < 0 → (∀ j, level A j < level A i → S j) → weight_of A' i = weight_of A i.
Proof.
  intros Ht Hs Hf Hf' HK Hi HS. unfold weight_of. destruct (slot A (bucket_pos i)) as [n|] eqn:Hn.
  - destruct (shape_some A A' _ n Hs Hn) as (n' & Hn' & _). rewrite Hn'. simpl. f_equal. f_equal.
    eapply (weights_kept S); [done..| |done|done]. intros j Hj. apply HS. rewrite (level_bucket A i n Hi Hn). by apply (Ht _ n Hn).
  - destruct (slot A' (bucket_pos i)) as [n'|] eqn:Hn'; [|done]. destruct (shape_some A' A _ n' (eq_sym Hs) Hn') as (? & ? & _). congruence.
Qed.

Lemma list_sum_le l l' : Forall2 Z.le l l' → sum_list_Z l <= sum_list_Z l'.
Proof. induction 1; simpl; lia. Qed.

Lemma lighter_sum A A' p n n' : shape A' = shape A → full A → full A' → lighter A' A → slot A p = Some n → slot A' p = Some n' →
  sum_list_Z (n_weights n') <= sum_list_Z (n_weights n).
Proof.
  intros Hs Hf Hf' HL Hn Hn'. destruct (shape_some A A' p n Hs Hn) as (m & Hm & _ & Ei). rewrite Hn' in Hm. injection Hm as <-.
  destruct (Hf p n Hn) as [Hl _], (Hf' p n' Hn') as [Hl' _]. apply list_sum_le, Forall2_same_length_lookup_2; [congruence|].
  intros k v' v Hv' Hv. destruct (lookup_lt_is_Some_2 (n_items n') k) as [i Hi]; [rewrite <- Hl'; by eapply lookup_lt_Some|].
  destruct (HL p k i v') as (v2 & (n2 & Hn2 & _ & Hv2) & Hle); [by exists n'|]. congruence.
Qed.
Lemma lighter_light A A' : shape A' = shape A → full A → full A' → lighter A' A → light A → light A'.
Proof.
  intros Hs Hf Hf' HL Hli p n' Hn'. destruct (shape_some A' A p n' (eq_sym Hs) Hn') as (n & Hn & _).
  eapply Z.le_lt_trans; [by eapply lighter_sum|by eapply Hli].
Qed.

(** *** One weight is replaced *)

Section reweigh.
Context (A : list (option node)) (p : nat) (n : node) (k : nat) (id w : Z).
Context (Hn : slot A p = Some n) (Hk : n_items n !! k = Some id) (Hw : is_u32 w) (Hfull : full A).
Let A' := reweighed A p n k w.

Lemma cell_reweighed q j i v : cell A' q j i v ↔ (q = p ∧ j = k ∧ i = id ∧ v = w) ∨ ((q ≠ p ∨ j ≠ k) ∧ cell A q j i v).
Proof using Hn Hk Hfull.
  destruct (cell_full A p n k id Hfull Hn Hk) as (v0 & Hv0 & _). unfold cell, A'. setoid_rewrite (slot_reweighed A p n k w q Hn).
  destruct (decide (q = p)) as [->|Hne]; [|split; [intros Hc; right; split; [by left|done]|intros [(? & _)|[_ Hc]]; done]]. split.
  - intros (n' & [= <-] & Hi & Hv). cbn [n_items n_weights] in Hi, Hv. destruct (decide (j = k)) as [->|Hj].
    + left. rewrite list_lookup_insert_eq in Hv by (by eapply lookup_lt_Some). repeat split; congruence.
    + right. rewrite list_lookup_insert_ne in Hv by done. split; [by right|]. by exists n.
  - intros [(_ & -> & -> & ->)|[[?|Hj] (n' & Hn' & Hi & Hv)]]; [|done|]; (eexists; split; [done|]); cbn [n_items n_weights].
    + split; [done|]. apply list_lookup_insert_eq. by eapply lookup_lt_Some.
    + replace n' with n in * by congruence. split; [done|]. by rewrite list_lookup_insert_ne.
Qed.

Lemma full_reweighed : full A'.
Proof using Hn Hw Hfull.
  intros q m. unfold A'. rewrite (slot_reweighed A p n k w q Hn). case_decide as E; [|apply Hfull].
  intros [= <-]. destruct (Hfull p n Hn) as [Hl Hu]. cbn [n_items n_weights]. rewrite length_insert. split; [done|]. by apply Forall_insert.
Qed.

Lemma weight_of_reweighed i : i < 0 → i ≠ -1 - Z.of_nat p → weight_of A' i = weight_of A i.
Proof using Hn. intros Hi Hne. unfold weight_of, A'. rewrite (slot_reweighed A p n k w _ Hn). case_decide as E; [unfold bucket_pos in E; lia|done]. Qed.

Lemma weight_of_here : weight_of A' (-1 - Z.of_nat p) = Some (sum_u32 (<[k := w]> (n_weights n))).
Proof using Hn. unfold weight_of, A'. rewrite bucket_pos_of, (slot_reweighed A p n k w _ Hn). by rewrite decide_True by done. Qed.

(** The bucket [p] no longer agrees, and the item is not to be looked at yet. *)
Lemma agree_reweighed (ex : Z → Prop) : agree (λ j, j = id ∨ ex j) A → agree (λ j, j = -1 - Z.of_nat p ∨ j = id ∨ ex j) A'.
Proof using Hn Hk Hfull.
  intros Ha q j i v Hc Hi Hex. apply cell_reweighed in Hc as [(-> & -> & -> & ->)|[_ Hc]]; [tauto|].
  rewrite weight_of_reweighed by tauto. eapply Ha; [done..|tauto].
Qed.

Lemma kept_reweighed : kept (λ j, j ≠ id) A A'.
Proof using Hn Hk Hfull.
  intros q j i v Hi Hc. apply cell_reweighed. destruct (decide (q = p ∧ j = k)) as [[-> ->]|Hne].
  - destruct Hc as (m & Hm & Hi' & _). congruence.
  - right. split; [|done]. destruct (decide (q = p)); [right; intros ->; tauto|by left].
Qed.

Lemma lighter_reweighed : (∀ v, cell A p k id v → w <= v) → lighter A' A.
Proof using Hn Hk Hfull.
  intros Hle q j i v. intros [(-> & -> & -> & ->)|[_ Hc]]%cell_reweighed; [|by exists v].
  destruct (cell_full A p n k id Hfull Hn Hk) as (v0 & _ & Hc0). exists v0. split; [done|by apply Hle].
Qed.
End reweigh.

(** What an edit of the weight of [id] comes to. *)
Record settled c A id w (ex : Z → Prop) c' A' : Prop := {
  st_rebuilt : rebuilt c c';
  st_depicts : depicts c' A';
  st_shape : shape A' = shape A;
  st_agree : agree ex A';
  st_set : ∀ p k v, cell A' p k id v → v = w;
  st_kept : kept (λ j, j ≠ id ∧ level A j <= level A id) A A';
  st_lighter : light A → (∀ p k v, cell A p k id v → w <= v) → lighter A' A }.

(** The buckets that hold an item. *)
Definition holds_id id (x : option node) : bool := match x with Some n => bool_decide (id ∈ n_items n) | None => false end.
Definition holders id A : Z := Z.of_nat (length (List.filter (holds_id id) A)).

Lemma holders_take A i x : A !! i = Some x → ∀ id, holders id (take (S i) A) = holders id (take i A) + (if holds_id id x then 1 else 0).
Proof. intros Hx id. unfold holders. rewrite (take_S_r _ _ _ Hx), List.filter_app, length_app. simpl. destruct (holds_id id x); simpl; lia. Qed.
Lemma slot_lookup {X} (a : list (option X)) p : (p < length a)%nat → a !! p = Some (slot a p).
Proof. intros [x Hx]%lookup_lt_is_Some_2. unfold slot. by rewrite Hx. Qed.

Section adjust.
Context (pow : double → double → double) (T : Z).
Implicit Types (ex : Z → Prop).

(** [rec] settles the weight of an item that is above [bound]. *)
Definition settles (rec : Z → Z → M store Z) (bound : Z) : Prop := ∀ c A ex id w,
  depicts c A → typed T A → (∀ j, ex j → level A j < level A id) → agree (λ j, j = id ∨ ex j) A →
  (id < 0 → weight_of A id = Some (u32 w)) → bound < level A id →
  wp (rec id w) (c, []) (λ r '(c', o'), o' = [] ∧ r = (if holders id A =? 0 then - ENOENT else holders id A) ∧ ∃ A', settled c A id (u32 w) ex c' A').

(** One place of [id] is given its weight, and the buckets above theirs. *)
Record placed c A id w ex p k c' A' : Prop := {
  pl_rebuilt : rebuilt c c';
  pl_depicts : depicts c' A';
  pl_shape : shape A' = shape A;
  pl_agree : agree (λ j, j = id ∨ ex j) A';
  pl_set : cell A' p k id w;
  pl_rest : ∀ q j v, q ≠ p ∨ j ≠ k → cell A q j id v → cell A' q j id v;
  pl_kept : kept (λ j, j ≠ id ∧ level A j <= level A id) A A';
  pl_lighter : light A → (∀ v, cell A p k id v → w <= v) → lighter A' A }.

Section step.
Context (c : crush_wrapper) (A : list (option node)) (ex : Z → Prop) (id w : Z) (p : nat) (n : node) (k : nat).
Context (Hd : depicts c A) (Ht : typed T A) (Hex : ∀ j, ex j → level A j < level A id) (Ha : agree (λ j, j = id ∨ ex j) A).
Context (Hn : slot A p = Some n) (Hk : n_items n !! k = Some id).
Let up : Z := -1 - Z.of_nat p.

Lemma above : level A id < level A up.
Proof using Ht Hn Hk. unfold up. rewrite (level_pos A p n Hn). apply (Ht p n Hn). by eapply list_elem_of_lookup_2. Qed.

Lemma up_cell q j v : cell A q j up v → v = sum_u32 (n_weights n).
Proof using Ht Hex Ha Hn Hk.
  intros Hc. pose proof above as Hab. assert (weight_of A up = Some v) as E.
  { eapply Ha; [done|unfold up; lia|]. intros [E|E]; [rewrite E in Hab; lia|apply Hex in E; lia]. }
  unfold weight_of, up in E. rewrite bucket_pos_of, Hn in E. by injection E.
Qed.

Lemma placed_settled c1 c' A' : let A1 := reweighed A p n k (u32 w) in
  rebuilt c c1 → depicts c1 A1 → settled c1 A1 up (sum_u32 (<[k := u32 w]> (n_weights n))) (λ j, j = id ∨ ex j) c' A' → placed c A id (u32 w) ex p k c' A'.
Proof using Hd Ht Hex Ha Hn Hk.
  intros A1 Hr Hd1 [Hr' Hd' Hs' Ha' Hset' Hk' Hl']. pose proof (depicts_full _ _ Hd) as Hf. pose proof (depicts_full _ _ Hd1) as Hf1.
  pose proof (shape_reweighed A p n k (u32 w) Hn) as Hs1. pose proof above as Hab.
  assert (∀ j, level A1 j = level A j) as Hh by (intros j; by apply shape_level).
  assert (id ≠ up) as Hne by (intros E; rewrite <- E in Hab; lia).
  assert (∀ q j i v, i ≠ up → level A i <= level A up → cell A1 q j i v → cell A' q j i v) as Hup.
  { intros q j i v Hi Hle. apply Hk'. rewrite !Hh. by split. }
  constructor; [by eapply rebuilt_trans|done|by rewrite Hs'|done| | | |].
  - apply Hup; [done|lia|]. apply (proj2 (cell_reweighed A p n k id (u32 w) Hn Hk Hf p k id (u32 w))). by left.
  - intros q j v Hqj Hc. apply Hup; [done|lia|]. apply (proj2 (cell_reweighed A p n k id (u32 w) Hn Hk Hf q j id v)). by right.
  - intros q j i v [Hi Hle] Hc. apply Hup; [intros E; rewrite E in Hle; lia|lia|]. by apply (kept_reweighed A p n k id (u32 w) Hn Hk Hf).
  - intros Hli Hle. assert (lighter A1 A) as HL1 by (apply (lighter_reweighed A p n k id (u32 w)); done).
    eapply lighter_trans; [|exact HL1]. pose proof (lighter_light A A1 Hs1 Hf Hf1 HL1 Hli) as Hli1. apply Hl'; [done|].
    intros q j v Hc. eapply kept_back in Hc; [|exact Hs1|done|exact (kept_reweighed A p n k id (u32 w) Hn Hk Hf)|done].
    rewrite (up_cell _ _ _ Hc).
    pose proof (slot_reweighed A p n k (u32 w) p Hn) as Hn1. rewrite decide_True in Hn1 by done. fold A1 in Hn1.
    destruct (Hf p n Hn) as [_ Hu], (Hf1 p _ Hn1) as [_ Hu1]. cbn [n_weights] in Hu1.
    rewrite !sum_u32_small; [|done|by apply (Hli p)|done|by apply (Hli1 p _ Hn1)].
    by apply (lighter_sum A A1 p n _ Hs1 Hf Hf1 HL1 Hn Hn1).
Qed.

Lemma place_weight_ok {R} rec (K : M store R) Q : settles rec (level A id) →
  (∀ c' A', placed c A id (u32 w) ex p k c' A' → wp K (c', []) Q) →
  wp (_ ← adjust_at pow (Z.of_nat p) id w; h ← header_at (Z.of_nat p); _ ← rec up (s32 (b_weight h)); K) (c, []) Q.
Proof using Hd Ht Hex Ha Hn Hk.
  intros Hrec HK. pose proof (shape_reweighed A p n k (u32 w) Hn) as Hs1. pose proof above as Hab.
  eapply wp_bind_mono; [apply (adjust_at_ok pow c A p n k id w Hd Hn); [apply (Ht p n Hn)|done]|]. intros _ [c1 o1] (-> & Hr & Hd1).
  pose proof (slot_reweighed A p n k (u32 w) p Hn) as Hn1. rewrite decide_True in Hn1 by done.
  eapply wp_header_at; [exact Hd1|exact Hn1|]. intros b Hb. rewrite (shows_weight _ _ _ Hb). cbn [n_weights].
  eapply wp_bind_mono; [apply (Hrec c1 (reweighed A p n k (u32 w)) (λ j, j = id ∨ ex j))|].
  - done.
  - by eapply shape_typed.
  - intros j. rewrite !(shape_level _ _ _ Hs1). intros [->|Hj]; [done|]. apply Hex in Hj. lia.
  - apply agree_reweighed; [done..|by eapply depicts_full|done].
  - intros _. unfold up. rewrite weight_of_here by done. by rewrite u32_s32, (u32_small (sum_u32 _)) by apply sum_u32_range.
  - by rewrite (shape_level _ _ _ Hs1).
  - intros r [c' o'] (-> & _ & A' & Hst). apply (HK c' A').
    rewrite u32_s32, (u32_small (sum_u32 _)) in Hst by apply sum_u32_range. by eapply placed_settled.
Qed.
End step.

(** The loop over the buckets, before bucket [i]. *)
Record half c A id w ex i (a : Z) c' A' : Prop := {
  hf_count : a = holders id (take i A);
  hf_rebuilt : rebuilt c c';
  hf_shape : shape A' = shape A;
  hf_agree : agree (λ j, j = id ∨ ex j) A';
  hf_done : ∀ p k v, (p < i)%nat → cell A' p k id v → v = w;
  hf_rest : ∀ p k v, (i <= p)%nat → cell A p k id v → cell A' p k id v;
  hf_kept : kept (λ j, j ≠ id ∧ level A j <= level A id) A A';
  hf_lighter : light A → (∀ p k v, cell A p k id v → w <= v) → lighter A' A }.

Lemma shape_length A A' : shape A' = shape A → length A' = length A.
Proof. intros H. apply (f_equal length) in H. unfold shape in H. by rewrite !length_fmap in H. Qed.

Lemma half_none c A id w ex i a c' A' : (i < length A)%nat → ¬ (∃ n, slot A' i = Some n ∧ id ∈ n_items n) →
  half c A id w ex i a c' A' → half c A id w ex (S i) a c' A'.
Proof.
  intros Hi Hno [Hc Hr Hs Ha Hd Hre Hk Hl]. constructor; try done.
  - rewrite Hc, (holders_take A i _ (slot_lookup A i Hi)). destruct (holds_id id (slot A i)) eqn:E; [|lia]. destruct Hno. unfold holds_id in E.
    destruct (slot A i) as [n|] eqn:En; [|done]. apply bool_decide_eq_true in E. destruct (shape_some A A' i n Hs En) as (n' & Hn' & _ & Ei).
    exists n'. by rewrite Ei.
  - intros p k v Hp Hcell. destruct (decide (p = i)) as [->|]; [|apply (Hd p k); [lia|done]]. destruct Hno, Hcell as (n & Hn & Hk' & _).
    exists n. split; [done|]. by eapply list_elem_of_lookup_2.
  - intros p k v Hp. apply Hre. lia.
Qed.

Lemma half_placed c A id w ex i a c1 A1 n k c' A' : (i < length A)%nat → full A → full A1 → typed T A1 →
  half c A id w ex i a c1 A1 → slot A1 i = Some n → n_items n !! k = Some id → placed c1 A1 id w ex i k c' A' →
  half c A id w ex (S i) (a + 1) c' A'.
Proof.
  intros Hi Hf Hf1 Ht [Hc Hr Hs Ha Hd Hre Hk Hl] Hn Hid [Pr Pd Ps Pa Pset Prest Pk Pl].
  assert (∀ q j v, cell A1 q j id v → q = i → j = k) as Honly.
  { intros q j v (m & Hm & Hj & _) ->. replace m with n in * by congruence. destruct (Ht i n Hn) as (_ & Hnd & _). by eapply NoDup_lookup. }
  assert (∀ q j v, cell A' q j id v → (q = i ∧ v = w) ∨ (q ≠ i ∧ cell A1 q j id v)) as Hback.
  { intros q j v Hcell. destruct (cell_moved A' A1 q j id v (eq_sym Ps) Hf1 Hcell) as [v1 Hc1]. destruct (decide (q = i)) as [->|Hne].
    - left. split; [done|]. rewrite (Honly _ _ _ Hc1 eq_refl) in Hcell. by destruct (cell_fun _ _ _ _ _ _ _ Hcell Pset) as [_ ->].
    - right. split; [done|]. destruct (cell_fun _ _ _ _ _ _ _ Hcell (Prest _ _ _ (or_introl Hne) Hc1)) as [_ ->]. done. }
  assert (∀ j, level A1 j = level A j) as Hh by (intros j; by apply shape_level).
  constructor.
  - rewrite Hc, (holders_take A i _ (slot_lookup A i Hi)). destruct (shape_some A1 A i n (eq_sym Hs) Hn) as (n0 & -> & _ & Ei). unfold holds_id.
    rewrite bool_decide_eq_true_2; [done|]. rewrite Ei. by eapply list_elem_of_lookup_2.
  - by eapply rebuilt_trans.
  - congruence.
  - done.
  - intros q j v Hq [[_ ->]|[Hne Hcell]]%Hback; [done|]. apply (Hd q j); [lia|done].
  - intros q j v Hq Hcell. apply Prest; [left; lia|]. apply Hre; [lia|done].
  - eapply kept_trans; [exact Hk|]. eapply kept_weaken; [|exact Pk]. intros j. by rewrite !Hh.
  - intros Hli Hle. specialize (Hl Hli Hle). eapply lighter_trans; [|exact Hl]. apply Pl; [by eapply lighter_light|].
    intros v Hcell. destruct (cell_moved A1 A i k id v (eq_sym Hs) Hf Hcell) as [v0 Hc0].
    destruct (cell_fun _ _ _ _ _ _ _ Hcell (Hre _ _ _ (Nat.le_refl i) Hc0)) as [_ ->]. by eapply Hle.
Qed.

Lemma half_start c A id w ex : agree (λ j, j = id ∨ ex j) A → half c A id w ex 0 0 c A.
Proof. intros Ha. constructor; try done; [apply rebuilt_refl|by intros ? ? ? ?%Nat.nlt_0_r|apply kept_refl|intros _ _; apply lighter_refl]. Qed.

Lemma half_end c A id w ex a c' A' : typed T A → full A → depicts c' A' → (id < 0 → weight_of A id = Some w) →
  half c A id w ex (length A) a c' A' → a = holders id A ∧ settled c A id w ex c' A'.
Proof.
  intros Ht Hf Hd' Hw [Hc Hr Hs Ha Hd Hre Hk Hl]. pose proof (depicts_full _ _ Hd') as Hf'. split; [by rewrite Hc, firstn_all|].
  assert (∀ p k v, cell A' p k id v → v = w) as Hset.
  { intros p k v Hcell. apply (Hd p k); [|done]. destruct Hcell as (n & Hn & _). rewrite <- (shape_length A A' Hs). by eapply slot_lt. }
  constructor; try done. intros p k i v Hcell Hi Hex. destruct (decide (i = id)) as [->|Hne]; [|eapply Ha; [done..|tauto]].
  rewrite (Hset _ _ _ Hcell), <- (Hw Hi). eapply (weight_of_kept T); [done..|]. simpl. intros j Hj. split; [intros ->|]; lia.
Qed.

Lemma adjust_ok fuel : 0 <= T → settles (adjust_item_weight pow fuel) (T - Z.of_nat fuel).
Proof.
  intros HT. induction fuel as [|fuel IH]; intros c A ex id w Hd Ht Hex Ha Hw Hb; [pose proof (level_le T A id HT Ht); lia|].
  cbn [adjust_item_weight]. pose proof (depicts_full _ _ Hd) as Hf.
  eapply wp_bind_mono; [apply (buckets_loop_ok (half c A id (u32 w) ex) _ c A 0)|].
  - intros i a c' A' Hh. apply shape_length, Hh.
  - intros i a c' A' Hi Hd' Hh Hno. apply half_none; [done| |done]. intros (n & Hn & _). congruence.
  - intros i a c' A' n Hi Hd' Hh Hn. pose proof (shape_typed T A A' (hf_shape _ _ _ _ _ _ _ _ _ Hh) Ht) as Ht'. pose proof (depicts_full _ _ Hd') as Hf'.
    assert (∀ j, level A' j = level A j) as Hhe by (intros j; apply shape_level, Hh).
    apply (items_loop_ok c' A' i n _ _ _ _ Hd' Hn); [apply (Ht' i n Hn)| |].
    + intros Hni. split; [done|]. exists A'. split; [done|]. apply half_none; [done| |done]. intros (m & Hm & Hin). congruence.
    + intros k Hk. eapply (place_weight_ok c' A' ex id w i n k Hd' Ht'); [by intros j; rewrite !Hhe; apply Hex|apply Hh|done..| |].
      { intros c2 A2 ex2 id2 w2 ? ? ? ? ? Hb2. apply IH; [done..|]. rewrite Hhe in Hb2. lia. }
      intros c2 A2 Hp. apply wp_ret. pose proof Hp as [_ Pd Ps _ _ _ _ _]. destruct (shape_some A' A2 i n Ps Hn) as (n2 & Hn2 & _ & Ei).
      destruct (Ht' i n Hn) as (_ & Hnd & _). split; [done|]. split.
      * exists A2, n2. rewrite Ei. split; [done|]. split; [done|]. split; [|lia]. intros (j & Hj)%list_elem_of_lookup.
        rewrite lookup_drop in Hj. pose proof (NoDup_lookup _ _ _ _ Hnd Hk Hj). lia.
      * split; [done|]. exists A2. split; [done|]. by eapply half_placed.
  - done.
  - by apply half_start.
  - intros a [c' o'] (-> & A' & Hd' & Hh). apply half_end in Hh as [-> Hst]; [|done..]. apply wp_ret. split; [done|]. split; [done|]. by exists A'.
Qed.
End adjust.

(** ** The property *)

(** C25: In a map of straw and straw2 buckets only, with the items of a bucket
    distinct, present and of lower types than it, when no allocation fails, and the weights
    agree except perhaps for the item: changing the weight of an item (a bucket that
    has this weight already, or a device) gives every instance of it the new weight,
    and then every bucket the weight that its items sum up to, in all buckets above,
    so that the whole map agrees again; the items of the buckets, and the weights of
    all items that are not above the changed one, are what they were.  The number of
    buckets that hold the item is answered, or [-ENOENT] when there is none. *)
Theorem adjust_item_weight_carries pow T fuel c A id w :
  depicts c A → typed T A → agree (λ j, j = id) A → (id < 0 → weight_of A id = Some (u32 w)) → 0 <= T < Z.of_nat fuel →
  wp (adjust_item_weight pow fuel id w) (c, []) (λ r '(c', o'), o' = [] ∧ rebuilt c c' ∧
    r = (if holders id A =? 0 then - ENOENT else holders id A) ∧
    ∃ A', depicts c' A' ∧ shape A' = shape A ∧ agree (λ _, False) A' ∧ (∀ p k v, cell A' p k id v → v = u32 w) ∧
      kept (λ j, j ≠ id ∧ level A j <= level A id) A A').
Proof.
  intros Hd Ht Ha Hw HT. eapply wp_mono; [apply (adjust_ok pow T fuel ltac:(lia) c A (λ _, False) id w Hd Ht)|].
  - done.
  - intros p k i v Hc Hi Hne. eapply Ha; [done..|]. intros ->. apply Hne. by left.
  - done.
  - assert (0 <= level A id); [|lia]. unfold level. destruct (0 <=? id); [done|]. destruct (slot A _) as [n|] eqn:E; [|done].
    destruct (Ht _ n E) as [? _]. simpl. lia.
  - intros r [c' o'] (-> & -> & A' & [Hr Hd' Hs Ha' Hset Hk _]). split; [done|]. split; [done|]. split; [done|]. by exists A'.
Qed.

(** *** A map of two hosts under a root *)

Definition sample_picture : list (option node) :=
  [Some (Node 2 [-2; -3] [65536; 65536]); Some (Node 1 [0] [65536]); Some (Node 1 [1] [65536]); None].

Lemma straw2_shows p t l ws perm : 0 < Z.of_nat (length l) < 65535 → length ws = length l → length perm = length l → Forall is_u32 ws →
  shows p (BStraw2 (CrushBucketStraw2 (CrushBucket (-1 - Z.of_nat p) t 0 (sum_u32 ws) (Z.of_nat (length l)) (cells l) 0 0 perm) (cells ws))) (Node t l ws).
Proof.
  intros Hl Hw Hp Hf. split; [|done]. split; [|split; [done|split; [done|split; [done|]]]].
  - split; [apply holds_cells|]. split; [done|]. split; [cbn; lia|]. right. split; [cbn; lia|]. split; [|by left]. cbn -[Z.to_nat]. rewrite Nat2Z.id, Hp. lia.
  - split; [apply holds_cells|]. split; [apply holds_cells|]. done.
Qed.

Lemma sample_depicts : depicts sample_names sample_picture.
Proof.
  constructor; [by split|done| |]; intros p; destruct p as [|[|[|[|p]]]]; try done; intros n [= <-].
  - exists two_host_root. split; [done|]. apply (straw2_shows 0 2 [-2; -3] [65536; 65536] [None; None]); [simpl; lia|done|done|by repeat constructor].
  - exists (one_device_host (-2) 0 65536). split; [done|]. apply (straw2_shows 1 1 [0] [65536] [None]); [simpl; lia|done|done|by repeat constructor].
  - exists (one_device_host (-3) 1 65536). split; [done|]. apply (straw2_shows 2 1 [1] [65536] [None]); [simpl; lia|done|done|by repeat constructor].
Qed.

Lemma sample_typed : typed 2 sample_picture.
Proof.
  intros p n. destruct p as [|[|[|[|p]]]]; try done; intros [= <-]; (split; [done|]); (split; [apply (bool_decide_unpack _); by vm_compute|]); simpl;
    intros i Hi; repeat (apply elem_of_cons in Hi as [->|Hi]; [by split_and!; try (intros ?; eexists)|]); by apply elem_of_nil in Hi.
Qed.

Lemma sample_agree ex : agree ex sample_picture.
Proof.
  intros p k i v (n & Hn & Hi & Hv) Hneg _. destruct p as [|[|[|[|p]]]]; try done; injection Hn as <-; simpl in *.
  - destruct k as [|[|k]]; simplify_eq/=; by vm_compute.
  - destruct k as [|k]; by simplify_eq/=.
  - destruct k as [|k]; by simplify_eq/=.
Qed.

Lemma adjust_item_weight_carries_witness : wp (adjust_item_weight (λ x _, x) 3 0 100) (sample_names, []) (λ r '(c', o'), o' = [] ∧ rebuilt sample_names c' ∧
    r = (if holders 0 sample_picture =? 0 then - ENOENT else holders 0 sample_picture) ∧
    ∃ A', depicts c' A' ∧ shape A' = shape sample_picture ∧ agree (λ _, False) A' ∧ (∀ p k v, cell A' p k 0 v → v = u32 100) ∧
      kept (λ j, j ≠ 0 ∧ level sample_picture j <= level sample_picture 0) sample_picture A').
Proof.
  apply (adjust_item_weight_carries (λ x _, x) 2 3 sample_names sample_picture 0 100); [apply sample_depicts|apply sample_typed|apply sample_agree|done|done].
Defined.

Example sample_adjusted : ∃ c, adjust_item_weight (λ x _, x) 3 0 100 (sample_names, []) = Ok (1, (c, [])) ∧
  (λ b, b_weight (bucket_h b)) <$> omap Datatypes.id (m_buckets (cw_crush c)) = [65636; 100; 65536].
Proof. eexists. split; [vm_compute; reflexivity|reflexivity]. Qed.
