(* ===== verification/CrushCutSpec.v ===== *)
(** * Items taken out of an edited CRUSH map

    Beside the item that is taken out, the map is what it was: the items of
    every bucket are the others, in their order, and the weights of the items
    that are not above it are kept; the buckets above have the weights that
    are left. *)

From stdpp Require Import gmap strings sorting.
From S2P Require Import Prelude Hash CrushTypes StdMap Nodes Choose ChoosePerm ChooseSpec.
From S2P Require Import Mapper MapWf CrushWrapper.
From S2P Require Import BuilderBase Builder BuilderMap MakeSpec TreeSpec StrawSpec EditBase.
From S2P Require Import AddSpec RemoveSpec BuildProps MapSpec CrushEdit CrushEditSpec.

Implicit Types (A : list (option node)) (n : node) (c : crush_wrapper) (p k : nat) (id w T : Z).

(** The type and the items of a bucket. *)
Definition sh A p : option (Z * list Z) := (λ n, (n_type n, n_items n)) <$> slot A p.
Definition strip id (x : Z * list Z) : Z * list Z := (x.1, filter (λ j, j ≠ id) x.2).

(** In bucket [p], item [i] has weight [v]. *)
Definition has A p i v : Prop := ∃ k, cell A p k i v.

Lemma filter_others (l : list Z) id : id ∉ l → filter (λ j, j ≠ id) l = l.
Proof. intros Hl. apply filter_all. by intros x Hx ->. Qed.
Lemma delete_filter (l : list Z) k id : NoDup l → l !! k = Some id → delete k l = filter (λ j, j ≠ id) l.
Proof.
  revert k. induction l as [|x l IH]; intros k Hnd Hk; [done|]. apply NoDup_cons in Hnd as [Hx Hnd]. destruct k as [|k]; simpl in *.
  - injection Hk as ->. rewrite filter_cons_False by tauto. by rewrite filter_others.
  - rewrite filter_cons_True; [by rewrite (IH k)|]. intros ->. apply Hx. by eapply list_elem_of_lookup_2.
Qed.

(** Heights rest on the types alone. *)
Definition same_types A A' : Prop := ∀ q, n_type <$> slot A' q = n_type <$> slot A q.

Lemma same_types_level A A' i : same_types A A' → level A' i = level A i.
Proof. intros H. unfold level. by rewrite H. Qed.
Lemma same_types_some A A' q : same_types A A' → is_Some (slot A q) → is_Some (slot A' q).
Proof. intros H [n Hn]. specialize (H q). rewrite Hn in H. destruct (slot A' q) as [m|]; [by exists m|done]. Qed.
Lemma shape_sh A A' q : shape A' = shape A → sh A' q = sh A q.
Proof. apply shape_slot. Qed.

(** A bucket is replaced. *)
Lemma slot_put A p n n' q : slot A p = Some n → slot (<[p := Some n']> A) q = if decide (q = p) then Some n' else slot A q.
Proof. intros Hn. case_decide as E; [subst q; apply slot_insert; by eapply slot_lt|by apply slot_insert_ne]. Qed.

(** ** One place of an item is taken out *)

Definition removed A p n k : list (option node) := <[p := Some (Node (n_type n) (delete k (n_items n)) (delete k (n_weights n)))]> A.

Section removed.
Context (T : Z) (A : list (option node)) (p : nat) (n : node) (k : nat) (id : Z).
Context (Ht : typed T A) (Hf : full A) (Hn : slot A p = Some n) (Hk : n_items n !! k = Some id).
Let A1 := removed A p n k.
Let up : Z := -1 - Z.of_nat p.

Lemma slot_removed q : slot A1 q = if decide (q = p) then Some (Node (n_type n) (delete k (n_items n)) (delete k (n_weights n))) else slot A q.
Proof using Hn. by apply (slot_put A p n). Qed.

Lemma removed_types : same_types A A1.
Proof using Hn. intros q. rewrite slot_removed. case_decide; [subst q; by rewrite Hn|done]. Qed.

Lemma sh_removed q : sh A1 q = (if decide (q = p) then strip id else Datatypes.id) <$> sh A q.
Proof using Ht Hn Hk.
  unfold sh. rewrite slot_removed. case_decide; [subst q; rewrite Hn|by destruct (slot A q)]. cbn. unfold strip. cbn.
  rewrite (delete_filter _ k id); [done|by apply (Ht p n Hn)|done].
Qed.

Lemma removed_has q i v : has A1 q i v → has A q i v ∧ ¬ (q = p ∧ i = id).
Proof using Ht Hn Hk.
  intros (j & m & Hm & Hi & Hv). rewrite slot_removed in Hm. case_decide as E; [subst q; injection Hm as <-|by split; [exists j, m|intros [? _]]].
  cbn [n_items n_weights] in Hi, Hv. split.
  - destruct (decide (j < k)%nat) as [Hlt|Hge]; [rewrite list_lookup_delete_lt in Hi, Hv by done; by exists j, n|].
    rewrite list_lookup_delete_ge in Hi, Hv by lia. by exists (S j), n.
  - intros [_ ->]. destruct (Ht p n Hn) as (_ & Hnd & _). apply list_elem_of_lookup_2 in Hi. rewrite (delete_filter _ k id Hnd Hk) in Hi.
    apply list_elem_of_filter in Hi as [? _]. done.
Qed.
Lemma removed_kept q i v : has A q i v → ¬ (q = p ∧ i = id) → has A1 q i v.
Proof using Hn Hk.
  intros (j & m & Hm & Hi & Hv) Hne. unfold has, cell. setoid_rewrite slot_removed. case_decide as E; [subst q|by exists j, m].
  replace m with n in * by congruence. assert (j ≠ k) as Hjk by (intros ->; apply Hne; split; congruence).
  destruct (decide (j < k)%nat) as [Hlt|Hge]; [exists j|exists (j - 1)%nat]; (eexists; split; [done|]); cbn [n_items n_weights].
  - by rewrite !list_lookup_delete_lt.
  - rewrite !list_lookup_delete_ge by lia. by replace (S (j - 1)) with j by lia.
Qed.

Lemma removed_typed : typed T A1.
Proof using Ht Hn.
  intros q m. rewrite slot_removed. intros Hm. assert (∃ m0, slot A q = Some m0 ∧ n_type m = n_type m0 ∧ n_items m `sublist_of` n_items m0) as (m0 & Hm0 & Et & Hsub).
  { case_decide as E; [subst q; injection Hm as <-; exists n; split; [done|]; split; [done|apply sublist_delete]|by exists m]. }
  destruct (Ht q m0 Hm0) as (H1 & H2 & H3). rewrite Et. split; [done|]. split; [by eapply sublist_NoDup|]. intros i Hi.
  destruct (H3 i) as (H4 & H5 & H6); [by eapply elem_of_sublist|]. split; [done|]. rewrite (same_types_level _ _ _ removed_types). split; [|done].
  intros Hneg. apply (same_types_some A); [apply removed_types|by apply H5].
Qed.

Lemma removed_sum v : n_weights n !! k = Some v → light A →
  sum_u32 (delete k (n_weights n)) <= sum_u32 (n_weights n) ∧ sum_list_Z (delete k (n_weights n)) < 4294967296.
Proof using Hf Hn.
  intros Hv Hl. destruct (Hf p n Hn) as [_ Hu]. pose proof (Hl p n Hn) as Hs. pose proof (sum_delete (n_weights n) k v Hv) as Hd.
  pose proof (Forall_lookup_1 _ _ _ _ Hu Hv) as [Hv0 _]. split; [|lia]. rewrite !sum_u32_small; [lia|done|done|by apply Forall_delete|lia].
Qed.
Lemma removed_light : light A → light A1.
Proof using Hf Hn Hk.
  intros Hl q m. rewrite slot_removed. case_decide as E; [|apply Hl]. intros [= <-]. destruct (cell_full A p n k id Hf Hn Hk) as (v & Hv & _).
  by apply (removed_sum v Hv Hl).
Qed.

Lemma removed_weight_of i : i < 0 → i ≠ up → weight_of A1 i = weight_of A i.
Proof using Hn. intros Hi Hne. unfold weight_of. rewrite slot_removed. case_decide as E; [unfold bucket_pos, up in *; lia|done]. Qed.
Lemma removed_here : weight_of A1 up = Some (sum_u32 (delete k (n_weights n))).
Proof using Hn. unfold weight_of, up. by rewrite bucket_pos_of, slot_removed, decide_True. Qed.
Lemma removed_agree : agree (λ _, False) A → agree (λ j, j = up ∨ False) A1.
Proof using Ht Hn Hk.
  intros Ha q j i v Hc Hi Hex. destruct (removed_has q i v) as [[j' Hc'] _]; [by exists j|]. rewrite removed_weight_of by tauto. eapply Ha; [done..|tauto].
Qed.
Lemma removed_above : light A → agree (λ _, False) A → ∀ q j v, cell A1 q j up v → sum_u32 (delete k (n_weights n)) <= v.
Proof using Ht Hf Hn Hk.
  intros Hl Ha q j v Hc. destruct (removed_has q up v) as [[j' Hc'] _]; [by exists j|]. pose proof (Ha q j' up v Hc' ltac:(unfold up; lia) ltac:(tauto)) as Hw.
  unfold weight_of, up in Hw. rewrite bucket_pos_of, Hn in Hw. injection Hw as <-. destruct (cell_full A p n k id Hf Hn Hk) as (v0 & Hv & _).
  by apply (removed_sum v0 Hv Hl).
Qed.
End removed.

(** ** An item is taken out of every bucket *)

Record balanced T A : Prop := { bl_typed : typed T A; bl_agree : agree (λ _, False) A; bl_light : light A }.

(** [id] is taken out of the buckets in [P]. *)
Record cut c A T id (P : nat → bool) c' A' : Prop := {
  ct_rebuilt : rebuilt c c';
  ct_depicts : depicts c' A';
  ct_balanced : balanced T A';
  ct_sh : ∀ q, sh A' q = (if P q then strip id else Datatypes.id) <$> sh A q;
  ct_kept : ∀ q i v, i ≠ id → level A i <= level A id → has A q i v → has A' q i v }.

Lemma cut_types c A T id P c' A' : cut c A T id P c' A' → same_types A A'.
Proof.
  intros [_ _ _ Hs _] q. specialize (Hs q). unfold sh in Hs. destruct (slot A' q), (slot A q); simpl in Hs; try done.
  injection Hs as E. apply (f_equal fst) in E. simpl in *. rewrite E. by destruct (P q).
Qed.

Lemma cut_trans c A T id P P' Q c1 A1 c2 A2 : (∀ q, Q q = P q || P' q) → cut c A T id P c1 A1 → cut c1 A1 T id P' c2 A2 → cut c A T id Q c2 A2.
Proof.
  intros HQ H1 [R2 D2 B2 S2 K2]. pose proof (cut_types _ _ _ _ _ _ _ H1) as Hty. destruct H1 as [R1 D1 B1 S1 K1].
  assert (∀ j, level A1 j = level A j) as Hh by (intros j; by apply same_types_level).
  constructor; [by eapply rebuilt_trans|done|done| |].
  - intros q. rewrite HQ, S2, S1. destruct (sh A q) as [[t l]|]; [simpl|done]. f_equal. destruct (P q), (P' q); try done. unfold strip. simpl.
    f_equal. apply filter_all. by intros x [? _]%list_elem_of_filter.
  - intros q i v Hi Hle Hc. apply K2; [done|by rewrite !Hh|]. by apply K1.
Qed.

Lemma cut_none c A T id P Q c' A' : (∀ q, Q q = P q ∨ P q = false ∧ ∀ n, slot A' q = Some n → id ∉ n_items n) →
  cut c A T id P c' A' → cut c A T id Q c' A'.
Proof.
  intros HPQ [R D B Hs K]. constructor; try done. intros q. specialize (Hs q). destruct (HPQ q) as [->|[EP Hno]]; [done|]. rewrite EP in Hs.
  rewrite <- (option_fmap_id (sh A q)), <- Hs. unfold sh. destruct (slot A' q) as [n'|]; [|done]. simpl. destruct (Q q); [|done].
  unfold strip. simpl. by rewrite filter_others by by apply Hno.
Qed.

Section cut.
Context (pow : double → double → double) (T : Z) (fuel : nat) (HT : 0 <= T <= Z.of_nat fuel).

Lemma remove_at_ok c A p n k id : depicts c A → typed T A → light A → slot A p = Some n → n_items n !! k = Some id →
  wp (remove_at pow (Z.of_nat p) id) (c, []) (λ _ '(c', o'), o' = [] ∧ rebuilt c c' ∧ depicts c' (removed A p n k)).
Proof.
  intros Hd Ht Hli Hn Hk. pose proof (depicts_full _ _ Hd) as Hf. destruct (Ht p n Hn) as (_ & Hnd & _).
  destruct (cell_full A p n k id Hf Hn Hk) as (v & Hv & _).
  set (n' := Node (n_type n) (delete k (n_items n)) (delete k (n_weights n))).
  eapply wp_mono; [apply (edit_ok _ p n c A (λ _ b', shows p b' n') Hd Hn)|].
  - intros b Hs. pose proof Hs as (Hr & He & Hid & Hty). pose proof (index_of_at (n_items n) k id Hnd Hk) as Ei.
    pose proof (remove_item_repr pow (m_straw_calc_version (cw_crush c)) b (n_items n) (n_weights n) id v [] Hr) as H.
    rewrite Ei in H. specialize (H ltac:(by destruct b) ltac:(by eapply list_elem_of_lookup_2) Hv (Hli p n Hn)).
    unfold wp, rwp in *. destruct (crush_bucket_remove_item _ _ _ _ _) as [[[r b'] o']|] eqn:E; [|done].
    apply remove_quiet in E as ->; [|done]. split; [|done].
    assert (remove_post b (n_items n) (n_weights n) k [] r b') as ((Ha & Hid' & Hty' & _) & [[_ Hr']|(_ & Hno & _)]);
      [unfold remove_result in H; rewrite Ei in H; by destruct b| |destruct Hno; constructor].
    split; [done|]. split; [|split; [by rewrite Hid'|by rewrite Hty']]. by eapply same_alg_easy.
  - intros r [c' o'] (-> & Hr & b' & Hs & ->). split; [done|]. split; [done|]. by eapply depicts_put.
Qed.

Lemma cut_settled c A p n k id c1 c' A' : let A1 := removed A p n k in depicts c A → balanced T A → slot A p = Some n → n_items n !! k = Some id →
  rebuilt c c1 → depicts c1 A1 → settled c1 A1 (-1 - Z.of_nat p) (sum_u32 (delete k (n_weights n))) (λ _, False) c' A' →
  cut c A T id (λ q, bool_decide (q = p)) c' A'.
Proof.
  intros A1 Hd [Ht Ha Hli] Hn Hk Hr Hd1 [Hr' Hd' Hs' Ha' _ Hk' Hl']. pose proof (depicts_full _ _ Hd) as Hf.
  pose proof (removed_types A p n k Hn) as Hty. pose proof (removed_light A p n k id Hf Hn Hk Hli) as Hli1.
  assert (typed T A1) as Ht1 by by apply (removed_typed T).
  assert (lighter A' A1) as HL by (apply Hl'; [done|]; intros q j v; by apply (removed_above T A p n k id Ht Hf Hn Hk Hli Ha)).
  constructor.
  - by eapply rebuilt_trans.
  - done.
  - constructor; [by eapply shape_typed|done|by eapply lighter_light; [exact Hs'|by eapply depicts_full..|exact HL|exact Hli1]].
  - intros q. rewrite (shape_sh A1 A' q Hs'), (sh_removed T A p n k id Ht Hn Hk). case_decide as E; [by rewrite bool_decide_eq_true_2|by rewrite bool_decide_eq_false_2].
  - intros q i v Hi Hle Hc. destruct (removed_kept A p n k id Hn Hk q i v Hc) as [j Hj]; [tauto|]. exists j. apply Hk'; [|done].
    fold A1. rewrite !(same_types_level _ _ _ Hty), (level_pos A p n Hn).
    assert (level A id < n_type n) as Hlt by (apply (Ht p n Hn); by eapply list_elem_of_lookup_2). split; [|lia].
    intros ->. rewrite (level_pos A p n Hn) in Hle. lia.
Qed.

Lemma cut_item_ok c A p n k id : depicts c A → balanced T A → slot A p = Some n → n_items n !! k = Some id →
  wp (cut_item pow fuel (Z.of_nat p) id) (c, []) (λ _ '(c', o'), o' = [] ∧ ∃ A', cut c A T id (λ q, bool_decide (q = p)) c' A').
Proof using HT.
  intros Hd Hb Hn Hk. pose proof Hb as [Ht Ha Hli]. unfold cut_item.
  eapply wp_bind_mono; [by apply (remove_at_ok c A p n k id)|]. intros _ [c1 o1] (-> & Hr & Hd1).
  pose proof (slot_removed A p n k Hn p) as Hn1. rewrite decide_True in Hn1 by done.
  eapply wp_header_at; [exact Hd1|exact Hn1|]. intros b Hs. rewrite (shows_weight _ _ _ Hs). destruct Hs as (_ & _ & -> & _). cbn [n_weights].
  assert (T - Z.of_nat fuel < n_type n) as Hlt by (destruct (Ht p n Hn) as [? _]; lia).
  eapply wp_bind_mono; [apply (adjust_ok pow T fuel ltac:(lia) c1 (removed A p n k) (λ _, False))|].
  - done.
  - by apply removed_typed.
  - done.
  - by apply (removed_agree T A p n k id).
  - intros _. rewrite (removed_here A p n k Hn). by rewrite u32_s32, (u32_small (sum_u32 _)) by apply sum_u32_range.
  - by rewrite (same_types_level _ _ _ (removed_types A p n k Hn)), (level_pos A p n Hn).
  - intros r [c' o'] (-> & _ & A' & Hst). apply wp_ret. split; [done|]. exists A'.
    rewrite u32_s32, (u32_small (sum_u32 _)) in Hst by apply sum_u32_range. by eapply cut_settled.
Qed.

Lemma cut_refl c A id : depicts c A → balanced T A → cut c A T id (λ _, false) c A.
Proof. intros Hd Hb. constructor; [apply rebuilt_refl|done|done| |done]. intros q. by destruct (sh A q). Qed.

Lemma cut_length c A id P c' A' : depicts c A → cut c A T id P c' A' → length A' = length A.
Proof. intros [[Hm _] Hl _ _] [[bs ->] [[Hm' _] Hl' _ _] _ _ _]. simpl in *. lia. Qed.

Lemma cut_loop_ok c A id : depicts c A → balanced T A → ∀ a0 : Z,
  wp (buckets_loop (λ pos, items_loop pos id (λ _, cut_item pow fuel pos id;; mret 0)) a0) (c, [])
     (λ _ '(c', o'), o' = [] ∧ ∃ A', depicts c' A' ∧ cut c A T id (λ _, true) c' A').
Proof using HT.
  intros Hd Hb a0. set (P := λ (i : nat) (_ : Z) c' A', cut c A T id (λ q, bool_decide (q < i)%nat) c' A').
  assert (∀ i c' A', (∀ n, slot A' i = Some n → id ∉ n_items n) → cut c A T id (λ q, bool_decide (q < i)%nat) c' A' →
            cut c A T id (λ q, bool_decide (q < S i)%nat) c' A') as Hskip.
  { intros i c' A' Hno. apply cut_none. intros q. destruct (decide (q = i)) as [->|Hne]; [right|left; apply bool_decide_ext; lia].
    split; [apply bool_decide_eq_false_2; lia|done]. }
  eapply wp_mono; [apply (buckets_loop_ok P _ c A a0)|].
  - intros i a c' A' Hc. by eapply cut_length.
  - intros i a c' A' Hi Hd' Hc Hno. apply Hskip; [|done]. intros n. by rewrite Hno.
  - intros i a c' A' n Hi Hd' Hc Hn. pose proof (ct_balanced _ _ _ _ _ _ _ Hc) as Hb'. destruct (bl_typed _ _ Hb' i n Hn) as (_ & Hnd & _).
    apply (items_loop_ok c' A' i n _ _ _ _ Hd' Hn Hnd).
    + intros Hni. split; [done|]. exists A'. split; [done|]. apply Hskip; [|done]. intros m Hm. congruence.
    + intros k Hk. eapply wp_bind_mono; [by apply (cut_item_ok c' A' i n k id)|]. intros _ [c2 o2] (-> & A2 & Hc2). apply wp_ret. split; [done|].
      pose proof Hc2 as [_ D2 _ S2 _]. pose proof (S2 i) as Si. rewrite bool_decide_eq_true_2 in Si by done. unfold sh in Si. rewrite Hn in Si.
      destruct (slot A2 i) as [n2|] eqn:Hn2; [|done]. injection Si as _ Ei. split.
      * exists A2, n2. rewrite Ei. split; [done|]. split; [done|]. split.
        { intros Hin. apply (elem_of_sublist _ (filter (λ j, j ≠ id) (n_items n))), list_elem_of_filter in Hin as [? _]; [done|apply sublist_drop]. }
        apply length_filter.
      * split; [done|]. exists A2. split; [done|]. eapply cut_trans; [|exact Hc|exact Hc2]. intros q. simpl.
        apply Bool.eq_iff_eq_true. rewrite orb_true_iff, !bool_decide_eq_true. lia.
  - done.
  - eapply cut_none; [|by apply cut_refl]. intros q. left. apply bool_decide_eq_false_2. lia.
  - intros a [c' o'] (-> & A' & Hd' & Hc). split; [done|]. exists A'. split; [done|]. eapply cut_none; [|exact Hc]. intros q.
    destruct (decide (q < length A)%nat) as [Hlt|Hge]; [left; by rewrite bool_decide_eq_true_2|right]. rewrite bool_decide_eq_false_2 by done.
    split; [done|]. intros n Hn%slot_lt. rewrite (cut_length _ _ _ _ _ _ Hd Hc) in Hn. lia.
Qed.
End cut.

(** ** The last instance *)

Lemma buckets_from_ok c A : depicts c A → ∀ k i, (i + k = length A)%nat →
  ∃ bs, buckets_from (cw_crush c) k (Z.of_nat i) = Ok bs ∧ ∀ b, b ∈ bs → ∃ p n, slot A p = Some n ∧ shows p b n.
Proof.
  intros Hd. induction k as [|k IH]; intros i Hi; cbn [buckets_from]; [exists []; split; [done|by intros b ?%elem_of_nil]|].
  rewrite (depicts_rdp c A i Hd) by lia. cbn [mbind res_bind]. replace (Z.of_nat i + 1) with (Z.of_nat (S i)) by lia.
  destruct (IH (S i)) as (bs & -> & Hbs); [lia|]. cbn [mbind res_bind]. destruct (slot A i) as [n|] eqn:En.
  - destruct (dp_some c A Hd i n En) as (b & -> & Hs). exists (b :: bs). split; [done|]. intros b' [->|?]%elem_of_cons; [by exists i, n|by apply Hbs].
  - rewrite (dp_none c A Hd i En). by exists bs.
Qed.

Lemma all_buckets_ok c A : depicts c A → ∃ bs, all_buckets (cw_crush c) = Ok bs ∧ ∀ b, b ∈ bs → ∃ p n, slot A p = Some n ∧ shows p b n.
Proof.
  intros Hd. pose proof Hd as [[Hm _] Hl _ _]. unfold all_buckets. rewrite Hm, Nat2Z.id, <- Hl. by apply (buckets_from_ok c A Hd _ 0).
Qed.

Lemma shows_items_of p b n : shows p b n → items_of b = Ok (n_items n).
Proof. intros Hs. destruct (shows_items p b n Hs) as [Hi Hl]. unfold items_of. rewrite Hl, Nat2Z.id. by apply read_ints_all. Qed.

Lemma first_parent_none id bs : (∀ b, b ∈ bs → ∃ l, items_of b = Ok l ∧ id ∉ l) → first_parent id bs = Ok None.
Proof.
  induction bs as [|b bs IH]; intros H; [done|]. cbn [first_parent]. destruct (H b) as (l & -> & Hl); [by left|]. cbn [mbind res_bind].
  rewrite bool_decide_eq_false_2 by done. apply IH. intros b' Hb'. apply H. by right.
Qed.

Lemma search_none c A id : depicts c A → (∀ p n, slot A p = Some n → id ∉ n_items n) → _search_item_exists c id = Ok false.
Proof.
  intros Hd Hno. unfold _search_item_exists, get_immediate_parent_id. destruct (all_buckets_ok c A Hd) as (bs & -> & Hbs). cbn [mbind res_bind].
  rewrite first_parent_none; [done|]. intros b Hb. destruct (Hbs b Hb) as (p & n & Hn & Hs). exists (n_items n). split; [by eapply shows_items_of|by eapply Hno].
Qed.

Lemma cut_gone c A T id c' A' p n : cut c A T id (λ _, true) c' A' → slot A' p = Some n → id ∉ n_items n.
Proof.
  intros Hc Hn Hin. pose proof (ct_sh _ _ _ _ _ _ _ Hc p) as Hs. unfold sh in Hs. rewrite Hn in Hs. destruct (slot A p) as [m|]; [|done].
  injection Hs as _ E. rewrite E in Hin. by apply list_elem_of_filter in Hin as [? _].
Qed.

(** ** Removal *)

(** What is left of the map when [id] is taken out. *)
Record taken_out T A id A' : Prop := {
  to_balanced : balanced T A';
  to_items : ∀ q, sh A' q = strip id <$> sh A q;
  to_kept : ∀ q i v, i ≠ id → level A i <= level A id → has A q i v → has A' q i v }.

(** C27: In a map of straw and straw2 buckets only, with the items of a bucket
    distinct, present and of lower types than it, whose weights agree and add up to less than
    2^32 in each bucket, and when no allocation fails: an item that is not a bucket,
    or is only unlinked, is removed from every
    bucket that holds it, and nothing else is taken out: the items and types of all
    buckets are otherwise the same, the weights of the items that are not above it
    are kept, and the weights of the buckets above are carried up to the roots, so
    that the map agrees again.  The call answers 0 whether or not the item was
    there.  The name of a device goes with it; the other tables are untouched. *)
Theorem remove_item_takes_out pow T fuel c A id unlink_only : depicts c A → balanced T A → 0 <= T <= Z.of_nat fuel → 0 <= id ∨ unlink_only = true →
  wp (remove_item pow fuel id unlink_only) (c, []) (λ r '(c', _), r = 0 ∧
    cw_name_map c' = (if (0 <=? id) && map_count (cw_name_map c) id then map_del (cw_name_map c) id else cw_name_map c) ∧
    cw_type_map c' = cw_type_map c ∧ m_rules (cw_crush c') = m_rules (cw_crush c) ∧
    ∃ A', depicts c' A' ∧ taken_out T A id A').
Proof.
  intros Hd Hb HT Hid. unfold remove_item. assert ((id <? 0) && negb unlink_only = false) as Hno.
  { destruct Hid as [Hid| ->]; [by rewrite (proj2 (Z.ltb_ge id 0))|by rewrite andb_false_r]. }
  eapply wp_bind_eq; [unfold not_empty; by rewrite Hno|]. cbv iota.
  eapply wp_bind_mono; [by apply (cut_loop_ok pow T fuel HT c A id Hd Hb)|]. intros r [c' o'] (-> & A' & Hd' & Hc). simpl in Hd'.
  assert (_search_item_exists c' id = Ok false) as Hs by (eapply search_none; [done|]; intros p n; by eapply cut_gone).
  destruct Hc as [[bs Ec] _ Hb' Hsh Hk].
  assert (taken_out T A id A') as Hto by by constructor.
  unfold _maybe_remove_last_instance. rewrite Hno.
  assert ((id >=? 0) || negb unlink_only = (0 <=? id)) as ->.
  { rewrite Z.geb_leb. destruct Hid as [Hid| ->]; [by rewrite (proj2 (Z.leb_le 0 id))|by rewrite orb_false_r]. }
  unfold wp, rwp, mbind, M_bind, mbind, res_bind, look. rewrite Hs. cbn. rewrite Ec. cbn. destruct ((0 <=? id) && map_count _ id) eqn:E; cbn.
  - split; [done|]. split; [done|]. split; [done|]. split; [done|]. exists A'. split; [|done].
    destruct Hd' as [D1 D2 D3 D4]. rewrite Ec in *. by constructor.
  - split; [done|]. split; [done|]. split; [done|]. split; [done|]. exists A'. split; [|done]. by rewrite <- Ec.
Qed.

Lemma sample_balanced : balanced 2 sample_picture.
Proof. constructor; [apply sample_typed|apply sample_agree|]. intros p n. destruct p as [|[|[|[|p]]]]; try done; by intros [= <-]. Qed.

Lemma remove_item_takes_out_witness : wp (remove_item (λ x _, x) 2 1 false) (sample_names, []) (λ r '(c', _), r = 0 ∧
    cw_name_map c' = (if (0 <=? 1) && map_count (cw_name_map sample_names) 1 then map_del (cw_name_map sample_names) 1 else cw_name_map sample_names) ∧
    cw_type_map c' = cw_type_map sample_names ∧ m_rules (cw_crush c') = m_rules (cw_crush sample_names) ∧
    ∃ A', depicts c' A' ∧ taken_out 2 sample_picture 1 A').
Proof. apply (remove_item_takes_out (λ x _, x) 2 2); [apply sample_depicts|apply sample_balanced|done|by left]. Defined.

(** Nothing is removed, and the answer is not [-ENOENT]. *)
Theorem remove_item_never_missing : ∃ c, remove_item (λ x _, x) 2 7 false (sample_names, []) = Ok (0, (c, [])) ∧ m_buckets (cw_crush c) = m_buckets two_host_map.
Proof. eexists. split; [vm_compute; reflexivity|reflexivity]. Qed.

(** The weight of a bucket that is moved goes through single precision: a bucket
    of weight 2^24 + 1 has one less where it is put. *)
Theorem moved_weight_is_rounded : fixed (weightf 16777217) = 16777216.
Proof. reflexivity. Qed.

Example sample_removed : ∃ c, remove_item (λ x _, x) 2 1 false (sample_names, []) = Ok (0, (c, [])) ∧
  (λ b, (b_weight (bucket_h b), b_size (bucket_h b))) <$> omap Datatypes.id (m_buckets (cw_crush c)) = [(65536, 2); (65536, 1); (0, 0)] ∧
  get_item_name c 1 = None.
Proof. eexists. split; [vm_compute; reflexivity|done]. Qed.
