(* ===== verification/CrushPlaceSpec.v ===== *)
(** * Items put into an edited CRUSH map

    A location names buckets; a weight is changed in the buckets that it names,
    and an item is put into the lowest of them. *)

From stdpp Require Import gmap strings sorting.
From S2P Require Import Prelude Hash CrushTypes StdMap Nodes Choose ChoosePerm ChooseSpec.
From S2P Require Import Mapper MapWf CrushWrapper.
From S2P Require Import BuilderBase Builder BuilderMap MakeSpec TreeSpec StrawSpec EditBase.
From S2P Require Import AddSpec RemoveSpec BuildProps MapSpec CrushEdit CrushEditSpec.
From S2P Require Import CrushCutSpec.

Implicit Types (A : list (option node)) (n : node) (c : crush_wrapper) (p k : nat) (id w T : Z).

(** ** Names *)

(** [c'] is [c] with other buckets; the reverse tables may have been built. *)
Definition rebuilt_names c c' : Prop := ∃ bs, build_rmaps c' = set_cw_crush (set_m_buckets bs (cw_crush c)) (build_rmaps c).

Lemma build_rmaps_twice c : build_rmaps (build_rmaps c) = build_rmaps c.
Proof. unfold build_rmaps at 1. by destruct (build_rmaps_maps c) as (_ & _ & _ & _ & ->). Qed.
Lemma build_set_crush m c : build_rmaps (set_cw_crush m c) = set_cw_crush m (build_rmaps c).
Proof. unfold build_rmaps. by destruct (cw_have_rmaps c) eqn:E; simpl; rewrite E. Qed.

Lemma rebuilt_names_refl c : rebuilt_names c c.
Proof. exists (m_buckets (cw_crush c)). destruct (build_rmaps_maps c) as [E _]. rewrite <- E. by destruct (build_rmaps c) as [[]]. Qed.
Lemma rebuilt_names_build c : rebuilt_names c (build_rmaps c).
Proof. unfold rebuilt_names. rewrite build_rmaps_twice. apply rebuilt_names_refl. Qed.
Lemma rebuilt_rebuilt_names c c' : rebuilt c c' → rebuilt_names c c'.
Proof. intros [bs ->]. exists bs. apply build_set_crush. Qed.
Lemma rebuilt_names_trans c1 c2 c3 : rebuilt_names c1 c2 → rebuilt_names c2 c3 → rebuilt_names c1 c3.
Proof.
  intros [bs E] [bs' E']. exists bs'. rewrite E', E. destruct (build_rmaps_maps c2) as [Ec _]. rewrite <- Ec, E. done.
Qed.

Lemma depicts_crush c c' A : cw_crush c' = cw_crush c → depicts c A → depicts c' A.
Proof. intros E [H1 H2 H3 H4]. rewrite <- E in *. by constructor. Qed.
Lemma depicts_build c A : depicts c A → depicts (build_rmaps c) A.
Proof. apply depicts_crush. by destruct (build_rmaps_maps c). Qed.

(** The id of a name; 0 when there is none. *)
Definition id_of c (name : string) : Z := default 0 (cw_name_rmap (build_rmaps c) !! name).

Lemma id_of_rebuilt c c' name : rebuilt_names c c' → id_of c' name = id_of c name.
Proof. intros [bs E]. unfold id_of. by rewrite E. Qed.

(** The bucket an id stands for. *)
Definition is_bucket A id : bool := (id <? 0) && bool_decide (is_Some (slot A (bucket_pos id))).

Lemma bucket_ptr_ok c A id : depicts c A → is_s32 id →
  bucket_ptr c id = Ok (if id <? 0 then slot (m_buckets (cw_crush c)) (bucket_pos id) else None).
Proof.
  intros Hd Hid. pose proof Hd as [[Hm Hmax] Hl _ _]. unfold bucket_ptr. rewrite (u32_small (m_max_buckets _)) by (unfold is_u32; lia). unfold is_s32 in Hid.
  destruct (Z.ltb_spec id 0) as [Hneg|Hpos].
  - rewrite u32_small by (unfold is_u32; lia). rewrite Z.geb_leb, Hm. destruct (Z.leb_spec (Z.of_nat (length (m_buckets (cw_crush c)))) (-1 - id)) as [Hge|Hlt].
    + by rewrite slot_past by (unfold bucket_pos; lia).
    + replace (-1 - id) with (Z.of_nat (bucket_pos id)) by (unfold bucket_pos; lia). rewrite rdp_slot by (unfold bucket_pos; lia). done.
  - replace (u32 (-1 - id)) with (4294967295 - id); [|unfold u32; rewrite <- (Z.mod_add _ 1) by done; rewrite Z.mod_small; lia].
    rewrite Z.geb_leb. by rewrite (proj2 (Z.leb_le _ _)) by lia.
Qed.

Lemma bucket_exists_ok c A id : depicts c A → is_s32 id → bucket_exists c id = Ok (is_bucket A id).
Proof.
  intros Hd Hid. unfold bucket_exists, is_bucket. rewrite (bucket_ptr_ok c A id Hd Hid). cbn [mbind res_bind]. f_equal.
  destruct (id <? 0); [|by apply bool_decide_eq_false_2; intros [? ?]]. simpl. apply bool_decide_ext.
  destruct (slot A (bucket_pos id)) as [n|] eqn:E.
  - destruct (dp_some c A Hd _ n E) as (b & -> & _). split; intros _; by eexists.
  - by rewrite (dp_none c A Hd _ E).
Qed.

Lemma bucket_pos_neg id : id < 0 → Z.of_nat (bucket_pos id) = pos_of id ∧ -1 - Z.of_nat (bucket_pos id) = id.
Proof. unfold bucket_pos, pos_of. lia. Qed.

(** ** A weight is changed in a location *)

(** [p] is a bucket that the location names. *)
Definition loc_at A c (loc : list (string * string)) p : Prop := ∃ l, l ∈ loc ∧ is_bucket A (id_of c l.2) = true ∧ bucket_pos (id_of c l.2) = p.
Definition loc_holds A c id (l : string * string) : bool := is_bucket A (id_of c l.2) && holds_id id (slot A (bucket_pos (id_of c l.2))).
Definition loc_count A c id (loc : list (string * string)) : Z := Z.of_nat (length (List.filter (loc_holds A c id) loc)).

Record relocated c A id w loc c' A' : Prop := {
  rl_rebuilt : rebuilt_names c c';
  rl_depicts : depicts c' A';
  rl_shape : shape A' = shape A;
  rl_agree : agree (λ j, j = id ∨ False) A';
  rl_set : ∀ p k v, loc_at A c loc p → cell A' p k id v → v = w;
  rl_rest : ∀ p k v, ¬ loc_at A c loc p → cell A p k id v → cell A' p k id v;
  rl_kept : kept (λ j, j ≠ id ∧ level A j <= level A id) A A' }.

Lemma shape_bucket A A' id : shape A' = shape A → is_bucket A' id = is_bucket A id.
Proof.
  intros H. unfold is_bucket. f_equal. apply bool_decide_ext. pose proof (shape_slot A A' (bucket_pos id) H) as Hs.
  destruct (slot A' _), (slot A _); try done; split; intros _; by eexists.
Qed.
Lemma shape_holds A A' id p : shape A' = shape A → holds_id id (slot A' p) = holds_id id (slot A p).
Proof. intros H. pose proof (shape_slot A A' p H) as Hs. destruct (slot A' p), (slot A p); try done. injection Hs as _ E. simpl. by rewrite E. Qed.

Lemma loc_at_moved A A' c c' loc p : shape A' = shape A → rebuilt_names c c' → loc_at A' c' loc p ↔ loc_at A c loc p.
Proof. intros Hs Hr. unfold loc_at. split; intros (l & Hl & Hb & Hp); exists l; revert Hb Hp; rewrite (id_of_rebuilt c c' _ Hr), (shape_bucket A A' _ Hs); done. Qed.
Lemma loc_count_moved A A' c c' id loc : shape A' = shape A → rebuilt_names c c' → loc_count A' c' id loc = loc_count A c id loc.
Proof.
  intros Hs Hr. unfold loc_count. do 2 f_equal. apply List.filter_ext. intros l. unfold loc_holds.
  by rewrite (id_of_rebuilt c c' _ Hr), (shape_bucket A A' _ Hs), (shape_holds A A' _ _ Hs).
Qed.
Lemma loc_at_cons A c l loc p : loc_at A c (l :: loc) p ↔ loc_at A c [l] p ∨ loc_at A c loc p.
Proof.
  unfold loc_at. setoid_rewrite elem_of_cons. split.
  - intros (x & [->|Hx] & Hat); [left; exists l; split; [by left|done]|right; by exists x].
  - intros [(x & [->|Hx] & Hat)|(x & Hx & Hat)]; [exists l; split; [by left|done]|by apply elem_of_nil in Hx|exists x; split; [by right|done]].
Qed.
Lemma loc_at_dec A c loc p : loc_at A c loc p ∨ ¬ loc_at A c loc p.
Proof.
  induction loc as [|l loc IH]; [right; intros (x & ?%elem_of_nil & _); done|]. rewrite loc_at_cons. destruct IH as [?|Hno]; [by left; right|].
  destruct (is_bucket A (id_of c l.2)) eqn:E, (decide (bucket_pos (id_of c l.2) = p)) as [Hp|Hp];
    [left; left; exists l; by rewrite list_elem_of_singleton|right..]; intros [(x & ->%list_elem_of_singleton & ? & ?)|?]; congruence.
Qed.
Lemma loc_count_cons A c id l loc : loc_count A c id (l :: loc) = loc_count A c id [l] + loc_count A c id loc.
Proof. unfold loc_count. simpl. destruct (loc_holds A c id l); simpl; lia. Qed.

Lemma relocated_nil c c' A id w loc : rebuilt_names c c' → depicts c' A → agree (λ j, j = id ∨ False) A →
  (∀ p k v, loc_at A c loc p → ¬ cell A p k id v) → relocated c A id w loc c' A.
Proof. intros Hr Hd Ha Hno. constructor; try done; [|apply kept_refl]. intros p k v Hp Hc. by destruct (Hno p k v Hp). Qed.

Lemma relocated_cons c A id w l loc c1 A1 c2 A2 : depicts c A → relocated c A id w [l] c1 A1 → relocated c1 A1 id w loc c2 A2 →
  relocated c A id w (l :: loc) c2 A2.
Proof.
  intros Hd [R1 D1 S1 G1 Set1 Rest1 K1] [R2 D2 S2 G2 Set2 Rest2 K2]. pose proof (depicts_full _ _ D1) as F1.
  assert (∀ p, loc_at A1 c1 loc p ↔ loc_at A c loc p) as Hl by (intros p; by apply loc_at_moved).
  constructor; [by eapply rebuilt_names_trans|done|congruence|done| | |].
  - intros p k v Hp Hc. destruct (loc_at_dec A c loc p) as [Hin|Hno]; [apply (Set2 p k); [by apply Hl|done]|].
    destruct (cell_moved A2 A1 p k id v (eq_sym S2) F1 Hc) as [v1 Hc1].
    destruct (cell_fun _ _ _ _ _ _ _ Hc (Rest2 p k v1 ltac:(by rewrite Hl) Hc1)) as [_ ->]. apply loc_at_cons in Hp as [Hp|Hp]; [by eapply Set1|done].
  - intros p k v Hp Hc. rewrite loc_at_cons in Hp. apply Rest2; [rewrite Hl; tauto|]. apply Rest1; [tauto|done].
  - eapply kept_trans; [exact K1|]. eapply kept_weaken; [|exact K2]. intros j. by rewrite !(shape_level _ _ _ S1).
Qed.

Section in_loc.
Context (pow : double → double → double) (T : Z) (fuel : nat) (HT : 0 <= T).
Implicit Types (loc : list (string * string)).

Lemma in_one_ok c A id w bid (changed : Z) l : depicts c A → typed T A → agree (λ j, j = id ∨ False) A → T - Z.of_nat fuel < level A id →
  bid = id_of c l.2 → is_bucket A bid = true →
  wp (items_loop (pos_of bid) id (λ changed,
        _ ← adjust_at pow (pos_of bid) id w; h ← header_at (pos_of bid); _ ← adjust_item_weight pow fuel bid (s32 (b_weight h)); mret (changed + 1)) changed) (c, [])
     (λ r '(c', o'), o' = [] ∧ r = changed + loc_count A c id [l] ∧ ∃ A', relocated c A id (u32 w) [l] c' A').
Proof using HT.
  intros Hd Ht Ha Hfu Hbid Hb. pose proof Hb as Hb'. unfold is_bucket in Hb'. apply andb_true_iff in Hb' as [Hneg%Z.ltb_lt [n Hn]%bool_decide_eq_true].
  destruct (bucket_pos_neg bid Hneg) as [<- Hup]. set (p := bucket_pos bid) in *. destruct (Ht p n Hn) as (_ & Hnd & _).
  assert (loc_count A c id [l] = if bool_decide (id ∈ n_items n) then 1 else 0) as ->.
  { unfold loc_count, loc_holds. simpl. rewrite <- Hbid, Hb. fold p. rewrite Hn. simpl. by case_bool_decide. }
  assert (∀ q, loc_at A c [l] q ↔ q = p) as Hl.
  { intros q. unfold loc_at. setoid_rewrite list_elem_of_singleton. split; [intros (x & -> & _ & <-); by rewrite <- Hbid|intros ->; exists l; by rewrite <- Hbid]. }
  apply (items_loop_ok c A p n _ _ _ _ Hd Hn Hnd).
  - intros Hni. split; [done|]. rewrite bool_decide_eq_false_2 by done. split; [lia|]. exists A. apply relocated_nil; [apply rebuilt_names_refl|done|done|].
    intros q k v ->%Hl (m & Hm & Hi & _). apply Hni. replace n with m by congruence. by eapply list_elem_of_lookup_2.
  - intros k Hk. pose proof (place_weight_ok (R := Z) pow T c A (λ _, False) id w p n k Hd Ht ltac:(done) Ha Hn Hk) as Hplace. rewrite Hup in Hplace. eapply Hplace.
    { intros c2 A2 ex2 id2 w2 ? ? ? ? ? Hb2. apply (adjust_ok pow T fuel HT); [done..|lia]. }
    intros c2 A2 [Pr Pd Ps Pa Pset Prest Pk _]. apply wp_ret. destruct (shape_some A A2 p n Ps Hn) as (n2 & Hn2 & _ & Ei).
    rewrite bool_decide_eq_true_2 by by eapply list_elem_of_lookup_2. split; [done|]. split.
    + exists A2, n2. rewrite Ei. split; [done|]. split; [done|]. split; [|lia]. intros (j & Hj)%list_elem_of_lookup.
      rewrite lookup_drop in Hj. pose proof (NoDup_lookup _ _ _ _ Hnd Hk Hj). lia.
    + split; [done|]. split; [done|]. exists A2. constructor; [by apply rebuilt_rebuilt_names|done..| | |done].
      * intros q j v ->%Hl (m & Hm & Hi & Hv). replace m with n2 in * by congruence. rewrite Ei in Hi. rewrite (NoDup_lookup _ _ _ _ Hnd Hi Hk) in Hv.
        destruct Pset as (m' & Hm' & _ & Hv'). congruence.
      * intros q j v Hq. rewrite Hl in Hq. apply Prest. by left.
Qed.

Lemma in_loc_loop_ok loc : ∀ c A id w (changed : Z), depicts c A → typed T A → agree (λ j, j = id ∨ False) A → T - Z.of_nat fuel < level A id →
  (∀ l, l ∈ loc → is_s32 (id_of c l.2)) →
  wp (in_loc_loop pow fuel id w loc changed) (c, []) (λ r '(c', o'), o' = [] ∧ r = changed + loc_count A c id loc ∧ ∃ A', relocated c A id (u32 w) loc c' A').
Proof using HT.
  induction loc as [|l loc IH]; intros c A id w changed Hd Ht Ha Hfu Hs; cbn [in_loc_loop].
  { apply wp_ret. split; [done|]. split; [unfold loc_count; simpl; lia|]. exists A. apply relocated_nil; [apply rebuilt_names_refl|done|done|].
    by intros p k v (x & ?%elem_of_nil & _). }
  destruct l as [lt name]. eapply (wp_bind_eq _ _ _ (id_of c name) (build_rmaps c, [])); [reflexivity|]. cbv beta. pose proof (depicts_build c A Hd) as Hd1.
  pose proof (rebuilt_names_build c) as Hr1. set (c1 := build_rmaps c) in *.
  pose proof (bucket_exists_ok c1 A (id_of c name) Hd1 (Hs (lt, name) ltac:(by left))) as Ee.
  eapply (wp_bind_eq _ _ _ (is_bucket A (id_of c name)) (c1, [])); [unfold look; by rewrite Ee|]. cbv beta.
  assert (∀ c2 A2 ch, relocated c A id (u32 w) [(lt, name)] c2 A2 → ch = changed + loc_count A c id [(lt, name)] →
    wp (in_loc_loop pow fuel id w loc ch) (c2, [])
      (λ r '(c', o'), o' = [] ∧ r = changed + loc_count A c id ((lt, name) :: loc) ∧ ∃ A', relocated c A id (u32 w) ((lt, name) :: loc) c' A')) as Hnext.
  { intros c2 A2 ch Hrl ->. pose proof Hrl as [R2 D2 S2 G2 _ _ _].
    eapply wp_mono; [apply (IH c2 A2 id w); [done|by eapply shape_typed|done|by rewrite (shape_level _ _ _ S2)|]|].
    - intros x Hx. rewrite (id_of_rebuilt c c2 _ R2). apply Hs. by right.
    - intros r [c' o'] (-> & -> & A' & Hrl'). split; [done|]. split; [rewrite (loc_count_moved _ _ _ _ _ _ S2 R2), (loc_count_cons A c id (lt, name) loc); lia|].
      exists A'. by eapply relocated_cons. }
  destruct (is_bucket A (id_of c name)) eqn:Eb.
  - eapply wp_bind_mono; [apply (in_one_ok c1 A id w (id_of c name) changed (lt, name)); try done; by rewrite (id_of_rebuilt c c1 _ Hr1)|].
    intros r [c2 o2] (-> & -> & A2 & [R2 D2 S2 G2 Set2 Rest2 K2]). apply (Hnext c2 A2); [|by rewrite (loc_count_moved A A c c1)].
    constructor; [by eapply rebuilt_names_trans|done..| | |done]; intros p k v; rewrite <- (loc_at_moved A A c c1 _ p eq_refl Hr1); [apply Set2|apply Rest2].
  - eapply wp_bind_eq; [reflexivity|]. apply (Hnext c1 A).
    + apply relocated_nil; [done..|]. intros p k v (x & ->%list_elem_of_singleton & Hx & _). simpl in Hx. congruence.
    + unfold loc_count, loc_holds. simpl. rewrite Eb. simpl. lia.
Qed.
End in_loc.

Lemma agree_one A id : agree (λ j, j = id ∨ False) A ↔ agree (λ j, j = id) A.
Proof. split; intros Ha p k i v Hc Hi Hne; (eapply Ha; [done..|tauto]). Qed.

(** ** An item is put into a bucket *)

Definition appended A p n id w : list (option node) := <[p := Some (Node (n_type n) (n_items n ++ [id]) (n_weights n ++ [w]))]> A.

Lemma add_at_ok pow c A p n id : depicts c A → slot A p = Some n → Z.of_nat (length (n_items n)) + 1 < 65535 →
  wp (add_at pow (Z.of_nat p) id 0) (c, []) (λ r '(c', o'), r = 0 ∧ o' = [] ∧ rebuilt c c' ∧ depicts c' (appended A p n id 0)).
Proof.
  intros Hd Hn Hlt. set (n' := Node (n_type n) (n_items n ++ [id]) (n_weights n ++ [0])).
  eapply wp_mono; [apply (edit_ok _ p n c A (λ r b', r = 0 ∧ shows p b' n') Hd Hn)|].
  - intros b Hs. pose proof Hs as (Hr & He & Hid & Hty).
    pose proof (add_item_repr pow (m_straw_calc_version (cw_crush c)) b (n_items n) (n_weights n) id 0 [] Hr Hlt ltac:(by destruct b)) as H.
    unfold wp, rwp in *. destruct (crush_bucket_add_item _ _ _ _ _ _) as [[[r b'] o']|] eqn:E; [|done].
    apply add_quiet in E as ->; [|done]. split; [|done].
    destruct H as ((Ha & Hid' & Hty' & _) & [(-> & _ & Hr')|[(_ & Hov & _)|(_ & Hno & _)]]).
    + split; [done|]. split; [done|]. split; [by eapply same_alg_easy|]. split; [by rewrite Hid'|by rewrite Hty'].
    + pose proof (sum_u32_range (n_weights n)) as [_ Hsr]. unfold overflows in Hov. change (u32 0) with 0 in Hov. lia.
    + destruct Hno. constructor.
  - intros r [c' o'] (-> & Hr & b' & (-> & Hs) & ->). split; [done|]. split; [done|]. split; [done|]. by eapply depicts_put.
Qed.

Section appended.
Context (T : Z) (A : list (option node)) (p : nat) (n : node) (id : Z).
Context (Ht : typed T A) (Hf : full A) (Hn : slot A p = Some n).
Context (Hid : 0 <= id < 2147483648) (Hnew : ∀ q m, slot A q = Some m → id ∉ n_items m).
Let A1 := appended A p n id 0.

Lemma slot_appended q : slot A1 q = if decide (q = p) then Some (Node (n_type n) (n_items n ++ [id]) (n_weights n ++ [0])) else slot A q.
Proof using Hn. by apply (slot_put A p n). Qed.

Lemma appended_types : same_types A A1.
Proof using Hn. intros q. rewrite slot_appended. case_decide; [subst q; by rewrite Hn|done]. Qed.

Lemma appended_cell q j i v : cell A1 q j i v ↔ (q = p ∧ j = length (n_items n) ∧ i = id ∧ v = 0) ∨ cell A q j i v.
Proof using Hf Hn.
  clear Ht Hid Hnew. destruct (Hf p n Hn) as [Hl _]. unfold cell. setoid_rewrite slot_appended. case_decide as E; [subst q|split; [by right|intros [(? & _)|?]; done]]. split.
  - intros (m & [= <-] & Hi & Hv). cbn [n_items n_weights] in Hi, Hv. apply lookup_app_Some in Hi as [Hi|[Hge Hi]].
    + right. exists n. rewrite lookup_app_l in Hv by (rewrite Hl; by eapply lookup_lt_Some). done.
    + rewrite lookup_app_r in Hv by lia. rewrite Hl in Hv. destruct (j - length (n_items n))%nat eqn:E; [|done]. simplify_eq/=. left. repeat split; lia.
  - intros [(_ & -> & -> & ->)|(m & Hm & Hi & Hv)]; (eexists; split; [done|]); cbn [n_items n_weights].
    + rewrite lookup_app_r by done. rewrite lookup_app_r by lia. by rewrite Hl, Nat.sub_diag.
    + replace m with n in * by congruence. by rewrite !lookup_app_l by (rewrite ?Hl; by eapply lookup_lt_Some).
Qed.

Lemma appended_typed : typed T A1.
Proof using Ht Hn Hid Hnew.
  intros q m. rewrite slot_appended. intros Hm. assert (∀ i, level A1 i = level A i) as Hh by (intros i; apply same_types_level, appended_types).
  case_decide as E; [subst q; injection Hm as <-|].
  - destruct (Ht p n Hn) as (H1 & H2 & H3). cbn [n_type n_items]. split; [done|]. split.
    { apply NoDup_app. split; [done|]. split; [|apply NoDup_singleton]. intros i Hi ->%list_elem_of_singleton. by apply (Hnew p n). }
    intros i [Hi| ->%list_elem_of_singleton]%elem_of_app; rewrite Hh.
    + destruct (H3 i Hi) as (H4 & H5 & H6). split; [done|]. split; [|done]. intros Hneg. apply (same_types_some A); [apply appended_types|by apply H5].
    + split; [unfold is_s32; lia|]. split; [lia|]. unfold level. rewrite (proj2 (Z.leb_le 0 id)) by lia. lia.
  - destruct (Ht q m Hm) as (H1 & H2 & H3). split; [done|]. split; [done|]. intros i Hi. destruct (H3 i Hi) as (H4 & H5 & H6). rewrite Hh.
    split; [done|]. split; [|done]. intros Hneg. apply (same_types_some A); [apply appended_types|by apply H5].
Qed.

Lemma appended_weight i : weight_of A1 i = weight_of A i.
Proof using Hn.
  unfold weight_of. rewrite slot_appended. case_decide as E; [|done]. rewrite E, Hn. simpl. f_equal.
  unfold sum_u32. rewrite sum_list_Z_app. simpl. by rewrite !Z.add_0_r.
Qed.

Lemma appended_agree : agree (λ _, False) A → agree (λ j, j = id ∨ False) A1.
Proof using Hf Hn. clear Ht Hid Hnew. intros Ha q j i v Hc Hi Hex. rewrite appended_weight. apply appended_cell in Hc as [(_ & _ & -> & _)|Hc]; [tauto|]. eapply Ha; [done..|tauto]. Qed.

Lemma appended_kept q i v : has A q i v → has A1 q i v.
Proof using Hf Hn. intros [j Hc]. exists j. apply appended_cell. by right. Qed.

Lemma sh_appended q : sh A1 q = (if decide (q = p) then λ x, (x.1, x.2 ++ [id]) else Datatypes.id) <$> sh A q.
Proof using Hn. unfold sh. rewrite slot_appended. case_decide; [subst q; by rewrite Hn|by destruct (slot A q)]. Qed.
End appended.

(** *** The bucket it goes to *)

(** An item that is in no bucket is below none. *)
Lemma subtree_free T c A item : depicts c A → typed T A → (∀ q m, slot A q = Some m → item ∉ n_items m) → ∀ fuel root,
  is_s32 root → (root < 0 → is_Some (slot A (bucket_pos root))) → root ≠ item → level A root < Z.of_nat fuel →
  subtree_contains fuel c root item = Ok false.
Proof.
  intros Hd Ht Hnew fuel. induction fuel as [|fuel IH]; intros root Hs Hb Hne Hh.
  { assert (0 <= level A root); [|lia]. unfold level. destruct (0 <=? root); [done|]. destruct (slot A _) as [m|] eqn:E; [|done]. destruct (Ht _ m E) as [? _]. simpl. lia. }
  cbn [subtree_contains]. rewrite (proj2 (Z.eqb_neq root item)) by done. rewrite Z.geb_leb. destruct (Z.leb_spec 0 root) as [?|Hneg]; [done|].
  rewrite (bucket_ptr_ok c A root Hd Hs), (proj2 (Z.ltb_lt root 0)) by done. destruct (Hb Hneg) as [m Hm].
  destruct (dp_some c A Hd _ m Hm) as (b & -> & Hsh). cbn [mbind res_bind deref]. rewrite (shows_items_of _ b m Hsh). cbn [mbind res_bind].
  assert (∀ v, v ∈ n_items m → subtree_contains fuel c v item = Ok false) as Hall.
  { intros v Hv. destruct (Ht _ m Hm) as (_ & _ & H3). destruct (H3 v Hv) as (H4 & H5 & H6). rewrite (level_bucket A root m Hneg Hm) in Hh.
    apply IH; [done|done| |lia]. intros ->. by eapply Hnew. }
  revert Hall. generalize (n_items m) as l. induction l as [|v l IHl]; intros Hall; [done|]. rewrite Hall by by left. cbn [mbind res_bind].
  apply IHl. intros u Hu. apply Hall. by right.
Qed.

(** The lowest type that the location names, and the bucket. *)
Fixpoint lowest (types : list (Z * string)) (loc : list (string * string)) : option (Z * string) :=
  match types with
  | [] => None
  | (t, tname) :: types =>
      if t =? 0 then lowest types loc else
      match loc_find loc tname with Some name => Some (t, name) | None => lowest types loc end
  end.

Lemma lowest_in types loc t name : lowest types loc = Some (t, name) → ∃ l, l ∈ loc ∧ l.2 = name.
Proof.
  induction types as [|[t' tn] types IH]; [done|]. simpl. destruct (t' =? 0); [done|]. destruct (loc_find loc tn) as [s|] eqn:E; [|done].
  intros [= _ <-]. unfold loc_find in E. destruct (List.find _ loc) as [l|] eqn:El; [|done]. injection E as <-. exists l. split; [|done].
  apply find_some in El as [Hin _]. by apply list_elem_of_In.
Qed.

(** The bucket [bid] is named, is of its type and has room. *)
Record goes_to A c (types : list (Z * string)) loc bid p n : Prop := {
  gt_lowest : ∃ t name, lowest types loc = Some (t, name) ∧ n_type n = t ∧ cw_name_rmap (build_rmaps c) !! name = Some bid;
  gt_bucket : bid < 0 ∧ is_s32 bid ∧ bucket_pos bid = p;
  gt_slot : slot A p = Some n;
  gt_room : Z.of_nat (length (n_items n)) + 1 < 65535 }.

Lemma insert_loop_ok pow T fuel c A id loc bid p n : depicts c A → typed T A → T < Z.of_nat fuel → 0 <= id →
  (∀ q m, slot A q = Some m → id ∉ n_items m) → ∀ types, goes_to A c types loc bid p n →
  wp (insert_loop pow fuel types loc id) (c, []) (λ r '(c', o'), r = Placed ∧ o' = [] ∧ rebuilt_names c c' ∧ depicts c' (appended A p n id 0)).
Proof.
  intros Hd Ht Hfu Hid Hnew types. induction types as [|[t tn] types IH]; intros [(t0 & name & Hlow & Hty & Hname) (Hneg & Hs & Hp) Hn Hroom]; [done|].
  cbn [insert_loop]. cbn [lowest] in Hlow.
  assert (lowest types loc = Some (t0, name) → goes_to A c types loc bid p n) as Hgo by (intros E; constructor; [by exists t0, name|done..]).
  destruct (t =? 0); [by apply IH, Hgo|]. destruct (loc_find loc tn) as [s|]; [|by apply IH, Hgo]. clear IH Hgo. injection Hlow as -> ->.
  pose proof (depicts_build c A Hd) as Hd1. pose proof (rebuilt_names_build c) as Hr1. pose proof (build_rmaps_twice c) as Eb. set (c1 := build_rmaps c) in *.
  eapply (wp_bind_eq _ _ _ true (c1, [])); [unfold on_names; rewrite name_exists_ok; fold c1; by rewrite Hname|]. cbv beta iota.
  eapply (wp_bind_eq _ _ _ bid (c1, [])); [unfold on_names; rewrite get_item_id_ok, Eb; by rewrite Hname|]. cbv beta.
  assert (is_bucket A bid = true) as Hb.
  { unfold is_bucket. rewrite (proj2 (Z.ltb_lt bid 0)), Hp, Hn by done. apply bool_decide_eq_true_2. by exists n. }
  eapply (wp_bind_eq _ _ _ true (c1, [])); [unfold look; by rewrite (bucket_exists_ok c1 A bid Hd1 Hs), Hb|]. cbv beta iota.
  assert (level A bid = n_type n) as Hh by (rewrite <- Hp in Hn; by apply level_bucket).
  destruct (Ht p n Hn) as ([Hty0 HtyT] & _ & _).
  eapply (wp_bind_eq _ _ _ false (c1, [])).
  { unfold look. rewrite (subtree_free T c1 A id Hd1 Ht Hnew fuel bid Hs); [done| |lia|lia]. intros _. rewrite Hp. by exists n. }
  cbv beta iota. destruct (bucket_pos_neg bid Hneg) as [<- Hup]. rewrite Hp in *.
  eapply wp_header_at; [done..|]. intros b Hsh. destruct Hsh as (_ & _ & -> & ->). rewrite Hty, Z.eqb_refl. cbn [negb].
  eapply (wp_bind_eq _ _ _ false (c1, [])).
  { unfold look. destruct fuel as [|f]; [lia|]. cbn [subtree_contains]. rewrite (proj2 (Z.eqb_neq id _)) by lia. by rewrite (proj2 (Z.geb_ge id 0)) by lia. }
  cbv beta iota. eapply wp_bind_mono; [by apply (add_at_ok pow c1 A p n id)|]. intros r [c2 o2] (-> & -> & Hr2 & Hd2).
  eapply wp_bind_eq; [reflexivity|]. apply wp_ret. split; [done|]. split; [done|]. split; [|done].
  eapply rebuilt_names_trans; [exact Hr1|by apply rebuilt_rebuilt_names].
Qed.

(** *** Insertion *)

(** After the name was claimed. *)
Record claimed c id name c1 : Prop := {
  cl_crush : cw_crush c1 = cw_crush c;
  cl_types : cw_type_map c1 = cw_type_map c;
  cl_built : cw_have_rmaps c1 = true;
  cl_names : cw_name_map c1 = cw_name_map c ∨ cw_name_map c1 = map_put (cw_name_map c) id name;
  cl_ids : ∀ s, cw_name_rmap c1 !! s = if decide (s = name) then Some id else cw_name_rmap (build_rmaps c) !! s }.

Lemma claim_ok c id name : is_valid_crush_name name = true → default id (cw_name_rmap (build_rmaps c) !! name) = id →
  ∃ c1, claim_name id name c = Ok (true, c1) ∧ claimed c id name c1.
Proof.
  intros Hv Hid. destruct (build_rmaps_maps c) as (E1 & E2 & E3 & _ & E5). unfold claim_name, mbind, M_bind, mbind, res_bind. rewrite name_exists_ok.
  destruct (cw_name_rmap (build_rmaps c) !! name) as [i|] eqn:E; cbv beta iota.
  - simpl in Hid. subst i. rewrite bool_decide_eq_true_2 by by eexists. rewrite get_item_id_ok, build_rmaps_twice, E. simpl. rewrite Z.eqb_refl.
    exists (build_rmaps c). split; [done|]. constructor; [done..|by left|]. intros s. case_decide as Es; [by rewrite Es|done].
  - rewrite bool_decide_eq_false_2 by by intros [? ?]. unfold set_item_name. rewrite Hv. cbn [negb]. eexists. split; [reflexivity|].
    constructor; simpl; [done..|right; by rewrite E2|]. intros s. rewrite E5. case_decide as Es; [subst s; by rewrite lookup_insert_eq|by rewrite lookup_insert_ne].
Qed.

Lemma claimed_id c id name c1 s : claimed c id name c1 → id_of c1 s = if decide (s = name) then id else id_of c s.
Proof. intros [_ _ Hb _ Hi]. unfold id_of at 1, build_rmaps at 1. rewrite Hb, Hi. by case_decide. Qed.

Lemma loc_count_pos A c id loc l : l ∈ loc → loc_holds A c id l = true → 0 < loc_count A c id loc.
Proof.
  intros Hl Hh. unfold loc_count. assert (List.In l (List.filter (loc_holds A c id) loc)) as Hin by (apply filter_In; split; [by apply list_elem_of_In|done]).
  destruct (List.filter _ loc); [done|]. simpl. lia.
Qed.

(** The item and nothing else was put in. *)
Record put_in T A id p w A' : Prop := {
  pi_typed : typed T A';
  pi_agree : agree (λ _, False) A';
  pi_items : ∀ q, sh A' q = (if decide (q = p) then λ x, (x.1, x.2 ++ [id]) else Datatypes.id) <$> sh A q;
  pi_weight : has A' p id w;
  pi_kept : ∀ q i v, i ≠ id → level A i <= 0 → has A q i v → has A' q i v }.

Lemma put_in_ok T c A p n id w loc c' A' : typed T A → agree (λ _, False) A → full A → slot A p = Some n → 0 <= id < 2147483648 →
  (∀ q m, slot A q = Some m → id ∉ n_items m) → let A1 := appended A p n id 0 in
  loc_at A1 c loc p → relocated c A1 id w loc c' A' → put_in T A id p w A'.
Proof.
  intros Ht Ha Hf Hn Hid Hnew A1 Hat [_ Hd' Hs' Ha' Hset _ Hk']. pose proof (appended_types A p n id Hn) as Hty.
  assert (∀ i, level A1 i = level A i) as Hh by (intros i; by apply same_types_level).
  assert (cell A1 p (length (n_items n)) id 0) as Hc0 by (apply (appended_cell A p n id Hf Hn); by left).
  destruct (cell_moved A1 A' p _ id 0 Hs' (depicts_full _ _ Hd') Hc0) as [v Hv].
  constructor.
  - eapply shape_typed; [exact Hs'|]. by apply appended_typed.
  - intros q j i u Hc Hi _. eapply Ha'; [done..|]. intros [->|[]]. lia.
  - intros q. rewrite (shape_sh A1 A' q Hs'). by apply sh_appended.
  - exists (length (n_items n)). by rewrite <- (Hset _ _ _ Hat Hv).
  - intros q i u Hi Hle Hq. destruct (appended_kept A p n id Hf Hn q i u Hq) as [j Hj]. exists j. apply Hk'; [|done]. rewrite !Hh. split; [done|].
    unfold level at 2. by rewrite (proj2 (Z.leb_le 0 id)) by lia.
Qed.

(** The new item gets its weight in the location. *)
Lemma weigh_put_ok pow T fuel c A p n id w loc l : typed T A → agree (λ _, False) A → full A → slot A p = Some n → 0 <= id < 2147483648 →
  (∀ q m, slot A q = Some m → id ∉ n_items m) → 0 <= T < Z.of_nat fuel → let A1 := appended A p n id 0 in
  depicts c A1 → (∀ x, x ∈ loc → is_s32 (id_of c x.2)) → l ∈ loc → is_bucket A1 (id_of c l.2) = true → bucket_pos (id_of c l.2) = p →
  wp (adjust_item_weight_in_loc pow fuel id w loc) (c, []) (λ r '(c', o'), o' = [] ∧ 0 < r ∧ rebuilt_names c c' ∧
    ∃ A', depicts c' A' ∧ put_in T A id p (u32 w) A').
Proof.
  intros Ht Ha Hf Hn Hid Hnew HT A1 Hd1 Hloc Hl Hib Hip. assert (loc_at A1 c loc p) as Hat by by exists l.
  assert (0 < loc_count A1 c id loc) as Hcount.
  { apply (loc_count_pos _ _ _ _ l Hl). unfold loc_holds, A1 in *. rewrite Hib, Hip, (slot_appended A p n id Hn), decide_True by done. simpl.
    apply bool_decide_eq_true_2, elem_of_app. right. by apply list_elem_of_singleton. }
  eapply wp_bind_mono; [apply (in_loc_loop_ok pow T fuel ltac:(lia) loc c A1 id w 0 Hd1)|].
  - by apply appended_typed.
  - by apply appended_agree.
  - unfold level. rewrite (proj2 (Z.leb_le 0 id)) by lia. lia.
  - done.
  - intros r [c3 o3] (-> & -> & A' & Hrl). apply wp_ret. rewrite (proj2 (Z.eqb_neq _ 0)) by lia. split; [done|]. split; [lia|].
    split; [apply Hrl|]. exists A'. split; [apply Hrl|]. eapply put_in_ok; [done..|exact Hat|exact Hrl].
Qed.

(** C26: In a map of straw and straw2 buckets only, with the items of a bucket
    distinct, present and of lower types than it, whose weights agree, and when no allocation
    fails: a new device, one that is in no bucket, with an id below 2^31 - 1
    and a valid name that is free or its own, is put into the bucket of the lowest type that its location - of valid names, of
    items with 32-bit ids - names, which exists, is of that type and has room, behind the items that are there, with its weight in fixed point; the
    weights of the buckets above are raised up to the roots, so that the map agrees
    again, and nothing else in the buckets changes.  The device has its name, and the number of
    devices covers it. *)
Theorem insert_item_puts_in pow T fuel c A id weight name loc bid p n :
  depicts c A → typed T A → agree (λ _, False) A → 0 <= T < Z.of_nat fuel → 0 <= id < 2147483647 →
  (∀ q m, slot A q = Some m → id ∉ n_items m) →
  is_valid_crush_name name = true → is_valid_crush_loc loc = true → default id (cw_name_rmap (build_rmaps c) !! name) = id →
  (∀ l, l ∈ loc → is_s32 (id_of c l.2)) → goes_to A c (cw_type_map c) loc bid p n →
  wp (insert_item pow fuel id weight name loc) (c, []) (λ r '(c', o'), r = 0 ∧ o' = [] ∧
    (cw_name_map c' = cw_name_map c ∨ cw_name_map c' = map_put (cw_name_map c) id name) ∧ id_of c' name = id ∧
    m_max_devices (cw_crush c') = Z.max (m_max_devices (cw_crush c)) (id + 1) ∧
    ∃ A', depicts c' A' ∧ put_in T A id p (u32 (fixed weight)) A').
Proof.
  intros Hd Ht Ha HT Hid Hnew Hv Hvl Hcl Hloc Hgo. unfold insert_item. rewrite Hv, Hvl. cbn [negb].
  destruct (claim_ok c id name Hv Hcl) as (c1 & Ec & Hc1). eapply (wp_bind_eq _ _ _ true (c1, [])); [unfold on_names; by rewrite Ec|]. cbn [negb].
  pose proof Hc1 as [E1 E2 E3 E4 E5]. eapply (wp_bind_eq _ _ _ (cw_type_map c1) (c1, [])); [done|]. cbv beta.
  pose proof (depicts_crush c c1 A E1 Hd) as Hd1. destruct Hgo as [(t & s & Hlow & Hty & Hs) Hbid Hn Hroom].
  assert (s ≠ name) as Hsn by (intros ->; rewrite Hs in Hcl; simpl in Hcl; lia).
  assert (build_rmaps c1 = c1) as Eb by (unfold build_rmaps; by rewrite E3).
  assert (id_of c1 s = bid) as Hids by (rewrite (claimed_id _ _ _ _ s Hc1), decide_False by done; unfold id_of; by rewrite Hs).
  eapply wp_bind_mono; [apply (insert_loop_ok pow T fuel c1 A id loc bid p n Hd1 Ht); [lia|lia|done|]|].
  { rewrite E2. constructor; [|done..]. exists t, s. split; [done|]. split; [done|]. by rewrite Eb, E5, decide_False. }
  intros r [c2 o2] (-> & -> & Hr2 & Hd2). cbv beta iota. set (A1 := appended A p n id 0) in *. pose proof (depicts_full _ _ Hd) as Hf.
  destruct (lowest_in _ _ _ _ Hlow) as (l & Hl & <-).
  assert (is_bucket A1 (id_of c2 l.2) = true) as Hib.
  { rewrite (id_of_rebuilt c1 c2 _ Hr2), Hids. destruct Hbid as (Hneg & _ & Hp). unfold is_bucket.
    rewrite (proj2 (Z.ltb_lt bid 0)), Hp by done. apply bool_decide_eq_true_2, (same_types_some A); [by apply appended_types|by exists n]. }
  assert (bucket_pos (id_of c2 l.2) = p) as Hip by (rewrite (id_of_rebuilt c1 c2 _ Hr2), Hids; by destruct Hbid as (_ & _ & ?)).
  eapply wp_bind_mono; [apply (weigh_put_ok pow T fuel c2 A p n id (fixed weight) loc l Ht Ha Hf Hn ltac:(lia) Hnew HT Hd2)|].
  1: intros x Hx; rewrite (id_of_rebuilt c1 c2 _ Hr2), (claimed_id _ _ _ _ _ Hc1); case_decide; [unfold is_s32; lia|by apply Hloc].
  1-3: done.
  intros r [c3 o3] (-> & Hr & Hr3 & A' & Hd3 & Hput). rewrite Z.gtb_ltb, (proj2 (Z.ltb_lt 0 r)) by done.
  pose proof (rebuilt_names_trans _ _ _ Hr2 Hr3) as Hr13. pose proof (id_of_rebuilt c1 c3 name Hr13) as Hi3. rewrite (claimed_id _ _ _ _ name Hc1), decide_True in Hi3 by done.
  destruct Hr13 as [bs E3b]. rewrite Eb in E3b. destruct (build_rmaps_maps c3) as (F1 & F2 & _). rewrite E3b in F1, F2. simpl in F1, F2.
  eapply (wp_bind_eq _ _ _ c3 (c3, [])); [done|]. cbv beta.
  assert (m_max_devices (cw_crush c3) = m_max_devices (cw_crush c)) as Em by by rewrite <- F1, E1.
  rewrite Em, Z.geb_leb. destruct (Z.leb_spec (m_max_devices (cw_crush c)) id) as [Hle|Hgt].
  - eapply wp_bind_eq; [reflexivity|]. apply wp_ret. split; [done|]. split; [done|]. cbn. rewrite <- F2. split; [done|].
    split; [unfold id_of; by rewrite build_set_crush|]. split; [rewrite s32_small by (unfold is_s32; lia); lia|]. exists A'. split; [|done].
    destruct Hd3 as [D1 D2 D3 D4]. by constructor.
  - eapply wp_bind_eq; [reflexivity|]. apply wp_ret. split; [done|]. split; [done|]. rewrite <- F2. split; [done|]. split; [done|]. split; [lia|]. by exists A'.
Qed.

(** Changing the weight of an item in a location sets it in the buckets that
    the location names and hold the item, leaves its other instances alone, carries
    the change to all buckets above, and answers in how many of the named buckets the
    item was, or [-ENOENT]. *)
Theorem adjust_item_weight_in_loc_exact pow T fuel c A id w loc :
  depicts c A → typed T A → agree (λ j, j = id) A → 0 <= T < Z.of_nat fuel → (∀ l, l ∈ loc → is_s32 (id_of c l.2)) →
  wp (adjust_item_weight_in_loc pow fuel id w loc) (c, []) (λ r '(c', o'), o' = [] ∧ rebuilt_names c c' ∧
    r = (if loc_count A c id loc =? 0 then - ENOENT else loc_count A c id loc) ∧
    ∃ A', depicts c' A' ∧ shape A' = shape A ∧ agree (λ j, j = id) A' ∧
      (∀ p k v, loc_at A c loc p → cell A' p k id v → v = u32 w) ∧ (∀ p k v, ¬ loc_at A c loc p → cell A p k id v → cell A' p k id v) ∧
      kept (λ j, j ≠ id ∧ level A j <= level A id) A A').
Proof.
  intros Hd Ht Ha HT Hloc. assert (0 <= level A id) as Hh.
  { unfold level. destruct (0 <=? id); [done|]. destruct (slot A _) as [n|] eqn:E; [|done]. destruct (Ht _ n E) as [? _]. simpl. lia. }
  eapply wp_bind_mono; [apply (in_loc_loop_ok pow T fuel ltac:(lia) loc c A id w 0 Hd Ht); [by apply agree_one|lia|done]|].
  intros r [c' o'] (-> & -> & A' & [R D S G Set_ Rest K]). apply wp_ret. split; [done|]. split; [done|]. split; [done|].
  exists A'. apply agree_one in G. done.
Qed.

(** *** Samples *)

Definition sample_loc : list (string * string) := [("host", "a"); ("root", "default")]%string.

Lemma sample_loc_ids l : l ∈ sample_loc → is_s32 (id_of sample_names l.2).
Proof. intros [->|[->|?%elem_of_nil]%elem_of_cons]%elem_of_cons; [by vm_compute|by vm_compute|done]. Qed.

Lemma sample_goes_to : goes_to sample_picture sample_names (cw_type_map sample_names) sample_loc (-2) 1 (Node 1 [0] [65536]).
Proof. constructor; [exists 1, "a"%string; split; [reflexivity|split; [done|by vm_compute]]|by vm_compute|done|done]. Qed.

Lemma insert_item_puts_in_witness : wp (insert_item (λ x _, x) 3 5 (weightf 200) "osd.5" sample_loc) (sample_names, []) (λ r '(c', o'), r = 0 ∧ o' = [] ∧
    (cw_name_map c' = cw_name_map sample_names ∨ cw_name_map c' = map_put (cw_name_map sample_names) 5 "osd.5"%string) ∧ id_of c' "osd.5" = 5 ∧
    m_max_devices (cw_crush c') = Z.max (m_max_devices (cw_crush sample_names)) (5 + 1) ∧
    ∃ A', depicts c' A' ∧ put_in 2 sample_picture 5 1 (u32 (fixed (weightf 200))) A').
Proof.
  apply (insert_item_puts_in (λ x _, x) 2 3 sample_names sample_picture 5 (weightf 200) "osd.5" sample_loc (-2) 1 (Node 1 [0] [65536]));
    [apply sample_depicts|apply sample_typed|apply sample_agree|lia|lia| |by vm_compute|by vm_compute|by vm_compute|apply sample_loc_ids|apply sample_goes_to].
  intros [|[|[|[|q]]]] m; try done; intros [= <-]; apply (bool_decide_unpack _); by vm_compute.
Defined.

Lemma adjust_item_weight_in_loc_exact_witness : wp (adjust_item_weight_in_loc (λ x _, x) 3 0 100 sample_loc) (sample_names, []) (λ r '(c', o'), o' = [] ∧ rebuilt_names sample_names c' ∧
    r = (if loc_count sample_picture sample_names 0 sample_loc =? 0 then - ENOENT else loc_count sample_picture sample_names 0 sample_loc) ∧
    ∃ A', depicts c' A' ∧ shape A' = shape sample_picture ∧ agree (λ j, j = 0) A' ∧
      (∀ p k v, loc_at sample_picture sample_names sample_loc p → cell A' p k 0 v → v = u32 100) ∧
      (∀ p k v, ¬ loc_at sample_picture sample_names sample_loc p → cell sample_picture p k 0 v → cell A' p k 0 v) ∧
      kept (λ j, j ≠ 0 ∧ level sample_picture j <= level sample_picture 0) sample_picture A').
Proof.
  apply (adjust_item_weight_in_loc_exact (λ x _, x) 2 3 sample_names sample_picture 0 100 sample_loc);
    [apply sample_depicts|apply sample_typed|apply sample_agree|lia|apply sample_loc_ids].
Defined.

Example sample_inserted : ∃ c, insert_item (λ x _, x) 3 5 (weightf 200) "osd.5" sample_loc (sample_names, []) = Ok (0, (c, [])) ∧
  (λ b, (b_weight (bucket_h b), b_items (bucket_h b))) <$> omap Datatypes.id (m_buckets (cw_crush c)) =
    [(131272, [Some (-2); Some (-3)]); (65736, [Some 0; Some 5]); (65536, [Some 1])] ∧ m_max_devices (cw_crush c) = 6.
Proof. eexists. split; [vm_compute; reflexivity|done]. Qed.

(** An item that is in a bucket already is put into another: there is no [-EEXIST]. *)
Theorem insert_item_twice : ∃ c, insert_item (λ x _, x) 3 1 (weightf 200) "osd.1" sample_loc (sample_names, []) = Ok (0, (c, [])) ∧
  (λ b, b_items (bucket_h b)) <$> omap Datatypes.id (m_buckets (cw_crush c)) = [[Some (-2); Some (-3)]; [Some 0; Some 1]; [Some 1]].
Proof. eexists. split; [vm_compute; reflexivity|done]. Qed.

(** A name stays when nothing was inserted. *)
Theorem insert_item_leaves_name : ∃ c, insert_item (λ x _, x) 3 5 (weightf 200) "osd.5" [] (sample_names, []) = Ok (- EINVAL, (c, [])) ∧
  get_item_name c 5 = Some "osd.5"%string.
Proof. eexists. split; [vm_compute; reflexivity|done]. Qed.
