(* ===== verification/OsdState.v ===== *)
(** * The state of a cluster map (src/osd/OSDMap.h, OSDMap.cc)

    The records of [OSDMap]: what is known of every OSD, in vectors indexed by
    its number, and the pools, temporary mappings and names.  The operations
    here read and change the part about the OSDs. *)

From stdpp Require Import gmap strings.
From S2P Require Import Prelude CrushTypes CrushWrapper StdMap IntervalSet SnapSet.
From S2P Require Import Pg.

Definition CEPH_OSD_EXISTS : Z := 1.
Definition CEPH_OSD_UP : Z := 2.
Definition CEPH_OSD_AUTOOUT : Z := 4.
Definition CEPH_OSD_NEW : Z := 8.
Definition CEPH_OSD_IN : Z := 65536.
Definition CEPH_OSD_OUT : Z := 0.
Definition CEPH_OSD_MAX_PRIMARY_AFFINITY : Z := 65536.
Definition CEPH_OSD_DEFAULT_PRIMARY_AFFINITY : Z := 65536.

(** Sixteen bytes, as a number; the default is zero. *)
Abbreviation uuid_d := Z (only parsing).

(** Seconds and nanoseconds. *)
Definition utime_t : Type := Z * Z.

(** The address family, port and host of the [sockaddr] as fields of their own. *)
Record entity_addr_t := EntityAddr { a_type : Z; a_nonce : Z; a_family : Z; a_port : Z; a_host : list Z }.

#[export] Instance entity_addr_eq_dec : EqDecision entity_addr_t.
Proof. solve_decision. Defined.
#[export] Instance entity_addr_countable : Countable entity_addr_t.
Proof.
  refine (inj_countable' (λ a, (a_type a, a_nonce a, a_family a, a_port a, a_host a))
    (λ '(t, n, f, p, h), EntityAddr t n f p h) _).
  by intros [].
Defined.

Record osd_info_t := OsdInfo {
  last_clean_begin : Z;
  last_clean_end : Z;
  up_from : Z;
  up_thru : Z;
  down_at : Z;
  lost_at : Z }.

Definition with_last_clean_begin (v : Z) (o : osd_info_t) : osd_info_t :=
  OsdInfo v (last_clean_end o) (up_from o) (up_thru o) (down_at o) (lost_at o).
Definition with_last_clean_end (v : Z) (o : osd_info_t) : osd_info_t :=
  OsdInfo (last_clean_begin o) v (up_from o) (up_thru o) (down_at o) (lost_at o).
Definition with_up_from (v : Z) (o : osd_info_t) : osd_info_t :=
  OsdInfo (last_clean_begin o) (last_clean_end o) v (up_thru o) (down_at o) (lost_at o).
Definition with_up_thru (v : Z) (o : osd_info_t) : osd_info_t :=
  OsdInfo (last_clean_begin o) (last_clean_end o) (up_from o) v (down_at o) (lost_at o).
Definition with_down_at (v : Z) (o : osd_info_t) : osd_info_t :=
  OsdInfo (last_clean_begin o) (last_clean_end o) (up_from o) (up_thru o) v (lost_at o).
Definition with_lost_at (v : Z) (o : osd_info_t) : osd_info_t :=
  OsdInfo (last_clean_begin o) (last_clean_end o) (up_from o) (up_thru o) (down_at o) v.

Record osd_xinfo_t := OsdXinfo {
  down_stamp : utime_t;
  laggy_probability : Z;  (* the bits of a float *)
  laggy_interval : Z;
  features : Z;
  old_weight : Z }.

Definition with_down_stamp (v : utime_t) (o : osd_xinfo_t) : osd_xinfo_t :=
  OsdXinfo v (laggy_probability o) (laggy_interval o) (features o) (old_weight o).
Definition with_old_weight (v : Z) (o : osd_xinfo_t) : osd_xinfo_t :=
  OsdXinfo (down_stamp o) (laggy_probability o) (laggy_interval o) (features o) v.

Definition osd_info0 : osd_info_t := OsdInfo 0 0 0 0 0 0.
Definition osd_xinfo0 : osd_xinfo_t := OsdXinfo (0, 0) 0 0 0 0.

(** ** The OSDs *)

Record osds := Osds {
  max_osd : Z;
  num_osd : Z;
  osd_state : list Z;  (* uint8_t *)
  osd_weight : list Z;  (* 16.16 fixed point *)
  osd_info : list osd_info_t;
  osd_xinfo : list osd_xinfo_t;
  client_addr : list (option entity_addr_t);  (* null or an address *)
  cluster_addr : list (option entity_addr_t);
  hb_back_addr : list (option entity_addr_t);
  hb_front_addr : list (option entity_addr_t);
  osd_uuid : list uuid_d;
  osd_primary_affinity : option (list Z) }.  (* null until a value is set *)

Definition with_max_osd (v : Z) (o : osds) : osds :=
  Osds v (num_osd o) (osd_state o) (osd_weight o) (osd_info o) (osd_xinfo o) (client_addr o) (cluster_addr o)
    (hb_back_addr o) (hb_front_addr o) (osd_uuid o) (osd_primary_affinity o).
Definition with_num_osd (v : Z) (o : osds) : osds :=
  Osds (max_osd o) v (osd_state o) (osd_weight o) (osd_info o) (osd_xinfo o) (client_addr o) (cluster_addr o)
    (hb_back_addr o) (hb_front_addr o) (osd_uuid o) (osd_primary_affinity o).
Definition with_osd_state (v : list Z) (o : osds) : osds :=
  Osds (max_osd o) (num_osd o) v (osd_weight o) (osd_info o) (osd_xinfo o) (client_addr o) (cluster_addr o)
    (hb_back_addr o) (hb_front_addr o) (osd_uuid o) (osd_primary_affinity o).
Definition with_osd_weight (v : list Z) (o : osds) : osds :=
  Osds (max_osd o) (num_osd o) (osd_state o) v (osd_info o) (osd_xinfo o) (client_addr o) (cluster_addr o)
    (hb_back_addr o) (hb_front_addr o) (osd_uuid o) (osd_primary_affinity o).
Definition with_osd_info (v : list osd_info_t) (o : osds) : osds :=
  Osds (max_osd o) (num_osd o) (osd_state o) (osd_weight o) v (osd_xinfo o) (client_addr o) (cluster_addr o)
    (hb_back_addr o) (hb_front_addr o) (osd_uuid o) (osd_primary_affinity o).
Definition with_osd_xinfo (v : list osd_xinfo_t) (o : osds) : osds :=
  Osds (max_osd o) (num_osd o) (osd_state o) (osd_weight o) (osd_info o) v (client_addr o) (cluster_addr o)
    (hb_back_addr o) (hb_front_addr o) (osd_uuid o) (osd_primary_affinity o).
Definition with_client_addr (v : list (option entity_addr_t)) (o : osds) : osds :=
  Osds (max_osd o) (num_osd o) (osd_state o) (osd_weight o) (osd_info o) (osd_xinfo o) v (cluster_addr o)
    (hb_back_addr o) (hb_front_addr o) (osd_uuid o) (osd_primary_affinity o).
Definition with_cluster_addr (v : list (option entity_addr_t)) (o : osds) : osds :=
  Osds (max_osd o) (num_osd o) (osd_state o) (osd_weight o) (osd_info o) (osd_xinfo o) (client_addr o) v
    (hb_back_addr o) (hb_front_addr o) (osd_uuid o) (osd_primary_affinity o).
Definition with_hb_back_addr (v : list (option entity_addr_t)) (o : osds) : osds :=
  Osds (max_osd o) (num_osd o) (osd_state o) (osd_weight o) (osd_info o) (osd_xinfo o) (client_addr o)
    (cluster_addr o) v (hb_front_addr o) (osd_uuid o) (osd_primary_affinity o).
Definition with_hb_front_addr (v : list (option entity_addr_t)) (o : osds) : osds :=
  Osds (max_osd o) (num_osd o) (osd_state o) (osd_weight o) (osd_info o) (osd_xinfo o) (client_addr o)
    (cluster_addr o) (hb_back_addr o) v (osd_uuid o) (osd_primary_affinity o).
Definition with_osd_uuid (v : list uuid_d) (o : osds) : osds :=
  Osds (max_osd o) (num_osd o) (osd_state o) (osd_weight o) (osd_info o) (osd_xinfo o) (client_addr o)
    (cluster_addr o) (hb_back_addr o) (hb_front_addr o) v (osd_primary_affinity o).
Definition with_osd_primary_affinity (v : option (list Z)) (o : osds) : osds :=
  Osds (max_osd o) (num_osd o) (osd_state o) (osd_weight o) (osd_info o) (osd_xinfo o) (client_addr o)
    (cluster_addr o) (hb_back_addr o) (hb_front_addr o) (osd_uuid o) v.

(** ** The map *)

Record OSDMap := MkOSDMap {
  om_fsid : uuid_d;
  om_epoch : Z;
  om_modified : utime_t;
  om_pool_max : Z;
  om_flags : Z;
  om_osds : osds;
  om_pg_temp : gmap pg_t (list Z);
  om_primary_temp : gmap pg_t Z;
  om_pools : list (Z * pg_pool_t);  (* std::map *)
  om_pool_name : list (Z * string);
  om_name_pool : gmap string Z;
  om_profiles : gmap string (gmap string string);  (* erasure_code_profiles *)
  om_blacklist : gmap entity_addr_t utime_t;
  om_snapshot_epoch : Z;
  om_snapshot : string;  (* cluster_snapshot *)
  om_new_blacklist_entries : bool;
  om_up_features : Z;  (* cached_up_osd_features *)
  om_crush : crush_wrapper }.

Definition with_om_fsid (v : uuid_d) (o : OSDMap) : OSDMap :=
  MkOSDMap v (om_epoch o) (om_modified o) (om_pool_max o) (om_flags o) (om_osds o) (om_pg_temp o)
    (om_primary_temp o) (om_pools o) (om_pool_name o) (om_name_pool o) (om_profiles o) (om_blacklist o)
    (om_snapshot_epoch o) (om_snapshot o) (om_new_blacklist_entries o) (om_up_features o) (om_crush o).
Definition with_om_epoch (v : Z) (o : OSDMap) : OSDMap :=
  MkOSDMap (om_fsid o) v (om_modified o) (om_pool_max o) (om_flags o) (om_osds o) (om_pg_temp o)
    (om_primary_temp o) (om_pools o) (om_pool_name o) (om_name_pool o) (om_profiles o) (om_blacklist o)
    (om_snapshot_epoch o) (om_snapshot o) (om_new_blacklist_entries o) (om_up_features o) (om_crush o).
Definition with_om_modified (v : utime_t) (o : OSDMap) : OSDMap :=
  MkOSDMap (om_fsid o) (om_epoch o) v (om_pool_max o) (om_flags o) (om_osds o) (om_pg_temp o)
    (om_primary_temp o) (om_pools o) (om_pool_name o) (om_name_pool o) (om_profiles o) (om_blacklist o)
    (om_snapshot_epoch o) (om_snapshot o) (om_new_blacklist_entries o) (om_up_features o) (om_crush o).
Definition with_om_pool_max (v : Z) (o : OSDMap) : OSDMap :=
  MkOSDMap (om_fsid o) (om_epoch o) (om_modified o) v (om_flags o) (om_osds o) (om_pg_temp o)
    (om_primary_temp o) (om_pools o) (om_pool_name o) (om_name_pool o) (om_profiles o) (om_blacklist o)
    (om_snapshot_epoch o) (om_snapshot o) (om_new_blacklist_entries o) (om_up_features o) (om_crush o).
Definition with_om_flags (v : Z) (o : OSDMap) : OSDMap :=
  MkOSDMap (om_fsid o) (om_epoch o) (om_modified o) (om_pool_max o) v (om_osds o) (om_pg_temp o)
    (om_primary_temp o) (om_pools o) (om_pool_name o) (om_name_pool o) (om_profiles o) (om_blacklist o)
    (om_snapshot_epoch o) (om_snapshot o) (om_new_blacklist_entries o) (om_up_features o) (om_crush o).
Definition with_om_osds (v : osds) (o : OSDMap) : OSDMap :=
  MkOSDMap (om_fsid o) (om_epoch o) (om_modified o) (om_pool_max o) (om_flags o) v (om_pg_temp o)
    (om_primary_temp o) (om_pools o) (om_pool_name o) (om_name_pool o) (om_profiles o) (om_blacklist o)
    (om_snapshot_epoch o) (om_snapshot o) (om_new_blacklist_entries o) (om_up_features o) (om_crush o).
Definition with_om_pg_temp (v : gmap pg_t (list Z)) (o : OSDMap) : OSDMap :=
  MkOSDMap (om_fsid o) (om_epoch o) (om_modified o) (om_pool_max o) (om_flags o) (om_osds o) v
    (om_primary_temp o) (om_pools o) (om_pool_name o) (om_name_pool o) (om_profiles o) (om_blacklist o)
    (om_snapshot_epoch o) (om_snapshot o) (om_new_blacklist_entries o) (om_up_features o) (om_crush o).
Definition with_om_primary_temp (v : gmap pg_t Z) (o : OSDMap) : OSDMap :=
  MkOSDMap (om_fsid o) (om_epoch o) (om_modified o) (om_pool_max o) (om_flags o) (om_osds o) (om_pg_temp o) v
    (om_pools o) (om_pool_name o) (om_name_pool o) (om_profiles o) (om_blacklist o) (om_snapshot_epoch o)
    (om_snapshot o) (om_new_blacklist_entries o) (om_up_features o) (om_crush o).
Definition with_om_pools (v : list (Z * pg_pool_t)) (o : OSDMap) : OSDMap :=
  MkOSDMap (om_fsid o) (om_epoch o) (om_modified o) (om_pool_max o) (om_flags o) (om_osds o) (om_pg_temp o)
    (om_primary_temp o) v (om_pool_name o) (om_name_pool o) (om_profiles o) (om_blacklist o)
    (om_snapshot_epoch o) (om_snapshot o) (om_new_blacklist_entries o) (om_up_features o) (om_crush o).
Definition with_om_pool_name (v : list (Z * string)) (o : OSDMap) : OSDMap :=
  MkOSDMap (om_fsid o) (om_epoch o) (om_modified o) (om_pool_max o) (om_flags o) (om_osds o) (om_pg_temp o)
    (om_primary_temp o) (om_pools o) v (om_name_pool o) (om_profiles o) (om_blacklist o) (om_snapshot_epoch o)
    (om_snapshot o) (om_new_blacklist_entries o) (om_up_features o) (om_crush o).
Definition with_om_name_pool (v : gmap string Z) (o : OSDMap) : OSDMap :=
  MkOSDMap (om_fsid o) (om_epoch o) (om_modified o) (om_pool_max o) (om_flags o) (om_osds o) (om_pg_temp o)
    (om_primary_temp o) (om_pools o) (om_pool_name o) v (om_profiles o) (om_blacklist o) (om_snapshot_epoch o)
    (om_snapshot o) (om_new_blacklist_entries o) (om_up_features o) (om_crush o).
Definition with_om_profiles (v : gmap string (gmap string string)) (o : OSDMap) : OSDMap :=
  MkOSDMap (om_fsid o) (om_epoch o) (om_modified o) (om_pool_max o) (om_flags o) (om_osds o) (om_pg_temp o)
    (om_primary_temp o) (om_pools o) (om_pool_name o) (om_name_pool o) v (om_blacklist o)
    (om_snapshot_epoch o) (om_snapshot o) (om_new_blacklist_entries o) (om_up_features o) (om_crush o).
Definition with_om_blacklist (v : gmap entity_addr_t utime_t) (o : OSDMap) : OSDMap :=
  MkOSDMap (om_fsid o) (om_epoch o) (om_modified o) (om_pool_max o) (om_flags o) (om_osds o) (om_pg_temp o)
    (om_primary_temp o) (om_pools o) (om_pool_name o) (om_name_pool o) (om_profiles o) v (om_snapshot_epoch o)
    (om_snapshot o) (om_new_blacklist_entries o) (om_up_features o) (om_crush o).
Definition with_om_snapshot_epoch (v : Z) (o : OSDMap) : OSDMap :=
  MkOSDMap (om_fsid o) (om_epoch o) (om_modified o) (om_pool_max o) (om_flags o) (om_osds o) (om_pg_temp o)
    (om_primary_temp o) (om_pools o) (om_pool_name o) (om_name_pool o) (om_profiles o) (om_blacklist o) v
    (om_snapshot o) (om_new_blacklist_entries o) (om_up_features o) (om_crush o).
Definition with_om_snapshot (v : string) (o : OSDMap) : OSDMap :=
  MkOSDMap (om_fsid o) (om_epoch o) (om_modified o) (om_pool_max o) (om_flags o) (om_osds o) (om_pg_temp o)
    (om_primary_temp o) (om_pools o) (om_pool_name o) (om_name_pool o) (om_profiles o) (om_blacklist o)
    (om_snapshot_epoch o) v (om_new_blacklist_entries o) (om_up_features o) (om_crush o).
Definition with_om_new_blacklist_entries (v : bool) (o : OSDMap) : OSDMap :=
  MkOSDMap (om_fsid o) (om_epoch o) (om_modified o) (om_pool_max o) (om_flags o) (om_osds o) (om_pg_temp o)
    (om_primary_temp o) (om_pools o) (om_pool_name o) (om_name_pool o) (om_profiles o) (om_blacklist o)
    (om_snapshot_epoch o) (om_snapshot o) v (om_up_features o) (om_crush o).
Definition with_om_up_features (v : Z) (o : OSDMap) : OSDMap :=
  MkOSDMap (om_fsid o) (om_epoch o) (om_modified o) (om_pool_max o) (om_flags o) (om_osds o) (om_pg_temp o)
    (om_primary_temp o) (om_pools o) (om_pool_name o) (om_name_pool o) (om_profiles o) (om_blacklist o)
    (om_snapshot_epoch o) (om_snapshot o) (om_new_blacklist_entries o) v (om_crush o).
Definition with_om_crush (v : crush_wrapper) (o : OSDMap) : OSDMap :=
  MkOSDMap (om_fsid o) (om_epoch o) (om_modified o) (om_pool_max o) (om_flags o) (om_osds o) (om_pg_temp o)
    (om_primary_temp o) (om_pools o) (om_pool_name o) (om_name_pool o) (om_profiles o) (om_blacklist o)
    (om_snapshot_epoch o) (om_snapshot o) (om_new_blacklist_entries o) (om_up_features o) v.

(** ** Reading the state of an OSD *)

(** [a && b] *)
Definition and_then (a : res bool) (b : res bool) : res bool :=
  x ← a; if (x : bool) then b else Ok false.

Definition osd_exists (o : osds) (osd : Z) : res bool :=
  if (osd >=? 0) && (osd <? max_osd o)
  then s ← vget (osd_state o) osd; Ok (negb (Z.land s CEPH_OSD_EXISTS =? 0))
  else Ok false.

Definition is_up (o : osds) (osd : Z) : res bool :=
  and_then (osd_exists o osd) (s ← vget (osd_state o) osd; Ok (negb (Z.land s CEPH_OSD_UP =? 0))).

Definition is_down (o : osds) (osd : Z) : res bool := u ← is_up o osd; Ok (negb u).

Definition get_weight (o : osds) (osd : Z) : res Z :=
  _ ← assert_c (osd <? max_osd o); vget (osd_weight o) osd.

Definition osd_is_out (o : osds) (osd : Z) : res bool :=
  e ← osd_exists o osd;
  if (e : bool) then w ← get_weight o osd; Ok (w =? CEPH_OSD_OUT) else Ok true.

Definition get_primary_affinity (o : osds) (osd : Z) : res Z :=
  _ ← assert_c (osd <? max_osd o);
  match osd_primary_affinity o with
  | None => Ok CEPH_OSD_DEFAULT_PRIMARY_AFFINITY
  | Some v => vget v osd
  end.

(** [for (int i=0; i<max_osd; i++) if (osd_state[i] & CEPH_OSD_EXISTS) num_osd++;] *)
Definition calc_num_osds : M osds Z := λ o,
  n ← for_up (Z.to_nat (max_osd o)) 0 (λ i n,
    s ← vget (osd_state o) i; Ok (if negb (Z.land s CEPH_OSD_EXISTS =? 0) then s32 (n + 1) else n)) 0;
  Ok (n, with_num_osd n o).

Definition get_num_up_osds (o : osds) : res Z :=
  for_up (Z.to_nat (max_osd o)) 0 (λ i n,
    s ← vget (osd_state o) i;
    Ok (if negb (Z.land s CEPH_OSD_EXISTS =? 0) && negb (Z.land s CEPH_OSD_UP =? 0) then u32 (n + 1) else n)) 0.

Definition get_num_in_osds (o : osds) : res Z :=
  for_up (Z.to_nat (max_osd o)) 0 (λ i n,
    s ← vget (osd_state o) i;
    if negb (Z.land s CEPH_OSD_EXISTS =? 0)
    then w ← get_weight o i; Ok (if negb (w =? CEPH_OSD_OUT) then u32 (n + 1) else n)
    else Ok n) 0.

Definition get_all_osds (o : osds) : res (list Z) :=
  for_up (Z.to_nat (max_osd o)) 0 (λ i ls, e ← osd_exists o i; Ok (if (e : bool) then ls ++ [i] else ls)) [].

Definition get_up_osds (o : osds) : res (list Z) :=
  for_up (Z.to_nat (max_osd o)) 0 (λ i ls, u ← is_up o i; Ok (if (u : bool) then ls ++ [i] else ls)) [].

(** ** Changing it *)

(** [v[i] = f(v[i])] for one of the vectors *)
Definition vmod {A} (get : osds → list A) (put : list A → osds → osds) (i : Z) (f : A → A) : M osds unit := λ o,
  x ← vget (get o) i; v ← vset (get o) i (f x); Ok (tt, put v o).

Definition mod_state (i : Z) (f : Z → Z) : M osds unit := vmod osd_state with_osd_state i f.
Definition mod_info (i : Z) (f : osd_info_t → osd_info_t) : M osds unit := vmod osd_info with_osd_info i f.
Definition mod_xinfo (i : Z) (f : osd_xinfo_t → osd_xinfo_t) : M osds unit := vmod osd_xinfo with_osd_xinfo i f.

Definition set_state (i s : Z) : M osds unit :=
  m ← gets max_osd; _ ← lift (assert_c (i <? m)); mod_state i (λ _, u8 s).

Definition set_weight (i w : Z) : M osds unit :=
  m ← gets max_osd;
  _ ← lift (assert_c (i <? m));
  _ ← vmod osd_weight with_osd_weight i (λ _, w);
  if negb (w =? 0) then mod_state i (λ s, u8 (Z.lor s CEPH_OSD_EXISTS)) else mret tt.

Definition set_primary_affinity (i w : Z) : M osds unit := λ o,
  _ ← assert_c (i <? max_osd o);
  let v := match osd_primary_affinity o with
           | Some v => v
           | None => replicate (Z.to_nat (max_osd o)) CEPH_OSD_DEFAULT_PRIMARY_AFFINITY
           end in
  v ← vset v i (u32 w);
  Ok (tt, with_osd_primary_affinity (Some v) o).

(** [for (; o<max_osd; o++) { osd_state[o] = 0; osd_weight[o] = CEPH_OSD_OUT; }] *)
Fixpoint fresh_osds (n : nat) (i : Z) (o : osds) : res osds :=
  match n with
  | O => Ok o
  | S n =>
      s ← vset (osd_state o) i 0;
      w ← vset (osd_weight o) i CEPH_OSD_OUT;
      fresh_osds n (i + 1) (with_osd_state s (with_osd_weight w o))
  end.

Definition set_max_osd (m : Z) : M osds unit := λ o,
  let from := max_osd o in
  s ← vresize (osd_state o) m 0;
  w ← vresize (osd_weight o) m 0;
  o ← fresh_osds (Z.to_nat (m - from)) from (with_max_osd m (with_osd_state s (with_osd_weight w o)));
  info ← vresize (osd_info o) m osd_info0;
  xinfo ← vresize (osd_xinfo o) m osd_xinfo0;
  client ← vresize (client_addr o) m None;
  cluster ← vresize (cluster_addr o) m None;
  back ← vresize (hb_back_addr o) m None;
  front ← vresize (hb_front_addr o) m None;
  uuid ← vresize (osd_uuid o) m 0;
  affinity ← match osd_primary_affinity o with
             | None => Ok None
             | Some v => v ← vresize v m CEPH_OSD_DEFAULT_PRIMARY_AFFINITY; Ok (Some v)
             end;
  '(_, o) ← calc_num_osds
    (Osds (max_osd o) (num_osd o) (osd_state o) (osd_weight o) info xinfo client cluster back front uuid affinity);
  Ok (tt, o).
