(* ===== verification/OsdMapping.v ===== *)
(** * From objects to OSDs (src/osd/OSDMap.cc, OSDMap.h)

    The pipeline that maps an object to a placement group, and a placement
    group to the ordered list of the OSDs that hold it: the CRUSH result, less
    the OSDs that do not exist ([raw]); less those that are down ([up]), with
    a primary chosen by affinity; and the temporary override ([acting]). *)

From stdpp Require Import gmap strings.
From S2P Require Import Prelude Hash CrushTypes CrushWrapper StdMap StrHash IntervalSet.
From S2P Require Import SnapSet Pg OsdState.

(** [!exists(o) || is_down(o)] *)
Definition absent (o : osds) (osd : Z) : res bool :=
  e ← osd_exists o osd; if (e : bool) then is_down o osd else Ok true.

(** ** Objects to placement groups *)

Record object_locator_t := Locator { loc_pool : Z; loc_key : list Z; loc_nspace : list Z; loc_hash : Z }.

Definition get_pg_pool (m : OSDMap) (p : Z) : option pg_pool_t := map_find (om_pools m) p.
Definition have_pg_pool (m : OSDMap) (p : Z) : bool := map_count (om_pools m) p.

(** The status, and the placement group when it is zero. *)
Definition object_locator_to_pg (bits : Z) (m : OSDMap) (name : list Z) (loc : object_locator_t) : res (Z * option pg_t) :=
  match get_pg_pool m (loc_pool loc) with
  | None => Ok (- ENOENT, None)
  | Some pool =>
      ps ← (if loc_hash loc >=? 0 then Ok (u32 (loc_hash loc))
            else match loc_key loc with
                 | [] => hash_key bits pool name (loc_nspace loc)
                 | key => hash_key bits pool key (loc_nspace loc)
                 end);
      Ok (0, Some (PgT (u64 (loc_pool loc)) ps (-1)))
  end.

(** ** The raw mapping *)

(** The loop that moves existing OSDs over the removed ones, in place. *)
Fixpoint shift_existing (o : osds) (n : nat) (i removed : Z) (l : list Z) : res (Z * list Z) :=
  match n with
  | O => Ok (removed, l)
  | S n =>
      v ← vget l i;
      e ← osd_exists o v;
      if (e : bool) then
        l ← (if negb (removed =? 0) then vset l (i - removed) v else Ok l);
        shift_existing o n (i + 1) removed l
      else shift_existing o n (i + 1) (removed + 1) l
  end.

Fixpoint mask_nonexistent (o : osds) (l : list Z) : res (list Z) :=
  match l with
  | [] => Ok []
  | v :: l => e ← osd_exists o v; l ← mask_nonexistent o l; Ok ((if (e : bool) then v else CRUSH_ITEM_NONE) :: l)
  end.

Definition _remove_nonexistent_osds (o : osds) (pool : pg_pool_t) (l : list Z) : res (list Z) :=
  shift ← can_shift_osds pool;
  if (shift : bool) then
    '(removed, l) ← shift_existing o (length l) 0 0 l;
    if negb (removed =? 0) then vresize l (Z.of_nat (length l) - removed) 0 else Ok l
  else mask_nonexistent o l.

(** The first entry that is not [CRUSH_ITEM_NONE], or -1. *)
Fixpoint first_osd (l : list Z) : Z :=
  match l with
  | [] => -1
  | v :: l => if negb (v =? CRUSH_ITEM_NONE) then v else first_osd l
  end.

Definition on_crush {A} (f : M crush_wrapper A) : M OSDMap A := λ m,
  '(a, c) ← f (om_crush m); Ok (a, with_om_crush c m).

(** The OSDs, the primary, and the placement seed. *)
Definition _pg_to_osds (fuel : nat) (pool : pg_pool_t) (pg : pg_t) (l : list Z) : M OSDMap (list Z * Z * Z) :=
  let pps := raw_pg_to_pps pool pg in
  let size := s32 (p_size pool) in
  m ← gets id;
  ruleno ← lift (find_rule (om_crush m) (p_crush_ruleset pool) (p_type pool) size);
  l ← (if ruleno >=? 0
       then on_crush (do_rule fuel ruleno (s32 pps) size (osd_weight (om_osds m)))
       else mret l);
  l ← lift (_remove_nonexistent_osds (om_osds m) pool l);
  mret (l, first_osd l, pps).

(** ** The OSDs that are up *)

Fixpoint keep_present (o : osds) (l : list Z) : res (list Z) :=
  match l with
  | [] => Ok []
  | v :: l => a ← absent o v; l ← keep_present o l; Ok (if (a : bool) then l else v :: l)
  end.

(** From the last position to the first: the entries, and the primary so far. *)
Fixpoint mask_absent (o : osds) (raw : list Z) : res (list Z * Z) :=
  match raw with
  | [] => Ok ([], -1)
  | v :: raw =>
      '(up, primary) ← mask_absent o raw;
      a ← absent o v;
      Ok (if (a : bool) then (CRUSH_ITEM_NONE :: up, primary) else (v :: up, v))
  end.

Definition _raw_to_up_osds (o : osds) (pool : pg_pool_t) (raw : list Z) : res (list Z * Z) :=
  shift ← can_shift_osds pool;
  if (shift : bool) then
    up ← keep_present o raw; Ok (up, match up with [] => -1 | v :: _ => v end)
  else mask_absent o raw.

(** ** Primary affinity *)

Fixpoint any_affinity (aff l : list Z) : res bool :=
  match l with
  | [] => Ok false
  | v :: l =>
      if v =? CRUSH_ITEM_NONE then any_affinity aff l
      else a ← vget aff v;
           if negb (a =? CEPH_OSD_DEFAULT_PRIMARY_AFFINITY) then Ok true else any_affinity aff l
  end.

(** The OSD is turned down as primary for this seed. *)
Definition rejected (seed o a : Z) : bool :=
  (a <? CEPH_OSD_MAX_PRIMARY_AFFINITY) && (Z.shiftr (crush_hash32_2 CRUSH_HASH_RJENKINS1 seed o) 16 >=? a).

Fixpoint pick_primary (seed : Z) (aff l : list Z) (i pos : Z) : res Z :=
  match l with
  | [] => Ok pos
  | o :: l =>
      if o =? CRUSH_ITEM_NONE then pick_primary seed aff l (i + 1) pos
      else a ← vget aff o;
           if rejected seed o a then pick_primary seed aff l (i + 1) (if pos <? 0 then i else pos)
           else Ok i
  end.

(** [for (int i = pos; i > 0; --i) osds[i] = osds[i-1];] *)
Fixpoint shift_right (i : nat) (l : list Z) : res (list Z) :=
  match i with
  | O => Ok l
  | S j => v ← vget l (Z.of_nat j); l ← vset l (Z.of_nat i) v; shift_right j l
  end.

Definition _apply_primary_affinity (o : osds) (seed : Z) (pool : pg_pool_t) (l : list Z) (primary : Z) : res (list Z * Z) :=
  match osd_primary_affinity o with
  | None => Ok (l, primary)
  | Some aff =>
      any ← any_affinity aff l;
      if negb any then Ok (l, primary) else
      pos ← pick_primary seed aff l 0 (-1);
      if pos <? 0 then Ok (l, primary) else
      primary ← vget l pos;
      shift ← can_shift_osds pool;
      if shift && (pos >? 0) then
        l ← shift_right (Z.to_nat pos) l; l ← vset l 0 primary; Ok (l, primary)
      else Ok (l, primary)
  end.

(** ** Temporary mappings *)

Fixpoint present_temp (o : osds) (pool : pg_pool_t) (l : list Z) : res (list Z) :=
  match l with
  | [] => Ok []
  | v :: l =>
      a ← absent o v;
      if (a : bool) then
        shift ← can_shift_osds pool;
        l ← present_temp o pool l;
        Ok (if (shift : bool) then l else CRUSH_ITEM_NONE :: l)
      else l ← present_temp o pool l; Ok (v :: l)
  end.

Definition _get_temp_osds (m : OSDMap) (pool : pg_pool_t) (pg : pg_t) : res (list Z * Z) :=
  let pg := raw_pg_to_pg pool pg in
  temp ← match om_pg_temp m !! pg with Some l => present_temp (om_osds m) pool l | None => Ok [] end;
  Ok (temp, match om_primary_temp m !! pg with
            | Some p => p
            | None => match temp with [] => -1 | _ => first_osd temp end
            end).

(** ** The whole pipeline *)

Definition pg_to_osds (fuel : nat) (pg : pg_t) : M OSDMap (Z * list Z * Z) :=
  m ← gets id;
  match get_pg_pool m (s64 (m_pool pg)) with
  | None => mret (0, [], -1)
  | Some pool =>
      '(raw, primary, _) ← _pg_to_osds fuel pool pg [];
      mret (Z.of_nat (length raw), raw, primary)
  end.

Definition pg_to_raw_up (fuel : nat) (pg : pg_t) : M OSDMap (list Z * Z) :=
  m ← gets id;
  match get_pg_pool m (s64 (m_pool pg)) with
  | None => mret ([], -1)
  | Some pool =>
      '(raw, _, pps) ← _pg_to_osds fuel pool pg [];
      '(up, primary) ← lift (_raw_to_up_osds (om_osds m) pool raw);
      lift (_apply_primary_affinity (om_osds m) pps pool up primary)
  end.

(** [up], its primary, [acting] and its primary. *)
Definition _pg_to_up_acting_osds (fuel : nat) (pg : pg_t) : M OSDMap (list Z * Z * list Z * Z) :=
  m ← gets id;
  match get_pg_pool m (s64 (m_pool pg)) with
  | None => mret ([], -1, [], -1)
  | Some pool =>
      '(raw, _, pps) ← _pg_to_osds fuel pool pg [];
      '(up, up_primary) ← lift (_raw_to_up_osds (om_osds m) pool raw);
      '(up, up_primary) ← lift (_apply_primary_affinity (om_osds m) pps pool up up_primary);
      '(acting, acting_primary) ← lift (_get_temp_osds m pool pg);
      mret match acting with
           | [] => (up, up_primary, up, if acting_primary =? -1 then up_primary else acting_primary)
           | _ => (up, up_primary, acting, acting_primary)
           end
  end.

(** ** Roles *)

(** [for (int i=0; i<nrep; i++) if (acting[i] == osd) return i;] *)
Fixpoint rank_loop (osd : Z) (acting : list Z) (n : nat) (i : Z) : res Z :=
  match n with
  | O => Ok (-1)
  | S n => v ← vget acting i; if v =? osd then Ok i else rank_loop osd acting n (i + 1)
  end.

Definition calc_pg_rank (osd : Z) (acting : list Z) (nrep : Z) : res Z :=
  let nrep := if nrep =? 0 then Z.of_nat (length acting) else nrep in
  rank_loop osd acting (Z.to_nat nrep) 0.

Definition calc_pg_role (osd : Z) (acting : list Z) (nrep : Z) : res Z :=
  let nrep := if nrep =? 0 then Z.of_nat (length acting) else nrep in
  calc_pg_rank osd acting nrep.

Definition is_nil {A} (l : list A) : bool := match l with [] => true | _ => false end.

Definition primary_changed (oldprimary : Z) (oldacting : list Z) (newprimary : Z) (newacting : list Z) : res bool :=
  if is_nil oldacting && is_nil newacting then Ok false
  else if xorb (is_nil oldacting) (is_nil newacting) then Ok true
  else if negb (oldprimary =? newprimary) then Ok true
  else
    a ← calc_pg_rank oldprimary oldacting 0;
    b ← calc_pg_rank newprimary newacting 0;
    Ok (negb (a =? b)).

(** [for (uint8_t i = 0; i < acting.size(); ++i)]: the counter wraps. *)
Fixpoint shard_loop (fuel : nat) (primary : Z) (acting : list Z) (i : Z) : res (option Z) :=
  if i <? Z.of_nat (length acting) then
    match fuel with
    | O => Fault Diverge
    | S fuel =>
        v ← vget acting i;
        if v =? primary then Ok (Some i) else shard_loop fuel primary acting (u8 (i + 1))
    end
  else Ok None.

(** [shard_id_t(-1)], with a [uint8_t] inside. *)
Definition NO_SHARD : Z := u8 (-1).

(** The shard of the primary: [None] when there is none. *)
Definition get_primary_shard (fuel : nat) (pgid : pg_t) : M OSDMap (option (pg_t * Z)) :=
  m ← gets id;
  match get_pg_pool m (s64 (m_pool pgid)) with
  | None => mret None
  | Some pool =>
      if negb (ec_pool pool) then mret (Some (pgid, NO_SHARD)) else
      '(_, _, acting, primary) ← _pg_to_up_acting_osds fuel pgid;
      r ← lift (shard_loop 257 primary acting 0);
      mret match r with Some shard => Some (pgid, shard) | None => None end
  end.
