(* ===== verification/OsdMappingSpec.v ===== *)
(** * The mapping pipeline as functions on lists (src/osd/OSDMap.cc)

    What each stage computes on a map whose vectors have their size: filters
    and maps over the list of OSDs, and a choice of primary. *)

From stdpp Require Import gmap strings.
From S2P Require Import Prelude Hash CrushTypes CrushWrapper StdMap StrHash IntervalSet.
From S2P Require Import SnapSet Pg OsdState OsdMapping.

(** The vectors are as long as [max_osd] says. *)
Record osds_wf (o : osds) : Prop := {
  ow_max : 0 <= max_osd o < 2147483647;
  ow_state : Z.of_nat (length (osd_state o)) = max_osd o;
  ow_weight : Z.of_nat (length (osd_weight o)) = max_osd o;
  ow_info : Z.of_nat (length (osd_info o)) = max_osd o;
  ow_xinfo : Z.of_nat (length (osd_xinfo o)) = max_osd o;
  ow_client : Z.of_nat (length (client_addr o)) = max_osd o;
  ow_cluster : Z.of_nat (length (cluster_addr o)) = max_osd o;
  ow_back : Z.of_nat (length (hb_back_addr o)) = max_osd o;
  ow_front : Z.of_nat (length (hb_front_addr o)) = max_osd o;
  ow_uuid : Z.of_nat (length (osd_uuid o)) = max_osd o;
  ow_affinity : ∀ v, osd_primary_affinity o = Some v → Z.of_nat (length v) = max_osd o }.

Definition state_of (o : osds) (i : Z) : Z := default 0 (osd_state o !! Z.to_nat i).
Definition ex (o : osds) (i : Z) : bool :=
  (0 <=? i) && (i <? max_osd o) && negb (Z.land (state_of o i) CEPH_OSD_EXISTS =? 0).
Definition up_b (o : osds) (i : Z) : bool := ex o i && negb (Z.land (state_of o i) CEPH_OSD_UP =? 0).

Lemma ex_range o i : ex o i = true → 0 <= i < max_osd o.
Proof. unfold ex. intros [[?%Z.leb_le ?%Z.ltb_lt]%andb_prop _]%andb_prop. lia. Qed.
Lemma up_ex o i : up_b o i = true → ex o i = true.
Proof. by intros [? _]%andb_prop. Qed.

(** In this file [false = up_b o NONE]: the number of an OSD is below it. *)
Lemma ex_none o : osds_wf o → ex o CRUSH_ITEM_NONE = false.
Proof.
  intros Hw. apply not_true_is_false. intros H%ex_range. pose proof (ow_max o Hw). unfold CRUSH_ITEM_NONE in H. lia.
Qed.
Lemma up_none o : osds_wf o → up_b o CRUSH_ITEM_NONE = false.
Proof. intros Hw. unfold up_b. by rewrite ex_none. Qed.

Section read.
Context (o : osds) (Hw : osds_wf o).

Lemma get_state_ok i : 0 <= i < max_osd o → vget (osd_state o) i = Ok (state_of o i).
Proof.
  intros Hi. destruct (vget_ok (osd_state o) i) as (s & Hs & ->); [rewrite (ow_state o Hw); done|].
  unfold state_of. by rewrite Hs.
Qed.

Lemma osd_exists_ok i : osd_exists o i = Ok (ex o i).
Proof.
  unfold osd_exists, ex. rewrite Z.geb_leb. destruct (Z.leb_spec 0 i), (Z.ltb_spec i (max_osd o)); try done.
  cbn [andb]. by rewrite get_state_ok.
Qed.

Lemma is_up_ok i : is_up o i = Ok (up_b o i).
Proof.
  unfold is_up, and_then, up_b. rewrite osd_exists_ok. cbn [mbind res_bind]. destruct (ex o i) eqn:E; [|done].
  by rewrite get_state_ok by (by apply ex_range).
Qed.

Lemma absent_ok i : absent o i = Ok (negb (up_b o i)).
Proof.
  unfold absent, is_down. rewrite osd_exists_ok, is_up_ok. cbn [mbind res_bind]. destruct (ex o i) eqn:E; [done|].
  unfold up_b. by rewrite E.
Qed.

(** ** Removing OSDs that do not exist *)

Lemma shift_existing_ok rest : ∀ kept junk,
  ∃ junk', shift_existing o (length rest) (Z.of_nat (length kept + length junk)) (Z.of_nat (length junk))
      (kept ++ junk ++ rest) =
    Ok (Z.of_nat (length junk'), (kept ++ filter (λ v, ex o v = true) rest) ++ junk').
Proof.
  induction rest as [|v rest IH]; intros kept junk; cbn [length shift_existing].
  { exists junk. by rewrite filter_nil, !app_nil_r. }
  rewrite <- length_app. rewrite (vget_at _ _ v) by (rewrite app_assoc; by apply list_lookup_middle).
  cbn [mbind res_bind]. rewrite osd_exists_ok. cbn [mbind res_bind]. rewrite filter_cons.
  destruct (ex o v) eqn:E.
  - rewrite decide_True by done.
    assert (∃ junk1, length junk1 = length junk ∧
      (if negb (Z.of_nat (length junk) =? 0)
       then vset (kept ++ junk ++ v :: rest) (Z.of_nat (length (kept ++ junk)) - Z.of_nat (length junk)) v
       else Ok (kept ++ junk ++ v :: rest)) = Ok ((kept ++ [v]) ++ junk1 ++ rest)) as (junk1 & Hl & ->).
    { destruct junk as [|j junk].
      - exists []. split; [done|]. cbn. by rewrite <- app_assoc.
      - exists (junk ++ [v]). split; [rewrite length_app; simpl; lia|].
        rewrite (proj2 (Z.eqb_neq _ 0)) by (simpl; lia). cbn [negb].
        replace (_ - _) with (Z.of_nat (length kept)) by (rewrite length_app; simpl; lia).
        rewrite vset_at by (rewrite length_app; simpl; lia). f_equal.
        rewrite <- (Nat.add_0_r (length kept)) at 1. rewrite insert_app_r. simpl.
        rewrite <- !app_assoc. done. }
    cbn [mbind res_bind]. destruct (IH (kept ++ [v]) junk1) as (junk' & IHe). exists junk'.
    rewrite Hl in IHe. rewrite <- app_assoc in IHe. cbn [app] in IHe.
    replace (Z.of_nat (length (kept ++ junk)) + 1) with (Z.of_nat (length (kept ++ [v]) + length junk))
      by (rewrite !length_app; simpl; lia). 
    rewrite <- (app_assoc kept [v] (junk1 ++ rest)). cbn [app]. rewrite IHe. by rewrite <- (app_assoc kept [v]).
  - rewrite decide_False by done. destruct (IH kept (junk ++ [v])) as (junk' & IHe). exists junk'.
    rewrite <- app_assoc in IHe. cbn [app] in IHe. rewrite <- IHe. f_equal; rewrite !length_app; simpl; lia.
Qed.

Lemma mask_nonexistent_ok l : mask_nonexistent o l = Ok ((λ v, if ex o v then v else CRUSH_ITEM_NONE) <$> l).
Proof.
  induction l as [|v l IH]; [done|]. cbn [mask_nonexistent]. rewrite osd_exists_ok, IH. done.
Qed.

Lemma remove_nonexistent_ok pool l shift :
  can_shift_osds pool = Ok shift →
  _remove_nonexistent_osds o pool l =
    Ok (if shift then filter (λ v, ex o v = true) l else (λ v, if ex o v then v else CRUSH_ITEM_NONE) <$> l).
Proof.
  intros Hs. unfold _remove_nonexistent_osds. rewrite Hs. cbn [mbind res_bind]. destruct shift; [|apply mask_nonexistent_ok].
  destruct (shift_existing_ok l [] []) as (junk & E). cbn [app length Nat.add] in E. change (Z.of_nat 0) with 0 in E.
  rewrite E. cbn [mbind res_bind]. destruct junk as [|j junk]; [by rewrite app_nil_r|].
  rewrite (proj2 (Z.eqb_neq _ 0)) by (simpl; lia). cbn [negb].
  unfold vresize. rewrite length_app, Nat2Z.inj_add, Z.add_simpl_r, (proj2 (Z.ltb_ge _ 0)) by lia. rewrite Nat2Z.id.
  rewrite take_app_length. replace (_ - _)%nat with 0%nat by lia. by rewrite app_nil_r.
Qed.

(** ** Removing OSDs that are down *)

Lemma keep_present_ok l : keep_present o l = Ok (filter (λ v, up_b o v = true) l).
Proof.
  induction l as [|v l IH]; [done|]. cbn [keep_present]. rewrite absent_ok, IH, filter_cons. cbn [mbind res_bind].
  by destruct (up_b o v).
Qed.

Definition masked (l : list Z) : list Z := (λ v, if up_b o v then v else CRUSH_ITEM_NONE) <$> l.

Lemma first_osd_masked l : first_osd (masked l) = default (-1) (head (filter (λ v, up_b o v = true) l)).
Proof.
  induction l as [|v l IH]; [done|]. cbn [masked fmap list_fmap first_osd]. rewrite filter_cons.
  destruct (up_b o v) eqn:E.
  - rewrite decide_True by done. destruct (Z.eqb_spec v CRUSH_ITEM_NONE) as [->|]; [by rewrite up_none in E|done].
  - rewrite decide_False by done. rewrite Z.eqb_refl. exact IH.
Qed.

Lemma mask_absent_ok l : mask_absent o l = Ok (masked l, first_osd (masked l)).
Proof.
  induction l as [|v l IH]; [done|]. cbn [mask_absent]. rewrite IH, absent_ok. cbn [mbind res_bind masked fmap list_fmap].
  destruct (up_b o v) eqn:E; cbn [negb first_osd].
  - destruct (Z.eqb_spec v CRUSH_ITEM_NONE) as [->|]; [by rewrite up_none in E|done].
  - by rewrite Z.eqb_refl.
Qed.

(** The [up] set before affinity. *)
Definition up_list (shift : bool) (raw : list Z) : list Z :=
  if shift then filter (λ v, up_b o v = true) raw else masked raw.

Lemma first_osd_filter l : first_osd (filter (λ v, up_b o v = true) l) = default (-1) (head (filter (λ v, up_b o v = true) l)).
Proof.
  destruct (filter _ l) as [|v up] eqn:E; [done|]. cbn [first_osd head default].
  assert (v ∈ filter (λ v, up_b o v = true) l) as [Hu _]%list_elem_of_filter by (rewrite E; left).
  destruct (Z.eqb_spec v CRUSH_ITEM_NONE) as [->|]; [by rewrite up_none in Hu|done].
Qed.

Lemma raw_to_up_ok pool raw shift :
  can_shift_osds pool = Ok shift →
  _raw_to_up_osds o pool raw = Ok (up_list shift raw, first_osd (up_list shift raw)).
Proof.
  intros Hs. unfold _raw_to_up_osds. rewrite Hs. cbn [mbind res_bind]. destruct shift; [|apply mask_absent_ok].
  rewrite keep_present_ok. cbn [mbind res_bind up_list]. rewrite first_osd_filter. by destruct (filter _ raw).
Qed.

Lemma present_temp_ok pool l shift : can_shift_osds pool = Ok shift → present_temp o pool l = Ok (up_list shift l).
Proof.
  intros Hs. induction l as [|v l IH]; [by destruct shift|]. cbn [present_temp]. rewrite absent_ok, IH, Hs. cbn [mbind res_bind].
  unfold up_list, masked. destruct shift; [rewrite filter_cons|cbn]; by destruct (up_b o v).
Qed.
End read.

(** ** Choosing a primary *)

Definition aff_of (o : osds) (i : Z) : Z :=
  match osd_primary_affinity o with
  | Some v => default CEPH_OSD_DEFAULT_PRIMARY_AFFINITY (v !! Z.to_nat i)
  | None => CEPH_OSD_DEFAULT_PRIMARY_AFFINITY
  end.

Definition some_osd (v : Z) : Prop := v ≠ CRUSH_ITEM_NONE.
(** An OSD that accepts to be primary for this seed. *)
Definition willing (o : osds) (seed v : Z) : Prop := v ≠ CRUSH_ITEM_NONE ∧ rejected seed v (aff_of o v) = false.

#[export] Instance some_osd_dec v : Decision (some_osd v).
Proof. unfold some_osd. apply _. Defined.
#[export] Instance willing_dec o seed v : Decision (willing o seed v).
Proof. unfold willing. apply _. Defined.

(** The first willing OSD, or else the first OSD. *)
Definition best (o : osds) (seed : Z) (l : list Z) : option (nat * Z) :=
  match list_find (willing o seed) l with Some x => Some x | None => list_find some_osd l end.

Definition to_front (j : nat) (v : Z) (l : list Z) : list Z := v :: delete j l.

(** What affinity does to an [up] list and its primary. *)
Definition with_affinity (o : osds) (seed : Z) (shift : bool) (l : list Z) : list Z * Z :=
  match best o seed l with
  | Some (j, v) => (if shift then to_front j v l else l, v)
  | None => (l, -1)
  end.

Lemma first_osd_find l : first_osd l = default (-1) (snd <$> list_find some_osd l).
Proof.
  induction l as [|v l IH]; [done|]. cbn [first_osd list_find].
  destruct (Z.eqb_spec v CRUSH_ITEM_NONE) as [E|E]; cbn [negb].
  - rewrite decide_False by (intros H; by apply H). rewrite IH. by destruct (list_find some_osd l) as [[]|].
  - by rewrite decide_True by done.
Qed.

Lemma shift_right_ok pre : ∀ x post,
  shift_right (length pre) (pre ++ x :: post) = Ok (default x (head pre) :: pre ++ post).
Proof.
  induction pre as [|a pre IH] using rev_ind; intros x post; [done|].
  rewrite length_app, Nat.add_1_r. cbn [shift_right]. rewrite <- app_assoc. cbn [app].
  rewrite (vget_at _ _ a) by (by apply list_lookup_middle). cbn [mbind res_bind].
  rewrite vset_at by (rewrite length_app; simpl; lia). cbn [mbind res_bind].
  replace (S (length pre)) with (length pre + 1)%nat by lia. rewrite insert_app_r. cbn. rewrite IH.
  rewrite <- app_assoc. f_equal. f_equal. by destruct pre.
Qed.

Section affinity.
Context (o : osds) (Hw : osds_wf o) (seed : Z).

Definition entry (v : Z) : Prop := v = CRUSH_ITEM_NONE ∨ 0 <= v < max_osd o.

Lemma aff_ok aff v : osd_primary_affinity o = Some aff → entry v → some_osd v → vget aff v = Ok (aff_of o v).
Proof.
  intros Ha [->|Hv] Hs; [by destruct Hs|]. destruct (vget_ok aff v) as (a & Hl & ->); [rewrite (ow_affinity o Hw aff Ha); lia|].
  unfold aff_of. by rewrite Ha, Hl.
Qed.

Lemma any_affinity_ok aff l : osd_primary_affinity o = Some aff → Forall entry l →
  ∃ any, any_affinity aff l = Ok any ∧ (any = false → Forall (λ v, some_osd v → willing o seed v) l).
Proof.
  intros Ha. induction 1 as [|v l Hv Hl (any & IH & IHn)]; [by exists false|]. cbn [any_affinity].
  destruct (Z.eqb_spec v CRUSH_ITEM_NONE) as [E|E].
  - exists any. split; [done|]. intros Hn. constructor; [intros Hs; by destruct Hs|by apply IHn].
  - rewrite (aff_ok aff v) by done. cbn [mbind res_bind].
    destruct (Z.eqb_spec (aff_of o v) CEPH_OSD_DEFAULT_PRIMARY_AFFINITY) as [Ed|Ed]; cbn [negb]; [|by exists true].
    exists any. split; [done|]. intros Hn. constructor; [|by apply IHn]. intros _. split; [done|].
    unfold rejected. rewrite Ed. done.
Qed.

Lemma pick_primary_ok aff l : osd_primary_affinity o = Some aff → Forall entry l → ∀ i pos,
  0 <= i → -1 <= pos →
  pick_primary seed aff l i pos = Ok
    match list_find (willing o seed) l with
    | Some (j, _) => i + Z.of_nat j
    | None => if pos <? 0 then match list_find some_osd l with Some (j, _) => i + Z.of_nat j | None => -1 end else pos
    end.
Proof.
  intros Ha. induction 1 as [|v l Hv Hl IH]; intros i pos Hi Hp; cbn [pick_primary list_find].
  { destruct (Z.ltb_spec pos 0); [f_equal; lia|done]. }
  destruct (Z.eqb_spec v CRUSH_ITEM_NONE) as [E|E].
  - rewrite (decide_False (P := willing o seed v)), (decide_False (P := some_osd v)) by (intros H; by apply H).
    rewrite IH by lia. destruct (list_find (willing o seed) l) as [[j x]|]; [cbn; f_equal; lia|].
    cbn. destruct (pos <? 0); [|done]. destruct (list_find some_osd l) as [[j x]|]; [cbn; f_equal; lia|done].
  - rewrite (aff_ok aff v) by done. cbn [mbind res_bind]. destruct (rejected seed v (aff_of o v)) eqn:Er.
    + rewrite (decide_False (P := willing o seed v)) by (intros [_ H]; congruence).
      rewrite (decide_True (P := some_osd v)) by done. rewrite IH by (lia || destruct (Z.ltb_spec pos 0); lia).
      destruct (list_find (willing o seed) l) as [[j x]|]; [cbn; f_equal; lia|]. cbn.
      destruct (Z.ltb_spec pos 0); [rewrite (proj2 (Z.ltb_ge i 0)) by lia; f_equal; lia|].
      by rewrite (proj2 (Z.ltb_ge pos 0)) by lia.
    + rewrite (decide_True (P := willing o seed v)) by done. f_equal. lia.
Qed.

Lemma best_lookup l j v : best o seed l = Some (j, v) → l !! j = Some v ∧ some_osd v.
Proof.
  unfold best. destruct (list_find (willing o seed) l) as [[j' v']|] eqn:E.
  - intros [= <- <-]. apply list_find_Some in E as (? & [? _] & _). done.
  - intros (? & ? & _)%list_find_Some. done.
Qed.

(** When everyone is willing the first OSD stays the primary. *)
Lemma best_all_willing l : Forall (λ v, some_osd v → willing o seed v) l → best o seed l = list_find some_osd l.
Proof.
  intros Hl. unfold best. assert (list_find (willing o seed) l = list_find some_osd l) as ->; [|by case_match].
  induction Hl as [|v l Hv Hl IH]; [done|]. cbn [list_find]. rewrite IH.
  destruct (decide (some_osd v)) as [Hs|Hs]; [by rewrite decide_True by auto|].
  rewrite decide_False; [done|]. intros [? _]. by apply Hs.
Qed.

Lemma with_affinity_same shift l :
  best o seed l = list_find some_osd l → (shift = true → Forall some_osd l) → with_affinity o seed shift l = (l, first_osd l).
Proof.
  intros Eb Hs. unfold with_affinity. rewrite Eb, first_osd_find. destruct (list_find some_osd l) as [[j v]|] eqn:E; [|done].
  destruct shift; [|done]. destruct l as [|x l]; [done|]. pose proof (Hs eq_refl) as [Hx _]%Forall_cons.
  cbn [list_find] in E. rewrite decide_True in E by done. by injection E as <- <-.
Qed.

(** The code computes [with_affinity]. *)
Lemma primary_affinity_ok pool shift l :
  can_shift_osds pool = Ok shift → Forall entry l → (shift = true → Forall some_osd l) →
  _apply_primary_affinity o seed pool l (first_osd l) = Ok (with_affinity o seed shift l).
Proof.
  intros Hs Hl Hn. unfold _apply_primary_affinity. destruct (osd_primary_affinity o) as [aff|] eqn:Ha.
  2: { rewrite with_affinity_same; [done| |done]. apply best_all_willing. apply Forall_true. intros v Hv. split; [done|].
       unfold rejected, aff_of. by rewrite Ha. }
  destruct (any_affinity_ok aff l Ha Hl) as (any & -> & Hany). cbn [mbind res_bind]. destruct any; cbn [negb].
  2: { rewrite with_affinity_same; [done| |done]. by apply best_all_willing, Hany. }
  rewrite (pick_primary_ok aff l Ha Hl) by lia. cbn [mbind res_bind]. change (-1 <? 0) with true. cbn match.
  assert (match list_find (willing o seed) l with
          | Some (j, _) => 0 + Z.of_nat j
          | None => match list_find some_osd l with Some (j, _) => 0 + Z.of_nat j | None => -1 end
          end = default (-1) (Z.of_nat ∘ fst <$> best o seed l)) as ->.
  { unfold best. destruct (list_find (willing o seed) l) as [[]|]; [cbn; lia|].
    destruct (list_find some_osd l) as [[]|]; cbn; lia. }
  unfold with_affinity. destruct (best o seed l) as [[j v]|] eqn:Eb; cbn [fmap option_fmap option_map from_option id compose fst].
  2: { change (-1 <? 0) with true. cbn match. rewrite first_osd_find. do 2 f_equal. unfold best in Eb.
       destruct (list_find (willing o seed) l); [done|]. by rewrite Eb. }
  rewrite (proj2 (Z.ltb_ge (Z.of_nat j) 0)) by lia. destruct (best_lookup l j v Eb) as [Hj Hv].
  rewrite (vget_at l j v) by done. cbn [mbind res_bind]. rewrite Hs. cbn [mbind res_bind].
  destruct shift; [|done]. rewrite Z.gtb_ltb. cbn [andb]. rewrite Nat2Z.id.
  unfold to_front. rewrite (delete_take_drop l j).
  assert (length (take j l) = j) as Hlen by (rewrite length_take; apply lookup_lt_Some in Hj; lia).
  pose proof (take_drop_middle l j v Hj) as El. set (pre := take j l) in *. set (post := drop (S j) l) in *.
  clearbody pre post. subst l j.
  destruct (Z.ltb_spec 0 (Z.of_nat (length pre))) as [Hpos|Hz].
  - by rewrite shift_right_ok.
  - by destruct pre.
Qed.
End affinity.

(** ** Temporary mappings *)

(** The override of a placement group: its OSDs that are up, and its primary. *)
Definition temp_of (m : OSDMap) (shift : bool) (pool : pg_pool_t) (pg : pg_t) : list Z :=
  match om_pg_temp m !! raw_pg_to_pg pool pg with Some l => up_list (om_osds m) shift l | None => [] end.
Definition temp_primary_of (m : OSDMap) (shift : bool) (pool : pg_pool_t) (pg : pg_t) : Z :=
  match om_primary_temp m !! raw_pg_to_pg pool pg with Some p => p | None => first_osd (temp_of m shift pool pg) end.

Lemma get_temp_ok m pool pg shift :
  osds_wf (om_osds m) → can_shift_osds pool = Ok shift →
  _get_temp_osds m pool pg = Ok (temp_of m shift pool pg, temp_primary_of m shift pool pg).
Proof.
  intros Hw Hs. unfold _get_temp_osds, temp_primary_of, temp_of. cbv zeta.
  destruct (om_pg_temp m !! _) as [l|]; [rewrite (present_temp_ok _ Hw pool l shift Hs)|]; cbn [mbind res_bind].
  - do 2 f_equal. destruct (om_primary_temp m !! _); [done|]. by destruct (up_list (om_osds m) shift l).
  - by destruct (om_primary_temp m !! _).
Qed.

Lemma up_list_entry o shift l : osds_wf o → Forall (entry o) (up_list o shift l) ∧ (shift = true → Forall some_osd (up_list o shift l)).
Proof.
  intros Hw. assert (∀ v, up_b o v = true → 0 <= v < max_osd o ∧ some_osd v) as Hup.
  { intros v Hv. pose proof (ex_range o v (up_ex o v Hv)). split; [done|]. intros ->. by rewrite up_none in Hv. }
  destruct shift; cbn [up_list].
  - split; [|intros _]; apply Forall_forall; intros v [Hv _]%list_elem_of_filter; [right|]; by apply Hup.
  - split; [|done]. apply Forall_fmap, Forall_true. intros v. cbn. destruct (up_b o v) eqn:E; [right; by apply Hup|by left].
Qed.

(** ** The pipeline after CRUSH *)

(** The four results for a raw mapping and a placement seed. *)
Definition placement (m : OSDMap) (shift : bool) (pool : pg_pool_t) (pg : pg_t) (pps : Z) (raw : list Z) : list Z * Z * list Z * Z :=
  let '(up, up_primary) := with_affinity (om_osds m) pps shift (up_list (om_osds m) shift raw) in
  let temp := temp_of m shift pool pg in
  let primary := temp_primary_of m shift pool pg in
  match temp with
  | [] => (up, up_primary, up, if primary =? -1 then up_primary else primary)
  | _ => (up, up_primary, temp, primary)
  end.

Lemma pg_to_up_acting_ok fuel m m' pool pg shift raw primary pps :
  osds_wf (om_osds m) → get_pg_pool m (s64 (m_pool pg)) = Some pool → can_shift_osds pool = Ok shift →
  _pg_to_osds fuel pool pg [] m = Ok ((raw, primary, pps), m') →
  _pg_to_up_acting_osds fuel pg m = Ok (placement m shift pool pg pps raw, m').
Proof.
  intros Hw Hp Hs Hr. unfold _pg_to_up_acting_osds, gets, mbind at 1, M_bind at 1. cbn [id]. rewrite Hp.
  unfold mbind at 1, M_bind at 1. rewrite Hr. unfold mbind, M_bind, lift.
  rewrite (raw_to_up_ok _ Hw pool raw shift Hs).
  destruct (up_list_entry (om_osds m) shift raw Hw) as [He Hn].
  rewrite (primary_affinity_ok _ Hw pps pool shift _ Hs He Hn). rewrite (get_temp_ok m pool pg shift Hw Hs).
  unfold placement. destruct (with_affinity _ _ _ _) as [up upp]. by destruct (temp_of m shift pool pg).
Qed.

(** The raw mapping, for what CRUSH delivered. *)
Definition raw_of (o : osds) (shift : bool) (out : list Z) : list Z :=
  if shift then filter (λ v, ex o v = true) out else (λ v, if ex o v then v else CRUSH_ITEM_NONE) <$> out.

Lemma pg_to_osds_ok fuel m pool pg shift ruleno out c :
  osds_wf (om_osds m) → can_shift_osds pool = Ok shift →
  find_rule (om_crush m) (p_crush_ruleset pool) (p_type pool) (s32 (p_size pool)) = Ok ruleno →
  (0 <= ruleno → do_rule fuel ruleno (s32 (raw_pg_to_pps pool pg)) (s32 (p_size pool)) (osd_weight (om_osds m)) (om_crush m)
                 = Ok (out, c)) →
  (ruleno < 0 → out = [] ∧ c = om_crush m) →
  _pg_to_osds fuel pool pg [] m =
    Ok ((raw_of (om_osds m) shift out, first_osd (raw_of (om_osds m) shift out), raw_pg_to_pps pool pg),
        if ruleno >=? 0 then with_om_crush c m else m).
Proof.
  intros Hw Hs Hf Hd Hn. unfold _pg_to_osds, gets, mbind, M_bind, lift. cbn [id]. rewrite Hf. rewrite Z.geb_leb in *.
  destruct (Z.leb_spec 0 ruleno) as [Hr|Hr].
  - unfold on_crush. rewrite Hd by done. cbn [mbind res_bind]. by rewrite (remove_nonexistent_ok _ Hw pool out shift Hs).
  - destruct (Hn Hr) as [-> ->]. unfold mret, M_ret. rewrite (remove_nonexistent_ok _ Hw pool [] shift Hs).
    by destruct shift.
Qed.

(** Existing comes before being up. *)
Lemma up_list_raw o shift out : osds_wf o → up_list o shift (raw_of o shift out) = up_list o shift out.
Proof.
  intros Hw. destruct shift; cbn [up_list raw_of].
  - induction out as [|v out IH]; [done|]. rewrite !filter_cons. destruct (ex o v) eqn:E.
    + rewrite (decide_True (P := true = true)) by done. rewrite filter_cons, IH. done.
    + rewrite (decide_False (P := false = true)) by done. rewrite decide_False; [done|]. unfold up_b. by rewrite E.
  - unfold masked. rewrite <- list_fmap_compose. apply list_fmap_ext. intros i v _. cbn.
    destruct (ex o v) eqn:E; [done|]. rewrite up_none by done. unfold up_b. by rewrite E.
Qed.
