(* ===== verification/OsdMappingProps.v ===== *)
(** * Where a placement group lives (src/osd/OSDMap.cc)

    The end-to-end statements about the mapping: what the pipeline delivers on
    a cluster map whose CRUSH map is well-formed, through the interfaces of the
    rule interpreter and of the stages. *)

From stdpp Require Import gmap strings.
From S2P Require Import Prelude Hash CrushTypes Ln Nodes Choose ChoosePerm ChooseSpec.
From S2P Require Import Mapper MapWf FirstnSpec IndepSpec RuleSpec RuleProps BuilderBase.
From S2P Require Import BuilderMap MapSpec.
From S2P Require Import CrushWrapper StdMap StrHash IntervalSet SnapSet Pg.
From S2P Require Import OsdState OsdMapping OsdMappingSpec.

(** ** What affinity keeps *)

(** The primary is the head of a replicated pool's list, an entry otherwise. *)
Definition primary_of (o : osds) (shift : bool) (l : list Z) (p : Z) : Prop :=
  (p = -1 ∧ Forall (λ v, v = CRUSH_ITEM_NONE) l) ∨ (p ∈ l ∧ p ≠ CRUSH_ITEM_NONE ∧ (shift = true → head l = Some p)).

Lemma with_affinity_keeps o seed shift l :
  let '(l', p) := with_affinity o seed shift l in
  l' ≡ₚ l ∧ (shift = false → l' = l) ∧ primary_of o shift l' p.
Proof.
  unfold with_affinity. destruct (best o seed l) as [[j v]|] eqn:Eb.
  - destruct (best_lookup o seed l j v Eb) as [Hj Hv]. assert (v ∈ l) by (by eapply list_elem_of_lookup_2). destruct shift.
    + unfold to_front. split; [symmetry; by apply delete_Permutation|]. split; [done|]. right. split; [by left|done].
    + split; [done|]. split; [done|]. by right.
  - split; [by destruct shift|]. split; [by destruct shift|]. left. split; [done|].
    unfold best in Eb. destruct (list_find (willing o seed) l); [done|]. apply list_find_None in Eb.
    eapply Forall_impl; [exact Eb|]. intros v Hv. destruct (decide (v = CRUSH_ITEM_NONE)); [done|by destruct Hv].
Qed.

(** A placement group of a pool of the map can be placed: the vectors have
    their sizes, the CRUSH map is well-formed, with a sensible rule, if any, for
    the pool, and fuel for its tunables. *)
Record placeable (m : OSDMap) (pg : pg_t) (pool : pg_pool_t) (shift : bool)
    (sh : list (option bshape)) (D : Z) (rank : nat → nat) (lm : limits) (L R : Z) (fuel : nat) : Prop := {
  pl_osds : osds_wf (om_osds m);
  pl_pool : get_pg_pool m (s64 (m_pool pg)) = Some pool;
  pl_type : can_shift_osds pool = Ok shift;
  pl_size : 1 <= p_size pool < 2147483648;
  pl_shape : shape_wf sh D rank;
  pl_map : map_ok sh D (statics_of (cw_crush (om_crush m))) (cw_crush (om_crush m));
  pl_rules : m_max_rules (cw_crush (om_crush m)) = Z.of_nat (length (m_rules (cw_crush (om_crush m))));
  pl_rules_small : m_max_rules (cw_crush (om_crush m)) < 2147483648;
  pl_config : config_ok sh rank lm L R fuel;
  pl_within : map_within lm (cw_crush (om_crush m));
  pl_rule : ∀ ruleno, find_rule (om_crush m) (p_crush_ruleset pool) (p_type pool) (p_size pool) = Ok ruleno → 0 <= ruleno →
    ∃ sts, rule_at (cw_crush (om_crush m)) ruleno sts ∧ rule_typed sh D lm WEmpty sts = true }.

(** Only permutation caches may differ. *)
Definition crush_kept (sh : list (option bshape)) (D : Z) (m m' : OSDMap) : Prop :=
  ∃ c, m' = with_om_crush (set_cw_crush c (om_crush m)) m ∧ map_ok sh D (statics_of (cw_crush (om_crush m))) c.

Lemma do_rule_from fuel ruleno x maxout weight c raw s vals :
  0 <= maxout → Z.of_nat (length weight) < 2147483648 →
  crush_do_rule fuel (cells weight) (Z.of_nat (length weight)) x maxout ruleno (fresh_block maxout)
    (MState (cw_crush c) (fresh_block (maxout * 3))) = Ok ((raw, Z.of_nat (length vals)), s) →
  holds raw vals → do_rule fuel ruleno x maxout weight c = Ok (vals, set_cw_crush (ms_map s) c).
Proof.
  intros Hm Hwt E Hh. unfold do_rule. rewrite (proj2 (Z.ltb_ge maxout 0)) by lia.
  rewrite s32_small by (unfold is_s32; lia). rewrite E. cbn [mbind res_bind].
  rewrite (proj2 (Z.ltb_ge _ 0)) by lia. rewrite Nat2Z.id, (read_ints_all raw vals Hh). done.
Qed.

Section place.
Context {m : OSDMap} {pg : pg_t} {pool : pg_pool_t} {shift : bool}.
Context {sh : list (option bshape)} {D : Z} {rank : nat → nat} {lm : limits} {L R : Z} {fuel : nat}.
Context (Hpl : placeable m pg pool shift sh D rank lm L R fuel).

Local Abbreviation c := (cw_crush (om_crush m)).
Local Abbreviation o := (om_osds m).
Local Abbreviation weights := (osd_weight (om_osds m)).
Local Abbreviation pps := (raw_pg_to_pps pool pg).
Local Abbreviation size := (p_size pool).

Lemma size_s32 : s32 size = size.
Proof. pose proof (pl_size _ _ _ _ _ _ _ _ _ _ _ Hpl). apply s32_small. unfold is_s32. lia. Qed.

Lemma found_rule : ∃ ruleno, find_rule (om_crush m) (p_crush_ruleset pool) (p_type pool) (s32 size) = Ok ruleno.
Proof.
  unfold find_rule, crush_find_rule. rewrite (pl_rules _ _ _ _ _ _ _ _ _ _ _ Hpl), Nat2Z.id.
  pose proof (pl_rules_small _ _ _ _ _ _ _ _ _ _ _ Hpl) as Hs. rewrite (pl_rules _ _ _ _ _ _ _ _ _ _ _ Hpl) in Hs.
  destruct (find_rule_ok c (p_crush_ruleset pool) (p_type pool) (s32 size) (length (m_rules c)) 0) as [(p & E & _)|[E _]];
    [lia|lia|by eexists|by eexists].
Qed.

(** A run of a rule in the pool's setting: the values, and the map after it. *)
Lemma place_rule ruleno sts :
  rule_at c ruleno sts → rule_typed sh D lm WEmpty sts = true →
  ∃ vals c' raw s,
    crush_do_rule fuel (cells weights) (Z.of_nat (length weights)) (s32 pps) size ruleno (fresh_block size)
      (MState c (fresh_block (size * 3))) = Ok ((raw, Z.of_nat (length vals)), s) ∧ holds raw vals ∧
    do_rule fuel ruleno (s32 pps) (s32 size) weights (om_crush m) = Ok (vals, set_cw_crush c' (om_crush m)) ∧
    map_ok sh D (statics_of c) c' ∧ Z.of_nat (length vals) <= size ∧ Forall (valid sh D) vals.
Proof.
  intros Hr Ht. destruct Hpl as [Hw _ _ Hsz Hsh Hm _ _ Hcf Hmw _].
  pose proof (do_rule_ok sh D rank c Hsh Hm (cells weights) weights (s32 pps) (holds_cells _) size ltac:(lia) lm L R fuel Hcf Hmw
    (fresh_block (size * 3)) (fresh_block size) ltac:(rewrite length_fresh_block; lia) ltac:(rewrite length_fresh_block; lia)
    ruleno sts Hr Ht) as H.
  apply rwp_ok in H as ([[raw n] s] & E & vals & Hh & Hn & Hle & Hv & Hm'). cbn in Hh, Hn, Hle. subst n.
  exists vals, (ms_map s), raw, s. split; [done|]. split; [done|]. split; [|done]. rewrite size_s32.
  eapply do_rule_from; try done; [lia|]. pose proof (ow_max _ Hw). pose proof (ow_weight _ Hw). lia.
Qed.

Lemma s32_find ruleno :
  find_rule (om_crush m) (p_crush_ruleset pool) (p_type pool) (s32 size) = Ok ruleno →
  find_rule (om_crush m) (p_crush_ruleset pool) (p_type pool) size = Ok ruleno.
Proof. by rewrite size_s32. Qed.

(** The four results are the stages applied to what CRUSH delivered. *)
Lemma place_ok ruleno sts vals c' :
  find_rule (om_crush m) (p_crush_ruleset pool) (p_type pool) (s32 size) = Ok ruleno → 0 <= ruleno →
  rule_at c ruleno sts →
  do_rule fuel ruleno (s32 pps) (s32 size) weights (om_crush m) = Ok (vals, set_cw_crush c' (om_crush m)) →
  _pg_to_up_acting_osds fuel pg m =
    Ok (placement m shift pool pg pps vals, with_om_crush (set_cw_crush c' (om_crush m)) m).
Proof.
  intros Hf Hr _ Hd. destruct Hpl as [Hw Hp Ht _ _ _ _ _ _ _ _].
  erewrite pg_to_up_acting_ok; [|done|done|done|eapply pg_to_osds_ok; try done; lia].
  rewrite Z.geb_leb, (proj2 (Z.leb_le 0 ruleno)) by done. do 2 f_equal.
  unfold placement. by rewrite up_list_raw.
Qed.

Lemma place_none ruleno :
  find_rule (om_crush m) (p_crush_ruleset pool) (p_type pool) (s32 size) = Ok ruleno → ruleno < 0 →
  _pg_to_up_acting_osds fuel pg m = Ok (placement m shift pool pg pps [], m).
Proof.
  intros Hf Hr. destruct Hpl as [Hw Hp Ht _ _ _ _ _ _ _ _].
  erewrite pg_to_up_acting_ok; [|done|done|done|eapply (pg_to_osds_ok _ _ _ _ _ _ []); try done; lia].
  rewrite Z.geb_leb, (proj2 (Z.leb_gt 0 ruleno)) by done. do 2 f_equal.
  unfold placement. by rewrite up_list_raw.
Qed.
End place.

(** ** Properties *)

(** An OSD that is up, or a hole of an erasure-coded pool. *)
Definition up_or_hole (o : osds) (shift : bool) (v : Z) : Prop := up_b o v = true ∨ shift = false ∧ v = CRUSH_ITEM_NONE.

Lemma up_list_ok o shift l : Forall (up_or_hole o shift) (up_list o shift l).
Proof.
  destruct shift; cbn [up_list].
  - apply Forall_forall. intros v [Hv _]%list_elem_of_filter. by left.
  - apply Forall_fmap, Forall_true. intros v. cbn. destruct (up_b o v) eqn:E; [by left|by right].
Qed.

Lemma length_up_list o shift l : (length (up_list o shift l) <= length l)%nat.
Proof. destruct shift; cbn [up_list]; [apply length_filter|unfold masked; by rewrite length_fmap]. Qed.

(** What the four results of a placement satisfy, for any raw mapping. *)
Lemma placement_ok m shift pool pg pps raw :
  let '(up, upp, acting, actp) := placement m shift pool pg pps raw in
  up ≡ₚ up_list (om_osds m) shift raw ∧ (shift = false → up = up_list (om_osds m) shift raw) ∧
  primary_of (om_osds m) shift up upp ∧ Forall (up_or_hole (om_osds m) shift) up ∧
  Forall (up_or_hole (om_osds m) shift) acting ∧
  (temp_of m shift pool pg = [] → acting = up ∧ (om_primary_temp m !! raw_pg_to_pg pool pg = None → actp = upp)).
Proof.
  unfold placement. pose proof (with_affinity_keeps (om_osds m) pps shift (up_list (om_osds m) shift raw)) as Hk.
  destruct (with_affinity _ _ _ _) as [up upp]. destruct Hk as (Hp & He & Hpr).
  pose proof (up_list_ok (om_osds m) shift raw) as Hu. rewrite <- Hp in Hu.
  assert (Forall (up_or_hole (om_osds m) shift) (temp_of m shift pool pg)) as Ht.
  { unfold temp_of. destruct (om_pg_temp m !! _); [apply up_list_ok|constructor]. }
  destruct (temp_of m shift pool pg) as [|v temp] eqn:Et.
  - do 5 (split; [done|]). intros _. split; [done|]. intros Hn. unfold temp_primary_of. by rewrite Hn, Et.
  - by do 5 (split; [done|]).
Qed.

Lemma crush_kept_refl sh D m : map_ok sh D (statics_of (cw_crush (om_crush m))) (cw_crush (om_crush m)) → crush_kept sh D m m.
Proof. intros Hm. exists (cw_crush (om_crush m)). split; [|done]. by destruct m as [? ? ? ? ? ? ? ? ? ? ? ? ? ? ? ? ? []]. Qed.

(** A placement always succeeds, and is the stages applied to some raw mapping. *)
Lemma place_any m pg pool shift sh D rank lm L R fuel : placeable m pg pool shift sh D rank lm L R fuel →
  ∃ vals m', _pg_to_up_acting_osds fuel pg m = Ok (placement m shift pool pg (raw_pg_to_pps pool pg) vals, m') ∧
    crush_kept sh D m m' ∧ Z.of_nat (length vals) <= p_size pool.
Proof.
  intros Hpl. destruct (found_rule Hpl) as (ruleno & Hf). destruct (Z.lt_ge_cases ruleno 0) as [Hr|Hr].
  - exists [], m. split; [by apply (place_none Hpl ruleno)|]. split; [apply crush_kept_refl, Hpl|].
    pose proof (pl_size _ _ _ _ _ _ _ _ _ _ _ Hpl). simpl. lia.
  - destruct (pl_rule _ _ _ _ _ _ _ _ _ _ _ Hpl ruleno (s32_find Hpl ruleno Hf) Hr) as (sts & Hra & Hty).
    destruct (place_rule Hpl ruleno sts Hra Hty) as (vals & c' & raw & s & _ & _ & Hd & Hm & Hl & _).
    exists vals. eexists. split; [by eapply (place_ok Hpl)|]. split; [by exists c'|done].
Qed.

(** C2: Placing a placement group always succeeds on a well-formed cluster map,
    whatever sensible rule the pool has and whatever the fallback when there is
    none: no access leaves a vector, and the map changes at most in the
    permutation caches of its buckets and in the statistics of retries.  The [up] set has at most as many entries
    as the pool asks for; every entry of [up] and of [acting] is an OSD that
    exists and is up, or a hole if the pool is erasure-coded; the primary of
    [up] is one of them, the first one if the pool is replicated, or -1 if there
    is none.  Without a temporary mapping [acting] is [up]. *)
Theorem placement_safe m pg pool shift sh D rank lm L R fuel :
  placeable m pg pool shift sh D rank lm L R fuel →
  ∃ up upp acting actp m',
    _pg_to_up_acting_osds fuel pg m = Ok ((up, upp, acting, actp), m') ∧ crush_kept sh D m m' ∧
    Z.of_nat (length up) <= p_size pool ∧ primary_of (om_osds m) shift up upp ∧
    Forall (up_or_hole (om_osds m) shift) up ∧ Forall (up_or_hole (om_osds m) shift) acting ∧
    (temp_of m shift pool pg = [] → acting = up ∧ (om_primary_temp m !! raw_pg_to_pg pool pg = None → actp = upp)).
Proof.
  intros Hpl. destruct (place_any m pg pool shift sh D rank lm L R fuel Hpl) as (vals & m' & E & Hk & Hl).
  pose proof (placement_ok m shift pool pg (raw_pg_to_pps pool pg) vals) as H.
  destruct (placement _ _ _ _ _ _) as [[[up upp] acting] actp]. destruct H as (Hp & _ & Hpr & Hu & Ha & Ht).
  exists up, upp, acting, actp, m'. split; [done|]. split; [done|]. split; [|done].
  rewrite Hp. pose proof (length_up_list (om_osds m) shift vals). lia.
Qed.

(** The single choose rule of a pool. *)
Definition pool_rule (m : OSDMap) (pool : pg_pool_t) (root : Z) (op : rule_op) (n type : Z) : Prop :=
  ∃ ruleno, find_rule (om_crush m) (p_crush_ruleset pool) (p_type pool) (p_size pool) = Ok ruleno ∧ 0 <= ruleno ∧
    rule_at (cw_crush (om_crush m)) ruleno (simple_rule root op n type) ∧ is_s32 n.

(** An OSD that is up and that the cluster has not marked out for the seed. *)
Definition up_and_in (m : OSDMap) (D pps v : Z) : Prop :=
  up_b (om_osds m) v = true ∧ in_device D (cells (osd_weight (om_osds m))) (osd_weight (om_osds m)) (s32 pps) v.

Section simple.
Context {m : OSDMap} {pg : pg_t} {pool : pg_pool_t} {shift : bool}.
Context {sh : list (option bshape)} {D : Z} {rank : nat → nat} {lm : limits} {L R : Z} {fuel : nat}.
Context (Hpl : placeable m pg pool shift sh D rank lm L R fuel).

(** The values that a single choose rule delivers, in the pipeline. *)
Lemma place_simple root op n type :
  pool_rule m pool root op n type → is_choose op → is_bucket sh root →
  ∃ vals m' new newl, _pg_to_up_acting_osds fuel pg m = Ok (placement m shift pool pg (raw_pg_to_pps pool pg) vals, m') ∧
    crush_kept sh D m m' ∧ Z.of_nat (length vals) <= p_size pool ∧
    picked sh D (cells (osd_weight (om_osds m))) (Z.of_nat (length (osd_weight (om_osds m)))) (s32 (raw_pg_to_pps pool pg))
      (p_size pool) (CrushRuleStep op n type) new newl ∧
    vals = outcome (CrushRuleStep op n type) new newl ∧
    (is_leaf op = true → length newl = length new) ∧
    (is_firstn op = false → Z.of_nat (length new) = Z.max 0 (Z.min (if n <=? 0 then n + p_size pool else n) (p_size pool))).
Proof.
  intros (ruleno & Hf & Hr & Hra & Hn) Hop Hroot.
  assert (find_rule (om_crush m) (p_crush_ruleset pool) (p_type pool) (s32 (p_size pool)) = Ok ruleno) as Hf'
    by (by rewrite (size_s32 Hpl)).
  destruct (pl_rule _ _ _ _ _ _ _ _ _ _ _ Hpl ruleno Hf Hr) as (sts & Hra' & Hty).
  destruct (place_rule Hpl ruleno sts Hra' Hty) as (vals & c' & raw & s & E & Hh & Hd & Hm & Hl & _).
  pose proof (pl_size _ _ _ _ _ _ _ _ _ _ _ Hpl) as Hsz.
  pose proof (simple_rule_ok sh D rank (cw_crush (om_crush m)) (pl_shape _ _ _ _ _ _ _ _ _ _ _ Hpl) (pl_map _ _ _ _ _ _ _ _ _ _ _ Hpl)
    (cells (osd_weight (om_osds m))) (osd_weight (om_osds m)) (s32 (raw_pg_to_pps pool pg)) (holds_cells _) (p_size pool) ltac:(lia)
    lm L R fuel (pl_config _ _ _ _ _ _ _ _ _ _ _ Hpl) (pl_within _ _ _ _ _ _ _ _ _ _ _ Hpl)
    (fresh_block (p_size pool * 3)) (fresh_block (p_size pool)) ltac:(rewrite length_fresh_block; lia)
    ltac:(rewrite length_fresh_block; lia) ruleno root op n type Hra Hop Hn Hroot) as H.
  unfold wp in H. rewrite E in H. cbn [rwp] in H. destruct H as (new & newl & Hp & Hh' & Hl' & _ & Hll & Hex).
  assert (vals = outcome (CrushRuleStep op n type) new newl) as Ev.
  { cbn [fst snd] in *. apply Nat2Z.inj in Hl'. destruct Hh as [r1 E1], Hh' as [r2 E2]. rewrite E1 in E2.
    apply app_inj_1 in E2 as [E2 _]; [|by rewrite !length_cells]. unfold cells in E2. by apply (inj (fmap Some)) in E2. }
  exists vals. eexists _, new, newl. split; [by eapply (place_ok Hpl)|]. split; [by exists c'|]. done.
Qed.

Lemma filter_NoDup_up l : NoDup l → NoDup (up_list (om_osds m) true l).
Proof. apply NoDup_filter. Qed.
End simple.

(** C5: A replicated pool whose rule is [take root; chooseleaf firstn n type;
    emit] is placed on pairwise distinct OSDs, each of which exists, is up and
    is not marked out for the placement group's seed; the first is the primary. *)
Theorem replicated_placement m pg pool sh D rank lm L R fuel root n type :
  placeable m pg pool true sh D rank lm L R fuel →
  pool_rule m pool root CRUSH_RULE_CHOOSELEAF_FIRSTN n type → is_bucket sh root →
  ∃ up upp acting actp m',
    _pg_to_up_acting_osds fuel pg m = Ok ((up, upp, acting, actp), m') ∧ crush_kept sh D m m' ∧
    NoDup up ∧ Forall (up_and_in m D (raw_pg_to_pps pool pg)) up ∧ Z.of_nat (length up) <= p_size pool ∧
    upp = default (-1) (head up).
Proof.
  intros Hpl Hpr Hroot. destruct (place_simple Hpl root _ n type Hpr ltac:(red; auto) Hroot)
    as (vals & m' & new & newl & E & Hk & Hl & [_ Hp] & Ev & _). cbn in Hp, Ev. rewrite Ev in *. clear Ev vals.
  change (Z.of_nat (length newl) <= p_size pool) in Hl.
  destruct Hp as (_ & _ & Hp). destruct (Hp eq_refl) as [Hnd Hg].
  pose proof (placement_ok m true pool pg (raw_pg_to_pps pool pg) newl) as H.
  destruct (placement _ _ _ _ _ _) as [[[up upp] acting] actp]. destruct H as (Hpm & _ & Hpr' & Hu & _).
  exists up, upp, acting, actp, m'. split; [done|]. split; [done|]. split; [rewrite Hpm; by apply NoDup_filter|].
  split; [|split].
  - rewrite Hpm. cbn [up_list]. apply Forall_forall. intros v [Hv Hin]%list_elem_of_filter. split; [done|].
    eapply good_0_device; [eapply pl_shape, Hpl|exact (proj1 (Forall_forall _ _) Hg v Hin)].
  - rewrite Hpm. pose proof (length_up_list (om_osds m) true newl). lia.
  - destruct Hpr' as [[-> Hn]|(_ & _ & Hh)]; [|by rewrite Hh]. destruct up as [|v up]; [done|].
    apply Forall_cons in Hn as [-> _]. apply Forall_cons in Hu as [[Hu|[? _]] _]; [|done].
    by rewrite up_none in Hu by apply Hpl.
Qed.

(** C6: An erasure-coded pool whose rule is [take root; chooseleaf indep n type;
    emit], for a bucket type, keeps its positions: the [up] set has exactly the
    number of positions asked for, each with a hole or with an OSD that exists,
    is up and is not marked out; the primary is at one of them, or -1 when all
    are holes. *)
Theorem erasure_placement m pg pool sh D rank lm L R fuel root n type :
  placeable m pg pool false sh D rank lm L R fuel →
  pool_rule m pool root CRUSH_RULE_CHOOSELEAF_INDEP n type → is_bucket sh root → type ≠ 0 →
  ∃ up upp acting actp m',
    _pg_to_up_acting_osds fuel pg m = Ok ((up, upp, acting, actp), m') ∧ crush_kept sh D m m' ∧
    Z.of_nat (length up) = Z.max 0 (Z.min (if n <=? 0 then n + p_size pool else n) (p_size pool)) ∧
    Forall (λ v, v = CRUSH_ITEM_NONE ∨ up_and_in m D (raw_pg_to_pps pool pg) v) up ∧
    primary_of (om_osds m) false up upp.
Proof.
  intros Hpl Hpr Hroot Ht. destruct (place_simple Hpl root _ n type Hpr ltac:(red; auto) Hroot)
    as (vals & m' & new & newl & E & Hk & Hl & [_ Hp] & Ev & Hll & Hex). cbn in Hp, Ev, Hll, Hex. rewrite Ev in *. clear Ev vals.
  destruct Hp as (_ & _ & _ & Hp). specialize (Hp eq_refl Ht).
  pose proof (placement_ok m false pool pg (raw_pg_to_pps pool pg) newl) as H.
  destruct (placement _ _ _ _ _ _) as [[[up upp] acting] actp]. destruct H as (_ & He & Hpr' & _).
  rewrite (He eq_refl) in *. cbn [up_list] in *.
  eexists _, upp, acting, actp, m'. split; [exact E|]. split; [done|]. split; [|split; [|done]].
  - unfold masked. rewrite length_fmap, Hll by done. by apply Hex.
  - apply Forall_fmap. apply Forall_lookup. intros i v Hv. cbn. destruct (up_b (om_osds m) v) eqn:Eu; [|by left].
    destruct (Forall2_lookup_r _ _ _ _ _ Hp Hv) as (w & _ & [[_ ->]|[_ Hg]]); [by left|]. right. split; [done|].
    by eapply good_0_device; [eapply pl_shape, Hpl|].
Qed.

(** Primary affinity only reorders: the list stays the same OSDs, at the same
    positions if the pool is erasure-coded; the primary is the first OSD of the
    list that is willing for the seed, or the first OSD if none is, and it is
    moved to the front of a replicated pool's list, the others keeping their
    order. *)
Theorem primary_affinity_exact o seed pool shift l :
  osds_wf o → can_shift_osds pool = Ok shift → Forall (entry o) l → (shift = true → Forall some_osd l) →
  ∃ l' p, _apply_primary_affinity o seed pool l (first_osd l) = Ok (l', p) ∧
    primary_of o shift l' p ∧ l' ≡ₚ l ∧ (shift = false → l' = l) ∧
    ∀ j, l !! j = Some p →
      (∀ i, (i < j)%nat → l !! i ≠ Some p) → p ≠ CRUSH_ITEM_NONE →
      (shift = true → l' = p :: delete j l) ∧
      (willing o seed p ∧ (∀ i v, (i < j)%nat → l !! i = Some v → ¬ willing o seed v) ∨
       Forall (λ v, ¬ willing o seed v) l ∧ p = first_osd l).
Proof.
  intros Hw Hs Hl Hn. rewrite (primary_affinity_ok o Hw seed pool shift l Hs Hl Hn).
  pose proof (with_affinity_keeps o seed shift l) as Hk. destruct (with_affinity o seed shift l) as [l' p] eqn:E.
  destruct Hk as (Hp & He & Hpr). exists l', p. do 4 (split; [done|]). intros j Hj Hfst Hno.
  unfold with_affinity in E. destruct (best o seed l) as [[j' v']|] eqn:Eb.
  - injection E as E1 ->. destruct (best_lookup o seed l j' p Eb) as [Hj' _].
    assert (j' = j ∨ (j < j')%nat) as Hjj.
    { destruct (decide (j' < j)%nat) as [Hlt|]; [by destruct (Hfst j' Hlt)|lia]. }
    unfold best in Eb. destruct (list_find (willing o seed) l) as [[i w]|] eqn:Ew.
    + injection Eb as -> ->. apply list_find_Some in Ew as (_ & Hwp & Hbef).
      assert (j' = j) as -> by (destruct Hjj as [|Hlt]; [done|by destruct (Hbef j p Hj Hlt)]).
      split; [by intros ->|]. left. split; [done|]. intros i v Hi Hv. by apply (Hbef i v).
    + assert (j' = j) as ->.
      { destruct Hjj as [|Hlt]; [done|]. apply list_find_Some in Eb as (_ & _ & Hbef). by destruct (Hbef j p Hj Hlt). }
      split; [by intros ->|]. right. split; [exact (proj1 (list_find_None _ _) Ew)|]. rewrite first_osd_find. unfold some_osd in *. by rewrite Eb.
  - injection E as E1 <-. unfold best in Eb. destruct (list_find (willing o seed) l); [done|].
    apply list_find_None in Eb. destruct (proj1 (Forall_lookup _ _) Eb j (-1) Hj). done.
Qed.

(** ** The shard of the primary *)

Lemma shard_loop_ok acting primary n : ∀ i fuel,
  (i + n = length acting)%nat → (length acting <= 255)%nat → (n < fuel)%nat →
  ∃ r, shard_loop fuel primary acting (Z.of_nat i) = Ok r ∧
    match r with
    | Some s => ∃ j, s = Z.of_nat j ∧ acting !! j = Some primary ∧ (i <= j)%nat ∧ ∀ k, (i <= k < j)%nat → acting !! k ≠ Some primary
    | None => ∀ k, (i <= k)%nat → acting !! k ≠ Some primary
    end.
Proof.
  induction n as [|n IH]; intros i fuel Hi Hl Hf; (destruct fuel as [|fuel]; [lia|]); cbn [shard_loop].
  - rewrite (proj2 (Z.ltb_ge _ _)) by lia. exists None. split; [done|]. intros k Hk. by rewrite lookup_ge_None_2 by lia.
  - rewrite (proj2 (Z.ltb_lt _ _)) by lia. destruct (lookup_lt_is_Some_2 acting i) as [v Hv]; [lia|].
    rewrite (vget_at acting i v Hv). cbn [mbind res_bind]. destruct (Z.eqb_spec v primary) as [->|Hne].
    + exists (Some (Z.of_nat i)). split; [done|]. exists i. do 3 (split; [done|]). intros k Hk. lia.
    + rewrite u8_small by lia. replace (Z.of_nat i + 1) with (Z.of_nat (S i)) by lia.
      destruct (IH (S i) fuel) as (r & E & Hr); [lia|lia|lia|]. exists r. split; [done|].
      assert (acting !! i ≠ Some primary) as Hni by (rewrite Hv; congruence).
      destruct r as [s|].
      * destruct Hr as (j & ? & ? & ? & Hb). exists j. do 2 (split; [done|]). split; [lia|]. intros k Hk.
        destruct (decide (k = i)) as [->|]; [done|]. apply Hb. lia.
      * intros k Hk. destruct (decide (k = i)) as [->|]; [done|]. apply Hr. lia.
Qed.

(** The shard of an erasure-coded placement group's primary is the first
    position of the acting set that holds the acting primary, and there is none
    exactly when no position does; a replicated group has no shard.  The 8-bit
    counter of the search is enough for up to 255 positions. *)
Theorem primary_shard_exact m pg pool shift sh D rank lm L R fuel :
  placeable m pg pool shift sh D rank lm L R fuel →
  ∃ up upp acting actp m',
    _pg_to_up_acting_osds fuel pg m = Ok ((up, upp, acting, actp), m') ∧
    (shift = true → get_primary_shard fuel pg m = Ok (Some (pg, NO_SHARD), m)) ∧
    (shift = false → (length acting <= 255)%nat → ∃ r, get_primary_shard fuel pg m = Ok (r, m') ∧
      match r with
      | Some (q, s) => q = pg ∧ ∃ j, s = Z.of_nat j ∧ acting !! j = Some actp ∧ ∀ k, (k < j)%nat → acting !! k ≠ Some actp
      | None => actp ∉ acting
      end).
Proof.
  intros Hpl. destruct (found_rule Hpl) as (ruleno & Hf).
  assert (∃ x m', _pg_to_up_acting_osds fuel pg m = Ok (x, m')) as ([[[up upp] acting] actp] & m' & E).
  { destruct (Z.lt_ge_cases ruleno 0) as [Hr|Hr]; [do 2 eexists; by apply (place_none Hpl ruleno)|].
    destruct (pl_rule _ _ _ _ _ _ _ _ _ _ _ Hpl ruleno (s32_find Hpl ruleno Hf) Hr) as (sts & Hra & Hty).
    destruct (place_rule Hpl ruleno sts Hra Hty) as (vals & c' & raw & s & _ & _ & Hd & _).
    do 2 eexists. by eapply (place_ok Hpl). }
  exists up, upp, acting, actp, m'. split; [done|].
  pose proof (pl_pool _ _ _ _ _ _ _ _ _ _ _ Hpl) as Hpool. pose proof (pl_type _ _ _ _ _ _ _ _ _ _ _ Hpl) as Ht.
  assert (ec_pool pool = negb shift) as Hec.
  { unfold can_shift_osds in Ht. unfold ec_pool. destruct (Z.eqb_spec (p_type pool) TYPE_REPLICATED) as [->|]; [by injection Ht as <-|].
    destruct (p_type pool =? TYPE_ERASURE); [by injection Ht as <-|done]. }
  unfold get_primary_shard, gets, mbind, M_bind. cbn [id]. rewrite Hpool, Hec. split; intros ->; cbn [negb]; [done|].
  intros Hl. rewrite E. unfold lift.
  destruct (shard_loop_ok acting actp (length acting) 0 257) as (r & Er & Hr); [done|done|lia|].
  change (Z.of_nat 0) with 0 in Er. rewrite Er. eexists. split; [done|]. destruct r as [s|].
  - split; [done|]. destruct Hr as (j & ? & ? & _ & Hb). exists j. do 2 (split; [done|]). intros k Hk. apply Hb. lia.
  - intros (k & Hk)%list_elem_of_lookup. by apply (Hr k); [lia|].
Qed.

(** ** A cluster of six OSDs *)

Definition six_crush : crush_map :=
  set_m_max_rules 2 (set_m_rules
    [Some (sample_rule CRUSH_RULE_CHOOSELEAF_FIRSTN);
     Some (CrushRule 3 (CrushRuleMask 1 3 1 10) (Some <$> sample_steps CRUSH_RULE_CHOOSELEAF_INDEP))] sample_map).

(** OSD 4 is down; OSD 1, by [sample_weight], is out; OSD 2 is a reluctant primary. *)
Definition six_osds : osds :=
  Osds 6 6 [3; 3; 3; 3; 1; 3] sample_weight (replicate 6 osd_info0) (replicate 6 osd_xinfo0)
    (replicate 6 None) (replicate 6 None) (replicate 6 None) (replicate 6 None) (replicate 6 0)
    (Some [65536; 65536; 1; 65536; 65536; 65536]).

Definition rep_pool : pg_pool_t := PgPool 1 1 3 0 2 8 8 7 7 1 no_snaps 2 0 (-1) (-1).
Definition ec_pool_3 : pg_pool_t := PgPool 1 3 3 1 2 8 8 7 7 1 no_snaps 2 0 (-1) (-1).

Definition six_map : OSDMap :=
  MkOSDMap 0 5 (0, 0) 2 0 six_osds ∅ ∅ [(1, rep_pool); (2, ec_pool_3)] [] ∅ ∅ ∅ 0 "" false 0
    (CrushWrapper six_crush [] [] [] false ∅ ∅ ∅).

Lemma six_osds_wf : osds_wf six_osds.
Proof. split; try done. by intros v [= <-]. Qed.

Lemma six_crush_ok : map_ok sample_shape 6 (statics_of six_crush) six_crush.
Proof. destruct sample_map_ok as [H1 H2 H3 H4 _]. by split. Qed.

Lemma six_placeable pg pool shift :
  get_pg_pool six_map (s64 (m_pool pg)) = Some pool → can_shift_osds pool = Ok shift → p_size pool = 3 →
  (∀ ruleno, find_rule (om_crush six_map) (p_crush_ruleset pool) (p_type pool) 3 = Ok ruleno → ruleno = 0 ∨ ruleno = 1) →
  placeable six_map pg pool shift sample_shape 6 sample_rank sample_limits 0 1 104.
Proof.
  intros Hp Hs Hz Hr. split; try done.
  - apply six_osds_wf.
  - rewrite Hz. split; [lia|reflexivity].
  - apply sample_shape_wf.
  - apply six_crush_ok.
  - apply sample_config.
  - intros ruleno Hf _. rewrite Hz in Hf. destruct (Hr ruleno Hf) as [-> | ->].
    + exists (sample_steps CRUSH_RULE_CHOOSELEAF_FIRSTN). split; [|reflexivity]. eexists. split; [simpl; lia|]. by split.
    + exists (sample_steps CRUSH_RULE_CHOOSELEAF_INDEP). split; [|reflexivity]. eexists. split; [simpl; lia|]. by split.
Qed.

Lemma six_rep_placeable : placeable six_map (PgT 1 5 (-1)) rep_pool true sample_shape 6 sample_rank sample_limits 0 1 104.
Proof. apply six_placeable; [reflexivity|reflexivity|reflexivity|]. intros r [= <-]. by left. Qed.

Lemma six_ec_placeable : placeable six_map (PgT 2 5 (-1)) ec_pool_3 false sample_shape 6 sample_rank sample_limits 0 1 104.
Proof. apply six_placeable; [reflexivity|reflexivity|reflexivity|]. intros r [= <-]. by right. Qed.

Definition placed (m : OSDMap) (pg : pg_t) : res (list Z * Z * list Z * Z) :=
  '(r, _) ← _pg_to_up_acting_osds 104 pg m; Ok r.

(** OSD 4 is a hole of the erasure-coded group, and missing from the replicated one. *)
Example six_placements :
  placed six_map (PgT 1 7 (-1)) = Ok ([0; 2; 5], 0, [0; 2; 5], 0) ∧
  placed six_map (PgT 1 5 (-1)) = Ok ([0; 2], 0, [0; 2], 0) ∧
  placed six_map (PgT 2 1 (-1)) = Ok ([0; 2; CRUSH_ITEM_NONE], 0, [0; 2; CRUSH_ITEM_NONE], 0).
Proof. by vm_compute. Qed.

Theorem placement_safe_witness :
  ∃ up upp acting actp m',
    _pg_to_up_acting_osds 104 (PgT 2 5 (-1)) six_map = Ok ((up, upp, acting, actp), m') ∧ crush_kept sample_shape 6 six_map m' ∧
    Z.of_nat (length up) <= 3 ∧ primary_of six_osds false up upp ∧
    Forall (up_or_hole six_osds false) up ∧ Forall (up_or_hole six_osds false) acting ∧
    (temp_of six_map false ec_pool_3 (PgT 2 5 (-1)) = [] →
     acting = up ∧ (om_primary_temp six_map !! raw_pg_to_pg ec_pool_3 (PgT 2 5 (-1)) = None → actp = upp)).
Proof. apply (placement_safe six_map (PgT 2 5 (-1)) ec_pool_3 false sample_shape 6 sample_rank sample_limits 0 1 104 six_ec_placeable). Defined.

Theorem replicated_placement_witness :
  ∃ up upp acting actp m',
    _pg_to_up_acting_osds 104 (PgT 1 5 (-1)) six_map = Ok ((up, upp, acting, actp), m') ∧ crush_kept sample_shape 6 six_map m' ∧
    NoDup up ∧ Forall (up_and_in six_map 6 (raw_pg_to_pps rep_pool (PgT 1 5 (-1)))) up ∧ Z.of_nat (length up) <= 3 ∧
    upp = default (-1) (head up).
Proof.
  apply (replicated_placement six_map (PgT 1 5 (-1)) rep_pool sample_shape 6 sample_rank sample_limits 0 1 104 (-1) 0 1 six_rep_placeable);
    [|apply sample_root].
  exists 0. split; [reflexivity|]. split; [lia|]. split; [|done]. eexists. split; [simpl; lia|]. by split.
Defined.

Theorem erasure_placement_witness :
  ∃ up upp acting actp m',
    _pg_to_up_acting_osds 104 (PgT 2 5 (-1)) six_map = Ok ((up, upp, acting, actp), m') ∧ crush_kept sample_shape 6 six_map m' ∧
    Z.of_nat (length up) = 3 ∧
    Forall (λ v, v = CRUSH_ITEM_NONE ∨ up_and_in six_map 6 (raw_pg_to_pps ec_pool_3 (PgT 2 5 (-1))) v) up ∧
    primary_of six_osds false up upp.
Proof.
  apply (erasure_placement six_map (PgT 2 5 (-1)) ec_pool_3 sample_shape 6 sample_rank sample_limits 0 1 104 (-1) 0 1 six_ec_placeable);
    [|apply sample_root|lia].
  exists 1. split; [reflexivity|]. split; [lia|]. split; [|done]. eexists. split; [simpl; lia|]. by split.
Defined.

Theorem primary_affinity_exact_witness :
  ∃ l' p, _apply_primary_affinity six_osds 5 rep_pool [2; 0; 5] 2 = Ok (l', p) ∧
    primary_of six_osds true l' p ∧ l' ≡ₚ [2; 0; 5] ∧ (true = false → l' = [2; 0; 5]) ∧
    ∀ j, [2; 0; 5] !! j = Some p →
      (∀ i, (i < j)%nat → [2; 0; 5] !! i ≠ Some p) → p ≠ CRUSH_ITEM_NONE →
      (true = true → l' = p :: delete j [2; 0; 5]) ∧
      (willing six_osds 5 p ∧ (∀ i v, (i < j)%nat → [2; 0; 5] !! i = Some v → ¬ willing six_osds 5 v) ∨
       Forall (λ v, ¬ willing six_osds 5 v) [2; 0; 5] ∧ p = first_osd [2; 0; 5]).
Proof.
  apply (primary_affinity_exact six_osds 5 rep_pool true [2; 0; 5] six_osds_wf); [reflexivity| |].
  - repeat (constructor; [by right|]). constructor.
  - intros _. repeat (constructor; [done|]). constructor.
Defined.

Theorem primary_shard_exact_witness :
  ∃ up upp acting actp m',
    _pg_to_up_acting_osds 104 (PgT 2 5 (-1)) six_map = Ok ((up, upp, acting, actp), m') ∧
    (false = true → get_primary_shard 104 (PgT 2 5 (-1)) six_map = Ok (Some (PgT 2 5 (-1), NO_SHARD), six_map)) ∧
    (false = false → (length acting <= 255)%nat → ∃ r, get_primary_shard 104 (PgT 2 5 (-1)) six_map = Ok (r, m') ∧
      match r with
      | Some (q, s) => q = PgT 2 5 (-1) ∧ ∃ j, s = Z.of_nat j ∧ acting !! j = Some actp ∧ ∀ k, (k < j)%nat → acting !! k ≠ Some actp
      | None => actp ∉ acting
      end).
Proof. apply (primary_shard_exact six_map (PgT 2 5 (-1)) ec_pool_3 false sample_shape 6 sample_rank sample_limits 0 1 104 six_ec_placeable). Defined.
