(* ===== verification/OsdIncr.v ===== *)
(** * Advancing the cluster map (src/osd/OSDMap.cc)

    [OSDMap::apply_incremental] with the loops it is made of, and the counters
    an [Incremental] offers.  The two embedded encodings, of a full map and of
    a CRUSH map, are decoded by arguments of the section. *)

From stdpp Require Import gmap strings.
From S2P Require Import Prelude CrushTypes CrushWrapper StdMap IntervalSet SnapSet.
From S2P Require Import Pg OsdState.

(** The maps over numbers and names are lists of pairs in key order; the order
    in which temporary mappings are visited makes no difference.  The two
    vectors and the two buffers are lists; an empty buffer means that there is
    none. *)
Record Incremental := MkIncremental {
  inc_fsid : uuid_d;
  inc_epoch : Z;
  inc_modified : utime_t;
  new_pool_max : Z;
  new_flags : Z;
  inc_fullmap : list Z;
  inc_crush : list Z;
  new_max_osd : Z;
  new_pools : list (Z * pg_pool_t);
  new_pool_names : list (Z * string);
  old_pools : list Z;
  new_profiles : list (string * gmap string string);
  old_profiles : list string;
  new_up_client : list (Z * entity_addr_t);
  new_up_cluster : list (Z * entity_addr_t);
  new_state : list (Z * Z);
  new_weight : list (Z * Z);
  new_pg_temp : gmap pg_t (list Z);
  new_primary_temp : gmap pg_t Z;
  new_primary_affinity : list (Z * Z);
  new_up_thru : list (Z * Z);
  new_last_clean_interval : list (Z * (Z * Z));
  new_lost : list (Z * Z);
  new_uuid : list (Z * uuid_d);
  new_xinfo : list (Z * osd_xinfo_t);
  new_blacklist : list (entity_addr_t * utime_t);
  old_blacklist : list entity_addr_t;
  new_hb_back_up : list (Z * entity_addr_t);
  new_hb_front_up : list (Z * entity_addr_t);
  inc_snapshot : string }.

(** ** The loops over OSDs *)

Definition apply_weight (x : Z * Z) : M osds unit :=
  _ ← set_weight x.1 x.2;
  if negb (x.2 =? 0) then
    _ ← mod_state x.1 (λ s, u8 (Z.land s (Z.lnot (Z.lor CEPH_OSD_AUTOOUT CEPH_OSD_NEW))));
    mod_xinfo x.1 (with_old_weight 0)
  else mret tt.

Definition apply_affinity (x : Z * Z) : M osds unit := set_primary_affinity x.1 (s32 x.2).

Definition apply_state (epoch : Z) (modified : utime_t) (x : Z * Z) : M osds unit :=
  let s := if negb (x.2 =? 0) then x.2 else CEPH_OSD_UP in
  old ← (λ o, v ← vget (osd_state o) x.1; Ok (v, o));
  _ ← (if negb (Z.land old CEPH_OSD_UP =? 0) && negb (Z.land s CEPH_OSD_UP =? 0) then
         _ ← mod_info x.1 (with_down_at epoch); mod_xinfo x.1 (with_down_stamp modified)
       else mret tt);
  _ ← (if negb (Z.land old CEPH_OSD_EXISTS =? 0) && negb (Z.land s CEPH_OSD_EXISTS =? 0)
       then vmod osd_uuid with_osd_uuid x.1 (λ _, 0) else mret tt);
  mod_state x.1 (λ v, u8 (Z.lxor v s)).

(** Dereferencing [find] when the key is missing is a fault. *)
Definition apply_up_client (epoch : Z) (back front : list (Z * entity_addr_t)) (x : Z * entity_addr_t) : M osds unit :=
  _ ← mod_state x.1 (λ s, u8 (Z.lor s (Z.lor CEPH_OSD_EXISTS CEPH_OSD_UP)));
  _ ← vmod client_addr with_client_addr x.1 (λ _, Some x.2);
  _ ← (match back with
       | [] => vmod hb_back_addr with_hb_back_addr x.1 (λ _, Some x.2)
       | _ => a ← lift (deref (map_find back x.1)); vmod hb_back_addr with_hb_back_addr x.1 (λ _, Some a)
       end);
  _ ← vmod hb_front_addr with_hb_front_addr x.1 (λ _, map_find front x.1);
  mod_info x.1 (with_up_from epoch).

Definition apply_up_cluster (x : Z * entity_addr_t) : M osds unit :=
  vmod cluster_addr with_cluster_addr x.1 (λ _, Some x.2).
Definition apply_up_thru (x : Z * Z) : M osds unit := mod_info x.1 (with_up_thru x.2).
Definition apply_last_clean (x : Z * (Z * Z)) : M osds unit :=
  mod_info x.1 (λ i, with_last_clean_end x.2.2 (with_last_clean_begin x.2.1 i)).
Definition apply_lost (x : Z * Z) : M osds unit := mod_info x.1 (with_lost_at x.2).
Definition apply_xinfo (x : Z * osd_xinfo_t) : M osds unit := mod_xinfo x.1 (λ _, x.2).
Definition apply_uuid (x : Z * uuid_d) : M osds unit := vmod osd_uuid with_osd_uuid x.1 (λ _, x.2).

Definition apply_weights (inc : Incremental) : M osds unit :=
  _ ← for_each (new_weight inc) apply_weight;
  for_each (new_primary_affinity inc) apply_affinity.

(** From [new_state] to [new_uuid]; [epoch] and [modified] are already the new ones. *)
Definition apply_osds (inc : Incremental) (epoch : Z) (modified : utime_t) : M osds unit :=
  _ ← for_each (new_state inc) (apply_state epoch modified);
  _ ← for_each (new_up_client inc) (apply_up_client epoch (new_hb_back_up inc) (new_hb_front_up inc));
  _ ← for_each (new_up_cluster inc) apply_up_cluster;
  _ ← for_each (new_up_thru inc) apply_up_thru;
  _ ← for_each (new_last_clean_interval inc) apply_last_clean;
  _ ← for_each (new_lost inc) apply_lost;
  _ ← for_each (new_xinfo inc) apply_xinfo;
  for_each (new_uuid inc) apply_uuid.

(** ** Pools, temporary mappings, profiles and the blacklist *)

(** [pool_name[p]] creates an empty name when there is none. *)
Definition drop_pool (p : Z) (m : OSDMap) : OSDMap :=
  let name := default EmptyString (map_find (om_pool_name m) p) in
  with_om_pool_name (map_del (om_pool_name m) p)
    (with_om_name_pool (delete name (om_name_pool m)) (with_om_pools (map_del (om_pools m) p) m)).

Definition put_pool (x : Z * pg_pool_t) (m : OSDMap) : OSDMap :=
  with_om_pools (map_put (om_pools m) x.1 (set_last_change (om_epoch m) x.2)) m.

Definition name_pool (x : Z * string) (m : OSDMap) : OSDMap :=
  let m := match map_find (om_pool_name m) x.1 with
           | Some old => with_om_name_pool (delete old (om_name_pool m)) m
           | None => m
           end in
  with_om_name_pool (<[x.2 := x.1]> (om_name_pool m)) (with_om_pool_name (map_put (om_pool_name m) x.1 x.2) m).

Definition put_pg_temp (x : pg_t * list Z) (m : OSDMap) : OSDMap :=
  with_om_pg_temp (match x.2 with [] => delete x.1 (om_pg_temp m) | _ => <[x.1 := x.2]> (om_pg_temp m) end) m.

Definition put_primary_temp (x : pg_t * Z) (m : OSDMap) : OSDMap :=
  with_om_primary_temp
    (if x.2 =? -1 then delete x.1 (om_primary_temp m) else <[x.1 := x.2]> (om_primary_temp m)) m.

Definition put_blacklist (x : entity_addr_t * utime_t) (m : OSDMap) : OSDMap :=
  with_om_new_blacklist_entries true (with_om_blacklist (<[x.1 := x.2]> (om_blacklist m)) m).
Definition drop_blacklist (a : entity_addr_t) (m : OSDMap) : OSDMap :=
  with_om_blacklist (delete a (om_blacklist m)) m.

Definition each {A S} (f : A → S → S) (l : list A) (s : S) : S := foldl (λ s x, f x s) s l.

(** [_calc_up_osd_features] *)
Definition _calc_up_osd_features (o : osds) : res Z :=
  '(_, features) ← for_up (Z.to_nat (max_osd o)) 0 (λ osd '(first, acc),
    u ← is_up o osd;
    if (u : bool) then
      _ ← assert_c (osd <? max_osd o);
      xi ← vget (osd_xinfo o) osd;
      Ok (false, if (first : bool) then features xi else Z.land acc (features xi))
    else Ok (first, acc)) (true, 0);
  Ok features.

(** Decoded encodings. *)
Section apply.
Context (decode_map : list Z → OSDMap → res OSDMap) (decode_crush : list Z → res crush_wrapper).

Definition on_osds (f : M osds unit) (m : OSDMap) : res OSDMap :=
  '(_, o) ← f (om_osds m); Ok (with_om_osds o m).

(** The part before the vectors: flags, [max_osd], pools. *)
Definition apply_pools (inc : Incremental) (m : OSDMap) : res OSDMap :=
  let m := if new_flags inc >=? 0 then with_om_flags (new_flags inc) m else m in
  m ← (if new_max_osd inc >=? 0 then on_osds (set_max_osd (new_max_osd inc)) m else Ok m);
  let m := if negb (new_pool_max inc =? -1) then with_om_pool_max (new_pool_max inc) m else m in
  let m := each drop_pool (old_pools inc) m in
  let m := each put_pool (new_pools inc) m in
  Ok (each name_pool (new_pool_names inc) m).

Definition apply_profiles (inc : Incremental) (m : OSDMap) : OSDMap :=
  with_om_profiles
    (foldl (λ p x, <[x.1 := x.2]> p) (foldl (λ p n, delete n p) (om_profiles m) (old_profiles inc)) (new_profiles inc)) m.

Definition apply_temps (inc : Incremental) (m : OSDMap) : OSDMap :=
  let m := each put_pg_temp (map_to_list (new_pg_temp inc)) m in
  let m := each put_primary_temp (map_to_list (new_primary_temp inc)) m in
  let m := each put_blacklist (new_blacklist inc) m in
  each drop_blacklist (old_blacklist inc) m.

Definition apply_snapshot (inc : Incremental) (m : OSDMap) : OSDMap :=
  match inc_snapshot inc with
  | EmptyString => with_om_snapshot EmptyString (with_om_snapshot_epoch 0 m)
  | s => with_om_snapshot s (with_om_snapshot_epoch (inc_epoch inc) m)
  end.

(** The status, and the map after the call. *)
Definition apply_incremental (inc : Incremental) (m : OSDMap) : res (Z * OSDMap) :=
  let m := with_om_new_blacklist_entries false m in
  if negb (inc_epoch inc =? 1) && negb (inc_fsid inc =? om_fsid m) then Ok (- EINVAL, m) else
  let m := if inc_epoch inc =? 1 then with_om_fsid (inc_fsid inc) m else m in
  _ ← assert_c (inc_epoch inc =? u32 (om_epoch m + 1));
  let m := with_om_modified (inc_modified inc) (with_om_epoch (u32 (om_epoch m + 1)) m) in
  match inc_fullmap inc with
  | [] =>
      m ← apply_pools inc m;
      m ← on_osds (apply_weights inc) m;
      let m := apply_profiles inc m in
      m ← on_osds (apply_osds inc (om_epoch m) (om_modified m)) m;
      let m := apply_snapshot inc (apply_temps inc m) in
      m ← match inc_crush inc with
          | [] => Ok m
          | bl => c ← decode_crush bl; Ok (with_om_crush c m)
          end;
      m ← on_osds (_ ← calc_num_osds; mret tt) m;
      f ← _calc_up_osd_features (om_osds m);
      Ok (0, with_om_up_features f m)
  | bl => m ← decode_map bl m; Ok (0, m)
  end.
End apply.

(** ** What an [Incremental] will change *)

(** [for] over the pairs, with a counter. *)
Fixpoint count_pairs (f : Z * Z → Z → res Z) (l : list (Z * Z)) (n : Z) : res Z :=
  match l with
  | [] => Ok n
  | x :: l => n ← f x n; count_pairs f l n
  end.

Definition get_net_marked_out (inc : Incremental) (previous : osds) : res Z :=
  count_pairs (λ x n,
    n ← (if x.2 =? CEPH_OSD_OUT then out ← osd_is_out previous x.1; Ok (if (out : bool) then n else s32 (n + 1)) else Ok n);
    if negb (x.2 =? CEPH_OSD_OUT) then out ← osd_is_out previous x.1; Ok (if (out : bool) then s32 (n - 1) else n) else Ok n)
    (new_weight inc) 0.

Definition get_net_marked_down (inc : Incremental) (previous : osds) : res Z :=
  count_pairs (λ x n,
    if negb (Z.land x.2 CEPH_OSD_UP =? 0)
    then up ← is_up previous x.1; Ok (if (up : bool) then s32 (n + 1) else s32 (n - 1))
    else Ok n)
    (new_state inc) 0.

Fixpoint identify_uuid (u : uuid_d) (l : list (Z * uuid_d)) : Z :=
  match l with
  | [] => -1
  | (i, v) :: l => if v =? u then i else identify_uuid u l
  end.
Definition identify_osd (inc : Incremental) (u : uuid_d) : Z := identify_uuid u (new_uuid inc).
