(* ===== verification/OsdIncrSpec.v ===== *)
(** * An incremental map, one OSD at a time (src/osd/OSDMap.cc)

    What is known of one OSD as a record, what an [Incremental] does to it, and
    the simulation: the loops over the vectors do that to every OSD, and nothing
    else. *)

From stdpp Require Import gmap strings sorting.
From stdpp Require Import gmap strings.
From S2P Require Import Prelude CrushTypes CrushWrapper StdMap IntervalSet SnapSet Pg.
From S2P Require Import OsdState OsdMapping OsdMappingSpec OsdIncr.

Record osd_view := OsdView {
  v_state : Z; v_weight : Z; v_info : osd_info_t; v_xinfo : osd_xinfo_t;
  v_client : option entity_addr_t; v_cluster : option entity_addr_t;
  v_back : option entity_addr_t; v_front : option entity_addr_t; v_uuid : uuid_d; v_affinity : Z }.

(** An OSD that was just made room for. *)
Definition fresh_view : osd_view :=
  OsdView 0 CEPH_OSD_OUT osd_info0 osd_xinfo0 None None None None 0 CEPH_OSD_DEFAULT_PRIMARY_AFFINITY.

Definition at_ {A} (d : A) (l : list A) (i : Z) : A := default d (l !! Z.to_nat i).

Definition view (o : osds) (i : Z) : osd_view :=
  OsdView (at_ 0 (osd_state o) i) (at_ 0 (osd_weight o) i) (at_ osd_info0 (osd_info o) i) (at_ osd_xinfo0 (osd_xinfo o) i)
    (at_ None (client_addr o) i) (at_ None (cluster_addr o) i) (at_ None (hb_back_addr o) i) (at_ None (hb_front_addr o) i)
    (at_ 0 (osd_uuid o) i) (aff_of o i).

Definition on_state (f : Z → Z) (v : osd_view) : osd_view :=
  OsdView (f (v_state v)) (v_weight v) (v_info v) (v_xinfo v) (v_client v) (v_cluster v) (v_back v) (v_front v) (v_uuid v) (v_affinity v).
Definition on_weight (f : Z → Z) (v : osd_view) : osd_view :=
  OsdView (v_state v) (f (v_weight v)) (v_info v) (v_xinfo v) (v_client v) (v_cluster v) (v_back v) (v_front v) (v_uuid v) (v_affinity v).
Definition on_info (f : osd_info_t → osd_info_t) (v : osd_view) : osd_view :=
  OsdView (v_state v) (v_weight v) (f (v_info v)) (v_xinfo v) (v_client v) (v_cluster v) (v_back v) (v_front v) (v_uuid v) (v_affinity v).
Definition on_xinfo (f : osd_xinfo_t → osd_xinfo_t) (v : osd_view) : osd_view :=
  OsdView (v_state v) (v_weight v) (v_info v) (f (v_xinfo v)) (v_client v) (v_cluster v) (v_back v) (v_front v) (v_uuid v) (v_affinity v).
Definition on_client (a : option entity_addr_t) (v : osd_view) : osd_view :=
  OsdView (v_state v) (v_weight v) (v_info v) (v_xinfo v) a (v_cluster v) (v_back v) (v_front v) (v_uuid v) (v_affinity v).
Definition on_cluster (a : option entity_addr_t) (v : osd_view) : osd_view :=
  OsdView (v_state v) (v_weight v) (v_info v) (v_xinfo v) (v_client v) a (v_back v) (v_front v) (v_uuid v) (v_affinity v).
Definition on_back (a : option entity_addr_t) (v : osd_view) : osd_view :=
  OsdView (v_state v) (v_weight v) (v_info v) (v_xinfo v) (v_client v) (v_cluster v) a (v_front v) (v_uuid v) (v_affinity v).
Definition on_front (a : option entity_addr_t) (v : osd_view) : osd_view :=
  OsdView (v_state v) (v_weight v) (v_info v) (v_xinfo v) (v_client v) (v_cluster v) (v_back v) a (v_uuid v) (v_affinity v).
Definition on_uuid (u : uuid_d) (v : osd_view) : osd_view :=
  OsdView (v_state v) (v_weight v) (v_info v) (v_xinfo v) (v_client v) (v_cluster v) (v_back v) (v_front v) u (v_affinity v).
Definition on_affinity (a : Z) (v : osd_view) : osd_view :=
  OsdView (v_state v) (v_weight v) (v_info v) (v_xinfo v) (v_client v) (v_cluster v) (v_back v) (v_front v) (v_uuid v) a.

(** ** What an incremental does to one OSD *)

(** Marking in ends being automatically out and new. *)
Definition view_weight (w : Z) (v : osd_view) : osd_view :=
  if w =? 0 then on_weight (λ _, w) v
  else on_xinfo (with_old_weight 0)
    (on_state (λ s, u8 (Z.land (u8 (Z.lor s CEPH_OSD_EXISTS)) (Z.lnot (Z.lor CEPH_OSD_AUTOOUT CEPH_OSD_NEW)))) (on_weight (λ _, w) v)).

(** The bits are toggled; no bits stand for the up bit.  An OSD that goes down
    gets a stamp, one that ceases to exist loses its uuid. *)
Definition view_state (epoch : Z) (modified : utime_t) (x : Z) (v : osd_view) : osd_view :=
  let s := if x =? 0 then CEPH_OSD_UP else x in
  let old := v_state v in
  let v := if negb (Z.land old CEPH_OSD_UP =? 0) && negb (Z.land s CEPH_OSD_UP =? 0)
           then on_xinfo (with_down_stamp modified) (on_info (with_down_at epoch) v) else v in
  let v := if negb (Z.land old CEPH_OSD_EXISTS =? 0) && negb (Z.land s CEPH_OSD_EXISTS =? 0) then on_uuid 0 v else v in
  on_state (λ b, u8 (Z.lxor b s)) v.

Definition view_up (epoch : Z) (back front : option entity_addr_t) (a : entity_addr_t) (v : osd_view) : osd_view :=
  on_info (with_up_from epoch) (on_front front (on_back (Some (default a back))
    (on_client (Some a) (on_state (λ s, u8 (Z.lor s (Z.lor CEPH_OSD_EXISTS CEPH_OSD_UP))) v)))).

(** [f x] for the entry of [i], if there is one. *)
Definition given {X V} (l : list (Z * X)) (i : Z) (f : X → V → V) (v : V) : V :=
  match map_find l i with Some x => f x v | None => v end.

Definition view_weights (inc : Incremental) (i : Z) (v : osd_view) : osd_view :=
  given (new_primary_affinity inc) i (λ a, on_affinity (u32 (s32 a))) (given (new_weight inc) i view_weight v).

Definition view_osds (inc : Incremental) (epoch : Z) (modified : utime_t) (i : Z) (v : osd_view) : osd_view :=
  let v := given (new_state inc) i (view_state epoch modified) v in
  let v := given (new_up_client inc) i (view_up epoch (map_find (new_hb_back_up inc) i) (map_find (new_hb_front_up inc) i)) v in
  let v := given (new_up_cluster inc) i (λ a, on_cluster (Some a)) v in
  let v := given (new_up_thru inc) i (λ e, on_info (with_up_thru e)) v in
  let v := given (new_last_clean_interval inc) i (λ e, on_info (λ n, with_last_clean_end e.2 (with_last_clean_begin e.1 n))) v in
  let v := given (new_lost inc) i (λ e, on_info (with_lost_at e)) v in
  let v := given (new_xinfo inc) i (λ x, on_xinfo (λ _, x)) v in
  given (new_uuid inc) i on_uuid v.

(** ** One step *)

(** [o'] differs from [o] in OSD [k], which was changed by [g]. *)
Record changes (k : Z) (g : osd_view → osd_view) (o o' : osds) : Prop := {
  ch_wf : osds_wf o';
  ch_max : max_osd o' = max_osd o;
  ch_num : num_osd o' = num_osd o;
  ch_view : ∀ i, 0 <= i < max_osd o → view o' i = if i =? k then g (view o i) else view o i }.

Lemma changes_id k o : osds_wf o → changes k (λ v, v) o o.
Proof. intros Hw. split; [done..|]. intros i _. by case_match. Qed.

Lemma changes_comp k f g o o1 o2 : changes k f o o1 → changes k g o1 o2 → changes k (λ v, g (f v)) o o2.
Proof.
  intros [W1 M1 N1 V1] [W2 M2 N2 V2]. split; [done|congruence|congruence|]. intros i Hi.
  rewrite V2 by (by rewrite M1). rewrite V1 by done. by case_match.
Qed.

Lemma changes_ext k f g o o' : (∀ v, f v = g v) → changes k f o o' → changes k g o o'.
Proof. intros E [W1 M1 N1 V1]. split; [done..|]. intros i Hi. rewrite V1 by done. case_match; [apply E|done]. Qed.

(** A computation that changes OSD [k] by [g]. *)
Definition step_ok (f : M osds unit) (k : Z) (g : osd_view → osd_view) : Prop :=
  ∀ o, osds_wf o → 0 <= k < max_osd o → ∃ o', f o = Ok (tt, o') ∧ changes k g o o'.

Lemma step_seq f1 f2 k g1 g2 : step_ok f1 k g1 → step_ok f2 k g2 → step_ok (_ ← f1; f2) k (λ v, g2 (g1 v)).
Proof.
  intros H1 H2 o Hw Hk. destruct (H1 o Hw Hk) as (o1 & E1 & C1). pose proof C1 as [W1 M1 _ _].
  destruct (H2 o1 W1) as (o2 & E2 & C2); [by rewrite M1|]. exists o2. split; [|by eapply changes_comp].
  unfold mbind, M_bind. by rewrite E1.
Qed.

Lemma step_ret k : step_ok (mret tt) k (λ v, v).
Proof. intros o Hw _. exists o. split; [done|by apply changes_id]. Qed.

Lemma step_ext f k g g' : (∀ v, g v = g' v) → step_ok f k g → step_ok f k g'.
Proof. intros E H o Hw Hk. destruct (H o Hw Hk) as (o' & ? & ?). exists o'. split; [done|]. by eapply changes_ext. Qed.

Lemma at_insert {A} (d : A) l i k x :
  0 <= i → 0 <= k < Z.of_nat (length l) → at_ d (<[Z.to_nat k := x]> l) i = if i =? k then x else at_ d l i.
Proof.
  intros Hi Hk. unfold at_. destruct (Z.eqb_spec i k) as [->|Hne].
  - by rewrite list_lookup_insert_eq by lia.
  - by rewrite list_lookup_insert_ne by lia.
Qed.

Ltac vmod_step lem :=
  let o := fresh "o" in let Hw := fresh "Hw" in let Hk := fresh "Hk" in
  intros o Hw Hk; pose proof (lem o Hw) as Hlen; unfold vmod;
  match goal with |- context [vget ?l ?k] =>
    destruct (vget_ok l k) as (x & Hx & ->); [rewrite Hlen; done|]; cbn [mbind res_bind];
    rewrite (vset_ok l k) by (rewrite Hlen; done); cbn [mbind res_bind];
    eexists; split; [done|]; split; [|done|done|];
    [destruct Hw; split; simpl; rewrite ?length_insert; done
    |intros i Hi; unfold view; cbn; (rewrite at_insert; [|lia|rewrite Hlen; lia]);
     destruct (Z.eqb_spec i k) as [->|]; [|done]; unfold at_ in *; rewrite Hx; done]
  end.

Lemma mod_state_ok k f : step_ok (mod_state k f) k (on_state f).
Proof. unfold mod_state. vmod_step ow_state. Qed.
Lemma mod_weight_ok k f : step_ok (vmod osd_weight with_osd_weight k f) k (on_weight f).
Proof. vmod_step ow_weight. Qed.
Lemma mod_info_ok k f : step_ok (mod_info k f) k (on_info f).
Proof. unfold mod_info. vmod_step ow_info. Qed.
Lemma mod_xinfo_ok k f : step_ok (mod_xinfo k f) k (on_xinfo f).
Proof. unfold mod_xinfo. vmod_step ow_xinfo. Qed.
Lemma mod_client_ok k a : step_ok (vmod client_addr with_client_addr k (λ _, a)) k (on_client a).
Proof. vmod_step ow_client. Qed.
Lemma mod_cluster_ok k a : step_ok (vmod cluster_addr with_cluster_addr k (λ _, a)) k (on_cluster a).
Proof. vmod_step ow_cluster. Qed.
Lemma mod_back_ok k a : step_ok (vmod hb_back_addr with_hb_back_addr k (λ _, a)) k (on_back a).
Proof. vmod_step ow_back. Qed.
Lemma mod_front_ok k a : step_ok (vmod hb_front_addr with_hb_front_addr k (λ _, a)) k (on_front a).
Proof. vmod_step ow_front. Qed.
Lemma mod_uuid_ok k u : step_ok (vmod osd_uuid with_osd_uuid k (λ _, u)) k (on_uuid u).
Proof. vmod_step ow_uuid. Qed.

(** ** The loop bodies *)

(** The check of [max_osd] that some operations start with. *)
Lemma step_assert f k g : step_ok f k g → step_ok (m ← gets max_osd; _ ← lift (assert_c (k <? m)); f) k g.
Proof.
  intros H o Hw Hk. unfold mbind, M_bind, gets, lift. cbn beta iota. rewrite (proj2 (Z.ltb_lt k (max_osd o))) by lia. by apply H.
Qed.

Lemma set_weight_ok k w :
  step_ok (set_weight k w) k
    (λ v, if w =? 0 then on_weight (λ _, w) v else on_state (λ s, u8 (Z.lor s CEPH_OSD_EXISTS)) (on_weight (λ _, w) v)).
Proof.
  apply step_assert. eapply step_ext; [|apply step_seq; [apply mod_weight_ok|]].
  2: { instantiate (1 := if w =? 0 then λ v, v else on_state (λ s, u8 (Z.lor s CEPH_OSD_EXISTS))).
       destruct (w =? 0); cbn [negb]; [apply step_ret|apply mod_state_ok]. }
  intros v. by destruct (w =? 0).
Qed.

Lemma apply_weight_ok k w : step_ok (apply_weight (k, w)) k (view_weight w).
Proof.
  unfold apply_weight. cbn [fst snd]. eapply step_ext; [|apply step_seq; [apply set_weight_ok|]].
  2: { instantiate (1 := if w =? 0 then λ v, v else λ v, on_xinfo (with_old_weight 0)
         (on_state (λ s, u8 (Z.land s (Z.lnot (Z.lor CEPH_OSD_AUTOOUT CEPH_OSD_NEW)))) v)).
       destruct (w =? 0); cbn [negb]; [apply step_ret|]. apply step_seq; [apply mod_state_ok|apply mod_xinfo_ok]. }
  intros v. unfold view_weight. by destruct (w =? 0).
Qed.

Lemma apply_affinity_ok k a : step_ok (apply_affinity (k, a)) k (on_affinity (u32 (s32 a))).
Proof.
  intros o Hw Hk. unfold apply_affinity, set_primary_affinity. cbn [fst snd].
  rewrite (proj2 (Z.ltb_lt k (max_osd o))) by lia. cbn [assert_c mbind res_bind].
  set (aff := match osd_primary_affinity o with Some v => v | None => _ end).
  assert (Z.of_nat (length aff) = max_osd o) as Hlen.
  { subst aff. destruct (osd_primary_affinity o) as [v|] eqn:E; [by apply (ow_affinity o Hw)|].
    rewrite length_replicate. pose proof (ow_max o Hw). lia. }
  assert (∀ i, 0 <= i < max_osd o → at_ CEPH_OSD_DEFAULT_PRIMARY_AFFINITY aff i = aff_of o i) as Haff.
  { intros i Hi. unfold at_, aff_of. subst aff. destruct (osd_primary_affinity o) as [v|]; [done|].
    by rewrite lookup_replicate_2 by lia. }
  rewrite vset_ok by (rewrite Hlen; done). cbn [mbind res_bind]. eexists. split; [done|]. split; [|done|done|].
  - destruct Hw. split; simpl; try done. intros v [= <-]. by rewrite length_insert.
  - intros i Hi. unfold view. cbn. unfold aff_of at 1. cbn [osd_primary_affinity].
    change (default _ (<[Z.to_nat k := u32 (s32 a)]> aff !! Z.to_nat i))
      with (at_ CEPH_OSD_DEFAULT_PRIMARY_AFFINITY (<[Z.to_nat k := u32 (s32 a)]> aff) i).
    rewrite at_insert by lia. rewrite Haff by done. by destruct (i =? k).
Qed.

(** A step that first reads the OSD's state. *)
Lemma step_read k (f : Z → M osds unit) g :
  (∀ s, step_ok (f s) k (g s)) →
  step_ok (old ← (λ o, v ← vget (osd_state o) k; Ok (v, o)); f old) k (λ v, g (v_state v) v).
Proof.
  intros H o Hw Hk. pose proof (get_state_ok o Hw k Hk) as E.
  destruct (H (state_of o k) o Hw Hk) as (o' & Ef & [W M N V]). exists o'. split.
  { unfold mbind, M_bind. rewrite E. exact Ef. }
  split; [done..|]. intros i Hi. rewrite V by done. destruct (Z.eqb_spec i k) as [->|]; done.
Qed.

Lemma step_if (b : bool) f k g : step_ok f k g → step_ok (if b then f else mret tt) k (λ v, if b then g v else v).
Proof. intros H. destruct b; [exact H|apply step_ret]. Qed.

Lemma apply_state_ok epoch modified k x : step_ok (apply_state epoch modified (k, x)) k (view_state epoch modified x).
Proof.
  unfold apply_state. cbn [fst snd]. set (s := if negb (x =? 0) then x else CEPH_OSD_UP).
  eapply step_ext; [|apply (step_read k _ (λ old v, on_state (λ v, u8 (Z.lxor v s))
    ((λ v, if negb (Z.land old CEPH_OSD_EXISTS =? 0) && negb (Z.land s CEPH_OSD_EXISTS =? 0) then on_uuid 0 v else v)
      (if negb (Z.land old CEPH_OSD_UP =? 0) && negb (Z.land s CEPH_OSD_UP =? 0)
       then on_xinfo (with_down_stamp modified) (on_info (with_down_at epoch) v) else v))))].
  - intros v. unfold view_state. replace (if x =? 0 then CEPH_OSD_UP else x) with s by (subst s; by destruct (x =? 0)). done.
  - intros old. eapply step_ext; [|apply step_seq; [apply step_if, step_seq; [apply mod_info_ok|apply mod_xinfo_ok]|
      apply step_seq; [apply step_if, mod_uuid_ok|apply mod_state_ok]]]. done.
Qed.

Lemma apply_up_client_ok epoch back front k a :
  (back = [] ∨ is_Some (map_find back k)) →
  step_ok (apply_up_client epoch back front (k, a)) k (view_up epoch (map_find back k) (map_find front k) a).
Proof.
  intros Hb. unfold apply_up_client. cbn [fst snd]. eapply step_ext.
  2: { apply step_seq; [apply mod_state_ok|]. apply step_seq; [apply mod_client_ok|]. apply step_seq.
       - instantiate (1 := on_back (Some (default a (map_find back k)))).
         destruct back as [|x back]; [apply mod_back_ok|]. destruct Hb as [?|[b Hb]]; [done|].
         rewrite Hb. intros o Hw Hk. apply mod_back_ok; done.
       - apply step_seq; [apply mod_front_ok|apply mod_info_ok]. }
  done.
Qed.

(** ** Loops *)

(** [o'] is [o] with every OSD [i] changed by [g i]. *)
Record updates (g : Z → osd_view → osd_view) (o o' : osds) : Prop := {
  up_wf : osds_wf o';
  up_max : max_osd o' = max_osd o;
  up_num : num_osd o' = num_osd o;
  up_view : ∀ i, 0 <= i < max_osd o → view o' i = g i (view o i) }.

(** The keys of a loop name OSDs. *)
Definition keys_in {X} (max : Z) (l : list (Z * X)) : Prop := ordered l ∧ Forall (λ k, 0 <= k < max) (keys l).

Lemma find_not_in {X} (l : list (Z * X)) k : (k ∉ keys l) → map_find l k = None.
Proof. intros H. destruct (map_find l k) eqn:E; [|done]. destruct H. apply map_find_in. by eexists. Qed.

Lemma loop_ok {X} (body : Z * X → M osds unit) (g : Z → X → osd_view → osd_view) l : ∀ o,
  osds_wf o → keys_in (max_osd o) l → (∀ k x, (k, x) ∈ l → step_ok (body (k, x)) k (g k x)) →
  ∃ o', for_each l body o = Ok (tt, o') ∧ updates (λ i, given l i (g i)) o o'.
Proof.
  induction l as [|[k x] l IH]; intros o Hw [Hord Hin] Hb.
  { exists o. split; [done|]. by split. }
  apply StronglySorted_inv in Hord as [Hord Hlt]. apply Forall_cons in Hin as [Hk Hin]. cbn [for_each]. cbn in Hk.
  destruct (Hb k x ltac:(left) o Hw Hk) as (o1 & E1 & [W1 M1 N1 V1]).
  destruct (IH o1 W1) as (o2 & E2 & [W2 M2 N2 V2]); [rewrite M1; by split|intros ? ? ?; apply Hb; by right|].
  exists o2. split; [unfold mbind, M_bind; by rewrite E1|]. split; [done|congruence|congruence|].
  intros i Hi. rewrite V2 by (by rewrite M1). rewrite V1 by done. unfold given. cbn [map_find].
  rewrite (Z.eqb_sym k i). destruct (Z.eqb_spec i k) as [->|Hne]; [|done].
  rewrite find_not_in; [done|]. intros Hi2. pose proof (proj1 (Forall_forall _ _) Hlt k Hi2). simpl in *. lia.
Qed.

Lemma updates_comp f g o o1 o2 : updates f o o1 → updates g o1 o2 → updates (λ i v, g i (f i v)) o o2.
Proof.
  intros [W1 M1 N1 V1] [W2 M2 N2 V2]. split; [done|congruence|congruence|]. intros i Hi.
  rewrite V2 by (by rewrite M1). by rewrite V1.
Qed.

(** Two loops after each other. *)
Lemma seq_ok (f1 f2 : M osds unit) g1 g2 g o :
  (∃ o', f1 o = Ok (tt, o') ∧ updates g1 o o') →
  (∀ o1, osds_wf o1 → max_osd o1 = max_osd o → ∃ o', f2 o1 = Ok (tt, o') ∧ updates g2 o1 o') →
  (∀ i v, g2 i (g1 i v) = g i v) →
  ∃ o', (_ ← f1; f2) o = Ok (tt, o') ∧ updates g o o'.
Proof.
  intros (o1 & E1 & U1) H2 Hg. pose proof U1 as [W1 M1 _ _]. destruct (H2 o1 W1 M1) as (o2 & E2 & U2).
  exists o2. split; [unfold mbind, M_bind; by rewrite E1|]. destruct (updates_comp _ _ _ _ _ U1 U2) as [W M N V].
  split; [done..|]. intros i Hi. rewrite V by done. apply Hg.
Qed.

(** Closes the first part of a sequence of loops with [step], for the keys that
    [inc_wf] speaks of. *)
Ltac loop_by step Hi :=
  first [done | (repeat match goal with H : max_osd _ = _ |- _ => rewrite H; clear H end); apply Hi | intros; apply step].

(** The loops of an incremental name OSDs, and give heartbeat addresses to all
    the OSDs that come up, or to none. *)
Record inc_wf (inc : Incremental) (max : Z) : Prop := {
  iw_weight : keys_in max (new_weight inc);
  iw_affinity : keys_in max (new_primary_affinity inc);
  iw_state : keys_in max (new_state inc);
  iw_client : keys_in max (new_up_client inc);
  iw_cluster : keys_in max (new_up_cluster inc);
  iw_thru : keys_in max (new_up_thru inc);
  iw_clean : keys_in max (new_last_clean_interval inc);
  iw_lost : keys_in max (new_lost inc);
  iw_xinfo : keys_in max (new_xinfo inc);
  iw_uuid : keys_in max (new_uuid inc);
  iw_back : new_hb_back_up inc = [] ∨ ∀ k, k ∈ keys (new_up_client inc) → is_Some (map_find (new_hb_back_up inc) k) }.

Lemma apply_weights_ok inc o :
  osds_wf o → inc_wf inc (max_osd o) → ∃ o', apply_weights inc o = Ok (tt, o') ∧ updates (view_weights inc) o o'.
Proof.
  intros Hw Hi. unfold apply_weights. eapply seq_ok.
  - apply (loop_ok _ (λ _, view_weight)); loop_by apply_weight_ok Hi.
  - intros o1 W1 M1. apply (loop_ok _ (λ _ a, on_affinity (u32 (s32 a)))); loop_by apply_affinity_ok Hi.
  - done.
Qed.

Lemma apply_osds_ok inc epoch modified o :
  osds_wf o → inc_wf inc (max_osd o) →
  ∃ o', apply_osds inc epoch modified o = Ok (tt, o') ∧ updates (view_osds inc epoch modified) o o'.
Proof.
  intros Hw Hi. unfold apply_osds. eapply seq_ok; [|intros o1 W1 M1; eapply seq_ok; [|intros o2 W2 M2; eapply seq_ok;
    [|intros o3 W3 M3; eapply seq_ok; [|intros o4 W4 M4; eapply seq_ok; [|intros o5 W5 M5; eapply seq_ok;
    [|intros o6 W6 M6; eapply seq_ok; [|intros o7 W7 M7|]|]|]|]|]|]|].
  - apply (loop_ok _ (λ _, view_state epoch modified)); loop_by apply_state_ok Hi.
  - apply (loop_ok _ (λ i, view_up epoch (map_find (new_hb_back_up inc) i) (map_find (new_hb_front_up inc) i)));
      [done|rewrite M1; apply Hi|]. intros k x Hin. apply apply_up_client_ok.
    destruct (iw_back inc _ Hi) as [->|Hb]; [by left|right]. apply Hb. apply list_elem_of_fmap. by exists (k, x).
  - apply (loop_ok _ (λ _ a, on_cluster (Some a))); loop_by mod_cluster_ok Hi.
  - apply (loop_ok _ (λ _ e, on_info (with_up_thru e))); loop_by mod_info_ok Hi.
  - apply (loop_ok _ (λ _ e, on_info (λ n, with_last_clean_end e.2 (with_last_clean_begin e.1 n)))); loop_by mod_info_ok Hi.
  - apply (loop_ok _ (λ _ e, on_info (with_lost_at e))); loop_by mod_info_ok Hi.
  - apply (loop_ok _ (λ _ x, on_xinfo (λ _, x))); loop_by mod_xinfo_ok Hi.
  - apply (loop_ok _ (λ _, on_uuid)); loop_by mod_uuid_ok Hi.
  - done.
  - done.
  - done.
  - done.
  - done.
  - done.
  - done.
Qed.

(** ** Resizing the vectors and counting (src/osd/OSDMap.cc)

    [set_max_osd] as a change of what is known of every OSD, [calc_num_osds] and
    [_calc_up_osd_features] as a count and an intersection over the OSDs. *)

(** ** Counting *)

(** The OSDs that exist, in order. *)
Definition existing (o : osds) : list Z := filter (λ i, ex o i = true) (seqZ 0 (max_osd o)).
Definition up_osds (o : osds) : list Z := filter (λ i, up_b o i = true) (seqZ 0 (max_osd o)).

(** A loop over all OSDs collects what it does for each. *)
Lemma for_osds {A} (f : Z → A → res A) (g : Z → A → A) (max : Z) (a : A) :
  0 <= max → (∀ i a, 0 <= i < max → f i a = Ok (g i a)) →
  for_up (Z.to_nat max) 0 f a = Ok (foldl (λ a i, g i a) a (seqZ 0 max)).
Proof.
  intros Hm Hf. assert (∀ n k a, 0 <= k → k + Z.of_nat n = max →
    for_up n k f a = Ok (foldl (λ a i, g i a) a (seqZ k (Z.of_nat n)))) as H.
  { induction n as [|n IH]; intros k b Hk Hn; [done|]. cbn [for_up]. rewrite Hf by lia. cbn [mbind res_bind].
    rewrite IH by lia. rewrite (seqZ_cons k) by lia. cbn [foldl]. do 2 f_equal.
    replace (Z.pred (Z.of_nat (S n))) with (Z.of_nat n) by lia. by replace (Z.succ k) with (k + 1) by lia. }
  rewrite (H (Z.to_nat max) 0 a) by lia. by rewrite Z2Nat.id.
Qed.

(** A conditional counter counts. *)
Lemma foldl_count (P : Z → bool) (l : list Z) n :
  foldl (λ n i, if P i then n + 1 else n) n l = n + Z.of_nat (length (filter (λ i, P i = true) l)).
Proof.
  revert n. induction l as [|i l IH]; intros n; [simpl; lia|]. cbn [foldl]. rewrite IH, filter_cons.
  destruct (P i); [rewrite decide_True by done; simpl; lia|rewrite decide_False by done; lia].
Qed.

Lemma foldl_small (P : Z → bool) (w : Z → Z) l n :
  0 <= n → n + Z.of_nat (length l) < 2147483648 → (∀ x, 0 <= x < 2147483648 → w x = x) →
  foldl (λ n i, if P i then w (n + 1) else n) n l = foldl (λ n i, if P i then n + 1 else n) n l.
Proof.
  intros Hn Hl Hw. revert n Hn Hl. induction l as [|i l IH]; intros n Hn Hl; [done|]. cbn [foldl length] in *.
  destruct (P i); [rewrite Hw by lia|]; apply IH; lia.
Qed.

Section count.
Context (o : osds) (Hw : osds_wf o).

Lemma exists_bit i : 0 <= i < max_osd o → negb (Z.land (state_of o i) CEPH_OSD_EXISTS =? 0) = ex o i.
Proof. intros Hi. unfold ex. rewrite (proj2 (Z.leb_le 0 i)), (proj2 (Z.ltb_lt i (max_osd o))) by lia. done. Qed.

Lemma up_bits i : 0 <= i < max_osd o →
  negb (Z.land (state_of o i) CEPH_OSD_EXISTS =? 0) && negb (Z.land (state_of o i) CEPH_OSD_UP =? 0) = up_b o i.
Proof. intros Hi. unfold up_b. by rewrite exists_bit. Qed.

(** Counting loops, in [int] or [unsigned], count. *)
Lemma count_loop (P : Z → bool) (w : Z → Z) f :
  (∀ x, 0 <= x < 2147483648 → w x = x) →
  (∀ i n, 0 <= i < max_osd o → f i n = Ok (if P i then w (n + 1) else n)) →
  for_up (Z.to_nat (max_osd o)) 0 f 0 = Ok (Z.of_nat (length (filter (λ i, P i = true) (seqZ 0 (max_osd o))))).
Proof.
  intros Hwd Hf. pose proof (ow_max o Hw).
  rewrite (for_osds f (λ i n, if P i then w (n + 1) else n)); [|lia|done].
  rewrite foldl_small; [|lia|rewrite length_seqZ; lia|done]. by rewrite foldl_count.
Qed.

Lemma calc_num_osds_ok :
  calc_num_osds o = Ok (Z.of_nat (length (existing o)), with_num_osd (Z.of_nat (length (existing o))) o).
Proof.
  unfold calc_num_osds. rewrite (count_loop (ex o) s32).
  - done.
  - intros x Hx. apply s32_small. unfold is_s32. lia.
  - intros i n Hi. rewrite get_state_ok by done. cbn [mbind res_bind]. by rewrite exists_bit.
Qed.

Lemma get_num_up_osds_ok : get_num_up_osds o = Ok (Z.of_nat (length (up_osds o))).
Proof.
  unfold get_num_up_osds. apply (count_loop (up_b o) u32).
  - intros x Hx. apply u32_small. unfold is_u32. lia.
  - intros i n Hi. rewrite get_state_ok by done. cbn [mbind res_bind]. by rewrite up_bits.
Qed.

(** The features of all OSDs that are up; none if no OSD is. *)
Definition common_features (l : list Z) : Z :=
  match l with
  | [] => 0
  | i :: l => foldl (λ acc j, Z.land acc (features (at_ osd_xinfo0 (osd_xinfo o) j))) (features (at_ osd_xinfo0 (osd_xinfo o) i)) l
  end.

Definition feature_step (i : Z) (s : bool * Z) : bool * Z :=
  if up_b o i
  then (false, if fst s then features (at_ osd_xinfo0 (osd_xinfo o) i) else Z.land (snd s) (features (at_ osd_xinfo0 (osd_xinfo o) i)))
  else s.

Lemma feature_steps l : ∀ acc, foldl (λ s i, feature_step i s) (false, acc) l =
  (false, foldl (λ acc j, Z.land acc (features (at_ osd_xinfo0 (osd_xinfo o) j))) acc (filter (λ i, up_b o i = true) l)).
Proof.
  induction l as [|i l IH]; intros acc; [done|]. cbn [foldl]. rewrite filter_cons. unfold feature_step at 2. cbn [fst snd].
  destruct (up_b o i); [rewrite IH, decide_True by done; done|by rewrite IH, decide_False by done].
Qed.

Lemma feature_start l : snd (foldl (λ s i, feature_step i s) (true, 0) l) = common_features (filter (λ i, up_b o i = true) l).
Proof.
  induction l as [|i l IH]; [done|]. cbn [foldl]. rewrite filter_cons. unfold feature_step at 2. cbn [fst snd].
  destruct (up_b o i); [by rewrite feature_steps, decide_True by done|by rewrite decide_False by done].
Qed.

Lemma calc_features_ok : _calc_up_osd_features o = Ok (common_features (up_osds o)).
Proof.
  unfold _calc_up_osd_features. pose proof (ow_max o Hw). rewrite (for_osds _ feature_step); [|lia|].
  - cbn [mbind res_bind]. unfold up_osds. rewrite <- feature_start. by destruct (foldl _ _ _).
  - intros i [first acc] Hi. rewrite is_up_ok by done. cbn [mbind res_bind]. unfold feature_step. destruct (up_b o i); [|done].
    rewrite (proj2 (Z.ltb_lt i (max_osd o))) by lia. cbn [assert_c mbind res_bind].
    destruct (vget_ok (osd_xinfo o) i) as (x & Hx & ->); [rewrite (ow_xinfo o Hw); lia|]. cbn [mbind res_bind].
    unfold at_. by rewrite Hx.
Qed.
End count.

(** ** Resizing *)

Lemma resize_at {A} (v : list A) m d : 0 <= m →
  ∃ v', vresize v m d = Ok v' ∧ Z.of_nat (length v') = m ∧ ∀ i, 0 <= i < m → v' !! Z.to_nat i = Some (at_ d v i).
Proof.
  intros Hm. destruct (vresize_ok v m d Hm) as (v' & E & Hl & Hi). exists v'. split; [done|]. split; [lia|].
  intros i Hr. apply Hi. lia.
Qed.

(** The new cells are zero already. *)
Lemma fresh_osds_same n : ∀ i o,
  0 <= i → (∀ j, i <= j < i + Z.of_nat n → osd_state o !! Z.to_nat j = Some 0 ∧ osd_weight o !! Z.to_nat j = Some 0) →
  fresh_osds n i o = Ok o.
Proof.
  induction n as [|n IH]; intros i o Hi Hz; [done|]. cbn [fresh_osds]. destruct (Hz i ltac:(lia)) as [Hs Hwt].
  pose proof (lookup_lt_Some _ _ _ Hs). pose proof (lookup_lt_Some _ _ _ Hwt).
  rewrite !vset_ok by lia. cbn [mbind res_bind]. change CEPH_OSD_OUT with 0.
  rewrite (list_insert_id (osd_state o)), (list_insert_id (osd_weight o)) by done.
  replace (with_osd_state (osd_state o) (with_osd_weight (osd_weight o) o)) with o by (by destruct o).
  apply IH; [lia|]. intros j Hj. apply Hz. lia.
Qed.

(** The affinities, resized if there are any. *)
Lemma resize_affinity (aff : option (list Z)) m : 0 <= m → ∃ aff',
  (match aff with
   | None => Ok None
   | Some v => v ← vresize v m CEPH_OSD_DEFAULT_PRIMARY_AFFINITY; Ok (Some v)
   end) = Ok aff' ∧ (∀ v, aff' = Some v → Z.of_nat (length v) = m) ∧
  ∀ o o', osd_primary_affinity o = aff → osd_primary_affinity o' = aff' → ∀ i, 0 <= i < m → aff_of o' i = aff_of o i.
Proof.
  intros Hm. destruct aff as [v|].
  - destruct (resize_at v m CEPH_OSD_DEFAULT_PRIMARY_AFFINITY Hm) as (v' & -> & Hl & Hi). exists (Some v').
    split; [done|]. split; [by intros ? [= <-]|]. intros o o' E E' i Hr. unfold aff_of. rewrite E, E'. by rewrite Hi.
  - exists None. split; [done|]. split; [done|]. intros o o' E E' i _. unfold aff_of. by rewrite E, E'.
Qed.

Lemma set_max_osd_ok o m :
  osds_wf o → 0 <= m < 2147483647 →
  ∃ o', set_max_osd m o = Ok (tt, o') ∧ osds_wf o' ∧ max_osd o' = m ∧ num_osd o' = Z.of_nat (length (existing o')) ∧
    ∀ i, 0 <= i < m → view o' i = if i <? max_osd o then view o i else fresh_view.
Proof.
  intros Hw Hm. unfold set_max_osd. cbv zeta.
  destruct (resize_at (osd_state o) m 0 ltac:(lia)) as (s & -> & Ls & Hs).
  destruct (resize_at (osd_weight o) m 0 ltac:(lia)) as (w & -> & Lw & Hwt). cbn [mbind res_bind].
  rewrite fresh_osds_same.
  2: { apply (ow_max o Hw). }
  2: { intros j Hj. cbn. pose proof (ow_max o Hw). rewrite Hs, Hwt by lia. unfold at_.
       rewrite !lookup_ge_None_2; [done|pose proof (ow_weight o Hw); lia|pose proof (ow_state o Hw); lia]. }
  cbn -[vresize calc_num_osds].
  destruct (resize_at (osd_info o) m osd_info0 ltac:(lia)) as (inf & -> & Li & Hi).
  destruct (resize_at (osd_xinfo o) m osd_xinfo0 ltac:(lia)) as (x & -> & Lx & Hx).
  destruct (resize_at (client_addr o) m None ltac:(lia)) as (c & -> & Lc & Hc).
  destruct (resize_at (cluster_addr o) m None ltac:(lia)) as (cl & -> & Lcl & Hcl).
  destruct (resize_at (hb_back_addr o) m None ltac:(lia)) as (b & -> & Lb & Hb).
  destruct (resize_at (hb_front_addr o) m None ltac:(lia)) as (f & -> & Lf & Hf).
  destruct (resize_at (osd_uuid o) m 0 ltac:(lia)) as (u & -> & Lu & Hu). cbn [mbind res_bind].
  destruct (resize_affinity (osd_primary_affinity o) m ltac:(lia)) as (aff & -> & La & Ha). cbn [mbind res_bind].
  set (o1 := Osds m (num_osd o) s w inf x c cl b f u aff).
  assert (osds_wf o1) as Hw1 by (split; try done; simpl; lia).
  rewrite (calc_num_osds_ok o1 Hw1). cbn [mbind res_bind]. eexists. split; [done|]. split; [by destruct Hw1|].
  split; [done|]. split; [done|]. intros i Hr.
  assert (view o1 i = view o i) as Hv.
  { unfold view. rewrite (Ha o o1 eq_refl eq_refl i Hr). unfold at_ at 1 2 3 4 5 6 7 8 9. cbn.
    by rewrite Hs, Hwt, Hi, Hx, Hc, Hcl, Hb, Hf, Hu. }
  change (view o1 i = if i <? max_osd o then view o i else fresh_view). rewrite Hv.
  destruct (Z.ltb_spec i (max_osd o)) as [|Hge]; [done|]. pose proof (ow_affinity o Hw) as Haff. unfold view, fresh_view, at_, aff_of. destruct Hw.
  rewrite !lookup_ge_None_2 by lia. destruct (osd_primary_affinity o) as [v|] eqn:Ev; [|done].
  rewrite lookup_ge_None_2; [done|]. specialize (Haff v eq_refl). lia.
Qed.
