(* ===== verification/OsdIncrProps.v ===== *)
(** * What an incremental does (src/osd/OSDMap.cc)

    [apply_incremental] refines the per-OSD specification of [OsdIncrSpec], and
    acts on pools and temporary mappings key by key; when it refuses. *)

From stdpp Require Import gmap strings sorting.
From S2P Require Import Prelude CrushTypes CrushWrapper StdMap IntervalSet SnapSet.
From S2P Require Import Pg OsdState OsdMapping OsdMappingSpec.
From S2P Require Import OsdIncr OsdIncrSpec.

(** ** Loops over keys *)

Lemma each_frame {A S B} (π : S → B) (f : A → S → S) l : ∀ s, (∀ x s, π (f x s) = π s) → π (each f l s) = π s.
Proof. unfold each. induction l as [|x l IH]; intros s H; [done|]. cbn [foldl]. by rewrite IH, H. Qed.

Lemma each_preserves {A S} (P : S → Prop) (f : A → S → S) l : ∀ s, P s → (∀ x s, P s → P (f x s)) → P (each f l s).
Proof. unfold each. induction l as [|x l IH]; intros s Hs H; [done|]. cbn [foldl]. by apply IH; [apply H|]. Qed.

(** A loop that writes one key per element, over distinct keys. *)
Lemma each_keyed {K X S V} `{EqDecision K} (look : S → K → V) (f : K * X → S → S) (g : K → X → V → V) l : ∀ s k,
  NoDup (fst <$> l) → (∀ x s k, look (f x s) k = if decide (k = x.1) then g k x.2 (look s k) else look s k) →
  look (each f l s) k = match snd <$> list_find (λ x, x.1 = k) l with Some x => g k x.2 (look s k) | None => look s k end.
Proof.
  unfold each. induction l as [|[k' x] l IH]; intros s k Hnd Hf; [done|]. cbn [foldl fmap list_fmap fst] in *.
  apply NoDup_cons in Hnd as [Hn Hnd]. rewrite IH by done. cbn [list_find]. rewrite Hf. cbn [fst snd].
  destruct (decide (k = k')) as [->|Hne].
  - rewrite (decide_True (P := (k', x).1 = k')) by done. cbn.
    assert (list_find (λ x0 : K * X, x0.1 = k') l = None) as ->; [|done].
    apply list_find_None, Forall_forall. intros [a b] Hin E. cbn in E. subst a. apply Hn. apply list_elem_of_fmap. by exists (k', b).
  - rewrite (decide_False (P := (k', x).1 = k)) by (cbn; congruence).
    by destruct (list_find (λ x0 : K * X, x0.1 = k) l) as [[]|].
Qed.

(** What a list of pairs says about a key. *)
Definition entry_of {K X} `{EqDecision K} (l : list (K * X)) (k : K) : option X := snd <$> (snd <$> list_find (λ x, x.1 = k) l).

Lemma each_entry {K X S V} `{EqDecision K} (look : S → K → V) (f : K * X → S → S) (g : K → X → V → V) l s k :
  NoDup (fst <$> l) → (∀ x s k, look (f x s) k = if decide (k = x.1) then g k x.2 (look s k) else look s k) →
  look (each f l s) k = match entry_of l k with Some x => g k x (look s k) | None => look s k end.
Proof.
  intros Hn Hf. rewrite (each_keyed look f g) by done. unfold entry_of. by destruct (list_find _ l) as [[]|].
Qed.

Lemma entry_of_map {K V} `{Countable K} (m : gmap K V) k : entry_of (map_to_list m) k = m !! k.
Proof.
  unfold entry_of. destruct (list_find (λ x, x.1 = k) (map_to_list m)) as [[i [k' v]]|] eqn:E.
  - apply list_find_Some in E as (Hi & Hk & _). cbn in Hk. subst k'. cbn. symmetry.
    apply elem_of_map_to_list. by eapply list_elem_of_lookup_2.
  - cbn. symmetry. apply eq_None_not_Some. intros [v Hv]. apply list_find_None in E.
    exact (proj1 (Forall_forall _ _) E (k, v) (proj2 (elem_of_map_to_list m k v) Hv) eq_refl).
Qed.

(** ** Pools *)

Lemma find_del {A} (l : list (Z * A)) p k : map_find (map_del l p) k = if decide (k = p) then None else map_find l k.
Proof.
  unfold map_del. induction l as [|[s v] l IH]; [by destruct (decide (k = p))|]. rewrite filter_cons.
  destruct (decide ((s, v).1 ≠ p)) as [Hn|Hn]; cbn [map_find].
  - rewrite IH. destruct (Z.eqb_spec s k) as [->|], (decide (k = p)) as [->|]; done.
  - apply dec_stable in Hn. cbn in Hn. subst s. rewrite IH. destruct (decide (k = p)) as [->|Hne]; [done|].
    destruct (Z.eqb_spec p k); [congruence|done].
Qed.

Lemma drop_pools l : ∀ m p,
  map_find (om_pools (each drop_pool l m)) p = if bool_decide (p ∈ l) then None else map_find (om_pools m) p.
Proof.
  unfold each. induction l as [|q l IH]; intros m p; [done|]. cbn [foldl]. rewrite IH. cbn. rewrite find_del.
  destruct (decide (p = q)) as [->|Hne].
  - rewrite (bool_decide_eq_true_2 (q ∈ q :: l)) by left. by case_bool_decide.
  - assert (bool_decide (p ∈ q :: l) = bool_decide (p ∈ l)) as ->; [|done].
    apply bool_decide_ext. rewrite elem_of_cons. tauto.
Qed.

Lemma drop_pools_ordered l m : ordered (om_pools m) → ordered (om_pools (each drop_pool l m)).
Proof. intros H. apply each_preserves; [done|]. intros x s Hs. by apply map_del_ordered. Qed.

Lemma put_pools_ordered l m : ordered (om_pools m) → ordered (om_pools (each put_pool l m)).
Proof. intros H. apply each_preserves; [done|]. intros x s Hs. by apply map_put_ordered. Qed.

(** The last writer of a pool wins; its [last_change] is the epoch. *)
Lemma put_pools l : ∀ m p,
  ordered (om_pools m) → NoDup (fst <$> l) →
  map_find (om_pools (each put_pool l m)) p =
    match entry_of l p with Some q => Some (set_last_change (om_epoch m) q) | None => map_find (om_pools m) p end.
Proof.
  unfold each. induction l as [|[q x] l IH]; intros m p Ho Hnd; [done|]. cbn [foldl fmap list_fmap fst] in *.
  apply NoDup_cons in Hnd as [Hn Hnd]. rewrite IH by (done || by apply map_put_ordered). cbn.
  unfold entry_of. cbn [list_find]. rewrite (map_find_put _ _ _ _ Ho). destruct (decide (p = q)) as [->|Hne].
  - rewrite (decide_True (P := (q, x).1 = q)) by done. cbn.
    assert (list_find (λ y : Z * pg_pool_t, y.1 = q) l = None) as ->; [|done].
    apply list_find_None, Forall_forall. intros [a b] Hin E. cbn in E. subst a. apply Hn. apply list_elem_of_fmap. by exists (q, b).
  - rewrite (decide_False (P := (q, x).1 = p)) by (cbn; congruence).
    by destruct (list_find (λ y : Z * pg_pool_t, y.1 = p) l) as [[]|].
Qed.

(** ** Frames of the other parts *)

Lemma apply_snapshot_frame {B} (π : OSDMap → B) inc m :
  (∀ e s m, π (with_om_snapshot s (with_om_snapshot_epoch e m)) = π m) → π (apply_snapshot inc m) = π m.
Proof. intros H. unfold apply_snapshot. destruct (inc_snapshot inc); apply H. Qed.

(** [apply_temps] on what the [OSD] part does not own. *)
Lemma apply_temps_osds inc m : om_osds (apply_temps inc m) = om_osds m.
Proof. unfold apply_temps. by rewrite !each_frame. Qed.
Lemma apply_temps_epoch inc m : om_epoch (apply_temps inc m) = om_epoch m ∧ om_modified (apply_temps inc m) = om_modified m.
Proof. unfold apply_temps. by rewrite !(each_frame om_epoch), !(each_frame om_modified). Qed.
Lemma apply_temps_pools inc m : om_pools (apply_temps inc m) = om_pools m.
Proof. unfold apply_temps. by rewrite !each_frame. Qed.
Lemma apply_temps_crush inc m : om_crush (apply_temps inc m) = om_crush m.
Proof. unfold apply_temps. by rewrite !each_frame. Qed.

Lemma apply_temps_pg inc m pg :
  om_pg_temp (apply_temps inc m) !! pg =
    match new_pg_temp inc !! pg with Some [] => None | Some l => Some l | None => om_pg_temp m !! pg end.
Proof.
  unfold apply_temps. rewrite (each_frame om_pg_temp drop_blacklist), (each_frame om_pg_temp put_blacklist),
    (each_frame om_pg_temp put_primary_temp) by done.
  rewrite (each_entry (λ m k, om_pg_temp m !! k) put_pg_temp (λ _ l _, match l with [] => None | _ => Some l end)); [|apply NoDup_fst_map_to_list|].
  - rewrite entry_of_map. destruct (new_pg_temp inc !! pg) as [[]|]; done.
  - intros [k l] s k'. cbn. destruct (decide (k' = k)) as [->|Hne].
    + destruct l; [apply lookup_delete_eq|apply lookup_insert_eq].
    + destruct l; [by apply lookup_delete_ne|by apply lookup_insert_ne].
Qed.

Lemma apply_temps_primary inc m pg :
  om_primary_temp (apply_temps inc m) !! pg =
    match new_primary_temp inc !! pg with Some p => if p =? -1 then None else Some p | None => om_primary_temp m !! pg end.
Proof.
  unfold apply_temps. rewrite (each_frame om_primary_temp drop_blacklist), (each_frame om_primary_temp put_blacklist) by done.
  rewrite (each_entry (λ m k, om_primary_temp m !! k) put_primary_temp (λ _ p _, if p =? -1 then None else Some p)); [|apply NoDup_fst_map_to_list|].
  - by rewrite entry_of_map, (each_frame om_primary_temp put_pg_temp).
  - intros [k p] s k'. cbn. destruct (decide (k' = k)) as [->|Hne].
    + destruct (p =? -1); [apply lookup_delete_eq|apply lookup_insert_eq].
    + destruct (p =? -1); [by apply lookup_delete_ne|by apply lookup_insert_ne].
Qed.

(** ** The whole step *)

(** What the loops over pools leave alone. *)
Definition core (m : OSDMap) := (om_fsid m, om_epoch m, om_modified m, om_pg_temp m, om_primary_temp m, om_crush m).

Lemma name_pool_frame x m :
  core (name_pool x m) = core m ∧ om_osds (name_pool x m) = om_osds m ∧ om_pools (name_pool x m) = om_pools m.
Proof. unfold name_pool. by destruct (map_find (om_pool_name m) x.1). Qed.

Definition max_after (inc : Incremental) (o : osds) : Z := if new_max_osd inc >=? 0 then new_max_osd inc else max_osd o.

(** An OSD before the step: fresh if there was no room for it. *)
Definition view_before (o : osds) (i : Z) : osd_view := if i <? max_osd o then view o i else fresh_view.

Lemma resize_part inc m :
  osds_wf (om_osds m) → new_max_osd inc < 2147483647 →
  ∃ o, (if new_max_osd inc >=? 0 then on_osds (set_max_osd (new_max_osd inc)) m else Ok m) = Ok (with_om_osds o m) ∧
    osds_wf o ∧ max_osd o = max_after inc (om_osds m) ∧
    ∀ i, 0 <= i < max_after inc (om_osds m) → view o i = view_before (om_osds m) i.
Proof.
  intros Hw Hm. unfold max_after, view_before. rewrite Z.geb_leb. destruct (Z.leb_spec 0 (new_max_osd inc)) as [Hn|Hn].
  - destruct (set_max_osd_ok (om_osds m) (new_max_osd inc) Hw ltac:(lia)) as (o & E & Hwo & Hmo & _ & Hv).
    exists o. unfold on_osds. rewrite E. done.
  - exists (om_osds m). split; [by destruct m|]. split; [done|]. split; [done|]. intros i Hi.
    by rewrite (proj2 (Z.ltb_lt i (max_osd (om_osds m)))) by lia.
Qed.

Lemma on_osds_ok f m o : f (om_osds m) = Ok (tt, o) → on_osds f m = Ok (with_om_osds o m).
Proof. intros E. unfold on_osds. by rewrite E. Qed.

Lemma apply_pools_ok inc m :
  osds_wf (om_osds m) → new_max_osd inc < 2147483647 → ordered (om_pools m) → NoDup (fst <$> new_pools inc) →
  ∃ m', apply_pools inc m = Ok m' ∧ core m' = core m ∧ osds_wf (om_osds m') ∧
    max_osd (om_osds m') = max_after inc (om_osds m) ∧
    (∀ i, 0 <= i < max_after inc (om_osds m) → view (om_osds m') i = view_before (om_osds m) i) ∧
    ordered (om_pools m') ∧
    ∀ p, map_find (om_pools m') p =
      match entry_of (new_pools inc) p with
      | Some q => Some (set_last_change (om_epoch m) q)
      | None => if bool_decide (p ∈ old_pools inc) then None else map_find (om_pools m) p
      end.
Proof.
  intros Hw Hm Ho Hn. unfold apply_pools. cbv zeta.
  set (m1 := if new_flags inc >=? 0 then with_om_flags (new_flags inc) m else m).
  assert (core m1 = core m ∧ om_osds m1 = om_osds m ∧ om_pools m1 = om_pools m) as (Hc1 & Ho1 & Hp1)
    by (subst m1; by case_match).
  destruct (resize_part inc m1) as (o & E & Hwo & Hmo & Hv); [by rewrite Ho1|done|]. rewrite Ho1 in *.
  rewrite E. cbn [mbind res_bind].
  set (m2 := if negb (new_pool_max inc =? -1) then with_om_pool_max (new_pool_max inc) (with_om_osds o m1) else with_om_osds o m1).
  assert (core m2 = core m ∧ om_osds m2 = o ∧ om_pools m2 = om_pools m ∧ om_epoch m2 = om_epoch m) as (Hc2 & Ho2 & Hp2 & He2).
  { assert (om_epoch m1 = om_epoch m) by (unfold core in Hc1; congruence). subst m2. destruct (negb _); (split; [exact Hc1|]; split; [done|]; split; [exact Hp1|done]). }
  eexists. split; [done|].
  assert (∀ m p, map_find (om_pools (each name_pool (new_pool_names inc) m)) p = map_find (om_pools m) p) as Hnp.
  { intros m' p. f_equal. apply each_frame. intros x s. apply name_pool_frame. }
  split.
  { rewrite !(each_frame core); [done|..]; intros x s; done || apply name_pool_frame. }
  assert (om_osds (each name_pool (new_pool_names inc) (each put_pool (new_pools inc) (each drop_pool (old_pools inc) m2))) = o) as ->.
  { rewrite !(each_frame om_osds); [done|..]; intros x s; done || apply name_pool_frame. }
  do 3 (split; [done|]). split.
  - rewrite (each_frame om_pools name_pool) by (intros x s; apply name_pool_frame).
    apply put_pools_ordered, drop_pools_ordered. by rewrite Hp2.
  - intros p. rewrite Hnp, put_pools; [|by apply drop_pools_ordered; rewrite Hp2|done].
    rewrite (each_frame om_epoch drop_pool) by done. rewrite He2, drop_pools, Hp2. done.
Qed.

Section apply.
Context (decode_map : list Z → OSDMap → res OSDMap) (decode_crush : list Z → res crush_wrapper).

(** The map after an incremental, with CRUSH map [c]. *)
Record advanced (inc : Incremental) (m : OSDMap) (c : crush_wrapper) (m' : OSDMap) : Prop := {
  ad_epoch : om_epoch m' = inc_epoch inc;
  ad_modified : om_modified m' = inc_modified inc;
  ad_fsid : om_fsid m' = inc_fsid inc;
  ad_crush : om_crush m' = c;
  ad_wf : osds_wf (om_osds m');
  ad_max : max_osd (om_osds m') = max_after inc (om_osds m);
  ad_num : num_osd (om_osds m') = Z.of_nat (length (existing (om_osds m')));
  ad_features : om_up_features m' = common_features (om_osds m') (up_osds (om_osds m'));
  ad_view : ∀ i, 0 <= i < max_osd (om_osds m') →
    view (om_osds m') i =
      view_osds inc (inc_epoch inc) (inc_modified inc) i (view_weights inc i (view_before (om_osds m) i));
  ad_pools : ∀ p, map_find (om_pools m') p =
    match entry_of (new_pools inc) p with
    | Some q => Some (set_last_change (inc_epoch inc) q)
    | None => if bool_decide (p ∈ old_pools inc) then None else map_find (om_pools m) p
    end;
  ad_pg_temp : ∀ pg, om_pg_temp m' !! pg =
    match new_pg_temp inc !! pg with Some [] => None | Some l => Some l | None => om_pg_temp m !! pg end;
  ad_primary_temp : ∀ pg, om_primary_temp m' !! pg =
    match new_primary_temp inc !! pg with Some p => if p =? -1 then None else Some p | None => om_primary_temp m !! pg end }.

(** An incremental that the map accepts. *)
Record acceptable (inc : Incremental) (m : OSDMap) : Prop := {
  ac_wf : osds_wf (om_osds m);
  ac_pools : ordered (om_pools m);
  ac_full : inc_fullmap inc = [];
  ac_epoch : inc_epoch inc = u32 (om_epoch m + 1);
  ac_fsid : inc_epoch inc = 1 ∨ inc_fsid inc = om_fsid m;
  ac_max : new_max_osd inc < 2147483647;
  ac_keys : inc_wf inc (max_after inc (om_osds m));
  ac_new_pools : NoDup (fst <$> new_pools inc) }.

(** The tail of the step leaves the OSDs, the pools and the CRUSH map alone. *)
Lemma tail_frame inc m :
  let m' := apply_snapshot inc (apply_temps inc m) in
  om_osds m' = om_osds m ∧ om_epoch m' = om_epoch m ∧ om_modified m' = om_modified m ∧ om_fsid m' = om_fsid m ∧
  om_pools m' = om_pools m ∧ om_crush m' = om_crush m.
Proof.
  cbv zeta. rewrite !(apply_snapshot_frame om_osds), !(apply_snapshot_frame om_epoch), !(apply_snapshot_frame om_modified),
    !(apply_snapshot_frame om_fsid), !(apply_snapshot_frame om_pools), !(apply_snapshot_frame om_crush) by done.
  rewrite apply_temps_osds, apply_temps_pools, apply_temps_crush. destruct (apply_temps_epoch inc m) as [-> ->].
  do 3 (split; [done|]). split; [|done]. unfold apply_temps. by rewrite !(each_frame om_fsid).
Qed.

(** The CRUSH map, replaced or not. *)
Lemma new_crush inc m c :
  match inc_crush inc with [] => Ok (om_crush m) | bl => decode_crush bl end = Ok c →
  ∀ T (k : OSDMap → res T),
    (m ← match inc_crush inc with [] => Ok m | z :: l => c ← decode_crush (z :: l); Ok (with_om_crush c m) end; k m)
    = k (with_om_crush c m).
Proof.
  intros Hc T k. destruct (inc_crush inc) as [|b bl]; [injection Hc as <-; by destruct m|by rewrite Hc].
Qed.

Lemma apply_incremental_ok inc m c :
  acceptable inc m → match inc_crush inc with [] => Ok (om_crush m) | bl => decode_crush bl end = Ok c →
  ∃ m', apply_incremental decode_map decode_crush inc m = Ok (0, m') ∧ advanced inc m c m'.
Proof.
  intros [Hw Ho Hfull Hep Hfs Hmax Hinc Hnp] Hc. unfold apply_incremental. cbv zeta. cbn [om_fsid with_om_new_blacklist_entries].
  assert (negb (inc_epoch inc =? 1) && negb (inc_fsid inc =? om_fsid m) = false) as ->.
  { destruct Hfs as [-> | ->]; [done|]. rewrite Z.eqb_refl. apply andb_false_r. }
  set (m0 := if inc_epoch inc =? 1 then _ else _).
  assert (om_fsid m0 = inc_fsid inc ∧ om_epoch m0 = om_epoch m ∧ om_osds m0 = om_osds m ∧ om_pools m0 = om_pools m ∧
    om_pg_temp m0 = om_pg_temp m ∧ om_primary_temp m0 = om_primary_temp m ∧ om_crush m0 = om_crush m)
    as (F0 & E0 & O0 & P0 & T0 & PT0 & C0).
  { subst m0. destruct (Z.eqb_spec (inc_epoch inc) 1); [done|]. by destruct Hfs. }
  rewrite E0, Hep, Z.eqb_refl, <- Hep. cbn [assert_c mbind res_bind]. rewrite Hfull.
  destruct (apply_pools_ok inc (with_om_modified (inc_modified inc) (with_om_epoch (inc_epoch inc) m0)))
    as (m2 & E2 & Hc2 & W2 & M2 & V2 & _ & P2); [by cbn; rewrite O0|done|by cbn; rewrite P0|done|].
  unfold core in Hc2. cbn in Hc2, M2, V2, P2. rewrite O0 in M2, V2. rewrite P0 in P2. injection Hc2 as F2 Ep2 Md2 T2 PT2 Cr2.
  rewrite E2. cbn [mbind res_bind].
  destruct (apply_weights_ok inc (om_osds m2) W2 ltac:(by rewrite M2)) as (o3 & E3 & [W3 M3 N3 V3]).
  rewrite (on_osds_ok _ _ _ E3). cbn [mbind res_bind om_epoch om_modified apply_profiles with_om_profiles om_osds with_om_osds].
  rewrite Ep2, Md2.
  destruct (apply_osds_ok inc (inc_epoch inc) (inc_modified inc) o3 W3 ltac:(by rewrite M3, M2)) as (o4 & E4 & [W4 M4 N4 V4]).
  rewrite (on_osds_ok (apply_osds inc (inc_epoch inc) (inc_modified inc)) _ o4) by exact E4. cbn [mbind res_bind].
  set (m4 := with_om_osds o4 _). destruct (tail_frame inc m4) as (O5 & E5 & Md5 & F5 & P5 & C5).
  set (m5 := apply_snapshot inc (apply_temps inc m4)) in *. cbn in O5, E5, Md5, F5, P5, C5.
  rewrite (new_crush inc m5 c) by (by rewrite C5, Cr2, C0).
  rewrite (on_osds_ok _ (with_om_crush c m5) (with_num_osd (Z.of_nat (length (existing o4))) o4))
    by (cbn [om_osds with_om_crush]; rewrite O5; unfold mbind, M_bind; by rewrite (calc_num_osds_ok o4 W4)).
  cbn [mret M_ret mbind res_bind om_osds with_om_osds]. set (o6 := with_num_osd _ o4).
  assert (osds_wf o6) as W6 by (by destruct W4). rewrite (calc_features_ok o6 W6). cbn [mbind res_bind].
  eexists. split; [done|].
  split; cbn [om_epoch om_modified om_fsid om_crush om_osds om_up_features om_pools om_pg_temp om_primary_temp
    with_om_up_features with_om_osds with_om_crush]; try done; try congruence.
  - cbn. congruence.
  - intros i Hi. change (view o6 i) with (view o4 i). change (max_osd o6) with (max_osd o4) in Hi.
    rewrite V4 by lia. rewrite V3 by lia. rewrite V2 by lia. done.
  - intros p. rewrite P5. apply P2.
  - intros pg. subst m5. rewrite (apply_snapshot_frame om_pg_temp) by done. rewrite apply_temps_pg. cbn. by rewrite T2, T0.
  - intros pg. subst m5. rewrite (apply_snapshot_frame om_primary_temp) by done. rewrite apply_temps_primary. cbn.
    by rewrite PT2, PT0.
Qed.

(** C7: Applying the incremental of the next epoch, without a full map in it,
    succeeds.  The vectors have their sizes again and [num_osd] counts the OSDs
    that exist; what is known of each OSD is what the incremental says of that
    OSD alone, applied to what was known before, or to a fresh OSD if the map
    grew; a pool is the new one, stamped with the epoch, or gone, or as before;
    a temporary mapping is replaced, removed by an empty list or by -1, or as
    before; the CRUSH map is replaced last; and the cached features are those
    that all OSDs that are now up have in common. *)
Theorem apply_incremental_refines inc m c :
  acceptable inc m → match inc_crush inc with [] => Ok (om_crush m) | bl => decode_crush bl end = Ok c →
  ∃ m', apply_incremental decode_map decode_crush inc m = Ok (0, m') ∧ advanced inc m c m'.
Proof. apply apply_incremental_ok. Qed.

(** An incremental of another cluster is refused with [-EINVAL], and changes
    nothing but a flag; one of an epoch that is not the next is a failed
    assertion, whatever else it holds. *)
Theorem apply_incremental_refuses inc m :
  (inc_epoch inc ≠ 1 → inc_fsid inc ≠ om_fsid m →
   apply_incremental decode_map decode_crush inc m = Ok (- EINVAL, with_om_new_blacklist_entries false m)) ∧
  (inc_epoch inc = 1 ∨ inc_fsid inc = om_fsid m → inc_epoch inc ≠ u32 (om_epoch m + 1) →
   apply_incremental decode_map decode_crush inc m = Fault AssertFailed).
Proof.
  unfold apply_incremental. cbv zeta. cbn [om_fsid with_om_new_blacklist_entries]. split.
  - intros He Hf. by rewrite (proj2 (Z.eqb_neq _ 1)), (proj2 (Z.eqb_neq _ (om_fsid m))) by done.
  - intros Hf He. assert (negb (inc_epoch inc =? 1) && negb (inc_fsid inc =? om_fsid m) = false) as ->.
    { destruct Hf as [-> | ->]; [done|]. rewrite Z.eqb_refl. apply andb_false_r. }
    destruct (inc_epoch inc =? 1); cbn; by rewrite (proj2 (Z.eqb_neq _ _)) by done.
Qed.
End apply.

(** ** An example *)

(** Six OSDs grow to seven: OSD 6 comes up, OSD 4 too, OSD 1 is marked in, OSD 0
    goes down, and a placement group gets a temporary mapping. *)
Definition some_addr : entity_addr_t := EntityAddr 0 1 2 6800 [10; 0; 0; 6].

Definition six_before : OSDMap :=
  MkOSDMap 0 5 (0, 0) 2 0
    (Osds 6 6 [3; 3; 3; 3; 1; 3] [65536; 0; 65536; 65536; 65536; 65536] (replicate 6 osd_info0) (replicate 6 osd_xinfo0)
      (replicate 6 None) (replicate 6 None) (replicate 6 None) (replicate 6 None) (replicate 6 0) None)
    ∅ ∅ [(1, PgPool 1 1 3 0 2 8 8 7 7 1 no_snaps 2 0 (-1) (-1))] [(1, "rbd"%string)] {[ "rbd"%string := 1 ]} ∅ ∅ 0 "" false 0
    (CrushWrapper (CrushMap [] [] 0 0 0 0 0 50 1 1 1 54 None) [] [] [] false ∅ ∅ ∅).

Definition six_inc : Incremental :=
  MkIncremental 0 6 (7, 0) (-1) (-1) [] [] 7 [(1, PgPool 1 1 2 0 2 8 8 7 7 1 no_snaps 2 0 (-1) (-1))] [] [] [] []
    [(6, some_addr)] [] [(0, 0); (4, 2)] [(1, 65536)] {[ PgT 1 3 (-1) := [2; 5] ]} ∅ [] [] [] [] [] [] [] [] [] [] "".

Definition no_decode_map (_ : list Z) (_ : OSDMap) : res OSDMap := Fault OutOfBounds.
Definition no_decode_crush (_ : list Z) : res crush_wrapper := Fault OutOfBounds.

Lemma six_acceptable : acceptable six_inc six_before.
Proof.
  split; try done; try (by left); try (by right); try (apply NoDup_nil_2); try (apply NoDup_singleton).
  - repeat constructor.
  - split; try (by left); split; try done; repeat constructor; done.
Qed.

Example six_states : ∃ m', apply_incremental no_decode_map no_decode_crush six_inc six_before = Ok (0, m') ∧
  osd_state (om_osds m') = [1; 3; 3; 3; 3; 3; 3] ∧ osd_weight (om_osds m') = [65536; 65536; 65536; 65536; 65536; 65536; 0].
Proof. eexists. split; [vm_compute; reflexivity|]. by split. Qed.

Theorem apply_incremental_refines_witness :
  ∃ m', apply_incremental no_decode_map no_decode_crush six_inc six_before = Ok (0, m') ∧
    advanced six_inc six_before (om_crush six_before) m'.
Proof. apply (apply_incremental_refines no_decode_map no_decode_crush six_inc six_before (om_crush six_before) six_acceptable). reflexivity. Defined.

(** Names are moved between pools one at a time: exchanging the names of two
    pools in one incremental loses one of them from the index by name. *)
Example swap_loses_a_name :
  let m := each name_pool [(1, "b"%string); (2, "a"%string)]
    (with_om_pool_name [(1, "a"%string); (2, "b"%string)] (with_om_name_pool {[ "a"%string := 1; "b"%string := 2 ]} six_before)) in
  om_pool_name m = [(1, "b"%string); (2, "a"%string)] ∧ om_name_pool m !! "a"%string = Some 2 ∧ om_name_pool m !! "b"%string = None.
Proof. by vm_compute. Qed.
