(* ===== verification/OsdQuery.v ===== *)
(** * Questions about the OSDs (src/osd/OSDMap.h, OSDMap.cc, src/msg/msg_types.h)

    Looking OSDs up by address, host or uuid, walking over the OSDs that are up,
    the blacklist, and the two functions that propose to drop temporary
    mappings. *)

From stdpp Require Import gmap strings.
From S2P Require Import Prelude CrushTypes CrushWrapper StdMap IntervalSet SnapSet Pg OsdState.
From S2P Require Import OsdMapping OsdIncr OsdMappingSpec OsdIncrSpec OsdIncrProps.

(** ** Addresses *)

Definition AF_INET : Z := 2.
Definition AF_INET6 : Z := 23.   (* as Winsock has it *)

Definition blank_addr : entity_addr_t := EntityAddr 0 0 0 0 [].

Definition is_ip (a : entity_addr_t) : bool := (a_family a =? AF_INET) || (a_family a =? AF_INET6).

Definition is_same_host (a b : entity_addr_t) : bool :=
  if negb (a_family a =? a_family b) then false
  else if a_family a =? AF_INET then bool_decide (a_host a = a_host b)
  else if a_family a =? AF_INET6 then bool_decide (a_host a = a_host b)
  else false.

(** [set_port] asserts that the address is an IP address. *)
Definition set_port (p : Z) (a : entity_addr_t) : res entity_addr_t :=
  if is_ip a then Ok (EntityAddr (a_type a) (a_nonce a) (a_family a) p (a_host a)) else Fault AssertFailed.
Definition set_nonce (n : Z) (a : entity_addr_t) : entity_addr_t :=
  EntityAddr (a_type a) n (a_family a) (a_port a) (a_host a).

Definition is_blacklisted (m : OSDMap) (a : entity_addr_t) : res bool :=
  if bool_decide (om_blacklist m = ∅) then Ok false
  else if bool_decide (is_Some (om_blacklist m !! a)) then Ok true
  else if is_ip a then
    b ← set_port 0 a; Ok (bool_decide (is_Some (om_blacklist m !! set_nonce 0 b)))
  else Ok false.

Definition assert_exists (o : osds) (osd : Z) : res unit := e ← osd_exists o osd; assert_c e.

Definition get_addr (o : osds) (osd : Z) : res entity_addr_t :=
  _ ← assert_exists o osd; a ← vget (client_addr o) osd; Ok (default blank_addr a).
Definition get_cluster_addr (o : osds) (osd : Z) : res entity_addr_t :=
  _ ← assert_exists o osd;
  a ← vget (cluster_addr o) osd;
  match a with
  | None => get_addr o osd
  | Some a => if bool_decide (a = blank_addr) then get_addr o osd else Ok a
  end.
Definition get_hb_back_addr (o : osds) (osd : Z) : res entity_addr_t :=
  _ ← assert_exists o osd; a ← vget (hb_back_addr o) osd; Ok (default blank_addr a).
Definition get_hb_front_addr (o : osds) (osd : Z) : res entity_addr_t :=
  _ ← assert_exists o osd; a ← vget (hb_front_addr o) osd; Ok (default blank_addr a).
Definition get_uuid (o : osds) (osd : Z) : res uuid_d :=
  _ ← assert_exists o osd; vget (osd_uuid o) osd.
Definition get_up_from (o : osds) (osd : Z) : res Z :=
  _ ← assert_exists o osd; i ← vget (osd_info o) osd; Ok (up_from i).
Definition get_up_thru (o : osds) (osd : Z) : res Z :=
  _ ← assert_exists o osd; i ← vget (osd_info o) osd; Ok (up_thru i).
Definition get_down_at (o : osds) (osd : Z) : res Z :=
  _ ← assert_exists o osd; i ← vget (osd_info o) osd; Ok (down_at i).

(** [for (int i=0; i<max_osd; i++) if (test(i)) return i; return -1;] *)
Fixpoint first_such (test : Z → res bool) (n : nat) (i : Z) : res Z :=
  match n with
  | O => Ok (-1)
  | S n => b ← test i; if (b : bool) then Ok i else first_such test n (i + 1)
  end.

Definition identify_osd_addr (o : osds) (addr : entity_addr_t) : res Z :=
  first_such (λ i, and_then (osd_exists o i)
    (a ← get_addr o i; if bool_decide (a = addr) then Ok true else
     c ← get_cluster_addr o i; Ok (bool_decide (c = addr)))) (Z.to_nat (max_osd o)) 0.

Definition identify_osd_uuid (o : osds) (u : uuid_d) : res Z :=
  first_such (λ i, and_then (osd_exists o i) (v ← get_uuid o i; Ok (v =? u))) (Z.to_nat (max_osd o)) 0.

Definition have_addr (o : osds) (addr : entity_addr_t) : res bool :=
  i ← identify_osd_addr o addr; Ok (i >=? 0).

(** The number found, or -1, is converted to [bool]. *)
Definition find_osd_on_ip (o : osds) (ip : entity_addr_t) : res bool :=
  i ← first_such (λ i, and_then (osd_exists o i)
    (a ← get_addr o i; if is_same_host a ip then Ok true else c ← get_cluster_addr o i; Ok (is_same_host c ip)))
    (Z.to_nat (max_osd o)) 0;
  Ok (negb (i =? 0)).

Definition get_any_up_osd (o : osds) : res Z := first_such (is_up o) (Z.to_nat (max_osd o)) 0.

(** [for (int i = n + 1; i != n; ++i)] *)
Fixpoint next_up (o : osds) (n : Z) (fuel : nat) (i : Z) : res Z :=
  if i =? n then Ok (-1) else
  match fuel with
  | O => Fault Diverge
  | S fuel =>
      let i := if i >=? max_osd o then 0 else i in
      if i =? n then Ok (-1) else
      u ← is_up o i;
      if (u : bool) then Ok i else next_up o n fuel (s32 (i + 1))
  end.
Definition get_next_up_osd_after (o : osds) (n : Z) : res Z := next_up o n (Z.to_nat (max_osd o) + 2) (s32 (n + 1)).

(** [for (int i = n - 1; i != n; --i)] *)
Fixpoint previous_up (o : osds) (n : Z) (fuel : nat) (i : Z) : res Z :=
  if i =? n then Ok (-1) else
  match fuel with
  | O => Fault Diverge
  | S fuel =>
      let i := if i <? 0 then max_osd o - 1 else i in
      if i =? n then Ok (-1) else
      u ← is_up o i;
      if (u : bool) then Ok i else previous_up o n fuel (s32 (i - 1))
  end.
Definition get_previous_up_osd_before (o : osds) (n : Z) : res Z := previous_up o n (Z.to_nat (max_osd o) + 2) (s32 (n - 1)).

(** [set_epoch] stamps all pools. *)
Definition set_epoch (e : Z) (m : OSDMap) : OSDMap :=
  with_om_pools ((λ x, (x.1, set_last_change e x.2)) <$> om_pools m) (with_om_epoch e m).

Definition lookup_pg_pool_name (m : OSDMap) (name : string) : Z := default (- ENOENT) (om_name_pool m !! name).
Definition get_pool_name (m : OSDMap) (p : Z) : res string :=
  match map_find (om_pool_name m) p with Some s => Ok s | None => Fault AssertFailed end.

(** ** Proposing to drop temporary mappings *)

Definition with_new_temps (t : gmap pg_t (list Z)) (p : gmap pg_t Z) (i : Incremental) : Incremental :=
  MkIncremental (inc_fsid i) (inc_epoch i) (inc_modified i) (new_pool_max i) (new_flags i) (inc_fullmap i) (inc_crush i)
    (new_max_osd i) (new_pools i) (new_pool_names i) (old_pools i) (new_profiles i) (old_profiles i) (new_up_client i)
    (new_up_cluster i) (new_state i) (new_weight i) t p (new_primary_affinity i) (new_up_thru i)
    (new_last_clean_interval i) (new_lost i) (new_uuid i) (new_xinfo i) (new_blacklist i) (old_blacklist i)
    (new_hb_back_up i) (new_hb_front_up i) (inc_snapshot i).

(** [pending_inc->new_pg_temp[pg].clear()] and [pending_inc->new_primary_temp[pg] = -1] *)
Definition drop_pg_temp (pg : pg_t) (i : Incremental) : Incremental :=
  with_new_temps (<[pg := []]> (new_pg_temp i)) (new_primary_temp i) i.
Definition drop_primary_temp (pg : pg_t) (i : Incremental) : Incremental :=
  with_new_temps (new_pg_temp i) (<[pg := -1]> (new_primary_temp i)) i.

(** A loop over the pairs of a map that updates the pending incremental; the
    cluster map may change in the caches of its CRUSH map. *)
Fixpoint fold_pending {A} (f : pg_t * A → Incremental → M OSDMap Incremental) (l : list (pg_t * A)) (i : Incremental) :
    M OSDMap Incremental :=
  match l with
  | [] => mret i
  | x :: l => i ← f x i; fold_pending f l i
  end.

Definition redundant_pg_temp (fuel : nat) (x : pg_t * list Z) (i : Incremental) : M OSDMap Incremental :=
  m ← gets id;
  if negb (have_pg_pool m (s64 (m_pool x.1))) then mret (drop_pg_temp x.1 i)
  else if bool_decide (new_pg_temp i !! x.1 = None) then
    '(raw_up, _) ← pg_to_raw_up fuel x.1;
    mret (if bool_decide (raw_up = x.2) then drop_pg_temp x.1 i else i)
  else mret i.

(** The acting primary without the temporary primaries; the copy shares its
    CRUSH map with the original. *)
Definition templess_primary (fuel : nat) (pg : pg_t) : M OSDMap Z := λ m,
  match _pg_to_up_acting_osds fuel pg (with_om_primary_temp ∅ m) with
  | Ok ((_, _, _, p), m') => Ok (p, with_om_crush (om_crush m') m)
  | Fault f => Fault f
  end.

Definition redundant_primary_temp (fuel : nat) (x : pg_t * Z) (i : Incremental) : M OSDMap Incremental :=
  if bool_decide (new_primary_temp i !! x.1 = None) then
    '(_, _, _, real_primary) ← _pg_to_up_acting_osds fuel x.1;
    other_primary ← templess_primary fuel x.1;
    mret (if real_primary =? other_primary then drop_primary_temp x.1 i else i)
  else mret i.

Definition remove_redundant_temporaries (fuel : nat) (pending : Incremental) : M OSDMap Incremental :=
  m ← gets id;
  pending ← fold_pending (redundant_pg_temp fuel) (map_to_list (om_pg_temp m)) pending;
  fold_pending (redundant_primary_temp fuel) (map_to_list (om_primary_temp m)) pending.

(** How many of the OSDs are not down. *)
Fixpoint count_up (o : osds) (l : list Z) (n : Z) : res Z :=
  match l with
  | [] => Ok n
  | v :: l => d ← is_down o v; count_up o l (if (d : bool) then n else u32 (n + 1))
  end.

Fixpoint down_pg_temps (o : osds) (l : list (pg_t * list Z)) (i : Incremental) : res Incremental :=
  match l with
  | [] => Ok i
  | x :: l => n ← count_up o x.2 0; down_pg_temps o l (if n =? 0 then drop_pg_temp x.1 i else i)
  end.

Fixpoint down_primary_temps (o : osds) (l : list (pg_t * Z)) (i : Incremental) : res Incremental :=
  match l with
  | [] => Ok i
  | x :: l => d ← is_down o x.2; down_primary_temps o l (if (d : bool) then drop_primary_temp x.1 i else i)
  end.

(** [deepish_copy_from] copies the pointer to the primary affinities, so that
    applying the pending incremental to the copy also changes the original:
    what the copy has, if the original had any, and no full map replaced them. *)
Definition shared_affinity (pending : Incremental) (tmp m : OSDMap) : OSDMap :=
  match osd_primary_affinity (om_osds m), inc_fullmap pending with
  | Some _, [] => with_om_osds (with_osd_primary_affinity (osd_primary_affinity (om_osds tmp)) (om_osds m)) m
  | _, _ => m
  end.

Section down.
Context (decode_map : list Z → OSDMap → res OSDMap) (decode_crush : list Z → res crush_wrapper).

Definition remove_down_temps (pending : Incremental) : M OSDMap Incremental := λ m,
  '(_, tmpmap) ← apply_incremental decode_map decode_crush pending m;
  pending' ← down_pg_temps (om_osds tmpmap) (map_to_list (om_pg_temp tmpmap)) pending;
  pending' ← down_primary_temps (om_osds tmpmap) (map_to_list (om_primary_temp tmpmap)) pending';
  Ok (pending', shared_affinity pending tmpmap m).
End down.

(** ** What the questions answer (src/osd/OSDMap.h, OSDMap.cc)

    The walks over the OSDs that are up, and the effect of the proposals to drop
    temporary mappings once they are applied. *)

(** ** The next OSD that is up *)

(** The OSDs after [n], and then those before it. *)
Definition after (o : osds) (n : Z) : list Z := seqZ (n + 1) (max_osd o - n - 1) ++ seqZ 0 n.

Definition first_up (o : osds) (l : list Z) : Z := default (-1) (head (filter (λ i, up_b o i = true) l)).

Lemma first_up_cons o i l : first_up o (i :: l) = if up_b o i then i else first_up o l.
Proof. unfold first_up. rewrite filter_cons. by destruct (up_b o i). Qed.

Section walk.
Context (o : osds) (Hw : osds_wf o) (n : Z) (Hn : 0 <= n < max_osd o).

(** Below [n]: the rest of the second part. *)
Lemma next_up_low k : ∀ i fuel,
  0 <= i → i + Z.of_nat k = n → (k < fuel)%nat → next_up o n fuel i = Ok (first_up o (seqZ i (Z.of_nat k))).
Proof.
  pose proof (ow_max o Hw). induction k as [|k IH]; intros i fuel Hi Hk Hf; (destruct fuel as [|fuel]; [lia|]); cbn [next_up].
  - by rewrite (proj2 (Z.eqb_eq i n)) by lia.
  - rewrite (proj2 (Z.eqb_neq i n)) by lia. rewrite Z.geb_leb, (proj2 (Z.leb_gt (max_osd o) i)) by lia. cbv zeta.
    rewrite (proj2 (Z.eqb_neq i n)) by lia. rewrite (is_up_ok o Hw). cbn [mbind res_bind].
    rewrite (seqZ_cons i) by lia. rewrite first_up_cons. destruct (up_b o i); [done|].
    rewrite s32_small by (unfold is_s32; lia). rewrite IH by lia. do 2 f_equal. f_equal; lia.
Qed.

Lemma next_up_high k : ∀ i fuel,
  n < i → i + Z.of_nat k = max_osd o → (k + Z.to_nat n + 1 < fuel)%nat →
  next_up o n fuel i = Ok (first_up o (seqZ i (Z.of_nat k) ++ seqZ 0 n)).
Proof.
  pose proof (ow_max o Hw). induction k as [|k IH]; intros i fuel Hi Hk Hf.
  - assert (next_up o n fuel i = next_up o n fuel 0) as ->.
    { destruct fuel as [|fuel]; [lia|]. cbn [next_up]. rewrite (proj2 (Z.eqb_neq i n)) by lia.
      rewrite !Z.geb_leb, (proj2 (Z.leb_le (max_osd o) i)), (proj2 (Z.leb_gt (max_osd o) 0)) by lia.
      by destruct (Z.eqb_spec 0 n). }
    rewrite (next_up_low (Z.to_nat n)) by lia. cbn. by rewrite Z2Nat.id by lia.
  - destruct fuel as [|fuel]; [lia|]. cbn [next_up].
    rewrite (proj2 (Z.eqb_neq i n)) by lia. rewrite Z.geb_leb, (proj2 (Z.leb_gt (max_osd o) i)) by lia. cbv zeta.
    rewrite (proj2 (Z.eqb_neq i n)) by lia. rewrite (is_up_ok o Hw). cbn [mbind res_bind].
    rewrite (seqZ_cons i) by lia. cbn [app]. rewrite first_up_cons. destruct (up_b o i); [done|].
    rewrite s32_small by (unfold is_s32; lia). rewrite IH by lia. do 3 f_equal. f_equal; lia.
Qed.
End walk.

(** From any OSD of the map, [get_next_up_osd_after] ends and returns the
    first OSD that is up among those after it, then those before it, and -1 when
    no other OSD is up. *)
Theorem next_up_exact o n :
  osds_wf o → 0 <= n < max_osd o → get_next_up_osd_after o n = Ok (first_up o (after o n)).
Proof.
  intros Hw Hn. pose proof (ow_max o Hw). unfold get_next_up_osd_after, after. rewrite s32_small by (unfold is_s32; lia).
  rewrite (next_up_high o Hw n Hn (Z.to_nat (max_osd o - n - 1))) by lia. by rewrite Z2Nat.id by lia.
Qed.

Theorem next_up_exact_witness : get_next_up_osd_after (om_osds six_before) 3 = Ok (first_up (om_osds six_before) (after (om_osds six_before) 3)).
Proof. apply (next_up_exact (om_osds six_before) 3); [apply six_acceptable|cbn; lia]. Defined.

(** Outside the map the walk need not end: with no OSD up it wraps for ever. *)
Example next_up_outside : get_next_up_osd_after (with_osd_state [0] (Osds 1 0 [] [0] [] [] [] [] [] [] [] None)) 5 = Fault Diverge.
Proof. reflexivity. Qed.

(** ** The converted result of [find_osd_on_ip] *)

(** It says yes when no OSD is found, and no when OSD 0 is. *)
Example find_osd_on_ip_inverted :
  find_osd_on_ip (Osds 0 0 [] [] [] [] [] [] [] [] [] None) some_addr = Ok true ∧
  find_osd_on_ip (Osds 1 1 [3] [0] [osd_info0] [osd_xinfo0] [Some some_addr] [None] [None] [None] [0] None) some_addr = Ok false.
Proof. by split. Qed.

(** ** Dropping temporary mappings *)

Lemma count_up_ok o l : osds_wf o → ∀ n, 0 <= n → n + Z.of_nat (length l) < 4294967296 →
  count_up o l n = Ok (n + Z.of_nat (length (filter (λ v, up_b o v = true) l))).
Proof.
  intros Hw. induction l as [|v l IH]; intros n Hn Hl; cbn [count_up length] in *; [f_equal; simpl; lia|].
  unfold is_down. rewrite (is_up_ok o Hw). cbn [mbind res_bind]. rewrite filter_cons. destruct (up_b o v); cbn [negb].
  - rewrite decide_True by done. rewrite u32_small by (unfold is_u32; lia). rewrite IH by lia. f_equal. simpl. lia.
  - rewrite decide_False by done. by rewrite IH by lia.
Qed.

(** None of the OSDs of a temporary mapping is up. *)
Definition all_down (o : osds) (l : list Z) : bool := bool_decide (filter (λ v, up_b o v = true) l = []).

(** Only the two maps of temporary mappings of a pending incremental change. *)
Definition temps_of (i : Incremental) (t : gmap pg_t (list Z)) (p : gmap pg_t Z) : Incremental := with_new_temps t p i.

Lemma down_pg_temps_ok o l i :
  osds_wf o → Forall (λ x, Z.of_nat (length x.2) < 4294967296) l →
  down_pg_temps o l i =
    Ok (with_new_temps (foldl (λ t x, if all_down o x.2 then <[x.1 := []]> t else t) (new_pg_temp i) l) (new_primary_temp i) i).
Proof.
  intros Hw Hl. revert i. induction Hl as [|[pg v] l Hx Hl IH]; intros i; [by destruct i|]. cbn [down_pg_temps snd fst] in *.
  rewrite (count_up_ok o v Hw) by lia. cbn [mbind res_bind].
  assert ((0 + Z.of_nat (length (filter (λ w, up_b o w = true) v)) =? 0) = all_down o v) as ->.
  { unfold all_down. by destruct (filter _ v). }
  rewrite IH. cbn [foldl fst snd].
  by destruct (all_down o v).
Qed.

Lemma down_primary_temps_ok o l i :
  osds_wf o →
  down_primary_temps o l i =
    Ok (with_new_temps (new_pg_temp i) (foldl (λ t x, if up_b o x.2 then t else <[x.1 := -1]> t) (new_primary_temp i) l) i).
Proof.
  intros Hw. revert i. induction l as [|[pg v] l IH]; intros i; [by destruct i|]. cbn [down_primary_temps snd fst].
  unfold is_down. rewrite (is_up_ok o Hw). cbn [mbind res_bind]. rewrite IH. cbn [foldl fst snd]. by destruct (up_b o v).
Qed.

(** Folding over the pairs of a map overwrites the keys it picks. *)
Lemma foldl_overwrite {V W} (pick : V → bool) (w : W) (m : gmap pg_t V) (t : gmap pg_t W) k :
  foldl (λ t x, if pick x.2 then <[x.1 := w]> t else t) t (map_to_list m) !! k =
    match m !! k with Some v => if pick v then Some w else t !! k | None => t !! k end.
Proof.
  assert (∀ l : list (pg_t * V), NoDup (fst <$> l) → ∀ t : gmap pg_t W,
    foldl (λ t x, if pick x.2 then <[x.1 := w]> t else t) t l !! k =
      match entry_of l k with Some v => if pick v then Some w else t !! k | None => t !! k end) as H.
  { intros l Hn t0.
    pose proof (each_entry (λ (t : gmap pg_t W) k, t !! k) (λ x t, if pick x.2 then <[x.1 := w]> t else t)
      (λ _ v old, if pick v then Some w else old) l t0 k Hn) as E. unfold each in E. apply E.
    intros x s k'. destruct (pick x.2); [|by case_decide]. case_decide; [subst; apply lookup_insert_eq|by apply lookup_insert_ne]. }
  rewrite H by apply NoDup_fst_map_to_list. by rewrite entry_of_map.
Qed.

(** Being up is a matter of the view. *)
Lemma up_b_view o o' v :
  max_osd o = max_osd o' → (∀ i, 0 <= i < max_osd o → view o i = view o' i) → up_b o v = up_b o' v.
Proof.
  intros Hm Hv. unfold up_b, ex. rewrite Hm. destruct (Z.leb_spec 0 v), (Z.ltb_spec v (max_osd o')); try done.
  assert (state_of o v = state_of o' v) as ->; [|done]. change (v_state (view o v) = v_state (view o' v)). rewrite Hv; [done|lia].
Qed.

Section drop.
Context (decode_map : list Z → OSDMap → res OSDMap) (decode_crush : list Z → res crush_wrapper).

(** Once the incremental that [remove_down_temps] returns is applied, no
    temporary mapping is left whose OSDs are all down, and no temporary primary
    that is down; all other temporary mappings are those the pending incremental
    would have left.  (The map is one whose primary affinities were never set:
    see [shared_affinity_shrinks].) *)
Theorem remove_down_temps_effective pending m c :
  acceptable pending m → match inc_crush pending with [] => Ok (om_crush m) | bl => decode_crush bl end = Ok c →
  osd_primary_affinity (om_osds m) = None →
  (∀ pg l, om_pg_temp m !! pg = Some l ∨ new_pg_temp pending !! pg = Some l → Z.of_nat (length l) < 4294967296) →
  ∃ tmp pending' m',
    apply_incremental decode_map decode_crush pending m = Ok (0, tmp) ∧
    remove_down_temps decode_map decode_crush pending m = Ok (pending', m) ∧
    apply_incremental decode_map decode_crush pending' m = Ok (0, m') ∧
    (∀ pg, om_pg_temp m' !! pg =
       match om_pg_temp tmp !! pg with Some l => if all_down (om_osds m') l then None else Some l | None => None end) ∧
    (∀ pg, om_primary_temp m' !! pg =
       match om_primary_temp tmp !! pg with Some p => if up_b (om_osds m') p then Some p else None | None => None end).
Proof.
  intros Ha Hc Hn Hlen. destruct (apply_incremental_ok decode_map decode_crush pending m c Ha Hc) as (tmp & E & Had).
  pose proof (ad_wf _ _ _ _ Had) as Hw.
  assert (Forall (λ x, Z.of_nat (length x.2) < 4294967296) (map_to_list (om_pg_temp tmp))) as Hl.
  { apply Forall_forall. intros [pg l] Hin%elem_of_map_to_list. cbn. apply (Hlen pg l).
    rewrite (ad_pg_temp _ _ _ _ Had) in Hin. destruct (new_pg_temp pending !! pg) as [[|v l']|]; [done|right; congruence|by left]. }
  set (t := foldl (λ t x, if all_down (om_osds tmp) x.2 then <[x.1 := []]> t else t) (new_pg_temp pending) (map_to_list (om_pg_temp tmp))).
  set (p := foldl (λ t x, if up_b (om_osds tmp) x.2 then t else <[x.1 := -1]> t) (new_primary_temp pending) (map_to_list (om_primary_temp tmp))).
  assert (acceptable (with_new_temps t p pending) m) as Ha' by (destruct Ha as [? ? ? ? ? ? [] ?]; split; try done).
  destruct (apply_incremental_ok decode_map decode_crush (with_new_temps t p pending) m c Ha' Hc) as (m' & E' & Had').
  exists tmp, (with_new_temps t p pending), m'. split; [done|]. split.
  { unfold remove_down_temps. rewrite E. cbn [mbind res_bind]. rewrite (down_pg_temps_ok _ _ _ Hw Hl). cbn [mbind res_bind].
    rewrite (down_primary_temps_ok _ _ _ Hw). cbn [mbind res_bind]. unfold shared_affinity. by rewrite Hn. }
  split; [done|].
  assert (∀ v, up_b (om_osds tmp) v = up_b (om_osds m') v) as Hup.
  { intros v. pose proof (ad_max _ _ _ _ Had) as M1. pose proof (ad_max _ _ _ _ Had') as M2. apply up_b_view.
    - rewrite M1, M2. done.
    - intros i Hi. rewrite (ad_view _ _ _ _ Had i Hi). rewrite (ad_view _ _ _ _ Had' i); [done|]. rewrite M2. by rewrite M1 in Hi. }
  split; intros pg.
  - rewrite (ad_pg_temp _ _ _ _ Had'). change (new_pg_temp (with_new_temps t p pending)) with t. subst t.
    rewrite (foldl_overwrite (all_down (om_osds tmp))). rewrite (ad_pg_temp _ _ _ _ Had).
    assert (∀ l, all_down (om_osds m') l = all_down (om_osds tmp) l) as Hall.
    { intros l. unfold all_down. apply bool_decide_ext. assert (filter (λ v, up_b (om_osds m') v = true) l = filter (λ v, up_b (om_osds tmp) v = true) l) as ->; [|done].
      apply list_filter_iff. intros v. by rewrite Hup. }
    destruct (new_pg_temp pending !! pg) as [[|v l]|]; [done| |destruct (om_pg_temp m !! pg) as [l|]; [|done]];
      rewrite Hall; by destruct (all_down _ _).
  - rewrite (ad_primary_temp _ _ _ _ Had'). change (new_primary_temp (with_new_temps t p pending)) with p. subst p.
    pose proof (foldl_overwrite (λ v, negb (up_b (om_osds tmp) v)) (-1) (om_primary_temp tmp) (new_primary_temp pending) pg) as Hf.
    assert (∀ l (t : gmap pg_t Z), foldl (λ t x, if up_b (om_osds tmp) x.2 then t else <[x.1 := -1]> t) t l =
      foldl (λ t x, if negb (up_b (om_osds tmp) x.2) then <[x.1 := -1]> t else t) t l) as ->.
    { induction l as [|x l IH]; intros t0; [done|]. cbn [foldl]. rewrite IH. by destruct (up_b _ _). }
    rewrite Hf, (ad_primary_temp _ _ _ _ Had).
    destruct (new_primary_temp pending !! pg) as [q|].
    + destruct (Z.eqb_spec q (-1)) as [->|Hq]; [done|]. rewrite <- Hup. destruct (up_b (om_osds tmp) q); [|done]. cbn.
      by rewrite (proj2 (Z.eqb_neq q (-1))).
    + destruct (om_primary_temp m !! pg) as [q|]; [|done]. rewrite <- Hup. by destruct (up_b (om_osds tmp) q).
Qed.
End drop.

Theorem remove_down_temps_effective_witness :
  ∃ tmp pending' m',
    apply_incremental no_decode_map no_decode_crush six_inc six_before = Ok (0, tmp) ∧
    remove_down_temps no_decode_map no_decode_crush six_inc six_before = Ok (pending', six_before) ∧
    apply_incremental no_decode_map no_decode_crush pending' six_before = Ok (0, m') ∧
    (∀ pg, om_pg_temp m' !! pg =
       match om_pg_temp tmp !! pg with Some l => if all_down (om_osds m') l then None else Some l | None => None end) ∧
    (∀ pg, om_primary_temp m' !! pg =
       match om_primary_temp tmp !! pg with Some p => if up_b (om_osds m') p then Some p else None | None => None end).
Proof.
  apply (remove_down_temps_effective no_decode_map no_decode_crush six_inc six_before (om_crush six_before) six_acceptable);
    [reflexivity|reflexivity|].
  intros pg l [[=]|Hl]. cbn in Hl. apply lookup_singleton_Some in Hl as [_ <-]. cbn. lia.
Defined.

(** The copy that [remove_down_temps] works on shares the primary affinities
    with the map: a pending incremental with fewer OSDs shortens the vector of
    the map itself, which still has them all. *)
Example shared_affinity_shrinks :
  let m := with_om_osds (with_osd_primary_affinity (Some (replicate 6 65536)) (om_osds six_before)) six_before in
  let pending := MkIncremental 0 6 (7, 0) (-1) (-1) [] [] 2 [] [] [] [] [] [] [] [] [] ∅ ∅ [] [] [] [] [] [] [] [] [] [] "" in
  ∃ pending' m', remove_down_temps no_decode_map no_decode_crush pending m = Ok (pending', m') ∧
    max_osd (om_osds m') = 6 ∧ osd_primary_affinity (om_osds m') = Some [65536; 65536] ∧
    get_primary_affinity (om_osds m') 4 = Fault OutOfBounds.
Proof. do 2 eexists. split; [vm_compute; reflexivity|]. by split. Qed.
