(* ===== verification/Target.v ===== *)
(** * The target of an operation (src/osdc/Objecter.cc, src/osd/osd_types.cc)

    [op_target_t] and [_calc_target]: the placement group of an object under
    the current map, the OSD that an operation goes to, and whether it has to
    be sent again; and the intervals of a placement group, within which its
    OSDs do not change. *)

From stdpp Require Import gmap strings.
From S2P Require Import Prelude CrushTypes StdMap IntervalSet SnapSet Pg.
From S2P Require Import CrushWrapper OsdState OsdMapping OsdIncr OsdQuery.

Definition CEPH_OSD_FLAG_READ : Z := 16.
Definition CEPH_OSD_FLAG_WRITE : Z := 32.
Definition CEPH_OSD_FLAG_BALANCE_READS : Z := 256.
Definition CEPH_OSD_FLAG_LOCALIZE_READS : Z := 8192.
Definition CEPH_OSD_FLAG_IGNORE_OVERLAY : Z := 131072.
Definition CEPH_OSDMAP_FULL : Z := 2.
Definition CEPH_OSDMAP_PAUSERD : Z := 4.
Definition CEPH_OSDMAP_PAUSEWR : Z := 8.

(** [flags & f], as a condition. *)
Definition has_bits (flags f : Z) : bool := negb (Z.land flags f =? 0).
Definition test_flag (m : OSDMap) (f : Z) : bool := has_bits (om_flags m) f.

(** ** Intervals *)

(** [a || b], where [b] may fault. *)
Definition or_else (a : bool) (b : res bool) : res bool := if a then Ok true else b.

Definition is_new_interval (old_acting_primary new_acting_primary : Z) (old_acting new_acting : list Z)
    (old_up_primary new_up_primary : Z) (old_up new_up : list Z)
    (old_min_size new_min_size old_pg_num new_pg_num : Z) (pgid : pg_t) : res bool :=
  or_else (negb (old_acting_primary =? new_acting_primary) || negb (bool_decide (new_acting = old_acting)) ||
           negb (old_up_primary =? new_up_primary) || negb (bool_decide (new_up = old_up)) ||
           negb (old_min_size =? new_min_size))
    ('(split, _) ← is_split pgid old_pg_num new_pg_num ∅; Ok split).

Definition pool_at (m : OSDMap) (p : Z) : res pg_pool_t :=
  match get_pg_pool m p with Some x => Ok x | None => Fault NullDeref end.

(** The overload that takes two maps. *)
Definition is_new_interval_maps (old_acting_primary new_acting_primary : Z) (old_acting new_acting : list Z)
    (old_up_primary new_up_primary : Z) (old_up new_up : list Z) (osdmap lastmap : OSDMap) (pgid : pg_t) : res bool :=
  let pool := s64 (m_pool pgid) in
  if negb (map_count (om_pools lastmap) pool) then Ok true else
  old ← pool_at lastmap pool;
  new ← pool_at osdmap pool;
  is_new_interval old_acting_primary new_acting_primary old_acting new_acting old_up_primary new_up_primary old_up new_up
    (p_min_size old) (p_min_size new) (p_pg_num old) (p_pg_num new) pgid.

Record pg_interval_t := PgInterval {
  i_up : list Z; i_acting : list Z; i_first : Z; i_last : Z; i_maybe_went_rw : bool; i_primary : Z; i_up_primary : Z }.

Definition num_present (acting : list Z) : Z := Z.of_nat (length (filter (λ v, v ≠ CRUSH_ITEM_NONE) acting)).

(** Whether a placement group with a primary can have taken writes in the interval. *)
Definition went_rw (lastmap : OSDMap) (pool : pg_pool_t) (acting : list Z) (primary first last last_epoch_clean : Z) : res bool :=
  let n := num_present acting in
  if p_min_size pool <=? n then
    thru ← get_up_thru (om_osds lastmap) primary;
    from ← get_up_from (om_osds lastmap) primary;
    Ok (if (first <=? thru) && (from <=? first) then true
        else (first <=? last_epoch_clean) && (last_epoch_clean <=? last))
  else Ok false.

(** Whether an interval was closed, and the past intervals. *)
Definition check_new_interval (old_acting_primary new_acting_primary : Z) (old_acting new_acting : list Z)
    (old_up_primary new_up_primary : Z) (old_up new_up : list Z) (same_interval_since last_epoch_clean : Z)
    (osdmap lastmap : OSDMap) (pgid : pg_t) (past_intervals : list (Z * pg_interval_t)) : res (bool * list (Z * pg_interval_t)) :=
  new ← is_new_interval_maps old_acting_primary new_acting_primary old_acting new_acting old_up_primary new_up_primary
          old_up new_up osdmap lastmap pgid;
  if (new : bool) then
    let first := same_interval_since in
    let last := u32 (om_epoch osdmap - 1) in
    rw ← (if negb (num_present old_acting =? 0) && negb (old_acting_primary =? -1) then
            pool ← pool_at lastmap (s64 (m_pool pgid));
            went_rw lastmap pool old_acting old_acting_primary first last last_epoch_clean
          else Ok false);
    Ok (true, map_put past_intervals first
                (PgInterval old_up old_acting first last rw old_acting_primary old_up_primary))
  else Ok (false, past_intervals).

(** ** Targets *)

Record op_target_t := OpTarget {
  t_flags : Z;
  t_base_oid : list Z;
  t_base_oloc : object_locator_t;
  t_target_oid : list Z;
  t_target_oloc : object_locator_t;
  t_precalc_pgid : bool;
  t_base_pgid : pg_t;
  t_pgid : pg_t;
  t_pg_num : Z;
  t_up : list Z;
  t_acting : list Z;
  t_up_primary : Z;
  t_acting_primary : Z;
  t_min_size : Z;
  t_used_replica : bool;
  t_paused : bool;
  t_osd : Z }.

Definition empty_locator : object_locator_t := Locator (-1) [] [] (-1).
Definition no_pg : pg_t := PgT 0 0 (-1).

(** The constructor. *)
Definition op_target (oid : list Z) (oloc : object_locator_t) (flags : Z) : op_target_t :=
  OpTarget flags oid oloc [] empty_locator false no_pg no_pg 0 [] [] (-1) (-1) (-1) false false (-1).

Definition set_osd (o : Z) (t : op_target_t) : op_target_t :=
  OpTarget (t_flags t) (t_base_oid t) (t_base_oloc t) (t_target_oid t) (t_target_oloc t) (t_precalc_pgid t) (t_base_pgid t) (t_pgid t)
    (t_pg_num t) (t_up t) (t_acting t) (t_up_primary t) (t_acting_primary t) (t_min_size t) (t_used_replica t) (t_paused t) o.
Definition set_object (oid : list Z) (oloc : object_locator_t) (t : op_target_t) : op_target_t :=
  OpTarget (t_flags t) (t_base_oid t) (t_base_oloc t) oid oloc (t_precalc_pgid t) (t_base_pgid t) (t_pgid t)
    (t_pg_num t) (t_up t) (t_acting t) (t_up_primary t) (t_acting_primary t) (t_min_size t) (t_used_replica t) (t_paused t) (t_osd t).
Definition set_paused (p : bool) (t : op_target_t) : op_target_t :=
  OpTarget (t_flags t) (t_base_oid t) (t_base_oloc t) (t_target_oid t) (t_target_oloc t) (t_precalc_pgid t) (t_base_pgid t) (t_pgid t)
    (t_pg_num t) (t_up t) (t_acting t) (t_up_primary t) (t_acting_primary t) (t_min_size t) (t_used_replica t) p (t_osd t).
Definition set_mapping (pg : pg_t) (pg_num : Z) (up acting : list Z) (upp actp min_size : Z) (replica : bool) (o : Z) (t : op_target_t) : op_target_t :=
  OpTarget (t_flags t) (t_base_oid t) (t_base_oloc t) (t_target_oid t) (t_target_oloc t) (t_precalc_pgid t) (t_base_pgid t) pg
    pg_num up acting upp actp min_size replica (t_paused t) o.

Inductive recalc := NO_ACTION | NEED_RESEND | POOL_DNE.
#[export] Instance recalc_eq_dec : EqDecision recalc.
Proof. solve_decision. Defined.

(** What the Objecter brings to the calculation: its settings, and what [rand()]
    answers. *)
Record settings := Settings {
  honor_osdmap_full : bool;
  epoch_barrier : Z;
  crush_location : list (string * string);
  next_rand : Z;
  long_bits : Z;
  rule_fuel : nat }.

Definition _osdmap_full_flag (e : settings) (m : OSDMap) : bool := test_flag m CEPH_OSDMAP_FULL && honor_osdmap_full e.

Definition target_should_be_paused (e : settings) (m : OSDMap) (t : op_target_t) : bool :=
  let pauserd := test_flag m CEPH_OSDMAP_PAUSERD in
  let pausewr := test_flag m CEPH_OSDMAP_PAUSEWR || _osdmap_full_flag e m in
  (has_bits (t_flags t) CEPH_OSD_FLAG_READ && pauserd) || (has_bits (t_flags t) CEPH_OSD_FLAG_WRITE && pausewr) ||
  (om_epoch m <? epoch_barrier e).

Definition is_pg_changed (oldprimary : Z) (oldacting : list Z) (newprimary : Z) (newacting : list Z) (any_change : bool) : res bool :=
  c ← primary_changed oldprimary oldacting newprimary newacting;
  Ok ((c : bool) || (any_change && negb (bool_decide (oldacting = newacting)))).

(** [osdmap->raw_pg_to_pg] *)
Definition map_raw_pg_to_pg (m : OSDMap) (pg : pg_t) : res pg_t :=
  match get_pg_pool m (s64 (m_pool pg)) with Some p => Ok (raw_pg_to_pg p pg) | None => Fault AssertFailed end.

(** The object and the pool an operation is directed at, when they are not known
    yet or have to be found again. *)
Definition redirect (pi : pg_pool_t) (force : bool) (t : op_target_t) : op_target_t :=
  let fresh_oid := bool_decide (t_target_oid t = []) || force in
  let fresh_oloc := (loc_pool (t_target_oloc t) =? -1) || force in
  let oid := if fresh_oid then t_base_oid t else t_target_oid t in
  let oloc := if fresh_oloc then t_base_oloc t else t_target_oloc t in
  let oloc :=
    if (fresh_oid || fresh_oloc) && negb (has_bits (t_flags t) CEPH_OSD_FLAG_IGNORE_OVERLAY) then
      let to_pool p l := Locator p (loc_key l) (loc_nspace l) (loc_hash l) in
      let l := if has_bits (t_flags t) CEPH_OSD_FLAG_READ && has_read_tier pi then to_pool (p_read_tier pi) oloc else oloc in
      if has_bits (t_flags t) CEPH_OSD_FLAG_WRITE && has_write_tier pi then to_pool (p_write_tier pi) l else l
    else oloc in
  set_object oid oloc t.

(** The placement group; [None] when its pool does not exist. *)
Definition target_pg (e : settings) (m : OSDMap) (t : op_target_t) : res (option pg_t) :=
  if t_precalc_pgid t then
    _ ← assert_c (bool_decide (t_base_oid t = []));
    if negb (have_pg_pool m (s64 (m_pool (t_base_pgid t)))) then Ok None
    else pg ← map_raw_pg_to_pg m (t_base_pgid t); Ok (Some pg)
  else
    '(_, pg) ← object_locator_to_pg (long_bits e) m (t_target_oid t) (t_target_oloc t);
    Ok pg.

(** A local replica: the nearest, the first of those that are equally near. *)
Fixpoint localize_loop (e : settings) (acting : list Z) (i best best_locality : Z) (replica : bool) : M OSDMap (Z * bool) :=
  match acting with
  | [] => mret (best, replica)
  | o :: acting =>
      locality ← on_crush (get_common_ancestor_distance (rule_fuel e) o (crush_location e));
      if (i =? 0) || ((0 <=? locality) && (0 <=? best_locality) && (locality <? best_locality)) || ((best_locality <? 0) && (0 <=? locality))
      then localize_loop e acting (i + 1) i locality (if negb (i =? 0) then true else replica)
      else localize_loop e acting (i + 1) best best_locality replica
  end.

(** The OSD, and whether it is a replica. *)
Definition choose_osd (e : settings) (flags : Z) (acting : list Z) (acting_primary : Z) : M OSDMap (Z * bool) :=
  let read := has_bits flags CEPH_OSD_FLAG_READ && negb (has_bits flags CEPH_OSD_FLAG_WRITE) in
  if acting_primary =? -1 then mret (-1, false)
  else if read && has_bits flags CEPH_OSD_FLAG_BALANCE_READS then
    _ ← lift (if is_nil acting then Fault DivByZero else Ok tt);
    let p := next_rand e mod Z.of_nat (length acting) in
    o ← lift (vget acting p);
    mret (o, negb (p =? 0))
  else if read && has_bits flags CEPH_OSD_FLAG_LOCALIZE_READS && (1 <? Z.of_nat (length acting)) then
    '(best, replica) ← localize_loop e acting 0 (-1) 0 false;
    _ ← lift (assert_c (0 <=? best));
    o ← lift (vget acting best);
    mret (o, replica)
  else mret (acting_primary, false).

(** [last_force_resend] is a pointer that may be null. *)
Definition _calc_target (e : settings) (t : op_target_t) (last_force_resend : option Z) (any_change : bool) :
    M OSDMap (recalc * op_target_t * option Z) :=
  m ← gets Datatypes.id;
  match get_pg_pool m (loc_pool (t_base_oloc t)) with
  | None => mret (POOL_DNE, set_osd (-1) t, last_force_resend)
  | Some pi =>
      let '(force, lfr) :=
        if om_epoch m =? p_last_force_op_resend pi then
          match last_force_resend with
          | Some l => if l <? p_last_force_op_resend pi then (true, Some (p_last_force_op_resend pi)) else (false, Some l)
          | None => (true, None)
          end
        else (false, last_force_resend) in
      let t := redirect pi force t in
      pg ← lift (target_pg e m t);
      match pg with
      | None => mret (POOL_DNE, set_osd (-1) t, lfr)
      | Some pgid =>
          '(up, up_primary, acting, acting_primary) ← _pg_to_up_acting_osds (rule_fuel e) pgid;
          m ← gets Datatypes.id;
          new ← lift (if any_change then
                        is_new_interval (t_acting_primary t) acting_primary (t_acting t) acting (t_up_primary t) up_primary
                          (t_up t) up (t_min_size t) (p_min_size pi) (t_pg_num t) (p_pg_num pi) (raw_pg_to_pg pi pgid)
                      else Ok false);
          let force := force || (new : bool) in
          let paused := target_should_be_paused e m t in
          let resumed := negb paused && t_paused t in
          let t := if resumed then set_paused false t else t in
          changed ← lift (if bool_decide (t_pgid t = pgid) then
                            is_pg_changed (t_acting_primary t) (t_acting t) acting_primary acting (t_used_replica t || any_change)
                          else Ok true);
          if (changed : bool) || force then
            '(o, replica) ← choose_osd e (t_flags t) acting acting_primary;
            mret (NEED_RESEND, set_mapping pgid (p_pg_num pi) up acting up_primary acting_primary (p_min_size pi) replica o t, lfr)
          else mret (if (resumed : bool) then NEED_RESEND else NO_ACTION, t, lfr)
      end
  end.
