(* ===== verification/TargetProps.v ===== *)
(** * Where operations go (src/osdc/Objecter.cc, src/osd/osd_types.cc)

    The target of an operation follows the primary of its placement group
    through the maps; local reads; intervals. *)

From stdpp Require Import gmap strings.
From S2P Require Import Prelude Hash CrushTypes Ln Nodes Choose ChoosePerm ChooseSpec Mapper.
From S2P Require Import MapWf.
From S2P Require Import FirstnSpec IndepSpec RuleSpec RuleProps BuilderBase BuilderMap MapSpec.
From S2P Require Import CrushWrapper StdMap StrHash IntervalSet SnapSet Pg PgSpec.
From S2P Require Import OsdState OsdMapping OsdMappingSpec OsdMappingProps OsdIncr OsdQuery.
From S2P Require Import Target.

(** ** Changes of the primary *)

Lemma rank_loop_ok osd acting : ∀ n i, (i + n = length acting)%nat →
  rank_loop osd acting n (Z.of_nat i) =
  Ok (match list_find (λ v, v = osd) (drop i acting) with Some (j, _) => Z.of_nat (i + j) | None => -1 end).
Proof.
  induction n as [|n IH]; intros i Hi; cbn [rank_loop].
  - by rewrite drop_ge by lia.
  - destruct (lookup_lt_is_Some_2 acting i) as [v Hv]; [lia|]. rewrite (vget_at acting i v Hv). cbn [mbind res_bind].
    rewrite (drop_S acting v i Hv). simpl. destruct (decide (v = osd)) as [->|Hn].
    + rewrite Z.eqb_refl. by rewrite Nat.add_0_r.
    + rewrite (proj2 (Z.eqb_neq v osd) Hn). replace (Z.of_nat i + 1) with (Z.of_nat (S i)) by lia. rewrite IH by lia.
      destruct (list_find _ (drop (S i) acting)) as [[j w]|]; simpl; [|done]. do 2 f_equal. lia.
Qed.

Definition rank_in (osd : Z) (acting : list Z) : option nat := fst <$> list_find (λ v, v = osd) acting.

Lemma calc_pg_rank_ok osd acting : calc_pg_rank osd acting 0 = Ok (match rank_in osd acting with Some j => Z.of_nat j | None => -1 end).
Proof.
  unfold calc_pg_rank. simpl. rewrite Nat2Z.id. pose proof (rank_loop_ok osd acting (length acting) 0 eq_refl) as E.
  rewrite drop_0 in E. change (Z.of_nat 0) with 0 in E. rewrite E. unfold rank_in. destruct (list_find _ acting) as [[j w]|]; done.
Qed.

Definition rank_z (r : option nat) : Z := match r with Some j => Z.of_nat j | None => -1 end.

Lemma rank_z_eqb a b : (rank_z a =? rank_z b) = bool_decide (a = b).
Proof.
  apply eq_true_iff_eq. rewrite Z.eqb_eq, bool_decide_eq_true. unfold rank_z.
  destruct a as [j|], b as [k|]; split; intros H; try done; try lia; [f_equal; lia|by injection H as ->].
Qed.

Lemma primary_changed_ok op oa np na : primary_changed op oa np na =
  Ok (negb (is_nil oa && is_nil na) && (xorb (is_nil oa) (is_nil na) || negb (op =? np) || negb (bool_decide (rank_in op oa = rank_in np na)))).
Proof.
  unfold primary_changed. rewrite !calc_pg_rank_ok. cbn [mbind res_bind]. fold (rank_z (rank_in op oa)) (rank_z (rank_in np na)). rewrite rank_z_eqb.
  destruct (is_nil oa), (is_nil na), (op =? np); reflexivity.
Qed.

(** Unchanged: no OSDs before and after, or the same primary at the same place. *)
Lemma primary_kept op oa np na : primary_changed op oa np na = Ok false → (oa = [] ∧ na = []) ∨ (oa ≠ [] ∧ na ≠ [] ∧ op = np ∧ rank_in op oa = rank_in np na).
Proof.
  rewrite primary_changed_ok. destruct oa as [|x oa], na as [|y na]; simpl; try discriminate; [by left|].
  intros [= H]. right. apply orb_false_elim in H as [H1 H2]. apply negb_false_iff in H1, H2. apply Z.eqb_eq in H1. apply bool_decide_eq_true in H2. done.
Qed.

(** ** What the calculation does, case by case *)

(** The map asks every client to send again what it has sent. *)
Definition forced (m : OSDMap) (pi : pg_pool_t) (lfr : option Z) : bool :=
  (om_epoch m =? p_last_force_op_resend pi) && match lfr with Some l => l <? p_last_force_op_resend pi | None => true end.

(** A pause has ended, and the target once the object is known. *)
Definition resumed (e : settings) (m : OSDMap) (t : op_target_t) : bool := negb (target_should_be_paused e m t) && t_paused t.
Definition looked_up (e : settings) (m : OSDMap) (pi : pg_pool_t) (force : bool) (t : op_target_t) : op_target_t :=
  let t1 := redirect pi force t in if resumed e m t then set_paused false t1 else t1.

Definition is_write (t : op_target_t) : bool := has_bits (t_flags t) CEPH_OSD_FLAG_WRITE.

Lemma choose_osd_write e flags acting p m : has_bits flags CEPH_OSD_FLAG_WRITE = true → choose_osd e flags acting p m = Ok ((p, false), m).
Proof.
  intros Hw. unfold choose_osd. rewrite Hw. simpl. rewrite andb_false_r. simpl. by destruct (Z.eqb_spec p (-1)) as [->|].
Qed.

(** A write, and a calculation that does not look at intervals. *)
Lemma calc_target_write e t lfr m m' pi pg up upp acting actp :
  is_write t = true → get_pg_pool m (loc_pool (t_base_oloc t)) = Some pi →
  target_pg e m (redirect pi (forced m pi lfr) t) = Ok (Some pg) →
  _pg_to_up_acting_osds (rule_fuel e) pg m = Ok ((up, upp, acting, actp), m') →
  ∃ l' changed, is_pg_changed (t_acting_primary t) (t_acting t) actp acting (t_used_replica t) = Ok changed ∧
  _calc_target e t lfr false m =
    Ok ((if negb (bool_decide (t_pgid t = pg)) || changed || forced m pi lfr
         then (NEED_RESEND, set_mapping pg (p_pg_num pi) up acting upp actp (p_min_size pi) false actp
                            (looked_up e m' pi (forced m pi lfr) t), l')
         else (if resumed e m' t then NEED_RESEND else NO_ACTION, looked_up e m' pi (forced m pi lfr) t, l')), m').
Proof.
  intros Hw Hp Hg Hm. unfold _calc_target. cbv beta delta [gets mbind M_bind]. cbv beta iota delta [Datatypes.id]. rewrite Hp.
  eexists (if forced m pi lfr then match lfr with Some _ => Some (p_last_force_op_resend pi) | None => None end else lfr).
  set (t1 := redirect pi (forced m pi lfr) t) in *. set (t2 := looked_up e m' pi (forced m pi lfr) t). unfold is_pg_changed. rewrite primary_changed_ok. cbn [mbind res_bind]. eexists. split; [reflexivity|].
  assert ((if om_epoch m =? p_last_force_op_resend pi then
             match lfr with Some l => if l <? p_last_force_op_resend pi then (true, Some (p_last_force_op_resend pi)) else (false, Some l) | None => (true, None) end
           else (false, lfr)) = (forced m pi lfr, if forced m pi lfr then match lfr with Some _ => Some (p_last_force_op_resend pi) | None => None end else lfr)) as ->.
  { unfold forced. destruct (om_epoch m =? _); simpl; [|done]. destruct lfr as [l|]; [|done]. by destruct (l <? _). }
  fold t1. unfold lift at 1. rewrite Hg. rewrite Hm. unfold lift at 1.
  assert (is_write t2 = true) as Hw2 by (unfold t2, looked_up; by destruct (resumed _ _ _)).
  assert (target_should_be_paused e m' t1 = target_should_be_paused e m' t) as Et by done.
  rewrite Et. change (t_paused t1) with (t_paused t). fold (resumed e m' t).
  assert ((if resumed e m' t then set_paused false t1 else t1) = t2) as -> by done.
  assert (t_pgid t2 = t_pgid t ∧ t_acting_primary t2 = t_acting_primary t ∧ t_acting t2 = t_acting t ∧ t_used_replica t2 = t_used_replica t) as (-> & -> & -> & ->)
    by (unfold t2, looked_up; by destruct (resumed _ _ _)).
  rewrite !orb_false_r. case_bool_decide as Hpg; unfold lift; [rewrite primary_changed_ok|]; cbn [mbind res_bind negb orb].
  - match goal with |- (if ?b then _ else _) _ = _ => destruct b end; [|done]. by rewrite (choose_osd_write e (t_flags t2)).
  - by rewrite (choose_osd_write e (t_flags t2)).
Qed.

(** ** The primary of a placement *)

Lemma first_osd_in l : first_osd l = -1 ∨ first_osd l ∈ l ∧ first_osd l ≠ CRUSH_ITEM_NONE.
Proof.
  rewrite first_osd_find. destruct (list_find some_osd l) as [[j v]|] eqn:E; [|by left]. simpl.
  apply list_find_Some in E as (Hj & Hv & _). right. split; [by eapply list_elem_of_lookup_2|done].
Qed.

Lemma first_osd_nil l : l = [] → first_osd l = -1.
Proof. by intros ->. Qed.

(** An entry that is not a hole is up. *)
Lemma entry_up o shift l v : Forall (up_or_hole o shift) l → v ∈ l → v ≠ CRUSH_ITEM_NONE → up_b o v = true.
Proof. intros Hl Hv Hn. by destruct (proj1 (Forall_forall _ _) Hl v Hv) as [?|[_ ?]]. Qed.

(** When no primary is set by hand it is an OSD that is up. *)
Lemma placement_primary m shift pool pg pps raw : om_primary_temp m !! raw_pg_to_pg pool pg = None →
  let '(up, upp, acting, actp) := placement m shift pool pg pps raw in
  (acting = [] → actp = -1) ∧ (actp = -1 ∨ actp ∈ acting ∧ up_b (om_osds m) actp = true).
Proof.
  intros Hn. pose proof (placement_ok m shift pool pg pps raw) as H. unfold placement in *.
  destruct (with_affinity _ _ _ _) as [up upp]. unfold temp_primary_of in *. rewrite Hn in *.
  destruct (temp_of m shift pool pg) as [|v temp] eqn:Et; simpl in *.
  - destruct H as (_ & _ & Hp & Hu & _ & _). destruct Hp as [[-> _]|(Hin & Hne & _)]; [auto|]. split.
    + intros ->. by apply elem_of_nil in Hin.
    + right. split; [done|]. by apply (entry_up _ shift up).
  - destruct H as (_ & _ & _ & _ & Ha & _). split; [done|]. change (if negb (v =? CRUSH_ITEM_NONE) then v else first_osd temp) with (first_osd (v :: temp)).
    destruct (first_osd_in (v :: temp)) as [->|[Hin Hne]]; [by left|]. right. split; [done|]. by apply (entry_up _ shift (v :: temp)).
Qed.

(** ** Properties *)

(** What a target that is sent to the primary remembers. *)
Definition settled (t : op_target_t) : Prop :=
  t_osd t = t_acting_primary t ∧ t_used_replica t = false ∧ (t_acting t = [] → t_acting_primary t = -1).

Lemma op_target_settled oid oloc flags : settled (op_target oid oloc flags).
Proof. done. Qed.

Lemma kept_same sh D m m' e t : crush_kept sh D m m' → resumed e m' t = resumed e m t.
Proof. by intros (c & -> & _). Qed.

Lemma looked_up_fields e m pi force t : let t' := looked_up e m pi force t in
  t_flags t' = t_flags t ∧ t_osd t' = t_osd t ∧ t_acting_primary t' = t_acting_primary t ∧ t_acting t' = t_acting t ∧
  t_used_replica t' = t_used_replica t ∧ t_pgid t' = t_pgid t ∧ t_paused t' = t_paused t && negb (resumed e m t).
Proof. unfold looked_up. destruct (resumed e m t) eqn:E; simpl; [by rewrite andb_false_r|by rewrite andb_true_r]. Qed.

(** What a calculation keeps of a target whose object is known. *)
Definition same_request (t t' : op_target_t) : Prop :=
  t_flags t' = t_flags t ∧ t_base_oid t' = t_base_oid t ∧ t_base_oloc t' = t_base_oloc t ∧ t_precalc_pgid t' = t_precalc_pgid t ∧
  t_target_oid t' = t_target_oid t ∧ t_target_oloc t' = t_target_oloc t.

Lemma looked_up_request e m pi force t : same_request (redirect pi force t) (looked_up e m pi force t).
Proof. unfold looked_up. by destruct (resumed e m t). Qed.

Lemma set_mapping_request t t' pg n up acting upp actp ms replica o : same_request t t' → same_request t (set_mapping pg n up acting upp actp ms replica o t').
Proof. done. Qed.

(** The target remembers a write to the primary; its OSD may have been taken away,
    when its pool was not there. *)
Definition remembers (t : op_target_t) : Prop := t_used_replica t = false ∧ (t_acting t = [] → t_acting_primary t = -1).

Lemma write_follows e t lfr m pi pg pool shift sh D rank lm L R :
  is_write t = true → remembers t → get_pg_pool m (loc_pool (t_base_oloc t)) = Some pi →
  target_pg e m (redirect pi (forced m pi lfr) t) = Ok (Some pg) →
  placeable m pg pool shift sh D rank lm L R (rule_fuel e) → om_primary_temp m !! raw_pg_to_pg pool pg = None →
  ∃ r t' l' m' up upp acting actp,
    _calc_target e t lfr false m = Ok ((r, t', l'), m') ∧ crush_kept sh D m m' ∧
    _pg_to_up_acting_osds (rule_fuel e) pg m = Ok ((up, upp, acting, actp), m') ∧
    r ≠ POOL_DNE ∧ is_write t' = true ∧ remembers t' ∧ t_pgid t' = pg ∧ t_acting_primary t' = actp ∧
    (actp = -1 ∨ up_b (om_osds m) actp = true) ∧ (t_osd t' = actp ∨ t_osd t' = t_osd t ∧ t_acting_primary t = actp) ∧
    (r = NO_ACTION → t_osd t' = t_osd t ∧ t_pgid t' = t_pgid t ∧ forced m pi lfr = false ∧ resumed e m t = false) ∧
    (resumed e m t = true → r = NEED_RESEND ∧ t_paused t' = false) ∧
    (r = NEED_RESEND ∨ t_paused t' = t_paused t) ∧ same_request (redirect pi (forced m pi lfr) t) t'.
Proof.
  intros Hw (Hr & Hn) Hp Hg Hpl Hpt. destruct (place_any m pg pool shift sh D rank lm L R (rule_fuel e) Hpl) as (vals & m' & E & Hk & _).
  pose proof (placement_primary m shift pool pg (raw_pg_to_pps pool pg) vals Hpt) as H.
  destruct (placement _ _ _ _ _ _) as [[[up upp] acting] actp]. destruct H as [Hae Hau].
  destruct (calc_target_write e t lfr m m' pi pg up upp acting actp Hw Hp Hg E) as (l' & changed & Ec & Et).
  pose proof (looked_up_request e m' pi (forced m pi lfr) t) as Hreq.
  pose proof (looked_up_fields e m' pi (forced m pi lfr) t) as (F1 & F2 & F3 & F4 & F5 & F6 & F7). rewrite (kept_same sh D m m' e t Hk) in *.
  assert (actp = -1 ∨ up_b (om_osds m) actp = true) as Hup by (destruct Hau as [?|[_ ?]]; auto).
  destruct (negb (bool_decide (t_pgid t = pg)) || changed || forced m pi lfr) eqn:Eb; (do 4 eexists; exists up, upp, acting, actp; split; [exact Et|]).
  - unfold is_write, remembers. simpl. rewrite F1. repeat (split; [done || by left|]). split.
    + intros Hres. split; [done|]. by rewrite F7, Hres, andb_false_r.
    + split; [by left|]. by apply set_mapping_request.
  - apply orb_false_elim in Eb as [Eb Ef]. apply orb_false_elim in Eb as [Eb ->]. apply negb_false_iff, bool_decide_eq_true in Eb.
    assert (t_acting_primary t = actp) as Ea.
    { unfold is_pg_changed in Ec. rewrite Hr in Ec. destruct (primary_changed _ _ _ _) as [c|] eqn:Epc; [|done]. simpl in Ec.
      rewrite orb_false_r in Ec. injection Ec as ->. destruct (primary_kept _ _ _ _ Epc) as [[Ho' Hn']|(_ & _ & Hpp & _)]; [|done]. by rewrite (Hn Ho'), (Hae Hn'). }
    unfold is_write, remembers. rewrite F1, F2, F3, F4, F5, F6, F7.
    generalize dependent (same_request (redirect pi (forced m pi lfr) t) (looked_up e m' pi (forced m pi lfr) t)). intros Q Hreq.
    destruct (resumed e m t); rewrite ?andb_true_r, ?andb_false_r; split_and!; auto; done.
Qed.

(** C11: A write follows the primary of its placement group.  On a well-formed map
    whose pools exist and that sets no primary by hand, the calculation succeeds;
    the target is then the current placement group and its current acting primary,
    which is -1 or an OSD that is up.  It does not have to be sent again only if
    the OSD and the placement group are the ones it was sent to, the map does not
    force it, and it was not waiting for the end of a pause; an operation whose
    pause has ended is not paused any more.  The result is again a target the
    theorem applies to, so it holds along every sequence of maps. *)
Theorem calc_target_follows_primary e t lfr m pi pg pool shift sh D rank lm L R :
  is_write t = true → settled t → get_pg_pool m (loc_pool (t_base_oloc t)) = Some pi →
  target_pg e m (redirect pi (forced m pi lfr) t) = Ok (Some pg) →
  placeable m pg pool shift sh D rank lm L R (rule_fuel e) → om_primary_temp m !! raw_pg_to_pg pool pg = None →
  ∃ r t' l' m' up upp acting actp,
    _calc_target e t lfr false m = Ok ((r, t', l'), m') ∧ crush_kept sh D m m' ∧
    _pg_to_up_acting_osds (rule_fuel e) pg m = Ok ((up, upp, acting, actp), m') ∧
    r ≠ POOL_DNE ∧ is_write t' = true ∧ settled t' ∧ t_pgid t' = pg ∧ t_osd t' = actp ∧
    (t_osd t' = -1 ∨ up_b (om_osds m) (t_osd t') = true) ∧
    (r = NO_ACTION → t_osd t' = t_osd t ∧ t_pgid t' = t_pgid t ∧ forced m pi lfr = false ∧ resumed e m t = false) ∧
    (resumed e m t = true → r = NEED_RESEND ∧ t_paused t' = false).
Proof.
  intros Hw (Ho & Hs) Hp Hg Hpl Hpt. destruct (write_follows e t lfr m pi pg pool shift sh D rank lm L R Hw Hs Hp Hg Hpl Hpt)
    as (r & t' & l' & m' & up & upp & acting & actp & H1 & H2 & H3 & H4 & H5 & H6 & H7 & H8 & H9 & H10 & H11 & H12 & _).
  assert (t_osd t' = actp) as Ea by (destruct H10 as [?|[? ?]]; congruence). exists r, t', l', m', up, upp, acting, actp.
  destruct H6 as [H6 H6']. unfold settled. rewrite Ea, H8. split_and!; try done; [by rewrite H8 in H6'|].
  intros Hna. destruct (H11 Hna) as (<- & ? & ? & ?). by split_and!.
Qed.

(** ** Intervals *)

(** A new seed whose ancestor is the group. *)
Definition splits (p : pg_t) (old new : Z) : Prop := ∃ s, old <= s < new ∧ get_ancestor (set_ps s p) old = Ok p.

Lemma is_split_iff p old new : 0 <= m_seed p < old → old <= new <= 1073741824 →
  ∃ b ch, is_split p old new ∅ = Ok (b, ch) ∧ (b = true ↔ splits p old new).
Proof.
  intros Hs Hn. destruct (bits_fit old) as (k & _ & _ & Hf & _); [lia|].
  destruct (is_split_ok p old new ∅ k Hf Hs Hn) as (b & ch & E & _ & Hb). exists b, ch. split; [done|]. rewrite Hb. unfold splits, child_seed.
  split; intros (x & H); exists x; rewrite (get_ancestor_ok (set_ps x p) old k) in * by (done || lia); destruct p; simpl in *.
  - destruct H as [H1 H2]. split; [done|]. by rewrite H2.
  - destruct H as [H1 [= H2]]. done.
Qed.

Definition same_osds (oap nap : Z) (oa na : list Z) (oup nup : Z) (ou nu : list Z) (oms nms : Z) : Prop :=
  oap = nap ∧ oa = na ∧ oup = nup ∧ ou = nu ∧ oms = nms.

Lemma same_osds_b oap nap oa na oup nup ou nu oms nms :
  (negb (oap =? nap) || negb (bool_decide (na = oa)) || negb (oup =? nup) || negb (bool_decide (nu = ou)) || negb (oms =? nms)) = false ↔
  same_osds oap nap oa na oup nup ou nu oms nms.
Proof. unfold same_osds. rewrite !orb_false_iff, !negb_false_iff, !Z.eqb_eq, !bool_decide_eq_true. split; [by intros ((((-> & ->) & ->) & ->) & ->)|by intros (-> & -> & -> & -> & ->)]. Qed.

Lemma is_new_interval_ok oap nap oa na oup nup ou nu oms nms old new p : 0 <= m_seed p < old → old <= new <= 1073741824 →
  ∃ b, is_new_interval oap nap oa na oup nup ou nu oms nms old new p = Ok b ∧
    (b = false ↔ same_osds oap nap oa na oup nup ou nu oms nms ∧ ¬ splits p old new).
Proof.
  intros Hs Hn. destruct (is_split_iff p old new Hs Hn) as (sp & ch & E & Hsp). unfold is_new_interval, or_else. rewrite E. simpl.
  pose proof (same_osds_b oap nap oa na oup nup ou nu oms nms) as Hc. destruct (_ || negb (oms =? nms)).
  - exists true. split; [done|]. split; [done|]. by intros [?%Hc _].
  - exists sp. split; [done|]. apply proj1 in Hc. destruct sp; split; try done; [intros [_ H]; exfalso; by apply H, Hsp|].
    intros _. split; [by apply Hc|]. by intros H%Hsp.
Qed.

(** The group can have taken writes: enough OSDs, and a primary that was up
    through the interval as far as the map before the change knows, or the group
    was known to be clean within it. *)
Definition rw_possible (lastmap : OSDMap) (pool : pg_pool_t) (acting : list Z) (primary first last lec : Z) : Prop :=
  num_present acting ≠ 0 ∧ primary ≠ -1 ∧ p_min_size pool <= num_present acting ∧
  ((∃ thru from, get_up_thru (om_osds lastmap) primary = Ok thru ∧ get_up_from (om_osds lastmap) primary = Ok from ∧ from <= first <= thru) ∨
   first <= lec <= last).

Lemma get_info_ok o i : osds_wf o → ex o i = true →
  ∃ x, get_up_thru o i = Ok (up_thru x) ∧ get_up_from o i = Ok (up_from x).
Proof.
  intros Hw He. pose proof (ex_range o i He) as Hr. destruct (vget_ok (osd_info o) i) as (x & _ & E); [pose proof (ow_info o Hw); lia|].
  exists x. unfold get_up_thru, get_up_from, assert_exists. rewrite (osd_exists_ok o Hw), He. simpl. by rewrite E.
Qed.

Lemma went_rw_ok lastmap pool acting primary first last lec : osds_wf (om_osds lastmap) → ex (om_osds lastmap) primary = true →
  num_present acting ≠ 0 → primary ≠ -1 →
  ∃ b, went_rw lastmap pool acting primary first last lec = Ok b ∧ (b = true ↔ rw_possible lastmap pool acting primary first last lec).
Proof.
  intros Hw He Hn Hp. destruct (get_info_ok _ _ Hw He) as (x & E1 & E2). unfold went_rw, rw_possible. rewrite E1, E2. simpl.
  destruct (Z.leb_spec (p_min_size pool) (num_present acting)) as [Hm|Hm]; [|exists false; split; [done|]; split; [done|lia]].
  eexists. split; [reflexivity|]. destruct ((first <=? up_thru x) && (up_from x <=? first)) eqn:E.
  - split; [intros _|done]. split_and!; try done. left. exists (up_thru x), (up_from x). split_and!; try done; lia.
  - rewrite andb_true_iff, !Z.leb_le. split; [intros H; split_and!; try done; by right|].
    intros (_ & _ & _ & [(thru & from & [= <-] & [= <-] & H)|H]); [lia|done].
Qed.

(** A new map closes the interval of a placement group exactly when it changes
    the acting or the up set, one of the two primaries or the minimum size of the
    pool, or splits the group.  Then the old sets are entered under the epoch the
    interval began with, ending before the new map, with the mark that writes are
    possible exactly when enough OSDs were acting under a primary that had been up
    through its beginning, or when the group was clean within it; the other
    intervals stay, and without a change nothing is entered. *)
Theorem check_new_interval_exact oap nap oa na oup nup ou nu since lec osdmap lastmap p past old new :
  osds_wf (om_osds lastmap) → ordered past →
  get_pg_pool lastmap (s64 (m_pool p)) = Some old → get_pg_pool osdmap (s64 (m_pool p)) = Some new →
  0 <= m_seed p < p_pg_num old → p_pg_num old <= p_pg_num new <= 1073741824 →
  (oap = -1 ∨ ex (om_osds lastmap) oap = true) →
  ∃ b past', check_new_interval oap nap oa na oup nup ou nu since lec osdmap lastmap p past = Ok (b, past') ∧ ordered past' ∧
    (b = false ↔ same_osds oap nap oa na oup nup ou nu (p_min_size old) (p_min_size new) ∧ ¬ splits p (p_pg_num old) (p_pg_num new)) ∧
    (b = false → past' = past) ∧
    (b = true → (∀ k, k ≠ since → map_find past' k = map_find past k) ∧
      ∃ i, map_find past' since = Some i ∧ i_first i = since ∧ i_last i = u32 (om_epoch osdmap - 1) ∧
        i_up i = ou ∧ i_acting i = oa ∧ i_primary i = oap ∧ i_up_primary i = oup ∧
        (i_maybe_went_rw i = true ↔ rw_possible lastmap old oa oap since (u32 (om_epoch osdmap - 1)) lec)).
Proof.
  intros Hw Ho Hl Hn Hs Hpg Hprim. unfold check_new_interval, is_new_interval_maps, pool_at. rewrite Hl, Hn.
  assert (map_count (om_pools lastmap) (s64 (m_pool p)) = true) as -> by (unfold map_count; apply bool_decide_eq_true_2; by exists old). simpl.
  destruct (is_new_interval_ok oap nap oa na oup nup ou nu (p_min_size old) (p_min_size new) _ _ p Hs Hpg) as (b & -> & Hb). simpl.
  destruct b; [|by exists false, past].
  assert (∃ rw, (if negb (num_present oa =? 0) && negb (oap =? -1) then went_rw lastmap old oa oap since (u32 (om_epoch osdmap - 1)) lec else Ok false) = Ok rw ∧
    (rw = true ↔ rw_possible lastmap old oa oap since (u32 (om_epoch osdmap - 1)) lec)) as (rw & E & Hrw).
  { destruct (Z.eqb_spec (num_present oa) 0) as [H0|H0]; [exists false; split; [done|]; split; [done|by intros (? & _)]|].
    destruct (Z.eqb_spec oap (-1)) as [H1|H1]; [exists false; split; [done|]; split; [done|by intros (_ & ? & _)]|].
    destruct Hprim as [?|Hex]; [done|]. by apply went_rw_ok. }
  rewrite E. simpl. do 2 eexists. split; [reflexivity|]. split; [by apply map_put_ordered|]. split; [done|]. split; [done|]. intros _. split.
  - intros k Hk. rewrite map_find_put by done. by rewrite decide_False.
  - eexists. rewrite map_find_put, decide_True by done. split_and!; try reflexivity; apply Hrw.
Qed.

(** ** Local reads *)

(** A known distance is better than an unknown one, and a smaller one is better. *)
Definition closer (a b : Z) : bool := (0 <=? a) && ((b <? 0) || (a <? b)).

Lemma closer_step a b : ((0 <=? a) && (0 <=? b) && (a <? b)) || ((b <? 0) && (0 <=? a)) = closer a b.
Proof. unfold closer. destruct (Z.leb_spec 0 a), (Z.leb_spec 0 b), (Z.ltb_spec a b), (Z.ltb_spec b 0); lia. Qed.

(** At most the reverse tables of the names have been built. *)
Definition rmaps_only (m m' : OSDMap) : Prop := ∃ c, m' = with_om_crush c m ∧ (c = om_crush m ∨ c = build_rmaps (om_crush m)).

Lemma build_twice c : build_rmaps (build_rmaps c) = build_rmaps c.
Proof. unfold build_rmaps at 1. by destruct (build_rmaps_maps c) as (_ & _ & _ & _ & ->). Qed.

Lemma rmaps_only_refl m : rmaps_only m m.
Proof. exists (om_crush m). split; [by destruct m|by left]. Qed.

Lemma rmaps_only_trans m m' m'' : rmaps_only m m' → rmaps_only m' m'' → rmaps_only m m''.
Proof.
  intros (c & -> & Hc) (c' & -> & Hc'). simpl in Hc'. exists c'. split; [done|].
  destruct Hc as [->| ->], Hc' as [->| ->]; rewrite ?build_twice; auto.
Qed.

Section local.
Context (e : settings) (bs : list bucket) (height : Z → nat) (top : nat).
Hypothesis layers : layered bs height top.
Hypothesis fuel_enough : (top < rule_fuel e)%nat.

(** The distance of an OSD from the client's location. *)
Definition dist_is (m : OSDMap) (o d : Z) : Prop := ∃ l, ancestors bs o l ∧ d = distance_on (om_crush m) o (crush_location e) l.

Lemma dist_fun m o d d' : dist_is m o d → dist_is m o d' → d = d'.
Proof using Type. intros (l & Hl & ->) (l' & Hl' & ->). by rewrite (ancestors_unique bs o l l' Hl Hl'). Qed.

Lemma distance_step m o : located (om_crush m) bs →
  ∃ d m', on_crush (get_common_ancestor_distance (rule_fuel e) o (crush_location e)) m = Ok (d, m') ∧ dist_is m o d ∧ rmaps_only m m' ∧
    located (om_crush m') bs ∧ ∀ o' d', dist_is m' o' d' ↔ dist_is m o' d'.
Proof using layers fuel_enough.
  intros Hc. destruct (ancestors_exist bs height top layers o) as (l & Hl & Hn).
  destruct (distance_on_ok (om_crush m) bs o l (rule_fuel e) (crush_location e) Hc Hl ltac:(lia)) as (c' & E & Hc').
  unfold on_crush. rewrite E. simpl. eexists _, (with_om_crush c' m). split; [reflexivity|]. split; [by exists l|]. split; [by exists c'|].
  simpl. split; [destruct Hc' as [->| ->]; [done|by apply located_build]|]. intros o' d'. unfold dist_is. simpl.
  destruct Hc' as [->| ->]; [done|]. by setoid_rewrite distance_on_build.
Qed.

Lemma localize_rest acting : ∀ i best d replica m, 0 < i → located (om_crush m) bs →
  ∃ best' replica' m', localize_loop e acting i best d replica m = Ok ((best', replica'), m') ∧ rmaps_only m m' ∧
    ((best' = best ∧ replica' = replica ∧ ∀ o d', o ∈ acting → dist_is m o d' → closer d' d = false) ∨
     (replica' = true ∧ ∃ j o d', best' = i + Z.of_nat j ∧ acting !! j = Some o ∧ dist_is m o d' ∧ closer d' d = true ∧
      (∀ k o' d'', (k < j)%nat → acting !! k = Some o' → dist_is m o' d'' → closer d' d'' = true) ∧
      (∀ o' d'', o' ∈ acting → dist_is m o' d'' → closer d'' d' = false))).
Proof using layers fuel_enough.
  induction acting as [|o acting IH]; intros i best d replica m Hi Hc; cbn [localize_loop].
  { exists best, replica, m. split; [done|]. split; [apply rmaps_only_refl|]. left. split_and!; try done. intros o d' Ho. by apply elem_of_nil in Ho. }
  destruct (distance_step m o Hc) as (dd & m1 & E & Hd & Hm & Hc1 & Hsame). unfold mbind, M_bind. rewrite E.
  rewrite (proj2 (Z.eqb_neq i 0)) by lia. simpl. rewrite closer_step. destruct (closer dd d) eqn:Ecl.
  - destruct (IH (i + 1) i dd true m1 ltac:(lia) Hc1) as (b & r & m2 & E2 & Hm2 & H). rewrite E2. exists b, r, m2.
    split; [done|]. split; [by eapply rmaps_only_trans|]. right. destruct H as [(-> & -> & Hall)|(-> & j & o' & d' & -> & Hj & Hd' & Hcl & Hbef & Hall)].
    + split; [done|]. exists 0%nat, o, dd. split_and!; try done; [lia|intros; lia|]. intros o' d'' [->|Ho']%elem_of_cons Hd''.
      * rewrite (dist_fun m o d'' dd Hd'' Hd). unfold closer. lia.
      * apply (Hall o' d'' Ho'). by apply Hsame.
    + split; [done|]. exists (S j), o', d'. split_and!; try done; [lia|by apply Hsame| | |].
      * revert Hcl Ecl. unfold closer. lia.
      * intros [|k] p d'' Hk Hp Hd''; [simpl in Hp; injection Hp as ->; by rewrite (dist_fun m p d'' dd Hd'' Hd)|].
        apply (Hbef k p d''); [lia|done|by apply Hsame].
      * intros p d'' [->|Hp]%elem_of_cons Hd''; [rewrite (dist_fun m o d'' dd Hd'' Hd); revert Hcl; unfold closer; lia|].
        apply (Hall p d'' Hp). by apply Hsame.
  - destruct (IH (i + 1) best d replica m1 ltac:(lia) Hc1) as (b & r & m2 & E2 & Hm2 & H). rewrite E2. exists b, r, m2.
    split; [done|]. split; [by eapply rmaps_only_trans|]. destruct H as [(-> & -> & Hall)|(-> & j & o' & d' & -> & Hj & Hd' & Hcl & Hbef & Hall)].
    + left. split_and!; try done. intros o' d'' [->|Ho']%elem_of_cons Hd''; [by rewrite (dist_fun m o d'' dd Hd'' Hd)|].
      apply (Hall o' d'' Ho'). by apply Hsame.
    + right. split; [done|]. exists (S j), o', d'. split_and!; try done; [lia|by apply Hsame| |].
      * intros [|k] p d'' Hk Hp Hd''; [simpl in Hp; injection Hp as ->; rewrite (dist_fun m p d'' dd Hd'' Hd); revert Hcl Ecl; unfold closer; lia|].
        apply (Hbef k p d''); [lia|done|by apply Hsame].
      * intros p d'' [->|Hp]%elem_of_cons Hd''; [rewrite (dist_fun m o d'' dd Hd'' Hd); revert Hcl Ecl; unfold closer; lia|].
        apply (Hall p d'' Hp). by apply Hsame.
Qed.
End local.

(** A read that asks for a local replica goes to the nearest of the acting
    OSDs, by the distance between an OSD and the location of the client; an OSD
    whose distance is not known comes after all others, and the first of equals is
    taken.  The replica mark is set exactly when it is not the first OSD. *)
Theorem local_read_nearest e flags acting p m bs height top :
  has_bits flags CEPH_OSD_FLAG_READ = true → has_bits flags CEPH_OSD_FLAG_WRITE = false →
  has_bits flags CEPH_OSD_FLAG_BALANCE_READS = false → has_bits flags CEPH_OSD_FLAG_LOCALIZE_READS = true →
  p ≠ -1 → (1 < length acting)%nat → layered bs height top → (top < rule_fuel e)%nat → located (om_crush m) bs →
  ∃ j o m', choose_osd e flags acting p m = Ok ((o, negb (bool_decide (j = 0%nat))), m') ∧ rmaps_only m m' ∧ acting !! j = Some o ∧
    ∃ d, dist_is e bs m o d ∧ (∀ k o' d', (k < j)%nat → acting !! k = Some o' → dist_is e bs m o' d' → closer d d' = true) ∧
      ∀ o' d', o' ∈ acting → dist_is e bs m o' d' → closer d' d = false.
Proof.
  intros Hr Hw Hb Hl Hp Hlen Hh Hf Hc. unfold choose_osd. rewrite Hr, Hw, Hb, Hl, (proj2 (Z.eqb_neq p (-1))), (proj2 (Z.ltb_lt 1 _)) by lia. simpl.
  destruct acting as [|o acting]; [simpl in Hlen; lia|]. cbn [localize_loop].
  destruct (distance_step e bs height top Hh Hf m o Hc) as (d & m1 & E & Hd & Hm & Hc1 & Hsame). unfold mbind, M_bind. rewrite E. simpl. change (0 + 1) with 1.
  destruct (localize_rest e bs height top Hh Hf acting 1 0 d false m1 ltac:(lia) Hc1) as (b & r & m2 & E2 & Hm2 & H). rewrite E2.
  assert (rmaps_only m m2) as Hmm by (by eapply rmaps_only_trans).
  destruct H as [(-> & -> & Hall)|(-> & j & o' & d' & -> & Hj & Hd' & Hcl & Hbef & Hall)].
  - exists 0%nat, o, m2. split; [done|]. split; [done|]. split; [done|]. exists d. split; [done|]. split; [intros; lia|].
    intros o' d' [->|Ho']%elem_of_cons Hd'; [rewrite (dist_fun e bs m o d' d Hd' Hd); unfold closer; lia|]. apply (Hall o' d' Ho'). by apply Hsame.
  - exists (S j), o', m2. unfold lift, assert_c. rewrite (proj2 (Z.leb_le 0 (1 + Z.of_nat j))) by lia.
    replace (1 + Z.of_nat j) with (Z.of_nat (S j)) by lia. rewrite (vget_at (o :: acting) (S j) o' Hj). simpl.
    split; [done|]. split; [done|]. split; [done|]. exists d'. split; [by apply Hsame|]. split.
    + intros [|k] q d'' Hk Hq Hd''; [simpl in Hq; injection Hq as ->; by rewrite (dist_fun e bs m q d'' d Hd'' Hd)|].
      apply (Hbef k q d''); [lia|done|by apply Hsame].
    + intros q d'' [->|Hq]%elem_of_cons Hd''; [rewrite (dist_fun e bs m o d'' d Hd'' Hd); revert Hcl; unfold closer; lia|].
      apply (Hall q d'' Hq). by apply Hsame.
Qed.

(** ** Instances *)

Definition plain : settings := Settings true 0 [] 0 8 104.
Definition foo : list Z := [102; 111; 111].
(** A write to an object at a fixed hash position of a pool. *)
Definition write_at (pool h : Z) : op_target_t := op_target foo (Locator pool [] [] h) CEPH_OSD_FLAG_WRITE.

Lemma calc_target_follows_primary_witness : ∃ r t' l' m' up upp acting actp,
  _calc_target plain (write_at 1 5) (Some 0) false six_map = Ok ((r, t', l'), m') ∧ crush_kept sample_shape 6 six_map m' ∧
  _pg_to_up_acting_osds 104 (PgT 1 5 (-1)) six_map = Ok ((up, upp, acting, actp), m') ∧
  r ≠ POOL_DNE ∧ is_write t' = true ∧ settled t' ∧ t_pgid t' = PgT 1 5 (-1) ∧ t_osd t' = actp ∧
  (t_osd t' = -1 ∨ up_b six_osds (t_osd t') = true) ∧
  (r = NO_ACTION → t_osd t' = t_osd (write_at 1 5) ∧ t_pgid t' = t_pgid (write_at 1 5) ∧ forced six_map rep_pool (Some 0) = false ∧ resumed plain six_map (write_at 1 5) = false) ∧
  (resumed plain six_map (write_at 1 5) = true → r = NEED_RESEND ∧ t_paused t' = false).
Proof.
  apply (calc_target_follows_primary plain (write_at 1 5) (Some 0) six_map rep_pool (PgT 1 5 (-1)) rep_pool true sample_shape 6 sample_rank sample_limits 0 1);
    [reflexivity|apply op_target_settled|reflexivity|reflexivity|apply six_rep_placeable|reflexivity].
Defined.

Lemma check_new_interval_exact_witness : ∃ b past',
  check_new_interval 0 2 [0; 2] [2; 0] 0 2 [0; 2] [2; 0] 3 1 six_map six_map (PgT 1 5 (-1)) [] = Ok (b, past') ∧ ordered past' ∧
  (b = false ↔ same_osds 0 2 [0; 2] [2; 0] 0 2 [0; 2] [2; 0] 2 2 ∧ ¬ splits (PgT 1 5 (-1)) 8 8) ∧ (b = false → past' = []) ∧
  (b = true → (∀ k, k ≠ 3 → map_find past' k = map_find [] k) ∧
    ∃ i, map_find past' 3 = Some i ∧ i_first i = 3 ∧ i_last i = u32 (om_epoch six_map - 1) ∧
      i_up i = [0; 2] ∧ i_acting i = [0; 2] ∧ i_primary i = 0 ∧ i_up_primary i = 0 ∧
      (i_maybe_went_rw i = true ↔ rw_possible six_map rep_pool [0; 2] 0 3 (u32 (om_epoch six_map - 1)) 1)).
Proof.
  apply (check_new_interval_exact 0 2 [0; 2] [2; 0] 0 2 [0; 2] [2; 0] 3 1 six_map six_map (PgT 1 5 (-1)) [] rep_pool rep_pool six_osds_wf);
    [constructor|reflexivity|reflexivity|simpl; lia|simpl; lia|right; reflexivity].
Defined.

Definition in_b : settings := Settings true 0 [("host", "b")]%string 0 8 104.
Definition named_map : OSDMap := with_om_crush sample_names six_map.

Lemma local_read_nearest_witness :
  ∃ j o m', choose_osd in_b (CEPH_OSD_FLAG_READ + CEPH_OSD_FLAG_LOCALIZE_READS) [0; 1] 0 named_map = Ok ((o, negb (bool_decide (j = 0%nat))), m') ∧
    rmaps_only named_map m' ∧ [0; 1] !! j = Some o ∧
    ∃ d, dist_is in_b sample_buckets named_map o d ∧
      (∀ k o' d', (k < j)%nat → [0; 1] !! k = Some o' → dist_is in_b sample_buckets named_map o' d' → closer d d' = true) ∧
      ∀ o' d', o' ∈ [0; 1] → dist_is in_b sample_buckets named_map o' d' → closer d' d = false.
Proof.
  apply (local_read_nearest in_b (CEPH_OSD_FLAG_READ + CEPH_OSD_FLAG_LOCALIZE_READS) [0; 1] 0 named_map sample_buckets sample_height 2);
    [reflexivity|reflexivity|reflexivity|reflexivity|lia|simpl; lia|apply sample_layered|simpl; lia|apply sample_located].
Defined.

Example local_read_goes_to_b : ∃ m, choose_osd in_b (CEPH_OSD_FLAG_READ + CEPH_OSD_FLAG_LOCALIZE_READS) [0; 1] 0 named_map = Ok ((1, true), m).
Proof. by eexists. Qed.

(** ** What goes wrong *)

(** The pool grows to 16 placement groups, in the next map. *)
Definition six_map_grown : OSDMap :=
  with_om_epoch 6 (with_om_pools [(1, PgPool 1 1 3 0 2 16 8 15 7 6 no_snaps 2 0 (-1) (-1)); (2, ec_pool_3)] six_map).
Definition after_calc (t : op_target_t) (m : OSDMap) : op_target_t :=
  match _calc_target plain t (Some 0) true m with Ok ((_, t, _), _) => t | Fault _ => t end.

(** A watch on an object that the split moves: [is_split] is asked about the new
    group, which is not one of the old ones, and its assertion fails. *)
Theorem split_stops_watchers :
  (∃ t l m, _calc_target plain (write_at 1 13) (Some 0) true six_map = Ok ((NEED_RESEND, t, l), m) ∧ t_osd t = 0) ∧
  _calc_target plain (after_calc (write_at 1 13) six_map) (Some 0) true six_map_grown = Fault AssertFailed.
Proof. split; [do 3 eexists; split; [vm_compute; reflexivity|reflexivity]|vm_compute; reflexivity]. Qed.

(** A balanced read of an erasure-coded group with a hole can be directed at the hole. *)
Theorem balanced_read_to_a_hole : ∃ t l m,
  _calc_target (Settings true 0 [] 2 8 104) (op_target foo (Locator 2 [] [] 1) (CEPH_OSD_FLAG_READ + CEPH_OSD_FLAG_BALANCE_READS)) (Some 0) false six_map =
    Ok ((NEED_RESEND, t, l), m) ∧ t_osd t = CRUSH_ITEM_NONE ∧ t_acting_primary t = 0.
Proof. do 3 eexists. split; [vm_compute; reflexivity|]. by split. Qed.
