(* ===== verification/Sessions.v ===== *)
(** * Operations in flight (src/osdc/Objecter.cc, Objecter.h)

    The operations of the Objecter on the objects of the cluster: the sessions
    they are assigned to, the messages that are sent for them, the replies, and
    the test with the monitors whether a pool exists.  An [Op *] is a key of a
    heap, an [OSDSession *] the number of its OSD (-1 is the homeless session), a
    connection the address it leads to, and a [Context *] a number.  Completions
    and what is sent are the output, in order.  Reference counts, locks, timers,
    the budget, and the data and versions a reply delivers are left out, and the
    promotion of a read lock is atomic. *)

From stdpp Require Import gmap strings.
From S2P Require Import Prelude CrushTypes StdMap IntervalSet SnapSet Pg.
From S2P Require Import CrushWrapper OsdState OsdMapping OsdIncr OsdQuery Target.

Definition CEPH_OSD_FLAG_ACK : Z := 1.
Definition CEPH_OSD_FLAG_ONDISK : Z := 4.
Definition CEPH_OSD_FLAG_REDIRECTED : Z := 2097152.
Definition CEPH_OSD_FLAG_KNOWN_REDIR : Z := 4194304.
Definition EAGAIN : Z := 11.
Definition ECANCELED : Z := 125.

(** ** State *)

Record Op := MkOp {
  o_session : option Z;
  o_incarnation : Z;
  o_target : op_target_t;
  o_out_handler : list (option Z);
  o_onack : option Z;
  o_oncommit : option Z;
  o_oncommit_sync : option Z;
  o_tid : Z;
  o_attempts : Z;
  o_map_dne_bound : Z;
  o_should_resend : bool;
  o_last_force_resend : Z }.

(** The constructor, for an operation with [n] parts. *)
Definition new_op (oid : list Z) (oloc : object_locator_t) (n : nat) (flags : Z) (ac co : option Z) : Op :=
  let key := if bool_decide (loc_key oloc = oid) then [] else loc_key oloc in
  MkOp None 0 (op_target oid (Locator (loc_pool oloc) key (loc_nspace oloc) (loc_hash oloc)) flags) (replicate n None) ac co None 0 0 0 true 0.

Definition set_session (s : option Z) (o : Op) : Op :=
  MkOp s (o_incarnation o) (o_target o) (o_out_handler o) (o_onack o) (o_oncommit o) (o_oncommit_sync o) (o_tid o) (o_attempts o) (o_map_dne_bound o) (o_should_resend o) (o_last_force_resend o).
Definition set_incarnation (i : Z) (o : Op) : Op :=
  MkOp (o_session o) i (o_target o) (o_out_handler o) (o_onack o) (o_oncommit o) (o_oncommit_sync o) (o_tid o) (o_attempts o) (o_map_dne_bound o) (o_should_resend o) (o_last_force_resend o).
Definition set_target (t : op_target_t) (l : Z) (o : Op) : Op :=
  MkOp (o_session o) (o_incarnation o) t (o_out_handler o) (o_onack o) (o_oncommit o) (o_oncommit_sync o) (o_tid o) (o_attempts o) (o_map_dne_bound o) (o_should_resend o) l.
Definition set_contexts (h : list (option Z)) (a c s : option Z) (o : Op) : Op :=
  MkOp (o_session o) (o_incarnation o) (o_target o) h a c s (o_tid o) (o_attempts o) (o_map_dne_bound o) (o_should_resend o) (o_last_force_resend o).
Definition set_tid (t : Z) (o : Op) : Op :=
  MkOp (o_session o) (o_incarnation o) (o_target o) (o_out_handler o) (o_onack o) (o_oncommit o) (o_oncommit_sync o) t (o_attempts o) (o_map_dne_bound o) (o_should_resend o) (o_last_force_resend o).
Definition set_attempts (n b : Z) (o : Op) : Op :=
  MkOp (o_session o) (o_incarnation o) (o_target o) (o_out_handler o) (o_onack o) (o_oncommit o) (o_oncommit_sync o) (o_tid o) n b (o_should_resend o) (o_last_force_resend o).

Record OSDSession := MkSession {
  s_osd : Z;
  s_incarnation : Z;
  s_con : option entity_addr_t;
  s_ops : list (Z * Z) }.  (* std::map<ceph_tid_t, Op*> *)

Definition set_ops (l : list (Z * Z)) (s : OSDSession) : OSDSession := MkSession (s_osd s) (s_incarnation s) (s_con s) l.
Definition is_homeless (s : OSDSession) : bool := s_osd s =? -1.

Record MOSDOp := MkMOSDOp {
  mo_tid : Z; mo_oid : list Z; mo_oloc : object_locator_t; mo_pgid : pg_t; mo_epoch : Z; mo_flags : Z; mo_retry_attempt : Z }.
Definition set_mo_tid (t : Z) (m : MOSDOp) : MOSDOp :=
  MkMOSDOp t (mo_oid m) (mo_oloc m) (mo_pgid m) (mo_epoch m) (mo_flags m) (mo_retry_attempt m).

(** What leaves the Objecter. *)
Inductive output :=
  | Send (con : entity_addr_t) (m : MOSDOp)
  | Complete (c r : Z)
  | Drop (c : Z)  (* a context that is deleted *)
  | MarkDown (con : entity_addr_t)
  | GetVersion (tid : Z)
  | WantMap (epoch : Z) (onetime : bool).

Record objecter := Objecter {
  ob_map : OSDMap;
  ob_heap : gmap Z Op;
  ob_sessions : list (Z * OSDSession);  (* osd_sessions *)
  ob_homeless : OSDSession;
  ob_num_homeless : Z;
  ob_checks : list (Z * Z);  (* check_latest_map_ops *)
  ob_last_tid : Z;
  ob_inflight : Z;
  ob_unacked : Z;
  ob_uncommitted : Z;
  ob_waiting : list (Z * list (option Z * Z));  (* waiting_for_map *)
  ob_out : list output }.

Definition with_map (m : OSDMap) (o : objecter) : objecter :=
  Objecter m (ob_heap o) (ob_sessions o) (ob_homeless o) (ob_num_homeless o) (ob_checks o) (ob_last_tid o) (ob_inflight o) (ob_unacked o) (ob_uncommitted o) (ob_waiting o) (ob_out o).
Definition with_heap (h : gmap Z Op) (o : objecter) : objecter :=
  Objecter (ob_map o) h (ob_sessions o) (ob_homeless o) (ob_num_homeless o) (ob_checks o) (ob_last_tid o) (ob_inflight o) (ob_unacked o) (ob_uncommitted o) (ob_waiting o) (ob_out o).
Definition with_sessions (l : list (Z * OSDSession)) (h : OSDSession) (o : objecter) : objecter :=
  Objecter (ob_map o) (ob_heap o) l h (ob_num_homeless o) (ob_checks o) (ob_last_tid o) (ob_inflight o) (ob_unacked o) (ob_uncommitted o) (ob_waiting o) (ob_out o).
Definition with_num_homeless (n : Z) (o : objecter) : objecter :=
  Objecter (ob_map o) (ob_heap o) (ob_sessions o) (ob_homeless o) n (ob_checks o) (ob_last_tid o) (ob_inflight o) (ob_unacked o) (ob_uncommitted o) (ob_waiting o) (ob_out o).
Definition with_checks (l : list (Z * Z)) (o : objecter) : objecter :=
  Objecter (ob_map o) (ob_heap o) (ob_sessions o) (ob_homeless o) (ob_num_homeless o) l (ob_last_tid o) (ob_inflight o) (ob_unacked o) (ob_uncommitted o) (ob_waiting o) (ob_out o).
Definition with_tid_count (t i u c : Z) (o : objecter) : objecter :=
  Objecter (ob_map o) (ob_heap o) (ob_sessions o) (ob_homeless o) (ob_num_homeless o) (ob_checks o) t i u c (ob_waiting o) (ob_out o).
Definition with_out (l : list output) (o : objecter) : objecter :=
  Objecter (ob_map o) (ob_heap o) (ob_sessions o) (ob_homeless o) (ob_num_homeless o) (ob_checks o) (ob_last_tid o) (ob_inflight o) (ob_unacked o) (ob_uncommitted o) (ob_waiting o) l.
Definition with_waiting (w : list (Z * list (option Z * Z))) (o : objecter) : objecter :=
  Objecter (ob_map o) (ob_heap o) (ob_sessions o) (ob_homeless o) (ob_num_homeless o) (ob_checks o) (ob_last_tid o) (ob_inflight o) (ob_unacked o) (ob_uncommitted o) w (ob_out o).

Definition emit (x : output) : M objecter unit := modify (λ o, with_out (ob_out o ++ [x]) o).
Definition assert_o (b : bool) : M objecter unit := lift (assert_c b).

(** [*p] *)
Definition get_op (p : Z) : M objecter Op := λ o,
  match ob_heap o !! p with Some x => Ok (x, o) | None => Fault NullDeref end.
Definition put_op (p : Z) (x : Op) : M objecter unit := modify (λ o, with_heap (<[p := x]> (ob_heap o)) o).
Definition change_op (p : Z) (f : Op → Op) : M objecter unit := x ← get_op p; put_op p (f x).

Definition session_at (o : objecter) (sid : Z) : option OSDSession :=
  if sid =? -1 then Some (ob_homeless o) else map_find (ob_sessions o) sid.
Definition get_sess (sid : Z) : M objecter OSDSession := λ o,
  match session_at o sid with Some s => Ok (s, o) | None => Fault NullDeref end.
Definition put_sess (sid : Z) (s : OSDSession) : M objecter unit := modify (λ o,
  if sid =? -1 then with_sessions (ob_sessions o) s o else with_sessions (map_put (ob_sessions o) sid s) (ob_homeless o) o).

(** ** Sessions *)

(** The new session's connection is the address of its OSD, which has to be up. *)
Definition get_inst (m : OSDMap) (osd : Z) : res entity_addr_t :=
  u ← is_up (om_osds m) osd; _ ← assert_c u; get_addr (om_osds m) osd.

Definition _get_session (osd : Z) : M objecter Z :=
  if osd <? 0 then mret (-1) else
  o ← gets Datatypes.id;
  match map_find (ob_sessions o) osd with
  | Some _ => mret osd
  | None =>
      con ← lift (get_inst (ob_map o) osd);
      put_sess osd (MkSession osd 0 (Some con) []);;
      mret osd
  end.

Definition count_homeless (s : OSDSession) (n : Z) : M objecter unit :=
  if is_homeless s then modify (λ o, with_num_homeless (ob_num_homeless o + n) o) else mret tt.

Definition _session_op_assign (sid p : Z) : M objecter unit :=
  x ← get_op p;
  assert_o (bool_decide (o_session x = None));;
  assert_o (negb (o_tid x =? 0));;
  put_op p (set_session (Some sid) x);;
  s ← get_sess sid;
  put_sess sid (set_ops (map_put (s_ops s) (o_tid x) p) s);;
  count_homeless s 1.

Definition _session_op_remove (sid p : Z) : M objecter unit :=
  x ← get_op p;
  assert_o (bool_decide (o_session x = Some sid));;
  s ← get_sess sid;
  count_homeless s (-1);;
  put_sess sid (set_ops (map_del (s_ops s) (o_tid x)) s);;
  put_op p (set_session None x).

(** [~Op], when the last reference is dropped: the handlers that have not run. *)
Fixpoint drop_all (l : list (option Z)) : M objecter unit :=
  match l with
  | [] => mret tt
  | Some c :: l => emit (Drop c);; drop_all l
  | None :: l => drop_all l
  end.
Definition delete_op (p : Z) : M objecter unit :=
  x ← get_op p; drop_all (rev (o_out_handler x));; modify (λ o, with_heap (delete p (ob_heap o)) o).

Definition _finish_op (p : Z) : M objecter unit :=
  x ← get_op p;
  match o_session x with
  | None => lift (Fault NullDeref)
  | Some sid =>
      _session_op_remove sid p;;
      c ← gets ob_checks;
      assert_o (negb (map_count c (o_tid x)));;
      modify (λ o, with_tid_count (ob_last_tid o) (ob_inflight o - 1) (ob_unacked o) (ob_uncommitted o) o);;
      delete_op p
  end.

(** ** Messages *)

Definition _maybe_request_map (e : settings) : M objecter unit :=
  m ← gets ob_map;
  let continuous := _osdmap_full_flag e m || test_flag m CEPH_OSDMAP_PAUSERD || test_flag m CEPH_OSDMAP_PAUSEWR in
  emit (WantMap (if negb (om_epoch m =? 0) then u32 (om_epoch m + 1) else 0) (negb continuous)).

Definition _send_op_account (p : Z) : M objecter unit :=
  x ← get_op p;
  modify (λ o, with_tid_count (ob_last_tid o) (ob_inflight o + 1)
    (if bool_decide (is_Some (o_onack x)) then ob_unacked o + 1 else ob_unacked o)
    (if bool_decide (is_Some (o_oncommit x)) || bool_decide (is_Some (o_oncommit_sync x)) then ob_uncommitted o + 1 else ob_uncommitted o) o).

Definition _prepare_osd_op (p : Z) : M objecter MOSDOp :=
  x ← get_op p;
  m ← gets ob_map;
  let flags := Z.lor (t_flags (o_target x)) CEPH_OSD_FLAG_KNOWN_REDIR in
  let flags := if bool_decide (is_Some (o_oncommit x)) || bool_decide (is_Some (o_oncommit_sync x)) then Z.lor flags CEPH_OSD_FLAG_ONDISK else flags in
  let flags := if bool_decide (is_Some (o_onack x)) then Z.lor flags CEPH_OSD_FLAG_ACK else flags in
  let t := set_paused false (o_target x) in
  put_op p (set_attempts (o_attempts x + 1) (o_map_dne_bound x) (set_target t (o_last_force_resend x) x));;
  mret (MkMOSDOp (o_tid x) (t_target_oid t) (t_target_oloc t) (t_pgid t) (om_epoch m) flags (o_attempts x)).

(** [m] is the message when it has been prepared. *)
Definition _send_op (p : Z) (m : option MOSDOp) : M objecter unit :=
  x ← get_op p;
  m ← match m with
      | Some m => mret m
      | None => assert_o (0 <? o_tid x);; _prepare_osd_op p
      end;
  match o_session x with
  | None => lift (Fault NullDeref)
  | Some sid =>
      s ← get_sess sid;
      match s_con s with
      | None => lift (Fault AssertFailed)
      | Some con =>
          change_op p (set_incarnation (s_incarnation s));;
          emit (Send con (set_mo_tid (o_tid x) m))
      end
  end.

(** ** Pools that may not exist *)

Definition _send_op_map_check (p : Z) : M objecter unit :=
  x ← get_op p;
  c ← gets ob_checks;
  if map_count c (o_tid x) then mret tt
  else modify (with_checks (map_put c (o_tid x) p));; emit (GetVersion (o_tid x)).

Definition _op_cancel_map_check (p : Z) : M objecter unit :=
  x ← get_op p;
  modify (λ o, with_checks (map_del (ob_checks o) (o_tid x)) o).

Definition complete_one (c : option Z) (r : Z) : M objecter unit :=
  match c with Some c => emit (Complete c r) | None => mret tt end.

(** The three contexts of an operation, in the order they are completed. *)
Definition complete_contexts (x : Op) (r : Z) : M objecter unit :=
  complete_one (o_onack x) r;; complete_one (o_oncommit x) r;; complete_one (o_oncommit_sync x) r.

Definition _check_op_pool_dne (p : Z) : M objecter unit :=
  m ← gets ob_map;
  change_op p (λ x, if negb (o_attempts x =? 0) then set_attempts (o_attempts x) (om_epoch m) x else x);;
  x ← get_op p;
  if 0 <? o_map_dne_bound x then
    if o_map_dne_bound x <=? om_epoch m then
      complete_contexts x (- ENOENT);;
      assert_o (bool_decide (is_Some (o_session x)));;
      _finish_op p
    else mret tt
  else _send_op_map_check p.

(** [C_Op_Map_Latest::finish]: the monitors' newest map is [latest]. *)
Definition op_map_latest (tid latest r : Z) : M objecter unit :=
  if (r =? - EAGAIN) || (r =? - ECANCELED) then mret tt else
  c ← gets ob_checks;
  match map_find c tid with
  | None => mret tt
  | Some p =>
      modify (with_checks (map_del c tid));;
      change_op p (λ x, if o_map_dne_bound x =? 0 then set_attempts (o_attempts x) latest x else x);;
      _check_op_pool_dne p
  end.

(** ** Submission *)

Definition on_map {A} (f : M OSDMap A) : M objecter A := λ o,
  '(a, m) ← f (ob_map o); Ok (a, with_map m o).

(** [_calc_target(&op->target, &op->last_force_resend)] *)
Definition calc_op_target (e : settings) (p : Z) : M objecter recalc :=
  x ← get_op p;
  '(r, t, l) ← on_map (_calc_target e (o_target x) (Some (o_last_force_resend x)) false);
  put_op p (set_target t (default (o_last_force_resend x) l) x);;
  mret r.

Definition pause_op (e : settings) (p : Z) : M objecter unit :=
  change_op p (λ x, set_target (set_paused true (o_target x)) (o_last_force_resend x) x);; _maybe_request_map e.

(** Whether the operation is to be sent now; the ones that wait for a pause to end
    and the homeless ones ask for a newer map. *)
Definition may_send (e : settings) (sid p : Z) : M objecter bool :=
  x ← get_op p;
  m ← gets ob_map;
  let write := has_bits (t_flags (o_target x)) CEPH_OSD_FLAG_WRITE in
  let read := has_bits (t_flags (o_target x)) CEPH_OSD_FLAG_READ in
  if write && test_flag m CEPH_OSDMAP_PAUSEWR then pause_op e p;; mret false
  else if read && test_flag m CEPH_OSDMAP_PAUSERD then pause_op e p;; mret false
  else if write && _osdmap_full_flag e m then pause_op e p;; mret false
  else if negb (sid =? -1) then mret true
  else _maybe_request_map e;; mret false.

Definition assign_tid (p : Z) : M objecter unit :=
  x ← get_op p;
  if o_tid x =? 0 then
    t ← gets ob_last_tid;
    modify (λ o, with_tid_count (t + 1) (ob_inflight o) (ob_unacked o) (ob_uncommitted o) o);;
    put_op p (set_tid (t + 1) x)
  else mret tt.

Definition _op_submit (e : settings) (p : Z) : M objecter Z :=
  x ← get_op p;
  assert_o (bool_decide (o_session x = None));;
  r ← calc_op_target e p;
  x ← get_op p;
  sid ← _get_session (t_osd (o_target x));
  _send_op_account p;;
  assert_o (has_bits (t_flags (o_target x)) (Z.lor CEPH_OSD_FLAG_READ CEPH_OSD_FLAG_WRITE));;
  need_send ← may_send e sid p;
  m ← (if (need_send : bool) then m ← _prepare_osd_op p; mret (Some m) else mret None);
  assign_tid p;;
  _session_op_assign sid p;;
  match m with Some m => _send_op p (Some m) | None => mret tt end;;
  x ← get_op p;
  (if bool_decide (r = POOL_DNE) then _send_op_map_check p else mret tt);;
  mret (o_tid x).

(** The caller's new operation. *)
Definition op_submit (e : settings) (p : Z) (x : Op) : M objecter Z := put_op p x;; _op_submit e p.

(** ** Cancellation *)

(** [op_cancel(s, tid, r)] *)
Definition session_op_cancel (sid tid r : Z) : M objecter Z :=
  s ← get_sess sid;
  match map_find (s_ops s) tid with
  | None => mret (- ENOENT)
  | Some p =>
      x ← get_op p;
      complete_contexts x r;;
      put_op p (set_contexts (o_out_handler x) None None None x);;
      _op_cancel_map_check p;;
      _finish_op p;;
      mret 0
  end.

(** The first session that has it, the homeless one last. *)
Definition holder (o : objecter) (tid : Z) : option Z :=
  match find (λ s, map_count (s_ops s.2) tid) (ob_sessions o) with
  | Some s => Some s.1
  | None => if map_count (s_ops (ob_homeless o)) tid then Some (-1) else None
  end.
Definition _op_cancel (tid r : Z) : M objecter Z :=
  o ← gets Datatypes.id;
  match holder o tid with Some sid => session_op_cancel sid tid r | None => mret 0 end.

Fixpoint cancel_all (tids : list Z) (r : Z) : M objecter unit :=
  match tids with
  | [] => mret tt
  | t :: tids => c ← _op_cancel t r; assert_o (c =? 0);; cancel_all tids r
  end.
(** The tids of the writes, session by session. *)
Definition writes_of (h : gmap Z Op) (s : OSDSession) : list Z :=
  (filter (λ x, match h !! x.2 with Some op => has_bits (t_flags (o_target op)) CEPH_OSD_FLAG_WRITE | None => false end = true) (s_ops s)).*1.
Definition op_cancel_writes (r : Z) : M objecter Z :=
  o ← gets Datatypes.id;
  cancel_all (concat ((λ s, writes_of (ob_heap o) s.2) <$> ob_sessions o)) r;;
  m ← gets ob_map; mret (om_epoch m).

(** ** Replies *)

Record MOSDOpReply := MkReply {
  re_source : Z;
  re_tid : Z;
  re_retry_attempt : Z;
  re_result : Z;
  re_ondisk : bool;
  re_redirect : option (object_locator_t * list Z);
  re_rvals : list Z }.  (* of the parts of the operation *)

(** The handlers of the parts; those that are completed are cleared. *)
Fixpoint run_handlers (hs : list (option Z)) (rvals : list Z) : M objecter (list (option Z)) :=
  match hs, rvals with
  | h :: hs, v :: rvals => complete_one h v;; hs ← run_handlers hs rvals; mret (None :: hs)
  | hs, _ => mret hs
  end.

Definition count_unacked (u c : Z) : M objecter unit :=
  modify (λ o, with_tid_count (ob_last_tid o) (ob_inflight o) (ob_unacked o + u) (ob_uncommitted o + c) o).
Definition minus_if (c : option Z) : Z := if bool_decide (is_Some c) then -1 else 0.

(** [request_redirect_t::combine_with_locator], and the flag. *)
Definition redirect_target (loc : object_locator_t) (obj : list Z) (t : op_target_t) : op_target_t :=
  let t := set_object (match obj with [] => t_target_oid t | _ => obj end) loc t in
  OpTarget (Z.lor (t_flags t) CEPH_OSD_FLAG_REDIRECTED) (t_base_oid t) (t_base_oloc t) (t_target_oid t) (t_target_oloc t)
    (t_precalc_pgid t) (t_base_pgid t) (t_pgid t) (t_pg_num t) (t_up t) (t_acting t) (t_up_primary t) (t_acting_primary t) (t_min_size t)
    (t_used_replica t) (t_paused t) (t_osd t).

Definition redirect_op (e : settings) (sid p : Z) (loc : object_locator_t) (obj : list Z) : M objecter unit :=
  x ← get_op p;
  count_unacked (minus_if (o_onack x))
    (if bool_decide (is_Some (o_oncommit x)) || bool_decide (is_Some (o_oncommit_sync x)) then -1 else 0);;
  _session_op_remove sid p;;
  change_op p (set_tid 0);;
  change_op p (λ x, set_target (redirect_target loc obj (o_target x)) (o_last_force_resend x) x);;
  _op_submit e p;;
  mret tt.

(** The operation is sent again under a new tid. *)
Definition resubmit_op (sid p : Z) : M objecter unit :=
  x ← get_op p;
  s ← get_sess sid;
  put_sess sid (set_ops (map_del (s_ops s) (o_tid x)) s);;
  t ← gets ob_last_tid;
  modify (λ o, with_tid_count (t + 1) (ob_inflight o) (ob_unacked o) (ob_uncommitted o) o);;
  put_op p (set_tid (t + 1) x);;
  _send_op p None.

Definition answer_op (p : Z) (m : MOSDOpReply) : M objecter unit :=
  x ← get_op p;
  let rc := re_result m in
  hs ← run_handlers (o_out_handler x) (re_rvals m);
  let safe := re_ondisk m || negb (rc =? 0) in
  count_unacked (minus_if (o_onack x)) (if safe then minus_if (o_oncommit x) + minus_if (o_oncommit_sync x) else 0);;
  (if safe then complete_one (o_oncommit_sync x) rc else mret tt);;
  put_op p (set_contexts hs None (if safe then None else o_oncommit x) (if safe then None else o_oncommit_sync x) x);;
  (if safe || (negb (bool_decide (is_Some (o_oncommit x))) && negb (bool_decide (is_Some (o_oncommit_sync x))))
   then _finish_op p else mret tt);;
  complete_one (o_onack x) rc;;
  (if safe then complete_one (o_oncommit x) rc else mret tt).

Definition handle_osd_op_reply (e : settings) (m : MOSDOpReply) : M objecter unit :=
  o ← gets Datatypes.id;
  match map_find (ob_sessions o) (re_source m) with
  | None => mret tt
  | Some s =>
      match map_find (s_ops s) (re_tid m) with
      | None => mret tt
      | Some p =>
          x ← get_op p;
          if (0 <=? re_retry_attempt m) && negb (re_retry_attempt m =? o_attempts x - 1) then mret tt else
          match re_redirect m with
          | Some (loc, obj) => redirect_op e (re_source m) p loc obj
          | None =>
              if re_result m =? - EAGAIN then resubmit_op (re_source m) p else answer_op p m
          end
      end
  end.

(** ** New maps

    [_scan_requests], [close_session], the loop of [handle_osd_map] that sends
    operations again and [_kick_requests] also do the same for watches and
    commands, which are in tables of their own; here is what they do to the
    operations. *)

Definition mark_resend (p : Z) (need_resend : list (Z * Z)) : M objecter (list (Z * Z)) :=
  x ← get_op p;
  match o_session x with Some sid => _session_op_remove sid p | None => mret tt end;;
  _op_cancel_map_check p;;
  mret (map_put need_resend (o_tid x) p).

Definition scan_one (e : settings) (force_resend force_resend_writes : bool) (p : Z) (need_resend : list (Z * Z)) : M objecter (list (Z * Z)) :=
  r ← calc_op_target e p;
  x ← get_op p;
  match r with
  | NO_ACTION =>
      if negb force_resend && (negb force_resend_writes || negb (has_bits (t_flags (o_target x)) CEPH_OSD_FLAG_WRITE))
      then mret need_resend else mark_resend p need_resend
  | NEED_RESEND => mark_resend p need_resend
  | POOL_DNE => _check_op_pool_dne p;; mret need_resend
  end.
Fixpoint scan_ops (e : settings) (force_resend force_resend_writes : bool) (ops : list (Z * Z)) (need_resend : list (Z * Z)) :
    M objecter (list (Z * Z)) :=
  match ops with
  | [] => mret need_resend
  | (_, p) :: ops => nr ← scan_one e force_resend force_resend_writes p need_resend; scan_ops e force_resend force_resend_writes ops nr
  end.
Definition scan_session (e : settings) (sid : Z) (force_resend force_resend_writes : bool) (need_resend : list (Z * Z)) : M objecter (list (Z * Z)) :=
  s ← get_sess sid; scan_ops e force_resend force_resend_writes (s_ops s) need_resend.

Fixpoint scan_all (e : settings) (sids : list Z) (need_resend : list (Z * Z)) : M objecter (list (Z * Z)) :=
  match sids with [] => mret need_resend | sid :: sids => nr ← scan_session e sid false false need_resend; scan_all e sids nr end.

Fixpoint remove_ops (sid : Z) (ops : list (Z * Z)) : M objecter unit :=
  match ops with [] => mret tt | (_, p) :: ops => _session_op_remove sid p;; remove_ops sid ops end.
Fixpoint assign_ops (sid : Z) (ops : list (Z * Z)) : M objecter unit :=
  match ops with [] => mret tt | (_, p) :: ops => _session_op_assign sid p;; assign_ops sid ops end.

(** The operations go to the homeless session. *)
Definition close_session (sid : Z) : M objecter unit :=
  s ← get_sess sid;
  match s_con s with Some con => emit (MarkDown con) | None => mret tt end;;
  remove_ops sid (s_ops s);;
  modify (λ o, with_sessions (map_del (ob_sessions o) (s_osd s)) (ob_homeless o) o);;
  assign_ops (-1) (s_ops s).

(** Whether the session's OSD is down or has another address. *)
Definition session_stale (m : OSDMap) (s : OSDSession) : res bool :=
  u ← is_up (om_osds m) (s_osd s);
  if negb (u : bool) then Ok true else
  match s_con s with
  | None => Ok false
  | Some con => a ← get_inst m (s_osd s); Ok (negb (bool_decide (con = a)))
  end.

Fixpoint scan_sessions (e : settings) (sids : list Z) (skipped was_full : bool) (need_resend : list (Z * Z)) : M objecter (list (Z * Z)) :=
  match sids with
  | [] => mret need_resend
  | sid :: sids =>
      nr ← scan_session e sid skipped was_full need_resend;
      s ← get_sess sid;
      m ← gets ob_map;
      stale ← lift (session_stale m s);
      (if (stale : bool) then close_session sid else mret tt);;
      scan_sessions e sids skipped was_full nr
  end.

(** The sessions after a new map. *)
Definition check_sessions (e : settings) (skipped was_full : bool) (need_resend : list (Z * Z)) : M objecter (list (Z * Z)) :=
  sids ← gets (λ o, keys (ob_sessions o)); scan_sessions e sids skipped was_full need_resend.

(** After one new map: the homeless operations first, then every session. *)
Definition scan_epoch (e : settings) (skipped was_full : bool) (need_resend : list (Z * Z)) : M objecter (list (Z * Z)) :=
  nr ← scan_session e (-1) skipped was_full need_resend; check_sessions e skipped was_full nr.

(** The incremental maps are decoded. *)
Record MOSDMap := MkMOSDMap {
  mm_fsid : uuid_d;
  mm_incs : list (Z * Incremental);
  mm_maps : list (Z * list Z);
  mm_oldest : Z }.

(** [rbegin()->first] *)
Definition last_key {A} (l : list (Z * A)) : option Z := fst <$> last l.
Definition get_last (m : MOSDMap) : Z :=
  let e := default 0 (last_key (mm_maps m)) in
  match last_key (mm_incs m) with
  | Some i => if (e =? 0) || (e <? i) then i else e
  | None => e
  end.

(** Decoded encodings. *)
Section maps.
Context (decode_map : list Z → OSDMap → res OSDMap) (decode_crush : list Z → res crush_wrapper).

(** The map of epoch [ep], as the message lets it be made from [cur]. *)
Definition map_of (m : MOSDMap) (ep : Z) (cur : OSDMap) : option (res OSDMap) :=
  let full := match map_find (mm_maps m) ep with Some bl => Some (decode_map bl cur) | None => None end in
  if om_epoch cur =? u32 (ep - 1) then
    match map_find (mm_incs m) ep with
    | Some inc => Some ('(_, new) ← apply_incremental decode_map decode_crush inc cur; Ok new)
    | None => full
    end
  else full.

(** [n] bounds the number of turns: the epoch grows with each. *)
Fixpoint epoch_loop (e : settings) (m : MOSDMap) (n : nat) (ep : Z) (skipped was_full : bool) (need_resend : list (Z * Z)) : M objecter (list (Z * Z)) :=
  if get_last m <? ep then mret need_resend else
  match n with
  | O => lift (Fault Diverge)
  | S n =>
      cur ← gets ob_map;
      match map_of m ep cur with
      | Some new =>
          new ← lift new;
          modify (with_map new);;
          let was_full := was_full || _osdmap_full_flag e new in
          nr ← scan_epoch e skipped was_full need_resend;
          assert_o (ep =? om_epoch new);;
          epoch_loop e m n (u32 (ep + 1)) skipped was_full nr
      | None =>
          if mm_oldest m <=? ep then _maybe_request_map e;; mret need_resend
          else epoch_loop e m n (u32 (u32 (mm_oldest m - 1) + 1)) true was_full need_resend
      end
  end.

(** The first map, with the operations of sessions before it is taken and the
    homeless ones after. *)
Definition first_map (e : settings) (m : MOSDMap) : M objecter (list (Z * Z)) :=
  match map_find (mm_maps m) (get_last m) with
  | None => emit (WantMap 0 true);; mret []
  | Some bl =>
      sids ← gets (λ o, keys (ob_sessions o));
      nr ← scan_all e sids [];
      old ← gets ob_map;
      full ← lift (decode_map bl old);
      modify (with_map full);;
      scan_session e (-1) false false nr
  end.
End maps.

Definition _map_session (e : settings) (p : Z) : M objecter Z :=
  x ← get_op p;
  '(_, t, _) ← on_map (_calc_target e (o_target x) None false);
  put_op p (set_target t (o_last_force_resend x) x);;
  _get_session (t_osd t).

(** The contexts are deleted, not completed. *)
Definition _cancel_linger_op (p : Z) : M objecter unit :=
  x ← get_op p;
  let drop c : M objecter unit := match c with Some c => emit (Drop c) | None => mret tt end in
  assert_o (negb (o_should_resend x));;
  drop (o_onack x);; drop (o_oncommit x);; drop (o_oncommit_sync x);;
  _finish_op p.

Definition resend_op (e : settings) (p : Z) : M objecter unit :=
  x ← get_op p;
  sid ← match o_session x with
        | Some sid => mret sid
        | None => sid ← _map_session e p; _session_op_assign sid p;; mret sid
        end;
  x ← get_op p;
  if o_should_resend x then
    if negb (sid =? -1) && negb (t_paused (o_target x)) then _send_op p None else mret tt
  else _cancel_linger_op p.

Fixpoint resend_ops (e : settings) (need_resend : list (Z * Z)) : M objecter unit :=
  match need_resend with [] => mret tt | (_, p) :: nr => resend_op e p;; resend_ops e nr end.

(** Whoever waits for one of the epochs up to [ep]. *)
Fixpoint finish_waiting (ws : list (option Z * Z)) : M objecter unit :=
  match ws with
  | [] => mret tt
  | (Some c, r) :: ws => emit (Complete c r);; finish_waiting ws
  | (None, _) :: _ => lift (Fault NullDeref)
  end.
Fixpoint wake (ep : Z) (w : list (Z * list (option Z * Z))) : M objecter unit :=
  match w with
  | (e, ws) :: w' => if e <=? ep then finish_waiting ws;; modify (with_waiting w');; wake ep w' else mret tt
  | [] => mret tt
  end.

Definition handle_osd_map (decode_map : list Z → OSDMap → res OSDMap) (decode_crush : list Z → res crush_wrapper) (fsid : uuid_d)
    (e : settings) (m : MOSDMap) : M objecter unit :=
  if negb (mm_fsid m =? fsid) then mret tt else
  old ← gets ob_map;
  let paused x := test_flag x CEPH_OSDMAP_PAUSERD || (test_flag x CEPH_OSDMAP_PAUSEWR || _osdmap_full_flag e x) in
  need_resend ←
    (if get_last m <=? om_epoch old then mret []
     else if negb (om_epoch old =? 0)
     then epoch_loop decode_map decode_crush e m (Z.to_nat (get_last m - om_epoch old)) (u32 (om_epoch old + 1)) false (_osdmap_full_flag e old) []
     else first_map decode_map e m);
  new ← gets ob_map;
  (if paused old || paused new || (om_epoch new <? epoch_barrier e) then _maybe_request_map e else mret tt);;
  resend_ops e need_resend;;
  new ← gets ob_map;
  w ← gets ob_waiting;
  wake (om_epoch new) w;;
  w ← gets ob_waiting;
  if is_nil w then mret tt else _maybe_request_map e.

(** [waiting_for_map[epoch].push_back]; then a newer map is asked for. *)
Definition _wait_for_new_map (e : settings) (c : option Z) (epoch err : Z) : M objecter unit :=
  modify (λ o, with_waiting (map_put (ob_waiting o) epoch (default [] (map_find (ob_waiting o) epoch) ++ [(c, err)])) o);;
  _maybe_request_map e.
Definition wait_for_map (e : settings) (epoch c err : Z) : M objecter bool :=
  m ← gets ob_map;
  if epoch <=? om_epoch m then mret true else _wait_for_new_map e (Some c) epoch err;; mret false.
(** The newest version is known; [fin] may be null. *)
Definition _get_latest_version (e : settings) (newest : Z) (fin : option Z) : M objecter unit :=
  m ← gets ob_map;
  if newest <=? om_epoch m then match fin with Some c => emit (Complete c 0) | None => mret tt end
  else _wait_for_new_map e fin newest 0.

(** ** Connections that are reset *)

Definition _reopen_session (sid : Z) : M objecter unit :=
  s ← get_sess sid;
  m ← gets ob_map;
  inst ← lift (get_inst m (s_osd s));
  match s_con s with Some con => emit (MarkDown con) | None => mret tt end;;
  put_sess sid (MkSession (s_osd s) (s_incarnation s + 1) (Some inst) (s_ops s)).

Fixpoint kick_ops (ops : list (Z * Z)) (resend : list (Z * Z)) : M objecter (list (Z * Z)) :=
  match ops with
  | [] => mret resend
  | (_, p) :: ops =>
      x ← get_op p;
      if o_should_resend x then kick_ops ops (if negb (t_paused (o_target x)) then map_put resend (o_tid x) p else resend)
      else _cancel_linger_op p;; kick_ops ops resend
  end.
Fixpoint send_ops (ops : list (Z * Z)) : M objecter unit :=
  match ops with [] => mret tt | (_, p) :: ops => _send_op p None;; send_ops ops end.
Definition _kick_requests (sid : Z) : M objecter unit :=
  s ← get_sess sid; resend ← kick_ops (s_ops s) []; send_ops resend.

Definition ms_handle_reset (e : settings) (addr : entity_addr_t) : M objecter unit :=
  o ← gets Datatypes.id;
  osd ← lift (identify_osd_addr (om_osds (ob_map o)) addr);
  if (0 <=? osd) && map_count (ob_sessions o) osd
  then _reopen_session osd;; _kick_requests osd;; _maybe_request_map e
  else mret tt.

(** ** The end *)

Fixpoint close_all (sids : list Z) : M objecter unit :=
  match sids with [] => mret tt | sid :: sids => close_session sid;; close_all sids end.
Fixpoint forget_ops (ops : list (Z * Z)) : M objecter unit :=
  match ops with [] => mret tt | (_, p) :: ops => _session_op_remove (-1) p;; delete_op p;; forget_ops ops end.
(** The contexts of the operations are not completed. *)
Definition shutdown : M objecter unit :=
  sids ← gets (λ o, keys (ob_sessions o));
  close_all sids;;
  modify (with_checks []);;
  s ← get_sess (-1);
  forget_ops (s_ops s).

(** ** Events *)

Section events.
Context (decode_map : list Z → OSDMap → res OSDMap) (decode_crush : list Z → res crush_wrapper) (fsid : uuid_d) (e : settings).

(** What happens to the Objecter: calls of its client, and messages. *)
Inductive event :=
  | Submit (p : Z) (x : Op)
  | Cancel (tid r : Z)
  | CancelWrites (r : Z)
  | Reply (m : MOSDOpReply)
  | Latest (tid latest r : Z)
  | NewMap (m : MOSDMap)
  | Wait (newest c : Z)
  | Reset (addr : entity_addr_t).

Definition handle (ev : event) : M objecter unit :=
  match ev with
  | Submit p x => op_submit e p x;; mret tt
  | Cancel tid r => _op_cancel tid r;; mret tt
  | CancelWrites r => op_cancel_writes r;; mret tt
  | Reply m => handle_osd_op_reply e m
  | Latest tid latest r => op_map_latest tid latest r
  | NewMap m => handle_osd_map decode_map decode_crush fsid e m
  | Wait newest c => _get_latest_version e newest (Some c)
  | Reset addr => ms_handle_reset e addr
  end.
End events.

(** The constructor, with the map that the Objecter is given. *)
Definition start (m : OSDMap) : objecter := Objecter m ∅ [] (MkSession (-1) 0 None []) 0 [] 0 0 0 0 [] [].
