(* ===== verification/SessionSpec.v ===== *)
(** * The books of the operations in flight

    Every operation is in the session it names, under its tid, and nowhere else;
    every context is pending, completed or dropped, once.  What the steps of the
    handlers do to these books. *)

From stdpp Require Import gmap strings sorting.
From S2P Require Import Prelude CrushTypes StdMap IntervalSet SnapSet Pg.
From S2P Require Import CrushWrapper OsdState OsdMapping OsdMappingSpec OsdIncr.
From S2P Require Import OsdQuery Target Sessions.

Implicit Types (o : objecter) (x y : Op) (p q sid tid : Z) (h : gmap Z Op).

Lemma map_del_new {A} (m : list (Z * A)) k v : ordered m → map_find m k = Some v → m ≡ₚ (k, v) :: map_del m k.
Proof.
  unfold ordered, map_del. induction m as [|[s w] m IH]; simpl; [done|]. intros Ho Hk.
  apply StronglySorted_inv in Ho as [Ho Hs]. rewrite filter_cons. simpl. destruct (Z.eqb_spec s k) as [->|Hn].
  - injection Hk as ->. rewrite decide_False by auto. rewrite filter_all; [done|]. intros [t u] Hin E. simpl in E. subst t.
    apply (Forall_forall _ (keys m)) with (x := k) in Hs; [lia|]. by apply (list_elem_of_fmap_2 fst m (k, u)).
  - rewrite decide_True by done. rewrite (IH Ho Hk) at 1. apply Permutation_swap.
Qed.

(** ** The invariant *)

Definition upd (sa : Z → option OSDSession) sid (v : option OSDSession) : Z → option OSDSession := λ i, if decide (i = sid) then v else sa i.

Record books h (sa : Z → option OSDSession) (n : Z) (c : list (Z * Z)) (last : Z) : Prop := Books {
  bk_session : ∀ sid s, sa sid = Some s → s_osd s = sid ∧ (sid ≠ -1 → is_Some (s_con s)) ∧ ordered (s_ops s);
  bk_in : ∀ sid s tid p, sa sid = Some s →
    map_find (s_ops s) tid = Some p ↔ ∃ x, h !! p = Some x ∧ o_session x = Some sid ∧ o_tid x = tid;
  bk_home : ∀ p x sid, h !! p = Some x → o_session x = Some sid → is_Some (sa sid);
  bk_tids : ∀ p x, h !! p = Some x → 0 <= o_tid x <= last ∧ (is_Some (o_session x) → o_tid x ≠ 0);
  bk_unique : ∀ p q x y, h !! p = Some x → h !! q = Some y → o_tid x = o_tid y → o_tid x ≠ 0 → p = q;
  bk_sorted : ordered c;
  bk_checks : ∀ tid p, map_find c tid = Some p → tid ≠ 0 ∧ ∃ x, h !! p = Some x ∧ o_tid x = tid ∧ o_attempts x = 0 ∧ o_map_dne_bound x = 0;
  bk_last : 0 <= last;
  bk_count : ∃ s, sa (-1) = Some s ∧ n = Z.of_nat (length (s_ops s)) }.

Lemma books_ext h sa sa' n c last : (∀ i, sa i = sa' i) → books h sa n c last → books h sa' n c last.
Proof.
  intros E [H1 H2 H3 H4 H5 H6 H7 H8 (s & Hs & Hn)]. constructor; try done.
  - intros sid t. rewrite <- E. apply H1.
  - intros sid t tid p. rewrite <- E. apply H2.
  - intros p x sid. rewrite <- E. apply H3.
  - exists s. by rewrite <- E.
Qed.

#[export] Instance books_proper h : Proper (pointwise_relation Z eq ==> eq ==> eq ==> eq ==> iff) (books h).
Proof. intros sa sa' E n ? <- c ? <- l ? <-. split; apply books_ext; [done|]. intros i. by rewrite E. Qed.

Definition keyed o : Prop := ordered (ob_sessions o) ∧ ∀ sid, sid ∈ keys (ob_sessions o) → 0 <= sid.
Definition wf o : Prop := keyed o ∧ books (ob_heap o) (session_at o) (ob_num_homeless o) (ob_checks o) (ob_last_tid o).

(** ** Changes of the books *)

Lemma books_put h sa n c last p x y : books h sa n c last → h !! p = Some x →
  o_session y = o_session x → o_tid y = o_tid x →
  (o_attempts y = o_attempts x ∧ o_map_dne_bound y = o_map_dne_bound x ∨ ∀ tid, map_find c tid ≠ Some p) →
  books (<[p := y]> h) sa n c last.
Proof.
  intros [H1 H2 H3 H4 H5 H6 H7 H8 H9] Hp Es Et Hc. constructor; try done.
  - intros sid s tid q Hs. rewrite (H2 sid s tid q Hs). destruct (decide (q = p)) as [->|Hn]; [|by rewrite lookup_insert_ne].
    rewrite lookup_insert_eq, Hp. split; intros (z & [= <-] & ? & ?); [exists y|exists x]; split_and!; congruence.
  - intros q z sid. destruct (decide (q = p)) as [->|Hn]; [|rewrite lookup_insert_ne by done; apply H3].
    rewrite lookup_insert_eq. intros [= <-]. rewrite Es. by apply (H3 p).
  - intros q z. destruct (decide (q = p)) as [->|Hn]; [|rewrite lookup_insert_ne by done; apply H4].
    rewrite lookup_insert_eq. intros [= <-]. rewrite Es, Et. by apply (H4 p).
  - intros q r z w. destruct (decide (q = p)) as [->|Hq], (decide (r = p)) as [->|Hr]; rewrite ?lookup_insert_eq, ?lookup_insert_ne by done; try done.
    + intros [= <-] Hw E E0. rewrite Et in *. by apply (H5 p r x w).
    + intros Hz [= <-] E E0. rewrite Et in *. by apply (H5 q p z x).
    + apply H5.
  - intros tid q E. destruct (H7 tid q E) as (Hn & z & Hz & Ht & Ha & Hb). split; [done|]. destruct (decide (q = p)) as [->|Hq].
    + rewrite Hp in Hz. injection Hz as ->. destruct Hc as [[Ea Eb]|Hc]; [|by apply Hc in E]. exists y. rewrite lookup_insert_eq. split_and!; congruence.
    + exists z. rewrite lookup_insert_ne by done. done.
Qed.

Lemma upd_eq sa sid v : upd sa sid v sid = v.
Proof. unfold upd. by rewrite decide_True. Qed.
Lemma upd_ne sa sid v i : i ≠ sid → upd sa sid v i = sa i.
Proof. intros H. unfold upd. by rewrite decide_False. Qed.

(** Operation [p] enters session [sid], or leaves it. *)
Lemma books_move h sa n c last p x sid s (a b : option Z) l n' : books h sa n c last → h !! p = Some x → sa sid = Some s →
  o_session x = a → o_tid x ≠ 0 → ordered l →
  (a = None ∧ b = Some sid ∨ a = Some sid ∧ b = None) →
  (∀ tid q, map_find l tid = Some q ↔ if decide (tid = o_tid x) then b = Some sid ∧ q = p else map_find (s_ops s) tid = Some q) →
  (sid = -1 → n' = Z.of_nat (length l)) → (sid ≠ -1 → n' = n) →
  books (<[p := set_session b x]> h) (upd sa sid (Some (set_ops l s))) n' c last.
Proof.
  intros [H1 H2 H3 H4 H5 H6 H7 H8 H9] Hp Hs Ex Hx Hl Hab Hf Hn Hn'. constructor; try done.
  - intros i t. unfold upd. destruct (decide (i = sid)) as [->|Hi]; [|apply H1]. intros [= <-]. destruct (H1 sid s Hs) as (? & ? & ?). done.
  - intros i t tid q Ht. destruct (decide (i = sid)) as [->|Hi].
    + rewrite upd_eq in Ht. injection Ht as <-. cbn [s_ops set_ops]. rewrite Hf. destruct (decide (q = p)) as [->|Hq].
      * rewrite lookup_insert_eq. destruct (decide (tid = o_tid x)) as [->|Ht].
        { split; [intros [-> _]; by exists (set_session (Some sid) x)|]. intros (z & [= <-] & ? & _). done. }
        rewrite (H2 sid s tid p Hs), Hp. split; intros (z & [= <-] & ? & Et); by destruct Ht.
      * rewrite lookup_insert_ne by done. destruct (decide (tid = o_tid x)) as [->|Ht]; [|by apply H2].
        split; [by intros [_ ?]|]. intros (z & Hz & _ & Et). destruct Hq. by apply (H5 q p z x); [..|rewrite Et].
    + rewrite upd_ne in Ht by done. rewrite (H2 i t tid q Ht). destruct (decide (q = p)) as [->|Hq]; [|by rewrite lookup_insert_ne].
      rewrite lookup_insert_eq, Hp. split; intros (z & [= <-] & Ez & _); simpl in *; destruct Hab as [[-> ->]|[-> ->]]; congruence.
  - intros q z i. destruct (decide (q = p)) as [->|Hq]; unfold upd; destruct (decide (i = sid)); rewrite ?lookup_insert_eq, ?lookup_insert_ne by done; try done; [|eauto].
    intros [= <-]. simpl. destruct Hab as [[-> ->]|[-> ->]]; [by intros [= ->]|done].
  - intros q z. destruct (decide (q = p)) as [->|Hq]; rewrite ?lookup_insert_eq, ?lookup_insert_ne by done; [|apply H4].
    intros [= <-]. simpl. destruct (H4 p x Hp). done.
  - intros q r z w. destruct (decide (q = p)) as [->|Hq], (decide (r = p)) as [->|Hr]; rewrite ?lookup_insert_eq, ?lookup_insert_ne by done; try done.
    + intros [= <-] Hw. by apply (H5 p r x w).
    + intros Hz [= <-]. by apply (H5 q p z x).
    + apply H5.
  - intros tid q E. destruct (H7 tid q E) as (Hnz & z & Hz & Ht & Ha & Hb). split; [done|]. destruct (decide (q = p)) as [->|Hq].
    + rewrite Hp in Hz. injection Hz as <-. exists (set_session b x). by rewrite lookup_insert_eq.
    + exists z. by rewrite lookup_insert_ne.
  - destruct H9 as (w & Hw & ->). destruct (decide (sid = -1)) as [->|Hne]; [exists (set_ops l s); rewrite upd_eq; split; [done|]; by apply Hn|].
    exists w. rewrite upd_ne by auto. split; [done|]. by apply Hn'.
Qed.

Lemma books_assign h sa n c last p x sid s : books h sa n c last → h !! p = Some x → sa sid = Some s → o_session x = None → o_tid x ≠ 0 →
  books (<[p := set_session (Some sid) x]> h) (upd sa sid (Some (set_ops (map_put (s_ops s) (o_tid x) p) s))) (if sid =? -1 then n + 1 else n) c last.
Proof.
  intros Hb Hp Hs Hx Ht. destruct (bk_session _ _ _ _ _ Hb sid s Hs) as (_ & _ & Ho).
  assert (o_tid x ∉ keys (s_ops s)) as Hk.
  { intros [q Hq]%map_find_in. apply (bk_in _ _ _ _ _ Hb sid s _ q Hs) in Hq as (y & Hy & Ey & Ety).
    assert (q = p) as -> by (apply (bk_unique _ _ _ _ _ Hb q p y x); congruence). congruence. }
  eapply (books_move h sa n c last p x sid s None); eauto.
  - by apply map_put_ordered.
  - intros tid q. rewrite map_find_put by done. destruct (decide (tid = o_tid x)); [|done]. split; [by intros [= ->]|by intros [_ ->]].
  - intros ->. destruct (bk_count _ _ _ _ _ Hb) as (t & Et & ->). rewrite Hs in Et. injection Et as <-.
    rewrite (Permutation_length (map_put_new _ _ p Hk)). simpl. lia.
  - intros Hn. by rewrite (proj2 (Z.eqb_neq sid (-1))).
Qed.

Lemma books_remove h sa n c last p x sid s : books h sa n c last → h !! p = Some x → sa sid = Some s → o_session x = Some sid →
  books (<[p := set_session None x]> h) (upd sa sid (Some (set_ops (map_del (s_ops s) (o_tid x)) s))) (if sid =? -1 then n + -1 else n) c last.
Proof.
  intros Hb Hp Hs Hx. destruct (bk_session _ _ _ _ _ Hb sid s Hs) as (_ & _ & Ho).
  assert (map_find (s_ops s) (o_tid x) = Some p) as Hf by (apply (bk_in _ _ _ _ _ Hb sid s _ p Hs); eauto).
  destruct (bk_tids _ _ _ _ _ Hb p x Hp) as [_ Ht]. eapply (books_move h sa n c last p x sid s (Some sid)); eauto.
  - by apply map_del_ordered.
  - intros tid q. rewrite map_find_del. destruct (decide (tid = o_tid x)); [|done]. split; [done|by intros [? _]].
  - intros ->. destruct (bk_count _ _ _ _ _ Hb) as (t & Et & ->). rewrite Hs in Et. injection Et as <-.
    rewrite (Permutation_length (map_del_new _ _ _ Ho Hf)). simpl. lia.
  - intros Hn. by rewrite (proj2 (Z.eqb_neq sid (-1))).
Qed.

(** A new operation; one that is done with. *)
Lemma books_insert h sa n c last p x : books h sa n c last → h !! p = None → o_session x = None → o_tid x = 0 → books (<[p := x]> h) sa n c last.
Proof.
  intros [H1 H2 H3 H4 H5 H6 H7 H8 H9] Hp Hx Ht. constructor; try done.
  - intros sid s tid q Hs. rewrite (H2 sid s tid q Hs). destruct (decide (q = p)) as [->|Hq]; [|by rewrite lookup_insert_ne].
    rewrite lookup_insert_eq, Hp. split; [by intros (z & [=] & _)|]. intros (z & [= <-] & Ez & _). congruence.
  - intros q z i. destruct (decide (q = p)) as [->|Hq]; rewrite ?lookup_insert_eq, ?lookup_insert_ne by done; [|apply H3]. intros [= <-]. by rewrite Hx.
  - intros q z. destruct (decide (q = p)) as [->|Hq]; rewrite ?lookup_insert_eq, ?lookup_insert_ne by done; [|apply H4].
    intros [= <-]. rewrite Hx, Ht. split; [lia|]. by intros [? [=]].
  - intros q r z w. destruct (decide (q = p)) as [->|Hq], (decide (r = p)) as [->|Hr]; rewrite ?lookup_insert_eq, ?lookup_insert_ne by done; try done.
    + intros [= <-] _ _ E. done.
    + intros _ [= <-] E E0. congruence.
    + apply H5.
  - intros tid q E. destruct (H7 tid q E) as (Hn & z & Hz & Hr). split; [done|]. exists z.
    rewrite lookup_insert_ne; [done|]. intros ->. congruence.
Qed.

Lemma books_delete h sa n c last p x : books h sa n c last → h !! p = Some x → o_session x = None → (∀ tid, map_find c tid ≠ Some p) →
  books (delete p h) sa n c last.
Proof.
  intros [H1 H2 H3 H4 H5 H6 H7 H8 H9] Hp Hx Hc. constructor; try done.
  - intros sid s tid q Hs. rewrite (H2 sid s tid q Hs). destruct (decide (q = p)) as [->|Hq]; [|by rewrite lookup_delete_ne].
    rewrite lookup_delete_eq, Hp. split; [intros (z & [= <-] & Ez & _); congruence|by intros (z & [=] & _)].
  - intros q z i [_ Hq]%lookup_delete_Some. by apply (H3 q).
  - intros q z [_ Hq]%lookup_delete_Some. by apply (H4 q).
  - intros q r z w [_ Hq]%lookup_delete_Some [_ Hr]%lookup_delete_Some. by apply (H5 q r).
  - intros tid q E. destruct (H7 tid q E) as (Hn & z & Hz & Hr). split; [done|]. exists z.
    rewrite lookup_delete_ne; [done|]. intros ->. by apply Hc in E.
Qed.

(** A new tid; one that is taken back for an operation that is nowhere. *)
Lemma books_tid h sa n c last p x : books h sa n c last → h !! p = Some x → o_session x = None → o_tid x = 0 →
  books (<[p := set_tid (last + 1) x]> h) sa n c (last + 1).
Proof.
  intros [H1 H2 H3 H4 H5 H6 H7 H8 H9] Hp Hx Ht. constructor; try done; [..|lia].
  - intros sid s tid q Hs. rewrite (H2 sid s tid q Hs). destruct (decide (q = p)) as [->|Hn]; [|by rewrite lookup_insert_ne].
    rewrite lookup_insert_eq, Hp. split; intros (z & [= <-] & Ez & _); simpl in *; congruence.
  - intros q z i. destruct (decide (q = p)) as [->|Hq]; rewrite ?lookup_insert_eq, ?lookup_insert_ne by done; [|apply H3]. intros [= <-]. simpl. congruence.
  - intros q z. destruct (decide (q = p)) as [->|Hq]; rewrite ?lookup_insert_eq, ?lookup_insert_ne by done; [intros [= <-]; simpl; lia|].
    intros Hz. destruct (H4 q z Hz). split; [lia|done].
  - intros q r z w. destruct (decide (q = p)) as [->|Hq], (decide (r = p)) as [->|Hr]; rewrite ?lookup_insert_eq, ?lookup_insert_ne by done; try done.
    + intros [= <-] Hw E _. simpl in E. destruct (H4 r w Hw). lia.
    + intros Hz [= <-] E _. simpl in E. destruct (H4 q z Hz). lia.
    + apply H5.
  - intros tid q E. destruct (H7 tid q E) as (Hn & z & Hz & Hr). split; [done|]. exists z.
    rewrite lookup_insert_ne; [done|]. intros ->. destruct Hr as [<- _]. congruence.
Qed.

Lemma books_untid h sa n c last p x : books h sa n c last → h !! p = Some x → o_session x = None → (∀ tid, map_find c tid ≠ Some p) →
  books (<[p := set_tid 0 x]> h) sa n c last.
Proof.
  intros Hb Hp Hx Hc. rewrite <- insert_delete_eq. apply books_insert; [by eapply books_delete|apply lookup_delete_eq|done|done].
Qed.

(** Sessions. *)
Lemma books_open h sa n c last sid s : books h sa n c last → sa sid = None → s_osd s = sid → is_Some (s_con s) → s_ops s = [] →
  books h (upd sa sid (Some s)) n c last.
Proof.
  intros [H1 H2 H3 H4 H5 H6 H7 H8 H9] Hs Es Ec Eo. constructor; try done.
  - intros i t. unfold upd. destruct (decide (i = sid)) as [->|Hi]; [|apply H1]. intros [= <-]. rewrite Eo. split_and!; try done. constructor.
  - intros i t tid q. destruct (decide (i = sid)) as [->|Hi]; [|rewrite upd_ne by done; apply H2].
    rewrite upd_eq. intros [= <-]. rewrite Eo. simpl. split; [done|]. intros (z & Hz & Ez & _). destruct (H3 q z sid Hz Ez). congruence.
  - intros q z i Hz Ez. unfold upd. destruct (decide (i = sid)); [done|]. by apply (H3 q z).
  - destruct H9 as (w & Hw & Hn). exists w. split; [|done]. rewrite upd_ne; [done|]. congruence.
Qed.

Lemma books_reopen h sa n c last sid s s' : books h sa n c last → sa sid = Some s → s_osd s' = sid → is_Some (s_con s') → s_ops s' = s_ops s →
  books h (upd sa sid (Some s')) n c last.
Proof.
  intros [H1 H2 H3 H4 H5 H6 H7 H8 H9] Hs Es Ec Eo. constructor; try done.
  - intros i t. unfold upd. destruct (decide (i = sid)) as [->|Hi]; [|apply H1]. intros [= <-]. rewrite Eo. destruct (H1 sid s Hs) as (_ & _ & ?). done.
  - intros i t tid q. destruct (decide (i = sid)) as [->|Hi]; [|rewrite upd_ne by done; apply H2]. rewrite upd_eq. intros [= <-]. rewrite Eo. by apply H2.
  - intros q z i Hz Ez. unfold upd. destruct (decide (i = sid)); [done|]. by apply (H3 q z).
  - destruct H9 as (w & Hw & Hn). destruct (decide (sid = -1)) as [->|Hne]; [|exists w; by rewrite upd_ne by auto].
    exists s'. rewrite upd_eq. split; [done|]. rewrite Hs in Hw. injection Hw as <-. by rewrite Eo.
Qed.

Lemma books_close h sa n c last sid s : books h sa n c last → sa sid = Some s → sid ≠ -1 → s_ops s = [] → books h (upd sa sid None) n c last.
Proof.
  intros [H1 H2 H3 H4 H5 H6 H7 H8 H9] Hs Hsid Eo. constructor; try done.
  - intros i t. unfold upd. destruct (decide (i = sid)); [done|]. apply H1.
  - intros i t tid q. unfold upd. destruct (decide (i = sid)); [done|]. apply H2.
  - intros q z i Hz Ez. unfold upd. destruct (decide (i = sid)) as [->|Hi]; [|by apply (H3 q z)].
    assert (map_find (s_ops s) (o_tid z) = Some q) as E by (apply (H2 sid s _ q Hs); eauto). by rewrite Eo in E.
  - destruct H9 as (w & Hw & Hn). exists w. by rewrite upd_ne.
Qed.

(** Checks with the monitors. *)
Lemma books_ask h sa n c last p x : books h sa n c last → h !! p = Some x → o_tid x ≠ 0 → o_attempts x = 0 → o_map_dne_bound x = 0 →
  books h sa n (map_put c (o_tid x) p) last.
Proof.
  intros [H1 H2 H3 H4 H5 H6 H7 H8 H9] Hp Ht Ha Hb. constructor; try done; [by apply map_put_ordered|].
  intros tid q. rewrite map_find_put by done. destruct (decide (tid = o_tid x)) as [->|Hn]; [|apply H7]. intros [= <-]. split; [done|]. by exists x.
Qed.

Lemma books_answered h sa n c last tid : books h sa n c last → books h sa n (map_del c tid) last.
Proof.
  intros [H1 H2 H3 H4 H5 H6 H7 H8 H9]. constructor; try done; [by apply map_del_ordered|].
  intros t q. rewrite map_find_del. destruct (decide (t = tid)); [done|]. apply H7.
Qed.

Lemma books_unchecked h sa n c last p x : books h sa n c last → h !! p = Some x → map_find c (o_tid x) = None → ∀ tid, map_find c tid ≠ Some p.
Proof. intros Hb Hp Hn tid E. destruct (bk_checks _ _ _ _ _ Hb _ _ E) as (_ & y & Hy & Ht & _). congruence. Qed.

Lemma books_sent_unchecked h sa n c last p x : books h sa n c last → h !! p = Some x → o_attempts x ≠ 0 → map_find c (o_tid x) = None.
Proof.
  intros Hb Hp Ha. destruct (map_find c (o_tid x)) as [q|] eqn:E; [|done]. destruct (bk_checks _ _ _ _ _ Hb _ _ E) as (Hn & y & Hy & Ht & Hay & _).
  assert (q = p) as -> by (apply (bk_unique _ _ _ _ _ Hb q p y x); congruence). congruence.
Qed.

(** ** Steps *)

Section steps.
Context {B : Type} (Q : B → objecter → Prop).

Lemma wp_get_op p x (k : Op → M objecter B) o : ob_heap o !! p = Some x → wp (k x) o Q → wp (get_op p ≫= k) o Q.
Proof. intros Hp. apply wp_bind_eq. unfold get_op. by rewrite Hp. Qed.
Lemma wp_modify f (k : unit → M objecter B) o : wp (k tt) (f o) Q → wp (modify f ≫= k) o Q.
Proof. by apply wp_bind_eq. Qed.
Lemma wp_gets {A} (f : objecter → A) (k : A → M objecter B) o : wp (k (f o)) o Q → wp (gets f ≫= k) o Q.
Proof. by apply wp_bind_eq. Qed.
Lemma wp_assert (b : bool) (k : unit → M objecter B) o : b = true → wp (k tt) o Q → wp (assert_o b ≫= k) o Q.
Proof. intros ->. by apply wp_bind_eq. Qed.
Lemma wp_get_sess sid s (k : OSDSession → M objecter B) o : session_at o sid = Some s → wp (k s) o Q → wp (get_sess sid ≫= k) o Q.
Proof. intros Hs. apply wp_bind_eq. unfold get_sess. by rewrite Hs. Qed.
Lemma wp_emit (v : output) (k : unit → M objecter B) o : wp (k tt) (with_out (ob_out o ++ [v]) o) Q → wp (emit v ≫= k) o Q.
Proof. by apply wp_bind_eq. Qed.
Lemma wp_put_op p x (k : unit → M objecter B) o : wp (k tt) (with_heap (<[p := x]> (ob_heap o)) o) Q → wp (put_op p x ≫= k) o Q.
Proof. by apply wp_bind_eq. Qed.
End steps.

Definition sess_put (sid : Z) (s : OSDSession) (o : objecter) : objecter :=
  if sid =? -1 then with_sessions (ob_sessions o) s o else with_sessions (map_put (ob_sessions o) sid s) (ob_homeless o) o.

Lemma wp_put_sess {B} (Q : B → objecter → Prop) sid s (k : unit → M objecter B) o : wp (k tt) (sess_put sid s o) Q → wp (put_sess sid s ≫= k) o Q.
Proof. by apply wp_bind_eq. Qed.

Lemma sess_put_rest sid s o : let o' := sess_put sid s o in
  ob_map o' = ob_map o ∧ ob_heap o' = ob_heap o ∧ ob_num_homeless o' = ob_num_homeless o ∧ ob_checks o' = ob_checks o ∧ ob_last_tid o' = ob_last_tid o ∧
  ob_inflight o' = ob_inflight o ∧ ob_unacked o' = ob_unacked o ∧ ob_uncommitted o' = ob_uncommitted o ∧ ob_waiting o' = ob_waiting o ∧ ob_out o' = ob_out o.
Proof. unfold sess_put. by destruct (sid =? -1). Qed.

Lemma session_at_put o sid s i : keyed o → session_at (sess_put sid s o) i = upd (session_at o) sid (Some s) i.
Proof.
  intros [Ho _]. unfold session_at, sess_put, upd. destruct (Z.eqb_spec sid (-1)) as [->|Hs].
  - simpl. destruct (Z.eqb_spec i (-1)) as [->|Hi]; [by rewrite decide_True|]. by rewrite decide_False.
  - simpl. destruct (Z.eqb_spec i (-1)) as [->|Hi]; [by rewrite decide_False by auto|]. by rewrite map_find_put.
Qed.

Lemma keyed_put o sid s : keyed o → -1 <= sid → keyed (sess_put sid s o).
Proof.
  intros [Ho Hk] Hs. unfold sess_put. destruct (Z.eqb_spec sid (-1)) as [->|Hn]; [by split|]. split; [by apply map_put_ordered|].
  simpl. intros i [->|Hi]%map_put_keys; [lia|auto].
Qed.

Lemma session_at_key o sid s : keyed o → session_at o sid = Some s → -1 <= sid.
Proof.
  intros [_ Hk]. unfold session_at. destruct (Z.eqb_spec sid (-1)) as [->|Hn]; [lia|]. intros Hs.
  assert (0 <= sid); [|lia]. apply Hk, map_find_in. eauto.
Qed.

(** What moving an operation between sessions leaves alone; [n] operations more
    are in flight, and [l] has been put out. *)
Record moved (n : Z) (l : list output) (o o' : objecter) : Prop := Moved {
  mv_map : ob_map o' = ob_map o;
  mv_checks : ob_checks o' = ob_checks o;
  mv_last : ob_last_tid o' = ob_last_tid o;
  mv_inflight : ob_inflight o' = ob_inflight o + n;
  mv_waiting : ob_waiting o' = ob_waiting o;
  mv_out : ob_out o' = ob_out o ++ l;
  mv_con : ∀ i, s_con <$> session_at o' i = s_con <$> session_at o i }.
Abbreviation same := (moved 0 []).

Lemma moved_trans n m k l o1 o2 o3 : moved n k o1 o2 → moved m l o2 o3 → moved (n + m) (k ++ l) o1 o3.
Proof. intros [? ? ? H1 ? H2 ?] [? ? ? H3 ? H4 ?]. constructor; try congruence; [by rewrite H3, H1, Z.add_assoc|by rewrite H4, H2, app_assoc]. Qed.

Lemma moved_exists n l o o' i : moved n l o o' → is_Some (session_at o i) → is_Some (session_at o' i).
Proof. intros H. rewrite <- !(fmap_is_Some s_con). by rewrite (mv_con _ _ _ _ H). Qed.

Lemma con_upd (sa : Z → option OSDSession) sid s l i : sa sid = Some s → s_con <$> upd sa sid (Some (set_ops l s)) i = s_con <$> sa i.
Proof. intros Hs. unfold upd. destruct (decide (i = sid)) as [->|Hn]; [by rewrite Hs|done]. Qed.

(** The end of both moves. *)
Lemma move_end o1 o h n' sid s (m : Z) l : ob_sessions o1 = ob_sessions o ∧ ob_homeless o1 = ob_homeless o → keyed o → session_at o sid = Some s → s_osd s = sid →
  ob_heap o1 = h → ob_map o1 = ob_map o → ob_checks o1 = ob_checks o → ob_last_tid o1 = ob_last_tid o → ob_inflight o1 = ob_inflight o →
  ob_waiting o1 = ob_waiting o → ob_out o1 = ob_out o → ob_num_homeless o1 = n' →
  books h (upd (session_at o) sid (Some (set_ops l s))) n' (ob_checks o) (ob_last_tid o) →
  wf (sess_put sid (set_ops l s) o1) ∧ same o (sess_put sid (set_ops l s) o1) ∧ ob_heap (sess_put sid (set_ops l s) o1) = h.
Proof.
  intros [Es Eh] Hk Hs Esid Ehp Em Ec El Ei Ew Eo En Hb.
  assert (∀ i, session_at o1 i = session_at o i) as Ess by (intros i; unfold session_at; by rewrite Es, Eh).
  assert (keyed o1) as Hk1 by (unfold keyed; by rewrite Es).
  destruct (sess_put_rest sid (set_ops l s) o1) as (E1 & E2 & E3 & E4 & E5 & E6 & E7 & E8 & E9 & E10).
  pose proof (session_at_put o1 sid (set_ops l s)) as Hat.
  assert (∀ i, session_at (sess_put sid (set_ops l s) o1) i = upd (session_at o) sid (Some (set_ops l s)) i) as Hat'.
  { intros i. rewrite Hat by done. unfold upd. by rewrite Ess. }
  split; [split|split].
  - apply keyed_put; [done|]. by apply (session_at_key o sid s).
  - rewrite E2, E3, E4, E5, Ehp, En, Ec, El. eapply books_ext; [intros i; symmetry; apply Hat'|done].
  - constructor; try congruence; [rewrite E6; lia|by rewrite E10, Eo, app_nil_r|].
    intros i. rewrite Hat'. by apply con_upd.
  - by rewrite E2.
Qed.

Lemma count_homeless_ok s n o : count_homeless s n o = Ok (tt, if is_homeless s then with_num_homeless (ob_num_homeless o + n) o else o).
Proof. unfold count_homeless. by destruct (is_homeless s). Qed.

Lemma sess_put_num sid s n o : with_num_homeless n (sess_put sid s o) = sess_put sid s (with_num_homeless n o).
Proof. unfold sess_put. by destruct (sid =? -1). Qed.

Lemma assign_ok o sid p x : wf o → ob_heap o !! p = Some x → o_session x = None → o_tid x ≠ 0 → is_Some (session_at o sid) →
  wp (_session_op_assign sid p) o (λ _ o', wf o' ∧ same o o' ∧ ob_heap o' = <[p := set_session (Some sid) x]> (ob_heap o)).
Proof.
  intros [Hk Hb] Hp Hx Ht [s Hs]. unfold _session_op_assign. apply (wp_get_op _ p x); [done|].
  apply wp_assert; [by apply bool_decide_eq_true|]. apply wp_assert; [by apply negb_true_iff, Z.eqb_neq|].
  apply wp_put_op. eapply (wp_get_sess _ sid s); [done|]. apply wp_put_sess.
  destruct (bk_session _ _ _ _ _ Hb sid s Hs) as (Esid & _). unfold wp. rewrite count_homeless_ok.
  pose proof (books_assign _ _ _ _ _ p x sid s Hb Hp Hs Hx Ht) as Hb'. unfold is_homeless. simpl. rewrite Esid.
  destruct (sid =? -1); [rewrite sess_put_num|]; eapply (move_end _ o); try done.
  destruct (sess_put_rest sid (set_ops (map_put (s_ops s) (o_tid x) p) s) (with_heap (<[p:=set_session (Some sid) x]> (ob_heap o)) o)) as (_ & _ & -> & _). done.
Qed.

Lemma remove_ok o sid p x : wf o → ob_heap o !! p = Some x → o_session x = Some sid →
  wp (_session_op_remove sid p) o (λ _ o', wf o' ∧ same o o' ∧ ob_heap o' = <[p := set_session None x]> (ob_heap o)).
Proof.
  intros [Hk Hb] Hp Hx. destruct (bk_home _ _ _ _ _ Hb p x sid Hp Hx) as [s Hs]. unfold _session_op_remove. apply (wp_get_op _ p x); [done|].
  apply wp_assert; [by apply bool_decide_eq_true|]. eapply (wp_get_sess _ sid s); [done|].
  eapply wp_bind_eq; [apply count_homeless_ok|]. apply wp_put_sess.
  destruct (bk_session _ _ _ _ _ Hb sid s Hs) as (Esid & _). unfold wp, put_op, modify, rwp.
  pose proof (books_remove _ _ _ _ _ p x sid s Hb Hp Hs Hx) as Hb'. unfold is_homeless. rewrite Esid.
  assert (∀ h o1 l, with_heap h (sess_put sid (set_ops l s) o1) = sess_put sid (set_ops l s) (with_heap h o1)) as E by (intros; unfold sess_put; by destruct (sid =? -1)).
  rewrite E. destruct (sid =? -1); eapply (move_end _ o); try done.
  all: unfold sess_put; by destruct (sid =? -1).
Qed.

(** ** Contexts *)

Definition contexts x : list Z := omap id (rev (o_out_handler x)) ++ omap id [o_onack x; o_oncommit x; o_oncommit_sync x].
Definition pending h : list Z := concat ((λ e : Z * Op, contexts e.2) <$> map_to_list h).
Definition asleep (w : list (Z * list (option Z * Z))) : list Z := concat ((λ e : Z * list (option Z * Z), omap (λ w, w.1) e.2) <$> w).
Definition over (v : output) : option Z := match v with Complete c _ | Drop c => Some c | _ => None end.
(** Every context, wherever it is. *)
Definition bag o : list Z := omap over (ob_out o) ++ pending (ob_heap o) ++ asleep (ob_waiting o).

Lemma pending_delete h p x : h !! p = Some x → pending h ≡ₚ contexts x ++ pending (delete p h).
Proof. intros Hp. unfold pending. by rewrite <- (map_to_list_delete h p x Hp). Qed.

Lemma pending_insert h p y : h !! p = None → pending (<[p := y]> h) ≡ₚ contexts y ++ pending h.
Proof. intros Hp. unfold pending. by rewrite (map_to_list_insert h p y Hp). Qed.

Lemma pending_put h p x y l : h !! p = Some x → contexts x ≡ₚ l ++ contexts y → pending h ≡ₚ l ++ pending (<[p := y]> h).
Proof.
  intros Hp E. rewrite (pending_delete h p x Hp), <- insert_delete_eq, pending_insert by apply lookup_delete_eq. by rewrite E, app_assoc.
Qed.

Lemma pending_same h p x y : h !! p = Some x → contexts y = contexts x → pending (<[p := y]> h) ≡ₚ pending h.
Proof. intros Hp E. by rewrite (pending_put h p x y []) by (done || by rewrite E). Qed.

(** What is put out comes from what was pending. *)
Lemma bag_step o o' l : ob_out o' = ob_out o ++ l → ob_waiting o' = ob_waiting o → pending (ob_heap o) ≡ₚ omap over l ++ pending (ob_heap o') → bag o' ≡ₚ bag o.
Proof. intros E1 E2 E3. unfold bag. by rewrite E1, E2, E3, omap_app, <- !app_assoc. Qed.

(** ** Finished operations *)

Definition drops x : list output := Drop <$> omap id (rev (o_out_handler x)).

Lemma over_drops (l : list Z) : omap over (Drop <$> l) = l.
Proof. induction l as [|c l IH]; [done|]. change (c :: omap over (Drop <$> l) = c :: l). by rewrite IH. Qed.

Lemma with_out_nil o : with_out (ob_out o ++ []) o = o.
Proof. rewrite app_nil_r. by destruct o. Qed.

Lemma drop_all_ok l : ∀ o, drop_all l o = Ok (tt, with_out (ob_out o ++ (Drop <$> omap id l)) o).
Proof.
  induction l as [|[c|] l IH]; intros o; simpl; [by rewrite with_out_nil| |apply IH].
  unfold mbind, M_bind, emit, modify. rewrite IH. simpl. by rewrite <- app_assoc.
Qed.

Lemma delete_op_ok o p x : ob_heap o !! p = Some x →
  delete_op p o = Ok (tt, with_heap (delete p (ob_heap o)) (with_out (ob_out o ++ drops x) o)).
Proof. intros Hp. unfold delete_op, get_op, mbind, M_bind. by rewrite Hp, drop_all_ok. Qed.

Lemma finish_ok o sid p x : wf o → ob_heap o !! p = Some x → o_session x = Some sid → map_find (ob_checks o) (o_tid x) = None →
  wp (_finish_op p) o (λ _ o', wf o' ∧ moved (-1) (drops x) o o' ∧ ob_heap o' = delete p (ob_heap o)).
Proof.
  intros Hw Hp Hx Hc. unfold _finish_op. apply (wp_get_op _ p x); [done|]. rewrite Hx.
  eapply wp_bind_mono; [by apply (remove_ok o sid p x)|]. intros [] o1 ([Hk Hb] & Hm & Hh).
  apply wp_gets. apply wp_assert.
  { rewrite (mv_checks _ _ _ _ Hm). unfold map_count. by rewrite Hc. }
  apply wp_modify. unfold wp. erewrite delete_op_ok; [|simpl; rewrite Hh; apply lookup_insert_eq]. unfold rwp.
  assert (ob_heap o1 !! p = Some (set_session None x)) as Hp1 by (by rewrite Hh, lookup_insert_eq).
  split; [|split].
  - split; [done|]. simpl. eapply (books_delete _ _ _ _ _ p); [done|done|done|]. eapply books_unchecked; [done..|]. simpl. by rewrite (mv_checks _ _ _ _ Hm).
  - destruct Hm. constructor; simpl; try done; [lia|]. rewrite mv_out0. by rewrite app_nil_r.
  - simpl. by rewrite Hh, delete_insert_eq.
Qed.
