(* ===== verification/SessionProps.v ===== *)
(** * The operations in flight through the handlers (src/osdc/Objecter.cc)

    Submission, replies, cancellation, the test whether a pool exists, new maps
    and resets: none of them faults, each keeps the books, and every context of
    an operation is completed or dropped exactly once. *)

From stdpp Require Import gmap strings sorting.
From S2P Require Import Prelude CrushTypes StdMap IntervalSet SnapSet Pg.
From S2P Require Import CrushWrapper OsdState OsdMapping OsdMappingSpec OsdIncr.
From S2P Require Import OsdQuery Target Sessions SessionSpec.

Implicit Types (o : objecter) (x y : Op) (p q sid tid r : Z) (h : gmap Z Op).

(** What the Objecter relies on of the calculation of targets: on a good map it
    succeeds for a good target, which it leaves one, and directs it nowhere or at
    an OSD that is up. *)
Class Targets (e : settings) (gm : OSDMap → Prop) (gt : op_target_t → Prop) : Prop := {
  tg_osds : ∀ m, gm m → osds_wf (om_osds m);
  tg_flags : ∀ t, gt t → has_bits (t_flags t) (Z.lor CEPH_OSD_FLAG_READ CEPH_OSD_FLAG_WRITE) = true;
  tg_paused : ∀ t b, gt t → gt (set_paused b t);
  tg_first : ∀ m i, gm m → om_epoch m = 0 → up_b (om_osds m) i = false;
  tg_epoch : ∀ m, gm m → 0 <= om_epoch m;
  tg_calc : ∀ m t lfr, gm m → gt t →
    wp (_calc_target e t lfr false) m (λ '(r, t', _) m',
      gm m' ∧ om_osds m' = om_osds m ∧ om_epoch m' = om_epoch m ∧ gt t' ∧
      (t_osd t' = -1 ∨ up_b (om_osds m) (t_osd t') = true) ∧ (r = POOL_DNE → t_osd t' = -1) ∧
      (r = NEED_RESEND ∨ t_paused t' = t_paused t)) }.

(** ** Operations that end *)

Definition completes x r : list output := (λ c, Complete c r) <$> omap id [o_onack x; o_oncommit x; o_oncommit_sync x].

Lemma complete_contexts_ok x r o : complete_contexts x r o = Ok (tt, with_out (ob_out o ++ completes x r) o).
Proof.
  unfold complete_contexts, completes, complete_one, mbind, M_bind, emit, modify, mret, M_ret.
  destruct (o_onack x), (o_oncommit x), (o_oncommit_sync x); simpl; rewrite <- ?app_assoc, ?app_nil_r; by destruct o.
Qed.

(** Operation [p] is gone, and [l] has been put out. *)
Record ended p (l : list output) o o' : Prop := Ended {
  en_wf : wf o';
  en_heap : ob_heap o' = delete p (ob_heap o);
  en_out : ob_out o' = ob_out o ++ l;
  en_map : ob_map o' = ob_map o;
  en_waiting : ob_waiting o' = ob_waiting o;
  en_inflight : ob_inflight o' = ob_inflight o - 1;
  en_last : ob_last_tid o' = ob_last_tid o;
  en_con : ∀ i, s_con <$> session_at o' i = s_con <$> session_at o i;
  en_checks : ∀ t q, q ≠ p → map_find (ob_checks o') t = Some q ↔ map_find (ob_checks o) t = Some q }.

Lemma wf_put o p x y : wf o → ob_heap o !! p = Some x → o_session y = o_session x → o_tid y = o_tid x →
  (o_attempts y = o_attempts x ∧ o_map_dne_bound y = o_map_dne_bound x ∨ map_find (ob_checks o) (o_tid x) = None) →
  wf (with_heap (<[p := y]> (ob_heap o)) o).
Proof.
  intros [Hk Hb] Hp Es Et Hc. split; [done|]. apply (books_put _ _ _ _ _ p x); try done.
  destruct Hc as [?|Hc]; [by left|]. right. by eapply books_unchecked.
Qed.

Lemma cancel_end o sid p x r s : wf o → ob_heap o !! p = Some x → o_session x = Some sid → session_at o sid = Some s →
  wp (session_op_cancel sid (o_tid x) r) o (λ c o', c = 0 ∧ ended p (completes x r ++ drops x) o o').
Proof.
  intros Hw Hp Hx Hs. unfold session_op_cancel. apply (wp_get_sess _ sid s); [done|].
  destruct Hw as [Hk Hb]. rewrite (proj2 (bk_in _ _ _ _ _ Hb sid s (o_tid x) p Hs)) by eauto.
  apply (wp_get_op _ p x); [done|]. eapply wp_bind_eq; [apply complete_contexts_ok|]. apply wp_put_op.
  set (y := set_contexts _ _ _ _ x). set (o1 := with_heap _ _).
  assert (wf o1) as Hw1 by (apply (wf_put (with_out _ o) p x y); [by split|done..|by left]).
  assert (ob_heap o1 !! p = Some y) as Hp1 by apply lookup_insert_eq.
  unfold _op_cancel_map_check.
  apply wp_bind, (wp_get_op _ p y); [done|]. unfold modify at 1, wp at 1, rwp at 1.
  set (o2 := with_checks _ o1). assert (wf o2) as Hw2 by (destruct Hw1 as [? H]; split; [done|]; by apply (books_answered _ _ _ _ _ (o_tid y)) in H).
  eapply wp_bind_mono; [apply (finish_ok o2 sid p y); [done..|simpl; rewrite map_find_del; by rewrite decide_True]|].
  intros [] o3 (Hw3 & Hm & Hh). split; [done|]. destruct Hm. constructor; try done; simpl in *.
  - by rewrite Hh, delete_insert_eq.
  - rewrite mv_out. by rewrite <- app_assoc.
  - intros t q Hq. rewrite mv_checks, map_find_del. destruct (decide (t = o_tid x)) as [->|Ht]; [|done].
    split; [done|]. intros E. destruct (bk_checks _ _ _ _ _ Hb _ _ E) as (Hn & z & Hz & Ht & _).
    destruct Hq. apply (bk_unique _ _ _ _ _ Hb q p z x); congruence.
Qed.

Lemma omap_over_completes x r : omap over (completes x r) = omap id [o_onack x; o_oncommit x; o_oncommit_sync x].
Proof. unfold completes. by destruct (o_onack x), (o_oncommit x), (o_oncommit_sync x). Qed.

Lemma over_end x r : omap over (completes x r ++ drops x) ≡ₚ contexts x.
Proof. rewrite omap_app, omap_over_completes. unfold drops. rewrite over_drops. apply Permutation_app_comm. Qed.

Lemma ended_bag o o' p x l : ended p l o o' → ob_heap o !! p = Some x → omap over l ≡ₚ contexts x → bag o' ≡ₚ bag o.
Proof.
  intros He Hp Hl. apply (bag_step o o' l); [apply (en_out _ _ _ _ He)|apply (en_waiting _ _ _ _ He)|].
  rewrite (en_heap _ _ _ _ He), Hl. by apply pending_delete.
Qed.

(** The session of an operation that has one exists. *)
Lemma home o p x sid : wf o → ob_heap o !! p = Some x → o_session x = Some sid →
  ∃ s, session_at o sid = Some s ∧ map_find (s_ops s) (o_tid x) = Some p.
Proof.
  intros [Hk Hb] Hp Hx. destruct (bk_home _ _ _ _ _ Hb p x sid Hp Hx) as [s Hs]. exists s. split; [done|].
  apply (bk_in _ _ _ _ _ Hb sid s _ p Hs). eauto.
Qed.

Lemma held o sid s tid p : wf o → session_at o sid = Some s → map_find (s_ops s) tid = Some p →
  ∃ x, ob_heap o !! p = Some x ∧ o_session x = Some sid ∧ o_tid x = tid.
Proof. intros [Hk Hb] Hs. by apply (bk_in _ _ _ _ _ Hb sid s tid p Hs). Qed.

Lemma one_op o p q x y : wf o → ob_heap o !! p = Some x → ob_heap o !! q = Some y → is_Some (o_session x) → o_tid y = o_tid x → q = p.
Proof.
  intros [Hk Hb] Hp Hq Hx Ht. apply (bk_unique _ _ _ _ _ Hb q p y x); try done. rewrite Ht.
  destruct (bk_tids _ _ _ _ _ Hb p x Hp) as [_ H]. auto.
Qed.

(** The search through the sessions finds the one the operation names. *)
Lemma session_at_in o sid s : wf o → sid ≠ -1 → session_at o sid = Some s ↔ (sid, s) ∈ ob_sessions o.
Proof.
  intros [[Ho _] _] Hn. unfold session_at. rewrite (proj2 (Z.eqb_neq sid (-1))) by done. revert Ho. generalize (ob_sessions o).
  unfold ordered. induction l as [|[k v] l IH]; simpl; [by rewrite elem_of_nil|]. intros [Ho Hk]%StronglySorted_inv.
  rewrite elem_of_cons. destruct (Z.eqb_spec k sid) as [->|Hne].
  - split; [intros [= ->]; by left|]. intros [[= ->]|Hin]; [done|]. apply (Forall_forall _ (keys l)) with (x := sid) in Hk; [lia|].
    by apply (list_elem_of_fmap_2 fst l (sid, s)).
  - rewrite IH by done. split; [by right|]. by intros [[= <- <-]|?].
Qed.

Lemma holder_ok o p x sid : wf o → ob_heap o !! p = Some x → o_session x = Some sid → holder o (o_tid x) = Some sid.
Proof.
  intros Hw Hp Hx. destruct (home o p x sid Hw Hp Hx) as (s & Hs & Hf). unfold holder.
  assert (∀ i t, session_at o i = Some t → map_count (s_ops t) (o_tid x) = true → i = sid) as Honly.
  { intros i t Ht [q Hq]%bool_decide_eq_true. destruct (held o i t _ q Hw Ht Hq) as (y & Hy & Ey & Ety).
    assert (q = p) as -> by (apply (one_op o p q x y); rewrite ?Hx; done). congruence. }
  assert (∀ i t, (i, t) ∈ ob_sessions o → i ≠ -1) as Hne.
  { intros i t Hin ->. destruct Hw as [[_ Hk] _]. assert (-1 ∈ keys (ob_sessions o)) as H%Hk by (by apply (list_elem_of_fmap_2 fst _ (-1, t))). lia. }
  assert (map_count (s_ops s) (o_tid x) = true) as Hc by (apply bool_decide_eq_true; eauto).
  destruct (find _ (ob_sessions o)) as [[i t]|] eqn:Ef.
  - apply find_some in Ef as [Hin%list_elem_of_In Ht]. simpl in *. f_equal. apply (Honly i t); [|done]. apply session_at_in; eauto.
  - destruct (decide (sid = -1)) as [->|Hn]; [injection Hs as <-; by rewrite Hc|].
    pose proof (find_none _ _ Ef (sid, s)) as Hf'. simpl in Hf'. rewrite Hf' in Hc; [done|]. apply list_elem_of_In. by apply session_at_in.
Qed.

Lemma holder_none o tid : wf o → (∀ p x, ob_heap o !! p = Some x → o_session x ≠ None → o_tid x ≠ tid) → holder o tid = None.
Proof.
  intros Hw Hn. assert (∀ i t, session_at o i = Some t → map_count (s_ops t) tid = false) as H.
  { intros i t Ht. apply bool_decide_eq_false. intros [q Hq]. destruct (held o i t _ q Hw Ht Hq) as (y & Hy & Ey & Ety).
    apply (Hn q y); [done|by rewrite Ey|done]. }
  unfold holder. destruct (find _ (ob_sessions o)) as [[i t]|] eqn:Ef.
  - apply find_some in Ef as [Hin%list_elem_of_In Ht]. simpl in *. rewrite (H i) in Ht; [done|]. apply session_at_in; [done| |done].
    intros ->. destruct Hw as [[_ Hk] _]. assert (-1 ∈ keys (ob_sessions o)) as H'%Hk by (by apply (list_elem_of_fmap_2 fst _ (-1, t))). lia.
  - by rewrite (H (-1)).
Qed.

(** C22: Cancelling a tid ends exactly the operation that has it, wherever its
    session is: its contexts are completed with the given result, in order, its
    handlers are dropped, it leaves its session, the table of checks and memory,
    and nothing else changes; a tid that no operation has changes nothing.  In
    both cases the call succeeds. *)
Theorem cancel_exact o tid r : wf o →
  (∀ p x, ob_heap o !! p = Some x → is_Some (o_session x) → o_tid x = tid →
    wp (_op_cancel tid r) o (λ c o', c = 0 ∧ ended p (completes x r ++ drops x) o o' ∧ bag o' ≡ₚ bag o)) ∧
  ((∀ p x, ob_heap o !! p = Some x → is_Some (o_session x) → o_tid x ≠ tid) → _op_cancel tid r o = Ok (0, o)).
Proof.
  intros Hw. split.
  - intros p x Hp [sid Hx] <-. unfold _op_cancel. apply wp_gets. rewrite (holder_ok _ p x sid) by done.
    destruct (home o p x sid Hw Hp Hx) as (s & Hs & _). eapply wp_mono; [by eapply cancel_end|].
    intros c o' (-> & He). split; [done|]. split; [done|]. apply (ended_bag o o' p x _ He Hp), over_end.
  - intros Hn. unfold _op_cancel, gets, mbind, M_bind. rewrite holder_none; [done..|]. intros p x Hp Hx. apply (Hn p x Hp). by apply not_eq_None_Some.
Qed.

(** ** The state between the handlers *)

Section targets.
Context (e : settings) (gm : OSDMap → Prop) (gt : op_target_t → Prop) {T : Targets e gm gt}.

(** Every session leads to an OSD that is up, at its address. *)
Definition leads (m : OSDMap) (i : Z) (c : option entity_addr_t) : Prop := up_b (om_osds m) i = true ∧ ∃ a, get_addr (om_osds m) i = Ok a ∧ c = Some a.
Definition leading o : Prop := ∀ i c, i ≠ -1 → s_con <$> session_at o i = Some c → leads (ob_map o) i c.

(** What holds of every operation: one that is in the session of an OSD has been
    sent, or it waits for the end of a pause. *)
Record op_ok x : Prop := OpOk {
  ok_target : gt (o_target x);
  ok_tid : o_tid x ≠ 0;
  ok_attempts : 0 <= o_attempts x;
  ok_bound : 0 <= o_map_dne_bound x;
  ok_resend : o_should_resend x = true;
  ok_sent : ∀ sid, o_session x = Some sid → sid ≠ -1 → t_paused (o_target x) = true ∨ o_attempts x ≠ 0 }.

(** Nobody waits without a context. *)
Definition waiting_ok (w : list (Z * list (option Z * Z))) : Prop := ordered w ∧ Forall (λ v, Forall (λ c, is_Some c.1) v.2) w.

(** The operations of [l], and no others, are without a session. *)
Record inv (l : list Z) o : Prop := Inv {
  iv_wf : wf o;
  iv_nodup : NoDup l;
  iv_limbo : ∀ p, p ∈ l ↔ ∃ x, ob_heap o !! p = Some x ∧ o_session x = None;
  iv_map : gm (ob_map o);
  iv_ops : ∀ p x, ob_heap o !! p = Some x → op_ok x;
  iv_first : om_epoch (ob_map o) = 0 → ∀ p x, ob_heap o !! p = Some x → o_attempts x = 0;
  iv_waiting : waiting_ok (ob_waiting o) }.

Lemma leading_same o o' : om_osds (ob_map o') = om_osds (ob_map o) → (∀ i, s_con <$> session_at o' i = s_con <$> session_at o i) → leading o → leading o'.
Proof. intros Em Ec Hl i c Hi Hc. unfold leads. rewrite Em. apply Hl; [done|]. by rewrite <- Ec. Qed.

Lemma inv_ended l o o' p x L : inv l o → ended p L o o' → ob_heap o !! p = Some x → is_Some (o_session x) → inv l o'.
Proof using Type.
  intros [H1 H2 H3 H4 H5 H6 H7] [E1 E2 E3 E4 E5 E6 E7 E8 E9] Hp Hx. constructor; rewrite ?E4, ?E5; try done.
  - intros q. rewrite H3, E2. destruct (decide (q = p)) as [->|Hq]; [|by rewrite lookup_delete_ne].
    rewrite lookup_delete_eq. split; [|by intros (y & [=] & _)]. intros (y & Hy & Ey). rewrite Hp in Hy. injection Hy as <-. rewrite Ey in Hx. by destruct Hx.
  - intros q y. rewrite E2. intros [_ Hq]%lookup_delete_Some. by apply (H5 q).
  - intros He q y. rewrite E2. intros [_ Hq]%lookup_delete_Some. by apply (H6 He q).
Qed.

Lemma get_addr_up (o : osds) i : osds_wf o → up_b o i = true → ∃ a, get_addr o i = Ok a.
Proof.
  intros Hw [He _]%andb_prop. pose proof (ex_range o i He) as Hr. destruct (vget_ok (client_addr o) i) as (a & _ & E); [pose proof (ow_client o Hw); lia|].
  unfold get_addr, assert_exists. rewrite (osd_exists_ok o Hw), He. simpl. rewrite E. by eexists.
Qed.

(** ** Submission *)

(** What has happened since [o0] to it, of which operation [p] is now [y]. *)
Record since o0 (m : OSDMap) p y (l : list output) (n k : Z) o : Prop := Since {
  si_wf : wf o;
  si_map : ob_map o = m;
  si_heap : ob_heap o = <[p := y]> (ob_heap o0);
  si_out : ob_out o = ob_out o0 ++ l;
  si_waiting : ob_waiting o = ob_waiting o0;
  si_checks : ob_checks o = ob_checks o0;
  si_inflight : ob_inflight o = ob_inflight o0 + n;
  si_last : ob_last_tid o = ob_last_tid o0 + k }.

Lemma since_at o0 m p y l n k o : since o0 m p y l n k o → ob_heap o !! p = Some y.
Proof. intros H. rewrite (si_heap _ _ _ _ _ _ _ _ H). apply lookup_insert_eq. Qed.

Lemma since_put o0 m p y l n k o z : since o0 m p y l n k o → o_session z = o_session y → o_tid z = o_tid y →
  (o_attempts z = o_attempts y ∧ o_map_dne_bound z = o_map_dne_bound y ∨ map_find (ob_checks o) (o_tid y) = None) →
  since o0 m p z l n k (with_heap (<[p := z]> (ob_heap o)) o).
Proof.
  intros H Es Et Hc. pose proof (since_at _ _ _ _ _ _ _ _ H) as Hp. destruct H. constructor; try done.
  - by apply (wf_put o p y z).
  - simpl. rewrite si_heap0. apply insert_insert_eq.
Qed.

Lemma since_emit o0 m p y l n k o v : since o0 m p y l n k o → since o0 m p y (l ++ [v]) n k (with_out (ob_out o ++ [v]) o).
Proof. intros []. constructor; try done. simpl. by rewrite si_out0, app_assoc. Qed.

Definition set_calc (t : op_target_t) (l : Z) x : Op := set_target t l x.

Lemma calc_op_ok o p x : wf o → gm (ob_map o) → ob_heap o !! p = Some x → gt (o_target x) →
  wp (calc_op_target e p) o (λ v o', ∃ t l m',
    o' = with_heap (<[p := set_target t l x]> (ob_heap o)) (with_map m' o) ∧ wf o' ∧ gm m' ∧ om_osds m' = om_osds (ob_map o) ∧ om_epoch m' = om_epoch (ob_map o) ∧
    gt t ∧ (t_osd t = -1 ∨ up_b (om_osds (ob_map o)) (t_osd t) = true) ∧ (v = POOL_DNE → t_osd t = -1) ∧
    (v = NEED_RESEND ∨ t_paused t = t_paused (o_target x)) ∧ ∃ l', _calc_target e (o_target x) (Some (o_last_force_resend x)) false (ob_map o) = Ok ((v, t, l'), m')).
Proof using T.
  intros Hw Hm Hp Ht. unfold calc_op_target. apply (wp_get_op _ p x); [done|].
  pose proof (tg_calc (ob_map o) (o_target x) (Some (o_last_force_resend x)) Hm Ht) as Hc. unfold wp in Hc.
  destruct (_calc_target e (o_target x) _ false (ob_map o)) as [[[[r t] l] m']|] eqn:E; [|done]. destruct Hc as (H1 & H2 & H3 & H4 & H5 & H6 & H7).
  eapply wp_bind_eq; [unfold on_map; rewrite E; reflexivity|]. apply wp_put_op. unfold wp, rwp, mret, M_ret.
  eexists t, _, m'. split; [done|]. split_and!; try done; [|by exists l]. by apply (wf_put (with_map m' o) p x); [..|left].
Qed.

Lemma map_osds_leading o m' : om_osds m' = om_osds (ob_map o) → leading o → leading (with_map m' o).
Proof using Type. intros E. by apply leading_same. Qed.

Lemma get_session_ok o osd : wf o → osds_wf (om_osds (ob_map o)) → (osd = -1 ∨ up_b (om_osds (ob_map o)) osd = true) →
  wp (_get_session osd) o (λ sid o', sid = osd ∧ is_Some (session_at o' osd) ∧ wf o' ∧ (leading o → leading o') ∧
    ob_heap o' = ob_heap o ∧ ob_map o' = ob_map o ∧ ob_out o' = ob_out o ∧ ob_waiting o' = ob_waiting o ∧
    ob_checks o' = ob_checks o ∧ ob_inflight o' = ob_inflight o ∧ ob_last_tid o' = ob_last_tid o).
Proof using Type.
  intros Hw Ho Hu. unfold _get_session. destruct Hu as [->|Hu]; [by split_and!|].
  pose proof Hu as [He _]%andb_prop. pose proof (ex_range _ osd He) as Hr. rewrite (proj2 (Z.ltb_ge osd 0)) by lia.
  apply wp_gets. unfold Datatypes.id. assert (session_at o osd = map_find (ob_sessions o) osd) as Es by (unfold session_at; by rewrite (proj2 (Z.eqb_neq osd (-1))) by lia).
  destruct (map_find (ob_sessions o) osd) as [s|] eqn:Ef.
  { unfold wp, rwp, mret, M_ret. split_and!; try done; by rewrite Es. }
  destruct (get_addr_up _ osd Ho Hu) as (a & Ha).
  eapply wp_bind_eq; [unfold lift, get_inst; rewrite (is_up_ok _ Ho), Hu; simpl; rewrite Ha; reflexivity|].
  apply wp_put_sess. set (s := MkSession osd 0 (Some a) []). unfold wp, rwp, mret, M_ret.
  destruct Hw as [Hk Hb]. destruct (sess_put_rest osd s o) as (E1 & E2 & E3 & E4 & E5 & E6 & E7 & E8 & E9 & E10).
  pose proof (λ i, session_at_put o osd s i Hk) as Hat. split; [done|]. split; [rewrite Hat, upd_eq; by eexists|]. split.
  { split; [apply keyed_put; [done|lia]|]. rewrite E2, E3, E4, E5. eapply books_ext; [intros i; symmetry; apply Hat|]. by apply books_open. }
  split; [|by split_and!]. intros Hl i c Hi. rewrite Hat. unfold leads. rewrite E1. unfold upd. destruct (decide (i = osd)) as [->|Hn].
  - simpl. intros [= <-]. eauto.
  - by apply Hl.
Qed.

(** The operation has only been marked. *)
Record alike y z : Prop := Alike {
  al_session : o_session z = o_session y;
  al_tid : o_tid z = o_tid y;
  al_bound : o_map_dne_bound z = o_map_dne_bound y;
  al_contexts : contexts z = contexts y;
  al_resend : o_should_resend z = o_should_resend y;
  al_osd : t_osd (o_target z) = t_osd (o_target y);
  al_pg : t_pgid (o_target z) = t_pgid (o_target y);
  al_good : gt (o_target y) → gt (o_target z) }.

Lemma alike_refl y : alike y y.
Proof using Type. by constructor. Qed.

Lemma alike_paused y b : alike y (set_target (set_paused b (o_target y)) (o_last_force_resend y) y).
Proof using T. constructor; try done. intros H. by apply (tg_paused (e := e)). Qed.

Lemma request_ok o : ∃ ep c, _maybe_request_map e o = Ok (tt, with_out (ob_out o ++ [WantMap ep c]) o).
Proof using Type. cbv beta iota zeta delta [_maybe_request_map gets mbind M_bind emit modify]. eexists _, _. reflexivity. Qed.

Definition no_osd_or_paused z : Prop := t_osd (o_target z) = -1 ∨ t_paused (o_target z) = true.

Lemma pause_ok o0 m p y l n k o : since o0 m p y l n k o →
  wp (pause_op e p) o (λ _ o', ∃ z ep c, alike y z ∧ o_attempts z = o_attempts y ∧ t_paused (o_target z) = true ∧
    since o0 m p z (l ++ [WantMap ep c]) n k o' ∧ ∀ i, session_at o' i = session_at o i).
Proof using T.
  intros H. unfold pause_op, change_op. rewrite wp_bind. apply (wp_get_op _ p y); [by eapply since_at|]. unfold wp at 1, put_op, modify, rwp.
  set (z := set_target _ _ y). destruct (request_ok (with_heap (<[p := z]> (ob_heap o)) o)) as (ep & c & E). unfold wp. rewrite E.
  exists z, ep, c. split; [apply (alike_paused y true)|]. split; [done|]. split; [done|]. split; [|done].
  apply (since_emit o0 m p _ l n k (with_heap _ o)). apply (since_put _ _ _ y); try done. by left.
Qed.

Lemma may_send_ok o0 m p y l n k o sid : since o0 m p y l n k o → t_osd (o_target y) = sid →
  wp (may_send e sid p) o (λ b o', ∃ z, alike y z ∧ o_attempts z = o_attempts y ∧ (∀ i, session_at o' i = session_at o i) ∧
    if b then sid ≠ -1 ∧ since o0 m p z l n k o' else no_osd_or_paused z ∧ ∃ ep c, since o0 m p z (l ++ [WantMap ep c]) n k o').
Proof using T.
  intros H Hs. assert (∀ b : bool, (b = false) → wp (pause_op e p ;; mret b) o (λ b o', ∃ z, alike y z ∧ o_attempts z = o_attempts y ∧ (∀ i, session_at o' i = session_at o i) ∧
    if b then sid ≠ -1 ∧ since o0 m p z l n k o' else no_osd_or_paused z ∧ ∃ ep c, since o0 m p z (l ++ [WantMap ep c]) n k o')) as Hp.
  { intros b ->. eapply wp_bind_mono; [by apply (pause_ok o0 m p y l n k o)|]. intros [] o' (z & ep & c & Ha & Hat & Hpz & Hz & Hi). apply wp_ret.
    exists z. split; [done|]. split; [done|]. split; [done|]. split; [by right|eauto]. }
  unfold may_send. apply (wp_get_op _ p y); [by eapply since_at|]. apply wp_gets.
  destruct (_ && _); [by apply Hp|]. destruct (_ && _); [by apply Hp|]. destruct (_ && _); [by apply Hp|].
  destruct (Z.eqb_spec sid (-1)) as [E|Hn]; simpl.
  - destruct (request_ok o) as (ep & c & E2). eapply wp_bind_eq; [exact E2|]. apply wp_ret. exists y. split; [apply alike_refl|]. split; [done|]. split; [done|].
    split; [left; congruence|]. eexists _, _. by apply since_emit.
  - apply wp_ret. exists y. by split; [apply alike_refl|].
Qed.

Lemma wf_no_check o : wf o → map_find (ob_checks o) 0 = None.
Proof using Type. intros [_ Hb]. destruct (map_find _ 0) eqn:E; [|done]. by destruct (bk_checks _ _ _ _ _ Hb _ _ E). Qed.

Lemma prepare_ok o0 m p y l n k o : since o0 m p y l n k o → map_find (ob_checks o) (o_tid y) = None →
  wp (_prepare_osd_op p) o (λ msg o', ∃ z, alike y z ∧ o_attempts z = o_attempts y + 1 ∧ t_paused (o_target z) = false ∧
    since o0 m p z l n k o' ∧ (∀ i, session_at o' i = session_at o i) ∧
    mo_retry_attempt msg = o_attempts y ∧ mo_pgid msg = t_pgid (o_target y) ∧ mo_epoch msg = om_epoch m).
Proof using T.
  intros H Hc. unfold _prepare_osd_op. apply (wp_get_op _ p y); [by eapply since_at|]. apply wp_gets. apply wp_put_op. apply wp_ret.
  eexists. split; [|split; [|split; [|split; [apply (since_put _ _ _ y); try done; by right|]]]].
  - constructor; try done. intros H'. by apply (tg_paused (e := e)).
  - done.
  - done.
  - split; [done|]. by rewrite (si_map _ _ _ _ _ _ _ _ H).
Qed.

Lemma assign_tid_ok o0 m p y l n k o : since o0 m p y l n k o → o_session y = None → o_tid y = 0 →
  ∃ o', assign_tid p o = Ok (tt, o') ∧ since o0 m p (set_tid (ob_last_tid o + 1) y) l n (k + 1) o' ∧ ∀ i, session_at o' i = session_at o i.
Proof using Type.
  intros H Hs Ht. eexists. split.
  - unfold assign_tid, get_op, mbind, M_bind. rewrite (since_at _ _ _ _ _ _ _ _ H), Ht. reflexivity.
  - pose proof (since_at _ _ _ _ _ _ _ _ H) as Hp. destruct H. destruct si_wf0 as [Hk Hb]. split; [|done]. constructor; try done; simpl.
    + split; [done|]. simpl. by apply (books_tid _ _ _ _ _ p y).
    + rewrite si_heap0. apply insert_insert_eq.
    + rewrite si_last0. lia.
Qed.

Lemma send_op_ok o p y sid s con msg : wf o → ob_heap o !! p = Some y → o_session y = Some sid → session_at o sid = Some s → s_con s = Some con →
  _send_op p (Some msg) o = Ok (tt, with_out (ob_out o ++ [Send con (set_mo_tid (o_tid y) msg)]) (with_heap (<[p := set_incarnation (s_incarnation s) y]> (ob_heap o)) o)).
Proof using Type.
  intros Hw Hp Hy Hs Hc. unfold _send_op, get_op, mbind, M_bind. rewrite Hp. unfold mret, M_ret. rewrite Hy. unfold get_sess. rewrite Hs, Hc.
  unfold change_op, get_op, mbind, M_bind. by rewrite Hp.
Qed.

Lemma wf_emit o l : wf o → wf (with_out l o).
Proof using Type. done. Qed.

Lemma wf_incarnation o p y i : wf o → ob_heap o !! p = Some y → wf (with_heap (<[p := set_incarnation i y]> (ob_heap o)) o).
Proof using Type. intros Hw Hp. apply (wf_put o p y); try done. by left. Qed.

(** Operation [p], which was [x], is [y] now: in the session of its target, under
    the next tid.  It is sent to that OSD, or it waits for a newer map. *)
Record submitted p x y o o' : Prop := Submitted {
  sb_wf : wf o';
  sb_leading : leading o → leading o';
  sb_map : gm (ob_map o') ∧ om_osds (ob_map o') = om_osds (ob_map o) ∧ om_epoch (ob_map o') = om_epoch (ob_map o);
  sb_heap : ob_heap o' = <[p := y]> (ob_heap o);
  sb_waiting : ob_waiting o' = ob_waiting o;
  sb_inflight : ob_inflight o' = ob_inflight o + 1;
  sb_last : ob_last_tid o' = ob_last_tid o + 1;
  sb_tid : o_tid y = ob_last_tid o + 1;
  sb_contexts : contexts y = contexts x;
  sb_resend : o_should_resend y = o_should_resend x;
  sb_bound : o_map_dne_bound y = o_map_dne_bound x;
  sb_good : gt (o_target y);
  sb_session : o_session y = Some (t_osd (o_target y)) }.

Definition is_sent x y v o o' : Prop := ∃ a msg, t_osd (o_target y) ≠ -1 ∧
  up_b (om_osds (ob_map o)) (t_osd (o_target y)) = true ∧ get_addr (om_osds (ob_map o)) (t_osd (o_target y)) = Ok a ∧ v ≠ POOL_DNE ∧
  ob_out o' = ob_out o ++ [Send a msg] ∧ mo_tid msg = ob_last_tid o + 1 ∧ mo_pgid msg = t_pgid (o_target y) ∧ mo_epoch msg = om_epoch (ob_map o) ∧
  mo_retry_attempt msg = o_attempts x ∧ o_attempts y = o_attempts x + 1 ∧ t_paused (o_target y) = false ∧ ob_checks o' = ob_checks o.
Definition is_kept p x y v o o' : Prop := ∃ ep c, o_attempts y = o_attempts x ∧ no_osd_or_paused y ∧
  (v ≠ POOL_DNE ∧ ob_out o' = ob_out o ++ [WantMap ep c] ∧ ob_checks o' = ob_checks o ∨
   v = POOL_DNE ∧ t_osd (o_target y) = -1 ∧ ob_out o' = ob_out o ++ [WantMap ep c; GetVersion (ob_last_tid o + 1)] ∧ ob_checks o' = map_put (ob_checks o) (ob_last_tid o + 1) p).

(** The pool exists, or the operation has not been sent yet. *)
Definition checkable x o : Prop := (o_attempts x = 0 ∧ o_map_dne_bound x = 0) ∨
  ∀ v t l m, _calc_target e (o_target x) (Some (o_last_force_resend x)) false (ob_map o) = Ok ((v, t, l), m) → v ≠ POOL_DNE.

(** The message of an operation that is to be sent. *)
Definition ready m x y (b : bool) (om : option MOSDOp) : Prop :=
  match om with
  | Some msg => b = true ∧ o_attempts y = o_attempts x + 1 ∧ t_paused (o_target y) = false ∧
      mo_retry_attempt msg = o_attempts x ∧ mo_pgid msg = t_pgid (o_target x) ∧ mo_epoch msg = om_epoch m
  | None => b = false ∧ o_attempts y = o_attempts x ∧ no_osd_or_paused y
  end.

Lemma message_ok o0 m p x z l n k o (b : bool) : since o0 m p z l n k o → alike x z → o_attempts z = o_attempts x → o_tid x = 0 → (b = false → no_osd_or_paused z) →
  wp (if b then m ← _prepare_osd_op p; mret (Some m) else mret None) o (λ om o', ∃ y, alike x y ∧ since o0 m p y l n k o' ∧
    (∀ i, session_at o' i = session_at o i) ∧ ready m x y b om).
Proof using T.
  intros H Haz Hatt Htid Hb. destruct b.
  - assert (map_find (ob_checks o) (o_tid z) = None) as Hnc by (rewrite (al_tid _ _ Haz), Htid; by apply wf_no_check, (si_wf _ _ _ _ _ _ _ _ H)).
    eapply wp_bind_mono; [by apply (prepare_ok o0 m p z l n k)|]. intros msg o5 (y & Hay & Hya & Hyp & S5 & Hss5 & Hm1 & Hm2 & Hm3). apply wp_ret. exists y.
    split; [destruct Haz, Hay; constructor; (congruence || auto)|]. split; [done|]. split; [done|]. unfold ready. rewrite Hya, Hatt.
    split_and!; try done; [by rewrite Hm1, Hatt|by rewrite Hm2, (al_pg _ _ Haz)].
  - apply wp_ret. exists z. unfold ready. split_and!; auto.
Qed.

Definition place (p sid : Z) (om : option MOSDOp) : M objecter unit :=
  assign_tid p;; _session_op_assign sid p;; match om with Some m => _send_op p (Some m) | None => mret tt end.

(** It gets its tid and its session, and is sent. *)
Lemma placed_op o0 m p x y l n k o sid b om s : since o0 m p y l n k o → alike x y → ready m x y b om → o_session x = None → o_tid x = 0 →
  session_at o sid = Some s → (b = true → is_Some (s_con s)) →
  wp (place p sid om) o (λ _ o', ∃ z, since o0 m p z (match om with Some msg => l ++ [Send (default blank_addr (s_con s)) (set_mo_tid (ob_last_tid o + 1) msg)] | None => l end) n (k + 1) o' ∧
    o_session z = Some sid ∧ o_tid z = ob_last_tid o + 1 ∧ o_target z = o_target y ∧ o_attempts z = o_attempts y ∧ o_map_dne_bound z = o_map_dne_bound y ∧
    contexts z = contexts y ∧ o_should_resend z = o_should_resend y ∧ (∀ i, s_con <$> session_at o' i = s_con <$> session_at o i)).
Proof using Type.
  intros S Ha Hr Hx Ht Hs Hcon. unfold place.
  destruct (assign_tid_ok o0 m p y l n k o S) as (o1 & E1 & S1 & Hss); [by rewrite (al_session _ _ Ha)|by rewrite (al_tid _ _ Ha)|].
  eapply wp_bind_eq; [exact E1|]. set (y1 := set_tid _ y) in *. pose proof (since_at _ _ _ _ _ _ _ _ S1) as Hp1. pose proof (si_wf _ _ _ _ _ _ _ _ S1) as Hw1.
  pose proof (bk_last _ _ _ _ _ (proj2 (si_wf _ _ _ _ _ _ _ _ S))) as Hlast.
  eapply wp_bind_mono; [apply (assign_ok o1 sid p y1 Hw1 Hp1); [by rewrite <- Hx, <- (al_session _ _ Ha)|simpl; lia|by rewrite Hss, Hs]|].
  intros [] o2 (Hw2 & Hm & Hh). set (y2 := set_session (Some sid) y1) in *.
  assert (since o0 m p y2 l n (k + 1) o2) as S2.
  { destruct S1, Hm. constructor; try congruence; [by rewrite Hh, si_heap0, insert_insert_eq|by rewrite mv_out, app_nil_r|lia]. }
  assert (∀ i, s_con <$> session_at o2 i = s_con <$> session_at o i) as Hc2 by (intros i; by rewrite (mv_con _ _ _ _ Hm), Hss).
  destruct om as [msg|]; [|by exists y2; split_and!].
  destruct Hr as (-> & Hr). destruct (Hcon eq_refl) as [con Ec]. pose proof (Hc2 sid) as Hsid. rewrite Hs in Hsid. simpl in Hsid.
  destruct (session_at o2 sid) as [s2|] eqn:Es2; [|done]. injection Hsid as Hsid. pose proof (since_at _ _ _ _ _ _ _ _ S2) as Hp2.
  unfold wp. erewrite (send_op_ok o2 p y2 sid s2 con msg); [|done..|by rewrite Hsid]. exists (set_incarnation (s_incarnation s2) y2). rewrite Ec. simpl.
  split; [|by split_and!]. apply (since_emit o0 m p _ l n (k + 1) (with_heap _ o2)). apply (since_put _ _ _ y2); try done. by left.
Qed.

Lemma wp_place {B} (Q : B → objecter → Prop) p sid om (k : unit → M objecter B) o : wp (place p sid om ≫= k) o Q →
  wp (assign_tid p;; _session_op_assign sid p;; (match om with Some m => _send_op p (Some m) | None => mret tt end) ≫= k) o Q.
Proof using Type. unfold wp, place, mbind, M_bind. destruct (assign_tid p o) as [[[] o1]|]; [|done]. by destruct (_session_op_assign sid p o1) as [[[] o2]|]. Qed.

Lemma fresh_check o : wf o → map_find (ob_checks o) (ob_last_tid o + 1) = None.
Proof using Type.
  intros [_ Hb]. destruct (map_find _ _) as [q|] eqn:E; [|done]. destruct (bk_checks _ _ _ _ _ Hb _ _ E) as (_ & y & Hq & Ht & _).
  destruct (bk_tids _ _ _ _ _ Hb q y Hq). lia.
Qed.

Lemma map_check_ok o p z : wf o → ob_heap o !! p = Some z → map_find (ob_checks o) (o_tid z) = None → o_tid z ≠ 0 → o_attempts z = 0 → o_map_dne_bound z = 0 →
  wp (_send_op_map_check p) o (λ _ o', wf o' ∧ o' = with_out (ob_out o ++ [GetVersion (o_tid z)]) (with_checks (map_put (ob_checks o) (o_tid z) p) o)).
Proof using Type.
  intros [Hk Hb] Hp Hc Ht Ha Hbd. unfold _send_op_map_check. apply (wp_get_op _ p z); [done|]. apply wp_gets. unfold map_count. rewrite Hc. simpl.
  apply wp_modify. unfold wp, rwp, emit, modify. split; [|done]. split; [done|]. by apply books_ask.
Qed.

Lemma submitted_since o m p x y l o' : since o m p y l 1 1 o' → gm m → om_osds m = om_osds (ob_map o) → om_epoch m = om_epoch (ob_map o) →
  o_tid y = ob_last_tid o + 1 → contexts y = contexts x → o_should_resend y = o_should_resend x → o_map_dne_bound y = o_map_dne_bound x →
  gt (o_target y) → o_session y = Some (t_osd (o_target y)) → (leading o → leading o') → submitted p x y o o'.
Proof using Type. intros [] ? ? ? ? ? ? ? ? ? ?. constructor; try done. by rewrite si_map0. Qed.

(** The last step: a test with the monitors when the pool does not exist. *)
Lemma submit_check o o6 p x z v : wf o → submitted p x z o o6 →
  (is_sent x z v o o6 ∨
   ∃ ep c, o_attempts z = o_attempts x ∧ no_osd_or_paused z ∧ ob_out o6 = ob_out o ++ [WantMap ep c] ∧ ob_checks o6 = ob_checks o ∧
     (v = POOL_DNE → t_osd (o_target z) = -1 ∧ o_attempts x = 0 ∧ o_map_dne_bound x = 0)) →
  wp (z ← get_op p; (if bool_decide (v = POOL_DNE) then _send_op_map_check p else mret tt);; mret (o_tid z)) o6
    (λ tid o', tid = ob_last_tid o + 1 ∧ submitted p x z o o' ∧ (is_sent x z v o o' ∨ is_kept p x z v o o')).
Proof using Type.
  intros Hw Hs Hc. assert (ob_heap o6 !! p = Some z) as Hz by (rewrite (sb_heap _ _ _ _ _ Hs); apply lookup_insert_eq).
  apply (wp_get_op _ p z); [done|]. destruct Hc as [Hsent|(ep & c & Ha & Hn & Ho & Hch & Hv)].
  - rewrite bool_decide_eq_false_2 by (by destruct Hsent as (a & msg & _ & _ & _ & Hv & _)). eapply wp_bind_eq; [reflexivity|]. apply wp_ret.
    split; [apply (sb_tid _ _ _ _ _ Hs)|]. auto.
  - case_bool_decide as Hd.
    + destruct (Hv Hd) as (Ht & Ha0 & Hb0). pose proof (sb_tid _ _ _ _ _ Hs) as Htid. pose proof (bk_last _ _ _ _ _ (proj2 Hw)) as Hlast.
      eapply wp_bind_mono; [apply (map_check_ok o6 p z (sb_wf _ _ _ _ _ Hs) Hz)|].
      * rewrite Htid, Hch. by apply fresh_check.
      * lia.
      * congruence.
      * by rewrite (sb_bound _ _ _ _ _ Hs).
      * intros [] o7 (Hw7 & ->). apply wp_ret. split; [done|]. split; [destruct Hs; by constructor|]. right.
        exists ep, c. split; [done|]. split; [done|]. right. split; [done|]. simpl. by rewrite Ho, Hch, Htid, <- app_assoc.
    + eapply wp_bind_eq; [reflexivity|]. apply wp_ret. split; [apply (sb_tid _ _ _ _ _ Hs)|]. split; [done|]. right. exists ep, c. split; [done|]. split; [done|]. by left.
Qed.

(** From the test whether it may be sent to the end, for the session [s]. *)
Lemma submit_send o m p x x1 o3 s v : wf o → leading o → since o m p x1 [] 1 0 o3 → gm m → om_osds m = om_osds (ob_map o) → om_epoch m = om_epoch (ob_map o) →
  contexts x1 = contexts x → o_should_resend x1 = o_should_resend x → o_map_dne_bound x1 = o_map_dne_bound x → o_attempts x1 = o_attempts x →
  o_session x1 = None → o_tid x1 = 0 → gt (o_target x1) → session_at o3 (t_osd (o_target x1)) = Some s → (leading o → leading o3) →
  (v = POOL_DNE → t_osd (o_target x1) = -1 ∧ o_attempts x = 0 ∧ o_map_dne_bound x = 0) →
  wp (need_send ← may_send e (t_osd (o_target x1)) p;
      om ← (if (need_send : bool) then m ← _prepare_osd_op p; mret (Some m) else mret None);
      assign_tid p;; _session_op_assign (t_osd (o_target x1)) p;; (match om with Some m => _send_op p (Some m) | None => mret tt end);;
      z ← get_op p; (if bool_decide (v = POOL_DNE) then _send_op_map_check p else mret tt);; mret (o_tid z)) o3
    (λ tid o', tid = ob_last_tid o + 1 ∧ ∃ y, submitted p x y o o' ∧ t_osd (o_target y) = t_osd (o_target x1) ∧ (is_sent x y v o o' ∨ is_kept p x y v o o')).
Proof using T.
  intros Hw Hl S3 Hgm Eo Eep Ex1 Ex2 Ex3 Ex4 Ex5 Ex6 Hgt Hs Hl3 Hdne.
  eapply wp_bind_mono; [by apply (may_send_ok o m p x1 [] 1 0 o3)|]. intros b o4 (z & Haz & Hatt & Hss4 & Hb).
  assert (∃ l4, since o m p z l4 1 0 o4 ∧ if b then t_osd (o_target x1) ≠ -1 ∧ l4 = [] else no_osd_or_paused z ∧ ∃ ep c, l4 = [WantMap ep c]) as (l4 & S4 & Hl4).
  { destruct b; [exists []; by destruct Hb|]. destruct Hb as (Hn & ep & c & Hz). exists [WantMap ep c]. eauto. }
  eapply wp_bind_mono; [apply (message_ok o m p x1 z l4 1 0 o4 b); try done; by intros ->; destruct Hl4|]. intros om o5 (y & Hay & S5 & Hss5 & Hr).
  apply wp_place. assert (∀ i, session_at o5 i = session_at o3 i) as Hss by (intros i; by rewrite Hss5, Hss4).
  assert (b = true → is_Some (s_con s)) as Hcon.
  { intros ->. destruct (bk_session _ _ _ _ _ (proj2 (si_wf _ _ _ _ _ _ _ _ S3)) _ s Hs) as (_ & Hc & _). apply Hc. by destruct Hl4. }
  eapply wp_bind_mono; [apply (placed_op o m p x1 y l4 1 0 o5 (t_osd (o_target x1)) b om s); try done; by rewrite Hss|].
  intros [] o6 (z6 & S6 & Hz1 & Hz2 & Hz3 & Hz4 & Hz5 & Hz6 & Hz7 & Hcon6). change (0 + 1) with 1 in S6.
  rewrite (si_last _ _ _ _ _ _ _ _ S5), Z.add_0_r in Hz2, S6.
  assert (t_osd (o_target z6) = t_osd (o_target x1)) as Eosd by (by rewrite Hz3, (al_osd _ _ Hay)).
  eapply wp_mono; [apply (submit_check o o6 p x z6 v); [done| |]|intros tid o' (-> & Hsb & Hso); split; [done|]; by exists z6].
  - eapply (submitted_since o m p x z6); try done; [by rewrite Hz6, (al_contexts _ _ Hay)|by rewrite Hz7, (al_resend _ _ Hay)|
      by rewrite Hz5, (al_bound _ _ Hay)|rewrite Hz3; by apply (al_good _ _ Hay)|by rewrite Eosd|].
    intros _. apply (leading_same o3); [by rewrite (si_map _ _ _ _ _ _ _ _ S6), (si_map _ _ _ _ _ _ _ _ S3)|intros i; by rewrite Hcon6, Hss|by apply Hl3].
  - pose proof (si_out _ _ _ _ _ _ _ _ S6) as Eout. pose proof (si_checks _ _ _ _ _ _ _ _ S6) as Ech. destruct om as [msg|].
    + left. destruct Hr as (-> & Hr1 & Hr2 & Hr3 & Hr4 & Hr5). destruct Hl4 as [Hn ->].
      destruct (Hcon eq_refl) as [a Ea]. exists a, (set_mo_tid (ob_last_tid o + 1) msg). rewrite Ea in Eout. rewrite Eosd, Hz3, Hz4. split_and!; try done; try congruence.
      * destruct (Hl3 Hl _ (s_con s) Hn) as (Hup & _); [by rewrite Hs|]. by rewrite <- Eo, <- (si_map _ _ _ _ _ _ _ _ S3).
      * destruct (Hl3 Hl _ (s_con s) Hn) as (_ & a' & Ha' & Ec); [by rewrite Hs|].
        rewrite <- Eo, <- (si_map _ _ _ _ _ _ _ _ S3). congruence.
      * intros ->. by destruct Hdne.
      * simpl. by rewrite Hr4, (al_pg _ _ Hay).
      * simpl. by rewrite Hr5.
      * simpl. by rewrite Hr3.
    + right. destruct Hr as (-> & Hr1 & Hr2). destruct Hl4 as (_ & ep & c & ->). exists ep, c. rewrite Hz4. split_and!; try done; try congruence.
      * unfold no_osd_or_paused. by rewrite Hz3.
      * rewrite Eosd. done.
Qed.

Lemma submit_any o p x : wf o → leading o → gm (ob_map o) → ob_heap o !! p = Some x → gt (o_target x) → o_session x = None → o_tid x = 0 → checkable x o →
  wp (_op_submit e p) o (λ tid o', tid = ob_last_tid o + 1 ∧ ∃ y v, submitted p x y o o' ∧ (is_sent x y v o o' ∨ is_kept p x y v o o') ∧
    ∃ t l m', _calc_target e (o_target x) (Some (o_last_force_resend x)) false (ob_map o) = Ok ((v, t, l), m') ∧ t_osd (o_target y) = t_osd t).
Proof using T.
  intros Hw Hl Hm Hp Ht Hs Htid Hck. unfold _op_submit. apply (wp_get_op _ p x); [done|]. apply wp_assert; [by apply bool_decide_eq_true|].
  eapply wp_bind_mono; [by apply calc_op_ok|]. intros v o1 (t & l & m' & -> & Hw1 & Hgm' & Eo & Eep & Hgt & Hosd & Hdne & _ & l' & Ecalc).
  set (x1 := set_target t l x) in *. set (o1 := with_heap _ _) in *. apply (wp_get_op _ p x1); [apply lookup_insert_eq|].
  pose proof (get_session_ok o1 (t_osd t) Hw1) as Hgs. eapply wp_bind_mono; [apply Hgs; simpl; rewrite Eo; [by apply (tg_osds (e := e) (gt := gt))|done]|].
  intros sid o2 (-> & [s Hs2] & Hw2 & Hl2 & Eh & Em & Eout & Ew & Ec & Ei & El).
  eapply wp_bind_eq; [unfold _send_op_account, get_op, mbind, M_bind; rewrite Eh; simpl; rewrite lookup_insert_eq; reflexivity|].
  apply wp_assert; [by apply (tg_flags (gm := gm) (e := e))|].
  eapply wp_mono; [apply (submit_send o m' p x x1 _ s v); try done|intros tid o' (-> & y & Hsb & Ho & Hso); split; [done|]; exists y, v; split_and!; [done..|by exists t, l', m']].
  - constructor; try done; simpl; [by rewrite Eout, app_nil_r|by rewrite Ei|rewrite El; simpl; lia].
  - intros _. apply (leading_same o2); [done..|]. apply Hl2. revert Hl. by apply leading_same.
  - intros Hv. split; [by apply Hdne|]. destruct Hck as [?|Hck]; [done|]. by apply Hck in Ecalc.
Qed.
End targets.

(** ** Replies *)

(** The handlers that run, and those that are left. *)
Definition handled (hs : list (option Z)) (rvals : list Z) : list output :=
  concat (zip_with (λ (h : option Z) (v : Z), match h with Some c => [Complete c v] | None => [] end) hs rvals).
Fixpoint unhandled (hs : list (option Z)) (rvals : list Z) : list (option Z) :=
  match hs, rvals with _ :: hs, _ :: rvals => None :: unhandled hs rvals | hs, _ => hs end.

Lemma run_handlers_ok hs rvals : ∀ o, run_handlers hs rvals o = Ok (unhandled hs rvals, with_out (ob_out o ++ handled hs rvals) o).
Proof.
  revert rvals. unfold handled. induction hs as [|h hs IH]; intros [|v rvals] o; simpl; try (by rewrite with_out_nil).
  unfold complete_one, emit, modify, mbind, M_bind, mret, M_ret. destruct h as [c|]; rewrite IH; simpl; [by rewrite <- app_assoc|done].
Qed.

Lemma over_handled (hs : list (option Z)) rvals : omap over (handled hs rvals) ++ omap id (unhandled hs rvals) = omap id hs.
Proof.
  unfold handled. revert rvals. induction hs as [|h hs IH]; intros [|v rvals]; simpl; [done..|]. destruct h as [c|]; simpl; [f_equal|]; apply IH.
Qed.

(** The part of a reply that is put out before and after the operation is finished. *)
Definition completed (c : option Z) r : list output := match c with Some c => [Complete c r] | None => [] end.
Lemma complete_one_ok c r o : complete_one c r o = Ok (tt, with_out (ob_out o ++ completed c r) o).
Proof. unfold complete_one. destruct c; [done|]. unfold completed. by rewrite with_out_nil. Qed.

Definition safe (m : MOSDOpReply) : bool := re_ondisk m || negb (re_result m =? 0).
(** The operation after a reply, if it is not done with. *)
Definition left_over (m : MOSDOpReply) x : Op :=
  set_contexts (unhandled (o_out_handler x) (re_rvals m)) None (if safe m then None else o_oncommit x) (if safe m then None else o_oncommit_sync x) x.
Definition is_done (m : MOSDOpReply) x : bool := safe m || (negb (bool_decide (is_Some (o_oncommit x))) && negb (bool_decide (is_Some (o_oncommit_sync x)))).
Definition answers (m : MOSDOpReply) x : list output :=
  handled (o_out_handler x) (re_rvals m) ++ (if safe m then completed (o_oncommit_sync x) (re_result m) else []) ++
  (if is_done m x then drops (left_over m x) else []) ++
  completed (o_onack x) (re_result m) ++ (if safe m then completed (o_oncommit x) (re_result m) else []).

Lemma ended_emit p L l o o' : ended p L o o' → ended p (L ++ l) o (with_out (ob_out o' ++ l) o').
Proof. intros []. constructor; try done. simpl. by rewrite en_out0, app_assoc. Qed.

Lemma over_completed c r : omap over (completed c r) = omap id [c].
Proof. by destruct c. Qed.

Lemma omap_three (a b c : option Z) : omap id [a; b; c] = omap id [a] ++ omap id [b] ++ omap id [c].
Proof. by destruct a, b, c. Qed.

Lemma over_answers m x : contexts x ≡ₚ omap over (answers m x) ++ if is_done m x then [] else contexts (left_over m x).
Proof.
  unfold answers, contexts, left_over. rewrite !omap_app, !over_completed. pose proof (over_handled (o_out_handler x) (re_rvals m)) as Hh.
  assert (∀ l : list (option Z), omap id (rev l) ≡ₚ omap id l) as Hrev.
  { intros l. induction l as [|[c|] l IH]; simpl; [done|..]; rewrite omap_app; simpl; rewrite IH; [by rewrite Permutation_app_comm|by rewrite app_nil_r]. }
  rewrite omap_three, Hrev, <- Hh. unfold is_done. destruct (safe m); simpl.
  - unfold drops. rewrite over_drops, !over_completed, Hrev. simpl. rewrite app_nil_r. solve_Permutation.
  - destruct (o_oncommit x), (o_oncommit_sync x); simpl; unfold drops; rewrite ?over_drops; simpl; rewrite ?Hrev; simpl; rewrite ?app_nil_r; solve_Permutation.
Qed.

Lemma left_over_fields m x : o_session (left_over m x) = o_session x ∧ o_tid (left_over m x) = o_tid x ∧ o_attempts (left_over m x) = o_attempts x ∧
  o_map_dne_bound (left_over m x) = o_map_dne_bound x ∧ o_target (left_over m x) = o_target x ∧ o_should_resend (left_over m x) = o_should_resend x.
Proof. done. Qed.

Lemma ended_moved p L n l o o' (o1 : objecter) : wf o' → moved (-1) l o1 o' → ob_heap o' = delete p (ob_heap o) →
  ob_map o1 = ob_map o → ob_checks o1 = ob_checks o → ob_last_tid o1 = ob_last_tid o → ob_inflight o1 = ob_inflight o + n → n = 0 →
  ob_waiting o1 = ob_waiting o → (∀ i, session_at o1 i = session_at o i) → ob_out o1 ++ l = ob_out o ++ L → ended p L o o'.
Proof.
  intros Hw [M1 M2 M3 M4 M5 M6 M7] Hh Em Ec El Ei -> Ew Hs Eo. constructor; try done; try congruence; [lia|]. by rewrite M2, Ec.
Qed.

Lemma answer_ok o p x sid m : wf o → ob_heap o !! p = Some x → o_session x = Some sid → map_find (ob_checks o) (o_tid x) = None →
  wp (answer_op p m) o (λ _ o', if is_done m x then ended p (answers m x) o o'
    else wf o' ∧ moved 0 (answers m x) o o' ∧ ob_heap o' = <[p := left_over m x]> (ob_heap o)).
Proof.
  intros Hw Hp Hx Hc. unfold answer_op. apply (wp_get_op _ p x); [done|]. eapply wp_bind_eq; [apply run_handlers_ok|].
  eapply wp_bind_eq; [reflexivity|]. fold (safe m). set (o1 := with_tid_count _ _ _ _ _).
  set (o2 := with_out (ob_out o1 ++ (if safe m then completed (o_oncommit_sync x) (re_result m) else [])) o1).
  eapply (wp_bind_eq _ _ _ tt o2); [destruct (safe m); [apply complete_one_ok|by unfold o2; rewrite with_out_nil]|].
  apply wp_put_op. fold (left_over m x). set (o3 := with_heap _ o2). fold (is_done m x).
  assert (wf o3) as Hw3 by (apply (wf_put o2 p x); try done; by left).
  assert (ob_heap o3 !! p = Some (left_over m x)) as Hp3 by apply lookup_insert_eq.
  assert (∀ (b : bool) o4, (if b then complete_one (o_oncommit x) (re_result m) else mret tt) o4 =
    Ok (tt, with_out (ob_out o4 ++ (if b then completed (o_oncommit x) (re_result m) else [])) o4)) as Hlast.
  { intros [] o4; [apply complete_one_ok|by rewrite with_out_nil]. }
  destruct (is_done m x) eqn:Ed.
  - eapply wp_bind_mono; [by apply (finish_ok o3 sid p (left_over m x))|]. intros [] o4 (Hw4 & Hm & Hh).
    eapply wp_bind_eq; [apply complete_one_ok|]. unfold wp. rewrite Hlast. unfold rwp, answers. rewrite Ed, !app_assoc.
    apply ended_emit. apply ended_emit. eapply (ended_moved p _ 0 _ o o4 o3 Hw4 Hm); try done.
    + rewrite Hh. simpl. by rewrite delete_insert_eq.
    + simpl. lia.
    + simpl. by rewrite <- !app_assoc.
  - eapply wp_bind_eq; [reflexivity|]. eapply wp_bind_eq; [apply complete_one_ok|]. unfold wp. rewrite Hlast. unfold rwp. split; [done|]. split; [|done].
    constructor; try done; simpl; [lia|]. unfold answers. rewrite Ed. simpl. by rewrite <- !app_assoc.
Qed.

(** A reply that is an answer of operation [p]: its session and its attempt are the right ones. *)
Definition accepted o (m : MOSDOpReply) p x : Prop :=
  ob_heap o !! p = Some x ∧ o_session x = Some (re_source m) ∧ 0 <= re_source m ∧ o_tid x = re_tid m ∧
  (re_retry_attempt m < 0 ∨ re_retry_attempt m = o_attempts x - 1).
(** Neither a redirection nor a request to send again. *)
Definition final (m : MOSDOpReply) : Prop := re_redirect m = None ∧ re_result m ≠ - EAGAIN.

Lemma reply_found e o m p x : wf o → accepted o m p x → final m → handle_osd_op_reply e m o = answer_op p m o.
Proof.
  intros Hw (Hp & Hx & Hr & Ht & Ha) [Hd He]. destruct (home o p x (re_source m) Hw Hp Hx) as (s & Hs & Hf).
  unfold session_at in Hs. rewrite (proj2 (Z.eqb_neq (re_source m) (-1))) in Hs by lia. rewrite Ht in Hf.
  unfold handle_osd_op_reply, gets, mbind, M_bind. unfold Datatypes.id. rewrite Hs, Hf. unfold get_op. rewrite Hp.
  assert ((0 <=? re_retry_attempt m) && negb (re_retry_attempt m =? o_attempts x - 1) = false) as ->.
  { destruct Ha as [Ha|Ha]; [by rewrite (proj2 (Z.leb_gt 0 (re_retry_attempt m)))|rewrite Ha, Z.eqb_refl; apply andb_false_r]. }
  by rewrite Hd, (proj2 (Z.eqb_neq (re_result m) (- EAGAIN))).
Qed.

(** C20: A final reply - one that does not redirect and does not carry -EAGAIN - to
    the last attempt of an operation that has been sent runs the handlers of the
    parts it has results for, and the contexts it settles: the acknowledgement
    always, the commit ones if the reply is from disk or an error.  When none is left the operation is
    gone from its session and from memory, and the handlers that have not run are
    dropped; otherwise it keeps what is left.  No context is completed twice or
    lost.  A reply for an operation the session does not have, or to an earlier
    attempt, changes nothing. *)
Theorem reply_exact e o m : wf o →
  (∀ p x, accepted o m p x → final m → o_attempts x ≠ 0 →
    wp (handle_osd_op_reply e m) o (λ _ o', bag o' ≡ₚ bag o ∧
      if is_done m x then ended p (answers m x) o o'
      else wf o' ∧ moved 0 (answers m x) o o' ∧ ob_heap o' = <[p := left_over m x]> (ob_heap o))) ∧
  (0 <= re_source m → (∀ p x, ¬ accepted o m p x) → handle_osd_op_reply e m o = Ok (tt, o)).
Proof.
  intros Hw. split.
  - intros p x Ha Hf Hat. unfold wp. rewrite (reply_found e o m p x) by done. destruct Ha as (Hp & Hx & _).
    assert (map_find (ob_checks o) (o_tid x) = None) as Hc by (destruct Hw; by eapply books_sent_unchecked).
    eapply wp_mono; [by apply (answer_ok o p x (re_source m) m)|]. intros [] o' H. split; [|done]. pose proof (over_answers m x) as Hov.
    destruct (is_done m x).
    + apply (ended_bag o o' p x _ H Hp). by rewrite app_nil_r in Hov.
    + destruct H as (_ & Hm & Hh). apply (bag_step o o' (answers m x)); [apply (mv_out _ _ _ _ Hm)|apply (mv_waiting _ _ _ _ Hm)|].
      rewrite Hh. by apply (pending_put _ p x).
  - intros Hr Hn. unfold handle_osd_op_reply, gets, mbind, M_bind. unfold Datatypes.id.
    destruct (map_find (ob_sessions o) (re_source m)) as [s|] eqn:Es; [|done]. destruct (map_find (s_ops s) (re_tid m)) as [p|] eqn:Ef; [|done].
    assert (session_at o (re_source m) = Some s) as Hs by (unfold session_at; by rewrite (proj2 (Z.eqb_neq (re_source m) (-1))) by lia).
    destruct (held o _ s _ p Hw Hs Ef) as (x & Hp & Hx & Ht). unfold get_op. rewrite Hp.
    destruct ((0 <=? re_retry_attempt m) && negb (re_retry_attempt m =? o_attempts x - 1)) eqn:Ea; [done|].
    destruct (Hn p x). split_and!; try done. apply andb_false_iff in Ea as [Ea|Ea]; [left; lia|right; lia].
Qed.
