(* ===== verification/SessionScan.v ===== *)
(** * Operations in flight, map after map (src/osdc/Objecter.cc)

    New maps, the test whether a pool exists, and resets of connections; and what
    holds of the Objecter whatever happens to it, in whatever order. *)

From stdpp Require Import gmap strings sorting.
From S2P Require Import Prelude CrushTypes StdMap IntervalSet SnapSet Pg.
From S2P Require Import CrushWrapper OsdState OsdMapping OsdMappingSpec OsdIncr.
From S2P Require Import OsdQuery Target Sessions SessionSpec SessionProps.

Implicit Types (o : objecter) (x y : Op) (p q sid tid r : Z) (h : gmap Z Op).

Lemma ordered_keys_nodup {A} (m : list (Z * A)) : ordered m → NoDup (keys m).
Proof.
  unfold ordered. induction (keys m) as [|k l IH]; [constructor|]. intros [Ho Hk]%StronglySorted_inv. constructor; [|auto].
  intros Hin. apply (Forall_forall _ l) with (x := k) in Hk; [lia|done].
Qed.

(** ** Pools that do not exist *)

(** Nothing has ended; what has been put out completes nothing. *)
Record quiet p o o' : Prop := Quiet {
  qu_wf : wf o';
  qu_heap : ob_heap o' = ob_heap o;
  qu_map : ob_map o' = ob_map o;
  qu_waiting : ob_waiting o' = ob_waiting o;
  qu_inflight : ob_inflight o' = ob_inflight o;
  qu_last : ob_last_tid o' = ob_last_tid o;
  qu_sessions : ∀ i, session_at o' i = session_at o i;
  qu_checks : ∀ t q, q ≠ p → map_find (ob_checks o') t = Some q → map_find (ob_checks o) t = Some q;
  qu_out : ∃ l, ob_out o' = ob_out o ++ l ∧ omap over l = [] }.

Lemma quiet_refl p o : wf o → quiet p o o.
Proof. intros Hw. constructor; try done. exists []. by rewrite app_nil_r. Qed.

Lemma quiet_bag p o o' : quiet p o o' → bag o' ≡ₚ bag o.
Proof. intros []. destruct qu_out0 as (l & E & El). apply (bag_step o o' l); [done..|]. by rewrite El, qu_heap0. Qed.

Definition set_bound (m : OSDMap) x : Op := if negb (o_attempts x =? 0) then set_attempts (o_attempts x) (om_epoch m) x else x.

(** It is concluded that the pool does not exist. *)
Definition concludes (m : OSDMap) x : bool := (0 <? o_map_dne_bound (set_bound m x)) && (o_map_dne_bound (set_bound m x) <=? om_epoch m).

Lemma with_heap_id o p x : ob_heap o !! p = Some x → with_heap (<[p := x]> (ob_heap o)) o = o.
Proof. intros Hp. rewrite insert_id by done. by destruct o. Qed.

Lemma dne_unchecked o p x : wf o → ob_heap o !! p = Some x → (o_attempts x ≠ 0 ∨ o_map_dne_bound x ≠ 0) → map_find (ob_checks o) (o_tid x) = None.
Proof.
  intros [_ Hb] Hp Hx. destruct (map_find _ _) as [q|] eqn:E; [|done]. destruct (bk_checks _ _ _ _ _ Hb _ _ E) as (Hn & y & Hy & Ht & Ha & Hd).
  assert (q = p) as -> by (apply (bk_unique _ _ _ _ _ Hb q p y x); congruence). rewrite Hp in Hy. injection Hy as <-. by destruct Hx.
Qed.

Lemma pool_dne_ok o p x : wf o → ob_heap o !! p = Some x → is_Some (o_session x) → o_tid x ≠ 0 → 0 <= o_map_dne_bound x → (o_attempts x ≠ 0 → 0 < om_epoch (ob_map o)) →
  wp (_check_op_pool_dne p) o (λ _ o', if concludes (ob_map o) x then ended p (completes x (- ENOENT) ++ drops x) o o' else quiet p o o').
Proof.
  intros Hw Hp [sid Hs] Ht Hbd Hep. unfold _check_op_pool_dne. apply wp_gets. set (y := set_bound (ob_map o) x).
  set (o1 := with_heap (<[p := y]> (ob_heap o)) o).
  eapply (wp_bind_eq _ _ _ tt o1); [unfold change_op, get_op, mbind, M_bind; by rewrite Hp|].
  assert (o_session y = o_session x ∧ o_tid y = o_tid x ∧ o_attempts y = o_attempts x) as (E1 & E2 & E3) by (unfold y, set_bound; by destruct (negb _)).
  assert (completes y (- ENOENT) = completes x (- ENOENT) ∧ drops y = drops x) as [E4 E5] by (unfold y, set_bound; by destruct (negb _)).
  assert (o_attempts x = 0 → y = x) as E6 by (unfold y, set_bound; by intros ->).
  assert (o_attempts x ≠ 0 → o_map_dne_bound y = om_epoch (ob_map o)) as E7 by (unfold y, set_bound; intros Ha; by rewrite (proj2 (Z.eqb_neq (o_attempts x) 0))).
  apply (wp_get_op _ p y); [apply lookup_insert_eq|]. unfold concludes. fold y. destruct (Z.ltb_spec 0 (o_map_dne_bound y)) as [Hb|Hb]; simpl.
  - assert (o_attempts x ≠ 0 ∨ o_map_dne_bound x ≠ 0) as Hx by (destruct (Z.eq_dec (o_attempts x) 0) as [Ha|Ha]; [right; rewrite <- E6 by done; lia|by left]).
    pose proof (dne_unchecked o p x Hw Hp Hx) as Hc. assert (wf o1) as Hw1 by (apply (wf_put o p x y); auto).
    destruct (Z.leb_spec (o_map_dne_bound y) (om_epoch (ob_map o))) as [Hl|Hl].
    + eapply wp_bind_eq; [apply complete_contexts_ok|]. apply wp_assert; [by rewrite E1, Hs|].
      eapply wp_mono; [apply (finish_ok (with_out _ o1) sid p y); [done|apply lookup_insert_eq|by rewrite E1|by rewrite E2]|].
      intros [] o2 (Hw2 & Hm & Hh). rewrite E4, E5 in Hm. eapply (ended_moved p _ 0 _ o o2 _ Hw2 Hm); try done.
      * rewrite Hh. simpl. by rewrite delete_insert_eq.
      * simpl. lia.
      * simpl. by rewrite <- app_assoc.
    + apply wp_ret. assert (y = x) as -> by (apply E6; destruct (Z.eq_dec (o_attempts x) 0); [done|]; rewrite E7 in Hl by done; lia).
      unfold o1. rewrite with_heap_id by done. by apply quiet_refl.
  - assert (o_attempts x = 0) as Ha by (destruct (Z.eq_dec (o_attempts x) 0); [done|]; rewrite E7 in Hb by done; specialize (Hep n); lia).
    unfold o1. rewrite (E6 Ha) in *. rewrite with_heap_id by done.
    destruct (map_find (ob_checks o) (o_tid x)) as [q|] eqn:Ec.
    + unfold _send_op_map_check. apply (wp_get_op _ p x); [done|]. apply wp_gets. unfold map_count. rewrite Ec. simpl. by apply quiet_refl.
    + eapply wp_mono; [apply (map_check_ok o p x); try done; lia|]. intros [] o2 (Hw2 & ->). constructor; try done; [|by exists [GetVersion (o_tid x)]].
      intros t q Hq. simpl. rewrite map_find_put by apply (bk_sorted _ _ _ _ _ (proj2 Hw)). destruct (decide (t = o_tid x)); [by intros [= <-]|done].
Qed.

(** The operations that are counted as being in flight and are not there. *)
Definition surplus o : Z := ob_inflight o - Z.of_nat (base.size (ob_heap o)).

Lemma ended_surplus p L o o' : ended p L o o' → is_Some (ob_heap o !! p) → surplus o' = surplus o.
Proof.
  intros [] [x Hp]. unfold surplus. rewrite en_inflight, en_heap, map_size_delete_Some by eauto.
  assert (base.size (ob_heap o) ≠ 0%nat) by (rewrite map_size_non_empty_iff; intros E; by rewrite E in Hp). lia.
Qed.

Section targets.
Context (e : settings) (gm : OSDMap → Prop) (gt : op_target_t → Prop) {T : Targets e gm gt}.
Abbreviation inv := (inv gm gt).
Abbreviation op_ok := (op_ok gt).

Lemma inv_perm (l l' : list Z) o : l ≡ₚ l' → inv l o → inv l' o.
Proof using Type. intros E []. constructor; try done; [by rewrite <- E|]. intros p. by rewrite <- E. Qed.

Lemma epoch_pos o (l : list Z) p x : inv l o → ob_heap o !! p = Some x → o_attempts x ≠ 0 → 0 < om_epoch (ob_map o).
Proof using T.
  intros H Hp Ha. pose proof (tg_epoch (e := e) (gt := gt) _ (iv_map _ _ _ _ H)). destruct (Z.eq_dec (om_epoch (ob_map o)) 0) as [E|]; [|lia].
  by destruct Ha, (iv_first _ _ _ _ H E p x).
Qed.

Lemma inv_quiet (l : list Z) p o o' : inv l o → quiet p o o' → inv l o'.
Proof using Type. intros [] []. constructor; rewrite ?qu_heap0, ?qu_map0, ?qu_waiting0; done. Qed.

(** What a scan leaves alone, and what it keeps; only operations of [ps] change. *)
Record scanned (ps : list Z) o o' : Prop := Scanned {
  sc_bag : bag o' ≡ₚ bag o;
  sc_osds : om_osds (ob_map o') = om_osds (ob_map o);
  sc_epoch : om_epoch (ob_map o') = om_epoch (ob_map o);
  sc_waiting : ob_waiting o' = ob_waiting o;
  sc_last : ob_last_tid o' = ob_last_tid o;
  sc_surplus : surplus o' = surplus o;
  sc_con : ∀ i, s_con <$> session_at o' i = s_con <$> session_at o i;
  sc_checks : ∀ t q, q ∉ ps → map_find (ob_checks o') t = Some q → map_find (ob_checks o) t = Some q;
  sc_heap : ∀ q, q ∉ ps → ob_heap o' !! q = ob_heap o !! q }.

Lemma scanned_refl ps o : scanned ps o o.
Proof using Type. by constructor. Qed.

Lemma scanned_trans ps qs o1 o2 o3 : scanned ps o1 o2 → scanned qs o2 o3 → scanned (ps ++ qs) o1 o3.
Proof using Type.
  intros [A1 A2 A3 A4 A5 A6 A7 A8 A9] [B1 B2 B3 B4 B5 B6 B7 B8 B9]. constructor; try congruence; [by rewrite B1| |].
  - intros t q Hq. rewrite not_elem_of_app in Hq. destruct Hq as [Hq1 Hq2]. intros H. apply A8; [done|]. by apply B8.
  - intros q Hq. rewrite not_elem_of_app in Hq. destruct Hq as [Hq1 Hq2]. by rewrite B9, A9.
Qed.

Lemma scanned_mono ps qs o o' : (∀ p, p ∈ ps → p ∈ qs) → scanned ps o o' → scanned qs o o'.
Proof using Type.
  intros Hs []. constructor; try done.
  - intros t q Hq. apply sc_checks0. intros Hp. by apply Hq, Hs.
  - intros q Hq. apply sc_heap0. intros Hp. by apply Hq, Hs.
Qed.

(** What is to be sent again: operations without a session and without a check,
    under their tids. *)
Record resending (nr : list (Z * Z)) o : Prop := Resending {
  rs_ordered : ordered nr;
  rs_ops : ∀ tid p, (tid, p) ∈ nr → ∃ x, ob_heap o !! p = Some x ∧ o_session x = None ∧ o_tid x = tid ∧ map_find (ob_checks o) tid = None }.

Lemma resending_scanned nr ps o o' : wf o' → resending nr o → scanned ps o o' → (∀ p, p ∈ nr.*2 → p ∉ ps) → resending nr o'.
Proof using Type.
  intros Hw [Ho Hr] Hs Hd. constructor; [done|]. intros tid p Hin. destruct (Hr tid p Hin) as (x & Hp & Hx & Ht & Hc).
  assert (p ∉ ps) as Hps by (by apply Hd, (list_elem_of_fmap_2 snd nr (tid, p))).
  assert (ob_heap o' !! p = Some x) as Hp' by (by rewrite (sc_heap _ _ _ Hs)). exists x. split_and!; try done.
  destruct (map_find (ob_checks o') tid) as [q|] eqn:E; [|done]. destruct (bk_checks _ _ _ _ _ (proj2 Hw) _ _ E) as (Hn & y & Hq & Hty & _).
  assert (q = p) as -> by (apply (bk_unique _ _ _ _ _ (proj2 Hw) q p y x); congruence).
  apply (sc_checks _ _ _ Hs) in E; [congruence|done].
Qed.

Lemma op_ok_move x b : op_ok x → (∀ sid, b = Some sid → sid ≠ -1 → t_paused (o_target x) = true ∨ o_attempts x ≠ 0) → op_ok (set_session b x).
Proof using Type. intros [] H. by constructor. Qed.

(** An operation changes, and the map may have been used. *)
Lemma inv_change (l l' : list Z) o o' p x y : inv l o → wf o' → gm (ob_map o') → om_epoch (ob_map o') = om_epoch (ob_map o) → ob_waiting o' = ob_waiting o →
  ob_heap o !! p = Some x → ob_heap o' = <[p := y]> (ob_heap o) → op_ok y → (om_epoch (ob_map o) = 0 → o_attempts y = 0) →
  NoDup l' → (∀ q, q ∈ l' ↔ if decide (q = p) then o_session y = None else q ∈ l) → inv l' o'.
Proof using Type.
  intros [H1 H2 H3 H4 H5 H6 H7] Hw Hm Em Ew Hp Hh Hy Hy0 Hnd Hl. constructor; rewrite ?Em, ?Ew; try done.
  - intros q. rewrite Hl, Hh. destruct (decide (q = p)) as [->|Hq]; [|by rewrite lookup_insert_ne].
    rewrite lookup_insert_eq. split; [intros ?; by eexists|]. by intros (z & [= <-] & Ez).
  - intros q z. rewrite Hh. destruct (decide (q = p)) as [->|Hq]; rewrite ?lookup_insert_eq, ?lookup_insert_ne by done; [by intros [= <-]|apply H5].
  - intros E0 q z. rewrite Hh. destruct (decide (q = p)) as [->|Hq]; rewrite ?lookup_insert_eq, ?lookup_insert_ne by done; [intros [= <-]; auto|by apply H6].
Qed.

Lemma scanned_move o o' p x b : same o o' → ob_heap o !! p = Some x → ob_heap o' = <[p := set_session b x]> (ob_heap o) → scanned [p] o o'.
Proof using Type.
  intros Hm Hp Hh. pose proof Hm as [M1 M2 M3 M4 M5 M6 M7]. constructor; try congruence.
  - apply (bag_step o o' []); [done..|]. rewrite Hh. simpl. symmetry. by apply (pending_same _ p x).
  - unfold surplus. rewrite Hh, map_size_insert_Some by eauto. lia.
  - intros q Hq. rewrite Hh, lookup_insert_ne; [done|]. intros ->. apply Hq. by left.
Qed.

Lemma fresh_tid (nr : list (Z * Z)) o p x : inv (nr.*2) o → resending nr o → ob_heap o !! p = Some x → is_Some (o_session x) → o_tid x ∉ keys nr.
Proof using Type.
  intros Hi [_ Hr] Hp Hx [[t q] [Et Hin]]%list_elem_of_fmap_1. simpl in Et. subst t. destruct (Hr _ _ Hin) as (y & Hq & Hy & Ht & _).
  assert (q = p) as -> by (by apply (one_op o p q x y (iv_wf _ _ _ _ Hi))). rewrite Hp in Hq. injection Hq as <-. rewrite Hy in Hx. by destruct Hx.
Qed.

Lemma op_ok_calc x t (l : Z) v : op_ok x → gt t → v ≠ NEED_RESEND → (v = NEED_RESEND ∨ t_paused t = t_paused (o_target x)) → op_ok (set_target t l x).
Proof using Type. intros [] Ht Hv [?|Hp]; [done|]. constructor; try done. simpl. by rewrite Hp. Qed.

Lemma scanned_calc o p x t l m' : ob_heap o !! p = Some x → om_osds m' = om_osds (ob_map o) → om_epoch m' = om_epoch (ob_map o) →
  scanned [p] o (with_heap (<[p := set_target t l x]> (ob_heap o)) (with_map m' o)).
Proof using Type.
  intros Hp Eo Ee. constructor; try done.
  - apply (bag_step _ _ []); [simpl; by rewrite app_nil_r|done|]. simpl. symmetry. by apply (pending_same _ p x).
  - unfold surplus. simpl. by rewrite map_size_insert_Some by eauto.
  - intros q Hq. simpl. rewrite lookup_insert_ne; [done|]. intros ->. apply Hq. by left.
Qed.

Lemma scanned_ended p L o o' x : ended p L o o' → ob_heap o !! p = Some x → omap over L ≡ₚ contexts x → scanned [p] o o'.
Proof using Type.
  intros He Hp HL. pose proof (ended_bag o o' p x L He Hp HL) as Hb. pose proof (ended_surplus p L o o' He ltac:(by eexists)) as Hs.
  destruct He. constructor; try congruence.
  - intros t q Hq. apply en_checks. intros ->. apply Hq. by left.
  - intros q Hq. rewrite en_heap, lookup_delete_ne; [done|]. intros ->. apply Hq. by left.
Qed.

Lemma scanned_quiet p o o' : quiet p o o' → scanned [p] o o'.
Proof using Type.
  intros Hq. pose proof (quiet_bag p o o' Hq) as Hb. destruct Hq. constructor; try congruence.
  - unfold surplus. congruence.
  - intros t q Hn. apply qu_checks0. intros ->. apply Hn. by left.
Qed.

(** The operation whose target has been calculated goes to the ones that are sent again. *)
Lemma mark_ok (nr : list (Z * Z)) o p x t l m' : inv (nr.*2) o → resending nr o → ob_heap o !! p = Some x → is_Some (o_session x) →
  gm m' → om_osds m' = om_osds (ob_map o) → om_epoch m' = om_epoch (ob_map o) → gt t → wf (with_heap (<[p := set_target t l x]> (ob_heap o)) (with_map m' o)) →
  wp (mark_resend p nr) (with_heap (<[p := set_target t l x]> (ob_heap o)) (with_map m' o))
    (λ nr' o', inv (nr'.*2) o' ∧ resending nr' o' ∧ scanned [p] o o').
Proof using Type.
  intros Hi Hr Hp Hx Hgm Eo Ee Hgt Hw1. pose proof (fresh_tid nr o p x Hi Hr Hp Hx) as Hk. pose proof (map_put_new nr (o_tid x) p Hk) as Hperm.
  destruct Hx as [sid Hx]. pose proof (scanned_calc o p x t l m' Hp Eo Ee) as Hs0. set (y := set_target t l x) in *. set (o1 := with_heap _ _) in *.
  unfold mark_resend. apply (wp_get_op _ p y); [apply lookup_insert_eq|]. change (o_session y) with (o_session x). rewrite Hx.
  eapply wp_bind_mono; [apply (remove_ok o1 sid p y Hw1); [apply lookup_insert_eq|done]|]. intros [] o2 (Hw2 & Hm & Hh).
  pose proof (scanned_move o1 o2 p y None Hm ltac:(apply lookup_insert_eq) Hh) as Hs1.
  set (z := set_session None y) in *. assert (ob_heap o2 !! p = Some z) as Hp2 by (rewrite Hh; apply lookup_insert_eq).
  assert (p ∉ nr.*2) as Hpn by (intros H%(iv_limbo _ _ _ _ Hi); destruct H as (w & Hy & Ey); congruence).
  unfold _op_cancel_map_check. rewrite wp_bind. apply (wp_get_op _ p z); [done|]. unfold modify, wp at 1, rwp. apply wp_ret.
  change (o_tid z) with (o_tid x). change (o_tid y) with (o_tid x). set (o3 := with_checks _ o2).
  assert (wf o3) as Hw3 by (destruct Hw2; split; [done|]; by apply books_answered).
  assert (scanned [p] o o3) as Hs.
  { assert (scanned [p] o2 o3) as Hs2 by (constructor; try done; intros t' q _; simpl; rewrite map_find_del; by destruct (decide (t' = o_tid x))).
    apply (scanned_mono (([p] ++ [p]) ++ [p])); [by intros q [[?|?]%elem_of_app|?]%elem_of_app|]. by eapply scanned_trans; [eapply scanned_trans|]. }
  split; [|split; [|done]].
  - apply (inv_perm (p :: nr.*2)); [by rewrite Hperm|]. pose proof (mv_map _ _ _ _ Hm) as Em.
    apply (inv_change (nr.*2) _ o o3 p x z Hi Hw3); try done; simpl; rewrite ?Em; try done.
    + by rewrite (mv_waiting _ _ _ _ Hm).
    + rewrite Hh. simpl. apply insert_insert_eq.
    + destruct (iv_ops _ _ _ _ Hi p x Hp). by constructor.
    + intros E0. by apply (iv_first _ _ _ _ Hi E0 p x).
    + constructor; [done|by apply (iv_nodup _ _ _ _ Hi)].
    + intros q. rewrite elem_of_cons. destruct (decide (q = p)) as [->|Hq]; [by split; [|left]|]. split; [by intros [?|?]|by right].
  - assert (resending nr o3) as Hr3 by (apply (resending_scanned nr [p] o o3 Hw3 Hr Hs); by intros q Hq ->%list_elem_of_singleton).
    constructor; [apply map_put_ordered, Hr3|]. intros t' q Hin. rewrite Hperm, elem_of_cons in Hin.
    destruct Hin as [[= -> ->]|Hin]; [|by apply (rs_ops _ _ Hr3)]. exists z. simpl. by rewrite map_find_del, decide_True.
Qed.

Lemma scan_one_ok f fw (nr : list (Z * Z)) o p x : inv (nr.*2) o → resending nr o → ob_heap o !! p = Some x → is_Some (o_session x) →
  wp (scan_one e f fw p nr) o (λ nr' o', inv (nr'.*2) o' ∧ resending nr' o' ∧ scanned [p] o o').
Proof using T.
  intros Hi Hr Hp Hx. pose proof (iv_ops _ _ _ _ Hi p x Hp) as Hok. unfold scan_one.
  eapply wp_bind_mono; [apply (calc_op_ok e gm gt o p x); [by eapply iv_wf|by eapply iv_map|done|apply Hok]|].
  intros v o1 (t & l & m' & -> & Hw1 & Hgm & Eo & Ee & Hgt & Hosd & _ & Hpause & _). pose proof (scanned_calc o p x t l m' Hp Eo Ee) as Hs1.
  apply (wp_get_op _ p (set_target t l x)); [apply lookup_insert_eq|].
  assert (p ∉ nr.*2) as Hpn by (intros H%(iv_limbo _ _ _ _ Hi); destruct H as (w & Hy & Ey); rewrite Hp in Hy; injection Hy as <-; rewrite Ey in Hx; by destruct Hx).
  assert (∀ o', wf o' → scanned [p] o o' → resending nr o') as Hres by (intros o' Hw' Hs'; apply (resending_scanned nr [p] o o' Hw' Hr Hs'); by intros q Hq ->%list_elem_of_singleton).
  set (y := set_target t l x) in *. set (o1 := with_heap _ _) in *. assert (ob_heap o1 !! p = Some y) as Hp1 by apply lookup_insert_eq.
  assert (v ≠ NEED_RESEND → inv (nr.*2) o1) as Hi1.
  { intros Hv. apply (inv_change (nr.*2) _ o o1 p x y Hi Hw1); try done; [by apply (op_ok_calc x t l v)|intros E0; by apply (iv_first _ _ _ _ Hi E0 p x)|by apply (iv_nodup _ _ _ _ Hi)|].
    intros q. destruct (decide (q = p)) as [->|Hq]; [|done]. split; [done|]. change (o_session y) with (o_session x). intros Ey. rewrite Ey in Hx. by destruct Hx. }
  destruct v.
  - destruct (_ && _); [|by apply mark_ok]. apply wp_ret. split; [by apply Hi1|]. auto.
  - by apply mark_ok.
  - specialize (Hi1 ltac:(done)). pose proof (iv_ops _ _ _ _ Hi1 p y Hp1) as Hoky.
    eapply wp_bind_mono; [apply (pool_dne_ok o1 p y Hw1 Hp1); [done|apply Hoky|apply Hoky|intros Ha; by apply (epoch_pos o1 _ p y Hi1)]|].
    intros [] o2 H2. apply wp_ret. assert (inv (nr.*2) o2 ∧ scanned [p] o1 o2) as [Hi2 Hs2].
    { destruct (concludes _ _); [|by split; [eapply inv_quiet|apply scanned_quiet]].
      split; [by eapply inv_ended|]. eapply scanned_ended; [done|done|apply over_end]. }
    split; [done|]. assert (scanned [p] o o2) as Hs by (apply (scanned_mono ([p] ++ [p])); [by intros q [?|?]%elem_of_app|by eapply scanned_trans]).
    split; [|done]. apply Hres; [by eapply iv_wf|done].
Qed.

(** The operations of a session, one after the other. *)
Lemma scan_ops_ok f fw (ops : list (Z * Z)) : ∀ nr o, inv (nr.*2) o → resending nr o → NoDup (ops.*2) →
  (∀ p, p ∈ ops.*2 → ∃ x, ob_heap o !! p = Some x ∧ is_Some (o_session x)) →
  wp (scan_ops e f fw ops nr) o (λ nr' o', inv (nr'.*2) o' ∧ resending nr' o' ∧ scanned (ops.*2) o o').
Proof using T.
  induction ops as [|[tid p] ops IH]; intros nr o Hi Hr Hnd Hin; cbn [scan_ops].
  { apply wp_ret. split; [done|]. split; [done|]. apply scanned_refl. }
  apply NoDup_cons in Hnd as [Hpn Hnd]. destruct (Hin p) as (x & Hp & Hx); [by left|].
  eapply wp_bind_mono; [by apply (scan_one_ok f fw nr o p x)|]. intros nr1 o1 (Hi1 & Hr1 & Hs1).
  eapply wp_mono; [apply (IH nr1 o1); try done|].
  - intros q Hq. rewrite (sc_heap _ _ _ Hs1) by (by intros ->%list_elem_of_singleton). apply Hin. by right.
  - intros nr2 o2 (Hi2 & Hr2 & Hs2). split; [done|]. split; [done|]. change (scanned ([p] ++ ops.*2) o o2). by eapply scanned_trans.
Qed.

Lemma session_ops_ok o sid s : wf o → session_at o sid = Some s → NoDup ((s_ops s).*2) ∧
  ∀ p, p ∈ (s_ops s).*2 → ∃ x, ob_heap o !! p = Some x ∧ o_session x = Some sid.
Proof using Type.
  intros Hw Hs. pose proof (bk_session _ _ _ _ _ (proj2 Hw) sid s Hs) as (_ & _ & Ho).
  assert (∀ tid p, (tid, p) ∈ s_ops s → ∃ x, ob_heap o !! p = Some x ∧ o_session x = Some sid ∧ o_tid x = tid) as Hin.
  { intros tid p Hin. apply (held o sid s tid p Hw Hs). by apply map_find_elem. }
  split; [|intros p [[tid q] [-> Hq]]%list_elem_of_fmap_1; destruct (Hin _ _ Hq) as (x & ? & ? & _); eauto].
  apply NoDup_fmap_2_strong; [|by apply ordered_nodup]. intros [t p] [t' q] H1 H2 [= ->].
  destruct (Hin _ _ H1) as (x & Hx & _ & <-), (Hin _ _ H2) as (y & Hy & _ & <-). congruence.
Qed.

(** ** Sessions that are closed *)

Lemma pending_ext h h' : contexts <$> h' = contexts <$> h → pending h' ≡ₚ pending h ∧ base.size h' = base.size h.
Proof using Type.
  intros E. assert (∀ k : gmap Z Op, pending k = concat (snd <$> map_to_list (contexts <$> k))) as Ep.
  { intros k. unfold pending. by rewrite map_to_list_fmap, <- list_fmap_compose. }
  split; [by rewrite !Ep, E|]. by rewrite <- (map_size_fmap contexts h'), E, map_size_fmap.
Qed.

(** [h] with the operations of [ps] in session [b]. *)
Definition moved_to (b : option Z) (ps : list Z) h h' : Prop := ∀ q, h' !! q = if decide (q ∈ ps) then set_session b <$> h !! q else h !! q.

Lemma moved_to_pending b ps h h' : moved_to b ps h h' → contexts <$> h' = contexts <$> h.
Proof using Type. intros H. apply map_eq. intros q. rewrite !lookup_fmap, H. destruct (decide (q ∈ ps)); [|done]. by destruct (h !! q). Qed.

Lemma moved_to_cons b p x ps h h' : h !! p = Some x → p ∉ ps → moved_to b ps (<[p := set_session b x]> h) h' → moved_to b (p :: ps) h h'.
Proof using Type.
  intros Hp Hps H q. rewrite (H q). destruct (decide (q = p)) as [->|Hq].
  - rewrite decide_False, decide_True by (done || by left). by rewrite lookup_insert_eq, Hp.
  - rewrite lookup_insert_ne by done. destruct (decide (q ∈ ps)); [rewrite decide_True; [done|by right]|].
    rewrite decide_False; [done|]. by intros [?|?]%elem_of_cons.
Qed.

Lemma same_refl o : same o o.
Proof using Type. constructor; try done; [lia|by rewrite app_nil_r]. Qed.

Lemma remove_ops_ok sid ops : ∀ o, wf o → NoDup (ops.*2) → (∀ p, p ∈ ops.*2 → ∃ x, ob_heap o !! p = Some x ∧ o_session x = Some sid) →
  wp (remove_ops sid ops) o (λ _ o', wf o' ∧ same o o' ∧ moved_to None (ops.*2) (ob_heap o) (ob_heap o')).
Proof using Type.
  induction ops as [|[t p] ops IH]; intros o Hw Hnd Hin; cbn [remove_ops].
  { apply wp_ret. split; [done|]. split; [apply same_refl|done]. }
  apply NoDup_cons in Hnd as [Hpn Hnd]. destruct (Hin p) as (x & Hp & Hx); [by left|].
  eapply wp_bind_mono; [by apply (remove_ok o sid p x)|]. intros [] o1 (Hw1 & Hm1 & Hh1). eapply wp_mono; [apply (IH o1); try done|].
  - intros q Hq. rewrite Hh1, lookup_insert_ne by (by intros ->). apply Hin. by right.
  - intros [] o2 (Hw2 & Hm2 & Hh2). split; [done|]. split; [by apply (moved_trans 0 0 [] [] o o1 o2)|].
    rewrite Hh1 in Hh2. exact (moved_to_cons _ p x (ops.*2) _ _ Hp Hpn Hh2).
Qed.

Lemma assign_ops_ok sid ops : ∀ o, wf o → NoDup (ops.*2) → is_Some (session_at o sid) →
  (∀ p, p ∈ ops.*2 → ∃ x, ob_heap o !! p = Some x ∧ o_session x = None ∧ o_tid x ≠ 0) →
  wp (assign_ops sid ops) o (λ _ o', wf o' ∧ same o o' ∧ moved_to (Some sid) (ops.*2) (ob_heap o) (ob_heap o')).
Proof using Type.
  induction ops as [|[t p] ops IH]; intros o Hw Hnd Hs Hin; cbn [assign_ops].
  { apply wp_ret. split; [done|]. split; [apply same_refl|done]. }
  apply NoDup_cons in Hnd as [Hpn Hnd]. destruct (Hin p) as (x & Hp & Hx & Ht); [by left|].
  eapply wp_bind_mono; [by apply (assign_ok o sid p x)|]. intros [] o1 (Hw1 & Hm1 & Hh1). eapply wp_mono; [apply (IH o1); try done|].
  - by apply (moved_exists _ _ o o1 sid Hm1).
  - intros q Hq. rewrite Hh1, lookup_insert_ne by (by intros ->). apply Hin. by right.
  - intros [] o2 (Hw2 & Hm2 & Hh2). split; [done|]. split; [by apply (moved_trans 0 0 [] [] o o1 o2)|].
    rewrite Hh1 in Hh2. exact (moved_to_cons _ p x (ops.*2) _ _ Hp Hpn Hh2).
Qed.

(** What holds over a change of the sessions too. *)
Record went o o' : Prop := Went {
  wn_bag : bag o' ≡ₚ bag o;
  wn_osds : om_osds (ob_map o') = om_osds (ob_map o);
  wn_epoch : om_epoch (ob_map o') = om_epoch (ob_map o);
  wn_waiting : ob_waiting o' = ob_waiting o;
  wn_last : ob_last_tid o' = ob_last_tid o;
  wn_surplus : surplus o' = surplus o }.

Lemma went_refl o : went o o.
Proof using Type. by constructor. Qed.
Lemma went_trans o1 o2 o3 : went o1 o2 → went o2 o3 → went o1 o3.
Proof using Type. intros [] []. constructor; congruence || (by etrans). Qed.
Lemma went_scanned ps o o' : scanned ps o o' → went o o'.
Proof using Type. intros []. by constructor. Qed.

(** The operations of a session that is left are in no session. *)
Lemma emptied o o' sid s s' : wf o → wf o' → session_at o sid = Some s → session_at o' sid = Some s' →
  moved_to None ((s_ops s).*2) (ob_heap o) (ob_heap o') → s_ops s' = [].
Proof using Type.
  intros Hw Hw' Hs Hs' Hh. destruct (s_ops s') as [|[t p] l] eqn:E; [done|]. exfalso.
  destruct (held o' sid s' t p Hw' Hs') as (x & Hp & Hx & Ht); [rewrite E; simpl; by rewrite Z.eqb_refl|].
  rewrite (Hh p) in Hp. destruct (decide (p ∈ (s_ops s).*2)) as [Hin|Hn].
  - destruct (ob_heap o !! p); [|done]. injection Hp as <-. done.
  - destruct (home o p x sid Hw Hp Hx) as (s0 & Hs0 & Hf). rewrite Hs in Hs0. injection Hs0 as <-. apply Hn.
    assert ((o_tid x, p) ∈ s_ops s) as Hin; [|by apply (list_elem_of_fmap_2 snd (s_ops s) (o_tid x, p))].
    by apply map_find_pair.
Qed.

Definition con_at o i : option (option entity_addr_t) := s_con <$> session_at o i.

(** The session is gone. *)
Lemma erase_ok o sid s : wf o → sid ≠ -1 → session_at o sid = Some s → s_ops s = [] →
  wf (with_sessions (map_del (ob_sessions o) sid) (ob_homeless o) o) ∧
  ∀ i, session_at (with_sessions (map_del (ob_sessions o) sid) (ob_homeless o) o) i = upd (session_at o) sid None i.
Proof using Type.
  intros [[Ho Hk] Hb] Hn Hs He.
  assert (∀ i, session_at (with_sessions (map_del (ob_sessions o) sid) (ob_homeless o) o) i = upd (session_at o) sid None i) as Hat.
  { intros i. unfold session_at, upd. simpl. destruct (Z.eqb_spec i (-1)) as [->|Hi]; [by rewrite decide_False by auto|]. by rewrite map_find_del. }
  split; [|done]. split; [split; [by apply map_del_ordered|]|].
  - simpl. intros i [Hi _]%map_del_keys. by apply Hk.
  - eapply books_ext; [intros i; symmetry; apply Hat|]. by apply (books_close _ _ _ _ _ sid s).
Qed.

(** The operations of a session that is closed are homeless. *)
Lemma close_ok o sid s : wf o → sid ≠ -1 → session_at o sid = Some s →
  wp (close_session sid) o (λ _ o', wf o' ∧ moved_to (Some (-1)) ((s_ops s).*2) (ob_heap o) (ob_heap o') ∧
    ob_map o' = ob_map o ∧ ob_checks o' = ob_checks o ∧ ob_waiting o' = ob_waiting o ∧ ob_last_tid o' = ob_last_tid o ∧ ob_inflight o' = ob_inflight o ∧
    (∃ a, ob_out o' = ob_out o ++ [MarkDown a]) ∧ ∀ i, con_at o' i = if decide (i = sid) then None else con_at o i).
Proof using Type.
  intros Hw Hn Hs. destruct (session_ops_ok o sid s Hw Hs) as [Hnd Hin]. destruct (bk_session _ _ _ _ _ (proj2 Hw) sid s Hs) as (Es & [a Ea] & _); [done|].
  unfold close_session. apply (wp_get_sess _ sid s); [done|]. rewrite Ea, Es. apply wp_emit. set (o1 := with_out _ o).
  eapply wp_bind_mono; [by apply (remove_ops_ok sid (s_ops s) o1)|]. intros [] o2 (Hw2 & Hm2 & Hh2). apply wp_modify.
  assert (∃ s2, session_at o2 sid = Some s2) as [s2 Hs2] by (apply (moved_exists _ _ o1 o2 sid Hm2); by eexists).
  pose proof (emptied o1 o2 sid s s2 Hw Hw2 Hs Hs2 Hh2) as He. destruct (erase_ok o2 sid s2 Hw2 Hn Hs2 He) as [Hw3 Hat].
  set (o3 := with_sessions _ _ o2) in *. eapply wp_mono; [apply (assign_ops_ok (-1) (s_ops s) o3 Hw3 Hnd); [by eexists|]|].
  - intros p Hp. destruct (Hin p Hp) as (x & Hx & Ex). exists (set_session None x). split; [|split; [done|]].
    + change (ob_heap o2 !! p = Some (set_session None x)). rewrite (Hh2 p), decide_True by done. change (ob_heap o1) with (ob_heap o). by rewrite Hx.
    + destruct (bk_tids _ _ _ _ _ (proj2 Hw) p x Hx) as [_ H]. apply H. by rewrite Ex.
  - intros [] o4 (Hw4 & Hm4 & Hh4). destruct Hm2 as [M1 M2 M3 M4 M5 M6 M7], Hm4 as [N1 N2 N3 N4 N5 N6 N7].
    change (ob_map o3) with (ob_map o2) in N1. change (ob_checks o3) with (ob_checks o2) in N2. change (ob_last_tid o3) with (ob_last_tid o2) in N3.
    change (ob_inflight o3) with (ob_inflight o2) in N4. change (ob_waiting o3) with (ob_waiting o2) in N5. change (ob_out o3) with (ob_out o2) in N6.
    change (ob_inflight o1) with (ob_inflight o) in M4.
    split; [done|]. split.
    + intros q. rewrite (Hh4 q). change (ob_heap o3) with (ob_heap o2). rewrite (Hh2 q). change (ob_heap o1) with (ob_heap o).
      destruct (decide (q ∈ (s_ops s).*2)); [|done]. by destruct (ob_heap o !! q).
    + rewrite N1, N2, N3, N4, N5, N6, M1, M2, M3, M4, M5, M6. split_and!; try done; [lia|exists a; simpl; by rewrite !app_nil_r|].
      intros i. unfold con_at. rewrite N7, Hat. unfold upd. destruct (decide (i = sid)); [done|]. by rewrite M7.
Qed.

Lemma close_keeps (nr : list (Z * Z)) o sid : inv (nr.*2) o → resending nr o → sid ≠ -1 → is_Some (session_at o sid) →
  wp (close_session sid) o (λ _ o', inv (nr.*2) o' ∧ resending nr o' ∧ went o o' ∧ ∀ i, con_at o' i = if decide (i = sid) then None else con_at o i).
Proof using Type.
  intros Hi Hr Hn [s Hs]. eapply wp_mono; [by apply (close_ok o sid s (iv_wf _ _ _ _ Hi))|].
  intros [] o' (Hw' & Hh & Em & Ec & Ew & El & Ei & (a & Eo) & Hcon). destruct (session_ops_ok o sid s (iv_wf _ _ _ _ Hi) Hs) as [_ Hin].
  assert (∀ q x, ob_heap o !! q = Some x → o_session x = None → ob_heap o' !! q = Some x) as Hkeep.
  { intros q x Hq Hx. rewrite (Hh q), decide_False; [done|]. intros (y & Hy & Ey)%Hin. congruence. }
  assert (∀ q y, ob_heap o' !! q = Some y → ∃ x, ob_heap o !! q = Some x ∧ (y = x ∨ y = set_session (Some (-1)) x)) as Hback.
  { intros q y. rewrite (Hh q). destruct (decide _); [|eauto]. destruct (ob_heap o !! q) as [x|]; [|done]. intros [= <-]. eauto. }
  destruct (pending_ext _ _ (moved_to_pending _ _ _ _ Hh)) as [Hpend Hsize]. split; [|split; [|split; [|done]]].
  - destruct Hi as [H1 H2 H3 H4 H5 H6 H7]. constructor; rewrite ?Em, ?Ew; try done.
    + intros q. rewrite H3. split; [intros (x & Hx & Ex); exists x; auto|]. intros (y & Hy & Ey). destruct (Hback q y Hy) as (x & Hx & [->| ->]); [eauto|done].
    + intros q y Hy. destruct (Hback q y Hy) as (x & Hx & [->| ->]); [eauto|]. apply op_ok_move; [eauto|]. by intros ? [= <-].
    + intros E0 q y Hy. destruct (Hback q y Hy) as (x & Hx & [->| ->]); by apply (H6 E0 q x).
  - destruct Hr as [Hro Hr]. constructor; [done|]. intros t p Hp. destruct (Hr t p Hp) as (x & Hx & Ex & Et & Hc). exists x. rewrite Ec. auto.
  - constructor; try congruence; [|unfold surplus; congruence]. apply (bag_step o o' [MarkDown a]); [done..|]. by rewrite Hpend.
Qed.

(** ** New maps *)

Lemma scan_session_ok sid f fw (nr : list (Z * Z)) o : inv (nr.*2) o → resending nr o → is_Some (session_at o sid) →
  wp (scan_session e sid f fw nr) o (λ nr' o', inv (nr'.*2) o' ∧ resending nr' o' ∧ went o o' ∧ ∀ i, con_at o' i = con_at o i).
Proof using T.
  intros Hi Hr [s Hs]. unfold scan_session. apply (wp_get_sess _ sid s); [done|]. destruct (session_ops_ok o sid s (iv_wf _ _ _ _ Hi) Hs) as [Hnd Hin].
  eapply wp_mono; [apply scan_ops_ok; try done|].
  - intros p Hp. destruct (Hin p Hp) as (x & Hx & Ex). exists x. by rewrite Ex.
  - intros nr' o' (Hi' & Hr' & Hs'). split; [done|]. split; [done|]. split; [by eapply went_scanned|apply Hs'].
Qed.

Lemma stale_ok m sid s : osds_wf (om_osds m) → s_osd s = sid → is_Some (s_con s) →
  ∃ b, session_stale m s = Ok b ∧ (b = false → leads m sid (s_con s)).
Proof using Type.
  intros Hw Es [a Ea]. unfold session_stale, get_inst. rewrite (is_up_ok _ Hw), Es, Ea. simpl. destruct (up_b (om_osds m) sid) eqn:Eu; simpl; [|by exists true].
  destruct (get_addr_up _ sid Hw Eu) as (a' & Ha). rewrite Ha. simpl. eexists. split; [done|]. intros [= H%negb_false_iff%bool_decide_eq_true]. split; [done|].
  exists a'. by subst.
Qed.

(** Each session is scanned, and closed unless it leads to its OSD. *)
Lemma scan_sessions_ok f fw sids : ∀ nr o, inv (nr.*2) o → resending nr o → NoDup sids → (∀ i, i ∈ sids → i ≠ -1 ∧ is_Some (session_at o i)) →
  (∀ i c, i ≠ -1 → i ∉ sids → con_at o i = Some c → leads (ob_map o) i c) →
  wp (scan_sessions e sids f fw nr) o (λ nr' o', inv (nr'.*2) o' ∧ resending nr' o' ∧ went o o' ∧ leading o').
Proof using T.
  induction sids as [|sid sids IH]; intros nr o Hi Hr Hnd Hin Hl; cbn [scan_sessions].
  { apply wp_ret. split; [done|]. split; [done|]. split; [apply went_refl|]. intros i c Hn. apply Hl; [done|]. apply not_elem_of_nil. }
  apply NoDup_cons in Hnd as [Hnin Hnd]. destruct (Hin sid) as [Hn Hs]; [by left|].
  eapply wp_bind_mono; [by apply scan_session_ok|]. intros nr1 o1 (Hi1 & Hr1 & Hw1 & Hc1).
  assert (∀ i, is_Some (session_at o i) → is_Some (session_at o1 i)) as Hex by (intros i; rewrite <- !(fmap_is_Some s_con); fold (con_at o i) (con_at o1 i); by rewrite Hc1).
  destruct (Hex sid Hs) as [s1 Hs1]. apply (wp_get_sess _ sid s1); [done|]. apply wp_gets.
  destruct (bk_session _ _ _ _ _ (proj2 (iv_wf _ _ _ _ Hi1)) sid s1 Hs1) as (Es & Hcon & _).
  destruct (stale_ok (ob_map o1) sid s1) as (b & Eb & Hb); [by apply (tg_osds (e := e) (gt := gt)), (iv_map _ _ _ _ Hi1)|done|by apply Hcon|].
  eapply wp_bind_eq; [unfold lift; rewrite Eb; reflexivity|].
  assert (∀ m i c, om_osds m = om_osds (ob_map o1) → leads (ob_map o) i c → leads m i c) as Hlm by (intros m i c E; unfold leads; rewrite E, (wn_osds _ _ Hw1); done).
  assert (wp (if b then close_session sid else mret tt) o1 (λ _ o2, inv (nr1.*2) o2 ∧ resending nr1 o2 ∧ went o1 o2 ∧
    ∀ i, con_at o2 i = if decide (i = sid) then if b then None else con_at o1 i else con_at o1 i)) as Hclose.
  { destruct b; [by apply close_keeps|]. apply wp_ret. split; [done|]. split; [done|]. split; [apply went_refl|]. intros i. by destruct (decide (i = sid)). }
  eapply wp_bind_mono; [exact Hclose|]. intros [] o2 (Hi2 & Hr2 & Hw2 & Hc2). eapply wp_mono; [apply (IH nr1 o2); try done|].
  - intros i Hi'. destruct (Hin i) as [Hni Hsi]; [by right|]. split; [done|]. rewrite <- (fmap_is_Some s_con). fold (con_at o2 i).
    rewrite Hc2, decide_False by (by intros ->). unfold con_at. rewrite fmap_is_Some. auto.
  - intros i c Hni Hi'. rewrite Hc2. destruct (decide (i = sid)) as [->|Hne].
    + destruct b; [done|]. unfold con_at. rewrite Hs1. intros [= <-]. unfold leads. rewrite (wn_osds _ _ Hw2). by apply Hb.
    + rewrite Hc1. intros Hc. apply Hlm; [by rewrite (wn_osds _ _ Hw2)|]. apply Hl; [done| |done]. by intros [?|?]%elem_of_cons.
  - intros nr3 o3 (Hi3 & Hr3 & Hw3 & Hl3). split; [done|]. split; [done|]. split; [|done]. by eapply went_trans; [|eapply went_trans].
Qed.

Lemma keys_ok o i : wf o → i ∈ keys (ob_sessions o) → i ≠ -1 ∧ is_Some (session_at o i).
Proof using Type.
  intros [[_ Hk] _] Hi. pose proof (Hk i Hi) as Hp. split; [lia|]. unfold session_at. rewrite (proj2 (Z.eqb_neq i (-1))) by lia. by apply map_find_in.
Qed.

Lemma scan_epoch_ok f fw (nr : list (Z * Z)) o : inv (nr.*2) o → resending nr o →
  wp (scan_epoch e f fw nr) o (λ nr' o', inv (nr'.*2) o' ∧ resending nr' o' ∧ went o o' ∧ leading o').
Proof using T.
  intros Hi Hr. unfold scan_epoch. eapply wp_bind_mono; [apply scan_session_ok; [done|done|by eexists]|]. intros nr1 o1 (Hi1 & Hr1 & Hw1 & _).
  unfold check_sessions. apply wp_gets. destruct (iv_wf _ _ _ _ Hi1) as [[Ho Hk] Hb]. eapply wp_mono; [apply (scan_sessions_ok f fw _ nr1 o1); try done|].
  - by apply ordered_keys_nodup.
  - intros i Hin. by apply keys_ok.
  - intros i c Hn Hnin Hc. exfalso. apply Hnin. apply map_find_in. unfold con_at, session_at in Hc. rewrite (proj2 (Z.eqb_neq i (-1))) in Hc by done.
    by destruct (map_find (ob_sessions o1) i).
  - intros nr2 o2 (Hi2 & Hr2 & Hw2 & Hl2). split; [done|]. split; [done|]. split; [by eapply went_trans|done].
Qed.
End targets.
