(* ===== verification/SessionRun.v ===== *)
(** * The Objecter's operations, whatever happens (src/osdc/Objecter.cc)

    The handler of new maps as a whole, resets, and the events in any order: what
    holds of every state that can be reached. *)

From stdpp Require Import gmap strings sorting.
From S2P Require Import Prelude CrushTypes StdMap IntervalSet SnapSet Pg.
From S2P Require Import CrushWrapper OsdState OsdMapping OsdMappingSpec OsdIncr.
From S2P Require Import OsdQuery Target Sessions SessionSpec SessionProps SessionScan.

Implicit Types (o : objecter) (x y : Op) (p q sid tid r : Z) (h : gmap Z Op).

Lemma map_put_in {A} (m : list (Z * A)) k v i w : (i, w) ∈ map_put m k v → (i = k ∧ w = v) ∨ (i, w) ∈ m.
Proof.
  induction m as [|[j u] m IH]; simpl; [intros [= -> ->]%list_elem_of_singleton; by left|]. destruct (j <? k).
  - rewrite !elem_of_cons. intros [?|Hin]; [by right; left|]. destruct (IH Hin); auto.
  - destruct (j =? k); rewrite !elem_of_cons; intros [[= -> ->]|?]; auto.
Qed.

Section targets.
Context (e : settings) (gm : OSDMap → Prop) (gt : op_target_t → Prop) {T : Targets e gm gt}.
Abbreviation inv := (SessionProps.inv gm gt).
Abbreviation op_ok := (SessionProps.op_ok gt).

(** ** Sending again *)

Definition sent_again i x : Op :=
  set_incarnation i (set_attempts (o_attempts x + 1) (o_map_dne_bound x) (set_target (set_paused false (o_target x)) (o_last_force_resend x) x)).

Lemma send_again_ok o p x sid s a : wf o → ob_heap o !! p = Some x → o_session x = Some sid → session_at o sid = Some s → s_con s = Some a →
  o_tid x ≠ 0 → map_find (ob_checks o) (o_tid x) = None →
  wp (_send_op p None) o (λ _ o', wf o' ∧ ∃ msg, mo_tid msg = o_tid x ∧ mo_retry_attempt msg = o_attempts x ∧ mo_pgid msg = t_pgid (o_target x) ∧ mo_epoch msg = om_epoch (ob_map o) ∧
    o' = with_out (ob_out o ++ [Send a msg]) (with_heap (<[p := sent_again (s_incarnation s) x]> (ob_heap o)) o)).
Proof using Type.
  intros Hw Hp Hx Hs Ha Ht Hc. unfold _send_op. apply (wp_get_op _ p x); [done|].
  set (y := set_attempts (o_attempts x + 1) (o_map_dne_bound x) (set_target (set_paused false (o_target x)) (o_last_force_resend x) x)).
  set (o1 := with_heap (<[p := y]> (ob_heap o)) o). assert (wf o1) as Hw1 by (apply (wf_put o p x y); auto).
  destruct (bk_tids _ _ _ _ _ (proj2 Hw) p x Hp) as [Hr _].
  eapply (wp_bind_eq _ _ _ _ o1); [unfold assert_o, lift, assert_c; rewrite (proj2 (Z.ltb_lt 0 (o_tid x))) by lia; unfold mbind, M_bind, _prepare_osd_op, get_op, mbind, M_bind; rewrite Hp; reflexivity|].
  rewrite Hx. apply (wp_get_sess _ sid s); [done|]. rewrite Ha.
  eapply (wp_bind_eq _ _ _ tt); [unfold change_op, get_op, mbind, M_bind; simpl; rewrite lookup_insert_eq; reflexivity|].
  unfold wp, rwp, emit, modify. assert (wf (with_heap (<[p := set_incarnation (s_incarnation s) y]> (ob_heap o1)) o1)) as Hw2 by (apply wf_incarnation; [done|apply lookup_insert_eq]).
  split; [done|]. eexists. split; [|split; [|split; [|split; [|simpl; by rewrite insert_insert_eq]]]]; done.
Qed.

Lemma op_ok_sent i x : op_ok x → op_ok (sent_again i x).
Proof using T. intros []. constructor; try done; simpl; [by apply (tg_paused (e := e))|lia|]. intros sid _ _. right. lia. Qed.

Lemma contexts_sent i x : contexts (sent_again i x) = contexts x.
Proof using Type. done. Qed.

Lemma map_session_ok o p x : wf o → gm (ob_map o) → ob_heap o !! p = Some x → gt (o_target x) →
  wp (_map_session e p) o (λ sid o', ∃ t, sid = t_osd t ∧ wf o' ∧ ob_heap o' = <[p := set_target t (o_last_force_resend x) x]> (ob_heap o) ∧
    gm (ob_map o') ∧ om_osds (ob_map o') = om_osds (ob_map o) ∧ om_epoch (ob_map o') = om_epoch (ob_map o) ∧ gt t ∧
    (t_osd t = -1 ∨ up_b (om_osds (ob_map o)) (t_osd t) = true) ∧ is_Some (session_at o' sid) ∧ ob_out o' = ob_out o ∧ ob_waiting o' = ob_waiting o ∧
    ob_checks o' = ob_checks o ∧ ob_inflight o' = ob_inflight o ∧ ob_last_tid o' = ob_last_tid o ∧ (leading o → leading o')).
Proof using T.
  intros Hw Hm Hp Ht. unfold _map_session. apply (wp_get_op _ p x); [done|].
  pose proof (tg_calc (ob_map o) (o_target x) None Hm Ht) as Hc. unfold wp in Hc.
  destruct (_calc_target e (o_target x) None false (ob_map o)) as [[[[v t] l] m']|] eqn:E; [|done]. destruct Hc as (H1 & H2 & H3 & H4 & H5 & H6 & H7).
  eapply wp_bind_eq; [unfold on_map; rewrite E; reflexivity|]. apply wp_put_op. set (y := set_target t _ x). set (o1 := with_heap _ _).
  assert (wf o1) as Hw1 by (apply (wf_put (with_map m' o) p x); [done|done|done|done|by left]).
  eapply wp_mono; [apply (get_session_ok o1 (t_osd t) Hw1); simpl; rewrite H2; [by apply (tg_osds (e := e) (gt := gt))|done]|].
  intros sid o2 (-> & Hs & Hw2 & Hl & Eh & Em & Eo & Ew & Ec & Ei & El). exists t. rewrite Eh, Em. split_and!; try done.
  intros Hlead. apply Hl. by apply (leading_same o).
Qed.

(** The operation in its new session, before it is sent. *)
Lemma rehome_ok o p x : wf o → gm (ob_map o) → ob_heap o !! p = Some x → op_ok x → o_session x = None →
  wp (sid ← _map_session e p; _session_op_assign sid p;; mret sid) o (λ sid o', ∃ t, sid = t_osd t ∧ wf o' ∧
    ob_heap o' = <[p := set_session (Some sid) (set_target t (o_last_force_resend x) x)]> (ob_heap o) ∧
    gm (ob_map o') ∧ om_osds (ob_map o') = om_osds (ob_map o) ∧ om_epoch (ob_map o') = om_epoch (ob_map o) ∧ gt t ∧
    (t_osd t = -1 ∨ up_b (om_osds (ob_map o)) (t_osd t) = true) ∧ is_Some (session_at o' sid) ∧ ob_out o' = ob_out o ∧ ob_waiting o' = ob_waiting o ∧
    ob_checks o' = ob_checks o ∧ ob_inflight o' = ob_inflight o ∧ ob_last_tid o' = ob_last_tid o ∧ (leading o → leading o')).
Proof using T.
  intros Hw Hm Hp Hok Hx. eapply wp_bind_mono; [apply (map_session_ok o p x); [done..|apply Hok]|].
  intros sid o1 (t & -> & Hw1 & Eh & Hgm & Eo & Ee & Hgt & Hosd & Hs & Eout & Ew & Ec & Ei & El & Hl).
  eapply wp_bind_mono; [apply (assign_ok o1 (t_osd t) p (set_target t (o_last_force_resend x) x) Hw1); [by rewrite Eh, lookup_insert_eq|done|apply Hok|done]|].
  intros [] o2 (Hw2 & Hmv & Hh). apply wp_ret. exists t. pose proof (moved_exists _ _ _ _ (t_osd t) Hmv Hs) as Hs2. destruct Hmv as [M1 M2 M3 M4 M5 M6 M7].
  rewrite M1, M2, M3, M4, M5, M6, Hh, Eh, insert_insert_eq, app_nil_r, Z.add_0_r. split_and!; try done.
  intros Hlead. apply (leading_same o1); [by rewrite M1|done|by apply Hl].
Qed.

Lemma went_put o o' p x z l : ob_heap o !! p = Some x → ob_heap o' = <[p := z]> (ob_heap o) → contexts z = contexts x → ob_out o' = ob_out o ++ l → omap over l = [] →
  om_osds (ob_map o') = om_osds (ob_map o) → om_epoch (ob_map o') = om_epoch (ob_map o) → ob_waiting o' = ob_waiting o → ob_last_tid o' = ob_last_tid o →
  ob_inflight o' = ob_inflight o → went o o'.
Proof using Type.
  intros Hp Hh Hz Ho Hl ? ? ? ? ?. constructor; try done.
  - apply (bag_step o o' l); [done..|]. rewrite Hl, Hh. simpl. symmetry. by apply (pending_same _ p x).
  - unfold surplus. rewrite Hh, map_size_insert_Some by eauto. congruence.
Qed.

(** An operation that is sent again has a session when this is done. *)
Lemma resend_op_ok tid p (nr : list (Z * Z)) o : inv (p :: nr.*2) o → resending ((tid, p) :: nr) o → leading o →
  wp (resend_op e p) o (λ _ o', inv (nr.*2) o' ∧ resending nr o' ∧ went o o' ∧ leading o').
Proof using T.
  intros Hi Hr Hl. destruct (rs_ops _ _ Hr tid p) as (x & Hp & Hx & Htid & Hc); [by left|]. pose proof (iv_ops _ _ _ _ Hi p x Hp) as Hok.
  pose proof (iv_nodup _ _ _ _ Hi) as [Hpn Hnd]%NoDup_cons. pose proof (iv_first _ _ _ _ Hi) as Hf0.
  assert (∀ o' z, wf o' → ob_heap o' = <[p := z]> (ob_heap o) → gm (ob_map o') → om_epoch (ob_map o') = om_epoch (ob_map o) → ob_waiting o' = ob_waiting o →
    ob_checks o' = ob_checks o → op_ok z → is_Some (o_session z) → (om_epoch (ob_map o) = 0 → o_attempts z = 0) → inv (nr.*2) o' ∧ resending nr o') as Hend.
  { intros o' z Hw' Hh Hgm Ee Ew Ec Hz Hzs Hz0. split.
    - apply (inv_change gm gt (p :: nr.*2) _ o o' p x z Hi); try done. intros q. destruct (decide (q = p)) as [->|Hq].
      + split; [done|]. intros E. rewrite E in Hzs. by destruct Hzs.
      + rewrite elem_of_cons. split; [by right|by intros [?|?]].
    - destruct Hr as [Hro Hr]. apply StronglySorted_inv in Hro as [Hro _]. constructor; [done|]. intros t q Hin. destruct (Hr t q) as (y & Hy & ? & ? & ?); [by right|].
      exists y. rewrite Ec, Hh, lookup_insert_ne; [done|]. intros <-. apply Hpn. by apply (list_elem_of_fmap_2 snd nr (t, p)). }
  unfold resend_op. apply (wp_get_op _ p x); [done|]. rewrite Hx.
  eapply wp_bind_mono; [by apply (rehome_ok o p x (iv_wf _ _ _ _ Hi) (iv_map _ _ _ _ Hi))|].
  intros sid o1 (t & -> & Hw1 & Eh & Hgm & Eo & Ee & Hgt & Hosd & [s Hs] & Eout & Ew & Ec & Ei & El & Hl1). specialize (Hl1 Hl).
  set (y := set_session _ _) in *. assert (ob_heap o1 !! p = Some y) as Hp1 by (rewrite Eh; apply lookup_insert_eq).
  apply (wp_get_op _ p y); [done|]. change (o_should_resend y) with (o_should_resend x). rewrite (ok_resend _ _ Hok).
  destruct (negb (t_osd t =? -1) && negb (t_paused (o_target y))) eqn:Eb.
  - apply andb_prop in Eb as [Hn%negb_true_iff%Z.eqb_neq Hpa%negb_true_iff]. destruct (bk_session _ _ _ _ _ (proj2 Hw1) _ s Hs) as (_ & Hcon & _).
    destruct (Hcon Hn) as [a Ha]. eapply wp_mono; [apply (send_again_ok o1 p y (t_osd t) s a); try done; [apply Hok|rewrite Ec; simpl; by rewrite Htid]|].
    intros [] o2 (Hw2 & msg & _ & _ & _ & _ & ->). assert (op_ok (sent_again (s_incarnation s) y)) as Hz.
    { destruct Hok. constructor; try done; simpl; [by apply (tg_paused (e := e))|lia|]. intros sid _ _. right. lia. }
    destruct (Hend _ (sent_again (s_incarnation s) y) Hw2) as [Hi2 Hr2]; try done; [simpl; by rewrite Eh, insert_insert_eq|..].
    { intros E0. exfalso. destruct Hosd as [?|Hu]; [done|]. by rewrite (tg_first (e := e) (gt := gt) (ob_map o) _ (iv_map _ _ _ _ Hi) E0) in Hu. }
    split; [done|]. split; [done|]. split; [|by apply (leading_same o1)].
    apply (went_put o _ p x (sent_again (s_incarnation s) y) [Send a msg]); try done; simpl; [by rewrite Eh, insert_insert_eq|by rewrite Eout].
  - assert (op_ok y) as Hy.
    { destruct Hok. constructor; try done; simpl. intros sid [= <-] Hn. left. apply andb_false_iff in Eb as [Eb|Eb]; apply negb_false_iff in Eb; [by apply Z.eqb_eq in Eb|done]. }
    destruct (Hend o1 y Hw1) as [Hi2 Hr2]; try done; [intros E0; by apply (Hf0 E0 p x)|].
    apply wp_ret. split; [done|]. split; [done|]. split; [|done]. by apply (went_put o o1 p x y []); rewrite ?app_nil_r.
Qed.

Lemma resend_ops_ok nr : ∀ o, inv (nr.*2) o → resending nr o → leading o → wp (resend_ops e nr) o (λ _ o', inv [] o' ∧ went o o' ∧ leading o').
Proof using T.
  induction nr as [|[tid p] nr IH]; intros o Hi Hr Hl; cbn [resend_ops]; [by apply wp_ret; split; [|split; [apply went_refl|]]|].
  eapply wp_bind_mono; [by apply (resend_op_ok tid p nr o)|]. intros [] o1 (Hi1 & Hr1 & Hw1 & Hl1).
  eapply wp_mono; [by apply IH|]. intros [] o2 (Hi2 & Hw2 & Hl2). split; [done|]. split; [by eapply went_trans|done].
Qed.

(** ** The handler of new maps *)

(** What holds over new maps too. *)
Record passed o o' : Prop := Passed {
  ps_bag : bag o' ≡ₚ bag o;
  ps_waiting : ob_waiting o' = ob_waiting o;
  ps_last : ob_last_tid o' = ob_last_tid o;
  ps_surplus : surplus o' = surplus o }.

Lemma passed_refl o : passed o o.
Proof using Type. by constructor. Qed.
Lemma passed_trans o1 o2 o3 : passed o1 o2 → passed o2 o3 → passed o1 o3.
Proof using Type. intros [] []. constructor; congruence || (by etrans). Qed.
Lemma passed_went o o' : went o o' → passed o o'.
Proof using Type. intros []. by constructor. Qed.

Lemma inv_map (l : list Z) o m : inv l o → gm m → (om_epoch m ≠ 0 ∨ om_epoch (ob_map o) = 0) → inv l (with_map m o).
Proof using Type. intros [] Hm He. constructor; try done. intros E0. destruct He as [?|He]; [done|]. by apply iv_first. Qed.

Lemma resending_map nr o m : resending nr o → resending nr (with_map m o).
Proof using Type. intros []. by constructor. Qed.

Lemma request_keeps (nr : list (Z * Z)) o : inv (nr.*2) o → resending nr o → leading o →
  wp (_maybe_request_map e) o (λ _ o', inv (nr.*2) o' ∧ resending nr o' ∧ passed o o' ∧ leading o' ∧ ob_map o' = ob_map o).
Proof using Type.
  intros Hi Hr Hl. destruct (request_ok e o) as (ep & c & E). unfold wp. rewrite E. unfold rwp. split; [by destruct Hi|]. split; [by destruct Hr|]. split; [|done].
  constructor; try done. by apply (bag_step o _ [WantMap ep c]).
Qed.

Context (decode_map : list Z → OSDMap → res OSDMap) (decode_crush : list Z → res crush_wrapper).

(** The maps of a message are good, and of their epochs. *)
Record usable (m : MOSDMap) : Prop := Usable {
  us_map : ∀ ep cur new, gm cur → map_of decode_map decode_crush m ep cur = Some new → ∃ new', new = Ok new' ∧ gm new' ∧ om_epoch new' = ep;
  us_first : ∀ bl cur, gm cur → map_find (mm_maps m) (get_last m) = Some bl → ∃ new, decode_map bl cur = Ok new ∧ gm new;
  us_last : get_last m < 4294967295;
  us_oldest : mm_oldest m < 4294967296 }.

Lemma epoch_loop_ok m (Hm : usable m) n : ∀ ep f fw nr o, inv (nr.*2) o → resending nr o → leading o → 0 < ep → (Z.to_nat (get_last m + 1 - ep) <= n)%nat →
  wp (epoch_loop decode_map decode_crush e m n ep f fw nr) o (λ nr' o', inv (nr'.*2) o' ∧ resending nr' o' ∧ passed o o' ∧ leading o').
Proof using T.
  pose proof (us_last m Hm) as Hlast. pose proof (us_oldest m Hm) as Hold.
  induction n as [|n IH]; intros ep f fw nr o Hi Hr Hl Hep Hn; cbn [epoch_loop]; destruct (Z.ltb_spec (get_last m) ep) as [Hlt|Hge];
    try (by apply wp_ret; split; [done|split; [done|split; [apply passed_refl|done]]]); [lia|].
  apply wp_gets. destruct (map_of _ _ m ep (ob_map o)) as [new|] eqn:En.
  - destruct (us_map m Hm ep _ new (iv_map _ _ _ _ Hi) En) as (new' & -> & Hgm & Ee). eapply wp_bind_eq; [reflexivity|]. apply wp_modify.
    eapply wp_bind_mono; [apply (scan_epoch_ok e gm gt f _ nr (with_map new' o)); [apply inv_map; [done..|left; lia]|by apply resending_map]|].
    intros nr1 o1 (Hi1 & Hr1 & Hw1 & Hl1). apply wp_assert; [by apply Z.eqb_eq|]. rewrite u32_small by (unfold is_u32; lia).
    eapply wp_mono; [apply IH; [done..|lia|lia]|]. intros nr2 o2 (Hi2 & Hr2 & Hp2 & Hl2). split; [done|]. split; [done|]. split; [|done].
    eapply passed_trans; [|done]. by destruct (passed_went _ _ Hw1); constructor.
  - destruct (Z.leb_spec (mm_oldest m) ep) as [Ho|Ho].
    + eapply wp_bind_mono; [by apply (request_keeps nr)|]. intros [] o1 (Hi1 & Hr1 & Hp1 & Hl1 & _). by apply wp_ret.
    + assert (u32 (u32 (mm_oldest m - 1) + 1) = mm_oldest m) as -> by (rewrite !u32_small; unfold is_u32; rewrite ?u32_small; unfold is_u32; lia).
      apply IH; [done..|lia|lia].
Qed.

Lemma first_map_ok m (Hm : usable m) o : inv [] o → leading o → om_epoch (ob_map o) = 0 →
  wp (first_map decode_map e m) o (λ nr' o', inv (nr'.*2) o' ∧ resending nr' o' ∧ passed o o' ∧ leading o').
Proof using T.
  intros Hi Hl He. assert (resending [] o) as Hr by (constructor; [constructor|by intros ? ? ?%elem_of_nil]). unfold first_map.
  destruct (map_find (mm_maps m) (get_last m)) as [bl|] eqn:Eb.
  - assert (keys (ob_sessions o) = []) as Hk.
    { destruct (keys (ob_sessions o)) as [|i l] eqn:Ek; [done|]. exfalso. destruct (keys_ok o i (iv_wf _ _ _ _ Hi)) as [Hn [s Hs]]; [rewrite Ek; by left|].
      destruct (Hl i (s_con s) Hn) as [Hu _]; [by rewrite Hs|]. by rewrite (tg_first (e := e) (gt := gt) _ i (iv_map _ _ _ _ Hi) He) in Hu. }
    assert (∀ i, i ≠ -1 → session_at o i = None) as Hnone.
    { intros i Hn. unfold session_at. rewrite (proj2 (Z.eqb_neq i (-1))) by done. destruct (map_find (ob_sessions o) i) eqn:E; [|done].
      assert (i ∈ keys (ob_sessions o)) as H by (apply map_find_in; eauto). rewrite Hk in H. by apply elem_of_nil in H. }
    apply wp_gets. rewrite Hk. cbn [scan_all]. eapply wp_bind_eq; [reflexivity|]. apply wp_gets.
    destruct (us_first m Hm bl (ob_map o) (iv_map _ _ _ _ Hi) Eb) as (new & Enew & Hgm). eapply wp_bind_eq; [unfold lift; rewrite Enew; reflexivity|]. apply wp_modify.
    eapply wp_mono; [apply (scan_session_ok e gm gt (-1) false false []); [apply inv_map; auto|by apply resending_map|by eexists]|].
    intros nr1 o1 (Hi1 & Hr1 & Hw1 & Hc1). split; [done|]. split; [done|]. split; [by destruct (passed_went _ _ Hw1); constructor|].
    intros i c Hn. fold (con_at o1 i). rewrite Hc1. unfold con_at. change (session_at (with_map new o) i) with (session_at o i). by rewrite Hnone.
  - apply wp_emit, wp_ret. split; [by destruct Hi|]. split; [by destruct Hr|]. split; [|done]. constructor; try done. by apply (bag_step o _ [WantMap 0 true]).
Qed.

(** ** Whoever waits for a map *)

Definition woken (ws : list (option Z * Z)) : list output := omap (λ w : option Z * Z, (λ c, Complete c w.2) <$> w.1) ws.

Lemma finish_waiting_ok ws : Forall (λ c, is_Some c.1) ws → ∀ o, finish_waiting ws o = Ok (tt, with_out (ob_out o ++ woken ws) o).
Proof using Type.
  induction 1 as [|[c r] ws [c' Hc] _ IH]; intros o; simpl in *; [by rewrite with_out_nil|]. subst c. unfold emit, modify, mbind, M_bind. rewrite IH. simpl.
  by rewrite <- app_assoc.
Qed.

Lemma over_woken ws : omap over (woken ws) = omap (λ w : option Z * Z, w.1) ws.
Proof using Type. induction ws as [|[[c|] r] ws IH]; simpl; [done|f_equal; exact IH|exact IH]. Qed.

(** Who is woken by epoch [ep], and who is left. *)
Fixpoint due (ep : Z) (w : list (Z * list (option Z * Z))) : list output :=
  match w with (k, ws) :: w => if k <=? ep then woken ws ++ due ep w else [] | [] => [] end.
Fixpoint later (ep : Z) (w : list (Z * list (option Z * Z))) : list (Z * list (option Z * Z)) :=
  match w with (k, ws) :: w' => if k <=? ep then later ep w' else w | [] => [] end.

Lemma wake_ok ep w : Forall (λ v, Forall (λ c, is_Some c.1) v.2) w → ∀ o, ob_waiting o = w →
  wake ep w o = Ok (tt, with_waiting (later ep w) (with_out (ob_out o ++ due ep w) o)).
Proof using Type.
  induction 1 as [|[k ws] w Hws Hw IH]; intros o Ho; simpl.
  - rewrite with_out_nil. destruct o. simpl in *. by subst.
  - destruct (k <=? ep); [|rewrite with_out_nil; destruct o; simpl in *; by subst]. unfold mbind, M_bind. rewrite (finish_waiting_ok ws Hws). unfold modify at 1.
    rewrite IH by done. simpl. by rewrite <- app_assoc.
Qed.

Lemma asleep_later ep w : asleep w = omap over (due ep w) ++ asleep (later ep w).
Proof using Type.
  induction w as [|[k ws] w IH]; simpl; [done|]. destruct (k <=? ep); [|done]. unfold asleep in *. simpl.
  rewrite omap_app, over_woken, <- app_assoc. f_equal. exact IH.
Qed.

Lemma later_waiting ep w : waiting_ok w → waiting_ok (later ep w).
Proof using Type.
  unfold waiting_ok, ordered. induction w as [|[k ws] w IH]; simpl; [done|]. intros [Ho Hw]. destruct (k <=? ep); [|done].
  apply StronglySorted_inv in Ho as [Ho _]. apply Forall_cons in Hw as [_ Hw]. auto.
Qed.

(** After a map: the Objecter is as it should be, and whoever waited for its epoch has been woken. *)
Lemma wake_keeps o : inv [] o → leading o →
  wp (new ← gets ob_map; w ← gets ob_waiting; wake (om_epoch new) w;; w ← gets ob_waiting; if is_nil w then mret tt else _maybe_request_map e) o
    (λ _ o', inv [] o' ∧ leading o' ∧ bag o' ≡ₚ bag o ∧ surplus o' = surplus o ∧ ob_map o' = ob_map o ∧ ob_waiting o' = later (om_epoch (ob_map o)) (ob_waiting o)).
Proof using Type.
  intros Hi Hl. apply wp_gets, wp_gets. eapply wp_bind_eq; [apply wake_ok; [by apply (iv_waiting _ _ _ _ Hi)|done]|].
  set (o1 := with_waiting _ _). assert (inv [] o1) as Hi1 by (destruct Hi; constructor; try done; simpl; by apply later_waiting).
  assert (bag o1 ≡ₚ bag o) as Hb.
  { unfold bag, o1. simpl. rewrite omap_app, (asleep_later (om_epoch (ob_map o)) (ob_waiting o)). solve_Permutation. }
  apply wp_gets. destruct (is_nil _); [by apply wp_ret; split_and!|]. destruct (request_ok e o1) as (ep & c & E). unfold wp. rewrite E. unfold rwp.
  split; [by destruct Hi1|]. split; [done|]. split; [|done]. rewrite <- Hb. by apply (bag_step o1 _ [WantMap ep c]).
Qed.

Lemma handle_map_ok m fsid (Hm : usable m) o : inv [] o → leading o →
  wp (handle_osd_map decode_map decode_crush fsid e m) o (λ _ o', inv [] o' ∧ leading o' ∧ bag o' ≡ₚ bag o ∧ surplus o' = surplus o ∧
    (mm_fsid m ≠ fsid ∧ o' = o ∨ mm_fsid m = fsid ∧ ob_waiting o' = later (om_epoch (ob_map o')) (ob_waiting o))).
Proof using T.
  intros Hi Hl. unfold handle_osd_map. destruct (Z.eqb_spec (mm_fsid m) fsid) as [Ef|Ef]; simpl; [|apply wp_ret; split_and!; auto].
  assert (resending [] o) as Hr by (constructor; [constructor|by intros ? ? ?%elem_of_nil]).
  pose proof (tg_epoch (e := e) (gt := gt) _ (iv_map _ _ _ _ Hi)) as Hep. pose proof (us_last m Hm) as Hlast. apply wp_gets.
  assert (wp (if get_last m <=? om_epoch (ob_map o) then mret []
     else if negb (om_epoch (ob_map o) =? 0)
     then epoch_loop decode_map decode_crush e m (Z.to_nat (get_last m - om_epoch (ob_map o))) (u32 (om_epoch (ob_map o) + 1)) false (_osdmap_full_flag e (ob_map o)) []
     else first_map decode_map e m) o (λ nr o', inv (nr.*2) o' ∧ resending nr o' ∧ passed o o' ∧ leading o')) as Hmaps.
  { destruct (Z.leb_spec (get_last m) (om_epoch (ob_map o))) as [Hle|Hgt]; [by apply wp_ret; split; [|split; [|split; [apply passed_refl|]]]|].
    destruct (Z.eqb_spec (om_epoch (ob_map o)) 0) as [E0|E0]; simpl; [by apply first_map_ok|]. rewrite u32_small by (unfold is_u32; lia).
    apply (epoch_loop_ok m Hm); [done..|lia|lia]. }
  eapply wp_bind_mono; [exact Hmaps|]. intros nr o1 (Hi1 & Hr1 & Hp1 & Hl1). apply wp_gets.
  eapply (wp_bind_mono _ _ _ (λ _ o2, inv (nr.*2) o2 ∧ resending nr o2 ∧ passed o1 o2 ∧ leading o2)).
  { destruct (_ || _); [eapply wp_mono; [by apply (request_keeps nr)|]; by intros [] o2 (? & ? & ? & ? & _)|by apply wp_ret; split; [|split; [|split; [apply passed_refl|]]]]. }
  intros [] o2 (Hi2 & Hr2 & Hp2 & Hl2). eapply wp_bind_mono; [by apply (resend_ops_ok nr)|]. intros [] o3 (Hi3 & Hw3 & Hl3).
  eapply wp_mono; [by apply (wake_keeps o3)|]. intros [] o4 (Hi4 & Hl4 & Hb4 & Hs4 & Em4 & Ew4).
  pose proof (passed_trans _ _ _ Hp1 (passed_trans _ _ _ Hp2 (passed_went _ _ Hw3))) as [B1 B2 B3 B4].
  split; [done|]. split; [done|]. split; [by rewrite Hb4|]. split; [congruence|]. right. by rewrite Ew4, Em4, B2.
Qed.

(** ** Resets *)

Lemma first_such_total test n : (∀ i, ∃ b, test i = Ok b) → ∀ i, ∃ j, first_such test n i = Ok j.
Proof using Type. intros Ht. induction n as [|n IH]; intros i; simpl; [by eexists|]. destruct (Ht i) as (b & ->). simpl. destruct b; [by eexists|apply IH]. Qed.

Lemma identify_ok os addr : osds_wf os → ∃ j, identify_osd_addr os addr = Ok j.
Proof using Type.
  intros Hw. apply first_such_total. intros i. unfold and_then. rewrite (osd_exists_ok os Hw). simpl. destruct (ex os i) eqn:He; [|by eexists].
  pose proof (ex_range os i He) as Hr. assert (assert_exists os i = Ok tt) as Hex by (unfold assert_exists; by rewrite (osd_exists_ok os Hw), He).
  assert (∃ a, get_addr os i = Ok a) as (a & Ha).
  { unfold get_addr. rewrite Hex. destruct (vget_ok (client_addr os) i) as (a & _ & E); [pose proof (ow_client os Hw); lia|]. simpl. rewrite E. by eexists. }
  rewrite Ha. simpl. case_bool_decide; [by eexists|]. unfold get_cluster_addr. rewrite Hex. simpl.
  destruct (vget_ok (cluster_addr os) i) as (c & _ & E); [pose proof (ow_cluster os Hw); lia|]. rewrite E. simpl. destruct c as [c|]; [|rewrite Ha; by eexists].
  case_bool_decide; [rewrite Ha|]; by eexists.
Qed.

Lemma kick_ops_ok osd ops : ∀ resend o, inv [] o → (∀ t p, (t, p) ∈ ops → ∃ x, ob_heap o !! p = Some x ∧ o_session x = Some osd) →
  ∃ resend', kick_ops ops resend o = Ok (resend', o) ∧
    ∀ t p, (t, p) ∈ resend' → (t, p) ∈ resend ∨ ∃ x, ob_heap o !! p = Some x ∧ o_session x = Some osd ∧ t_paused (o_target x) = false.
Proof using Type.
  induction ops as [|[t p] ops IH]; intros resend o Hi Hin; cbn [kick_ops]; [by exists resend; split; [|left]|].
  destruct (Hin t p) as (x & Hp & Hx); [by left|]. unfold get_op, mbind, M_bind. rewrite Hp. rewrite (ok_resend _ _ (iv_ops _ _ _ _ Hi p x Hp)).
  destruct (IH (if negb (t_paused (o_target x)) then map_put resend (o_tid x) p else resend) o Hi) as (resend' & E & Hr).
  { intros t' q Hq. apply (Hin t'). by right. }
  exists resend'. split; [done|]. intros t' q Hq. destruct (Hr t' q Hq) as [Hq'|?]; [|by right]. destruct (t_paused (o_target x)) eqn:Ep; [by left|]. simpl in Hq'.
  apply map_put_in in Hq' as [[-> ->]|?]; [|by left]. right. eauto.
Qed.

Lemma send_ops_ok osd ops : osd ≠ -1 → ∀ o, inv [] o → leading o →
  (∀ t p, (t, p) ∈ ops → ∃ x, ob_heap o !! p = Some x ∧ o_session x = Some osd ∧ o_attempts x ≠ 0) →
  wp (send_ops ops) o (λ _ o', inv [] o' ∧ leading o' ∧ went o o').
Proof using T.
  intros Hn. induction ops as [|[t p] ops IH]; intros o Hi Hl Hin; cbn [send_ops]; [by apply wp_ret; split; [|split; [|apply went_refl]]|].
  destruct (Hin t p) as (x & Hp & Hx & Ha); [by left|]. pose proof (iv_ops _ _ _ _ Hi p x Hp) as Hok. pose proof (iv_wf _ _ _ _ Hi) as Hw.
  destruct (home o p x osd Hw Hp Hx) as (s & Hs & _). destruct (bk_session _ _ _ _ _ (proj2 Hw) osd s Hs) as (_ & Hcon & _). destruct (Hcon Hn) as [a Ea].
  assert (map_find (ob_checks o) (o_tid x) = None) as Hc by (destruct Hw; by eapply books_sent_unchecked).
  eapply wp_bind_mono; [apply (send_again_ok o p x osd s a); [done..|apply Hok|done]|]. intros [] o1 (Hw1 & msg & _ & _ & _ & _ & E1).
  set (y := sent_again (s_incarnation s) x) in *. assert (ob_heap o1 = <[p := y]> (ob_heap o)) as Hh by (by rewrite E1).
  assert (inv [] o1) as Hi1.
  { apply (inv_change gm gt [] [] o o1 p x y Hi Hw1); rewrite ?E1; try done; [exact (iv_map _ _ _ _ Hi)|exact (op_ok_sent _ x Hok)|..].
    - intros E0. exfalso. by apply Ha, (iv_first _ _ _ _ Hi E0 p x).
    - constructor.
    - intros q. destruct (decide (q = p)) as [->|Hq]; [|done]. simpl. split; [by intros ?%elem_of_nil|congruence]. }
  assert (leading o1) as Hl1 by (rewrite E1; by apply (leading_same o)).
  eapply wp_mono; [apply (IH o1 Hi1 Hl1)|].
  - intros t' q Hq. destruct (Hin t' q) as (z & Hz & Ez & Haz); [by right|]. rewrite Hh. destruct (decide (q = p)) as [->|Hne].
    + rewrite lookup_insert_eq. exists y. split; [done|]. split; [done|]. pose proof (ok_attempts _ _ Hok). simpl. lia.
    + rewrite lookup_insert_ne by done. eauto.
  - intros [] o2 (Hi2 & Hl2 & Hw2). split; [done|]. split; [done|]. eapply went_trans; [|done]. apply (went_put o o1 p x y [Send a msg]); by rewrite ?E1.
Qed.

(** What every event keeps, up to the contexts that it brings in. *)
Definition good o : Prop := inv [] o ∧ leading o.
Definition keeps (new : list Z) (lost : Z) o o' : Prop := good o' ∧ bag o' ≡ₚ new ++ bag o ∧ surplus o' = surplus o + lost.

Lemma keeps_went o o' : good o' → went o o' → keeps [] 0 o o'.
Proof using Type. intros Hg []. split; [done|]. split; [done|lia]. Qed.
Lemma keeps_same o : good o → keeps [] 0 o o.
Proof using Type. intros Hg. split; [done|]. split; [done|lia]. Qed.
Lemma keeps_ended p L o o' x : good o → ended p L o o' → ob_heap o !! p = Some x → is_Some (o_session x) → omap over L ≡ₚ contexts x → keeps [] 0 o o'.
Proof using Type.
  intros [Hi Hl] He Hp Hx HL. apply keeps_went; [split; [by eapply inv_ended|]|by eapply went_scanned, scanned_ended].
  apply (leading_same o); [by rewrite (en_map _ _ _ _ He)|apply He|done].
Qed.

(** The connection is opened again to the address the session leads to already. *)
Lemma reopen_ok o osd s : good o → osd ≠ -1 → session_at o osd = Some s →
  wp (_reopen_session osd) o (λ _ o', good o' ∧ went o o' ∧ ob_heap o' = ob_heap o ∧ ∃ s', session_at o' osd = Some s' ∧ s_ops s' = s_ops s).
Proof using T.
  intros [Hi Hl] Hn Hs. pose proof (iv_wf _ _ _ _ Hi) as [Hk Hb]. destruct (bk_session _ _ _ _ _ Hb osd s Hs) as (Es & _ & _).
  destruct (Hl osd (s_con s) Hn) as (Hu & a & Ha & Ea); [by rewrite Hs|]. unfold _reopen_session. apply (wp_get_sess _ osd s); [done|]. apply wp_gets.
  eapply wp_bind_eq; [unfold lift, get_inst; rewrite (is_up_ok _ (tg_osds (e := e) (gm := gm) (gt := gt) _ (iv_map _ _ _ _ Hi))), Es, Hu; simpl; rewrite Ha; reflexivity|].
  rewrite Ea. apply wp_emit. set (o1 := with_out _ o). set (s' := MkSession _ _ _ _). unfold wp, rwp, put_sess, modify. fold (sess_put osd s' o1).
  assert (∀ i, session_at (sess_put osd s' o1) i = upd (session_at o) osd (Some s') i) as Hat by (intros i; by rewrite session_at_put).
  destruct (sess_put_rest osd s' o1) as (E1 & E2 & E3 & E4 & E5 & E6 & E7 & E8 & E9 & E10).
  assert (∀ i, s_con <$> session_at (sess_put osd s' o1) i = s_con <$> session_at o i) as Hcon.
  { intros i. rewrite Hat. unfold upd. destruct (decide (i = osd)) as [->|]; [|done]. rewrite Hs; simpl; by rewrite Ea. }
  assert (wf (sess_put osd s' o1)) as Hw.
  { split; [apply keyed_put; [done|by apply (session_at_key o osd s)]|]. rewrite E2, E3, E4, E5. eapply books_ext; [intros i; symmetry; apply Hat|].
    by apply (books_reopen _ _ _ _ _ osd s). }
  split; [split|split; [|split; [done|]]].
  - destruct Hi as [I1 I2 I3 I4 I5 I6 I7]. constructor; rewrite ?E1, ?E2, ?E9; done.
  - apply (leading_same o); [by rewrite E1|done..].
  - constructor; rewrite ?E1, ?E5, ?E9; try done; [|unfold surplus; by rewrite E6, E2].
    apply (bag_step o _ [MarkDown a]); [by rewrite E10|by rewrite E9|by rewrite E2].
  - exists s'. by rewrite Hat, upd_eq.
Qed.

Lemma reset_ok o addr : good o → wp (ms_handle_reset e addr) o (λ _ o', keeps [] 0 o o').
Proof using T.
  intros Hg. pose proof Hg as [Hi Hl]. unfold ms_handle_reset. apply wp_gets. unfold Datatypes.id.
  destruct (identify_ok (om_osds (ob_map o)) addr) as (osd & Eid); [by apply (tg_osds (e := e) (gm := gm) (gt := gt)), (iv_map _ _ _ _ Hi)|].
  eapply wp_bind_eq; [unfold lift; rewrite Eid; reflexivity|]. destruct ((0 <=? osd) && map_count (ob_sessions o) osd) eqn:Eb; [|by apply wp_ret, keeps_same].
  apply andb_prop in Eb as [Hn%Z.leb_le Hc%map_count_in]. destruct (keys_ok o osd (iv_wf _ _ _ _ Hi) Hc) as [Hne [s Hs]].
  eapply wp_bind_mono; [by apply (reopen_ok o osd s)|]. intros [] o1 ([Hi1 Hl1] & Hw1 & Hh1 & s1 & Hs1 & Es1).
  destruct (kick_ops_ok osd (s_ops s1) [] o1 Hi1) as (resend & Ek & Hr).
  { intros t p Hin. destruct (session_ops_ok o1 osd s1 (iv_wf _ _ _ _ Hi1) Hs1) as [_ Hops]. apply Hops. by apply (list_elem_of_fmap_2 snd _ (t, p)). }
  unfold _kick_requests. rewrite wp_bind. apply (wp_get_sess _ osd s1); [done|]. eapply wp_bind_eq; [exact Ek|].
  eapply wp_mono; [apply (send_ops_ok osd resend Hne o1 Hi1 Hl1)|].
  - intros t p Hin. destruct (Hr t p Hin) as [?%elem_of_nil|(x & Hp & Hx & Hpa)]; [done|]. exists x. split; [done|]. split; [done|].
    destruct (ok_sent _ _ (iv_ops _ _ _ _ Hi1 p x Hp) osd Hx Hne) as [?|?]; [congruence|done].
  - intros [] o2 (Hi2 & Hl2 & Hw2). assert (resending [] o2) as Hr2 by (constructor; [constructor|by intros ? ? ?%elem_of_nil]).
    eapply wp_mono; [by apply (request_keeps [] o2)|]. intros [] o3 (Hi3 & _ & [B1 B2 B3 B4] & Hl3 & _).
    destruct Hw1, Hw2. split; [done|]. split; [by rewrite B1, wn_bag0, wn_bag|]. lia.
Qed.

(** ** The monitors' answer *)

Lemma latest_end o tid latest r p : inv [] o → 0 <= latest → r ≠ - EAGAIN → r ≠ - ECANCELED → map_find (ob_checks o) tid = Some p →
  ∃ x, ob_heap o !! p = Some x ∧ o_tid x = tid ∧ is_Some (o_session x) ∧
    wp (op_map_latest tid latest r) o (λ _ o', let done := (0 <? latest) && (latest <=? om_epoch (ob_map o)) in
      if done then ended p (completes x (- ENOENT) ++ drops x) o o'
      else ∃ o1, quiet p o1 o' ∧ inv [] o1 ∧ scanned [p] o o1 ∧ ob_heap o1 = <[p := set_attempts 0 latest x]> (ob_heap o) ∧ ob_map o1 = ob_map o).
Proof using Type.
  intros Hi Hlat Hr1 Hr2 Hf. pose proof (iv_wf _ _ _ _ Hi) as [Hk Hb]. destruct (bk_checks _ _ _ _ _ Hb _ _ Hf) as (Ht & x & Hp & Etid & Ha & Hbd).
  pose proof (iv_ops _ _ _ _ Hi p x Hp) as Hok. exists x. split; [done|]. split; [done|].
  assert (is_Some (o_session x)) as Hx.
  { apply not_eq_None_Some. intros Ex. assert (p ∈ []) as H by (apply (iv_limbo _ _ _ _ Hi); eauto). by apply elem_of_nil in H. }
  split; [done|]. unfold op_map_latest. rewrite (proj2 (Z.eqb_neq r (- EAGAIN))), (proj2 (Z.eqb_neq r (- ECANCELED))) by done.
  cbn [orb]. apply wp_gets. rewrite Hf. apply wp_modify. set (o1 := with_checks _ o). set (y := set_attempts 0 latest x). set (o2 := with_heap (<[p := y]> (ob_heap o1)) o1).
  eapply (wp_bind_eq _ _ _ tt o2).
  { unfold change_op, get_op, mbind, M_bind. change (ob_heap o1) with (ob_heap o). rewrite Hp, Hbd. simpl. unfold put_op, modify, o2, y. by rewrite Ha. }
  assert (wf o1) as Hw1 by (split; [done|]; by apply books_answered).
  assert (map_find (ob_checks o1) tid = None) as Hc1 by (simpl; by rewrite map_find_del, decide_True).
  assert (wf o2) as Hw2 by (apply (wf_put o1 p x y); try done; right; by rewrite Etid).
  assert (ob_heap o2 !! p = Some y) as Hp2 by apply lookup_insert_eq.
  assert (inv [] o2) as Hi2.
  { apply (inv_change gm gt [] [] o o2 p x y Hi Hw2); try done; [exact (iv_map _ _ _ _ Hi)|by destruct Hok; constructor; rewrite ?Ha in *|constructor|].
    intros q. destruct (decide (q = p)) as [->|Hq]; [|done]. split; [by intros ?%elem_of_nil|]. simpl. intros E. rewrite E in Hx. by destruct Hx. }
  assert (scanned [p] o o2) as Hs2.
  { constructor; try done.
    - apply (bag_step o o2 []); [simpl; by rewrite app_nil_r|done|]. simpl. symmetry. by apply (pending_same _ p x).
    - unfold surplus. simpl. by rewrite map_size_insert_Some by eauto.
    - intros t q _. simpl. rewrite map_find_del. by destruct (decide (t = tid)).
    - intros q Hq. simpl. rewrite lookup_insert_ne; [done|]. intros ->. apply Hq. by left. }
  eapply wp_mono; [apply (pool_dne_ok o2 p y Hw2 Hp2); [done|simpl; by rewrite Etid|done|done]|].
  intros [] o3 H3. assert (concludes (ob_map o2) y = (0 <? latest) && (latest <=? om_epoch (ob_map o))) as E by done. rewrite E in H3. cbv zeta.
  destruct ((0 <? latest) && (latest <=? om_epoch (ob_map o))); [|by exists o2; split_and!].
  destruct H3 as [E1 E2 E3 E4 E5 E6 E7 E8 E9]. constructor; try done; [rewrite E2; simpl; by rewrite delete_insert_eq|].
  intros t q Hq. rewrite E9 by done. simpl. rewrite map_find_del. destruct (decide (t = tid)) as [->|]; [|done]. rewrite Hf. by split; [|intros [= <-]].
Qed.

Lemma latest_ok o tid latest r : good o → 0 <= latest → wp (op_map_latest tid latest r) o (λ _ o', keeps [] 0 o o').
Proof using Type.
  intros Hg Hlat. pose proof Hg as [Hi Hl].
  destruct (Z.eqb_spec r (- EAGAIN)) as [->|Hr1]; [by apply wp_ret, keeps_same|].
  destruct (Z.eqb_spec r (- ECANCELED)) as [->|Hr2]; [by apply wp_ret, keeps_same|].
  destruct (map_find (ob_checks o) tid) as [p|] eqn:Hf.
  - destruct (latest_end o tid latest r p Hi Hlat Hr1 Hr2 Hf) as (x & Hp & Ht & Hx & H). eapply wp_mono; [exact H|]. cbv zeta. intros [] o'.
    destruct (_ && _); [intros He; apply (keeps_ended p _ o o' x Hg He Hp Hx), over_end|]. intros (o1 & Hq & Hi1 & Hs & Hh & Hm).
    apply keeps_went; [split; [by apply (inv_quiet gm gt [] p o1)|]|].
    + apply (leading_same o); [by rewrite (qu_map _ _ _ Hq), Hm|intros i; rewrite (qu_sessions _ _ _ Hq); apply Hs|done].
    + eapply went_trans; [by eapply went_scanned|]. by eapply went_scanned, (scanned_quiet p).
  - unfold op_map_latest. rewrite (proj2 (Z.eqb_neq r (- EAGAIN))), (proj2 (Z.eqb_neq r (- ECANCELED))) by done. cbn [orb].
    apply wp_gets. rewrite Hf. by apply wp_ret, keeps_same.
Qed.

(** ** Submission *)

(** All but operation [p], which has no session, are as they should be. *)
Record entering p x o : Prop := Entering {
  et_wf : wf o;
  et_map : gm (ob_map o);
  et_heap : ob_heap o !! p = Some x;
  et_target : gt (o_target x);
  et_session : o_session x = None;
  et_tid : o_tid x = 0;
  et_attempts : 0 <= o_attempts x;
  et_bound : 0 <= o_map_dne_bound x;
  et_resend : o_should_resend x = true;
  et_ops : ∀ q y, q ≠ p → ob_heap o !! q = Some y → op_ok y ∧ is_Some (o_session y);
  et_first : om_epoch (ob_map o) = 0 → ∀ q y, ob_heap o !! q = Some y → o_attempts y = 0;
  et_waiting : waiting_ok (ob_waiting o);
  et_leading : leading o }.

Lemma entered p x y v o o' : entering p x o → submitted gm gt p x y o o' → is_sent x y v o o' ∨ is_kept p x y v o o' → good o'.
Proof using T.
  intros He Hs Ho. destruct (sb_map _ _ _ _ _ _ _ Hs) as (Hgm & Eo & Ee). pose proof (sb_heap _ _ _ _ _ _ _ Hs) as Hh.
  pose proof (sb_leading _ _ _ _ _ _ _ Hs (et_leading _ _ _ He)) as Hl'. pose proof (sb_session _ _ _ _ _ _ _ Hs) as Ey.
  assert (ob_heap o' !! p = Some y) as Hp by (by rewrite Hh, lookup_insert_eq). pose proof (sb_wf _ _ _ _ _ _ _ Hs) as Hw'.
  pose proof (bk_last _ _ _ _ _ (proj2 (et_wf _ _ _ He))) as Hlast.
  assert (op_ok y) as Hy.
  { constructor; [apply Hs|rewrite (sb_tid _ _ _ _ _ _ _ Hs); lia| |rewrite (sb_bound _ _ _ _ _ _ _ Hs); apply (et_bound _ _ _ He)|rewrite (sb_resend _ _ _ _ _ _ _ Hs); apply He|].
    - pose proof (et_attempts _ _ _ He). destruct Ho as [(a & msg & _ & _ & _ & _ & _ & _ & _ & _ & _ & Ha & _)|(ep & c & Ha & _)]; lia.
    - intros sid E Hn. rewrite Ey in E. injection E as <-. pose proof (et_attempts _ _ _ He).
      destruct Ho as [(a & msg & _ & _ & _ & _ & _ & _ & _ & _ & _ & Ha & _)|(ep & c & _ & [?|?] & _)]; [right; lia|done|by left]. }
  split; [|done]. constructor; [done|constructor|..|by rewrite (sb_waiting _ _ _ _ _ _ _ Hs); apply He].
  - intros q. split; [by intros ?%elem_of_nil|]. intros (z & Hz & Ez). exfalso. rewrite Hh in Hz. destruct (decide (q = p)) as [->|Hq].
    + rewrite lookup_insert_eq in Hz. injection Hz as <-. congruence.
    + rewrite lookup_insert_ne in Hz by done. destruct (et_ops _ _ _ He q z Hq Hz) as [_ H]. rewrite Ez in H. by destruct H.
  - done.
  - intros q z. rewrite Hh. destruct (decide (q = p)) as [->|Hq]; rewrite ?lookup_insert_eq, ?lookup_insert_ne by done; [by intros [= <-]|].
    intros Hz. by apply (et_ops _ _ _ He q z).
  - rewrite Ee. intros E0 q z. rewrite Hh. destruct (decide (q = p)) as [->|Hq]; rewrite ?lookup_insert_eq, ?lookup_insert_ne by done; [|by apply (et_first _ _ _ He E0 q z)].
    intros [= <-]. pose proof (et_first _ _ _ He E0 p x (et_heap _ _ _ He)) as Hx0.
    destruct Ho as [(a & msg & Hn & _)|(ep & c & -> & _)]; [|done]. exfalso. destruct (home o' p y _ Hw' Hp Ey) as (s & Hs' & _).
    destruct (Hl' (t_osd (o_target y)) (s_con s) Hn) as [Hu _]; [by rewrite Hs'|].
    by rewrite (tg_first (e := e) (gt := gt) _ _ Hgm ltac:(by rewrite Ee)) in Hu.
Qed.

Lemma sent_over x y v o o' p : is_sent x y v o o' ∨ is_kept p x y v o o' → ∃ l, ob_out o' = ob_out o ++ l ∧ omap over l = [].
Proof using Type.
  intros [(a & msg & _ & _ & _ & _ & E & _)|(ep & c & _ & _ & [(_ & E & _)|(_ & _ & E & _)])]; eexists; (split; [exact E|done]).
Qed.

Lemma entered_keeps p x y v o o' : entering p x o → submitted gm gt p x y o o' → is_sent x y v o o' ∨ is_kept p x y v o o' → keeps [] 1 o o'.
Proof using T.
  intros He Hs Ho. split; [by eapply entered|]. destruct (sent_over x y v o o' p Ho) as (l & El & Hl). pose proof (sb_heap _ _ _ _ _ _ _ Hs) as Hh. split.
  - apply (bag_step o o' l); [done|apply Hs|]. rewrite Hl, Hh. simpl. symmetry. apply (pending_same _ p x); [apply He|apply Hs].
  - unfold surplus. rewrite Hh, map_size_insert_Some by (rewrite (et_heap _ _ _ He); eauto). rewrite (sb_inflight _ _ _ _ _ _ _ Hs). lia.
Qed.

(** A new operation. *)
Definition fresh_op x : Prop := gt (o_target x) ∧ o_session x = None ∧ o_tid x = 0 ∧ o_attempts x = 0 ∧ o_map_dne_bound x = 0 ∧ o_should_resend x = true.

Lemma entering_new o p x : good o → ob_heap o !! p = None → fresh_op x → entering p x (with_heap (<[p := x]> (ob_heap o)) o).
Proof using Type.
  intros [Hi Hl] Hp (H1 & H2 & H3 & H4 & H5 & H6). destruct Hi as [[Hk Hb] I2 I3 I4 I5 I6 I7]. constructor; try done; [..|lia|lia| |].
  - split; [done|]. simpl. by apply books_insert.
  - simpl. apply lookup_insert_eq.
  - intros q y Hq. simpl. rewrite lookup_insert_ne by done. intros Hy. split; [eauto|]. apply not_eq_None_Some. intros E.
    assert (q ∈ []) as H by (apply I3; eauto). by apply elem_of_nil in H.
  - intros E0 q y. simpl. destruct (decide (q = p)) as [->|Hq]; rewrite ?lookup_insert_eq, ?lookup_insert_ne by done; [by intros [= <-]|by apply (I6 E0)].
Qed.

Lemma submit_ok o p x : good o → ob_heap o !! p = None → fresh_op x →
  wp (op_submit e p x) o (λ tid o', keeps (contexts x) 0 o o' ∧ tid = ob_last_tid o + 1 ∧
    ∃ y v, submitted gm gt p x y (with_heap (<[p := x]> (ob_heap o)) o) o' ∧
      (is_sent x y v (with_heap (<[p := x]> (ob_heap o)) o) o' ∨ is_kept p x y v (with_heap (<[p := x]> (ob_heap o)) o) o') ∧
      ∃ t l m', _calc_target e (o_target x) (Some (o_last_force_resend x)) false (ob_map o) = Ok ((v, t, l), m') ∧ t_osd (o_target y) = t_osd t).
Proof using T.
  intros Hg Hp Hx. pose proof (entering_new o p x Hg Hp Hx) as He. unfold op_submit. apply wp_put_op. set (o1 := with_heap _ o) in *.
  destruct Hx as (H1 & H2 & H3 & H4 & H5 & H6).
  eapply wp_mono; [apply (submit_any e gm gt o1 p x); [apply He..|done|done|by left]|]. intros tid o' (-> & y & v & Hs & Ho & Hc).
  destruct (entered_keeps p x y v o1 o' He Hs Ho) as (Hg' & Hb & Hsur). split; [|split; [done|]; by exists y, v]. split; [done|]. split.
  - rewrite Hb. unfold bag, o1. simpl. rewrite pending_insert by done. solve_Permutation.
  - rewrite Hsur. unfold surplus, o1. simpl. rewrite map_size_insert_None by done. lia.
Qed.

(** An operation that is redirected stays counted as being in flight. *)
Definition redirected loc obj x : Op := set_target (redirect_target loc obj (o_target x)) (o_last_force_resend x) (set_tid 0 (set_session None x)).

Lemma redirect_ok o p x sid loc obj : good o → ob_heap o !! p = Some x → o_session x = Some sid → o_attempts x ≠ 0 → gt (redirect_target loc obj (o_target x)) →
  (∀ v t l m, _calc_target e (redirect_target loc obj (o_target x)) (Some (o_last_force_resend x)) false (ob_map o) = Ok ((v, t, l), m) → v ≠ POOL_DNE) →
  wp (redirect_op e sid p loc obj) o (λ _ o', keeps [] 1 o o').
Proof using T.
  intros [Hi Hl] Hp Hx Ha Hgt Hdne. pose proof (iv_wf _ _ _ _ Hi) as Hw. pose proof (iv_ops _ _ _ _ Hi p x Hp) as Hok.
  assert (map_find (ob_checks o) (o_tid x) = None) as Hc by (destruct Hw; by eapply books_sent_unchecked).
  unfold redirect_op. apply (wp_get_op _ p x); [done|]. eapply wp_bind_eq; [reflexivity|]. set (o1 := with_tid_count _ _ _ _ o).
  eapply wp_bind_mono; [by apply (remove_ok o1 sid p x)|]. intros [] o2 (Hw2 & Hm & Hh). set (x2 := set_session None x) in *.
  assert (ob_heap o2 !! p = Some x2) as Hp2 by (rewrite Hh; apply lookup_insert_eq).
  eapply wp_bind_eq; [unfold change_op, get_op, mbind, M_bind; rewrite Hp2; reflexivity|]. set (o3 := with_heap (<[p := set_tid 0 x2]> (ob_heap o2)) o2).
  eapply wp_bind_eq; [unfold change_op, get_op, mbind, M_bind; simpl; rewrite lookup_insert_eq; reflexivity|]. fold (redirected loc obj x). set (x4 := redirected loc obj x).
  set (o4 := with_heap (<[p := x4]> (ob_heap o3)) o3). destruct Hm as [M1 M2 M3 M4 M5 M6 M7].
  assert (ob_heap o4 = <[p := x4]> (ob_heap o)) as Hh4 by (simpl; by rewrite Hh, !insert_insert_eq).
  assert (wf o3) as Hw3.
  { destruct Hw2 as [Hk2 Hb2]. split; [done|]. simpl. apply books_untid; [done|done|done|]. eapply books_unchecked; [done|done|]. simpl. by rewrite M2. }
  assert (wf o4) as Hw4 by (apply (wf_put o3 p (set_tid 0 x2) x4); [done|apply lookup_insert_eq|done|done|by left]).
  destruct Hi as [I1 I2 I3 I4 I5 I6 I7]. assert (entering p x4 o4) as He.
  { constructor; try done; try (by destruct Hok); simpl; rewrite ?M1, ?M5; try done.
    - apply lookup_insert_eq.
    - intros q y Hq. rewrite !lookup_insert_ne, Hh, lookup_insert_ne by done. intros Hy. split; [eauto|]. apply not_eq_None_Some. intros E.
      assert (q ∈ []) as H by (apply I3; eauto). by apply elem_of_nil in H.
    - intros E0. by destruct Ha, (I6 E0 p x).
    - apply (leading_same o); [change (ob_map o4) with (ob_map o2); by rewrite M1|exact M7|done]. }
  eapply wp_bind_mono; [apply (submit_any e gm gt o4 p x4); [apply He..|done|done|right]|].
  - change (ob_map o4) with (ob_map o2). rewrite M1. exact Hdne.
  - intros tid o' (_ & y & v & Hs & Ho & _). apply wp_ret. destruct (entered_keeps p x4 y v o4 o' He Hs Ho) as (Hg' & Hb & Hsur). split; [done|].
    assert (bag o4 ≡ₚ bag o) as Hb4.
    { apply (bag_step o o4 []); [change (ob_out o4) with (ob_out o2); by rewrite M6|change (ob_waiting o4) with (ob_waiting o2); by rewrite M5|].
      rewrite Hh4. simpl. symmetry. by apply (pending_same _ p x). }
    split; [by rewrite Hb, Hb4|]. rewrite Hsur. unfold surplus. rewrite Hh4, map_size_insert_Some by eauto. change (ob_inflight o4) with (ob_inflight o2). rewrite M4. simpl. lia.
Qed.

(** ** Any event *)

Lemma holder_some o tid sid : wf o → holder o tid = Some sid → ∃ s p x, session_at o sid = Some s ∧ ob_heap o !! p = Some x ∧ o_session x = Some sid ∧ o_tid x = tid.
Proof using Type.
  intros Hw. unfold holder. destruct (find _ (ob_sessions o)) as [[i t]|] eqn:Ef.
  - apply find_some in Ef as [Hin%list_elem_of_In [p Hp]%bool_decide_eq_true]. intros [= <-]. simpl in *.
    assert (i ≠ -1) as Hn.
    { intros ->. destruct Hw as [[_ Hk] _]. assert (-1 ∈ keys (ob_sessions o)) as H%Hk by (by apply (list_elem_of_fmap_2 fst _ (-1, t))). lia. }
    assert (session_at o i = Some t) as Hs by (by apply session_at_in). destruct (held o i t tid p Hw Hs Hp) as (x & ? & ? & ?). eauto 10.
  - destruct (map_count (s_ops (ob_homeless o)) tid) eqn:Ec; [|done]. apply bool_decide_eq_true in Ec as [p Hp]. intros [= <-].
    destruct (held o (-1) (ob_homeless o) tid p Hw) as (x & ? & ? & ?); [done|done|]. exists (ob_homeless o). eauto 10.
Qed.

Lemma cancel_ok o tid r : good o → wp (_op_cancel tid r) o (λ c o', c = 0 ∧ keeps [] 0 o o').
Proof using Type.
  intros Hg. pose proof Hg as [Hi Hl]. pose proof (iv_wf _ _ _ _ Hi) as Hw. unfold _op_cancel. apply wp_gets. unfold Datatypes.id.
  destruct (holder o tid) as [sid|] eqn:Eh; [|by apply wp_ret; split; [|apply keeps_same]].
  destruct (holder_some o tid sid Hw Eh) as (s & p & x & Hs & Hp & Hx & <-). eapply wp_mono; [by apply (cancel_end o sid p x r s)|].
  intros c o' (-> & He). split; [done|]. apply (keeps_ended p _ o o' x Hg He Hp); [by rewrite Hx|apply over_end].
Qed.

Lemma keeps_steps n1 n2 l1 l2 o1 o2 o3 : keeps l1 n1 o1 o2 → keeps l2 n2 o2 o3 → keeps (l2 ++ l1) (n1 + n2) o1 o3.
Proof using Type. intros (_ & B1 & S1) (Hg & B2 & S2). split; [done|]. split; [by rewrite B2, B1, app_assoc|lia]. Qed.

Lemma cancel_all_ok tids r : ∀ o, good o → wp (cancel_all tids r) o (λ _ o', keeps [] 0 o o').
Proof using Type.
  induction tids as [|tid tids IH]; intros o Hg; cbn [cancel_all]; [by apply wp_ret, keeps_same|].
  eapply wp_bind_mono; [by apply cancel_ok|]. intros c o1 (-> & H1). apply wp_assert; [done|]. eapply wp_mono; [apply IH, H1|].
  intros [] o2 H2. apply (keeps_steps 0 0 [] [] o o1 o2 H1 H2).
Qed.

(** Replies are to what was sent, do not ask for another attempt, and redirect to
    a good place in a pool that exists; the monitors' versions are not negative;
    new operations and new maps are what they should be. *)
Definition enabled o (ev : event) : Prop :=
  match ev with
  | Submit p x => ob_heap o !! p = None ∧ fresh_op x
  | Reply m => 0 <= re_source m ∧ ∀ p x, accepted o m p x → o_attempts x ≠ 0 ∧
      match re_redirect m with
      | None => re_result m ≠ - EAGAIN
      | Some (loc, obj) => gt (redirect_target loc obj (o_target x)) ∧
          ∀ v t l m', _calc_target e (redirect_target loc obj (o_target x)) (Some (o_last_force_resend x)) false (ob_map o) = Ok ((v, t, l), m') → v ≠ POOL_DNE
      end
  | Latest _ latest _ => 0 <= latest
  | NewMap m => usable m
  | _ => True
  end.

Definition brings (ev : event) : list Z := match ev with Submit _ x => contexts x | Wait _ c => [c] | _ => [] end.
Definition is_redirect (ev : event) : bool := match ev with Reply m => bool_decide (is_Some (re_redirect m)) | _ => false end.
(** What the event brings in; a redirected operation is counted once more. *)
Definition kept (ev : event) o o' : Prop := ∃ n, (n = 0 ∨ n = 1 ∧ is_redirect ev = true) ∧ keeps (brings ev) n o o'.

Lemma kept_0 ev o o' : keeps (brings ev) 0 o o' → kept ev o o'.
Proof using Type. intros H. exists 0. auto. Qed.

Lemma accepted_dec o m : wf o → 0 <= re_source m → handle_osd_op_reply e m o = Ok (tt, o) ∨ ∃ p x, accepted o m p x ∧
  handle_osd_op_reply e m o = match re_redirect m with
    | Some (loc, obj) => redirect_op e (re_source m) p loc obj o
    | None => if re_result m =? - EAGAIN then resubmit_op (re_source m) p o else answer_op p m o end.
Proof using Type.
  intros Hw Hr. unfold handle_osd_op_reply, gets, mbind, M_bind. unfold Datatypes.id.
  destruct (map_find (ob_sessions o) (re_source m)) as [s|] eqn:Es; [|by left]. destruct (map_find (s_ops s) (re_tid m)) as [p|] eqn:Ef; [|by left].
  assert (session_at o (re_source m) = Some s) as Hs by (unfold session_at; by rewrite (proj2 (Z.eqb_neq (re_source m) (-1))) by lia).
  destruct (held o _ s _ p Hw Hs Ef) as (x & Hp & Hx & Ht). unfold get_op. rewrite Hp.
  destruct ((0 <=? re_retry_attempt m) && negb (re_retry_attempt m =? o_attempts x - 1)) eqn:Ea; [by left|]. right. exists p, x.
  split; [|destruct (re_redirect m) as [[loc obj]|]; [done|by destruct (re_result m =? - EAGAIN)]].
  split_and!; try done. apply andb_false_iff in Ea as [Ea|Ea]; [left; lia|right; lia].
Qed.

Lemma reply_ok o m : good o → enabled o (Reply m) → wp (handle_osd_op_reply e m) o (λ _ o', kept (Reply m) o o').
Proof using T.
  intros Hg [Hr Ha]. pose proof Hg as [Hi Hl]. pose proof (iv_wf _ _ _ _ Hi) as Hw. unfold wp.
  destruct (accepted_dec o m Hw Hr) as [->|(p & x & Hacc & ->)]; [by apply kept_0, keeps_same|].
  destruct (Ha p x Hacc) as [Hat Hc]. destruct Hacc as (Hp & Hx & _). unfold kept, is_redirect. destruct (re_redirect m) as [[loc obj]|].
  - destruct Hc as [Hgt Hdne]. eapply wp_mono; [by apply (redirect_ok o p x (re_source m) loc obj)|]. intros [] o' Hk. exists 1. auto.
  - rewrite (proj2 (Z.eqb_neq (re_result m) (- EAGAIN))) by done.
    assert (map_find (ob_checks o) (o_tid x) = None) as Hck by (destruct Hw; by eapply books_sent_unchecked).
    pose proof (over_answers m x) as Hov. eapply wp_mono; [by apply (answer_ok o p x (re_source m) m)|]. intros [] o' H. exists 0. split; [by left|].
    destruct (is_done m x); [apply (keeps_ended p _ o o' x Hg H Hp); [by rewrite Hx|by rewrite app_nil_r in Hov]|].
    destruct H as (Hw' & [M1 M2 M3 M4 M5 M6 M7] & Hh). pose proof (iv_ops _ _ _ _ Hi p x Hp) as Hok. split; [split|split].
    + apply (inv_change gm gt [] [] o o' p x (left_over m x) Hi Hw'); rewrite ?M1, ?M5; try done; [exact (iv_map _ _ _ _ Hi)| |intros E0; by apply (iv_first _ _ _ _ Hi E0 p x)|constructor|].
      * destruct Hok. by constructor.
      * intros q. destruct (decide (q = p)) as [->|Hq]; [|done]. split; [by intros ?%elem_of_nil|]. intros E. change (o_session (left_over m x)) with (o_session x) in E. congruence.
    + by apply (leading_same o); rewrite ?M1.
    + apply (bag_step o o' (answers m x)); [done..|]. rewrite Hh. by apply (pending_put _ p x).
    + unfold surplus. rewrite Hh, map_size_insert_Some by eauto. lia.
Qed.

(** One more waits for [k]. *)
Lemma waiting_ok_put w k c r : waiting_ok w → let w' := map_put w k (default [] (map_find w k) ++ [(Some c, r)]) in waiting_ok w' ∧ asleep w' ≡ₚ c :: asleep w.
Proof using Type.
  intros [Ho Hw] w'. split; [split; [by apply map_put_ordered|]|].
  - apply Forall_forall. intros [i ws] [[-> ->]|Hin]%map_put_in; [|by apply (proj1 (Forall_forall _ _) Hw)].
    apply Forall_app. split; [|by repeat constructor]. destruct (map_find w k) as [l|] eqn:E; [|constructor].
    apply map_find_pair in E. by apply (proj1 (Forall_forall _ _) Hw (k, l)).
  - unfold w'. clear w' Hw. revert Ho. unfold ordered. induction w as [|[i ws] w IH]; simpl; [done|]. intros [Ho Hk]%StronglySorted_inv.
    destruct (Z.eqb_spec i k) as [->|Hn].
    + rewrite Z.ltb_irrefl. unfold asleep. simpl. rewrite omap_app. simpl. solve_Permutation.
    + destruct (Z.ltb_spec i k) as [Hlt|Hge].
      * unfold asleep in *. simpl. rewrite (IH Ho). solve_Permutation.
      * assert (map_find w k = None) as ->.
        { destruct (map_find w k) eqn:E; [|done]. assert (k ∈ keys w) as Hin by (apply map_find_in; eauto).
          apply (Forall_forall _ (keys w)) with (x := k) in Hk; [lia|done]. }
        done.
Qed.

Lemma wait_ok o newest c : good o → wp (_get_latest_version e newest (Some c)) o (λ _ o', keeps [c] 0 o o').
Proof using Type.
  intros [Hi Hl]. unfold _get_latest_version. apply wp_gets. destruct (newest <=? om_epoch (ob_map o)).
  - unfold wp, rwp, emit, modify. split; [split; [by destruct Hi|done]|]. split; [|unfold surplus; simpl; lia].
    unfold bag. simpl. rewrite omap_app. simpl. solve_Permutation.
  - unfold _wait_for_new_map. apply wp_modify. set (o1 := with_waiting _ o). destruct (request_ok e o1) as (ep & w & E). unfold wp. rewrite E. unfold rwp.
    split; [split; [|done]|].
    + destruct Hi. constructor; try done. by apply waiting_ok_put.
    + split; [|unfold surplus; simpl; lia]. unfold bag. simpl. rewrite omap_app. simpl. rewrite app_nil_r.
      rewrite (proj2 (waiting_ok_put _ newest c 0 (iv_waiting _ _ _ _ Hi))). solve_Permutation.
Qed.

Context (fsid : uuid_d).
Abbreviation handle := (Sessions.handle decode_map decode_crush fsid e).

Lemma event_ok o ev : good o → enabled o ev → wp (handle ev) o (λ _ o', kept ev o o').
Proof using T.
  intros Hg Hen. pose proof Hg as [Hi Hl]. destruct ev as [p x|tid r|r|m|tid latest r|m|newest c|addr]; cbn [Sessions.handle].
  - destruct Hen as [Hp Hx]. eapply wp_bind_mono; [by apply (submit_ok o p x)|]. intros tid o' (Hk & _). by apply wp_ret, kept_0.
  - eapply wp_bind_mono; [by apply cancel_ok|]. intros c o' (_ & Hk). by apply wp_ret, kept_0.
  - unfold op_cancel_writes. rewrite wp_bind. apply wp_gets. eapply wp_bind_mono; [by apply cancel_all_ok|]. intros [] o' Hk.
    apply wp_gets. by apply wp_ret, wp_ret, kept_0.
  - by apply reply_ok.
  - eapply wp_mono; [by apply latest_ok|]. intros [] o' Hk. by apply kept_0.
  - eapply wp_mono; [by apply handle_map_ok|]. intros [] o' (Hi' & Hl' & Hb & Hs & _). apply kept_0. split; [done|]. split; [done|lia].
  - eapply wp_mono; [by apply wait_ok|]. intros [] o' Hk. by apply kept_0.
  - eapply wp_mono; [by apply reset_ok|]. intros [] o' Hk. by apply kept_0.
Qed.

(** What can have happened since the start. *)
Inductive history : list event → objecter → Prop :=
  | history_start m : gm m → history [] (start m)
  | history_event evs o ev o' : history evs o → enabled o ev → handle ev o = Ok (tt, o') → history (evs ++ [ev]) o'.

Definition redirects (evs : list event) : Z := Z.of_nat (length (filter (λ ev, is_redirect ev = true) evs)).

Lemma start_good m : gm m → good (start m).
Proof using Type.
  intros Hm. assert (∀ i s, session_at (start m) i = Some s → s = MkSession (-1) 0 None [] ∧ i = -1) as Hs.
  { intros i s. unfold session_at. simpl. destruct (Z.eqb_spec i (-1)); [by intros [= <-]|done]. }
  split; [constructor|intros i c Hi Hc].
  - split; [split; [constructor|by intros sid ?%elem_of_nil]|]. constructor; try done; simpl.
    + intros sid s [-> ->]%Hs. split_and!; try done. constructor.
    + intros sid s tid p [-> ->]%Hs. split; [done|]. by intros (x & ? & _).
    + constructor.
    + by exists (MkSession (-1) 0 None []).
  - constructor.
  - intros p. split; [by intros ?%elem_of_nil|]. by intros (x & ? & _).
  - done.
  - done.
  - done.
  - split; [constructor|done].
  - destruct (session_at (start m) i) as [s|] eqn:E; [|done]. by apply Hs in E as [_ ?].
Qed.

Lemma history_good evs o : history evs o → good o ∧ bag o ≡ₚ concat (brings <$> evs) ∧ 0 <= surplus o <= redirects evs.
Proof using T.
  induction 1 as [m Hm|evs o ev o' Hh (Hg & Hb & Hs) Hen E].
  - split; [by apply start_good|]. split; [done|]. unfold surplus, redirects. simpl. rewrite map_size_empty. lia.
  - pose proof (event_ok o ev Hg Hen) as H. unfold wp in H. rewrite E in H. destruct H as (n & Hn & Hg' & Hb' & Hs'). split; [done|]. split.
    + rewrite fmap_app, concat_app, Hb', Hb. simpl. rewrite app_nil_r. apply Permutation_app_comm.
    + unfold redirects in *. rewrite filter_app, length_app, filter_cons, filter_nil. destruct Hn as [->|[-> ->]]; [|rewrite decide_True by done; simpl; lia].
      destruct (decide (is_redirect ev = true)); simpl; lia.
Qed.


(** C23: After a history of enabled events - no reply carries -EAGAIN, redirections
    are to good places in pools that exist, maps are usable - the monitors' answer that [latest] is
    the newest map ends the operation that asked exactly when [latest] is not zero
    and that map, or a newer one, is here already: then its contexts are completed
    with -ENOENT, since its pool does not exist.  Otherwise nothing is completed, and
    the operation remembers the epoch to wait for.  An answer nobody waits for, or
    one that asks to try again, changes nothing. *)
Theorem latest_exact evs o tid latest r : history evs o → 0 <= latest →
  (r = - EAGAIN ∨ r = - ECANCELED ∨ map_find (ob_checks o) tid = None → op_map_latest tid latest r o = Ok (tt, o)) ∧
  (r ≠ - EAGAIN → r ≠ - ECANCELED → ∀ p, map_find (ob_checks o) tid = Some p → ∃ x, ob_heap o !! p = Some x ∧ o_tid x = tid ∧
    wp (op_map_latest tid latest r) o (λ _ o',
      if (0 <? latest) && (latest <=? om_epoch (ob_map o)) then ended p (completes x (- ENOENT) ++ drops x) o o'
      else ob_heap o' = <[p := set_attempts 0 latest x]> (ob_heap o) ∧ bag o' ≡ₚ bag o)).
Proof using T.
  intros Hh Hlat. destruct (history_good evs o Hh) as ([Hi _] & _). split.
  - unfold op_map_latest. intros [->|[->|Hn]]; [done|done|]. destruct ((r =? - EAGAIN) || (r =? - ECANCELED)); [done|].
    unfold gets, mbind, M_bind. by rewrite Hn.
  - intros Hr1 Hr2 p Hf. destruct (latest_end o tid latest r p Hi Hlat Hr1 Hr2 Hf) as (x & Hp & Ht & _ & H). exists x. split; [done|]. split; [done|].
    eapply wp_mono; [exact H|]. cbv zeta. intros [] o'. destruct (_ && _); [done|]. intros (o1 & Hq & _ & Hs & Eh & _).
    split; [by rewrite (qu_heap _ _ _ Hq)|]. by rewrite (quiet_bag _ _ _ Hq), (sc_bag _ _ _ Hs).
Qed.


(** C10: In every state after a history of enabled events - no reply carries
    -EAGAIN, redirections are to good places in pools that exist, maps are usable -
    each operation in memory is in exactly the session it names, under its tid, and
    each entry of a session is such an operation; tids are not shared; an operation in the session of an OSD has
    been sent or waits for the end of a pause; and every session leads to an OSD
    that is up, at its address in the current map. *)
Theorem operations_in_their_sessions evs o : history evs o →
  (∀ p x, ob_heap o !! p = Some x → ∃ sid s, o_session x = Some sid ∧ session_at o sid = Some s ∧ map_find (s_ops s) (o_tid x) = Some p ∧
     (sid ≠ -1 → t_paused (o_target x) = true ∨ o_attempts x ≠ 0)) ∧
  (∀ sid s tid p, session_at o sid = Some s → map_find (s_ops s) tid = Some p → ∃ x, ob_heap o !! p = Some x ∧ o_session x = Some sid ∧ o_tid x = tid) ∧
  (∀ p q x y, ob_heap o !! p = Some x → ob_heap o !! q = Some y → o_tid x = o_tid y → p = q) ∧
  (∀ sid s, sid ≠ -1 → session_at o sid = Some s →
     up_b (om_osds (ob_map o)) sid = true ∧ ∃ a, get_addr (om_osds (ob_map o)) sid = Ok a ∧ s_con s = Some a) ∧
  ob_num_homeless o = Z.of_nat (length (s_ops (ob_homeless o))).
Proof using T.
  intros Hh. destruct (history_good evs o Hh) as ([Hi Hl] & _). pose proof (iv_wf _ _ _ _ Hi) as Hw.
  assert (∀ p x, ob_heap o !! p = Some x → is_Some (o_session x)) as Hsome.
  { intros p x Hp. apply not_eq_None_Some. intros E. assert (p ∈ []) as H by (apply (iv_limbo _ _ _ _ Hi); eauto). by apply elem_of_nil in H. }
  split; [|split; [|split; [|split]]].
  - intros p x Hp. destruct (Hsome p x Hp) as [sid Hx]. destruct (home o p x sid Hw Hp Hx) as (s & Hs & Hf). exists sid, s. split_and!; try done.
    by apply (ok_sent _ _ (iv_ops _ _ _ _ Hi p x Hp)).
  - intros sid s tid p Hs Hf. by apply (held o sid s tid p Hw Hs).
  - intros p q x y Hp Hq Ht. symmetry. apply (one_op o p q x y Hw Hp Hq); [by eapply Hsome|done].
  - intros sid s Hn Hs. apply (Hl sid (s_con s) Hn). by rewrite Hs.
  - destruct (bk_count _ _ _ _ _ (proj2 Hw)) as (s & Hs & ->). by injection Hs as <-.
Qed.

(** C8: After any history of enabled events - replies are to operations that have
    been sent, do not carry -EAGAIN, and redirect only to a good place in a pool that
    exists; maps are usable; new operations are fresh - the contexts that the client
    has handed over are those of the operations in memory, those that wait for a map, and those that have been
    completed or dropped, each as often as it was handed over; so if they were
    all different, none has been completed or dropped twice. *)
Theorem contexts_completed_once evs o : history evs o →
  omap over (ob_out o) ++ pending (ob_heap o) ++ asleep (ob_waiting o) ≡ₚ concat (brings <$> evs) ∧
  (NoDup (concat (brings <$> evs)) → NoDup (omap over (ob_out o)) ∧ ∀ c, c ∈ omap over (ob_out o) → c ∉ pending (ob_heap o)).
Proof using T.
  intros Hh. destruct (history_good evs o Hh) as (_ & Hb & _). split; [done|]. rewrite <- Hb. unfold bag. intros (Hn & Hd & _)%NoDup_app.
  split; [done|]. intros c Hc Hp. apply (Hd c Hc), elem_of_app. by left.
Qed.

(** C24: After any history of enabled events - no reply carries -EAGAIN,
    redirections are to good places in pools that exist, maps are usable - the counter
    of operations in flight is at least their number, and exceeds it at most by the
    number of redirections. *)
Theorem inflight_bounds evs o : history evs o →
  Z.of_nat (base.size (ob_heap o)) <= ob_inflight o <= Z.of_nat (base.size (ob_heap o)) + redirects evs.
Proof using T. intros Hh. destruct (history_good evs o Hh) as (_ & _ & Hs). unfold surplus in Hs. lia. Qed.
End targets.
