(* ===== verification/SessionClient.v ===== *)
(** * Clients that write (src/osdc/Objecter.cc)

    The calculation of targets is what the Objecter relies on, for writes at fixed
    places of the pools of a family of maps; a run of the Objecter; and what goes
    wrong. *)

From stdpp Require Import gmap strings sorting.
From S2P Require Import Prelude Hash CrushTypes Ln Nodes Choose ChoosePerm ChooseSpec Mapper.
From S2P Require Import MapWf.
From S2P Require Import FirstnSpec IndepSpec RuleSpec RuleProps BuilderBase BuilderMap MapSpec.
From S2P Require Import CrushWrapper StdMap StrHash IntervalSet SnapSet Pg PgSpec.
From S2P Require Import OsdState OsdMapping OsdMappingSpec OsdMappingProps OsdIncr OsdQuery.
From S2P Require Import Target TargetProps.
From S2P Require Import Sessions SessionSpec SessionProps SessionScan SessionRun.

(** ** Maps of which permutations have been cached *)

Lemma crush_kept_trans sh D m1 m2 m3 : crush_kept sh D m1 m2 → crush_kept sh D m2 m3 → crush_kept sh D m1 m3.
Proof.
  intros (c & -> & Hc) (c' & -> & Hc'). exists c'. split; [done|]. simpl in *. by rewrite (mo_statics _ _ _ _ Hc) in Hc'.
Qed.

Lemma find_rule_rules m m' ruleset type size n : m_rules m' = m_rules m → ∀ i, find_rule_from m' ruleset type size n i = find_rule_from m ruleset type size n i.
Proof.
  intros E. induction n as [|n IH]; intros i; cbn [find_rule_from]; [done|]. rewrite E. destruct (rdp (m_rules m) i) as [[rule|]|]; simpl; [|apply IH|done].
  destruct (mask_matches _ _ _ _); [done|apply IH].
Qed.

Lemma placeable_kept m m' pg pool shift sh D rank lm L R fuel :
  placeable m pg pool shift sh D rank lm L R fuel → crush_kept sh D m m' → placeable m' pg pool shift sh D rank lm L R fuel.
Proof.
  intros [H1 H2 H3 H4 H5 H6 H7 H8 H9 [W1 W2 W3 W4 W5] H11] (c & -> & Hc). pose proof (mo_statics _ _ _ _ Hc) as Es.
  pose proof (f_equal sx_rules Es) as E1. pose proof (f_equal sx_max_rules Es) as E2. pose proof (f_equal sx_local Es) as E3.
  pose proof (f_equal sx_fallback Es) as E4. pose proof (f_equal sx_total Es) as E5. pose proof (f_equal sx_vary_r Es) as E6. simpl in *.
  constructor; simpl; try done; rewrite ?E1, ?E2; try done.
  - by rewrite Es.
  - by constructor; rewrite ?E3, ?E4, ?E5, ?E6.
  - intros ruleno Hf Hr. assert (find_rule (om_crush m) (p_crush_ruleset pool) (p_type pool) (p_size pool) = Ok ruleno) as Hf'.
    { rewrite <- Hf. unfold find_rule. simpl. unfold crush_find_rule. rewrite E2. symmetry. by apply find_rule_rules. }
    destruct (H11 ruleno Hf' Hr) as (sts & Hra & Hty). exists sts. split; [|done]. unfold rule_at in *. by rewrite E1, E2.
Qed.

(** ** A family of maps *)

Section family.
Context (e : settings) (bases : list OSDMap) (sh : list (option bshape)) (D : Z) (rank : nat → nat) (lm : limits) (L R : Z).

(** A map whose pools can all be placed. *)
Record base_good (b : OSDMap) : Prop := {
  bg_osds : osds_wf (om_osds b);
  bg_epoch : 0 <= om_epoch b;
  bg_first : om_epoch b = 0 → ∀ i, up_b (om_osds b) i = false;
  bg_crush : map_ok sh D (statics_of (cw_crush (om_crush b))) (cw_crush (om_crush b));
  bg_place : ∀ p pool ps, get_pg_pool b p = Some pool → ∃ shift, placeable b (PgT (u64 p) ps (-1)) pool shift sh D rank lm L R (rule_fuel e);
  bg_primary : om_primary_temp b = ∅ }.
Hypothesis bases_good : ∀ b, b ∈ bases → base_good b.

Definition map_in (m : OSDMap) : Prop := ∃ b, b ∈ bases ∧ crush_kept sh D b m.

(** A write to the primary, with its hash position given. *)
Record write_ok (t : op_target_t) : Prop := {
  wo_write : is_write t = true;
  wo_remembers : remembers t;
  wo_osd : t_osd t = t_acting_primary t ∨ t_osd t = -1;
  wo_precalc : t_precalc_pgid t = false;
  wo_base : 0 <= loc_hash (t_base_oloc t);
  wo_target : loc_pool (t_target_oloc t) = -1 ∨ 0 <= loc_hash (t_target_oloc t) }.

Lemma redirect_hash pi force t : write_ok t → 0 <= loc_hash (t_target_oloc (redirect pi force t)).
Proof using Type.
  intros [_ _ _ _ Hb Ht]. unfold redirect. simpl. assert (0 <= loc_hash (if (loc_pool (t_target_oloc t) =? -1) || force then t_base_oloc t else t_target_oloc t)) as H.
  { destruct Ht as [->|Ht]; simpl; [done|]. by destruct (_ || force). }
  destruct (_ && negb _); [|done]. destruct (_ && _), (_ && _); done.
Qed.

Lemma target_pg_write m pi force t : write_ok t →
  target_pg e m (redirect pi force t) = Ok None ∨
  ∃ p pool ps, get_pg_pool m p = Some pool ∧ target_pg e m (redirect pi force t) = Ok (Some (PgT (u64 p) ps (-1))).
Proof using Type.
  intros Hw. pose proof (redirect_hash pi force t Hw) as Hh. unfold target_pg. rewrite (wo_precalc t Hw : t_precalc_pgid (redirect pi force t) = false).
  unfold object_locator_to_pg. set (loc := t_target_oloc (redirect pi force t)) in *. destruct (get_pg_pool m (loc_pool loc)) as [pool|] eqn:Ep; [|by left].
  right. exists (loc_pool loc), pool, (u32 (loc_hash loc)). split; [done|]. by rewrite (proj2 (Z.geb_le (loc_hash loc) 0)).
Qed.

Lemma calc_no_pg t lfr m pi : get_pg_pool m (loc_pool (t_base_oloc t)) = Some pi → target_pg e m (redirect pi (forced m pi lfr) t) = Ok None →
  ∃ l', _calc_target e t lfr false m = Ok ((POOL_DNE, set_osd (-1) (redirect pi (forced m pi lfr) t), l'), m).
Proof using Type.
  intros Hp Hg. unfold _calc_target. cbv beta delta [gets mbind M_bind]. cbv beta iota delta [Datatypes.id]. rewrite Hp. unfold forced, lift in *.
  destruct (om_epoch m =? p_last_force_op_resend pi); [destruct lfr as [l|]; [destruct (l <? _)|]|]; cbn [andb] in *; rewrite Hg; by eexists.
Qed.

Lemma write_ok_request pi force t t' : write_ok t → same_request (redirect pi force t) t' → is_write t' = true → remembers t' →
  (t_osd t' = t_acting_primary t' ∨ t_osd t' = -1) → write_ok t'.
Proof using Type.
  intros Hw (E1 & E2 & E3 & E4 & E5 & E6) H1 H2 H3. constructor; try done; [rewrite E4|rewrite E3|right; rewrite E6; by apply redirect_hash]; simpl; apply Hw.
Qed.

Lemma map_in_kept m m' : map_in m → crush_kept sh D m m' → map_in m'.
Proof using Type. intros (b & Hb & Hk) H. exists b. split; [done|]. by eapply crush_kept_trans. Qed.

#[export] Instance write_targets : Targets e map_in write_ok.
Proof using bases_good.
  constructor.
  - intros m (b & Hb & (c & -> & _)). apply (bg_osds b (bases_good b Hb)).
  - intros t Ht. pose proof (wo_write t Ht) as Hw. unfold is_write, has_bits in *. apply negb_true_iff, Z.eqb_neq in Hw. apply negb_true_iff, Z.eqb_neq.
    intros E. apply Hw. apply Z.bits_inj'. intros n Hn. pose proof (f_equal (λ z, Z.testbit z n) E) as En. simpl in En.
    rewrite Z.land_spec, Z.lor_spec, Z.bits_0 in En. rewrite Z.land_spec, Z.bits_0. destruct (Z.testbit (t_flags t) n), (Z.testbit CEPH_OSD_FLAG_READ n); simpl in *; done.
  - intros t b [H1 H2 H3 H4 H5 H6]. by constructor.
  - intros m i (b & Hb & (c & -> & _)) E. by apply (bg_first b (bases_good b Hb)).
  - intros m (b & Hb & (c & -> & _)). apply (bg_epoch b (bases_good b Hb)).
  - intros m t lfr Hm Ht. pose proof Hm as (b & Hb & Hk). pose proof (bases_good b Hb) as Hg.
    destruct (get_pg_pool m (loc_pool (t_base_oloc t))) as [pi|] eqn:Ep.
    + destruct (target_pg_write m pi (forced m pi lfr) t Ht) as [En|(p & pool & ps & Epool & Epg)].
      * destruct (calc_no_pg t lfr m pi Ep En) as (l' & E). unfold wp. rewrite E. unfold rwp. split_and!; try done; [|by left|by right].
        apply (write_ok_request pi (forced m pi lfr) t); try done; [apply Ht..|by right].
      * assert (get_pg_pool b p = Some pool) as Epb by (destruct Hk as (c & -> & _); done).
        destruct (bg_place b Hg p pool ps Epb) as (shift & Hpl). pose proof (placeable_kept b m _ _ _ _ _ _ _ _ _ _ Hpl Hk) as Hplm.
        destruct (write_follows e t lfr m pi _ pool shift sh D rank lm L R (wo_write t Ht) (wo_remembers t Ht) Ep Epg Hplm)
          as (r & t' & l' & m' & up & upp & acting & actp & E & Hk' & _ & Hr & Hw' & Hrem & _ & Hact & Hup & Hosd & _ & _ & Hpause & Hreq).
        { destruct Hk as (c & -> & _). simpl. by rewrite (bg_primary b Hg), lookup_empty. }
        unfold wp. rewrite E. unfold rwp. destruct (wo_osd t Ht) as [Ho|Ho]; destruct Hosd as [Ho'|[Ho' Hpr]].
        all: split; [by eapply map_in_kept|split; [by destruct Hk' as (c & -> & _)|split; [by destruct Hk' as (c & -> & _)|]]].
        all: assert (t_osd t' = actp ∨ t_osd t' = -1) as Ht' by (rewrite Ho'; (by left) || (rewrite Ho; auto)).
        all: split; [apply (write_ok_request pi (forced m pi lfr) t); try done; by rewrite Hact|].
        all: split; [destruct Ht' as [->| ->]; auto|by split].
    + unfold wp. assert (_calc_target e t lfr false m = Ok ((POOL_DNE, set_osd (-1) t, lfr), m)) as E.
      { unfold _calc_target. cbv beta delta [gets mbind M_bind]. cbv beta iota delta [Datatypes.id]. by rewrite Ep. }
      rewrite E. unfold rwp. split_and!; try done; [|by left|by right]. destruct Ht. constructor; try done. by right.
Qed.
End family.

(** ** A run *)

(** No map yet; and a later one, in which OSD 0 is down. *)
Definition empty_map : OSDMap := with_om_epoch 0 (with_om_pools [] (with_om_osds (Osds 0 0 [] [] [] [] [] [] [] [] [] None) six_map)).
Definition later_osds : osds :=
  Osds 6 6 [1; 3; 3; 3; 3; 3] sample_weight (replicate 6 osd_info0) (replicate 6 osd_xinfo0)
    (replicate 6 None) (replicate 6 None) (replicate 6 None) (replicate 6 None) (replicate 6 0) None.
Definition later_map : OSDMap := with_om_epoch 6 (with_om_osds later_osds six_map).
Definition sample_bases : list OSDMap := [empty_map; six_map; later_map].

Lemma placeable_osds m pg pool shift sh D rank lm L R fuel o k : placeable m pg pool shift sh D rank lm L R fuel → osds_wf o →
  placeable (with_om_epoch k (with_om_osds o m)) pg pool shift sh D rank lm L R fuel.
Proof. intros [] Ho. by constructor. Qed.

Lemma six_any_placeable p pool ps : get_pg_pool six_map p = Some pool → ∃ shift, placeable six_map (PgT (u64 p) ps (-1)) pool shift sample_shape 6 sample_rank sample_limits 0 1 104.
Proof.
  unfold get_pg_pool. simpl. intros H.
  assert (p = 1 ∧ pool = rep_pool ∨ p = 2 ∧ pool = ec_pool_3) as [[-> ->]|[-> ->]].
  { destruct p as [|[q|[q|q|]|]|q]; try discriminate H; injection H as <-; auto. }
  - exists true. apply six_placeable; [reflexivity|reflexivity|reflexivity|]. intros r [= <-]. by left.
  - exists false. apply six_placeable; [reflexivity|reflexivity|reflexivity|]. intros r [= <-]. by right.
Qed.

Lemma sample_bases_good b : b ∈ sample_bases → base_good plain sample_shape 6 sample_rank sample_limits 0 1 b.
Proof.
  intros [->|[->|[->|[]%elem_of_nil]%elem_of_cons]%elem_of_cons]%elem_of_cons; constructor; try done; try apply six_crush_ok; try apply six_osds_wf.
  - intros _ i. unfold up_b, ex. simpl. destruct (Z.leb_spec 0 i), (Z.ltb_spec i 0); (lia || done).
  - apply six_any_placeable.
  - intros p pool ps H. destruct (six_any_placeable p pool ps H) as (shift & Hpl). exists shift. by apply placeable_osds.
Qed.

#[export] Instance sample_targets : Targets plain (map_in sample_bases sample_shape 6) write_ok :=
  write_targets plain sample_bases sample_shape 6 sample_rank sample_limits 0 1 sample_bases_good.

Definition sample_decode (bl : list Z) (_ : OSDMap) : res OSDMap := match bl with [5] => Ok six_map | _ => Ok later_map end.
Definition no_crush (_ : list Z) : res crush_wrapper := Fault NullDeref.
Definition sample_handle := handle sample_decode no_crush 0 plain.
Definition after (o : objecter) (ev : event) : objecter := match sample_handle ev o with Ok (_, o) => o | Fault _ => o end.
Definition is_ok {A} (r : res A) : bool := match r with Ok _ => true | Fault _ => false end.

Lemma after_runs o ev : is_ok (sample_handle ev o) = true → sample_handle ev o = Ok (tt, after o ev).
Proof. unfold after. by destruct (sample_handle ev o) as [[[] o']|]. Qed.

(** A write is submitted before there is a map; the first map comes; the connection
    is reset; the write is answered. *)
Definition the_write : Op := new_op foo (Locator 1 [] [] 5) 1 CEPH_OSD_FLAG_WRITE (Some 10) (Some 11).
Definition map_message (l : list (Z * list Z)) : MOSDMap := MkMOSDMap 0 [] l 1.
Definition first_message : MOSDMap := map_message [(5, [5])].
Definition later_message : MOSDMap := map_message [(6, [6])].
Definition the_answer (tid attempt : Z) : MOSDOpReply := MkReply 0 tid attempt 0 true None [].
Definition run : list event := [Submit 100 the_write; NewMap first_message; Reset blank_addr].
Definition after_run : objecter := after (after (after (start empty_map) (Submit 100 the_write)) (NewMap first_message)) (Reset blank_addr).

Lemma in_bases b : b ∈ sample_bases → map_in sample_bases sample_shape 6 b.
Proof. intros Hb. exists b. split; [done|]. apply crush_kept_refl. by apply (bg_crush _ _ _ _ _ _ _ _ (sample_bases_good b Hb)). Qed.

Lemma message_usable l : Forall (λ v, v = (5, [5]) ∨ v = (6, [6])) l → get_last (map_message l) < 4294967295 →
  usable (map_in sample_bases sample_shape 6) sample_decode no_crush (map_message l).
Proof.
  intros Hl Hlast. assert (∀ ep bl, map_find l ep = Some bl → ep = 5 ∧ bl = [5] ∨ ep = 6 ∧ bl = [6]) as Hf.
  { intros ep bl H%map_find_pair. destruct (proj1 (Forall_forall _ _) Hl _ H) as [[= -> ->]|[= -> ->]]; auto. }
  assert (∀ m, m = six_map ∨ m = later_map → map_in sample_bases sample_shape 6 m) as Hm.
  { intros m [->| ->]; apply in_bases; [right; left|right; right; left]. }
  constructor; try done.
  - intros ep cur new _. unfold map_of. simpl. destruct (map_find l ep) as [bl|] eqn:E; [|by destruct (_ =? _)].
    intros Hn. assert (Some (sample_decode bl cur) = Some new) as [= <-] by (by destruct (om_epoch cur =? _)).
    destruct (Hf ep bl E) as [[-> ->]|[-> ->]]; eexists; (split; [reflexivity|split; [auto|done]]).
  - intros bl cur _ H. destruct (Hf _ _ H) as [[_ ->]|[_ ->]]; eexists; (split; [reflexivity|auto]).
Qed.

Lemma the_write_fresh : fresh_op write_ok the_write.
Proof. split_and!; try done. constructor; [reflexivity|by split|by left|reflexivity|simpl; lia|by left]. Qed.

Lemma run_history : history plain (map_in sample_bases sample_shape 6) write_ok sample_decode no_crush 0 run after_run.
Proof.
  apply (history_event _ _ _ _ _ _ [Submit 100 the_write; NewMap first_message] (after (after (start empty_map) (Submit 100 the_write)) (NewMap first_message)));
    [|exact I|apply after_runs; vm_compute; reflexivity].
  apply (history_event _ _ _ _ _ _ [Submit 100 the_write] (after (start empty_map) (Submit 100 the_write)));
    [|apply message_usable; [by repeat constructor|done]|apply after_runs; vm_compute; reflexivity].
  apply (history_event _ _ _ _ _ _ [] (start empty_map)); [apply history_start, in_bases; left|split; [done|apply the_write_fresh]|apply after_runs; vm_compute; reflexivity].
Qed.

(** What the run has put out: the test for the pool, the write, and the write again. *)
Example run_output : omap (λ v, match v with Send _ m => Some (mo_tid m, mo_retry_attempt m, mo_pgid m) | _ => None end) (ob_out after_run) =
  [(1, 0, PgT 1 5 (-1)); (1, 1, PgT 1 5 (-1))] ∧ ob_inflight after_run = 1.
Proof. vm_compute. by split. Qed.

(** ** Instances *)

Abbreviation sample_history := (history plain (map_in sample_bases sample_shape 6) write_ok sample_decode no_crush 0).

Lemma start_history : sample_history [] (start empty_map).
Proof. apply history_start, in_bases. by left. Qed.

Definition homeless_state : objecter := after (start empty_map) (Submit 100 the_write).
Lemma homeless_history : sample_history [Submit 100 the_write] homeless_state.
Proof. apply (history_event _ _ _ _ _ _ [] (start empty_map)); [apply start_history|split; [done|apply the_write_fresh]|apply after_runs; vm_compute; reflexivity]. Qed.

Definition the_write_now : Op := default the_write (ob_heap after_run !! 100).
Lemma the_write_there : ob_heap after_run !! 100 = Some the_write_now.
Proof. vm_compute. reflexivity. Qed.


(** A write to a pool that does not exist, when a map is there. *)
Definition lost_write : Op := new_op foo (Locator 7 [] [] 5) 1 CEPH_OSD_FLAG_WRITE (Some 10) (Some 11).
Definition with_map_state : objecter := after (start empty_map) (NewMap first_message).
Definition poolless_state : objecter := after with_map_state (Submit 100 lost_write).

Lemma poolless_history : sample_history [NewMap first_message; Submit 100 lost_write] poolless_state.
Proof.
  apply (history_event _ _ _ _ _ _ [NewMap first_message] with_map_state); [|split; [vm_compute; reflexivity|]|apply after_runs; vm_compute; reflexivity].
  - apply (history_event _ _ _ _ _ _ [] (start empty_map)); [apply start_history|apply message_usable; [by repeat constructor|done]|apply after_runs; vm_compute; reflexivity].
  - split_and!; try done. constructor; [reflexivity|by split|by left|reflexivity|simpl; lia|by left].
Qed.

Lemma latest_exact_witness : map_find (ob_checks poolless_state) 1 = Some 100 ∧ ∃ x, ob_heap poolless_state !! 100 = Some x ∧ o_tid x = 1 ∧
  contexts x = [10; 11] ∧ wp (op_map_latest 1 3 0) poolless_state (λ _ o', ended 100 (completes x (- ENOENT) ++ drops x) poolless_state o').
Proof.
  assert (map_find (ob_checks poolless_state) 1 = Some 100) as Hc by (vm_compute; reflexivity).
  assert (contexts <$> (ob_heap poolless_state !! 100) = Some [10; 11]) as Hx by (vm_compute; reflexivity).
  assert ((0 <? 3) && (3 <=? om_epoch (ob_map poolless_state)) = true) as He by (vm_compute; reflexivity).
  destruct (latest_exact plain (map_in sample_bases sample_shape 6) write_ok sample_decode no_crush 0 _ poolless_state 1 3 0 poolless_history ltac:(lia)) as [_ H].
  destruct (H ltac:(done) ltac:(done) 100 Hc) as (x & Hp & Ht & Hw). rewrite He in Hw. rewrite Hp in Hx. injection Hx as Hx.
  split; [exact Hc|]. exists x. split_and!; done.
Defined.

Lemma cancel_exact_witness :
  (∀ p x, ob_heap after_run !! p = Some x → is_Some (o_session x) → o_tid x = 1 →
    wp (_op_cancel 1 (-5)) after_run (λ c o', c = 0 ∧ ended p (completes x (-5) ++ drops x) after_run o' ∧ bag o' ≡ₚ bag after_run)) ∧
  ((∀ p x, ob_heap after_run !! p = Some x → is_Some (o_session x) → o_tid x ≠ 1) → _op_cancel 1 (-5) after_run = Ok (0, after_run)).
Proof. apply cancel_exact. apply (iv_wf _ _ _ _ (proj1 (proj1 (history_good _ _ _ _ _ _ _ _ run_history)))). Defined.

Lemma reply_exact_witness :
  (∀ p x, accepted after_run (the_answer 1 1) p x → final (the_answer 1 1) → o_attempts x ≠ 0 →
    wp (handle_osd_op_reply plain (the_answer 1 1)) after_run (λ _ o', bag o' ≡ₚ bag after_run ∧
      if is_done (the_answer 1 1) x then ended p (answers (the_answer 1 1) x) after_run o'
      else wf o' ∧ moved 0 (answers (the_answer 1 1) x) after_run o' ∧ ob_heap o' = <[p := left_over (the_answer 1 1) x]> (ob_heap after_run))) ∧
  (0 <= 0 → (∀ p x, ¬ accepted after_run (the_answer 1 1) p x) → handle_osd_op_reply plain (the_answer 1 1) after_run = Ok (tt, after_run)).
Proof. apply (reply_exact plain after_run (the_answer 1 1)). apply (iv_wf _ _ _ _ (proj1 (proj1 (history_good _ _ _ _ _ _ _ _ run_history)))). Defined.

(** The answer is accepted, and is the last one. *)
Example answer_accepted : accepted after_run (the_answer 1 1) 100 the_write_now ∧ final (the_answer 1 1) ∧ is_done (the_answer 1 1) the_write_now = true ∧
  answers (the_answer 1 1) the_write_now = [Complete 10 0; Complete 11 0].
Proof. vm_compute. split; [|split; [|by split]]; split; try done. split; [done|]. split; [done|]. split; [done|]. by right. Qed.



Lemma operations_in_their_sessions_witness :
  (∀ p x, ob_heap after_run !! p = Some x → ∃ sid s, o_session x = Some sid ∧ session_at after_run sid = Some s ∧ map_find (s_ops s) (o_tid x) = Some p ∧
     (sid ≠ -1 → t_paused (o_target x) = true ∨ o_attempts x ≠ 0)) ∧
  (∀ sid s tid p, session_at after_run sid = Some s → map_find (s_ops s) tid = Some p → ∃ x, ob_heap after_run !! p = Some x ∧ o_session x = Some sid ∧ o_tid x = tid) ∧
  (∀ p q x y, ob_heap after_run !! p = Some x → ob_heap after_run !! q = Some y → o_tid x = o_tid y → p = q) ∧
  (∀ sid s, sid ≠ -1 → session_at after_run sid = Some s →
     up_b (om_osds (ob_map after_run)) sid = true ∧ ∃ a, get_addr (om_osds (ob_map after_run)) sid = Ok a ∧ s_con s = Some a) ∧
  ob_num_homeless after_run = Z.of_nat (length (s_ops (ob_homeless after_run))).
Proof. apply (operations_in_their_sessions plain (map_in sample_bases sample_shape 6) write_ok sample_decode no_crush 0 run after_run run_history). Defined.

Lemma contexts_completed_once_witness :
  omap over (ob_out after_run) ++ pending (ob_heap after_run) ++ asleep (ob_waiting after_run) ≡ₚ [10; 11] ∧
  (NoDup [10; 11] → NoDup (omap over (ob_out after_run)) ∧ ∀ c, c ∈ omap over (ob_out after_run) → c ∉ pending (ob_heap after_run)).
Proof. apply (contexts_completed_once plain (map_in sample_bases sample_shape 6) write_ok sample_decode no_crush 0 run after_run run_history). Defined.

Lemma inflight_bounds_witness : Z.of_nat (base.size (ob_heap after_run)) <= ob_inflight after_run <= Z.of_nat (base.size (ob_heap after_run)) + redirects run.
Proof. apply (inflight_bounds plain (map_in sample_bases sample_shape 6) write_ok sample_decode no_crush 0 run after_run run_history). Defined.

(** ** What goes wrong *)

Definition op_100 (o : objecter) : option (option Z * Z * Z) := (λ x, (o_session x, o_tid x, o_attempts x)) <$> ob_heap o !! 100.
Definition known_tids (o : objecter) : list (Z * list Z) := (λ s, (s.1, keys (s_ops s.2))) <$> ob_sessions o.

(** A reply that asks to try again takes the operation out of its session, and it
    is not entered under its new tid: the answer to the new attempt is a stray, and
    it cannot be cancelled. *)
Definition asked_again : objecter := after after_run (Reply (MkReply 0 1 1 (- EAGAIN) true None [])).
Theorem eagain_loses_operation :
  op_100 asked_again = Some (Some 0, 2, 3) ∧ known_tids asked_again = [(0, [])] ∧
  sample_handle (Reply (the_answer 2 2)) asked_again = Ok (tt, asked_again) ∧ sample_handle (Cancel 2 (-5)) asked_again = Ok (tt, asked_again).
Proof. split; [vm_compute; reflexivity|split; [vm_compute; reflexivity|split; vm_compute; reflexivity]]. Qed.

(** A redirection counts the operation as being in flight once more. *)
Definition redirected_once (pool : Z) : objecter := after after_run (Reply (MkReply 0 1 1 0 true (Some (Locator pool [] [] 5, [])) [])).
Theorem redirect_counts_twice : op_100 (redirected_once 1) = Some (Some 0, 2, 3) ∧ ob_inflight (redirected_once 1) = 2 ∧ base.size (ob_heap (redirected_once 1)) = 1%nat ∧
  ob_inflight (after (redirected_once 1) (Reply (the_answer 2 2))) = 1 ∧ ob_heap (after (redirected_once 1) (Reply (the_answer 2 2))) = ∅.
Proof. split_and!; vm_compute; reflexivity. Qed.

(** An operation that is redirected to a pool that does not exist is still being
    checked with the monitors when the next map ends it, and this is asserted not to be. *)
Theorem redirect_to_no_pool_asserts : keys (ob_checks (redirected_once 9)) = [2] ∧ sample_handle (NewMap later_message) (redirected_once 9) = Fault AssertFailed.
Proof. split; vm_compute; reflexivity. Qed.

(** The writes without an OSD are not cancelled. *)
Theorem cancel_writes_leaves_homeless : has_bits (t_flags (o_target the_write)) CEPH_OSD_FLAG_WRITE = true ∧
  sample_handle (CancelWrites (-5)) homeless_state = Ok (tt, homeless_state) ∧ op_100 homeless_state = Some (Some (-1), 1, 0).
Proof. split; [reflexivity|split; vm_compute; reflexivity]. Qed.

(** The counter of acknowledgements that are waited for is not taken back by a cancellation. *)
Theorem cancel_leaves_unacked : ob_heap (after after_run (Cancel 1 (-5))) = ∅ ∧ ob_unacked (after after_run (Cancel 1 (-5))) = 1 ∧ ob_uncommitted (after after_run (Cancel 1 (-5))) = 1.
Proof. split_and!; vm_compute; reflexivity. Qed.

(** When the monitors ask to try again, nobody does: the check stays in the table,
    and therefore the monitors are not asked again. *)
Theorem check_is_not_repeated : sample_handle (Latest 1 0 (- EAGAIN)) homeless_state = Ok (tt, homeless_state) ∧
  _send_op_map_check 100 homeless_state = Ok (tt, homeless_state).
Proof. split; vm_compute; reflexivity. Qed.
