(* ===== verification/Striper.v ===== *)
(** * Striping files over objects (src/osdc/Striper.cc, common/ceph_fs.cc)

    A file is cut into stripe units; consecutive units go to consecutive
    objects of an object set, [fl_stripe_count] wide, until the objects of the
    set are [fl_object_size] long.  This file holds the two directions of that
    map on byte ranges, the sizes of the objects, and the assembly of the
    pieces of a read. *)

From S2P Require Import Prelude StdMap OutBuf OsdMapping.

(** The fields the code reads. *)
Record ceph_file_layout := FileLayout {
  fl_stripe_unit : Z;
  fl_stripe_count : Z;
  fl_object_size : Z;
  fl_pg_pool : Z;
}.

Definition CEPH_MIN_STRIPE_UNIT : Z := 65536.

Definition ceph_file_layout_is_valid (layout : ceph_file_layout) : Z :=
  let su := fl_stripe_unit layout in
  let sc := fl_stripe_count layout in
  let os := fl_object_size layout in
  if (su =? 0) || negb (Z.land su (CEPH_MIN_STRIPE_UNIT - 1) =? 0) then 0
  else if (os =? 0) || negb (Z.land os (CEPH_MIN_STRIPE_UNIT - 1) =? 0) then 0
  else if (os <? su) || negb (os mod su =? 0) then 0
  else if sc =? 0 then 0
  else 1.

Record ObjectExtent := ObjExtent {
  e_oid : list Z;
  e_objectno : Z;
  e_offset : Z;
  e_length : Z;
  e_truncate_size : Z;
  e_oloc : object_locator_t;
  e_buffer_extents : list (Z * Z);
}.

(** [object_locator_t(layout.fl_pg_pool)] *)
Definition file_to_object_locator (layout : ceph_file_layout) : object_locator_t :=
  Locator (fl_pg_pool layout) [] [] (-1).

(** Division faults on a zero divisor. *)
Definition div_c (a b : Z) : res Z := if b =? 0 then Fault DivByZero else Ok (a / b).
Definition mod_c (a b : Z) : res Z := if b =? 0 then Fault DivByZero else Ok (a mod b).

(** ** Sizes of objects *)

Definition object_truncate_size (layout : ceph_file_layout) (objectno trunc_size : Z) : res Z :=
  if (trunc_size =? 0) || (trunc_size =? u64 (-1)) then Ok trunc_size else
  let object_size := fl_object_size layout in
  let su := fl_stripe_unit layout in
  let stripe_count := fl_stripe_count layout in
  _ ← assert_c (object_size >=? su);
  stripes_per_object ← div_c object_size su;
  objectsetno ← div_c objectno stripe_count;
  trunc_objectsetno ← div_c trunc_size object_size;
  trunc_objectsetno ← div_c trunc_objectsetno stripe_count;
  if objectsetno >? trunc_objectsetno then Ok 0
  else if objectsetno <? trunc_objectsetno then Ok object_size
  else
    trunc_blockno ← div_c trunc_size su;
    trunc_stripeno ← div_c trunc_blockno stripe_count;
    trunc_stripepos ← mod_c trunc_blockno stripe_count;
    let trunc_objectno := u64 (u64 (trunc_objectsetno * stripe_count) + trunc_stripepos) in
    row ← mod_c trunc_stripeno stripes_per_object;
    rest ← mod_c trunc_size su;
    Ok (if objectno <? trunc_objectno then u64 (u64 (row + 1) * su)
        else if objectno >? trunc_objectno then u64 (row * su)
        else u64 (u64 (row * su) + rest)).

(** The period and the sizes of rows are products of two [__u32]. *)
Definition get_num_objects (layout : ceph_file_layout) (size : Z) : res Z :=
  let object_size := fl_object_size layout in
  let stripe_unit := fl_stripe_unit layout in
  let stripe_count := fl_stripe_count layout in
  let period := u32 (stripe_count * object_size) in
  num_periods ← div_c (u64 (u64 (size + period) - 1)) period;
  remainder_bytes ← mod_c size period;
  remainder_objs ←
    (if (remainder_bytes >? 0) && (remainder_bytes <? u32 (stripe_count * stripe_unit)) then
       units ← div_c (u64 (u64 (remainder_bytes + stripe_unit) - 1)) stripe_unit;
       Ok (u64 (stripe_count - units))
     else Ok 0);
  Ok (u64 (u64 (num_periods * stripe_count) - remainder_objs)).

(** ** From files to objects *)

Section extents.
(** [object_format], printed with the number of an object. *)
Context (object_format : Z → list Z).
Context (layout : ceph_file_layout) (trunc_size : Z).

(** The object of a file position and the offset in it; and the length of the
    rest of its stripe unit. *)
Definition locate (cur : Z) : res (Z * Z * Z) :=
  let su := fl_stripe_unit layout in
  let stripe_count := fl_stripe_count layout in
  stripes_per_object ← div_c (fl_object_size layout) su;
  blockno ← div_c cur su;
  stripeno ← div_c blockno stripe_count;
  stripepos ← mod_c blockno stripe_count;
  objectsetno ← div_c stripeno stripes_per_object;
  let objectno := u64 (u64 (objectsetno * stripe_count) + stripepos) in
  row ← mod_c stripeno stripes_per_object;
  let block_start := u64 (row * su) in
  block_off ← mod_c cur su;
  let max := u64 (su - block_off) in
  Ok (objectno, u64 (block_start + block_off), max).

(** The piece is added to the last extent of its object if it continues it. *)
Definition add_piece (exv : list ObjectExtent) (objectno x_offset x_len buf : Z) : res (list ObjectExtent) :=
  let fresh :=
    ts ← object_truncate_size layout objectno trunc_size;
    Ok (exv ++ [ObjExtent (object_format objectno) objectno x_offset x_len ts
                  (file_to_object_locator layout) [(buf, x_len)]]) in
  match last exv with
  | Some e =>
      if u64 (e_offset e + e_length e) =? x_offset then
        Ok (removelast exv ++ [ObjExtent (e_oid e) (e_objectno e) (e_offset e) (u64 (e_length e + x_len))
              (e_truncate_size e) (e_oloc e) (e_buffer_extents e ++ [(buf, x_len)])])
      else fresh
  | None => fresh
  end.

(** [while (left > 0)] *)
Fixpoint extents_loop (fuel : nat) (offset buffer_offset cur left : Z) (object_extents : list (list Z * list ObjectExtent)) :
    res (list (list Z * list ObjectExtent)) :=
  match fuel with
  | O => Fault Diverge
  | S fuel =>
      if negb (left >? 0) then Ok object_extents else
      '(objectno, x_offset, max) ← locate cur;
      let x_len := if left >? max then max else left in
      let oid := object_format objectno in
      let exv := default [] (name_find object_extents oid) in
      exv ← add_piece exv objectno x_offset x_len (u64 (u64 (cur - offset) + buffer_offset));
      extents_loop fuel offset buffer_offset (u64 (cur + x_len)) (u64 (left - x_len)) (name_put object_extents oid exv)
  end.

(** The loop cuts off a whole stripe unit a turn, but for the ends. *)
Definition file_to_object_extents (offset len : Z) (object_extents : list (list Z * list ObjectExtent)) (buffer_offset : Z) :
    res (list (list Z * list ObjectExtent)) :=
  _ ← assert_c (len >? 0);
  _ ← assert_c (fl_object_size layout >=? fl_stripe_unit layout);
  _ ← div_c (fl_object_size layout) (fl_stripe_unit layout);
  extents_loop (Z.to_nat (len / fl_stripe_unit layout) + 3) offset buffer_offset offset len object_extents.

(** In the order of the names of the objects. *)
Definition assimilate_extents (object_extents : list (list Z * list ObjectExtent)) (extents : list ObjectExtent) :
    list ObjectExtent :=
  extents ++ mjoin object_extents.*2.

Definition file_to_extents (offset len : Z) (extents : list ObjectExtent) (buffer_offset : Z) : res (list ObjectExtent) :=
  object_extents ← file_to_object_extents offset len [] buffer_offset;
  Ok (assimilate_extents object_extents extents).
End extents.

(** ** From objects to files *)

Fixpoint to_file_loop (su stripe_count stripes_per_object objectno : Z) (fuel : nat) (off len off_in_block : Z)
    (extents : list (Z * Z)) : res (list (Z * Z)) :=
  match fuel with
  | O => Fault Diverge
  | S fuel =>
      if negb (len >? 0) then Ok extents else
      stripepos ← mod_c objectno stripe_count;
      objectsetno ← div_c objectno stripe_count;
      row ← div_c off su;
      let stripeno := u64 (row + u64 (objectsetno * stripes_per_object)) in
      let blockno := u64 (u64 (stripeno * stripe_count) + stripepos) in
      let extent_off := u64 (u64 (blockno * su) + off_in_block) in
      let extent_len := Z.min len (u64 (su - off_in_block)) in
      to_file_loop su stripe_count stripes_per_object objectno fuel
        (u64 (off + extent_len)) (u64 (len - extent_len)) 0 (extents ++ [(extent_off, extent_len)])
  end.

Definition extent_to_file (layout : ceph_file_layout) (objectno off len : Z) (extents : list (Z * Z)) : res (list (Z * Z)) :=
  let object_size := fl_object_size layout in
  let su := fl_stripe_unit layout in
  _ ← assert_c (object_size >=? su);
  stripes_per_object ← div_c object_size su;
  off_in_block ← mod_c off su;
  to_file_loop su (fl_stripe_count layout) stripes_per_object objectno (Z.to_nat (len / su) + 3) off len off_in_block extents.

(** ** Names of objects: ["%llx.%08llx"] *)

Fixpoint hex_digits (fuel : nat) (n : Z) (acc : list Z) : list Z :=
  match fuel with
  | O => acc
  | S fuel =>
      let acc := hex_lower (n mod 16) :: acc in
      if n / 16 =? 0 then acc else hex_digits fuel (n / 16) acc
  end.

(** A 64-bit number has at most 16 digits. *)
Definition print_llx (n : Z) : list Z := hex_digits 16 n [].
Definition print_08llx (n : Z) : list Z :=
  let s := print_llx n in replicate (8 - length s) 48 ++ s.

Definition ino_format (ino objectno : Z) : list Z := print_llx ino ++ 46 :: print_08llx objectno.

(** ** Assembling the pieces of a read *)

(** Offset in the buffer, the data there and its intended length. *)
Definition StripedReadResult : Type := list (Z * (list Z * Z)).

Definition part (partial : StripedReadResult) (o : Z) : list Z * Z := default ([], 0) (map_find partial o).

(** [bl.length()], an [unsigned]. *)
Definition bl_length (bl : list Z) : Z := u32 (Z.of_nat (length bl)).

Fixpoint add_partial_result (bl : list Z) (buffer_extents : list (Z * Z)) (partial : StripedReadResult) :
    StripedReadResult :=
  match buffer_extents with
  | [] => partial
  | (o, len) :: rest =>
      let actual := Z.to_nat (Z.min (bl_length bl) len) in
      add_partial_result (drop actual bl) rest
        (map_put partial o ((part partial o).1 ++ take actual bl, len))
  end.

(** [while (tlen > 0)], with the rest of the data, of the extents that it
    covers and of the position in them. *)
Fixpoint sparse_loop (fuel : nat) (s : list (Z * Z)) (bl : list Z) (bl_off tofs tlen : Z) (partial : StripedReadResult) :
    res (list (Z * Z) * list Z * Z * StripedReadResult) :=
  match fuel with
  | O => Fault Diverge
  | S fuel =>
      if negb (tlen >? 0) then Ok (s, bl, bl_off, partial) else
      match s with
      | [] => Ok (s, bl, bl_off, map_put partial tofs ((part partial tofs).1, tlen))
      | (f, l) :: s' =>
          if l =? 0 then sparse_loop fuel s' bl bl_off tofs tlen partial else
          let gap := if f >? bl_off then Z.min (u64 (f - bl_off)) tlen else 0 in
          let partial := if f >? bl_off then map_put partial tofs ((part partial tofs).1, gap) else partial in
          let bl_off := u64 (bl_off + gap) in
          let tofs := u64 (tofs + gap) in
          let tlen := u64 (tlen - gap) in
          if tlen =? 0 then sparse_loop fuel s bl bl_off tofs tlen partial else
          _ ← assert_c (f <=? bl_off);
          let left := u64 (u64 (f + l) - bl_off) in
          let actual := Z.min left tlen in
          let s := if actual =? left then s' else s in
          if actual >? 0 then
            let n := u32 actual in     (* the arguments of [splice] are [unsigned] *)
            if (n =? 0) || negb (bl_length bl =? 0) && (n <=? Z.of_nat (length bl)) then
              sparse_loop fuel s (drop (Z.to_nat n) bl) (u64 (bl_off + actual)) (u64 (tofs + actual)) (u64 (tlen - actual))
                (map_put partial tofs ((part partial tofs).1 ++ take (Z.to_nat n) bl, actual))
            else Fault OutOfBounds
          else sparse_loop fuel s bl bl_off tofs tlen partial
      end
  end.

Fixpoint sparse_extents (s : list (Z * Z)) (bl : list Z) (bl_off : Z) (buffer_extents : list (Z * Z)) (partial : StripedReadResult) :
    res StripedReadResult :=
  match buffer_extents with
  | [] => Ok partial
  | (tofs, tlen) :: rest =>
      '(s, bl, bl_off, partial) ← sparse_loop (2 * length s + 3) s bl bl_off tofs tlen partial;
      sparse_extents s bl bl_off rest partial
  end.

Definition add_partial_sparse_result (bl : list Z) (bl_map : list (Z * Z)) (bl_off : Z) (buffer_extents : list (Z * Z))
    (partial : StripedReadResult) : res StripedReadResult :=
  sparse_extents bl_map bl bl_off buffer_extents partial.

(** Backwards from the last piece: [end_] is where the pieces added so far
    begin. *)
Fixpoint assemble_loop (zero_tail : bool) (rev_partial : list (Z * (list Z * Z))) (end_ : Z) (bl : list Z) : res (list Z) :=
  match rev_partial with
  | [] => Ok bl
  | (o, (data, len)) :: rest =>
      _ ← assert_c (o =? u64 (end_ - len));
      let short := bl_length data <? len in
      let zeros := replicate (Z.to_nat (u32 (len - bl_length data))) 0 in
      assemble_loop zero_tail rest o
        (if short && (zero_tail || negb (bl_length bl =? 0)) then data ++ zeros ++ bl else data ++ bl)
  end.

Definition assemble_result (partial : StripedReadResult) (bl : list Z) (zero_tail : bool) : res (list Z) :=
  match reverse partial with
  | [] => Ok bl
  | (o, (data, len)) :: rest => assemble_loop zero_tail ((o, (data, len)) :: rest) (u64 (o + len)) bl
  end.

(** [Objecter::_sg_read_finish]: the results of the extents of a read, in
    their order. *)
Fixpoint add_results (extents : list ObjectExtent) (resultbl : list (list Z)) (r : StripedReadResult) : res StripedReadResult :=
  match extents with
  | [] => Ok r
  | e :: extents =>
      match resultbl with
      | bl :: resultbl => add_results extents resultbl (add_partial_result bl (e_buffer_extents e) r)
      | [] => Fault OutOfBounds
      end
  end.

Definition _sg_read_finish (extents : list ObjectExtent) (resultbl : list (list Z)) : res (list Z) :=
  if (1 <? length extents)%nat then
    r ← add_results extents resultbl []; assemble_result r [] false
  else match resultbl with bl :: _ => Ok bl | [] => Fault OutOfBounds end.
