(* ===== verification/StriperSpec.v ===== *)
(** * The striping map, and that the loops follow it

    [place] and [unplace] are the map between the positions of a file and the
    positions of its objects, on unbounded integers.  The lemmas show that
    [file_to_extents], [extent_to_file], [object_truncate_size] and
    [get_num_objects] compute with this map. *)

From stdpp Require Import sorting.
From S2P Require Import Prelude StdMap OsdMapping Striper OutBuf.

Definition per_object (l : ceph_file_layout) : Z := fl_object_size l / fl_stripe_unit l.

(** The object and the offset in it of a position of the file. *)
Definition place (l : ceph_file_layout) (pos : Z) : Z * Z :=
  let unit := pos / fl_stripe_unit l in
  let stripe := unit / fl_stripe_count l in
  (stripe / per_object l * fl_stripe_count l + unit mod fl_stripe_count l,
   stripe mod per_object l * fl_stripe_unit l + pos mod fl_stripe_unit l).

Definition unplace (l : ceph_file_layout) (o off : Z) : Z :=
  (((o / fl_stripe_count l * per_object l + off / fl_stripe_unit l) * fl_stripe_count l + o mod fl_stripe_count l)
    * fl_stripe_unit l) + off mod fl_stripe_unit l.

(** What [ceph_file_layout_is_valid] and the types of the fields ensure. *)
Record layout_ok (l : ceph_file_layout) : Prop := {
  lo_unit : 0 < fl_stripe_unit l < 4294967296;
  lo_count : 0 < fl_stripe_count l < 4294967296;
  lo_size : 0 < fl_object_size l < 4294967296;
  lo_mult : fl_object_size l = per_object l * fl_stripe_unit l;
}.

Lemma valid_layout_ok l :
  is_u32 (fl_stripe_unit l) → is_u32 (fl_stripe_count l) → is_u32 (fl_object_size l) →
  ceph_file_layout_is_valid l = 1 → layout_ok l.
Proof.
  unfold is_u32, ceph_file_layout_is_valid. intros Hu Hc Hs.
  destruct (Z.eqb_spec (fl_stripe_unit l) 0); [done|]. destruct (_ =? 0); simpl; [|done].
  destruct (Z.eqb_spec (fl_object_size l) 0); [done|]. destruct (_ =? 0); simpl; [|done].
  destruct (Z.ltb_spec (fl_object_size l) (fl_stripe_unit l)); simpl; [done|].
  destruct (Z.eqb_spec (fl_object_size l mod fl_stripe_unit l) 0) as [E|]; simpl; [|done].
  destruct (Z.eqb_spec (fl_stripe_count l) 0); [done|]. intros _.
  constructor; try lia. unfold per_object.
  pose proof (Z.div_mod (fl_object_size l) (fl_stripe_unit l)). lia.
Qed.

(** Quotient and remainder of a number that is written with them. *)
Lemma div_mod_eq q b r : 0 <= r < b → (q * b + r) / b = q ∧ (q * b + r) mod b = r.
Proof.
  intros Hr. rewrite (Z.add_comm (q * b)), Z.div_add, Z_mod_plus_full by lia.
  by rewrite Z.div_small, Z.mod_small by lia.
Qed.

Lemma split_mod a b : 0 < b → ∃ q r, a = q * b + r ∧ 0 <= r < b ∧ a / b = q ∧ a mod b = r.
Proof.
  intros Hb. exists (a / b), (a mod b). pose proof (Z.mod_pos_bound a b Hb). pose proof (Z.div_mod a b).
  repeat split; lia.
Qed.

Ltac split_by a b q r :=
  let Ea := fresh "E" a in let Er := fresh "H" r in let Eq := fresh "E" q in let Em := fresh "E" r in
  destruct (split_mod a b ltac:(lia)) as (q & r & Ea & Er & Eq & Em).

Lemma div_c_ok a b : 0 < b → div_c a b = Ok (a / b).
Proof. intros Hb. unfold div_c. by rewrite (proj2 (Z.eqb_neq b 0)) by lia. Qed.
Lemma mod_c_ok a b : 0 < b → mod_c a b = Ok (a mod b).
Proof. intros Hb. unfold mod_c. by rewrite (proj2 (Z.eqb_neq b 0)) by lia. Qed.

(** Runs the divisions whose divisors are known to be positive. *)
Ltac divide := repeat (rewrite ?div_c_ok, ?mod_c_ok by lia; cbn [mbind res_bind]).

Section layout.
Context (l : ceph_file_layout) (Hl : layout_ok l).
Local Abbreviation su := (fl_stripe_unit l).
Local Abbreviation sc := (fl_stripe_count l).
Local Abbreviation os := (fl_object_size l).
Local Abbreviation spo := (per_object l).

Lemma per_object_pos : 0 < spo.
Proof. destruct Hl. nia. Qed.

Lemma unit_le_size : su <= os.
Proof. pose proof per_object_pos as Hp. destruct Hl as [Hu _ _ ->]. revert Hp Hu. generalize spo su. nia. Qed.

Lemma place_unplace o off : 0 <= off < os → place l (unplace l o off) = (o, off).
Proof.
  pose proof per_object_pos. destruct Hl as [Hu Hc Hs Hm]. intros Ho. unfold place, unplace.
  pose proof (Z.mod_pos_bound off su ltac:(lia)). pose proof (Z.mod_pos_bound o sc ltac:(lia)).
  assert (0 <= off / su < spo). { split; [apply Z.div_pos; lia|apply Z.div_lt_upper_bound; lia]. }
  destruct (div_mod_eq ((o / sc * spo + off / su) * sc + o mod sc) su (off mod su)) as [-> ->]; [done|].
  destruct (div_mod_eq (o / sc * spo + off / su) sc (o mod sc)) as [-> ->]; [done|].
  destruct (div_mod_eq (o / sc) spo (off / su)) as [-> ->]; [done|].
  f_equal; symmetry; rewrite Z.mul_comm; apply Z.div_mod; lia.
Qed.

Lemma unplace_place pos : unplace l (place l pos).1 (place l pos).2 = pos.
Proof.
  pose proof per_object_pos. destruct Hl as [Hu Hc Hs Hm]. unfold place, unplace. cbn [fst snd].
  pose proof (Z.mod_pos_bound pos su ltac:(lia)). pose proof (Z.mod_pos_bound (pos / su) sc ltac:(lia)).
  destruct (div_mod_eq (pos / su / sc / spo) sc (pos / su mod sc)) as [-> ->]; [done|].
  destruct (div_mod_eq (pos / su / sc mod spo) su (pos mod su)) as [-> ->]; [done|].
  pose proof (Z.div_mod pos su ltac:(lia)). pose proof (Z.div_mod (pos / su) sc ltac:(lia)).
  pose proof (Z.div_mod (pos / su / sc) spo ltac:(lia)). nia.
Qed.

Lemma place_range pos : 0 <= pos → 0 <= (place l pos).1 <= pos / su ∧ 0 <= (place l pos).2 < os.
Proof.
  pose proof per_object_pos. destruct Hl as [Hu Hc Hs Hm]. intros Hp. unfold place. cbn [fst snd].
  pose proof (Z.mod_pos_bound pos su ltac:(lia)). pose proof (Z.mod_pos_bound (pos / su) sc ltac:(lia)).
  pose proof (Z.mod_pos_bound (pos / su / sc) spo ltac:(lia)).
  assert (0 <= pos / su) by (apply Z.div_pos; lia). assert (0 <= pos / su / sc) by (apply Z.div_pos; lia).
  assert (0 <= pos / su / sc / spo <= pos / su / sc).
  { split; [apply Z.div_pos; lia|]. apply Z.div_le_upper_bound; nia. }
  pose proof (Z.div_mod (pos / su) sc ltac:(lia)). split; nia.
Qed.

(** A stripe unit lies in one object. *)
Lemma place_add pos i : 0 <= i → pos mod su + i < su → place l (pos + i) = ((place l pos).1, (place l pos).2 + i).
Proof.
  destruct Hl as [Hu Hc Hs Hm]. intros Hi Hb. unfold place. cbn [fst snd].
  pose proof (Z.mod_pos_bound pos su ltac:(lia)).
  assert (pos + i = pos / su * su + (pos mod su + i)) as ->. { pose proof (Z.div_mod pos su ltac:(lia)). lia. }
  destruct (div_mod_eq (pos / su) su (pos mod su + i)) as [-> ->]; [lia|]. f_equal. lia.
Qed.

(** Within an object the map keeps the order. *)
Lemma unplace_mono o a b : 0 <= a → a < b → unplace l o a < unplace l o b.
Proof.
  destruct Hl as [Hu Hc Hs Hm]. intros Ha Hab. unfold unplace.
  pose proof (Z.mod_pos_bound a su ltac:(lia)). pose proof (Z.mod_pos_bound b su ltac:(lia)).
  pose proof (Z.div_mod a su ltac:(lia)) as Ea. pose proof (Z.div_mod b su ltac:(lia)).
  assert (a / su <= b / su) by (apply Z.div_le_mono; lia).
  destruct (Z.eq_dec (a / su) (b / su)) as [E|E]; [rewrite E in Ea |- *; apply Z.add_lt_mono_l; lia|].
  assert ((o / sc * spo + a / su) * sc + o mod sc + 1 <= (o / sc * spo + b / su) * sc + o mod sc) as Hlt by nia.
  revert Hlt. generalize ((o / sc * spo + a / su) * sc + o mod sc) ((o / sc * spo + b / su) * sc + o mod sc). nia.
Qed.

Lemma unplace_nonneg o off : 0 <= o → 0 <= off → 0 <= unplace l o off.
Proof.
  pose proof per_object_pos. destruct Hl as [Hu Hc Hs Hm]. intros Ho Hoff. unfold unplace.
  pose proof (Z.mod_pos_bound off su ltac:(lia)). pose proof (Z.mod_pos_bound o sc ltac:(lia)).
  assert (0 <= off / su) by (apply Z.div_pos; lia). assert (0 <= o / sc) by (apply Z.div_pos; lia). nia.
Qed.

(** The objects of a set, stripe by stripe. *)
Lemma unplace_unit o off : unplace l o off = unplace l o (off / su * su) + off mod su.
Proof.
  destruct Hl as [Hu Hc Hs Hm]. unfold unplace.
  destruct (div_mod_eq (off / su) su 0 ltac:(lia)) as [E1 E2]. rewrite Z.add_0_r in E1, E2. rewrite E1, E2. lia.
Qed.

(** ** One step of the loops *)

Lemma locate_ok cur : 0 <= cur < 18446744073709551616 →
  locate l cur = Ok ((place l cur).1, (place l cur).2, su - cur mod su).
Proof.
  pose proof per_object_pos. destruct Hl as [Hu Hc Hs Hm]. intros Hcur.
  pose proof (place_range cur ltac:(lia)) as [H1 H2].
  pose proof (Z.mod_pos_bound cur su ltac:(lia)). pose proof (Z.mod_pos_bound (cur / su) sc ltac:(lia)).
  assert (cur / su <= cur) by (apply Z.div_le_upper_bound; nia).
  pose proof (Z.mod_pos_bound (cur / su / sc) spo ltac:(lia)).
  unfold locate, place in *. cbn [fst snd] in *. fold (per_object l).
  rewrite !div_c_ok, !mod_c_ok by lia. cbn [mbind res_bind]. fold (per_object l).
  rewrite div_c_ok, mod_c_ok by lia. cbn [mbind res_bind]. rewrite !mod_c_ok by lia. cbn [mbind res_bind].
  rewrite !div_c_ok by lia. cbn [mbind res_bind].
  assert (0 <= cur / su / sc / spo * sc) by (apply Z.mul_nonneg_nonneg; [repeat apply Z.div_pos; lia|lia]).
  assert (0 <= (cur / su / sc) mod spo * su) by (apply Z.mul_nonneg_nonneg; lia).
  rewrite !(u64_small (_ * _)), !(u64_small (_ + _)), (u64_small (su - _)) by lia. done.
Qed.

Lemma truncate_total o ts : ∃ r, object_truncate_size l o ts = Ok r.
Proof.
  pose proof per_object_pos. destruct Hl as [Hu Hc Hs Hm]. unfold object_truncate_size.
  destruct ((ts =? 0) || _); [by eexists|]. rewrite (proj2 (Z.geb_le os su)) by exact unit_le_size. cbn [assert_c mbind res_bind].
  divide. fold (per_object l). divide. destruct (_ >? _); [by eexists|]. destruct (_ <? _); by eexists.
Qed.
End layout.

(** ** The loop of [file_to_extents] *)

(** Pieces that follow each other from [a] to [z]. *)
Fixpoint tiles (a : Z) (pieces : list (Z * Z)) (z : Z) : Prop :=
  match pieces with
  | [] => a = z
  | (b, n) :: rest => b = a ∧ 0 < n ∧ tiles (a + n) rest z
  end.

Definition bytes_of (pieces : list (Z * Z)) : list Z := pieces ≫= λ x, seqZ x.1 x.2.

Lemma tiles_snoc a pieces z n : tiles a pieces z → 0 < n → tiles a (pieces ++ [(z, n)]) (z + n).
Proof. revert a. induction pieces as [|[b k] r IH]; intros a; simpl; [by intros ->|]. intros (-> & ? & ?) ?. auto. Qed.

Lemma bytes_of_app p q : bytes_of (p ++ q) = bytes_of p ++ bytes_of q.
Proof. apply bind_app. Qed.

Section loop.
Context (fmt : Z → list Z) (l : ceph_file_layout) (ts : Z) (Hl : layout_ok l).
Context (Hfmt : ∀ a b, 0 <= a < 18446744073709551616 → 0 <= b < 18446744073709551616 → fmt a = fmt b → a = b).
Context (offset boff : Z).
Local Abbreviation su := (fl_stripe_unit l).
Local Abbreviation os := (fl_object_size l).

(** An extent is a range of one object, and its pieces of the buffer hold the
    file bytes that are placed there, in order. *)
Record extent_ok (e : ObjectExtent) : Prop := {
  eo_oid : e_oid e = fmt (e_objectno e);
  eo_oloc : e_oloc e = file_to_object_locator l;
  eo_trunc : object_truncate_size l (e_objectno e) ts = Ok (e_truncate_size e);
  eo_objectno : 0 <= e_objectno e < 18446744073709551616;
  eo_range : 0 <= e_offset e ∧ 0 < e_length e ∧ e_offset e + e_length e <= os;
  eo_bytes : (λ b, place l (offset + (b - boff))) <$> bytes_of (e_buffer_extents e) =
             pair (e_objectno e) <$> seqZ (e_offset e) (e_length e);
  eo_pieces : Forall (λ x : Z * Z, 0 < x.2 <= su) (e_buffer_extents e);
}.

(** What of the object lies in the file range is in the extent. *)
Definition complete (cur : Z) (e : ObjectExtent) : Prop :=
  ∀ off, 0 <= off < os →
    e_offset e <= off < e_offset e + e_length e ↔ offset <= unplace l (e_objectno e) off < cur.

Record striped (cur : Z) (m : list (list Z * list ObjectExtent)) : Prop := {
  st_sorted : name_sorted m;
  st_entries : ∀ k exv, (k, exv) ∈ m → ∃ e, exv = [e] ∧ k = e_oid e ∧ extent_ok e ∧ complete cur e;
  st_covered : ∀ p, offset <= p < cur → fmt (place l p).1 ∈ m.*1;
  st_pieces : ∃ pieces, tiles boff pieces (boff + (cur - offset)) ∧ mjoin m.*2 ≫= e_buffer_extents ≡ₚ pieces;
}.

Lemma striped_start : striped offset [].
Proof.
  constructor; [constructor|by intros k exv ?%elem_of_nil|lia|]. exists []. split; [simpl; lia|done].
Qed.

Lemma name_find_elem {A} (m : list (list Z * A)) k v : name_find m k = Some v → (k, v) ∈ m.
Proof.
  induction m as [|[s w] m IH]; simpl; [done|].
  destruct (decide (s = k)) as [->|]; [intros [= ->]; left|right; auto].
Qed.

(** The block from [cur] on, as the code sees it. *)
Definition block (cur n : Z) : Prop := offset <= cur ∧ 0 <= cur < 18446744073709551616 ∧ 0 < n ∧ cur mod su + n <= su.

Lemma block_in cur n : block cur n → ∀ i, 0 <= i < n → place l (cur + i) = ((place l cur).1, (place l cur).2 + i).
Proof. intros (_ & _ & _ & Hb) i Hi. apply place_add; [done|lia|lia]. Qed.

Lemma block_end cur n : block cur n → 0 <= (place l cur).2 ∧ (place l cur).2 + n <= os.
Proof.
  intros Hb. pose proof Hb as (_ & Hc & Hn & Hm). pose proof (place_range l Hl cur ltac:(lia)) as [_ H1].
  pose proof (block_in cur n Hb (n - 1) ltac:(lia)) as E. destruct Hl as [Hu _ _ _].
  pose proof (Z.mod_pos_bound cur su ltac:(lia)).
  pose proof (place_range l Hl (cur + (n - 1)) ltac:(lia)) as [_ H2]. rewrite E in H2. cbn [fst snd] in H2. lia.
Qed.

(** The positions of an object that the block adds. *)
Lemma block_complete cur n o off : block cur n → 0 <= off < os →
  cur <= unplace l o off < cur + n ↔ o = (place l cur).1 ∧ (place l cur).2 <= off < (place l cur).2 + n.
Proof.
  intros Hb Ho. pose proof (place_unplace l Hl o off Ho) as E. split.
  - intros Hu. pose proof (block_in cur n Hb (unplace l o off - cur) ltac:(lia)) as E'.
    replace (cur + (unplace l o off - cur)) with (unplace l o off) in E' by lia. rewrite E in E'. apply (f_equal snd) in E' as E2. apply (f_equal fst) in E'. cbn [fst snd] in E', E2. split; [done|lia].
  - intros [-> Hx]. pose proof (block_in cur n Hb (off - (place l cur).2) ltac:(lia)) as E'.
    pose proof (unplace_place l Hl (cur + (off - (place l cur).2))) as E2. rewrite E' in E2. cbn [fst snd] in E2.
    replace ((place l cur).2 + (off - (place l cur).2)) with off in E2 by lia. lia.
Qed.

(** An extent of the object of [cur] ends where the block begins. *)
Lemma extent_continues cur n e : block cur n → extent_ok e → complete cur e → e_objectno e = (place l cur).1 →
  e_offset e + e_length e = (place l cur).2.
Proof.
  intros Hb [_ _ _ _ (H0 & H1 & H2) _ _] Hc Eo. pose proof (block_end cur n Hb) as [Hx Hy].
  pose proof Hb as (Hge & _ & Hn & _). pose proof (unplace_place l Hl cur) as Eu. rewrite <- Eo in Eu.
  pose proof (proj1 (Hc (e_offset e + e_length e - 1) ltac:(lia)) ltac:(lia)) as Hlast.
  destruct (Z.lt_trichotomy (e_offset e + e_length e) (place l cur).2) as [Hlt|[He|Hgt]]; [|done|].
  - pose proof (unplace_mono l Hl (e_objectno e) (e_offset e + e_length e - 1) (e_offset e + e_length e) ltac:(lia) ltac:(lia)).
    pose proof (unplace_mono l Hl (e_objectno e) (e_offset e + e_length e) (place l cur).2 ltac:(lia) ltac:(lia)).
    pose proof (proj2 (Hc (e_offset e + e_length e) ltac:(lia)) ltac:(lia)). lia.
  - pose proof (Hc (place l cur).2 ltac:(lia)) as Hin. rewrite Eu in Hin.
    destruct (Z.le_gt_cases (e_offset e) (place l cur).2) as [Hle|Hgt']; [lia|].
    pose proof (unplace_mono l Hl (e_objectno e) (place l cur).2 (e_offset e) ltac:(lia) ltac:(lia)).
    pose proof (proj1 (Hc (e_offset e) ltac:(lia)) ltac:(lia)). lia.
Qed.

Ltac fields := cbn [e_oid e_objectno e_offset e_length e_truncate_size e_oloc e_buffer_extents].

(** The block as a piece of the buffer. *)
Lemma block_bytes cur n : block cur n →
  (λ b, place l (offset + (b - boff))) <$> bytes_of [(cur - offset + boff, n)] = pair (place l cur).1 <$> seqZ (place l cur).2 n.
Proof.
  intros Hb. unfold bytes_of. simpl. rewrite app_nil_r. apply list_eq. intros i. rewrite !list_lookup_fmap.
  destruct (decide (Z.of_nat i < n)) as [Hi|Hi].
  - rewrite !lookup_seqZ_lt by lia. simpl. f_equal.
    replace (offset + _) with (cur + Z.of_nat i) by lia. apply block_in with n; [done|lia].
  - by rewrite !lookup_seqZ_ge by lia.
Qed.

Lemma block_piece cur n (b : Z) : block cur n → Forall (λ x : Z * Z, 0 < x.2 <= su) [(b, n)].
Proof.
  intros (_ & _ & Hn & Hm). constructor; [|done]. simpl. destruct Hl as [Hu _ _ _]. pose proof (Z.mod_pos_bound cur su). lia.
Qed.

Lemma complete_other cur n e : block cur n → extent_ok e → complete cur e → e_objectno e ≠ (place l cur).1 → complete (cur + n) e.
Proof.
  intros Hb He Hc Hn off Ho. rewrite (Hc off Ho). pose proof (block_complete cur n (e_objectno e) off Hb Ho) as H.
  destruct Hb as (Hge & _ & Hp & _). split; [lia|]. intros [H1 H2]. split; [done|].
  destruct (Z.lt_ge_cases (unplace l (e_objectno e) off) cur) as [|Hx]; [done|].
  by destruct (proj1 H (conj Hx H2)) as [? _].
Qed.

Lemma complete_grow cur n e e' : block cur n → complete cur e → e_objectno e = (place l cur).1 →
  0 <= e_length e → e_offset e + e_length e = (place l cur).2 →
  e_objectno e' = e_objectno e → e_offset e' = e_offset e → e_length e' = e_length e + n →
  complete (cur + n) e'.
Proof.
  intros Hb Hc Eo Hlen Hend E1 E2 E3 off Ho. rewrite E1, E2, E3.
  pose proof (block_complete cur n (e_objectno e) off Hb Ho) as H. specialize (Hc off Ho).
  destruct Hb as (Hge & _ & Hp & _). rewrite <- Hend in H. split.
  - intros Hx. destruct (Z.lt_ge_cases off (e_offset e + e_length e)) as [Hlt|Hge'].
    + pose proof (proj1 Hc ltac:(lia)). lia.
    + assert (e_offset e + e_length e <= off < e_offset e + e_length e + n) as Hin by lia.
      pose proof (proj2 H (conj Eo Hin)). lia.
  - intros Hx. destruct (Z.lt_ge_cases (unplace l (e_objectno e) off) cur) as [Hlt|Hge'].
    + pose proof (proj2 Hc ltac:(lia)). lia.
    + pose proof (proj1 H ltac:(lia)) as [_ ?]. lia.
Qed.

Lemma striped_put cur n m m' E before : striped cur m → block cur n →
  e_objectno E = (place l cur).1 → extent_ok E → complete (cur + n) E →
  e_buffer_extents E = before ++ [(cur - offset + boff, n)] →
  name_put m (fmt (place l cur).1) [E] ≡ₚ (fmt (place l cur).1, [E]) :: m' →
  fmt (place l cur).1 ∉ m'.*1 → (∀ x, x ∈ m' → x ∈ m) →
  mjoin m.*2 ≫= e_buffer_extents ≡ₚ before ++ (mjoin m'.*2 ≫= e_buffer_extents) →
  striped (cur + n) (name_put m (fmt (place l cur).1) [E]).
Proof.
  intros [S1 S2 S3 (pieces & S4 & S5)] Hb Eo HE HcE Ebe Hp Hk Hm Hpc. pose proof Hb as (Hge & _ & Hn & _).
  constructor.
  - by apply name_put_sorted.
  - intros k exv. rewrite Hp, elem_of_cons. intros [[= -> ->]|Hin].
    { exists E. split_and!; [done| |done..]. by rewrite (eo_oid _ HE), Eo. }
    destruct (S2 k exv (Hm _ Hin)) as (e & -> & -> & He & Hc). exists e. split_and!; [done..|].
    apply complete_other; [done..|]. intros E'. apply Hk. rewrite <- E', <- (eo_oid _ He).
    apply list_elem_of_fmap. by exists (e_oid e, [e]).
  - intros p Hp'. apply name_put_keys. destruct (Z.lt_ge_cases p cur); [right; apply S3; lia|left].
    replace p with (cur + (p - cur)) by lia. by rewrite (block_in cur n Hb) by lia.
  - exists (pieces ++ [(cur - offset + boff, n)]). split.
    + replace (boff + (cur + n - offset)) with ((boff + (cur - offset)) + n) by lia.
      replace (cur - offset + boff) with (boff + (cur - offset)) by lia. by apply tiles_snoc.
    + rewrite Hp. simpl. rewrite Ebe, <- app_assoc, <- S5, Hpc, <- !app_assoc.
      apply Permutation_app_head, Permutation_app_comm.
Qed.

Lemma name_sorted_NoDup {A} (m : list (list Z * A)) : name_sorted m → NoDup m.*1.
Proof.
  unfold name_sorted. induction m.*1 as [|k ks IH]; intros Hs; [constructor|].
  apply StronglySorted_inv in Hs as [Hs Hk]. constructor; [|by apply IH]. intros Hin.
  exact (name_lt_irrefl k (proj1 (Forall_forall _ _) Hk k Hin)).
Qed.

Lemma place_objectno cur : 0 <= cur < 18446744073709551616 → 0 <= (place l cur).1 < 18446744073709551616.
Proof.
  intros Hc. pose proof (place_range l Hl cur ltac:(lia)) as [H _]. destruct Hl as [Hu _ _ _].
  assert (cur / su <= cur) by (apply Z.div_le_upper_bound; nia). lia.
Qed.

Lemma striped_step cur n m : striped cur m → block cur n →
  ∃ exv, add_piece fmt l ts (default [] (name_find m (fmt (place l cur).1))) (place l cur).1 (place l cur).2 n (cur - offset + boff) = Ok exv ∧
         striped (cur + n) (name_put m (fmt (place l cur).1) exv).
Proof.
  intros Hs Hb. pose proof Hb as (Hge & Hcur & Hn & _). pose proof (block_end cur n Hb) as [Hx Hy].
  pose proof (place_objectno cur Hcur) as Ho. pose proof (lo_size l Hl) as Hsz.
  destruct (name_find m (fmt (place l cur).1)) as [exv|] eqn:Hf; cbn [from_option id].
  - destruct (st_entries _ _ Hs _ _ (name_find_elem _ _ _ Hf)) as (e & -> & Ek & He & Hc).
    pose proof He as [Ei El Et Eno (R1 & R2 & R3) Eb Ep].
    assert (e_objectno e = (place l cur).1) as Eo. { apply Hfmt; [done..|]. congruence. }
    pose proof (extent_continues cur n e Hb He Hc Eo) as Hend. unfold add_piece. cbn [last removelast app].
    rewrite (u64_small (e_offset e + e_length e)), (proj2 (Z.eqb_eq _ _) Hend) by lia. eexists. split; [done|].
    destruct (name_put_old m (fmt (place l cur).1) [ObjExtent (e_oid e) (e_objectno e) (e_offset e) (u64 (e_length e + n))
      (e_truncate_size e) (e_oloc e) (e_buffer_extents e ++ [(cur - offset + boff, n)])] [e] (st_sorted _ _ Hs) Hf) as (m' & Em & Em').
    apply (striped_put cur n m m' _ (e_buffer_extents e)); try done.
    + constructor; fields; rewrite ?(u64_small (e_length e + n)) by lia; try done; [lia| |].
      2: { apply Forall_app. split; [done|]. by apply (block_piece cur). }
      rewrite bytes_of_app, fmap_app, Eb, Eo, (block_bytes cur n Hb), <- Hend, <- fmap_app, seqZ_app by lia. done.
    + apply (complete_grow cur n e); fields; rewrite ?(u64_small (e_length e + n)) by lia; done || lia.
    + pose proof (name_sorted_NoDup m (st_sorted _ _ Hs)) as Hnd. rewrite Em in Hnd. by apply NoDup_cons in Hnd as [? _].
    + intros x Hin. rewrite Em. by right.
    + by rewrite Em.
  - destruct (truncate_total l Hl (place l cur).1 ts) as (r & Er). unfold add_piece. cbn [last app]. rewrite Er. cbn [mbind res_bind].
    eexists. split; [done|]. apply (striped_put cur n m m _ []); try done.
    + constructor; fields; [done..|lia| |by apply (block_piece cur)]. by apply block_bytes.
    + intros off Hoff. fields. pose proof (block_complete cur n (place l cur).1 off Hb Hoff) as H. split; [lia|].
      intros Hu. apply H. destruct (Z.lt_ge_cases (unplace l (place l cur).1 off) cur) as [Hlt|]; [|lia].
      pose proof (st_covered _ _ Hs _ (conj (proj1 Hu) Hlt)) as Hin. rewrite place_unplace in Hin by done.
      by apply name_find_None in Hf.
    + by apply name_put_new.
    + by apply name_find_None.
Qed.

(** The turns that are left, the last test included. *)
Lemma extents_loop_ok fuel : ∀ cur left m,
  striped cur m → 0 <= offset <= cur → 0 <= left → 0 <= boff →
  cur + left < 18446744073709551616 → boff + (cur - offset) + left < 18446744073709551616 →
  (if left =? 0 then 1 else 2 + (cur mod su + left - 1) / su) <= Z.of_nat fuel →
  ∃ m', extents_loop fmt l ts fuel offset boff cur left m = Ok m' ∧ striped (cur + left) m'.
Proof.
  pose proof Hl as [Hu _ _ _].
  induction fuel as [|fuel IH]; intros cur left m Hs Ho Hleft Hb0 Hc Hbf Hfuel.
  { destruct (Z.eqb_spec left 0); [lia|]. pose proof (Z.mod_pos_bound cur su ltac:(lia)).
    assert (0 <= (cur mod su + left - 1) / su) by (apply Z.div_pos; lia). lia. }
  cbn [extents_loop]. destruct (Z.eqb_spec left 0) as [->|Hn].
  { eexists. split; [done|]. by rewrite Z.add_0_r. }
  rewrite (proj2 (Z.gtb_lt left 0)) by lia. cbn [negb]. rewrite (locate_ok l Hl) by lia. cbn [mbind res_bind].
  pose proof (Z.mod_pos_bound cur su ltac:(lia)) as Hm. set (n := if left >? su - cur mod su then _ else left).
  assert (n = Z.min left (su - cur mod su)) as En. { unfold n. destruct (Z.gtb_spec left (su - cur mod su)); lia. }
  assert (block cur n) as Hb by (unfold block; lia).
  rewrite (u64_small (cur - offset)), (u64_small (_ + boff)), (u64_small (cur + n)), (u64_small (left - n)) by lia.
  destruct (striped_step cur n m Hs Hb) as (exv & -> & Hs'). cbn [mbind res_bind].
  destruct (IH (cur + n) (left - n) _ Hs') as (m' & E & Hm'); [lia..| |].
  - destruct (Z.eqb_spec (left - n) 0).
    + assert (0 <= (cur mod su + left - 1) / su) by (apply Z.div_pos; lia). lia.
    + assert (n = su - cur mod su) as -> by lia.
      assert ((cur + (su - cur mod su)) mod su = 0) as ->.
      { replace (cur + (su - cur mod su)) with ((cur / su + 1) * su); [apply Z_mod_mult|]. pose proof (Z.div_mod cur su). lia. }
      replace (cur mod su + left - 1) with ((0 + (left - (su - cur mod su)) - 1) + 1 * su) in Hfuel by lia.
      rewrite Z.div_add in Hfuel by lia. lia.
  - exists m'. split; [done|]. by replace (cur + left) with (cur + n + (left - n)) by lia.
Qed.

(** The whole list of extents: one for each object, in the order of the names;
    the pieces of the buffer are those of a partition of it. *)
Record mapped (len : Z) (extents : list ObjectExtent) : Prop := {
  mp_sorted : StronglySorted name_lt (e_oid <$> extents);
  mp_extents : Forall extent_ok extents;
  mp_complete : Forall (complete (offset + len)) extents;
  mp_covered : ∀ p, offset <= p < offset + len → fmt (place l p).1 ∈ e_oid <$> extents;
  mp_pieces : ∃ pieces, tiles boff pieces (boff + len) ∧ extents ≫= e_buffer_extents ≡ₚ pieces;
}.

Lemma singletons cur (m : list (list Z * list ObjectExtent)) :
  (∀ k exv, (k, exv) ∈ m → ∃ e, exv = [e] ∧ k = e_oid e ∧ extent_ok e ∧ complete cur e) →
  m.*1 = e_oid <$> mjoin m.*2 ∧ Forall extent_ok (mjoin m.*2) ∧ Forall (complete cur) (mjoin m.*2).
Proof.
  induction m as [|[k exv] m IH]; intros Hm; [done|].
  destruct (Hm k exv) as (e & -> & -> & He & Hc); [left|]. destruct IH as (E & F1 & F2).
  { intros k' exv' Hin. apply Hm. by right. }
  split_and!; [|by constructor..]. exact (f_equal (cons (e_oid e)) E).
Qed.

Lemma file_to_extents_ok len :
  0 <= offset → 0 <= boff → 0 < len → offset + len < 18446744073709551616 → boff + len < 18446744073709551616 →
  ∃ extents, file_to_extents fmt l ts offset len [] boff = Ok extents ∧ mapped len extents.
Proof.
  intros Ho Hb Hlen H1 H2. pose proof Hl as [Hu _ _ _]. unfold file_to_extents, file_to_object_extents.
  rewrite (proj2 (Z.gtb_lt len 0)), (proj2 (Z.geb_le os su)) by (lia || exact (unit_le_size l Hl)).
  cbn [assert_c mbind res_bind]. rewrite div_c_ok by lia. cbn [mbind res_bind].
  destruct (extents_loop_ok (Z.to_nat (len / su) + 3) offset len [] striped_start) as (m & -> & Hm); [lia..| |].
  - rewrite (proj2 (Z.eqb_neq len 0)) by lia. pose proof (Z.mod_pos_bound offset su ltac:(lia)).
    assert (0 <= len / su) by (apply Z.div_pos; lia).
    assert ((offset mod su + len - 1) / su <= len / su + 1); [|lia].
    replace (len / su + 1) with ((len + 1 * su) / su) by (apply Z.div_add; lia). apply Z.div_le_mono; lia.
  - cbn [mbind res_bind]. eexists. split; [done|]. unfold assimilate_extents. cbn [app].
    destruct Hm as [S1 S2 S3 S4]. destruct (singletons _ _ S2) as (E & F1 & F2). unfold name_sorted in S1. rewrite E in S1.
    constructor; [done..| |].
    + intros p Hp. rewrite <- E. by apply S3.
    + by replace (offset + len - offset) with len in S4 by lia.
Qed.
End loop.

(** ** From objects back to files, and the sizes of objects

    [extent_to_file] inverts the striping map; [object_truncate_size] and
    [get_num_objects] agree with it. *)

Section layout.
Context (l : ceph_file_layout) (Hl : layout_ok l).
Local Abbreviation su := (fl_stripe_unit l).
Local Abbreviation sc := (fl_stripe_count l).
Local Abbreviation os := (fl_object_size l).
Local Abbreviation spo := (per_object l).

(** Within a stripe unit the file and the object advance together. *)
Lemma unplace_add o off i : 0 <= i → off mod su + i < su → unplace l o (off + i) = unplace l o off + i.
Proof.
  destruct Hl as [Hu _ _ _]. intros Hi Hb. pose proof (Z.mod_pos_bound off su ltac:(lia)).
  assert (off + i = off / su * su + (off mod su + i)) as -> by (pose proof (Z.div_mod off su ltac:(lia)); lia).
  unfold unplace. destruct (div_mod_eq (off / su) su (off mod su + i)) as [-> ->]; lia.
Qed.

Lemma unplace_bytes o off n : 0 <= n → off mod su + n <= su → seqZ (unplace l o off) n = unplace l o <$> seqZ off n.
Proof.
  intros Hn Hb. apply list_eq. intros i. rewrite list_lookup_fmap. destruct (decide (Z.of_nat i < n)) as [Hi|Hi].
  - rewrite !lookup_seqZ_lt by lia. simpl. by rewrite unplace_add by lia.
  - by rewrite !lookup_seqZ_ge by lia.
Qed.

(** The products of the code stay below the position they are part of. *)
Lemma unplace_parts o off : 0 <= o → 0 <= off →
  0 <= o / sc * spo ∧
  o / sc * spo <= off / su + o / sc * spo ∧
  off / su + o / sc * spo <= (off / su + o / sc * spo) * sc ∧
  (off / su + o / sc * spo) * sc + o mod sc <= ((off / su + o / sc * spo) * sc + o mod sc) * su ∧
  ((off / su + o / sc * spo) * sc + o mod sc) * su + off mod su = unplace l o off ∧
  0 <= o mod sc ∧ 0 <= off mod su < su.
Proof.
  pose proof (per_object_pos l Hl). destruct Hl as [Hu Hc _ _]. intros Ho Hoff.
  pose proof (Z.mod_pos_bound off su ltac:(lia)). pose proof (Z.mod_pos_bound o sc ltac:(lia)).
  assert (0 <= off / su) by (apply Z.div_pos; lia). assert (0 <= o / sc) by (apply Z.div_pos; lia).
  assert (0 <= o / sc * spo) by (apply Z.mul_nonneg_nonneg; lia).
  set (s := off / su + o / sc * spo) in *. assert (s <= s * sc) by nia.
  set (u := s * sc + o mod sc) in *. assert (0 <= u) by lia.
  split_and!; try lia; [nia|]. unfold u, s, unplace. f_equal. f_equal. f_equal. f_equal. lia.
Qed.

Lemma to_file_loop_ok o fuel : ∀ off len extents, 0 <= o → 0 <= off → 0 <= len → off + len < 18446744073709551616 →
  (0 < len → unplace l o (off + len - 1) < 18446744073709551616) →
  (if len =? 0 then 1 else 2 + (off mod su + len - 1) / su) <= Z.of_nat fuel →
  ∃ more, to_file_loop su sc spo o fuel off len (off mod su) extents = Ok (extents ++ more) ∧
          bytes_of more = unplace l o <$> seqZ off len ∧ Forall (λ x, 0 < x.2 <= su) more.
Proof.
  pose proof Hl as [Hu Hc _ _].
  induction fuel as [|fuel IH]; intros off len extents Ho Hoff Hlen Hov Hbnd Hfuel.
  { destruct (Z.eqb_spec len 0); [lia|]. pose proof (Z.mod_pos_bound off su ltac:(lia)).
    assert (0 <= (off mod su + len - 1) / su) by (apply Z.div_pos; lia). lia. }
  cbn [to_file_loop]. destruct (Z.eqb_spec len 0) as [->|Hn].
  { exists []. rewrite app_nil_r. done. }
  specialize (Hbnd ltac:(lia)).
  rewrite (proj2 (Z.gtb_lt len 0)) by lia. cbn [negb]. rewrite mod_c_ok, !div_c_ok by lia. cbn [mbind res_bind].
  destruct (unplace_parts o off Ho Hoff) as (P1 & P2 & P3 & P4 & P5 & P6 & P7).
  assert (unplace l o off <= unplace l o (off + len - 1)).
  { destruct (Z.eq_dec len 1) as [->|]; [by replace (off + 1 - 1) with off by lia|].
    pose proof (unplace_mono l Hl o off (off + len - 1)). lia. }
  rewrite (u64_small (o / sc * spo)), (u64_small (off / su + _)), (u64_small (_ * sc)), (u64_small (_ + o mod sc)),
    (u64_small (_ * su)), (u64_small (_ + off mod su)), P5, (u64_small (su - _)) by lia.
  set (n := Z.min len (su - off mod su)). rewrite (u64_small (off + n)), (u64_small (len - n)) by lia.
  assert (len - n = 0 ∨ n = su - off mod su ∧ 0 < len - n) as Hcase by lia.
  assert (∃ more, to_file_loop su sc spo o fuel (off + n) (len - n) 0 (extents ++ [(unplace l o off, n)]) =
            Ok ((extents ++ [(unplace l o off, n)]) ++ more) ∧
          bytes_of more = unplace l o <$> seqZ (off + n) (len - n) ∧ Forall (λ x, 0 < x.2 <= su) more) as (more & -> & Em & Fm).
  { assert (0 <= (off mod su + len - 1) / su) by (apply Z.div_pos; lia).
    destruct Hcase as [E0|[En Hpos]].
    - rewrite E0. exists []. destruct fuel; [lia|]. cbn. by rewrite app_nil_r.
    - assert ((off + n) mod su = 0) as Em0.
      { rewrite En. replace (off + (su - off mod su)) with ((off / su + 1) * su); [apply Z_mod_mult|]. pose proof (Z.div_mod off su). lia. }
      specialize (IH (off + n) (len - n) (extents ++ [(unplace l o off, n)])). rewrite Em0 in IH. apply IH; [lia..| |].
      + intros _. by replace (off + n + (len - n) - 1) with (off + len - 1) by lia.
      + rewrite (proj2 (Z.eqb_neq (len - n) 0)) by lia.
        replace (off mod su + len - 1) with ((0 + (len - n) - 1) + 1 * su) in Hfuel by lia.
        rewrite Z.div_add in Hfuel by lia. lia. }
  exists ((unplace l o off, n) :: more). rewrite <- app_assoc. split_and!; [done| |constructor; [simpl; lia|done]].
  change ((_, n) :: more) with ([(unplace l o off, n)] ++ more). rewrite bytes_of_app, Em. unfold bytes_of at 1. simpl.
  rewrite app_nil_r, unplace_bytes, <- fmap_app, <- seqZ_app by lia. do 2 f_equal. lia.
Qed.

Lemma extent_to_file_ok o off len : 0 <= o → 0 <= off → 0 < len → off + len < 18446744073709551616 →
  unplace l o (off + len - 1) < 18446744073709551616 →
  ∃ extents, extent_to_file l o off len [] = Ok extents ∧
    bytes_of extents = unplace l o <$> seqZ off len ∧ Forall (λ x, 0 < x.2 <= su) extents.
Proof.
  intros Ho Hoff Hlen Hov Hb. pose proof Hl as [Hu Hc _ _]. unfold extent_to_file.
  rewrite (proj2 (Z.geb_le os su)) by exact (unit_le_size l Hl). cbn [assert_c mbind res_bind].
  rewrite div_c_ok, mod_c_ok by lia. cbn [mbind res_bind]. fold (per_object l).
  destruct (to_file_loop_ok o (Z.to_nat (len / su) + 3) off len [] Ho Hoff) as (more & E & Em); [lia..|done| |by exists more].
  rewrite (proj2 (Z.eqb_neq len 0)) by lia. pose proof (Z.mod_pos_bound off su ltac:(lia)).
  assert (0 <= len / su) by (apply Z.div_pos; lia).
  assert ((off mod su + len - 1) / su <= len / su + 1); [|lia].
  replace (len / su + 1) with ((len + 1 * su) / su) by (apply Z.div_add; lia). apply Z.div_le_mono; lia.
Qed.

(** ** Truncation *)

(** Mixed-radix numbers are ordered by their digits. *)
Lemma lex_lt b q r q' r' : 0 <= r < b → 0 <= r' < b → q * b + r < q' * b + r' ↔ q < q' ∨ (q = q' ∧ r < r').
Proof. intros H H'. split; [|intros [?|[-> ?]]; nia]. intros Hlt. destruct (Z.lt_trichotomy q q') as [|[->|]]; [by left|right; lia|nia]. Qed.

Lemma lex_eq b q r q' r' : 0 <= r < b → 0 <= r' < b → q * b + r = q' * b + r' ↔ q = q' ∧ r = r'.
Proof. intros H H'. pose proof (lex_lt b q r q' r' H H'). pose proof (lex_lt b q' r' q r H' H). split; [lia|by intros [-> ->]]. Qed.

Lemma unplace_lt o off pos : 0 <= off < os →
  unplace l o off < pos ↔
    o / sc < pos / su / sc / spo ∨ (o / sc = pos / su / sc / spo ∧
    (off / su < (pos / su / sc) mod spo ∨ (off / su = (pos / su / sc) mod spo ∧
    (o mod sc < (pos / su) mod sc ∨ (o mod sc = (pos / su) mod sc ∧ off mod su < pos mod su))))).
Proof.
  pose proof (per_object_pos l Hl). destruct Hl as [Hu Hc Hs Hm]. intros Hoff.
  pose proof (Z.mod_pos_bound off su ltac:(lia)). pose proof (Z.mod_pos_bound o sc ltac:(lia)).
  pose proof (Z.mod_pos_bound pos su ltac:(lia)). pose proof (Z.mod_pos_bound (pos / su) sc ltac:(lia)).
  pose proof (Z.mod_pos_bound (pos / su / sc) spo ltac:(lia)).
  assert (0 <= off / su < spo). { split; [apply Z.div_pos; lia|apply Z.div_lt_upper_bound; lia]. }
  rewrite <- (unplace_place l Hl pos) at 1. unfold unplace, place. cbn [fst snd].
  destruct (div_mod_eq (pos / su / sc / spo) sc ((pos / su) mod sc)) as [-> ->]; [done|].
  destruct (div_mod_eq ((pos / su / sc) mod spo) su (pos mod su)) as [-> ->]; [done|].
  rewrite !lex_lt, !lex_eq by done. lia.
Qed.

Lemma trunc_set ts : ts / os / sc = ts / su / sc / spo.
Proof.
  pose proof (per_object_pos l Hl). destruct Hl as [Hu Hc Hs Hm]. rewrite !Z.div_div, Hm by nia. f_equal. lia.
Qed.

Lemma object_truncate_size_ok o ts : 0 <= o → 0 < ts < 18446744073709551615 →
  ∃ r, object_truncate_size l o ts = Ok r ∧ 0 <= r <= os ∧ ∀ off, 0 <= off < os → off < r ↔ unplace l o off < ts.
Proof.
  pose proof (per_object_pos l Hl). pose proof Hl as [Hu Hc Hs Hm]. intros Ho Hts. unfold object_truncate_size.
  change (u64 (-1)) with 18446744073709551615. rewrite (proj2 (Z.eqb_neq ts 0)), (proj2 (Z.eqb_neq ts 18446744073709551615)) by lia. cbn [orb].
  rewrite (proj2 (Z.geb_le os su)) by exact (unit_le_size l Hl). cbn [assert_c mbind res_bind]. divide. fold (per_object l).
  divide. rewrite (trunc_set ts). pose proof (unplace_lt o) as Hlt.
  pose proof (Z.mod_pos_bound (ts / su) sc ltac:(lia)). pose proof (Z.mod_pos_bound (ts / su / sc) spo ltac:(lia)).
  pose proof (Z.mod_pos_bound ts su ltac:(lia)). pose proof (place_range l Hl ts ltac:(lia)) as [R1 R2]. unfold place in R1, R2.
  cbn [fst snd] in R1, R2. assert (ts / su <= ts) by (apply Z.div_le_upper_bound; nia).
  assert (0 <= ts / su / sc / spo * sc) by (apply Z.mul_nonneg_nonneg; [repeat apply Z.div_pos; lia|lia]).
  rewrite (u64_small (ts / su / sc / spo * sc)), (u64_small (_ + (ts / su) mod sc)) by lia.
  assert (∀ off, off < ((ts / su / sc) mod spo + 1) * su ↔ off / su <= (ts / su / sc) mod spo) as Hr1.
  { intros off. split; intros; [apply Z.lt_succ_r, Z.div_lt_upper_bound; lia|].
    pose proof (Z.div_mod off su). pose proof (Z.mod_pos_bound off su). nia. }
  assert (∀ off, off < (ts / su / sc) mod spo * su ↔ off / su < (ts / su / sc) mod spo) as Hr0.
  { intros off. split; intros; [apply Z.div_lt_upper_bound; lia|].
    pose proof (Z.div_mod off su). pose proof (Z.mod_pos_bound off su). nia. }
  assert (((ts / su / sc) mod spo + 1) * su <= os) by nia. assert (0 <= (ts / su / sc) mod spo * su) by nia.
  rewrite (u64_small (_ + 1)), (u64_small (_ * su)), (u64_small ((ts / su / sc) mod spo * su)), (u64_small (_ + ts mod su)) by lia.
  pose proof (Z.div_mod o sc ltac:(lia)) as Eo. pose proof (Z.mod_pos_bound o sc ltac:(lia)).
  destruct (Z.gtb_spec (o / sc) (ts / su / sc / spo)) as [HA|HA].
  { exists 0. split_and!; [done|lia..|]. intros off Hoff. rewrite (Hlt off ts Hoff). lia. }
  destruct (Z.ltb_spec (o / sc) (ts / su / sc / spo)) as [HB|HB].
  { exists os. split_and!; [done|lia..|]. intros off Hoff. rewrite (Hlt off ts Hoff). lia. }
  assert (o / sc = ts / su / sc / spo) as Es by lia. rewrite Es in Eo.
  eexists. split; [done|]. destruct (Z.ltb_spec o (ts / su / sc / spo * sc + (ts / su) mod sc)) as [HC|HC].
  { split; [lia|]. intros off Hoff. rewrite (Hlt off ts Hoff), Hr1. lia. }
  destruct (Z.gtb_spec o (ts / su / sc / spo * sc + (ts / su) mod sc)) as [HD|HD].
  { split; [lia|]. intros off Hoff. rewrite (Hlt off ts Hoff), Hr0. lia. }
  split; [lia|]. intros off Hoff. rewrite (Hlt off ts Hoff). pose proof (Z.mod_pos_bound off su ltac:(lia)).
  pose proof (lex_lt su (off / su) (off mod su) ((ts / su / sc) mod spo) (ts mod su)) as Hlex.
  replace (off / su * su + off mod su) with off in Hlex by (pose proof (Z.div_mod off su); lia). rewrite Hlex by done. lia.
Qed.

(** ** The number of objects *)

Lemma unplace_0 o : unplace l o 0 = o / sc * (sc * os) + o mod sc * su.
Proof.
  destruct Hl as [Hu Hc Hs Hm]. unfold unplace. rewrite Z.div_0_l, Z.mod_0_l, Hm by lia. ring.
Qed.

Lemma below_digits o b q u : 0 < b → 0 <= u <= b → o < q * b + u ↔ o / b < q ∨ (o / b = q ∧ o mod b < u).
Proof.
  intros Hb Hu. pose proof (Z.div_mod o b ltac:(lia)) as E. pose proof (Z.mod_pos_bound o b Hb) as Hm.
  rewrite E at 1. revert Hm. generalize (o / b) (o mod b). intros s p Hm.
  split; [|intros [?|[-> ?]]; nia]. intros Hlt. destruct (Z.lt_trichotomy s q) as [|[->|]]; [by left|right; lia|nia].
Qed.

Lemma ceil_div a b : 0 < b → ∀ k, k * b < a ↔ k < (a + b - 1) / b.
Proof.
  intros Hb k. pose proof (Z.div_mod (a + b - 1) b ltac:(lia)). pose proof (Z.mod_pos_bound (a + b - 1) b ltac:(lia)). nia.
Qed.

Lemma get_num_objects_ok size : sc * os < 4294967296 → 0 <= size → size + sc * os < 18446744073709551616 →
  ∃ n, get_num_objects l size = Ok n ∧ ∀ o, 0 <= o → o < n ↔ unplace l o 0 < size.
Proof.
  pose proof (per_object_pos l Hl). pose proof Hl as [Hu Hc Hs Hm]. intros Hp Hsize Hov. unfold get_num_objects.
  pose proof (unit_le_size l Hl). assert (0 < sc * os) by nia. assert (sc * su <= sc * os) by nia. assert (0 < sc * su) by nia. assert (sc <= sc * os) by nia.
  rewrite !(u32_small (sc * _)) by (unfold is_u32; lia). divide.
  pose proof (Z.div_mod size (sc * os) ltac:(lia)) as Eq. pose proof (Z.mod_pos_bound size (sc * os) ltac:(lia)).
  set (q := size / (sc * os)) in *. set (rem := size mod (sc * os)) in *.
  assert (0 <= q) by (apply Z.div_pos; lia). assert (sc * q <= size) by nia.
  rewrite (u64_small (size + _)), (u64_small (size + _ - 1)) by lia. divide.
  assert ((size + sc * os - 1) / (sc * os) = q + if rem >? 0 then 1 else 0) as ->.
  { destruct (Z.gtb_spec rem 0).
    - symmetry. apply Z.div_unique with (rem - 1); lia.
    - symmetry. apply Z.div_unique with (sc * os - 1); lia. }
  assert (∀ o, 0 <= o → unplace l o 0 < size ↔ o / sc < q ∨ (o / sc = q ∧ o mod sc * su < rem)) as Hun.
  { intros o Ho. rewrite unplace_0, Eq, (Z.mul_comm (sc * os) q). apply lex_lt; [|lia].
    pose proof (Z.mod_pos_bound o sc ltac:(lia)) as Hp'. assert (o mod sc * su < sc * su) by (apply Z.mul_lt_mono_pos_r; lia).
    assert (0 <= o mod sc * su) by (apply Z.mul_nonneg_nonneg; lia). lia. }
  destruct (Z.gtb_spec rem 0) as [Hr|Hr]; cbn [andb].
  - destruct (Z.ltb_spec rem (sc * su)) as [Hr2|Hr2]; cbn [mbind res_bind].
    + rewrite (u64_small (rem + su)), (u64_small (rem + su - 1)) by lia. divide.
      pose proof (ceil_div rem su ltac:(lia)) as Hceil. set (units := (rem + su - 1) / su) in *.
      assert (0 < units <= sc) as Hun'. { pose proof (Hceil 0). pose proof (Hceil sc). lia. }
      assert (q * sc + sc = (q + 1) * sc) as Eqs by ring. assert (0 <= q * sc <= size) by lia.
      rewrite (u64_small (sc - units)), (u64_small ((q + 1) * sc)), (u64_small (_ - (sc - units))) by lia.
      eexists. split; [done|]. intros o Ho. rewrite (Hun o Ho), (Hceil (o mod sc)), <- below_digits by lia. lia.
    + assert (q * sc + sc = (q + 1) * sc) as Eqs by ring. assert (0 <= q * sc <= size) by lia.
      rewrite (u64_small ((q + 1) * sc)), u64_small by lia. eexists. split; [done|]. intros o Ho.
      rewrite (Hun o Ho), Z.sub_0_r, <- Eqs, below_digits by lia.
      pose proof (Z.mod_pos_bound o sc ltac:(lia)). assert (o mod sc * su < sc * su) by (apply Z.mul_lt_mono_pos_r; lia). lia.
  - assert (0 <= q * sc <= size) by lia.
    cbn [mbind res_bind]. rewrite Z.add_0_r, Z.sub_0_r, (u64_small (q * sc)), u64_small by lia. eexists. split; [done|].
    intros o Ho. rewrite (Hun o Ho). rewrite <- (Z.add_0_r (q * sc)) at 1. rewrite below_digits by lia.
    pose proof (Z.mod_pos_bound o sc ltac:(lia)). assert (0 <= o mod sc * su) by (apply Z.mul_nonneg_nonneg; lia). lia.
Qed.
End layout.
