(* ===== verification/StriperRead.v ===== *)
(** * Reading a striped file

    The pieces that the objects return are put together to the bytes of the
    file: [fbyte] is the byte the striping map puts at a file position, if its
    object reaches that far. *)

From stdpp Require Import sorting.
From S2P Require Import Prelude StdMap OutBuf OsdMapping Striper StriperSpec.

(** ** Data with holes *)

(** The data before the first hole. *)
Fixpoint avail (L : list (option Z)) : list Z :=
  match L with Some v :: L => v :: avail L | _ => [] end.

(** All holes come after all data. *)
Fixpoint closed (L : list (option Z)) : Prop :=
  match L with
  | [] => True
  | Some _ :: L => closed L
  | None :: L => Forall (λ x, x = None) L
  end.

(** The data up to the last byte, with zeros in the holes. *)
Fixpoint trim (L : list (option Z)) : list Z :=
  match L with
  | [] => []
  | x :: L => match trim L, x with [], None => [] | t, _ => default 0 x :: t end
  end.

(** The same, with zeros at the end as well or not. *)
Definition gather (zero_tail : bool) (L : list (option Z)) : list Z :=
  if zero_tail then default 0 <$> L else trim L.

Lemma avail_none L : Forall (λ x, x = None) L → avail L = [].
Proof. by destruct 1 as [|x L ->]. Qed.

Lemma closed_none L : Forall (λ x, x = None) L → closed L.
Proof. destruct 1 as [|x L ->]; [done|]. done. Qed.

Lemma length_avail L : (length (avail L) <= length L)%nat.
Proof. induction L as [|[v|] L IH]; simpl; lia. Qed.

Lemma closed_app L R : closed (L ++ R) → closed L ∧ closed R ∧
  avail L = take (length L) (avail (L ++ R)) ∧ avail R = drop (length L) (avail (L ++ R)).
Proof.
  induction L as [|[v|] L IH]; simpl.
  - intros HR. by rewrite take_0.
  - intros H. destruct (IH H) as (H1 & H2 & H3 & H4). split_and!; [done..|by f_equal|done].
  - intros [H1 H2]%Forall_app. split_and!; [done|by apply closed_none|done|by apply avail_none].
Qed.

(** A closed list is its data and a number of holes. *)
Lemma closed_split L : closed L → L = (Some <$> avail L) ++ replicate (length L - length (avail L)) None.
Proof.
  induction L as [|[v|] L IH]; simpl; [done|intros H; f_equal; exact (IH H)|].
  intros H. f_equal. clear IH. induction H as [|x L -> _ IHL]; simpl; [done|]. by f_equal.
Qed.

Lemma gather_data zt d R : gather zt ((Some <$> d) ++ R) = d ++ gather zt R.
Proof.
  destruct zt; simpl.
  - rewrite fmap_app, <- list_fmap_compose. f_equal. induction d as [|v d IH]; [done|]. simpl. by f_equal.
  - induction d as [|v d IH]; [done|]. rewrite fmap_cons. cbn [app trim]. rewrite IH. by destruct (d ++ trim R).
Qed.

Lemma gather_holes zt k R :
  gather zt (replicate k None ++ R) =
    if (zt || negb (bool_decide (gather zt R = []))) then replicate k 0 ++ gather zt R else gather zt R.
Proof.
  destruct zt; simpl; [by rewrite fmap_app, fmap_replicate|].
  induction k as [|k IH]; simpl; [by destruct (negb _)|]. rewrite IH.
  destruct (bool_decide_reflect (trim R = [])) as [->|Hn]; simpl; [done|].
  destruct (replicate k 0 ++ trim R) eqn:E; [by apply app_nil in E as [_ ?]|done].
Qed.

(** What one turn of [assemble_result] does. *)
Lemma gather_closed zt L R : closed L →
  gather zt (L ++ R) =
    if bool_decide (length (avail L) < length L)%nat && (zt || negb (bool_decide (gather zt R = [])))
    then avail L ++ replicate (length L - length (avail L)) 0 ++ gather zt R else avail L ++ gather zt R.
Proof.
  intros H. rewrite (closed_split L H) at 1. rewrite <- app_assoc, gather_data, gather_holes.
  pose proof (length_avail L). destruct (bool_decide_reflect (length (avail L) < length L)%nat) as [|Hge]; simpl.
  - by destruct (_ || _).
  - replace (length L - length (avail L))%nat with 0%nat by lia. by destruct (_ || _).
Qed.

(** ** One object *)

Lemma object_range (o : list Z) n : ∀ off, 0 <= off →
  let L := (λ x, o !! Z.to_nat x) <$> seqZ off (Z.of_nat n) in
  closed L ∧ avail L = take n (drop (Z.to_nat off) o).
Proof.
  induction n as [|n IH]; intros off Hoff; cbv zeta; [by rewrite take_0|].
  rewrite seqZ_cons by lia. replace (Z.pred (Z.of_nat (S n))) with (Z.of_nat n) by lia. rewrite fmap_cons.
  destruct (o !! Z.to_nat off) as [v|] eqn:Ho; cbn [closed avail].
  - destruct (IH (Z.succ off) ltac:(lia)) as [H1 H2]. split; [exact H1|]. rewrite H2, (drop_S o v (Z.to_nat off)) by done.
    by rewrite Z2Nat.inj_succ by lia.
  - apply lookup_ge_None in Ho. rewrite drop_ge by done. split; [|done]. apply Forall_fmap, Forall_forall.
    intros x Hx%elem_of_seqZ. simpl. apply lookup_ge_None. lia.
Qed.

(** ** The partial results *)

Section pieces.
(** The byte at each place of the buffer. *)
Context (fb : Z → option Z).

Definition chunk (x : Z * Z) : Z * (list Z * Z) := (x.1, (avail (fb <$> seqZ x.1 x.2), x.2)).

Lemma bl_length_small bl : Z.of_nat (length bl) < 4294967296 → bl_length bl = Z.of_nat (length bl).
Proof. intros H. unfold bl_length. apply u32_small. unfold is_u32. lia. Qed.

Lemma add_partial_result_ok bes : ∀ bl partial,
  Z.of_nat (length bl) < 4294967296 → Forall (λ x, 0 <= x.2) bes → closed (fb <$> bytes_of bes) → bl = avail (fb <$> bytes_of bes) →
  NoDup (bes.*1 ++ keys partial) → ordered partial →
  ordered (add_partial_result bl bes partial) ∧ add_partial_result bl bes partial ≡ₚ (chunk <$> bes) ++ partial.
Proof.
  induction bes as [|[b n] bes IH]; intros bl partial Hsm Hn Hc Hbl Hnd Ho; simpl; [done|]. rewrite bl_length_small by done.
  apply Forall_cons in Hn as [Hn0 Hn]. simpl in Hn0. change (bytes_of ((b, n) :: bes)) with (seqZ b n ++ bytes_of bes) in Hc, Hbl.
  rewrite fmap_app in Hc, Hbl. destruct (closed_app _ _ Hc) as (C1 & C2 & A1 & A2).
  rewrite length_fmap, length_seqZ, <- Hbl in A1, A2. simpl in Hnd. apply NoDup_cons in Hnd as [Hb Hnd].
  apply not_elem_of_app in Hb as [Hb1 Hb2].
  assert (map_find partial b = None) as Hf. { apply eq_None_not_Some. by rewrite map_find_in. }
  assert (∀ k : nat, k = Z.to_nat (Z.min (Z.of_nat (length bl)) n) → take k bl = take (Z.to_nat n) bl ∧ drop k bl = drop (Z.to_nat n) bl) as Hk.
  { intros k ->. destruct (Z.min_spec (Z.of_nat (length bl)) n) as [[? ->]|[? ->]]; [|done].
    rewrite Nat2Z.id, !take_ge, !drop_ge by lia. done. }
  assert (Z.of_nat (length (drop (Z.to_nat n) bl)) < 4294967296) as Hsm2 by (rewrite length_drop; lia).
  destruct (Hk _ eq_refl) as [-> ->]. unfold part. rewrite Hf. simpl. rewrite <- A1, <- A2. rewrite <- A2 in Hsm2.
  pose proof (map_put_new partial b (avail (fb <$> seqZ b n), n) Hb2) as Hp.
  assert (keys (map_put partial b (avail (fb <$> seqZ b n), n)) ≡ₚ b :: keys partial) as Hkeys.
  { unfold keys. rewrite Hp. done. }
  destruct (IH (avail (fb <$> bytes_of bes)) (map_put partial b (avail (fb <$> seqZ b n), n))) as [O1 O2]; try done.
  - rewrite Hkeys. rewrite <- Permutation_middle. constructor; [by apply not_elem_of_app|done].
  - by apply map_put_ordered.
  - split; [done|]. rewrite O2, Hp. by rewrite <- Permutation_middle.
Qed.

Lemma length_gather zt (L : list (option Z)) : (length (gather zt L) <= length L)%nat.
Proof. destruct zt; simpl; [by rewrite length_fmap|]. induction L as [|[v|] L IH]; simpl; [lia|..]; destruct (trim L); simpl in *; lia. Qed.

Lemma bl_length_gather zt (L : list (option Z)) : Z.of_nat (length L) < 4294967296 → negb (bl_length (gather zt L) =? 0) = negb (bool_decide (gather zt L = [])).
Proof.
  intros H. pose proof (length_gather zt L). rewrite bl_length_small by lia. f_equal. destruct (gather zt L); [done|]. by rewrite bool_decide_eq_false_2.
Qed.

Lemma assemble_loop_ok zt pieces : ∀ a z R, tiles a pieces z → 0 <= a → z < 18446744073709551616 → z - a + Z.of_nat (length R) < 4294967296 →
  Forall (λ x, x.2 < 4294967296) pieces → Forall (λ x, closed (fb <$> seqZ x.1 x.2)) pieces →
  assemble_loop zt (reverse (chunk <$> pieces)) z (gather zt R) = Ok (gather zt ((fb <$> seqZ a (z - a)) ++ R)).
Proof.
  induction pieces as [|[b n] pieces IH] using rev_ind; intros a z R Ht Ha Hz Hlen Hn Hc.
  { simpl in Ht. subst. by rewrite Z.sub_diag. }
  assert (tiles a pieces b ∧ z = b + n ∧ 0 < n ∧ a <= b) as (Ht' & -> & Hn0 & Hab).
  { clear -Ht. revert a Ht. induction pieces as [|[c k] p IH]; intros a; simpl; [intros (-> & ? & <-); lia|].
    intros (-> & Hk & H). destruct (IH _ H) as (? & ? & ? & ?). split_and!; [done..|lia]. }
  rewrite fmap_app, reverse_app. apply Forall_app in Hn as [Hn Hn1], Hc as [Hc Hc1].
  apply Forall_cons in Hn1 as [Hn1 _], Hc1 as [Hc1 _]. simpl in Hn1, Hc1. cbn [chunk fst snd fmap list_fmap reverse rev_append assemble_loop app].
  change (reverse [(b, (avail (fb <$> seqZ b n), n))] ++ reverse (chunk <$> pieces)) with
    ((b, (avail (fb <$> seqZ b n), n)) :: reverse (chunk <$> pieces)). cbn [assemble_loop].
  replace (b + n - n) with b by lia. rewrite u64_small, Z.eqb_refl by lia. cbn [assert_c mbind res_bind].
  replace (b + n - a) with ((b - a) + n) by lia. rewrite seqZ_app, fmap_app, <- app_assoc by lia.
  replace (a + (b - a)) with b by lia. rewrite <- (IH a b) by (done || lia || (rewrite length_app, length_fmap, length_seqZ; lia)). f_equal.
  rewrite (gather_closed zt _ R Hc1), length_fmap, length_seqZ, (bl_length_gather zt R) by lia.
  pose proof (length_avail (fb <$> seqZ b n)) as Hl. rewrite length_fmap, length_seqZ in Hl. rewrite !(bl_length_small (avail _)) by lia.
  rewrite u32_small by (unfold is_u32; lia).
  replace (Z.to_nat (n - Z.of_nat (length (avail (fb <$> seqZ b n))))) with (Z.to_nat n - length (avail (fb <$> seqZ b n)))%nat by lia.
  replace (Z.of_nat (length (avail (fb <$> seqZ b n))) <? n) with (bool_decide (length (avail (fb <$> seqZ b n)) < Z.to_nat n)%nat); [done|].
  destruct (bool_decide_reflect (length (avail (fb <$> seqZ b n)) < Z.to_nat n)%nat); [symmetry; apply Z.ltb_lt|symmetry; apply Z.ltb_ge]; lia.
Qed.
End pieces.

Lemma tiles_keys a pieces z : tiles a pieces z → StronglySorted Z.lt pieces.*1 ∧ Forall (λ x, a <= x) pieces.*1.
Proof.
  revert a. induction pieces as [|[b n] p IH]; intros a; simpl; [repeat constructor|].
  intros (-> & Hn & Ht). destruct (IH _ Ht) as [Hs Hf]. split.
  - constructor; [done|]. eapply Forall_impl; [exact Hf|]. simpl. lia.
  - constructor; [lia|]. eapply Forall_impl; [exact Hf|]. simpl. lia.
Qed.

Lemma sorted_NoDup (ks : list Z) : StronglySorted Z.lt ks → NoDup ks.
Proof.
  induction ks as [|k ks IH]; intros Hs; [constructor|]. apply StronglySorted_inv in Hs as [Hs Hk].
  constructor; [|by apply IH]. intros Hin. pose proof (proj1 (Forall_forall _ _) Hk k Hin). lia.
Qed.

Lemma tiles_bytes a pieces z : tiles a pieces z → bytes_of pieces = seqZ a (z - a) ∧ a <= z.
Proof.
  revert a. induction pieces as [|[b n] p IH]; intros a; simpl; [intros ->; by rewrite Z.sub_diag|].
  intros (-> & Hn & Ht). destruct (IH _ Ht) as [E ?]. split; [|lia].
  change (bytes_of ((a, n) :: p)) with (seqZ a n ++ bytes_of p). rewrite E, <- seqZ_app by lia. f_equal. lia.
Qed.

Lemma tiles_last a pieces b n z : tiles a (pieces ++ [(b, n)]) z → b + n = z.
Proof. revert a. induction pieces as [|[c k] p IH]; intros a; simpl; [lia|]. intros (-> & _ & H). by apply IH in H. Qed.

Lemma closed_pieces (fb : Z → option Z) pieces :
  closed (fb <$> bytes_of pieces) → Forall (λ x, closed (fb <$> seqZ x.1 x.2)) pieces.
Proof.
  induction pieces as [|[b n] p IH]; [constructor|]. change (bytes_of ((b, n) :: p)) with (seqZ b n ++ bytes_of p).
  rewrite fmap_app. intros C. destruct (closed_app _ _ C) as (C1 & C2 & _). constructor; [done|by apply IH].
Qed.

Lemma trim_closed L : closed L → trim L = avail L.
Proof.
  induction L as [|[v|] L IH]; simpl; [done|intros C; rewrite (IH C); by destruct (avail L)|].
  intros HL. rewrite IH by (by apply closed_none). by rewrite avail_none.
Qed.

Lemma seqZ_sorted a n : StronglySorted Z.lt (seqZ a n).
Proof.
  destruct (Z.le_gt_cases n 0) as [|Hn]; [rewrite seqZ_nil by done; constructor|].
  rewrite <- (Z2Nat.id n) by lia. revert a. induction (Z.to_nat n) as [|k IH]; intros a; [constructor|].
  rewrite seqZ_cons by lia. replace (Z.pred (Z.of_nat (S k))) with (Z.of_nat k) by lia. constructor; [apply IH|].
  apply Forall_forall. intros x Hx%elem_of_seqZ. lia.
Qed.

(** ** The whole read *)

Section read.
Context (fmt : Z → list Z) (l : ceph_file_layout) (ts : Z) (Hl : layout_ok l).
Context (offset boff : Z) (obj : Z → list Z).

(** What an object returns for an extent: less, if it ends before. *)
Definition object_read (e : ObjectExtent) : list Z :=
  take (Z.to_nat (e_length e)) (drop (Z.to_nat (e_offset e)) (obj (e_objectno e))).

Definition fbyte (pos : Z) : option Z := obj (place l pos).1 !! Z.to_nat (place l pos).2.
Definition buffer_byte (b : Z) : option Z := fbyte (offset + (b - boff)).

Lemma object_read_small e : extent_ok fmt l ts offset boff e → Z.of_nat (length (object_read e)) < 4294967296.
Proof using Hl. intros [_ _ _ _ (H1 & H2 & H3) _ _]. destruct Hl as [_ _ Hs _]. unfold object_read. rewrite length_take. lia. Qed.

Lemma extent_read e : extent_ok fmt l ts offset boff e →
  closed (buffer_byte <$> bytes_of (e_buffer_extents e)) ∧
  avail (buffer_byte <$> bytes_of (e_buffer_extents e)) = object_read e.
Proof.
  intros [_ _ _ _ (H1 & H2 & _) Hb _].
  assert (buffer_byte <$> bytes_of (e_buffer_extents e) =
    (λ x, obj (e_objectno e) !! Z.to_nat x) <$> seqZ (e_offset e) (Z.of_nat (Z.to_nat (e_length e)))) as ->.
  { transitivity ((λ p, obj p.1 !! Z.to_nat p.2) <$> ((λ b, place l (offset + (b - boff))) <$> bytes_of (e_buffer_extents e))).
    - by rewrite <- list_fmap_compose.
    - rewrite Hb, <- list_fmap_compose, Z2Nat.id by lia. done. }
  by apply object_range.
Qed.

Lemma add_results_ok extents : ∀ r, Forall (extent_ok fmt l ts offset boff) extents → Forall (λ e, Z.of_nat (length (object_read e)) < 4294967296) extents →
  NoDup ((extents ≫= e_buffer_extents).*1 ++ keys r) → ordered r →
  ∃ r', add_results extents (object_read <$> extents) r = Ok r' ∧ ordered r' ∧
        r' ≡ₚ (chunk buffer_byte <$> (extents ≫= e_buffer_extents)) ++ r.
Proof.
  induction extents as [|e extents IH]; intros r He Hsm Hnd Ho; [by exists r|].
  apply Forall_cons in He as [He Hes], Hsm as [Hsm Hsms]. rewrite bind_cons, fmap_app, <- app_assoc in Hnd.
  destruct (extent_read e He) as [C A]. rewrite fmap_cons. cbn [add_results].
  assert (NoDup ((e_buffer_extents e).*1 ++ keys r)) as Hnd1.
  { rewrite (Permutation_app_comm (extents ≫= e_buffer_extents).*1), app_assoc in Hnd. by apply NoDup_app in Hnd as [? _]. }
  destruct (add_partial_result_ok buffer_byte (e_buffer_extents e) (object_read e) r) as [O P]; [done| |done..|].
  { eapply Forall_impl; [exact (eo_pieces _ _ _ _ _ e He)|]. simpl. lia. }
  destruct (IH (add_partial_result (object_read e) (e_buffer_extents e) r) Hes Hsms) as (r' & E & O' & P').
  - assert (keys (add_partial_result (object_read e) (e_buffer_extents e) r) ≡ₚ (e_buffer_extents e).*1 ++ keys r) as ->; [|].
    { unfold keys. rewrite P, fmap_app, <- list_fmap_compose. done. }
    rewrite app_assoc, (Permutation_app_comm (extents ≫= e_buffer_extents).*1), <- app_assoc. done.
  - done.
  - exists r'. split_and!; [done..|]. rewrite P', P, bind_cons, fmap_app, <- !app_assoc.
    rewrite !app_assoc. apply Permutation_app_tail, Permutation_app_comm.
Qed.

(** The pieces of one extent follow each other in the file. *)
Lemma extent_sorted e : extent_ok fmt l ts offset boff e → StronglySorted Z.lt (bytes_of (e_buffer_extents e)).
Proof.
  intros [_ _ _ _ (H1 & _ & _) Hb _].
  assert (bytes_of (e_buffer_extents e) = (λ x, unplace l (e_objectno e) x - offset + boff) <$> seqZ (e_offset e) (e_length e)) as ->.
  { transitivity ((λ p, unplace l p.1 p.2 - offset + boff) <$> ((λ b, place l (offset + (b - boff))) <$> bytes_of (e_buffer_extents e))).
    - apply list_eq. intros i. rewrite !list_lookup_fmap. destruct (bytes_of _ !! i) as [b|]; [|done].
      cbn [fmap option_fmap option_map]. rewrite unplace_place by done. f_equal. lia.
    - rewrite Hb, <- list_fmap_compose. done. }
  assert (∀ x, x ∈ seqZ (e_offset e) (e_length e) → 0 <= x) as Hpos by (intros x Hx%elem_of_seqZ; lia).
  pose proof (seqZ_sorted (e_offset e) (e_length e)) as Hs. revert Hpos Hs.
  generalize (seqZ (e_offset e) (e_length e)). intros xs Hpos Hs. induction Hs as [|x xs Hs IH Hx]; [constructor|].
  rewrite fmap_cons. constructor; [apply IH; intros y Hy; apply Hpos; by right|].
  apply Forall_fmap. eapply Forall_impl; [exact Hx|]. intros y Hy. simpl.
  pose proof (unplace_mono l Hl (e_objectno e) x y (Hpos x ltac:(left)) Hy). lia.
Qed.

(** The results, put together, are the bytes of the file range. *)
Lemma sg_read_ok len extents : mapped fmt l ts offset boff len extents → 0 <= boff → 0 < len < 4294967296 → boff + len < 18446744073709551616 →
  _sg_read_finish extents (object_read <$> extents) = Ok (trim (fbyte <$> seqZ offset len)).
Proof.
  intros [_ He _ _ (pieces & Ht & Hp)] Hb Hlen Hov. pose proof Hl as [Hu _ _ _].
  destruct (tiles_keys _ _ _ Ht) as [Hs _]. destruct (tiles_bytes _ _ _ Ht) as [Hbytes _].
  replace (boff + len - boff) with len in Hbytes by lia.
  assert (fbyte <$> seqZ offset len = buffer_byte <$> seqZ boff len) as ->.
  { apply list_eq. intros i. rewrite !list_lookup_fmap. destruct (decide (Z.of_nat i < len)).
    - rewrite !lookup_seqZ_lt by lia. simpl. unfold buffer_byte. do 2 f_equal. lia.
    - by rewrite !lookup_seqZ_ge by lia. }
  assert (Forall (λ x : Z * Z, 0 < x.2 <= fl_stripe_unit l) pieces) as Hpn.
  { rewrite <- Hp. apply Forall_bind. eapply Forall_impl; [exact He|]. intros e Hok. exact (eo_pieces _ _ _ _ _ e Hok). }
  unfold _sg_read_finish. destruct (Nat.ltb_spec 1 (length extents)) as [Hmany|Hone].
  - destruct (add_results_ok extents [] He) as (r & -> & Or & Pr).
    { eapply Forall_impl; [exact He|]. intros e Hok. by apply object_read_small. }
    { simpl. rewrite app_nil_r, Hp. by apply sorted_NoDup. }
    { constructor. }
    cbn [mbind res_bind]. rewrite app_nil_r, Hp in Pr.
    assert (r = chunk buffer_byte <$> pieces) as ->.
    { apply ordered_unique; [done| |done]. unfold ordered, keys. rewrite <- list_fmap_compose. done. }
    destruct pieces as [|[b n] pieces] using rev_ind; [simpl in Ht; lia|]. clear IHpieces.
    pose proof (tiles_last _ _ _ _ _ Ht) as z_last.
    assert (Forall (λ x, closed (buffer_byte <$> seqZ x.1 x.2)) (pieces ++ [(b, n)])) as Hcl.
    { rewrite <- Hp. apply Forall_bind. eapply Forall_impl; [exact He|]. intros e Hok. destruct (extent_read e Hok) as [C _].
      by apply closed_pieces. }
    transitivity (assemble_loop false (reverse (chunk buffer_byte <$> (pieces ++ [(b, n)]))) (boff + len) (gather false [])).
    + unfold assemble_result. rewrite fmap_app, reverse_app. cbn [fmap list_fmap chunk fst snd]. cbn [reverse rev_append app].
      unfold chunk at 1 3. cbn [fst snd]. by rewrite u64_small, z_last by lia.
    + rewrite (assemble_loop_ok buffer_byte false _ boff _ [] Ht Hb Hov); [|simpl; lia|eapply Forall_impl; [exact Hpn|]; simpl; lia|done].
      rewrite app_nil_r. by replace (boff + len - boff) with len by lia.
  - destruct extents as [|e [|e' extents]]; [|simpl|simpl in Hone; lia].
    { simpl in Hp. apply Permutation_nil in Hp as ->. simpl in Ht. lia. }
    apply Forall_cons in He as [He _]. destruct (extent_read e He) as [C A]. simpl in Hp. rewrite app_nil_r in Hp. f_equal.
    assert (bytes_of (e_buffer_extents e) = seqZ boff len) as Eb.
    { assert (AntiSymm (=) Z.lt) by (intros x y ??; lia). rewrite <- Hbytes. apply (StronglySorted_unique Z.lt); [|rewrite Hbytes; apply seqZ_sorted|unfold bytes_of; by rewrite Hp].
      by apply (extent_sorted e). }
    rewrite <- A, Eb. rewrite Eb in C. symmetry. by apply trim_closed.
Qed.
End read.

(** ** Properties of the striping of files

    The range of a file is cut into one extent for each object it touches, and
    mapped back; the sizes of objects follow from the same map; and a read of
    the pieces returns the bytes of the range. *)

(** ** The names of objects *)

Definition hex_digit (c : Z) : Z := if c <? 58 then c - 48 else c - 87.

Fixpoint hex_value (s : list Z) : Z :=
  match s with [] => 0 | c :: s => hex_digit c * 16 ^ Z.of_nat (length s) + hex_value s end.

Lemma hex_digit_lower d : 0 <= d < 16 → hex_digit (hex_lower d) = d.
Proof.
  intros Hd. unfold hex_digit, hex_lower. destruct (Z.ltb_spec d 10).
  - rewrite (proj2 (Z.ltb_lt _ _)) by lia. lia.
  - rewrite (proj2 (Z.ltb_ge _ _)) by lia. lia.
Qed.

Lemma hex_digits_value fuel : ∀ n acc, 0 <= n < 16 ^ Z.of_nat fuel →
  hex_value (hex_digits fuel n acc) = n * 16 ^ Z.of_nat (length acc) + hex_value acc.
Proof.
  induction fuel as [|fuel IH]; intros n acc Hn; [change (16 ^ Z.of_nat 0) with 1 in Hn; simpl; replace n with 0 by lia; lia|].
  rewrite Nat2Z.inj_succ, Z.pow_succ_r in Hn by lia. cbn [hex_digits].
  pose proof (Z.div_mod n 16 ltac:(lia)). pose proof (Z.mod_pos_bound n 16 ltac:(lia)).
  assert (hex_value (hex_lower (n mod 16) :: acc) = n mod 16 * 16 ^ Z.of_nat (length acc) + hex_value acc) as Hv.
  { cbn [hex_value]. by rewrite hex_digit_lower by done. }
  destruct (Z.eqb_spec (n / 16) 0) as [E|E].
  - rewrite Hv. by replace (n mod 16) with n by lia.
  - rewrite IH, Hv; [|split; [apply Z.div_pos; lia|apply Z.div_lt_upper_bound; lia]].
    cbn [length]. rewrite Nat2Z.inj_succ, Z.pow_succ_r by lia. rewrite H at 3. ring.
Qed.

Lemma print_08llx_value n : 0 <= n < 18446744073709551616 → hex_value (print_08llx n) = n.
Proof.
  intros Hn. unfold print_08llx. induction (8 - length (print_llx n))%nat as [|k IH]; [|exact IH].
  cbn [replicate app]. unfold print_llx. rewrite hex_digits_value by done. simpl. lia.
Qed.

Lemma ino_format_inj ino a b : 0 <= a < 18446744073709551616 → 0 <= b < 18446744073709551616 →
  ino_format ino a = ino_format ino b → a = b.
Proof.
  intros Ha Hb E. unfold ino_format in E. apply app_inv_head in E. injection E as E.
  by rewrite <- (print_08llx_value a), <- (print_08llx_value b), E.
Qed.

(** ** Layouts *)

Definition typed_layout (l : ceph_file_layout) : Prop :=
  is_u32 (fl_stripe_unit l) ∧ is_u32 (fl_stripe_count l) ∧ is_u32 (fl_object_size l).

Lemma typed_layout_ok l : typed_layout l → ceph_file_layout_is_valid l = 1 → layout_ok l.
Proof. intros (? & ? & ?). by apply valid_layout_ok. Qed.

(** 64 KiB units over three objects of 128 KiB. *)
Definition three_wide : ceph_file_layout := FileLayout 65536 3 131072 7.

Lemma three_wide_typed : typed_layout three_wide.
Proof. unfold typed_layout, is_u32. simpl. lia. Qed.

(** ** The two maps *)

(** C12: A range of a file with a valid layout is mapped without a fault to one
    extent for each object it touches, in the order of the objects' names.  An
    extent holds exactly the bytes of its object that the striping map puts
    into the range; its pieces of the buffer hold them in order, at their
    distance from the start of the range; and all pieces together are a
    partition of the buffer. *)
Theorem file_to_extents_maps ino l ts offset len boff :
  typed_layout l → ceph_file_layout_is_valid l = 1 →
  0 <= offset → 0 <= boff → 0 < len → offset + len < 18446744073709551616 → boff + len < 18446744073709551616 →
  ∃ extents, file_to_extents (ino_format ino) l ts offset len [] boff = Ok extents ∧
             mapped (ino_format ino) l ts offset boff len extents.
Proof.
  intros Ht Hv. apply file_to_extents_ok; [by apply typed_layout_ok|]. apply ino_format_inj.
Qed.

Theorem file_to_extents_maps_witness :
  ∃ extents, file_to_extents (ino_format 4096) three_wide 0 100000 600000 [] 0 = Ok extents ∧
             mapped (ino_format 4096) three_wide 0 100000 0 600000 extents.
Proof. apply file_to_extents_maps; [exact three_wide_typed|reflexivity|lia..]. Defined.

(** C35: Every extent of a range is mapped back to the positions of the file
    that its pieces of the buffer stand for, in the same order. *)
Theorem extent_to_file_inverts ino l ts offset len boff extents e :
  typed_layout l → ceph_file_layout_is_valid l = 1 →
  0 <= offset → 0 <= boff → 0 < len → offset + len < 18446744073709551616 → boff + len < 18446744073709551616 →
  file_to_extents (ino_format ino) l ts offset len [] boff = Ok extents → e ∈ extents →
  ∃ ranges, extent_to_file l (e_objectno e) (e_offset e) (e_length e) [] = Ok ranges ∧
            bytes_of ranges = (λ b, offset + (b - boff)) <$> bytes_of (e_buffer_extents e).
Proof.
  intros Ht Hv Ho Hb Hlen H1 H2 E He. pose proof (typed_layout_ok l Ht Hv) as Hl.
  destruct (file_to_extents_ok (ino_format ino) l ts Hl (ino_format_inj ino) offset boff len) as (x & E' & Hm); try done.
  rewrite E in E'. injection E' as <-. destruct Hm as [_ Hok Hc _ _].
  pose proof (proj1 (Forall_forall _ _) Hok e He) as [_ _ _ Eno (R1 & R2 & R3) Eb _].
  pose proof (proj1 (Forall_forall _ _) Hc e He (e_offset e + e_length e - 1) ltac:(lia)) as Hlast.
  pose proof (lo_size l Hl). destruct (extent_to_file_ok l Hl (e_objectno e) (e_offset e) (e_length e)) as (r & Er & Hr & _); [lia..|].
  exists r. split; [done|]. rewrite Hr.
  transitivity ((λ p, unplace l p.1 p.2) <$> (pair (e_objectno e) <$> seqZ (e_offset e) (e_length e)));
    [by rewrite <- list_fmap_compose|]. rewrite <- Eb, <- list_fmap_compose.
  apply list_eq. intros i. rewrite !list_lookup_fmap. destruct (bytes_of _ !! i) as [b|]; [|done].
  cbn [fmap option_fmap option_map]. f_equal. by apply unplace_place.
Qed.

Definition three_extents : list ObjectExtent :=
  match file_to_extents (ino_format 4096) three_wide 0 100000 100000 [] 0 with Ok x => x | Fault _ => [] end.

Theorem extent_to_file_inverts_witness :
  ∃ ranges, extent_to_file three_wide 1 34464 31072 [] = Ok ranges ∧
            bytes_of ranges = (λ b, 100000 + (b - 0)) <$> bytes_of [(0, 31072)].
Proof.
  apply (extent_to_file_inverts 4096 three_wide 0 100000 100000 0 three_extents
    (ObjExtent (ino_format 4096 1) 1 34464 31072 0 (file_to_object_locator three_wide) [(0, 31072)]));
    [exact three_wide_typed|reflexivity|lia..|reflexivity|]. vm_compute. right. left.
Defined.

(** ** The sizes of objects *)

(** When a file is cut to [trunc_size], the size computed for an object
    keeps exactly the bytes that the striping map puts below [trunc_size]; the
    two special values are passed on. *)
Theorem object_truncate_size_exact l o ts :
  typed_layout l → ceph_file_layout_is_valid l = 1 → 0 <= o → 0 <= ts < 18446744073709551616 →
  if (ts =? 0) || (ts =? 18446744073709551615) then object_truncate_size l o ts = Ok ts
  else ∃ r, object_truncate_size l o ts = Ok r ∧ 0 <= r <= fl_object_size l ∧
            ∀ off, 0 <= off < fl_object_size l → off < r ↔ unplace l o off < ts.
Proof.
  intros Ht Hv Ho Hts. pose proof (typed_layout_ok l Ht Hv) as Hl.
  destruct (Z.eqb_spec ts 0) as [->|H0]; [done|]. destruct (Z.eqb_spec ts 18446744073709551615) as [->|H1]; [done|].
  cbn [orb]. apply object_truncate_size_ok; [done..|lia].
Qed.

Theorem object_truncate_size_exact_witness :
  ∃ r, object_truncate_size three_wide 1 300000 = Ok r ∧ 0 <= r <= 131072 ∧
       ∀ off, 0 <= off < 131072 → off < r ↔ unplace three_wide 1 off < 300000.
Proof. apply (object_truncate_size_exact three_wide 1 300000); [exact three_wide_typed|reflexivity|lia..]. Defined.

(** [get_num_objects] counts the objects that hold a byte of a file of
    that size: they are the first ones.  The size of an object set must fit
    32 bits. *)
Theorem get_num_objects_exact l size :
  typed_layout l → ceph_file_layout_is_valid l = 1 → fl_stripe_count l * fl_object_size l < 4294967296 →
  0 <= size → size + fl_stripe_count l * fl_object_size l < 18446744073709551616 →
  ∃ n, get_num_objects l size = Ok n ∧ ∀ o, 0 <= o → o < n ↔ ∃ pos, 0 <= pos < size ∧ (place l pos).1 = o.
Proof.
  intros Ht Hv Hp Hs Hov. pose proof (typed_layout_ok l Ht Hv) as Hl.
  destruct (get_num_objects_ok l Hl size Hp Hs Hov) as (n & E & Hn). exists n. split; [done|]. intros o Ho.
  rewrite (Hn o Ho). pose proof (lo_size l Hl). split.
  - intros Hlt. exists (unplace l o 0). pose proof (unplace_nonneg l Hl o 0 Ho). split; [lia|].
    by rewrite place_unplace by (done || lia).
  - intros (pos & Hpos & <-). pose proof (place_range l Hl pos ltac:(lia)) as [_ [H1 H2]].
    pose proof (unplace_place l Hl pos) as Eu. destruct (Z.eq_dec (place l pos).2 0) as [E0|E0]; [rewrite E0 in Eu; lia|].
    pose proof (unplace_mono l Hl (place l pos).1 0 (place l pos).2). lia.
Qed.

Theorem get_num_objects_exact_witness :
  ∃ n, get_num_objects three_wide 300000 = Ok n ∧ ∀ o, 0 <= o → o < n ↔ ∃ pos, 0 <= pos < 300000 ∧ (place three_wide pos).1 = o.
Proof. apply get_num_objects_exact; [exact three_wide_typed|reflexivity|cbn; lia..]. Defined.

(** The size of an object set is computed in 32 bits: a valid layout of 1024
    objects of 4 MiB divides by zero. *)
Example get_num_objects_overflows :
  ceph_file_layout_is_valid (FileLayout 65536 1024 4194304 1) = 1 ∧
  get_num_objects (FileLayout 65536 1024 4194304 1) 100 = Fault DivByZero.
Proof. split; reflexivity. Qed.

(** ** Reads *)

(** C13: For a range of less than 4 GiB (the length of a bufferlist has 32 bits) of
    a file with a valid layout: if every object returns the bytes it has of its
    extent, the scattered read returns the bytes of the range: what the striping
    map puts there, zeros where an object ends early, and nothing after the
    last byte. *)
Theorem striped_read_correct ino l ts offset len (obj : Z → list Z) :
  typed_layout l → ceph_file_layout_is_valid l = 1 → 0 <= offset → 0 < len < 4294967296 → offset + len < 18446744073709551616 →
  ∃ extents, file_to_extents (ino_format ino) l ts offset len [] 0 = Ok extents ∧
             _sg_read_finish extents (object_read obj <$> extents) = Ok (trim (fbyte l obj <$> seqZ offset len)).
Proof.
  intros Ht Hv Ho Hlen Hov. pose proof (typed_layout_ok l Ht Hv) as Hl.
  destruct (file_to_extents_ok (ino_format ino) l ts Hl (ino_format_inj ino) offset 0 len) as (x & E & Hm); [lia..|].
  exists x. split; [done|]. eapply sg_read_ok; [done..|lia|lia|lia].
Qed.

Theorem striped_read_correct_witness :
  ∃ extents, file_to_extents (ino_format 4096) three_wide 0 65530 20 [] 0 = Ok extents ∧
             _sg_read_finish extents (object_read (λ o, if o =? 0 then replicate (Z.to_nat 65534) 1 else [2; 3]) <$> extents) =
             Ok (trim (fbyte three_wide (λ o, if o =? 0 then replicate (Z.to_nat 65534) 1 else [2; 3]) <$> seqZ 65530 20)).
Proof. apply striped_read_correct; [exact three_wide_typed|reflexivity|lia..]. Defined.
