(* ===== verification/Flock.v ===== *)
(** * Advisory file locks (src/mds/flock.cc, flock.h)

    [ceph_lock_state_t]: the byte-range locks held on a file and those waiting,
    in multimaps ordered by the first byte.  Lists of iterators into a multimap
    are lists of identities: an identity names a node until it is erased. *)

From S2P Require Import Prelude StdMap.

Definition CEPH_LOCK_SHARED : Z := 1.
Definition CEPH_LOCK_EXCL : Z := 2.
Definition CEPH_LOCK_UNLOCK : Z := 4.

Record ceph_filelock := Filelock {
  fl_start : Z;
  fl_length : Z;
  fl_client : Z;
  fl_owner : Z;
  fl_pid : Z;
  fl_type : Z;
}.

Definition with_start (v : Z) (l : ceph_filelock) : ceph_filelock :=
  Filelock v (fl_length l) (fl_client l) (fl_owner l) (fl_pid l) (fl_type l).
Definition with_length (v : Z) (l : ceph_filelock) : ceph_filelock :=
  Filelock (fl_start l) v (fl_client l) (fl_owner l) (fl_pid l) (fl_type l).
Definition with_type (v : Z) (l : ceph_filelock) : ceph_filelock :=
  Filelock (fl_start l) (fl_length l) (fl_client l) (fl_owner l) (fl_pid l) v.

Definition ceph_filelock_owner_equal (l r : ceph_filelock) : bool :=
  if negb (fl_client l =? fl_client r) || negb (fl_owner l =? fl_owner r) then false
  else if negb (Z.land (fl_owner l) (Z.shiftl 1 63) =? 0) then true
  else fl_pid l =? fl_pid r.

(** ** The multimaps *)

(** A node of [held_locks]: its identity, its key and its lock. *)
Record node := Node { n_id : Z; n_first : Z; n_second : ceph_filelock }.

Record ceph_lock_state_t := LockState {
  held_locks : list node;
  next_id : Z;
  waiting_locks : list (Z * ceph_filelock);
  client_held_lock_counts : list (Z * Z);
  client_waiting_lock_counts : list (Z * Z);
}.

Definition with_held (v : list node) (s : ceph_lock_state_t) : ceph_lock_state_t :=
  LockState v (next_id s) (waiting_locks s) (client_held_lock_counts s) (client_waiting_lock_counts s).
Definition with_waiting (v : list (Z * ceph_filelock)) (s : ceph_lock_state_t) : ceph_lock_state_t :=
  LockState (held_locks s) (next_id s) v (client_held_lock_counts s) (client_waiting_lock_counts s).
Definition with_held_counts (v : list (Z * Z)) (s : ceph_lock_state_t) : ceph_lock_state_t :=
  LockState (held_locks s) (next_id s) (waiting_locks s) v (client_waiting_lock_counts s).
Definition with_waiting_counts (v : list (Z * Z)) (s : ceph_lock_state_t) : ceph_lock_state_t :=
  LockState (held_locks s) (next_id s) (waiting_locks s) (client_held_lock_counts s) v.

(** [insert]: after the nodes of the same key. *)
Fixpoint insert_node (n : node) (l : list node) : list node :=
  match l with
  | [] => [n]
  | m :: l => if n_first m <=? n_first n then m :: insert_node n l else n :: m :: l
  end.

Fixpoint insert_waiting (k : Z) (fl : ceph_filelock) (l : list (Z * ceph_filelock)) : list (Z * ceph_filelock) :=
  match l with
  | [] => [(k, fl)]
  | m :: l => if m.1 <=? k then m :: insert_waiting k fl l else (k, fl) :: m :: l
  end.

(** The lock an iterator points to; an iterator to an erased node is a fault. *)
Definition at_ (i : Z) : M ceph_lock_state_t ceph_filelock := λ s,
  match find (λ n, n_id n =? i) (held_locks s) with
  | Some n => Ok (n_second n, s)
  | None => Fault OutOfBounds
  end.

Definition hold (fl : ceph_filelock) : M ceph_lock_state_t unit := modify (λ s,
  LockState (insert_node (Node (next_id s) (fl_start fl) fl) (held_locks s)) (next_id s + 1)
    (waiting_locks s) (client_held_lock_counts s) (client_waiting_lock_counts s)).

Definition erase_node (i : Z) : M ceph_lock_state_t unit :=
  modify (λ s, with_held (filter (λ n, n_id n ≠ i) (held_locks s)) s).

Definition set_node_length (i v : Z) : M ceph_lock_state_t unit := modify (λ s,
  with_held ((λ n, if n_id n =? i then Node (n_id n) (n_first n) (with_length v (n_second n)) else n) <$> held_locks s) s).

(** [++counts[c]], [--counts[c]] and [if (!counts[c]) counts.erase(c)]. *)
Definition count_of (m : list (Z * Z)) (c : Z) : Z := default 0 (map_find m c).
Definition count_up (d c : Z) : M ceph_lock_state_t unit := modify (λ s,
  with_held_counts (map_put (client_held_lock_counts s) c (s32 (count_of (client_held_lock_counts s) c + d))) s).
Definition drop_zero_count (c : Z) : M ceph_lock_state_t unit := modify (λ s,
  if count_of (client_held_lock_counts s) c =? 0
  then with_held_counts (map_del (client_held_lock_counts s) c) s else s).

(** ** Waiting locks *)

(** From [waiting_locks.find(fl.start)] on. *)
Fixpoint is_waiting_from (fl : ceph_filelock) (l : list (Z * ceph_filelock)) : bool :=
  match l with
  | [] => false
  | p :: l =>
      if fl_start p.2 >? fl_start fl then false
      else if (fl_length p.2 =? fl_length fl) && ceph_filelock_owner_equal p.2 fl then true
      else is_waiting_from fl l
  end.

Fixpoint find_key (k : Z) (l : list (Z * ceph_filelock)) : list (Z * ceph_filelock) * list (Z * ceph_filelock) :=
  match l with
  | [] => ([], [])
  | p :: l' => if p.1 =? k then ([], l) else let '(a, b) := find_key k l' in (p :: a, b)
  end.

Definition is_waiting (fl : ceph_filelock) (s : ceph_lock_state_t) : bool :=
  is_waiting_from fl (find_key (fl_start fl) (waiting_locks s)).2.

(** The list without the lock, and whether it was there. *)
Fixpoint remove_waiting_from (fl : ceph_filelock) (l : list (Z * ceph_filelock)) : list (Z * ceph_filelock) * bool :=
  match l with
  | [] => ([], false)
  | p :: l' =>
      if fl_start p.2 >? fl_start fl then (l, false)
      else if (fl_length p.2 =? fl_length fl) && ceph_filelock_owner_equal p.2 fl then (l', true)
      else let '(r, b) := remove_waiting_from fl l' in (p :: r, b)
  end.

Definition remove_waiting (fl : ceph_filelock) : M ceph_lock_state_t unit := modify (λ s,
  let '(before, from) := find_key (fl_start fl) (waiting_locks s) in
  let '(rest, found) := remove_waiting_from fl from in
  if (found : bool) then
    let counts := client_waiting_lock_counts s in
    let counts := map_put counts (fl_client fl) (s32 (count_of counts (fl_client fl) - 1)) in
    let counts := if count_of counts (fl_client fl) =? 0 then map_del counts (fl_client fl) else counts in
    with_waiting_counts counts (with_waiting (before ++ rest) s)
  else s).

(** ** Overlaps *)

Definition share_space_range (n : node) (start end_ : Z) : bool :=
  ((n_first n >=? start) && (n_first n <=? end_)) ||
  ((n_first n <? start) &&
   ((u64 (u64 (n_first n + fl_length (n_second n)) - 1) >=? start) || (0 =? fl_length (n_second n)))).

Definition share_space (n : node) (lock : ceph_filelock) : bool :=
  let end_ := if negb (fl_length lock =? 0) then u64 (fl_start lock + u64 (fl_length lock - 1)) else u64 (-1) in
  share_space_range n (fl_start lock) end_.

(** [get_last_before]: the last node not after [end_], or else the first; here
    the nodes from it back to the first. *)
Fixpoint not_after (end_ : Z) (l : list node) : list node :=
  match l with
  | [] => []
  | n :: l => if n_first n <=? end_ then n :: not_after end_ l else []
  end.

Definition get_last_before (end_ : Z) (l : list node) : list node :=
  match not_after end_ l with
  | [] => take 1 l
  | p => reverse p
  end.

(** The nodes that overlap, and those of the same owner that touch. *)
Fixpoint overlap_loop (lock neighbor_check_lock : ceph_filelock) (self_neighbors : bool) (back : list node) (overlaps neighbors : list Z) :
    list Z * list Z :=
  match back with
  | [] => (overlaps, neighbors)
  | n :: back =>
      let '(overlaps, neighbors) :=
        if share_space n lock then (n_id n :: overlaps, neighbors)
        else if self_neighbors && ceph_filelock_owner_equal neighbor_check_lock (n_second n) && share_space n neighbor_check_lock
        then (overlaps, n_id n :: neighbors) else (overlaps, neighbors) in
      if (n_first n <? fl_start lock) && (CEPH_LOCK_EXCL =? fl_type (n_second n)) then (overlaps, neighbors)
      else overlap_loop lock neighbor_check_lock self_neighbors back overlaps neighbors
  end.

Definition get_overlapping_locks (lock : ceph_filelock) (self_neighbors : bool) (s : ceph_lock_state_t) : list Z * list Z :=
  let neighbor_check_lock :=
    if negb (fl_start lock =? 0) then
      let l := with_start (u64 (fl_start lock - 1)) lock in
      if negb (fl_length l =? 0) then with_length (u64 (fl_length l + 2)) l else l
    else if negb (fl_length lock =? 0) then with_length (u64 (fl_length lock + 1)) lock else lock in
  let endpoint := if negb (fl_length lock =? 0) then u64 (fl_start lock + fl_length lock) else u64 (-1) in
  overlap_loop lock neighbor_check_lock self_neighbors (get_last_before endpoint (held_locks s)) [] [].

(** The rest, and the locks of the owner. *)
Fixpoint split_by_owner (owner : ceph_filelock) (locks : list Z) : M ceph_lock_state_t (list Z * list Z) :=
  match locks with
  | [] => mret ([], [])
  | i :: locks =>
      l ← at_ i;
      '(rest, owned) ← split_by_owner owner locks;
      mret (if ceph_filelock_owner_equal l owner then (rest, i :: owned) else (i :: rest, owned))
  end.

Fixpoint contains_exclusive_lock (locks : list Z) : M ceph_lock_state_t (option ceph_filelock) :=
  match locks with
  | [] => mret None
  | i :: locks => l ← at_ i; if CEPH_LOCK_EXCL =? fl_type l then mret (Some l) else contains_exclusive_lock locks
  end.

(** ** Making room for a lock *)

(** One old lock: the new lock may grow over it, or it is cut. *)
Definition adjust_old (new_lock_to_end : bool) (i : Z) (new_lock : ceph_filelock) : M ceph_lock_state_t ceph_filelock :=
  old ← at_ i;
  let old_lock_to_end := 0 =? fl_length old in
  let old_lock_start := fl_start old in
  let old_lock_end := u64 (u64 (fl_start old + fl_length old) - 1) in
  let new_lock_start := fl_start new_lock in
  let new_lock_end := u64 (u64 (fl_start new_lock + fl_length new_lock) - 1) in
  let c := fl_client old in
  let shrink_or_erase :=
    if old_lock_start <? new_lock_start then set_node_length i (u64 (new_lock_start - old_lock_start))
    else _ ← erase_node i; count_up (-1) c in
  new_lock ←
    (if new_lock_to_end || old_lock_to_end then
       if fl_type old =? fl_type new_lock then
         _ ← erase_node i;
         _ ← count_up (-1) c;
         mret (with_length 0 (with_start (if new_lock_start <? old_lock_start then new_lock_start else old_lock_start) new_lock))
       else if new_lock_to_end then _ ← shrink_or_erase; mret new_lock
       else
         _ ← hold (with_start (u64 (new_lock_end + 1)) old);
         _ ← count_up 1 c;
         _ ← shrink_or_erase; mret new_lock
     else if fl_type old =? fl_type new_lock then
       let start := if old_lock_start <? new_lock_start then old_lock_start else new_lock_start in
       let new_end := s32 (if new_lock_end >? old_lock_end then new_lock_end else old_lock_end) in
       _ ← erase_node i;
       _ ← count_up (-1) c;
       mret (with_length (u64 (u64 (u64 new_end - start) + 1)) (with_start start new_lock))
     else
       _ ← (if old_lock_end >? new_lock_end then
              let start := u64 (new_lock_end + 1) in
              _ ← hold (with_length (u64 (u64 (old_lock_end - start) + 1)) (with_start start old));
              count_up 1 c
            else mret tt);
       _ ← shrink_or_erase; mret new_lock);
  _ ← drop_zero_count c; mret new_lock.

(** One neighbor: a lock of the same type is joined. *)
Definition join_neighbor (i : Z) (new_lock : ceph_filelock) : M ceph_lock_state_t ceph_filelock :=
  old ← at_ i;
  let c := fl_client old in
  let old_meets := u64 (fl_start old + fl_length old) =? fl_start new_lock in
  let new_meets := u64 (fl_start new_lock + fl_length new_lock) =? fl_start old in
  new_lock ←
    (if fl_type old =? fl_type new_lock then
       new_lock ←
         (if 0 =? fl_length new_lock then
            if old_meets then mret (with_start (fl_start old) new_lock) else lift (Fault AssertFailed)
          else if 0 =? fl_length old then
            if new_meets then mret (with_length 0 new_lock) else lift (Fault AssertFailed)
          else mret (if old_meets then with_length (u64 (fl_length old + fl_length new_lock)) (with_start (fl_start old) new_lock)
                     else if new_meets then with_length (u64 (fl_length old + fl_length new_lock)) new_lock
                     else new_lock));
       _ ← erase_node i;
       _ ← count_up (-1) c;
       mret new_lock
     else mret new_lock);
  _ ← drop_zero_count c; mret new_lock.

Fixpoint each_lock (step : Z → ceph_filelock → M ceph_lock_state_t ceph_filelock) (iters : list Z) (new_lock : ceph_filelock) :
    M ceph_lock_state_t ceph_filelock :=
  match iters with
  | [] => mret new_lock
  | i :: iters => new_lock ← step i new_lock; each_lock step iters new_lock
  end.

Definition adjust_locks (old_locks : list Z) (new_lock : ceph_filelock) (neighbor_locks : list Z) : M ceph_lock_state_t ceph_filelock :=
  let new_lock_to_end := 0 =? fl_length new_lock in
  new_lock ← each_lock (adjust_old new_lock_to_end) old_locks new_lock;
  each_lock join_neighbor neighbor_locks new_lock.

(** ** The operations *)

(** Whether the lock was set, and the lock as it is then. *)
Definition add_lock (new_lock : ceph_filelock) (wait_on_fail replay : bool) : M ceph_lock_state_t (bool * ceph_filelock) :=
  '(overlapping_locks, neighbor_locks) ← gets (get_overlapping_locks new_lock true);
  '(overlapping_locks, self_overlapping_locks) ← split_by_owner new_lock overlapping_locks;
  let wait : M ceph_lock_state_t (bool * ceph_filelock) :=
    _ ← (if wait_on_fail && negb replay then modify (λ s, with_waiting (insert_waiting (fl_start new_lock) new_lock (waiting_locks s)) s)
         else mret tt);
    mret (false, new_lock) in
  let set : M ceph_lock_state_t (bool * ceph_filelock) :=
    _ ← remove_waiting new_lock;
    new_lock ← adjust_locks self_overlapping_locks new_lock neighbor_locks;
    _ ← hold new_lock;
    mret (true, new_lock) in
  '(ret, new_lock) ←
    (if negb (bool_decide (overlapping_locks = [])) then
       if CEPH_LOCK_EXCL =? fl_type new_lock then wait
       else
         blocking ← contains_exclusive_lock overlapping_locks;
         match blocking with Some _ => wait | None => set end
     else set);
  _ ← (if (ret : bool) then count_up 1 (fl_client new_lock)
       else if wait_on_fail && negb replay then modify (λ s,
         with_waiting_counts (map_put (client_waiting_lock_counts s) (fl_client new_lock)
           (s32 (count_of (client_waiting_lock_counts s) (fl_client new_lock) + 1))) s)
       else mret tt);
  mret (ret, new_lock).

(** The first lock that blocks, or the lock with the type [UNLOCK]. *)
Definition look_for_lock (testing_lock : ceph_filelock) : M ceph_lock_state_t ceph_filelock :=
  '(overlapping_locks, _) ← gets (get_overlapping_locks testing_lock false);
  '(overlapping_locks, _) ← split_by_owner testing_lock overlapping_locks;
  match overlapping_locks with
  | i :: _ =>
      if CEPH_LOCK_EXCL =? fl_type testing_lock then at_ i
      else
        blocking ← contains_exclusive_lock overlapping_locks;
        match blocking with
        | Some l => mret l
        | None => mret (with_type CEPH_LOCK_UNLOCK testing_lock)
        end
  | [] => mret (with_type CEPH_LOCK_UNLOCK testing_lock)
  end.

(** One lock of the owner that is cut by a removal. *)
Definition cut_lock (removal_lock : ceph_filelock) (i : Z) : M ceph_lock_state_t unit :=
  let remove_to_end := 0 =? fl_length removal_lock in
  let removal_start := fl_start removal_lock in
  let removal_end := u64 (u64 (removal_start + fl_length removal_lock) - 1) in
  old ← at_ i;
  let old_lock_end := u64 (u64 (fl_start old + fl_length old) - 1) in
  let c := fl_client old in
  let shrink_or_erase :=
    if fl_start old <? removal_start then set_node_length i (u64 (removal_start - fl_start old))
    else _ ← erase_node i; count_up (-1) c in
  _ ← (if remove_to_end then shrink_or_erase
       else if 0 =? fl_length old then
         _ ← hold (with_start (u64 (removal_end + 1)) old);
         _ ← count_up 1 c;
         shrink_or_erase
       else
         _ ← (if old_lock_end >? removal_end then
                let start := u64 (removal_end + 1) in
                _ ← hold (with_length (u64 (u64 (old_lock_end - start) + 1)) (with_start start old));
                count_up 1 c
              else mret tt);
         shrink_or_erase);
  drop_zero_count c.

Fixpoint cut_locks (removal_lock : ceph_filelock) (iters : list Z) : M ceph_lock_state_t unit :=
  match iters with
  | [] => mret tt
  | i :: iters => _ ← cut_lock removal_lock i; cut_locks removal_lock iters
  end.

Definition remove_lock (removal_lock : ceph_filelock) : M ceph_lock_state_t unit :=
  '(overlapping_locks, _) ← gets (get_overlapping_locks removal_lock false);
  '(_, self_overlapping_locks) ← split_by_owner removal_lock overlapping_locks;
  cut_locks removal_lock self_overlapping_locks.

Definition remove_all_from (client : Z) (s : ceph_lock_state_t) : bool * ceph_lock_state_t :=
  let '(cleared_any, s) :=
    if map_count (client_held_lock_counts s) client then
      (true, with_held_counts (map_del (client_held_lock_counts s) client)
               (with_held (filter (λ n, fl_client (n_second n) ≠ client) (held_locks s)) s))
    else (false, s) in
  if map_count (client_waiting_lock_counts s) client then
    (cleared_any, with_waiting_counts (map_del (client_waiting_lock_counts s) client)
                    (with_waiting (filter (λ p, fl_client p.2 ≠ client) (waiting_locks s)) s))
  else (cleared_any, s).

Definition no_locks : ceph_lock_state_t := LockState [] 0 [] [] [].
