(* ===== verification/FlockSpec.v ===== *)
(** * What the lock state means

    [holds] is the view of a set of held locks: which owner has which byte,
    and how.  The lemmas describe the searches for overlapping locks and the
    steps that change the multimap. *)

From stdpp Require Import sorting.
From S2P Require Import Prelude StdMap Flock.

(** Old clients are told apart by the process as well. *)
Definition owner_id (l : ceph_filelock) : Z * Z * option Z :=
  (fl_client l, fl_owner l, if Z.land (fl_owner l) (Z.shiftl 1 63) =? 0 then Some (fl_pid l) else None).

Lemma owner_equal_ok l r : ceph_filelock_owner_equal l r = true ↔ owner_id l = owner_id r.
Proof.
  unfold ceph_filelock_owner_equal, owner_id.
  destruct (Z.eqb_spec (fl_client l) (fl_client r)) as [->|Hc], (Z.eqb_spec (fl_owner l) (fl_owner r)) as [->|Ho]; simpl;
    [|split; [done|congruence]..].
  destruct (_ =? 0); simpl; [rewrite Z.eqb_eq|done]. split; [by intros ->|congruence].
Qed.

(** The bytes of a lock; a length of 0 is the rest of the file. *)
Definition in_lock (l : ceph_filelock) (p : Z) : Prop :=
  fl_start l <= p ∧ (fl_length l = 0 ∨ p < fl_start l + fl_length l).

Definition overlap (l k : ceph_filelock) : Prop :=
  (fl_length k = 0 ∨ fl_start l < fl_start k + fl_length k) ∧ (fl_length l = 0 ∨ fl_start k < fl_start l + fl_length l).

(** Locks that begin below 2^31 and, unless they have no end, end there: the
    code computes the end of a merged lock as an [int]. *)
Definition LIMIT : Z := 2147483648.

Record range_ok (l : ceph_filelock) : Prop := {
  ro_start : 0 <= fl_start l <= LIMIT;
  ro_length : 0 <= fl_length l;
  ro_end : fl_start l + fl_length l <= LIMIT + 1;
}.

Record lock_ok (l : ceph_filelock) : Prop := {
  lk_start : 0 <= fl_start l <= LIMIT;
  lk_length : 0 <= fl_length l;
  lk_end : fl_start l + fl_length l <= LIMIT;
  lk_type : fl_type l = CEPH_LOCK_SHARED ∨ fl_type l = CEPH_LOCK_EXCL;
}.

Lemma lock_range l : lock_ok l → range_ok l.
Proof. intros []. constructor; lia. Qed.

Lemma overlap_in l k : 0 <= fl_length l → 0 <= fl_length k → overlap l k ↔ ∃ p, in_lock l p ∧ in_lock k p.
Proof.
  unfold overlap, in_lock. intros Hl Hk. split; [|intros (p & ? & ?); lia].
  intros [H1 H2]. exists (Z.max (fl_start l) (fl_start k)). lia.
Qed.

Lemma overlap_sym l k : overlap l k → overlap k l.
Proof. unfold overlap. tauto. Qed.

Lemma share_space_ok n k : n_first n = fl_start (n_second n) → lock_ok (n_second n) → range_ok k →
  share_space n k = true ↔ overlap (n_second n) k.
Proof.
  intros Hf [H1 H2 H3 _] [K1 K2 K3]. unfold LIMIT in *. unfold share_space, share_space_range, overlap. rewrite Hf.
  destruct (Z.eqb_spec (fl_length k) 0) as [Ek|Ek]; cbn [negb].
  - change (u64 (-1)) with 18446744073709551615. rewrite (u64_small (_ + fl_length (n_second n))) by lia.
    destruct (Z.eqb_spec 0 (fl_length (n_second n))) as [En|En].
    + rewrite orb_true_r, orb_true_iff, !andb_true_iff, Z.geb_le, Z.leb_le, Z.ltb_lt. lia.
    + rewrite u64_small by lia. rewrite orb_false_r, orb_true_iff, !andb_true_iff, !Z.geb_le, Z.leb_le, Z.ltb_lt. lia.
  - rewrite (u64_small (fl_length k - 1)), (u64_small (fl_start k + _)), (u64_small (_ + fl_length (n_second n))) by lia.
    destruct (Z.eqb_spec 0 (fl_length (n_second n))) as [En|En].
    + rewrite orb_true_r, orb_true_iff, !andb_true_iff, Z.geb_le, Z.leb_le, Z.ltb_lt. lia.
    + rewrite u64_small by lia. rewrite orb_false_r, orb_true_iff, !andb_true_iff, !Z.geb_le, Z.leb_le, Z.ltb_lt. lia.
Qed.

(** ** Held locks *)

Record basic (h : list node) (nid : Z) : Prop := {
  ba_ids : NoDup (n_id <$> h);
  ba_fresh : ∀ n, n ∈ h → n_id n < nid;
  ba_node : ∀ n, n ∈ h → n_first n = fl_start (n_second n) ∧ lock_ok (n_second n);
  ba_sorted : StronglySorted (λ n m, n_first n <= n_first m) h;
}.

(** An owner's locks do not overlap; locks of different owners only if both
    are shared. *)
Definition apart (h : list node) : Prop :=
  ∀ n m, n ∈ h → m ∈ h → owner_id (n_second n) = owner_id (n_second m) → overlap (n_second n) (n_second m) → n = m.
Definition compatible (h : list node) : Prop :=
  ∀ n m, n ∈ h → m ∈ h → owner_id (n_second n) ≠ owner_id (n_second m) → overlap (n_second n) (n_second m) →
    fl_type (n_second n) ≠ CEPH_LOCK_EXCL.

Definition holds (h : list node) (o : Z * Z * option Z) (p t : Z) : Prop :=
  ∃ n, n ∈ h ∧ owner_id (n_second n) = o ∧ in_lock (n_second n) p ∧ fl_type (n_second n) = t.

Definition number (c : Z) (h : list node) : Z := Z.of_nat (length (filter (λ n, fl_client (n_second n) = c) h)).

Record counted (h : list node) (counts : list (Z * Z)) : Prop := {
  co_ordered : ordered counts;
  co_counts : ∀ c, count_of counts c = s32 (number c h);
}.

Lemma basic_unique h nid n m : basic h nid → n ∈ h → m ∈ h → n_id n = n_id m → n = m.
Proof.
  intros [Hnd _ _ _] Hn Hm E. induction h as [|x h IH]; [by apply elem_of_nil in Hn|].
  simpl in Hnd. apply NoDup_cons in Hnd as [Hx Hnd]. apply elem_of_cons in Hn as [->|Hn], Hm as [->|Hm]; [done| | |by apply IH].
  - exfalso. apply Hx. rewrite E. apply list_elem_of_fmap. by exists m.
  - exfalso. apply Hx. rewrite <- E. apply list_elem_of_fmap. by exists n.
Qed.

Lemma find_node h nid n : basic h nid → n ∈ h → find (λ m, n_id m =? n_id n) h = Some n.
Proof.
  intros Hb Hn. destruct (find _ h) as [m|] eqn:E.
  - apply find_some in E as [Hm E]. apply Z.eqb_eq in E. f_equal. apply (basic_unique h nid); [done| |done|done].
    by apply list_elem_of_In.
  - exfalso. apply list_elem_of_In in Hn. pose proof (find_none _ _ E n Hn) as H. simpl in H. rewrite Z.eqb_refl in H. done.
Qed.

Lemma at_ok s n : basic (held_locks s) (next_id s) → n ∈ held_locks s → at_ (n_id n) s = Ok (n_second n, s).
Proof. intros Hb Hn. unfold at_. by rewrite (find_node _ (next_id s)). Qed.

(** ** The primitive steps *)

Lemma insert_node_perm n h : insert_node n h ≡ₚ n :: h.
Proof.
  induction h as [|m h IH]; simpl; [done|]. destruct (_ <=? _); [|done]. etrans; [apply perm_skip, IH|apply perm_swap].
Qed.

Lemma insert_node_sorted n h :
  StronglySorted (λ n m, n_first n <= n_first m) h → StronglySorted (λ n m, n_first n <= n_first m) (insert_node n h).
Proof.
  induction h as [|m h IH]; simpl; [repeat constructor|]. intros [Hs Hm]%StronglySorted_inv.
  destruct (Z.leb_spec (n_first m) (n_first n)).
  - constructor; [by apply IH|]. rewrite insert_node_perm. by constructor.
  - constructor; [by constructor|]. constructor; [lia|]. eapply Forall_impl; [exact Hm|]. simpl. lia.
Qed.

Lemma insert_basic h nid fl : basic h nid → lock_ok fl → basic (insert_node (Node nid (fl_start fl) fl) h) (nid + 1).
Proof.
  intros [H1 H2 H3 H4] Hfl. constructor.
  - rewrite insert_node_perm. simpl. constructor; [|done]. intros (m & E & Hm)%list_elem_of_fmap. specialize (H2 m Hm). lia.
  - intros n. rewrite insert_node_perm, elem_of_cons. intros [->|Hn]; [simpl; lia|]. specialize (H2 n Hn). lia.
  - intros n. rewrite insert_node_perm, elem_of_cons. intros [->|Hn]; [done|by apply H3].
  - by apply insert_node_sorted.
Qed.

Lemma sublist_sorted {A} (R : A → A → Prop) l k : sublist l k → StronglySorted R k → StronglySorted R l.
Proof.
  induction 1 as [|x l k Hs IH|x l k Hs IH]; intros H; [constructor| |].
  - apply StronglySorted_inv in H as [H Hx]. constructor; [by apply IH|]. apply Forall_forall. intros y Hy.
    apply (proj1 (Forall_forall _ _) Hx). by apply (elem_of_sublist l k y).
  - apply StronglySorted_inv in H as [H _]. by apply IH.
Qed.

Lemma erase_basic h nid i : basic h nid → basic (filter (λ n, n_id n ≠ i) h) nid.
Proof.
  intros [H1 H2 H3 H4]. pose proof (sublist_filter (λ n, n_id n ≠ i) h) as Hs. constructor.
  - eapply sublist_NoDup; [done|]. by apply fmap_sublist.
  - intros n [_ Hn]%list_elem_of_filter. by apply H2.
  - intros n [_ Hn]%list_elem_of_filter. by apply H3.
  - by eapply sublist_sorted.
Qed.

Definition resize (i v : Z) (n : node) : node :=
  if n_id n =? i then Node (n_id n) (n_first n) (with_length v (n_second n)) else n.

Lemma resize_basic h nid m v : basic h nid → m ∈ h → lock_ok (with_length v (n_second m)) → basic (resize (n_id m) v <$> h) nid.
Proof.
  intros Hb Hm Hv. pose proof Hb as [H1 H2 H3 H4]. constructor.
  - rewrite <- list_fmap_compose. rewrite (list_fmap_ext _ n_id); [done|]. intros k n _. unfold compose, resize. by destruct (_ =? _).
  - intros n (x & -> & Hx)%list_elem_of_fmap. specialize (H2 x Hx). unfold resize. by destruct (_ =? _).
  - intros n (x & -> & Hx)%list_elem_of_fmap. unfold resize. destruct (Z.eqb_spec (n_id x) (n_id m)) as [E|E]; [|by apply H3].
    rewrite (basic_unique h nid x m Hb Hx Hm E). split; [exact (proj1 (H3 m Hm))|done].
  - clear -H4. induction H4 as [|n h Hs IH Hn]; [constructor|]. rewrite fmap_cons. constructor; [done|].
    apply Forall_fmap. eapply Forall_impl; [exact Hn|]. intros x Hx. unfold compose, resize. by destruct (_ =? _), (_ =? _).
Qed.

(** Membership after each step. *)
Lemma elem_of_insert n m (h : list node) : n ∈ insert_node m h ↔ n = m ∨ n ∈ h.
Proof. by rewrite insert_node_perm, elem_of_cons. Qed.

Lemma elem_of_erase n i (h : list node) : n ∈ filter (λ n, n_id n ≠ i) h ↔ n ∈ h ∧ n_id n ≠ i.
Proof. rewrite list_elem_of_filter. tauto. Qed.

Lemma elem_of_resize h nid n m v : basic h nid → m ∈ h →
  n ∈ resize (n_id m) v <$> h ↔ (n ∈ h ∧ n_id n ≠ n_id m) ∨ n = Node (n_id m) (n_first m) (with_length v (n_second m)).
Proof.
  intros Hb Hm. rewrite list_elem_of_fmap. unfold resize. split.
  - intros (x & -> & Hx). destruct (Z.eqb_spec (n_id x) (n_id m)) as [E|E]; [|by left].
    right. by rewrite (basic_unique h nid x m Hb Hx Hm E).
  - intros [[Hn E]| ->].
    + exists n. by rewrite (proj2 (Z.eqb_neq _ _)).
    + exists m. by rewrite Z.eqb_refl.
Qed.

(** ** Counting *)

Lemma count_of_put m c v i : ordered m → count_of (map_put m c v) i = if decide (i = c) then v else count_of m i.
Proof. intros Ho. unfold count_of. rewrite map_find_put by done. by destruct (decide _). Qed.

Lemma count_of_del m c i : count_of (map_del m c) i = if decide (i = c) then 0 else count_of m i.
Proof. unfold count_of. rewrite map_find_del. by destruct (decide _). Qed.

Lemma number_insert c n h : number c (insert_node n h) = number c h + if decide (fl_client (n_second n) = c) then 1 else 0.
Proof. unfold number. rewrite insert_node_perm, filter_cons. destruct (decide _); simpl; lia. Qed.

Lemma number_erase c h nid m : basic h nid → m ∈ h →
  number c (filter (λ n, n_id n ≠ n_id m) h) = number c h - if decide (fl_client (n_second m) = c) then 1 else 0.
Proof.
  intros Hb Hm. assert (h ≡ₚ m :: filter (λ n, n_id n ≠ n_id m) h) as Hp.
  { apply NoDup_Permutation.
    - eapply NoDup_fmap_1. exact (ba_ids _ _ Hb).
    - constructor; [by intros [_ []]%elem_of_erase|]. apply NoDup_filter. eapply NoDup_fmap_1. exact (ba_ids _ _ Hb).
    - intros x. rewrite elem_of_cons, elem_of_erase. destruct (decide (n_id x = n_id m)) as [E|E]; [|split; [intros Hx; by right|intros [->|[? _]]; done]].
      split; [intros Hx; left; exact (basic_unique h nid x m Hb Hx Hm E)|intros [->|[? _]]; done]. }
  unfold number. rewrite Hp at 2. rewrite filter_cons. destruct (decide _); simpl; lia.
Qed.

Lemma number_resize c i v h : number c (resize i v <$> h) = number c h.
Proof.
  unfold number. f_equal. induction h as [|n h IH]; [done|]. rewrite fmap_cons, !filter_cons.
  assert (fl_client (n_second (resize i v n)) = fl_client (n_second n)) as -> by (unfold resize; by destruct (_ =? _)).
  destruct (decide _); simpl; by rewrite IH.
Qed.

Lemma s32_add_l a b : s32 (s32 a + b) = s32 (a + b).
Proof.
  unfold s32. f_equal. replace ((a + 2147483648) mod 4294967296 - 2147483648 + b + 2147483648)
    with ((a + 2147483648) mod 4294967296 + b) by lia.
  rewrite Zplus_mod_idemp_l. f_equal. lia.
Qed.
