(* ===== verification/FlockStep.v ===== *)
(** * The steps of the lock state

    The search finds exactly the held locks that overlap; cutting one lock by
    a range leaves the rest of it and touches nothing else. *)

From stdpp Require Import sorting.
From S2P Require Import Prelude StdMap Flock FlockSpec.

Record span_ok (l : ceph_filelock) : Prop := {
  sp_start : 0 <= fl_start l <= LIMIT;
  sp_length : 0 <= fl_length l;
  sp_end : fl_start l + fl_length l <= LIMIT;
}.

Lemma lock_span l : lock_ok l → span_ok l.
Proof. intros []. by constructor. Qed.
Lemma span_range l : span_ok l → range_ok l.
Proof. intros []. constructor; lia. Qed.

(** ** States *)

Record tidy (s : ceph_lock_state_t) : Prop := {
  td_basic : basic (held_locks s) (next_id s);
  td_counted : counted (held_locks s) (client_held_lock_counts s);
}.

(** Nothing but the held locks and their counts changes. *)
Definition same_waiting (s s' : ceph_lock_state_t) : Prop :=
  waiting_locks s' = waiting_locks s ∧ client_waiting_lock_counts s' = client_waiting_lock_counts s.

Definition plus (fl : ceph_filelock) (s : ceph_lock_state_t) : ceph_lock_state_t :=
  LockState (insert_node (Node (next_id s) (fl_start fl) fl) (held_locks s)) (next_id s + 1) (waiting_locks s)
    (map_put (client_held_lock_counts s) (fl_client fl) (s32 (count_of (client_held_lock_counts s) (fl_client fl) + 1)))
    (client_waiting_lock_counts s).
Definition minus (m : node) (s : ceph_lock_state_t) : ceph_lock_state_t :=
  LockState (filter (λ n, n_id n ≠ n_id m) (held_locks s)) (next_id s) (waiting_locks s)
    (map_put (client_held_lock_counts s) (fl_client (n_second m)) (s32 (count_of (client_held_lock_counts s) (fl_client (n_second m)) + -1)))
    (client_waiting_lock_counts s).
Definition shrunk (m : node) (v : Z) (s : ceph_lock_state_t) : ceph_lock_state_t :=
  with_held (resize (n_id m) v <$> held_locks s) s.
Definition dropped (c : Z) (s : ceph_lock_state_t) : ceph_lock_state_t :=
  if count_of (client_held_lock_counts s) c =? 0 then with_held_counts (map_del (client_held_lock_counts s) c) s else s.

Lemma plus_run {A} fl c (k : unit → M ceph_lock_state_t A) s : fl_client fl = c →
  (_ ← hold fl; _ ← count_up 1 c; k tt) s = k tt (plus fl s).
Proof. by intros <-. Qed.
Lemma minus_run {A} m (k : unit → M ceph_lock_state_t A) s :
  (_ ← erase_node (n_id m); _ ← count_up (-1) (fl_client (n_second m)); k tt) s = k tt (minus m s).
Proof. done. Qed.
Lemma dropped_run c s : drop_zero_count c s = Ok (tt, dropped c s).
Proof. unfold drop_zero_count, modify, dropped. done. Qed.

Lemma counted_put h h' counts c d : counted h counts →
  (∀ i, number i h' = number i h + if decide (c = i) then d else 0) →
  counted h' (map_put counts c (s32 (count_of counts c + d))).
Proof.
  intros [H1 H2] Hn. constructor; [by apply map_put_ordered|]. intros i. rewrite count_of_put, Hn by done.
  destruct (decide (i = c)) as [->|Hi]; [by rewrite decide_True, H2, s32_add_l by done|].
  by rewrite decide_False, H2, Z.add_0_r by congruence.
Qed.

Lemma plus_tidy fl s : tidy s → lock_ok fl → tidy (plus fl s).
Proof.
  intros [Hb Hc] Hfl. constructor; [by apply insert_basic|]. apply (counted_put (held_locks s)); [done|].
  intros i. apply number_insert.
Qed.
Lemma minus_tidy m s : tidy s → m ∈ held_locks s → tidy (minus m s).
Proof.
  intros [Hb Hc] Hm. constructor; [by apply erase_basic|]. apply (counted_put (held_locks s)); [done|].
  intros i. unfold minus. cbn [held_locks]. rewrite (number_erase i _ (next_id s)) by done. destruct (decide _); lia.
Qed.
Lemma shrunk_tidy m v s : tidy s → m ∈ held_locks s → lock_ok (with_length v (n_second m)) → tidy (shrunk m v s).
Proof.
  intros [Hb [Hc1 Hc2]] Hm Hv. constructor; [by apply resize_basic|]. constructor; [done|]. intros c.
  unfold shrunk. cbn [held_locks with_held client_held_lock_counts]. rewrite number_resize. apply Hc2.
Qed.
Lemma dropped_held c s : held_locks (dropped c s) = held_locks s ∧ next_id (dropped c s) = next_id s ∧ same_waiting s (dropped c s).
Proof. unfold dropped. by destruct (_ =? _). Qed.
Lemma dropped_tidy c s : tidy s → tidy (dropped c s).
Proof.
  intros [Hb [Hc1 Hc2]]. destruct (dropped_held c s) as (E1 & E2 & _). constructor; [by rewrite E1, E2|]. rewrite E1.
  unfold dropped. destruct (Z.eqb_spec (count_of (client_held_lock_counts s) c) 0) as [E|]; [|done].
  constructor; [by apply map_del_ordered|]. intros i. cbn [held_locks with_held_counts client_held_lock_counts]. rewrite count_of_del. destruct (decide (i = c)) as [->|]; [|done].
  by rewrite <- Hc2, E.
Qed.

(** ** Cutting a lock *)

(** What is left on the right of a range. *)
Definition right_of (R l : ceph_filelock) : ceph_filelock :=
  let start := fl_start R + fl_length R in
  if fl_length l =? 0 then with_start start l else with_length (fl_start l + fl_length l - start) (with_start start l).
Definition has_right (R l : ceph_filelock) : bool :=
  negb (fl_length R =? 0) && ((fl_length l =? 0) || (fl_start R + fl_length R <? fl_start l + fl_length l)).

Definition cut (R : ceph_filelock) (m : node) (s : ceph_lock_state_t) : ceph_lock_state_t :=
  let s := if has_right R (n_second m) then plus (right_of R (n_second m)) s else s in
  let s := if fl_start (n_second m) <? fl_start R then shrunk m (fl_start R - fl_start (n_second m)) s else minus m s in
  dropped (fl_client (n_second m)) s.

Lemma right_client R l : fl_client (right_of R l) = fl_client l.
Proof. unfold right_of. by destruct (_ =? _). Qed.

Lemma cut_run R m s : basic (held_locks s) (next_id s) → m ∈ held_locks s → span_ok R →
  cut_lock R (n_id m) s = Ok (tt, cut R m s).
Proof.
  intros Hb Hm [R1 R2 R3]. destruct (ba_node _ _ Hb m Hm) as [_ [L1 L2 L3 _]]. unfold LIMIT in *.
  unfold cut_lock. cbv zeta. unfold mbind at 1, M_bind at 1. rewrite (at_ok s m Hb Hm).
  set (l := n_second m) in *. unfold cut. fold l.
  assert (∀ s, (if fl_start l <? fl_start R then set_node_length (n_id m) (u64 (fl_start R - fl_start l))
                else _ ← erase_node (n_id m); count_up (-1) (fl_client l)) s =
               Ok (tt, if fl_start l <? fl_start R then shrunk m (fl_start R - fl_start l) s else minus m s)) as Hse.
  { intros s0. destruct (Z.ltb_spec (fl_start l) (fl_start R)); [|done]. by rewrite u64_small by lia. }
  unfold mbind at 1, M_bind at 1. unfold has_right. destruct (Z.eqb_spec (fl_length R) 0) as [E0|E0].
  { rewrite E0. cbn [Z.eqb negb andb]. rewrite Hse. apply dropped_run. }
  rewrite (proj2 (Z.eqb_neq 0 (fl_length R))) by lia. cbn [negb andb].
  rewrite (u64_small (fl_start R + fl_length R)), (u64_small (fl_start R + fl_length R - 1)) by lia.
  replace (fl_start R + fl_length R - 1 + 1) with (fl_start R + fl_length R) by lia.
  rewrite (u64_small (fl_start R + fl_length R)) by lia. unfold right_of. rewrite (Z.eqb_sym 0 (fl_length l)).
  destruct (Z.eqb_spec (fl_length l) 0) as [El|El]; cbn [orb].
  { unfold mbind at 1, M_bind at 1, hold, modify at 1, mbind at 1, M_bind at 1, count_up at 1, modify at 1.
    rewrite Hse. apply dropped_run. }
  rewrite (u64_small (fl_start l + fl_length l)), (u64_small (fl_start l + fl_length l - 1)) by lia.
  unfold mbind at 1, M_bind at 1. destruct (Z.ltb_spec (fl_start R + fl_length R) (fl_start l + fl_length l)) as [Hlt|Hge].
  - rewrite (proj2 (Z.gtb_lt _ _)) by lia.
    rewrite (u64_small (_ - (fl_start R + fl_length R))), (u64_small (_ + 1)) by lia.
    replace (fl_start l + fl_length l - 1 - (fl_start R + fl_length R) + 1) with (fl_start l + fl_length l - (fl_start R + fl_length R)) by lia.
    unfold mbind at 1, M_bind at 1, hold, modify at 1, count_up at 1, modify at 1. cbn [fl_client with_length with_start].
    rewrite Hse. apply dropped_run.
  - rewrite (Z.gtb_ltb), (proj2 (Z.ltb_ge _ _)) by lia. cbn [mret M_ret]. rewrite Hse. apply dropped_run.
Qed.

Lemma right_ok R l : span_ok R → lock_ok l → overlap l R → has_right R l = true →
  lock_ok (right_of R l) ∧ owner_id (right_of R l) = owner_id l ∧ fl_type (right_of R l) = fl_type l ∧
  ∀ p, in_lock (right_of R l) p ↔ fl_start R + fl_length R <= p ∧ in_lock l p.
Proof.
  intros [R1 R2 R3] [L1 L2 L3 L4] [O1 O2] Hh. unfold has_right in Hh. apply andb_true_iff in Hh as [H0%negb_true_iff%Z.eqb_neq Hh].
  unfold right_of, in_lock. destruct (Z.eqb_spec (fl_length l) 0) as [E|E]; cbn [with_start with_length fl_start fl_length].
  - split; [constructor; simpl; lia|]. split; [done|]. split; [done|]. intros p. simpl. lia.
  - cbn [orb] in Hh. apply Z.ltb_lt in Hh. split; [constructor; simpl; lia|]. split; [done|]. split; [done|]. intros p. simpl. lia.
Qed.

Lemma left_ok R l : span_ok R → lock_ok l → overlap l R → fl_start l < fl_start R →
  lock_ok (with_length (fl_start R - fl_start l) l) ∧
  ∀ p, in_lock (with_length (fl_start R - fl_start l) l) p ↔ p < fl_start R ∧ in_lock l p.
Proof.
  intros [R1 R2 R3] [L1 L2 L3 L4] [O1 O2] Hlt. unfold in_lock. simpl. split; [constructor; simpl; lia|]. intros p. lia.
Qed.

(** The nodes after a cut: the others, the rest on the right and the rest on
    the left. *)
Definition right_node (R : ceph_filelock) (m : node) (i : Z) : node :=
  Node i (fl_start (right_of R (n_second m))) (right_of R (n_second m)).
Definition left_node (R : ceph_filelock) (m : node) : node :=
  Node (n_id m) (n_first m) (with_length (fl_start R - fl_start (n_second m)) (n_second m)).

Definition cut_right (R : ceph_filelock) (m : node) (s : ceph_lock_state_t) : ceph_lock_state_t :=
  if has_right R (n_second m) then plus (right_of R (n_second m)) s else s.

Lemma cut_right_tidy R m s : tidy s → m ∈ held_locks s → span_ok R → overlap (n_second m) R →
  tidy (cut_right R m s) ∧ m ∈ held_locks (cut_right R m s).
Proof.
  intros Ht Hm HR Ho. unfold cut_right. destruct (has_right R (n_second m)) eqn:Eh; [|done].
  destruct (ba_node _ _ (td_basic _ Ht) m Hm) as [_ Hl]. split; [apply plus_tidy; [done|by apply right_ok]|].
  cbn [plus held_locks]. apply elem_of_insert. by right.
Qed.

Lemma cut_tidy R m s : tidy s → m ∈ held_locks s → span_ok R → overlap (n_second m) R → tidy (cut R m s).
Proof.
  intros Ht Hm HR Ho. destruct (cut_right_tidy R m s Ht Hm HR Ho) as [Ht' Hm'].
  destruct (ba_node _ _ (td_basic _ Ht) m Hm) as [_ Hl].
  unfold cut. fold (cut_right R m s). apply dropped_tidy. destruct (Z.ltb_spec (fl_start (n_second m)) (fl_start R)).
  - apply shrunk_tidy; [done..|]. by apply left_ok.
  - by apply minus_tidy.
Qed.

Lemma cut_waiting R m s : same_waiting s (cut R m s).
Proof.
  unfold cut, dropped, same_waiting. cbv zeta. destruct (has_right _ _), (_ <? _), (_ =? 0); done.
Qed.

Lemma elem_of_cut R m s n : tidy s → m ∈ held_locks s → span_ok R → overlap (n_second m) R →
  n ∈ held_locks (cut R m s) ↔ (n ∈ held_locks s ∧ n_id n ≠ n_id m) ∨
    (has_right R (n_second m) = true ∧ n = right_node R m (next_id s)) ∨
    (fl_start (n_second m) < fl_start R ∧ n = left_node R m).
Proof.
  intros Ht Hm HR Ho. destruct (cut_right_tidy R m s Ht Hm HR Ho) as [Ht' Hm'].
  pose proof (ba_fresh _ _ (td_basic _ Ht) m Hm) as Hf.
  assert (n ∈ held_locks (cut_right R m s) ∧ n_id n ≠ n_id m ↔
          (n ∈ held_locks s ∧ n_id n ≠ n_id m) ∨ (has_right R (n_second m) = true ∧ n = right_node R m (next_id s))) as Hr.
  { unfold cut_right. destruct (has_right R (n_second m)); [|intuition discriminate]. cbn [plus held_locks].
    rewrite elem_of_insert. fold (right_node R m (next_id s)). split; [tauto|].
    intros [?|[_ ->]]; [tauto|]. split; [by left|]. simpl. lia. }
  unfold cut. fold (cut_right R m s). cbv zeta. rewrite (proj1 (dropped_held _ _)).
  destruct (Z.ltb_spec (fl_start (n_second m)) (fl_start R)) as [Hlt|Hge].
  - unfold shrunk. cbn [held_locks with_held]. rewrite (elem_of_resize _ (next_id (cut_right R m s))) by (done || exact (td_basic _ Ht')).
    fold (left_node R m). tauto.
  - unfold minus. cbn [held_locks]. rewrite elem_of_erase, Hr. split; [tauto|]. intros [?|[?|[? _]]]; [tauto..|lia].
Qed.

(** ** The view of the bytes through the steps

    Replacing one held lock by pieces of it; cutting a lock by a range and
    absorbing it into a lock that is being made are of this kind.  What every
    owner has of every byte does not change while room is made. *)

(** [h'] is [h] with [m] reduced to the bytes [keep]. *)
Record carved (m : node) (keep : Z → Prop) (h h' : list node) : Prop := {
  cv_kept : ∀ n, n ∈ h → n_id n ≠ n_id m → n ∈ h';
  cv_from : ∀ n, n ∈ h' → (n ∈ h ∧ n_id n ≠ n_id m) ∨
    (owner_id (n_second n) = owner_id (n_second m) ∧ fl_type (n_second n) = fl_type (n_second m) ∧
     ∀ p, in_lock (n_second n) p → in_lock (n_second m) p ∧ keep p);
  cv_bytes : ∀ p, in_lock (n_second m) p → keep p →
    ∃ n, n ∈ h' ∧ owner_id (n_second n) = owner_id (n_second m) ∧ in_lock (n_second n) p ∧ fl_type (n_second n) = fl_type (n_second m);
  cv_apart : apart h → apart h';
}.

(** The bytes held by the other nodes. *)
Definition rest (h : list node) (m : node) (o : Z * Z * option Z) (p t : Z) : Prop :=
  ∃ n, n ∈ h ∧ n_id n ≠ n_id m ∧ owner_id (n_second n) = o ∧ in_lock (n_second n) p ∧ fl_type (n_second n) = t.

Lemma holds_split h nid m o p t : basic h nid → m ∈ h →
  holds h o p t ↔ rest h m o p t ∨ (o = owner_id (n_second m) ∧ in_lock (n_second m) p ∧ t = fl_type (n_second m)).
Proof.
  intros Hb Hm. split.
  - intros (n & Hn & Ho & Hp & Ht). destruct (decide (n_id n = n_id m)) as [E|E].
    + rewrite (basic_unique h nid n m Hb Hn Hm E) in *. right. by subst.
    + left. by exists n.
  - intros [(n & Hn & _ & H)|(-> & Hp & ->)]; [by exists n|by exists m].
Qed.

Lemma carved_holds h nid h' m keep o p t : basic h nid → carved m keep h h' →
  holds h' o p t ↔ rest h m o p t ∨ (o = owner_id (n_second m) ∧ in_lock (n_second m) p ∧ keep p ∧ t = fl_type (n_second m)).
Proof.
  intros Hb [H1 H2 H3 _]. split.
  - intros (n & Hn & Ho & Hp & Ht). destruct (H2 n Hn) as [[? ?]|(Eo & Et & Hk)]; [left; by exists n|].
    right. destruct (Hk p Hp). by rewrite <- Eo, <- Et.
  - intros [(n & Hn & Hi & H)|(-> & Hp & Hk & ->)]; [exists n; split; [by apply H1|done]|].
    destruct (H3 p Hp Hk) as (n & Hn & ? & ? & ?). by exists n.
Qed.

Lemma length_nonneg h nid n : basic h nid → n ∈ h → 0 <= fl_length (n_second n).
Proof. intros Hb Hn. by destruct (ba_node _ _ Hb n Hn) as [_ []]. Qed.

(** Two nodes of an owner that share a byte are the same. *)
Lemma apart_same h nid n m p : basic h nid → apart h → n ∈ h → m ∈ h → owner_id (n_second n) = owner_id (n_second m) →
  in_lock (n_second n) p → in_lock (n_second m) p → n = m.
Proof.
  intros Hb Ha Hn Hm Ho Hp Hq. apply Ha; try done. apply overlap_in; [by eapply length_nonneg..|]. by exists p.
Qed.

Lemma apart_rest h nid m p t : basic h nid → apart h → m ∈ h → rest h m (owner_id (n_second m)) p t → ¬ in_lock (n_second m) p.
Proof.
  intros Hb Ha Hm (n & Hn & Hi & Ho & Hp & _) Hq. apply Hi. f_equal. by eapply (apart_same h nid n m p).
Qed.

(** ** Cutting *)

Lemma cut_carved R m s : tidy s → m ∈ held_locks s → span_ok R → overlap (n_second m) R →
  carved m (λ p, ¬ in_lock R p) (held_locks s) (held_locks (cut R m s)).
Proof.
  intros Ht Hm HR Ho. pose proof (ba_node _ _ (td_basic _ Ht) m Hm) as [_ Hl]. pose proof HR as [R1 R2 R3].
  assert (∀ n, n = right_node R m (next_id s) → has_right R (n_second m) = true →
    owner_id (n_second n) = owner_id (n_second m) ∧ fl_type (n_second n) = fl_type (n_second m) ∧
    ∀ p, in_lock (n_second n) p ↔ fl_start R + fl_length R <= p ∧ in_lock (n_second m) p) as Hright.
  { intros n -> Hr. by apply right_ok. }
  assert (∀ n, n = left_node R m → fl_start (n_second m) < fl_start R →
    owner_id (n_second n) = owner_id (n_second m) ∧ fl_type (n_second n) = fl_type (n_second m) ∧
    ∀ p, in_lock (n_second n) p ↔ p < fl_start R ∧ in_lock (n_second m) p) as Hleft.
  { intros n -> Hr. split; [done|]. split; [done|]. by apply left_ok. }
  constructor.
  - intros n Hn Hi. apply elem_of_cut; [done..|]. by left.
  - intros n Hn. apply (elem_of_cut R m s n Ht Hm HR Ho) in Hn as [Hn|[[Hr Hn]|[Hlt Hn]]]; [by left|right|right].
    + destruct (Hright n Hn Hr) as (? & ? & Hp). split; [done|]. split; [done|]. intros p Hq. apply Hp in Hq as [Hq ?].
      split; [done|]. unfold has_right in Hr. apply andb_true_iff in Hr as [Hr%negb_true_iff%Z.eqb_neq _]. unfold in_lock. lia.
    + destruct (Hleft n Hn Hlt) as (? & ? & Hp). split; [done|]. split; [done|]. intros p Hq. apply Hp in Hq as [Hq ?].
      split; [done|]. unfold in_lock. lia.
  - intros p Hp Hk. destruct (Z.lt_ge_cases p (fl_start R)) as [Hlt|Hge].
    + assert (fl_start (n_second m) < fl_start R) as Hs by (unfold in_lock in Hp; lia).
      exists (left_node R m). split; [apply elem_of_cut; tauto|]. destruct (Hleft _ eq_refl Hs) as (? & ? & Hq).
      split; [done|]. split; [by apply Hq|done].
    + assert (has_right R (n_second m) = true ∧ fl_start R + fl_length R <= p) as [Hr Hs].
      { unfold has_right. unfold in_lock in Hp, Hk. rewrite andb_true_iff, negb_true_iff, orb_true_iff, Z.eqb_neq, Z.eqb_eq, Z.ltb_lt. lia. }
      exists (right_node R m (next_id s)). split; [apply elem_of_cut; tauto|]. destruct (Hright _ eq_refl Hr) as (? & ? & Hq).
      split; [done|]. split; [by apply Hq|done].
  - intros Ha. pose proof (cut_tidy R m s Ht Hm HR Ho) as Ht'. pose proof (td_basic _ Ht) as Hb.
    assert (∀ n, n ∈ held_locks s → n_id n ≠ n_id m → ∀ p, in_lock (n_second n) p → in_lock (n_second m) p →
      owner_id (n_second n) = owner_id (n_second m) → False) as Hold.
    { intros n Hn Hi p Hp Hq Hnm. apply Hi. f_equal. by eapply (apart_same _ _ n m p). }
    intros n k Hn Hk Hnk Hov.
    apply overlap_in in Hov as (p & Hp & Hq); [|exact (length_nonneg _ _ _ (td_basic _ Ht') Hn)|exact (length_nonneg _ _ _ (td_basic _ Ht') Hk)].
    apply (elem_of_cut R m s n Ht Hm HR Ho) in Hn as [[Hn In]|[[Rn Hn]|[Sn Hn]]]; apply (elem_of_cut R m s k Ht Hm HR Ho) in Hk as [[Hk Ik]|[[Rk Hk]|[Sk Hk]]]; try done; try congruence.
    + by eapply (apart_same _ _ n k p).
    + destruct (Hright k Hk Rk) as (E & _ & H). exfalso. eapply (Hold n); [done..|by apply H|congruence].
    + destruct (Hleft k Hk Sk) as (E & _ & H). exfalso. eapply (Hold n); [done..|by apply H|congruence].
    + destruct (Hright n Hn Rn) as (E & _ & H). exfalso. eapply (Hold k); [done..|by apply H|congruence].
    + apply (Hright n Hn Rn) in Hp as [? _]. apply (Hleft k Hk Sk) in Hq as [? _]. lia.
    + destruct (Hleft n Hn Sn) as (E & _ & H). exfalso. eapply (Hold k); [done..|by apply H|congruence].
    + apply (Hleft n Hn Sn) in Hp as [? _]. apply (Hright k Hk Rk) in Hq as [? _]. lia.
Qed.

Lemma absorb_carved m s : tidy s → m ∈ held_locks s →
  carved m (λ _, False) (held_locks s) (held_locks (dropped (fl_client (n_second m)) (minus m s))).
Proof.
  intros Ht Hm. rewrite (proj1 (dropped_held _ _)). unfold minus. cbn [held_locks]. constructor.
  - intros n Hn Hi. by apply elem_of_erase.
  - intros n Hn. left. by apply elem_of_erase.
  - done.
  - intros Ha n k [Hn _]%elem_of_erase [Hk _]%elem_of_erase. by apply Ha.
Qed.

(** ** Making room for a lock

    While a lock is made, its owner's locks that overlap it are cut or absorbed
    one by one; what every owner has of every byte, the new lock included, does
    not change. *)

(** The view with a lock on top. *)
Definition seen (N : ceph_filelock) (h : list node) (o : Z * Z * option Z) (p t : Z) : Prop :=
  (o = owner_id N ∧ in_lock N p ∧ t = fl_type N) ∨ (holds h o p t ∧ ¬ (o = owner_id N ∧ in_lock N p)).

(** [ns] are the locks of the owner that overlap the new lock. *)
Record making (N : ceph_filelock) (ns : list node) (s : ceph_lock_state_t) : Prop := {
  mk_tidy : tidy s;
  mk_apart : apart (held_locks s);
  mk_lock : lock_ok N;
  mk_todo : ∀ n, n ∈ ns ↔ n ∈ held_locks s ∧ owner_id (n_second n) = owner_id N ∧ overlap (n_second n) N;
}.

Lemma making_len N ns s n : making N ns s → n ∈ held_locks s → 0 <= fl_length (n_second n) ∧ 0 <= fl_length N.
Proof. intros [Ht _ [] _] Hn. split; [exact (length_nonneg _ _ _ (td_basic _ Ht) Hn)|done]. Qed.

(** The locks that are left to do after a step. *)
Lemma todo_step N N' m (ns ns' : list node) s keep (h' : list node) :
  making N ns s → m ∈ held_locks s → owner_id (n_second m) = owner_id N → carved m keep (held_locks s) h' →
  owner_id N' = owner_id N → lock_ok N' → (∀ n, n ∈ h' → 0 <= fl_length (n_second n)) →
  (∀ p, in_lock N p → in_lock N' p) → (∀ p, in_lock N' p → in_lock N p ∨ in_lock (n_second m) p) →
  (∀ p, keep p → ¬ in_lock N' p) →
  (∀ n, n ∈ ns' ↔ n ∈ ns ∧ n_id n ≠ n_id m) →
  ∀ n, n ∈ ns' ↔ n ∈ h' ∧ owner_id (n_second n) = owner_id N' ∧ overlap (n_second n) N'.
Proof.
  intros Hmk Hm Ho [C1 C2 _ _] Ho' [_ L' _ _] Hlen Hup Hdown Hkeep Hns n. pose proof Hmk as [Ht Ha [_ L _ _] Htodo].
  rewrite Hns, Htodo, Ho'. split.
  - intros [(Hn & En & Hov) Hi]. split; [by apply C1|]. split; [done|].
    pose proof (making_len N ns s n Hmk Hn) as [Ln _].
    apply overlap_in in Hov as (p & Hp & Hq); [|done..]. apply overlap_in; [done..|]. exists p. split; [done|by apply Hup].
  - intros (Hn & En & Hov). pose proof (Hlen n Hn) as Ln. apply overlap_in in Hov as (p & Hp & Hq); [|done..].
    destruct (C2 n Hn) as [[Hn' Hi]|(_ & _ & Hsub)]; [|exfalso; destruct (Hsub p Hp) as [_ Hk]; by apply (Hkeep p)].
    split; [|done]. split; [done|]. split; [done|]. apply overlap_in; [done..|]. exists p. split; [done|].
    destruct (Hdown p Hq) as [|Hpm]; [done|]. destruct Hi. f_equal.
    eapply (apart_same _ _ n m p); [exact (td_basic _ Ht)|done..|congruence|done|done].
Qed.

Lemma tidy_len s n : tidy s → n ∈ held_locks s → 0 <= fl_length (n_second n).
Proof. intros Ht Hn. exact (length_nonneg _ _ _ (td_basic _ Ht) Hn). Qed.

(** Cutting a lock of another type. *)
Lemma making_cut N m (ns ns' : list node) s : making N ns s → m ∈ ns → (∀ n, n ∈ ns' ↔ n ∈ ns ∧ n_id n ≠ n_id m) →
  making N ns' (cut N m s) ∧ ∀ o p t, seen N (held_locks (cut N m s)) o p t ↔ seen N (held_locks s) o p t.
Proof.
  intros Hmk Hm Hns. pose proof Hmk as [Ht Ha Hl Htodo]. apply Htodo in Hm as (Hm & Ho & Hov).
  pose proof (lock_span N Hl) as Hs. pose proof (cut_tidy N m s Ht Hm Hs Hov) as Ht'.
  pose proof (cut_carved N m s Ht Hm Hs Hov) as Hc. split.
  - constructor; [done|by apply (cv_apart _ _ _ _ Hc)|done|].
    eapply todo_step; try done; [by intros n; apply tidy_len|tauto].
  - intros o p t. unfold seen. rewrite (carved_holds _ _ _ _ _ o p t (td_basic _ Ht) Hc), (holds_split _ _ m o p t (td_basic _ Ht) Hm).
    rewrite Ho. tauto.
Qed.

(** Absorbing a lock of the same type. *)
Lemma making_absorb N N' m (ns ns' : list node) s : making N ns s → m ∈ held_locks s → owner_id (n_second m) = owner_id N →
  fl_type (n_second m) = fl_type N → lock_ok N' → owner_id N' = owner_id N → fl_type N' = fl_type N →
  (∀ p, in_lock N' p ↔ in_lock N p ∨ in_lock (n_second m) p) → (∀ n, n ∈ ns' ↔ n ∈ ns ∧ n_id n ≠ n_id m) →
  let s' := dropped (fl_client (n_second m)) (minus m s) in
  making N' ns' s' ∧ ∀ o p t, seen N' (held_locks s') o p t ↔ seen N (held_locks s) o p t.
Proof.
  intros Hmk Hm Ho Hty Hl' Ho' Hty' Hu Hns s'. pose proof Hmk as [Ht Ha Hl Htodo].
  assert (tidy s') as Ht' by (by apply dropped_tidy, minus_tidy).
  pose proof (absorb_carved m s Ht Hm) as Hc. split.
  - constructor; [done|by apply (cv_apart _ _ _ _ Hc)|done|].
    eapply todo_step; try done; [by intros n; apply tidy_len|intros p; rewrite Hu; tauto..].
  - intros o p t. unfold seen, s'. rewrite (carved_holds _ _ _ _ _ o p t (td_basic _ Ht) Hc), (holds_split _ _ m o p t (td_basic _ Ht) Hm).
    rewrite Ho, Hty, Ho', Hty', Hu.
    assert (rest (held_locks s) m o p t → o = owner_id N → ¬ in_lock (n_second m) p) as Hr.
    { intros Hr ->. rewrite <- Ho in Hr. by eapply (apart_rest _ _ m p t (td_basic _ Ht)). }
    assert (in_lock N p ∨ ¬ in_lock N p) as Hd by (unfold in_lock; lia). tauto.
Qed.

(** ** The two loops that make room for a lock

    The loop over the owner's locks that overlap it and the loop over those that
    touch it run without a fault, keep the view, and leave no lock of the owner
    that overlaps the lock made. *)

(** ** One old lock *)

Lemma adjust_other m N s : at_ (n_id m) s = Ok (n_second m, s) → fl_type (n_second m) ≠ fl_type N →
  adjust_old (0 =? fl_length N) (n_id m) N s = (_ ← cut_lock N (n_id m); mret N) s.
Proof.
  intros Hat Ht. unfold adjust_old, cut_lock. cbv zeta. unfold mbind, M_bind. rewrite Hat.
  rewrite (proj2 (Z.eqb_neq _ _) Ht).
  destruct (0 =? fl_length N), (0 =? fl_length (n_second m)), (fl_start (n_second m) <? fl_start N), (_ >? _); reflexivity.
Qed.

(** The union of two locks that overlap. *)
Definition hull (N m : ceph_filelock) : ceph_filelock :=
  let start := Z.min (fl_start m) (fl_start N) in
  if (fl_length N =? 0) || (fl_length m =? 0) then with_length 0 (with_start start N)
  else with_length (Z.max (fl_start N + fl_length N) (fl_start m + fl_length m) - start) (with_start start N).

Lemma hull_ok N m : lock_ok N → lock_ok m → overlap m N →
  lock_ok (hull N m) ∧ owner_id (hull N m) = owner_id N ∧ fl_type (hull N m) = fl_type N ∧
  ∀ p, in_lock (hull N m) p ↔ in_lock N p ∨ in_lock m p.
Proof.
  intros [N1 N2 N3 N4] [M1 M2 M3 M4] [O1 O2]. unfold hull, in_lock.
  destruct (Z.eqb_spec (fl_length N) 0), (Z.eqb_spec (fl_length m) 0); cbn [orb with_length with_start fl_start fl_length];
    (split; [constructor; simpl; lia|]; split; [done|]; split; [done|]; intros p; lia).
Qed.

Lemma min_if a b : (if a <? b then a else b) = Z.min a b.
Proof. destruct (Z.ltb_spec a b); lia. Qed.

Lemma adjust_same m N s : tidy s → m ∈ held_locks s → lock_ok N → overlap (n_second m) N →
  fl_type (n_second m) = fl_type N →
  adjust_old (0 =? fl_length N) (n_id m) N s =
  Ok (hull N (n_second m), dropped (fl_client (n_second m)) (minus m s)).
Proof.
  intros Ht Hm HN [O1 O2] Hty. destruct (ba_node _ _ (td_basic _ Ht) m Hm) as [_ [M1 M2 M3 _]].
  destruct HN as [N1 N2 N3 _]. unfold LIMIT in *.
  unfold adjust_old. cbv zeta. unfold mbind at 1, M_bind at 1. rewrite (at_ok s m (td_basic _ Ht) Hm).
  set (l := n_second m) in *. rewrite Hty, Z.eqb_refl. unfold hull.
  rewrite (Z.eqb_sym 0 (fl_length N)), (Z.eqb_sym 0 (fl_length l)).
  assert ((if fl_start N <? fl_start l then fl_start N else fl_start l) = Z.min (fl_start l) (fl_start N)) as Hmin.
  { destruct (Z.ltb_spec (fl_start N) (fl_start l)); lia. }
  destruct ((fl_length N =? 0) || (fl_length l =? 0)) eqn:E.
  - unfold mbind, M_bind, erase_node, modify at 1, count_up, modify at 1. cbn [mret M_ret].
    rewrite Hmin. fold l. rewrite dropped_run. done.
  - apply orb_false_iff in E as [EN%Z.eqb_neq EM%Z.eqb_neq].
    rewrite (u64_small (fl_start l + fl_length l)), (u64_small (fl_start l + fl_length l - 1)) by lia.
    rewrite (u64_small (fl_start N + fl_length N)), (u64_small (fl_start N + fl_length N - 1)) by lia.
    rewrite min_if. unfold mbind, M_bind, erase_node, modify at 1, count_up, modify at 1. cbn [mret M_ret].
    assert ((if fl_start N + fl_length N - 1 >? fl_start l + fl_length l - 1 then fl_start N + fl_length N - 1 else fl_start l + fl_length l - 1)
            = Z.max (fl_start N + fl_length N) (fl_start l + fl_length l) - 1) as ->.
    { rewrite Z.gtb_ltb. destruct (Z.ltb_spec (fl_start l + fl_length l - 1) (fl_start N + fl_length N - 1)); lia. }
    set (e := Z.max _ _) in *. assert (0 < e <= 2147483648) as He by lia.
    assert (Z.min (fl_start l) (fl_start N) < e) as Hs by lia. assert (0 <= Z.min (fl_start l) (fl_start N)) by lia.
    rewrite (s32_small (e - 1)) by (unfold is_s32; lia). rewrite (u64_small (e - 1)) by lia. rewrite (u64_small (e - 1 - _)) by lia.
    replace (e - 1 - Z.min (fl_start l) (fl_start N) + 1) with (e - Z.min (fl_start l) (fl_start N)) by lia. rewrite (u64_small (e - _)) by lia.
    fold l. by rewrite dropped_run.
Qed.

(** ** The loop over the old locks *)

(** What a loop does, from a lock and a state to others. *)
Record made (N N' : ceph_filelock) (s s' : ceph_lock_state_t) : Prop := {
  md_owner : owner_id N' = owner_id N;
  md_type : fl_type N' = fl_type N;
  md_grows : ∀ p, in_lock N p → in_lock N' p;
  md_seen : ∀ o p t, seen N' (held_locks s') o p t ↔ seen N (held_locks s) o p t;
  md_waiting : same_waiting s s';
}.

Lemma made_refl N s : made N N s s.
Proof. by constructor. Qed.
Lemma made_trans N N' N'' s s' s'' : made N N' s s' → made N' N'' s' s'' → made N N'' s s''.
Proof.
  intros [A1 A2 A3 A4 [A5 A6]] [B1 B2 B3 B4 [B5 B6]]. constructor; [congruence..|by auto| |split; congruence].
  intros o p t. by rewrite B4, A4.
Qed.

Definition by_start (n m : node) : Prop := fl_start (n_second n) <= fl_start (n_second m).

Lemma todo_tail m (ns : list node) : NoDup (n_id <$> m :: ns) → ∀ n, n ∈ ns ↔ n ∈ m :: ns ∧ n_id n ≠ n_id m.
Proof.
  intros [Hm _]%NoDup_cons n. rewrite elem_of_cons. split; [|intros [[->|] ?]; done].
  intros Hn. split; [by right|]. intros E. apply Hm. rewrite <- E. by apply list_elem_of_fmap_2.
Qed.

Lemma absorbed_waiting m s : same_waiting s (dropped (fl_client (n_second m)) (minus m s)).
Proof. unfold same_waiting, dropped. by destruct (_ =? _). Qed.

(** One turn: the lock grows, or the old one is cut. *)
Lemma adjust_old_turn N m ns s : making N (m :: ns) s → NoDup (n_id <$> m :: ns) →
  ∃ N' s', adjust_old (0 =? fl_length N) (n_id m) N s = Ok (N', s') ∧ making N' ns s' ∧ made N N' s s' ∧
    (N' = N ∨ N' = hull N (n_second m)) ∧ ∀ n, n ∈ held_locks s → n_id n ≠ n_id m → n ∈ held_locks s'.
Proof.
  intros Hmk Hnd. pose proof Hmk as [Ht Ha Hl Htodo].
  destruct (proj1 (Htodo m) ltac:(by left)) as (Hm & Ho & Hov). pose proof (todo_tail m ns Hnd) as Hns.
  destruct (ba_node _ _ (td_basic _ Ht) m Hm) as [_ Hlm].
  destruct (decide (fl_type (n_second m) = fl_type N)) as [Hty|Hty].
  - destruct (hull_ok N (n_second m) Hl Hlm Hov) as (Hh & Eo & Et & Hp).
    destruct (making_absorb N (hull N (n_second m)) m (m :: ns) ns s) as [H1 H2]; [done..|].
    eexists _, _. split; [by apply adjust_same|]. split; [exact H1|].
    split; [constructor; [done..|intros p; rewrite Hp; by left|exact H2|apply absorbed_waiting]|].
    split; [by right|]. apply (cv_kept _ _ _ _ (absorb_carved m s Ht Hm)).
  - destruct (making_cut N m (m :: ns) ns s Hmk ltac:(by left) Hns) as [H1 H2]. exists N, (cut N m s).
    split; [rewrite (adjust_other m N s (at_ok s m (td_basic _ Ht) Hm) Hty); unfold mbind, M_bind;
            by rewrite (cut_run N m s (td_basic _ Ht) Hm (lock_span N Hl))|].
    split; [done|]. split; [constructor; [done..|apply cut_waiting]|]. split; [by left|].
    by apply (cv_kept _ _ _ _ (cut_carved N m s Ht Hm (lock_span N Hl) Hov)).
Qed.

(** A lock without an end is the last. *)
Lemma endless_last N m ns s : making N (m :: ns) s → NoDup (n_id <$> m :: ns) → StronglySorted by_start (m :: ns) →
  fl_length (n_second m) = 0 → ns = [].
Proof.
  intros [Ht Ha Hl Htodo] Hnd [_ Hs]%StronglySorted_inv H0. destruct ns as [|k ns]; [done|]. exfalso.
  apply Forall_cons in Hs as [Hk _]. unfold by_start in Hk.
  destruct (proj1 (Htodo m) ltac:(by left)) as (Hm & Ho & _).
  destruct (proj1 (Htodo k) ltac:(by right; left)) as (Hkin & Hko & _).
  apply NoDup_cons in Hnd as [Hnd _]. apply Hnd. assert (m = k) as ->; [|left]. apply Ha; [done..|congruence|].
  destruct (ba_node _ _ (td_basic _ Ht) k Hkin) as [_ [_ Lk _ _]]. unfold overlap. lia.
Qed.

Lemma adjust_olds ns : ∀ te N s, making N ns s → NoDup (n_id <$> ns) → StronglySorted by_start ns →
  (ns = [] ∨ te = (0 =? fl_length N)) →
  ∃ N' s', each_lock (adjust_old te) (n_id <$> ns) N s = Ok (N', s') ∧ making N' [] s' ∧ made N N' s s' ∧
    ∀ n, n ∈ held_locks s → n_id n ∉ n_id <$> ns → n ∈ held_locks s'.
Proof.
  induction ns as [|m ns IH]; intros te N s Hmk Hnd Hs Hte.
  - exists N, s. split; [done|]. split; [done|]. split; [apply made_refl|done].
  - destruct Hte as [?| ->]; [done|]. destruct (adjust_old_turn N m ns s Hmk Hnd) as (N1 & s1 & E & Hmk1 & Hmd1 & HN1 & Hk1).
    assert (ns = [] ∨ (0 =? fl_length N) = (0 =? fl_length N1)) as Hte.
    { destruct HN1 as [->|EN]; [by right|]. destruct (decide (fl_length (n_second m) = 0)) as [H0|H0]; [left; by eapply endless_last|].
      right. rewrite EN. unfold hull. destruct (Z.eqb_spec (fl_length N) 0) as [E0|E0]; [by rewrite E0|].
      rewrite (proj2 (Z.eqb_neq _ _) H0). cbn [orb with_length fl_length].
      destruct (mk_todo _ _ _ Hmk m) as [Hin _]. destruct Hin as (Hm & _ & _); [by left|].
      destruct (making_len _ _ _ m Hmk Hm). rewrite !(proj2 (Z.eqb_neq _ _)); [done|lia..]. }
    destruct (IH (0 =? fl_length N) N1 s1) as (N2 & s2 & E2 & Hmk2 & Hmd2 & Hk2); [done|by apply NoDup_cons in Hnd as []|by apply StronglySorted_inv in Hs as []|done|].
    exists N2, s2. split; [cbn [fmap list_fmap each_lock]; unfold mbind, M_bind; by rewrite E|]. split; [done|].
    split; [by eapply made_trans|]. intros n Hn Hi. rewrite fmap_cons, not_elem_of_cons in Hi. destruct Hi. by apply Hk2; [apply Hk1|].
Qed.

(** ** The loop over the neighbors *)

(** [m] ends where [K] begins, or the other way round. *)
Definition touches (m K : ceph_filelock) : Prop :=
  (fl_length m ≠ 0 ∧ fl_start m + fl_length m = fl_start K) ∨ (fl_length K ≠ 0 ∧ fl_start K + fl_length K = fl_start m).

(** A lock that has grown still touches the neighbors it does not overlap. *)
Lemma touches_grown m K N : lock_ok m → lock_ok K → lock_ok N → touches m K → (∀ p, in_lock K p → in_lock N p) →
  ¬ overlap m N → touches m N.
Proof.
  intros [M1 M2 M3 _] [K1 K2 K3 _] [N1 N2 N3 _] Ht Hsub Hno. unfold overlap in Hno. unfold touches in *.
  pose proof (Hsub (fl_start K)) as Ha. pose proof (Hsub (fl_start K + fl_length K - 1)) as Hb. unfold in_lock in Ha, Hb. lia.
Qed.

(** The lock joined with one that touches it. *)
Definition join (N m : ceph_filelock) : ceph_filelock :=
  if fl_length N =? 0 then with_start (fl_start m) N
  else if fl_length m =? 0 then with_length 0 N
  else with_length (fl_length m + fl_length N) (with_start (Z.min (fl_start m) (fl_start N)) N).

Lemma join_ok N m : lock_ok N → lock_ok m → touches m N → ¬ overlap m N →
  lock_ok (join N m) ∧ owner_id (join N m) = owner_id N ∧ fl_type (join N m) = fl_type N ∧
  ∀ p, in_lock (join N m) p ↔ in_lock N p ∨ in_lock m p.
Proof.
  intros [N1 N2 N3 N4] [M1 M2 M3 M4] Ht Hno. unfold touches, overlap in *. unfold join, in_lock.
  destruct (Z.eqb_spec (fl_length N) 0), (Z.eqb_spec (fl_length m) 0); cbn [with_length with_start fl_start fl_length];
    (split; [constructor; simpl; lia|]; split; [done|]; split; [done|]; intros p; lia).
Qed.

Lemma join_run m N s : tidy s → m ∈ held_locks s → lock_ok N → touches (n_second m) N → ¬ overlap (n_second m) N →
  fl_type (n_second m) = fl_type N →
  join_neighbor (n_id m) N s = Ok (join N (n_second m), dropped (fl_client (n_second m)) (minus m s)).
Proof.
  intros Ht Hm HN Hto Hno Hty. destruct (ba_node _ _ (td_basic _ Ht) m Hm) as [_ [M1 M2 M3 _]].
  destruct HN as [N1 N2 N3 _]. unfold LIMIT in *. unfold touches, overlap in *.
  unfold join_neighbor. cbv zeta. unfold mbind at 1, M_bind at 1. rewrite (at_ok s m (td_basic _ Ht) Hm).
  set (l := n_second m) in *. rewrite Hty, Z.eqb_refl. unfold join.
  rewrite (u64_small (fl_start l + fl_length l)), (u64_small (fl_start N + fl_length N)), (u64_small (fl_length l + fl_length N)) by lia.
  rewrite (Z.eqb_sym 0 (fl_length N)), (Z.eqb_sym 0 (fl_length l)).
  assert (∀ N', (new_lock ← (mret N' : M ceph_lock_state_t ceph_filelock); _ ← erase_node (n_id m); _ ← count_up (-1) (fl_client l); mret new_lock) s =
                Ok (N', minus m s)) as Htail by done.
  assert (∀ a b : M ceph_lock_state_t ceph_filelock, ∀ N', a = b → b = mret N' →
    (new_lock ← (new_lock ← a; _ ← erase_node (n_id m); _ ← count_up (-1) (fl_client l); mret new_lock);
     _ ← drop_zero_count (fl_client l); mret new_lock) s = Ok (N', dropped (fl_client l) (minus m s))) as Hrun.
  { intros a b N' -> ->. unfold mbind at 1, M_bind at 1. rewrite Htail. unfold mbind, M_bind. by rewrite dropped_run. }
  eapply Hrun; [reflexivity|].
  destruct (Z.eqb_spec (fl_length N) 0) as [EN|EN].
  - by rewrite (proj2 (Z.eqb_eq _ _)) by lia.
  - destruct (Z.eqb_spec (fl_length l) 0) as [EL|EL].
    + rewrite (proj2 (Z.eqb_eq (_ + fl_length N) _)) by lia. done.
    + destruct (Z.eqb_spec (fl_start l + fl_length l) (fl_start N)) as [E1|E1].
      * by rewrite Z.min_l by lia.
      * rewrite (proj2 (Z.eqb_eq (_ + fl_length N) _)) by lia. rewrite Z.min_r by lia. by destruct N.
Qed.

Lemma making_dropped N s c : making N [] s → making N [] (dropped c s) ∧ made N N s (dropped c s).
Proof.
  intros [Ht Ha Hl Htodo]. destruct (dropped_held c s) as (E1 & E2 & E3). split.
  - constructor; [by apply dropped_tidy|by rewrite E1|done|by rewrite E1].
  - constructor; [done..|by rewrite E1|done].
Qed.

Lemma join_turn K N m s : lock_ok K → making N [] s → m ∈ held_locks s → owner_id (n_second m) = owner_id N →
  touches (n_second m) K → (∀ p, in_lock K p → in_lock N p) →
  ∃ N' s', join_neighbor (n_id m) N s = Ok (N', s') ∧ making N' [] s' ∧ made N N' s s' ∧
    ∀ n, n ∈ held_locks s → n_id n ≠ n_id m → n ∈ held_locks s'.
Proof.
  intros HK Hmk Hm Ho HtK Hsub. pose proof Hmk as [Ht Ha Hl Htodo]. destruct (ba_node _ _ (td_basic _ Ht) m Hm) as [_ Hlm].
  assert (¬ overlap (n_second m) N) as Hno by (intros Hov; apply (elem_of_nil m), Htodo; done).
  pose proof (touches_grown _ _ _ Hlm HK Hl HtK Hsub Hno) as HtN.
  destruct (decide (fl_type (n_second m) = fl_type N)) as [Hty|Hty].
  - destruct (join_ok N (n_second m) Hl Hlm HtN Hno) as (Hj & Eo & Et & Hp).
    destruct (making_absorb N (join N (n_second m)) m [] [] s) as [H1 H2]; try done.
    { intros n. split; [by intros ?%elem_of_nil|by intros [?%elem_of_nil _]]. }
    eexists _, _. split; [by apply join_run|]. split; [exact H1|].
    split; [constructor; [done..|intros p; rewrite Hp; by left|exact H2|apply absorbed_waiting]|].
    apply (cv_kept _ _ _ _ (absorb_carved m s Ht Hm)).
  - destruct (making_dropped N s (fl_client (n_second m)) Hmk) as [H1 H2]. exists N, (dropped (fl_client (n_second m)) s).
    split; [unfold join_neighbor, mbind, M_bind; rewrite (at_ok s m (td_basic _ Ht) Hm), (proj2 (Z.eqb_neq _ _) Hty); cbn [mret M_ret];
            by rewrite dropped_run|].
    split; [done|]. split; [done|]. intros n Hn _. by rewrite (proj1 (dropped_held _ _)).
Qed.

Lemma join_neighbors K (ns : list node) : lock_ok K → ∀ N s, making N [] s → NoDup (n_id <$> ns) →
  (∀ m, m ∈ ns → m ∈ held_locks s ∧ owner_id (n_second m) = owner_id N ∧ touches (n_second m) K) →
  (∀ p, in_lock K p → in_lock N p) →
  ∃ N' s', each_lock join_neighbor (n_id <$> ns) N s = Ok (N', s') ∧ making N' [] s' ∧ made N N' s s'.
Proof.
  intros HK. induction ns as [|m ns IH]; intros N s Hmk Hnd Hns Hsub; [by exists N, s|].
  destruct (Hns m ltac:(left)) as (Hm & Ho & Hto).
  destruct (join_turn K N m s) as (N1 & s1 & E & Hmk1 & Hmd1 & Hk1); try done.
  pose proof Hmd1 as [Eo _ Hg _ _].
  destruct (IH N1 s1) as (N2 & s2 & E2 & Hmk2 & Hmd2); [done|by apply NoDup_cons in Hnd as [_ ?]| |by auto|].
  - intros n Hn. apply (todo_tail m ns Hnd) in Hn as [Hn Hi]. destruct (Hns n Hn) as (? & ? & ?).
    split; [by apply Hk1|]. split; [congruence|done].
  - exists N2, s2. split; [cbn [fmap list_fmap each_lock]; unfold mbind, M_bind; by rewrite E|]. split; [done|by eapply made_trans].
Qed.
