(* ===== verification/FlockSearch.v ===== *)
(** * The search for overlapping locks

    The backward walk over the multimap finds exactly the held locks that
    overlap a range, in their order, and neighbors only of the owner; stopping
    early at an exclusive lock loses none. *)

From stdpp Require Import sorting.
From S2P Require Import Prelude StdMap Flock FlockSpec FlockStep.

#[export] Instance overlap_dec l k : Decision (overlap l k).
Proof. unfold overlap. apply _. Defined.

Definition hits (K : ceph_filelock) (h : list node) : list node := filter (λ n, overlap (n_second n) K) h.

Lemma elem_of_hits n K h : n ∈ hits K h ↔ n ∈ h ∧ overlap (n_second n) K.
Proof. unfold hits. rewrite list_elem_of_filter. tauto. Qed.

(** A state whose locks exclude one another as they should. *)
Record good (s : ceph_lock_state_t) : Prop := {
  gd_tidy : tidy s;
  gd_apart : apart (held_locks s);
  gd_compatible : compatible (held_locks s);
}.

(** ** The walk *)

Lemma filter_none {A} (P : A → Prop) `{∀ x, Decision (P x)} l : (∀ x, x ∈ l → ¬ P x) → filter P l = [].
Proof.
  induction l as [|x l IH]; intros H0; [done|]. rewrite filter_cons, decide_False by (apply H0; left).
  apply IH. intros y Hy. apply H0. by right.
Qed.

Lemma overlap_loop_ok K nck self (P : node → Prop) `{∀ n, Decision (P n)} (back : list node) :
  (∀ n, n ∈ back → share_space n K = true ↔ P n) →
  (∀ a n b, back = a ++ n :: b → n_first n < fl_start K → fl_type (n_second n) = CEPH_LOCK_EXCL → ∀ k, k ∈ b → ¬ P k) →
  ∃ nbs : list node, sublist nbs back ∧
    (∀ k, k ∈ nbs → ¬ P k ∧ self = true ∧ ceph_filelock_owner_equal nck (n_second k) = true ∧ share_space k nck = true) ∧
    ∀ ov nb, overlap_loop K nck self back ov nb = (reverse (n_id <$> filter P back) ++ ov, reverse (n_id <$> nbs) ++ nb).
Proof.
  intros Hp. induction back as [|n back IH]; intros Hstop; [by exists []; split; [|split; [intros k []%elem_of_nil|]]|].
  destruct IH as (nbs & Hsub & Hnb & E); [intros k Hk; apply Hp; by right|intros a k b ->; by apply (Hstop (n :: a))|].
  pose proof (Hp n ltac:(left)) as Hn. rewrite filter_cons.
  set (stop := (n_first n <? fl_start K) && (CEPH_LOCK_EXCL =? fl_type (n_second n))).
  assert (stop = true → filter P back = []) as Hs.
  { intros [H1%Z.ltb_lt H2%Z.eqb_eq]%andb_true_iff. apply filter_none. by apply (Hstop [] n back). }
  destruct (decide (P n)) as [Hy|Hy].
  - exists (if stop then [] else nbs). split; [destruct stop; [apply sublist_nil_l|by apply sublist_cons]|].
    split; [destruct stop; [intros k []%elem_of_nil|done]|].
    intros ov nb. cbn [overlap_loop]. rewrite (proj2 Hn Hy). fold stop. rewrite fmap_cons, reverse_cons, <- app_assoc.
    destruct stop; [by rewrite (Hs eq_refl)|by rewrite E].
  - destruct (share_space n K) eqn:Esh; [exfalso; by apply Hy, Hn|].
    set (t := self && ceph_filelock_owner_equal nck (n_second n) && share_space n nck).
    exists ((if t then [n] else []) ++ if stop then [] else nbs).
    split; [destruct t, stop; simpl; [apply sublist_skip, sublist_nil_l|by apply sublist_skip|apply sublist_nil_l|by apply sublist_cons]|].
    split.
    + intros k [Hk|Hk]%elem_of_app.
      * destruct t eqn:Et; [|by apply elem_of_nil in Hk]. apply list_elem_of_singleton in Hk as ->.
        unfold t in Et. rewrite !andb_true_iff in Et. tauto.
      * destruct stop; [by apply elem_of_nil in Hk|by apply Hnb].
    + intros ov nb. cbn [overlap_loop]. rewrite Esh. fold t. fold stop.
      destruct t, stop; simpl; rewrite ?(Hs eq_refl), ?E; try done. by rewrite reverse_cons, <- app_assoc.
Qed.

Lemma not_after_ok e h : StronglySorted (λ n m, n_first n <= n_first m) h →
  ∃ post, h = not_after e h ++ post ∧ ∀ n, n ∈ post → e < n_first n.
Proof.
  induction h as [|n h IH]; intros Hs; [exists []; split; [done|intros n []%elem_of_nil]|].
  apply StronglySorted_inv in Hs as [Hs Hn]. simpl. destruct (Z.leb_spec (n_first n) e) as [Hle|Hgt].
  - destruct (IH Hs) as (post & E & Hp). exists post. split; [by rewrite E at 1|done].
  - exists (n :: h). split; [done|]. intros k [->|Hk]%elem_of_cons; [done|].
    pose proof (proj1 (Forall_forall _ _) Hn k Hk). simpl in *. lia.
Qed.

Lemma get_last_before_ok e h : StronglySorted (λ n m, n_first n <= n_first m) h →
  ∃ pre post, h = pre ++ post ∧ get_last_before e h = reverse pre ∧ ∀ n, n ∈ post → e < n_first n.
Proof.
  intros Hs. destruct (not_after_ok e h Hs) as (post & E & Hp). unfold get_last_before.
  destruct (not_after e h) as [|n pre]; [|by exists (n :: pre), post].
  exists (take 1 h), (drop 1 h). split; [by rewrite take_drop|]. split; [by destruct h|].
  intros n Hn. apply Hp. replace post with h by done. eapply elem_of_sublist; [exact Hn|apply sublist_drop].
Qed.

(** ** What is found *)

(** Nothing before an exclusive lock that begins before the range overlaps it. *)
Lemma stop_sound s K n k : good s → span_ok K → n ∈ held_locks s → k ∈ held_locks s → k ≠ n → n_first k <= n_first n →
  n_first n < fl_start K → fl_type (n_second n) = CEPH_LOCK_EXCL → ¬ overlap (n_second k) K.
Proof.
  intros [Ht Ha Hc] [K1 K2 K3] Hn Hk Hne Hle Hlt Hty [O1 O2]. apply Hne.
  destruct (ba_node _ _ (td_basic _ Ht) n Hn) as [En [N1 N2 N3 _]]. destruct (ba_node _ _ (td_basic _ Ht) k Hk) as [Ek [L1 L2 L3 _]].
  assert (overlap (n_second n) (n_second k)) as Hov by (unfold overlap; lia).
  destruct (decide (owner_id (n_second n) = owner_id (n_second k))) as [Eo|Eo]; [symmetry; by apply Ha|].
  exfalso. by apply (Hc n k).
Qed.

Definition neighbor_check (K : ceph_filelock) : ceph_filelock :=
  if negb (fl_start K =? 0) then
    let l := with_start (u64 (fl_start K - 1)) K in
    if negb (fl_length l =? 0) then with_length (u64 (fl_length l + 2)) l else l
  else if negb (fl_length K =? 0) then with_length (u64 (fl_length K + 1)) K else K.

Lemma neighbor_check_ok K : span_ok K →
  range_ok (neighbor_check K) ∧ owner_id (neighbor_check K) = owner_id K ∧
  ∀ l, lock_ok l → overlap l (neighbor_check K) → ¬ overlap l K → touches l K.
Proof.
  intros [K1 K2 K3]. unfold LIMIT in *. unfold neighbor_check, overlap, touches.
  destruct (Z.eqb_spec (fl_start K) 0) as [E|E]; cbn [negb with_start fl_length];
    destruct (Z.eqb_spec (fl_length K) 0) as [E'|E']; cbn [negb];
    rewrite ?(u64_small (fl_start K - 1)), ?(u64_small (fl_length K + 1)), ?(u64_small (fl_length K + 2)) by lia;
    (split; [constructor; unfold LIMIT; simpl; lia|]; split; [done|]; intros l [L1 L2 L3 _]; simpl; lia).
Qed.

Lemma ids_nodup h nid (ns : list node) : basic h nid → sublist ns h → NoDup (n_id <$> ns).
Proof. intros Hb Hs. eapply sublist_NoDup; [|by apply fmap_sublist]. exact (ba_ids _ _ Hb). Qed.

Lemma get_overlapping_locks_ok K self s : good s → span_ok K →
  ∃ nbs : list node,
    get_overlapping_locks K self s = (n_id <$> hits K (held_locks s), n_id <$> nbs) ∧ NoDup (n_id <$> nbs) ∧
    ∀ n, n ∈ nbs → n ∈ held_locks s ∧ owner_id (n_second n) = owner_id K ∧ touches (n_second n) K.
Proof.
  intros Hg HK. pose proof Hg as [Ht Ha Hc]. pose proof (td_basic _ Ht) as Hb. pose proof HK as [K1 K2 K3]. unfold LIMIT in *.
  destruct (neighbor_check_ok K HK) as (Hnr & Hno & Hnt).
  set (e := if negb (fl_length K =? 0) then u64 (fl_start K + fl_length K) else u64 (-1)).
  destruct (get_last_before_ok e (held_locks s) (ba_sorted _ _ Hb)) as (pre & post & Eh & El & Hp).
  assert (∀ n, n ∈ reverse pre → n ∈ held_locks s) as Hin.
  { intros n Hn. rewrite Eh, elem_of_app. left. by apply elem_of_reverse. }
  destruct (overlap_loop_ok K (neighbor_check K) self (λ n, overlap (n_second n) K) (reverse pre)) as (nbs & Hsub & Hnb & E).
  - intros n Hn. destruct (ba_node _ _ Hb n (Hin n Hn)). apply share_space_ok; [done..|]. by apply span_range.
  - intros a n b Eab Hlt Hty k Hk.
    assert (n ∈ reverse pre ∧ k ∈ reverse pre) as [Hn1 Hk1].
    { rewrite Eab, !elem_of_app, !elem_of_cons. tauto. }
    assert (pre = reverse b ++ n :: reverse a) as Epre.
    { rewrite <- (reverse_involutive pre), Eab, reverse_app, reverse_cons, <- app_assoc. done. }
    apply (stop_sound s K n k); try done; [by apply Hin..| |].
    + intros ->. assert (NoDup pre) as Hnd.
      { eapply NoDup_fmap_1. eapply (ids_nodup (held_locks s)); [exact Hb|]. rewrite Eh. apply sublist_inserts_r. done. }
      rewrite Epre in Hnd. apply NoDup_app in Hnd as (_ & Hnd & _). apply (Hnd n); [by apply elem_of_reverse|left].
    + pose proof (ba_sorted _ _ Hb) as Hs. rewrite Eh, Epre, <- app_assoc in Hs.
      eapply (StronglySorted_app_1_elem_of _ _ _ k n) in Hs; [exact Hs|by apply elem_of_reverse|by left].
  - exists (reverse nbs). assert (sublist nbs (reverse (held_locks s))) as Hsub'.
    { etrans; [exact Hsub|]. rewrite Eh, reverse_app. apply sublist_inserts_l. done. }
    split; [|split].
    + unfold get_overlapping_locks. fold (neighbor_check K). cbv zeta. fold e. rewrite El, E, !app_nil_r.
      rewrite filter_reverse, fmap_reverse, reverse_involutive, fmap_reverse. f_equal. unfold hits.
      rewrite Eh, filter_app. rewrite (filter_none _ post), app_nil_r; [done|]. intros n Hn [Hov _].
      specialize (Hp n Hn). destruct (ba_node _ _ Hb n) as [En [N1 N2 N3 _]]; [rewrite Eh, elem_of_app; by right|].
      unfold LIMIT, e in *. destruct (Z.eqb_spec (fl_length K) 0) as [E0|E0]; cbn [negb] in Hp.
      * change (u64 (-1)) with 18446744073709551615 in Hp. lia.
      * rewrite u64_small in Hp by lia. lia.
    + rewrite fmap_reverse, reverse_Permutation. eapply sublist_NoDup; [|by apply fmap_sublist].
      rewrite fmap_reverse, reverse_Permutation. exact (ba_ids _ _ Hb).
    + intros n Hn. rewrite elem_of_reverse in Hn. destruct (Hnb n Hn) as (H1 & _ & H2 & H3).
      assert (n ∈ held_locks s) as Hh by (apply elem_of_reverse; by eapply elem_of_sublist).
      destruct (ba_node _ _ Hb n Hh) as [En Hl]. split; [done|]. split.
      * apply owner_equal_ok in H2. by rewrite <- H2.
      * apply Hnt; [done| |done]. by apply share_space_ok in H3.
Qed.

(** ** By owner and by type *)

Lemma split_by_owner_ok K s (ns : list node) : basic (held_locks s) (next_id s) → (∀ n, n ∈ ns → n ∈ held_locks s) →
  split_by_owner K (n_id <$> ns) s =
  Ok ((n_id <$> filter (λ n, owner_id (n_second n) ≠ owner_id K) ns,
       n_id <$> filter (λ n, owner_id (n_second n) = owner_id K) ns), s).
Proof.
  intros Hb. induction ns as [|n ns IH]; intros Hin; [done|]. cbn [fmap list_fmap split_by_owner].
  unfold mbind, M_bind. rewrite (at_ok s n Hb) by (apply Hin; left). fold (n_id <$> ns).
  rewrite IH by (intros k Hk; apply Hin; by right). rewrite !filter_cons.
  destruct (decide (owner_id (n_second n) = owner_id K)) as [E|E].
  - rewrite (proj2 (owner_equal_ok _ _) E), decide_False by auto. done.
  - rewrite decide_True by done. destruct (ceph_filelock_owner_equal _ _) eqn:E'; [|done]. by apply owner_equal_ok in E'.
Qed.

Lemma contains_exclusive_ok s (ns : list node) : basic (held_locks s) (next_id s) → (∀ n, n ∈ ns → n ∈ held_locks s) →
  ∃ r, contains_exclusive_lock (n_id <$> ns) s = Ok (r, s) ∧
       match r with
       | Some l => ∃ n, n ∈ ns ∧ l = n_second n ∧ fl_type l = CEPH_LOCK_EXCL
       | None => ∀ n, n ∈ ns → fl_type (n_second n) ≠ CEPH_LOCK_EXCL
       end.
Proof.
  intros Hb. induction ns as [|n ns IH]; intros Hin; [exists None; split; [done|intros n []%elem_of_nil]|].
  cbn [fmap list_fmap contains_exclusive_lock]. unfold mbind, M_bind. rewrite (at_ok s n Hb) by (apply Hin; left). fold (n_id <$> ns).
  destruct (Z.eqb_spec CEPH_LOCK_EXCL (fl_type (n_second n))) as [E|E].
  - exists (Some (n_second n)). split; [done|]. exists n. split; [left|done].
  - destruct IH as (r & -> & Hr); [intros k Hk; apply Hin; by right|]. exists r. split; [done|]. destruct r as [l|].
    + destruct Hr as (k & ? & ?). exists k. split; [by right|done].
    + intros k [->|Hk]%elem_of_cons; [congruence|by apply Hr].
Qed.

(** ** The waiting locks

    They are ordered by their first byte and counted for each client; a lock is
    found, and taken off, by its owner and its range. *)

Definition same_request (fl : ceph_filelock) (q : Z * ceph_filelock) : Prop :=
  fl_start q.2 = fl_start fl ∧ fl_length q.2 = fl_length fl ∧ owner_id q.2 = owner_id fl.

Definition number_waiting (c : Z) (l : list (Z * ceph_filelock)) : Z :=
  Z.of_nat (length (filter (λ q : Z * ceph_filelock, fl_client q.2 = c) l)).

Record waits (l : list (Z * ceph_filelock)) (counts : list (Z * Z)) : Prop := {
  wt_keys : ∀ q, q ∈ l → q.1 = fl_start q.2;
  wt_sorted : StronglySorted (λ q r, q.1 <= r.1) l;
  wt_ordered : ordered counts;
  wt_counts : ∀ c, count_of counts c = s32 (number_waiting c l);
}.

Lemma number_waiting_perm c l k : l ≡ₚ k → number_waiting c l = number_waiting c k.
Proof. intros E. unfold number_waiting. by rewrite E. Qed.
Lemma number_waiting_cons c q l : number_waiting c (q :: l) = number_waiting c l + if decide (fl_client q.2 = c) then 1 else 0.
Proof. unfold number_waiting. rewrite filter_cons. destruct (decide _); simpl; lia. Qed.

(** ** Finding a request *)

Lemma find_key_ok k l : StronglySorted (λ q r : Z * ceph_filelock, q.1 <= r.1) l →
  ∃ a b, find_key k l = (a, b) ∧ l = a ++ b ∧ (∀ q, q ∈ a → q.1 ≠ k) ∧ ∀ q, q ∈ b → k <= q.1.
Proof.
  induction l as [|p l IH]; intros Hs; [exists [], []; split; [done|split; [done|split; intros q []%elem_of_nil]]|].
  apply StronglySorted_inv in Hs as [Hs Hp]. cbn [find_key]. destruct (Z.eqb_spec p.1 k) as [E|E].
  - exists [], (p :: l). split; [done|]. split; [done|]. split; [intros q []%elem_of_nil|].
    intros q [->|Hq]%elem_of_cons; [lia|]. pose proof (proj1 (Forall_forall _ _) Hp q Hq). simpl in *. lia.
  - destruct (IH Hs) as (a & b & -> & -> & Ha & Hb). exists (p :: a), b. split; [done|]. split; [done|].
    split; [intros q [->|Hq]%elem_of_cons; [done|by apply Ha]|done].
Qed.

Lemma match_ok fl (q : Z * ceph_filelock) : (fl_length q.2 =? fl_length fl) && ceph_filelock_owner_equal q.2 fl = true ↔
  fl_length q.2 = fl_length fl ∧ owner_id q.2 = owner_id fl.
Proof. by rewrite andb_true_iff, Z.eqb_eq, owner_equal_ok. Qed.

(** Scanning a list whose locks do not begin before [fl]. *)
Lemma waiting_from fl l : StronglySorted (λ q r : Z * ceph_filelock, q.1 <= r.1) l →
  (∀ q, q ∈ l → q.1 = fl_start q.2 ∧ fl_start fl <= q.1) →
  (is_waiting_from fl l = false ∧ remove_waiting_from fl l = (l, false) ∧ ∀ q, q ∈ l → ¬ same_request fl q) ∨
  (is_waiting_from fl l = true ∧ ∃ a q b, l = a ++ q :: b ∧ same_request fl q ∧ remove_waiting_from fl l = (a ++ b, true)).
Proof.
  induction l as [|p l IH]; intros Hs Hk; [left; split; [done|split; [done|intros q []%elem_of_nil]]|].
  apply StronglySorted_inv in Hs as [Hs Hp]. destruct (Hk p ltac:(left)) as [Ek Hle]. cbn [is_waiting_from remove_waiting_from].
  rewrite Z.gtb_ltb. destruct (Z.ltb_spec (fl_start fl) (fl_start p.2)) as [Hlt|Hge].
  - left. split; [done|]. split; [done|]. intros q Hq [E _]. apply elem_of_cons in Hq as [->|Hq]; [lia|].
    pose proof (proj1 (Forall_forall _ _) Hp q Hq). destruct (Hk q ltac:(by right)). simpl in *. lia.
  - destruct (_ && _) eqn:Em.
    + right. split; [done|]. apply match_ok in Em as [E1 E2]. exists [], p, l. split; [done|]. split; [|done]. split; [lia|done].
    + assert (¬ same_request fl p) as Hn by (intros (_ & E1 & E2); by rewrite (proj2 (match_ok fl p)) in Em).
      destruct IH as [(-> & -> & Hno)|(-> & a & q & b & -> & Hq & ->)]; [done|by intros q Hq; apply Hk; right|..].
      * left. split; [done|]. split; [done|]. by intros q [->|Hq]%elem_of_cons; [|apply Hno].
      * right. split; [done|]. by exists (p :: a), q, b.
Qed.

Lemma waiting_ok fl s : waits (waiting_locks s) (client_waiting_lock_counts s) →
  let '(before, from) := find_key (fl_start fl) (waiting_locks s) in
  waiting_locks s = before ++ from ∧
  ((is_waiting fl s = false ∧ remove_waiting_from fl from = (from, false) ∧ ∀ q, q ∈ waiting_locks s → ¬ same_request fl q) ∨
   (is_waiting fl s = true ∧ ∃ a q b, from = a ++ q :: b ∧ same_request fl q ∧ remove_waiting_from fl from = (a ++ b, true))).
Proof.
  intros [Hk Hs _ _]. destruct (find_key_ok (fl_start fl) _ Hs) as (before & from & E & El & Hb & Hf).
  unfold is_waiting. rewrite E. split; [done|]. cbn [snd].
  destruct (waiting_from fl from) as [(H1 & H2 & H3)|H]; [| |left|by right].
  - rewrite El in Hs. by apply StronglySorted_app in Hs as (_ & _ & Hs).
  - intros q Hq. split; [apply Hk; rewrite El, elem_of_app; by right|by apply Hf].
  - split; [done|]. split; [done|]. intros q Hq Hsr. rewrite El, elem_of_app in Hq. destruct Hq as [Hq|Hq]; [|by apply (H3 q)].
    apply (Hb q Hq). destruct Hsr as [<- _]. apply Hk. rewrite El, elem_of_app. by left.
Qed.

(** ** Taking a request off *)

Definition unwait (fl : ceph_filelock) (s : ceph_lock_state_t) : ceph_lock_state_t :=
  match remove_waiting fl s with Ok (_, s') => s' | Fault _ => s end.

Lemma unwait_run fl s : remove_waiting fl s = Ok (tt, unwait fl s).
Proof. done. Qed.

(** The held locks stay as they are. *)
Definition same_held (s s' : ceph_lock_state_t) : Prop :=
  held_locks s' = held_locks s ∧ next_id s' = next_id s ∧ client_held_lock_counts s' = client_held_lock_counts s.

Lemma unwait_held fl s : same_held s (unwait fl s).
Proof.
  unfold unwait, remove_waiting, modify. destruct (find_key _ _) as [before from]. destruct (remove_waiting_from fl from) as [r [|]]; done.
Qed.

Lemma insert_waiting_perm k fl l : insert_waiting k fl l ≡ₚ (k, fl) :: l.
Proof.
  induction l as [|m l IH]; simpl; [done|]. destruct (_ <=? _); [|done]. etrans; [apply perm_skip, IH|apply perm_swap].
Qed.

Lemma waits_add fl l counts : waits l counts → waits (insert_waiting (fl_start fl) fl l)
  (map_put counts (fl_client fl) (s32 (count_of counts (fl_client fl) + 1))).
Proof.
  intros [Hk Hs Ho Hc]. pose proof (insert_waiting_perm (fl_start fl) fl l) as Hp.
  constructor.
  - intros q. rewrite Hp, elem_of_cons. intros [->|Hq]; [done|by apply Hk].
  - clear -Hs. induction l as [|m l IH]; simpl; [repeat constructor|]. apply StronglySorted_inv in Hs as [Hs Hm].
    destruct (Z.leb_spec m.1 (fl_start fl)) as [Hle|Hgt].
    + constructor; [by apply IH|]. rewrite insert_waiting_perm. by constructor.
    + constructor; [by constructor|]. constructor; [simpl; lia|]. eapply Forall_impl; [exact Hm|]. simpl. lia.
  - by apply map_put_ordered.
  - intros c. rewrite count_of_put, (number_waiting_perm c _ _ Hp), number_waiting_cons by done. cbn [snd].
    destruct (decide (c = fl_client fl)) as [->|Hn]; [by rewrite decide_True, Hc, s32_add_l by done|].
    by rewrite decide_False, Hc, Z.add_0_r by congruence.
Qed.

(** The removed request is one of the owner's, for the range. *)
Lemma unwait_ok fl s : waits (waiting_locks s) (client_waiting_lock_counts s) →
  waits (waiting_locks (unwait fl s)) (client_waiting_lock_counts (unwait fl s)) ∧
  (if is_waiting fl s then ∃ q, same_request fl q ∧ waiting_locks s ≡ₚ q :: waiting_locks (unwait fl s)
   else waiting_locks (unwait fl s) = waiting_locks s ∧ ∀ q, q ∈ waiting_locks s → ¬ same_request fl q).
Proof.
  intros Hw. pose proof (waiting_ok fl s Hw) as H. unfold unwait, remove_waiting, modify.
  destruct (find_key (fl_start fl) (waiting_locks s)) as [before from]. destruct H as [El [(-> & -> & Hno)|(-> & a & q & b & Ef & Hq & ->)]].
  - split; [done|]. split; [done|exact Hno].
  - cbn [with_waiting_counts with_waiting waiting_locks client_waiting_lock_counts].
    assert (waiting_locks s ≡ₚ q :: before ++ a ++ b) as Hp.
    { by rewrite El, Ef, <- !Permutation_middle. }
    assert (fl_client q.2 = fl_client fl) as Ecl by (destruct Hq as (_ & _ & E); exact (f_equal (λ o, o.1.1) E)).
    destruct Hw as [Hk Hs Ho Hc]. split; [|by exists q]. constructor.
    + intros r Hr. apply Hk. rewrite Hp. by right.
    + eapply sublist_sorted; [|exact Hs]. rewrite El, Ef. apply sublist_app; [done|]. apply sublist_app; [done|]. by apply sublist_cons.
    + destruct (_ =? 0); [apply map_del_ordered|]; by apply map_put_ordered.
    + intros c. set (n := s32 _). assert (∀ i, count_of (map_put (client_waiting_lock_counts s) (fl_client fl) n) i = s32 (number_waiting i (before ++ a ++ b))) as Hput.
      { intros i. rewrite count_of_put by done. pose proof (Hc i) as Hi. rewrite (number_waiting_perm i _ _ Hp), number_waiting_cons, Ecl in Hi.
        destruct (decide (i = fl_client fl)) as [->|Hn].
        - rewrite decide_True in Hi by done. unfold n. rewrite Hi. change (?a - 1) with (a + -1). rewrite s32_add_l. f_equal. lia.
        - rewrite decide_False in Hi by congruence. by rewrite Hi, Z.add_0_r. }
      destruct (Z.eqb_spec (count_of (map_put (client_waiting_lock_counts s) (fl_client fl) n) (fl_client fl)) 0) as [E0|]; [|apply Hput].
      rewrite count_of_del. destruct (decide (c = fl_client fl)) as [->|]; [|apply Hput]. by rewrite <- Hput, E0.
Qed.

(** ** The operations on the lock state

    Setting, removing and testing a lock run without a fault, keep the
    invariant, and change the view exactly as they should; the waiting locks
    are counted right. *)

(** A lock of another owner in the way. *)
Definition conflict (h : list node) (K : ceph_filelock) : Prop :=
  ∃ o p t, holds h o p t ∧ o ≠ owner_id K ∧ in_lock K p ∧ (fl_type K = CEPH_LOCK_EXCL ∨ t = CEPH_LOCK_EXCL).

Definition others (K : ceph_filelock) (h : list node) : list node := filter (λ n, owner_id (n_second n) ≠ owner_id K) (hits K h).
Definition own (K : ceph_filelock) (h : list node) : list node := filter (λ n, owner_id (n_second n) = owner_id K) (hits K h).

Lemma elem_of_others n K h : n ∈ others K h ↔ n ∈ h ∧ overlap (n_second n) K ∧ owner_id (n_second n) ≠ owner_id K.
Proof. unfold others. rewrite list_elem_of_filter, elem_of_hits. tauto. Qed.
Lemma elem_of_own n K h : n ∈ own K h ↔ n ∈ h ∧ owner_id (n_second n) = owner_id K ∧ overlap (n_second n) K.
Proof. unfold own. rewrite list_elem_of_filter, elem_of_hits. tauto. Qed.

Lemma own_sublist K h : sublist (own K h) h.
Proof. unfold own, hits. etrans; apply sublist_filter. Qed.

Lemma conflict_others s K : good s → span_ok K →
  conflict (held_locks s) K ↔
  ∃ n, n ∈ others K (held_locks s) ∧ (fl_type K = CEPH_LOCK_EXCL ∨ fl_type (n_second n) = CEPH_LOCK_EXCL).
Proof.
  intros [Ht _ _] [_ HK _]. split.
  - intros (o & p & t & (n & Hn & <- & Hp & <-) & Ho & Hq & Hty). exists n. split; [|done]. apply elem_of_others.
    split; [done|]. split; [|done]. apply overlap_in; [by apply (tidy_len s)|done|by exists p].
  - intros (n & (Hn & Hov & Ho)%elem_of_others & Hty). apply overlap_in in Hov as (p & Hp & Hq); [|by apply (tidy_len s)|done].
    exists (owner_id (n_second n)), p, (fl_type (n_second n)). split; [by exists n|done].
Qed.

(** Compatibility is a matter of the view. *)
Lemma compatible_view h nid : basic h nid →
  compatible h ↔ ∀ o o' p t t', holds h o p t → holds h o' p t' → o ≠ o' → t ≠ CEPH_LOCK_EXCL.
Proof.
  intros Hb. split.
  - intros Hc o o' p t t' (n & Hn & <- & Hp & <-) (m & Hm & <- & Hq & _) Ho. apply (Hc n m Hn Hm Ho).
    apply overlap_in; [by eapply length_nonneg..|by exists p].
  - intros Hv n m Hn Hm Ho Hov. apply overlap_in in Hov as (p & Hp & Hq); [|by eapply length_nonneg..].
    by apply (Hv (owner_id (n_second n)) (owner_id (n_second m)) p _ (fl_type (n_second m))); [exists n|exists m|].
Qed.

Lemma seen_compatible h nid N : basic h nid → compatible h → ¬ conflict h N →
  ∀ o o' p t t', seen N h o p t → seen N h o' p t' → o ≠ o' → t ≠ CEPH_LOCK_EXCL.
Proof.
  intros Hb Hc Hn o o' p t t' [(-> & Hp & ->)|[H _]] [(-> & Hq & ->)|[H' _]] Hne; [done|..].
  - intros E. apply Hn. exists o', p, t'. split; [done|]. split; [done|]. split; [done|by left].
  - intros ->. apply Hn. exists o, p, CEPH_LOCK_EXCL. split; [done|]. split; [done|]. split; [done|by right].
  - by eapply (proj1 (compatible_view h nid Hb) Hc).
Qed.

(** ** Setting a lock *)

Lemma own_making s K : good s → lock_ok K → making K (own K (held_locks s)) s.
Proof. intros [Ht Ha _] HK. constructor; [done..|]. intros n. apply elem_of_own. Qed.

Lemma own_sorted s K : tidy s → StronglySorted by_start (own K (held_locks s)).
Proof.
  intros Ht. pose proof (td_basic _ Ht) as Hb. eapply sublist_sorted; [apply own_sublist|].
  destruct Hb as [_ _ Hn Hs]. revert Hn Hs. generalize (held_locks s). intros h. induction h as [|n h IH]; [constructor|].
  intros Hn [Hs Hf]%StronglySorted_inv. constructor; [apply IH; [intros k Hk; apply Hn; by right|done]|].
  apply Forall_forall. intros k Hk. pose proof (proj1 (Forall_forall _ _) Hf k Hk) as Hle. unfold by_start. simpl in Hle.
  destruct (Hn n ltac:(left)) as [<- _]. by destruct (Hn k ltac:(by right)) as [<- _].
Qed.

Lemma adjust_locks_ok N (nbs : list node) s : good s → lock_ok N → NoDup (n_id <$> nbs) →
  (∀ n, n ∈ nbs → n ∈ held_locks s ∧ owner_id (n_second n) = owner_id N ∧ touches (n_second n) N) →
  ∃ N' s', adjust_locks (n_id <$> own N (held_locks s)) N (n_id <$> nbs) s = Ok (N', s') ∧ making N' [] s' ∧ made N N' s s'.
Proof.
  intros Hg HN Hnd Hnb. pose proof (td_basic _ (gd_tidy _ Hg)) as Hb. set (ns := own N (held_locks s)).
  destruct (adjust_olds ns (0 =? fl_length N) N s) as (N1 & s1 & E1 & Hmk1 & Hmd1 & Hk);
    [by apply own_making|by eapply ids_nodup; [|apply own_sublist]|by apply own_sorted, gd_tidy|by right|].
  destruct (join_neighbors N nbs HN N1 s1) as (N2 & s2 & E2 & Hmk2 & Hmd2); [done|done| |apply Hmd1|].
  - intros n Hn. destruct (Hnb n Hn) as (Hh & Ho & Ht). split; [|split; [|done]]; [|by rewrite (md_owner _ _ _ _ Hmd1)].
    apply Hk; [done|]. intros (m & Em & Hm)%list_elem_of_fmap. apply elem_of_own in Hm as (Hm & _ & Hov).
    rewrite <- (basic_unique _ _ n m Hb Hh Hm Em) in Hov. unfold overlap, touches in *.
    destruct (ba_node _ _ Hb n Hh) as [_ [? ? ? _]], HN as [? ? ? _]. lia.
  - exists N2, s2. split; [unfold adjust_locks, mbind, M_bind; by rewrite E1|]. split; [done|by eapply made_trans].
Qed.

(** The lock that was made room for is held. *)
Lemma making_plus N s : making N [] s →
  tidy (plus N s) ∧ apart (held_locks (plus N s)) ∧ ∀ o p t, holds (held_locks (plus N s)) o p t ↔ seen N (held_locks s) o p t.
Proof.
  intros [Ht Ha Hl Htodo]. pose proof (lk_length _ Hl) as LN.
  assert (∀ n, n ∈ held_locks s → owner_id (n_second n) = owner_id N → ¬ overlap (n_second n) N) as Hno.
  { intros n Hn Ho Hov. apply (elem_of_nil n). by apply Htodo. }
  split; [by apply plus_tidy|]. split.
  - intros n m [->|Hn]%elem_of_insert [->|Hm]%elem_of_insert Ho Hov; [done|..]; [|..|by apply Ha].
    + exfalso. by apply (Hno m Hm), overlap_sym.
    + exfalso. by apply (Hno n Hn).
  - intros o p t. unfold seen. split.
    + intros (n & [->|Hn]%elem_of_insert & <- & Hp & <-); [by left|]. right. split; [by exists n|].
      intros [Ho Hq]. apply (Hno n Hn Ho). apply overlap_in; [by apply (tidy_len s)|done|by exists p].
    + intros [(-> & Hp & ->)|[(n & Hn & H) _]]; eexists; (split; [apply elem_of_insert; eauto|done]).
Qed.

Lemma owner_client a b : owner_id a = owner_id b → fl_client a = fl_client b.
Proof. intros E. exact (f_equal (λ o, o.1.1) E). Qed.

Lemma same_held_good s s' : same_held s s' → good s → good s'.
Proof. intros (E1 & E2 & E3) [[Hb Hc] Ha Hco]. constructor; [constructor|..]; by rewrite ?E1, ?E2, ?E3. Qed.

Definition waited (fl : ceph_filelock) (s : ceph_lock_state_t) : ceph_lock_state_t :=
  with_waiting_counts (map_put (client_waiting_lock_counts s) (fl_client fl) (s32 (count_of (client_waiting_lock_counts s) (fl_client fl) + 1)))
    (with_waiting (insert_waiting (fl_start fl) fl (waiting_locks s)) s).

Lemma others_nil s K : (n_id <$> others K (held_locks s) = []) → ∀ n, n ∉ others K (held_locks s).
Proof. intros E%fmap_nil_inv n. rewrite E. apply not_elem_of_nil. Qed.

Lemma bind_ok {S A B} (m : M S A) (k : A → M S B) s a s' : m s = Ok (a, s') → (m ≫= k) s = k a s'.
Proof. intros E. unfold mbind, M_bind. by rewrite E. Qed.

Lemma bind_eq {S A B} (m m' : M S A) (k : A → M S B) s : m s = m' s → (m ≫= k) s = (m' ≫= k) s.
Proof. intros E. unfold mbind, M_bind. by rewrite E. Qed.

(** A request is refused, and may wait; or room is made and it is held. *)
Lemma add_lock_run N wait_on_fail replay s : good s → lock_ok N →
  (conflict (held_locks s) N ∧
   add_lock N wait_on_fail replay s = Ok ((false, N), if wait_on_fail && negb replay then waited N s else s)) ∨
  (¬ conflict (held_locks s) N ∧ ∃ N' s',
   add_lock N wait_on_fail replay s = Ok ((true, N'), plus N' s') ∧ making N' [] s' ∧ made N N' (unwait N s) s').
Proof.
  intros Hg HN. pose proof (lock_span N HN) as HK. pose proof (td_basic _ (gd_tidy _ Hg)) as Hb.
  destruct (get_overlapping_locks_ok N true s Hg HK) as (nbs & E & Hnd & Hnb).
  assert (∀ n, n ∈ others N (held_locks s) → n ∈ held_locks s) as Hoin by (by intros n (? & _)%elem_of_others).
  destruct (contains_exclusive_ok s (others N (held_locks s)) Hb Hoin) as (r & Er & Hr).
  pose proof (conflict_others s N Hg HK) as Hcf.
  destruct (adjust_locks_ok N nbs (unwait N s)) as (N' & s' & Ea & Hmk & Hmd);
    [by apply (same_held_good s), Hg; apply unwait_held|done|done|by destruct (unwait_held N s) as (-> & _)|].
  rewrite (proj1 (unwait_held N s)) in Ea.
  assert (fl_client N' = fl_client N) as Ecl by (apply owner_client, (md_owner _ _ _ _ Hmd)).
  assert (∀ (k : bool * ceph_filelock → M ceph_lock_state_t (bool * ceph_filelock)),
    ((_ ← remove_waiting N; new_lock ← adjust_locks (n_id <$> own N (held_locks s)) N (n_id <$> nbs); _ ← hold new_lock; mret (true, new_lock)) ≫= k) s =
    match hold N' s' with Ok (_, s'') => k (true, N') s'' | Fault f => Fault f end) as Eset.
  { intros k. unfold mbind, M_bind. by rewrite unwait_run, Ea. }
  unfold add_lock. rewrite (bind_ok (gets _) _ s (n_id <$> hits N (held_locks s), n_id <$> nbs) s) by (unfold gets; by rewrite E).
  cbv beta iota. rewrite (bind_ok _ _ s _ s (split_by_owner_ok N s (hits N (held_locks s)) Hb ltac:(by intros n [? _]%elem_of_hits))).
  cbv beta iota zeta. fold (others N (held_locks s)). fold (own N (held_locks s)).
  destruct (decide (n_id <$> others N (held_locks s) = [])) as [En|En].
  - right. pose proof (others_nil s N En) as Hno. split; [intros (n & Hn & _)%Hcf; by apply (Hno n)|].
    exists N', s'. split; [|done]. rewrite bool_decide_eq_true_2 by done. cbn [negb]. rewrite Eset.
    unfold hold, modify, mbind, M_bind, count_up, modify, plus. cbn. by rewrite Ecl.
  - rewrite bool_decide_eq_false_2 by done. cbn [negb]. destruct (Z.eqb_spec CEPH_LOCK_EXCL (fl_type N)) as [Et|Et].
    + left. split; [|unfold mbind, M_bind; by destruct (wait_on_fail && negb replay)].
      apply Hcf. destruct (others N (held_locks s)) as [|n l]; [done|]. exists n. split; [left|by left].
    + rewrite (bind_eq _ _ _ s (bind_ok _ _ s r s Er)). destruct r as [l|].
      * left. split; [|unfold mbind, M_bind; by destruct (wait_on_fail && negb replay)].
        destruct Hr as (n & Hn & -> & Hty). apply Hcf. exists n. split; [done|by right].
      * right. split; [intros (n & Hn & [Hty|Hty])%Hcf; [congruence|by apply (Hr n)]|].
        exists N', s'. split; [|done]. rewrite Eset.
        unfold hold, modify, mbind, M_bind, count_up, modify, plus. cbn. by rewrite Ecl.
Qed.

(** ** Removing and testing *)

Lemma cut_locks_ok (ns : list node) : ∀ N s, making N ns s → NoDup (n_id <$> ns) →
  ∃ s', cut_locks N (n_id <$> ns) s = Ok (tt, s') ∧ making N [] s' ∧ made N N s s'.
Proof.
  induction ns as [|m ns IH]; intros N s Hmk Hnd; [by exists s|]. pose proof Hmk as [Ht Ha Hl Htodo].
  destruct (proj1 (Htodo m) ltac:(by left)) as (Hm & Ho & Hov). pose proof (lock_span N Hl) as Hs.
  destruct (making_cut N m (m :: ns) ns s Hmk ltac:(by left) (todo_tail m ns Hnd)) as [H1 H2].
  destruct (IH N (cut N m s) H1) as (s' & E & Hmk' & Hmd'); [by apply NoDup_cons in Hnd as [_ ?]|].
  exists s'. split; [cbn [fmap list_fmap cut_locks]; by rewrite (bind_ok _ _ s tt _ (cut_run N m s (td_basic _ Ht) Hm Hs))|].
  split; [done|]. eapply made_trans; [|done]. constructor; [done..|apply cut_waiting].
Qed.

(** The type of the removal is not looked at. *)
Lemma cut_locks_type v R l s : cut_locks (with_type v R) l s = cut_locks R l s.
Proof.
  revert s. induction l as [|i l IH]; intros s; [done|]. cbn [cut_locks]. unfold mbind, M_bind.
  change (cut_lock (with_type v R) i s) with (cut_lock R i s). destruct (cut_lock R i s) as [[[] s']|]; [apply IH|done].
Qed.

Lemma remove_lock_run R s : good s → span_ok R →
  ∃ s', remove_lock R s = Ok (tt, s') ∧ good s' ∧ same_waiting s s' ∧
    ∀ o p t, holds (held_locks s') o p t ↔ holds (held_locks s) o p t ∧ ¬ (o = owner_id R ∧ in_lock R p).
Proof.
  intros Hg HR. pose proof (td_basic _ (gd_tidy _ Hg)) as Hb. pose proof HR as [R1 R2 R3].
  destruct (get_overlapping_locks_ok R false s Hg HR) as (nbs & E & _ & _). set (N := with_type CEPH_LOCK_SHARED R).
  assert (lock_ok N) as HN by (constructor; [done..|by left]).
  destruct (cut_locks_ok (own N (held_locks s)) N s) as (s' & Ec & Hmk & [_ _ _ Hseen Hwt]);
    [by apply own_making|by eapply ids_nodup; [|apply own_sublist]|].
  unfold N in Ec. rewrite cut_locks_type in Ec. pose proof Hmk as [Ht' Ha' _ Htodo'].
  assert (∀ o p t, holds (held_locks s') o p t ↔ holds (held_locks s) o p t ∧ ¬ (o = owner_id R ∧ in_lock R p)) as Hv.
  { intros o p t. specialize (Hseen o p t). unfold seen in Hseen. change (owner_id N) with (owner_id R) in Hseen.
    assert (∀ q, in_lock N q ↔ in_lock R q) as Hin by done. rewrite Hin in Hseen.
    assert (holds (held_locks s') o p t → ¬ (o = owner_id R ∧ in_lock R p)) as Hno; [|tauto].
    intros (n & Hn & <- & Hp & _) [Ho Hq]. apply (elem_of_nil n), Htodo'. split; [done|]. split; [done|].
    apply overlap_in; [by apply (tidy_len s')|done|by exists p]. }
  exists s'. split; [|split; [|done]].
  - unfold remove_lock. rewrite (bind_ok (gets _) _ s (n_id <$> hits R (held_locks s), n_id <$> nbs) s) by (unfold gets; by rewrite E).
    cbv beta iota. rewrite (bind_ok _ _ s _ s (split_by_owner_ok R s (hits R (held_locks s)) Hb ltac:(by intros n [? _]%elem_of_hits))).
    exact Ec.
  - constructor; [done..|]. apply (compatible_view _ _ (td_basic _ Ht')). intros o o' p t t' [H _]%Hv [H' _]%Hv.
    by apply (proj1 (compatible_view _ _ Hb) (gd_compatible _ Hg) o o' p t t').
Qed.

(** A held lock that is in the way, or the lock with the type [UNLOCK]. *)
Lemma look_for_lock_run K s : good s → span_ok K →
  ∃ r, look_for_lock K s = Ok (r, s) ∧
    ((conflict (held_locks s) K ∧ ∃ n, n ∈ held_locks s ∧ r = n_second n ∧ overlap r K ∧ owner_id r ≠ owner_id K ∧
        (fl_type K = CEPH_LOCK_EXCL ∨ fl_type r = CEPH_LOCK_EXCL)) ∨
     (¬ conflict (held_locks s) K ∧ r = with_type CEPH_LOCK_UNLOCK K)).
Proof.
  intros Hg HK. pose proof (td_basic _ (gd_tidy _ Hg)) as Hb.
  destruct (get_overlapping_locks_ok K false s Hg HK) as (nbs & E & _ & _). pose proof (conflict_others s K Hg HK) as Hcf.
  assert (∀ n, n ∈ others K (held_locks s) → n ∈ held_locks s) as Hoin by (by intros n (? & _)%elem_of_others).
  destruct (contains_exclusive_ok s (others K (held_locks s)) Hb Hoin) as (x & Ex & Hx).
  unfold look_for_lock. rewrite (bind_ok (gets _) _ s (n_id <$> hits K (held_locks s), n_id <$> nbs) s) by (unfold gets; by rewrite E).
  cbv beta iota. rewrite (bind_ok _ _ s _ s (split_by_owner_ok K s (hits K (held_locks s)) Hb ltac:(by intros n [? _]%elem_of_hits))).
  cbv beta iota. fold (others K (held_locks s)). destruct (others K (held_locks s)) as [|n l] eqn:El.
  - exists (with_type CEPH_LOCK_UNLOCK K). split; [done|]. right. split; [|done]. by intros (n & Hn%elem_of_nil & _)%Hcf.
  - assert (∀ n0, n0 ∈ n :: l → fl_type K = CEPH_LOCK_EXCL ∨ fl_type (n_second n0) = CEPH_LOCK_EXCL →
      conflict (held_locks s) K ∧ ∃ n1, n1 ∈ held_locks s ∧ n_second n0 = n_second n1 ∧ overlap (n_second n0) K ∧
        owner_id (n_second n0) ≠ owner_id K ∧ (fl_type K = CEPH_LOCK_EXCL ∨ fl_type (n_second n0) = CEPH_LOCK_EXCL)) as Hyes.
    { intros k Hk Hty. split; [apply Hcf; by exists k|]. rewrite <- El in Hk. apply elem_of_others in Hk as (? & ? & ?). by exists k. }
    cbn [fmap list_fmap]. destruct (Z.eqb_spec CEPH_LOCK_EXCL (fl_type K)) as [Et|Et].
    + exists (n_second n). split; [apply at_ok; [done|]; apply Hoin; left|]. left. apply Hyes; [left|by left].
    + change (n_id n :: _) with (n_id <$> n :: l). rewrite (bind_ok _ _ s x s Ex). destruct x as [lk|].
      * destruct Hx as (k & Hk & -> & Hty). exists (n_second k). split; [done|]. left. apply Hyes; [done|by right].
      * exists (with_type CEPH_LOCK_UNLOCK K). split; [done|]. right. split; [|done].
        intros (k & Hk & [Hty|Hty])%Hcf; [congruence|by apply (Hx k)].
Qed.
