(* ===== verification/FlockProps.v ===== *)
(** * Properties of the advisory locks (src/mds/flock.cc)

    The lock state as a map from owners and bytes to types: what each operation
    does to it, and what holds in every state the operations can reach. *)

From stdpp Require Import sorting.
From S2P Require Import Prelude StdMap Flock FlockSpec FlockStep.
From S2P Require Import FlockSearch.

Record lock_state_ok (s : ceph_lock_state_t) : Prop := {
  ls_good : good s;
  ls_waits : waits (waiting_locks s) (client_waiting_lock_counts s);
}.

(** ** Dropping the locks of a client *)

Lemma basic_sublist h h' nid : sublist h' h → basic h nid → basic h' nid.
Proof.
  intros Hs [H1 H2 H3 H4]. constructor.
  - eapply sublist_NoDup; [done|]. by apply fmap_sublist.
  - intros n Hn. by apply H2, (elem_of_sublist h' h).
  - intros n Hn. by apply H3, (elem_of_sublist h' h).
  - by eapply sublist_sorted.
Qed.

Lemma number_without {A} (f : A → Z) c i (l : list A) :
  length (filter (λ x, f x = i) (filter (λ x, f x ≠ c) l)) = if decide (i = c) then 0%nat else length (filter (λ x, f x = i) l).
Proof.
  rewrite list_filter_filter. destruct (decide (i = c)) as [->|Hn].
  - by rewrite filter_none by (by intros x _ []).
  - f_equal. apply list_filter_iff. intros x. split; [by intros []|]. intros <-. done.
Qed.

Lemma count_absent m c : map_count m c = false → count_of m c = 0.
Proof. unfold map_count, count_of. intros H%bool_decide_eq_false. by apply eq_None_not_Some in H as ->. Qed.

(** The counts and the list, with and without a client. *)
Lemma drop_client {A} (f : A → Z) c (l : list A) counts :
  ordered counts → (∀ i, count_of counts i = s32 (Z.of_nat (length (filter (λ x, f x = i) l)))) →
  Z.of_nat (length l) < 2147483648 →
  let l' := filter (λ x, f x ≠ c) l in
  ordered (map_del counts c) ∧ (∀ i, count_of (map_del counts c) i = s32 (Z.of_nat (length (filter (λ x, f x = i) l')))) ∧
  (map_count counts c = false → l' = l).
Proof.
  intros Ho Hc Hl l'. split; [by apply map_del_ordered|]. split.
  - intros i. unfold l'. rewrite count_of_del, number_without. destruct (decide (i = c)); [done|apply Hc].
  - intros H%count_absent. rewrite Hc in H. pose proof (length_filter (λ x, f x = c) l) as Hle.
    rewrite s32_small in H by (unfold is_s32; lia). apply filter_all. intros x Hx E.
    apply (filter_nil_not_elem_of (λ x, f x = c) l x); [apply nil_length_inv; lia|done|done].
Qed.

(** Fewer locks than an [int] counts. *)
Definition few (s : ceph_lock_state_t) : Prop :=
  Z.of_nat (length (held_locks s)) < 2147483648 ∧ Z.of_nat (length (waiting_locks s)) < 2147483648.

Lemma remove_all_ok c s : lock_state_ok s → few s →
  let s' := (remove_all_from c s).2 in
  lock_state_ok s' ∧ held_locks s' = filter (λ n, fl_client (n_second n) ≠ c) (held_locks s) ∧
  waiting_locks s' = filter (λ q : Z * ceph_filelock, fl_client q.2 ≠ c) (waiting_locks s).
Proof.
  intros [[[Hb [Hc1 Hc2]] Ha Hco] [W1 W2 W3 W4]] [F1 F2].
  destruct (drop_client (λ n, fl_client (n_second n)) c (held_locks s) (client_held_lock_counts s) Hc1 Hc2 F1) as (D1 & D2 & D3).
  destruct (drop_client (λ q : Z * ceph_filelock, fl_client q.2) c (waiting_locks s) (client_waiting_lock_counts s) W3 W4 F2) as (E1 & E2 & E3).
  set (h := filter _ (held_locks s)) in *. set (w := filter _ (waiting_locks s)) in *.
  assert (sublist h (held_locks s)) as Hs by apply sublist_filter. assert (sublist w (waiting_locks s)) as Hw by apply sublist_filter.
  assert (basic h (next_id s)) as Hb' by (by eapply basic_sublist).
  assert (apart h) as Ha' by (intros n m Hn Hm; apply Ha; by eapply elem_of_sublist).
  assert (compatible h) as Hco' by (intros n m Hn Hm; apply Hco; by eapply elem_of_sublist).
  intros s'.
  set (x := map_count (client_held_lock_counts s) c) in *. set (y := map_count (client_waiting_lock_counts s) c) in *.
  assert (s' = LockState (if x then h else held_locks s) (next_id s) (if y then w else waiting_locks s)
    (if x then map_del (client_held_lock_counts s) c else client_held_lock_counts s)
    (if y then map_del (client_waiting_lock_counts s) c else client_waiting_lock_counts s)) as ->.
  { unfold s', remove_all_from. fold x. destruct x; cbn; fold y; by destruct y, s. }
  cbn [held_locks next_id waiting_locks client_held_lock_counts client_waiting_lock_counts].
  assert ((if x then h else held_locks s) = h) as Eh by (destruct x; [done|exact (eq_sym (D3 eq_refl))]).
  assert ((if y then w else waiting_locks s) = w) as Ew by (destruct y; [done|exact (eq_sym (E3 eq_refl))]).
  split; [|done]. constructor; [constructor; [constructor|..]|]; cbn; rewrite ?Eh, ?Ew; try done.
  - constructor; [by destruct x|]. intros i. destruct x; [exact (D2 i)|]. rewrite (D3 eq_refl). exact (Hc2 i).
  - constructor; [intros q Hq; apply W1; by eapply elem_of_sublist|by eapply sublist_sorted|by destruct y|].
    intros i. destruct y; [exact (E2 i)|]. rewrite (E3 eq_refl). exact (W4 i).
Qed.

(** ** Keeping the state *)

Lemma plus_good N s s0 N0 : making N [] s → made N0 N s0 s → lock_ok N0 → good s0 → ¬ conflict (held_locks s0) N0 →
  good (plus N s) ∧ ∀ o p t, holds (held_locks (plus N s)) o p t ↔ seen N0 (held_locks s0) o p t.
Proof.
  intros Hmk [_ _ _ Hs _] HN0 Hg Hn. destruct (making_plus N s Hmk) as (Ht & Ha & Hv).
  assert (∀ o p t, holds (held_locks (plus N s)) o p t ↔ seen N0 (held_locks s0) o p t) as Hv' by (intros o p t; by rewrite Hv, Hs).
  split; [|done]. constructor; [done..|]. apply (compatible_view _ _ (td_basic _ Ht)). intros o o' p t t' H%Hv' H'%Hv'.
  by eapply (seen_compatible _ _ N0 (td_basic _ (gd_tidy _ Hg)) (gd_compatible _ Hg) Hn).
Qed.

Lemma add_lock_ok s N wait_on_fail replay : lock_state_ok s → lock_ok N →
  ∃ ret N' s', add_lock N wait_on_fail replay s = Ok ((ret, N'), s') ∧ lock_state_ok s' ∧
    (ret = true ↔ ¬ conflict (held_locks s) N) ∧
    (∀ o p t, holds (held_locks s') o p t ↔ if (ret : bool) then seen N (held_locks s) o p t else holds (held_locks s) o p t) ∧
    waiting_locks s' = (if (ret : bool) then waiting_locks (unwait N s)
                        else if wait_on_fail && negb replay then insert_waiting (fl_start N) N (waiting_locks s) else waiting_locks s).
Proof.
  intros [Hg Hw] HN. destruct (add_lock_run N wait_on_fail replay s Hg HN) as [[Hc E]|[Hc (N' & s' & E & Hmk & Hmd)]].
  - eexists false, N, _. split; [exact E|]. split; [|split; [split; [done|tauto]|destruct (wait_on_fail && negb replay); done]].
    destruct (wait_on_fail && negb replay); [|done]. constructor; [by apply (same_held_good s)|]. by apply waits_add.
  - destruct (unwait_held N s) as (E1 & E2 & E3). pose proof (same_held_good s (unwait N s) (unwait_held N s) Hg) as Hg'.
    destruct (plus_good N' s' (unwait N s) N Hmk Hmd HN Hg') as [Hgp Hv]; [by rewrite E1|]. rewrite E1 in Hv.
    pose proof (md_waiting _ _ _ _ Hmd) as [W1 W2]. exists true, N', (plus N' s'). split; [done|]. split; [|split; [done|split; [done|exact W1]]].
    constructor; [done|]. cbn [plus waiting_locks client_waiting_lock_counts]. rewrite W1, W2. by apply unwait_ok.
Qed.

Lemma remove_lock_ok s R : lock_state_ok s → span_ok R →
  ∃ s', remove_lock R s = Ok (tt, s') ∧ lock_state_ok s' ∧ waiting_locks s' = waiting_locks s ∧
    ∀ o p t, holds (held_locks s') o p t ↔ holds (held_locks s) o p t ∧ ¬ (o = owner_id R ∧ in_lock R p).
Proof.
  intros [Hg Hw] HR. destruct (remove_lock_run R s Hg HR) as (s' & E & Hg' & [W1 W2] & Hv).
  exists s'. split; [done|]. split; [|done]. constructor; [done|]. by rewrite W1, W2.
Qed.

Lemma no_locks_ok : lock_state_ok no_locks.
Proof.
  constructor; [constructor; [constructor|..]|]; try (intros n m []%elem_of_nil).
  - constructor; [constructor|intros n []%elem_of_nil..|constructor].
  - constructor; [constructor|done].
  - constructor; [intros q []%elem_of_nil|constructor|constructor|done].
Qed.

(** ** Samples *)

(** Client 1 has the bytes 0 to 9 for reading and 10 to 19 for writing. *)
Definition lock_of (client start length type : Z) : ceph_filelock := Filelock start length client 9223372036854775808 0 type.
Definition after (m : M ceph_lock_state_t (bool * ceph_filelock)) (s : ceph_lock_state_t) : ceph_lock_state_t :=
  match m s with Ok (_, s') => s' | Fault _ => s end.
Definition two_held : ceph_lock_state_t :=
  after (add_lock (lock_of 1 10 10 CEPH_LOCK_EXCL) false false) (after (add_lock (lock_of 1 0 10 CEPH_LOCK_SHARED) false false) no_locks).

Lemma sample_lock c start len type : 0 <= start <= 1000 → 0 <= len <= 1000 → type = CEPH_LOCK_SHARED ∨ type = CEPH_LOCK_EXCL →
  lock_ok (lock_of c start len type).
Proof. intros ? ? ?. constructor; simpl; unfold LIMIT; lia || done. Qed.

Lemma after_ok N w r s : lock_state_ok s → lock_ok N → lock_state_ok (after (add_lock N w r) s).
Proof. intros Hs HN. unfold after. destruct (add_lock_ok s N w r Hs HN) as (ret & N' & s' & -> & H & _). done. Qed.

Lemma two_held_ok : lock_state_ok two_held.
Proof. apply after_ok; [apply after_ok; [apply no_locks_ok|]|]; apply sample_lock; (lia || by auto). Qed.

(** ** The operations *)

(** C14: Setting a shared or exclusive lock that starts and ends at no byte
    beyond 2^31 (or is unbounded) refines the map from owners and bytes to types, in a
    state of such locks (beyond that range the code's sums escape, see
    [merged_end_wraps]).  It never faults; it is refused exactly when another owner holds a byte of the
    range and one of the two locks is exclusive, and then leaves the map alone;
    otherwise the owner has exactly the bytes of the range with the type of the
    lock, and everything else stays.  The locks stay disjoint, counted and
    compatible; a request is taken off the waiting list when it is granted and
    put on it, if asked, when it is refused. *)
Theorem add_lock_refines s N wait_on_fail replay :
  lock_state_ok s → lock_ok N →
  ∃ ret N' s', add_lock N wait_on_fail replay s = Ok ((ret, N'), s') ∧ lock_state_ok s' ∧
    (ret = true ↔ ¬ conflict (held_locks s) N) ∧
    (∀ o p t, holds (held_locks s') o p t ↔ if (ret : bool) then seen N (held_locks s) o p t else holds (held_locks s) o p t) ∧
    waiting_locks s' = (if (ret : bool) then waiting_locks (unwait N s)
                        else if wait_on_fail && negb replay then insert_waiting (fl_start N) N (waiting_locks s) else waiting_locks s).
Proof. apply add_lock_ok. Qed.

Theorem add_lock_refines_witness :
  ∃ ret N' s', add_lock (lock_of 1 5 10 CEPH_LOCK_SHARED) true false two_held = Ok ((ret, N'), s') ∧ lock_state_ok s' ∧
    (ret = true ↔ ¬ conflict (held_locks two_held) (lock_of 1 5 10 CEPH_LOCK_SHARED)) ∧
    (∀ o p t, holds (held_locks s') o p t ↔
       if (ret : bool) then seen (lock_of 1 5 10 CEPH_LOCK_SHARED) (held_locks two_held) o p t else holds (held_locks two_held) o p t) ∧
    waiting_locks s' = (if (ret : bool) then waiting_locks (unwait (lock_of 1 5 10 CEPH_LOCK_SHARED) two_held)
                        else if true && negb false then insert_waiting 5 (lock_of 1 5 10 CEPH_LOCK_SHARED) (waiting_locks two_held)
                             else waiting_locks two_held).
Proof. apply add_lock_refines; [exact two_held_ok|apply sample_lock; (lia || by auto)]. Defined.

(** The lock that was asked for took the tail of the first lock and the head of
    the second, and merged with the first. *)
Example add_lock_sample : ∃ s', add_lock (lock_of 1 5 10 CEPH_LOCK_SHARED) true false two_held =
  Ok ((true, lock_of 1 0 15 CEPH_LOCK_SHARED), s') ∧
  n_second <$> held_locks s' = [lock_of 1 0 15 CEPH_LOCK_SHARED; lock_of 1 15 5 CEPH_LOCK_EXCL].
Proof. eexists. by vm_compute. Qed.

(** Removing a range takes exactly its bytes from the owner, whatever their
    type, and leaves every other byte and the waiting locks. *)
Theorem remove_lock_exact s R :
  lock_state_ok s → span_ok R →
  ∃ s', remove_lock R s = Ok (tt, s') ∧ lock_state_ok s' ∧ waiting_locks s' = waiting_locks s ∧
    ∀ o p t, holds (held_locks s') o p t ↔ holds (held_locks s) o p t ∧ ¬ (o = owner_id R ∧ in_lock R p).
Proof. apply remove_lock_ok. Qed.

Theorem remove_lock_exact_witness :
  ∃ s', remove_lock (lock_of 1 5 10 CEPH_LOCK_UNLOCK) two_held = Ok (tt, s') ∧ lock_state_ok s' ∧
    waiting_locks s' = waiting_locks two_held ∧
    ∀ o p t, holds (held_locks s') o p t ↔
      holds (held_locks two_held) o p t ∧ ¬ (o = owner_id (lock_of 1 5 10 CEPH_LOCK_UNLOCK) ∧ in_lock (lock_of 1 5 10 CEPH_LOCK_UNLOCK) p).
Proof. apply remove_lock_exact; [exact two_held_ok|]. constructor; simpl; unfold LIMIT; lia. Defined.

(** Testing a lock changes nothing.  It answers a held lock of another
    owner that is in the way if there is one, and otherwise the lock itself
    with the type [UNLOCK]; so it predicts whether setting the lock succeeds. *)
Theorem look_for_lock_exact s K :
  lock_state_ok s → span_ok K →
  ∃ r, look_for_lock K s = Ok (r, s) ∧
    ((conflict (held_locks s) K ∧ ∃ n, n ∈ held_locks s ∧ r = n_second n ∧ overlap r K ∧ owner_id r ≠ owner_id K ∧
        (fl_type K = CEPH_LOCK_EXCL ∨ fl_type r = CEPH_LOCK_EXCL)) ∨
     (¬ conflict (held_locks s) K ∧ r = with_type CEPH_LOCK_UNLOCK K)).
Proof. intros [Hg _]. by apply look_for_lock_run. Qed.

Theorem look_for_lock_exact_witness :
  let K := lock_of 2 5 10 CEPH_LOCK_SHARED in
  ∃ r, look_for_lock K two_held = Ok (r, two_held) ∧
    ((conflict (held_locks two_held) K ∧ ∃ n, n ∈ held_locks two_held ∧ r = n_second n ∧ overlap r K ∧ owner_id r ≠ owner_id K ∧
        (fl_type K = CEPH_LOCK_EXCL ∨ fl_type r = CEPH_LOCK_EXCL)) ∨
     (¬ conflict (held_locks two_held) K ∧ r = with_type CEPH_LOCK_UNLOCK K)).
Proof.
  apply (look_for_lock_exact two_held (lock_of 2 5 10 CEPH_LOCK_SHARED)); [exact two_held_ok|].
  apply lock_span, sample_lock; (lia || by auto).
Defined.

(** ** Every reachable state *)

(** A step of the server that owns the state. *)
Inductive flock_step : ceph_lock_state_t → ceph_lock_state_t → Prop :=
  | step_add N wait_on_fail replay ret N' s s' : lock_ok N → add_lock N wait_on_fail replay s = Ok ((ret, N'), s') → flock_step s s'
  | step_remove R s s' : span_ok R → remove_lock R s = Ok (tt, s') → flock_step s s'
  | step_unwait fl s s' : remove_waiting fl s = Ok (tt, s') → flock_step s s'
  | step_remove_all c s : few s → flock_step s (remove_all_from c s).2.

Lemma flock_step_ok s s' : flock_step s s' → lock_state_ok s → lock_state_ok s'.
Proof.
  intros [N w r ret N' s1 s2 HN E|R s1 s2 HR E|fl s1 s2 E|c s1 Hf] Hs.
  - destruct (add_lock_ok s1 N w r Hs HN) as (? & ? & ? & E' & H & _). by rewrite E in E'; injection E' as <- <- <-.
  - destruct (remove_lock_ok s1 R Hs HR) as (? & E' & H & _). by rewrite E in E'; injection E' as <-.
  - rewrite unwait_run in E. injection E as <-. destruct Hs as [Hg Hw]. constructor; [by apply (same_held_good s1); [apply unwait_held|]|].
    by apply unwait_ok.
  - by apply remove_all_ok.
Qed.

(** C15: In every state that setting locks that start and end at no byte beyond 2^31
    (or are unbounded), removing such ranges, giving up waiting, and dropping a
    client while fewer than 2^31 locks are held and fewer wait, can reach, a byte
    that one owner holds exclusively is held by nobody else, an owner holds a byte
    in one way only, and the counts of held and of waiting locks of each client
    are right, as 32-bit numbers. *)
Theorem locks_exclude s :
  rtc flock_step no_locks s →
  (∀ o o' p t t', holds (held_locks s) o p t → holds (held_locks s) o' p t' →
     if decide (o = o') then t = t' else t = CEPH_LOCK_SHARED ∧ t' = CEPH_LOCK_SHARED) ∧
  (∀ c, count_of (client_held_lock_counts s) c = s32 (number c (held_locks s))) ∧
  (∀ c, count_of (client_waiting_lock_counts s) c = s32 (number_waiting c (waiting_locks s))).
Proof.
  intros Hr. assert (lock_state_ok s) as [[[Hb [_ Hc]] Ha Hco] [_ _ _ Hw]].
  { revert Hr. generalize no_locks_ok. generalize no_locks. intros s0 H0 Hr. induction Hr as [|x y z Hxy _ IH]; [done|].
    apply IH. by eapply flock_step_ok. }
  split; [|done]. pose proof (proj1 (compatible_view _ _ Hb) Hco) as Hv.
  assert (∀ o p t, holds (held_locks s) o p t → t = CEPH_LOCK_SHARED ∨ t = CEPH_LOCK_EXCL) as Hty.
  { intros o p t (n & Hn & _ & _ & <-). by destruct (ba_node _ _ Hb n Hn) as [_ []]. }
  intros o o' p t t' H H'. destruct (decide (o = o')) as [<-|Hn].
  - destruct H as (n & Hin & <- & Hp & <-), H' as (m & Hm & Eo & Hq & <-).
    by rewrite (apart_same _ _ n m p Hb Ha Hin Hm).
  - split; [destruct (Hty _ _ _ H)|destruct (Hty _ _ _ H')]; [done| |done|]; exfalso.
    + by apply (Hv o o' p t t').
    + by apply (Hv o' o p t' t).
Qed.

Theorem locks_exclude_witness :
  (∀ o o' p t t', holds (held_locks two_held) o p t → holds (held_locks two_held) o' p t' →
     if decide (o = o') then t = t' else t = CEPH_LOCK_SHARED ∧ t' = CEPH_LOCK_SHARED) ∧
  (∀ c, count_of (client_held_lock_counts two_held) c = s32 (number c (held_locks two_held))) ∧
  (∀ c, count_of (client_waiting_lock_counts two_held) c = s32 (number_waiting c (waiting_locks two_held))).
Proof.
  apply (locks_exclude two_held).
  eapply rtc_l; [eapply (step_add (lock_of 1 0 10 CEPH_LOCK_SHARED) false false); [apply sample_lock; (lia || by auto)|vm_compute; reflexivity]|].
  eapply rtc_l; [eapply (step_add (lock_of 1 10 10 CEPH_LOCK_EXCL) false false); [apply sample_lock; (lia || by auto)|vm_compute; reflexivity]|].
  apply rtc_refl.
Defined.

(** ** The end of a merged lock is an [int] *)

(** Two overlapping locks that end at 2^31 merge to a lock of almost 2^64 bytes. *)
Example merged_end_wraps : ∃ s, add_lock (lock_of 1 10 2147483639 CEPH_LOCK_SHARED) false false
    (after (add_lock (lock_of 1 0 20 CEPH_LOCK_SHARED) false false) no_locks) =
  Ok ((true, lock_of 1 0 18446744071562067969 CEPH_LOCK_SHARED), s).
Proof. eexists. by vm_compute. Qed.
