(* ===== verification/Frag.v ===== *)
(** * Directory fragments (src/include/ceph_frag.h, frag.h, common/ceph_frag.cc)

    A fragment is a subset of a 24-bit number space, given by its leading bits
    and encoded in a word; a [fragtree_t] says which fragments are split, and by
    how many bits; a [fragset_t] is a set of fragments.  An [std::map] whose
    order is not observed is a [gmap], an [std::set] the sorted list of its
    elements. *)

From stdpp Require Import gmap.
From S2P Require Import Prelude.

(** ** Fragments *)

(** [0xffffffu << (24 - b)], with the shift count unsigned. *)
Definition frag_ones (b : Z) : res Z :=
  if u32 (24 - b) <? 32 then Ok (u32 (Z.shiftl 16777215 (24 - b))) else Fault BadShift.

(** [0x1000000 >> b] *)
Definition frag_bit (b : Z) : res Z := if b <? 32 then Ok (Z.shiftr 16777216 b) else Fault BadShift.

Definition ceph_frag_make (b v : Z) : res Z :=
  ones ← frag_ones b; Ok (Z.lor (u32 (Z.shiftl b 24)) (Z.land (Z.land v ones) 16777215)).
Definition ceph_frag_bits (f : Z) : Z := Z.shiftr f 24.
Definition ceph_frag_value (f : Z) : Z := Z.land f 16777215.
Definition ceph_frag_mask (f : Z) : res Z := ones ← frag_ones (ceph_frag_bits f); Ok (Z.land ones 16777215).
Definition ceph_frag_mask_shift (f : Z) : Z := u32 (24 - ceph_frag_bits f).

Definition ceph_frag_contains_value (f v : Z) : res bool :=
  mask ← ceph_frag_mask f; Ok (Z.land v mask =? ceph_frag_value f).
Definition ceph_frag_contains_frag (f sub : Z) : res bool :=
  if negb (ceph_frag_bits f <=? ceph_frag_bits sub) then Ok false
  else mask ← ceph_frag_mask f; Ok (Z.land (ceph_frag_value sub) mask =? ceph_frag_value f).

Definition ceph_frag_parent (f : Z) : res Z :=
  mask ← ceph_frag_mask f;
  ceph_frag_make (u32 (ceph_frag_bits f - 1)) (Z.land (ceph_frag_value f) (u32 (Z.shiftl mask 1))).
Definition ceph_frag_is_left_child (f : Z) : res bool :=
  if ceph_frag_bits f >? 0 then bit ← frag_bit (ceph_frag_bits f); Ok (Z.land (ceph_frag_value f) bit =? 0) else Ok false.
Definition ceph_frag_is_right_child (f : Z) : res bool :=
  if ceph_frag_bits f >? 0 then bit ← frag_bit (ceph_frag_bits f); Ok (Z.land (ceph_frag_value f) bit =? 1) else Ok false.
Definition ceph_frag_sibling (f : Z) : res Z :=
  bit ← frag_bit (ceph_frag_bits f); ceph_frag_make (ceph_frag_bits f) (Z.lxor (ceph_frag_value f) bit).
Definition ceph_frag_left_child (f : Z) : res Z := ceph_frag_make (u32 (ceph_frag_bits f + 1)) (ceph_frag_value f).
Definition ceph_frag_right_child (f : Z) : res Z :=
  bit ← frag_bit (1 + ceph_frag_bits f); ceph_frag_make (u32 (ceph_frag_bits f + 1)) (Z.lor (ceph_frag_value f) bit).
Definition ceph_frag_make_child (f by_ i : Z) : res Z :=
  let newbits := s32 (ceph_frag_bits f + by_) in
  if (0 <=? 24 - newbits) && (24 - newbits <? 32) then
    ceph_frag_make (u32 newbits) (Z.lor (ceph_frag_value f) (u32 (Z.shiftl i (24 - newbits))))
  else Fault BadShift.
Definition ceph_frag_is_leftmost (f : Z) : bool := ceph_frag_value f =? 0.
Definition ceph_frag_is_rightmost (f : Z) : res bool := mask ← ceph_frag_mask f; Ok (ceph_frag_value f =? mask).
Definition ceph_frag_next (f : Z) : res Z :=
  bit ← frag_bit (ceph_frag_bits f); ceph_frag_make (ceph_frag_bits f) (u32 (ceph_frag_value f + bit)).

Definition ceph_frag_compare (a b : Z) : Z :=
  if ceph_frag_value a <? ceph_frag_value b then -1
  else if ceph_frag_value a >? ceph_frag_value b then 1
  else if ceph_frag_bits a <? ceph_frag_bits b then -1
  else if ceph_frag_bits a >? ceph_frag_bits b then 1 else 0.

(** The class [frag_t] around them. *)
Definition is_root (f : Z) : bool := ceph_frag_bits f =? 0.
Definition frag_parent (f : Z) : res Z := _ ← assert_c (ceph_frag_bits f >? 0); ceph_frag_parent f.

(** [1 << nb] *)
Definition nway (nb : Z) : res Z := if (0 <=? nb) && (nb <? 31) then Ok (Z.shiftl 1 nb) else Fault BadShift.
Definition make_child (f i nb : Z) : res Z :=
  n ← nway nb; _ ← assert_c (i <? n); ceph_frag_make_child f nb i.
(** The fragments pushed, in their order. *)
Definition frag_split (f nb : Z) : res (list Z) :=
  _ ← assert_c (nb >? 0); n ← nway nb; mapM (λ i, make_child f i nb) (seqZ 0 n).
Definition get_sibling (f : Z) : res Z := _ ← assert_c (negb (is_root f)); ceph_frag_sibling f.
Definition frag_next (f : Z) : res Z :=
  r ← ceph_frag_is_rightmost f; _ ← assert_c (negb r); ceph_frag_next f.

(** ** Trees *)

(** [_splits] *)
Definition fragtree_t : Type := gmap Z Z.

Definition get_split (t : fragtree_t) (hb : Z) : Z := default 0 (t !! hb).

(** At most 24 steps lead to the root. *)
Fixpoint get_branch_from (fuel : nat) (t : fragtree_t) (x : Z) : res Z :=
  match fuel with
  | O => Fault Diverge
  | S fuel =>
      if x =? 0 then Ok x
      else if negb (get_split t x =? 0) then Ok x
      else x ← frag_parent x; get_branch_from fuel t x
  end.
Definition get_branch (t : fragtree_t) (x : Z) : res Z := get_branch_from 26 t x.

Fixpoint get_branch_above_from (fuel : nat) (t : fragtree_t) (x : Z) : res Z :=
  match fuel with
  | O => Fault Diverge
  | S fuel =>
      if x =? 0 then Ok x
      else x ← frag_parent x; if negb (get_split t x =? 0) then Ok x else get_branch_above_from fuel t x
  end.
Definition get_branch_above (t : fragtree_t) (x : Z) : res Z := get_branch_above_from 26 t x.

Definition get_branch_or_leaf (t : fragtree_t) (x : Z) : res Z :=
  branch ← get_branch t x;
  let nb := get_split t branch in
  if (nb >? 0) && (u32 (ceph_frag_bits branch + nb) <=? ceph_frag_bits x)
  then ceph_frag_make (u32 (ceph_frag_bits branch + nb)) (ceph_frag_value x) else Ok branch.

(** The number of fragments below a fragment, itself included: the turns of the
    loops that walk over them. *)
Fixpoint tree_size (depth : nat) (t : fragtree_t) (f : Z) : nat :=
  match depth with
  | O => 1
  | S depth =>
      if get_split t f =? 0 then 1
      else match frag_split f (get_split t f) with
           | Ok l => S (sum_list_with (tree_size depth t) l)
           | Fault _ => 1
           end
  end.

(** [q.back()] is the head of the list here. *)
Fixpoint leaves_loop (fuel : nat) (t : fragtree_t) (q ls : list Z) : res (list Z) :=
  match q with
  | [] => Ok ls
  | f :: q =>
      match fuel with
      | O => Fault Diverge
      | S fuel =>
          if negb (get_split t f =? 0) then l ← frag_split f (get_split t f); leaves_loop fuel t (reverse l ++ q) ls
          else leaves_loop fuel t q (f :: ls)
      end
  end.
Definition get_leaves_under_split (t : fragtree_t) (under : Z) : res (list Z) :=
  leaves_loop (tree_size 25 t under) t [under] [].
Definition get_leaves (t : fragtree_t) : res (list Z) := get_leaves_under_split t 0.

(** [q.front()] is the head of the list. *)
Fixpoint leaves_under_loop (fuel : nat) (t : fragtree_t) (x : Z) (q ls : list Z) : res (list Z) :=
  match q with
  | [] => Ok ls
  | f :: q =>
      match fuel with
      | O => Fault Diverge
      | S fuel =>
          skip ← (if ceph_frag_bits x <=? ceph_frag_bits f then c ← ceph_frag_contains_frag x f; Ok (negb c) else Ok false);
          if (skip : bool) then leaves_under_loop fuel t x q ls
          else if negb (get_split t f =? 0) then l ← frag_split f (get_split t f); leaves_under_loop fuel t x (q ++ l) ls
          else c ← ceph_frag_contains_frag x f;
               leaves_under_loop fuel t x q (if (c : bool) then ls ++ [f] else ls)
      end
  end.
Definition get_leaves_under (t : fragtree_t) (x : Z) : res (list Z) :=
  start ← get_branch_or_leaf t x; leaves_under_loop (tree_size 25 t start) t x [start] [].

Definition is_leaf (t : fragtree_t) (x : Z) : res bool :=
  ls ← get_leaves_under t x;
  Ok (match ls with [f] => f =? x | _ => false end).

Fixpoint contains_loop (fuel : nat) (t : fragtree_t) (x : Z) (q : list Z) : res bool :=
  match q with
  | [] => Ok false
  | f :: q =>
      match fuel with
      | O => Fault Diverge
      | S fuel =>
          skip ← (if ceph_frag_bits x <=? ceph_frag_bits f then c ← ceph_frag_contains_frag x f; Ok (negb c) else Ok false);
          if (skip : bool) then contains_loop fuel t x q
          else if negb (get_split t f =? 0) then
            if f =? x then Ok false
            else l ← frag_split f (get_split t f); contains_loop fuel t x (q ++ l)
          else if f =? x then Ok true else contains_loop fuel t x q
      end
  end.
Definition tree_contains (t : fragtree_t) (x : Z) : res bool :=
  start ← get_branch t x; contains_loop (tree_size 25 t start) t x [start].

(** The child that contains [v]. *)
Fixpoint pick_child (f nb v : Z) (l : list Z) : res Z :=
  match l with
  | [] => Fault AssertFailed
  | i :: l => n ← make_child f i nb; c ← ceph_frag_contains_value n v; if (c : bool) then Ok n else pick_child f nb v l
  end.

(** [operator[]] *)
Fixpoint lookup_from (fuel : nat) (t : fragtree_t) (v f : Z) : res Z :=
  match fuel with
  | O => Fault Diverge
  | S fuel =>
      c ← ceph_frag_contains_value f v; _ ← assert_c c;
      let nb := get_split t f in
      if nb =? 0 then Ok f
      else n ← nway nb; f ← pick_child f nb v (seqZ 0 n); lookup_from fuel t v f
  end.
Definition tree_lookup (t : fragtree_t) (v : Z) : res Z := lookup_from 26 t v 0.

(** *** Changes *)

(** The bits by which all the children are split, if they are all split alike. *)
Fixpoint common_bits (t : fragtree_t) (childbits : Z) (children : list Z) : option Z :=
  match children with
  | [] => Some childbits
  | p :: children =>
      let cb := get_split t p in
      if cb =? 0 then None
      else if negb (childbits =? 0) && negb (cb =? childbits) then None
      else common_bits t cb children
  end.

Definition try_assimilate_children (t : fragtree_t) (x : Z) : res fragtree_t :=
  let nb := get_split t x in
  if nb =? 0 then Ok t
  else
    children ← frag_split x nb;
    match common_bits t 0 children with
    | None => Ok t
    | Some childbits =>
        let t := foldl (λ t p, delete p t) t children in
        Ok (<[x := s32 (get_split t x + childbits)]> t)
    end.

Definition simplify_above (t : fragtree_t) (x : Z) (simplify : bool) : res fragtree_t :=
  if simplify then b ← get_branch_above t x; try_assimilate_children t b else Ok t.

Definition tree_split (t : fragtree_t) (x b : Z) (simplify : bool) : res fragtree_t :=
  l ← is_leaf t x; _ ← assert_c l; simplify_above (<[x := b]> t) x simplify.

Definition tree_merge (t : fragtree_t) (x b : Z) (simplify : bool) : res fragtree_t :=
  l ← is_leaf t x; _ ← assert_c (negb l); _ ← assert_c (get_split t x =? b); simplify_above (delete x t) x simplify.

Fixpoint split_all (t : fragtree_t) (b : Z) (subs : list Z) : res fragtree_t :=
  match subs with
  | [] => Ok t
  | p :: subs => t ← tree_split t p b false; split_all t b subs
  end.

(** Every turn takes one fragment off the queue or replaces one split by its
    children. *)
Definition splits_size (t : fragtree_t) : nat := map_fold (λ _ nb n, (Z.to_nat (2 ^ nb) + n)%nat) 1%nat t.

Fixpoint hoover (fuel : nat) (t : fragtree_t) (q : list Z) : res fragtree_t :=
  match q with
  | [] => Ok t
  | f :: q =>
      match fuel with
      | O => Fault Diverge
      | S fuel =>
          let nb := get_split t f in
          if negb (nb =? 0) then
            t ← tree_merge t f nb false; l ← frag_split f nb; hoover fuel t (q ++ l)
          else hoover fuel t q
      end
  end.

Definition force_to_leaf (t : fragtree_t) (x : Z) : res (bool * fragtree_t) :=
  l ← is_leaf t x;
  if (l : bool) then Ok (false, t) else
  parent ← get_branch_or_leaf t x;
  _ ← assert_c (ceph_frag_bits parent <=? ceph_frag_bits x);
  let finish (t : fragtree_t) : res (bool * fragtree_t) :=
    t ← hoover (splits_size t) t [x];
    l ← is_leaf t x; _ ← assert_c l; Ok (true, t) in
  if ceph_frag_bits parent <? ceph_frag_bits x then
    let spread := ceph_frag_bits x - ceph_frag_bits parent in
    let nb := get_split t parent in
    if nb =? 0 then
      t ← tree_split t parent spread true;
      l ← is_leaf t x; _ ← assert_c l; Ok (true, t)
    else
      _ ← assert_c (nb >? spread);
      t ← tree_merge t parent nb false;
      t ← tree_split t parent spread false;
      subs ← frag_split parent spread;
      t ← split_all t (nb - spread) subs;
      finish t
  else finish t.

(** ** Sets *)

Definition fragset_t : Type := list Z.

Fixpoint set_insert (f : Z) (s : fragset_t) : fragset_t :=
  match s with
  | [] => [f]
  | g :: s' => if f <? g then f :: s else if f =? g then s else g :: set_insert f s'
  end.
Definition set_erase (f : Z) (s : fragset_t) : fragset_t := filter (λ g, g ≠ f) s.
(** [++p] from the element [f]. *)
Definition set_next (f : Z) (s : fragset_t) : option Z := find (λ g, f <? g) s.

Fixpoint set_contains_from (fuel : nat) (s : fragset_t) (f : Z) : res bool :=
  match fuel with
  | O => Fault Diverge
  | S fuel =>
      if bool_decide (f ∈ s) then Ok true
      else if ceph_frag_bits f =? 0 then Ok false
      else f ← frag_parent f; set_contains_from fuel s f
  end.
Definition set_contains (s : fragset_t) (f : Z) : res bool := set_contains_from 26 s f.

(** One walk over the set, and whether it was clean. *)
Fixpoint simplify_walk (fuel : nat) (p : option Z) (s : fragset_t) (clean : bool) : res (fragset_t * bool) :=
  match p with
  | None => Ok (s, clean)
  | Some f =>
      match fuel with
      | O => Fault Diverge
      | S fuel =>
          sib ← (if is_root f then Ok None else g ← get_sibling f; Ok (if bool_decide (g ∈ s) then Some g else None));
          match sib with
          | Some g =>
              let s := set_erase g s in
              parent ← frag_parent f;
              let s := set_insert parent s in
              simplify_walk fuel (set_next f s) (set_erase f s) false
          | None => simplify_walk fuel (set_next f s) s clean
          end
      end
  end.

Fixpoint simplify_loop (fuel : nat) (s : fragset_t) : res fragset_t :=
  match fuel with
  | O => Fault Diverge
  | S fuel =>
      '(s, clean) ← simplify_walk (length s) (head s) s true;
      if (clean : bool) then Ok s else simplify_loop fuel s
  end.
(** A walk that is not clean makes the set smaller. *)
Definition simplify (s : fragset_t) : res fragset_t := simplify_loop (S (length s)) s.

Definition fragset_insert (f : Z) (s : fragset_t) : res fragset_t := simplify (set_insert f s).
