(* ===== verification/FragSpec.v ===== *)
(** * Fragments as dyadic intervals

    A fragment of [b] bits is the [k]-th of the [2^b] equal parts of the number
    space; the bit operations are arithmetic on [b] and [k]. *)

From stdpp Require Import gmap.
From S2P Require Import Prelude Frag.

(** ** Encoding *)

Definition fr (b k : Z) : Z := b * 2 ^ 24 + k * 2 ^ (24 - b).
Definition valid (b k : Z) : Prop := 0 <= b <= 24 ∧ 0 <= k < 2 ^ b.
(** The index of the part of [b] bits that contains [v]. *)
Definition part (v b : Z) : Z := v mod 2 ^ 24 / 2 ^ (24 - b).

Lemma pow_split b : 0 <= b <= 24 → 2 ^ 24 = 2 ^ b * 2 ^ (24 - b).
Proof. intros Hb. rewrite <- Z.pow_add_r by lia. f_equal. lia. Qed.

Lemma part_valid v b : 0 <= b <= 24 → valid b (part v b).
Proof.
  intros Hb. split; [done|]. unfold part. pose proof (Z.mod_pos_bound v (2 ^ 24) ltac:(lia)) as Hv.
  rewrite (pow_split b Hb) in Hv at 3. split; [apply Z.div_pos; lia|]. apply Z.div_lt_upper_bound; lia.
Qed.

Lemma valid_value b k : valid b k → 0 <= k * 2 ^ (24 - b) < 2 ^ 24.
Proof. intros [Hb Hk]. pose proof (pow_split b Hb). pose proof (Z.pow_pos_nonneg 2 (24 - b) ltac:(lia) ltac:(lia)). nia. Qed.

Lemma fr_inj b k b' k' : valid b k → valid b' k' → fr b k = fr b' k' → b = b' ∧ k = k'.
Proof.
  intros H H'. pose proof (valid_value _ _ H). pose proof (valid_value _ _ H'). unfold fr. intros E.
  assert (b = b') as <- by lia. split; [done|]. pose proof (Z.pow_pos_nonneg 2 (24 - b) ltac:(destruct H; lia) ltac:(destruct H; lia)). nia.
Qed.

Lemma ones24 : 16777215 = Z.ones 24.
Proof. reflexivity. Qed.

Lemma ones_bit c n : 0 <= c <= 24 → 0 <= n → Z.testbit (u32 (Z.shiftl 16777215 c)) n = (c <=? n) && (n <? 24 + c) && (n <? 32).
Proof.
  intros Hc Hn. unfold u32. change 4294967296 with (2 ^ 32). destruct (Z.ltb_spec n 32).
  - rewrite Z.mod_pow2_bits_low, Z.shiftl_spec, andb_true_r by lia. rewrite ones24. destruct (Z.leb_spec c n).
    + rewrite Z.testbit_ones_nonneg by lia. destruct (Z.ltb_spec (n - c) 24), (Z.ltb_spec n (24 + c)); lia || done.
    + by rewrite Z.testbit_neg_r by lia.
  - rewrite Z.mod_pow2_bits_high by lia. by rewrite andb_false_r.
Qed.

Lemma ones24_bit n : 0 <= n → Z.testbit 16777215 n = (n <? 24).
Proof. intros Hn. rewrite ones24, Z.testbit_ones_nonneg by lia. done. Qed.

(** The leading bits of a value. *)
Lemma land_top v c : 0 <= c <= 24 →
  Z.land (Z.land v (u32 (Z.shiftl 16777215 c))) 16777215 = v mod 2 ^ 24 / 2 ^ c * 2 ^ c.
Proof.
  intros Hc. rewrite <- Z.shiftr_div_pow2, <- Z.shiftl_mul_pow2 by lia. apply Z.bits_inj'. intros n Hn.
  rewrite !Z.land_spec, ones_bit, ones24_bit, Z.shiftl_spec by lia. destruct (Z.leb_spec c n).
  - rewrite Z.shiftr_spec by lia. replace (n - c + c) with n by lia. destruct (Z.ltb_spec n 24).
    + rewrite Z.mod_pow2_bits_low by lia. destruct (Z.ltb_spec n (24 + c)), (Z.ltb_spec n 32); try lia. by rewrite !andb_true_r.
    + rewrite Z.mod_pow2_bits_high by lia. by rewrite andb_false_r.
  - rewrite (Z.testbit_neg_r _ (n - c)) by lia. by rewrite andb_false_r.
Qed.

Lemma frag_lor_add a b n : 0 <= n → 0 <= b < 2 ^ n → Z.lor (a * 2 ^ n) b = a * 2 ^ n + b.
Proof.
  intros Hn Hb. assert (Z.land (a * 2 ^ n) b = 0) as H0.
  { apply Z.bits_inj'. intros i Hi. rewrite Z.land_spec, Z.bits_0. destruct (Z.ltb_spec i n).
    - by rewrite Z.mul_pow2_bits_low by lia.
    - destruct (Z.eq_dec b 0) as [->|]; [by rewrite Z.bits_0, andb_false_r|].
      rewrite (Z.bits_above_log2 b i), andb_false_r; [done|lia|]. apply Z.log2_lt_pow2; [lia|].
      eapply Z.lt_le_trans; [apply Hb|]. by apply Z.pow_le_mono_r. }
  by rewrite <- Z.lxor_lor, Z.add_nocarry_lxor.
Qed.

Lemma frag_ones_ok b : 0 <= b <= 24 → frag_ones b = Ok (u32 (Z.shiftl 16777215 (24 - b))).
Proof. intros Hb. unfold frag_ones. rewrite u32_small by (unfold is_u32; lia). by rewrite (proj2 (Z.ltb_lt _ _)) by lia. Qed.

Lemma make_ok b v : 0 <= b <= 24 → ceph_frag_make b v = Ok (fr b (part v b)).
Proof.
  intros Hb. unfold ceph_frag_make. rewrite frag_ones_ok by done. cbn [mbind res_bind]. f_equal.
  rewrite land_top by lia. fold (part v b). rewrite Z.shiftl_mul_pow2 by lia. rewrite u32_small by (unfold is_u32; lia).
  apply frag_lor_add; [lia|]. by apply valid_value, part_valid.
Qed.

Lemma bits_fr b k : valid b k → ceph_frag_bits (fr b k) = b.
Proof.
  intros H. pose proof (valid_value _ _ H). unfold ceph_frag_bits, fr. rewrite Z.shiftr_div_pow2 by lia.
  rewrite Z.div_add_l by lia. rewrite Z.div_small by lia. lia.
Qed.
Lemma value_fr b k : valid b k → ceph_frag_value (fr b k) = k * 2 ^ (24 - b).
Proof.
  intros H. pose proof (valid_value _ _ H). unfold ceph_frag_value, fr. rewrite ones24, Z.land_ones by lia.
  rewrite Z.add_comm, Z_mod_plus_full. apply Z.mod_small. lia.
Qed.

Lemma land_mask v b : 0 <= b <= 24 →
  Z.land v (Z.land (u32 (Z.shiftl 16777215 (24 - b))) 16777215) = part v b * 2 ^ (24 - b).
Proof. intros Hb. rewrite Z.land_assoc. apply land_top. lia. Qed.

Lemma mask_ok b k : valid b k → ceph_frag_mask (fr b k) = Ok (Z.land (u32 (Z.shiftl 16777215 (24 - b))) 16777215).
Proof. intros H. unfold ceph_frag_mask. rewrite bits_fr by done. destruct H. by rewrite frag_ones_ok. Qed.

Lemma mul_eqb a b n : 0 < n → (a * n =? b * n) = (a =? b).
Proof. intros Hn. destruct (Z.eqb_spec a b) as [->|]; [apply Z.eqb_refl|]. apply Z.eqb_neq. nia. Qed.

Lemma contains_value_ok b k v : valid b k → ceph_frag_contains_value (fr b k) v = Ok (part v b =? k).
Proof.
  intros H. unfold ceph_frag_contains_value. rewrite mask_ok by done. cbn [mbind res_bind]. f_equal.
  rewrite value_fr, land_mask by (done || apply H). apply mul_eqb. apply Z.pow_pos_nonneg; [lia|]. destruct H. lia.
Qed.

(** The base of a fragment, and the part that contains it. *)
Definition base (b k : Z) : Z := k * 2 ^ (24 - b).

Lemma part_base b k b' : valid b k → 0 <= b' <= b → part (base b k) b' = k / 2 ^ (b - b').
Proof.
  intros H Hb'. unfold part, base. rewrite Z.mod_small by (by apply valid_value). destruct H as [Hb _].
  replace (24 - b') with ((24 - b) + (b - b')) by lia. rewrite Z.pow_add_r by lia.
  rewrite <- Z.div_div by (try apply Z.pow_nonzero; try apply Z.pow_pos_nonneg; lia). rewrite Z.div_mul; [done|].
  apply Z.pow_nonzero; lia.
Qed.
Lemma part_base_self b k : valid b k → part (base b k) b = k.
Proof. intros H. rewrite part_base by (destruct H; lia || done). by rewrite Z.sub_diag, Z.div_1_r. Qed.

Lemma contains_frag_ok b k b' k' : valid b k → valid b' k' →
  ceph_frag_contains_frag (fr b k) (fr b' k') = Ok ((b <=? b') && (part (base b' k') b =? k)).
Proof.
  intros H H'. unfold ceph_frag_contains_frag. rewrite !bits_fr by done. destruct (Z.leb_spec b b'); [|done].
  cbn [negb andb]. rewrite mask_ok by done. cbn [mbind res_bind]. f_equal.
  rewrite !value_fr, land_mask by (done || apply H). apply mul_eqb. apply Z.pow_pos_nonneg; [lia|]. destruct H. lia.
Qed.

(** A coarser part is determined by a finer one. *)
Lemma part_part v b b' : 0 <= b' <= b → b <= 24 → part v b' = part v b / 2 ^ (b - b').
Proof.
  intros Hb' Hb. unfold part. rewrite Z.div_div by (try apply Z.pow_nonzero; try apply Z.pow_pos_nonneg; lia).
  rewrite <- Z.pow_add_r by lia. do 2 f_equal. lia.
Qed.
Lemma part_coarse v w b b' : 0 <= b' <= b → b <= 24 → part v b = part w b → part v b' = part w b'.
Proof. intros H1 H2 E. by rewrite !(part_part _ b b') by lia; rewrite E. Qed.

Lemma parent_ok b k : valid b k → 0 < b → frag_parent (fr b k) = Ok (fr (b - 1) (k / 2)).
Proof.
  intros H H0. unfold frag_parent, ceph_frag_parent. rewrite bits_fr, value_fr, mask_ok by done.
  rewrite Z.gtb_ltb, (proj2 (Z.ltb_lt _ _)) by done. cbn [assert_c mbind res_bind]. pose proof (valid_value _ _ H) as Hv.
  destruct H as [Hb Hk]. rewrite u32_small by (unfold is_u32; lia). rewrite make_ok by lia. do 2 f_equal. unfold part.
  assert (k / 2 = k * 2 ^ (24 - b) / 2 ^ (24 - (b - 1))) as ->.
  { replace (24 - (b - 1)) with ((24 - b) + 1) by lia. rewrite Z.pow_add_r, <- Z.div_div by (try apply Z.pow_nonzero; lia).
    rewrite Z.div_mul by (apply Z.pow_nonzero; lia). done. }
  set (w := k * 2 ^ (24 - b)) in *. rewrite <- !Z.shiftr_div_pow2 by lia. apply Z.bits_inj'. intros n Hn.
  rewrite !Z.shiftr_spec by lia. set (m := n + (24 - (b - 1))). destruct (Z.ltb_spec m 24) as [Hm|Hm].
  - rewrite Z.mod_pow2_bits_low, Z.land_spec by lia. unfold u32. change 4294967296 with (2 ^ 32).
    rewrite Z.mod_pow2_bits_low, Z.shiftl_spec, Z.land_spec by lia.
    rewrite Z.mod_pow2_bits_low, Z.shiftl_spec, !ones24_bit by lia.
    rewrite !(proj2 (Z.ltb_lt _ _)) by lia. by rewrite !andb_true_r.
  - rewrite Z.mod_pow2_bits_high by lia. symmetry. destruct (Z.eq_dec w 0) as [->|]; [apply Z.bits_0|].
    apply Z.bits_above_log2; [lia|]. apply Z.log2_lt_pow2; [lia|]. eapply Z.lt_le_trans; [apply Hv|]. apply Z.pow_le_mono_r; lia.
Qed.

Lemma nway_ok nb : 0 <= nb <= 24 → nway nb = Ok (2 ^ nb).
Proof.
  intros H. unfold nway. rewrite (proj2 (Z.leb_le _ _)), (proj2 (Z.ltb_lt _ _)) by lia. cbn [andb]. by rewrite Z.shiftl_1_l.
Qed.

Lemma child_valid b k nb i : valid b k → 0 <= nb → b + nb <= 24 → 0 <= i < 2 ^ nb → valid (b + nb) (k * 2 ^ nb + i).
Proof. intros [Hb Hk] Hnb Hs Hi. split; [lia|]. rewrite Z.pow_add_r by lia. nia. Qed.

Lemma make_child_ok b k nb i : valid b k → 0 <= nb → b + nb <= 24 → 0 <= i < 2 ^ nb →
  make_child (fr b k) i nb = Ok (fr (b + nb) (k * 2 ^ nb + i)).
Proof.
  intros H Hnb Hs Hi. pose proof (child_valid b k nb i H Hnb Hs Hi) as Hc. pose proof H as [Hb Hk].
  unfold make_child. rewrite nway_ok by lia. cbn [mbind res_bind].
  rewrite (proj2 (Z.ltb_lt _ _)) by lia. cbn [assert_c mbind res_bind].
  unfold ceph_frag_make_child. rewrite bits_fr, value_fr by done. rewrite s32_small by (unfold is_s32; lia).
  rewrite (proj2 (Z.leb_le _ _)), (proj2 (Z.ltb_lt _ _)) by lia. cbn [andb].
  rewrite (u32_small (b + nb)) by (unfold is_u32; lia). rewrite make_ok by lia. do 2 f_equal.
  assert (0 <= i * 2 ^ (24 - (b + nb)) < 2 ^ (24 - b)) as Hw.
  { replace (24 - b) with (nb + (24 - (b + nb))) by lia. rewrite Z.pow_add_r by lia.
    pose proof (Z.pow_pos_nonneg 2 (24 - (b + nb)) ltac:(lia) ltac:(lia)). nia. }
  rewrite Z.shiftl_mul_pow2 by lia. rewrite (u32_small (i * _)).
  2:{ unfold is_u32. assert (2 ^ (24 - b) <= 2 ^ 24) by (apply Z.pow_le_mono_r; lia). lia. }
  rewrite frag_lor_add by lia. unfold part. rewrite Z.mod_small.
  - replace (24 - b) with (nb + (24 - (b + nb))) at 1 by lia. rewrite Z.pow_add_r, Z.mul_assoc, <- Z.mul_add_distr_r by lia.
    apply Z.div_mul. apply Z.pow_nonzero; lia.
  - pose proof (valid_value _ _ H). pose proof (pow_split b Hb). nia.
Qed.

Definition children (b k nb : Z) : list Z := (λ i, fr (b + nb) (k * 2 ^ nb + i)) <$> seqZ 0 (2 ^ nb).

Lemma mapM_ok {A B} (f : A → res B) (g : A → B) l : (∀ x, x ∈ l → f x = Ok (g x)) → mapM f l = Ok (g <$> l).
Proof.
  induction l as [|x l IH]; intros H; [done|]. cbn [mapM]. rewrite (H x) by left. cbn [mbind res_bind].
  by rewrite IH by (intros y Hy; apply H; by right).
Qed.

Lemma split_ok b k nb : valid b k → 0 < nb → b + nb <= 24 → frag_split (fr b k) nb = Ok (children b k nb).
Proof.
  intros H Hnb Hs. pose proof H as [Hb _]. unfold frag_split. rewrite Z.gtb_ltb, (proj2 (Z.ltb_lt _ _)) by lia. cbn [assert_c mbind res_bind].
  rewrite nway_ok by lia. cbn [mbind res_bind]. apply mapM_ok. intros i Hi%elem_of_seqZ. apply make_child_ok; done || lia.
Qed.

(** The child of a fragment that contains [v]. *)
Lemma part_child v b nb : 0 <= b → 0 <= nb → b + nb <= 24 →
  ∃ i, 0 <= i < 2 ^ nb ∧ part v (b + nb) = part v b * 2 ^ nb + i.
Proof.
  intros Hb Hnb Hs. rewrite (part_part v (b + nb) b) by lia. replace (b + nb - b) with nb by lia.
  pose proof (Z.pow_pos_nonneg 2 nb ltac:(lia) ltac:(lia)). exists (part v (b + nb) mod 2 ^ nb).
  split; [apply Z.mod_pos_bound; lia|]. rewrite Z.mul_comm. apply Z.div_mod. lia.
Qed.

Lemma elem_of_children f b k nb : valid b k → 0 < nb → b + nb <= 24 →
  f ∈ children b k nb ↔ ∃ k', f = fr (b + nb) k' ∧ valid (b + nb) k' ∧ k' / 2 ^ nb = k.
Proof.
  intros H Hnb Hs. pose proof (Z.pow_pos_nonneg 2 nb ltac:(lia) ltac:(lia)) as Hp. unfold children. rewrite list_elem_of_fmap. split.
  - intros (i & -> & Hi%elem_of_seqZ). eexists. split; [done|]. split; [apply child_valid; done || lia|].
    rewrite Z.div_add_l by lia. rewrite Z.div_small by lia. lia.
  - intros (k' & -> & Hk' & Hd). exists (k' mod 2 ^ nb). split; [|apply elem_of_seqZ; pose proof (Z.mod_pos_bound k' (2 ^ nb)); lia].
    f_equal. rewrite <- Hd, Z.mul_comm. apply Z.div_mod. lia.
Qed.

Lemma sibling_ok b k : valid b k → 0 < b → get_sibling (fr b k) = Ok (fr b (Z.lxor k 1)).
Proof.
  intros H H0. unfold get_sibling, is_root, ceph_frag_sibling. rewrite bits_fr, value_fr by done. pose proof H as [Hb Hk].
  rewrite (proj2 (Z.eqb_neq _ _)) by lia. cbn [negb assert_c mbind res_bind]. unfold frag_bit. rewrite (proj2 (Z.ltb_lt _ _)) by lia.
  cbn [mbind res_bind]. rewrite make_ok by lia. do 2 f_equal. unfold part.
  change 16777216 with (2 ^ 24). rewrite Z.shiftr_div_pow2, (pow_split b) at 1 by lia. rewrite (Z.mul_comm (2 ^ b)), Z.div_mul by (apply Z.pow_nonzero; lia).
  rewrite <- (Z.mul_1_l (2 ^ (24 - b))) at 2. rewrite <- !(Z.shiftl_mul_pow2 _ (24 - b)) by lia. rewrite <- Z.shiftl_lxor.
  assert (0 <= Z.lxor k 1 < 2 ^ b) as Hx.
  { split; [apply Z.lxor_nonneg; lia|]. destruct (Z.eq_dec (Z.lxor k 1) 0) as [->|]; [lia|].
    assert (0 <= Z.lxor k 1) by (apply Z.lxor_nonneg; lia). apply Z.log2_lt_pow2; [lia|]. eapply Z.le_lt_trans; [apply Z.log2_lxor; lia|].
    change (Z.log2 1) with 0. destruct (Z.eq_dec k 0) as [->|]; [simpl; lia|]. rewrite Z.max_l by apply Z.log2_nonneg. apply Z.log2_lt_pow2; lia. }
  rewrite Z.shiftl_mul_pow2 by lia. rewrite Z.mod_small by (by apply (valid_value b)). apply Z.div_mul. apply Z.pow_nonzero; lia.
Qed.

(** ** Fragment trees: paths, depths and leaves

    The fragments that contain a value and that the tree reaches from the root
    are its [path]; the last of them is the leaf of the value, and its bits are
    the [depth] of the value.  [wf] says that every split is reached from the
    root; [leaves] lists the leaves below a fragment from left to right. *)

Implicit Types (t : fragtree_t) (v w b k : Z).

(** ** Paths *)

(** The split of the part of [b] bits that contains [v]. *)
Definition split_at t v b : Z := get_split t (fr b (part v b)).

Inductive path t v : Z → Z → Prop :=
  | path_refl b : path t v b b
  | path_step b0 b : split_at t v b0 ≠ 0 → path t v (b0 + split_at t v b0) b → path t v b0 b.

Definition okt t : Prop :=
  ∀ f nb, t !! f = Some nb → ∃ b k, f = fr b k ∧ valid b k ∧ 0 < nb ∧ b + nb <= 24.
Definition wf t : Prop :=
  okt t ∧ ∀ b k, valid b k → get_split t (fr b k) ≠ 0 → path t (base b k) 0 b.

Fixpoint walk (n : nat) t v b : Z :=
  match n with O => b | S n => if split_at t v b =? 0 then b else walk n t v (b + split_at t v b) end.
Definition depth t v : Z := walk 25 t v 0.

Lemma get_split_insert t f g nb : get_split (<[f := nb]> t) g = if decide (f = g) then nb else get_split t g.
Proof. unfold get_split, fragtree_t in *. case_decide as E; [subst; by rewrite lookup_insert_eq|by rewrite lookup_insert_ne]. Qed.
Lemma get_split_delete t f g : get_split (delete f t) g = if decide (f = g) then 0 else get_split t g.
Proof. unfold get_split, fragtree_t in *. case_decide as E; [subst; by rewrite lookup_delete_eq|by rewrite lookup_delete_ne]. Qed.

Lemma get_split_some t f : get_split t f ≠ 0 → t !! f = Some (get_split t f).
Proof. unfold get_split. by destruct (t !! f). Qed.

Lemma fr_part_inj v b b' k : 0 <= b <= 24 → valid b' k → fr b (part v b) = fr b' k → b = b' ∧ part v b' = k.
Proof. intros Hb Hk E. apply fr_inj in E as [<- <-]; [done|by apply part_valid|done]. Qed.

Section ok.
Context t (Hok : okt t).

Lemma split_ok_bounds b k : valid b k → get_split t (fr b k) ≠ 0 → 0 < get_split t (fr b k) ∧ b + get_split t (fr b k) <= 24.
Proof using Hok.
  intros Hb Hs%get_split_some. destruct (Hok _ _ Hs) as (b' & k' & E & Hb' & Hnb).
  apply fr_inj in E as [<- <-]; done.
Qed.
Lemma split_nonneg b k : valid b k → 0 <= get_split t (fr b k).
Proof using Hok. intros Hb. destruct (Z.eq_dec (get_split t (fr b k)) 0) as [|E]; [lia|]. pose proof (split_ok_bounds b k Hb E). lia. Qed.
Lemma split_at_bounds v b : 0 <= b <= 24 → split_at t v b ≠ 0 → 0 < split_at t v b ∧ b + split_at t v b <= 24.
Proof using Hok. intros Hb. apply split_ok_bounds. by apply part_valid. Qed.

Lemma path_le v b0 b : 0 <= b0 <= 24 → path t v b0 b → b0 <= b <= 24.
Proof using Hok.
  intros H. induction 1 as [|b0 b Hs Hp IH]; [lia|]. apply split_at_bounds in Hs; [|done]. specialize (IH ltac:(lia)). lia.
Qed.

Lemma path_snoc v b0 b : path t v b0 b → split_at t v b ≠ 0 → path t v b0 (b + split_at t v b).
Proof. induction 1 as [b|b0 b Hs Hp IH]; intros Hb; apply path_step; auto. constructor. Qed.
Lemma path_trans v b0 b b' : path t v b0 b → path t v b b' → path t v b0 b'.
Proof. induction 1 as [b|b0 b Hs Hp IH]; intros Hb; [done|]. apply path_step; auto. Qed.

(** Two points of one path are in its order. *)
Lemma path_between v b0 b b' : 0 <= b0 <= 24 → path t v b0 b → path t v b0 b' → b <= b' → path t v b b'.
Proof using Hok.
  intros H0 Hb. revert H0. induction Hb as [b|b0 b Hs Hb IH]; intros H0 Hb' Hle; [done|].
  pose proof (split_at_bounds _ _ H0 Hs) as Hn. destruct Hb' as [b'|b0 b' _ Hb']; [|apply IH; done || lia].
  apply path_le in Hb; lia.
Qed.
(** A point that is passed is split, and the next point is not passed. *)
Lemma path_next v b b' : path t v b b' → 0 <= b <= 24 → b ≠ b' → split_at t v b ≠ 0 ∧ b + split_at t v b <= b' ∧ path t v (b + split_at t v b) b'.
Proof using Hok.
  intros [b1|b1 b2 Hs Hp] Hb Hne; [done|]. split; [done|]. split; [|done]. pose proof (split_at_bounds _ _ Hb Hs).
  apply path_le in Hp; lia.
Qed.

(** A path ends at an unsplit part, and there is only one end. *)
Lemma walk_path n v b : 0 <= b <= 24 → 24 - b < Z.of_nat n → path t v b (walk n t v b) ∧ split_at t v (walk n t v b) = 0.
Proof using Hok.
  revert b. induction n as [|n IH]; intros b Hb Hn; [lia|]. simpl. destruct (Z.eqb_spec (split_at t v b) 0) as [E|E]; [by split; [constructor|]|].
  pose proof (split_at_bounds _ _ Hb E). destruct (IH (b + split_at t v b)) as [H1 H2]; [lia..|]. by split; [apply path_step|].
Qed.
Lemma depth_path v : path t v 0 (depth t v) ∧ split_at t v (depth t v) = 0.
Proof using Hok. apply walk_path; lia. Qed.
Lemma depth_le v : 0 <= depth t v <= 24.
Proof using Hok. eapply path_le; [|apply depth_path]. lia. Qed.
Lemma path_end v b0 b d : 0 <= b0 <= 24 → path t v b0 b → path t v b0 d → split_at t v d = 0 → b <= d.
Proof using Hok.
  intros H0 Hb Hd Hs. destruct (Z.le_gt_cases b d) as [|Hlt]; [done|].
  pose proof (path_between v b0 d b H0 Hd Hb ltac:(lia)) as Hdb. pose proof (path_le _ _ _ H0 Hd).
  destruct (path_next _ _ _ Hdb ltac:(lia) ltac:(lia)) as [Hn _]. done.
Qed.
Lemma depth_unique v d : path t v 0 d → split_at t v d = 0 → depth t v = d.
Proof using Hok.
  intros Hd Hs. destruct (depth_path v) as [Hp Hs']. apply Z.le_antisymm; eapply (path_end v 0); eauto; lia.
Qed.
End ok.

Lemma split_at_coarse t v w b b' : part v b = part w b → 0 <= b' <= b → b <= 24 → split_at t v b' = split_at t w b'.
Proof. intros E H1 H2. unfold split_at. by rewrite (part_coarse v w b b'). Qed.

Lemma path_coarse t v w b0 b : okt t → 0 <= b0 <= 24 → part v b = part w b → path t v b0 b → path t w b0 b.
Proof.
  intros Hok H0 E Hp. revert H0 E. induction Hp as [b|b0 b Hs Hp IH]; intros H0 E; [constructor|].
  pose proof (split_at_bounds t Hok _ _ H0 Hs). pose proof (path_le t Hok _ (b0 + split_at t v b0) _ ltac:(lia) Hp).
  assert (split_at t v b0 = split_at t w b0) as E' by (apply (split_at_coarse t v w b); done || lia).
  rewrite E' in *. apply path_step; [done|]. apply IH; done || lia.
Qed.

(** ** Leaves *)

Fixpoint leaves_from (n : nat) t b k : list Z :=
  match n with
  | O => [fr b k]
  | S n =>
      let nb := get_split t (fr b k) in
      if nb =? 0 then [fr b k] else concat ((λ i, leaves_from n t (b + nb) (k * 2 ^ nb + i)) <$> seqZ 0 (2 ^ nb))
  end.
Lemma leaves_from_S n t b k : leaves_from (S n) t b k =
  let nb := get_split t (fr b k) in
  if nb =? 0 then [fr b k] else concat ((λ i, leaves_from n t (b + nb) (k * 2 ^ nb + i)) <$> seqZ 0 (2 ^ nb)).
Proof. done. Qed.
Lemma tree_size_S n t f : tree_size (S n) t f =
  if get_split t f =? 0 then 1%nat
  else match frag_split f (get_split t f) with Ok l => S (sum_list_with (tree_size n t) l) | Fault _ => 1%nat end.
Proof. done. Qed.
Definition leaves t b k : list Z := leaves_from 25 t b k.
Definition size t b k : nat := tree_size 25 t (fr b k).

(** Consecutive fragments from [lo] to [hi]. *)
Fixpoint tiles (lo hi : Z) (l : list Z) : Prop :=
  match l with
  | [] => lo = hi
  | f :: l => ceph_frag_value f = lo ∧ tiles (lo + 2 ^ (24 - ceph_frag_bits f)) hi l
  end.

Lemma tiles_app lo mid hi l l' : tiles lo mid l → tiles mid hi l' → tiles lo hi (l ++ l').
Proof. revert lo. induction l as [|f l IH]; simpl; intros lo; [by intros ->|]. intros [? ?] ?. eauto. Qed.

Lemma tiles_concat g lo n m (d : Z) : 0 <= d → 0 <= n → (∀ i, m <= i < m + n → tiles (lo + i * d) (lo + (i + 1) * d) (g i)) →
  tiles (lo + m * d) (lo + (m + n) * d) (concat (g <$> seqZ m n)).
Proof.
  intros Hd Hn. revert m. pattern n. apply natlike_ind; [| |done]; clear n Hn.
  - intros m _. rewrite seqZ_nil by lia. simpl. f_equal. lia.
  - intros n Hn IH m H. rewrite seqZ_cons by lia. rewrite Z.pred_succ. simpl. eapply tiles_app; [apply H; lia|].
    replace (m + Z.succ n) with (Z.succ m + n) by lia. apply IH. intros i Hi. apply H. lia.
Qed.

Lemma size_eq t b k : size t b k = tree_size 25 t (fr b k).
Proof. done. Qed.
Lemma sum_list_with_ext {A} (f g : A → nat) l : (∀ x, x ∈ l → f x = g x) → sum_list_with f l = sum_list_with g l.
Proof. induction l as [|x l IH]; intros H; [done|]. simpl. rewrite (H x) by left. rewrite IH; [done|]. intros y Hy. apply H. by right. Qed.
Lemma fmap_seqZ_ext {A} (f g : Z → A) m n : (∀ i, m <= i < m + n → f i = g i) → f <$> seqZ m n = g <$> seqZ m n.
Proof. intros H. apply list_fmap_ext. intros i x Hx%lookup_seqZ. apply H. lia. Qed.

Section leaves.
Context t (Hok : okt t).

Lemma child_bounds b k : valid b k → get_split t (fr b k) ≠ 0 → ∀ i, 0 <= i < 2 ^ get_split t (fr b k) →
  valid (b + get_split t (fr b k)) (k * 2 ^ get_split t (fr b k) + i).
Proof using Hok. intros H Hs i Hi. pose proof (split_ok_bounds t Hok _ _ H Hs). apply child_valid; done || lia. Qed.

Lemma tree_split_children b k : valid b k → get_split t (fr b k) ≠ 0 →
  frag_split (fr b k) (get_split t (fr b k)) = Ok (children b k (get_split t (fr b k))).
Proof using Hok. intros H Hs. pose proof (split_ok_bounds t Hok _ _ H Hs). apply split_ok; done || lia. Qed.

Lemma leaves_from_stable n m b k : valid b k → 24 - b < Z.of_nat n → 24 - b < Z.of_nat m → leaves_from n t b k = leaves_from m t b k.
Proof using Hok.
  revert m b k. induction n as [|n IH]; intros [|m] b k H Hn Hm; [destruct H; lia..|]. simpl.
  destruct (Z.eqb_spec (get_split t (fr b k)) 0) as [|Hs]; [done|]. f_equal. apply fmap_seqZ_ext. intros i Hi.
  pose proof (split_ok_bounds t Hok _ _ H Hs). apply IH; [by apply child_bounds|lia..].
Qed.
Lemma leaves_step b k : valid b k →
  leaves t b k = if get_split t (fr b k) =? 0 then [fr b k]
                 else concat ((λ i, leaves t (b + get_split t (fr b k)) (k * 2 ^ get_split t (fr b k) + i)) <$> seqZ 0 (2 ^ get_split t (fr b k))).
Proof using Hok.
  intros H. unfold leaves. rewrite (leaves_from_S 24). cbv zeta. destruct (Z.eqb_spec (get_split t (fr b k)) 0) as [|Hs]; [done|].
  apply (f_equal (@concat Z)). apply (fmap_seqZ_ext (λ i, leaves_from 24 t (b + get_split t (fr b k)) (k * 2 ^ get_split t (fr b k) + i))). intros i Hi. pose proof (split_ok_bounds t Hok _ _ H Hs). destruct H.
  apply (leaves_from_stable 24 25); [by apply child_bounds|lia..].
Qed.

Lemma tree_size_stable n m b k : valid b k → 24 - b < Z.of_nat n → 24 - b < Z.of_nat m → tree_size n t (fr b k) = tree_size m t (fr b k).
Proof using Hok.
  revert m b k. induction n as [|n IH]; intros [|m] b k H Hn Hm; [destruct H; lia..|]. simpl.
  destruct (Z.eqb_spec (get_split t (fr b k)) 0) as [|Hs]; [done|]. rewrite tree_split_children by done. f_equal.
  pose proof (split_ok_bounds t Hok _ _ H Hs). apply sum_list_with_ext. intros f (k' & -> & Hk' & _)%elem_of_children; [|done || lia..].
  apply IH; done || lia.
Qed.
Lemma size_step b k : valid b k →
  size t b k = if get_split t (fr b k) =? 0 then 1%nat else S (sum_list_with (tree_size 25 t) (children b k (get_split t (fr b k)))).
Proof using Hok.
  intros H. unfold size. rewrite (tree_size_S 24). destruct (Z.eqb_spec (get_split t (fr b k)) 0) as [|Hs]; [done|].
  rewrite tree_split_children by done. apply (f_equal S). pose proof (split_ok_bounds t Hok _ _ H Hs). destruct H.
  apply (sum_list_with_ext (tree_size 24 t) (tree_size 25 t)). intros f (k' & -> & Hk' & _)%elem_of_children; [|done || lia..]. apply (tree_size_stable 24 25); done || lia.
Qed.
Lemma size_pos b k : (1 <= size t b k)%nat.
Proof. unfold size. rewrite (tree_size_S 24). destruct (_ =? 0); [lia|]. destruct (frag_split _ _); lia. Qed.

(** The leaves are the ends of the paths of the values. *)
Definition leaf_of (v d f : Z) : Prop := f = fr d (part v d) ∧ split_at t v d = 0.

Lemma part_next b k v nb : valid b k → 0 <= nb → b + nb <= 24 → part v b = k → ∃ i, 0 <= i < 2 ^ nb ∧ part v (b + nb) = k * 2 ^ nb + i.
Proof. intros H Hnb Hs <-. apply part_child; [destruct H|..]; lia. Qed.

Lemma elem_of_leaves b k f : valid b k → f ∈ leaves t b k ↔ ∃ v d, part v b = k ∧ path t v b d ∧ leaf_of v d f.
Proof using Hok.
  remember (Z.to_nat (24 - b)) as n eqn:En. revert b k En. induction n as [n IH] using lt_wf_ind. intros b k -> H.
  rewrite leaves_step by done. destruct (Z.eqb_spec (get_split t (fr b k)) 0) as [E|Hs].
  - rewrite list_elem_of_singleton. split.
    + intros ->. exists (base b k), b. unfold leaf_of, split_at. rewrite part_base_self by done. by split_and!; [|constructor|..].
    + intros (v & d & Hv & Hp & -> & Hd). destruct Hp as [|b d Hs _]; [by rewrite Hv|]. unfold split_at in Hs. by rewrite Hv in Hs.
  - pose proof (split_ok_bounds t Hok _ _ H Hs) as Hn. set (nb := get_split t (fr b k)) in *. pose proof H as [Hb Hk].
    rewrite list_elem_of_In, in_concat. split.
    + intros (l & Hl & Hf). apply list_elem_of_In in Hl, Hf. apply list_elem_of_fmap in Hl as (i & -> & Hi%elem_of_seqZ).
      apply (IH (Z.to_nat (24 - (b + nb)))) in Hf as (v & d & Hv & Hp & Hf); [|lia|done|apply child_bounds; done || lia].
      assert (part v b = k) as Hvb.
      { rewrite (part_part v (b + nb) b), Hv by lia. replace (b + nb - b) with nb by lia.
        rewrite Z.div_add_l by lia. rewrite Z.div_small; lia. }
      assert (split_at t v b = nb) as Hsv by (unfold split_at; by rewrite Hvb).
      exists v, d. split; [done|]. split; [|done]. apply path_step; rewrite Hsv; done.
    + intros (v & d & Hv & Hp & Hf). assert (split_at t v b = nb) as Hsv by (unfold split_at; by rewrite Hv).
      destruct (part_next b k v nb H ltac:(lia) ltac:(lia) Hv) as (i & Hi & Hvi).
      exists (leaves t (b + nb) (k * 2 ^ nb + i)). rewrite <- !list_elem_of_In. split.
      * apply (list_elem_of_fmap_2 (λ i, leaves t (b + nb) (k * 2 ^ nb + i))). apply elem_of_seqZ. lia.
      * apply (IH (Z.to_nat (24 - (b + nb)))); [lia|done|apply child_bounds; done || lia|].
        exists v, d. split; [done|]. split; [|done]. destruct Hp as [b|b d _ Hp]; [|by rewrite <- Hsv].
        destruct Hf as [_ Hf]. lia.
Qed.

Lemma leaves_tile b k : valid b k → tiles (base b k) (base b (k + 1)) (leaves t b k).
Proof using Hok.
  remember (Z.to_nat (24 - b)) as n eqn:En. revert b k En. induction n as [n IH] using lt_wf_ind. intros b k -> H.
  rewrite leaves_step by done. destruct (Z.eqb_spec (get_split t (fr b k)) 0) as [E|Hs].
  - simpl. rewrite value_fr, bits_fr by done. unfold base. split; [done|lia].
  - pose proof (split_ok_bounds t Hok _ _ H Hs) as Hn. set (nb := get_split t (fr b k)) in *. pose proof H as [Hb Hk].
    set (d := 2 ^ (24 - (b + nb))).
    assert (2 ^ (24 - b) = 2 ^ nb * d) as Hd by (unfold d; rewrite <- Z.pow_add_r by lia; f_equal; lia).
    replace (base b k) with (base b k + 0 * d) by lia.
    replace (base b (k + 1)) with (base b k + (0 + 2 ^ nb) * d) by (unfold base; rewrite Hd; lia).
    apply (tiles_concat (λ i, leaves t (b + nb) (k * 2 ^ nb + i))); [unfold d; lia|lia|]. intros i Hi.
    replace (base b k + i * d) with (base (b + nb) (k * 2 ^ nb + i)) by (unfold base; rewrite Hd; fold d; lia).
    replace (base b k + (i + 1) * d) with (base (b + nb) (k * 2 ^ nb + i + 1)) by (unfold base; rewrite Hd; fold d; lia).
    apply (IH (Z.to_nat (24 - (b + nb)))); [lia|done|]. apply child_bounds; done || lia.
Qed.
End leaves.

#[global] Opaque leaves size depth.
