(* ===== verification/FragLeafSpec.v ===== *)
(** * The walks over a fragment tree

    The loops of [get_leaves], [get_leaves_under], [contains] and [operator[]]
    end, and compute the leaves and the depth of the tree theory. *)

From stdpp Require Import gmap.
From S2P Require Import Prelude Frag FragSpec.

(** ** Queues of fragments *)

Definition frp (p : Z * Z) : Z := fr p.1 p.2.
Definition validp (p : Z * Z) : Prop := valid p.1 p.2.
Definition childrenp (p : Z * Z) (nb : Z) : list (Z * Z) := (λ i, (p.1 + nb, p.2 * 2 ^ nb + i)) <$> seqZ 0 (2 ^ nb).
Definition leavesp (t : fragtree_t) (p : Z * Z) : list Z := leaves t p.1 p.2.
Definition sizes (t : fragtree_t) (qs : list (Z * Z)) : nat := sum_list_with (λ p, size t p.1 p.2) qs.

Lemma childrenp_ok p nb : children p.1 p.2 nb = frp <$> childrenp p nb.
Proof. unfold children, childrenp. rewrite <- list_fmap_compose. done. Qed.

Lemma sum_list_with_fmap {A B} (f : B → nat) (g : A → B) l : sum_list_with f (g <$> l) = sum_list_with (λ x, f (g x)) l.
Proof. induction l as [|x l IH]; [done|]. cbn [fmap list_fmap sum_list_with]. f_equal. apply IH. Qed.
Lemma sum_list_with_rev {A} (f : A → nat) l : sum_list_with f (reverse l) = sum_list_with f l.
Proof. induction l as [|x l IH]; [done|]. rewrite reverse_cons, sum_list_with_app. simpl. lia. Qed.

Lemma sizes_app t l l' : sizes t (l ++ l') = (sizes t l + sizes t l')%nat.
Proof. apply sum_list_with_app. Qed.

Section walks.
Context t (Hok : okt t).

(** One turn on a fragment: it is a leaf, or its children are queued. *)
Inductive turn (p : Z * Z) : Prop :=
  | turn_leaf : get_split t (frp p) = 0 → leavesp t p = [frp p] → sizes t [p] = 1%nat → turn p
  | turn_split cs : get_split t (frp p) ≠ 0 → frag_split (frp p) (get_split t (frp p)) = Ok (frp <$> cs) → Forall validp cs →
      leavesp t p = concat (leavesp t <$> cs) → sizes t [p] = S (sizes t cs) → turn p.

Lemma turn_ok p : validp p → turn p.
Proof using Hok.
  intros Hp. pose proof (leaves_step t Hok _ _ Hp) as Hl. pose proof (size_step t Hok _ _ Hp) as Hs.
  fold (frp p) in Hl, Hs. destruct (Z.eqb_spec (get_split t (frp p)) 0) as [E|E].
  - apply turn_leaf; [done..|]. unfold sizes. cbn [sum_list_with fst snd]. lia.
  - apply (turn_split p (childrenp p (get_split t (frp p)))); [done|..].
    + rewrite <- childrenp_ok. by apply tree_split_children.
    + apply Forall_forall. intros c (i & -> & Hi%elem_of_seqZ)%list_elem_of_fmap. apply (child_bounds t Hok p.1 p.2 Hp E). unfold frp in Hi. lia.
    + unfold leavesp at 1. rewrite Hl. unfold childrenp. rewrite <- list_fmap_compose. done.
    + unfold sizes at 1. simpl. rewrite Hs, childrenp_ok, sum_list_with_fmap. unfold sizes. rewrite (sum_list_with_ext (λ c, tree_size 25 t (frp c)) (λ c, size t c.1 c.2)) by (intros; by rewrite size_eq). lia.
Qed.

Lemma sizes_cons p qs : sizes t (p :: qs) = (sizes t [p] + sizes t qs)%nat.
Proof. unfold sizes. cbn [sum_list_with fst snd]. lia. Qed.
Lemma sizes_pos p : (1 <= sizes t [p])%nat.
Proof. unfold sizes. cbn [sum_list_with fst snd]. pose proof (size_pos t p.1 p.2). lia. Qed.

Lemma leaves_loop_ok fuel qs ls : Forall validp qs → (sizes t qs <= fuel)%nat →
  leaves_loop fuel t (frp <$> qs) ls = Ok (concat (reverse (leavesp t <$> qs)) ++ ls).
Proof using Hok.
  revert qs ls. induction fuel as [|fuel IH]; intros [|p qs] ls Hq Hf; [done| |done|].
  { rewrite sizes_cons in Hf. pose proof (sizes_pos p). lia. }
  apply Forall_cons in Hq as [Hp Hq]. rewrite sizes_cons in Hf. cbn [fmap list_fmap leaves_loop]. rewrite reverse_cons, concat_app.
  destruct (turn_ok p Hp) as [E El Es|cs E Ec Hc El Es]; rewrite El.
  - rewrite E. cbn [Z.eqb negb]. rewrite IH by (done || lia). cbn [concat]. by rewrite app_nil_r, <- app_assoc.
  - rewrite (proj2 (Z.eqb_neq _ _) E). cbn [negb]. rewrite Ec. cbn [mbind res_bind].
    rewrite <- fmap_reverse, <- fmap_app, IH.
    + rewrite fmap_app, reverse_app, concat_app, fmap_reverse, reverse_involutive. cbn [concat]. by rewrite app_nil_r.
    + apply Forall_app. split; [|done]. by apply Forall_reverse.
    + rewrite sizes_app. unfold sizes in *. rewrite sum_list_with_rev. lia.
Qed.

Lemma get_leaves_under_split_ok b k : valid b k → get_leaves_under_split t (fr b k) = Ok (leaves t b k).
Proof using Hok.
  intros H. unfold get_leaves_under_split. rewrite (leaves_loop_ok _ [(b, k)] []).
  - simpl. unfold leavesp. cbn [fst snd reverse rev_append concat]. by rewrite !app_nil_r.
  - by apply Forall_singleton.
  - unfold sizes. cbn [sum_list_with fst snd]. rewrite size_eq. lia.
Qed.

(** *** The leaves within a fragment *)

Definition within (b k f : Z) : bool := (b <=? ceph_frag_bits f) && (part (ceph_frag_value f) b =? k).

Lemma within_fr b k b' k' : valid b' k' → within b k (fr b' k') = (b <=? b') && (part (base b' k') b =? k).
Proof. intros H. unfold within. by rewrite bits_fr, value_fr. Qed.
Lemma contains_frag_within b k p : valid b k → validp p → ceph_frag_contains_frag (fr b k) (frp p) = Ok (within b k (frp p)).
Proof. intros H Hp. unfold frp. by rewrite contains_frag_ok, within_fr. Qed.

Lemma leaf_within p f : validp p → f ∈ leavesp t p → ∃ d c, f = fr d c ∧ valid d c ∧ p.1 <= d ∧ part (base d c) p.1 = p.2.
Proof using Hok.
  intros Hp (v & d & Hv & Hd & -> & _)%elem_of_leaves; [|done..]. destruct p as [b k]. cbn [fst snd] in *.
  assert (b <= d <= 24) as Hbd by (eapply path_le; [done| |done]; apply Hp).
  exists d, (part v d). assert (0 <= d <= 24) by (destruct Hp as [? _]; cbn [fst] in *; lia).
  pose proof (part_valid v d ltac:(done)) as Hvd. split_and!; [done|done|lia|].
  rewrite part_base by (done || destruct Hp; cbn [fst] in *; lia). rewrite <- Hv. symmetry. apply part_part; destruct Hp; cbn [fst] in *; lia.
Qed.

Lemma part_base_part v s b : 0 <= b <= s → s <= 24 → part (base s (part v s)) b = part v b.
Proof. intros Hb Hs. apply (part_coarse _ _ s); [lia..|]. apply part_base_self, part_valid. lia. Qed.

Lemma skip_none b k p : valid b k → validp p → b <= p.1 → within b k (frp p) = false → filter (λ f, within b k f) (leavesp t p) = [].
Proof using Hok.
  intros H Hp Hb Hw. destruct (filter (λ f, within b k f) (leavesp t p)) as [|f l] eqn:Ef; [done|].
  assert (f ∈ filter (λ f, within b k f) (leavesp t p)) as [Hf Hin]%list_elem_of_filter by (rewrite Ef; left).
  destruct (leaf_within p f Hp Hin) as (d & c & -> & Hv & Hd & Hbase).
  unfold frp in Hw. rewrite within_fr in * by done. rewrite (proj2 (Z.leb_le b p.1)), (proj2 (Z.leb_le b d)) in * by lia. cbn [andb] in *.
  apply Is_true_true, Z.eqb_eq in Hf. apply Z.eqb_neq in Hw. destruct Hw. rewrite <- Hf, <- Hbase.
  apply part_base_part; destruct H, Hp; lia.
Qed.

(** Whether the walk under [x] drops a fragment. *)
Lemma skip_ok b k p : valid b k → validp p →
  (if ceph_frag_bits (fr b k) <=? ceph_frag_bits (frp p) then c ← ceph_frag_contains_frag (fr b k) (frp p); Ok (negb c) else Ok false)
  = Ok ((b <=? p.1) && negb (within b k (frp p))).
Proof.
  intros H Hp. rewrite (bits_fr b k), contains_frag_within by done. unfold frp at 1. rewrite bits_fr by done. by destruct (b <=? p.1).
Qed.

Lemma leaves_under_loop_ok fuel b k qs ls : valid b k → Forall validp qs → (sizes t qs <= fuel)%nat →
  ∃ ls', leaves_under_loop fuel t (fr b k) (frp <$> qs) ls = Ok ls' ∧
    ls' ≡ₚ ls ++ filter (λ f, within b k f) (concat (leavesp t <$> qs)).
Proof using Hok.
  intros H. revert qs ls. induction fuel as [|fuel IH]; intros [|p qs] ls Hq Hf.
  1,3: exists ls; split; [done|]; simpl; by rewrite app_nil_r.
  { rewrite sizes_cons in Hf. pose proof (sizes_pos p). lia. }
  apply Forall_cons in Hq as [Hp Hq]. rewrite sizes_cons in Hf. cbn [fmap list_fmap leaves_under_loop concat]. rewrite skip_ok by done.
  cbn [mbind res_bind]. rewrite filter_app. pose proof (sizes_pos p) as Hpos. destruct ((b <=? p.1) && negb (within b k (frp p))) eqn:Esk.
  - apply andb_true_iff in Esk as [Eb%Z.leb_le Ew%negb_true_iff]. rewrite skip_none by done. apply IH; [done|lia].
  - destruct (turn_ok p Hp) as [E El Es|cs E Ec Hc El Es]; rewrite El.
    + rewrite E. cbn [Z.eqb negb]. rewrite contains_frag_within by done. cbn [mbind res_bind].
      destruct (IH qs (if within b k (frp p) then ls ++ [frp p] else ls) Hq ltac:(lia)) as (ls' & E' & Hp'). exists ls'. split; [done|].
      rewrite Hp'. rewrite filter_cons, filter_nil. destruct (within b k (frp p)) eqn:Ew; simpl.
      * by rewrite <- app_assoc.
      * done.
    + rewrite (proj2 (Z.eqb_neq _ _) E). cbn [negb]. rewrite Ec. cbn [mbind res_bind]. fold (frp <$> qs). rewrite <- fmap_app.
      destruct (IH (qs ++ cs) ls) as (ls' & E' & Hp'); [by apply Forall_app|rewrite sizes_app; lia|]. exists ls'. split; [done|].
      rewrite Hp', fmap_app, concat_app, filter_app. apply Permutation_app_head, Permutation_app_comm.
Qed.

(** *** Membership *)
Lemma leaf_unsplit p f : validp p → f ∈ leavesp t p → get_split t f = 0.
Proof using Hok. intros Hp (v & d & _ & _ & -> & Hs)%elem_of_leaves; done. Qed.

Lemma frp_inj p p' : validp p → validp p' → frp p = frp p' → p = p'.
Proof. intros H H' E. destruct p, p'. apply fr_inj in E as [??]; [by f_equal/=|done..]. Qed.

Lemma contains_loop_ok fuel b k qs : valid b k → Forall validp qs → (sizes t qs <= fuel)%nat →
  contains_loop fuel t (fr b k) (frp <$> qs) = Ok (bool_decide (fr b k ∈ concat (leavesp t <$> qs))).
Proof using Hok.
  intros H. revert qs. induction fuel as [|fuel IH]; intros [|p qs] Hq Hf; [done| |done|].
  { rewrite sizes_cons in Hf. pose proof (sizes_pos p). lia. }
  apply Forall_cons in Hq as [Hp Hq]. rewrite sizes_cons in Hf. cbn [fmap list_fmap contains_loop concat]. rewrite skip_ok by done.
  cbn [mbind res_bind]. pose proof (sizes_pos p) as Hpos. destruct ((b <=? p.1) && negb (within b k (frp p))) eqn:Esk.
  - apply andb_true_iff in Esk as [Eb%Z.leb_le Ew%negb_true_iff]. pose proof (skip_none b k p H Hp Eb Ew) as Hn.
    rewrite IH by (done || lia). f_equal. apply bool_decide_ext. fold (leavesp t <$> qs). rewrite elem_of_app. split; [by right|].
    intros [Hin|]; [|done]. exfalso.
    assert (fr b k ∈ filter (λ f, within b k f) (leavesp t p)) as Hx; [|rewrite Hn in Hx; by apply not_elem_of_nil in Hx].
    apply list_elem_of_filter. split; [|done]. rewrite within_fr, part_base_self by done. by rewrite Z.leb_refl, Z.eqb_refl.
  - destruct (turn_ok p Hp) as [E El Es|cs E Ec Hc El Es]; rewrite El.
    + rewrite E. cbn [Z.eqb negb]. fold (leavesp t <$> qs). destruct (Z.eqb_spec (frp p) (fr b k)) as [Ex|Ex].
      * by rewrite bool_decide_eq_true_2 by (rewrite Ex; left).
      * rewrite IH by (done || lia). f_equal. apply bool_decide_ext. cbn [app]. rewrite elem_of_cons. split; [by right|]. intros [E'|?]; [by rewrite E' in Ex|done].
    + rewrite (proj2 (Z.eqb_neq _ _) E). cbn [negb]. fold (leavesp t <$> qs). rewrite <- El. destruct (Z.eqb_spec (frp p) (fr b k)) as [Ex|Ex].
      * rewrite bool_decide_eq_false_2; [done|]. rewrite <- Ex. intros Hin. apply E.
        assert (Forall validp (p :: qs)) as Hall by (by constructor). change (leavesp t p ++ concat (leavesp t <$> qs)) with (concat (leavesp t <$> (p :: qs))) in Hin.
        apply list_elem_of_In, in_concat in Hin as (l & Hl & Hin). apply list_elem_of_In in Hl, Hin. apply list_elem_of_fmap in Hl as (p' & -> & Hp').
        eapply (leaf_unsplit p'); [|done]. eapply Forall_forall; done.
      * rewrite Ec. cbn [mbind res_bind]. fold (frp <$> qs). rewrite <- fmap_app, IH; [|by apply Forall_app|rewrite sizes_app; lia].
        f_equal. apply bool_decide_ext. rewrite fmap_app, concat_app, !elem_of_app, El. tauto.
Qed.
End walks.

(** ** The branch above a fragment *)

Lemma fr_zero b k : valid b k → (fr b k =? 0) = (b =? 0).
Proof.
  intros H. pose proof (valid_value _ _ H) as Hv. unfold fr. destruct H as [Hb Hk]. destruct (Z.eqb_spec b 0) as [->|Hne].
  - apply Z.eqb_eq. replace k with 0 by (change (2 ^ 0) with 1 in Hk; lia). done.
  - apply Z.eqb_neq. lia.
Qed.

Lemma get_branch_from_ok t fuel v b : 0 <= b <= 24 → b < Z.of_nat fuel →
  ∃ c, get_branch_from fuel t (fr b (part v b)) = Ok (fr c (part v c)) ∧ 0 <= c <= b ∧
    (c = 0 ∨ split_at t v c ≠ 0) ∧ ∀ d, c < d <= b → split_at t v d = 0.
Proof.
  revert b. induction fuel as [|fuel IH]; intros b Hb Hf; [lia|]. cbn [get_branch_from get_branch_above_from]. pose proof (part_valid v b Hb) as Hv.
  rewrite fr_zero by done. destruct (Z.eqb_spec b 0) as [->|]; [by exists 0; split_and!; [..|left|lia]|].
  fold (split_at t v b). destruct (Z.eqb_spec (split_at t v b) 0) as [E|E]; cbn [negb]; [|by exists b; split_and!; [done|lia..|right|lia]].
  rewrite parent_ok by (done || lia). cbn [mbind res_bind].
  replace (part v b / 2) with (part v (b - 1)) by (rewrite (part_part v b (b - 1)) by lia; by replace (b - (b - 1)) with 1 by lia).
  destruct (IH (b - 1)) as (c & -> & Hc & Hs & Hn); [lia..|]. exists c. split_and!; [done|lia..|done|].
  intros d Hd. destruct (Z.eq_dec d b) as [->|]; [done|]. apply Hn. lia.
Qed.

Lemma get_branch_above_from_ok t fuel v b : 0 <= b <= 24 → b < Z.of_nat fuel →
  ∃ c, get_branch_above_from fuel t (fr b (part v b)) = Ok (fr c (part v c)) ∧ 0 <= c <= b.
Proof.
  revert b. induction fuel as [|fuel IH]; intros b Hb Hf; [lia|]. cbn [get_branch_from get_branch_above_from]. pose proof (part_valid v b Hb) as Hv.
  rewrite fr_zero by done. destruct (Z.eqb_spec b 0) as [->|]; [by exists 0|].
  rewrite parent_ok by (done || lia). cbn [mbind res_bind].
  replace (part v b / 2) with (part v (b - 1)) by (rewrite (part_part v b (b - 1)) by lia; by replace (b - (b - 1)) with 1 by lia).
  destruct (negb _); [exists (b - 1); split; [done|lia]|]. destruct (IH (b - 1)) as (c & -> & Hc); [lia..|]. exists c. split; [done|lia].
Qed.

Lemma fr_base b k : valid b k → fr b k = fr b (part (base b k) b).
Proof. intros H. by rewrite part_base_self. Qed.

(** The last point of the path to a fragment. *)
Definition last_point t v b s : Prop := 0 <= s <= b ∧ path t v 0 s ∧ (split_at t v s = 0 ∨ b < s + split_at t v s ∨ s = b).

Lemma make_value b k s : valid b k → 0 <= s <= b → ceph_frag_make s (ceph_frag_value (fr b k)) = Ok (fr s (part (base b k) s)).
Proof.
  intros H Hs. rewrite value_fr by done. destruct H as [Hb Hk]. rewrite make_ok by lia. done.
Qed.

(** Every split on the way to the part of [v] is reached from the root. *)
Definition reached t v b : Prop := ∀ c, 0 <= c <= b → split_at t v c ≠ 0 → path t v 0 c.

Lemma wf_reached t v b : wf t → b <= 24 → reached t v b.
Proof.
  intros [Hok Hwf] Hb c Hc Hs. pose proof (part_valid v c ltac:(lia)) as Hvc.
  apply (path_coarse t (base c (part v c))); [done|lia| |by apply Hwf]. by rewrite part_base_self.
Qed.

(** What [get_branch_or_leaf] returns then. *)
Lemma branch_or_leaf_ok t b k : okt t → reached t (base b k) b → valid b k →
  ∃ s, get_branch_or_leaf t (fr b k) = Ok (fr s (part (base b k) s)) ∧ last_point t (base b k) b s.
Proof.
  intros Hok Hre H. pose proof H as [Hb Hk]. set (v := base b k) in *. unfold get_branch_or_leaf, get_branch. 
  assert (get_branch_from 26 t (fr b k) = get_branch_from 26 t (fr b (part v b))) as -> by (by rewrite (fr_base b k H)).
  destruct (get_branch_from_ok t 26 v b Hb ltac:(lia)) as (c & -> & Hc & Hs & Hn). cbn [mbind res_bind]. fold (split_at t v c).
  pose proof (part_valid v c ltac:(lia)) as Hvc. rewrite (bits_fr c) by done. rewrite (bits_fr b k) by done. rewrite Z.gtb_ltb.
  assert (path t v 0 c) as Hp.
  { destruct Hs as [->|Hs]; [constructor|]. by apply Hre. }
  destruct (Z.ltb_spec 0 (split_at t v c)) as [Hlt|Hge]; cbn [andb].
  - destruct (split_at_bounds t Hok v c ltac:(lia) ltac:(lia)) as [_ Hle]. rewrite (u32_small (c + _)) by (unfold is_u32; lia).
    destruct (Z.leb_spec (c + split_at t v c) b) as [Hle'|Hgt].
    + rewrite make_value by (done || lia).
      exists (c + split_at t v c). split; [done|]. split_and!; [lia..| |].
      * apply path_snoc; [done|lia].
      * left. apply Hn. lia.
    + exists c. split; [done|]. split_and!; [lia..|done|right; left; lia].
  - exists c. split; [done|]. split_and!; [lia..|done|]. left. pose proof (split_nonneg t Hok c (part v c) Hvc). unfold split_at in *. lia.
Qed.

(** On a split fragment it returns the fragment, whatever the tree. *)
Lemma branch_or_leaf_split t b k : okt t → valid b k → get_split t (fr b k) ≠ 0 → get_branch_or_leaf t (fr b k) = Ok (fr b k).
Proof.
  intros Hok H Hs. destruct (split_ok_bounds t Hok _ _ H Hs). pose proof H as [Hb Hk]. unfold get_branch_or_leaf, get_branch. cbn [get_branch_from].
  rewrite fr_zero, (proj2 (Z.eqb_neq _ _) Hs) by done. cbn [negb]. replace (if b =? 0 then Ok (fr b k) else Ok (fr b k)) with (Ok (fr b k)) by (by destruct (b =? 0)).
  cbn [mbind res_bind]. rewrite bits_fr, u32_small by (done || unfold is_u32; lia). rewrite (proj2 (Z.leb_gt _ _)) by lia. by rewrite andb_false_r.
Qed.

Lemma last_point_path t v b s d : okt t → 0 <= b <= 24 → last_point t v b s → path t v 0 d → d <= b → d <= s.
Proof.
  intros Hok Hb (Hs & Hp & He) Hd Hle. destruct (Z.le_gt_cases d s) as [|Hgt]; [done|].
  pose proof (path_between t Hok v 0 s d ltac:(lia) Hp Hd ltac:(lia)) as Hsd.
  destruct (path_next t Hok _ _ _ Hsd ltac:(lia) ltac:(lia)) as (Hn & Hn' & _). lia.
Qed.

Section queries.
Context t (wf_okt : okt t).

Definition leaf_at v : Z := fr (depth t v) (part v (depth t v)).

Lemma leaves_root_path v s d : 0 <= s <= 24 → path t v 0 s → path t v s d → split_at t v d = 0 → d = depth t v.
Proof using wf_okt. intros Hs Hp Hd He. symmetry. apply depth_unique; [exact wf_okt| |done]. by eapply path_trans. Qed.

(** [get_leaves_under] lists the leaves that lie within the fragment. *)
Lemma get_leaves_under_ok b k : reached t (base b k) b → valid b k →
  ∃ s ls, last_point t (base b k) b s ∧ get_leaves_under t (fr b k) = Ok ls ∧
    ls ≡ₚ filter (λ f, within b k f) (leaves t s (part (base b k) s)).
Proof using wf_okt.
  intros Hre H. destruct (branch_or_leaf_ok t b k wf_okt Hre H) as (s & E & Hs). unfold get_leaves_under. rewrite E. cbn [mbind res_bind].
  pose proof H as [Hb _]. pose proof (part_valid (base b k) s ltac:(destruct Hs; lia)) as Hv.
  destruct (leaves_under_loop_ok t wf_okt (tree_size 25 t (fr s (part (base b k) s))) b k [(s, part (base b k) s)] []) as (ls & El & Hl).
  - done.
  - by apply Forall_singleton.
  - unfold sizes. cbn [sum_list_with fst snd]. rewrite size_eq. lia.
  - exists s, ls. split_and!; [done|exact El|]. rewrite Hl. cbn [fmap list_fmap concat app]. by rewrite app_nil_r.
Qed.

Lemma elem_of_leaves_under b k s f : valid b k → last_point t (base b k) b s →
  f ∈ filter (λ f, within b k f) (leaves t s (part (base b k) s)) ↔ ∃ v, part v b = k ∧ b <= depth t v ∧ f = leaf_at v.
Proof using wf_okt.
  intros H Hs. pose proof H as [Hb _]. destruct Hs as (Hsb & Hp & He).
  pose proof (part_valid (base b k) s ltac:(lia)) as Hvs. rewrite list_elem_of_filter, (elem_of_leaves t wf_okt) by done. split.
  - intros (Hw & v & d & Hv & Hd & -> & Hl). assert (path t v 0 s) as Hvp by (eapply path_coarse; [exact wf_okt|lia| |done]; done).
    assert (d = depth t v) as -> by (eapply leaves_root_path; [|done..]; lia).
    exists v. pose proof (depth_le t wf_okt v) as Hdl. rewrite within_fr in Hw by (by apply part_valid).
    apply Is_true_true, andb_true_iff in Hw as [Hle%Z.leb_le Hpt%Z.eqb_eq]. rewrite part_base_part in Hpt by lia. done.
  - intros (v & Hv & Hbd & ->). pose proof (depth_le t wf_okt v) as Hdl. destruct (depth_path t wf_okt v) as [Hdp Hds].
    assert (part v s = part (base b k) s) as Hvs' by (apply (part_coarse _ _ b); [lia..|]; by rewrite part_base_self).
    split.
    + unfold leaf_at. rewrite within_fr by (by apply part_valid). rewrite part_base_part by lia. apply Is_true_true.
      rewrite Hv, Z.eqb_refl, andb_true_r. by apply Z.leb_le.
    + exists v, (depth t v). split; [done|]. split; [|by split]. eapply (path_between t wf_okt v 0); [lia| |done|lia].
      eapply path_coarse; [exact wf_okt|lia| |done]. done.
Qed.

Lemma leaf_at_inj v b k : valid b k → leaf_at v = fr b k → depth t v = b ∧ part v b = k.
Proof using wf_okt. intros H E. apply fr_part_inj in E as [<- <-]; [done|apply depth_le, wf_okt|done]. Qed.

Lemma depth_coarse v w : part v (depth t v) = part w (depth t v) → depth t w = depth t v.
Proof using wf_okt.
  intros E. destruct (depth_path t wf_okt v) as [Hp Hs]. apply depth_unique; [exact wf_okt|by eapply path_coarse; [exact wf_okt|lia|done|]|].
  unfold split_at in *. by rewrite <- E.
Qed.

Lemma is_leaf_reached b k : reached t (base b k) b → valid b k → is_leaf t (fr b k) = Ok (depth t (base b k) =? b).
Proof using wf_okt.
  intros Hre H. pose proof H as [Hb _]. destruct (get_leaves_under_ok b k Hre H) as (s & ls & Hs & E & Hl). unfold is_leaf. rewrite E. cbn [mbind res_bind]. f_equal.
  destruct (Z.eqb_spec (depth t (base b k)) b) as [Hd|Hd].
  - destruct (depth_path t wf_okt (base b k)) as [Hp Hsp]. rewrite Hd in Hp, Hsp.
    assert (s = b) as -> by (pose proof (last_point_path t _ b s b wf_okt Hb Hs Hp ltac:(lia)); destruct Hs; lia).
    rewrite part_base_self, (leaves_step t wf_okt) in Hl by done. unfold split_at in Hsp. rewrite part_base_self in Hsp by done. rewrite Hsp in Hl. cbn [Z.eqb] in Hl.
    rewrite filter_cons, filter_nil, within_fr, part_base_self, Z.leb_refl, Z.eqb_refl in Hl by done. cbn [andb decide] in Hl. 
    rewrite decide_True in Hl by done. apply Permutation_singleton_r in Hl as ->. apply Z.eqb_refl.
  - assert (fr b k ∉ ls) as Hn.
    { rewrite Hl, elem_of_leaves_under by done. intros (v & Hv & _ & Ef). symmetry in Ef. apply leaf_at_inj in Ef as [Ev _]; [|done].
      apply Hd. rewrite <- Ev. apply depth_coarse. rewrite Ev, part_base_self by done. done. }
    destruct ls as [|f [|]]; [done| |done]. apply Z.eqb_neq. intros ->. apply Hn. left.
Qed.
End queries.

(** A split fragment is not a leaf, whatever the tree. *)
Lemma is_leaf_split t b k : okt t → valid b k → get_split t (fr b k) ≠ 0 → is_leaf t (fr b k) = Ok false.
Proof.
  intros Hok H Hs. unfold is_leaf, get_leaves_under. rewrite branch_or_leaf_split by done. cbn [mbind res_bind].
  destruct (leaves_under_loop_ok t Hok (tree_size 25 t (fr b k)) b k [(b, k)] []) as (ls & El & Hl); [done|by apply Forall_singleton| |].
  { unfold sizes. cbn [sum_list_with fst snd]. rewrite size_eq. lia. }
  cbn [fmap list_fmap concat app] in *. rewrite app_nil_r in Hl. change (frp (b, k)) with (fr b k) in El. rewrite El. cbn [mbind res_bind]. f_equal.
  destruct ls as [|f [|]]; [done| |done]. apply Z.eqb_neq. intros ->. apply Hs. apply (leaf_unsplit t Hok (b, k) (fr b k) H).
  assert (fr b k ∈ [fr b k]) as Hin by left. rewrite Hl, list_elem_of_filter in Hin. apply Hin.
Qed.

Section lookups.
Context t (Hwf : wf t).

Lemma wf_okt : okt t.
Proof using Hwf. apply Hwf. Qed.
Lemma is_leaf_ok b k : valid b k → is_leaf t (fr b k) = Ok (depth t (base b k) =? b).
Proof using Hwf. intros H. apply is_leaf_reached; [apply wf_okt| |done]. apply wf_reached; [done|apply H]. Qed.

Lemma tree_contains_ok b k : valid b k → tree_contains t (fr b k) = Ok (depth t (base b k) =? b).
Proof using Hwf.
  intros H. pose proof wf_okt as Hok. pose proof H as [Hb Hk]. unfold tree_contains, get_branch.
  set (v := base b k) in *. assert (fr b k = fr b (part v b)) as Eb by (by apply fr_base). rewrite Eb at 1.
  destruct (get_branch_from_ok t 26 v b Hb ltac:(lia)) as (c & -> & Hc & Hs & _). cbn [mbind res_bind].
  pose proof (part_valid v c ltac:(lia)) as Hvc.
  rewrite (contains_loop_ok t Hok _ b k [(c, part v c)] H); [|by apply Forall_singleton|unfold sizes; cbn [sum_list_with fst snd]; rewrite size_eq; unfold frp; simpl; lia].
  f_equal. cbn [fmap list_fmap concat]. rewrite app_nil_r. unfold leavesp. cbn [fst snd].
  assert (path t v 0 c) as Hp.
  { destruct Hs as [->|Hs]; [constructor|]. apply (wf_reached t v b); done || lia. }
  destruct (Z.eqb_spec (depth t v) b) as [Hd|Hd].
  - apply bool_decide_eq_true_2. rewrite elem_of_leaves by done. exists v, b. destruct (depth_path t Hok v) as [Hdp Hds]. rewrite Hd in Hdp, Hds.
    split_and!; [done| |by split]. eapply (path_between t Hok v 0); done || lia.
  - apply bool_decide_eq_false_2. rewrite elem_of_leaves by done. intros (w & d & Hw & Hpw & Ef & Hl).
    assert (d = depth t w) as Ed by (eapply (leaves_root_path t Hok w c); [lia| |done..]; eapply path_coarse; [done|lia| |done]; done).
    rewrite Ed in Ef. symmetry in Ef. apply (leaf_at_inj t Hok) in Ef as [Ew Ek]; [|done]. apply Hd. rewrite <- Ew. apply (depth_coarse t Hok).
    rewrite Ew. unfold v. by rewrite part_base_self.
Qed.

Lemma pick_child_ok b k nb v l : valid b k → 0 <= nb → b + nb <= 24 → part v b = k → (∀ i, i ∈ l → 0 <= i < 2 ^ nb) →
  (∃ i, i ∈ l ∧ part v (b + nb) = k * 2 ^ nb + i) → pick_child (fr b k) nb v l = Ok (fr (b + nb) (part v (b + nb))).
Proof.
  intros H Hnb Hs Hv. induction l as [|j l IH]; intros Hl (i & Hi & Ei); [by apply not_elem_of_nil in Hi|].
  cbn [pick_child]. pose proof (Hl j ltac:(left)) as Hj. rewrite make_child_ok by (done || lia). cbn [mbind res_bind].
  rewrite contains_value_ok by (by apply child_valid). cbn [mbind res_bind]. destruct (Z.eqb_spec (part v (b + nb)) (k * 2 ^ nb + j)) as [E|E].
  - by rewrite E.
  - apply IH; [intros; apply Hl; by right|]. exists i. split; [|done]. apply elem_of_cons in Hi as [->|Hi]; done.
Qed.

Lemma lookup_from_ok fuel v b : 0 <= b <= 24 → 24 - b < Z.of_nat fuel →
  ∃ d, lookup_from fuel t v (fr b (part v b)) = Ok (fr d (part v d)) ∧ path t v b d ∧ split_at t v d = 0.
Proof using Hwf.
  pose proof wf_okt as Hok. revert b. induction fuel as [|fuel IH]; intros b Hb Hf; [lia|]. cbn [lookup_from].
  pose proof (part_valid v b Hb) as Hv. rewrite contains_value_ok by done. rewrite Z.eqb_refl. cbn [mbind res_bind assert_c].
  fold (split_at t v b). destruct (Z.eqb_spec (split_at t v b) 0) as [E|E]; [by exists b; split_and!; [|constructor|]|].
  pose proof (split_at_bounds t Hok v b Hb E) as [Hp Hs]. rewrite nway_ok by lia. cbn [mbind res_bind].
  rewrite (pick_child_ok b (part v b) (split_at t v b) v); [|done|lia|lia|done|intros i Hi%elem_of_seqZ; lia|].
  2:{ destruct (part_child v b (split_at t v b)) as (i & Hi & Ei); [lia..|]. exists i. split; [apply elem_of_seqZ; lia|done]. }
  cbn [mbind res_bind]. destruct (IH (b + split_at t v b)) as (d & -> & Hd & Hl); [lia..|]. exists d. split_and!; [done|by apply path_step|done].
Qed.
Lemma tree_lookup_ok v : tree_lookup t v = Ok (leaf_at t v).
Proof using Hwf.
  unfold tree_lookup. assert (0 = fr 0 (part v 0)) as E0.
  { unfold fr, part. change (24 - 0) with 24. rewrite Z.div_small by (apply Z.mod_pos_bound; lia). done. }
  assert (lookup_from 26 t v 0 = lookup_from 26 t v (fr 0 (part v 0))) as -> by (by rewrite <- E0). destruct (lookup_from_ok 26 v 0) as (d & -> & Hd & Hl); [lia..|]. unfold leaf_at.
  by rewrite (depth_unique t wf_okt v d).
Qed.
Lemma get_leaves_ok : get_leaves t = Ok (leaves t 0 0).
Proof using Hwf. apply (get_leaves_under_split_ok t wf_okt 0 0). by split; lia. Qed.
End lookups.
