(* ===== verification/FragEditSpec.v ===== *)
(** * Changes of a fragment tree

    Splitting and merging a fragment, assimilating children that are split
    alike, and forcing a fragment to be a leaf: the tree stays well-formed, and
    the depth of every value changes only as asked. *)

From stdpp Require Import gmap.
From S2P Require Import Prelude Frag FragSpec FragLeafSpec.

Implicit Types (t : fragtree_t) (v w b k : Z).

(** ** One split changed *)

Lemma split_at_insert t b k nb v c : 0 <= c <= 24 → valid b k →
  split_at (<[fr b k := nb]> t) v c = if decide (c = b ∧ part v b = k) then nb else split_at t v c.
Proof.
  intros Hc H. unfold split_at. rewrite get_split_insert. case_decide as E; case_decide as E'; [done| | |done].
  - symmetry in E. apply fr_part_inj in E as [<- <-]; [|done..]. by destruct E'.
  - destruct E' as [-> <-]. done.
Qed.
Lemma split_at_delete t b k v c : 0 <= c <= 24 → valid b k →
  split_at (delete (fr b k) t) v c = if decide (c = b ∧ part v b = k) then 0 else split_at t v c.
Proof.
  intros Hc H. unfold split_at. rewrite get_split_delete. case_decide as E; case_decide as E'; [done| | |done].
  - symmetry in E. apply fr_part_inj in E as [<- <-]; [|done..]. by destruct E'.
  - destruct E' as [-> <-]. done.
Qed.

Lemma okt_insert t b k nb : okt t → valid b k → 0 < nb → b + nb <= 24 → okt (<[fr b k := nb]> t).
Proof.
  intros Hok H Hnb Hs f n. unfold fragtree_t in *. rewrite lookup_insert_Some. intros [[<- <-]|[_ Hf]]; [by exists b, k|by apply Hok].
Qed.
Lemma okt_delete t f : okt t → okt (delete f t).
Proof. intros Hok g n. unfold fragtree_t in *. rewrite lookup_delete_Some. intros [_ Hg]. by apply Hok. Qed.
Lemma okt_deletes t l : okt t → okt (foldl (λ t p, delete p t) t l).
Proof. revert t. induction l as [|f l IH]; intros t Hok; [done|]. simpl. by apply IH, okt_delete. Qed.

(** A path survives when the splits on it do. *)
Lemma path_mono t t' v b0 b : okt t → 0 <= b0 <= 24 → path t v b0 b →
  (∀ c, b0 <= c < b → split_at t v c ≠ 0 → split_at t' v c = split_at t v c) → path t' v b0 b.
Proof.
  intros Hok H0 Hp. revert H0. induction Hp as [b|b0 b Hs Hp IH]; intros H0 H; [constructor|].
  destruct (split_at_bounds t Hok v b0 H0 Hs) as [H1 H2]. pose proof (path_le t Hok v (b0 + split_at t v b0) b ltac:(lia) Hp).
  pose proof (H b0 ltac:(lia) Hs) as E. apply path_step; rewrite E; [done|]. apply IH; [lia|]. intros c Hc. apply H. lia.
Qed.

(** Well-formedness, by values. *)
Lemma wf_intro t : okt t → (∀ v c, 0 <= c <= 24 → split_at t v c ≠ 0 → path t v 0 c) → wf t.
Proof.
  intros Hok H. split; [done|]. intros b k Hb Hs. apply H; [apply Hb|]. unfold split_at. by rewrite part_base_self.
Qed.
Lemma wf_path t v c : wf t → 0 <= c <= 24 → split_at t v c ≠ 0 → path t v 0 c.
Proof. intros Hwf Hc Hs. apply (wf_reached t v c); done || lia. Qed.

(** A value of a fragment on a path. *)
Lemma path_base t b k v : okt t → valid b k → part v b = k → path t (base b k) 0 b → path t v 0 b.
Proof. intros Hok H Hv. apply path_coarse; [done|lia|]. by rewrite part_base_self. Qed.
Lemma depth_base t b k v : okt t → valid b k → part v b = k → depth t (base b k) = b → depth t v = b.
Proof.
  intros Hok H Hv Hd. rewrite <- Hd. apply (depth_coarse t Hok). rewrite Hd. by rewrite part_base_self.
Qed.

(** *** Split *)

Lemma insert_leaf_ok t b k nb : wf t → valid b k → depth t (base b k) = b → 0 < nb → b + nb <= 24 →
  wf (<[fr b k := nb]> t) ∧ ∀ v, depth (<[fr b k := nb]> t) v = if part v b =? k then b + nb else depth t v.
Proof.
  intros Hwf H Hd Hnb Hs. pose proof (wf_okt t Hwf) as Hok. pose proof H as [Hb _].
  pose proof (okt_insert t b k nb Hok H Hnb Hs) as Hok'.
  assert (∀ v, part v b = k → path t v 0 b ∧ split_at t v b = 0) as Hx.
  { intros v Hv. pose proof (depth_base t b k v Hok H Hv Hd) as Hdv. pose proof (depth_path t Hok v) as Hp. by rewrite Hdv in Hp. }
  assert (∀ v c, 0 <= c <= 24 → path t v 0 c → path (<[fr b k := nb]> t) v 0 c) as Hmono.
  { intros v c Hc Hp. apply (path_mono t); [done|lia|done|]. intros d Hd' Hsd. rewrite split_at_insert by (done || lia).
    case_decide as E; [|done]. destruct E as [-> Ev]. by destruct (Hx v Ev). }
  split.
  - apply wf_intro; [done|]. intros v c Hc. rewrite split_at_insert by (done || lia). case_decide as E.
    + intros _. destruct E as [-> Ev]. apply Hmono; [done|]. by apply Hx.
    + intros Hsc. apply Hmono; [done|]. by apply wf_path.
  - intros v. pose proof (depth_le t Hok v) as Hdl. destruct (depth_path t Hok v) as [Hp Hz]. apply depth_unique; [done|..].
    + destruct (Z.eqb_spec (part v b) k) as [Ev|Ev]; [|by apply Hmono].
      replace (b + nb) with (b + split_at (<[fr b k := nb]> t) v b) by (rewrite split_at_insert by done; by rewrite decide_True).
      apply path_snoc; [by apply Hmono, Hx|]. rewrite split_at_insert by done. rewrite decide_True by done. lia.
    + rewrite split_at_insert by (done || destruct (part v b =? k); lia). destruct (Z.eqb_spec (part v b) k) as [Ev|Ev].
      * rewrite decide_False by lia. destruct (Z.eq_dec (split_at t v (b + nb)) 0) as [|Hn]; [done|]. exfalso.
        destruct (Hx v Ev) as [Hpb Hzb]. apply wf_path in Hn; [|done|lia]. pose proof (path_end t Hok v 0 (b + nb) b ltac:(lia) Hn Hpb Hzb). lia.
      * rewrite decide_False; [done|]. by intros [_ ?].
Qed.

(** *** Assimilation *)

Lemma deletes_split t l f : get_split (foldl (λ t p, delete p t) t l) f = if decide (f ∈ l) then 0 else get_split t f.
Proof.
  revert t. induction l as [|g l IH]; intros t; [done|]. simpl. rewrite IH, get_split_delete.
  destruct (decide (f ∈ l)) as [E|E]; [by rewrite decide_True by (by right)|].
  destruct (decide (g = f)) as [->|E']; [by rewrite decide_True by left|]. rewrite decide_False; [done|]. intros [Ef|Ef]%elem_of_cons; [|done].
  by rewrite Ef in E'.
Qed.

Lemma common_bits_ok t c0 l c : common_bits t c0 l = Some c → l ≠ [] → c ≠ 0 ∧ ∀ p, p ∈ l → get_split t p = c.
Proof.
  revert c0. induction l as [|p l IH]; intros c0 H Hl; [done|]. simpl in H. destruct (Z.eqb_spec (get_split t p) 0) as [|E0]; [done|].
  destruct (negb (c0 =? 0) && negb (get_split t p =? c0)); [done|]. destruct l as [|q l].
  - simpl in H. injection H as <-. split; [done|]. intros q ->%list_elem_of_singleton. done.
  - assert (q :: l ≠ []) as Hne by done. destruct (IH _ H Hne) as [Hc Hall]. split; [done|]. intros r [->|Hr]%elem_of_cons; [|by apply Hall].
    simpl in H. destruct (get_split t q =? 0); [done|]. destruct (Z.eqb_spec (get_split t p) 0); [done|]. simpl in H.
    destruct (Z.eqb_spec (get_split t q) (get_split t p)) as [Eq|]; [|done]. rewrite <- Eq. apply Hall. left.
Qed.

Lemma child_part v b k nb : valid b k → 0 < nb → b + nb <= 24 → fr (b + nb) (part v (b + nb)) ∈ children b k nb ↔ part v b = k.
Proof.
  intros H Hnb Hs. pose proof H as [Hb _]. rewrite elem_of_children by done.
  assert (part v b = part v (b + nb) / 2 ^ nb) as E by (rewrite (part_part v (b + nb) b) by lia; do 2 f_equal; lia). split.
  - intros (k' & E' & Hk' & <-). apply fr_part_inj in E' as [_ Ek]; [by rewrite E, Ek|lia|done].
  - intros <-. exists (part v (b + nb)). split; [done|]. split; [apply part_valid; lia|done].
Qed.
Lemma child_bits b k nb f : valid b k → 0 < nb → b + nb <= 24 → f ∈ children b k nb → ∃ k', f = fr (b + nb) k' ∧ valid (b + nb) k'.
Proof. intros H Hnb Hs (k' & -> & Hk' & _)%elem_of_children; [|done..]. by exists k'. Qed.

Lemma children_nonempty b k nb : 0 <= nb → children b k nb ≠ [].
Proof. intros Hnb. unfold children. rewrite seqZ_cons by (apply Z.pow_pos_nonneg; lia). done. Qed.

Section assimilate.
Context t b k (cb : Z) (Hwf : wf t) (H : valid b k).
Context (Hs : get_split t (fr b k) ≠ 0) (Hcb : cb ≠ 0).
Let nb := get_split t (fr b k).
Context (Hall : ∀ p, p ∈ children b k nb → get_split t p = cb).
Let t' := <[fr b k := nb + cb]> (foldl (λ t p, delete p t) t (children b k nb)).

Lemma nb_bounds : 0 < nb ∧ b + nb <= 24.
Proof using Hwf H Hs. apply split_ok_bounds; [apply wf_okt|..]; done. Qed.

Lemma child_at v : part v b = k → split_at t v (b + nb) = cb.
Proof using Hwf H Hs Hall. intros Hv. destruct nb_bounds. apply Hall. by apply child_part. Qed.
Lemma parent_at v : part v b = k → split_at t v b = nb.
Proof. intros Hv. unfold split_at. by rewrite Hv. Qed.

Lemma cb_bounds : 0 < cb ∧ b + nb + cb <= 24.
Proof using Hwf H Hs Hall Hcb.
  destruct nb_bounds. pose proof H as [Hb _]. pose proof (child_at (base b k) (part_base_self b k H)) as E.
  rewrite <- E. apply (split_at_bounds t (wf_okt t Hwf)); [lia|]. by rewrite E.
Qed.

Lemma assimilate_split v c : 0 <= c <= 24 →
  split_at t' v c = if decide (part v b = k ∧ c = b) then nb + cb else if decide (part v b = k ∧ c = b + nb) then 0 else split_at t v c.
Proof using Hwf H Hs.
  intros Hc. destruct nb_bounds as [H1 H2]. unfold t'. rewrite split_at_insert by done.
  destruct (decide (c = b ∧ part v b = k)) as [[-> Ev]|E]; [by rewrite decide_True|]. rewrite decide_False by tauto.
  unfold split_at at 1. rewrite deletes_split. case_decide as E1; case_decide as E2; [done| | |done]; exfalso.
  - pose proof E1 as E3. apply child_bits in E1 as (k' & E' & Hk'); [|done..]. apply fr_part_inj in E' as [-> _]; [|done..].
    apply E2. split; [|done]. by apply (child_part v b k nb).
  - destruct E2 as [Ev ->]. apply E1. by apply child_part.
Qed.

Lemma assimilate_okt : okt t'.
Proof using Hwf H Hs Hall Hcb. destruct nb_bounds, cb_bounds. apply okt_insert; [apply okt_deletes, wf_okt; done|done|lia..]. Qed.

(** A point of an old path that is not one of the assimilated children is a
    point of the new path. *)
Lemma assimilate_path n v c : 0 <= c <= n → n <= 24 → path t v 0 c → ¬ (part v b = k ∧ c = b + nb) → path t' v 0 c.
Proof using Hwf H Hs Hall Hcb.
  intros Hcn Hn. destruct nb_bounds as [H1 H2], cb_bounds as [H3 H4]. pose proof (wf_okt t Hwf) as Hok.
  pose proof H as [Hb0 _].
  destruct (Z.eq_dec (part v b) k) as [Ev|Ev].
  2:{ intros Hp _. apply (path_mono t); [done|lia|done|]. intros d Hd _. rewrite assimilate_split by lia. by rewrite !decide_False by tauto. }
  intros Hp Hne. assert (path t v 0 b) as Hpb by (apply wf_path; [done|lia|]; by rewrite parent_at).
  assert (path t' v 0 b) as Hpb'.
  { apply (path_mono t); [done|lia|done|]. intros d Hd _. rewrite assimilate_split by lia. by rewrite !decide_False by lia. }
  destruct (Z.le_gt_cases c b) as [Hle|Hgt].
  { apply (path_mono t); [done|lia|done|]. intros d Hd _. rewrite assimilate_split by lia. by rewrite !decide_False by lia. }
  pose proof (path_between t Hok v 0 b c ltac:(lia) Hpb Hp ltac:(lia)) as Hbc.
  destruct (path_next t Hok v b c Hbc ltac:(lia) ltac:(lia)) as (_ & Hle & Hbc'). rewrite parent_at in Hle, Hbc' by done.
  destruct (path_next t Hok v (b + nb) c Hbc' ltac:(lia) ltac:(intros <-; by apply Hne)) as (_ & Hle2 & Hbc2). rewrite child_at in Hle2, Hbc2 by done.
  eapply path_trans; [exact Hpb'|]. apply path_step; rewrite assimilate_split, decide_True by (done || lia); [lia|].
  rewrite Z.add_assoc. apply (path_mono t); [done|lia|done|]. intros d Hd _. rewrite assimilate_split by lia. by rewrite !decide_False by lia.
Qed.

Lemma assimilate_ok : wf t' ∧ ∀ v, depth t' v = depth t v.
Proof using Hwf H Hs Hall Hcb.
  destruct nb_bounds as [H1 H2], cb_bounds as [H3 H4]. pose proof (wf_okt t Hwf) as Hok. pose proof assimilate_okt as Hok'. split.
  - apply wf_intro; [done|]. intros v c Hc Hn. rewrite assimilate_split in Hn by done.
    apply (assimilate_path 24); [lia..| |].
    + destruct (decide (part v b = k ∧ c = b)) as [[Ev ->]|_]; [apply wf_path; [done|lia|]; rewrite parent_at by done; lia|].
      destruct (decide _); [done|]. by apply wf_path.
    + intros [Ev ->]. rewrite decide_False in Hn by lia. by rewrite decide_True in Hn.
  - intros v. destruct (depth_path t Hok v) as [Hp Hz]. pose proof (depth_le t Hok v). apply depth_unique; [done|..].
    + apply (assimilate_path 24); [lia..|done|]. intros [Ev E]. rewrite E, child_at in Hz by done. done.
    + rewrite assimilate_split by done. rewrite decide_False; [by case_decide|]. intros [Ev E]. rewrite E, parent_at in Hz by done. done.
Qed.
End assimilate.

Lemma try_assimilate_ok t b k : wf t → valid b k →
  ∃ t', try_assimilate_children t (fr b k) = Ok t' ∧ wf t' ∧ ∀ v, depth t' v = depth t v.
Proof.
  intros Hwf H. unfold try_assimilate_children. destruct (Z.eqb_spec (get_split t (fr b k)) 0) as [|Hs]; [by exists t|].
  pose proof (wf_okt t Hwf) as Hok. destruct (split_ok_bounds t Hok b k H Hs) as [H1 H2]. rewrite (tree_split_children t Hok) by done. cbn [mbind res_bind].
  destruct (common_bits t 0 _) as [cb|] eqn:Ec; [|by exists t].
  apply common_bits_ok in Ec as [Hcb Hall]; [|apply children_nonempty; lia]. eexists. split; [done|].
  set (t1 := foldl _ _ _). assert (get_split t1 (fr b k) = get_split t (fr b k)) as ->.
  { unfold t1. rewrite deletes_split. case_decide as E; [|done]. apply child_bits in E as (k' & E & Hk'); [|done..].
    apply fr_inj in E as [E _]; done || lia. }
  destruct (cb_bounds t b k cb Hwf H Hs Hcb Hall) as [H3 H4]. destruct H as [Hb Hk]. rewrite s32_small by (unfold is_s32; lia).
  by apply assimilate_ok.
Qed.

(** ** The operations *)

Lemma simplify_above_ok t b k simp : wf t → valid b k →
  ∃ t', simplify_above t (fr b k) simp = Ok t' ∧ wf t' ∧ ∀ v, depth t' v = depth t v.
Proof.
  intros Hwf H. destruct simp; [|by exists t]. unfold simplify_above, get_branch_above. rewrite (fr_base b k H). pose proof H as [Hb _].
  destruct (get_branch_above_from_ok t 26 (base b k) b Hb ltac:(lia)) as (c & -> & Hc). cbn [mbind res_bind].
  apply try_assimilate_ok; [done|]. apply part_valid. lia.
Qed.

Lemma tree_split_ok t b k nb simp : wf t → valid b k → depth t (base b k) = b → 0 < nb → b + nb <= 24 →
  ∃ t', tree_split t (fr b k) nb simp = Ok t' ∧ wf t' ∧ ∀ v, depth t' v = if part v b =? k then b + nb else depth t v.
Proof.
  intros Hwf H Hd Hnb Hs. unfold tree_split. rewrite is_leaf_ok by done. rewrite Hd, Z.eqb_refl. cbn [mbind res_bind assert_c].
  destruct (insert_leaf_ok t b k nb Hwf H Hd Hnb Hs) as [Hwf' Hd']. destruct (simplify_above_ok _ b k simp Hwf' H) as (t' & E & Hwf'' & Hd'').
  exists t'. split_and!; [done..|]. intros v. by rewrite Hd''.
Qed.

Lemma tree_merge_raw t b k : okt t → valid b k → get_split t (fr b k) ≠ 0 →
  tree_merge t (fr b k) (get_split t (fr b k)) false = Ok (delete (fr b k) t).
Proof.
  intros Hok H Hs. unfold tree_merge. rewrite is_leaf_split by done. cbn [mbind res_bind negb assert_c]. rewrite Z.eqb_refl. done.
Qed.

(** *** Removing every split within a fragment *)

Definition inside b k c v : Prop := b <= c ∧ part v b = k.
#[export] Instance inside_dec b k c v : Decision (inside b k c v).
Proof. unfold inside. apply _. Defined.

Lemma prune_ok t t' b k : wf t → valid b k → path t (base b k) 0 b → okt t' →
  (∀ v c, 0 <= c <= 24 → split_at t' v c = if decide (inside b k c v) then 0 else split_at t v c) →
  wf t' ∧ ∀ v, depth t' v = if part v b =? k then b else depth t v.
Proof.
  intros Hwf H Hp Hok' Hs. pose proof (wf_okt t Hwf) as Hok. pose proof H as [Hb _].
  assert (∀ v c, 0 <= c <= 24 → path t v 0 c → (part v b = k → c <= b) → path t' v 0 c) as Hmono.
  { intros v c Hc Hpc Hin. apply (path_mono t); [done|lia|done|]. intros d Hd _. rewrite Hs by lia. rewrite decide_False; [done|]. intros [Hbd Ev]. specialize (Hin Ev). lia. }
  split.
  - apply wf_intro; [done|]. intros v c Hc. rewrite Hs by done. case_decide as E; [done|]. intros Hn. apply Hmono; [done|by apply wf_path|].
    intros Ev. destruct (Z.le_gt_cases c b); [done|]. destruct E. split; [lia|done].
  - intros v. destruct (depth_path t Hok v) as [Hdp Hz]. pose proof (depth_le t Hok v). apply depth_unique; [done|..].
    + destruct (Z.eqb_spec (part v b) k) as [Ev|Ev]; [|by apply Hmono]. apply Hmono; [done| |lia]. by apply (path_base t b k).
    + destruct (Z.eqb_spec (part v b) k) as [Ev|Ev]; rewrite Hs by lia; [by rewrite decide_True by (split; [lia|done])|].
      rewrite decide_False; [done|]. by intros [_ ?].
Qed.

Lemma splits_size_delete t f nb : t !! f = Some nb → splits_size t = (Z.to_nat (2 ^ nb) + splits_size (delete f t))%nat.
Proof. unfold splits_size, fragtree_t in *. intros Hf. rewrite (map_fold_delete_L _ _ f nb) by (done || intros; lia). done. Qed.
Lemma splits_size_pos t : (1 <= splits_size t)%nat.
Proof. unfold splits_size. apply (map_fold_weak_ind (λ n _, (1 <= n)%nat)); [lia|]. intros; lia. Qed.

Section hoover.
Context b k (H : valid b k).

(** Every split within the fragment is reached from the queue. *)
Definition covers t (qs : list (Z * Z)) : Prop :=
  ∀ v c, 0 <= c <= 24 → inside b k c v → split_at t v c ≠ 0 → ∃ q : Z * Z, q ∈ qs ∧ q.1 <= c ∧ part v q.1 = q.2 ∧ path t v q.1 c.

Lemma path_delete t b1 k1 v b0 c : okt t → valid b1 k1 → 0 <= b0 <= 24 → path t v b0 c →
  path (delete (fr b1 k1) t) v b0 c ∨ (part v b1 = k1 ∧ path t v b1 c ∧ b1 < c).
Proof.
  intros Hok H1 H0 Hp. revert H0. induction Hp as [c|b0 c Hs Hp IH]; intros H0; [left; constructor|].
  destruct (split_at_bounds t Hok v b0 H0 Hs) as [Hn Hb]. pose proof (path_le t Hok v (b0 + split_at t v b0) c ltac:(lia) Hp).
  destruct (decide (b0 = b1 ∧ part v b1 = k1)) as [[-> Ev]|Hne].
  - right. split_and!; [done|by apply path_step|lia].
  - destruct (IH ltac:(lia)) as [Hp'|?]; [left|by right].
    assert (split_at (delete (fr b1 k1) t) v b0 = split_at t v b0) as E by (rewrite split_at_delete by done; by rewrite decide_False).
    apply path_step; by rewrite E.
Qed.

(** The turn on a split fragment. *)
Lemma covers_step t q qs cs : okt t → validp q → Forall validp qs → get_split t (frp q) ≠ 0 →
  cs = childrenp q (get_split t (frp q)) → covers t (q :: qs) → covers (delete (frp q) t) (qs ++ cs).
Proof.
  intros Hok Hq Hqs Hs -> Hcov v c Hc Hin Hn. destruct q as [b1 k1]. unfold frp in *. cbn [fst snd] in *.
  pose proof (split_ok_bounds t Hok b1 k1 Hq Hs) as [Hn1 Hn2]. pose proof Hq as [Hb1 Hk1]. cbn [fst snd] in Hb1.
  rewrite split_at_delete in Hn by done. destruct (decide (c = b1 ∧ part v b1 = k1)) as [|Hne]; [done|].
  assert (part v b1 = k1 → path t v b1 c → b1 < c → ∃ q : Z * Z, q ∈ qs ++ childrenp (b1, k1) (get_split t (fr b1 k1)) ∧ q.1 <= c ∧ part v q.1 = q.2 ∧ path (delete (fr b1 k1) t) v q.1 c) as Hch.
  { intros Ev Hp Hlt. destruct (path_next t Hok v b1 c Hp ltac:(lia) ltac:(lia)) as (_ & Hle & Hp'). assert (split_at t v b1 = get_split t (fr b1 k1)) as Es by (unfold split_at; by rewrite Ev).
    rewrite Es in Hle, Hp'. set (nb := get_split t (fr b1 k1)) in *. exists (b1 + nb, part v (b1 + nb)). cbn [fst snd]. split; [|split_and!; [done..|]].
    - apply elem_of_app. right. destruct (part_next b1 k1 v nb Hq ltac:(lia) ltac:(lia) Ev) as (i & Hi & ->).
      apply (list_elem_of_fmap_2 (λ i, (b1 + nb, k1 * 2 ^ nb + i))). apply elem_of_seqZ. lia.
    - apply (path_mono t); [done|lia|done|]. intros d Hd _. rewrite split_at_delete by (done || lia). rewrite decide_False by lia. done. }
  destruct (Hcov v c Hc Hin Hn) as (q & [->|Hq']%elem_of_cons & Hle & Hv & Hp); cbn [fst snd] in *.
  - apply Hch; [done..|]. destruct (Z.eq_dec b1 c) as [<-|]; [by destruct Hne|lia].
  - assert (validp q) as [Hqb _] by (eapply Forall_forall; done).
    destruct (path_delete t b1 k1 v q.1 c Hok Hq Hqb Hp) as [Hp'|(Ev & Hp' & Hlt)]; [|by apply Hch].
    exists q. split; [apply elem_of_app; by left|done].
Qed.

(** The whole queue: exactly the splits within the fragment go. *)
Lemma hoover_ok fuel t qs : okt t → Forall validp qs → (∀ q, q ∈ qs → b <= q.1 ∧ part (base q.1 q.2) b = k) → covers t qs →
  (length qs + splits_size t <= S fuel)%nat →
  ∃ t', hoover fuel t (frp <$> qs) = Ok t' ∧ okt t' ∧
    ∀ v c, 0 <= c <= 24 → split_at t' v c = if decide (inside b k c v) then 0 else split_at t v c.
Proof using H.
  revert t qs. induction fuel as [|fuel IH]; intros t [|[b1 k1] qs] Hok Hv Hin Hcov Hf.
  1,3: exists t; split_and!; [done..|]; intros v c Hc; case_decide as E; [|done];
    destruct (Z.eq_dec (split_at t v c) 0) as [|Hn]; [done|]; by destruct (Hcov v c Hc E Hn) as (q & Hq%elem_of_nil & _).
  { simpl in Hf. pose proof (splits_size_pos t). lia. }
  apply Forall_cons in Hv as [Hv1 Hv]. pose proof Hv1 as [Hb1 _]. cbn [fst] in Hb1. destruct (Hin (b1, k1) ltac:(left)) as [Hb Hk]. cbn [fst snd] in Hb, Hk.
  cbn [fmap list_fmap hoover]. fold (frp <$> qs). change (frp (b1, k1)) with (fr b1 k1).
  destruct (Z.eqb_spec (get_split t (fr b1 k1)) 0) as [E|E]; cbn [negb].
  - apply IH; [done..|intros q Hq; apply Hin; by right| |simpl in Hf; lia].
    intros v c Hc Hi Hn. destruct (Hcov v c Hc Hi Hn) as (q & [->|Hq]%elem_of_cons & Hle & Ev & Hp); [|by exists q]. exfalso. cbn [fst snd] in *.
    destruct (Z.eq_dec b1 c) as [<-|Hne]; [by rewrite <- Ev in E|].
    destruct (path_next t Hok v b1 c Hp ltac:(lia) Hne) as [Hx _]. unfold split_at in Hx. by rewrite Ev in Hx.
  - rewrite tree_merge_raw by done. cbn [mbind res_bind]. rewrite tree_split_children by done. cbn [mbind res_bind].
    rewrite (childrenp_ok (b1, k1)). rewrite <- fmap_app. destruct (split_ok_bounds t Hok b1 k1 Hv1 E) as [Hn1 Hn2]. set (nb := get_split t (fr b1 k1)) in *.
    destruct (IH (delete (fr b1 k1) t) (qs ++ childrenp (b1, k1) nb)) as (t' & E' & Hok' & Hs').
    + by apply okt_delete.
    + apply Forall_app. split; [done|]. apply Forall_forall. intros c (i & -> & Hi%elem_of_seqZ)%list_elem_of_fmap. apply child_valid; cbn [fst snd]; done || lia.
    + intros q [Hq|(i & -> & Hi%elem_of_seqZ)%list_elem_of_fmap]%elem_of_app; [apply Hin; by right|]. cbn [fst snd]. split; [lia|].
      pose proof (child_valid b1 k1 nb i Hv1 ltac:(lia) ltac:(lia) ltac:(lia)) as Hcv. destruct H as [Hb0 _].
      rewrite <- Hk. apply (part_coarse _ _ b1); [lia..|]. rewrite part_base_self, part_base by (done || lia). replace (b1 + nb - b1) with nb by lia.
      rewrite Z.div_add_l by lia. rewrite Z.div_small; lia.
    + by apply (covers_step t (b1, k1)).
    + rewrite (splits_size_delete t (fr b1 k1) nb) in Hf by (by apply get_split_some). rewrite length_app. unfold childrenp. rewrite length_fmap, length_seqZ. simpl in Hf. lia.
    + exists t'. split_and!; [done..|]. intros v c Hc. rewrite Hs' by done. case_decide as Ei; [done|]. rewrite split_at_delete by done.
      case_decide as Ed; [|done]. exfalso. destruct Ed as [-> Ev]. apply Ei. split; [done|]. rewrite <- Hk. apply (part_coarse _ _ b1); [destruct H; lia|lia|].
      by rewrite part_base_self.
Qed.
End hoover.

(** *** An intermediary split *)

Definition inserts (c : Z) (t : fragtree_t) (l : list Z) : fragtree_t := foldl (λ t f, <[f := c]> t) t l.

Lemma inserts_split c t l f : get_split (inserts c t l) f = if decide (f ∈ l) then c else get_split t f.
Proof.
  unfold inserts. revert t. induction l as [|g l IH]; intros t; [done|]. simpl. rewrite IH, get_split_insert.
  destruct (decide (f ∈ l)) as [E|E]; [by rewrite decide_True by (by right)|].
  destruct (decide (g = f)) as [->|E']; [by rewrite decide_True by left|]. rewrite decide_False; [done|]. intros [Ef|Ef]%elem_of_cons; [|done].
  by rewrite Ef in E'.
Qed.
Lemma inserts_okt c t l b : okt t → 0 < c → b + c <= 24 → (∀ f, f ∈ l → ∃ k, f = fr b k ∧ valid b k) → okt (inserts c t l).
Proof.
  unfold inserts. intros Hok Hc Hb. revert t Hok. induction l as [|g l IH]; intros t Hok Hl; [done|]. simpl. destruct (Hl g ltac:(left)) as (k & -> & Hk).
  apply IH; [by apply okt_insert|]. intros f Hf. apply Hl. by right.
Qed.

Section middle.
Context t p kp (spread : Z) (Hwf : wf t) (H : valid p kp).
Let nb := get_split t (fr p kp).
Context (Hsp : 0 < spread < nb).
Let b := p + spread.
Let subs := children p kp spread.
(** After the children [l] have been split again. *)
Let T (l : list Z) : fragtree_t := inserts (nb - spread) (<[fr p kp := spread]> (delete (fr p kp) t)) l.

Lemma mid_bounds : 0 < nb ∧ p + nb <= 24.
Proof using Hwf H Hsp. apply split_ok_bounds; [by apply wf_okt|done|unfold nb in *; lia]. Qed.
Lemma mid_at v : part v p = kp → split_at t v p = nb.
Proof. intros Hv. unfold split_at. by rewrite Hv. Qed.
Lemma mid_root v : part v p = kp → path t v 0 p.
Proof using Hwf H Hsp. intros Hv. apply wf_path; [done|apply H|]. rewrite mid_at by done. lia. Qed.

(** Nothing is split between the parent and its children. *)
Lemma mid_gap v c : part v p = kp → p < c < p + nb → split_at t v c = 0.
Proof using Hwf H Hsp.
  intros Hv Hc. destruct (Z.eq_dec (split_at t v c) 0) as [|Hn]; [done|]. exfalso. destruct mid_bounds. pose proof H as [Hp _].
  apply wf_path in Hn; [|done|lia]. pose proof (path_between t (wf_okt t Hwf) v 0 p c ltac:(lia) (mid_root v Hv) Hn ltac:(lia)) as Hpc.
  destruct (path_next t (wf_okt t Hwf) v p c Hpc ltac:(lia) ltac:(lia)) as (_ & Hle & _). rewrite mid_at in Hle by done. lia.
Qed.

Context (l : list Z) (Hl : ∀ f, f ∈ l → f ∈ subs).

Lemma mid_split v c : 0 <= c <= 24 → split_at (T l) v c =
  if decide (part v p = kp ∧ c = b ∧ fr b (part v b) ∈ l) then nb - spread
  else if decide (c = p ∧ part v p = kp) then spread else split_at t v c.
Proof using Hwf H Hsp Hl.
  intros Hc. destruct mid_bounds. pose proof H as [Hp _]. unfold split_at at 1, T. rewrite inserts_split.
  assert (fr c (part v c) ∈ l ↔ part v p = kp ∧ c = b ∧ fr b (part v b) ∈ l) as E.
  { split; [|by intros (_ & -> & ?)]. intros Hin. pose proof (Hl _ Hin) as Hsub. destruct (child_bits p kp spread _ H ltac:(lia) ltac:(lia) Hsub) as (k' & E & Hk').
    apply fr_part_inj in E as [-> _]; [|done..]. split; [|done]. apply child_part in Hsub; done || lia. }
  rewrite (decide_ext _ _ _ _ E). case_decide; [done|]. fold (split_at (<[fr p kp:=spread]> (delete (fr p kp) t)) v c).
  rewrite split_at_insert by done. case_decide as E'; [done|]. rewrite split_at_delete by done. by rewrite decide_False.
Qed.
Lemma mid_split_off v c : 0 <= c <= 24 → c ≠ p ∧ c ≠ b ∨ part v p ≠ kp → split_at (T l) v c = split_at t v c.
Proof using Hwf H Hsp Hl. intros Hc Hn. rewrite mid_split by done. rewrite !decide_False by tauto. done. Qed.
Lemma mid_split_parent v : part v p = kp → split_at (T l) v p = spread.
Proof using Hwf H Hsp Hl. intros Hv. rewrite mid_split by apply H. rewrite decide_False by (unfold b; lia). by rewrite decide_True. Qed.

Lemma mid_okt : okt (T l).
Proof using Hwf H Hsp Hl.
  destruct mid_bounds. apply (inserts_okt _ _ _ b); [|lia|unfold b; lia|].
  - apply okt_insert; [apply okt_delete, wf_okt; done|done|lia..].
  - intros f Hf%Hl. apply (child_bits p kp spread); done || lia.
Qed.

Lemma mid_path v c : 0 <= c <= 24 → path t v 0 c → c <= p ∨ part v p ≠ kp → path (T l) v 0 c.
Proof using Hwf H Hsp Hl.
  intros Hc Hp Hn. apply (path_mono t); [by apply wf_okt|lia|done|]. intros d Hd _. apply mid_split_off; [lia|]. unfold b. lia.
Qed.
Lemma mid_path_child v : part v p = kp → path (T l) v 0 b.
Proof using Hwf H Hsp Hl.
  intros Hv. unfold b. rewrite <- (mid_split_parent v Hv). apply path_snoc.
  - apply mid_path; [apply H|by apply mid_root|lia].
  - rewrite mid_split_parent by done. lia.
Qed.

(** The next child is still a leaf. *)
Lemma mid_is_leaf f : f ∈ subs → f ∉ l → is_leaf (T l) f = Ok true.
Proof using Hwf H Hsp Hl.
  intros Hf Hn. destruct mid_bounds as [Hn1 Hn2]. pose proof H as [Hp _]. pose proof Hf as Hf'.
  destruct (child_bits p kp spread f H ltac:(lia) ltac:(lia) Hf) as (k' & -> & Hk'). set (v := base b k').
  assert (part v b = k') as Hvb by (by apply part_base_self). assert (part v p = kp) as Hvp by (apply (child_part v p kp spread); [done|lia..|]; unfold b in Hvb; rewrite Hvb; done).
  assert (split_at (T l) v b = 0) as Hz.
  { rewrite mid_split by (unfold b; lia). rewrite Hvb. rewrite decide_False by (by intros (_ & _ & ?)). rewrite decide_False by (unfold b; lia). apply mid_gap; [done|unfold b; lia]. }
  rewrite (is_leaf_reached (T l) mid_okt); [|fold v|done].
  - f_equal. apply Z.eqb_eq. apply depth_unique; [apply mid_okt|by apply mid_path_child|done].
  - intros c Hc Hs. destruct (Z.eq_dec c b) as [->|Hcb]; [done|]. destruct (Z.eq_dec c p) as [->|Hcp]; [apply mid_path; [lia|by apply mid_root|lia]|].
    rewrite mid_split_off in Hs by lia. apply mid_path; [unfold b in *; lia|by apply wf_path; [|unfold b in *; lia|]|].
    left. destruct (Z.le_gt_cases c p); [done|]. rewrite mid_gap in Hs by (done || unfold b in *; lia). done.
Qed.
End middle.

Section middle_all.
Context t p kp (spread : Z) (Hwf : wf t) (H : valid p kp).
Let nb := get_split t (fr p kp).
Context (Hsp : 0 < spread < nb).
Let b := p + spread.
Let subs := children p kp spread.
Let t2 := <[fr p kp := spread]> (delete (fr p kp) t).

Lemma split_all_ok l r : NoDup (l ++ r) → (∀ f, f ∈ l ++ r → f ∈ subs) →
  split_all (inserts (nb - spread) t2 l) (nb - spread) r = Ok (inserts (nb - spread) t2 (l ++ r)).
Proof using Hwf H Hsp.
  revert l. induction r as [|f r IH]; intros l Hnd Hs; [by rewrite app_nil_r|]. cbn [split_all].
  assert (tree_split (inserts (nb - spread) t2 l) f (nb - spread) false = Ok (inserts (nb - spread) t2 (l ++ [f]))) as ->.
  { unfold tree_split. unfold t2, nb. rewrite (mid_is_leaf t p kp spread Hwf H Hsp l); [|intros g Hg; apply Hs, elem_of_app; by left|apply Hs, elem_of_app; right; left|].
    - cbn [mbind res_bind assert_c simplify_above]. unfold inserts. by rewrite foldl_app.
    - apply NoDup_app in Hnd as (_ & Hnd & _). intros Hf. by apply (Hnd f Hf); left. }
  cbn [mbind res_bind]. rewrite IH; [by rewrite <- app_assoc|by rewrite <- app_assoc|by rewrite <- app_assoc].
Qed.

Lemma subs_NoDup : NoDup subs.
Proof using Hwf H Hsp.
  destruct (mid_bounds t p kp spread Hwf H Hsp) as [Hn1 Hn2]. fold nb in Hn1, Hn2. unfold subs, children. apply NoDup_fmap_2_strong; [|apply NoDup_seqZ].
  intros i j Hi%elem_of_seqZ Hj%elem_of_seqZ E. apply fr_inj in E as [_ E]; [lia|apply child_valid; done || lia..].
Qed.

Lemma mid_first : tree_split (delete (fr p kp) t) (fr p kp) spread false = Ok t2.
Proof using Hwf H Hsp.
  pose proof H as [Hp _]. pose proof (wf_okt t Hwf) as Hok. unfold tree_split. set (t1 := delete (fr p kp) t).
  assert (okt t1) as Hok1 by (by apply okt_delete).
  assert (∀ c, 0 <= c <= p → split_at t (base p kp) c ≠ 0 → path t1 (base p kp) 0 c) as Hm.
  { intros c Hc Hs. apply (path_mono t); [done|lia|apply wf_path; done || lia|]. intros d Hd _. unfold t1. rewrite split_at_delete by (done || lia). by rewrite decide_False by lia. }
  assert (split_at t (base p kp) p = nb) as Hn by (apply mid_at; by apply part_base_self).
  rewrite (is_leaf_reached t1 Hok1); [| |done].
  - rewrite (depth_unique t1 Hok1 (base p kp) p); [by rewrite Z.eqb_refl|apply Hm; lia|].
    unfold t1. rewrite split_at_delete by done. rewrite decide_True; [done|]. split; [done|by apply part_base_self].
  - intros c Hc Hs. apply Hm; [done|]. intros E0. apply Hs. unfold t1. rewrite split_at_delete by (done || lia). by case_decide.
Qed.

(** The intermediary split changes no depth. *)
Lemma middle_ok : wf (inserts (nb - spread) t2 subs) ∧ ∀ v, depth (inserts (nb - spread) t2 subs) v = depth t v.
Proof using Hwf H Hsp.
  pose proof (mid_bounds t p kp spread Hwf H Hsp) as [Hn1 Hn2]. pose proof H as [Hp _]. pose proof (wf_okt t Hwf) as Hok.
  assert (∀ f, f ∈ subs → f ∈ children p kp spread) as Hl by done. fold nb in Hn1, Hn2.
  pose proof (mid_okt t p kp spread Hwf H Hsp subs Hl) as Hok'. set (t' := inserts (nb - spread) t2 subs) in *. change (okt t') in Hok'.
  pose proof (mid_split_off t p kp spread Hwf H Hsp subs Hl) as Hoff. pose proof (mid_path t p kp spread Hwf H Hsp subs Hl) as Hpath.
  pose proof (mid_path_child t p kp spread Hwf H Hsp subs Hl) as Hchild. fold nb b in Hoff, Hpath, Hchild. change (inserts _ _ subs) with t' in Hoff, Hpath, Hchild.
  assert (∀ v, part v p = kp → split_at t' v b = nb - spread) as Hb.
  { intros v Hv. unfold t', t2, nb. rewrite (mid_split t p kp spread Hwf H Hsp subs Hl) by (unfold b; lia). rewrite decide_True; [done|].
    split_and!; [done|done|]. apply child_part; done || lia. }
  assert (∀ v c, 0 <= c <= 24 → path t v 0 c → ¬ (part v p = kp ∧ p < c < p + nb) → path t' v 0 c) as Hmono.
  { intros v c Hc Hpc Hn. destruct (Z.eq_dec (part v p) kp) as [Hv|Hv]; [|by apply Hpath; [..|right]].
    destruct (Z.le_gt_cases c p) as [Hle|Hgt]; [by apply Hpath; [..|left]|].
    pose proof (path_between t Hok v 0 p c ltac:(lia) (mid_root t p kp spread Hwf H Hsp v Hv) Hpc ltac:(lia)) as Hpc'.
    destruct (path_next t Hok v p c Hpc' ltac:(lia) ltac:(lia)) as (_ & Hle & Hnc). rewrite (mid_at t p kp v Hv) in Hle, Hnc. fold nb in Hle, Hnc.
    apply (path_trans _ _ _ b); [by apply Hchild|]. apply path_step; rewrite Hb by done; [lia|]. replace (b + (nb - spread)) with (p + nb) by (unfold b; lia).
    apply (path_mono t); [done|lia|done|]. intros d Hd _. apply Hoff; [lia|]. left. unfold b. lia. }
  split.
  - apply wf_intro; [done|]. intros v c Hc Hs. destruct (Z.eq_dec (part v p) kp) as [Hv|Hv].
    2:{ rewrite Hoff in Hs by (done || by right). apply Hmono; [done|by apply wf_path|tauto]. }
    destruct (Z.eq_dec c b) as [->|Hcb]; [by apply Hchild|].
    destruct (Z.eq_dec c p) as [->|Hcp]; [apply Hmono; [done|by apply (mid_root t p kp spread)|lia]|].
    rewrite Hoff in Hs by (done || by left). apply Hmono; [done|by apply wf_path|]. intros [_ Hgap]. by rewrite (mid_gap t p kp spread) in Hs.
  - intros v. destruct (depth_path t Hok v) as [Hdp Hz]. pose proof (depth_le t Hok v) as Hdl.
    assert (part v p = kp → p + nb <= depth t v) as Hdeep.
    { intros Hv. pose proof (mid_root t p kp spread Hwf H Hsp v Hv) as Hpr. rewrite <- (mid_at t p kp v Hv : _ = nb).
      apply (path_end t Hok v 0); [lia| |done..]. apply path_snoc; [done|]. rewrite (mid_at t p kp v Hv). fold nb. lia. }
    apply depth_unique; [done|..].
    + apply Hmono; [done..|]. intros [Hv Hgap]. specialize (Hdeep Hv). lia.
    + rewrite Hoff; [done..|]. destruct (Z.eq_dec (part v p) kp) as [Hv|Hv]; [|by right]. specialize (Hdeep Hv). left. unfold b. lia.
Qed.
End middle_all.

(** ** Forcing a fragment to be a leaf *)

Section force.
Context b k (H : valid b k).

(** The depth asked for: [b] within the fragment, and where a shallower leaf
    contained it. *)
Definition forced t v : Z :=
  if part v b =? k then b
  else if (depth t v <? b) && (part v (depth t v) =? part (base b k) (depth t v)) then b else depth t v.

Lemma hoover_all_ok t : wf t → path t (base b k) 0 b →
  ∃ t', hoover (splits_size t) t [fr b k] = Ok t' ∧ wf t' ∧ is_leaf t' (fr b k) = Ok true ∧ ∀ v, depth t' v = if part v b =? k then b else depth t v.
Proof using H.
  intros Hwf Hp. pose proof (wf_okt t Hwf) as Hok. destruct (hoover_ok b k H (splits_size t) t [(b, k)]) as (t' & E & Hok' & Hs').
  - done.
  - by apply Forall_singleton.
  - intros q ->%list_elem_of_singleton. cbn [fst snd]. split; [lia|]. by apply part_base_self.
  - intros v c Hc [Hle Hv] Hn. exists (b, k). cbn [fst snd]. split_and!; [left|done|done|].
    apply (path_between t Hok v 0); [lia|by apply (path_base t b k)|by apply wf_path|done].
  - simpl. lia.
  - destruct (prune_ok t t' b k Hwf H Hp Hok' Hs') as [Hwf' Hd']. exists t'. split_and!; [done..| |done].
    rewrite is_leaf_ok by done. by rewrite Hd', part_base_self, !Z.eqb_refl by done.
Qed.

Lemma forced_inside t v : part v b = k → forced t v = b.
Proof. unfold forced. intros ->. by rewrite Z.eqb_refl. Qed.

(** When no shallower leaf contains the fragment, only its own values change. *)
Lemma forced_deep t : okt t → b <= depth t (base b k) → ∀ v, forced t v = if part v b =? k then b else depth t v.
Proof using H.
  intros Hok Hd v. unfold forced. destruct (part v b =? k); [done|]. destruct (Z.ltb_spec (depth t v) b) as [Hlt|]; [|done]. cbn [andb].
  destruct (Z.eqb_spec (part v (depth t v)) (part (base b k) (depth t v))) as [E|]; [|done].
  apply (depth_coarse t Hok) in E. lia.
Qed.

Lemma force_to_leaf_ok t : wf t → ∃ t', force_to_leaf t (fr b k) = Ok (negb (depth t (base b k) =? b), t') ∧ wf t' ∧
  (depth t (base b k) = b → t' = t) ∧ ∀ v, depth t' v = forced t v.
Proof using H.
  intros Hwf. pose proof (wf_okt t Hwf) as Hok. pose proof H as [Hb _]. unfold force_to_leaf. rewrite is_leaf_ok by done. cbn [mbind res_bind].
  set (v := base b k) in *. assert (part v b = k) as Hvb by (by apply part_base_self). destruct (Z.eqb_spec (depth t v) b) as [Hd|Hd]; cbn [negb].
  { exists t. split_and!; [done..|]. intros w. rewrite forced_deep by (done || fold v; lia). destruct (Z.eqb_spec (part w b) k) as [Ew|]; [|done].
    by apply (depth_base t b k). }
  destruct (branch_or_leaf_ok t b k Hok ltac:(apply wf_reached; done || lia) H) as (s & E & Hsb & Hp & He). rewrite E. cbn [mbind res_bind]. fold v in Hp, He |- *.
  pose proof (part_valid v s ltac:(lia)) as Hvs. rewrite !bits_fr by done. rewrite (proj2 (Z.leb_le s b)) by lia. cbn [assert_c mbind res_bind].
  pose proof (depth_le t Hok v) as Hdl. destruct (depth_path t Hok v) as [Hdp Hdz]. change (get_split t (fr s (part v s))) with (split_at t v s).
  destruct (Z.ltb_spec s b) as [Hlt|Hge]; cycle 1.
  - (* a split *)
    assert (s = b) as -> by lia. destruct (hoover_all_ok t Hwf Hp) as (t' & E' & Hwf' & Hl & Hd'). rewrite E'. cbn [mbind res_bind]. rewrite Hl.
    cbn [mbind res_bind assert_c]. exists t'. split_and!; [done..|]. intros w. rewrite Hd'. symmetry. apply forced_deep; [done|]. fold v. by apply (path_end t Hok v 0 b); [lia|..].
  - destruct (Z.eqb_spec (split_at t v s) 0) as [Ez|Ez].
    + (* a leaf above *)
      assert (depth t v = s) as Ed by (by apply depth_unique).
      destruct (tree_split_ok t s (part v s) (b - s) true Hwf Hvs) as (t' & E' & Hwf' & Hd'); [|lia..|].
      { transitivity (depth t v); [|done]. apply (depth_coarse t Hok). by rewrite Ed, part_base_self. }
      rewrite E'. cbn [mbind res_bind]. rewrite is_leaf_ok by done. fold v. rewrite Hd', Z.eqb_refl. replace (s + (b - s)) with b by lia. rewrite Z.eqb_refl.
      cbn [mbind res_bind assert_c]. exists t'. split_and!; [done..|]. intros w. rewrite Hd'. unfold forced. fold v. destruct (Z.eqb_spec (part w s) (part v s)) as [Ew|Ew].
      * assert (depth t w = s) as -> by (rewrite <- Ed; apply (depth_coarse t Hok); rewrite Ed; done). rewrite Ew, Z.eqb_refl, (proj2 (Z.ltb_lt s b)) by done. cbn [andb]. destruct (_ =? _); lia.
      * rewrite (proj2 (Z.eqb_neq (part w b) k)) by (intros Ek; apply Ew; apply (part_coarse _ _ b); lia || congruence).
        destruct (Z.ltb_spec (depth t w) b); [|done]. cbn [andb]. destruct (Z.eqb_spec (part w (depth t w)) (part v (depth t w))) as [Ew'|]; [|done].
        exfalso. apply Ew. apply (depth_coarse t Hok) in Ew' as Edw. by rewrite <- Ed, Edw.
    + (* a split above that jumps over *)
      assert (b < s + split_at t v s) as Hjump by (destruct He as [|[?|?]]; lia). set (nb := split_at t v s) in *.
      assert (0 < b - s) as Hgt0 by lia. assert (b - s < nb) as Hjump' by lia. rewrite (proj2 (Z.gtb_lt nb (b - s))) by lia. cbn [assert_c mbind res_bind].
      pose proof (tree_merge_raw t s (part v s) Hok Hvs Ez) as Em. change (get_split t (fr s (part v s))) with nb in Em. rewrite Em. cbn [mbind res_bind].
      destruct (split_at_bounds t Hok v s ltac:(lia) Ez) as [Hn1 Hn2]. fold nb in Hn1, Hn2.
      pose proof (conj Hgt0 Hjump' : 0 < b - s < get_split t (fr s (part v s))) as Hsp.
      rewrite (mid_first t s (part v s) (b - s) Hwf Hvs Hsp). cbn [mbind res_bind]. rewrite split_ok by (done || lia). cbn [mbind res_bind].
      pose proof (split_all_ok t s (part v s) (b - s) Hwf Hvs Hsp [] (children s (part v s) (b - s)) (subs_NoDup t s (part v s) (b - s) Hwf Hvs Hsp) ltac:(done)) as Es.
      cbn [app] in Es. unfold inserts at 1 in Es. cbn [foldl] in Es. change (get_split t (fr s (part v s))) with nb in Es. rewrite Es. cbn [mbind res_bind].
      destruct (middle_ok t s (part v s) (b - s) Hwf Hvs Hsp) as [Hwf3 Hd3]. change (get_split t (fr s (part v s))) with nb in Hwf3, Hd3. set (t3 := inserts _ _ _) in *.
      assert (path t3 v 0 b) as Hp3.
      { replace b with (s + (b - s)) by lia. apply (mid_path_child t s (part v s) (b - s) Hwf Hvs Hsp); done. }
      destruct (hoover_all_ok t3 Hwf3 Hp3) as (t' & E' & Hwf' & Hl & Hd'). rewrite E'. cbn [mbind res_bind]. rewrite Hl.
      cbn [mbind res_bind assert_c]. exists t'. split_and!; [done..|]. intros w. rewrite Hd', Hd3. symmetry. apply forced_deep; [done|]. fold v.
      transitivity (s + nb); [lia|]. apply (path_end t Hok v 0); [lia|by apply path_snoc|done..].
Qed.
End force.

(** *** Merge *)

Lemma delete_leaf_parent_ok t b k : wf t → valid b k → get_split t (fr b k) ≠ 0 →
  (∀ p, p ∈ children b k (get_split t (fr b k)) → get_split t p = 0) →
  wf (delete (fr b k) t) ∧ ∀ v, depth (delete (fr b k) t) v = if part v b =? k then b else depth t v.
Proof.
  intros Hwf H Hs Hch. pose proof (wf_okt t Hwf) as Hok. pose proof H as [Hb _]. destruct (split_ok_bounds t Hok b k H Hs) as [Hn1 Hn2].
  assert (split_at t (base b k) b ≠ 0) as Hsb by (unfold split_at; by rewrite part_base_self).
  assert (path t (base b k) 0 b) as Hp by (by apply wf_path).
  apply (prune_ok t); [done..|by apply okt_delete|]. intros v c Hc. rewrite split_at_delete by done.
  destruct (decide (c = b ∧ part v b = k)) as [[-> Ev]|Hne]; [by rewrite decide_True by (split; [lia|done])|].
  destruct (decide (inside b k c v)) as [[Hle Ev]|]; [|done]. destruct (Z.eq_dec (split_at t v c) 0) as [|Hn]; [done|exfalso].
  assert (split_at t v b = get_split t (fr b k)) as Es by (unfold split_at; by rewrite Ev).
  assert (split_at t v (b + get_split t (fr b k)) = 0) as Ez by (apply Hch, child_part; done || lia).
  pose proof (path_between t Hok v 0 b c ltac:(lia) (path_base t b k v Hok H Ev Hp) (wf_path t v c Hwf Hc Hn) Hle) as Hbc.
  destruct (path_next t Hok v b c Hbc Hb ltac:(intros ->; by apply Hne)) as (_ & Hle' & Hbc'). rewrite Es in Hle', Hbc'.
  destruct (Z.eq_dec (b + get_split t (fr b k)) c) as [Ec|Ec]; [by rewrite <- Ec in Hn|].
  by destruct (path_next t Hok v _ c Hbc' ltac:(lia) Ec) as [Hx _].
Qed.

Lemma tree_merge_ok t b k simp : wf t → valid b k → get_split t (fr b k) ≠ 0 →
  (∀ p, p ∈ children b k (get_split t (fr b k)) → get_split t p = 0) →
  ∃ t', tree_merge t (fr b k) (get_split t (fr b k)) simp = Ok t' ∧ wf t' ∧ ∀ v, depth t' v = if part v b =? k then b else depth t v.
Proof.
  intros Hwf H Hs Hch. unfold tree_merge. rewrite is_leaf_split by (done || by apply wf_okt). cbn [mbind res_bind negb assert_c]. rewrite Z.eqb_refl.
  cbn [mbind res_bind assert_c]. destruct (delete_leaf_parent_ok t b k Hwf H Hs Hch) as [Hwf' Hd'].
  destruct (simplify_above_ok _ b k simp Hwf' H) as (t' & E & Hwf'' & Hd''). exists t'. split_and!; [done..|]. intros v. by rewrite Hd''.
Qed.
