(* ===== verification/FragSetSpec.v ===== *)
(** * Sets of fragments

    A set is simplified by putting the parent of two siblings in their place.
    The walks end, the set covers the same values, and no pair of siblings is
    left. *)

From stdpp Require Import sorting gmap.
From S2P Require Import Prelude Frag FragSpec FragLeafSpec FragEditSpec.

Implicit Types (s : list Z) (f g v b k : Z).

(** ** Sorted lists *)

Definition vset s : Prop := StronglySorted Z.lt s ∧ ∀ f, f ∈ s → ∃ b k, f = fr b k ∧ valid b k.

Lemma set_NoDup s : StronglySorted Z.lt s → NoDup s.
Proof.
  induction 1 as [|f s Hs IH Hf]; constructor; [|done]. intros Hin. rewrite Forall_forall in Hf. specialize (Hf f Hin). lia.
Qed.

Lemma elem_of_set_insert f s g : g ∈ set_insert f s ↔ g = f ∨ g ∈ s.
Proof.
  induction s as [|h s IH]; simpl; [by rewrite list_elem_of_singleton, elem_of_nil; tauto|].
  destruct (Z.ltb_spec f h); [rewrite !elem_of_cons; tauto|]. destruct (Z.eqb_spec f h) as [->|]; rewrite !elem_of_cons, ?IH; try tauto.
Qed.
Lemma set_insert_sorted f s : StronglySorted Z.lt s → StronglySorted Z.lt (set_insert f s).
Proof.
  induction 1 as [|h s Hs IH Hh]; simpl; [by repeat constructor|]. destruct (Z.ltb_spec f h) as [Hlt|Hge].
  - constructor; [by constructor|]. constructor; [done|]. eapply Forall_impl; [done|]. simpl. lia.
  - destruct (Z.eqb_spec f h) as [->|]; [by constructor|]. constructor; [done|]. rewrite Forall_forall in *. intros g [->|Hg]%elem_of_set_insert; [lia|auto].
Qed.
Lemma elem_of_set_erase f s g : g ∈ set_erase f s ↔ g ≠ f ∧ g ∈ s.
Proof. unfold set_erase. by rewrite list_elem_of_filter. Qed.
Lemma set_erase_sorted f s : StronglySorted Z.lt s → StronglySorted Z.lt (set_erase f s).
Proof.
  unfold set_erase, fragset_t. induction 1 as [|h s Hs IH Hh]; [constructor|]. rewrite filter_cons. case_decide; [|done]. constructor; [done|].
  rewrite Forall_forall in *. intros g [_ Hg]%list_elem_of_filter. auto.
Qed.

Lemma set_next_some f s g : StronglySorted Z.lt s → set_next f s = Some g → g ∈ s ∧ f < g ∧ ∀ h, h ∈ s → f < h → g <= h.
Proof.
  unfold set_next. induction 1 as [|h s Hs IH Hh]; [done|]. simpl. destruct (Z.ltb_spec f h) as [Hlt|Hge].
  - intros [= <-]. split_and!; [left|done|]. intros x [->|Hx]%elem_of_cons _; [lia|]. rewrite Forall_forall in Hh. specialize (Hh x Hx). lia.
  - intros E. destruct (IH E) as (Hg & Hlt & Hmin). split_and!; [by right|done|]. intros x [->|Hx]%elem_of_cons Hfx; [lia|auto].
Qed.
Lemma set_next_none f s : set_next f s = None → ∀ h, h ∈ s → h <= f.
Proof.
  unfold set_next. induction s as [|h s IH]; simpl; [by intros _ h Hh%elem_of_nil|]. destruct (Z.ltb_spec f h); [done|].
  intros E x [->|Hx]%elem_of_cons; [done|auto].
Qed.

Lemma length_incl (l l' : list Z) : NoDup l → (∀ x, x ∈ l → x ∈ l') → (length l <= length l')%nat.
Proof. intros Hl Hin. apply submseteq_length, NoDup_submseteq; done. Qed.
Lemma length_incl_lt (l l' : list Z) x : NoDup l → (∀ y, y ∈ l → y ∈ l') → x ∈ l' → x ∉ l → (length l < length l')%nat.
Proof.
  intros Hl Hin Hx Hn. assert (length (x :: l) <= length l')%nat; [|simpl in *; lia]. apply length_incl; [by constructor|].
  intros y [->|Hy]%elem_of_cons; auto.
Qed.

(** ** Siblings *)

Lemma lxor_1 k : Z.lxor k 1 = k + 1 - 2 * (k mod 2).
Proof.
  assert (∀ q, Z.lxor (2 * q) 1 = 2 * q + 1) as He.
  { intros q. rewrite Z.add_nocarry_lxor; [done|]. change 1 with (Z.ones 1). rewrite Z.land_ones by lia. change (2 ^ 1) with 2. rewrite Z.mul_comm. by rewrite Z_mod_mult. }
  pose proof (Z.div_mod k 2 ltac:(lia)) as Hk. pose proof (Z.mod_pos_bound k 2 ltac:(lia)). assert (k mod 2 = 0 ∨ k mod 2 = 1) as [E|E] by lia; rewrite E in *.
  - rewrite Hk at 1. rewrite Z.add_0_r, He. lia.
  - rewrite Hk at 1. rewrite <- He, Z.lxor_assoc. change (Z.lxor 1 1) with 0. rewrite Z.lxor_0_r. lia.
Qed.
Lemma half_pair x k : x / 2 = k / 2 ↔ x = k ∨ x = Z.lxor k 1.
Proof. rewrite lxor_1. pose proof (Z.div_mod x 2 ltac:(lia)). pose proof (Z.div_mod k 2 ltac:(lia)). pose proof (Z.mod_pos_bound x 2 ltac:(lia)). pose proof (Z.mod_pos_bound k 2 ltac:(lia)). lia. Qed.

Lemma parent_valid b k : valid b k → 0 < b → valid (b - 1) (k / 2).
Proof.
  intros [Hb Hk] H0. split; [lia|]. replace b with ((b - 1) + 1) in Hk by lia. rewrite Z.pow_add_r in Hk by lia. change (2 ^ 1) with 2 in Hk.
  split; [apply Z.div_pos; lia|]. apply Z.div_lt_upper_bound; lia.
Qed.
Lemma sibling_valid b k : valid b k → 0 < b → valid b (Z.lxor k 1).
Proof.
  intros [Hb Hk] H0. split; [done|]. rewrite lxor_1. replace b with ((b - 1) + 1) in * by lia. rewrite Z.pow_add_r in * by lia. change (2 ^ 1) with 2 in *.
  pose proof (Z.div_mod k 2 ltac:(lia)). pose proof (Z.mod_pos_bound k 2 ltac:(lia)). lia.
Qed.
Lemma parent_lt b k : valid b k → 0 < b → fr (b - 1) (k / 2) < fr b k.
Proof. intros H H0. pose proof (valid_value _ _ H). pose proof (valid_value _ _ (parent_valid _ _ H H0)). unfold fr in *. lia. Qed.

(** ** Coverage *)

Definition in_set s v : Prop := ∃ f, f ∈ s ∧ ceph_frag_contains_value f v = Ok true.
(** No two siblings. *)
Definition no_pairs s : Prop := ∀ f g, f ∈ s → is_root f = false → get_sibling f = Ok g → g ∉ s.

Lemma is_root_fr b k : valid b k → is_root (fr b k) = (b =? 0).
Proof. intros H. unfold is_root. by rewrite bits_fr. Qed.

Lemma contains_value_true b k v : valid b k → ceph_frag_contains_value (fr b k) v = Ok true ↔ part v b = k.
Proof. intros H. rewrite contains_value_ok by done. split; [intros [= E%Z.eqb_eq]; done|]. intros ->. by rewrite Z.eqb_refl. Qed.

Lemma part_parent v b : 0 < b <= 24 → part v (b - 1) = part v b / 2.
Proof. intros Hb. rewrite (part_part v b (b - 1)) by lia. by replace (b - (b - 1)) with 1 by lia. Qed.

(** Two siblings and their parent. *)
Lemma pair_covers b k v : valid b k → 0 < b →
  ceph_frag_contains_value (fr (b - 1) (k / 2)) v = Ok true ↔
  ceph_frag_contains_value (fr b k) v = Ok true ∨ ceph_frag_contains_value (fr b (Z.lxor k 1)) v = Ok true.
Proof.
  intros H H0. pose proof H as [Hb _]. rewrite !contains_value_true by (done || by apply parent_valid || by apply sibling_valid).
  rewrite part_parent by lia. apply half_pair.
Qed.

(** The set after one pair has been replaced. *)
Definition join b k s : list Z := set_erase (fr b k) (set_insert (fr (b - 1) (k / 2)) (set_erase (fr b (Z.lxor k 1)) s)).

Section join.
Context b k s (H : valid b k) (H0 : 0 < b) (Hs : vset s) (Hf : fr b k ∈ s) (Hg : fr b (Z.lxor k 1) ∈ s).

Lemma elem_of_join h : h ∈ join b k s ↔ h ≠ fr b k ∧ (h = fr (b - 1) (k / 2) ∨ (h ≠ fr b (Z.lxor k 1) ∧ h ∈ s)).
Proof. unfold join. by rewrite elem_of_set_erase, elem_of_set_insert, elem_of_set_erase. Qed.

Lemma join_vset : vset (join b k s).
Proof using H H0 Hs.
  destruct Hs as [Hsort Hval]. split; [by apply set_erase_sorted, set_insert_sorted, set_erase_sorted|].
  intros h [_ [->|[_ Hh]]]%elem_of_join; [|by apply Hval]. eexists _, _. split; [done|]. by apply parent_valid.
Qed.
Lemma siblings_differ : fr b (Z.lxor k 1) ≠ fr b k.
Proof using H H0.
  intros [_ E]%fr_inj; [|by apply sibling_valid|done]. rewrite lxor_1 in E. pose proof (Z.mod_pos_bound k 2). lia.
Qed.
Lemma join_length : (length (join b k s) < length s)%nat.
Proof using H H0 Hs Hf Hg.
  destruct Hs as [Hsort Hval]. pose proof siblings_differ as Hne. pose proof (set_NoDup s Hsort) as Hnd.
  assert (length (set_erase (fr b k) (set_erase (fr b (Z.lxor k 1)) s)) < length (set_erase (fr b (Z.lxor k 1)) s))%nat as L1.
  { apply (length_incl_lt _ _ (fr b k)).
    - by apply set_NoDup, set_erase_sorted, set_erase_sorted.
    - by intros y [_ Hy]%elem_of_set_erase.
    - apply elem_of_set_erase. split; [by apply not_eq_sym|done].
    - by intros [? _]%elem_of_set_erase. }
  assert (length (set_erase (fr b (Z.lxor k 1)) s) < length s)%nat as L2.
  { apply (length_incl_lt _ _ (fr b (Z.lxor k 1))); [by apply set_NoDup, set_erase_sorted|by intros y [_ Hy]%elem_of_set_erase|done|].
    by intros [? _]%elem_of_set_erase. }
  assert (length (join b k s) <= S (length (set_erase (fr b k) (set_erase (fr b (Z.lxor k 1)) s))))%nat as L3; [|lia].
  apply (length_incl _ (fr (b - 1) (k / 2) :: set_erase (fr b k) (set_erase (fr b (Z.lxor k 1)) s))); [apply set_NoDup, join_vset|].
  intros h [Hh [->|[Hh' Hin]]]%elem_of_join; [left|right]. by rewrite !elem_of_set_erase.
Qed.
Lemma join_covers v : in_set (join b k s) v ↔ in_set s v.
Proof using H H0 Hs Hf Hg.
  pose proof (pair_covers b k v H H0) as Hp. split.
  - intros (h & [_ [->|[_ Hh]]]%elem_of_join & Hv); [|by exists h]. apply Hp in Hv as [Hv|Hv]; [by exists (fr b k)|by exists (fr b (Z.lxor k 1))].
  - intros (h & Hh & Hv). assert (fr (b - 1) (k / 2) ∈ join b k s) as Hpar.
    { apply elem_of_join. split; [|by left]. pose proof (parent_lt b k H H0). lia. }
    destruct (decide (h = fr b k)) as [->|]; [exists (fr (b - 1) (k / 2)); split; [done|]; apply Hp; by left|].
    destruct (decide (h = fr b (Z.lxor k 1))) as [->|]; [exists (fr (b - 1) (k / 2)); split; [done|]; apply Hp; by right|].
    exists h. split; [|done]. apply elem_of_join. split; [done|]. by right.
Qed.
End join.

(** ** The walks *)

Definition clean_at s f : Prop := is_root f = false → ∃ g, get_sibling f = Ok g ∧ g ∉ s.

(** The elements still to be visited. *)
Definition todo (p : option Z) s : list Z := match p with None => [] | Some f => filter (λ g, f <= g) s end.

Definition walk_res (p : option Z) s (clean : bool) (r : list Z * bool) : Prop :=
  vset r.1 ∧ (∀ v, in_set r.1 v ↔ in_set s v) ∧ (length r.1 <= length s)%nat ∧
  (r.2 = false → clean = true → (length r.1 < length s)%nat) ∧
  (r.2 = true → clean = true ∧ r.1 = s ∧ ∀ f, f ∈ todo p s → clean_at s f).

Lemma todo_next f s : StronglySorted Z.lt s → ∀ g, g ∈ todo (set_next f s) s ↔ f < g ∧ g ∈ s.
Proof.
  intros Hs g. destruct (set_next f s) as [n|] eqn:E; simpl.
  - rewrite list_elem_of_filter. destruct (set_next_some f s n Hs E) as (Hn & Hlt & Hmin). split; [intros [??]; split; [lia|done]|]. intros [??]. auto.
  - rewrite elem_of_nil. pose proof (set_next_none f s E) as Hn. split; [done|]. intros [Hlt Hg]. specialize (Hn g Hg). lia.
Qed.

Lemma elem_of_todo f s g : g ∈ todo (Some f) s ↔ f <= g ∧ g ∈ s.
Proof. simpl. apply list_elem_of_filter. Qed.

Lemma todo_NoDup p s : StronglySorted Z.lt s → NoDup (todo p s).
Proof. intros Hs. destruct p; simpl; [apply NoDup_filter, set_NoDup, Hs|constructor]. Qed.

Lemma walk_ok fuel p s clean : vset s → (∀ f, p = Some f → f ∈ s) → (length (todo p s) <= fuel)%nat →
  ∃ r, simplify_walk fuel p s clean = Ok r ∧ walk_res p s clean r.
Proof.
  revert p s clean. induction fuel as [|fuel IH]; intros [f|] s clean Hs Hp Hf.
  2,4: exists (s, clean); split; [done|]; split_and!; simpl; [done|done|done|intros -> [=]|intros ->; split_and!; [done..|]; by intros ? ?%elem_of_nil].
  { exfalso. assert (f ∈ todo (Some f) s) as Hin by (apply elem_of_todo; split; [lia|auto]). destruct (todo (Some f) s); [by apply elem_of_nil in Hin|simpl in Hf; lia]. }
  pose proof (Hp f eq_refl) as Hfs. pose proof Hs as [Hsort Hval]. destruct (Hval f Hfs) as (b & k & -> & Hk). cbn [simplify_walk]. rewrite is_root_fr by done.
  assert (∀ p' s', vset s' → (∀ g, g ∈ todo p' s' → fr b k < g ∧ g ∈ s) → (length (todo p' s') <= fuel)%nat) as Hless.
  { intros p' s' [Hsort' _] Hin. assert (length (todo p' s') < length (todo (Some (fr b k)) s))%nat; [|lia].
    apply (length_incl_lt _ _ (fr b k)); [by apply todo_NoDup|intros g [??]%Hin; apply elem_of_todo; split; [lia|done]|apply elem_of_todo; split; [lia|done]|].
    intros [??]%Hin. lia. }
  assert (clean_at s (fr b k) → ∃ r, simplify_walk fuel (set_next (fr b k) s) s clean = Ok r ∧ walk_res (Some (fr b k)) s clean r) as Hclean.
  { intros Hc. destruct (IH (set_next (fr b k) s) s clean Hs) as (r & -> & H1 & H2 & H3 & H4 & H5).
    - intros g Hg. by apply (set_next_some (fr b k) s g Hsort).
    - apply Hless; [done|]. intros g. by apply todo_next.
    - exists r. split; [done|]. split_and!; [done..|]. intros Hr. destruct (H5 Hr) as (? & ? & Hall). split_and!; [done..|].
      intros g [Hle Hg]%elem_of_todo. destruct (Z.eq_dec g (fr b k)) as [->|]; [done|]. apply Hall. apply todo_next; [done|]. split; [lia|done]. }
  pose proof Hk as [Hb _]. destruct (Z.eqb_spec b 0) as [Eb|Eb]; cbn [mbind res_bind].
  { apply Hclean. intros Hr. rewrite is_root_fr in Hr by done. by rewrite Eb in Hr. }
  rewrite sibling_ok by (done || lia). cbn [mbind res_bind]. case_bool_decide as Hsib; cycle 1.
  { apply Hclean. intros _. eexists. split; [apply sibling_ok; done || lia|done]. }
  rewrite parent_ok by (done || lia). cbn [mbind res_bind]. fold (join b k s).
  set (s2 := set_insert (fr (b - 1) (k / 2)) (set_erase (fr b (Z.lxor k 1)) s)). assert (0 < b) as H0 by lia.
  assert (StronglySorted Z.lt s2) as Hsort2 by (by apply set_insert_sorted, set_erase_sorted).
  pose proof (join_vset b k s Hk H0 Hs) as Hj. pose proof (parent_lt b k Hk H0) as Hlt.
  destruct (IH (set_next (fr b k) s2) (join b k s) false Hj) as (r & -> & H1 & H2 & H3 & H4 & H5).
  - intros g Hg. apply (set_next_some (fr b k) s2 g Hsort2) in Hg as (Hg & Hgt & _). apply elem_of_set_erase. split; [lia|done].
  - apply Hless; [done|]. intros g Hg. assert (g ∈ todo (set_next (fr b k) s2) s2) as Hg2.
    { destruct (set_next (fr b k) s2) as [n|]; [|done]. apply elem_of_todo in Hg as [Hle Hg]. apply elem_of_todo. split; [done|].
      by apply elem_of_set_erase in Hg as [_ Hg]. }
    apply todo_next in Hg2 as [Hgt Hg2]; [|done]. split; [done|]. apply elem_of_set_insert in Hg2 as [->|[_ Hg2]%elem_of_set_erase]; [lia|done].
  - exists r. split; [done|]. pose proof (join_length b k s Hk H0 Hs Hfs Hsib). split_and!; [done| |lia|intros; lia|intros Hr; by destruct (H5 Hr)].
    intros v. rewrite H2. by apply join_covers.
Qed.

Lemma todo_head s : StronglySorted Z.lt s → ∀ f, f ∈ todo (head s) s ↔ f ∈ s.
Proof.
  intros Hs f. destruct s as [|h s]; [done|]. cbn [head]. rewrite elem_of_todo. split; [by intros [_ ?]|]. intros Hf. split; [|done].
  inversion Hs as [|? ? _ Hh]; subst. rewrite Forall_forall in Hh. apply elem_of_cons in Hf as [->|Hf]; [lia|]. specialize (Hh f Hf). lia.
Qed.

Lemma simplify_loop_ok fuel s : vset s → (length s < fuel)%nat →
  ∃ s', simplify_loop fuel s = Ok s' ∧ vset s' ∧ (∀ v, in_set s' v ↔ in_set s v) ∧ (length s' <= length s)%nat ∧ ∀ f, f ∈ s' → clean_at s' f.
Proof.
  revert s. induction fuel as [|fuel IH]; intros s Hs Hf; [lia|]. cbn [simplify_loop].
  destruct (walk_ok (length s) (head s) s true Hs) as ([s' c] & -> & H1 & H2 & H3 & H4 & H5).
  - intros f E. destruct s; [done|]. injection E as ->. left.
  - apply length_incl; [apply todo_NoDup, Hs|]. intros f. apply todo_head, Hs.
  - cbn [fst snd mbind res_bind] in *. destruct c.
    + destruct (H5 eq_refl) as (_ & -> & Hall). exists s. split_and!; [done..|]. intros f Hin. apply Hall. by apply todo_head; [apply Hs|].
    + specialize (H4 eq_refl eq_refl). destruct (IH s' H1 ltac:(lia)) as (s'' & -> & G1 & G2 & G3 & G4). exists s''. split_and!; [done|done| |lia|done].
      intros v. by rewrite G2.
Qed.

Lemma fragset_insert_ok f s b k : vset s → valid b k → f = fr b k →
  ∃ s', fragset_insert f s = Ok s' ∧ vset s' ∧ (∀ v, in_set s' v ↔ in_set s v ∨ part v b = k) ∧ ∀ f, f ∈ s' → clean_at s' f.
Proof.
  intros [Hsort Hval] H ->. assert (vset (set_insert (fr b k) s)) as Hs.
  { split; [by apply set_insert_sorted|]. intros g [->|Hg]%elem_of_set_insert; [by exists b, k|by apply Hval]. }
  unfold fragset_insert, simplify. destruct (simplify_loop_ok _ _ Hs (Nat.lt_succ_diag_r _)) as (s' & -> & H1 & H2 & _ & H4). exists s'. split_and!; [done..| |done].
  intros v. rewrite H2. rewrite <- (contains_value_true b k v H). split.
  - intros (g & [->|Hg]%elem_of_set_insert & Hv); [by right|left; by exists g].
  - intros [(g & Hg & Hv)|Hv]; [exists g; split; [apply elem_of_set_insert; by right|done]|exists (fr b k); split; [apply elem_of_set_insert; by left|done]].
Qed.

(** ** Membership of a fragment or of one that contains it *)

Lemma set_contains_ok fuel s b k : vset s → valid b k → b < Z.of_nat fuel →
  ∃ r, set_contains_from fuel s (fr b k) = Ok r ∧ (r = true ↔ ∃ g, g ∈ s ∧ ceph_frag_contains_frag g (fr b k) = Ok true).
Proof.
  intros [Hsort Hval]. revert b k. induction fuel as [|fuel IH]; intros b k H Hf; [destruct H; lia|]. cbn [set_contains_from].
  assert (∀ b' k', valid b' k' → ceph_frag_contains_frag (fr b' k') (fr b k) = Ok true ↔ b' <= b ∧ part (base b k) b' = k') as Hc.
  { intros b' k' H'. rewrite contains_frag_ok by done. rewrite <- Z.leb_le, <- Z.eqb_eq. rewrite <- andb_true_iff. split; [by intros [= ->]|by intros ->]. }
  case_bool_decide as Hin.
  - exists true. split; [done|]. split; [|done]. intros _. exists (fr b k). split; [done|]. apply Hc; [done|]. split; [lia|by apply part_base_self].
  - rewrite bits_fr by done. pose proof H as [Hb Hk]. destruct (Z.eqb_spec b 0) as [->|Hb0].
    + exists false. split; [done|]. split; [done|]. intros (g & Hg & Hcg). destruct (Hval g Hg) as (b' & k' & -> & H').
      apply Hc in Hcg as [Hle Ep]; [|done]. exfalso. apply Hin. assert (b' = 0) as -> by (destruct H'; lia). rewrite part_base_self in Ep by done. by rewrite Ep.
    + rewrite parent_ok by (done || lia). cbn [mbind res_bind]. assert (valid (b - 1) (k / 2)) as Hpv by (apply parent_valid; done || lia).
      destruct (IH (b - 1) (k / 2) Hpv ltac:(lia)) as (r & -> & Hr). exists r. split; [done|]. rewrite Hr.
      apply exist_proper. intros g. split; intros [Hg Hcg]; split; [done| |done|].
      * destruct (Hval g Hg) as (b' & k' & -> & H'). apply Hc; [done|]. rewrite contains_frag_ok in Hcg by done.
        injection Hcg as [Hle%Z.leb_le Ep%Z.eqb_eq]%andb_true_iff. split; [lia|]. rewrite <- Ep. rewrite !part_base by (done || destruct H'; lia).
        rewrite Z.div_div by lia. f_equal. replace (b - b') with (1 + (b - 1 - b')) by lia. rewrite Z.pow_add_r by lia. done.
      * destruct (Hval g Hg) as (b' & k' & -> & H'). apply Hc in Hcg as [Hle Ep]; [|done].
        assert (b' ≠ b) as Hne. { intros ->. rewrite part_base_self in Ep by done. subst k'. done. }
        rewrite contains_frag_ok by done. f_equal. apply andb_true_iff. rewrite Z.leb_le, Z.eqb_eq. split; [lia|]. rewrite <- Ep. rewrite !part_base by (done || destruct H'; lia).
        rewrite Z.div_div by (try apply Z.pow_pos_nonneg; lia). f_equal. replace (b - b') with (1 + (b - 1 - b')) by lia. rewrite Z.pow_add_r by lia. done.
Qed.

(** ** Properties of the directory fragments *)

Implicit Types (t : fragtree_t).

(** ** Lemmas *)

Lemma wf_empty : wf ∅.
Proof. split; [by intros f nb|]. intros b k _ Hs. by destruct Hs. Qed.

(** A tree with two splits. *)
Definition ex_tree : fragtree_t := <[fr 2 1 := 1]> (<[fr 0 0 := 2]> ∅).
Lemma wf_ex : wf ex_tree.
Proof.
  assert (valid 0 0 ∧ valid 2 1) as [H0 H1] by (unfold valid; lia).
  destruct (insert_leaf_ok ∅ 0 0 2 wf_empty H0) as [Hwf _]; [reflexivity|lia..|]. apply insert_leaf_ok; [done|done|reflexivity|lia..].
Qed.

Lemma tiles_ge lo hi l : (∀ f, f ∈ l → ceph_frag_bits f <= 24) → tiles lo hi l → ∀ f, f ∈ l → lo <= ceph_frag_value f.
Proof.
  revert lo. induction l as [|g l IH]; intros lo Hb Ht f Hf; [by apply elem_of_nil in Hf|]. destruct Ht as [Hv Ht].
  apply elem_of_cons in Hf as [->|Hf]; [lia|]. pose proof (Z.pow_pos_nonneg 2 (24 - ceph_frag_bits g) ltac:(lia) ltac:(pose proof (Hb g ltac:(left)); lia)).
  specialize (IH _ (λ h Hh, Hb h (list_elem_of_further _ _ _ Hh)) Ht f Hf). lia.
Qed.
Lemma tiles_NoDup lo hi l : (∀ f, f ∈ l → ceph_frag_bits f <= 24) → tiles lo hi l → NoDup l.
Proof.
  revert lo. induction l as [|g l IH]; intros lo Hb Ht; [constructor|]. destruct Ht as [Hv Ht].
  assert (∀ f, f ∈ l → ceph_frag_bits f <= 24) as Hb' by (intros f Hf; apply Hb; by right). constructor; [|by apply (IH _ Hb' Ht)].
  intros Hg. pose proof (tiles_ge _ _ _ Hb' Ht g Hg). pose proof (Z.pow_pos_nonneg 2 (24 - ceph_frag_bits g) ltac:(lia) ltac:(pose proof (Hb' g Hg); lia)). lia.
Qed.

Section leaves.
Context t (Hwf : wf t).
Let Hok : okt t := wf_okt t Hwf.

Lemma root_valid : valid 0 0.
Proof. unfold valid. lia. Qed.

Lemma elem_of_all_leaves f : f ∈ leaves t 0 0 ↔ ∃ v, f = leaf_at t v.
Proof using Hwf.
  rewrite (elem_of_leaves t Hok 0 0 f root_valid). split.
  - intros (v & d & _ & Hp & -> & Hs). exists v. unfold leaf_at. by rewrite (depth_unique t Hok v d).
  - intros (v & ->). exists v, (depth t v). destruct (depth_path t Hok v). split_and!; [|done|done].
    unfold part. apply Z.div_small. change (24 - 0) with 24. apply Z.mod_pos_bound. lia.
Qed.
Lemma leaf_at_valid v : valid (depth t v) (part v (depth t v)).
Proof using Hwf. apply part_valid, depth_le, Hok. Qed.
Lemma leaf_at_contains v w : ceph_frag_contains_value (leaf_at t v) w = Ok true ↔ leaf_at t v = leaf_at t w.
Proof using Hwf.
  unfold leaf_at at 1. rewrite contains_value_true by apply leaf_at_valid. split.
  - intros E. unfold leaf_at. assert (depth t w = depth t v) as Ed by (apply (depth_coarse t Hok); done). by rewrite Ed, E.
  - intros E. unfold leaf_at at 1 in E. symmetry in E. by apply (leaf_at_inj t Hok) in E as [_ E]; [|apply leaf_at_valid].
Qed.
Lemma leaves_bits f : f ∈ leaves t 0 0 → ceph_frag_bits f <= 24.
Proof using Hwf.
  intros (v & ->)%elem_of_all_leaves. unfold leaf_at. rewrite bits_fr by apply leaf_at_valid. apply depth_le, Hok.
Qed.
Lemma leaves_NoDup : NoDup (leaves t 0 0).
Proof using Hwf. eapply tiles_NoDup; [apply leaves_bits|]. apply (leaves_tile t Hok 0 0 root_valid). Qed.
End leaves.

Lemma is_leaf_lookup t b k : wf t → valid b k → (depth t (base b k) =? b) = bool_decide (tree_lookup t (base b k) = Ok (fr b k)).
Proof.
  intros Hwf H. pose proof (wf_okt t Hwf) as Hok. rewrite tree_lookup_ok by done. destruct (Z.eqb_spec (depth t (base b k)) b) as [E|E].
  - rewrite bool_decide_eq_true_2; [done|]. unfold leaf_at. by rewrite E, part_base_self.
  - rewrite bool_decide_eq_false_2; [done|]. intros [= Ef]. by apply (leaf_at_inj t Hok) in Ef as [? _].
Qed.

(** From depths to what the lookup returns. *)
Lemma lookup_depth t t' v d : wf t' → depth t' v = d → tree_lookup t' v = Ok (fr d (part v d)).
Proof. intros Hwf' <-. by rewrite tree_lookup_ok. Qed.

Lemma make_inside b k v : valid b k → part v b = k → ceph_frag_make b v = Ok (fr b k).
Proof. intros [Hb _] <-. by apply make_ok. Qed.

(** ** Theorems *)

(** C36: On a tree whose splits are all reached from the root, [get_leaves]
    returns fragments that follow one another from the first value of the space
    to the last, without a gap or an overlap, and [operator[]] maps every value
    to the one of them that contains it. *)
Theorem get_leaves_partition t : wf t →
  ∃ ls, get_leaves t = Ok ls ∧ tiles 0 (2 ^ 24) ls ∧
    ∀ v, ∃ f, tree_lookup t v = Ok f ∧ f ∈ ls ∧ ∀ g, g ∈ ls → ceph_frag_contains_value g v = Ok true ↔ g = f.
Proof.
  intros Hwf. pose proof (wf_okt t Hwf) as Hok. exists (leaves t 0 0). split_and!; [by apply get_leaves_ok|by apply (leaves_tile t Hok 0 0 root_valid)|].
  intros v. exists (leaf_at t v). split_and!; [by apply tree_lookup_ok|apply elem_of_all_leaves; [done|by exists v]|].
  intros g (w & ->)%elem_of_all_leaves; [|done]. by apply leaf_at_contains.
Qed.

Theorem get_leaves_partition_witness :
  ∃ ls, get_leaves ex_tree = Ok ls ∧ tiles 0 (2 ^ 24) ls ∧
    ∀ v, ∃ f, tree_lookup ex_tree v = Ok f ∧ f ∈ ls ∧ ∀ g, g ∈ ls → ceph_frag_contains_value g v = Ok true ↔ g = f.
Proof. apply (get_leaves_partition ex_tree wf_ex). Defined.

(** [get_leaves_under] returns exactly the leaves of the tree that lie within
    the fragment, each of them once; [is_leaf] and [contains] agree on every
    fragment, and say whether [operator[]] returns it for its first value. *)
Theorem get_leaves_under_exact t b k : wf t → valid b k →
  (∃ ls, get_leaves_under t (fr b k) = Ok ls ∧ NoDup ls ∧
     ∀ f, f ∈ ls ↔ (∃ v, tree_lookup t v = Ok f) ∧ ceph_frag_contains_frag (fr b k) f = Ok true) ∧
  is_leaf t (fr b k) = Ok (bool_decide (tree_lookup t (ceph_frag_value (fr b k)) = Ok (fr b k))) ∧
  tree_contains t (fr b k) = is_leaf t (fr b k).
Proof.
  intros Hwf H. pose proof (wf_okt t Hwf) as Hok. pose proof H as [Hb _]. rewrite value_fr by done. fold (base b k).
  rewrite tree_contains_ok, is_leaf_ok, is_leaf_lookup by done. split; [|done].
  destruct (get_leaves_under_ok t Hok b k ltac:(apply wf_reached; done || lia) H) as (s & ls & Hs & E & Hl). exists ls. split; [done|]. split.
  - rewrite Hl. apply NoDup_filter. destruct Hs as (Hsb & _). eapply tiles_NoDup; [|apply (leaves_tile t Hok s); apply part_valid; lia].
    intros f (v & d & _ & Hd & -> & _)%elem_of_leaves; [|done|apply part_valid; lia].
    assert (s <= d <= 24) by (eapply path_le; [done|lia|done]). rewrite bits_fr by (apply part_valid; lia). lia.
  - intros f. rewrite Hl, (elem_of_leaves_under t Hok b k s) by done. split.
    + intros (v & Hv & Hle & ->). split; [exists v; by apply tree_lookup_ok|]. unfold leaf_at.
      rewrite contains_frag_ok by (done || by apply leaf_at_valid). rewrite part_base_part by (lia || by apply depth_le).
      rewrite (proj2 (Z.leb_le _ _) Hle), Hv, Z.eqb_refl. done.
    + intros [(v & Ev) Hc]. rewrite tree_lookup_ok in Ev by done. injection Ev as <-. unfold leaf_at in Hc. rewrite contains_frag_ok in Hc by (done || by apply leaf_at_valid).
      injection Hc as [Hle%Z.leb_le Hv%Z.eqb_eq]%andb_true_iff. rewrite part_base_part in Hv by (lia || by apply depth_le). by exists v.
Qed.

Theorem get_leaves_under_exact_witness :
  (∃ ls, get_leaves_under ex_tree (fr 1 0) = Ok ls ∧ NoDup ls ∧
     ∀ f, f ∈ ls ↔ (∃ v, tree_lookup ex_tree v = Ok f) ∧ ceph_frag_contains_frag (fr 1 0) f = Ok true) ∧
  is_leaf ex_tree (fr 1 0) = Ok (bool_decide (tree_lookup ex_tree (ceph_frag_value (fr 1 0)) = Ok (fr 1 0))) ∧
  tree_contains ex_tree (fr 1 0) = is_leaf ex_tree (fr 1 0).
Proof. apply (get_leaves_under_exact ex_tree 1 0 wf_ex). unfold valid. lia. Defined.

(** C37: Splitting a leaf by [nb] bits succeeds, keeps every split reached from
    the root, and sends exactly the values of the leaf to their part of [b + nb]
    bits, whether or not the splits above are then assimilated; without
    assimilation, merging the fragment again restores the tree. *)
Theorem split_refines t b k nb simp : wf t → valid b k → is_leaf t (fr b k) = Ok true → 0 < nb → b + nb <= 24 →
  ∃ t', tree_split t (fr b k) nb simp = Ok t' ∧ wf t' ∧
    (∀ v, tree_lookup t' v = if decide (tree_lookup t v = Ok (fr b k)) then ceph_frag_make (b + nb) v else tree_lookup t v) ∧
    (simp = false → tree_merge t' (fr b k) nb false = Ok t).
Proof.
  intros Hwf H Hl Hnb Hs. pose proof (wf_okt t Hwf) as Hok. rewrite is_leaf_ok in Hl by done. injection Hl as Hd%Z.eqb_eq.
  destruct (tree_split_ok t b k nb simp Hwf H Hd Hnb Hs) as (t' & E & Hwf' & Hd'). exists t'. split_and!; [done..| |].
  - intros v. rewrite !tree_lookup_ok by done. pose proof (Hd' v) as Hdv. destruct (Z.eqb_spec (part v b) k) as [Ev|Ev].
    + pose proof (depth_base t b k v Hok H Ev Hd) as Hb. rewrite decide_True by (unfold leaf_at; by rewrite Hb, Ev).
      unfold leaf_at. rewrite Hdv, make_ok by (destruct H; lia). done.
    + rewrite decide_False; [unfold leaf_at; by rewrite Hdv|]. intros [= Ef]. by apply (leaf_at_inj t Hok) in Ef as [_ ?].
  - intros ->. unfold tree_split in E. rewrite is_leaf_ok, Hd, Z.eqb_refl in E by done. injection E as <-.
    assert (get_split (<[fr b k := nb]> t) (fr b k) = nb) as En by (rewrite get_split_insert; by rewrite decide_True).
    pose proof (tree_merge_raw (<[fr b k := nb]> t) b k (okt_insert t b k nb Hok H Hnb Hs) H ltac:(rewrite En; lia)) as Em. rewrite En in Em.
    rewrite Em. f_equal. unfold fragtree_t in *. apply delete_insert_id. destruct (t !! fr b k) as [n|] eqn:Et; [|done].
    destruct (Hok _ _ Et) as (b' & k' & _ & _ & Hn & _). exfalso. destruct (depth_path t Hok (base b k)) as [_ Hz]. rewrite Hd in Hz.
    unfold split_at, get_split, fragtree_t in Hz. rewrite part_base_self, Et in Hz by done. simpl in Hz. lia.
Qed.

Theorem split_refines_witness :
  ∃ t', tree_split ex_tree (fr 2 3) 1 true = Ok t' ∧ wf t' ∧
    (∀ v, tree_lookup t' v = if decide (tree_lookup ex_tree v = Ok (fr 2 3)) then ceph_frag_make (2 + 1) v else tree_lookup ex_tree v) ∧
    (true = false → tree_merge t' (fr 2 3) 1 false = Ok ex_tree).
Proof. apply (split_refines ex_tree 2 3 1 true wf_ex); [unfold valid; lia|by vm_compute|lia|lia]. Defined.

(** Merging a fragment whose children are not split succeeds, keeps every
    split reached from the root, and sends exactly the values of the fragment to
    the fragment itself. *)
Theorem merge_coarsens t b k simp : wf t → valid b k → get_split t (fr b k) ≠ 0 →
  (∀ p, p ∈ children b k (get_split t (fr b k)) → get_split t p = 0) →
  ∃ t', tree_merge t (fr b k) (get_split t (fr b k)) simp = Ok t' ∧ wf t' ∧
    ∀ v, tree_lookup t' v = if decide (ceph_frag_contains_value (fr b k) v = Ok true) then Ok (fr b k) else tree_lookup t v.
Proof.
  intros Hwf H Hs Hch. destruct (tree_merge_ok t b k simp Hwf H Hs Hch) as (t' & E & Hwf' & Hd'). exists t'. split_and!; [done..|].
  intros v. rewrite !tree_lookup_ok by done. unfold leaf_at. rewrite Hd'. destruct (decide _) as [Hv|Hv]; rewrite contains_value_true in Hv by done.
  - by rewrite Hv, Z.eqb_refl, Hv.
  - by rewrite (proj2 (Z.eqb_neq _ _) Hv).
Qed.

Theorem merge_coarsens_witness :
  ∃ t', tree_merge ex_tree (fr 2 1) (get_split ex_tree (fr 2 1)) true = Ok t' ∧ wf t' ∧
    ∀ v, tree_lookup t' v = if decide (ceph_frag_contains_value (fr 2 1) v = Ok true) then Ok (fr 2 1) else tree_lookup ex_tree v.
Proof.
  apply (merge_coarsens ex_tree 2 1 true wf_ex); [unfold valid; lia|by vm_compute|]. apply Forall_forall. vm_compute. by repeat constructor.
Defined.

(** C16: [force_to_leaf] never fails on a tree whose splits are all reached, keeps
    them so, makes the fragment a leaf, and says whether it was none before.  A
    value of the fragment goes to it; a value of a leaf that contained the
    fragment goes to its part of as many bits; every other value keeps its
    leaf. *)
Theorem force_to_leaf_exact t b k : wf t → valid b k →
  ∃ l t', is_leaf t (fr b k) = Ok l ∧ force_to_leaf t (fr b k) = Ok (negb l, t') ∧ wf t' ∧ is_leaf t' (fr b k) = Ok true ∧
    ∀ v f, tree_lookup t v = Ok f →
      tree_lookup t' v = if decide (ceph_frag_contains_value (fr b k) v = Ok true ∨ ceph_frag_contains_frag f (fr b k) = Ok true)
                         then ceph_frag_make b v else Ok f.
Proof.
  intros Hwf H. pose proof (wf_okt t Hwf) as Hok. pose proof H as [Hb _]. destruct (force_to_leaf_ok b k H t Hwf) as (t' & E & Hwf' & _ & Hd').
  exists (depth t (base b k) =? b), t'. split_and!; [by apply is_leaf_ok|done|done| |].
  - rewrite is_leaf_ok by done. rewrite Hd', forced_inside by (by apply part_base_self). by rewrite Z.eqb_refl.
  - intros v f Ef. rewrite tree_lookup_ok in Ef by done. injection Ef as <-. rewrite (lookup_depth t t' v _ Hwf' (Hd' v)), make_ok by done.
    pose proof (leaf_at_valid t Hwf v) as Hlv. set (d := depth t v) in *.
    assert (ceph_frag_contains_value (fr b k) v = Ok true ∨ ceph_frag_contains_frag (leaf_at t v) (fr b k) = Ok true ↔
            part v b = k ∨ d <= b ∧ part (base b k) d = part v d) as Eq.
    { rewrite contains_value_true by done. unfold leaf_at. fold d. rewrite contains_frag_ok by done.
      split; (intros [?|Hx]; [by left|right]); [by injection Hx as [?%Z.leb_le ?%Z.eqb_eq]%andb_true_iff|].
      destruct Hx as [Hle ->]. by rewrite Z.eqb_refl, (proj2 (Z.leb_le _ _) Hle). }
    rewrite (decide_ext _ _ _ _ Eq). unfold forced, leaf_at. fold d. destruct (Z.eqb_spec (part v b) k) as [Ev|Ev]; [by rewrite decide_True by (by left)|].
    destruct (Z.ltb_spec d b) as [Hlt|Hge]; cbn [andb].
    + destruct (Z.eqb_spec (part v d) (part (base b k) d)) as [Ep|Ep]; [rewrite decide_True; [done|right; split; [lia|done]]|].
      rewrite decide_False; [done|]. intros [?|[_ Ep']]; [done|]. by rewrite Ep' in Ep.
    + rewrite decide_False; [done|]. intros [?|[Hle Ep]]; [done|]. assert (d = b) as Ed by lia. rewrite Ed, part_base_self in Ep by done. by symmetry in Ep.
Qed.

Theorem force_to_leaf_exact_witness :
  ∃ l t', is_leaf ex_tree (fr 1 0) = Ok l ∧ force_to_leaf ex_tree (fr 1 0) = Ok (negb l, t') ∧ wf t' ∧ is_leaf t' (fr 1 0) = Ok true ∧
    ∀ v f, tree_lookup ex_tree v = Ok f →
      tree_lookup t' v = if decide (ceph_frag_contains_value (fr 1 0) v = Ok true ∨ ceph_frag_contains_frag f (fr 1 0) = Ok true)
                         then ceph_frag_make 1 v else Ok f.
Proof. apply (force_to_leaf_exact ex_tree 1 0 wf_ex). unfold valid. lia. Defined.

(** Inserting a fragment in a set ends with a set that covers what it covered
    and the fragment, in which no two siblings are left; [contains] then says
    whether the set has the fragment or one that contains it. *)
Theorem fragset_insert_covers s b k : vset s → valid b k →
  ∃ s', fragset_insert (fr b k) s = Ok s' ∧ vset s' ∧ no_pairs s' ∧
    (∀ v, in_set s' v ↔ in_set s v ∨ ceph_frag_contains_value (fr b k) v = Ok true) ∧
    ∀ b' k', valid b' k' → ∃ r, set_contains s' (fr b' k') = Ok r ∧
      (r = true ↔ ∃ g, g ∈ s' ∧ ceph_frag_contains_frag g (fr b' k') = Ok true).
Proof.
  intros Hs H. destruct (fragset_insert_ok (fr b k) s b k Hs H eq_refl) as (s' & E & Hs' & Hc & Hclean). exists s'. split_and!; [done|done| | |].
  - intros f g Hf Hr Hg. destruct (Hclean f Hf Hr) as (g' & Eg & Hn). by rewrite Eg in Hg; injection Hg as <-.
  - intros v. by rewrite Hc, contains_value_true.
  - intros b' k' H'. apply set_contains_ok; [done..|destruct H'; lia].
Qed.

Theorem fragset_insert_covers_witness :
  ∃ s', fragset_insert (fr 2 1) [fr 1 1; fr 2 0] = Ok s' ∧ vset s' ∧ no_pairs s' ∧
    (∀ v, in_set s' v ↔ in_set [fr 1 1; fr 2 0] v ∨ ceph_frag_contains_value (fr 2 1) v = Ok true) ∧
    ∀ b' k', valid b' k' → ∃ r, set_contains s' (fr b' k') = Ok r ∧
      (r = true ↔ ∃ g, g ∈ s' ∧ ceph_frag_contains_frag g (fr b' k') = Ok true).
Proof.
  apply (fragset_insert_covers [fr 1 1; fr 2 0] 2 1); [|unfold valid; lia]. split; [by repeat constructor|].
  intros f [ -> | ->%list_elem_of_singleton ]%elem_of_cons; [exists 1, 1|exists 2, 0]; (split; [done|unfold valid; lia]).
Defined.

(** ** The right child *)

(** [is_right] compares the bit itself with one: it is false for the right child
    of the root. *)
Example is_right_missed : (f ← ceph_frag_right_child 0; ceph_frag_is_right_child f) = Ok false.
Proof. by vm_compute. Qed.
