(* ===== verification/Cacher.v ===== *)
(** * The buffers of a cached object (src/osdc/ObjectCacher.cc, ObjectCacher.h)

    One object of the cache: its buffer heads, its counters, the reads and the
    writes that the writeback handler has not answered, and the statistics of
    the cacher they enter.  A [BufferHead *] is the key under which its object
    maps it, which is its start; an iterator is the key it points to, [None] at
    the end.  What is left out is the order of the LRU lists (an argument of
    [trim]), the perf counters and the log. *)

From S2P Require Import Prelude StdMap IntervalSet SnapSet Striper.

(** ** Buffer heads *)

Inductive bhstate :=
  | STATE_MISSING | STATE_CLEAN | STATE_ZERO | STATE_DIRTY | STATE_RX | STATE_TX | STATE_ERROR.
#[export] Instance bhstate_eq_dec : EqDecision bhstate.
Proof. solve_decision. Defined.

Record BufferHead := MkBH {
  bh_state : bhstate;
  bh_ref : Z;
  bh_start : Z;
  bh_length : Z;
  bh_dontneed : bool;
  bh_bl : list Z;
  bh_last_write_tid : Z;
  bh_last_read_tid : Z;
  bh_last_write : Z;
  bh_snapc : SnapContext;
  bh_error : Z;
  bh_waitfor_read : list (Z * list Z);
}.

Definition bh_end (b : BufferHead) : Z := bh_start b + bh_length b.

Definition no_snapc : SnapContext := MkSnapContext 0 [].
(** [new BufferHead(ob)], [set_start] and [set_length]. *)
Definition new_bh (start len : Z) : BufferHead :=
  MkBH STATE_MISSING 0 start len false [] 0 0 0 no_snapc 0 [].

Definition set_ref_state (r : Z) (s : bhstate) (b : BufferHead) : BufferHead :=
  MkBH s r (bh_start b) (bh_length b) (bh_dontneed b) (bh_bl b) (bh_last_write_tid b) (bh_last_read_tid b) (bh_last_write b) (bh_snapc b) (bh_error b) (bh_waitfor_read b).
Definition set_length (l : Z) (b : BufferHead) : BufferHead :=
  MkBH (bh_state b) (bh_ref b) (bh_start b) l (bh_dontneed b) (bh_bl b) (bh_last_write_tid b) (bh_last_read_tid b) (bh_last_write b) (bh_snapc b) (bh_error b) (bh_waitfor_read b).
Definition set_dontneed (d : bool) (b : BufferHead) : BufferHead :=
  MkBH (bh_state b) (bh_ref b) (bh_start b) (bh_length b) d (bh_bl b) (bh_last_write_tid b) (bh_last_read_tid b) (bh_last_write b) (bh_snapc b) (bh_error b) (bh_waitfor_read b).
Definition set_bl (bl : list Z) (b : BufferHead) : BufferHead :=
  MkBH (bh_state b) (bh_ref b) (bh_start b) (bh_length b) (bh_dontneed b) bl (bh_last_write_tid b) (bh_last_read_tid b) (bh_last_write b) (bh_snapc b) (bh_error b) (bh_waitfor_read b).
Definition set_tids (w r : Z) (b : BufferHead) : BufferHead :=
  MkBH (bh_state b) (bh_ref b) (bh_start b) (bh_length b) (bh_dontneed b) (bh_bl b) w r (bh_last_write b) (bh_snapc b) (bh_error b) (bh_waitfor_read b).
Definition set_write_time (t : Z) (b : BufferHead) : BufferHead :=
  MkBH (bh_state b) (bh_ref b) (bh_start b) (bh_length b) (bh_dontneed b) (bh_bl b) (bh_last_write_tid b) (bh_last_read_tid b) t (bh_snapc b) (bh_error b) (bh_waitfor_read b).
Definition set_snapc (c : SnapContext) (b : BufferHead) : BufferHead :=
  MkBH (bh_state b) (bh_ref b) (bh_start b) (bh_length b) (bh_dontneed b) (bh_bl b) (bh_last_write_tid b) (bh_last_read_tid b) (bh_last_write b) c (bh_error b) (bh_waitfor_read b).
Definition set_error (e : Z) (b : BufferHead) : BufferHead :=
  MkBH (bh_state b) (bh_ref b) (bh_start b) (bh_length b) (bh_dontneed b) (bh_bl b) (bh_last_write_tid b) (bh_last_read_tid b) (bh_last_write b) (bh_snapc b) e (bh_waitfor_read b).
Definition set_waiters (w : list (Z * list Z)) (b : BufferHead) : BufferHead :=
  MkBH (bh_state b) (bh_ref b) (bh_start b) (bh_length b) (bh_dontneed b) (bh_bl b) (bh_last_write_tid b) (bh_last_read_tid b) (bh_last_write b) (bh_snapc b) (bh_error b) w.

Definition is_missing (b : BufferHead) : bool := bool_decide (bh_state b = STATE_MISSING).
Definition is_clean (b : BufferHead) : bool := bool_decide (bh_state b = STATE_CLEAN).
Definition is_zero (b : BufferHead) : bool := bool_decide (bh_state b = STATE_ZERO).
Definition is_dirty (b : BufferHead) : bool := bool_decide (bh_state b = STATE_DIRTY).
Definition is_rx (b : BufferHead) : bool := bool_decide (bh_state b = STATE_RX).
Definition is_tx (b : BufferHead) : bool := bool_decide (bh_state b = STATE_TX).
Definition is_error (b : BufferHead) : bool := bool_decide (bh_state b = STATE_ERROR).

(** A head is pinned while it is being read or written. *)
Definition pins (s : bhstate) : bool := bool_decide (s = STATE_RX) || bool_decide (s = STATE_TX).
Definition dirty_or_tx_state (s : bhstate) : bool := bool_decide (s = STATE_DIRTY) || bool_decide (s = STATE_TX).

Definition ref_get (ref : Z) : res Z := _ ← assert_c (0 <=? ref); Ok (ref + 1).
Definition ref_put (ref : Z) : res Z := _ ← assert_c (0 <? ref); Ok (ref - 1).

Definition set_state (s : bhstate) (b : BufferHead) : res BufferHead :=
  r ← (if pins s then ref_get (bh_ref b) else Ok (bh_ref b));
  r ← (if pins (bh_state b) then ref_put r else Ok r);
  Ok (set_ref_state r s b).

(** [bl.substr_of(other, off, len)]: the arguments are [unsigned].  It throws past
    the end; a sum that wraps goes past the last buffer. *)
Definition substr_of (other : list Z) (off len : Z) : res (list Z) :=
  if u32 (off + len) >? Z.of_nat (length other) then Fault OutOfBounds
  else if u32 off + u32 len >? Z.of_nat (length other) then Fault NullDeref
  else Ok (take (Z.to_nat (u32 len)) (drop (Z.to_nat (u32 off)) other)).

(** ** The object and the cacher *)

(** [C_ReadFinish] and [C_WriteCommit]: what the handler has been asked. *)
Record read_op := ReadOp { rf_start : Z; rf_length : Z; rf_trust_enoent : bool; rf_tid : Z }.
Record write_op := WriteOp { wc_start : Z; wc_length : Z; wc_tid : Z; wc_bl : list Z; wc_snapc : SnapContext; wc_mtime : Z }.

Definition buffers : Type := list (Z * BufferHead).

Record cache := Cache {
  data : buffers;
  complete : bool;
  exists_ : bool;
  ob_ref : Z;
  ob_last_write_tid : Z;
  ob_last_commit_tid : Z;
  ob_dirty_or_tx : Z;
  oset_dirty_or_tx : Z;
  waitfor_commit : list (Z * list Z);
  ob_reads : list read_op;
  ob_writes : list write_op;
  stat : bhstate → Z;
  dirty_or_tx_bh : list Z;
  waitfor_read : list Z;
  last_read_tid : Z;
  reads_outstanding : Z;
}.

Definition with_data (d : buffers) (c : cache) : cache :=
  Cache d (complete c) (exists_ c) (ob_ref c) (ob_last_write_tid c) (ob_last_commit_tid c) (ob_dirty_or_tx c) (oset_dirty_or_tx c) (waitfor_commit c) (ob_reads c) (ob_writes c) (stat c) (dirty_or_tx_bh c) (waitfor_read c) (last_read_tid c) (reads_outstanding c).
Definition with_flags (co ex : bool) (c : cache) : cache :=
  Cache (data c) co ex (ob_ref c) (ob_last_write_tid c) (ob_last_commit_tid c) (ob_dirty_or_tx c) (oset_dirty_or_tx c) (waitfor_commit c) (ob_reads c) (ob_writes c) (stat c) (dirty_or_tx_bh c) (waitfor_read c) (last_read_tid c) (reads_outstanding c).
Definition with_ob_ref (r : Z) (c : cache) : cache :=
  Cache (data c) (complete c) (exists_ c) r (ob_last_write_tid c) (ob_last_commit_tid c) (ob_dirty_or_tx c) (oset_dirty_or_tx c) (waitfor_commit c) (ob_reads c) (ob_writes c) (stat c) (dirty_or_tx_bh c) (waitfor_read c) (last_read_tid c) (reads_outstanding c).
Definition with_ob_tids (w co : Z) (c : cache) : cache :=
  Cache (data c) (complete c) (exists_ c) (ob_ref c) w co (ob_dirty_or_tx c) (oset_dirty_or_tx c) (waitfor_commit c) (ob_reads c) (ob_writes c) (stat c) (dirty_or_tx_bh c) (waitfor_read c) (last_read_tid c) (reads_outstanding c).
Definition with_counts (d o : Z) (st : bhstate → Z) (c : cache) : cache :=
  Cache (data c) (complete c) (exists_ c) (ob_ref c) (ob_last_write_tid c) (ob_last_commit_tid c) d o (waitfor_commit c) (ob_reads c) (ob_writes c) st (dirty_or_tx_bh c) (waitfor_read c) (last_read_tid c) (reads_outstanding c).
Definition with_waitfor_commit (w : list (Z * list Z)) (c : cache) : cache :=
  Cache (data c) (complete c) (exists_ c) (ob_ref c) (ob_last_write_tid c) (ob_last_commit_tid c) (ob_dirty_or_tx c) (oset_dirty_or_tx c) w (ob_reads c) (ob_writes c) (stat c) (dirty_or_tx_bh c) (waitfor_read c) (last_read_tid c) (reads_outstanding c).
Definition with_ops (r : list read_op) (w : list write_op) (c : cache) : cache :=
  Cache (data c) (complete c) (exists_ c) (ob_ref c) (ob_last_write_tid c) (ob_last_commit_tid c) (ob_dirty_or_tx c) (oset_dirty_or_tx c) (waitfor_commit c) r w (stat c) (dirty_or_tx_bh c) (waitfor_read c) (last_read_tid c) (reads_outstanding c).
Definition with_dirty_or_tx_bh (s : list Z) (c : cache) : cache :=
  Cache (data c) (complete c) (exists_ c) (ob_ref c) (ob_last_write_tid c) (ob_last_commit_tid c) (ob_dirty_or_tx c) (oset_dirty_or_tx c) (waitfor_commit c) (ob_reads c) (ob_writes c) (stat c) s (waitfor_read c) (last_read_tid c) (reads_outstanding c).
Definition with_waitfor_read (w : list Z) (c : cache) : cache :=
  Cache (data c) (complete c) (exists_ c) (ob_ref c) (ob_last_write_tid c) (ob_last_commit_tid c) (ob_dirty_or_tx c) (oset_dirty_or_tx c) (waitfor_commit c) (ob_reads c) (ob_writes c) (stat c) (dirty_or_tx_bh c) w (last_read_tid c) (reads_outstanding c).
Definition with_reading (t n : Z) (c : cache) : cache :=
  Cache (data c) (complete c) (exists_ c) (ob_ref c) (ob_last_write_tid c) (ob_last_commit_tid c) (ob_dirty_or_tx c) (oset_dirty_or_tx c) (waitfor_commit c) (ob_reads c) (ob_writes c) (stat c) (dirty_or_tx_bh c) (waitfor_read c) t n.

Definition assert_m (b : bool) : M cache unit := lift (assert_c b).

(** *** Iterators *)

(** [lower_bound(k)] *)
Definition lower_bound (d : buffers) (k : Z) : option Z := fst <$> find (λ x, k <=? x.1) d.
(** [++p] *)
Definition after (d : buffers) (k : Z) : option Z := lower_bound d (k + 1).
(** [--p] from the first key that is not below [k] *)
Definition before (d : buffers) (k : Z) : option Z := fst <$> last (filter (λ x, x.1 < k) d).

(** The buffer that includes or follows an offset. *)
Definition data_lower_bound (d : buffers) (offset : Z) : option Z :=
  let p := lower_bound d offset in
  match before d offset with
  | Some q =>
      if (match p with None => true | Some k => offset <? k end) then
        match map_find d q with
        | Some b => if q + bh_length b <=? offset then p else Some q
        | None => p
        end
      else p
  | None => p
  end.

(** [data.empty()] *)
Definition is_empty (d : buffers) : bool := match d with [] => true | _ => false end.

(** ** Small steps *)

Definition get_bh (k : Z) : M cache BufferHead := λ c,
  match map_find (data c) k with Some b => Ok (b, c) | None => Fault NullDeref end.
Definition put_bh (k : Z) (b : BufferHead) : M cache unit := modify (λ c, with_data (map_put (data c) k b) c).
Definition change_bh (k : Z) (f : BufferHead → BufferHead) : M cache unit := b ← get_bh k; put_bh k (f b).

Definition bump (st : bhstate → Z) (s : bhstate) (n : Z) : bhstate → Z := λ x, if bool_decide (x = s) then st x + n else st x.
Definition count_state (s : bhstate) (n : Z) (c : cache) : cache :=
  let m := if dirty_or_tx_state s then n else 0 in
  with_counts (ob_dirty_or_tx c + m) (oset_dirty_or_tx c + m) (bump (stat c) s n) c.
Definition bh_stat_add (b : BufferHead) : M cache unit := modify (count_state (bh_state b) (bh_length b)).
Definition bh_stat_sub (b : BufferHead) : M cache unit := modify (count_state (bh_state b) (- bh_length b)).

Definition mark_dirty_or_tx (k : Z) (here : bool) : M cache unit :=
  modify (λ c, with_dirty_or_tx_bh (if here then k :: filter (λ x, x ≠ k) (dirty_or_tx_bh c) else filter (λ x, x ≠ k) (dirty_or_tx_bh c)) c).

Definition bh_set_state (k : Z) (s : bhstate) : M cache unit :=
  b ← get_bh k;
  (if dirty_or_tx_state s && negb (dirty_or_tx_state (bh_state b)) then mark_dirty_or_tx k true
   else if dirty_or_tx_state (bh_state b) && negb (dirty_or_tx_state s) then mark_dirty_or_tx k false
   else mret tt);;
  let b := if negb (bool_decide (s = STATE_ERROR)) && is_error b then set_error 0 b else b in
  bh_stat_sub b;;
  b ← lift (set_state s b);
  put_bh k b;;
  bh_stat_add b.

Definition object_get : M cache unit := λ c, match ref_get (ob_ref c) with Ok r => Ok (tt, with_ob_ref r c) | Fault f => Fault f end.
Definition object_put : M cache unit := λ c, match ref_put (ob_ref c) with Ok r => Ok (tt, with_ob_ref r c) | Fault f => Fault f end.

(** [bh_add] with [add_bh] *)
Definition bh_add (b : BufferHead) : M cache unit :=
  d ← gets data;
  (if is_empty d then object_get else mret tt);;
  assert_m (negb (map_count d (bh_start b)));;
  put_bh (bh_start b) b;;
  (if dirty_or_tx_state (bh_state b) then mark_dirty_or_tx (bh_start b) true else mret tt);;
  bh_stat_add b.

(** [bh_remove] with [remove_bh] *)
Definition bh_remove (k : Z) : M cache unit :=
  b ← get_bh k;
  modify (λ c, with_data (map_del (data c) k) c);;
  d ← gets data;
  (if is_empty d then object_put else mret tt);;
  (if dirty_or_tx_state (bh_state b) then mark_dirty_or_tx k false else mret tt);;
  bh_stat_sub b.

(** [bh_stat_sub], [set_length] and [bh_stat_add] *)
Definition resize_bh (k len : Z) : M cache unit :=
  b ← get_bh k; bh_stat_sub b;; let b := set_length len b in put_bh k b;; bh_stat_add b.

(** ** Splitting and merging *)

Definition split_bh (k off : Z) : M cache Z :=
  left ← get_bh k;
  let newleftlen := off - bh_start left in
  right ← lift (set_state (bh_state left)
            (set_snapc (bh_snapc left) (set_tids (bh_last_write_tid left) (bh_last_read_tid left)
               (set_dontneed (bh_dontneed left) (new_bh off (bh_length left - newleftlen))))));
  resize_bh k newleftlen;;
  bh_add right;;
  let bl := bh_bl left in
  (if negb (bool_decide (bl = [])) then
     assert_m (Z.of_nat (length bl) =? newleftlen + bh_length right);;
     r ← lift (substr_of bl newleftlen (bh_length right));
     l ← lift (substr_of bl 0 newleftlen);
     change_bh off (set_bl r);; change_bh k (set_bl l)
   else mret tt);;
  change_bh off (set_waiters (filter (λ x, off <= x.1) (bh_waitfor_read left)));;
  change_bh k (set_waiters (filter (λ x, x.1 < off) (bh_waitfor_read left)));;
  mret off.

(** The waiters of the right head, each list before what the left head has. *)
Definition splice_waiters (left right : list (Z * list Z)) : list (Z * list Z) :=
  foldl (λ l x, map_put l x.1 (x.2 ++ default [] (map_find l x.1))) left right.

Definition merge_left (lk rk : Z) : M cache unit :=
  left ← get_bh lk; right ← get_bh rk;
  assert_m (bh_end left =? bh_start right);;
  assert_m (bool_decide (bh_state left = bh_state right));;
  bh_remove rk;;
  resize_bh lk (bh_length left + bh_length right);;
  change_bh lk (λ b, set_bl (bh_bl b ++ bh_bl right) b);;
  change_bh lk (λ b, set_tids (Z.max (bh_last_write_tid b) (bh_last_write_tid right)) (bh_last_read_tid b) b);;
  change_bh lk (λ b, set_write_time (Z.max (bh_last_write b) (bh_last_write right)) b);;
  change_bh lk (λ b, set_dontneed (if bh_dontneed right then bh_dontneed b else false) b);;
  change_bh lk (λ b, set_waiters (splice_waiters (bh_waitfor_read b) (bh_waitfor_read right)) b).

(** The merge to the left; the key of the head that remains. *)
Definition try_merge_before (k : Z) : M cache Z :=
  b ← get_bh k;
  d ← gets data;
  match before d k with
  | Some l =>
      lb ← get_bh l;
      if (bh_end lb =? bh_start b) && bool_decide (bh_state lb = bh_state b) then merge_left l k;; mret l else mret k
  | None => mret k
  end.
(** The merge to the right. *)
Definition try_merge_after (k : Z) : M cache unit :=
  b ← get_bh k;
  d ← gets data;
  match after d k with
  | Some r =>
      rb ← get_bh r;
      if (bh_start rb =? bh_end b) && bool_decide (bh_state rb = bh_state b) then merge_left k r else mret tt
  | None => mret tt
  end.
Definition try_merge_bh (k : Z) : M cache unit :=
  b ← get_bh k;
  if is_rx b then mret tt else k ← try_merge_before k; try_merge_after k.

(** ** Mapping a range *)

(** The turns of the loops over a range: each head and each gap once. *)
Definition walk_fuel (d : buffers) : nat := 2 * length d + 3.

Fixpoint is_cached_loop (fuel : nat) (d : buffers) (p : option Z) (cur left : Z) : res bool :=
  if left <=? 0 then Ok true else
  match fuel with
  | O => Fault Diverge
  | S fuel =>
      match p with
      | None => Ok false
      | Some k =>
          if k <=? cur then
            match map_find d k with
            | Some b =>
                let lenfromcur := Z.min (bh_end b - cur) left in
                is_cached_loop fuel d (after d k) (cur + lenfromcur) (left - lenfromcur)
            | None => Fault NullDeref
            end
          else Ok false
      end
  end.
Definition is_cached (d : buffers) (cur left : Z) : res bool :=
  is_cached_loop (walk_fuel d) d (data_lower_bound d cur) cur left.

Definition include_all_cached_data (d : buffers) (off len : Z) : bool :=
  match d, last d with
  | (_, first) :: _, Some (_, lst) => (off <=? bh_start first) && (bh_end lst <=? off + len)
  | _, _ => true
  end.

Fixpoint audit_from (offset : Z) (d : buffers) : bool :=
  match d with
  | [] => true
  | (k, b) :: d =>
      (k =? bh_start b) && (offset <=? k) &&
      forallb (λ w, (bh_start b <=? w.1) && (w.1 <? bh_start b + bh_length b)) (bh_waitfor_read b) &&
      audit_from (k + bh_length b) d
  end.
Definition audit_buffers (d : buffers) : bool := audit_from 0 d.

(** What [map_read] fills in: the key at each offset it reached. *)
Record mapped := Mapped { hits : list (Z * Z); missing : list (Z * Z); rx : list (Z * Z); errors : list (Z * Z) }.
Definition no_mapped : mapped := Mapped [] [] [] [].
Definition add_hit (o k : Z) (m : mapped) : mapped := Mapped (map_put (hits m) o k) (missing m) (rx m) (errors m).
Definition add_missing (o k : Z) (m : mapped) : mapped := Mapped (hits m) (map_put (missing m) o k) (rx m) (errors m).
Definition add_rx (o k : Z) (m : mapped) : mapped := Mapped (hits m) (missing m) (map_put (rx m) o k) (errors m).
Definition add_error (o k : Z) (m : mapped) : mapped := Mapped (hits m) (missing m) (rx m) (map_put (errors m) o k).

(** A new head for a range nothing is known of; zeros when the object is. *)
Definition map_gap (cur len : Z) (m : mapped) : M cache mapped :=
  bh_add (new_bh cur len);;
  co ← gets complete;
  if (co : bool) then bh_set_state cur STATE_ZERO;; mret (add_hit cur cur m) else mret (add_missing cur cur m).

Definition classify (b : BufferHead) (cur k : Z) (m : mapped) : res mapped :=
  match bh_state b with
  | STATE_CLEAN | STATE_DIRTY | STATE_TX | STATE_ZERO => Ok (add_hit cur k m)
  | STATE_RX => Ok (add_rx cur k m)
  | STATE_ERROR => Ok (add_error cur k m)
  | STATE_MISSING => Fault AssertFailed
  end.

Fixpoint map_read_loop (fuel : nat) (p : option Z) (cur left : Z) (m : mapped) : M cache mapped :=
  if left <=? 0 then mret m else
  match fuel with
  | O => lift (Fault Diverge)
  | S fuel =>
      match p with
      | None => map_gap cur left m
      | Some k =>
          if k <=? cur then
            b ← get_bh k;
            m ← lift (classify b cur k m);
            let lenfromcur := Z.min (bh_end b - cur) left in
            d ← gets data;
            map_read_loop fuel (after d k) (cur + lenfromcur) (left - lenfromcur) m
          else
            let len := Z.min (k - cur) left in
            m ← map_gap cur len m;
            map_read_loop fuel p (cur + len) (left - len) m
      end
  end.
Definition map_read (ex : ObjectExtent) : M cache mapped :=
  d ← gets data;
  map_read_loop (walk_fuel d) (data_lower_bound d (e_offset ex)) (e_offset ex) (e_length ex) no_mapped.

Fixpoint map_write_loop (fuel : nat) (p : option Z) (cur left : Z) (final : option Z) : M cache (option Z) :=
  if left <=? 0 then mret final else
  match fuel with
  | O => lift (Fault Diverge)
  | S fuel =>
      let max := left in
      let extend (len : Z) : M cache Z :=
        match final with
        | None => bh_add (new_bh cur len);; mret cur
        | Some f => b ← get_bh f; resize_bh f (bh_length b + len);; mret f
        end in
      match p with
      | None => f ← extend max; map_write_loop fuel None (cur + max) (left - max) (Some f)
      | Some k =>
          if k <=? cur then
            b ← get_bh k;
            f ← (if k <? cur then
                   assert_m (bool_decide (final = None));;
                   f ← split_bh k cur;
                   d ← gets data;
                   assert_m (bool_decide (after d k = Some f));;
                   (if k + bh_length b <=? cur + max then mret tt else split_bh f (cur + max);; mret tt);;
                   mret f
                 else
                   assert_m (k =? cur);;
                   (if bh_length b <=? max then mret tt else split_bh k (cur + max);; mret tt);;
                   match final with
                   | Some f =>
                       bh_set_state k STATE_DIRTY;; bh_set_state f STATE_DIRTY;;
                       d ← gets data;
                       assert_m (bool_decide (before d k = Some f));;
                       merge_left f k;; mret f
                   | None => mret k
                   end);
            fb ← get_bh f;
            let lenfromcur := bh_end fb - cur in
            d ← gets data;
            map_write_loop fuel (after d f) (cur + lenfromcur) (left - lenfromcur) (Some f)
          else
            let glen := Z.min (k - cur) max in
            f ← extend glen;
            map_write_loop fuel p (cur + glen) (left - glen) (Some f)
      end
  end.
Definition map_write (ex : ObjectExtent) : M cache Z :=
  d ← gets data;
  final ← map_write_loop (walk_fuel d) (data_lower_bound d (e_offset ex)) (e_offset ex) (e_length ex) None;
  match final with Some f => mret f | None => lift (Fault AssertFailed) end.

Fixpoint truncate_loop (fuel : nat) (s : Z) : M cache unit :=
  d ← gets data;
  match last d with
  | None => mret tt
  | Some (k, b) =>
      if bh_end b <=? s then mret tt else
      match fuel with
      | O => lift (Fault Diverge)
      | S fuel =>
          if bh_start b <? s then split_bh k s;; truncate_loop fuel s
          else
            assert_m (bool_decide (bh_waitfor_read b = []));;
            bh_remove k;; truncate_loop fuel s
      end
  end.
(** At most one head is split. *)
Definition truncate (s : Z) : M cache unit := d ← gets data; truncate_loop (length d + 2) s.

Fixpoint discard_loop (fuel : nat) (p : option Z) (off len : Z) : M cache unit :=
  match p with
  | None => mret tt
  | Some k =>
      match fuel with
      | O => lift (Fault Diverge)
      | S fuel =>
          b ← get_bh k;
          if off + len <=? bh_start b then mret tt
          else if bh_start b <? off then
            split_bh k off;; d ← gets data; discard_loop fuel (after d k) off len
          else
            (if off + len <? bh_end b then split_bh k (off + len);; mret tt else mret tt);;
            d ← gets data;
            b ← get_bh k;
            assert_m (bool_decide (bh_waitfor_read b = []));;
            bh_remove k;; discard_loop fuel (after d k) off len
      end
  end.
Definition discard (off len : Z) : M cache unit :=
  modify (with_flags false true);;
  d ← gets data;
  discard_loop (length d + 3) (data_lower_bound d off) off len.

(** ** Reads and writes of the handler *)

Definition bh_read (k : Z) : M cache unit :=
  bh_set_state k STATE_RX;;
  modify (λ c, with_reading (last_read_tid c + 1) (reads_outstanding c) c);;
  t ← gets last_read_tid;
  change_bh k (λ b, set_tids (bh_last_write_tid b) t b);;
  b ← get_bh k;
  modify (λ c, with_ops (ob_reads c ++ [ReadOp (bh_start b) (bh_length b) true t]) (ob_writes c) c);;
  modify (λ c, with_reading (last_read_tid c) (reads_outstanding c + 1) c).

(** Every list of waiters, in the order of the offsets. *)
Definition waiters_of (b : BufferHead) : list Z := concat (bh_waitfor_read b).*2.

Definition take_waiters (k : Z) : M cache (list Z) :=
  b ← get_bh k; put_bh k (set_waiters [] b);; mret (waiters_of b).

Fixpoint take_all_waiters (ks : list Z) (allzero : bool) : M cache (list Z * bool) :=
  match ks with
  | [] => mret ([], allzero)
  | k :: ks =>
      b ← get_bh k;
      w ← take_waiters k;
      '(ws, az) ← take_all_waiters ks (allzero && (is_zero b || is_rx b));
      mret (w ++ ws, az)
  end.

Fixpoint remove_all (ks : list Z) : M cache unit :=
  match ks with [] => mret tt | k :: ks => bh_remove k;; remove_all ks end.

Definition ENOENT : Z := 2.

(** The loop over the heads of a finished read. *)
Fixpoint read_finish_loop (fuel : nat) (start len tid r : Z) (trust : bool) (bl : list Z) (opos : Z) (ls : list Z) (err : Z) : M cache (list Z * Z) :=
  d ← gets data;
  match data_lower_bound d opos with
  | None => mret (ls, err)
  | Some k =>
      if start + len <=? opos then mret (ls, err) else
      match fuel with
      | O => lift (Fault Diverge)
      | S fuel =>
          w ← take_waiters k;
          let ls := ls ++ w in
          b ← get_bh k;
          if opos <? bh_start b then read_finish_loop fuel start len tid r trust bl (bh_start b) ls err
          else if negb (is_rx b) then read_finish_loop fuel start len tid r trust bl (bh_end b) ls err
          else if negb (bh_last_read_tid b =? tid) then read_finish_loop fuel start len tid r trust bl (bh_end b) ls err
          else
            assert_m (bh_start b <=? opos);;
            assert_m (bh_start b =? opos);;
            assert_m (bh_length b <=? start + len - opos);;
            let err := if bh_error b <? 0 then bh_error b else err in
            let oldpos := opos in
            let opos := bh_end b in
            if r =? - ENOENT then
              (if trust then bh_remove k else mret tt);;
              read_finish_loop fuel start len tid r trust bl opos ls err
            else
              (if r <? 0 then change_bh k (set_error r);; bh_set_state k STATE_ERROR
               else
                 bit ← lift (substr_of bl (oldpos - bh_start b) (bh_length b));
                 change_bh k (set_bl bit);; bh_set_state k STATE_CLEAN);;
              try_merge_bh k;;
              read_finish_loop fuel start len tid r trust bl opos ls err
      end
  end.

(** [bh_read_finish] up to the contexts it completes: their list, in its order, and
    the result they are given. *)
Definition apply_read (tid start len : Z) (bl : list Z) (r : Z) (trust_enoent : bool) : M cache (list Z * Z) :=
  let bl := if (0 <=? r) && (Z.of_nat (length bl) <? len) then bl ++ replicate (Z.to_nat (len - Z.of_nat (length bl))) 0 else bl in
  co ← gets complete;
  ls ← (if (r =? - ENOENT) && negb co then
          d ← gets data;
          '(ls, allzero) ← take_all_waiters (keys d) true;
          (if trust_enoent then
             modify (with_flags true false);;
             (if (allzero : bool) then remove_all (keys d) else mret tt)
           else mret tt);;
          mret ls
        else mret []);
  d ← gets data;
  read_finish_loop (walk_fuel d) start len tid r trust_enoent bl start ls 0.

(** [run] is what a context does when it is completed with a result; it may use the
    cacher again. *)
Fixpoint finish_contexts (run : Z → Z → M cache unit) (ls : list Z) (err : Z) : M cache unit :=
  match ls with [] => mret tt | t :: ls => run t err;; finish_contexts run ls err end.

Fixpoint retry_loop (run : Z → Z → M cache unit) (ls : list Z) : M cache (list Z) :=
  match ls with
  | [] => mret []
  | t :: ls' =>
      w ← gets waitfor_read;
      if bool_decide (w = []) then run t 0;; retry_loop run ls' else mret ls
  end.
Definition retry_waiting_reads (run : Z → Z → M cache unit) : M cache unit :=
  ls ← gets waitfor_read;
  modify (with_waitfor_read []);;
  ls ← retry_loop run ls;
  modify (λ c, with_waitfor_read (waitfor_read c ++ ls) c).

Definition bh_read_finish (run : Z → Z → M cache unit) (tid start len : Z) (bl : list Z) (r : Z) (trust_enoent : bool) : M cache unit :=
  '(ls, err) ← apply_read tid start len bl r trust_enoent;
  finish_contexts run ls err;;
  retry_waiting_reads run;;
  modify (λ c, with_reading (last_read_tid c) (reads_outstanding c - 1) c).

(** [C_ReadFinish::finish] *)
Definition read_finished (run : Z → Z → M cache unit) (o : read_op) (bl : list Z) (r : Z) : M cache unit :=
  bh_read_finish run (rf_tid o) (rf_start o) (rf_length o) bl r (rf_trust_enoent o);;
  modify (λ c, with_ops (filter (λ o', rf_tid o' ≠ rf_tid o) (ob_reads c)) (ob_writes c) c).

(** [tid] is what the handler returns. *)
Definition bh_write (k tid : Z) : M cache unit :=
  b ← get_bh k;
  object_get;;
  modify (λ c, with_ops (ob_reads c) (ob_writes c ++ [WriteOp (bh_start b) (bh_length b) tid (bh_bl b) (bh_snapc b) (bh_last_write b)]) c);;
  modify (λ c, with_ob_tids tid (ob_last_commit_tid c) c);;
  change_bh k (λ b, set_tids tid (bh_last_read_tid b) b);;
  bh_set_state k STATE_TX.

Fixpoint commit_loop (ks : list Z) (start len tid r : Z) : M cache unit :=
  match ks with
  | [] => mret tt
  | k :: ks =>
      b ← get_bh k;
      if start + len <? bh_start b then mret tt
      else if (bh_start b <? start) && (start + len <? bh_end b) then commit_loop ks start len tid r
      else if negb (is_tx b) then commit_loop ks start len tid r
      else if negb (bh_last_write_tid b =? tid) then
        assert_m (tid <? bh_last_write_tid b);; commit_loop ks start len tid r
      else
        bh_set_state k (if 0 <=? r then STATE_CLEAN else STATE_DIRTY);; commit_loop ks start len tid r
  end.

(** The keys from an iterator on; the loop of a commit adds and removes none. *)
Definition from_iter (d : buffers) (p : option Z) : list Z :=
  match p with None => [] | Some k => filter (λ i, k <= i) (keys d) end.

(** [cow] is what [may_copy_on_write] answers; the contexts waiting for this
    commit, and whether the object set has just become clean. *)
Definition bh_write_commit (start len tid r : Z) (cow : bool) : M cache (list Z * bool) :=
  was ← gets oset_dirty_or_tx;
  ex ← gets exists_;
  (if negb ex then modify (λ c, with_flags (if cow then false else complete c) true c) else mret tt);;
  d ← gets data;
  commit_loop (from_iter d (data_lower_bound d start)) start len tid r;;
  lc ← gets ob_last_commit_tid;
  assert_m (lc <? tid);;
  modify (λ c, with_ob_tids (ob_last_write_tid c) tid c);;
  w ← gets waitfor_commit;
  modify (with_waitfor_commit (map_del w tid));;
  object_put;;
  modify (λ c, with_ops (ob_reads c) (filter (λ o, wc_tid o ≠ tid) (ob_writes c)) c);;
  now ← gets oset_dirty_or_tx;
  mret (default [] (map_find w tid), (0 <? was) && (now =? 0)).

(** [flush(ob, offset, length)]; the tids are those the handler returns. *)
Fixpoint flush_loop (ks : list Z) (offset len : Z) (tids : list Z) (clean : bool) : M cache bool :=
  match ks with
  | [] => mret clean
  | k :: ks =>
      b ← get_bh k;
      if negb (len =? 0) && (offset + len <? bh_start b) then mret clean
      else if is_tx b then flush_loop ks offset len tids false
      else if negb (is_dirty b) then flush_loop ks offset len tids clean
      else match tids with
           | [] => lift (Fault Uninitialized)
           | t :: tids => bh_write k t;; flush_loop ks offset len tids false
           end
  end.
Definition flush (offset len : Z) (tids : list Z) : M cache bool :=
  d ← gets data; flush_loop (from_iter d (data_lower_bound d offset)) offset len tids true.

Definition purge : M cache unit := truncate 0.

(** [release] up to the test whether the object can be closed. *)
Definition release_buffers : M cache Z :=
  d ← gets data;
  remove_all (keys (filter (λ x, is_clean x.2 || is_zero x.2) d));;
  mret (foldr (λ x n, if is_clean x.2 || is_zero x.2 then n else n + bh_length x.2) 0 d).

Definition clear_nonexistence : M cache unit :=
  ex ← gets exists_;
  (if negb ex then modify (with_flags false true) else mret tt);;
  modify (λ c, with_ops ((λ o, ReadOp (rf_start o) (rf_length o) false (rf_tid o)) <$> ob_reads c) (ob_writes c) c).

(** [release], with [close_object] when nothing pins the object; whether it was
    closed, and the bytes that stay. *)
Definition release : M cache (bool * Z) :=
  o_unclean ← release_buffers;
  ref ← gets ob_ref;
  if ref =? 0 then
    d ← gets data; w ← gets waitfor_commit;
    assert_m (is_empty d);; assert_m (bool_decide (w = []));; assert_m (o_unclean =? 0);; mret (true, 0)
  else modify (with_flags false true);; mret (false, o_unclean).

(** ** Trimming

    The clean bytes are brought down to the limit.  [ks] are the heads of this
    object that [bh_lru_rest] gives up, the next one first. *)
Fixpoint trim_loop (max_size : Z) (ks : list Z) : M cache unit :=
  st ← gets stat;
  if (0 <? st STATE_CLEAN) && (max_size <? u64 (st STATE_CLEAN)) then
    match ks with
    | [] => mret tt
    | k :: ks =>
        b ← get_bh k;
        assert_m (is_clean b || is_zero b);;
        bh_remove k;;
        modify (λ c, with_flags false (exists_ c) c);;
        trim_loop max_size ks
    end
  else mret tt.
(** [lru] is what the list knows of these heads. *)
Definition trim (max_size : Z) (lru : buffers → list Z) : M cache unit := d ← gets data; trim_loop max_size (lru d).

(** ** Writing a buffer to the cache *)

(** One fragment of the caller's buffer after the other. *)
Fixpoint copy_frags (k : Z) (wrbl : list Z) (fs : list (Z * Z)) (opos : Z) : M cache unit :=
  match fs with
  | [] => mret tt
  | f :: fs =>
      b ← get_bh k;
      let bhoff := u64 (bh_start b - opos) in
      assert_m (f.2 <=? u64 (bh_length b - bhoff));;
      frag ← lift (substr_of wrbl f.1 f.2);
      newbl ← (if negb (bhoff =? 0) then lift (substr_of (bh_bl b) 0 bhoff) else mret []);
      change_bh k (set_bl (newbl ++ frag));;
      copy_frags k wrbl fs (opos + f.2)
  end.

(** The body of the loop of [writex] over the extents. *)
Definition writex_extent (ex : ObjectExtent) (wrbl : list Z) (snapc : SnapContext) (now : Z) (dontneed : bool) : M cache unit :=
  k ← map_write ex;
  change_bh k (set_snapc snapc);;
  copy_frags k wrbl (e_buffer_extents ex) (e_offset ex);;
  bh_set_state k STATE_DIRTY;;
  change_bh k (set_dontneed dontneed);;
  change_bh k (set_write_time now);;
  try_merge_bh k.

(** [writex] of one extent.  [wait] is [_wait_for_write]: it starts write-backs and
    may let others run before it answers. *)
Definition writex (max_size : Z) (lru : buffers → list Z) (wait : M cache Z) (ex : ObjectExtent) (wrbl : list Z) (snapc : SnapContext) (now : Z) (dontneed : bool) :
    M cache Z :=
  writex_extent ex wrbl snapc now dontneed;;
  r ← wait;
  trim max_size lru;;
  mret r.

(** ** Reading from the cache *)

Inductive read_result :=
  | ReadDeferred
  | ReadError (e : Z)
  | ReadDone (bl : list Z).

Definition push_waiter (k off w : Z) : M cache unit :=
  change_bh k (λ b, set_waiters (map_put (bh_waitfor_read b) off (default [] (map_find (bh_waitfor_read b) off) ++ [w])) b).

(** The dirty heads are written before a read that may see a copied object. *)
Fixpoint flush_dirty (ks : list Z) (tids : list Z) (wait : bool) : M cache bool :=
  match ks with
  | [] => mret wait
  | k :: ks =>
      b ← get_bh k;
      if is_dirty b then
        match tids with
        | [] => lift (Fault Uninitialized)
        | t :: tids => bh_write k t;; flush_dirty ks tids true
        end
      else flush_dirty ks tids (wait || is_tx b)
  end.

Fixpoint read_missing (max_size : Z) (retry : option Z) (ms : list (Z * Z)) (success : bool) : M cache bool :=
  match ms with
  | [] => mret success
  | (off, k) :: ms =>
      b ← get_bh k;
      st ← gets stat;
      w ← gets waitfor_read;
      (if negb (bool_decide (w = [])) || (max_size <? u64 (st STATE_RX + bh_length b)) then
         (if success then modify (with_waitfor_read (w ++ [default 0 retry])) else mret tt);;
         bh_remove k
       else
         bh_read k;;
         match retry with Some t => if success then push_waiter k off t else mret tt | None => mret tt end);;
      read_missing max_size retry ms false
  end.

Fixpoint wait_rx (retry : option Z) (rs : list (Z * Z)) (success : bool) : M cache bool :=
  match rs with
  | [] => mret success
  | (off, k) :: rs =>
      change_bh k (set_dontneed false);;
      match retry with Some t => if success then push_waiter k off t else mret tt | None => mret tt end;;
      wait_rx retry rs false
  end.

Fixpoint touch_all (hs : list (Z * Z)) : M cache unit :=
  match hs with [] => mret tt | (_, k) :: hs => change_bh k (set_dontneed false);; touch_all hs end.

(** The error of the last head that has one. *)
Definition hit_error (d : buffers) (hs : list (Z * Z)) : Z :=
  foldl (λ e h, match map_find d h.2 with Some b => if is_error b && negb (bh_error b =? 0) then bh_error b else e | None => e end) 0 hs.

Fixpoint rmap_loop (fuel : nat) (d : buffers) (hs : list Z) (bhoff : Z) (fs : list (Z * Z)) (foff opos : Z) (m : list (Z * list Z)) :
    res (list (Z * list Z) * list (Z * Z) * Z) :=
  match fuel with
  | O => Fault Diverge
  | S fuel =>
      match hs, fs with
      | k :: hs', f :: fs' =>
          match map_find d k with
          | None => Fault NullDeref
          | Some b =>
              _ ← assert_c (opos =? bh_start b + bhoff);
              let len := Z.min (u64 (f.2 - foff)) (u64 (bh_length b - bhoff)) in
              bit ← (if is_zero b then Ok (replicate (Z.to_nat len) 0) else substr_of (bh_bl b) (opos - bh_start b) len);
              let m := map_put m f.1 (default [] (map_find m f.1) ++ bit) in
              let opos := opos + len in
              let foff := foff + len in
              let '(hs, bhoff) := if opos =? bh_end b then (hs', 0) else (hs, bhoff + len) in
              let '(fs, foff) := if foff =? f.2 then (fs', 0) else (fs, foff) in
              match hs, fs with
              | [], _ | _, [] => Ok (m, fs, opos)
              | _, _ => rmap_loop fuel d hs bhoff fs foff opos m
              end
          end
      | _, _ => Fault OutOfBounds
      end
  end.

(** The heads hit, cut to the fragments of the caller's buffer. *)
Definition rmap (d : buffers) (hs : list Z) (ex : ObjectExtent) : res (list (Z * list Z)) :=
  match hs with
  | [] => Fault AssertFailed
  | k :: _ =>
      match map_find d k with
      | None => Fault NullDeref
      | Some b =>
          _ ← assert_c (bh_start b <=? e_offset ex);
          '(m, fs, opos) ← rmap_loop (length hs + length (e_buffer_extents ex)) d hs (e_offset ex - bh_start b) (e_buffer_extents ex) 0 (e_offset ex) [];
          _ ← assert_c (bool_decide (fs = []));
          _ ← assert_c (opos =? e_offset ex + e_length ex);
          Ok m
      end
  end.

(** The result buffer; the pieces must follow one another. *)
Definition join_pieces (m : list (Z * list Z)) : res (list Z) :=
  foldl (λ r x, bl ← r; _ ← assert_c (Z.of_nat (length bl) =? x.1); Ok (bl ++ x.2)) (Ok []) m.

(** [_readx] of one extent up to [done with read]; whether it got there.
    [return_enoent] is the flag of the object set, [cow] what [may_copy_on_write]
    answers, [retry] the context that repeats the read if the caller waits, [tids]
    those of the writes it may start. *)
Definition read_extent (max_size : Z) (return_enoent cow external : bool) (retry : option Z) (tids : list Z) (ex : ObjectExtent) : M cache (read_result * bool) :=
  exs ← gets exists_;
  d ← gets data;
  early ← (if return_enoent && negb exs then
             wait ← (if cow then flush_dirty (keys d) tids false else mret false);
             if (wait : bool) then
               t ← gets ob_last_write_tid;
               modify (λ c, with_waitfor_commit (map_put (waitfor_commit c) t (default [] (map_find (waitfor_commit c) t) ++ [default 0 retry])) c);;
               mret (Some ReadDeferred)
             else
               d ← gets data;
               mret (if forallb (λ x, is_zero x.2 || is_rx x.2) d then Some (ReadError (- ENOENT)) else None)
           else mret None);
  match early with
  | Some r => mret (r, false)
  | None =>
      m ← map_read ex;
      let miss := if external then foldl (λ a x, if map_count a x.1 then a else map_put a x.1 x.2) (missing m) (errors m) else missing m in
      let hit := if external then hits m else foldl (λ a x, if map_count a x.1 then a else map_put a x.1 x.2) (hits m) (errors m) in
      if negb (bool_decide (miss = [])) || negb (bool_decide (rx m = [])) then
        success ← read_missing max_size retry miss true;
        _ ← wait_rx retry (rx m) success;
        touch_all hit;;
        mret (ReadDeferred, false)
      else
        touch_all hit;;
        d ← gets data;
        pieces ← lift (rmap d hit.*2 ex);
        let error := hit_error d hit in
        if error =? 0 then bl ← lift (join_pieces pieces); mret (ReadDone bl, true) else mret (ReadError error, true)
  end.

(** [_readx]: what has been read is trimmed. *)
Definition readx (max_size : Z) (lru : buffers → list Z) (return_enoent cow external : bool) (retry : option Z) (tids : list Z) (ex : ObjectExtent) : M cache read_result :=
  '(r, finished) ← read_extent max_size return_enoent cow external retry tids ex;
  (if (finished : bool) then trim max_size lru else mret tt);;
  mret r.
