(* ===== verification/CacherSpec.v ===== *)
(** * The accounts, the shape and the bytes of a cached object

    [acct] says that the statistics, the counters of dirty bytes, the set of
    dirty heads and the reference count are those of the buffers.  Every basic
    operation keeps the accounts and the rest of the state and computes a pure
    function of the buffers; [does] states that, and composes. *)

From stdpp Require Import sorting.
From S2P Require Import Prelude StdMap IntervalSet SnapSet Striper Cacher.

Implicit Types (d : buffers) (b : BufferHead) (c : cache) (k x : Z).

(** ** Ordered maps *)

Section maps.
Context {A : Type}.
Implicit Types (m : list (Z * A)) (v : A).

Lemma ordered_keys_NoDup m : ordered m → NoDup (keys m).
Proof.
  unfold ordered. induction 1 as [|k l Hs IH Hk]; constructor; [|done]. intros Hin. rewrite Forall_forall in Hk. specialize (Hk k Hin). lia.
Qed.
Lemma ordered_ext m m' : ordered m → ordered m' → (∀ k, map_find m k = map_find m' k) → m = m'.
Proof.
  intros Hm Hm' H. apply ordered_unique; [done..|]. apply NoDup_Permutation.
  - eapply NoDup_fmap_1. by apply ordered_keys_NoDup.
  - eapply NoDup_fmap_1. by apply ordered_keys_NoDup.
  - intros [k v]. rewrite <- !map_find_elem by done. by rewrite H.
Qed.
Lemma map_put_put m k v w : ordered m → map_put (map_put m k v) k w = map_put m k w.
Proof.
  intros Hm. apply ordered_ext; [by repeat apply map_put_ordered|by apply map_put_ordered|]. intros i.
  rewrite !map_find_put by (done || by apply map_put_ordered). by case_decide.
Qed.
Lemma map_put_comm m k v j w : ordered m → k ≠ j → map_put (map_put m k v) j w = map_put (map_put m j w) k v.
Proof.
  intros Hm Hn. apply ordered_ext; [by repeat apply map_put_ordered..|]. intros i.
  rewrite !map_find_put by (done || by apply map_put_ordered). repeat case_decide; congruence.
Qed.

Lemma filter_ordered (P : Z * A → Prop) `{∀ e, Decision (P e)} m : ordered m → ordered (filter P m).
Proof.
  unfold ordered. induction m as [|[i b] m IH]; [done|]. intros Ho. apply StronglySorted_inv in Ho as [Ho Hi]. rewrite filter_cons. case_decide; [|by apply IH]. simpl. constructor; [by apply IH|].
  rewrite Forall_forall in *. intros j (e & -> & [_ He]%list_elem_of_filter)%list_elem_of_fmap. apply Hi. apply list_elem_of_fmap. by exists e.
Qed.
Lemma map_find_filter (P : Z → Prop) `{∀ e, Decision (P e)} m k : map_find (filter (λ w, P w.1) m) k = if decide (P k) then map_find m k else None.
Proof.
  induction m as [|[i v] m IH]; [by case_decide|]. rewrite filter_cons. cbn [fst]. destruct (decide (P i)) as [E|E]; simpl; destruct (Z.eqb_spec i k) as [->|]; try done.
  - by rewrite decide_True.
  - rewrite IH. by rewrite !decide_False.
Qed.

Lemma find_put_cases m k v i w : ordered m → map_find (map_put m k v) i = Some w → i = k ∧ w = v ∨ i ≠ k ∧ map_find m i = Some w.
Proof. intros Ho. rewrite map_find_put by done. case_decide; [intros [= <-]; by left|by right]. Qed.

(** ** Sums over a map *)

Definition total (f : A → Z) m : Z := foldr (λ (e : Z * A) n, f e.2 + n) 0 m.

Lemma total_perm f m m' : m ≡ₚ m' → total f m = total f m'.
Proof. unfold total. induction 1; simpl; lia. Qed.
Lemma total_new f m k v : k ∉ keys m → total f (map_put m k v) = f v + total f m.
Proof. intros Hk. by rewrite (total_perm f _ _ (map_put_new m k v Hk)). Qed.
Lemma total_del f m k v : ordered m → map_find m k = Some v → total f (map_del m k) = total f m - f v.
Proof.
  unfold ordered, total, map_del. induction m as [|[i w] m IH]; intros Hm Hf; [done|]. apply StronglySorted_inv in Hm as [Hm Hi]. simpl in *.
  rewrite filter_cons. simpl. destruct (Z.eqb_spec i k) as [->|Hn].
  - injection Hf as ->. rewrite decide_False by (intros H; by destruct H). assert (filter (λ x : Z * A, x.1 ≠ k) m = m) as ->; [|lia].
    apply filter_all. intros [j u] Hin. simpl. rewrite Forall_forall in Hi. assert (j ∈ keys m) as Hj by (apply list_elem_of_fmap; by exists (j, u)). specialize (Hi j Hj). lia.
  - rewrite decide_True by done. simpl. rewrite IH by done. lia.
Qed.
Lemma total_old f m k v w : ordered m → map_find m k = Some v → total f (map_put m k w) = total f m - f v + f w.
Proof.
  unfold ordered. induction m as [|[i u] m IH]; intros Hm Hf; [done|]. apply StronglySorted_inv in Hm as [Hm Hi]. simpl in *.
  destruct (Z.eqb_spec i k) as [->|Hn].
  - injection Hf as ->. rewrite Z.ltb_irrefl. simpl. lia.
  - destruct (Z.ltb_spec i k) as [Hlt|Hge]; simpl; [rewrite IH by done; lia|]. exfalso.
    assert (k ∈ keys m) as Hk by (apply map_find_in; by exists v). rewrite Forall_forall in Hi. specialize (Hi k Hk). lia.
Qed.
End maps.

#[global] Arguments total : simpl never.
#[global] Arguments map_put : simpl never.
#[global] Arguments map_del : simpl never.

(** ** Accounts *)

Definition in_state (s : bhstate) b : Z := if bool_decide (bh_state b = s) then bh_length b else 0.
Definition dirty_len b : Z := if dirty_or_tx_state (bh_state b) then bh_length b else 0.
Definition pin_of (s : bhstate) : Z := if pins s then 1 else 0.

(** The fields that the buffers do not determine. *)
Definition other c := (complete c, exists_ c, (ob_last_write_tid c, ob_last_commit_tid c), waitfor_commit c, (ob_reads c, ob_writes c), (waitfor_read c, last_read_tid c, reads_outstanding c)).

Section acct.
(** What the other objects of the cacher and of the object set hold. *)
Context (rest : bhstate → Z) (orest : Z).

Record acct c : Prop := Acct {
  a_ord : ordered (data c);
  a_pin : ∀ k b, map_find (data c) k = Some b → bh_ref b = pin_of (bh_state b);
  a_stat : ∀ s, stat c s = rest s + total (in_state s) (data c);
  a_ob : ob_dirty_or_tx c = total dirty_len (data c);
  a_oset : oset_dirty_or_tx c = orest + total dirty_len (data c);
  a_set : ∀ k, k ∈ dirty_or_tx_bh c ↔ ∃ b, map_find (data c) k = Some b ∧ dirty_or_tx_state (bh_state b) = true;
  a_ref : ob_ref c = (if is_empty (data c) then 0 else 1) + Z.of_nat (length (ob_writes c));
}.

Definition does {R} (m : M cache R) c (a : R) d' : Prop :=
  ∃ c', m c = Ok (a, c') ∧ data c' = d' ∧ acct c' ∧ other c' = other c.

Lemma does_bind {R S} (m : M cache R) (k : R → M cache S) c a d1 s d2 :
  does m c a d1 → (∀ c1, data c1 = d1 → acct c1 → other c1 = other c → does (k a) c1 s d2) → does (m ≫= k) c s d2.
Proof.
  intros (c1 & E & Hd & Ha & Ho) Hk. destruct (Hk c1 Hd Ha Ho) as (c2 & E2 & Hd2 & Ha2 & Ho2). exists c2. split_and!; [|done|done|congruence].
  unfold mbind, M_bind. by rewrite E.
Qed.
Lemma does_ret {R} c (a : R) : acct c → does (mret a) c a (data c).
Proof. intros Ha. by exists c. Qed.
Lemma does_get c k b : acct c → map_find (data c) k = Some b → does (get_bh k) c b (data c).
Proof. intros Ha Hf. exists c. unfold get_bh. by rewrite Hf. Qed.
Lemma does_gets {R} (f : cache → R) c : acct c → does (gets f) c (f c) (data c).
Proof. intros Ha. by exists c. Qed.
Lemma does_lift {R} (r : res R) a c : acct c → r = Ok a → does (lift r) c a (data c).
Proof. intros Ha ->. by exists c. Qed.
Lemma does_assert (p : bool) c : acct c → p = true → does (assert_m p) c tt (data c).
Proof. intros Ha ->. by exists c. Qed.
Lemma does_get_bind {S} k (f : BufferHead → M cache S) c b s d2 :
  map_find (data c) k = Some b → does (f b) c s d2 → does (b ← get_bh k; f b) c s d2.
Proof. intros Hf (c' & E & ?). exists c'. unfold mbind, M_bind, get_bh. by rewrite Hf. Qed.
Lemma does_gets_bind {R S} (g : cache → R) (f : R → M cache S) c s d2 : does (f (g c)) c s d2 → does (gets g ≫= f) c s d2.
Proof. done. Qed.
Lemma does_lift_bind {R S} (r : res R) (f : R → M cache S) c a s d2 : r = Ok a → does (f a) c s d2 → does (lift r ≫= f) c s d2.
Proof. by intros ->. Qed.
Lemma does_assert_bind {S} (p : bool) (f : unit → M cache S) c s d2 : p = true → does (f tt) c s d2 → does (assert_m p ≫= f) c s d2.
Proof. by intros ->. Qed.

Lemma data_nonempty c k b : map_find (data c) k = Some b → is_empty (data c) = false.
Proof. intros Hf. by destruct (data c). Qed.
Lemma put_nonempty d k b : is_empty (map_put d k b) = false.
Proof. destruct d as [|[i w] d]; unfold map_put; by repeat case_match. Qed.

(** The dirty set after one head has changed. *)
Lemma in_set_add k i (l : list Z) : i ∈ k :: filter (λ y, y ≠ k) l ↔ i = k ∨ i ∈ l.
Proof. rewrite elem_of_cons, list_elem_of_filter. destruct (decide (i = k)); tauto. Qed.

(** Changing a head without changing its state or length. *)
Lemma put_same_acct c k b b' : acct c → map_find (data c) k = Some b → bh_state b' = bh_state b → bh_length b' = bh_length b → bh_ref b' = bh_ref b →
  acct (with_data (map_put (data c) k b') c).
Proof.
  intros [Ho Hp Hs Hob Hos Hset Hr] Hf Es El Er. constructor; cbn.
  - by apply map_put_ordered.
  - intros i e. rewrite map_find_put by done. case_decide as Ei; [|apply Hp]. intros [= <-]. rewrite Er, Es. by apply (Hp k).
  - intros s. rewrite Hs, (total_old _ _ _ _ _ Ho Hf). unfold in_state. rewrite Es, El. lia.
  - rewrite Hob, (total_old _ _ _ _ _ Ho Hf). unfold dirty_len. rewrite Es, El. lia.
  - rewrite Hos, (total_old _ _ _ _ _ Ho Hf). unfold dirty_len. rewrite Es, El. lia.
  - intros i. rewrite Hset, map_find_put by done. case_decide as Ei; [subst i|done]. split; intros (e & E & He); [exists b'|exists b]; split; [done| |done|].
    + rewrite Hf in E. injection E as <-. by rewrite Es.
    + injection E as <-. by rewrite <- Es.
  - rewrite Hr. by rewrite put_nonempty, (data_nonempty _ _ _ Hf).
Qed.

Lemma does_change k f c b : acct c → map_find (data c) k = Some b →
  bh_state (f b) = bh_state b → bh_length (f b) = bh_length b → bh_ref (f b) = bh_ref b →
  does (change_bh k f) c tt (map_put (data c) k (f b)).
Proof.
  intros Ha Hf Es El Er. unfold change_bh. apply (does_get_bind _ _ _ b); [done|].
  eexists. split; [done|]. split; [done|]. split; [|done]. by apply (put_same_acct _ _ b).
Qed.

Lemma bump_eq st s0 n s : bump st s0 n s = st s + (if bool_decide (s0 = s) then n else 0).
Proof. unfold bump. repeat case_bool_decide; subst; done || lia. Qed.

Lemma does_resize k len c b : acct c → map_find (data c) k = Some b → does (resize_bh k len) c tt (map_put (data c) k (set_length len b)).
Proof.
  intros [Ho Hp Hs Hob Hos Hset Hr] Hf. unfold resize_bh. apply (does_get_bind _ _ _ b); [done|].
  eexists. split; [done|]. split; [done|]. split; [|done]. constructor; cbn.
  - by apply map_put_ordered.
  - intros i e. rewrite map_find_put by done. case_decide as Ei; [|apply Hp]. intros [= <-]. exact (Hp k b Hf).
  - intros s. rewrite (total_old _ _ _ _ _ Ho Hf). rewrite !bump_eq, Hs. generalize (total (in_state s) (data c)). intros T. unfold in_state. cbn. destruct (bool_decide (bh_state b = s)); lia.
  - rewrite (total_old _ _ _ _ _ Ho Hf), Hob. generalize (total dirty_len (data c)). intros T. unfold dirty_len. cbn. destruct (dirty_or_tx_state (bh_state b)); lia.
  - rewrite (total_old _ _ _ _ _ Ho Hf), Hos. generalize (total dirty_len (data c)). intros T. unfold dirty_len. cbn. destruct (dirty_or_tx_state (bh_state b)); lia.
  - intros i. rewrite Hset, map_find_put by done. case_decide as Ei; [subst i|done]. split; intros (e & E & He); [exists (set_length len b)|exists b]; split; [done| |done|].
    + rewrite Hf in E. by injection E as <-.
    + by injection E as <-.
  - rewrite Hr. by rewrite put_nonempty, (data_nonempty _ _ _ Hf).
Qed.

(** The state of a head, with its pin; an error is forgotten when it is left. *)
Definition to_state (s : bhstate) b : BufferHead :=
  set_ref_state (pin_of s) s (if negb (bool_decide (s = STATE_ERROR)) && is_error b then set_error 0 b else b).

Lemma set_state_ok s b : bh_ref b = pin_of (bh_state b) → set_state s b = Ok (set_ref_state (pin_of s) s b).
Proof. unfold set_state, pin_of. intros ->. by destruct (pins s), (pins (bh_state b)). Qed.

Lemma does_set_state k s c b : acct c → map_find (data c) k = Some b → does (bh_set_state k s) c tt (map_put (data c) k (to_state s b)).
Proof.
  intros [Ho Hp Hs Hob Hos Hset Hr] Hf. pose proof (Hp _ _ Hf) as Hpb. unfold bh_set_state. apply (does_get_bind _ _ _ b); [done|].
  set (b1 := if negb (bool_decide (s = STATE_ERROR)) && is_error b then set_error 0 b else b).
  assert (bh_state b1 = bh_state b ∧ bh_length b1 = bh_length b ∧ bh_ref b1 = bh_ref b) as (E1 & E2 & E3) by (unfold b1; by destruct (negb (bool_decide (s = STATE_ERROR)) && is_error b)).
  assert (∃ l, (if dirty_or_tx_state s && negb (dirty_or_tx_state (bh_state b)) then mark_dirty_or_tx k true
          else if dirty_or_tx_state (bh_state b) && negb (dirty_or_tx_state s) then mark_dirty_or_tx k false else mret tt) c = Ok (tt, with_dirty_or_tx_bh l c) ∧
          ∀ i, i ∈ l ↔ if decide (i = k) then dirty_or_tx_state s = true else i ∈ dirty_or_tx_bh c) as (l & El & Hl).
  { assert (k ∈ dirty_or_tx_bh c ↔ dirty_or_tx_state (bh_state b) = true) as Hk.
    { rewrite Hset, Hf. split; [by intros (e & [= <-] & He)|]. intros He. by exists b. }
    destruct (dirty_or_tx_state s) eqn:Es, (dirty_or_tx_state (bh_state b)) eqn:Eb; cbn [andb negb].
    - exists (dirty_or_tx_bh c). split; [by destruct c|]. intros i. case_decide as Ei; [subst; tauto|done].
    - eexists. split; [done|]. intros i. rewrite in_set_add. case_decide; tauto.
    - eexists. split; [done|]. intros i. rewrite list_elem_of_filter. case_decide as Ei; [split; [by intros [? _]|done]|tauto].
    - exists (dirty_or_tx_bh c). split; [by destruct c|]. intros i. case_decide as Ei; [subst; tauto|done]. }
  unfold does, mbind, M_bind. rewrite El. unfold lift. fold b1. rewrite (set_state_ok s b1) by congruence. unfold bh_stat_sub, bh_stat_add, put_bh, modify.
  change (set_ref_state (pin_of s) s b1) with (to_state s b). rewrite E1, E2.
  eexists. split; [done|]. split; [done|]. split; [|done]. constructor; cbn.
  - by apply map_put_ordered.
  - intros i e. rewrite map_find_put by done. case_decide as Ei; [|apply Hp]. by intros [= <-].
  - intros s'. rewrite (total_old _ _ _ _ _ Ho Hf), !bump_eq, Hs. generalize (total (in_state s') (data c)). intros T. unfold in_state. cbn. fold b1. rewrite E2.
    destruct (bool_decide (bh_state b = s')), (bool_decide (s = s')); lia.
  - rewrite (total_old _ _ _ _ _ Ho Hf), Hob. generalize (total dirty_len (data c)). intros T. unfold dirty_len. cbn. fold b1. rewrite E2. destruct (dirty_or_tx_state (bh_state b)), (dirty_or_tx_state s); lia.
  - rewrite (total_old _ _ _ _ _ Ho Hf), Hos. generalize (total dirty_len (data c)). intros T. unfold dirty_len. cbn. fold b1. rewrite E2. destruct (dirty_or_tx_state (bh_state b)), (dirty_or_tx_state s); lia.
  - intros i. rewrite Hl, map_find_put by done. case_decide as Ei; [subst i|apply Hset]. split; [intros He; exists (to_state s b); done|by intros (e & [= <-] & He)].
  - rewrite Hr. by rewrite put_nonempty, (data_nonempty _ _ _ Hf).
Qed.

Lemma does_add b c : acct c → map_find (data c) (bh_start b) = None → bh_ref b = pin_of (bh_state b) →
  does (bh_add b) c tt (map_put (data c) (bh_start b) b).
Proof.
  intros [Ho Hp Hs Hob Hos Hset Hr] Hf Hpb. unfold bh_add. apply does_gets_bind. cbv beta.
  assert ((if is_empty (data c) then object_get else mret tt) c = Ok (tt, with_ob_ref (1 + Z.of_nat (length (ob_writes c))) c)) as Eg.
  { destruct (is_empty (data c)) eqn:Ed.
    - unfold object_get, ref_get. rewrite Hr. rewrite (proj2 (Z.leb_le _ _)) by lia. cbn. do 3 f_equal. lia.
    - unfold mret, M_ret. rewrite <- Hr. by destruct c. }
  assert (∀ c', (if dirty_or_tx_state (bh_state b) then mark_dirty_or_tx (bh_start b) true else mret tt) c' =
     Ok (tt, if dirty_or_tx_state (bh_state b) then with_dirty_or_tx_bh (bh_start b :: filter (λ y, y ≠ bh_start b) (dirty_or_tx_bh c')) c' else c')) as El.
  { intros c'. by destruct (dirty_or_tx_state (bh_state b)). }
  assert (map_count (data c) (bh_start b) = false) as Ec by (unfold map_count; rewrite Hf; apply bool_decide_eq_false; by intros []).
  unfold does, mbind, M_bind. rewrite Eg. unfold assert_m, lift. rewrite Ec. cbn [negb assert_c]. unfold put_bh, modify. rewrite El.
  eexists. split; [done|]. set (s := bh_state b) in *. split; [by destruct (dirty_or_tx_state s)|]. split; [|by destruct (dirty_or_tx_state s)].
  assert (bh_start b ∉ keys (data c)) as Hk by (by apply map_find_None).
  constructor.
  - cbn. destruct (dirty_or_tx_state s); cbn; by apply map_put_ordered.
  - intros i e. assert (map_find (map_put (data c) (bh_start b) b) i = Some e → bh_ref e = pin_of (bh_state e)) as Hx; [|intros Hy; apply Hx; revert Hy; cbn; by destruct (dirty_or_tx_state s)].
    rewrite map_find_put by done. case_decide as Ei; [by intros [= <-]|apply Hp].
  - intros s'. assert (bump (stat c) s (bh_length b) s' = rest s' + total (in_state s') (map_put (data c) (bh_start b) b)) as Hx; [|etrans; [|etrans; [exact Hx|]]; cbn; by destruct (dirty_or_tx_state s)].
    rewrite total_new by done. rewrite bump_eq, Hs. generalize (total (in_state s') (data c)). intros T. unfold in_state. fold s. destruct (bool_decide (s = s')); lia.
  - assert (ob_dirty_or_tx c + (if dirty_or_tx_state s then bh_length b else 0) = total dirty_len (map_put (data c) (bh_start b) b)) as Hx.
    { rewrite total_new, Hob by done. unfold dirty_len at 2. fold s. lia. }
    etrans; [|etrans; [exact Hx|]]; cbn; by destruct (dirty_or_tx_state s).
  - assert (oset_dirty_or_tx c + (if dirty_or_tx_state s then bh_length b else 0) = orest + total dirty_len (map_put (data c) (bh_start b) b)) as Hx.
    { rewrite total_new, Hos by done. unfold dirty_len at 2. fold s. lia. }
    etrans; [|etrans; [exact Hx|]]; cbn; by destruct (dirty_or_tx_state s).
  - intros i. trans (∃ e, map_find (map_put (data c) (bh_start b) b) i = Some e ∧ dirty_or_tx_state (bh_state e) = true); [|cbn; by destruct (dirty_or_tx_state s)].
    rewrite map_find_put by done. trans (if decide (i = bh_start b) then dirty_or_tx_state s = true else i ∈ dirty_or_tx_bh c).
    + assert (bh_start b ∉ dirty_or_tx_bh c) as Hnk by (rewrite Hset; intros (e & E & _); by rewrite Hf in E).
      cbn. destruct (dirty_or_tx_state s) eqn:Es; cbn; [rewrite in_set_add|]; case_decide as Ei; [tauto|tauto|subst; split; [done|discriminate]|tauto].
    + case_decide as Ei; [split; [by exists b|by intros (e & [= <-] & He)]|apply Hset].
  - assert (1 + Z.of_nat (length (ob_writes c)) = (if is_empty (map_put (data c) (bh_start b) b) then 0 else 1) + Z.of_nat (length (ob_writes c))) as Hx by (by rewrite put_nonempty).
    etrans; [|etrans; [exact Hx|]]; cbn; by destruct (dirty_or_tx_state s).
Qed.

Lemma does_remove k b c : acct c → map_find (data c) k = Some b → does (bh_remove k) c tt (map_del (data c) k).
Proof.
  intros [Ho Hp Hs Hob Hos Hset Hr] Hf. unfold bh_remove. apply (does_get_bind _ _ _ b); [done|].
  set (r := (if is_empty (map_del (data c) k) then 0 else 1) + Z.of_nat (length (ob_writes c))).
  set (c1 := with_data (map_del (data c) k) c).
  assert ((if is_empty (data c1) then object_put else mret tt) c1 = Ok (tt, with_ob_ref r c1)) as Eg.
  { unfold c1, r. cbn. rewrite (data_nonempty _ _ _ Hf) in Hr. destruct (is_empty (map_del (data c) k)) eqn:Ed.
    - unfold object_put, ref_put. cbn. rewrite Hr. rewrite (proj2 (Z.ltb_lt _ _)) by lia. cbn. do 3 f_equal. lia.
    - unfold mret, M_ret. do 2 f_equal. rewrite <- Hr. by destruct c. }
  unfold does, mbind, M_bind, modify, gets. fold c1. rewrite Eg.
  assert (∀ c', (if dirty_or_tx_state (bh_state b) then mark_dirty_or_tx k false else mret tt) c' =
     Ok (tt, if dirty_or_tx_state (bh_state b) then with_dirty_or_tx_bh (filter (λ y, y ≠ k) (dirty_or_tx_bh c')) c' else c')) as El.
  { intros c'. by destruct (dirty_or_tx_state (bh_state b)). }
  rewrite El. unfold bh_stat_sub, modify. eexists. split; [done|]. set (s := bh_state b) in *.
  split; [by destruct (dirty_or_tx_state s)|]. split; [|by destruct (dirty_or_tx_state s)]. constructor.
  - cbn. destruct (dirty_or_tx_state s); cbn; by apply map_del_ordered.
  - intros i e. assert (map_find (map_del (data c) k) i = Some e → bh_ref e = pin_of (bh_state e)) as Hx; [|intros Hy; apply Hx; revert Hy; cbn; by destruct (dirty_or_tx_state s)].
    rewrite map_find_del. case_decide; [done|apply Hp].
  - intros s'. assert (bump (stat c) s (- bh_length b) s' = rest s' + total (in_state s') (map_del (data c) k)) as Hx; [|etrans; [|etrans; [exact Hx|]]; cbn; by destruct (dirty_or_tx_state s)].
    rewrite (total_del _ _ _ _ Ho Hf). rewrite bump_eq, Hs. generalize (total (in_state s') (data c)). intros T. unfold in_state. fold s. destruct (bool_decide (s = s')); lia.
  - assert (ob_dirty_or_tx c + (if dirty_or_tx_state s then - bh_length b else 0) = total dirty_len (map_del (data c) k)) as Hx.
    { rewrite (total_del _ _ _ _ Ho Hf), Hob. unfold dirty_len at 3. fold s. destruct (dirty_or_tx_state s); lia. }
    etrans; [|etrans; [exact Hx|]]; cbn; by destruct (dirty_or_tx_state s).
  - assert (oset_dirty_or_tx c + (if dirty_or_tx_state s then - bh_length b else 0) = orest + total dirty_len (map_del (data c) k)) as Hx.
    { rewrite (total_del _ _ _ _ Ho Hf), Hos. unfold dirty_len at 3. fold s. destruct (dirty_or_tx_state s); lia. }
    etrans; [|etrans; [exact Hx|]]; cbn; by destruct (dirty_or_tx_state s).
  - intros i. trans (∃ e, map_find (map_del (data c) k) i = Some e ∧ dirty_or_tx_state (bh_state e) = true); [|cbn; by destruct (dirty_or_tx_state s)].
    rewrite map_find_del. trans (i ≠ k ∧ i ∈ dirty_or_tx_bh c).
    + assert (k ∈ dirty_or_tx_bh c ↔ dirty_or_tx_state s = true) as Hnk.
      { rewrite Hset, Hf. split; [by intros (e & [= <-] & He)|]. intros He. by exists b. }
      cbn. destruct (dirty_or_tx_state s) eqn:Es; cbn; [by rewrite list_elem_of_filter|]. split; [|by intros [??]]. intros Hi. split; [intros ->; by apply Hnk in Hi|done].
    + rewrite Hset. case_decide as Ei; [split; [by intros [? _]|by intros (e & ? & _)]|]. tauto.
  - etrans; [|etrans; [exact (eq_refl r)|]]; unfold r; cbn; by destruct (dirty_or_tx_state s).
Qed.
End acct.

(** ** The shape of the buffers and what they show of each byte

    [shape] is what [audit_buffers] checks and more: the heads are disjoint,
    not empty, keyed by their start, and their waiters wait for bytes of theirs.
    [view] is what the buffers say of one byte; splitting and merging heads do
    not change it. *)


(** ** Shape *)

Definition limit : Z := 4294967296.

Record head_ok k b : Prop := HeadOk {
  h_start : bh_start b = k;
  h_lo : 0 <= k;
  h_len : 0 < bh_length b;
  h_hi : bh_end b < limit;
  h_worder : ordered (bh_waitfor_read b);
  h_waiters : ∀ o, o ∈ keys (bh_waitfor_read b) → k <= o < bh_end b;
}.

Record shape d : Prop := Shape {
  s_ord : ordered d;
  s_head : ∀ k b, map_find d k = Some b → head_ok k b;
  s_apart : ∀ k b k' b', map_find d k = Some b → map_find d k' = Some b' → k < k' → bh_end b <= k';
}.

Definition has_data (s : bhstate) : bool := match s with STATE_CLEAN | STATE_DIRTY | STATE_TX => true | _ => false end.
Definition data_ok b : Prop := if has_data (bh_state b) then Z.of_nat (length (bh_bl b)) = bh_length b else bh_bl b = [].
Definition filled d : Prop := ∀ k b, map_find d k = Some b → data_ok b.

(** ** Bytes *)

Definition byte_of b x : option Z :=
  match bh_state b with
  | STATE_ZERO => Some 0
  | STATE_CLEAN | STATE_DIRTY | STATE_TX => bh_bl b !! Z.to_nat (x - bh_start b)
  | _ => None
  end.
(** The read or the write that is under way. *)
Definition tag b : Z := match bh_state b with STATE_RX => bh_last_read_tid b | STATE_TX => bh_last_write_tid b | _ => 0 end.
Definition cell_of b x : bhstate * Z * option Z * option (list Z) := (bh_state b, tag b, byte_of b x, map_find (bh_waitfor_read b) x).

Definition head_at d x : option BufferHead := snd <$> find (λ e, (e.1 <=? x) && (x <? bh_end e.2)) d.
Definition view d x : option (bhstate * Z * option Z * option (list Z)) := (λ b, cell_of b x) <$> head_at d x.

Lemma find_elem {A} (f : A → bool) (l : list A) a : find f l = Some a → a ∈ l ∧ f a = true.
Proof. intros H%find_some. by rewrite list_elem_of_In. Qed.

Lemma head_at_spec d x b : shape d → head_at d x = Some b ↔ map_find d (bh_start b) = Some b ∧ bh_start b <= x < bh_end b.
Proof.
  intros [Ho Hh Ha]. unfold head_at. split.
  - destruct (find _ d) as [[k e]|] eqn:E; [|done]. intros [= <-]. apply find_elem in E as [Hin [H1%Z.leb_le H2%Z.ltb_lt]%andb_true_iff]. simpl in *.
    apply map_find_elem in Hin; [|done]. destruct (Hh _ _ Hin) as [Es _ _ _ _ _]. rewrite Es. done.
  - intros [Hf Hx]. destruct (find _ d) as [[k e]|] eqn:E; simpl.
    + f_equal. apply find_elem in E as [Hin [H1%Z.leb_le H2%Z.ltb_lt]%andb_true_iff]. simpl in *. apply map_find_elem in Hin; [|done].
      destruct (Z.lt_trichotomy k (bh_start b)) as [Hlt|[->|Hlt]]; [|congruence|].
      * pose proof (Ha _ _ _ _ Hin Hf Hlt). lia.
      * pose proof (Ha _ _ _ _ Hf Hin Hlt). lia.
    + exfalso. apply map_find_elem in Hf; [|done]. rewrite list_elem_of_In in Hf. apply (find_none _ _ E) in Hf. simpl in Hf.
      rewrite (proj2 (Z.leb_le _ _)), (proj2 (Z.ltb_lt _ _)) in Hf by lia. done.
Qed.
Lemma head_at_find d k b x : shape d → map_find d k = Some b → k <= x < bh_end b → head_at d x = Some b.
Proof. intros Hd Hf Hx. apply head_at_spec; [done|]. destruct (s_head d Hd _ _ Hf) as [-> _ _ _ _ _]. done. Qed.
Lemma head_at_none d x : shape d → head_at d x = None ↔ ∀ k b, map_find d k = Some b → ¬ (k <= x < bh_end b).
Proof.
  intros Hd. split.
  - intros Hn k b Hf Hx. by rewrite (head_at_find d k b x Hd Hf Hx) in Hn.
  - intros H. destruct (head_at d x) as [b|] eqn:E; [|done]. apply head_at_spec in E as [Hf Hx]; [|done]. by destruct (H _ _ Hf).
Qed.

(** Two heads at one byte are one. *)
Lemma heads_meet d k b k' b' x : shape d → map_find d k = Some b → map_find d k' = Some b' → k <= x < bh_end b → k' <= x < bh_end b' → k = k' ∧ b = b'.
Proof.
  intros Hd Hf Hf' Hx Hx'. pose proof (head_at_find d k b x Hd Hf Hx) as E. rewrite (head_at_find d k' b' x Hd Hf' Hx') in E. injection E as ->.
  destruct (s_head d Hd _ _ Hf) as [<- _ _ _ _ _], (s_head d Hd _ _ Hf') as [<- _ _ _ _ _]. done.
Qed.

(** ** Iterators *)

Lemma lower_bound_some d k j : ordered d → lower_bound d k = Some j → is_Some (map_find d j) ∧ k <= j ∧ ∀ i, is_Some (map_find d i) → k <= i → j <= i.
Proof.
  unfold lower_bound, ordered. induction d as [|[i b] d IH]; [done|]. intros Ho. apply StronglySorted_inv in Ho as [Ho Hi]. simpl in *. destruct (Z.leb_spec k i) as [Hle|Hlt].
  - intros [= <-]. rewrite Z.eqb_refl. split_and!; [by eexists|done|]. intros j Hj _. destruct (Z.eqb_spec i j) as [->|]; [lia|].
    apply map_find_in in Hj. rewrite Forall_forall in Hi. specialize (Hi j Hj). lia.
  - intros E. destruct (IH Ho E) as (Hj & Hkj & Hmin). destruct (Z.eqb_spec i j) as [->|]; [lia|]. split_and!; [done..|].
    intros i'. destruct (Z.eqb_spec i i') as [->|]; [lia|]. apply Hmin.
Qed.
Lemma lower_bound_none d k : lower_bound d k = None → ∀ i, is_Some (map_find d i) → i < k.
Proof.
  unfold lower_bound. induction d as [|[i b] d IH]; [by intros _ i []|]. simpl. destruct (Z.leb_spec k i) as [Hle|Hlt]; [done|].
  intros E j. destruct (Z.eqb_spec i j) as [->|]; [done|]. by apply IH.
Qed.

Lemma last_sorted d : ordered d → ∀ e, last d = Some e → ∀ i, i ∈ keys d → i <= e.1.
Proof.
  unfold ordered. induction d as [|[i b] d IH]; [done|]. intros Ho e He j. apply StronglySorted_inv in Ho as [Ho Hi]. simpl in He |- *. destruct d as [|p d].
  - injection He as <-. intros ->%list_elem_of_singleton. simpl. lia.
  - intros [->|Hj]%elem_of_cons; [|by apply IH]. rewrite Forall_forall in Hi.
    assert (e.1 ∈ keys (p :: d)) as He1 by (apply list_elem_of_fmap; exists e; split; [done|by apply last_Some_elem_of]). specialize (Hi _ He1). simpl in Hi. lia.
Qed.

Lemma before_some d k j : ordered d → before d k = Some j → is_Some (map_find d j) ∧ j < k ∧ ∀ i, is_Some (map_find d i) → i < k → i <= j.
Proof.
  unfold before. intros Ho. destruct (last (filter _ d)) as [[i b]|] eqn:E; [|done]. intros [= <-]. simpl in *.
  pose proof (last_Some_elem_of _ _ E) as [Hlt Hin]%list_elem_of_filter. simpl in Hlt. split_and!; [|done|].
  - exists b. by apply map_find_elem.
  - intros i' [b' Hi'] Hlt'. apply map_find_elem in Hi'; [|done]. apply (last_sorted _ (filter_ordered _ _ Ho) _ E i').
    apply list_elem_of_fmap. exists (i', b'). split; [done|]. by apply list_elem_of_filter.
Qed.
Lemma before_none d k : ordered d → before d k = None → ∀ i, is_Some (map_find d i) → k <= i.
Proof.
  unfold before. intros Ho. destruct (last (filter _ d)) as [[i b]|] eqn:E; [done|]. intros _ i [b Hb]. apply map_find_elem in Hb; [|done].
  destruct (Z.le_gt_cases k i) as [|Hlt]; [done|]. exfalso. apply last_None in E.
  assert ((i, b) ∈ filter (λ e : Z * BufferHead, e.1 < k) d) as Hin by (apply list_elem_of_filter; split; [simpl; lia|done]). rewrite E in Hin. by apply elem_of_nil in Hin.
Qed.

(** The buffer that includes or follows an offset. *)
Lemma data_lower_bound_some d off k : shape d → data_lower_bound d off = Some k →
  ∃ b, map_find d k = Some b ∧ off < bh_end b ∧ ∀ i e, map_find d i = Some e → off < bh_end e → k <= i.
Proof.
  intros Hd. pose proof (s_ord d Hd) as Ho. unfold data_lower_bound. intros E.
  assert (lower_bound d off = Some k → (∀ q e, before d off = Some q → map_find d q = Some e → bh_end e <= off) →
    ∃ b, map_find d k = Some b ∧ off < bh_end b ∧ ∀ i e, map_find d i = Some e → off < bh_end e → k <= i) as Hlb.
  { intros El Hq. destruct (lower_bound_some d off k Ho El) as ([b Hb] & Hk & Hmin). destruct (s_head d Hd _ _ Hb) as [Es _ Hlen _ _ _].
    exists b. split_and!; [done|unfold bh_end; lia|]. intros i e Hi He. destruct (Z.le_gt_cases off i) as [|Hlt]; [apply Hmin; [by eexists|done]|]. exfalso.
    destruct (before d off) as [q|] eqn:Eq; [|pose proof (before_none d off Ho Eq i ltac:(by eexists)); lia].
    destruct (before_some d off q Ho Eq) as ([eq Hqe] & Hq1 & Hq2). specialize (Hq2 i ltac:(by eexists) Hlt). specialize (Hq q eq eq_refl Hqe).
    destruct (Z.eq_dec i q) as [->|Hn]; [rewrite Hqe in Hi; injection Hi as <-; lia|]. pose proof (s_apart d Hd i e q eq Hi Hqe ltac:(lia)). lia. }
  destruct (before d off) as [q|] eqn:Eq; [|by apply Hlb].
  destruct (before_some d off q Ho Eq) as ([e Hq] & Hq1 & Hq2). rewrite Hq in E.
  assert (bh_end e = q + bh_length e) as Ee by (unfold bh_end; by destruct (s_head d Hd _ _ Hq) as [-> _ _ _ _ _]).
  assert (match lower_bound d off with Some k => if off <? k then true else false | None => true end = true → off < bh_end e → k = q →
     ∃ b, map_find d k = Some b ∧ off < bh_end b ∧ ∀ i e, map_find d i = Some e → off < bh_end e → k <= i) as Hov.
  { intros _ Hlt ->. exists e. split_and!; [done..|]. intros i ei Hi Hei. destruct (Z.le_gt_cases q i) as [|Hlt']; [done|]. pose proof (s_apart d Hd _ _ _ _ Hi Hq Hlt'). lia. }
  destruct (lower_bound d off) as [l|] eqn:El.
  - destruct (Z.ltb_spec off l) as [Hl|Hl].
    + destruct (Z.leb_spec (q + bh_length e) off) as [Hle|Hgt]; [|injection E as <-; apply Hov; done || lia].
      apply Hlb; [done|]. intros q' e' [= <-] Hq'. rewrite Hq in Hq'. injection Hq' as <-. lia.
    + injection E as ->. destruct (lower_bound_some d off k Ho El) as ([bl Hbl] & Hk & _). apply Hlb; [done|]. intros q' e' [= <-] Hq'. rewrite Hq in Hq'. injection Hq' as <-.
      pose proof (s_apart d Hd _ _ _ _ Hq Hbl ltac:(lia)). lia.
  - destruct (Z.leb_spec (q + bh_length e) off) as [Hle|Hgt]; [done|]. injection E as <-. apply Hov; done || lia.
Qed.

Lemma data_lower_bound_none d off : shape d → data_lower_bound d off = None → ∀ i e, map_find d i = Some e → bh_end e <= off.
Proof.
  intros Hd. pose proof (s_ord d Hd) as Ho. unfold data_lower_bound. intros E i e Hi.
  assert (lower_bound d off = None) as El.
  { destruct (lower_bound d off) as [l|]; [|done]. destruct (before d off) as [q|]; [|done]. destruct (off <? l); [|done]. destruct (map_find d q); [|done]. by destruct (_ <=? _). }
  pose proof (lower_bound_none d off El i ltac:(by eexists)) as Hlt. rewrite El in E.
  destruct (before d off) as [q|] eqn:Eq; [|pose proof (before_none d off Ho Eq i ltac:(by eexists)); lia].
  destruct (before_some d off q Ho Eq) as ([eq Hq] & Hq1 & Hq2). rewrite Hq in E. specialize (Hq2 i ltac:(by eexists) Hlt).
  destruct (Z.leb_spec (q + bh_length eq) off) as [Hle|Hgt]; [|done].
  assert (bh_end eq = q + bh_length eq) as Ee by (unfold bh_end; by destruct (s_head d Hd _ _ Hq) as [-> _ _ _ _ _]).
  destruct (Z.eq_dec i q) as [->|]; [rewrite Hq in Hi; injection Hi as <-; lia|]. pose proof (s_apart d Hd _ _ _ _ Hi Hq ltac:(lia)). lia.
Qed.

(** ** Splitting *)

Definition left_of (off : Z) b : BufferHead :=
  set_waiters (filter (λ w, w.1 < off) (bh_waitfor_read b)) (set_bl (take (Z.to_nat (off - bh_start b)) (bh_bl b)) (set_length (off - bh_start b) b)).
Definition right_of (off : Z) b : BufferHead :=
  MkBH (bh_state b) (bh_ref b) off (bh_end b - off) (bh_dontneed b) (drop (Z.to_nat (off - bh_start b)) (bh_bl b))
    (bh_last_write_tid b) (bh_last_read_tid b) 0 (bh_snapc b) 0 (filter (λ w, off <= w.1) (bh_waitfor_read b)).
Definition split_data (k off : Z) b d : buffers := map_put (map_put d k (left_of off b)) off (right_of off b).

Lemma substr_of_ok (l : list Z) off len : 0 <= off → 0 <= len → off + len <= Z.of_nat (length l) → Z.of_nat (length l) < limit →
  substr_of l off len = Ok (take (Z.to_nat len) (drop (Z.to_nat off) l)).
Proof.
  unfold limit. intros H1 H2 H3 H4. unfold substr_of. rewrite !u32_small by (unfold is_u32; lia). by rewrite !Z.gtb_ltb, !(proj2 (Z.ltb_ge _ _)) by lia.
Qed.

Section split.
Context d k off b (Hd : shape d) (Hf : map_find d k = Some b) (Hoff : k < off < bh_end b).

Lemma split_start : bh_start b = k.
Proof using Hd Hf. by destruct (s_head d Hd _ _ Hf). Qed.
Lemma split_free : map_find d off = None.
Proof using Hd Hf Hoff.
  destruct (map_find d off) as [e|] eqn:E; [|done]. pose proof (s_apart d Hd _ _ _ _ Hf E ltac:(lia)). lia.
Qed.

Lemma find_split i : map_find (split_data k off b d) i = if decide (i = off) then Some (right_of off b) else if decide (i = k) then Some (left_of off b) else map_find d i.
Proof using Hd. unfold split_data. pose proof (s_ord d Hd). rewrite !map_find_put by (done || by apply map_put_ordered). done. Qed.

Lemma find_split_cases i e : map_find (split_data k off b d) i = Some e →
  i = off ∧ e = right_of off b ∨ i = k ∧ e = left_of off b ∨ i ≠ off ∧ i ≠ k ∧ map_find d i = Some e.
Proof using Hd. rewrite find_split. case_decide; [intros [= <-]; by left|]. case_decide; [intros [= <-]; right; by left|]. intros ?. by do 2 right. Qed.

Lemma left_end : bh_end (left_of off b) = off.
Proof. unfold bh_end. cbn. lia. Qed.
Lemma right_end : bh_end (right_of off b) = bh_end b.
Proof. unfold bh_end at 1. cbn. lia. Qed.

Lemma left_head_ok : head_ok k (left_of off b).
Proof using Hd Hf Hoff.
  pose proof split_start as Es. destruct (s_head d Hd _ _ Hf) as [_ H0 Hlen Hhi Hwo Hw].
  constructor; [done|done|cbn; lia|rewrite left_end; lia|by apply filter_ordered|]. rewrite left_end.
  intros o (w & -> & [Hlt Hin]%list_elem_of_filter)%list_elem_of_fmap. split; [|done]. apply Hw. apply list_elem_of_fmap. by exists w.
Qed.
Lemma right_head_ok : head_ok off (right_of off b).
Proof using Hd Hf Hoff.
  destruct (s_head d Hd _ _ Hf) as [_ H0 Hlen Hhi Hwo Hw].
  constructor; [done|lia|cbn; lia|rewrite right_end; lia|by apply filter_ordered|]. rewrite right_end.
  intros o (w & -> & [Hlt Hin]%list_elem_of_filter)%list_elem_of_fmap. split; [done|]. apply Hw. apply list_elem_of_fmap. by exists w.
Qed.

Lemma shape_split : shape (split_data k off b d).
Proof using Hd Hf Hoff.
  pose proof (s_ord d Hd) as Ho. pose proof left_end as El. pose proof right_end as Er. constructor.
  - unfold split_data. by repeat apply map_put_ordered.
  - intros i e. rewrite find_split. case_decide as E1; [intros [= <-]; subst i; apply right_head_ok|].
    case_decide as E2; [intros [= <-]; subst i; apply left_head_ok|]. by apply Hd.
  - pose proof (s_apart d Hd) as Ha. intros i e j e' Hi%find_split_cases Hj%find_split_cases Hlt.
    destruct Hi as [[-> ->]|[[-> ->]|(Hi1 & Hi2 & Hi)]], Hj as [[-> ->]|[[-> ->]|(Hj1 & Hj2 & Hj)]]; rewrite ?El, ?Er; try lia.
    + by apply (Ha _ _ _ _ Hf Hj ltac:(lia)).
    + pose proof (Ha _ _ _ _ Hf Hj ltac:(lia)). lia.
    + pose proof (Z.lt_trichotomy i k) as [Hik|[|Hik]]; [|done|].
      * pose proof (Ha _ _ _ _ Hi Hf Hik). lia.
      * pose proof (Ha _ _ _ _ Hf Hi Hik). lia.
    + by apply (Ha _ _ _ _ Hi Hf).
    + by apply (Ha _ _ _ _ Hi Hj).
Qed.

Lemma split_cells x : k <= x < bh_end b → cell_of (if x <? off then left_of off b else right_of off b) x = cell_of b x.
Proof using Hd Hf Hoff.
  pose proof split_start as Es. intros Hx. unfold cell_of. assert (map_find (bh_waitfor_read (if x <? off then left_of off b else right_of off b)) x = map_find (bh_waitfor_read b) x) as ->.
  { pose proof (map_find_filter (λ o, o < off) (bh_waitfor_read b) x) as E1. pose proof (map_find_filter (λ o, off <= o) (bh_waitfor_read b) x) as E2.
    destruct (Z.ltb_spec x off); [rewrite decide_True in E1 by done; exact E1|rewrite decide_True in E2 by done; exact E2]. }
  assert (byte_of (if x <? off then left_of off b else right_of off b) x = byte_of b x) as ->; [|by destruct (x <? off)].
  destruct (Z.ltb_spec x off); unfold byte_of; cbn.
  - rewrite lookup_take_lt by lia. done.
  - rewrite lookup_drop. rewrite Es. replace (Z.to_nat (off - k) + Z.to_nat (x - off))%nat with (Z.to_nat (x - k)) by lia. done.
Qed.

Lemma view_split x : view (split_data k off b d) x = view d x.
Proof using Hd Hf Hoff.
  pose proof shape_split as Hd'. pose proof left_end as El. pose proof right_end as Er. unfold view.
  destruct (decide (k <= x < bh_end b)) as [Hx|Hx].
  - rewrite (head_at_find d k b x Hd Hf Hx). cbn. rewrite <- (split_cells x Hx). destruct (Z.ltb_spec x off).
    + rewrite (head_at_find _ k (left_of off b) x Hd'); [done| |lia]. rewrite find_split. by rewrite decide_False, decide_True by lia.
    + rewrite (head_at_find _ off (right_of off b) x Hd'); [done| |lia]. rewrite find_split. by rewrite decide_True by lia.
  - destruct (head_at d x) as [e|] eqn:E.
    + apply head_at_spec in E as [He Hxe]; [|done]. rewrite (head_at_find _ (bh_start e) e x Hd'); [done| |done]. rewrite find_split.
      rewrite decide_False; [rewrite decide_False; [done|]|].
      * intros E'. rewrite E', Hf in He. injection He as <-. lia.
      * intros E'. by rewrite E', split_free in He.
    + rewrite (proj2 (head_at_none _ x Hd')); [done|]. intros i e. rewrite find_split. pose proof (proj1 (head_at_none d x Hd) E) as Hn.
      case_decide; [intros [= <-]; subst; rewrite Er; lia|]. case_decide; [intros [= <-]; subst; rewrite El; lia|apply Hn].
Qed.

Lemma data_ok_split : data_ok b → data_ok (left_of off b) ∧ data_ok (right_of off b).
Proof using Hd Hf Hoff.
  unfold data_ok. cbn. pose proof split_start as Es. unfold bh_end in *. destruct (has_data (bh_state b)).
  - intros Hl. rewrite length_take, length_drop. lia.
  - intros ->. by rewrite take_nil, drop_nil.
Qed.
End split.

Lemma filled_split d k off b : shape d → map_find d k = Some b → k < off < bh_end b → filled d → filled (split_data k off b d).
Proof.
  intros Hd Hf Hoff Hfi i e. rewrite find_split by done. destruct (data_ok_split d k off b Hd Hf Hoff (Hfi _ _ Hf)).
  case_decide; [by intros [= <-]|]. case_decide; [by intros [= <-]|apply Hfi].
Qed.

Section does.
Context (rest : bhstate → Z) (orest : Z).
Abbreviation does := (does rest orest).
Abbreviation acct := (acct rest orest).

Lemma does_eq {R} (m : M cache R) c a d1 d2 : does m c a d1 → d1 = d2 → does m c a d2.
Proof. by intros H <-. Qed.

(** Two heads put in a map, and one of them changed. *)
Definition two d k b i e : buffers := map_put (map_put d k b) i e.
Lemma find_two d k b i e j : ordered d → map_find (two d k b i e) j = if decide (j = i) then Some e else if decide (j = k) then Some b else map_find d j.
Proof. intros Ho. unfold two. by rewrite !map_find_put by (done || by apply map_put_ordered). Qed.

Lemma does_change_first f c d k b i e : acct c → ordered d → k ≠ i → data c = two d k b i e →
  bh_state (f b) = bh_state b → bh_length (f b) = bh_length b → bh_ref (f b) = bh_ref b → does (change_bh k f) c tt (two d k (f b) i e).
Proof.
  intros Ha Ho Hn Ed H1 H2 H3. eapply does_eq; [apply (does_change _ _ k f c b); [done| |done..]|].
  - rewrite Ed, find_two by done. by rewrite decide_False, decide_True.
  - rewrite Ed. unfold two. rewrite (map_put_comm _ i e k) by (done || by apply map_put_ordered). by rewrite map_put_put.
Qed.
Lemma does_change_second f c d k b i e : acct c → ordered d → data c = two d k b i e →
  bh_state (f e) = bh_state e → bh_length (f e) = bh_length e → bh_ref (f e) = bh_ref e → does (change_bh i f) c tt (two d k b i (f e)).
Proof.
  intros Ha Ho Ed H1 H2 H3. eapply does_eq; [apply (does_change _ _ i f c e); [done| |done..]|].
  - rewrite Ed, find_two by done. by rewrite decide_True.
  - rewrite Ed. unfold two. by rewrite map_put_put by (by apply map_put_ordered).
Qed.

Lemma does_split c k off b : acct c → shape (data c) → map_find (data c) k = Some b → k < off < bh_end b → data_ok b →
  does (split_bh k off) c off (split_data k off b (data c)).
Proof.
  intros Ha Hd Hf Hoff Hok. pose proof (split_start _ _ _ Hd Hf) as Es. pose proof (s_ord _ Hd) as Ho.
  destruct (s_head _ Hd _ _ Hf) as [_ H0 Hlen Hhi _ _]. unfold split_bh.
  apply (does_get_bind rest orest _ _ _ b); [done|]. cbv zeta.
  pose proof (a_pin rest orest c Ha _ _ Hf) as Hpin. unfold bh_end in Hhi, Hoff.
  set (r0 := set_waiters [] (set_bl [] (right_of off b))). set (l0 := set_length (off - bh_start b) b). set (n := off - bh_start b) in *.
  apply (does_lift_bind rest orest _ _ _ r0).
  { rewrite set_state_ok by done. unfold r0, right_of, set_ref_state, set_waiters, set_bl. cbn. rewrite Hpin. do 2 f_equal. unfold bh_end, n. lia. }
  eapply does_bind; [by apply does_resize|]. intros c1 E1 Ha1 _.
  eapply does_bind; [apply does_add; [done| |done]|].
  { rewrite E1, map_find_put by done. cbn. rewrite decide_False by lia. apply (split_free (data c) k off b Hd Hf). unfold bh_end. lia. }
  intros c2 E2 Ha2 _. rewrite E1 in E2. change (data c2 = two (data c) k l0 off r0) in E2.
  assert (k ≠ off) as Hne by lia.
  eapply (does_bind rest orest _ _ _ _ (two (data c) k (set_bl (take (Z.to_nat n) (bh_bl b)) l0) off (set_bl (drop (Z.to_nat n) (bh_bl b)) r0))).
  { destruct (bool_decide (bh_bl b = [])) eqn:Eb; cbn [negb].
    - apply bool_decide_eq_true in Eb. eapply does_eq; [by apply does_ret|]. rewrite E2. unfold two. rewrite Eb, take_nil, drop_nil. f_equal. f_equal. unfold l0, set_bl, set_length. cbn. by rewrite Eb.
    - apply bool_decide_eq_false in Eb. assert (Z.of_nat (length (bh_bl b)) = bh_length b) as Hl by (unfold data_ok in Hok; by destruct (has_data _)).
      assert (bh_length r0 = bh_length b - n) as Er by (unfold r0, n; cbn; unfold bh_end; lia).
      apply does_assert_bind; [apply Z.eqb_eq; lia|]. unfold limit in *.
      apply (does_lift_bind rest orest _ _ _ (drop (Z.to_nat n) (bh_bl b))).
      { rewrite substr_of_ok by (unfold limit; lia). f_equal. apply take_ge. rewrite length_drop. lia. }
      apply (does_lift_bind rest orest _ _ _ (take (Z.to_nat n) (bh_bl b))); [by rewrite substr_of_ok by (unfold limit; lia)|].
      eapply does_bind; [by apply (does_change_second _ _ (data c) k l0 off r0)|]. intros c3 E3 Ha3 _.
      by apply (does_change_first _ _ (data c) k l0 off). }
  intros c3 E3 Ha3 _. eapply does_bind; [by eapply (does_change_second _ c3 (data c) k _ off _ Ha3 Ho E3)|]. intros c4 E4 Ha4 _.
  eapply does_bind; [by eapply (does_change_first _ c4 (data c) k _ off _ Ha4 Ho Hne E4)|]. intros c5 E5 Ha5 _.
  eapply does_eq; [by apply does_ret|]. rewrite E5. done.
Qed.
End does.

(** ** Merging *)

Lemma splice_ok (l r : list (Z * list Z)) : ordered l → ordered r →
  ordered (splice_waiters l r) ∧ ∀ o, map_find (splice_waiters l r) o =
    match map_find r o with Some w => Some (w ++ default [] (map_find l o)) | None => map_find l o end.
Proof.
  unfold splice_waiters. revert l. induction r as [|[i w] r IH]; intros l Hl Hr; [done|]. unfold ordered in Hr. apply StronglySorted_inv in Hr as [Hr Hi]. fold (keys r) in Hr, Hi. simpl.
  destruct (IH (map_put l i (w ++ default [] (map_find l i)))) as [Ho Hf]; [by apply map_put_ordered|done|]. split; [done|]. intros o. rewrite Hf.
  rewrite map_find_put by done. destruct (Z.eqb_spec i o) as [->|Hn].
  - assert (map_find r o = None) as ->; [|by rewrite decide_True]. apply map_find_None. intros Hin. rewrite Forall_forall in Hi. by apply (Z.lt_irrefl o), Hi.
  - by rewrite decide_False by congruence.
Qed.

Definition merged (l r : BufferHead) : BufferHead :=
  MkBH (bh_state l) (bh_ref l) (bh_start l) (bh_length l + bh_length r) (if bh_dontneed r then bh_dontneed l else false) (bh_bl l ++ bh_bl r)
    (Z.max (bh_last_write_tid l) (bh_last_write_tid r)) (bh_last_read_tid l) (Z.max (bh_last_write l) (bh_last_write r)) (bh_snapc l) (bh_error l)
    (splice_waiters (bh_waitfor_read l) (bh_waitfor_read r)).
Definition merge_data (lk rk : Z) (l r : BufferHead) d : buffers := map_put (map_del d rk) lk (merged l r).

Section merge.
Context d lk rk l r (Hd : shape d) (Hl : map_find d lk = Some l) (Hr : map_find d rk = Some r) (Hend : bh_end l = bh_start r).

Lemma merge_order : lk < rk ∧ bh_start l = lk ∧ bh_start r = rk ∧ bh_end l = rk.
Proof using Hd Hl Hr Hend.
  destruct (s_head d Hd _ _ Hl) as [E1 _ Hlen _ _ _], (s_head d Hd _ _ Hr) as [E2 _ _ _ _ _]. unfold bh_end in *. lia.
Qed.
Lemma find_merge i : map_find (merge_data lk rk l r d) i = if decide (i = lk) then Some (merged l r) else if decide (i = rk) then None else map_find d i.
Proof using Hd. unfold merge_data. rewrite map_find_put by apply map_del_ordered, Hd. case_decide; [done|]. by rewrite map_find_del. Qed.
Lemma find_merge_cases i e : map_find (merge_data lk rk l r d) i = Some e → i = lk ∧ e = merged l r ∨ i ≠ lk ∧ i ≠ rk ∧ map_find d i = Some e.
Proof using Hd. rewrite find_merge. case_decide; [intros [= <-]; by left|]. case_decide; [done|]. by right. Qed.

Lemma merged_end : bh_end (merged l r) = bh_end r.
Proof using Hend. unfold bh_end in *. cbn. lia. Qed.

Lemma waiters_disjoint o : map_find (bh_waitfor_read (merged l r)) o = if o <? rk then map_find (bh_waitfor_read l) o else map_find (bh_waitfor_read r) o.
Proof using Hd Hl Hr Hend.
  destruct merge_order as (Hlt & E1 & E2 & E3). destruct (s_head d Hd _ _ Hl) as [_ _ _ _ Hwl Hil], (s_head d Hd _ _ Hr) as [_ _ _ _ Hwr Hir].
  cbn. destruct (splice_ok _ _ Hwl Hwr) as [_ ->]. destruct (Z.ltb_spec o rk).
  - assert (map_find (bh_waitfor_read r) o = None) as ->; [|done]. apply map_find_None. intros Hin. specialize (Hir o Hin). lia.
  - assert (map_find (bh_waitfor_read l) o = None) as ->; [|destruct (map_find _ o); [by rewrite app_nil_r|done]]. apply map_find_None. intros Hin. specialize (Hil o Hin). lia.
Qed.

Lemma merged_ok : head_ok lk (merged l r).
Proof using Hd Hl Hr Hend.
  destruct merge_order as (Hlt & E1 & E2 & E3). destruct (s_head d Hd _ _ Hl) as [_ H0 Hlen _ Hwl Hil], (s_head d Hd _ _ Hr) as [_ _ Hlr Hhi Hwr Hir].
  constructor; [done|done|cbn; lia|by rewrite merged_end|by apply splice_ok|]. rewrite merged_end. intros o Ho%map_find_in. rewrite waiters_disjoint in Ho. unfold bh_end in *.
  destruct (Z.ltb_spec o rk); apply map_find_in in Ho; [specialize (Hil o Ho)|specialize (Hir o Ho)]; lia.
Qed.

Lemma shape_merge : shape (merge_data lk rk l r d).
Proof using Hd Hl Hr Hend.
  destruct merge_order as (Hlt & E1 & E2 & E3). pose proof (s_apart d Hd) as Ha. constructor.
  - apply map_put_ordered, map_del_ordered, Hd.
  - intros i e [[-> ->]|(_ & _ & Hi)]%find_merge_cases; [apply merged_ok|by apply Hd].
  - intros i e j e' [[-> ->]|(Hi1 & Hi2 & Hi)]%find_merge_cases [[-> ->]|(Hj1 & Hj2 & Hj)]%find_merge_cases Hij; [lia| | |by apply (Ha _ _ _ _ Hi Hj)].
    + rewrite merged_end. apply (Ha _ _ _ _ Hr Hj). pose proof (Ha _ _ _ _ Hl Hj Hij). lia.
    + by apply (Ha _ _ _ _ Hi Hl).
Qed.

Context (Hst : bh_state l = bh_state r).

Lemma data_ok_merged : data_ok l → data_ok r → data_ok (merged l r).
Proof using Hst. unfold data_ok. cbn. rewrite <- Hst. destruct (has_data (bh_state l)); [rewrite length_app; lia|]. by intros -> ->. Qed.

Lemma filled_merge : filled d → filled (merge_data lk rk l r d).
Proof using Hd Hl Hr Hst.
  intros Hfi i e [[-> ->]|(_ & _ & Hi)]%find_merge_cases; [|by apply (Hfi i)]. by apply data_ok_merged; [apply (Hfi lk)|apply (Hfi rk)].
Qed.

Context (Hpin : pins (bh_state l) = false) (Hdl : data_ok l) (Hdr : data_ok r).

Lemma merged_cells x : lk <= x < bh_end r → cell_of (merged l r) x = cell_of (if x <? rk then l else r) x.
Proof using Hd Hl Hr Hend Hst Hpin Hdl Hdr.
  intros Hx. destruct merge_order as (Hlt & E1 & E2 & E3). unfold cell_of. rewrite waiters_disjoint.
  assert (tag (merged l r) = tag (if x <? rk then l else r)) as ->.
  { assert (∀ b, pins (bh_state b) = false → tag b = 0) as Ht by (intros e; unfold tag; by destruct (bh_state e)).
    rewrite !Ht; [done|destruct (x <? rk); [done|by rewrite <- Hst]|done]. }
  assert (byte_of (merged l r) x = byte_of (if x <? rk then l else r) x) as ->; [|destruct (x <? rk); cbn; by rewrite ?Hst].
  unfold byte_of, data_ok, bh_end in *. cbn. rewrite <- Hst in Hdr.
  assert (∀ l', has_data (bh_state l) = true → bh_bl l' = bh_bl (if x <? rk then l else r) → bh_start l' = bh_start (if x <? rk then l else r) →
      (bh_bl l ++ bh_bl r) !! Z.to_nat (x - bh_start l) = bh_bl l' !! Z.to_nat (x - bh_start l')) as Hb.
  { intros l' Hh -> ->. rewrite Hh in Hdl, Hdr. destruct (Z.ltb_spec x rk).
    - apply lookup_app_l. lia.
    - rewrite lookup_app_r by lia. f_equal. lia. }
  destruct (x <? rk); rewrite <- ?Hst; destruct (bh_state l); try done; by apply Hb.
Qed.

Lemma view_merge x : view (merge_data lk rk l r d) x = view d x.
Proof using Hd Hl Hr Hend Hst Hpin Hdl Hdr.
  pose proof shape_merge as Hd'. destruct merge_order as (Hlt & E1 & E2 & E3). unfold view.
  destruct (decide (lk <= x < bh_end r)) as [Hx|Hx].
  - rewrite (head_at_find _ lk (merged l r) x Hd'); [|by rewrite find_merge, decide_True|by rewrite merged_end].
    cbn. rewrite (merged_cells x Hx). destruct (Z.ltb_spec x rk).
    + rewrite (head_at_find d lk l x Hd Hl); [done|]. lia.
    + rewrite (head_at_find d rk r x Hd Hr); [done|]. lia.
  - destruct (head_at d x) as [e|] eqn:E.
    + apply head_at_spec in E as [He Hxe]; [|done]. rewrite (head_at_find _ (bh_start e) e x Hd'); [done| |done]. rewrite find_merge.
      destruct (s_head d Hd _ _ Hr) as [_ _ Hlr _ _ _]. unfold bh_end in *.
      rewrite decide_False; [rewrite decide_False; [done|]|]; intros E'; rewrite E' in *; [rewrite Hr in He|rewrite Hl in He]; injection He as <-; lia.
    + rewrite (proj2 (head_at_none _ x Hd')); [done|]. intros i e [[-> ->]|(_ & _ & Hi)]%find_merge_cases; [by rewrite merged_end|].
      by apply (proj1 (head_at_none d x Hd) E).
Qed.
End merge.

Section does_merge.
Context (rest : bhstate → Z) (orest : Z).
Abbreviation does := (does rest orest).
Abbreviation acct := (acct rest orest).

(** A head put in a map, and changed. *)
Lemma does_change_last f c d k b : acct c → ordered d → data c = map_put d k b →
  bh_state (f b) = bh_state b → bh_length (f b) = bh_length b → bh_ref (f b) = bh_ref b → does (change_bh k f) c tt (map_put d k (f b)).
Proof.
  intros Ha Ho Ed H1 H2 H3. eapply does_eq; [apply (does_change _ _ k f c b); [done| |done..]|].
  - rewrite Ed, map_find_put by done. by rewrite decide_True.
  - rewrite Ed. by rewrite map_put_put.
Qed.

Lemma does_merge_left c lk rk l r : acct c → ordered (data c) → lk ≠ rk → map_find (data c) lk = Some l → map_find (data c) rk = Some r → bh_end l = bh_start r → bh_state l = bh_state r →
  does (merge_left lk rk) c tt (merge_data lk rk l r (data c)).
Proof.
  intros Ha Ho Hne Hl Hr Hend Hst. unfold merge_left.
  apply (does_get_bind rest orest _ _ _ l); [done|]. apply (does_get_bind rest orest _ _ _ r); [done|].
  apply does_assert_bind; [by apply Z.eqb_eq|]. apply does_assert_bind; [by apply bool_decide_eq_true|].
  eapply does_bind; [by apply (does_remove _ _ rk r)|]. intros c1 E1 Ha1 _. pose proof (map_del_ordered (data c) rk Ho) as Ho1.
  eapply does_bind; [apply (does_resize _ _ lk _ _ l); [done|]|].
  { rewrite E1, map_find_del. by rewrite decide_False. }
  intros c2 E2 Ha2 _. rewrite E1 in E2.
  eapply does_bind; [by eapply (does_change_last _ c2 (map_del (data c) rk) lk _ Ha2 Ho1 E2)|]. intros c3 E3 Ha3 _.
  eapply does_bind; [by eapply (does_change_last _ c3 (map_del (data c) rk) lk _ Ha3 Ho1 E3)|]. intros c4 E4 Ha4 _.
  eapply does_bind; [by eapply (does_change_last _ c4 (map_del (data c) rk) lk _ Ha4 Ho1 E4)|]. intros c5 E5 Ha5 _.
  eapply does_bind; [by eapply (does_change_last _ c5 (map_del (data c) rk) lk _ Ha5 Ho1 E5)|]. intros c6 E6 Ha6 _.
  eapply does_eq; [by eapply (does_change_last _ c6 (map_del (data c) rk) lk _ Ha6 Ho1 E6)|]. done.
Qed.

(** Merging with the neighbours shows nothing and keeps the shape. *)
Definition same_view d d' : Prop := shape d' ∧ filled d' ∧ ∀ x, view d' x = view d x.

Lemma merge_same_view d lk rk l r : shape d → filled d → map_find d lk = Some l → map_find d rk = Some r → bh_end l = bh_start r → bh_state l = bh_state r →
  pins (bh_state l) = false → same_view d (merge_data lk rk l r d).
Proof.
  intros Hd Hfi Hl Hr He Hs Hp. split; [by apply shape_merge|]. split; [by apply filled_merge|]. intros x. apply view_merge; try done; [by apply (Hfi lk)|by apply (Hfi rk)].
Qed.

Lemma does_merge_after c k b : acct c → shape (data c) → filled (data c) → map_find (data c) k = Some b → pins (bh_state b) = false →
  ∃ d', does (try_merge_after k) c tt d' ∧ same_view (data c) d'.
Proof.
  intros Ha Hd Hfi Hf Hpin.
  assert (does (try_merge_after k) c tt (data c) → ∃ d', does (try_merge_after k) c tt d' ∧ same_view (data c) d') as Hsame by (intros Hm; by exists (data c)).
  unfold try_merge_after in *. destruct (after (data c) k) as [r|] eqn:Er; cycle 1.
  - apply Hsame. apply (does_get_bind rest orest _ _ _ b); [done|]. apply does_gets_bind. rewrite Er. by apply does_ret.
  - destruct (lower_bound_some (data c) (k + 1) r (s_ord _ Hd) Er) as ([rb Hrb] & Hlt & _).
    destruct ((bh_start rb =? bh_end b) && bool_decide (bh_state rb = bh_state b)) eqn:Em; cycle 1.
    + apply Hsame. apply (does_get_bind rest orest _ _ _ b); [done|]. apply does_gets_bind. rewrite Er. apply (does_get_bind rest orest _ _ _ rb); [done|]. rewrite Em. by apply does_ret.
    + pose proof Em as Em'. apply andb_true_iff in Em' as [Ee%Z.eqb_eq Es%bool_decide_eq_true]. exists (merge_data k r b rb (data c)). split.
      * apply (does_get_bind rest orest _ _ _ b); [done|]. apply does_gets_bind. rewrite Er. apply (does_get_bind rest orest _ _ _ rb); [done|]. rewrite Em.
        apply does_merge_left; [done|apply Hd|lia|done|done|by symmetry|by symmetry].
      * by apply merge_same_view.
Qed.

Lemma does_merge_before c k b : acct c → shape (data c) → filled (data c) → map_find (data c) k = Some b → pins (bh_state b) = false →
  ∃ d' k' b', does (try_merge_before k) c k' d' ∧ same_view (data c) d' ∧ map_find d' k' = Some b' ∧ bh_state b' = bh_state b.
Proof.
  intros Ha Hd Hfi Hf Hpin. pose proof (s_ord _ Hd) as Ho.
  assert (does (try_merge_before k) c k (data c) → ∃ d' k' b', does (try_merge_before k) c k' d' ∧ same_view (data c) d' ∧ map_find d' k' = Some b' ∧ bh_state b' = bh_state b) as Hsame by (intros Hm; by exists (data c), k, b).
  unfold try_merge_before in *. destruct (before (data c) k) as [lk|] eqn:El; cycle 1.
  - apply Hsame. apply (does_get_bind rest orest _ _ _ b); [done|]. apply does_gets_bind. rewrite El. by apply does_ret.
  - destruct (before_some (data c) k lk Ho El) as ([lb Hlb] & Hlt & _).
    destruct ((bh_end lb =? bh_start b) && bool_decide (bh_state lb = bh_state b)) eqn:Em; cycle 1.
    + apply Hsame. apply (does_get_bind rest orest _ _ _ b); [done|]. apply does_gets_bind. rewrite El. apply (does_get_bind rest orest _ _ _ lb); [done|]. rewrite Em. by apply does_ret.
    + pose proof Em as Em'. apply andb_true_iff in Em' as [Ee%Z.eqb_eq Es%bool_decide_eq_true]. exists (merge_data lk k lb b (data c)), lk, (merged lb b). split_and!.
      * apply (does_get_bind rest orest _ _ _ b); [done|]. apply does_gets_bind. rewrite El. apply (does_get_bind rest orest _ _ _ lb); [done|]. rewrite Em.
        eapply does_bind; [apply (does_merge_left c lk k lb b); done || lia|]. intros c1 <- Ha1 _. by apply does_ret.
      * apply merge_same_view; try done. by rewrite Es.
      * rewrite find_merge by done. by rewrite decide_True.
      * done.
Qed.

Lemma same_view_trans d d1 d2 : same_view d d1 → same_view d1 d2 → same_view d d2.
Proof. intros (_ & _ & H1) (Hs & Hf & H2). split_and!; [done..|]. intros x. by rewrite H2. Qed.

Lemma does_try_merge c k b : acct c → shape (data c) → filled (data c) → map_find (data c) k = Some b → pins (bh_state b) = false →
  ∃ d', does (try_merge_bh k) c tt d' ∧ same_view (data c) d'.
Proof.
  intros Ha Hd Hfi Hf Hpin. assert (is_rx b = false) as Hrx by (unfold is_rx; by destruct (bh_state b)).
  destruct (does_merge_before c k b Ha Hd Hfi Hf Hpin) as (d1 & k1 & b1 & (c1 & E1 & Hd1 & Ha1 & Ho1) & Hv1 & Hf1 & Hs1).
  destruct (does_merge_after c1 k1 b1 Ha1) as (d2 & (c2 & E2 & Hd2 & Ha2 & Ho2) & Hv2); [by rewrite Hd1; apply Hv1|by rewrite Hd1; apply Hv1|by rewrite Hd1|by rewrite Hs1|].
  exists d2. rewrite Hd1 in Hv2. split; [|by eapply same_view_trans].
  apply (does_get_bind rest orest _ _ _ b); [done|]. rewrite Hrx. exists c2. split_and!; [|done|done|congruence]. unfold mbind, M_bind. by rewrite E1.
Qed.
End does_merge.
