(* ===== verification/CacherRead.v ===== *)
(** * Walks over a range of buffers: [is_cached], [map_read], [map_write] and [writex]

    [map_read] leaves every head as it is and adds one for each gap; it returns
    the heads of the range in their order, sorted by what can be read from
    them. *)

From stdpp Require Import sorting.
From S2P Require Import Prelude StdMap IntervalSet SnapSet OsdMapping Striper Cacher.
From S2P Require Import CacherSpec.

Implicit Types (d : buffers) (b e : BufferHead) (c : cache) (k x i : Z).

(** ** A head added or extended *)

Definition in_range (lo hi x : Z) : Prop := lo <= x < hi.
#[export] Instance in_range_dec lo hi x : Decision (in_range lo hi x).
Proof. unfold in_range. apply _. Defined.

(** No other head reaches into the range. *)
Definition clear_of d (k hi : Z) : Prop := ∀ i e, map_find d i = Some e → i = k ∨ bh_end e <= k ∨ hi <= i.

Lemma shape_put d k b : shape d → head_ok k b → clear_of d k (bh_end b) → shape (map_put d k b).
Proof.
  intros Hd Hb Hc. pose proof (s_ord d Hd) as Ho. constructor; [by apply map_put_ordered|..].
  - intros i e. rewrite map_find_put by done. case_decide as E; [intros [= <-]; by subst|apply Hd].
  - destruct Hb as [Es _ Hlen _ _ _]. intros i e j e' [[-> ->]|[E1 Hi]]%(find_put_cases _ _ _ _ _ Ho) [[-> ->]|[E2 Hj]]%(find_put_cases _ _ _ _ _ Ho) Hlt; [lia| | |].
    + destruct (Hc _ _ Hj) as [?|[?|?]]; [lia| |done]. destruct (s_head d Hd _ _ Hj) as [Es' _ Hlen' _ _ _]. unfold bh_end in *. lia.
    + destruct (Hc _ _ Hi) as [?|[?|?]]; [lia|done|]. unfold bh_end in *. lia.
    + by apply (s_apart d Hd _ _ _ _ Hi Hj).
Qed.

Lemma view_put d k b x : shape d → shape (map_put d k b) → (∀ b0, map_find d k = Some b0 → bh_end b0 <= bh_end b) →
  view (map_put d k b) x = if decide (in_range k (bh_end b) x) then Some (cell_of b x) else view d x.
Proof.
  intros Hd Hd' Hold. pose proof (s_ord d Hd) as Ho. unfold view, in_range. case_decide as Hx.
  - by rewrite (head_at_find _ k b x Hd'); [|by rewrite map_find_put, decide_True|].
  - destruct (head_at d x) as [e|] eqn:E.
    + apply head_at_spec in E as [He Hxe]; [|done]. rewrite (head_at_find _ (bh_start e) e x Hd'); [done| |done]. rewrite map_find_put by done.
      rewrite decide_False; [done|]. intros E'. rewrite E' in He, Hxe. specialize (Hold _ He). lia.
    + rewrite (proj2 (head_at_none _ x Hd')); [done|]. intros i e. rewrite map_find_put by done. case_decide; [intros [= <-]; by subst|].
      by apply (proj1 (head_at_none d x Hd) E).
Qed.
Lemma filled_put d k b : ordered d → filled d → data_ok b → filled (map_put d k b).
Proof. intros Ho Hf Hb i e. rewrite map_find_put by done. case_decide; [by intros [= <-]|apply Hf]. Qed.

(** A head removed. *)
Lemma shape_del d k : shape d → shape (map_del d k).
Proof.
  intros Hd. constructor; [apply map_del_ordered, Hd|..]; intros i e; rewrite map_find_del; (case_decide; [done|]); [apply Hd|].
  intros Hi j e'. rewrite map_find_del. case_decide; [done|]. by apply (s_apart _ Hd).
Qed.
Lemma filled_del d k : filled d → filled (map_del d k).
Proof. intros Hf i e. rewrite map_find_del. case_decide; [done|apply Hf]. Qed.
Lemma view_del d k b x : shape d → map_find d k = Some b → view (map_del d k) x = if decide (in_range k (bh_end b) x) then None else view d x.
Proof.
  intros Hd Hb. pose proof (shape_del d k Hd) as Hd'. unfold view, in_range. case_decide as Hx.
  - rewrite (proj2 (head_at_none _ x Hd')); [done|]. intros i e. rewrite map_find_del. case_decide as Hi; [done|]. intros He Hxe. by destruct (heads_meet d i e k b x Hd He Hb Hxe Hx).
  - destruct (head_at d x) as [e|] eqn:E.
    + apply head_at_spec in E as [He Hxe]; [|done]. rewrite (head_at_find _ (bh_start e) e x Hd'); [done| |done]. rewrite map_find_del, decide_False; [done|].
      intros E'. rewrite E', Hb in He. injection He as <-. destruct (s_head d Hd _ _ Hb) as [Es _ _ _ _ _]. lia.
    + rewrite (proj2 (head_at_none _ x Hd')); [done|]. intros i e. rewrite map_find_del. case_decide; [done|]. by apply (proj1 (head_at_none d x Hd) E).
Qed.

(** ** Positions *)

(** The iterator is at the first head that ends after [cur]. *)
Definition p_ok d (p : option Z) (cur : Z) : Prop :=
  match p with
  | Some k => ∃ b, map_find d k = Some b ∧ cur < bh_end b ∧ ∀ i e, map_find d i = Some e → cur < bh_end e → k <= i
  | None => ∀ i e, map_find d i = Some e → bh_end e <= cur
  end.

Lemma p_ok_lower_bound d off : shape d → p_ok d (data_lower_bound d off) off.
Proof.
  intros Hd. destruct (data_lower_bound d off) as [k|] eqn:E; simpl; [by apply data_lower_bound_some|by apply data_lower_bound_none].
Qed.
(** Past a head. *)
Lemma p_ok_after d k b : shape d → map_find d k = Some b → p_ok d (after d k) (bh_end b).
Proof.
  intros Hd Hf. pose proof (s_ord d Hd) as Ho. unfold after. destruct (lower_bound d (k + 1)) as [j|] eqn:E; simpl.
  - destruct (lower_bound_some d (k + 1) j Ho E) as ([e He] & Hlt & Hmin). exists e. destruct (s_head d Hd _ _ He) as [Es _ Hlen _ _ _].
    split_and!; [done|pose proof (s_apart d Hd _ _ _ _ Hf He ltac:(lia)); unfold bh_end in *; lia|]. intros i ei Hi Hlt'. apply Hmin; [by eexists|].
    destruct (Z.le_gt_cases (k + 1) i) as [|Hle]; [done|]. exfalso. destruct (Z.eq_dec i k) as [->|]; [rewrite Hf in Hi; injection Hi as <-; lia|].
    pose proof (s_apart d Hd _ _ _ _ Hi Hf ltac:(lia)). destruct (s_head d Hd _ _ Hf) as [Es' _ Hlen' _ _ _]. unfold bh_end in *. lia.
  - intros i ei Hi. pose proof (lower_bound_none d (k + 1) E i ltac:(by eexists)). destruct (Z.eq_dec i k) as [->|]; [rewrite Hf in Hi; injection Hi as <-; lia|].
    pose proof (s_apart d Hd _ _ _ _ Hi Hf ltac:(lia)). destruct (s_head d Hd _ _ Hf) as [Es' _ Hlen' _ _ _]. unfold bh_end in *. lia.
Qed.

(** The turns left: two for each head from the iterator on, one for a last gap. *)
Definition heads_from d k : nat := length (filter (λ a : Z * BufferHead, k <= a.1) d).
Definition turns d (p : option Z) (cur : Z) : nat :=
  match p with None => 1 | Some k => (2 * heads_from d k + (if (k <=? cur)%Z then 0 else 1))%nat end.

Lemma filter_incl_length (P Q : Z * BufferHead → Prop) `{∀ a, Decision (P a), ∀ a, Decision (Q a)} d :
  (∀ a, P a → Q a) → (length (filter P d) <= length (filter Q d))%nat.
Proof.
  intros HPQ. unfold buffers in *. induction d as [|a d IH]; [done|]. rewrite !filter_cons. repeat case_decide; simpl; [lia|naive_solver|lia|lia].
Qed.
Lemma heads_from_after d k b : ordered d → map_find d k = Some b → ∀ j, k < j → (S (heads_from d j) <= heads_from d k)%nat.
Proof.
  unfold heads_from, ordered, buffers in *. induction d as [|[i e] d IH]; [done|]. intros Ho Hf j Hj. apply StronglySorted_inv in Ho as [Ho Hi]. simpl in Hf.
  rewrite !filter_cons. simpl. destruct (Z.eqb_spec i k) as [->|Hn].
  - rewrite decide_False, decide_True by lia. simpl. apply le_n_S, filter_incl_length. intros a. lia.
  - specialize (IH Ho Hf j Hj). repeat case_decide; simpl; lia.
Qed.
Lemma heads_from_le d k : (heads_from d k <= length d)%nat.
Proof. unfold heads_from. apply length_filter. Qed.

Lemma turns_after d k b cur cur' : shape d → map_find d k = Some b → k <= cur → (S (turns d (after d k) cur') <= turns d (Some k) cur)%nat.
Proof.
  intros Hd Hf Hle. pose proof (s_ord d Hd) as Ho. simpl. rewrite (proj2 (Z.leb_le _ _)) by done.
  destruct (after d k) as [j|] eqn:E; simpl.
  - destruct (lower_bound_some d (k + 1) j Ho E) as ([e He] & Hlt & _). pose proof (heads_from_after d k b Ho Hf j ltac:(lia)). destruct (j <=? cur'); lia.
  - pose proof (heads_from_after d k b Ho Hf (k + 1) ltac:(lia)). lia.
Qed.
Lemma turns_start d p cur : (turns d p cur <= walk_fuel d)%nat.
Proof. unfold turns, walk_fuel. destruct p as [k|]; [|lia]. pose proof (heads_from_le d k). destruct (k <=? cur); lia. Qed.

(** A head put below the iterator does not count. *)
Lemma heads_from_put d k j b : ordered d → j < k → heads_from (map_put d j b) k = heads_from d k.
Proof.
  unfold heads_from, ordered, buffers in *. intros Ho Hlt. induction d as [|[i e] d IH].
  - unfold map_put. rewrite filter_cons. simpl. by rewrite decide_False by lia.
  - apply StronglySorted_inv in Ho as [Ho Hi]. unfold map_put; fold (@map_put BufferHead). destruct (Z.ltb_spec i j).
    + rewrite !filter_cons. specialize (IH Ho). simpl. case_decide; simpl; lia.
    + destruct (Z.eqb_spec i j) as [->|]; rewrite !filter_cons; simpl; rewrite ?(decide_False (P := k <= j)) by lia; done.
Qed.

(** ** [is_cached] *)

Lemma is_cached_ok d fuel p cur left : shape d → p_ok d p cur → 0 <= left → (turns d p cur <= fuel)%nat →
  ∃ r, is_cached_loop fuel d p cur left = Ok r ∧ (r = true ↔ ∀ x, cur <= x < cur + left → is_Some (head_at d x)).
Proof.
  intros Hd. revert p cur left. induction fuel as [|fuel IH]; intros p cur left Hp Hl Hf.
  - exfalso. destruct p as [k|]; simpl in Hf; [|lia]. destruct Hp as (b & Hb & _). pose proof (heads_from_after d k b (s_ord d Hd) Hb (k + 1) ltac:(lia)). lia.
  - cbn [is_cached_loop]. destruct (Z.leb_spec left 0) as [H0|H0]; [exists true; split; [done|]; split; [intros _ x Hx; lia|done]|].
    destruct p as [k|]; simpl in Hp.
    + destruct Hp as (b & Hb & Hlt & Hmin). destruct (Z.leb_spec k cur) as [Hle|Hgt].
      * rewrite Hb. set (n := Z.min (bh_end b - cur) left).
        destruct (decide (left - n = 0)) as [E0|E0].
        -- exists true. assert (∀ f, is_cached_loop f d (after d k) (cur + n) (left - n) = Ok true) as Ef by (intros f; rewrite E0; by destruct f).
           split; [apply Ef|]. split; [|done]. intros _ x Hx. exists b. apply (head_at_find d k b x Hd Hb). lia.
        -- assert (n = bh_end b - cur) as En by lia. destruct (IH (after d k) (cur + n) (left - n)) as (r & E & Hr).
           ++ replace (cur + n) with (bh_end b) by lia. by apply p_ok_after.
           ++ lia.
           ++ pose proof (turns_after d k b cur (cur + n) Hd Hb Hle). lia.
           ++ exists r. split; [done|]. rewrite Hr. split; intros Hall x Hx; [|apply Hall; lia].
              destruct (Z.lt_ge_cases x (bh_end b)); [exists b; apply (head_at_find d k b x Hd Hb); lia|apply Hall; lia].
      * exists false. split; [done|]. split; [done|]. intros Hall. destruct (Hall cur ltac:(lia)) as [e He]. apply head_at_spec in He as [He Hx]; [|done].
        specialize (Hmin _ _ He ltac:(lia)). lia.
    + exists false. split; [done|]. split; [done|]. intros Hall. destruct (Hall cur ltac:(lia)) as [e He]. apply head_at_spec in He as [He Hx]; [|done].
      specialize (Hp _ _ He). lia.
Qed.

(** ** [map_read] *)

(** The heads of a range, each at the first offset of the range it holds. *)
Fixpoint chain d (cur stop : Z) (l : list (Z * Z)) : Prop :=
  match l with
  | [] => stop <= cur
  | (o, k) :: l => o = cur ∧ cur < stop ∧ ∃ b, map_find d k = Some b ∧ k <= cur < bh_end b ∧ chain d (Z.min (bh_end b) stop) stop l
  end.

Definition state_at d (k : Z) : bhstate := match map_find d k with Some b => bh_state b | None => STATE_MISSING end.
Definition readable (s : bhstate) : bool := match s with STATE_CLEAN | STATE_DIRTY | STATE_TX | STATE_ZERO => true | _ => false end.
Definition pick d (f : bhstate → bool) (l : list (Z * Z)) : list (Z * Z) := filter (λ a, f (state_at d a.2) = true) l.

(** The heads found so far, and those of [l]. *)
Definition mapped_with d (m : mapped) (l : list (Z * Z)) : mapped :=
  Mapped (hits m ++ pick d readable l) (missing m ++ pick d (λ s, bool_decide (s = STATE_MISSING)) l)
    (rx m ++ pick d (λ s, bool_decide (s = STATE_RX)) l) (errors m ++ pick d (λ s, bool_decide (s = STATE_ERROR)) l).
Definition mapped_below (m : mapped) (cur : Z) : Prop :=
  ∀ o, o ∈ keys (hits m) ∨ o ∈ keys (missing m) ∨ o ∈ keys (rx m) ∨ o ∈ keys (errors m) → o < cur.

(** What a gap is filled with. *)
Definition gap_head (co : bool) (cur len : Z) : BufferHead := if co then to_state STATE_ZERO (new_bh cur len) else new_bh cur len.
Definition gap_cell (co : bool) : bhstate * Z * option Z * option (list Z) := if co then (STATE_ZERO, 0, Some 0, None) else (STATE_MISSING, 0, None, None).

(** Every head is kept as it is. *)
Definition keeps d d' : Prop := ∀ i e, map_find d i = Some e → map_find d' i = Some e.

Definition read_view (co : bool) (cur stop : Z) d d' : Prop :=
  ∀ x, view d' x = if decide (in_range cur stop x ∧ view d x = None) then Some (gap_cell co) else view d x.

Lemma read_view_trans co cur mid stop d d1 d2 : cur <= mid <= stop → read_view co cur mid d d1 → read_view co mid stop d1 d2 → read_view co cur stop d d2.
Proof.
  intros Hm H1 H2 x. rewrite H2. rewrite H1. unfold in_range in *. destruct (view d x) as [v|].
  - rewrite (decide_False (P := cur <= x < mid ∧ _)) by (by intros [_ ?]). by rewrite !decide_False by (by intros [_ ?]).
  - destruct (decide (cur <= x < mid)) as [Hx|Hx].
    + rewrite (decide_True (P := cur <= x < mid ∧ _)) by done. rewrite decide_False by (by intros [_ ?]). rewrite decide_True; [done|]. split; [lia|done].
    + rewrite (decide_False (P := cur <= x < mid ∧ _)) by tauto. apply decide_ext. split; (intros [? _]; split; [lia|done]).
Qed.

Lemma map_put_end (m : list (Z * Z)) o k : (∀ i, i ∈ keys m → i < o) → map_put m o k = m ++ [(o, k)].
Proof. intros H. apply map_put_last. apply Forall_forall. done. Qed.

Lemma gap_ok co cur len : 0 <= cur → 0 < len → cur + len < limit → head_ok cur (gap_head co cur len) ∧ bh_end (gap_head co cur len) = cur + len ∧
  data_ok (gap_head co cur len) ∧ (∀ x, cell_of (gap_head co cur len) x = gap_cell co) ∧ bh_state (gap_head co cur len) = (if co then STATE_ZERO else STATE_MISSING).
Proof.
  intros H0 Hlen Hhi. assert (bh_end (gap_head co cur len) = cur + len) as E by (by destruct co).
  split_and!; [|done|by destruct co|by destruct co|by destruct co].
  constructor; [by destruct co|done|by destruct co|by rewrite E|destruct co; constructor|destruct co; by intros o ?%elem_of_nil].
Qed.

Section map_read.
Context (rest : bhstate → Z) (orest : Z).
Abbreviation does := (does rest orest).
Abbreviation acct := (acct rest orest).

Lemma does_map_gap c cur len m : acct c → map_find (data c) cur = None →
  does (map_gap cur len m) c (if complete c then add_hit cur cur m else add_missing cur cur m) (map_put (data c) cur (gap_head (complete c) cur len)).
Proof.
  intros Ha Hn. pose proof (a_ord _ _ _ Ha) as Ho. unfold map_gap. eapply does_bind; [by apply (does_add _ _ (new_bh cur len))|]. cbn [bh_start new_bh].
  intros c1 E1 Ha1 Ho1. apply does_gets_bind. assert (complete c1 = complete c) as -> by (by injection Ho1). destruct (complete c).
  - eapply does_bind; [apply (does_set_state _ _ cur STATE_ZERO c1 (new_bh cur len)); [done|]|].
    { by rewrite E1, map_find_put, decide_True. }
    intros c2 E2 Ha2 _. eapply does_eq; [by apply does_ret|]. rewrite E2, E1. by rewrite map_put_put.
  - eapply does_eq; [by apply does_ret|]. done.
Qed.

(** Cutting the first head of a chain. *)
Lemma pick_cons d f o k l : pick d f ((o, k) :: l) = (if f (state_at d k) then [(o, k)] else []) ++ pick d f l.
Proof. unfold pick. rewrite filter_cons. simpl. destruct (f (state_at d k)); by case_decide. Qed.

Lemma mapped_cons d m o k l : mapped_below m o →
  mapped_with d m ((o, k) :: l) =
  mapped_with d (match state_at d k with
    | STATE_MISSING => add_missing o k m | STATE_RX => add_rx o k m | STATE_ERROR => add_error o k m | _ => add_hit o k m end) l.
Proof.
  intros Hb. unfold mapped_with. rewrite !pick_cons. unfold add_hit, add_missing, add_rx, add_error.
  destruct (state_at d k); cbn; rewrite map_put_end by (intros i Hi; apply Hb; tauto); by rewrite <- app_assoc.
Qed.
Lemma mapped_below_add m o k cur s : mapped_below m o → o < cur →
  mapped_below (match s with STATE_MISSING => add_missing o k m | STATE_RX => add_rx o k m | STATE_ERROR => add_error o k m | _ => add_hit o k m end) cur.
Proof.
  intros Hb Hlt i Hi. assert (i = o ∨ i ∈ keys (hits m) ∨ i ∈ keys (missing m) ∨ i ∈ keys (rx m) ∨ i ∈ keys (errors m)) as [->|H']; [|done|specialize (Hb i H'); lia].
  destruct s; cbn [hits missing rx errors add_hit add_missing add_rx add_error] in Hi; rewrite map_put_keys in Hi; tauto.
Qed.

Lemma clear_gap d p cur hi : shape d → p_ok d p cur → (∀ k, p = Some k → hi <= k) → clear_of d cur hi.
Proof.
  intros Hd Hp Hhi i e Hi. destruct (Z.le_gt_cases (bh_end e) cur) as [|Hlt]; [by right; left|]. right; right. destruct p as [k|]; simpl in Hp.
  - destruct Hp as (b & _ & _ & Hmin). specialize (Hhi k eq_refl). specialize (Hmin i e Hi Hlt). lia.
  - specialize (Hp i e Hi). lia.
Qed.
Lemma clear_none d cur hi : shape d → clear_of d cur hi → cur < hi → (∀ b, map_find d cur = Some b → False) → ∀ x, cur <= x < hi → view d x = None.
Proof.
  intros Hd Hc Hlt Hn x Hx. unfold view. rewrite (proj2 (head_at_none d x Hd)); [done|]. intros i e Hi Hxe.
  destruct (Hc i e Hi) as [->|[?|?]]; [by apply (Hn e)|lia|lia].
Qed.

(** The state of the walk. *)
Record read_inv (c : cache) (p : option Z) (cur left : Z) : Prop := ReadInv {
  r_acct : acct c;
  r_shape : shape (data c);
  r_filled : filled (data c);
  r_p : 0 < left → p_ok (data c) p cur;
  r_cur : 0 <= cur;
  r_left : 0 <= left;
  r_hi : cur + left < limit;
  r_known : ∀ i e, map_find (data c) i = Some e → cur < bh_end e → bh_state e ≠ STATE_MISSING;
}.

Definition read_post c (cur stop : Z) (m : mapped) (m' : mapped) d' : Prop :=
  shape d' ∧ filled d' ∧ keeps (data c) d' ∧ read_view (complete c) cur stop (data c) d' ∧
  ∃ l, chain d' cur stop l ∧ m' = mapped_with d' m l.

Lemma keeps_state d d' k b : keeps d d' → map_find d k = Some b → state_at d' k = bh_state b.
Proof. intros Hk Hf. unfold state_at. by rewrite (Hk _ _ Hf). Qed.

(** One head more at the front. *)
Lemma read_post_cons c c1 cur stop m o k b d' m' m1 : shape (data c) → complete c1 = complete c →
  keeps (data c) (data c1) → map_find (data c1) k = Some b → k <= cur < bh_end b → cur < stop → mapped_below m cur →
  read_view (complete c) cur (Z.min (bh_end b) stop) (data c) (data c1) →
  o = cur → m1 = match bh_state b with STATE_MISSING => add_missing o k m | STATE_RX => add_rx o k m | STATE_ERROR => add_error o k m | _ => add_hit o k m end →
  read_post c1 (Z.min (bh_end b) stop) stop m1 m' d' → read_post c cur stop m m' d'.
Proof.
  intros Hd Hco Hk Hf Hkb Hst Hm Hv -> -> (Hs' & Hf' & Hk' & Hv' & l & Hl & ->). split; [done|]. split; [done|]. split; [intros i e Hi; by apply Hk', Hk|]. split.
  - eapply read_view_trans; [|exact Hv|rewrite <- Hco; exact Hv']. lia.
  - exists ((cur, k) :: l). split; [|rewrite mapped_cons by done; by rewrite (keeps_state _ _ _ _ Hk' Hf)]. simpl. split; [done|]. split; [done|].
    exists b. split; [by apply Hk'|done].
Qed.

Lemma read_post_nil c cur m : shape (data c) → filled (data c) → read_post c cur cur m m (data c).
Proof.
  intros Hd Hf. split; [done|]. split; [done|]. split; [by intros ? ? ?|]. split.
  - intros x. rewrite decide_False; [done|]. unfold in_range. intros [? _]. lia.
  - exists []. split; [simpl; lia|]. unfold mapped_with, pick. simpl. rewrite !app_nil_r. by destruct m.
Qed.

Lemma covered_view d k b co lo hi : shape d → map_find d k = Some b → k <= lo → hi <= bh_end b → read_view co lo hi d d.
Proof.
  intros Hd Hf Hlo Hhi x. rewrite decide_False; [done|]. unfold in_range, view. intros [Hx Hn]. rewrite (head_at_find d k b x Hd Hf) in Hn by lia. done.
Qed.

Lemma add_of_state (co : bool) (m : mapped) (o k : Z) s : s = (if co then STATE_ZERO else STATE_MISSING) →
  (if co then add_hit o k m else add_missing o k m) =
  match s with STATE_MISSING => add_missing o k m | STATE_RX => add_rx o k m | STATE_ERROR => add_error o k m | _ => add_hit o k m end.
Proof. intros ->. by destruct co. Qed.

(** A gap up to [cur + len]. *)
Lemma read_gap c p cur len left m : read_inv c p cur left → 0 < len <= left → (∀ k, p = Some k → cur + len <= k ∧ (len = left ∨ cur + len = k)) → (p = None → len = left) → mapped_below m cur →
  ∃ m1 c1, map_gap cur len m c = Ok (m1, c1) ∧ other c1 = other c ∧ read_inv c1 p (cur + len) (left - len) ∧ mapped_below m1 (cur + len) ∧
    (∀ m' d', read_post c1 (cur + len) (cur + left) m1 m' d' → read_post c cur (cur + left) m m' d') ∧
    (∀ k, p = Some k → left - len = 0 ∨ (turns (data c1) p (cur + len) + 1 = turns (data c) p cur)%nat).
Proof.
  intros [Ha Hd Hfi Hp0 H0 Hl Hhi Hkn] Hlen Hk Hno Hm. pose proof (Hp0 ltac:(lia)) as Hp. pose proof (s_ord _ Hd) as Ho.
  assert (clear_of (data c) cur (cur + len)) as Hclr by (apply (clear_gap _ p); [done..|intros k Ek; by apply Hk]).
  assert (map_find (data c) cur = None) as Hfree.
  { destruct (map_find (data c) cur) as [e|] eqn:E; [|done]. exfalso. destruct (s_head _ Hd _ _ E) as [Es _ Hle _ _ _].
    assert (cur < bh_end e) as Hlt by (unfold bh_end; lia). destruct p as [k|]; simpl in Hp.
    - destruct Hp as (b & _ & _ & Hmin). specialize (Hmin _ _ E Hlt). destruct (Hk k eq_refl). lia.
    - specialize (Hp _ _ E). lia. }
  destruct (gap_ok (complete c) cur len H0 ltac:(lia) ltac:(lia)) as (Hgh & Hge & Hgd & Hgc & Hgs). set (g := gap_head (complete c) cur len) in *.
  destruct (does_map_gap c cur len m Ha Hfree) as (c1 & E1 & Hd1 & Ha1 & Ho1). fold g in Hd1.
  eexists _, c1. split; [exact E1|]. split; [done|].
  assert (shape (data c1)) as Hs1 by (rewrite Hd1; apply shape_put; [done..|by rewrite Hge]).
  assert (keeps (data c) (data c1)) as Hkp.
  { intros i e Hi. rewrite Hd1, map_find_put by done. case_decide as E; [subst i; by rewrite Hfree in Hi|done]. }
  assert (complete c1 = complete c) as Hco by (by injection Ho1).
  assert (map_find (data c1) cur = Some g) as Hg by (rewrite Hd1, map_find_put by done; by rewrite decide_True).
  split; [|split_and!].
  - constructor; [done|done| | |lia|lia|lia|].
    + rewrite Hd1. by apply filled_put.
    + intros _. destruct p as [k|]; simpl in Hp |- *.
      * destruct (Hk k eq_refl) as [Hle Hlk]. destruct Hp as (b & Hb & Hlt & Hmin). exists b. split; [by apply Hkp|]. destruct (s_head _ Hd _ _ Hb) as [Es _ Hlb _ _ _].
        split; [unfold bh_end; lia|]. intros i e Hi Hlt'. rewrite Hd1 in Hi. apply find_put_cases in Hi as [[-> ->]|[_ Hi]]; [lia| |done]. apply (Hmin _ _ Hi). lia.
      * intros i e Hi. rewrite Hd1 in Hi. apply find_put_cases in Hi as [[-> ->]|[_ Hi]]; [lia| |done]. specialize (Hp _ _ Hi). lia.
    + intros i e Hi Hlt. rewrite Hd1 in Hi. apply find_put_cases in Hi as [[-> ->]|[_ Hi]]; [lia| |done]. apply (Hkn _ _ Hi). lia.
  - rewrite (add_of_state _ m cur cur _ Hgs). apply mapped_below_add; [done|lia].
  - intros m' d' Hpost. replace (cur + len) with (Z.min (bh_end g) (cur + left)) in Hpost by lia.
    eapply (read_post_cons c c1 cur (cur + left) m cur cur g); [done|done|done|done|lia|lia|done| |done|by apply add_of_state|exact Hpost].
    intros x. rewrite Hd1, view_put; [|done|by rewrite <- Hd1|by intros b0; rewrite Hfree]. rewrite Hge, Hgc. replace (Z.min (cur + len) (cur + left)) with (cur + len) by lia.
    destruct (decide (in_range cur (cur + len) x)) as [Hx|Hx].
    + rewrite decide_True; [done|]. split; [done|]. apply (clear_none _ cur (cur + len)); [done|done|lia|intros b0; by rewrite Hfree|done].
    + by rewrite decide_False by tauto.
  - intros k ->. destruct (Hk k eq_refl) as [Hle [Hlk|Hlk]]; [left; lia|right]. cbn [turns]. rewrite Hd1, heads_from_put by (done || lia).
    rewrite (proj2 (Z.leb_le k (cur + len))), (proj2 (Z.leb_gt k cur)) by lia. lia.
Qed.

Lemma classify_ok b cur k m : bh_state b ≠ STATE_MISSING → classify b cur k m =
  Ok (match bh_state b with STATE_MISSING => add_missing cur k m | STATE_RX => add_rx cur k m | STATE_ERROR => add_error cur k m | _ => add_hit cur k m end).
Proof. unfold classify. by destruct (bh_state b). Qed.

Lemma map_read_loop_ok fuel p cur left m c : read_inv c p cur left → left = 0 ∨ (turns (data c) p cur <= fuel)%nat → mapped_below m cur →
  ∃ m' d', does (map_read_loop fuel p cur left m) c m' d' ∧ read_post c cur (cur + left) m m' d'.
Proof.
  revert p cur left m c. induction fuel as [|fuel IH]; intros p cur left m c Hinv Hf Hm.
  all: pose proof (r_left _ _ _ _ Hinv) as Hl; destruct (Z.eq_dec left 0) as [->|Hne];
    [exists m, (data c); split; [apply does_ret; apply Hinv|]; rewrite Z.add_0_r; apply read_post_nil; apply Hinv|].
  all: pose proof (r_p _ _ _ _ Hinv ltac:(lia)) as Hp; destruct Hf as [|Hf]; [done|].
  { exfalso. destruct p as [k|]; simpl in Hf; [|lia]. destruct Hp as (b & Hb & _).
    pose proof (heads_from_after _ k b (s_ord _ (r_shape _ _ _ _ Hinv)) Hb (k + 1) ltac:(lia)). lia. }
  cbn [map_read_loop]. rewrite (proj2 (Z.leb_gt _ _)) by lia. destruct p as [k|].
  - destruct Hp as (b & Hb & Hlt & Hmin). destruct (Z.leb_spec k cur) as [Hle|Hgt].
    + pose proof (r_shape _ _ _ _ Hinv) as Hd. pose proof (r_hi _ _ _ _ Hinv) as Hhi. pose proof (r_cur _ _ _ _ Hinv) as H0.
      set (n := Z.min (bh_end b - cur) left). assert (Z.min (bh_end b) (cur + left) = cur + n) as En by lia.
      pose proof (r_known _ _ _ _ Hinv _ _ Hb Hlt) as Hkn.
      set (m1 := match bh_state b with STATE_MISSING => add_missing cur k m | STATE_RX => add_rx cur k m | STATE_ERROR => add_error cur k m | _ => add_hit cur k m end).
      destruct (IH (after (data c) k) (cur + n) (left - n) m1 c) as (m' & d' & Hdo & Hpost).
      * constructor; try apply Hinv; try lia.
        -- intros Hpos. replace (cur + n) with (bh_end b) by lia. by apply p_ok_after.
        -- intros i e Hi He. apply (r_known _ _ _ _ Hinv _ _ Hi). lia.
      * pose proof (turns_after _ k b cur (cur + n) Hd Hb Hle). right. lia.
      * apply mapped_below_add; [done|lia].
      * exists m', d'. split.
        -- apply (does_get_bind rest orest _ _ _ b); [done|]. apply (does_lift_bind rest orest _ _ _ m1); [by apply classify_ok|]. apply does_gets_bind. exact Hdo.
        -- replace (cur + n + (left - n)) with (cur + left) in Hpost by lia. rewrite <- En in Hpost.
           eapply (read_post_cons c c cur (cur + left) m cur k b); [done|done|by intros ? ? ?|done|lia|lia|done| |done|reflexivity|exact Hpost].
           apply (covered_view _ k b); [done|done|lia|lia].
    + set (n := Z.min (k - cur) left).
      destruct (read_gap c (Some k) cur n left m Hinv) as (m1 & c1 & E1 & Ho1 & Hinv1 & Hm1 & Hpost1 & Hturn); [lia|intros j [= <-]; lia|done|done|].
      destruct (IH (Some k) (cur + n) (left - n) m1 c1 Hinv1) as (m' & d' & (c2 & E2 & Hd2 & Ha2 & Ho2) & Hpost); [|done|].
      { destruct (Hturn k eq_refl) as [|Ht]; [by left|right; lia]. }
      exists m', d'. replace (cur + n + (left - n)) with (cur + left) in Hpost by lia. split; [|by apply Hpost1].
      exists c2. split_and!; [|done|done|congruence]. unfold mbind, M_bind. fold n. by rewrite E1.
  - destruct (read_gap c None cur left left m Hinv) as (m1 & c1 & E1 & Ho1 & Hinv1 & Hm1 & Hpost1 & _); [lia|done|done|done|].
    exists m1, (data c1). split; [exists c1; split_and!; [done|done|apply Hinv1|done]|]. apply Hpost1. apply read_post_nil; apply Hinv1.
Qed.

Definition no_missing d : Prop := ∀ i e, map_find d i = Some e → bh_state e ≠ STATE_MISSING.

Lemma map_read_ok c ex : acct c → shape (data c) → filled (data c) → no_missing (data c) → 0 <= e_offset ex → 0 <= e_length ex → e_offset ex + e_length ex < limit →
  ∃ m' d', does (map_read ex) c m' d' ∧ read_post c (e_offset ex) (e_offset ex + e_length ex) no_mapped m' d'.
Proof.
  intros Ha Hd Hfi Hnm H0 Hl Hhi. unfold map_read.
  destruct (map_read_loop_ok (walk_fuel (data c)) (data_lower_bound (data c) (e_offset ex)) (e_offset ex) (e_length ex) no_mapped c) as (m' & d' & Hdo & Hpost).
  - constructor; try done. intros _. by apply p_ok_lower_bound. intros i e Hi _. by apply (Hnm i).
  - right. apply turns_start.
  - intros o [Ho|[Ho|[Ho|Ho]]]; by apply elem_of_nil in Ho.
  - exists m', d'. split; [|done]. by apply does_gets_bind.
Qed.
End map_read.

(** ** [map_write], [writex] on one extent, [truncate] and [discard]

    [map_write] cuts the heads at both ends of the range and makes one head of
    what is between; nothing outside the range changes, and every reader goes on
    waiting.  Writing then makes the bytes of the range the caller's. *)


(** The readers that wait for a byte. *)
Definition waiting d x : option (list Z) := b ← head_at d x; map_find (bh_waitfor_read b) x.

Lemma view_waiting d d' x : view d' x = view d x → waiting d' x = waiting d x.
Proof.
  unfold view, waiting. destruct (head_at d' x) as [b'|], (head_at d x) as [b|]; simpl; try done. unfold cell_of. congruence.
Qed.

(** ** Waiters and bytes under each change *)

Lemma waiting_put d k b x : shape d → shape (map_put d k b) → (∀ b0, map_find d k = Some b0 → bh_end b0 <= bh_end b) →
  waiting (map_put d k b) x = if decide (in_range k (bh_end b) x) then map_find (bh_waitfor_read b) x else waiting d x.
Proof.
  intros Hd Hd' Hold. pose proof (view_put d k b x Hd Hd' Hold) as Hv. unfold waiting, view in *. case_decide.
  - destruct (head_at (map_put d k b) x) as [e|]; simpl in *; [|done]. unfold cell_of in Hv. congruence.
  - destruct (head_at (map_put d k b) x) as [e|], (head_at d x) as [e'|]; simpl in *; try done. unfold cell_of in Hv. congruence.
Qed.

Lemma head_at_merge_outside d lk rk l r x : shape d → map_find d lk = Some l → map_find d rk = Some r → bh_end l = bh_start r → ¬ in_range lk (bh_end r) x →
  head_at (merge_data lk rk l r d) x = head_at d x.
Proof.
  intros Hd Hl Hr Hend Hx. pose proof (shape_merge d lk rk l r Hd Hl Hr Hend) as Hd'. destruct (merge_order d lk rk l r Hd Hl Hr Hend) as (Hlt & E1 & E2 & E3). unfold in_range in Hx.
  destruct (head_at d x) as [e|] eqn:E.
  - apply head_at_spec in E as [He Hxe]; [|done]. apply (head_at_find _ (bh_start e) e x Hd'); [|done]. rewrite find_merge by done.
    destruct (s_head d Hd _ _ Hr) as [_ _ Hlr _ _ _], (s_head d Hd _ _ Hl) as [_ _ Hll _ _ _]. unfold bh_end in *.
    rewrite decide_False; [rewrite decide_False; [done|]|]; intros E'; rewrite E' in *; [rewrite Hr in He|rewrite Hl in He]; injection He as <-; lia.
  - apply (head_at_none _ x Hd'). intros i e [[-> ->]|(_ & _ & Hi)]%find_merge_cases; [rewrite merged_end; [exact Hx|done]| |done].
    by apply (proj1 (head_at_none d x Hd) E).
Qed.
Lemma waiting_merge d lk rk l r x : shape d → map_find d lk = Some l → map_find d rk = Some r → bh_end l = bh_start r →
  waiting (merge_data lk rk l r d) x = waiting d x.
Proof.
  intros Hd Hl Hr Hend. destruct (decide (in_range lk (bh_end r) x)) as [Hx|Hx]; [|unfold waiting; by rewrite head_at_merge_outside].
  pose proof (shape_merge d lk rk l r Hd Hl Hr Hend) as Hd'. destruct (merge_order d lk rk l r Hd Hl Hr Hend) as (Hlt & E1 & E2 & E3). unfold in_range, waiting in *.
  rewrite (head_at_find _ lk (merged l r) x Hd'); [|by rewrite find_merge, decide_True|by rewrite merged_end].
  cbn [mbind option_bind]. rewrite (waiters_disjoint d lk rk l r) by done. destruct (Z.ltb_spec x rk).
  - rewrite (head_at_find d lk l x Hd Hl); [done|]. lia.
  - rewrite (head_at_find d rk r x Hd Hr); [done|]. lia.
Qed.

Lemma find_put_same d k b : ordered d → map_find (map_put d k b) k = Some b.
Proof. intros Ho. by rewrite map_find_put, decide_True. Qed.

(** A head changed in its place. *)
Definition same_place b b' : Prop := bh_start b' = bh_start b ∧ bh_length b' = bh_length b ∧ bh_waitfor_read b' = bh_waitfor_read b.

Lemma same_place_end b b' : same_place b b' → bh_end b' = bh_end b.
Proof. intros (E1 & E2 & _). unfold bh_end. by rewrite E1, E2. Qed.
Lemma same_place_state s b : same_place b (to_state s b).
Proof. unfold to_state. destruct (negb (bool_decide (s = STATE_ERROR)) && is_error b); done. Qed.

Section replaced.
Context d k b b' (Hd : shape d) (Hb : map_find d k = Some b) (Hs : same_place b b').

Lemma shape_replaced : shape (map_put d k b').
Proof using All.
  pose proof (same_place_end b b' Hs) as Ee. destruct Hs as (E1 & E2 & E3). destruct (s_head d Hd _ _ Hb) as [Es H0 Hl Hlim Hwo Hwr].
  apply shape_put; [done|constructor; rewrite ?Ee, ?E1, ?E2, ?E3; done|]. rewrite Ee. intros i e Hi.
  destruct (Z.lt_trichotomy i k) as [Hlt|[|Hlt]]; [|by left|].
  - right; left. by apply (s_apart d Hd _ _ _ _ Hi Hb).
  - right; right. by apply (s_apart d Hd _ _ _ _ Hb Hi).
Qed.
Lemma replaced_end : ∀ b0, map_find d k = Some b0 → bh_end b0 <= bh_end b'.
Proof using All. intros b0 E. rewrite Hb in E. injection E as <-. rewrite (same_place_end b b' Hs). lia. Qed.
Lemma view_replaced x : view (map_put d k b') x = if decide (in_range k (bh_end b) x) then Some (cell_of b' x) else view d x.
Proof using All. rewrite view_put; [by rewrite (same_place_end b b' Hs)|done|apply shape_replaced|apply replaced_end]. Qed.
Lemma waiting_replaced x : waiting (map_put d k b') x = waiting d x.
Proof using All.
  rewrite waiting_put; [|done|apply shape_replaced|apply replaced_end]. rewrite (same_place_end b b' Hs). case_decide as Hx; [|done].
  unfold waiting. rewrite (head_at_find d k b x Hd Hb Hx). cbn. by destruct Hs as (_ & _ & ->).
Qed.
End replaced.

(** The turns that remain when the heads after [f] were after [k]. *)
Lemma heads_sub d d' j k : ordered d' → (∀ i, j <= i → is_Some (map_find d' i) → k <= i ∧ is_Some (map_find d i)) → (heads_from d' j <= heads_from d k)%nat.
Proof.
  unfold heads_from. intros Ho Hs. rewrite <- (length_fmap fst (filter (λ a : Z * BufferHead, j <= a.1) d')), <- (length_fmap fst (filter (λ a : Z * BufferHead, k <= a.1) d)).
  apply submseteq_length, NoDup_submseteq; [apply (ordered_keys_NoDup (A := BufferHead)), filter_ordered, Ho|].
  intros i ([i' e] & -> & [Hle Hin]%list_elem_of_filter)%list_elem_of_fmap. simpl in *. apply map_find_elem in Hin; [|done].
  destruct (Hs i' Hle ltac:(by eexists)) as [Hk Hi]. apply map_find_in, list_elem_of_fmap in Hi as ([i2 e2] & -> & Hi). apply list_elem_of_fmap. exists (i2, e2). split; [done|]. by apply list_elem_of_filter.
Qed.
Lemma turns_head d d' f k b cur cur' : ordered d → ordered d' → map_find d k = Some b → k <= cur →
  (∀ i, f < i → is_Some (map_find d' i) → k < i ∧ is_Some (map_find d i)) → (S (turns d' (after d' f) cur') <= turns d (Some k) cur)%nat.
Proof.
  intros Ho Ho' Hf Hle Hs. simpl. rewrite (proj2 (Z.leb_le _ _)) by done. pose proof (heads_from_after d k b Ho Hf (k + 1) ltac:(lia)) as H1.
  destruct (after d' f) as [j|] eqn:E; simpl; [|lia].
  destruct (lower_bound_some d' (f + 1) j Ho' E) as (Hj & Hlt & _).
  assert (heads_from d' j <= heads_from d (k + 1))%nat by (apply heads_sub; [done|]; intros i Hi Hi'; destruct (Hs i ltac:(lia) Hi'); split; [lia|done]).
  destruct (j <=? cur'); lia.
Qed.

(** ** The state of the walk of [map_write] *)

Record write_inv (d0 : buffers) (off stop : Z) (final : option Z) (cur : Z) d : Prop := WriteInv {
  w_shape : shape d;
  w_filled : ∀ k b, final ≠ Some k → map_find d k = Some b → data_ok b;
  w_final : match final with None => cur = off | Some f => f = off ∧ off < cur ∧ ∃ b, map_find d off = Some b ∧ bh_end b = cur end;
  w_view : ∀ x, ¬ in_range off stop x → view d x = view d0 x;
  w_wait : ∀ x, waiting d x = waiting d0 x;
  w_lo : 0 <= off <= cur;
  w_hi : cur <= stop < limit;
}.

Section map_write.
Context (rest : bhstate → Z) (orest : Z).
Abbreviation does := (does rest orest).
Abbreviation acct := (acct rest orest).

Definition extend (final : option Z) (cur len : Z) : M cache Z :=
  match final with
  | None => bh_add (new_bh cur len);; mret cur
  | Some f => b ← get_bh f; resize_bh f (bh_length b + len);; mret f
  end.

(** A gap is added to the head that is written, or begins it. *)
Lemma write_gap c d0 off stop final cur len : acct c → write_inv d0 off stop final cur (data c) → 0 < len → cur + len <= stop →
  clear_of (data c) cur (cur + len) → map_find (data c) cur = None →
  ∃ d', does (extend final cur len) c off d' ∧ write_inv d0 off stop (Some off) (cur + len) d' ∧ ∃ b, d' = map_put (data c) off b.
Proof.
  intros Ha [Hd Hfi Hfin Hv Hw Hlo Hhi] Hlen Hle Hc Hn. pose proof (s_ord _ Hd) as Ho. destruct final as [f|]; unfold extend.
  - destruct Hfin as (-> & Hoc & b & Hb & He). pose proof (s_head _ Hd _ _ Hb) as Hh. pose proof Hh as [Es H0 Hl Hlim Hwo Hwr].
    set (b' := set_length (bh_length b + len) b). assert (bh_end b' = cur + len) as Ee by (unfold b', bh_end in *; cbn; lia).
    assert (shape (map_put (data c) off b')) as Hd'.
    { apply shape_put; [done| |].
      - constructor; [done|done|unfold b'; cbn; lia|lia|done|]. intros o Hin. specialize (Hwr o Hin). lia.
      - rewrite Ee. intros i e Hi. destruct (Z.eq_dec i off) as [|Hne]; [by left|right]. destruct (Hc i e Hi) as [->|[Hle'|?]]; [by rewrite Hn in Hi| |by right].
        left. destruct (Z.lt_trichotomy i off) as [Hlt|[|Hlt]]; [by apply (s_apart _ Hd _ _ _ _ Hi Hb)|done|].
        pose proof (s_apart _ Hd _ _ _ _ Hb Hi Hlt). destruct (s_head _ Hd _ _ Hi) as [Esi _ Hli _ _ _]. unfold bh_end in *. lia. }
    assert (∀ b0, map_find (data c) off = Some b0 → bh_end b0 <= bh_end b') as Hold by (intros b0 E; rewrite Hb in E; injection E as <-; lia).
    exists (map_put (data c) off b'). split; [|split; [|by exists b']].
    + apply (does_get_bind rest orest _ _ _ b); [done|]. eapply does_bind; [by apply does_resize|]. intros c1 E1 Ha1 _. eapply does_eq; [by apply does_ret|done].
    + constructor; [done| | | | |lia|lia].
      * intros k e Hk Hke. apply find_put_cases in Hke as [[-> ->]|[_ Hke]]; [done| |done]. by apply (Hfi k).
      * split_and!; [done|lia|]. exists b'. split; [apply find_put_same; done|done].
      * intros x Hx. rewrite view_put by done. rewrite decide_False; [by apply Hv|]. rewrite Ee. unfold in_range in *. lia.
      * intros x. rewrite waiting_put, Ee by done. case_decide as Hx; [|apply Hw]. rewrite <- Hw. unfold waiting, in_range in *. cbn.
        destruct (decide (x < cur)).
        -- rewrite (head_at_find _ off b x Hd Hb) by lia. done.
        -- assert (map_find (bh_waitfor_read b) x = None) as ->. { apply map_find_None. intros Hin. specialize (Hwr x Hin). lia. }
           rewrite (proj2 (head_at_none _ x Hd)); [done|]. intros i e Hi Hxe. destruct (Hc i e Hi) as [->|[?|?]]; [by rewrite Hn in Hi|lia|lia].
  - subst cur. set (b' := new_bh off len). assert (bh_end b' = off + len) as Ee by done.
    assert (head_ok off b') as Hh.
    { constructor; [done|lia|done|rewrite Ee; lia|constructor|by intros o ?%elem_of_nil]. }
    assert (shape (map_put (data c) off b')) as Hd' by (apply shape_put; [done..|by rewrite Ee]).
    assert (∀ b0, map_find (data c) off = Some b0 → bh_end b0 <= bh_end b') as Hold by (intros b0 E; by rewrite Hn in E).
    exists (map_put (data c) off b'). split; [|split; [|by exists b']].
    + eapply does_bind; [by apply (does_add _ _ b')|]. intros c1 E1 Ha1 _. eapply does_eq; [by apply does_ret|done].
    + constructor; [done| | | | |lia|lia].
      * intros k e Hk Hke. apply find_put_cases in Hke as [[-> ->]|[_ Hke]]; [done| |done]. by apply (Hfi k).
      * split_and!; [done|lia|]. exists b'. split; [apply find_put_same; done|done].
      * intros x Hx. rewrite view_put by done. rewrite decide_False; [by apply Hv|]. rewrite Ee. unfold in_range in *. lia.
      * intros x. rewrite waiting_put, Ee by done. case_decide as Hx; [|apply Hw]. rewrite <- Hw. unfold waiting, in_range in *. cbn.
        rewrite (proj2 (head_at_none _ x Hd)); [done|]. intros i e Hi Hxe. destruct (Hc i e Hi) as [->|[?|?]]; [by rewrite Hn in Hi|lia|lia].
Qed.

(** A head is cut at the end of the range. *)
Lemma write_cut c d0 off stop final cur k b hi : acct c → write_inv d0 off stop final cur (data c) → final ≠ Some k → map_find (data c) k = Some b → k < hi →
  ∃ d' b', does (if bh_length b <=? hi - k then mret tt else split_bh k hi;; mret tt) c tt d' ∧ write_inv d0 off stop final cur d' ∧
    map_find d' k = Some b' ∧ bh_state b' = bh_state b ∧ bh_end b' = Z.min (bh_end b) hi ∧ (∀ i, i < k → map_find d' i = map_find (data c) i) ∧
    (bh_end b <= hi → d' = data c).
Proof.
  intros Ha Hinv Hne Hb Hlt. pose proof (w_shape _ _ _ _ _ _ Hinv) as Hd. pose proof (s_head _ Hd _ _ Hb) as [Es _ Hlen _ _ _].
  destruct (Z.leb_spec (bh_length b) (hi - k)) as [Hle|Hgt].
  - exists (data c), b. split_and!; [by apply does_ret|done|done|done|unfold bh_end; lia|done|done].
  - assert (k < hi < bh_end b) as Hin by (unfold bh_end; lia). pose proof (w_filled _ _ _ _ _ _ Hinv k b Hne Hb) as Hok.
    pose proof (does_split rest orest c k hi b Ha Hd Hb Hin Hok) as Hs. exists (split_data k hi b (data c)), (left_of hi b).
    pose proof (view_split (data c) k hi b Hd Hb Hin) as Hvs.
    split_and!.
    + eapply does_bind; [exact Hs|]. intros c1 <- Ha1 _. by apply does_ret.
    + constructor; try apply Hinv; [by apply shape_split| | | |].
      * intros i e Hi [[-> ->]|[[-> ->]|(_ & _ & Hf)]]%find_split_cases; [|..|done]; [| |by apply (w_filled _ _ _ _ _ _ Hinv i)]; by apply (data_ok_split (data c) k hi b Hd Hb Hin).
      * pose proof (w_final _ _ _ _ _ _ Hinv) as Hfin. destruct final as [f|]; [|done]. destruct Hfin as (-> & Hoc & bf & Hbf & He).
        split_and!; [done|done|]. exists bf. rewrite find_split by done. rewrite decide_False; [rewrite decide_False; [done|congruence]|].
        intros ->. rewrite (split_free (data c) k hi b Hd Hb Hin) in Hbf. done.
      * intros x Hx. rewrite Hvs. by apply Hinv.
      * intros x. rewrite (view_waiting _ _ _ (Hvs x)). by apply Hinv.
    + rewrite find_split by done. by rewrite decide_False, decide_True by lia.
    + done.
    + rewrite (left_end hi b). lia.
    + intros i Hi. rewrite find_split by done. by rewrite !decide_False by lia.
    + intros He. lia.
Qed.

(** One turn at a head: it is cut at both ends of the range and joined to what
    is already written. *)
Definition write_head (k cur max : Z) (final : option Z) : M cache Z :=
  b ← get_bh k;
  (if k <? cur then
     assert_m (bool_decide (final = None));;
     f ← split_bh k cur;
     d ← gets data;
     assert_m (bool_decide (after d k = Some f));;
     (if k + bh_length b <=? cur + max then mret tt else split_bh f (cur + max);; mret tt);;
     mret f
   else
     assert_m (k =? cur);;
     (if bh_length b <=? max then mret tt else split_bh k (cur + max);; mret tt);;
     match final with
     | Some f =>
         bh_set_state k STATE_DIRTY;; bh_set_state f STATE_DIRTY;;
         d ← gets data;
         assert_m (bool_decide (before d k = Some f));;
         merge_left f k;; mret f
     | None => mret k
     end).

Definition head_post (c : cache) d0 off stop k b d' : Prop :=
  ∃ fb, write_inv d0 off stop (Some off) (bh_end fb) d' ∧ map_find d' off = Some fb ∧ bh_end fb = Z.min (bh_end b) stop ∧
    (bh_end b < stop → ∀ i, off < i → is_Some (map_find d' i) → k < i ∧ is_Some (map_find (data c) i)).

Lemma does_run {R S} (m : M cache R) (f : R → M cache S) a c1 c s d2 : m c = Ok (a, c1) → other c1 = other c → does (f a) c1 s d2 → does (m ≫= f) c s d2.
Proof. intros E Ho (c2 & E2 & Hd2 & Ha2 & Ho2). exists c2. split_and!; [|done|done|congruence]. unfold mbind, M_bind. by rewrite E. Qed.

(** The first head of the range becomes the one that is written. *)
Lemma inv_first d0 off stop d fb : write_inv d0 off stop None off d → map_find d off = Some fb → bh_end fb <= stop →
  write_inv d0 off stop (Some off) (bh_end fb) d.
Proof.
  intros [Hd Hfi _ Hv Hw Hlo Hhi] Hb Hle. destruct (s_head d Hd _ _ Hb) as [Es _ Hl _ _ _]. unfold bh_end in *. constructor; try done; try lia.
  - intros i e _ Hi. by apply (Hfi i).
  - split_and!; [done|lia|]. by exists fb.
Qed.

Lemma after_key d k f : shape d → is_Some (map_find d f) → k < f → (∀ i, k < i → is_Some (map_find d i) → f <= i) → after d k = Some f.
Proof.
  intros Hd Hf Hlt Hmin. unfold after. destruct (lower_bound d (k + 1)) as [j|] eqn:E.
  - destruct (lower_bound_some d (k + 1) j (s_ord d Hd) E) as (Hj & Hk & Hm). f_equal. specialize (Hm f Hf ltac:(lia)). specialize (Hmin j ltac:(lia) Hj). lia.
  - pose proof (lower_bound_none d (k + 1) E f Hf). lia.
Qed.
Lemma before_key d k f : shape d → is_Some (map_find d f) → f < k → (∀ i, i < k → is_Some (map_find d i) → i <= f) → before d k = Some f.
Proof.
  intros Hd Hf Hlt Hmax. destruct (before d k) as [j|] eqn:E.
  - destruct (before_some d k j (s_ord d Hd) E) as (Hj & Hk & Hm). f_equal. specialize (Hm f Hf ltac:(lia)). specialize (Hmax j ltac:(lia) Hj). lia.
  - pose proof (before_none d k (s_ord d Hd) E f Hf). lia.
Qed.

(** The head begins before the range. *)
Lemma write_head_before c d0 off stop k b : acct c → write_inv d0 off stop None off (data c) → off < stop → map_find (data c) k = Some b → k < off < bh_end b →
  ∃ d', does (write_head k off (stop - off) None) c off d' ∧ head_post c d0 off stop k b d'.
Proof.
  intros Ha Hinv Hst Hb Hin. pose proof (w_shape _ _ _ _ _ _ Hinv) as Hd. pose proof (w_filled _ _ _ _ _ _ Hinv k b ltac:(done) Hb) as Hok.
  pose proof (does_split rest orest c k off b Ha Hd Hb Hin Hok) as Hs. destruct (data_ok_split (data c) k off b Hd Hb Hin Hok) as [Hokl Hokr].
  pose proof (shape_split (data c) k off b Hd Hb Hin) as Hd1. pose proof (view_split (data c) k off b Hd Hb Hin) as Hvs.
  destruct (s_head _ Hd _ _ Hb) as [Es _ _ _ _ _]. set (d1 := split_data k off b (data c)) in *.
  assert (map_find d1 off = Some (right_of off b)) as Hf1 by (unfold d1; rewrite find_split by done; by rewrite decide_True).
  assert (write_inv d0 off stop None off d1) as Hinv1.
  { constructor; try apply Hinv; [done| | |].
    - intros i e _ [[-> ->]|[[-> ->]|(_ & _ & Hf)]]%find_split_cases; [done|done|by apply (w_filled _ _ _ _ _ _ Hinv i)|done].
    - intros x Hx. rewrite Hvs. by apply Hinv.
    - intros x. rewrite (view_waiting _ _ _ (Hvs x)). by apply Hinv. }
  assert (∀ i, k < i → is_Some (map_find d1 i) → i = off ∨ i <> off ∧ is_Some (map_find (data c) i)) as Hkeys.
  { intros i Hi [e [[-> ->]|[[-> ->]|(H1 & _ & Hf)]]%find_split_cases]; [by left|lia|right; split; [done|by eexists]|done]. }
  assert (after d1 k = Some off) as Haft.
  { apply after_key; [done|by eexists|lia|]. intros i Hi Hf. destruct (Hkeys i Hi Hf) as [->|[Hne [e He]]]; [lia|]. pose proof (s_apart _ Hd _ _ _ _ Hb He Hi). lia. }
  destruct Hs as (c1 & E1 & Hc1 & Ha1 & Ho1).
  destruct (write_cut c1 d0 off stop None off off (right_of off b) stop Ha1) as (d' & b' & Hdo & Hinv' & Hb' & _ & He' & _ & Hsame); [by rewrite Hc1|done|by rewrite Hc1|done|].
  rewrite right_end in He', Hsame. exists d'. split.
  - apply (does_get_bind rest orest _ _ _ b); [done|]. rewrite (proj2 (Z.ltb_lt k off)) by lia.
    apply does_assert_bind; [done|]. apply (does_run _ _ off c1); [done..|]. apply does_gets_bind. apply does_assert_bind; [by rewrite Hc1, bool_decide_eq_true_2|].
    replace (k + bh_length b <=? off + (stop - off)) with (bh_length (right_of off b) <=? stop - off); [|cbn; apply Bool.eq_true_iff_eq; rewrite !Z.leb_le; unfold bh_end; lia].
    replace (off + (stop - off)) with stop by lia. eapply does_bind; [exact Hdo|]. intros c2 <- Ha2 _. by apply does_ret.
  - exists b'. rewrite He'. split; [|split; [done|split; [done|]]].
    + rewrite <- He'. apply inv_first; [done|done|lia].
    + intros Hlt i Hi Hf. rewrite (Hsame ltac:(lia)), Hc1 in Hf. destruct (Hkeys i ltac:(lia) Hf) as [->|[_ ?]]; [lia|]. split; [lia|done].
Qed.

(** Joining a head to what is written. *)
Lemma inv_join d0 off stop cur k b d fb : write_inv d0 off stop (Some off) cur d → map_find d off = Some fb → map_find d k = Some b → k = cur → bh_end b <= stop →
  let d2 := map_put (map_put d k (to_state STATE_DIRTY b)) off (to_state STATE_DIRTY fb) in
  let l := to_state STATE_DIRTY fb in let r := to_state STATE_DIRTY b in
  shape d2 ∧ map_find d2 off = Some l ∧ map_find d2 k = Some r ∧ bh_end l = bh_start r ∧ bh_end (merged l r) = bh_end b ∧
  write_inv d0 off stop (Some off) (bh_end b) (merge_data off k l r d2).
Proof.
  intros [Hd Hfi Hfin Hv Hw Hlo Hhi] Hfb Hb -> Hle d2 l r. pose proof (s_ord _ Hd) as Ho. destruct Hfin as (_ & Hlt & fb' & Hfb' & Hend). rewrite Hfb in Hfb'. injection Hfb' as <-.
  destruct (s_head _ Hd _ _ Hb) as [Es _ Hlen _ _ _].
  pose proof (shape_replaced d cur b r Hd Hb (same_place_state _ _)) as Hd1. set (d1 := map_put d cur r) in *.
  assert (map_find d1 off = Some fb) as Hfb1 by (unfold d1; rewrite map_find_put by done; by rewrite decide_False by lia).
  pose proof (shape_replaced d1 off fb l Hd1 Hfb1 (same_place_state _ _)) as Hd2. change (map_put d1 off l) with d2 in Hd2.
  assert (map_find d2 off = Some l) as Hl by (unfold d2; apply find_put_same, Hd1).
  assert (map_find d2 cur = Some r) as Hr by (unfold d2; rewrite map_find_put by apply Hd1; rewrite decide_False by lia; by apply find_put_same).
  pose proof (same_place_end _ _ (same_place_state STATE_DIRTY fb)) as El. pose proof (same_place_end _ _ (same_place_state STATE_DIRTY b)) as Er.
  assert (bh_start r = cur) as Ers by (unfold r; destruct (same_place_state STATE_DIRTY b) as (-> & _); done).
  fold l in El. fold r in Er. assert (bh_end l = bh_start r) as Hadj by congruence.
  assert (bh_end (merged l r) = bh_end b) as Em by (rewrite merged_end; done).
  split_and!; [done..|]. constructor; [by apply shape_merge| | | | |unfold bh_end in *; lia|lia].
  - intros i e Hi [[-> ->]|(H1 & H2 & Hf)]%find_merge_cases; [done| |done]. unfold d2, d1 in Hf. apply find_put_cases in Hf as [[-> _]|[_ Hf]]; [done| |apply Hd1].
    apply find_put_cases in Hf as [[-> _]|[_ Hf]]; [done| |done]. by apply (Hfi i).
  - split; [done|]. split; [unfold bh_end in *; lia|]. exists (merged l r). split; [|done]. rewrite find_merge by done. by rewrite decide_True.
  - intros x Hx. unfold view. rewrite head_at_merge_outside; [|done..|]; cycle 1.
    { rewrite Er. unfold in_range in *. lia. }
    fold (view d2 x). unfold d2. rewrite (view_replaced d1 off fb l Hd1 Hfb1 (same_place_state _ _)). rewrite decide_False by (unfold in_range in *; lia).
    unfold d1. rewrite (view_replaced d cur b r Hd Hb (same_place_state _ _)). rewrite decide_False by (unfold in_range in *; lia). by apply Hv.
  - intros x. rewrite waiting_merge by done. unfold d2. rewrite (waiting_replaced d1 off fb l Hd1 Hfb1 (same_place_state _ _)).
    unfold d1. rewrite (waiting_replaced d cur b r Hd Hb (same_place_state _ _)). apply Hw.
Qed.

(** The head begins where the walk is. *)
Lemma write_head_at c d0 off stop final k b : acct c → write_inv d0 off stop final k (data c) → k < stop → map_find (data c) k = Some b →
  ∃ d', does (write_head k k (stop - k) final) c off d' ∧ head_post c d0 off stop k b d'.
Proof.
  intros Ha Hinv Hst Hb. pose proof (w_shape _ _ _ _ _ _ Hinv) as Hd. pose proof (w_final _ _ _ _ _ _ Hinv) as Hfin.
  assert (final ≠ Some k) as Hne.
  { intros ->. destruct Hfin as (-> & Hlt & fb & Hfb & He). lia. }
  destruct (write_cut c d0 off stop final k k b stop Ha Hinv Hne Hb Hst) as (d1 & b1 & (c1 & E1 & Hc1 & Ha1 & Ho1) & Hinv1 & Hb1 & _ & He1 & Hlow & Hsame).
  assert (∀ i, k < i → bh_end b < stop → is_Some (map_find d1 i) → k < i ∧ is_Some (map_find (data c) i)) as Hkeys.
  { intros i Hi Hlt Hf. rewrite (Hsame ltac:(lia)) in Hf. done. }
  assert (∀ d', (∀ g, g = match final with Some f => bh_set_state k STATE_DIRTY;; bh_set_state f STATE_DIRTY;; d ← gets data; assert_m (bool_decide (before d k = Some f));; merge_left f k;; mret f | None => mret k end →
     does g c1 off d') → does (write_head k k (stop - k) final) c off d') as Hstep.
  { intros d' Hg. unfold write_head. apply (does_get_bind rest orest _ _ _ b); [done|]. rewrite Z.ltb_irrefl. apply does_assert_bind; [by apply Z.eqb_refl|].
    replace (k + (stop - k)) with stop by lia. apply (does_run _ _ tt c1); [done..|]. by apply Hg. }
  destruct final as [f|].
  - destruct Hfin as (-> & Hlt & _). pose proof (w_final _ _ _ _ _ _ Hinv1) as (_ & _ & fb & Hfb & Hend).
    destruct (inv_join d0 off stop k k b1 d1 fb Hinv1 Hfb Hb1 eq_refl ltac:(lia)) as (Hd2 & Hl & Hr & Hadj & Hm & Hinv2). cbv zeta in *.
    set (l := to_state STATE_DIRTY fb) in *. set (r := to_state STATE_DIRTY b1) in *. set (d2 := map_put (map_put d1 k r) off l) in *.
    exists (merge_data off k l r d2). split.
    + apply Hstep. intros g ->. eapply does_bind; [apply (does_set_state _ _ k STATE_DIRTY c1 b1); [done|by rewrite Hc1]|]. intros c2 E2 Ha2 _. rewrite Hc1 in E2.
      eapply does_bind; [apply (does_set_state _ _ off STATE_DIRTY c2 fb); [done|]|].
      { rewrite E2, map_find_put by apply Hinv1. by rewrite decide_False by lia. }
      intros c3 E3 Ha3 _. rewrite E2 in E3. change (data c3 = d2) in E3. apply does_gets_bind. apply does_assert_bind.
      { apply bool_decide_eq_true. rewrite E3. apply before_key; [done|by eexists|done|]. intros i Hi [e Hf]. destruct (Z.le_gt_cases i off) as [|Hgt]; [done|]. exfalso.
        pose proof (s_apart _ Hd2 _ _ _ _ Hl Hf Hgt). destruct (s_head _ Hd2 _ _ Hr) as [Esr _ _ _ _ _]. lia. }
      eapply does_bind; [apply (does_merge_left _ _ c3 off k l r); rewrite ?E3; try done; [apply Hd2|lia]|]. intros c4 E4 Ha4 _. rewrite E3 in E4. eapply does_eq; [by apply does_ret|done].
    + exists (merged l r). rewrite Hm. split; [done|]. split; [rewrite find_merge by done; by rewrite decide_True|]. split; [done|].
      intros Hlt' i Hi [e [[-> _]|(H1 & H2 & Hf)]%find_merge_cases]; [lia| |done]. unfold d2 in Hf. apply find_put_cases in Hf as [[-> _]|[_ Hf]]; [done| |by apply map_put_ordered, Hinv1].
      apply find_put_cases in Hf as [[-> _]|[_ Hf]]; [done| |by apply Hinv1]. apply Hkeys; [|done|by eexists].
      destruct (Z.le_gt_cases i k) as [Hik|]; [|done]. exfalso. pose proof (s_apart _ (w_shape _ _ _ _ _ _ Hinv1) _ _ _ _ Hfb Hf ltac:(lia)). lia.
  - subst off. exists d1. split.
    + apply Hstep. intros g ->. eapply does_eq; [by apply does_ret|done].
    + exists b1. rewrite He1. split; [rewrite <- He1; apply inv_first; [done|done|lia]|]. split; [done|]. split; [done|]. intros Hlt i Hi Hf. by apply Hkeys.
Qed.

Lemma does_get_inv {S} k (f : BufferHead → M cache S) c b s d2 : map_find (data c) k = Some b → does (b ← get_bh k; f b) c s d2 → does (f b) c s d2.
Proof. intros Hf (c' & E & H). exists c'. split; [|done]. revert E. unfold mbind, M_bind, get_bh. by rewrite Hf. Qed.

Lemma clear_at d p cur hi : shape d → p_ok d p cur → (∀ k, p = Some k → hi <= k) → cur < hi → clear_of d cur hi ∧ map_find d cur = None.
Proof.
  intros Hd Hp Hhi Hlt. pose proof (clear_gap _ _ cur hi Hd Hp Hhi) as Hc. split; [done|]. destruct (map_find d cur) as [e|] eqn:E; [|done]. exfalso.
  destruct (s_head _ Hd _ _ E) as [Es _ Hle _ _ _]. assert (cur < bh_end e) as Hlt' by (unfold bh_end; lia). destruct p as [k|]; simpl in Hp.
  - destruct Hp as (b & _ & _ & Hmin). specialize (Hmin _ _ E Hlt'). specialize (Hhi k eq_refl). lia.
  - specialize (Hp _ _ E). lia.
Qed.

Lemma map_write_loop_ok fuel p cur left final c d0 off : acct c → write_inv d0 off (cur + left) final cur (data c) → 0 <= left →
  (0 < left → p_ok (data c) p cur) → left = 0 ∨ (turns (data c) p cur <= fuel)%nat →
  ∃ f d', does (map_write_loop fuel p cur left final) c f d' ∧ write_inv d0 off (cur + left) f (cur + left) d' ∧ (0 < left → f = Some off).
Proof.
  revert p cur left final c. induction fuel as [|fuel IH]; intros p cur left final c Ha Hinv Hl Hp0 Hf.
  all: destruct (Z.eq_dec left 0) as [->|Hne]; [exists final, (data c); rewrite Z.add_0_r in *; split; [by apply does_ret|]; split; [done|lia]|].
  all: pose proof (Hp0 ltac:(lia)) as Hp; destruct Hf as [|Hf]; [done|].
  { exfalso. destruct p as [k|]; simpl in Hf; [|lia]. destruct Hp as (b & Hb & _).
    pose proof (heads_from_after _ k b (s_ord _ (w_shape _ _ _ _ _ _ Hinv)) Hb (k + 1) ltac:(lia)). lia. }
  pose proof (w_shape _ _ _ _ _ _ Hinv) as Hd. pose proof (s_ord _ Hd) as Ho. pose proof (w_lo _ _ _ _ _ _ Hinv) as Hoff.
  cbn [map_write_loop]. rewrite (proj2 (Z.leb_gt _ _)) by lia. destruct p as [k|].
  - destruct Hp as (b & Hb & Hlt & Hmin). destruct (Z.leb_spec k cur) as [Hle|Hgt].
    + assert (∃ d1, does (write_head k cur left final) c off d1 ∧ head_post c d0 off (cur + left) k b d1) as (d1 & Hdo & fb & Hinv1 & Hfb & He & Hkeys).
      { destruct (decide (k = cur)) as [->|Hn].
        - destruct (write_head_at c d0 off (cur + left) final cur b Ha Hinv ltac:(lia) Hb) as (d1 & Hdo & Hpost). exists d1. split; [|done].
          by replace (cur + left - cur) with left in Hdo by lia.
        - destruct final as [f|].
          + exfalso. pose proof (w_final _ _ _ _ _ _ Hinv) as (-> & Hlt' & fb & Hfb & He). destruct (Z.lt_trichotomy off k) as [Hx|[->|Hx]].
            * pose proof (s_apart _ Hd _ _ _ _ Hfb Hb Hx). lia.
            * rewrite Hfb in Hb. injection Hb as ->. lia.
            * pose proof (s_apart _ Hd _ _ _ _ Hb Hfb Hx). lia.
          + pose proof (w_final _ _ _ _ _ _ Hinv) as ->.
            destruct (write_head_before c d0 off (off + left) k b Ha Hinv ltac:(lia) Hb ltac:(lia)) as (d1 & Hdo & Hpost). exists d1. split; [|done].
            by replace (off + left - off) with left in Hdo by lia. }
      apply (does_get_inv _ _ _ b _ _ Hb) in Hdo. destruct Hdo as (c1 & E1 & Hc1 & Ha1 & Ho1).
      set (cur' := bh_end fb) in *. assert (cur' + (left - (cur' - cur)) = cur + left) as Esum by lia.
      destruct (IH (after d1 off) cur' (left - (cur' - cur)) (Some off) c1 Ha1) as (f & d' & Hdo' & Hinv' & Hfin).
      { by rewrite Esum, Hc1. }
      { lia. }
      { intros _. rewrite Hc1. by apply p_ok_after; [apply Hinv1|]. }
      { destruct (decide (bh_end b < cur + left)) as [Hx|Hx]; [right|left; lia]. rewrite Hc1.
        pose proof (turns_head (data c) d1 off k b cur cur' Ho (s_ord _ (w_shape _ _ _ _ _ _ Hinv1)) Hb Hle (Hkeys Hx)). lia. }
      exists f, d'. rewrite Esum in Hinv'. split; [|split; [done|]].
      * apply (does_get_bind rest orest _ _ _ b); [done|]. apply (does_run _ _ off c1); [done..|].
        apply (does_get_bind rest orest _ _ _ fb); [by rewrite Hc1|]. apply does_gets_bind. rewrite Hc1. replace (cur + (bh_end fb - cur)) with cur' by lia. exact Hdo'.
      * intros _. destruct (decide (0 < left - (cur' - cur))) as [Hx|Hx]; [by apply Hfin|].
        assert (left - (cur' - cur) = 0) as E0 by lia. destruct Hdo' as (c2 & E2 & _). rewrite E0 in E2. destruct fuel; by injection E2.
    + set (n := Z.min (k - cur) left) in *. destruct (clear_at _ (Some k) cur (cur + n) Hd ltac:(by exists b)) as [Hc Hn]; [intros ? [= <-]; lia|lia|].
      destruct (write_gap c d0 off (cur + left) final cur n Ha Hinv ltac:(lia) ltac:(lia) Hc Hn) as (d1 & (c1 & E1 & Hc1 & Ha1 & Ho1) & Hinv1 & g & Eg).
      assert (map_find d1 k = Some b) as Hb1 by (rewrite Eg, map_find_put by done; by rewrite decide_False by lia).
      assert (cur + n + (left - n) = cur + left) as Esum by lia.
      destruct (IH (Some k) (cur + n) (left - n) (Some off) c1 Ha1) as (f & d' & Hdo' & Hinv' & Hfin).
      { by rewrite Esum, Hc1. }
      { lia. }
      { intros Hpos. rewrite Hc1. exists b. split; [done|]. split; [destruct (s_head _ Hd _ _ Hb) as [Es _ Hlb _ _ _]; unfold bh_end; lia|]. intros i e Hi Hie. rewrite Eg in Hi. apply find_put_cases in Hi as [[-> ->]|[_ Hi]]; [| |done].
        - exfalso. pose proof (w_final _ _ _ _ _ _ Hinv1) as (_ & _ & fb & Hfb & He). rewrite Eg in Hfb. rewrite find_put_same in Hfb by done. injection Hfb as ->. lia.
        - apply (Hmin _ _ Hi). lia. }
      { destruct (decide (left - n = 0)) as [|Hx]; [by left|right]. rewrite Hc1, Eg. cbn [turns] in *. rewrite heads_from_put by (done || lia).
        rewrite (proj2 (Z.leb_le k (cur + n))) by lia. rewrite (proj2 (Z.leb_gt k cur)) in Hf by lia. lia. }
      exists f, d'. rewrite Esum in Hinv'. split; [|split; [done|]].
      * by apply (does_run _ _ off c1).
      * intros _. destruct (decide (0 < left - n)) as [Hx|Hx]; [by apply Hfin|]. assert (left - n = 0) as E0 by lia. destruct Hdo' as (c2 & E2 & _). rewrite E0 in E2. destruct fuel; by injection E2.
  - destruct (clear_at _ None cur (cur + left) Hd Hp) as [Hc Hn]; [done|lia|].
    destruct (write_gap c d0 off (cur + left) final cur left Ha Hinv ltac:(lia) ltac:(lia) Hc Hn) as (d1 & (c1 & E1 & Hc1 & Ha1 & Ho1) & Hinv1 & _).
    exists (Some off), d1. split; [|done]. apply (does_run _ _ off c1); [done..|]. replace (left - left) with 0 by lia.
    eapply does_eq; [|exact Hc1]. destruct fuel; by apply does_ret.
Qed.

Lemma map_write_ok c ex : acct c → shape (data c) → filled (data c) → 0 <= e_offset ex → 0 < e_length ex → e_offset ex + e_length ex < limit →
  ∃ d', does (map_write ex) c (e_offset ex) d' ∧ write_inv (data c) (e_offset ex) (e_offset ex + e_length ex) (Some (e_offset ex)) (e_offset ex + e_length ex) d'.
Proof.
  intros Ha Hd Hfi H0 Hl Hhi. unfold map_write.
  destruct (map_write_loop_ok (walk_fuel (data c)) (data_lower_bound (data c) (e_offset ex)) (e_offset ex) (e_length ex) None c (data c) (e_offset ex)) as (f & d' & Hdo & Hinv & Hfin).
  - done.
  - constructor; done || lia || by intros k b _; apply Hfi.
  - lia.
  - intros _. by apply p_ok_lower_bound.
  - right. apply turns_start.
  - rewrite Hfin in Hdo, Hinv by lia. exists d'. split; [|done]. apply does_gets_bind. eapply does_bind; [exact Hdo|]. intros c1 <- Ha1 _. by apply does_ret.
Qed.
End map_write.

(** ** [writex] *)

(** What a byte shows once it has been written. *)
Definition written (wrbl : list Z) (bo off : Z) d x : bhstate * Z * option Z * option (list Z) :=
  (STATE_DIRTY, 0, wrbl !! Z.to_nat (bo + (x - off)), waiting d x).

(** No head of the range is left out of what a read can tell. *)
Definition settled d : Prop := ∀ x v, view d x = Some v → v.1.1.1 ≠ STATE_MISSING.
Lemma settled_no_missing d : shape d → settled d → no_missing d.
Proof.
  intros Hd Hs k b Hb. destruct (s_head d Hd _ _ Hb) as [Es _ Hl _ _ _]. apply (Hs k (cell_of b k)). unfold view.
  rewrite (head_at_find d k b k Hd Hb); [done|]. unfold bh_end. lia.
Qed.

Section writex.
Context (rest : bhstate → Z) (orest : Z).
Abbreviation does := (does rest orest).
Abbreviation acct := (acct rest orest).

Lemma does_set_last s c d k b : acct c → ordered d → data c = map_put d k b → does (bh_set_state k s) c tt (map_put d k (to_state s b)).
Proof.
  intros Ha Ho Ed. eapply does_eq; [apply (does_set_state _ _ k s c b Ha)|].
  - rewrite Ed. by apply find_put_same.
  - by rewrite Ed, map_put_put.
Qed.

Lemma does_copy c d k b wrbl bo : acct c → ordered d → data c = map_put d k b → 0 <= bh_start b → 0 < bh_length b → bh_end b < limit →
  0 <= bo → bo + bh_length b <= Z.of_nat (length wrbl) → Z.of_nat (length wrbl) < limit →
  does (copy_frags k wrbl [(bo, bh_length b)] (bh_start b)) c tt (map_put d k (set_bl (take (Z.to_nat (bh_length b)) (drop (Z.to_nat bo) wrbl)) b)).
Proof.
  unfold bh_end, limit. intros Ha Ho Ed H0 Hl Hlim Hbo Hw Hlw. cbn [copy_frags]. apply (does_get_bind rest orest _ _ _ b); [rewrite Ed; by apply find_put_same|]. cbn [fst snd].
  assert (u64 (bh_start b - bh_start b) = 0) as -> by (by rewrite Z.sub_diag). rewrite Z.sub_0_r, u64_small by (lia).
  apply does_assert_bind; [by apply Z.leb_refl|]. apply (does_lift_bind rest orest _ _ _ _ _ _ (substr_of_ok wrbl bo (bh_length b) Hbo ltac:(lia) Hw Hlw)).
  eapply does_bind; [by apply does_ret|]. intros c1 E1 Ha1 _. cbn [app]. rewrite Ed in E1.
  eapply does_bind; [by eapply (does_change_last rest orest _ c1 d k b Ha1 Ho E1)|]. intros c2 <- Ha2 _. by apply does_ret.
Qed.

Lemma writex_ok c ex wrbl bo snapc now dn : acct c → shape (data c) → filled (data c) → settled (data c) →
  0 <= e_offset ex → 0 < e_length ex → e_offset ex + e_length ex < limit →
  e_buffer_extents ex = [(bo, e_length ex)] → 0 <= bo → bo + e_length ex <= Z.of_nat (length wrbl) → Z.of_nat (length wrbl) < limit →
  ∃ d', does (writex_extent ex wrbl snapc now dn) c tt d' ∧ shape d' ∧ filled d' ∧ settled d' ∧
    ∀ x, view d' x = if decide (in_range (e_offset ex) (e_offset ex + e_length ex) x) then Some (written wrbl bo (e_offset ex) (data c) x) else view (data c) x.
Proof.
  intros Ha Hd Hfi Hse H0 Hl Hhi Hex Hbo Hw Hlw. set (off := e_offset ex) in *. set (len := e_length ex) in *.
  destruct (map_write_ok rest orest c ex Ha Hd Hfi H0 Hl Hhi) as (d1 & Hdo & [Hd1 Hfi1 Hfin Hv Hwa _ _]). fold off len in Hdo, Hfi1, Hfin, Hv.
  destruct Hfin as (_ & _ & b & Hb & He). pose proof (s_ord _ Hd1) as Ho. destruct (s_head _ Hd1 _ _ Hb) as [Es _ Hlb Hlim _ _]. assert (bh_length b = len) as El by (unfold bh_end in He; lia).
  set (frag := take (Z.to_nat len) (drop (Z.to_nat bo) wrbl)).
  set (b1 := set_snapc snapc b). set (b2 := set_bl frag b1). set (b3 := to_state STATE_DIRTY b2). set (b4 := set_dontneed dn b3). set (b5 := set_write_time now b4).
  set (d2 := map_put d1 off b5).
  assert (same_place b b5) as Hsp by (unfold b5, b4, b3, to_state; destruct (negb (bool_decide (STATE_DIRTY = STATE_ERROR)) && is_error b2); done).
  assert (bh_state b5 = STATE_DIRTY ∧ bh_bl b5 = frag) as [Es5 Eb5] by (unfold b5, b4, b3, to_state; destruct (negb (bool_decide (STATE_DIRTY = STATE_ERROR)) && is_error b2); done).
  pose proof (shape_replaced d1 off b b5 Hd1 Hb Hsp) as Hd2. fold d2 in Hd2.
  assert (length frag = Z.to_nat len) as Hlf by (unfold frag; rewrite length_take, length_drop; lia).
  assert (filled d2) as Hfi2.
  { intros i e Hi. apply find_put_cases in Hi as [[-> ->]|[Hn Hi]]; [|apply (Hfi1 i); [congruence|done]|done]. unfold data_ok. rewrite Es5, Eb5. destruct Hsp as (_ & E2 & _). change (Z.of_nat (length frag) = bh_length b5). lia. }
  assert (∀ x, view d2 x = if decide (in_range off (off + len) x) then Some (written wrbl bo off (data c) x) else view (data c) x) as Hv2.
  { intros x. unfold d2. rewrite (view_replaced d1 off b b5 Hd1 Hb Hsp), He. case_decide as Hx; [|by apply Hv]. f_equal. unfold cell_of, written, tag, byte_of. rewrite Es5, Eb5. unfold in_range in Hx.
    destruct Hsp as (-> & _ & ->). rewrite Es. f_equal; [f_equal|].
    - unfold frag. rewrite lookup_take_lt by lia. rewrite lookup_drop. f_equal. lia.
    - rewrite <- Hwa. unfold waiting. rewrite (head_at_find d1 off b x Hd1 Hb) by lia. done. }
  assert (∃ d', does (writex_extent ex wrbl snapc now dn) c tt d' ∧ same_view d2 d') as (d' & Hdo' & Hs' & Hf' & Hv').
  { destruct Hdo as (c0 & E0 & Hc0 & Ha0 & Ho0).
    destruct (does_change rest orest off (set_snapc snapc) c0 b Ha0) as (c1 & E1 & Hc1 & Ha1 & Ho1); [by rewrite Hc0|done..|]. rewrite Hc0 in Hc1. fold b1 in Hc1.
    destruct (does_copy c1 d1 off b1 wrbl bo Ha1 Ho Hc1) as (c2 & E2 & Hc2 & Ha2 & Ho2); [cbn; lia|cbn; lia|unfold bh_end in *; cbn; lia|done|cbn; lia|done|]. cbn [b1 set_snapc bh_length bh_start] in E2, Hc2. rewrite El, Es in E2. rewrite El in Hc2.
    fold frag in Hc2. fold b1 in Hc2. fold b2 in Hc2.
    destruct (does_set_last STATE_DIRTY c2 d1 off b2 Ha2 Ho Hc2) as (c3 & E3 & Hc3 & Ha3 & Ho3). fold b3 in Hc3.
    destruct (does_change_last rest orest (set_dontneed dn) c3 d1 off b3 Ha3 Ho Hc3) as (c4 & E4 & Hc4 & Ha4 & Ho4); [done..|]. fold b4 in Hc4.
    destruct (does_change_last rest orest (set_write_time now) c4 d1 off b4 Ha4 Ho Hc4) as (c5 & E5 & Hc5 & Ha5 & Ho5); [done..|]. fold b5 in Hc5.
    change (data c5 = d2) in Hc5. destruct (does_try_merge rest orest c5 off b5 Ha5) as (d' & Hdo & Hsv); [by rewrite Hc5|by rewrite Hc5|rewrite Hc5; by apply find_put_same|by rewrite Es5|].
    exists d'. rewrite Hc5 in Hsv. split; [|done]. unfold writex_extent.
    apply (does_run _ _ _ _ off c0); [done..|]. apply (does_run _ _ _ _ tt c1); [done..|]. rewrite Hex. apply (does_run _ _ _ _ tt c2); [done..|].
    apply (does_run _ _ _ _ tt c3); [done..|]. apply (does_run _ _ _ _ tt c4); [done..|]. by apply (does_run _ _ _ _ tt c5). }
  exists d'. assert (∀ x, view d' x = if decide (in_range off (off + len) x) then Some (written wrbl bo off (data c) x) else view (data c) x) as Hview by (intros x; by rewrite Hv').
  split_and!; [done..| |done]. intros x v. rewrite Hview. case_decide; [by intros [= <-]|apply Hse].
Qed.
End writex.
