(* ===== verification/CacherIo.v ===== *)
(** * Reads: [_readx]

    A read that finds every byte returns the bytes the buffers show; otherwise
    it asks the handler for what is missing and waits on the heads it asked
    for. *)

From stdpp Require Import sorting.
From S2P Require Import Prelude StdMap IntervalSet SnapSet OsdMapping Striper Cacher.
From S2P Require Import CacherSpec CacherRead.

Implicit Types (d : buffers) (b e : BufferHead) (c : cache) (k x i : Z).

(** ** What a range shows *)

Definition shown (co : bool) d x : option (bhstate * Z * option Z * option (list Z)) :=
  match view d x with None => if co then Some (gap_cell true) else None | v => v end.
(** Every byte of the range can be read, and these are the bytes. *)
Definition shows (v : Z → option (bhstate * Z * option Z * option (list Z))) (off len : Z) (bs : list Z) : Prop :=
  Z.of_nat (length bs) = len ∧ ∀ x, off <= x < off + len → ∃ y, v x = Some y ∧ readable y.1.1.1 = true ∧ y.1.2 = bs !! Z.to_nat (x - off).

Lemma view_head d k b x : shape d → map_find d k = Some b → k <= x < bh_end b → view d x = Some (cell_of b x).
Proof. intros Hd Hb Hx. unfold view. by rewrite (head_at_find d k b x Hd Hb Hx). Qed.

(** ** The heads of a chain *)

Lemma chain_heads d cur stop l : chain d cur stop l → ∀ o k, (o, k) ∈ l → ∃ b, map_find d k = Some b ∧ k <= o < bh_end b ∧ cur <= o < stop.
Proof.
  revert cur. induction l as [|[o1 k1] l IH]; intros cur; simpl; [by intros _ o k ?%elem_of_nil|]. intros (-> & Hlt & b & Hb & Hk & Hc) o k [[= -> ->]|Hin]%elem_of_cons.
  - exists b. split_and!; done || lia.
  - destruct (IH _ Hc o k Hin) as (e & He & Hke & Ho). exists e. split_and!; done || lia.
Qed.
Lemma chain_moved d d' cur stop l : (∀ k b, map_find d k = Some b → ∃ b', map_find d' k = Some b' ∧ bh_end b' = bh_end b) → chain d cur stop l → chain d' cur stop l.
Proof.
  intros Hm. revert cur. induction l as [|[o k] l IH]; intros cur; simpl; [done|]. intros (-> & Hlt & b & Hb & Hk & Hc).
  destruct (Hm k b Hb) as (b' & Hb' & He). split; [done|]. split; [done|]. exists b'. rewrite He. split; [done|]. split; [done|]. by apply IH.
Qed.

(** The bytes of a head from [cur] on. *)
Lemma head_bytes d k b cur len : shape d → filled d → map_find d k = Some b → readable (bh_state b) = true → k <= cur → 0 <= len → cur + len <= bh_end b →
  ∃ bit, (if is_zero b then Ok (replicate (Z.to_nat len) 0) else substr_of (bh_bl b) (cur - bh_start b) len) = Ok bit ∧ length bit = Z.to_nat len ∧
    ∀ x, cur <= x < cur + len → byte_of b x = bit !! Z.to_nat (x - cur).
Proof.
  intros Hd Hfi Hb Hr Hk Hl Hle. destruct (s_head d Hd _ _ Hb) as [Es H0 Hlb Hlim _ _]. pose proof (Hfi _ _ Hb) as Hok. unfold is_zero. case_bool_decide as Ez.
  - eexists. split; [done|]. split; [apply length_replicate|]. intros x Hx. unfold byte_of. rewrite Ez. symmetry. apply lookup_replicate. split; [done|lia].
  - assert (has_data (bh_state b) = true) as Hh by (by destruct (bh_state b)). unfold data_ok in Hok. rewrite Hh in Hok. unfold bh_end in *.
    rewrite substr_of_ok by lia. eexists. split; [done|]. split; [rewrite length_take, length_drop; lia|]. intros x Hx.
    assert (byte_of b x = bh_bl b !! Z.to_nat (x - bh_start b)) as -> by (unfold byte_of; by destruct (bh_state b)).
    rewrite lookup_take_lt, lookup_drop by lia. f_equal. lia.
Qed.

(** ** [rmap] and the buffer it yields *)

Lemma next_head d k b k' b' cur : shape d → map_find d k = Some b → map_find d k' = Some b' → k <= cur < bh_end b → k' <= bh_end b < bh_end b' → k' = bh_end b.
Proof.
  intros Hd Hb Hb' Hk Hk'. destruct (Z.lt_trichotomy k k') as [Hlt|[->|Hlt]].
  - pose proof (s_apart d Hd _ _ _ _ Hb Hb' Hlt). lia.
  - rewrite Hb in Hb'. injection Hb' as ->. lia.
  - pose proof (s_apart d Hd _ _ _ _ Hb' Hb Hlt). lia.
Qed.

Lemma rmap_loop_ok fuel d off stop o k l cur m : shape d → filled d → ordered m → (∀ h, h ∈ (o, k) :: l → readable (state_at d h.2) = true) →
  chain d cur stop ((o, k) :: l) → 0 <= off <= cur → stop < limit → (length l < fuel)%nat →
  ∃ bs, rmap_loop fuel d (k :: l.*2) (cur - k) [(0, stop - off)] (cur - off) cur m = Ok (map_put m 0 (default [] (map_find m 0) ++ bs), [], stop) ∧
    Z.of_nat (length bs) = stop - cur ∧ ∀ x, cur <= x < stop → ∃ y, view d x = Some y ∧ readable y.1.1.1 = true ∧ y.1.2 = bs !! Z.to_nat (x - cur).
Proof.
  intros Hd Hfi. revert o k l cur m. induction fuel as [|fuel IH]; intros o k l cur m Hom Hr Hc Hoff Hlim Hf; [lia|].
  destruct Hc as (-> & Hlt & b & Hb & Hk & Hc). destruct (s_head d Hd _ _ Hb) as [Es H0 Hlb Hhi _ _].
  assert (readable (bh_state b) = true) as Hrb by (specialize (Hr (cur, k) ltac:(by left)); unfold state_at in Hr; cbn in Hr; by rewrite Hb in Hr).
  cbn [rmap_loop]. rewrite Hb. rewrite (proj2 (Z.eqb_eq cur (bh_start b + (cur - k)))) by lia. cbn [assert_c mbind res_bind]. cbv zeta. cbn [fst snd].
  unfold limit in *. rewrite (u64_small (stop - off - (cur - off))), (u64_small (bh_length b - (cur - k))) by (unfold bh_end in *; lia).
  set (len := Z.min (stop - off - (cur - off)) (bh_length b - (cur - k))). assert (len = Z.min (bh_end b) stop - cur) as El by (unfold bh_end in *; lia).
  destruct (head_bytes d k b cur len Hd Hfi Hb Hrb ltac:(lia) ltac:(lia) ltac:(lia)) as (bit & -> & Hlb1 & Hbit).
  set (m1 := map_put m 0 (default [] (map_find m 0) ++ bit)).
  assert (∀ x, cur <= x < cur + len → ∃ y, view d x = Some y ∧ readable y.1.1.1 = true ∧ y.1.2 = bit !! Z.to_nat (x - cur)) as Hv1.
  { intros x Hx. exists (cell_of b x). split; [apply (view_head d k); done || lia|]. split; [done|]. by apply Hbit. }
  destruct (decide (cur + len = stop)) as [Est|Est].
  - exists bit. split; [|split; [lia|intros x Hx; apply Hv1; lia]].
    rewrite (proj2 (Z.eqb_eq (cur - off + len) (stop - off))) by lia. cbn [negb]. destruct (cur + len =? bh_end b); [|by rewrite Est]. destruct l; by rewrite Est.
  - assert (cur + len = bh_end b) as Ee by lia. rewrite (proj2 (Z.eqb_eq (cur + len) (bh_end b))) by done. rewrite (proj2 (Z.eqb_neq (cur - off + len) (stop - off))) by lia.
    rewrite Z.min_l in Hc by lia. destruct l as [|[o' k'] l]; [simpl in Hc; lia|].
    pose proof Hc as (_ & _ & b' & Hb' & Hk' & _). pose proof (next_head d k b k' b' cur Hd Hb Hb' Hk Hk') as Ek'.
    destruct (IH o' k' l (bh_end b) m1) as (bs & E & Hlb2 & Hv2); [by apply map_put_ordered|intros h Hh; apply Hr; by right|done|lia|done|simpl in Hf; lia|].
    exists (bit ++ bs). split; [|split].
    + change ((o', k') :: l).*2 with (k' :: l.*2). change (((o', k') :: l).*2) with (k' :: l.*2) in E. rewrite Ee. replace (cur - off + len) with (bh_end b - off) by lia.
      rewrite Ek' in E |- *. rewrite Z.sub_diag in E. cbn [mbind res_bind]. fold m1. rewrite E. do 3 f_equal. unfold m1. rewrite map_put_put by done. f_equal. rewrite map_find_put by done. rewrite decide_True by done. cbn. by rewrite app_assoc.
    + rewrite length_app. lia.
    + intros x Hx. destruct (Z.lt_ge_cases x (bh_end b)) as [Hx1|Hx1].
      * destruct (Hv1 x ltac:(lia)) as (y & Hy & Hry & E'). exists y. split; [done|]. split; [done|]. rewrite E'. by rewrite lookup_app_l by lia.
      * destruct (Hv2 x ltac:(lia)) as (y & Hy & Hry & E'). exists y. split; [done|]. split; [done|]. rewrite E', lookup_app_r by lia. f_equal. lia.
Qed.

Lemma rmap_ok d ex l : shape d → filled d → (∀ h, h ∈ l → readable (state_at d h.2) = true) → chain d (e_offset ex) (e_offset ex + e_length ex) l →
  0 <= e_offset ex → 0 < e_length ex → e_offset ex + e_length ex < limit → e_buffer_extents ex = [(0, e_length ex)] →
  ∃ bs, rmap d l.*2 ex = Ok [(0, bs)] ∧ join_pieces [(0, bs)] = Ok bs ∧ shows (view d) (e_offset ex) (e_length ex) bs.
Proof.
  intros Hd Hfi Hr Hc H0 Hl Hlim Hex. destruct l as [|[o k] l]; [simpl in Hc; lia|]. pose proof Hc as (-> & _ & b & Hb & Hk & _). destruct (s_head d Hd _ _ Hb) as [Es _ _ _ _ _].
  destruct (rmap_loop_ok (length (k :: l.*2) + length (e_buffer_extents ex)) d (e_offset ex) (e_offset ex + e_length ex) (e_offset ex) k l (e_offset ex) [] Hd Hfi) as (bs & E & Hlb & Hv);
    [constructor|done|done|lia|done|simpl; rewrite length_fmap; lia|].
  exists bs. split; [|split; [done|split; [lia|done]]]. cbn [rmap fmap list_fmap snd]. change (snd <$> l) with l.*2. rewrite Hb. rewrite (proj2 (Z.leb_le (bh_start b) (e_offset ex))) by lia. cbn [assert_c mbind res_bind].
  rewrite Z.add_simpl_l, Z.sub_diag, <- Hex, Es in *. rewrite E. cbn. by rewrite Z.eqb_refl.
Qed.

(** ** [_readx] when every byte is there *)

Lemma filter_no {A} (P : A → Prop) `{∀ a, Decision (P a)} (l : list A) : (∀ a, a ∈ l → ¬ P a) → filter P l = [].
Proof.
  intros Hn. destruct (filter P l) as [|a r] eqn:E; [done|]. assert (a ∈ filter P l) as [HP Ha]%list_elem_of_filter by (rewrite E; by left). by destruct (Hn a Ha).
Qed.

(** Every head is moved to the top of its list. *)
Lemma touch_ok rest orest hs c : acct rest orest c → shape (data c) → filled (data c) → (∀ h, h ∈ hs → is_Some (map_find (data c) h.2)) →
  ∃ d', does rest orest (touch_all hs) c tt d' ∧ same_view (data c) d' ∧
    ∀ k b, map_find (data c) k = Some b → ∃ b', map_find d' k = Some b' ∧ bh_end b' = bh_end b ∧ bh_state b' = bh_state b.
Proof.
  revert c. induction hs as [|[o k] hs IH]; intros c Ha Hd Hfi Hh.
  - exists (data c). split; [by apply does_ret|]. split; [done|]. intros k b Hb. by exists b.
  - destruct (Hh (o, k) ltac:(by left)) as [b Hb]. cbn in Hb. set (b1 := set_dontneed false b). assert (same_place b b1) as Hsp by done.
    destruct (does_change rest orest k (set_dontneed false) c b Ha Hb) as (c1 & E1 & Hc1 & Ha1 & Ho1); [done..|]. fold b1 in Hc1. pose proof (s_ord _ Hd) as Ho.
    pose proof (shape_replaced _ k b b1 Hd Hb Hsp) as Hd1. set (d1 := map_put (data c) k b1) in *.
    assert (filled d1) as Hf1 by (apply filled_put; [done..|]; exact (Hfi _ _ Hb)).
    assert (∀ i e, map_find (data c) i = Some e → ∃ e', map_find d1 i = Some e' ∧ bh_end e' = bh_end e ∧ bh_state e' = bh_state e) as Hm1.
    { intros i e Hi. unfold d1. rewrite map_find_put by done. case_decide as E; [subst i; rewrite Hb in Hi; injection Hi as <-; by exists b1|by exists e]. }
    destruct (IH c1 Ha1) as (d' & Hdo & Hsv & Hm); rewrite ?Hc1; try done.
    { intros h Hin. destruct (Hh h ltac:(by right)) as [e He]. destruct (Hm1 _ _ He) as (e' & He' & _). by exists e'. }
    rewrite Hc1 in Hsv, Hm. exists d'. split; [by apply (does_run _ _ _ _ tt c1)|]. split.
    + eapply same_view_trans; [|exact Hsv]. split_and!; [done..|]. intros x. unfold d1. rewrite (view_replaced _ k b b1 Hd Hb Hsp).
      case_decide as Hx; [|done]. by rewrite (view_head _ k b x Hd Hb Hx).
    + intros i e Hi. destruct (Hm1 i e Hi) as (e1 & He1 & Ee1 & Es1). destruct (Hm i e1 He1) as (e2 & He2 & Ee2 & Es2). exists e2. split_and!; [done|congruence|congruence].
Qed.

Lemma hit_error_none d hs : (∀ h, h ∈ hs → readable (state_at d h.2) = true) → hit_error d hs = 0.
Proof.
  intros Hr. assert (∀ z : Z, foldl (λ (e : Z) (h : Z * Z), match map_find d h.2 with Some b => if is_error b && negb (bh_error b =? 0) then bh_error b else e | None => e end) z hs = z) as H by
    (induction hs as [|h hs IH]; intros z; [done|]; cbn [foldl]; rewrite IH by (intros h' Hh'; apply Hr; by right); specialize (Hr h ltac:(by left)); unfold state_at in Hr;
     destruct (map_find d h.2) as [b|]; [|done]; unfold is_error; case_bool_decide as E; [by rewrite E in Hr|done]).
  apply H.
Qed.

Section readx.
Context (rest : bhstate → Z) (orest : Z).
Abbreviation does := (does rest orest).
Abbreviation acct := (acct rest orest).

(** The range of a read and the buffer it fills, in one piece. *)
Record one_range (ex : ObjectExtent) : Prop := OneRange {
  o_lo : 0 <= e_offset ex;
  o_len : 0 < e_length ex;
  o_hi : e_offset ex + e_length ex < limit;
  o_buf : e_buffer_extents ex = [(0, e_length ex)];
}.
Definition all_readable (co : bool) d ex : Prop :=
  ∀ x, in_range (e_offset ex) (e_offset ex + e_length ex) x → ∃ y, shown co d x = Some y ∧ readable y.1.1.1 = true.

Record sound c : Prop := Sound {
  so_acct : acct c;
  so_shape : shape (data c);
  so_filled : filled (data c);
  so_settled : settled (data c);
}.

Lemma map_read_hits c ex : sound c → one_range ex → all_readable (complete c) (data c) ex →
  ∃ l d', does (map_read ex) c (Mapped l [] [] []) d' ∧ shape d' ∧ filled d' ∧ chain d' (e_offset ex) (e_offset ex + e_length ex) l ∧
    (∀ h, h ∈ l → readable (state_at d' h.2) = true) ∧
    ∀ x, view d' x = if decide (in_range (e_offset ex) (e_offset ex + e_length ex) x) then shown (complete c) (data c) x else view (data c) x.
Proof.
  intros [Ha Hd Hfi Hse] [H0 Hl Hlim _] Hall.
  destruct (map_read_ok rest orest c ex Ha Hd Hfi (settled_no_missing _ Hd Hse) H0 ltac:(lia) Hlim) as (m' & d' & Hdo & Hd' & Hf' & Hk & Hv & l & Hc & ->).
  assert (∀ x, view d' x = if decide (in_range (e_offset ex) (e_offset ex + e_length ex) x) then shown (complete c) (data c) x else view (data c) x) as Hv'.
  { intros x. rewrite Hv. unfold shown. destruct (decide (in_range (e_offset ex) (e_offset ex + e_length ex) x)) as [Hx|Hx]; [|by rewrite decide_False by tauto].
    destruct (Hall x Hx) as (y & Hy & _). unfold shown in Hy. destruct (view (data c) x) as [v|] eqn:E; [by rewrite decide_False by (by intros [_ ?])|].
    rewrite decide_True by done. by destruct (complete c). }
  assert (∀ h, h ∈ l → readable (state_at d' h.2) = true) as Hr.
  { intros [o k] Hin. destruct (chain_heads _ _ _ _ Hc o k Hin) as (b & Hb & Hko & Ho). unfold state_at. cbn. rewrite Hb. destruct (Hall o Ho) as (y & Hy & Hry).
    pose proof (Hv' o) as Hvo. rewrite decide_True, Hy, (view_head d' k b o Hd' Hb Hko) in Hvo by done. injection Hvo as <-. done. }
  exists l, d'. split; [|done]. assert (mapped_with d' no_mapped l = Mapped l [] [] []) as <-; [|done]. unfold mapped_with, pick. cbn. f_equal.
  - apply filter_all. intros h Hh. by apply Hr.
  - apply filter_no. intros h Hh. specialize (Hr h Hh). by destruct (state_at d' h.2).
  - apply filter_no. intros h Hh. specialize (Hr h Hh). by destruct (state_at d' h.2).
  - apply filter_no. intros h Hh. specialize (Hr h Hh). by destruct (state_at d' h.2).
Qed.

Lemma read_extent_hit c ex ms re cow ext retry tids : sound c → one_range ex → re && negb (exists_ c) = false → all_readable (complete c) (data c) ex →
  ∃ bs c', read_extent ms re cow ext retry tids ex c = Ok ((ReadDone bs, true), c') ∧ shows (shown (complete c) (data c)) (e_offset ex) (e_length ex) bs ∧ sound c' ∧ other c' = other c ∧
    ∀ x, view (data c') x = if decide (in_range (e_offset ex) (e_offset ex + e_length ex) x) then shown (complete c) (data c) x else view (data c) x.
Proof.
  intros Hs Ho Hex Hall. destruct (map_read_hits c ex Hs Ho Hall) as (l & d1 & (c1 & E1 & Hc1 & Ha1 & Ho1) & Hd1 & Hf1 & Hch & Hr & Hv). destruct Ho as [H0 Hl Hlim Hbuf].
  destruct (touch_ok rest orest l c1 Ha1) as (d2 & (c2 & E2 & Hc2 & Ha2 & Ho2) & (Hd2 & Hf2 & Hv2) & Hm2); rewrite ?Hc1; try done.
  { intros [o k] Hin. destruct (chain_heads _ _ _ _ Hch o k Hin) as (b & Hb & _). by exists b. }
  rewrite Hc1 in Hv2, Hm2.
  assert (∀ h, h ∈ l → readable (state_at d2 h.2) = true) as Hr2.
  { intros [o k] Hin. destruct (chain_heads _ _ _ _ Hch o k Hin) as (b & Hb & _). specialize (Hr _ Hin). destruct (Hm2 k b Hb) as (b' & Hb' & _ & Es). unfold state_at in *. cbn in *. rewrite Hb in Hr. by rewrite Hb', Es. }
  assert (chain d2 (e_offset ex) (e_offset ex + e_length ex) l) as Hch2.
  { eapply chain_moved; [|exact Hch]. intros k b Hb. destruct (Hm2 k b Hb) as (b' & Hb' & Ee & _). by exists b'. }
  destruct (rmap_ok d2 ex l Hd2 Hf2 Hr2 Hch2 H0 Hl Hlim Hbuf) as (bs & Er & Ej & Hsh).
  assert (∀ x, view d2 x = if decide (in_range (e_offset ex) (e_offset ex + e_length ex) x) then shown (complete c) (data c) x else view (data c) x) as Hvd by (intros x; by rewrite Hv2).
  exists bs, c2. split_and!.
  - unfold read_extent, gets, mbind, M_bind. rewrite Hex. unfold mret, M_ret. rewrite E1. cbn [missing hits errors rx foldl]. destruct ext; rewrite !bool_decide_eq_true_2 by done; cbn [negb orb];
      rewrite E2; unfold lift; rewrite Hc2, Er, (hit_error_none d2 l Hr2), Z.eqb_refl, Ej; done.
  - destruct Hsh as [Hlb Hsh]. split; [done|]. intros x Hx. destruct (Hsh x Hx) as (y & Hy & Hry & Eb). exists y. split; [|done]. rewrite <- Hy, Hvd. by rewrite decide_True.
  - constructor; rewrite ?Hc2; try done. intros x v. rewrite Hvd. case_decide as Hx; [|apply (so_settled c Hs)]. intros Hy. destruct (Hall x Hx) as (y & Hy' & Hry). rewrite Hy in Hy'. injection Hy' as <-. intros E. by rewrite E in Hry.
  - congruence.
  - intros x. by rewrite Hc2.
Qed.
End readx.

(** ** What the accounts do not see *)

Lemma acct_frame rest orest c c' : acct rest orest c → data c' = data c → stat c' = stat c → ob_dirty_or_tx c' = ob_dirty_or_tx c → oset_dirty_or_tx c' = oset_dirty_or_tx c →
  dirty_or_tx_bh c' = dirty_or_tx_bh c → ob_ref c' - Z.of_nat (length (ob_writes c')) = ob_ref c - Z.of_nat (length (ob_writes c)) → acct rest orest c'.
Proof.
  intros [Ho Hp Hs Hob Hos Hset Hr] Ed Es E1 E2 E3 Er. constructor; rewrite ?Ed, ?Es, ?E1, ?E2, ?E3; try done. lia.
Qed.

Lemma chain_inj d cur stop l : chain d cur stop l → ∀ o1 o2 k, (o1, k) ∈ l → (o2, k) ∈ l → o1 = o2.
Proof.
  revert cur. induction l as [|[o k0] l IH]; intros cur; [by intros _ o1 o2 k ?%elem_of_nil|]. intros (-> & Hlt & b & Hb & Hk & Hc).
  assert (∀ o, (o, k0) ∈ l → False) as Hno.
  { intros o Hin. destruct (chain_heads _ _ _ _ Hc o k0 Hin) as (e & He & Hke & Ho). rewrite Hb in He. injection He as <-. lia. }
  intros o1 o2 k [[= -> ->]|H1]%elem_of_cons [E|H2]%elem_of_cons; [by injection E| |injection E as -> ->|by apply (IH _ Hc o1 o2 k)]; exfalso; by eapply Hno.
Qed.
Lemma chain_covers d cur stop l k b x : shape d → chain d cur stop l → cur <= x < stop → map_find d k = Some b → k <= x < bh_end b → ∃ o, (o, k) ∈ l.
Proof.
  intros Hd. revert cur. induction l as [|[o k0] l IH]; intros cur; simpl; [lia|]. intros (-> & Hlt & e & He & Hk & Hc) Hx Hb Hkx.
  destruct (Z.lt_ge_cases x (bh_end e)) as [Hxe|Hxe].
  - destruct (heads_meet d k b k0 e x Hd Hb He Hkx ltac:(lia)) as [-> _]. exists cur. by left.
  - destruct (IH _ Hc ltac:(lia) Hb Hkx) as [o Ho]. exists o. by right.
Qed.

(** ** Asking for what is missing *)

(** A context that repeats a read is kept where it will be found. *)
Definition registered (t : Z) c : Prop := t ∈ waitfor_read c ∨ ∃ k b, map_find (data c) k = Some b ∧ bh_state b = STATE_RX ∧ t ∈ waiters_of b.

Lemma elem_of_concat {A} (x : A) ls : x ∈ concat ls ↔ ∃ l, x ∈ l ∧ l ∈ ls.
Proof. rewrite list_elem_of_In, in_concat. by setoid_rewrite list_elem_of_In; split; intros (l & H1 & H2); exists l. Qed.

Lemma waiters_of_put b o t w : ordered (bh_waitfor_read b) → t ∈ w → t ∈ waiters_of (set_waiters (map_put (bh_waitfor_read b) o w) b).
Proof.
  intros Ho Ht. unfold waiters_of. cbn. apply elem_of_concat. exists w. split; [done|]. apply list_elem_of_fmap. exists (o, w). split; [done|].
  apply map_find_elem; [by apply map_put_ordered|]. rewrite map_find_put by done. by rewrite decide_True.
Qed.
Lemma waiters_of_put_old b o t v : ordered (bh_waitfor_read b) → t ∈ waiters_of b → t ∈ waiters_of (set_waiters (map_put (bh_waitfor_read b) o (default [] (map_find (bh_waitfor_read b) o) ++ v)) b).
Proof.
  intros Ho Ht. unfold waiters_of in Ht. apply elem_of_concat in Ht as (w & Ht & ([o' w'] & -> & Hin)%list_elem_of_fmap). cbn in *. apply map_find_elem in Hin; [|done].
  destruct (decide (o' = o)) as [->|Hn]; [apply waiters_of_put; [done|]; rewrite Hin; cbn; apply elem_of_app; by left|].
  unfold waiters_of. cbn. apply elem_of_concat. exists w'. split; [done|]. apply list_elem_of_fmap. exists (o', w'). split; [done|].
  apply map_find_elem; [by apply map_put_ordered|]. rewrite map_find_put by done. by rewrite decide_False.
Qed.

Section waits.
Context (rest : bhstate → Z) (orest : Z).
Abbreviation acct := (acct rest orest).

Definition well c : Prop := acct c ∧ shape (data c) ∧ filled (data c).
Definition to_rx (t : Z) b : BufferHead := set_tids (bh_last_write_tid b) t (to_state STATE_RX b).

Lemma replaced_well c c' k b b' : acct c' → shape (data c) → filled (data c) → map_find (data c) k = Some b → same_place b b' → data_ok b' → data c' = map_put (data c) k b' → well c'.
Proof. intros Ha Hd Hf Hb Hs Hok Ed. split; [done|]. rewrite Ed. split; [by apply (shape_replaced _ k b)|]. apply filled_put; [apply Hd|done|done]. Qed.

Lemma bh_read_ok c k b : well c → map_find (data c) k = Some b → bh_state b = STATE_MISSING ∨ bh_state b = STATE_ERROR →
  ∃ c', bh_read k c = Ok (tt, c') ∧ well c' ∧ data c' = map_put (data c) k (to_rx (last_read_tid c + 1) b) ∧ waitfor_read c' = waitfor_read c ∧
    complete c' = complete c ∧ exists_ c' = exists_ c ∧ ob_reads c' = ob_reads c ++ [ReadOp k (bh_length b) true (last_read_tid c + 1)].
Proof.
  intros (Ha & Hd & Hf) Hb Hst. pose proof (s_ord _ Hd) as Ho. destruct (s_head _ Hd _ _ Hb) as [Es _ _ _ _ _].
  destruct (does_set_state rest orest k STATE_RX c b Ha Hb) as (c1 & E1 & Hc1 & Ha1 & Ho1). set (b1 := to_state STATE_RX b) in *.
  assert (bh_start b1 = bh_start b ∧ bh_length b1 = bh_length b) as [Es1 El1] by (destruct (same_place_state STATE_RX b) as (? & ? & _); done).
  set (c2 := with_reading (last_read_tid c1 + 1) (reads_outstanding c1) c1). assert (acct c2) as Ha2 by by apply (acct_frame _ _ c1).
  assert (last_read_tid c1 = last_read_tid c) as Et by by injection Ho1. assert (data c2 = map_put (data c) k b1) as Hc2 by done.
  destruct (does_change_last rest orest (λ b, set_tids (bh_last_write_tid b) (last_read_tid c + 1) b) c2 (data c) k b1 Ha2 Ho Hc2) as (c3 & E3 & Hc3 & Ha3 & Ho3); [done..|].
  set (c4 := with_ops (ob_reads c3 ++ [ReadOp k (bh_length b) true (last_read_tid c + 1)]) (ob_writes c3) c3). set (c5 := with_reading (last_read_tid c4) (reads_outstanding c4 + 1) c4).
  assert (set_tids (bh_last_write_tid b1) (last_read_tid c + 1) b1 = to_rx (last_read_tid c + 1) b) as Erx.
  { unfold to_rx. fold b1. f_equal. unfold b1, to_state. by destruct (negb (bool_decide (STATE_RX = STATE_ERROR)) && is_error b). }
  exists c5. rewrite Erx in Hc3. split; [|split_and!].
  - unfold bh_read, mbind, M_bind. rewrite E1. unfold modify, gets. fold c2. change (last_read_tid c2) with (last_read_tid c1 + 1). rewrite Et, E3.
    unfold get_bh. rewrite Hc3, find_put_same by done. change (bh_start (to_rx (last_read_tid c + 1) b)) with (bh_start b1). change (bh_length (to_rx (last_read_tid c + 1) b)) with (bh_length b1). by rewrite Es1, El1, Es.
  - eapply (replaced_well c c5 k b); [by apply (acct_frame _ _ c3)|done|done|done| | |exact Hc3]; [exact (same_place_state STATE_RX b)|].
    pose proof (Hf _ _ Hb) as Hok. unfold data_ok in *. cbn. unfold to_state. destruct Hst as [E|E]; rewrite E in Hok; cbn in Hok; by destruct (negb _ && _).
  - done.
  - unfold c5. cbn. injection Ho3. injection Ho1. congruence.
  - unfold c5. cbn. injection Ho3. injection Ho1. congruence.
  - unfold c5. cbn. injection Ho3. injection Ho1. congruence.
  - unfold c5. cbn. f_equal. injection Ho3. injection Ho1. congruence.
Qed.

(** What asking changes: heads to read are being read or are gone, the others
    are as they were, and no context is lost. *)
Record waits c c' : Prop := Waits {
  wa_old : ∀ k b', map_find (data c') k = Some b' → ∃ b, map_find (data c) k = Some b ∧ bh_end b' = bh_end b ∧ (bh_state b' = bh_state b ∨ bh_state b' = STATE_RX);
  wa_kept : ∀ k b, map_find (data c) k = Some b → bh_state b ≠ STATE_MISSING → bh_state b ≠ STATE_ERROR →
    ∃ b', map_find (data c') k = Some b' ∧ bh_end b' = bh_end b ∧ bh_state b' = bh_state b ∧ tag b' = tag b ∧ ∀ x, byte_of b' x = byte_of b x;
  wa_reg : ∀ t, registered t c → registered t c';
  wa_flags : complete c' = complete c ∧ exists_ c' = exists_ c;
}.
Lemma waits_refl c : waits c c.
Proof. constructor; [|intros k b Hb _ _; by exists b|done|done]. intros k b Hb. exists b. split_and!; [done|done|by left]. Qed.
Lemma waits_trans c1 c2 c3 : waits c1 c2 → waits c2 c3 → waits c1 c3.
Proof.
  intros [A1 A2 A3 [A4 A5]] [B1 B2 B3 [B4 B5]]. constructor; [| |by intros t H; apply B3, A3|split; congruence].
  - intros k b Hb. destruct (B1 k b Hb) as (b2 & Hb2 & E2 & S2). destruct (A1 k b2 Hb2) as (b1 & Hb1 & E1 & S1). exists b1. split_and!; [done|congruence|].
    destruct S2 as [->|?]; [done|by right].
  - intros k b Hb H1 H2. destruct (A2 k b Hb H1 H2) as (b2 & Hb2 & E2 & S2 & T2 & V2). destruct (B2 k b2 Hb2) as (b3 & Hb3 & E3 & S3 & T3 & V3); [congruence..|].
    exists b3. split_and!; [done|congruence..|]. intros x. by rewrite V3.
Qed.

Lemma clear_of_head d k b : shape d → map_find d k = Some b → clear_of d k (bh_end b).
Proof.
  intros Hd Hb i e Hi. destruct (Z.lt_trichotomy i k) as [Hlt|[|Hlt]]; [|by left|].
  - right; left. by apply (s_apart d Hd _ _ _ _ Hi Hb).
  - right; right. by apply (s_apart d Hd _ _ _ _ Hb Hi).
Qed.

(** One head is changed, and keeps its waiters. *)
Lemma waits_put c c' k b b' : ordered (data c) → map_find (data c) k = Some b → data c' = map_put (data c) k b' → bh_end b' = bh_end b → 
  bh_state b' = bh_state b ∧ tag b' = tag b ∧ (∀ x, byte_of b' x = byte_of b x) ∨ bh_state b' = STATE_RX ∧ (bh_state b = STATE_MISSING ∨ bh_state b = STATE_ERROR) →
  (∀ t, t ∈ waiters_of b → t ∈ waiters_of b') → waitfor_read c' = waitfor_read c → complete c' = complete c → exists_ c' = exists_ c → waits c c'.
Proof.
  intros Ho Hb Hd He Hs Hw Hwf Hco Hex. constructor; [| | |done].
  - intros i e. rewrite Hd, map_find_put by done. case_decide as Ei; [|intros H; exists e; split_and!; [done|done|by left]].
    subst i. intros [= <-]. exists b. split_and!; [done|done|]. destruct Hs as [(? & _)|[? _]]; [by left|by right].
  - intros i e Hi H1 H2. rewrite Hd. setoid_rewrite map_find_put; [|done]. case_decide as Ei; [|by exists e]. subst i. rewrite Hb in Hi. injection Hi as <-.
    destruct Hs as [(S & T & V)|[_ [?|?]]]; [|done|done]. by exists b'.
  - intros t [Ht|(i & e & Hi & Hr & Ht)]; [left; by rewrite Hwf|right]. rewrite Hd. setoid_rewrite map_find_put; [|done].
    destruct (decide (i = k)) as [->|Hn].
    + rewrite Hb in Hi. injection Hi as <-. exists k, b'. rewrite decide_True by done. split_and!; [done| |by apply Hw]. destruct Hs as [(S & _)|[? _]]; [congruence|done].
    + exists i, e. by rewrite decide_False.
Qed.
Lemma waits_del c c' k b : map_find (data c) k = Some b → data c' = map_del (data c) k → bh_state b = STATE_MISSING ∨ bh_state b = STATE_ERROR →
  (∀ t, t ∈ waitfor_read c → t ∈ waitfor_read c') → complete c' = complete c → exists_ c' = exists_ c → waits c c'.
Proof.
  intros Hb Hd Hs Hwf Hco Hex. constructor; [| | |done].
  - intros i e. rewrite Hd, map_find_del. case_decide as Ei; [done|]. intros H. exists e. split_and!; [done|done|by left].
  - intros i e Hi H1 H2. rewrite Hd. setoid_rewrite map_find_del. case_decide as Ei; [|by exists e]. subst i. rewrite Hb in Hi. injection Hi as <-. by destruct Hs.
  - intros t [Ht|(i & e & Hi & Hr & Ht)]; [left; by apply Hwf|right]. rewrite Hd. setoid_rewrite map_find_del. exists i, e. rewrite decide_False; [done|].
    intros ->. rewrite Hb in Hi. injection Hi as <-. by destruct Hs as [E|E]; rewrite E in Hr.
Qed.

Lemma push_waiter_ok c k off t b : well c → map_find (data c) k = Some b → k <= off < bh_end b →
  ∃ c' b', push_waiter k off t c = Ok (tt, c') ∧ well c' ∧ data c' = map_put (data c) k b' ∧ waits c c' ∧ t ∈ waiters_of b' ∧ bh_state b' = bh_state b ∧ other c' = other c.
Proof.
  intros (Ha & Hd & Hf) Hb Hoff. pose proof (s_ord _ Hd) as Ho. destruct (s_head _ Hd _ _ Hb) as [Es H0 Hl Hlim Hwo Hw].
  set (b' := set_waiters (map_put (bh_waitfor_read b) off (default [] (map_find (bh_waitfor_read b) off) ++ [t])) b).
  destruct (does_change rest orest k (λ b, set_waiters (map_put (bh_waitfor_read b) off (default [] (map_find (bh_waitfor_read b) off) ++ [t])) b) c b Ha Hb) as (c' & E & Hc' & Ha' & Ho'); [done..|].
  fold b' in Hc'. exists c', b'. split; [done|]. split; [|split_and!].
  - split; [done|]. rewrite Hc'. split; [|apply filled_put; [done..|exact (Hf _ _ Hb)]]. apply shape_put; [done| |exact (clear_of_head _ _ _ Hd Hb)].
    constructor; [done|done|done|done|by apply map_put_ordered|]. intros o Hin. cbn [b' bh_waitfor_read set_waiters] in Hin. rewrite map_put_keys in Hin. destruct Hin as [->|?]; [done|by apply Hw].
  - done.
  - eapply (waits_put c c' k b b'); try done; [by left| | | |]; [|injection Ho'; congruence..]. intros s. by apply waiters_of_put_old.
  - apply waiters_of_put; [done|]. apply elem_of_app. right. by left.
  - done.
  - done.
Qed.

Definition asking_state (s : bhstate) : Prop := s = STATE_MISSING ∨ s = STATE_ERROR.
Definition asking b : Prop := asking_state (bh_state b).

(** One head of a read is asked for, or dropped when too much is being read. *)
Lemma missing_step ms t off k ok c b : well c → map_find (data c) k = Some b → asking b → k <= off < bh_end b →
  ∃ c', (st ← gets stat; w ← gets waitfor_read;
         if negb (bool_decide (w = [])) || (ms <? u64 (st STATE_RX + bh_length b)) then
           (if (ok : bool) then modify (with_waitfor_read (w ++ [t])) else mret tt);; bh_remove k
         else bh_read k;; if ok then push_waiter k off t else mret tt) c = Ok (tt, c') ∧ well c' ∧ waits c c' ∧
    (∀ i, i ≠ k → map_find (data c') i = map_find (data c) i) ∧ (∀ b', map_find (data c') k = Some b' → bh_state b' = STATE_RX) ∧ (ok = true → registered t c').
Proof.
  intros Hw Hb Has Hoff. pose proof Hw as (Ha & Hd & Hf). pose proof (s_ord _ Hd) as Ho. unfold gets, mbind, M_bind. cbn [fst snd].
  destruct (negb (bool_decide (waitfor_read c = [])) || (ms <? u64 (stat c STATE_RX + bh_length b))).
  - set (c1 := if ok then with_waitfor_read (waitfor_read c ++ [t]) c else c).
    assert ((if ok then modify (with_waitfor_read (waitfor_read c ++ [t])) else mret tt) c = Ok (tt, c1)) as -> by by destruct ok.
    assert (acct c1) as Ha1 by (unfold c1; destruct ok; [by apply (acct_frame _ _ c)|done]). assert (data c1 = data c) as Hc1 by (unfold c1; by destruct ok).
    destruct (does_remove rest orest k b c1 Ha1) as (c2 & E2 & Hc2 & Ha2 & Ho2); [by rewrite Hc1|]. rewrite Hc1 in Hc2. rewrite E2.
    assert (waitfor_read c2 = waitfor_read c1 ∧ complete c2 = complete c1 ∧ exists_ c2 = exists_ c1) as (W2 & C2 & X2) by (injection Ho2; done).
    exists c2. split; [done|]. split; [|split; [|split; [|split]]].
    + split; [done|]. rewrite Hc2. split; [by apply shape_del|by apply filled_del].
    + eapply (waits_del c c2 k b); [done|done|done| |rewrite C2; unfold c1; by destruct ok|rewrite X2; unfold c1; by destruct ok].
      intros s Hs. rewrite W2. unfold c1. destruct ok; [|done]. cbn. apply elem_of_app. by left.
    + intros i Hi. rewrite Hc2, map_find_del. by rewrite decide_False.
    + intros b'. rewrite Hc2, map_find_del. by rewrite decide_True.
    + intros ->. left. rewrite W2. cbn. apply elem_of_app. right. by left.
  - destruct (bh_read_ok c k b Hw Hb Has) as (c1 & E1 & Hw1 & Hc1 & W1 & C1 & X1 & _). rewrite E1. set (b1 := to_rx (last_read_tid c + 1) b) in *.
    assert (map_find (data c1) k = Some b1) as Hb1 by (rewrite Hc1; by apply find_put_same). assert (bh_end b1 = bh_end b) as Ee by exact (same_place_end _ _ (same_place_state STATE_RX b)).
    assert (bh_waitfor_read b1 = bh_waitfor_read b) as Ew by (by destruct (same_place_state STATE_RX b) as (_ & _ & ?)).
    assert (waits c c1) as Hwa1 by (eapply (waits_put c c1 k b b1); try done; [by right|]; intros s; unfold waiters_of; by rewrite Ew).
    destruct ok.
    + destruct (push_waiter_ok c1 k off t b1 Hw1 Hb1 ltac:(lia)) as (c2 & b2 & E2 & Hw2 & Hc2 & Hwa2 & Ht & Es2 & Ho2). rewrite E2. exists c2. split; [done|]. split; [done|].
      split; [by eapply waits_trans|]. assert (∀ i, map_find (data c2) i = if decide (i = k) then Some b2 else map_find (data c) i) as Hfind.
      { intros i. rewrite Hc2, map_find_put by apply Hw1. case_decide; [done|]. rewrite Hc1, map_find_put by done. by rewrite decide_False. }
      split; [intros i Hi; by rewrite Hfind, decide_False|]. split; [intros b'; rewrite Hfind, decide_True by done; intros [= <-]; by rewrite Es2|].
      intros _. right. exists k, b2. rewrite Hfind, decide_True by done. split_and!; [done|by rewrite Es2|done].
    + exists c1. split; [done|]. split; [done|]. split; [done|]. split; [intros i Hi; rewrite Hc1, map_find_put by done; by rewrite decide_False|].
      split; [intros b'; rewrite Hb1; by intros [= <-]|done].
Qed.

Lemma read_missing_ok mx t ms ok c : well c → NoDup ms.*2 → (∀ o k, (o, k) ∈ ms → ∃ b, map_find (data c) k = Some b ∧ asking b ∧ k <= o < bh_end b) →
  ∃ c', read_missing mx (Some t) ms ok c = Ok (ok && bool_decide (ms = []), c') ∧ well c' ∧ waits c c' ∧
    (∀ o k b', (o, k) ∈ ms → map_find (data c') k = Some b' → bh_state b' = STATE_RX) ∧ (ok = true → ms ≠ [] → registered t c').
Proof.
  revert ok c. induction ms as [|[o k] ms IH]; intros ok c Hw Hnd Hms.
  - exists c. split; [by destruct ok|]. split; [done|]. split; [apply waits_refl|]. split; [by intros o k b' ?%elem_of_nil|done].
  - apply NoDup_cons in Hnd as [Hk Hnd]. destruct (Hms o k ltac:(by left)) as (b & Hb & Has & Hoff).
    destruct (missing_step mx t o k ok c b Hw Hb Has Hoff) as (c1 & E1 & Hw1 & Hwa1 & Hother & Hrx & Hreg).
    destruct (IH false c1 Hw1 Hnd) as (c2 & E2 & Hw2 & Hwa2 & Hrx2 & _).
    { intros o' k' Hin. destruct (Hms o' k' ltac:(by right)) as (b' & Hb' & Hx). exists b'. rewrite Hother; [done|]. intros ->. apply Hk. apply list_elem_of_fmap. by exists (o', k). }
    exists c2. split; [|split; [done|]; split; [by eapply waits_trans|]; split].
    + cbn [read_missing]. unfold mbind at 1, M_bind at 1, get_bh. rewrite Hb. rewrite (bool_decide_eq_false_2 ((o, k) :: ms = [])), andb_false_r by done.
      revert E1. unfold mbind, M_bind, gets. cbn [default]. destruct (negb _ || _).
      * destruct ok; cbn; [unfold modify|unfold mret, M_ret]; intros ->; exact E2.
      * destruct (bh_read k c) as [[[] c1']|]; [|done]. intros ->. exact E2.
    + intros o' k' b' [[= -> ->]|Hin]%elem_of_cons Hf; [|by apply (Hrx2 o' k' b')].
      destruct (wa_old _ _ Hwa2 _ _ Hf) as (b1 & Hb1 & _ & [E|E]); [|done]. rewrite E. by apply Hrx.
    + intros Hok _. apply (wa_reg _ _ Hwa2). by apply Hreg.
Qed.

Lemma well_change c c' k b b' : well c → acct c' → map_find (data c) k = Some b → same_place b b' → data_ok b' → data c' = map_put (data c) k b' →
  bh_state b' = bh_state b → tag b' = tag b → (∀ x, byte_of b' x = byte_of b x) → other c' = other c → well c' ∧ waits c c'.
Proof.
  intros (Ha & Hd & Hf) Ha' Hb Hs Hok Hc' S T V Ho. split; [by eapply (replaced_well c c' k b b')|].
  eapply (waits_put c c' k b b'); try done; [apply Hd|by apply same_place_end|by left| | | |]; [|injection Ho; congruence..]. intros s. unfold waiters_of. by destruct Hs as (_ & _ & ->).
Qed.
Lemma keep_ok c k b : well c → map_find (data c) k = Some b →
  ∃ c', change_bh k (set_dontneed false) c = Ok (tt, c') ∧ well c' ∧ waits c c' ∧ map_find (data c') k = Some (set_dontneed false b) ∧ ∀ i, i ≠ k → map_find (data c') i = map_find (data c) i.
Proof.
  intros Hw Hb. pose proof Hw as (Ha & Hd & Hf). destruct (does_change rest orest k (set_dontneed false) c b Ha Hb) as (c1 & E1 & Hc1 & Ha1 & Ho1); [done..|].
  destruct (well_change c c1 k b (set_dontneed false b) Hw Ha1 Hb) as [Hw1 Hwa1]; try done; [exact (Hf _ _ Hb)|]. exists c1. split_and!; [done|done|done| |].
  - rewrite Hc1. apply find_put_same, Hd.
  - intros i Hi. rewrite Hc1, map_find_put by apply Hd. by rewrite decide_False.
Qed.

Lemma wait_rx_ok t rs ok c : well c → (∀ o k, (o, k) ∈ rs → ∃ b, map_find (data c) k = Some b ∧ bh_state b = STATE_RX ∧ k <= o < bh_end b) →
  ∃ r c', wait_rx (Some t) rs ok c = Ok (r, c') ∧ well c' ∧ waits c c' ∧ (ok = true → rs ≠ [] → registered t c').
Proof.
  revert ok c. induction rs as [|[o k] rs IH]; intros ok c Hw Hrs; [exists ok, c; split_and!; [done|done|apply waits_refl|done]|].
  destruct (Hrs o k ltac:(by left)) as (b & Hb & Hst & Hoff). destruct (keep_ok c k b Hw Hb) as (c1 & E1 & Hw1 & Hwa1 & Hb1 & _).
  assert (∃ c2, (if ok then push_waiter k o t else mret tt) c1 = Ok (tt, c2) ∧ well c2 ∧ waits c1 c2 ∧ (ok = true → registered t c2)) as (c2 & E2 & Hw2 & Hwa2 & Hreg).
  { destruct ok; [|exists c1; split_and!; [done|done|apply waits_refl|done]]. destruct (push_waiter_ok c1 k o t _ Hw1 Hb1 Hoff) as (c2 & b2 & E2 & Hw2 & Hc2 & Hwa2 & Ht & Es & _).
    exists c2. split_and!; [done..|]. intros _. right. exists k, b2. split_and!; [rewrite Hc2; apply find_put_same, Hw1|by rewrite Es|done]. }
  destruct (IH false c2 Hw2) as (r & c3 & E3 & Hw3 & Hwa3 & _).
  { intros o' k' Hin. destruct (Hrs o' k' ltac:(by right)) as (e & He & Hse & Hoe). destruct (wa_kept _ _ (waits_trans _ _ _ Hwa1 Hwa2) k' e He) as (e' & He' & Ee & Se & _); [by rewrite Hse..|].
    exists e'. split_and!; [done|congruence|lia|lia]. }
  exists r, c3. split; [|split; [done|split]].
  - cbn [wait_rx]. unfold mbind at 1, M_bind at 1. rewrite E1. unfold mbind, M_bind. by rewrite E2.
  - eapply waits_trans; [exact Hwa1|]. by eapply waits_trans.
  - intros Hok _. apply (wa_reg _ _ Hwa3). by apply Hreg.
Qed.
Lemma touch_waits hs c : well c → (∀ o k, (o, k) ∈ hs → is_Some (map_find (data c) k)) → ∃ c', touch_all hs c = Ok (tt, c') ∧ well c' ∧ waits c c'.
Proof.
  revert c. induction hs as [|[o k] hs IH]; intros c Hw Hh; [exists c; split_and!; [done|done|apply waits_refl]|].
  destruct (Hh o k ltac:(by left)) as [b Hb]. destruct (keep_ok c k b Hw Hb) as (c1 & E1 & Hw1 & Hwa1 & Hb1 & Hother).
  destruct (IH c1 Hw1) as (c2 & E2 & Hw2 & Hwa2).
  { intros o' k' Hin. destruct (decide (k' = k)) as [->|]; [by rewrite Hb1|]. rewrite Hother by done. apply (Hh o'). by right. }
  exists c2. split; [|split; [done|by eapply waits_trans]]. cbn [touch_all]. unfold mbind, M_bind. by rewrite E1.
Qed.
End waits.

(** ** The heads a read is waiting for *)

Lemma chain_ordered d cur stop l : chain d cur stop l → ordered l.
Proof.
  unfold ordered. revert cur. induction l as [|[o k] l IH]; intros cur; [constructor|]. intros (-> & Hlt & b & Hb & Hk & Hc). cbn. constructor; [by eapply IH|].
  apply Forall_forall. intros o ([o' k'] & -> & Hin)%list_elem_of_fmap. destruct (chain_heads _ _ _ _ Hc o' k' Hin) as (_ & _ & _ & Ho). cbn. lia.
Qed.

Definition join_miss (a bs : list (Z * Z)) : list (Z * Z) := foldl (λ (a : list (Z * Z)) (x : Z * Z), if map_count a x.1 then a else map_put a x.1 x.2) a bs.

Lemma map_put_elem {A} (m : list (Z * A)) k v i w : ordered m → map_find m k = None → (i, w) ∈ map_put m k v ↔ i = k ∧ w = v ∨ (i, w) ∈ m.
Proof.
  intros Ho Hn. rewrite <- !map_find_elem by (done || by apply map_put_ordered). rewrite map_find_put by done. case_decide as E; [subst i; rewrite Hn|].
  - split; [intros [= <-]; by left|by intros [[_ ->]|?]].
  - split; [by right|by intros [[? _]|?]].
Qed.
Lemma join_miss_ok a bs : ordered a → ordered (join_miss a bs) ∧ (∀ u, u ∈ a → u ∈ join_miss a bs) ∧ (∀ u, u ∈ join_miss a bs → u ∈ a ∨ u ∈ bs) ∧ (bs ≠ [] → join_miss a bs ≠ []).
Proof.
  unfold join_miss. revert a. induction bs as [|[o k] bs IH]; intros a Ho; [split_and!; [done|done|by left|done]|]. cbn [foldl fst snd].
  set (a1 := if map_count a o then a else map_put a o k).
  assert (ordered a1 ∧ (∀ u, u ∈ a → u ∈ a1) ∧ (∀ u, u ∈ a1 → u ∈ a ∨ u = (o, k)) ∧ a1 ≠ []) as (Ho1 & H1 & H2 & H3).
  { unfold a1, map_count. case_bool_decide as Hc.
    - split_and!; [done|done|by left|]. intros ->. by destruct Hc.
    - assert (map_find a o = None) as Hn by (destruct (map_find a o); [destruct Hc; by eexists|done]). split_and!.
      + by apply map_put_ordered.
      + intros [i w] He. apply map_put_elem; [done..|]. by right.
      + intros [i w] He. apply map_put_elem in He as [[-> ->]|?]; [by right|by left|done|done].
      + intros E. assert ((o, k) ∈ map_put a o k) as Hin by (apply map_put_elem; [done..|by left]). rewrite E in Hin. by apply elem_of_nil in Hin. }
  destruct (IH a1 Ho1) as (A1 & A2 & A3 & A4). split_and!; [done|intros e He; by apply A2, H1| |].
  - intros e [He|He]%A3; [apply H2 in He as [?| ->]; [by left|right; by left]|right; by right].
  - intros _ E. destruct a1 as [|z a1]; [done|]. specialize (A2 z ltac:(by left)). rewrite E in A2. by apply elem_of_nil in A2.
Qed.
Lemma NoDup_snd (l : list (Z * Z)) : NoDup l.*1 → (∀ o1 o2 k, (o1, k) ∈ l → (o2, k) ∈ l → o1 = o2) → NoDup l.*2.
Proof.
  induction l as [|[o k] l IH]; [by constructor|]. intros [Ho Hn]%NoDup_cons Hi. apply NoDup_cons. split; [|apply IH; [done|]; intros o1 o2 k' H1 H2; apply (Hi o1 o2 k'); by right].
  intros ([o' k'] & E & Hin)%list_elem_of_fmap. cbn in E. subst k'. apply Ho. rewrite (Hi o o' k) by (by left || by right). apply list_elem_of_fmap. by exists (o', k).
Qed.

Section readx_waits.
Context (rest : bhstate → Z) (orest : Z).
Abbreviation sound := (sound rest orest).

Lemma pick_elem d f l o k : (o, k) ∈ pick d f l ↔ f (state_at d k) = true ∧ (o, k) ∈ l.
Proof. unfold pick. by rewrite list_elem_of_filter. Qed.

(** A byte that cannot be read is in a head that was found so. *)
Lemma unreadable_found co d d' ex l : shape d' → chain d' (e_offset ex) (e_offset ex + e_length ex) l → read_view co (e_offset ex) (e_offset ex + e_length ex) d d' →
  ¬ all_readable co d ex → ∃ o k, (o, k) ∈ l ∧ readable (state_at d' k) = false.
Proof.
  intros Hd Hc Hv Hn. destruct (existsb (λ h, negb (readable (state_at d' h.2))) l) eqn:E.
  - apply existsb_exists in E as ([o k] & Hin%list_elem_of_In & Hr%negb_true_iff). by exists o, k.
  - exfalso. apply Hn. intros x Hx. assert (is_Some (view d' x)) as [y Hy].
    { clear E Hn Hv. revert Hx Hc. unfold in_range. generalize (e_offset ex) at 1 3. intros cur. revert cur. induction l as [|[o k] l IH]; intros cur Hx Hc; simpl in Hc; [lia|].
      destruct Hc as (-> & Hlt & b & Hb & Hk & Hc). destruct (Z.lt_ge_cases x (bh_end b)); [eexists; apply (view_head d' k b); done || lia|]. apply (IH (Z.min (bh_end b) (e_offset ex + e_length ex))); [lia|done]. }
    assert (readable y.1.1.1 = true) as Hr.
    { unfold view in Hy. destruct (head_at d' x) as [b|] eqn:Eh; [|done]. injection Hy as <-. apply head_at_spec in Eh as [Hb Hxb]; [|done].
      destruct (chain_covers _ _ _ _ (bh_start b) b x Hd Hc Hx Hb Hxb) as [o Ho]. destruct (readable (bh_state b)) eqn:Er; [done|].
      assert (existsb (λ h, negb (readable (state_at d' h.2))) l = true) as E'; [|congruence].
      apply existsb_exists. exists (o, bh_start b). split; [by apply list_elem_of_In|]. cbn. unfold state_at. by rewrite Hb, Er. }
    rewrite Hv in Hy. unfold shown. destruct (view d x) as [v|] eqn:Ev; [rewrite decide_False in Hy by (by intros [_ ?]); injection Hy as <-; by eexists|].
    rewrite decide_True in Hy by done. injection Hy as <-. destruct co; [by eexists|done].
Qed.

(** No buffer of a failed read is in the range. *)
Definition no_errors d ex : Prop := ∀ x y, in_range (e_offset ex) (e_offset ex + e_length ex) x → view d x = Some y → y.1.1.1 ≠ STATE_ERROR.

Lemma no_errors_pick c d1 ex l : no_errors (data c) ex → shape d1 → chain d1 (e_offset ex) (e_offset ex + e_length ex) l →
  (∀ x, view d1 x = if decide (in_range (e_offset ex) (e_offset ex + e_length ex) x ∧ view (data c) x = None) then Some (gap_cell (complete c)) else view (data c) x) →
  pick d1 (λ s, bool_decide (s = STATE_ERROR)) l = [].
Proof.
  intros Hn Hd Hc Hv. apply filter_no. intros [o k] Hin Hs%bool_decide_eq_true. destruct (chain_heads _ _ _ _ Hc o k Hin) as (b & Hb & Hko & Ho).
  unfold state_at in Hs. cbn in Hs. rewrite Hb in Hs. pose proof (view_head d1 k b o Hd Hb Hko) as Hvo. rewrite Hv in Hvo. case_decide as Hx.
  - injection Hvo as E. unfold gap_cell, cell_of in E. destruct (complete c); congruence.
  - by apply (Hn o _ Ho Hvo).
Qed.

(** A read that cannot be answered asks for what it lacks, keeps every byte
    that is known, and registers the context that repeats it. *)
Lemma read_extent_waits c ex ms re cow ext t tids : sound c → one_range ex → re && negb (exists_ c) = false → ¬ all_readable (complete c) (data c) ex →
  ext = true ∨ no_errors (data c) ex →
  ∃ c', read_extent ms re cow ext (Some t) tids ex c = Ok ((ReadDeferred, false), c') ∧ sound c' ∧ registered t c' ∧ (∀ s, registered s c → registered s c') ∧
    (∀ x y, view (data c) x = Some y → y.1.1.1 ≠ STATE_ERROR → ∃ w, view (data c') x = Some (y.1, w)) ∧
    (∀ x y, view (data c') x = Some y → readable y.1.1.1 = true → ∃ w, shown (complete c) (data c) x = Some (y.1, w)) ∧ complete c' = complete c ∧ exists_ c' = exists_ c.
Proof.
  intros [Ha Hd Hfi Hse] [H0 Hl Hlim _] Hex Hun Hext.
  destruct (map_read_ok rest orest c ex Ha Hd Hfi (settled_no_missing _ Hd Hse) H0 ltac:(lia) Hlim) as (m' & d1 & (c1 & E1 & Hc1 & Ha1 & Ho1) & Hd1 & Hf1 & Hk & Hv & l & Hc & Em).
  destruct (unreadable_found _ _ _ _ _ Hd1 Hc Hv Hun) as (o0 & k0 & Hin0 & Hr0). assert (well rest orest c1) as Hw1 by (split; [done|]; by rewrite Hc1).
  set (st := λ s s' : bhstate, bool_decide (s' = s)). set (miss := join_miss (pick d1 (st STATE_MISSING) l) (pick d1 (st STATE_ERROR) l)).
  assert (∀ o k, (o, k) ∈ l → ∃ b, map_find (data c1) k = Some b ∧ k <= o < bh_end b ∧ state_at d1 k = bh_state b) as Hl1.
  { intros o k Hin. destruct (chain_heads _ _ _ _ Hc o k Hin) as (b & Hb & Hko & _). exists b. rewrite Hc1. unfold state_at. by rewrite Hb. }
  pose proof (chain_ordered _ _ _ _ Hc) as Hol. destruct (join_miss_ok (pick d1 (st STATE_MISSING) l) (pick d1 (st STATE_ERROR) l)) as (Hom & Hm1 & Hm2 & Hm3); [by apply filter_ordered|]. fold miss in Hom, Hm1, Hm2, Hm3.
  assert (∀ o k, (o, k) ∈ miss → (o, k) ∈ l ∧ asking_state (state_at d1 k)) as Hmiss.
  { intros o k [Hin|Hin]%Hm2; apply pick_elem in Hin as [Hs%bool_decide_eq_true Hin]; split; try done; [by left|by right]. }
  destruct (read_missing_ok rest orest ms t miss true c1 Hw1) as (c2 & E2 & Hw2 & Hwa2 & Hrx2 & Hreg2).
  { apply NoDup_snd; [by apply (ordered_keys_NoDup (A := Z))|]. intros o1 o2 k [H1 _]%Hmiss [H2 _]%Hmiss. by apply (chain_inj _ _ _ _ Hc o1 o2 k). }
  { intros o k [Hin Hs]%Hmiss. destruct (Hl1 o k Hin) as (b & Hb & Hko & Es). exists b. unfold asking. rewrite <- Es. done. }
  set (rxl := pick d1 (st STATE_RX) l).
  destruct (wait_rx_ok rest orest t rxl (true && bool_decide (miss = [])) c2 Hw2) as (r & c3 & E3 & Hw3 & Hwa3 & Hreg3).
  { intros o k [Hs%bool_decide_eq_true Hin]%pick_elem. destruct (Hl1 o k Hin) as (b & Hb & Hko & Es). rewrite Es in Hs.
    destruct (wa_kept _ _ Hwa2 k b Hb) as (b' & Hb' & Ee & Es' & _); [by rewrite Hs..|]. exists b'. split_and!; [done|congruence|lia|lia]. }
  set (hitl := pick d1 readable l).
  destruct (touch_waits rest orest hitl c3 Hw3) as (c4 & E4 & Hw4 & Hwa4).
  { intros o k [Hs Hin]%pick_elem. destruct (Hl1 o k Hin) as (b & Hb & Hko & Es). rewrite Es in Hs.
    destruct (wa_kept _ _ (waits_trans _ _ _ Hwa2 Hwa3) k b Hb) as (b' & Hb' & _); [intros E; by rewrite E in Hs..|]. by exists b'. }
  pose proof (waits_trans _ _ _ Hwa2 (waits_trans _ _ _ Hwa3 Hwa4)) as Hwa. exists c4.
  assert (miss ≠ [] ∨ rxl ≠ []) as Hsome.
  { destruct (state_at d1 k0) eqn:Es0; try done.
    - left. intros E. assert ((o0, k0) ∈ miss) as Hin by (apply Hm1, pick_elem; split; [by apply bool_decide_eq_true|done]). rewrite E in Hin. by apply elem_of_nil in Hin.
    - right. intros E. assert ((o0, k0) ∈ rxl) as Hin by (apply pick_elem; split; [by apply bool_decide_eq_true|done]). rewrite E in Hin. by apply elem_of_nil in Hin.
    - left. apply Hm3. intros E. assert ((o0, k0) ∈ pick d1 (st STATE_ERROR) l) as Hin by (apply pick_elem; split; [by apply bool_decide_eq_true|done]). rewrite E in Hin. by apply elem_of_nil in Hin. }
  split_and!.
  - unfold read_extent, gets, mbind, M_bind. rewrite Hex. unfold mret, M_ret. rewrite E1, Em. cbn [missing hits errors rx mapped_with no_mapped app].
    assert ((if ext then foldl (λ (a : list (Z * Z)) (x : Z * Z), if map_count a x.1 then a else map_put a x.1 x.2) (pick d1 (λ s, bool_decide (s = STATE_MISSING)) l) (pick d1 (λ s, bool_decide (s = STATE_ERROR)) l)
      else pick d1 (λ s, bool_decide (s = STATE_MISSING)) l) = miss) as -> by (destruct ext; [done|]; destruct Hext as [|Hext]; [done|]; unfold miss, st; by rewrite (no_errors_pick c d1 ex l)).
    assert ((if ext then pick d1 readable l else foldl (λ (a : list (Z * Z)) (x : Z * Z), if map_count a x.1 then a else map_put a x.1 x.2) (pick d1 readable l) (pick d1 (λ s, bool_decide (s = STATE_ERROR)) l)) = hitl) as ->
      by (destruct ext; [done|]; destruct Hext as [|Hext]; [done|]; by rewrite (no_errors_pick c d1 ex l)).
    change (pick d1 (λ s, bool_decide (s = STATE_RX)) l) with rxl. fold hitl.
    assert (negb (bool_decide (miss = [])) || negb (bool_decide (rxl = [])) = true) as ->.
    { destruct Hsome as [H|H]; rewrite (bool_decide_eq_false_2 _ H); [done|apply orb_true_r]. }
    rewrite E2, E3. by rewrite E4.
  - destruct Hw4 as (Ha4 & Hd4 & Hf4). constructor; [done..|]. intros x y Hy Hs. unfold view in Hy. destruct (head_at (data c4) x) as [b|] eqn:Eh; [|done]. injection Hy as <-. cbn in Hs.
    apply head_at_spec in Eh as [Hb Hxb]; [|done]. set (k := bh_start b) in *. destruct (wa_old _ _ Hwa k b Hb) as (b1 & Hb1 & Ee & [Es|Es]); [|congruence].
    assert (view (data c1) x = Some (cell_of b1 x)) as Hvx by (apply (view_head _ k b1); [by rewrite Hc1|done|lia]). rewrite Hc1, Hv in Hvx.
    case_decide as Hin; [|apply Hse in Hvx; cbn in Hvx; congruence]. destruct Hin as [Hin _].
    destruct (chain_covers _ _ _ _ k b1 x Hd1 Hc Hin) as [o Ho]; [by rewrite <- Hc1|lia|].
    assert ((o, k) ∈ miss) as Hmi by (apply Hm1, pick_elem; split; [|done]; unfold state_at; rewrite <- Hc1, Hb1; apply bool_decide_eq_true; congruence).
    destruct (wa_old _ _ (waits_trans _ _ _ Hwa3 Hwa4) k b Hb) as (b2 & Hb2 & _ & E2s). pose proof (Hrx2 o k b2 Hmi Hb2). destruct E2s; congruence.
  - destruct (decide (miss = [])) as [Em0|Em0].
    + apply (wa_reg _ _ Hwa4), Hreg3; [by rewrite bool_decide_eq_true_2|]. by destruct Hsome.
    + apply (wa_reg _ _ (waits_trans _ _ _ Hwa3 Hwa4)). by apply Hreg2.
  - intros s Hs. apply (wa_reg _ _ Hwa). destruct Hs as [Hs|(i & e & Hi & Hre & Hs)].
    + left. assert (waitfor_read c1 = waitfor_read c) as -> by by injection Ho1. done.
    + right. exists i, e. rewrite Hc1. split_and!; [by apply Hk|done|done].
  - intros x y Hy Hs. pose proof (Hse x y Hy) as Hns. unfold view in Hy. destruct (head_at (data c) x) as [b|] eqn:Eh; [|done]. injection Hy as <-. apply head_at_spec in Eh as [Hb Hxb]; [|done].
    destruct (wa_kept _ _ Hwa (bh_start b) b) as (b' & Hb' & Ee & Es & Et & Ev); [rewrite Hc1; by apply Hk|done|done|].
    exists (map_find (bh_waitfor_read b') x). rewrite (view_head _ _ _ x (proj1 (proj2 Hw4)) Hb') by lia. unfold cell_of. cbn. by rewrite Es, Et, Ev.
  - intros x y Hy Hr. unfold view in Hy. destruct (head_at (data c4) x) as [b|] eqn:Eh; [|done]. injection Hy as <-. apply head_at_spec in Eh as [Hb Hxb]; [|apply Hw4]. cbn in Hr.
    destruct (wa_old _ _ Hwa _ b Hb) as (b1 & Hb1 & Ee & [Es|Es]); [|by rewrite Es in Hr]. rewrite Es in Hr.
    destruct (wa_kept _ _ Hwa _ b1 Hb1) as (b' & Hb' & _ & _ & Et & Ev); [intros E; by rewrite E in Hr..|]. rewrite Hb in Hb'. injection Hb' as <-.
    assert (view (data c1) x = Some (cell_of b1 x)) as Hvx by (apply (view_head _ (bh_start b) b1); [by rewrite Hc1|done|lia]). rewrite Hc1, Hv in Hvx.
    unfold shown, cell_of. cbn. rewrite Et, Es, Ev. destruct (view (data c) x) as [z|] eqn:Ez.
    + rewrite decide_False in Hvx by (by intros [_ ?]). injection Hvx as ->. by eexists.
    + case_decide; [|done]. injection Hvx as E. unfold gap_cell in E. destruct (complete c); [|by injection E as F1; rewrite <- F1 in Hr].
      injection E as F1 F2 F3 _. rewrite <- F1, <- F2, <- F3. by eexists.
  - destruct (wa_flags _ _ Hwa) as [-> _]. by injection Ho1.
  - destruct (wa_flags _ _ Hwa) as [_ ->]. by injection Ho1.
Qed.
End readx_waits.
