(* ===== verification/CacherBack.v ===== *)
(** * The answers of the handler: [bh_read_finish], [bh_write], [bh_write_commit]

    The answer to a read that nothing has cut makes its bytes clean, and an
    answer that the object does not exist makes what is missing zeros; a dirty
    head that is written shows its bytes until the commit makes them clean.
    [truncate] and [discard] drop a tail and a range. *)

From stdpp Require Import sorting.
From S2P Require Import Prelude StdMap IntervalSet SnapSet OsdMapping Striper Cacher.
From S2P Require Import CacherSpec CacherRead CacherIo.

Implicit Types (d : buffers) (b e : BufferHead) (c : cache) (k x i : Z).

Lemma data_lower_bound_at d k b x : shape d → map_find d k = Some b → k <= x < bh_end b → data_lower_bound d x = Some k.
Proof.
  intros Hd Hb Hx. destruct (data_lower_bound d x) as [j|] eqn:E.
  - destruct (data_lower_bound_some d x j Hd E) as (e & He & Hlt & Hmin). specialize (Hmin k b Hb ltac:(lia)). f_equal.
    destruct (Z.eq_dec j k) as [|Hn]; [done|]. pose proof (s_apart d Hd _ _ _ _ He Hb ltac:(lia)). lia.
  - pose proof (data_lower_bound_none d x Hd E k b Hb). lia.
Qed.

(** Heads changed in their places. *)
Lemma view_changed d d' (f : Z → BufferHead → BufferHead) x : shape d → shape d' → (∀ i, map_find d' i = f i <$> map_find d i) → (∀ i e, bh_end (f i e) = bh_end e) →
  view d' x = (λ e, cell_of (f (bh_start e) e) x) <$> head_at d x.
Proof.
  intros Hd Hd' Hf He. unfold view. destruct (head_at d x) as [e|] eqn:E.
  - apply head_at_spec in E as [Hfe Hxe]; [|done]. rewrite (head_at_find d' (bh_start e) (f (bh_start e) e) x Hd'); [done|by rewrite Hf, Hfe|by rewrite He].
  - rewrite (proj2 (head_at_none d' x Hd')); [done|]. intros i e'. rewrite Hf. destruct (map_find d i) as [e|] eqn:Ei; [|done]. cbn. intros [= <-]. rewrite He.
    by apply (proj1 (head_at_none d x Hd) E).
Qed.

Section finish.
Context (rest : bhstate → Z) (orest : Z).
Abbreviation does := (does rest orest).
Abbreviation acct := (acct rest orest).
Abbreviation sound := (sound rest orest).

Lemma does_take c k b : acct c → map_find (data c) k = Some b → does (take_waiters k) c (waiters_of b) (map_put (data c) k (set_waiters [] b)).
Proof.
  intros Ha Hb. unfold take_waiters. apply (does_get_bind rest orest _ _ _ b); [done|]. eexists. split; [done|]. split; [done|]. split; [|done]. by apply (put_same_acct _ _ c k b).
Qed.

(** The bytes of a read, padded with zeros, and what they become. *)
Definition padded (bl : list Z) (len r : Z) : list Z :=
  if (0 <=? r) && (Z.of_nat (length bl) <? len) then bl ++ replicate (Z.to_nat (len - Z.of_nat (length bl))) 0 else bl.
Definition answer (bl : list Z) (start len r x : Z) : bhstate * Z * option Z * option (list Z) :=
  if 0 <=? r then (STATE_CLEAN, 0, padded bl len r !! Z.to_nat (x - start), None) else (STATE_ERROR, 0, None, None).

Lemma padded_length bl len r : 0 <= r → Z.of_nat (length bl) <= len → Z.of_nat (length (padded bl len r)) = len.
Proof. intros Hr Hl. unfold padded. rewrite (proj2 (Z.leb_le _ _)) by done. cbn. case_match eqn:E; [apply Z.ltb_lt in E; rewrite length_app, length_replicate; lia|apply Z.ltb_ge in E; lia]. Qed.

(** The head of the answer, once it has no waiters. *)
Definition answered (bl : list Z) (len r : Z) b : BufferHead :=
  if r <? 0 then to_state STATE_ERROR (set_error r b) else to_state STATE_CLEAN (set_bl (take (Z.to_nat len) (padded bl len r)) b).

Lemma does_answer c d k b bl len r start : acct c → ordered d → data c = map_put d k b → bh_length b = len → 0 <= len < limit → bh_start b = start → 0 <= start → Z.of_nat (length bl) <= len →
  does (if r <? 0 then change_bh k (set_error r);; bh_set_state k STATE_ERROR
        else bit ← lift (substr_of (padded bl len r) (start - bh_start b) (bh_length b)); change_bh k (set_bl bit);; bh_set_state k STATE_CLEAN) c tt (map_put d k (answered bl len r b)).
Proof.
  intros Ha Ho Ed El Hl Es H0 Hbl. unfold answered. destruct (Z.ltb_spec r 0).
  - eapply does_bind; [by apply (does_change_last rest orest (set_error r) c d k b Ha Ho Ed)|]. intros c1 E1 Ha1 _. by apply does_set_last.
  - pose proof (padded_length bl len r ltac:(done) Hbl) as Hpl. unfold limit in *.
    apply (does_lift_bind rest orest _ _ _ (take (Z.to_nat len) (padded bl len r))).
    { rewrite Es, Z.sub_diag, El. rewrite substr_of_ok by (unfold limit; lia). done. }
    eapply does_bind; [by apply (does_change_last rest orest (set_bl (take (Z.to_nat len) (padded bl len r))) c d k b Ha Ho Ed)|]. intros c1 E1 Ha1 _. by apply does_set_last.
Qed.

Lemma answered_ok bl len r b start : data_ok b → bh_state b = STATE_RX → bh_start b = start → bh_length b = len → bh_waitfor_read b = [] → Z.of_nat (length bl) <= len → 0 <= len →
  let e := answered bl len r b in bh_start e = start ∧ bh_length e = len ∧ bh_waitfor_read e = [] ∧ data_ok e ∧ pins (bh_state e) = false ∧ ∀ x, start <= x < start + len → cell_of e x = answer bl start len r x.
Proof.
  intros Hok Hs Es El Ew Hbl Hl e. assert (bh_bl b = []) as Eb by (unfold data_ok in Hok; by rewrite Hs in Hok). unfold e, answered, answer. destruct (Z.ltb_spec r 0).
  - rewrite (proj2 (Z.leb_gt 0 r)) by lia. unfold to_state. rewrite (bool_decide_eq_true_2 (STATE_ERROR = STATE_ERROR)) by done. cbn [negb andb]. split_and!; try done. intros x _. unfold cell_of, tag, byte_of. cbn. by rewrite Ew.
  - rewrite (proj2 (Z.leb_le 0 r)) by lia. pose proof (padded_length bl len r ltac:(done) Hbl) as Hpl. unfold to_state, is_error. rewrite (bool_decide_eq_false_2 (bh_state (set_bl _ b) = STATE_ERROR)) by (cbn; by rewrite Hs). rewrite andb_false_r.
    split_and!; try done; [unfold data_ok; cbn; rewrite length_take; lia|]. intros x Hx. unfold cell_of, tag, byte_of. cbn. rewrite Ew, Es. rewrite lookup_take_lt by lia. done.
Qed.

Lemma read_finish_ok c tid start b bl r trust : sound c → map_find (data c) start = Some b → bh_state b = STATE_RX → bh_last_read_tid b = tid →
  Z.of_nat (length bl) <= bh_length b → r ≠ - ENOENT →
  ∃ c', apply_read tid start (bh_length b) bl r trust c = Ok ((waiters_of b, if bh_error b <? 0 then bh_error b else 0), c') ∧ sound c' ∧
    complete c' = complete c ∧ exists_ c' = exists_ c ∧ other c' = other c ∧
    ∀ x, view (data c') x = if decide (in_range start (bh_end b) x) then Some (answer bl start (bh_length b) r x) else view (data c) x.
Proof.
  intros [Ha Hd Hfi Hse] Hb Hst Htid Hbl Hr. pose proof (s_ord _ Hd) as Ho. destruct (s_head _ Hd _ _ Hb) as [Es H0 Hl Hlim Hwo Hw]. set (len := bh_length b) in *.
  assert (bh_end b = start + len) as Ee by (unfold bh_end; lia). unfold limit in Hlim.
  destruct (does_take c start b Ha Hb) as (c1 & E1 & Hc1 & Ha1 & Ho1). set (b1 := set_waiters [] b) in *.
  destruct (answered_ok bl len r b1 start (Hfi _ _ Hb) Hst Es eq_refl eq_refl Hbl ltac:(lia)) as (Es2 & El2 & Ew2 & Hok2 & Hp2 & Hcell). set (b2 := answered bl len r b1) in *. cbv zeta in Hcell.
  destruct (does_answer c1 (data c) start b1 bl len r start Ha1 Ho Hc1 eq_refl ltac:(unfold limit; lia) Es H0 Hbl) as (c2 & E2 & Hc2 & Ha2 & Ho2). fold b2 in Hc2.
  assert (bh_end b2 = bh_end b) as Ee2 by (unfold bh_end; rewrite Es2, El2; lia).
  assert (shape (data c2)) as Hd2.
  { rewrite Hc2. apply shape_put; [done| |rewrite Ee2; exact (clear_of_head _ _ _ Hd Hb)]. constructor; rewrite ?Ee2, ?El2, ?Ew2; try done; [constructor|by intros o ?%elem_of_nil]. }
  assert (filled (data c2)) as Hf2 by (rewrite Hc2; by apply filled_put).
  destruct (does_try_merge rest orest c2 start b2 Ha2 Hd2 Hf2) as (d3 & (c3 & E3 & Hc3 & Ha3 & Ho3) & Hd3 & Hf3 & Hv3); [rewrite Hc2; by apply find_put_same|done|].
  assert (∀ x, view d3 x = if decide (in_range start (bh_end b) x) then Some (answer bl start len r x) else view (data c) x) as Hview.
  { intros x. rewrite Hv3, Hc2, view_put; [|done|by rewrite <- Hc2|by intros b0; rewrite Hb; intros [= <-]; lia]. rewrite Ee2. case_decide as Hx; [|done]. unfold in_range in Hx. by rewrite Hcell by lia. }
  assert (other c3 = other c) as Hoth by congruence. exists c3. split; [|split; [|split_and!]].
  - assert (read_finish_loop (walk_fuel (data c)) start len tid r trust (padded bl len r) start [] 0 c = Ok ((waiters_of b, if bh_error b <? 0 then bh_error b else 0), c3)) as Eloop.
    { unfold walk_fuel. replace (2 * length (data c) + 3)%nat with (S (2 * length (data c) + 2)) by lia. cbn [read_finish_loop]. unfold gets, mbind, M_bind.
      rewrite (data_lower_bound_at _ start b start Hd Hb) by lia. rewrite (proj2 (Z.leb_gt (start + len) start)) by lia. rewrite E1. unfold get_bh at 1. rewrite Hc1, find_put_same by done.
      change (bh_start b1) with (bh_start b). change (bh_last_read_tid b1) with (bh_last_read_tid b). change (bh_error b1) with (bh_error b). change (bh_length b1) with len. change (bh_end b1) with (bh_end b).
      rewrite Es, Z.ltb_irrefl, Htid, Z.eqb_refl. unfold is_rx. rewrite bool_decide_eq_true_2 by done. cbn [negb]. unfold assert_m, lift. rewrite Z.leb_refl, Z.eqb_refl.
      rewrite (proj2 (Z.leb_le len (start + len - start))) by lia. cbn [assert_c]. rewrite (proj2 (Z.eqb_neq r (- ENOENT))) by done.
      revert E2. unfold mbind, M_bind, lift. change (bh_start b1) with (bh_start b). change (bh_length b1) with len. rewrite Es. intros ->. rewrite E3.
      replace (2 * length (data c) + 2)%nat with (S (2 * length (data c) + 1)) by lia. cbn [read_finish_loop]. unfold gets, mbind, M_bind. rewrite Ee, Z.leb_refl. by destruct (data_lower_bound (data c3) (start + len)). }
    unfold apply_read, gets, mbind, M_bind. rewrite (proj2 (Z.eqb_neq r (- ENOENT))) by done. cbn [andb]. unfold mret, M_ret. fold (padded bl len r). by rewrite Eloop.
  - constructor; [done|by rewrite <- Hc3 in Hd3|by rewrite <- Hc3 in Hf3|]. intros x y. rewrite Hc3, Hview. case_decide; [|apply Hse].
    intros [= <-]. unfold answer. by destruct (0 <=? r).
  - by injection Hoth.
  - by injection Hoth.
  - done.
  - intros x. by rewrite Hc3, Hview.
Qed.

(** The contexts keep the cache sound when each of them does. *)
Definition keeps_sound (run : Z → Z → M cache unit) : Prop := ∀ t err c, sound c → ∃ c', run t err c = Ok (tt, c') ∧ sound c'.

Lemma sound_frame c c' : sound c → data c' = data c → stat c' = stat c → ob_dirty_or_tx c' = ob_dirty_or_tx c → oset_dirty_or_tx c' = oset_dirty_or_tx c →
  dirty_or_tx_bh c' = dirty_or_tx_bh c → ob_ref c' - Z.of_nat (length (ob_writes c')) = ob_ref c - Z.of_nat (length (ob_writes c)) → sound c'.
Proof. intros [Ha Hd Hf Hs] Ed. intros. constructor; [by apply (acct_frame _ _ c)|by rewrite Ed..]. Qed.

Lemma finish_contexts_ok run ls err c : keeps_sound run → sound c → ∃ c', finish_contexts run ls err c = Ok (tt, c') ∧ sound c'.
Proof.
  intros Hr. revert c. induction ls as [|t ls IH]; intros c Hs; [by exists c|]. destruct (Hr t err c Hs) as (c1 & E1 & Hs1). destruct (IH c1 Hs1) as (c2 & E2 & Hs2).
  exists c2. split; [|done]. cbn [finish_contexts]. unfold mbind, M_bind. by rewrite E1.
Qed.
Lemma retry_waiting_reads_ok run c : keeps_sound run → sound c → ∃ c', retry_waiting_reads run c = Ok (tt, c') ∧ sound c'.
Proof.
  intros Hr Hs. assert (∀ ls c, sound c → ∃ ls' c', retry_loop run ls c = Ok (ls', c') ∧ sound c') as Hloop.
  { intros ls. induction ls as [|t ls IH]; intros c1 H1; [by exists [], c1|]. cbn [retry_loop]. unfold gets, mbind, M_bind. destruct (bool_decide (waitfor_read c1 = [])); [|by exists (t :: ls), c1].
    destruct (Hr t 0 c1 H1) as (c2 & E2 & H2). destruct (IH c2 H2) as (ls' & c3 & E3 & H3). exists ls', c3. split; [|done]. by rewrite E2. }
  destruct (Hloop (waitfor_read c) (with_waitfor_read [] c)) as (ls' & c1 & E1 & H1); [by apply (sound_frame c)|].
  exists (with_waitfor_read (waitfor_read c1 ++ ls') c1). split; [|by apply (sound_frame c1)]. unfold retry_waiting_reads, gets, modify, mbind, M_bind. by rewrite E1.
Qed.
Lemma read_finished_ok run c o b bl r : keeps_sound run → sound c → map_find (data c) (rf_start o) = Some b → bh_state b = STATE_RX → bh_last_read_tid b = rf_tid o → rf_length o = bh_length b →
  Z.of_nat (length bl) <= bh_length b → r ≠ - ENOENT → ∃ c', read_finished run o bl r c = Ok (tt, c') ∧ sound c'.
Proof.
  intros Hr Hs Hb Hst Ht El Hbl Hne. destruct (read_finish_ok c (rf_tid o) (rf_start o) b bl r (rf_trust_enoent o) Hs Hb Hst Ht Hbl Hne) as (c1 & E1 & Hs1 & _). rewrite <- El in E1.
  destruct (finish_contexts_ok run (waiters_of b) (if bh_error b <? 0 then bh_error b else 0) c1 Hr Hs1) as (c2 & E2 & Hs2). destruct (retry_waiting_reads_ok run c2 Hr Hs2) as (c3 & E3 & Hs3).
  eexists. split; [unfold read_finished, bh_read_finish, mbind, M_bind; rewrite E1, E2, E3; reflexivity|]. by apply (sound_frame c3).
Qed.
End finish.

(** ** The answer that there is no such object *)

Section enoent.
Context (rest : bhstate → Z) (orest : Z).
Abbreviation does := (does rest orest).
Abbreviation acct := (acct rest orest).
Abbreviation sound := (sound rest orest).
Abbreviation well := (well rest orest).

Lemma shape_emptied d k b : shape d → map_find d k = Some b → shape (map_put d k (set_waiters [] b)).
Proof.
  intros Hd Hb. apply shape_put; [done| |exact (clear_of_head _ _ _ Hd Hb)]. destruct (s_head d Hd _ _ Hb) as [Es H0 Hl Hlim _ _].
  constructor; [done|done|done|done|constructor|by intros o ?%elem_of_nil].
Qed.

Lemma take_all_ok ks a c : well c → NoDup ks → (∀ k, k ∈ ks → is_Some (map_find (data c) k)) →
  ∃ ws az c', take_all_waiters ks a c = Ok ((ws, az), c') ∧ well c' ∧ other c' = other c ∧
    (∀ i, map_find (data c') i = (λ e, if decide (i ∈ ks) then set_waiters [] e else e) <$> map_find (data c) i) ∧
    (az = true → ∀ k b, k ∈ ks → map_find (data c) k = Some b → is_zero b || is_rx b = true).
Proof.
  revert a c. induction ks as [|k ks IH]; intros a c Hw Hnd Hin.
  - exists [], a, c. split_and!; [done..| |by intros _ k b ?%elem_of_nil]. intros i. destruct (map_find (data c) i); cbn; [|done]. by rewrite decide_False by (by intros ?%elem_of_nil).
  - apply NoDup_cons in Hnd as [Hk Hnd]. destruct (Hin k ltac:(by left)) as [b Hb]. pose proof Hw as (Ha & Hd & Hfi).
    destruct (does_take rest orest c k b Ha Hb) as (c1 & E1 & Hc1 & Ha1 & Ho1). assert (well c1) as Hw1.
    { split; [done|]. rewrite Hc1. split; [by apply shape_emptied|]. apply filled_put; [apply Hd|done|exact (Hfi _ _ Hb)]. }
    assert (∀ i, i ≠ k → map_find (data c1) i = map_find (data c) i) as Hother by (intros i Hi; rewrite Hc1, map_find_put by apply Hd; by rewrite decide_False).
    destruct (IH (a && (is_zero b || is_rx b)) c1 Hw1 Hnd) as (ws & az & c2 & E2 & Hw2 & Ho2 & Hf2 & Haz).
    { intros j Hj. rewrite Hother by (intros ->; done). apply Hin. by right. }
    assert (az = true → a && (is_zero b || is_rx b) = true) as Hmono.
    { clear -E2. revert E2. generalize (a && (is_zero b || is_rx b)) c1 ws c2. clear. induction ks as [|k ks IH]; intros a c1 ws c2; cbn [take_all_waiters]; [by intros [= <- <- <-]|].
      unfold mbind, M_bind. destruct (get_bh k c1) as [[e c3]|]; [|done]. destruct (take_waiters k c3) as [[w c4]|]; [|done].
      destruct (take_all_waiters ks (a && (is_zero e || is_rx e)) c4) as [[[ws' az'] c5]|] eqn:E; [|done]. intros [= <- <- <-] Hz. specialize (IH _ _ _ _ E Hz). by apply andb_true_iff in IH as [? _]. }
    exists (waiters_of b ++ ws), az, c2. split; [|split; [done|split; [congruence|split]]].
    + cbn [take_all_waiters]. unfold mbind, M_bind, get_bh. rewrite Hb, E1, E2. done.
    + intros i. rewrite Hf2. destruct (decide (i = k)) as [->|Hn].
      * rewrite Hc1, map_find_put, Hb by apply Hd. rewrite decide_True by done. cbn. rewrite decide_False by done. by rewrite decide_True by left.
      * rewrite Hother by done. destruct (map_find (data c) i); cbn; [|done]. f_equal. apply decide_ext. rewrite elem_of_cons. tauto.
    + intros Hz j e [->|Hj]%elem_of_cons He; [|apply (Haz Hz j e Hj); rewrite Hother; [done|by intros ->]]. rewrite Hb in He. injection He as <-. specialize (Hmono Hz). by apply andb_true_iff in Hmono as [_ ?].
Qed.

Lemma remove_heads_ok ks c : acct c → NoDup ks → (∀ k, k ∈ ks → is_Some (map_find (data c) k)) →
  ∃ c', remove_all ks c = Ok (tt, c') ∧ acct c' ∧ other c' = other c ∧ ∀ i, map_find (data c') i = if decide (i ∈ ks) then None else map_find (data c) i.
Proof.
  revert c. induction ks as [|k ks IH]; intros c Ha Hnd Hin.
  - exists c. split_and!; [done..|]. intros i. by rewrite decide_False by (by intros ?%elem_of_nil).
  - apply NoDup_cons in Hnd as [Hk Hnd]. destruct (Hin k ltac:(by left)) as [b Hb]. destruct (does_remove rest orest k b c Ha Hb) as (c1 & E1 & Hc1 & Ha1 & Ho1).
    destruct (IH c1 Ha1 Hnd) as (c2 & E2 & Ha2 & Ho2 & Hf2).
    { intros j Hj. rewrite Hc1, map_find_del, decide_False by (intros ->; done). apply Hin. by right. }
    exists c2. split; [|split; [done|split; [congruence|]]].
    + cbn [remove_all]. unfold mbind, M_bind. by rewrite E1.
    + intros i. rewrite Hf2, Hc1, map_find_del. destruct (decide (i = k)) as [->|Hn]; [rewrite decide_False by done; by rewrite decide_True by left|]. apply decide_ext. rewrite elem_of_cons. tauto.
Qed.

(** The contexts collected so far only come first. *)
Lemma read_finish_acc fuel start len tid r trust bl opos ls pre err c ls' err' c' :
  read_finish_loop fuel start len tid r trust bl opos ls err c = Ok ((ls', err'), c') →
  read_finish_loop fuel start len tid r trust bl opos (pre ++ ls) err c = Ok ((pre ++ ls', err'), c').
Proof.
  revert opos ls err c. induction fuel as [|fuel IH]; intros opos ls err c; cbn [read_finish_loop]; unfold gets, mbind, M_bind.
  - destruct (data_lower_bound (data c) opos); [|by intros [= <- <- <-]]. destruct (start + len <=? opos); [by intros [= <- <- <-]|done].
  - destruct (data_lower_bound (data c) opos) as [k|]; [|by intros [= <- <- <-]]. destruct (start + len <=? opos); [by intros [= <- <- <-]|].
    destruct (take_waiters k c) as [[w c1]|]; [|done]. destruct (get_bh k c1) as [[b c2]|]; [|done]. rewrite <- app_assoc.
    destruct (opos <? bh_start b); [apply IH|]. destruct (negb (is_rx b)); [apply IH|]. destruct (negb (bh_last_read_tid b =? tid)); [apply IH|].
    do 3 (destruct (assert_m _ _) as [[[] ?]|]; [|done]). destruct (r =? - ENOENT).
    + destruct ((if trust then bh_remove k else mret tt) _) as [[[] s3]|]; [apply IH|done].
    + match goal with |- (match ?X with _ => _ end = _) → _ => destruct X as [[[] s3]|]; [|discriminate] end. destruct (try_merge_bh k s3) as [[[] s4]|]; [apply IH|done].
Qed.

(** The head that was asked for goes. *)
Lemma enoent_loop n c tid start b bl : well c → map_find (data c) start = Some b → bh_state b = STATE_RX → bh_last_read_tid b = tid →
  ∃ res c', read_finish_loop (S (S n)) start (bh_length b) tid (- ENOENT) true bl start [] 0 c = Ok (res, c') ∧ acct c' ∧ other c' = other c ∧ data c' = map_del (data c) start.
Proof.
  intros (Ha & Hd & Hfi) Hb Hst Htid. pose proof (s_ord _ Hd) as Ho. destruct (s_head _ Hd _ _ Hb) as [Es H0 Hl Hlim _ _]. set (len := bh_length b) in *. assert (bh_end b = start + len) as Ee by (unfold bh_end; lia).
  destruct (does_take rest orest c start b Ha Hb) as (c1 & E1 & Hc1 & Ha1 & Ho1). set (b1 := set_waiters [] b) in *.
  assert (map_find (data c1) start = Some b1) as Hb1 by (rewrite Hc1; by apply find_put_same).
  destruct (does_remove rest orest start b1 c1 Ha1 Hb1) as (c2 & E2 & Hc2 & Ha2 & Ho2).
  eexists _, c2. split; [|split; [done|split; [congruence|]]].
  - remember (S n) as m eqn:Em. cbn [read_finish_loop]. unfold gets, mbind, M_bind. rewrite (data_lower_bound_at _ start b start Hd Hb) by lia. rewrite (proj2 (Z.leb_gt (start + len) start)) by lia.
    rewrite E1. unfold get_bh at 1. rewrite Hb1. change (bh_start b1) with (bh_start b). change (bh_last_read_tid b1) with (bh_last_read_tid b). change (bh_length b1) with len. change (bh_end b1) with (bh_end b).
    rewrite Es, Z.ltb_irrefl, Htid, Z.eqb_refl. unfold is_rx. rewrite bool_decide_eq_true_2 by done. cbn [negb]. unfold assert_m, lift. rewrite Z.leb_refl, Z.eqb_refl.
    rewrite (proj2 (Z.leb_le len (start + len - start))) by lia. cbn [assert_c]. rewrite (Z.eqb_refl (- ENOENT)). cbv beta iota. rewrite E2, Em. cbn [read_finish_loop]. unfold gets, mbind, M_bind. rewrite Ee, Z.leb_refl.
    destruct (data_lower_bound (data c2) (start + len)); done.
  - rewrite Hc2, Hc1. apply ordered_ext; [by apply map_del_ordered, map_put_ordered|by apply map_del_ordered|]. intros i. rewrite !map_find_del. case_decide; [done|]. rewrite map_find_put by done. by rewrite decide_False.
Qed.

Lemma read_enoent_ok c tid start b bl : sound c → map_find (data c) start = Some b → bh_state b = STATE_RX → bh_last_read_tid b = tid →
  ∃ res c', apply_read tid start (bh_length b) bl (- ENOENT) true c = Ok (res, c') ∧ sound c' ∧ complete c' = true ∧ (exists_ c' = if complete c then exists_ c else false) ∧
    (∀ x y, view (data c') x = Some y → ∃ w, view (data c) x = Some (y.1, w)) ∧
    (∀ x y, view (data c) x = Some y → readable y.1.1.1 = true → y.1.2 = Some 0 ∨ ∃ w, view (data c') x = Some (y.1, w)).
Proof.
  intros [Ha Hd Hfi Hse] Hb Hst Htid. assert (well c) as Hw by done. unfold apply_read. cbn [Z.leb andb]. set (bl' := if _ && _ then _ else bl).
  destruct (complete c) eqn:Eco.
  - destruct (enoent_loop (2 * length (data c) + 1) c tid start b bl' Hw Hb Hst Htid) as (res & c3 & E3 & Ha3 & Ho3 & Hc3). exists res, c3. split.
    { unfold gets, mbind, M_bind. rewrite Eco, Z.eqb_refl. cbn [negb andb]. unfold mret, M_ret, walk_fuel. replace (2 * length (data c) + 3)%nat with (S (S (2 * length (data c) + 1))) by lia. rewrite E3. done. }
    assert (∀ x, view (data c3) x = if decide (in_range start (bh_end b) x) then None else view (data c) x) as Hv by (intros x; change (data c3) with (data c3); rewrite Hc3; by apply view_del).
    split; [|split; [|split; [|split]]].
    + constructor; [done|rewrite Hc3; by apply shape_del|rewrite Hc3; by apply filled_del|]. intros x y. rewrite Hv. case_decide; [done|apply Hse].
    + change (complete c3 = true). rewrite <- Eco. by injection Ho3.
    + change (exists_ c3 = exists_ c). by injection Ho3.
    + intros x y. rewrite Hv. case_decide; [done|]. intros ->. exists y.2. by destruct y.
    + intros x y Hy Hr. rewrite Hv, Hy. case_decide as Hx; [|right; exists y.2; by destruct y]. exfalso. rewrite (view_head _ start b x Hd Hb Hx) in Hy. injection Hy as <-. cbn in Hr. by rewrite Hst in Hr.
  - destruct (take_all_ok (keys (data c)) true c Hw) as (ws & az & c1 & E1 & Hw1 & Ho1 & Hf1 & Haz); [by apply ordered_keys_NoDup, Hd|intros k Hk; by apply map_find_in|].
    assert (∀ i, map_find (data c1) i = set_waiters [] <$> map_find (data c) i) as Hf1'.
    { intros i. rewrite Hf1. destruct (map_find (data c) i) as [e|] eqn:E; cbn; [|done]. rewrite decide_True; [done|]. apply map_find_in. by eexists. }
    set (c2 := with_flags true false c1). assert (well c2) as Hw2 by (split; [by apply (acct_frame _ _ c1); [apply Hw1|..]|apply Hw1]).
    assert (∀ x, view (data c1) x = (λ y, (y.1, None)) <$> view (data c) x) as Hv1.
    { intros x. rewrite (view_changed (data c) (data c1) (λ _, set_waiters [])); [|done|apply Hw1|done|done]. unfold view. destruct (head_at (data c) x); done. }
    destruct az.
    + destruct (remove_heads_ok (keys (data c)) c2) as (c3 & E3 & Ha3 & Ho3 & Hf3); [apply Hw2|by apply ordered_keys_NoDup, Hd|intros k Hk; change (data c2) with (data c1); rewrite Hf1', fmap_is_Some; by apply map_find_in|].
      assert (data c3 = []) as Hc3.
      { destruct (data c3) as [|[k e] l] eqn:E; [done|]. exfalso. pose proof (Hf3 k) as Hk. simpl in Hk. rewrite Z.eqb_refl in Hk. change (data c2) with (data c1) in Hk. case_decide as Hin; [done|].
        apply Hin, map_find_in. rewrite Hf1' in Hk. apply (fmap_is_Some (set_waiters [])). by rewrite <- Hk. }
      exists (ws, 0), c3. split.
      { unfold gets, mbind, M_bind. rewrite Eco, Z.eqb_refl. cbn [negb andb]. rewrite E1. unfold modify. fold c2. rewrite E3. unfold mret, M_ret, walk_fuel. rewrite Hc3. cbn [length Nat.mul Nat.add read_finish_loop]. unfold gets, mbind, M_bind. rewrite Hc3. done. }
      assert (∀ x, view (data c3) x = None) as Hv by (intros x; change (data c3) with (data c3); by rewrite Hc3).
      split; [|split; [|split; [|split]]].
      * constructor; [done|rewrite Hc3; by constructor; [constructor|..]|by rewrite Hc3|]. intros x y. by rewrite Hv.
      * change (complete c3 = true). by injection Ho3.
      * change (exists_ c3 = false). by injection Ho3.
      * intros x y. by rewrite Hv.
      * intros x y Hy Hr. left. unfold view in Hy. destruct (head_at (data c) x) as [e|] eqn:Eh; [|done]. injection Hy as <-. apply head_at_spec in Eh as [He Hxe]; [|done].
        specialize (Haz eq_refl (bh_start e) e). apply orb_true_iff in Haz as [Hz%bool_decide_eq_true|Hz%bool_decide_eq_true]; [|by cbn in Hr; rewrite Hz in Hr|apply map_find_in; by eexists|done].
        cbn. unfold byte_of. by rewrite Hz.
    + assert (map_find (data c2) start = Some (set_waiters [] b)) as Hb2 by (change (data c2) with (data c1); by rewrite Hf1', Hb).
      destruct (enoent_loop (2 * length (data c1) + 1) c2 tid start (set_waiters [] b) bl' Hw2 Hb2 Hst Htid) as ([ls err] & c3 & E3 & Ha3 & Ho3 & Hc3). change (bh_length (set_waiters [] b)) with (bh_length b) in E3.
      assert (∃ res, read_finish_loop (S (S (2 * length (data c1) + 1))) start (bh_length b) tid (- ENOENT) true bl' start ws 0 c2 = Ok (res, c3)) as [res E3'].
      { exists (ws ++ ls, err). apply (read_finish_acc _ _ _ _ _ _ _ _ [] ws) in E3. by rewrite app_nil_r in E3. }
      exists res, c3. split.
      { unfold gets, mbind, M_bind. rewrite Eco, Z.eqb_refl. cbn [negb andb]. rewrite E1. unfold modify. fold c2. unfold mret, M_ret, walk_fuel. change (data c2) with (data c1). replace (2 * length (data c1) + 3)%nat with (S (S (2 * length (data c1) + 1))) by lia. rewrite E3'. done. }
      assert (∀ x, view (data c3) x = if decide (in_range start (bh_end b) x) then None else view (data c1) x) as Hv.
      { intros x. rewrite Hc3. by rewrite (view_del _ start _ x (proj1 (proj2 Hw2)) Hb2). }
      split; [|split; [|split; [|split]]].
      * constructor; [done|rewrite Hc3; by apply shape_del, Hw2|rewrite Hc3; by apply filled_del, Hw2|].
        intros x y. rewrite Hv. case_decide; [done|]. rewrite Hv1. destruct (view (data c) x) as [z|] eqn:Ez; [|done]. intros [= <-]. exact (Hse x z Ez).
      * change (complete c3 = true). by injection Ho3.
      * change (exists_ c3 = false). by injection Ho3.
      * intros x y. rewrite Hv. case_decide; [done|]. rewrite Hv1. destruct (view (data c) x) as [z|]; [|done]. intros [= <-]. exists z.2. by destruct z.
      * intros x y Hy Hr. right. rewrite Hv, Hv1, Hy. case_decide as Hx; [exfalso; rewrite (view_head _ start b x Hd Hb Hx) in Hy; injection Hy as <-; cbn in Hr; by rewrite Hst in Hr|]. by eexists.
Qed.
End enoent.

(** ** Writing back *)

Section write_back.
Context (rest : bhstate → Z) (orest : Z).
Abbreviation does := (does rest orest).
Abbreviation acct := (acct rest orest).
Abbreviation sound := (sound rest orest).
Abbreviation well := (well rest orest).

Lemma bh_write_ok c k b tid : sound c → map_find (data c) k = Some b → bh_state b = STATE_DIRTY →
  ∃ c', bh_write k tid c = Ok (tt, c') ∧ sound c' ∧ ob_writes c' = ob_writes c ++ [WriteOp k (bh_length b) tid (bh_bl b) (bh_snapc b) (bh_last_write b)] ∧
    ob_last_write_tid c' = tid ∧ ob_last_commit_tid c' = ob_last_commit_tid c ∧ complete c' = complete c ∧ exists_ c' = exists_ c ∧
    ∀ x, view (data c') x = if decide (in_range k (bh_end b) x) then Some (STATE_TX, tid, byte_of b x, map_find (bh_waitfor_read b) x) else view (data c) x.
Proof.
  intros [Ha Hd Hfi Hse] Hb Hst. pose proof (s_ord _ Hd) as Ho. destruct (s_head _ Hd _ _ Hb) as [Es _ _ _ _ _].
  assert (0 <= ob_ref c) as Hr by (rewrite (a_ref _ _ _ Ha); destruct (is_empty _); lia).
  set (c1 := with_ob_ref (ob_ref c + 1) c). set (c2 := with_ops (ob_reads c1) (ob_writes c1 ++ [WriteOp (bh_start b) (bh_length b) tid (bh_bl b) (bh_snapc b) (bh_last_write b)]) c1).
  set (c3 := with_ob_tids tid (ob_last_commit_tid c2) c2). assert (acct c3) as Ha3 by (apply (acct_frame _ _ c); try done; cbn; rewrite length_app; cbn; lia).
  destruct (does_change rest orest k (λ b, set_tids tid (bh_last_read_tid b) b) c3 b Ha3 Hb) as (c4 & E4 & Hc4 & Ha4 & Ho4); [done..|]. set (b1 := set_tids tid (bh_last_read_tid b) b) in *.
  destruct (does_set_last rest orest STATE_TX c4 (data c) k b1 Ha4 Ho Hc4) as (c5 & E5 & Hc5 & Ha5 & Ho5). set (b2 := to_state STATE_TX b1) in *.
  assert (b2 = set_ref_state (pin_of STATE_TX) STATE_TX b1) as Eb2.
  { unfold b2, to_state, is_error. rewrite (bool_decide_eq_false_2 (bh_state b1 = STATE_ERROR)) by (cbn; by rewrite Hst). by rewrite andb_false_r. }
  assert (same_place b b2) as Hsp by by rewrite Eb2. assert (data_ok b2) as Hok by (pose proof (Hfi _ _ Hb) as H; unfold data_ok in *; rewrite Hst in H; rewrite Eb2; exact H).
  assert (∀ x, view (data c5) x = if decide (in_range k (bh_end b) x) then Some (STATE_TX, tid, byte_of b x, map_find (bh_waitfor_read b) x) else view (data c) x) as Hv.
  { intros x. rewrite Hc5, (view_replaced _ k b b2 Hd Hb Hsp). case_decide; [|done]. rewrite Eb2. unfold cell_of, tag, byte_of. cbn. by rewrite Hst. }
  exists c5. assert (other c5 = other c3) as Ho53 by congruence. split_and!.
  - unfold bh_write, mbind, M_bind, get_bh at 1. rewrite Hb. unfold object_get, ref_get. rewrite (proj2 (Z.leb_le 0 (ob_ref c))) by done. cbn [assert_c mbind res_bind]. unfold modify. fold c1 c2 c3. by rewrite E4, E5.
  - constructor; rewrite ?Hc5; [done|by apply (shape_replaced _ k b)|by apply filled_put|]. intros x y. rewrite <- Hc5, Hv. case_decide; [by intros [= <-]|apply Hse].
  - rewrite <- Es. by injection Ho53.
  - by injection Ho53.
  - by injection Ho53.
  - by injection Ho53.
  - by injection Ho53.
  - done.
Qed.

(** The heads of the write that a commit answers. *)
Definition of_write (tid : Z) b : Prop := bh_state b = STATE_TX ∧ bh_last_write_tid b = tid.
#[global] Instance of_write_dec tid b : Decision (of_write tid b).
Proof. unfold of_write. apply _. Defined.
Definition commit_state (r : Z) : bhstate := if 0 <=? r then STATE_CLEAN else STATE_DIRTY.

Record commits d (start len tid : Z) : Prop := Commits {
  cm_oldest : ∀ k b, map_find d k = Some b → bh_state b = STATE_TX → tid <= bh_last_write_tid b;
  cm_inside : ∀ k b, map_find d k = Some b → of_write tid b → start <= k ∧ bh_end b <= start + len;
}.

Lemma commit_loop_ok ks start len tid r c : well c → StronglySorted Z.lt ks → (∀ k, k ∈ ks → is_Some (map_find (data c) k)) → commits (data c) start len tid →
  ∃ d', does (commit_loop ks start len tid r) c tt d' ∧ shape d' ∧ filled d' ∧
    ∀ i, map_find d' i = (λ e, if decide (i ∈ ks ∧ of_write tid e) then to_state (commit_state r) e else e) <$> map_find (data c) i.
Proof.
  revert c. induction ks as [|k ks IH]; intros c Hw Hs Hin Hcm; pose proof Hw as (Ha & Hd & Hfi).
  - exists (data c). split; [by apply does_ret|]. split; [done|]. split; [done|]. intros i. destruct (map_find (data c) i) as [e|]; cbn; [|done]. rewrite decide_False; [done|]. by intros [?%elem_of_nil _].
  - apply StronglySorted_inv in Hs as [Hs Hk]. rewrite Forall_forall in Hk. destruct (Hin k ltac:(by left)) as [b Hb]. destruct (s_head _ Hd _ _ Hb) as [Es _ Hl _ _ _].
    assert (∀ c1, well c1 → commits (data c1) start len tid → other c1 = other c → 
       (∀ i, map_find (data c1) i = (λ e, if decide (i = k ∧ of_write tid e) then to_state (commit_state r) e else e) <$> map_find (data c) i) →
       (∀ d', does (commit_loop ks start len tid r) c1 tt d' → does (commit_loop (k :: ks) start len tid r) c tt d') →
       ∃ d', does (commit_loop (k :: ks) start len tid r) c tt d' ∧ shape d' ∧ filled d' ∧
         ∀ i, map_find d' i = (λ e, if decide (i ∈ k :: ks ∧ of_write tid e) then to_state (commit_state r) e else e) <$> map_find (data c) i) as Hgo.
    { intros c1 Hw1 Hcm1 Ho1 Hf1 Hrun. destruct (IH c1 Hw1 Hs) as (d' & Hdo & Hd' & Hf' & Hf); [|done|].
      { intros j Hj. rewrite Hf1. destruct (Hin j ltac:(by right)) as [e ->]. by eexists. }
      exists d'. split; [by apply Hrun|]. split; [done|]. split; [done|]. intros i. rewrite Hf, Hf1. destruct (map_find (data c) i) as [e|]; cbn; [|done]. f_equal.
      destruct (decide (i = k)) as [->|Hn].
      - rewrite (decide_False (P := k ∈ ks ∧ _)); [apply decide_ext; rewrite elem_of_cons; tauto|]. intros [Hks _]. specialize (Hk k Hks). lia.
      - rewrite (decide_False (P := i = k ∧ _)) by tauto. apply decide_ext. rewrite elem_of_cons. tauto. }
    assert (¬ of_write tid b → (∀ d', does (commit_loop ks start len tid r) c tt d' → does (commit_loop (k :: ks) start len tid r) c tt d') →
       ∃ d', does (commit_loop (k :: ks) start len tid r) c tt d' ∧ shape d' ∧ filled d' ∧
         ∀ i, map_find d' i = (λ e, if decide (i ∈ k :: ks ∧ of_write tid e) then to_state (commit_state r) e else e) <$> map_find (data c) i) as Hskip.
    { intros Hno. apply Hgo; [done|done|done|]. intros i. destruct (map_find (data c) i) as [e|] eqn:Ei; cbn; [|done]. rewrite decide_False; [done|]. intros [-> Hw']. rewrite Hb in Ei. injection Ei as <-. done. }
    cbn [commit_loop] in *. destruct (start + len <? bh_start b) eqn:E1.
    { apply Z.ltb_lt in E1. exists (data c). split; [apply (does_get_bind rest orest _ _ _ b); [done|]; rewrite (proj2 (Z.ltb_lt _ _)) by done; by apply does_ret|]. split; [done|]. split; [done|].
      intros i. destruct (map_find (data c) i) as [e|] eqn:Ei; cbn; [|done]. rewrite decide_False; [done|]. intros [Hi Hw']. destruct (cm_inside _ _ _ _ Hcm i e Ei Hw') as [_ Hie]. destruct (s_head _ Hd _ _ Ei) as [Esi _ Hli _ _ _].
      apply elem_of_cons in Hi as [->|Hi]; [|specialize (Hk i Hi)]; unfold bh_end in *; lia. }
    destruct ((bh_start b <? start) && (start + len <? bh_end b)) eqn:E2.
    { apply andb_true_iff in E2 as [E2%Z.ltb_lt E3%Z.ltb_lt]. apply Hskip; [intros Hw'; destruct (cm_inside _ _ _ _ Hcm k b Hb Hw'); lia|].
      intros d' Hdo. apply (does_get_bind rest orest _ _ _ b); [done|]. rewrite E1. by rewrite (proj2 (Z.ltb_lt (bh_start b) start)), (proj2 (Z.ltb_lt (start + len) (bh_end b))) by done. }
    destruct (is_tx b) eqn:E3; cycle 1.
    { apply Hskip; [intros [Hx _]; unfold is_tx in E3; by rewrite bool_decide_eq_true_2 in E3|]. intros d' Hdo. apply (does_get_bind rest orest _ _ _ b); [done|]. by rewrite E1, E2, E3. }
    assert (bh_state b = STATE_TX) as Hst by by apply bool_decide_eq_true in E3. destruct (Z.eqb_spec (bh_last_write_tid b) tid) as [Et|Et].
    + set (b' := to_state (commit_state r) b). destruct (does_set_state rest orest k (commit_state r) c b Ha Hb) as (c1 & F1 & Hc1 & Ha1 & Ho1). fold b' in Hc1.
      assert (b' = set_ref_state (pin_of (commit_state r)) (commit_state r) b) as Eb'.
      { unfold b', to_state, is_error. rewrite (bool_decide_eq_false_2 (bh_state b = STATE_ERROR)) by (by rewrite Hst). by rewrite andb_false_r. }
      assert (well c1) as Hw1.
      { eapply (replaced_well rest orest c c1 k b b'); try done; [by rewrite Eb'|]. pose proof (Hfi _ _ Hb) as H. unfold data_ok in *. rewrite Hst in H. rewrite Eb'. unfold commit_state. by destruct (0 <=? r). }
      assert (∀ i, map_find (data c1) i = (λ e, if decide (i = k ∧ of_write tid e) then to_state (commit_state r) e else e) <$> map_find (data c) i) as Hf1.
      { intros i. rewrite Hc1, map_find_put by apply Hd. case_decide as Ei; [subst i; rewrite Hb; cbn; by rewrite decide_True by by split|]. destruct (map_find (data c) i); cbn; [|done]. by rewrite decide_False by by intros [? _]. }
      assert (∀ i e, map_find (data c1) i = Some e → bh_state e = STATE_TX → map_find (data c) i = Some e) as Hold.
      { intros i e. rewrite Hc1, map_find_put by apply Hd. case_decide; [|done]. intros [= <-]. rewrite Eb'. cbn. unfold commit_state. by destruct (0 <=? r). }
      apply (Hgo c1 Hw1); [|done|done|].
      * constructor; intros i e Hi Hx; [exact (cm_oldest _ _ _ _ Hcm i e (Hold i e Hi Hx) Hx)|]. apply (cm_inside _ _ _ _ Hcm i e); [|done]. apply Hold; [done|by destruct Hx].
      * intros d' Hdo. apply (does_get_bind rest orest _ _ _ b); [done|]. rewrite E1, E2, E3, (proj2 (Z.eqb_eq _ _)) by done. cbn [negb]. by apply (does_run _ _ _ _ tt c1).
    + apply Hskip; [by intros [_ ?]|]. intros d' Hdo. apply (does_get_bind rest orest _ _ _ b); [done|]. rewrite E1, E2, E3, (proj2 (Z.eqb_neq _ _)) by done. cbn [negb].
      apply does_assert_bind; [|done]. apply Z.ltb_lt. pose proof (cm_oldest _ _ _ _ Hcm k b Hb Hst). lia.
Qed.

(** What a commit makes of a byte. *)
Definition commit_cell (r tid : Z) (y : bhstate * Z * option Z * option (list Z)) : bhstate * Z * option Z * option (list Z) :=
  if decide (y.1.1.1 = STATE_TX ∧ y.1.1.2 = tid) then (commit_state r, 0, y.1.2, y.2) else y.

Lemma commit_head r tid e x : cell_of (if decide (of_write tid e) then to_state (commit_state r) e else e) x = commit_cell r tid (cell_of e x).
Proof.
  unfold commit_cell, cell_of. cbn [fst snd]. destruct (decide (of_write tid e)) as [[Hs Ht]|Hn].
  - rewrite decide_True by (unfold tag; by rewrite Hs). unfold to_state, is_error. rewrite (bool_decide_eq_false_2 (bh_state e = STATE_ERROR)) by (by rewrite Hs). rewrite andb_false_r.
    unfold tag, byte_of. cbn. rewrite Hs. unfold commit_state. by destruct (0 <=? r).
  - rewrite decide_False; [done|]. intros [Hs Ht]. apply Hn. unfold tag in Ht. rewrite Hs in Ht. by split.
Qed.
Lemma view_commit d d' r tid : shape d → shape d' → (∀ i, map_find d' i = (λ e, if decide (of_write tid e) then to_state (commit_state r) e else e) <$> map_find d i) →
  ∀ x, view d' x = commit_cell r tid <$> view d x.
Proof.
  intros Hd Hd' Hf x. rewrite (view_changed d d' (λ _ e, if decide (of_write tid e) then to_state (commit_state r) e else e)); [|done|done|done|].
  - unfold view. destruct (head_at d x) as [e|]; [|done]. cbn. f_equal. apply commit_head.
  - intros i e. case_decide; [by apply same_place_end, same_place_state|done].
Qed.

Lemma from_iter_sorted d p : ordered d → StronglySorted Z.lt (from_iter d p).
Proof. unfold from_iter. destruct p; [|constructor]. unfold ordered. generalize (keys d). intros l Hl.
  induction Hl as [|i l Hl IH Hi]; [constructor|]. rewrite filter_cons. case_decide; [|done]. constructor; [done|]. rewrite Forall_forall in *. intros j [_ Hj]%list_elem_of_filter. by apply Hi.
Qed.

Lemma bh_write_commit_ok c start len tid r cow : sound c → commits (data c) start len tid → ob_last_commit_tid c < tid →
  S (length (filter (λ o, wc_tid o ≠ tid) (ob_writes c))) = length (ob_writes c) →
  ∃ clean c', bh_write_commit start len tid r cow c = Ok ((default [] (map_find (waitfor_commit c) tid), clean), c') ∧ sound c' ∧
    ob_last_commit_tid c' = tid ∧ exists_ c' = true ∧ complete c' = (if exists_ c then complete c else if cow then false else complete c) ∧
    waitfor_commit c' = map_del (waitfor_commit c) tid ∧ ob_writes c' = filter (λ o, wc_tid o ≠ tid) (ob_writes c) ∧
    clean = ((0 <? oset_dirty_or_tx c) && (oset_dirty_or_tx c' =? 0)) ∧ ∀ x, view (data c') x = commit_cell r tid <$> view (data c) x.
Proof.
  intros [Ha Hd Hfi Hse] Hcm Hlt Hone. pose proof (s_ord _ Hd) as Ho.
  set (c1 := if negb (exists_ c) then with_flags (if cow then false else complete c) true c else c).
  assert (acct c1) as Ha1 by (unfold c1; destruct (exists_ c); [done|by apply (acct_frame _ _ c)]). assert (data c1 = data c) as Hc1 by (unfold c1; by destruct (exists_ c)).
  assert (well c1) as Hw1 by (split; [done|]; by rewrite Hc1).
  assert (∀ i e, map_find (data c) i = Some e → of_write tid e → i ∈ from_iter (data c) (data_lower_bound (data c) start)) as Hin.
  { intros i e Hi Hw'. destruct (cm_inside _ _ _ _ Hcm i e Hi Hw') as [Hsi _]. destruct (s_head _ Hd _ _ Hi) as [Esi _ Hli _ _ _]. unfold from_iter.
    destruct (data_lower_bound (data c) start) as [k|] eqn:E.
    - destruct (data_lower_bound_some _ _ _ Hd E) as (b & _ & _ & Hmin). apply list_elem_of_filter. split; [apply (Hmin i e Hi); unfold bh_end; lia|]. apply map_find_in. by eexists.
    - pose proof (data_lower_bound_none _ _ Hd E i e Hi). unfold bh_end in *. lia. }
  destruct (commit_loop_ok (from_iter (data c) (data_lower_bound (data c) start)) start len tid r c1 Hw1) as (d' & (c2 & E2 & Hc2 & Ha2 & Ho2) & Hd' & Hf' & Hfind).
  { by apply from_iter_sorted. }
  { rewrite Hc1. intros k. unfold from_iter. destruct (data_lower_bound _ _); [|by intros ?%elem_of_nil]. intros [_ Hk]%list_elem_of_filter. by apply map_find_in. }
  { by rewrite Hc1. }
  rewrite Hc1 in Hfind. assert (∀ x, view d' x = commit_cell r tid <$> view (data c) x) as Hv.
  { apply view_commit; [done|done|]. intros i. rewrite Hfind. destruct (map_find (data c) i) as [e|] eqn:Ei; [|done]. cbn. f_equal. apply decide_ext. split; [by intros [_ ?]|]. intros Hw'. split; [by apply (Hin i e)|done]. }
  assert (ob_writes c2 = ob_writes c ∧ ob_last_commit_tid c2 = ob_last_commit_tid c ∧ ob_last_write_tid c2 = ob_last_write_tid c ∧ waitfor_commit c2 = waitfor_commit c ∧ complete c2 = complete c1 ∧ exists_ c2 = exists_ c1) as (W2 & L2 & T2 & Q2 & C2 & X2).
  { assert (ob_writes c1 = ob_writes c ∧ ob_last_commit_tid c1 = ob_last_commit_tid c ∧ ob_last_write_tid c1 = ob_last_write_tid c ∧ waitfor_commit c1 = waitfor_commit c) as (<- & <- & <- & <-) by (unfold c1; by destruct (exists_ c)).
    injection Ho2. done. }
  pose proof (a_ref _ _ _ Ha2) as Hr2. rewrite W2 in Hr2.
  set (c3 := with_ob_tids (ob_last_write_tid c2) tid c2). set (c4 := with_waitfor_commit (map_del (waitfor_commit c3) tid) c3). set (c5 := with_ob_ref (ob_ref c4 - 1) c4).
  set (c6 := with_ops (ob_reads c5) (filter (λ o, wc_tid o ≠ tid) (ob_writes c5)) c5).
  assert (acct c6) as Ha6.
  { apply (acct_frame _ _ c2); try done. change (ob_ref c6) with (ob_ref c2 - 1). change (ob_writes c6) with (filter (λ o, wc_tid o ≠ tid) (ob_writes c2)). rewrite W2. lia. }
  exists ((0 <? oset_dirty_or_tx c1) && (oset_dirty_or_tx c6 =? 0)), c6. split; [|split; [|split_and!]].
  - unfold bh_write_commit, gets, mbind, M_bind. assert (oset_dirty_or_tx c1 = oset_dirty_or_tx c) as -> by (unfold c1; by destruct (exists_ c)).
    assert ((if negb (exists_ c) then modify (with_flags (if cow then false else complete c) true) else mret tt) c = Ok (tt, c1)) as Ec1 by (unfold c1; by destruct (exists_ c)).
    assert ((if negb (exists_ c) then modify (λ c0, with_flags (if cow then false else complete c0) true c0) else mret tt) c = Ok (tt, c1)) as -> by (unfold c1; by destruct (exists_ c)).
    rewrite Hc1, E2. unfold assert_m, lift. rewrite L2, (proj2 (Z.ltb_lt _ _)) by done. cbn [assert_c]. unfold modify. rewrite T2.
    change (waitfor_commit (with_ob_tids (ob_last_write_tid c) tid c2)) with (waitfor_commit c2). unfold object_put, ref_put. fold c3.
    unfold c6, c5, c4, c3. cbn [ob_ref with_ob_tids with_waitfor_commit]. rewrite (proj2 (Z.ltb_lt 0 (ob_ref c2))) by (destruct (is_empty (data c2)); lia). cbn [assert_c mbind res_bind]. rewrite T2. change (waitfor_commit (with_ob_tids (ob_last_write_tid c) tid c2)) with (waitfor_commit c2). by rewrite Q2.
  - constructor; [done|by rewrite <- Hc2 in Hd'|by rewrite <- Hc2 in Hf'|]. intros x y. change (data c6) with (data c2). rewrite Hc2, Hv. destruct (view (data c) x) as [z|] eqn:E; [|done]. intros [= <-].
    unfold commit_cell. case_decide; [unfold commit_state; by destruct (0 <=? r)|by apply (Hse x)].
  - done.
  - change (exists_ c6) with (exists_ c2). rewrite X2. unfold c1. by destruct (exists_ c) eqn:E.
  - change (complete c6) with (complete c2). rewrite C2. unfold c1. by destruct (exists_ c).
  - change (waitfor_commit c6) with (map_del (waitfor_commit c2) tid). by rewrite Q2.
  - change (ob_writes c6) with (filter (λ o, wc_tid o ≠ tid) (ob_writes c2)). by rewrite W2.
  - unfold c1. by destruct (exists_ c).
  - intros x. change (data c6) with (data c2). by rewrite Hc2.
Qed.
End write_back.

(** ** Cutting: [truncate] and [discard] *)

Lemma size_total d : Z.of_nat (length d) = total (λ _, 1) d.
Proof. unfold total. induction d as [|a d IH]; simpl; lia. Qed.

Lemma last_head d k b : ordered d → last d = Some (k, b) → map_find d k = Some b ∧ ∀ i, is_Some (map_find d i) → i <= k.
Proof.
  intros Ho Hl. split; [apply map_find_elem; [done|by apply last_Some_elem_of]|]. intros i Hi. apply map_find_in in Hi. exact (last_sorted d Ho (k, b) Hl i Hi).
Qed.

(** No reader waits in the part that is cut. *)
Definition no_waiters d (lo hi : Z) : Prop := ∀ k b o, map_find d k = Some b → o ∈ keys (bh_waitfor_read b) → ¬ in_range lo hi o.

Lemma no_waiters_split d k off b lo hi : shape d → map_find d k = Some b → k < off < bh_end b → no_waiters d lo hi → no_waiters (split_data k off b d) lo hi.
Proof.
  intros Hd Hb Hoff Hn i e o [[-> ->]|[[-> ->]|(_ & _ & Hi)]]%find_split_cases; [| |by apply (Hn i e o)|done];
    intros (w & -> & [_ Hw]%list_elem_of_filter)%list_elem_of_fmap; apply (Hn k b _ Hb), list_elem_of_fmap; by exists w.
Qed.
Lemma no_waiters_head d k b lo hi : shape d → map_find d k = Some b → no_waiters d lo hi → lo <= k → bh_end b <= hi → bh_waitfor_read b = [].
Proof.
  intros Hd Hb Hn Hlo Hhi. destruct (bh_waitfor_read b) as [|[o w] l] eqn:E; [done|]. exfalso.
  assert (o ∈ keys (bh_waitfor_read b)) as Hin by (rewrite E; by left). destruct (s_head d Hd _ _ Hb) as [_ _ _ _ _ Hw]. specialize (Hw o Hin). apply (Hn k b o Hb Hin). unfold in_range. lia.
Qed.

Section cut.
Context (rest : bhstate → Z) (orest : Z).
Abbreviation does := (does rest orest).
Abbreviation acct := (acct rest orest).

Definition below (s : Z) d x := if x <? s then view d x else None.

Lemma truncate_loop_ok fuel s c : acct c → shape (data c) → filled (data c) → no_waiters (data c) s limit →
  ((∃ k b, map_find (data c) k = Some b ∧ k < s < bh_end b) → (length (data c) + 2 <= fuel)%nat) → (length (data c) <= fuel)%nat →
  ∃ d', does (truncate_loop fuel s) c tt d' ∧ shape d' ∧ filled d' ∧ ∀ x, view d' x = below s (data c) x.
Proof.
  revert c. induction fuel as [|fuel IH]; intros c Ha Hd Hfi Hnw Hcross Hlen.
  all: pose proof (s_ord _ Hd) as Ho; destruct (last (data c)) as [[k b]|] eqn:El.
  all: try (destruct (last_head _ _ _ Ho El) as [Hb Hmax]).
  all: try (destruct (Z.leb_spec (bh_end b) s) as [He|He]; [exists (data c); split; [|split; [done|split; [done|]]];
    [cbn [truncate_loop]; apply does_gets_bind; rewrite El, (proj2 (Z.leb_le _ _)) by done; by apply does_ret|
     intros x; unfold below; destruct (Z.ltb_spec x s); [done|]; unfold view; rewrite (proj2 (head_at_none _ x Hd)); [done|]; intros i e Hi Hx;
     specialize (Hmax i ltac:(by eexists)); destruct (Z.eq_dec i k) as [->|]; [rewrite Hb in Hi; injection Hi as <-; lia|pose proof (s_apart _ Hd _ _ _ _ Hi Hb ltac:(lia)); destruct (s_head _ Hd _ _ Hb) as [Esb _ Hlb _ _ _]; unfold bh_end in *; lia]]|]).
  all: try (exists (data c); split; [cbn [truncate_loop]; apply does_gets_bind; rewrite El; by apply does_ret|split; [done|split; [done|]]];
    intros x; unfold below; apply last_None in El; rewrite El; by destruct (x <? s)).
  - exfalso. destruct (data c); [done|simpl in Hlen; lia].
  - destruct (s_head _ Hd _ _ Hb) as [Es H0 Hl Hlim _ _]. pose proof (Hfi _ _ Hb) as Hok. destruct (Z.ltb_spec (bh_start b) s) as [Hlt|Hge].
    + assert (k < s < bh_end b) as Hin by lia. specialize (Hcross ltac:(by exists k, b)).
      destruct (does_split rest orest c k s b Ha Hd Hb Hin Hok) as (c1 & E1 & Hc1 & Ha1 & Ho1). pose proof (shape_split _ k s b Hd Hb Hin) as Hd1.
      destruct (IH c1 Ha1) as (d' & Hdo & Hd' & Hf' & Hv); rewrite ?Hc1; [done|by apply filled_split|by apply no_waiters_split| | |].
      { intros (i & e & [[-> ->]|[[-> ->]|(_ & Hik & Hi)]]%find_split_cases & Hie); [lia|rewrite left_end in Hie; lia| |done].
        specialize (Hmax i ltac:(by eexists)). pose proof (s_apart _ Hd _ _ _ _ Hi Hb ltac:(lia)). lia. }
      { apply Nat2Z.inj_le. rewrite size_total. unfold split_data. rewrite total_new; [|apply map_find_None; rewrite map_find_put by done; rewrite decide_False by lia; by apply (split_free _ k s b)].
        rewrite (total_old _ _ _ _ _ Ho Hb), <- size_total. lia. }
      exists d'. rewrite Hc1 in Hv. split; [|split; [done|split; [done|]]].
      * cbn [truncate_loop]. apply does_gets_bind. rewrite El, (proj2 (Z.leb_gt _ _)), (proj2 (Z.ltb_lt _ _)) by done. by apply (does_run _ _ _ _ s c1).
      * intros x. rewrite Hv. unfold below. by rewrite (view_split _ k s b Hd Hb Hin).
    + pose proof (no_waiters_head _ k b s limit Hd Hb Hnw ltac:(lia) ltac:(lia)) as Hnone.
      destruct (does_remove rest orest k b c Ha Hb) as (c1 & E1 & Hc1 & Ha1 & Ho1). pose proof (shape_del _ k Hd) as Hd1.
      destruct (IH c1 Ha1) as (d' & Hdo & Hd' & Hf' & Hv); rewrite ?Hc1; [done|by apply filled_del| | | |].
      { intros i e o. rewrite map_find_del. case_decide; [done|]. apply Hnw. }
      { intros (i & e & Hi & Hie). rewrite map_find_del in Hi. destruct (decide (i = k)); [done|]. specialize (Hcross ltac:(by exists i, e)). apply Nat2Z.inj_le. rewrite Nat2Z.inj_add, size_total, (total_del _ _ _ _ Ho Hb), <- size_total. lia. }
      { apply Nat2Z.inj_le. rewrite size_total, (total_del _ _ _ _ Ho Hb), <- size_total. lia. }
      exists d'. rewrite Hc1 in Hv. split; [|split; [done|split; [done|]]].
      * cbn [truncate_loop]. apply does_gets_bind. rewrite El, (proj2 (Z.leb_gt _ _)), (proj2 (Z.ltb_ge _ _)) by done. apply does_assert_bind; [by apply bool_decide_eq_true|]. by apply (does_run _ _ _ _ tt c1).
      * intros x. rewrite Hv. unfold below. rewrite (view_del _ k b x Hd Hb). unfold in_range. destruct (Z.ltb_spec x s); [|done]. by rewrite decide_False by lia.
Qed.

Lemma truncate_ok s c : sound rest orest c → no_waiters (data c) s limit →
  ∃ c', truncate s c = Ok (tt, c') ∧ sound rest orest c' ∧ other c' = other c ∧ ∀ x, view (data c') x = below s (data c) x.
Proof.
  intros [Ha Hd Hfi Hse] Hnw. destruct (truncate_loop_ok (length (data c) + 2) s c Ha Hd Hfi Hnw) as (d' & (c1 & E1 & Hc1 & Ha1 & Ho1) & Hd' & Hf' & Hv); [lia|lia|].
  exists c1. split_and!; [done| |done|by rewrite Hc1]. constructor; rewrite ?Hc1; try done. intros x y. rewrite Hv. unfold below. destruct (x <? s); [apply Hse|done].
Qed.

Definition outside (off len : Z) d x := if decide (in_range off (off + len) x) then None else view d x.

(** The first head that may reach into the range. *)
Definition at_range d (off hi : Z) (p : option Z) : Prop :=
  (∀ k, p = Some k → ∃ b, map_find d k = Some b ∧ off < bh_end b) ∧ ∀ i e, map_find d i = Some e → off < bh_end e → i < hi → ∃ k, p = Some k ∧ k <= i.
(** The turns that are enough. *)
Definition discard_turns d (off hi : Z) (p : option Z) (fuel : nat) : Prop :=
  ∀ k, p = Some k → (1 <= fuel)%nat ∧ (k < hi → (heads_from d k + (if (k <? off)%Z then 2 else 1) <= fuel)%nat).

Lemma after_next d k b j : shape d → map_find d k = Some b → after d k = Some j → k < j ∧ ∃ e, map_find d j = Some e ∧ bh_end b <= j < bh_end e.
Proof.
  intros Hd Hb E. destruct (lower_bound_some d (k + 1) j (s_ord _ Hd) E) as ([e He] & Hlt & _). split; [lia|]. exists e. split; [done|].
  pose proof (s_apart _ Hd _ _ _ _ Hb He ltac:(lia)). destruct (s_head _ Hd _ _ He) as [Es _ Hl _ _ _]. unfold bh_end in *. lia.
Qed.

Lemma at_range_after d off hi k b : shape d → map_find d k = Some b → at_range d off hi (Some k) → bh_end b = off ∨ off <= k →
  at_range (if decide (bh_end b = off) then d else map_del d k) off hi (after d k).
Proof.
  intros Hd Hb [_ Hr] Hcase. pose proof (s_ord _ Hd) as Ho. destruct (s_head _ Hd _ _ Hb) as [Es _ Hl _ _ _].
  assert (∀ i e, map_find d i = Some e → off < bh_end e → i < hi → i ≠ k → ∃ k0, after d k = Some k0 ∧ k0 <= i) as Hnext.
  { intros i e Hi He Hhi Hne. destruct (Hr i e Hi He Hhi) as (k0 & [= <-] & Hle). unfold after. destruct (lower_bound d (k + 1)) as [j|] eqn:E.
    - destruct (lower_bound_some d (k + 1) j Ho E) as (_ & _ & Hmin). exists j. split; [done|]. apply Hmin; [by eexists|lia].
    - pose proof (lower_bound_none d (k + 1) E i ltac:(by eexists)). lia. }
  assert (∀ j, after d k = Some j → j ≠ k ∧ ∃ e, map_find d j = Some e ∧ off < bh_end e) as Hj.
  { intros j E. destruct (after_next d k b j Hd Hb E) as (Hlt & e & He & Hbe). split; [lia|]. exists e. split; [done|]. unfold bh_end in *. lia. }
  case_decide as Hc; split.
  - intros j E. by apply Hj.
  - intros i e Hi He Hhi. apply (Hnext i e Hi He Hhi). intros ->. rewrite Hb in Hi. injection Hi as <-. lia.
  - intros j E. setoid_rewrite map_find_del. destruct (Hj j E) as [Hn Hx]. by rewrite decide_False.
  - intros i e. rewrite map_find_del. destruct (decide (i = k)); [done|]. intros Hi He Hhi. by apply (Hnext i e).
Qed.

Lemma at_range_split d off hi k cut b : shape d → map_find d k = Some b → k < cut < bh_end b → at_range d off hi (Some k) → 
  ∀ i e, map_find (split_data k cut b d) i = Some e → off < bh_end e → i < hi → ∃ j, Some k = Some j ∧ j <= i.
Proof.
  intros Hd Hb Hcut [_ Hr] i e [[-> ->]|[[-> ->]|(_ & _ & Hi)]]%find_split_cases He Hhi; [exists k; split; [done|lia]|by exists k|by apply (Hr i e)|done].
Qed.

Lemma heads_from_split d k cut b : shape d → map_find d k = Some b → k < cut < bh_end b → (heads_from (split_data k cut b d) k <= S (heads_from d k))%nat.
Proof.
  intros Hd Hb Hcut. pose proof (s_ord _ Hd) as Ho. unfold split_data. set (m := map_put d k (left_of cut b)).
  assert (heads_from m k <= heads_from d k)%nat.
  { apply heads_sub; [by apply map_put_ordered|]. intros i Hi. unfold m. rewrite map_find_put by done. case_decide; [subst; intros _; split; [lia|by eexists]|done]. }
  assert (cut ∉ keys m) as Hcm by (apply map_find_None; unfold m; rewrite map_find_put by done; rewrite decide_False by lia; by apply (split_free d k cut b)).
  unfold heads_from, buffers in *. pose proof (map_put_new m cut (right_of cut b) Hcm) as Hp.
  assert (length (filter (λ a : Z * BufferHead, k <= a.1) (map_put m cut (right_of cut b))) = length (filter (λ a : Z * BufferHead, k <= a.1) ((cut, right_of cut b) :: m))) as -> by (by rewrite Hp).
  rewrite filter_cons. destruct (decide _); simpl; lia.
Qed.

Lemma outside_none d off len p : shape d → at_range d off (off + len) p → (∀ k, p = Some k → off + len <= k) → ∀ x, view d x = outside off len d x.
Proof.
  intros Hd [_ Hr] Hp x. unfold outside. case_decide as Hx; [|done]. unfold view. rewrite (proj2 (head_at_none d x Hd)); [done|]. intros i e Hi Hxe. unfold in_range in Hx.
  destruct (Hr i e Hi ltac:(lia) ltac:(lia)) as (k & E & Hle). specialize (Hp k E). lia.
Qed.

(** A head of the range is removed. *)
Lemma discard_head c k b off len : acct c → shape (data c) → filled (data c) → no_waiters (data c) off (off + len) → map_find (data c) k = Some b → off <= k → k < off + len →
  ∃ c1 b1 c2, (if off + len <? bh_end b then split_bh k (off + len);; mret tt else mret tt) c = Ok (tt, c1) ∧ map_find (data c1) k = Some b1 ∧ bh_waitfor_read b1 = [] ∧
    bh_remove k c1 = Ok (tt, c2) ∧ acct c2 ∧ other c2 = other c ∧ shape (data c1) ∧ filled (data c2) ∧ no_waiters (data c2) off (off + len) ∧ data c2 = map_del (data c1) k ∧
    (∀ x, view (data c1) x = view (data c) x) ∧ bh_end b1 <= off + len ∧ (bh_end b <= off + len → data c1 = data c) ∧ (off + len < bh_end b → bh_end b1 = off + len) ∧
    (∀ p, at_range (data c) off (off + len) (Some k) → p = after (data c1) k → at_range (data c2) off (off + len) p).
Proof.
  intros Ha Hd Hfi Hnw Hb Hk Hlt. destruct (s_head _ Hd _ _ Hb) as [Es H0 Hl _ _ _]. pose proof (Hfi _ _ Hb) as Hok.
  assert (∃ c1 b1, (if off + len <? bh_end b then split_bh k (off + len);; mret tt else mret tt) c = Ok (tt, c1) ∧ map_find (data c1) k = Some b1 ∧ acct c1 ∧ other c1 = other c ∧
    shape (data c1) ∧ filled (data c1) ∧ no_waiters (data c1) off (off + len) ∧ (∀ x, view (data c1) x = view (data c) x) ∧ bh_end b1 <= off + len ∧
    (bh_end b <= off + len → data c1 = data c) ∧ (off + len < bh_end b → bh_end b1 = off + len) ∧ (at_range (data c) off (off + len) (Some k) → at_range (data c1) off (off + len) (Some k)))
    as (c1 & b1 & E1 & Hb1 & Ha1 & Ho1 & Hd1 & Hf1 & Hn1 & Hv1 & He1 & Hs1 & Hs2 & Hat).
  { destruct (Z.ltb_spec (off + len) (bh_end b)) as [Hc|Hc]; cycle 1.
    - exists c, b. split_and!; done || lia.
    - assert (k < off + len < bh_end b) as Hin by lia. destruct (does_split rest orest c k (off + len) b Ha Hd Hb Hin Hok) as (c1 & E1 & Hc1 & Ha1 & Ho1).
      exists c1, (left_of (off + len) b). rewrite Hc1. split_and!.
      + unfold mbind, M_bind. by rewrite E1.
      + rewrite find_split by done. by rewrite decide_False, decide_True by lia.
      + done.
      + done.
      + by apply shape_split.
      + by apply filled_split.
      + by apply no_waiters_split.
      + intros x. by apply view_split.
      + rewrite left_end. lia.
      + lia.
      + intros _. apply left_end.
      + intros Hat. split; [intros ? [= <-]|by apply (at_range_split _ _ _ k _ b)]. exists (left_of (off + len) b). rewrite find_split by done. rewrite decide_False, decide_True by lia. split; [done|]. rewrite left_end. lia. }
  destruct (does_remove rest orest k b1 c1 Ha1 Hb1) as (c2 & E2 & Hc2 & Ha2 & Ho2). exists c1, b1, c2. split_and!; try done.
  - by apply (no_waiters_head _ k b1 off (off + len) Hd1 Hb1 Hn1).
  - congruence.
  - rewrite Hc2. by apply filled_del.
  - rewrite Hc2. intros i e o. rewrite map_find_del. case_decide; [done|]. apply Hn1.
  - intros p Hp ->. rewrite Hc2. specialize (Hat Hp). destruct (s_head _ Hd1 _ _ Hb1) as [Es1 _ Hl1 _ _ _].
    pose proof (at_range_after _ _ _ k b1 Hd1 Hb1 Hat ltac:(by right)) as H. rewrite decide_False in H; [done|]. unfold bh_end. lia.
Qed.

Lemma discard_loop_ok fuel p off len c : acct c → shape (data c) → filled (data c) → no_waiters (data c) off (off + len) → 0 < len →
  at_range (data c) off (off + len) p → discard_turns (data c) off (off + len) p fuel →
  ∃ d', does (discard_loop fuel p off len) c tt d' ∧ shape d' ∧ filled d' ∧ ∀ x, view d' x = outside off len (data c) x.
Proof.
  revert p c. induction fuel as [|fuel IH]; intros p c Ha Hd Hfi Hnw Hlen Hat Ht.
  all: destruct p as [k|]; [|exists (data c); split; [by apply does_ret|]; split; [done|]; split; [done|]; by apply (outside_none _ _ _ None)].
  { destruct (Ht k eq_refl). lia. }
  destruct (proj1 Hat k eq_refl) as (b & Hb & Hbo). destruct (s_head _ Hd _ _ Hb) as [Es H0 Hl Hlim _ _]. pose proof (Hfi _ _ Hb) as Hok. destruct (Ht k eq_refl) as [_ Htk]. pose proof (s_ord _ Hd) as Ho.
  cbn [discard_loop]. destruct (bool_decide (off + len <= bh_start b)) eqn:Ebd; [apply bool_decide_eq_true in Ebd|apply bool_decide_eq_false in Ebd].
  { exists (data c). split; [|split; [done|split; [done|]]].
    - apply (does_get_bind rest orest _ _ _ b); [done|]. rewrite (proj2 (Z.leb_le _ _)) by done. by apply does_ret.
    - apply (outside_none _ _ _ (Some k)); [done|done|]. intros ? [= <-]. lia. }
  specialize (Htk ltac:(lia)). destruct (Z.lt_ge_cases k off) as [Hlt|Hge].
  - rewrite (proj2 (Z.ltb_lt k off)) in Htk by lia. assert (k < off < bh_end b) as Hin by lia.
    destruct (does_split rest orest c k off b Ha Hd Hb Hin Hok) as (c1 & E1 & Hc1 & Ha1 & Ho1). pose proof (shape_split _ k off b Hd Hb Hin) as Hd1.
    assert (map_find (split_data k off b (data c)) k = Some (left_of off b)) as Hb1 by (rewrite find_split by done; by rewrite decide_False, decide_True by lia).
    assert (at_range (split_data k off b (data c)) off (off + len) (after (split_data k off b (data c)) k)) as Hat1.
    { split.
      - intros j E. destruct (after_next _ k _ j Hd1 Hb1 E) as (_ & e & He & Hje). rewrite left_end in Hje. exists e. split; [done|lia].
      - intros i e Hi He Hhi. assert (i ≠ k) as Hne by (intros ->; rewrite Hb1 in Hi; injection Hi as <-; rewrite left_end in He; lia).
        destruct (at_range_split _ _ _ k off b Hd Hb Hin Hat i e Hi He Hhi) as (j & [= <-] & Hle). unfold after.
        destruct (lower_bound (split_data k off b (data c)) (k + 1)) as [j|] eqn:E.
        + destruct (lower_bound_some _ _ _ (s_ord _ Hd1) E) as (_ & _ & Hmin). exists j. split; [done|]. apply Hmin; [by eexists|lia].
        + pose proof (lower_bound_none _ _ E i ltac:(by eexists)). lia. }
    destruct (IH (after (data c1) k) c1 Ha1) as (d' & Hdo & Hd' & Hf' & Hv); rewrite ?Hc1; [done|by apply filled_split|by apply no_waiters_split|done|done| |].
    { intros j E. destruct (after_next _ k _ j Hd1 Hb1 E) as (Hkj & ej & _ & Hje). rewrite left_end in Hje. rewrite (proj2 (Z.ltb_ge j off)) by lia.
      pose proof (heads_from_after _ k _ (s_ord _ Hd1) Hb1 j Hkj). pose proof (heads_from_split _ k off b Hd Hb Hin). split; lia. }
    exists d'. rewrite Hc1 in Hv. split; [|split; [done|split; [done|]]].
    + apply (does_get_bind rest orest _ _ _ b); [done|]. rewrite (proj2 (Z.leb_gt _ _)), (proj2 (Z.ltb_lt _ _)) by lia. by apply (does_run _ _ _ _ off c1).
    + intros x. rewrite Hv. unfold outside. by rewrite (view_split _ k off b Hd Hb Hin).
  - rewrite (proj2 (Z.ltb_ge k off)) in Htk by lia.
    destruct (discard_head c k b off len Ha Hd Hfi Hnw Hb Hge ltac:(lia)) as (c1 & b1 & c2 & E1 & Hb1 & Hw1 & E2 & Ha2 & Ho2 & Hd1 & Hf2 & Hn2 & Hc2 & Hv1 & He1 & Hs1 & Hs2 & Hat2).
    specialize (Hat2 _ Hat eq_refl). pose proof (shape_del _ k Hd1) as Hd2. rewrite <- Hc2 in Hd2.
    destruct (IH (after (data c1) k) c2 Ha2 Hd2 Hf2 Hn2 Hlen Hat2) as (d' & Hdo & Hd' & Hf' & Hv).
    { intros j E. destruct (after_next _ k _ j Hd1 Hb1 E) as (Hkj & ej & _ & Hje). pose proof (heads_from_after _ k b Ho Hb (k + 1) ltac:(lia)); split; [lia|]. intros Hjh. rewrite (proj2 (Z.ltb_ge j off)) by lia.
      destruct (Z.le_gt_cases (bh_end b) (off + len)) as [Hc|Hc]; [|specialize (Hs2 Hc); lia]. specialize (Hs1 Hc). rewrite Hc2, Hs1 in *.
      pose proof (heads_from_after _ k b Ho Hb j Hkj). assert (heads_from (map_del (data c) k) j <= heads_from (data c) j)%nat; [|lia].
      apply heads_sub; [by apply map_del_ordered|]. intros i Hi. rewrite map_find_del. destruct (decide (i = k)); [by intros []|done]. }
    exists d'. split; [|split; [done|split; [done|]]].
    + apply (does_get_bind rest orest _ _ _ b); [done|]. rewrite (proj2 (Z.leb_gt _ _)), (proj2 (Z.ltb_ge _ _)) by lia.
      assert (∀ {S} (f : unit → M cache S) s d2, does (f tt) c1 s d2 → other c1 = other c → does ((if off + len <? bh_end b then split_bh k (off + len);; mret tt else mret tt) ≫= f) c s d2) as Hrun
        by (intros S f s d2 Hf Hof; by apply (does_run _ _ _ _ tt c1)).
      assert (other c1 = other c) as Ho1.
      { destruct (off + len <? bh_end b) eqn:Ec; [|by injection E1 as <-]. apply Z.ltb_lt in Ec. destruct (does_split rest orest c k (off + len) b Ha Hd Hb ltac:(lia) Hok) as (c1' & E1' & _ & _ & Ho1').
        revert E1. unfold mbind, M_bind. rewrite E1'. by intros [= <-]. }
      apply (does_run _ _ _ _ tt c1); [done|done|]. apply does_gets_bind. apply (does_get_bind rest orest _ _ _ b1); [done|]. apply does_assert_bind; [by apply bool_decide_eq_true|].
      apply (does_run _ _ _ _ tt c2); [done|congruence|done].
    + intros x. rewrite Hv. unfold outside. rewrite Hc2, (view_del _ k b1 x Hd1 Hb1), Hv1. unfold in_range. destruct (decide (off <= x < off + len)); [done|]. by rewrite decide_False by lia.
Qed.

Lemma discard_ok off len c : sound rest orest c → 0 < len → no_waiters (data c) off (off + len) →
  ∃ c', discard off len c = Ok (tt, c') ∧ sound rest orest c' ∧ exists_ c' = true ∧ complete c' = false ∧ ∀ x, view (data c') x = outside off len (data c) x.
Proof.
  intros [Ha Hd Hfi Hse] Hlen Hnw. set (c1 := with_flags false true c). assert (acct c1) as Ha1 by by apply (acct_frame _ _ c).
  destruct (discard_loop_ok (length (data c) + 3) (data_lower_bound (data c) off) off len c1 Ha1 Hd Hfi Hnw Hlen) as (d' & (c2 & E2 & Hc2 & Ha2 & Ho2) & Hd' & Hf' & Hv).
  - split.
    + intros k E. destruct (data_lower_bound_some _ _ _ Hd E) as (b & Hb & Hlt & _). by exists b.
    + intros i e Hi He _. destruct (data_lower_bound (data c) off) as [k|] eqn:E; [exists k; split; [done|]; destruct (data_lower_bound_some _ _ _ Hd E) as (b & _ & _ & Hmin); by apply (Hmin i e)|].
      pose proof (data_lower_bound_none _ _ Hd E i e Hi). lia.
  - intros k E. pose proof (heads_from_le (data c) k). change (data c1) with (data c). split; [lia|]. intros _. destruct (k <? off); lia.
  - exists c2. split_and!; [done| |by injection Ho2|by injection Ho2|by rewrite Hc2]. constructor; rewrite ?Hc2; try done. intros x y. rewrite Hv. unfold outside. case_decide; [done|apply Hse].
Qed.
End cut.

(** ** Giving up what can be read again *)

Section forget.
Context (rest : bhstate → Z) (orest : Z).
Abbreviation sound := (sound rest orest).

Definition idle b : Prop := is_clean b || is_zero b = true.
Lemma idle_state b : idle b → bh_state b = STATE_CLEAN ∨ bh_state b = STATE_ZERO.
Proof. intros [H%bool_decide_eq_true|H%bool_decide_eq_true]%orb_true_iff; auto. Qed.

(** Some clean or zero bytes are not known any more; nothing else changes. *)
Record forgets c c' : Prop := Forgets {
  fo_sound : sound c';
  fo_view : ∀ x y, view (data c') x = Some y → view (data c) x = Some y;
  fo_kept : ∀ x y, view (data c) x = Some y → y.1.1.1 ≠ STATE_CLEAN → y.1.1.1 ≠ STATE_ZERO → view (data c') x = Some y;
  fo_exists : exists_ c' = exists_ c;
  fo_reg : ∀ t, registered t c → registered t c';
}.
Lemma forgets_refl c : sound c → forgets c c.
Proof. by constructor. Qed.
Lemma forgets_trans c1 c2 c3 : forgets c1 c2 → forgets c2 c3 → forgets c1 c3.
Proof. intros [A1 A2 A3 A4 A5] [B1 B2 B3 B4 B5]. constructor; [done|auto|auto|congruence|auto]. Qed.

Lemma forget_flags c co : sound c → forgets c (with_flags co (exists_ c) c).
Proof. intros [Ha Hd Hf Hs]. constructor; try done. constructor; try done. by apply (acct_frame _ _ c). Qed.

Lemma forget_head c k b : sound c → map_find (data c) k = Some b → idle b →
  ∃ c', bh_remove k c = Ok (tt, c') ∧ forgets c c' ∧ data c' = map_del (data c) k ∧ complete c' = complete c.
Proof.
  intros [Ha Hd Hf Hs] Hb Hi. destruct (does_remove rest orest k b c Ha Hb) as (c1 & E1 & Hc1 & Ha1 & Ho1). exists c1.
  assert (∀ x, view (data c1) x = if decide (in_range k (bh_end b) x) then None else view (data c) x) as Hv by (intros x; by rewrite Hc1, (view_del _ k b x Hd Hb)).
  split; [done|]. split; [|split; [done|by injection Ho1]]. constructor.
  - constructor; rewrite ?Hc1; [done|by apply shape_del|by apply filled_del|]. intros x y. rewrite <- Hc1, Hv. case_decide; [done|apply Hs].
  - intros x y. rewrite Hv. by case_decide.
  - intros x y Hy H1 H2. rewrite Hv. case_decide as Hx; [|done]. rewrite (view_head _ k b x Hd Hb Hx) in Hy. injection Hy as <-. by destruct (idle_state b Hi).
  - by injection Ho1.
  - intros t [Ht|(i & e & Hi' & Hr & Ht)]; [left; by injection Ho1 as _ _ _ _ _ _ _ ->|]. right. exists i, e. split; [|done]. rewrite Hc1, map_find_del, decide_False; [done|].
    intros ->. rewrite Hb in Hi'. injection Hi' as <-. destruct (idle_state b Hi); congruence.
Qed.

Definition can_go d (ks : list Z) : Prop := NoDup ks ∧ ∀ k, k ∈ ks → ∃ b, map_find d k = Some b ∧ idle b.
Lemma can_go_tail d k ks : can_go d (k :: ks) → can_go (map_del d k) ks.
Proof.
  intros [[Hk Hn]%NoDup_cons Hin]. split; [done|]. intros i Hi. destruct (Hin i ltac:(by right)) as (b & Hb & Hid). exists b. split; [|done].
  rewrite map_find_del, decide_False; [done|by intros ->].
Qed.

Lemma forget_all ks c : sound c → can_go (data c) ks → ∃ c', remove_all ks c = Ok (tt, c') ∧ forgets c c' ∧ complete c' = complete c.
Proof.
  revert c. induction ks as [|k ks IH]; intros c Hs Hg; [exists c; split; [done|]; split; [by apply forgets_refl|done]|].
  destruct (proj2 Hg k ltac:(by left)) as (b & Hb & Hi). destruct (forget_head c k b Hs Hb Hi) as (c1 & E1 & Hf1 & Hd1 & Hc1).
  destruct (IH c1) as (c2 & E2 & Hf2 & Hc2); [apply Hf1|rewrite Hd1; by apply can_go_tail|]. exists c2.
  split; [cbn [remove_all]; unfold mbind, M_bind; by rewrite E1|]. split; [by eapply forgets_trans|congruence].
Qed.

(** What the LRU gives up is clean or zero. *)
Definition lru_ok (lru : buffers → list Z) : Prop := ∀ d, ordered d → can_go d (lru d).

Lemma trim_loop_ok ms ks c : sound c → can_go (data c) ks → ∃ c', trim_loop ms ks c = Ok (tt, c') ∧ forgets c c' ∧ (c' = c ∨ complete c' = false).
Proof.
  assert (∀ c, sound c → ∃ c', mret (M := M cache) tt c = Ok (tt, c') ∧ forgets c c' ∧ (c' = c ∨ complete c' = false)) as Hret.
  { intros c0 Hs. exists c0. split; [done|]. split; [by apply forgets_refl|by left]. }
  revert c. induction ks as [|k ks IH]; intros c Hs Hg; cbn [trim_loop]; unfold gets, mbind at 1, M_bind at 1; destruct (_ && _); try by apply Hret.
  destruct (proj2 Hg k ltac:(by left)) as (b & Hb & Hi). destruct (forget_head c k b Hs Hb Hi) as (c1 & E1 & Hf1 & Hd1 & Hc1).
  set (c2 := with_flags false (exists_ c1) c1). destruct (IH c2) as (c3 & E3 & Hf3 & Hc3).
  { by apply forget_flags, Hf1. }
  { change (data c2) with (data c1). rewrite Hd1. by apply can_go_tail. }
  exists c3. split; [|split].
  - unfold mbind, M_bind, get_bh at 1. rewrite Hb. unfold idle in Hi. rewrite Hi. cbn [assert_m assert_c lift]. by rewrite E1.
  - eapply forgets_trans; [exact Hf1|]. eapply forgets_trans; [by apply forget_flags, Hf1|exact Hf3].
  - right. by destruct Hc3 as [->|?].
Qed.
Lemma trim_ok ms lru c : sound c → lru_ok lru → ∃ c', trim ms lru c = Ok (tt, c') ∧ forgets c c' ∧ (c' = c ∨ complete c' = false).
Proof. intros Hs Hl. apply trim_loop_ok; [done|apply Hl, (so_shape _ _ _ Hs)]. Qed.

Lemma idle_keys d : ordered d → can_go d (keys (filter (λ x : Z * BufferHead, is_clean x.2 || is_zero x.2) d)).
Proof.
  intros Ho. split; [by apply ordered_keys_NoDup, filter_ordered|]. intros k ([k' b] & -> & Hin)%list_elem_of_fmap. apply list_elem_of_filter in Hin as [Hi Hin]. exists b. split; [by apply map_find_elem|].
  by apply Is_true_true.
Qed.

(** The flags of an object whose buffers were released. *)
Lemma release_ok c n c' : sound c → release c = Ok ((false, n), c') → ∃ c1, forgets c c1 ∧ sound c' ∧ data c' = data c1 ∧ complete c' = false.
Proof.
  intros Hs. unfold release, release_buffers, gets, mbind, M_bind. match goal with |- context [remove_all ?ks c] =>
    destruct (forget_all ks c Hs (idle_keys _ (s_ord _ (so_shape _ _ _ Hs)))) as (c1 & E1 & Hf1 & _) end. rewrite E1. unfold mret, M_ret. destruct (ob_ref c1 =? 0).
  - do 3 (destruct (assert_m _ _) as [[[] ?]|]; [|done]). done.
  - unfold modify. intros [= <- <-]. exists c1. split; [done|]. split; [|done]. destruct (fo_sound _ _ Hf1) as [Ha Hd Hf Hse]. constructor; try done. by apply (acct_frame _ _ c1).
Qed.

Lemma clear_nonexistence_ok c : sound c → ∃ c', clear_nonexistence c = Ok (tt, c') ∧ sound c' ∧ data c' = data c ∧ (complete c' = true → complete c = true).
Proof.
  intros Hs. pose proof Hs as [Ha Hd Hf Hse]. unfold clear_nonexistence, gets, mbind, M_bind, modify. destruct (exists_ c); (eexists; split; [reflexivity|]); (split; [|done]); constructor; try done; by apply (acct_frame _ _ c).
Qed.

(** What every write-back keeps, a flush keeps. *)
Lemma flush_keeps (P : cache → Prop) ks offset len tids clean c r c' :
  (∀ k b t c1 c2, P c1 → map_find (data c1) k = Some b → bh_state b = STATE_DIRTY → bh_write k t c1 = Ok (tt, c2) → P c2) →
  P c → flush_loop ks offset len tids clean c = Ok (r, c') → P c'.
Proof.
  intros HP. revert tids clean c. induction ks as [|k ks IH]; intros tids clean c Hc; cbn [flush_loop]; [by intros [= <- <-]|].
  unfold mbind, M_bind, get_bh. destruct (map_find (data c) k) as [b|] eqn:Hb; [|done]. destruct (negb (len =? 0) && _); [by intros [= <- <-]|].
  destruct (is_tx b); [by apply IH|]. destruct (is_dirty b) eqn:Hd; cbn [negb]; [|by apply IH]. destruct tids as [|t tids]; [done|].
  destruct (bh_write k t c) as [[[] c1]|] eqn:E; [|done]. apply IH. apply (HP k b t c c1 Hc Hb); [by apply bool_decide_eq_true in Hd|done].
Qed.

(** ** [_readx] *)

Lemma readx_hit c ex ms lru re cow ext retry tids : sound c → one_range ex → lru_ok lru → re && negb (exists_ c) = false → all_readable (complete c) (data c) ex →
  ∃ bs c1 c', readx ms lru re cow ext retry tids ex c = Ok (ReadDone bs, c') ∧ shows (shown (complete c) (data c)) (e_offset ex) (e_length ex) bs ∧ sound c1 ∧ other c1 = other c ∧
    (∀ x, view (data c1) x = if decide (in_range (e_offset ex) (e_offset ex + e_length ex) x) then shown (complete c) (data c) x else view (data c) x) ∧
    forgets c1 c' ∧ (c' = c1 ∨ complete c' = false).
Proof.
  intros Hs Ho Hl Hex Hall. destruct (read_extent_hit rest orest c ex ms re cow ext retry tids Hs Ho Hex Hall) as (bs & c1 & E & Hsh & Hs1 & Ho1 & Hv).
  destruct (trim_ok ms lru c1 Hs1 Hl) as (c2 & E2 & Hf & Hc). exists bs, c1, c2. split; [|done]. unfold readx, mbind, M_bind. by rewrite E, E2.
Qed.

Lemma readx_waits c ex ms lru re cow ext t tids : sound c → one_range ex → re && negb (exists_ c) = false → ¬ all_readable (complete c) (data c) ex →
  ext = true ∨ no_errors (data c) ex →
  ∃ c', readx ms lru re cow ext (Some t) tids ex c = Ok (ReadDeferred, c') ∧ sound c' ∧ registered t c' ∧ (∀ s, registered s c → registered s c') ∧
    (∀ x y, view (data c) x = Some y → y.1.1.1 ≠ STATE_ERROR → ∃ w, view (data c') x = Some (y.1, w)) ∧
    (∀ x y, view (data c') x = Some y → readable y.1.1.1 = true → ∃ w, shown (complete c) (data c) x = Some (y.1, w)) ∧ complete c' = complete c ∧ exists_ c' = exists_ c.
Proof.
  intros Hs Ho Hex Hun Hext. destruct (read_extent_waits rest orest c ex ms re cow ext t tids Hs Ho Hex Hun Hext) as (c' & E & H). exists c'. split; [|done].
  unfold readx, mbind, M_bind. by rewrite E.
Qed.
End forget.
