(* ===== verification/CacherProps.v ===== *)
(** * What one cached object promises

    The object the cache stands for is a function from offsets to bytes.  The
    cache is coherent with it when every byte it can show is the byte of the
    object; every operation keeps that, and a read returns bytes of the object. *)

From stdpp Require Import sorting.
From S2P Require Import Prelude StdMap IntervalSet SnapSet OsdMapping Striper Cacher.
From S2P Require Import CacherSpec CacherRead CacherIo CacherBack.

Implicit Types (d : buffers) (b e : BufferHead) (c : cache) (k x i : Z) (truth : Z → Z).

(** ** Audits *)


(** ** The object behind the cache *)

(** A byte that can be read is the byte of the object, and the others are zero
    when the cache knows all of the object. *)
Record coherent truth c : Prop := Coherent {
  co_byte : ∀ x y, view (data c) x = Some y → readable y.1.1.1 = true → y.1.2 = Some (truth x);
  co_rest : complete c = true → ∀ x, (∀ y, view (data c) x = Some y → readable y.1.1.1 = false) → truth x = 0;
}.

Definition put_bytes truth (off : Z) (bs : list Z) x : Z := if decide (in_range off (off + Z.of_nat (length bs)) x) then default 0 (bs !! Z.to_nat (x - off)) else truth x.
Definition zero_bytes truth (off hi : Z) x : Z := if decide (in_range off hi x) then 0 else truth x.

(** The bytes a write takes from the caller's buffer. *)
Definition slice (wrbl : list Z) (bo len : Z) : list Z := take (Z.to_nat len) (drop (Z.to_nat bo) wrbl).

Record write_args (ex : ObjectExtent) (wrbl : list Z) (bo : Z) : Prop := WriteArgs {
  wr_lo : 0 <= e_offset ex;
  wr_len : 0 < e_length ex;
  wr_hi : e_offset ex + e_length ex < limit;
  wr_one : e_buffer_extents ex = [(bo, e_length ex)];
  wr_bo : 0 <= bo;
  wr_buf : bo + e_length ex <= Z.of_nat (length wrbl);
  wr_lim : Z.of_nat (length wrbl) < limit;
}.
(** A read that was asked for, and that nothing has cut since. *)
Record pending d (tid start : Z) b : Prop := Pending {
  pe_find : map_find d start = Some b;
  pe_state : bh_state b = STATE_RX;
  pe_tid : bh_last_read_tid b = tid;
}.

(** What happens to the object and to the cache; the guards are what the callers,
    the handler and the LRU owe.  A read may trim at its end, a write is followed by
    a trim ([writex_steps]); [flush], [release] as long as the object stays open, and
    [clear_nonexistence] are the operations of the cacher on its objects; [purge] is
    the truncation to nothing. *)
Inductive cstep : (Z → Z) * cache → (Z → Z) * cache → Prop :=
  | step_write truth c ex wrbl bo snapc now dn c' : write_args ex wrbl bo → writex_extent ex wrbl snapc now dn c = Ok (tt, c') →
      cstep (truth, c) (put_bytes truth (e_offset ex) (slice wrbl bo (e_length ex)), c')
  | step_read truth c ms lru re cow ext t tids ex r c' : one_range ex → lru_ok lru → re && negb (exists_ c) = false → ext = true ∨ no_errors (data c) ex →
      readx ms lru re cow ext (Some t) tids ex c = Ok (r, c') → cstep (truth, c) (truth, c')
  | step_trim truth c ms lru c' : lru_ok lru → trim ms lru c = Ok (tt, c') → cstep (truth, c) (truth, c')
  | step_flush truth c off len tids r c' : flush off len tids c = Ok (r, c') → cstep (truth, c) (truth, c')
  | step_release truth c n c' : release c = Ok ((false, n), c') → cstep (truth, c) (truth, c')
  | step_clear_nonexistence truth c c' : clear_nonexistence c = Ok (tt, c') → cstep (truth, c) (truth, c')
  | step_answer truth c tid start b bl r trust res c' : pending (data c) tid start b → Z.of_nat (length bl) <= bh_length b → r ≠ - ENOENT →
      (0 <= r → ∀ x, in_range start (bh_end b) x → padded bl (bh_length b) r !! Z.to_nat (x - start) = Some (truth x)) →
      apply_read tid start (bh_length b) bl r trust c = Ok (res, c') → cstep (truth, c) (truth, c')
  | step_no_object truth c tid start b bl res c' : pending (data c) tid start b → (∀ x, (∀ y, view (data c) x = Some y → readable y.1.1.1 = false) → truth x = 0) →
      apply_read tid start (bh_length b) bl (- ENOENT) true c = Ok (res, c') → cstep (truth, c) (truth, c')
  | step_write_back truth c k b tid c' : map_find (data c) k = Some b → bh_state b = STATE_DIRTY → bh_write k tid c = Ok (tt, c') → cstep (truth, c) (truth, c')
  | step_commit truth c start len tid r cow res c' : commits (data c) start len tid → ob_last_commit_tid c < tid →
      S (length (filter (λ o, wc_tid o ≠ tid) (ob_writes c))) = length (ob_writes c) → bh_write_commit start len tid r cow c = Ok (res, c') → cstep (truth, c) (truth, c')
  | step_truncate truth c s c' : no_waiters (data c) s limit → truncate s c = Ok (tt, c') → cstep (truth, c) (λ x, if x <? s then truth x else 0, c')
  | step_discard truth c off len c' : 0 < len → no_waiters (data c) off (off + len) → discard off len c = Ok (tt, c') → cstep (truth, c) (zero_bytes truth off (off + len), c').

Definition byte_readable (co : bool) d x : Prop := match shown co d x with Some y => readable y.1.1.1 = true | None => False end.
#[export] Instance byte_readable_dec co d x : Decision (byte_readable co d x).
Proof. unfold byte_readable. destruct (shown co d x); apply _. Defined.

Lemma all_readable_iff co d ex : Forall (λ n, byte_readable co d (e_offset ex + Z.of_nat n)) (seq 0 (Z.to_nat (e_length ex))) ↔ all_readable co d ex.
Proof.
  rewrite Forall_forall. unfold byte_readable. split.
  - intros H x Hx. unfold in_range in Hx. specialize (H (Z.to_nat (x - e_offset ex))). rewrite elem_of_seq in H. specialize (H ltac:(lia)).
    replace (e_offset ex + Z.of_nat (Z.to_nat (x - e_offset ex))) with x in H by lia. destruct (shown co d x) as [y|]; [by exists y|done].
  - intros H n Hn. rewrite elem_of_seq in Hn. destruct (H (e_offset ex + Z.of_nat n)) as (y & -> & Hy); [unfold in_range; lia|done].
Qed.
#[export] Instance all_readable_dec co d ex : Decision (all_readable co d ex).
Proof. refine (cast_if (decide (Forall (λ n, byte_readable co d (e_offset ex + Z.of_nat n)) (seq 0 (Z.to_nat (e_length ex)))))); by rewrite <- all_readable_iff. Defined.

(** The two results of one run are one. *)
Ltac same_run := match goal with H1 : ?X = Ok _, H2 : ?X = Ok _ |- _ => rewrite H1 in H2; (injection H2 as -> -> || injection H2 as ->) end.

Section steps.
Context (rest : bhstate → Z) (orest : Z).
Abbreviation sound := (sound rest orest).

Lemma put_bytes_in truth ex wrbl bo x : write_args ex wrbl bo → put_bytes truth (e_offset ex) (slice wrbl bo (e_length ex)) x =
  if decide (in_range (e_offset ex) (e_offset ex + e_length ex) x) then default 0 (wrbl !! Z.to_nat (bo + (x - e_offset ex))) else truth x.
Proof.
  intros [H0 Hl Hhi _ Hb Hw _]. unfold put_bytes. assert (Z.of_nat (length (slice wrbl bo (e_length ex))) = e_length ex) as -> by (unfold slice; rewrite length_take, length_drop; lia).
  case_decide as Hx; [|done]. unfold in_range in Hx. unfold slice. rewrite lookup_take_lt, lookup_drop by lia. do 2 f_equal. lia.
Qed.

Lemma shown_truth truth c x y : coherent truth c → shown (complete c) (data c) x = Some y → readable y.1.1.1 = true → y.1.2 = Some (truth x).
Proof.
  intros [Hb Hr] Hs Hy. unfold shown in Hs. destruct (view (data c) x) as [z|] eqn:E; [injection Hs as <-; by apply Hb|]. destruct (complete c) eqn:Ec; [|done]. injection Hs as <-. cbn. f_equal.
  symmetry. apply (Hr eq_refl). by intros z ?%(eq_trans (eq_sym E)).
Qed.

(** Bytes as they were, or made unreadable where the object says nothing else. *)
Lemma coherent_same truth c c' : coherent truth c → (complete c' = true → complete c = true) →
  (∀ x y, view (data c') x = Some y → readable y.1.1.1 = true → ∃ z, view (data c) x = Some z ∧ readable z.1.1.1 = true ∧ z.1.2 = y.1.2) →
  (∀ x z, view (data c) x = Some z → readable z.1.1.1 = true → ∃ y, view (data c') x = Some y ∧ readable y.1.1.1 = true) → coherent truth c'.
Proof.
  intros [Hb Hr] Hc H1 H2. constructor.
  - intros x y Hy Hry. destruct (H1 x y Hy Hry) as (z & Hz & Hrz & <-). by apply Hb.
  - intros Hco x Hx. apply (Hr (Hc Hco)). intros z Hz. destruct (readable z.1.1.1) eqn:E; [|done]. destruct (H2 x z Hz E) as (y & Hy & Hry). by rewrite (Hx y Hy) in Hry.
Qed.

Lemma sound_write truth c ex wrbl bo snapc now dn : write_args ex wrbl bo → sound c → coherent truth c →
  ∃ c', writex_extent ex wrbl snapc now dn c = Ok (tt, c') ∧ sound c' ∧ other c' = other c ∧ coherent (put_bytes truth (e_offset ex) (slice wrbl bo (e_length ex))) c' ∧
    ∀ x, view (data c') x = if decide (in_range (e_offset ex) (e_offset ex + e_length ex) x) then Some (written wrbl bo (e_offset ex) (data c) x) else view (data c) x.
Proof.
  intros Hw [Ha Hd Hfi Hse] [Hb Hr]. pose proof Hw as [H0 Hl Hhi Hone Hbo Hbuf Hlim].
  destruct (writex_ok rest orest c ex wrbl bo snapc now dn Ha Hd Hfi Hse H0 Hl Hhi Hone Hbo Hbuf Hlim) as (d' & (c' & E & Hc' & Ha' & Ho') & Hd' & Hf' & Hs' & Hv).
  exists c'. rewrite Hc'. split; [done|]. split; [by constructor; rewrite ?Hc'|]. split; [done|]. split; [|done]. assert (complete c' = complete c) as Eco by by injection Ho'. constructor; rewrite ?Hc'.
  - intros x y. rewrite Hv, (put_bytes_in truth ex wrbl bo x Hw). case_decide as Hx; [|apply Hb]. intros [= <-] _. cbn. unfold in_range in Hx.
    destruct (lookup_lt_is_Some_2 wrbl (Z.to_nat (bo + (x - e_offset ex)))) as [v ->]; [lia|done].
  - rewrite Eco. intros Hco x. rewrite Hv, (put_bytes_in truth ex wrbl bo x Hw). case_decide as Hx; [intros Hn; by specialize (Hn _ eq_refl)|]. by apply Hr.
Qed.

Lemma coherent_forgets truth c c' : coherent truth c → forgets rest orest c c' → c' = c ∨ complete c' = false → coherent truth c'.
Proof. intros [Hb Hr] Hf [->|Hc]; [done|]. constructor; [|by rewrite Hc]. intros x y Hy. by apply Hb, (fo_view _ _ _ _ Hf). Qed.

Lemma sound_read truth c ms lru re cow ext t tids ex : one_range ex → lru_ok lru → re && negb (exists_ c) = false → ext = true ∨ no_errors (data c) ex → sound c → coherent truth c →
  ∃ r c', readx ms lru re cow ext (Some t) tids ex c = Ok (r, c') ∧ sound c' ∧ coherent truth c' ∧
    ((∃ bs, r = ReadDone bs ∧ Z.of_nat (length bs) = e_length ex ∧ ∀ x, in_range (e_offset ex) (e_offset ex + e_length ex) x → bs !! Z.to_nat (x - e_offset ex) = Some (truth x)) ∨ r = ReadDeferred ∧ registered t c').
Proof.
  intros Hone Hlru Hre Hext Hs Hco. destruct (decide (all_readable (complete c) (data c) ex)) as [Hall|Hall].
  - destruct (readx_hit rest orest c ex ms lru re cow ext (Some t) tids Hs Hone Hlru Hre Hall) as (bs & c1 & c' & E & [Hlb Hbs] & Hs' & Ho & Hv & Hf & Hc'). exists (ReadDone bs), c'. split; [done|]. split; [apply Hf|]. split.
    + apply (coherent_forgets truth c1 c'); [|done..]. assert (complete c1 = complete c) as Eco by by injection Ho. constructor.
      * intros x y. rewrite Hv. case_decide; [intros Hy; by apply (shown_truth truth c)|apply Hco].
      * rewrite Eco. intros Hc x. rewrite Hv. case_decide as Hx; [|by apply Hco]. destruct (Hall x Hx) as (y & Hy & Hry). intros Hn. by rewrite (Hn y Hy) in Hry.
    + left. exists bs. split; [done|]. split; [done|]. intros x Hx. destruct (Hbs x Hx) as (y & Hy & Hry & <-). by apply (shown_truth truth c).
  - destruct (readx_waits rest orest c ex ms lru re cow ext t tids Hs Hone Hre Hall Hext) as (c' & E & Hs' & Hreg & _ & H1 & H2 & Hc & _). exists ReadDeferred, c'. split; [done|]. split; [done|]. split; [|by right].
    constructor.
    + intros x y Hy Hry. destruct (H2 x y Hy Hry) as [w Hw]. by apply (shown_truth truth c x _ Hco Hw).
    + rewrite Hc. intros Hcc x Hn. apply (co_rest _ _ Hco Hcc). intros y Hy. destruct (readable y.1.1.1) eqn:Er; [|done].
      destruct (H1 x y Hy) as [w Hw]; [intros Ee; by rewrite Ee in Er|]. specialize (Hn _ Hw). cbn in Hn. congruence.
Qed.

Lemma sound_answer truth c tid start b bl r trust : pending (data c) tid start b → Z.of_nat (length bl) <= bh_length b → r ≠ - ENOENT →
  (0 <= r → ∀ x, in_range start (bh_end b) x → padded bl (bh_length b) r !! Z.to_nat (x - start) = Some (truth x)) → sound c → coherent truth c →
  ∃ res c', apply_read tid start (bh_length b) bl r trust c = Ok (res, c') ∧ sound c' ∧ coherent truth c'.
Proof.
  intros [Hb Hst Htid] Hbl Hr Hans Hs Hco. destruct (read_finish_ok rest orest c tid start b bl r trust Hs Hb Hst Htid Hbl Hr) as (c' & E & Hs' & Ec & _ & _ & Hv).
  eexists _, c'. split; [exact E|]. split; [done|]. constructor.
  - intros x y. rewrite Hv. case_decide as Hx; [|apply Hco]. unfold answer. destruct (Z.leb_spec 0 r); [|by intros [= <-]]. intros [= <-] _. cbn. by apply Hans.
  - rewrite Ec. intros Hc x. rewrite Hv. case_decide as Hx; [|by apply Hco]. unfold answer. destruct (0 <=? r); [intros Hn; by specialize (Hn _ eq_refl)|]. intros _.
    apply (co_rest _ _ Hco Hc). intros y. rewrite (view_head _ start b x (so_shape _ _ _ Hs) Hb Hx). intros [= <-]. cbn. by rewrite Hst.
Qed.

Lemma sound_no_object truth c tid start b bl : pending (data c) tid start b → (∀ x, (∀ y, view (data c) x = Some y → readable y.1.1.1 = false) → truth x = 0) → sound c → coherent truth c →
  ∃ res c', apply_read tid start (bh_length b) bl (- ENOENT) true c = Ok (res, c') ∧ sound c' ∧ coherent truth c'.
Proof.
  intros [Hb Hst Htid] Hzero Hs Hco. destruct (read_enoent_ok rest orest c tid start b bl Hs Hb Hst Htid) as (res & c' & E & Hs' & _ & _ & H1 & H2).
  exists res, c'. split; [done|]. split; [done|]. constructor.
  - intros x y Hy Hry. destruct (H1 x y Hy) as [w Hw]. by apply (co_byte _ _ Hco x _ Hw).
  - intros _ x Hn. destruct (view (data c) x) as [y|] eqn:Ey; [|apply Hzero; by rewrite Ey]. destruct (readable y.1.1.1) eqn:Er; [|apply Hzero; rewrite Ey; by intros z [= <-]].
    destruct (H2 x y Ey Er) as [E0|[w Hw]]; [|specialize (Hn _ Hw); cbn in Hn; congruence]. pose proof (co_byte _ _ Hco x y Ey Er). congruence.
Qed.

Lemma sound_write_back truth c k b tid : map_find (data c) k = Some b → bh_state b = STATE_DIRTY → sound c → coherent truth c →
  ∃ c', bh_write k tid c = Ok (tt, c') ∧ sound c' ∧ coherent truth c'.
Proof.
  intros Hb Hst Hs Hco. destruct (bh_write_ok rest orest c k b tid Hs Hb Hst) as (c' & E & Hs' & _ & _ & _ & Ec & _ & Hv). exists c'. split; [done|]. split; [done|].
  assert (∀ x, in_range k (bh_end b) x → view (data c) x = Some (STATE_DIRTY, 0, byte_of b x, map_find (bh_waitfor_read b) x)) as Hx0.
  { intros x Hx. rewrite (view_head _ k b x (so_shape _ _ _ Hs) Hb Hx). unfold cell_of, tag. by rewrite Hst. }
  apply (coherent_same truth c c' Hco); [by rewrite Ec|..]; intros x y; rewrite Hv; case_decide as Hx.
  - intros [= <-] _. eexists. split; [by apply Hx0|done].
  - intros Hy Hr. by exists y.
  - intros _ _. by eexists.
  - intros Hy Hr. by exists y.
Qed.

Lemma sound_commit truth c start len tid r cow : commits (data c) start len tid → ob_last_commit_tid c < tid → S (length (filter (λ o, wc_tid o ≠ tid) (ob_writes c))) = length (ob_writes c) → sound c → coherent truth c →
  ∃ res c', bh_write_commit start len tid r cow c = Ok (res, c') ∧ sound c' ∧ coherent truth c'.
Proof.
  intros Hcm Hlt Hone Hs Hco. destruct (bh_write_commit_ok rest orest c start len tid r cow Hs Hcm Hlt Hone) as (clean & c' & E & Hs' & _ & _ & Ec & _ & _ & _ & Hv).
  eexists _, c'. split; [exact E|]. split; [done|]. assert (∀ y, readable (commit_cell r tid y).1.1.1 = readable y.1.1.1 ∧ (commit_cell r tid y).1.2 = y.1.2) as Hcell.
  { intros y. unfold commit_cell. case_decide as Hy; [|done]. destruct Hy as [-> _]. unfold commit_state. by destruct (0 <=? r). }
  apply (coherent_same truth c c' Hco); [rewrite Ec; by destruct (exists_ c), cow|..].
  - intros x y. rewrite Hv. destruct (view (data c) x) as [z|]; [|done]. intros [= <-]. destruct (Hcell z) as [-> ->]. intros Hr. by exists z.
  - intros x z. rewrite Hv. intros -> Hr. eexists. split; [done|]. by rewrite (proj1 (Hcell z)).
Qed.

Lemma sound_truncate truth c s : no_waiters (data c) s limit → sound c → coherent truth c → ∃ c', truncate s c = Ok (tt, c') ∧ sound c' ∧ coherent (λ x, if x <? s then truth x else 0) c'.
Proof.
  intros Hn Hs Hco. destruct (truncate_ok rest orest s c Hs Hn) as (c' & E & Hs' & Ho & Hv). exists c'. split; [done|]. split; [done|]. assert (complete c' = complete c) as Ec by by injection Ho. constructor.
  - intros x y. rewrite Hv. unfold below. destruct (x <? s); [apply Hco|done].
  - rewrite Ec. intros Hc x. rewrite Hv. unfold below. destruct (x <? s); [by apply Hco|done].
Qed.
Lemma sound_discard truth c off len : 0 < len → no_waiters (data c) off (off + len) → sound c → coherent truth c → ∃ c', discard off len c = Ok (tt, c') ∧ sound c' ∧ coherent (zero_bytes truth off (off + len)) c'.
Proof.
  intros Hl Hn Hs Hco. destruct (discard_ok rest orest off len c Hs Hl Hn) as (c' & E & Hs' & _ & Ec & Hv). exists c'. split; [done|]. split; [done|]. constructor; [|by rewrite Ec].
  intros x y. rewrite Hv. unfold outside, zero_bytes. case_decide; [done|apply Hco].
Qed.

Lemma sound_flush truth c off len tids r c' : flush off len tids c = Ok (r, c') → sound c → coherent truth c → sound c' ∧ coherent truth c'.
Proof.
  intros E Hs Hco. apply (flush_keeps (λ c, sound c ∧ coherent truth c)) in E; [done| |done]. intros k b t c1 c2 [Hs1 Hc1] Hb Hd E2.
  destruct (sound_write_back truth c1 k b t) as (c3 & E3 & H); [done..|]. by same_run.
Qed.
Lemma sound_release truth c n c' : release c = Ok ((false, n), c') → sound c → coherent truth c → sound c' ∧ coherent truth c'.
Proof.
  intros E Hs [Hb _]. destruct (release_ok rest orest c n c' Hs E) as (c1 & Hf & Hs' & Hd & Hc). split; [done|]. constructor; [|by rewrite Hc].
  rewrite Hd. intros x y Hy. by apply Hb, (fo_view _ _ _ _ Hf).
Qed.
Lemma sound_clear truth c c' : clear_nonexistence c = Ok (tt, c') → sound c → coherent truth c → sound c' ∧ coherent truth c'.
Proof.
  intros E Hs [Hb Hr]. destruct (clear_nonexistence_ok rest orest c Hs) as (c1 & E1 & Hs' & Hd & Hc). same_run. split; [done|]. constructor; rewrite Hd; auto.
Qed.

Lemma cstep_coherent s s' : cstep s s' → sound s.2 → coherent s.1 s.2 → sound s'.2 ∧ coherent s'.1 s'.2.
Proof.
  destruct 1; cbn; intros Hs Hco.
  - destruct (sound_write truth c ex wrbl bo snapc now dn) as (c1 & E & H1 & _ & H2 & _); [done..|]. by same_run.
  - destruct (sound_read truth c ms lru re cow ext t tids ex) as (r1 & c1 & E & H4 & H5 & _); [done..|]. by same_run.
  - destruct (trim_ok rest orest ms lru c) as (c1 & E & Hf & Hc); [done..|]. same_run. split; [apply Hf|]. by eapply coherent_forgets.
  - by eapply sound_flush.
  - by eapply sound_release.
  - by eapply sound_clear.
  - destruct (sound_answer truth c tid start b bl r trust) as (res1 & c1 & E & H5 & H6); [done..|]. by same_run.
  - destruct (sound_no_object truth c tid start b bl) as (res1 & c1 & E & H5 & H6); [done..|]. by same_run.
  - destruct (sound_write_back truth c k b tid) as (c1 & E & H5 & H6); [done..|]. by same_run.
  - destruct (sound_commit truth c start len tid r cow) as (res1 & c1 & E & H5 & H6); [done..|]. by same_run.
  - destruct (sound_truncate truth c s) as (c1 & E & H5 & H6); [done..|]. by same_run.
  - destruct (sound_discard truth c off len) as (c1 & E & H5 & H6); [done..|]. by same_run.
Qed.
Lemma csteps_coherent s s' : rtc cstep s s' → sound s.2 → coherent s.1 s.2 → sound s'.2 ∧ coherent s'.1 s'.2.
Proof. induction 1 as [|s s1 s' Hst _ IH]; [done|]. intros Hs Hc. destruct (cstep_coherent _ _ Hst Hs Hc). by apply IH. Qed.

Lemma step_keeps t c t' c' : cstep (t, c) (t', c') → sound c → coherent t c → sound c' ∧ coherent t' c'.
Proof. intros Hst. exact (cstep_coherent _ _ Hst). Qed.
Lemma steps_keep t c t' c' : rtc cstep (t, c) (t', c') → sound c → coherent t c → sound c' ∧ coherent t' c'.
Proof. intros Hst. exact (csteps_coherent _ _ Hst). Qed.
End steps.

(** A write, what its wait does, and the trim at its end. *)
Lemma writex_steps truth c ms lru wait ex wrbl bo snapc now dn r c' truth' :
  write_args ex wrbl bo → lru_ok lru →
  (∀ c1 r c2, wait c1 = Ok (r, c2) → rtc cstep (put_bytes truth (e_offset ex) (slice wrbl bo (e_length ex)), c1) (truth', c2)) →
  writex ms lru wait ex wrbl snapc now dn c = Ok (r, c') → rtc cstep (truth, c) (truth', c').
Proof.
  intros Hw Hl Hwait. unfold writex, mbind, M_bind. destruct (writex_extent ex wrbl snapc now dn c) as [[[] c1]|] eqn:E1; [|done].
  destruct (wait c1) as [[r1 c2]|] eqn:E2; [|done]. destruct (trim ms lru c2) as [[[] c3]|] eqn:E3; [|done]. intros [= <- <-].
  eapply rtc_l; [by eapply step_write|]. etransitivity; [by eapply Hwait|]. eapply rtc_l; [by eapply step_trim|apply rtc_refl].
Qed.

(** ** Properties *)

(** The least recently used is the one with the lowest offset. *)
Definition by_offset (d : buffers) : list Z := keys (filter (λ x : Z * BufferHead, is_clean x.2 || is_zero x.2) d).
Definition nothing_idle (d : buffers) : list Z := [].
Lemma by_offset_ok : lru_ok by_offset.
Proof. intros d. apply idle_keys. Qed.
Lemma nothing_idle_ok : lru_ok nothing_idle.
Proof. intros d _. split; [constructor|by intros k ?%elem_of_nil]. Qed.

Definition empty_cache : cache := Cache [] false true 0 0 0 0 0 [] [] [] (λ _, 0) [] [] 0 0.
Definition alone : bhstate → Z := λ _, 0.
Definition extent_of (off len : Z) (fs : list (Z * Z)) : ObjectExtent := ObjExtent [] 0 off len 0 (Locator 0 [] [] (-1)) fs.
Definition after_run {A} (m : M cache A) c : cache := match m c with Ok (_, c') => c' | Fault _ => c end.

Lemma empty_sound : sound alone 0 empty_cache.
Proof.
  constructor; [|by constructor; [constructor|..]|done|done]. constructor; try done; [constructor|]. intros k. split; [by intros ?%elem_of_nil|by intros (b & ? & _)].
Qed.
Lemma empty_coherent : coherent (λ _, 0) empty_cache.
Proof. by constructor. Qed.
Lemma one_range_of off len : 0 <= off → 0 < len → off + len < limit → one_range (extent_of off len [(0, len)]).
Proof. by constructor. Qed.

(** Seven bytes written at 2 and a reader that waits for all of 0 to 12. *)
Definition bytes7 : list Z := [11; 12; 13; 14; 15; 16; 17].
Definition cache1 : cache := after_run (writex_extent (extent_of 2 7 [(0, 7)]) bytes7 no_snapc 5 false) empty_cache.
Definition cache2 : cache := after_run (readx 100 nothing_idle false false true (Some 77) [] (extent_of 0 12 [(0, 12)])) cache1.
Definition truth1 : Z → Z := put_bytes (λ _, 0) 2 (slice bytes7 0 7).

(** Runs that are known by a test of their result. *)
Lemma after_run_unit (m : M cache unit) c : match m c with Ok _ => true | Fault _ => false end = true → m c = Ok (tt, after_run m c).
Proof. unfold after_run. by destruct (m c) as [[[] ?]|]. Qed.
Lemma after_run_deferred (m : M cache read_result) c : match m c with Ok (ReadDeferred, _) => true | _ => false end = true → m c = Ok (ReadDeferred, after_run m c).
Proof. unfold after_run. by destruct (m c) as [[[] ?]|]. Qed.

Lemma step1 : cstep ((λ _, 0), empty_cache) (truth1, cache1).
Proof. apply (step_write _ _ (extent_of 2 7 [(0, 7)]) bytes7 0 no_snapc 5 false); [by constructor|]. apply after_run_unit. vm_compute. reflexivity. Qed.
Lemma step2 : cstep (truth1, cache1) (truth1, cache2).
Proof. apply (step_read _ _ 100 nothing_idle false false true 77 [] (extent_of 0 12 [(0, 12)]) ReadDeferred); [by apply one_range_of|apply nothing_idle_ok|done|by left|]. apply after_run_deferred. vm_compute. reflexivity. Qed.
Lemma steps2 : rtc cstep ((λ _, 0), empty_cache) (truth1, cache2).
Proof. eapply rtc_l; [exact step1|]. eapply rtc_l; [exact step2|]. apply rtc_refl. Qed.



(** what is written is read back: after a write of a part of the caller's
    buffer, a read of any part of that range returns those bytes at once. *)
Theorem write_read_back rest orest c ex wrbl bo snapc now dn rx ms lru re cow ext retry tids :
  sound rest orest c → write_args ex wrbl bo → one_range rx → lru_ok lru → re && negb (exists_ c) = false →
  e_offset ex <= e_offset rx → e_offset rx + e_length rx <= e_offset ex + e_length ex →
  ∃ c1 c2, writex_extent ex wrbl snapc now dn c = Ok (tt, c1) ∧
    readx ms lru re cow ext retry tids rx c1 = Ok (ReadDone (slice wrbl (bo + (e_offset rx - e_offset ex)) (e_length rx)), c2).
Proof.
  intros Hs Hw Hone Hlru Hre Hlo Hhi. pose proof Hw as [H0 Hl Hh Hone' Hbo Hbuf Hlim]. pose proof Hs as [Ha Hd Hfi Hse].
  destruct (writex_ok rest orest c ex wrbl bo snapc now dn Ha Hd Hfi Hse H0 Hl Hh Hone' Hbo Hbuf Hlim) as (d' & (c1 & E & Hc1 & Ha1 & Ho1) & Hd1 & Hf1 & Hs1 & Hv).
  assert (sound rest orest c1) as Hso1 by by constructor; rewrite ?Hc1. assert (exists_ c1 = exists_ c) as Eex by by injection Ho1.
  assert (∀ x, in_range (e_offset rx) (e_offset rx + e_length rx) x → shown (complete c1) (data c1) x = Some (written wrbl bo (e_offset ex) (data c) x)) as Hsh.
  { intros x Hx. unfold in_range in Hx. unfold shown. rewrite Hc1, Hv. by rewrite decide_True by (unfold in_range; lia). }
  destruct (readx_hit rest orest c1 rx ms lru re cow ext retry tids Hso1 Hone Hlru) as (bs & c3 & c2 & E2 & [Hlb Hbs] & _); [by rewrite Eex|intros x Hx; eexists; split; [by apply Hsh|done]|].
  exists c1, c2. split; [done|]. rewrite E2. do 3 f_equal. destruct Hone as [R0 Rl Rh _]. unfold slice. apply list_eq_same_length with (n := Z.to_nat (e_length rx)); [rewrite length_take, length_drop; lia|lia|].
  intros i v w Hi Hv1 Hw1. destruct (Hbs (e_offset rx + Z.of_nat i)) as (y & Hy & _ & Hb); [lia|]. rewrite Hsh in Hy by (unfold in_range; lia). injection Hy as <-. cbn in Hb.
  replace (Z.to_nat (e_offset rx + Z.of_nat i - e_offset rx)) with i in Hb by lia. rewrite lookup_take_lt, lookup_drop in Hw1 by lia.
  replace (Z.to_nat (bo + (e_offset rx + Z.of_nat i - e_offset ex))) with (Z.to_nat (bo + (e_offset rx - e_offset ex)) + i)%nat in Hb by lia. congruence.
Qed.
Lemma write_read_back_witness : ∃ c1 c2, writex_extent (extent_of 2 7 [(0, 7)]) bytes7 no_snapc 5 false empty_cache = Ok (tt, c1) ∧
  readx 100 nothing_idle false false true None [] (extent_of 4 3 [(0, 3)]) c1 = Ok (ReadDone (slice bytes7 (0 + (4 - 2)) 3), c2).
Proof.
  apply (write_read_back alone 0 empty_cache (extent_of 2 7 [(0, 7)]) bytes7 0 no_snapc 5 false (extent_of 4 3 [(0, 3)]) 100 nothing_idle false false true None []);
    first [done | exact nothing_idle_ok | exact empty_sound | by constructor | by apply one_range_of].
Defined.

(** [is_cached] ends, and answers whether there is a buffer at every byte of
    the range. *)
Theorem is_cached_exact d cur left : shape d → 0 <= left →
  ∃ r, is_cached d cur left = Ok r ∧ (r = true ↔ ∀ x, cur <= x < cur + left → is_Some (view d x)).
Proof.
  intros Hd Hl. destruct (is_cached_ok d (walk_fuel d) (data_lower_bound d cur) cur left Hd) as (r & E & Hr); [by apply p_ok_lower_bound|done|apply turns_start|].
  exists r. split; [done|]. rewrite Hr. unfold view. split; intros H x Hx; specialize (H x Hx); [by apply fmap_is_Some|by apply fmap_is_Some in H].
Qed.
Lemma cache1_sound : sound alone 0 cache1.
Proof. exact (proj1 (step_keeps alone 0 _ _ _ _ step1 empty_sound empty_coherent)). Qed.
Lemma cache1_coherent : coherent truth1 cache1.
Proof. exact (proj2 (step_keeps alone 0 _ _ _ _ step1 empty_sound empty_coherent)). Qed.
Lemma is_cached_exact_witness : ∃ r, is_cached (data cache1) 3 4 = Ok r ∧ (r = true ↔ ∀ x, 3 <= x < 3 + 4 → is_Some (view (data cache1) x)).
Proof. apply (is_cached_exact (data cache1) 3 4); [exact (so_shape _ _ _ cache1_sound)|done]. Defined.


(** the answer to a read whose buffer nothing has cut: every context that
    waits in the buffer is returned to be completed, the bytes of the buffer are
    those of the answer, padded with zeros, or an error, and no other byte
    changes. *)
Theorem answer_exact rest orest c tid start b bl r trust :
  sound rest orest c → pending (data c) tid start b → Z.of_nat (length bl) <= bh_length b → r ≠ - ENOENT →
  ∃ err c', apply_read tid start (bh_length b) bl r trust c = Ok ((waiters_of b, err), c') ∧ sound rest orest c' ∧ other c' = other c ∧
    ∀ x, view (data c') x = if decide (in_range start (bh_end b) x) then Some (answer bl start (bh_length b) r x) else view (data c) x.
Proof.
  intros Hs [Hb Hst Ht] Hbl Hr. destruct (read_finish_ok rest orest c tid start b bl r trust Hs Hb Hst Ht Hbl Hr) as (c' & E & H1 & _ & _ & H2 & H3). by exists (if bh_error b <? 0 then bh_error b else 0), c'.
Qed.
Lemma cache2_sound : sound alone 0 cache2.
Proof. exact (proj1 (steps_keep alone 0 _ _ _ _ steps2 empty_sound empty_coherent)). Qed.
Definition head0 : BufferHead := match map_find (data cache2) 0 with Some b => b | None => new_bh 0 0 end.
Lemma answer_exact_witness : ∃ err c', apply_read 1 0 (bh_length head0) [8; 9] 0 true cache2 = Ok ((waiters_of head0, err), c') ∧ sound alone 0 c' ∧
  other c' = other cache2 ∧
  ∀ x, view (data c') x = if decide (in_range 0 (bh_end head0) x) then Some (answer [8; 9] 0 (bh_length head0) 0 x) else view (data cache2) x.
Proof. apply (answer_exact alone 0 cache2 1 0 head0 [8; 9] 0 true); [exact cache2_sound|constructor; vm_compute; reflexivity|vm_compute; discriminate|done]. Defined.

(** a commit of the oldest write under way makes clean, or dirty again when
    it failed, exactly the bytes of that write; the contexts that wait for it are
    returned, and the cacher learns whether the object set has become clean. *)
Theorem commit_exact rest orest c start len tid r cow :
  sound rest orest c → commits (data c) start len tid → ob_last_commit_tid c < tid → S (length (filter (λ o, wc_tid o ≠ tid) (ob_writes c))) = length (ob_writes c) →
  ∃ clean c', bh_write_commit start len tid r cow c = Ok ((default [] (map_find (waitfor_commit c) tid), clean), c') ∧ sound rest orest c' ∧
    ob_last_commit_tid c' = tid ∧ ob_writes c' = filter (λ o, wc_tid o ≠ tid) (ob_writes c) ∧ clean = ((0 <? oset_dirty_or_tx c) && (oset_dirty_or_tx c' =? 0)) ∧
    ∀ x, view (data c') x = commit_cell r tid <$> view (data c) x.
Proof.
  intros Hs Hc Hlt Hone. destruct (bh_write_commit_ok rest orest c start len tid r cow Hs Hc Hlt Hone) as (clean & c' & E & H1 & H2 & _ & _ & _ & H3 & H4 & H5). by exists clean, c'.
Qed.
Definition cache3 : cache := after_run (bh_write 2 9) cache1.
Lemma step3 : cstep (truth1, cache1) (truth1, cache3).
Proof. eapply (step_write_back _ _ 2 _ 9); [vm_compute; reflexivity|reflexivity|]. apply after_run_unit. vm_compute. reflexivity. Qed.
Lemma cache3_data : data cache3 = [(2, MkBH STATE_TX 1 2 7 false bytes7 9 0 5 no_snapc 0 [])].
Proof. vm_compute. reflexivity. Qed.
Lemma commit_exact_witness : ∃ clean c', bh_write_commit 2 7 9 0 false cache3 = Ok ((default [] (map_find (waitfor_commit cache3) 9), clean), c') ∧ sound alone 0 c' ∧
  ob_last_commit_tid c' = 9 ∧ ob_writes c' = filter (λ o, wc_tid o ≠ 9) (ob_writes cache3) ∧ clean = ((0 <? oset_dirty_or_tx cache3) && (oset_dirty_or_tx c' =? 0)) ∧
  ∀ x, view (data c') x = commit_cell 0 9 <$> view (data cache3) x.
Proof.
  assert (∀ k b, map_find (data cache3) k = Some b → k = 2 ∧ b = MkBH STATE_TX 1 2 7 false bytes7 9 0 5 no_snapc 0 []) as Hd.
  { intros k b. rewrite cache3_data. cbn [map_find]. destruct (Z.eqb_spec 2 k) as [<-|]; [by intros [= <-]|discriminate]. }
  apply (commit_exact alone 0 cache3 2 7 9 0 false).
  - exact (proj1 (step_keeps alone 0 _ _ _ _ step3 cache1_sound cache1_coherent)).
  - constructor; intros k b Hb; destruct (Hd k b Hb) as [-> ->]; done.
  - by vm_compute.
  - by vm_compute.
Defined.

(** ** Runs that the code gets wrong

    A buffer that is being read may be cut by a write.  The answer then fills each
    part from the beginning of its own bytes, so the last two bytes of this read
    are the first two of the answer. *)
Definition bytes8 : list Z := [1; 2; 3; 4; 5; 6; 7; 8].
Definition cut_read : cache :=
  after_run (apply_read 1 0 8 bytes8 8 true)
    (after_run (writex_extent (extent_of 4 2 [(0, 2)]) [100; 101] no_snapc 5 false)
      (after_run (readx 100 nothing_idle false false true (Some 77) [] (extent_of 0 8 [(0, 8)])) empty_cache)).
Definition read_bytes (r : res (read_result * cache)) : option (list Z) := match r with Ok (ReadDone bl, _) => Some bl | _ => None end.

Example cut_read_wrong : read_bytes (readx 100 nothing_idle false false true None [] (extent_of 0 8 [(0, 8)]) cut_read) = Some [1; 2; 3; 4; 100; 101; 1; 2].
Proof. vm_compute. reflexivity. Qed.

(** A write whose buffer is in two fragments: the offset of the second in its
    buffer head is the difference the other way round, and wraps. *)
Definition throws {A} (r : res A) : bool := match r with Fault OutOfBounds => true | _ => false end.
Example two_fragments_throw : throws (writex_extent (extent_of 0 4 [(0, 2); (4, 2)]) bytes8 no_snapc 5 false empty_cache) = true.
Proof. vm_compute. reflexivity. Qed.

(** The read that is repeated after an error takes the bytes of a buffer that has
    none. *)
Definition failed_read : cache :=
  after_run (apply_read 1 0 8 [] (-5) true) (after_run (readx 100 nothing_idle false false true (Some 77) [] (extent_of 0 8 [(0, 8)])) empty_cache).
Example retry_after_error_throws : throws (readx 100 nothing_idle false false false (Some 77) [] (extent_of 0 8 [(0, 8)]) failed_read) = true.
Proof. vm_compute. reflexivity. Qed.

(** An answer that there is no object, when it is not to be trusted, ends the read
    and leaves its buffer waiting for another answer. *)
Definition untrusted : cache :=
  after_run (read_finished (λ _ _, mret tt) (ReadOp 0 8 false 1) [] (- ENOENT)) (after_run (readx 100 nothing_idle false false true (Some 77) [] (extent_of 0 8 [(0, 8)])) empty_cache).
Example untrusted_answer_waits : ob_reads untrusted = [] ∧ bh_state <$> map_find (data untrusted) 0 = Some STATE_RX.
Proof. split; vm_compute; reflexivity. Qed.

(** Nine bytes are trimmed when only eight may stay; the object is not complete any
    more. *)
Definition answered : cache := after_run (apply_read 1 0 9 [] 0 true) (after_run (readx 100 nothing_idle false false true (Some 77) [] (extent_of 0 9 [(0, 9)])) empty_cache).
Example trimmed_after_read : read_bytes (readx 8 by_offset false false true None [] (extent_of 0 2 [(0, 2)]) answered) = Some [0; 0] ∧
  data (after_run (readx 8 by_offset false false true None [] (extent_of 0 2 [(0, 2)])) answered) = [].
Proof. split; vm_compute; reflexivity. Qed.

(** A buffer whose read failed is in the same list, and [trim] does not expect it. *)
Definition failed_and_clean : cache := after_run (bh_add (set_bl [1; 2] (set_ref_state 0 STATE_CLEAN (new_bh 8 2)))) failed_read.
Example trim_error_asserts : trim 1 keys failed_and_clean = Fault AssertFailed.
Proof. vm_compute. reflexivity. Qed.
